(* ===== verification/_CoqProject ===== *)
-Q . S2P
Prelude.v
PyFloat.v
PyData.v
StalenessBuffer.v
StalenessInventory.v
InventoryInv.v
InventoryReserve.v
InventoryClear.v
InventoryExchange.v
InventoryOccupy.v
InventoryReach.v
InventoryTheorems.v
TransferQueue.v
RequestStatusTracker.v
TrackerAbort.v
PSManager.v
ManagerTheorems.v
Broadcast.v
BatchSchedule.v
SessionScheduler.v
EnvCoordinator.v
ClusterTopology.v
ScalingPolicy.v
CommandLoop.v
ElasticExecutor.v
SessionRouter.v
SessionTheorems.v
SessionLoop.v
Sharding.v
CommPlan.v
MetaServer.v
RolloutSync.v
RolloutMigrate.v
AgentLoop.v
AgentLoopOps.v
AgentLoopTheorems.v
AgentLoopRuns.v
RewardWorker.v
RewardWorkerTheorems.v
RewardManager.v
RewardTheorems.v
TitoData.v
AgentData.v
AgentRun.v
AgentRunTheorems.v
AgentDataTheorems.v
AgentWorker.v
AgentWorkerTheorems.v
DataProcessor.v
DataMerge.v
DataIds.v
DataSampling.v
DataThread.v
DataRuns.v
DataChecks.v
Locks.v
EnvShell.v
EnvWorker.v
EnvWorkerTheorems.v
TrainerKeys.v
WorkerNames.v
TrainerBatch.v
Trainer.v
TrainerTheorems.v
TrainerChecks.v
Tensors.v
PyStr.v
ModelSlices.v
ShardSplit.v
ShardSplitTheorems.v
QkvLayout.v
WeightLayout.v
WeightLayoutTheorems.v
WeightTransforms.v
WeightTransformsTheorems.v
VllmConverter.v
VllmTheorems.v
HfConverters.v
