(* ===== verification/Prelude.v ===== *)
(** * Verification of PSRL's asynchronous-RL control plane

    PSRL trains a policy with rollouts produced concurrently by many inference
    instances.  A parameter server holds the model; rollout workers pull model
    versions and trainers push new ones.  Training step [b] consumes the data
    collected in buffer [b], and a rollout generated by model version [v] may
    only be used in the steps [v .. v + staleness].  This library models the
    control plane that enforces that rule, together with the components that
    schedule, scale and feed the rollout instances, and proves what each of them
    guarantees.  Paths below are relative to [src/psrl/].

    ** The program's parts

    - [workers/ps/staleness_controller.py]: a [StalenessBuffer] has a fixed number
      of slots, each EMPTY, RESERVED or OCCUPIED; a [StalenessInventory] owns the
      buffers, the prompt tracker, the cache of buffer ids by status and the
      deletion marks.  Requests reserve a slot before they are generated and
      occupy one when their group is finished.
    - [workers/ps/request_status_tracker.py]: status, metadata and abort mark of
      every request in flight, with the version fence [_running_min_version].
    - [workers/ps/ps_manager.py]: the actor that owns the tracker, the training
      and the validation inventory, the model store and the push/pull lock, and
      composes their operations (reservation, group abortion, ready buffers).
    - [workers/ps/broadcast.py]: the tree along which initial weights are sent.
    - [utils/transferqueue_utils.py]: payload keys and their validation.
    - [trainer/ppo/batch_schedule.py]: how a training batch is cut into updates.
    - [workers/gen/session_router.py]: the proxy through which agent sessions send
      their turns; it can hang a session between turns and continue it later.
    - [workers/gen/rollout_coordination/session/thunder_agent.py]: which sessions
      to hang and to readmit, by KV-cache capacity, and the loop that reads the
      router and posts the decision back to it.
    - [utils/server/command.py], [workers/gen/rollout_coordination/command_loop.py]:
      commands (ABORT, SYNC, SLEEP, WAKE_UP) queued at a coordinator, executed by
      its loop and answered to the caller.
    - [workers/gen/rollout_coordination/coordinator.py] and [sync_and_migrate/]: the
      model version of every rollout instance, the loops that synchronise lagging
      instances with the parameter server, and the migration of requests away from
      overloaded ones; [status_loop.py]: the statistics those decisions use.
    - [utils/elastic_rm/]: which instance runs on which GPUs ([cluster_topology]),
      when to wake or put to sleep an instance ([scaling_policy]), and the
      executor that carries the decisions out by commands ([elastic_executor]).
    - [utils/nixl/]: how tensors are cut into shards ([nixl_spec]), which client
      sends which shard to which ([comm_plan], [network_topology]), and the server
      that collects the clients' metadata ([server]).
    - [workers/env_worker/coordinator.py]: placement of sandboxes on workers;
      [worker.py], [shell.py], [sandbox.py], [manager.py]: the worker that runs the
      sandboxes of a node, with a persistent shell and GPUs for each, and the
      placement of the workers themselves.
    - [trainer/ppo/ray_trainer.py] and [strategies/]: the driver.  It loads a
      checkpoint, pushes the weights, and in every step takes the buffer of that
      step, whole or in chunks, computes on it, updates critic and actor, pushes
      the model, saves and validates; a colocated actor shares its GPUs with
      validation instances and is asleep while they run.
    - [utils/dataset/data_processor.py]: batches and request ids for training and
      validation, a background thread that dispatches them, sampling for refills.
    - [utils/ray/lock_context.py]: locks and the contexts that poll them, the
      push/pull lock of the parameter server among them.
    - [utils/common/worker_naming.py]: the names workers have on the meta server.
    - [utils/converter/]: how the weights of the trainer (FSDP), of the storage
      (the checkpoint's layout) and of the inference engine (vLLM) are described as
      shards of common tensors, so that a push from one is a pull of the other;
      [../patch/vllm/vllm_plugin/vllm_patches/weight_layout.py]: a model's own
      description of how its fused parameters come apart.
    - [workers/agent_loop/manager.py]: dispatches prompts to the agent-loop workers
      at the pace of the model version, collects their results, has finished
      groups occupied, refills failed ones and hands buffers or chunks of buffers
      to the trainer.
    - [workers/agent_loop/worker.py], [loops/] and [agent_data/]: an episode of a
      request, from the generation requests to the tokens, masks and log
      probabilities that are trained on, its retries and the report of its end;
      [utils/tito/training_data.py]: the same data from a recorded session.
    - [workers/reward/reward_manager.py], [reward_worker.py]: rewards computed by
      workers and delivered to whoever waits for them.

    ** Files

    - [Prelude]: the state-and-exception monad [M S A] (a raised exception keeps
      the state reached, as Python does), loops, the order in which a Python set
      is iterated as the class [SetOrder], minimum, maximum and stable sorting,
      generic lemmas, the hint database [psrl], the frame predicate [keeps] and
      the tactics [mrun], [keeps_tac], [compute_run].
    - [PyFloat]: Python floats as binary64 numbers, their comparisons, stable
      sorting by a float key; [PyData]: insertion-ordered dictionaries, [int] and
      [str] of integers, JSON values and their truth, [int] and [round] of floats.
    - [StalenessBuffer]: data and operations of entries and buffers, the shape
      invariant [wf_buffer] and the classification [get_status] computes.
    - [StalenessInventory]: every operation of the inventory.
    - [InventoryInv]: the invariant [inv_ok] (shape, tracker and slots in
      bijection, exact status cache) and the staleness window [window_ok].
    - [InventoryReserve], [InventoryClear], [InventoryExchange],
      [InventoryOccupy]: what one run of each operation does.
    - [InventoryReach]: the operations as a step relation [train_step] and the
      invariant of every reachable inventory; [InventoryTheorems]: the theorems
      about whole operations and the concrete runs that exhibit defects.
    - [TransferQueue], [RequestStatusTracker], [TrackerAbort]: payload keys, the
      tracker with its invariant [tracker_ok], and abortion.
    - [PSManager], [ManagerTheorems]: the manager and its theorems.
    - [Broadcast], [BatchSchedule], [SessionScheduler], [EnvCoordinator]: one
      component each, definitions first.
    - [ClusterTopology], [ScalingPolicy], [CommandLoop], [ElasticExecutor]: elastic
      resource management; the executor uses the other three.
    - [SessionRouter]: the router's handlers, cut at their awaits, the step relation
      [world_step] over router state and handlers in flight, and its invariant
      [world_ok]; [SessionTheorems]: the theorems; [SessionLoop]: one iteration of
      the scheduling loop over that router, with what the router does for its other
      clients while the loop waits.
    - [RolloutSync]: version tables, [sync_with_ps] and its background completion,
      one round of each loop; [RolloutMigrate]: the status stream, the
      synchronisation check and the migration, which run the methods of [PSManager]
      on a pair of coordinator and manager.
    - [Sharding], [CommPlan], [MetaServer]: shard meshes and their refinement, the
      communication plan, and the unification of all clients' shardings.
    - [AgentLoop]: state of the agent-loop manager and the methods that stay inside
      it; [AgentLoopOps]: the methods that call other actors, over a [World] of
      agent-loop manager, [PSManager] and TransferQueue; [AgentLoopTheorems],
      [AgentLoopRuns]: their theorems and whole runs.
    - [RewardWorker], [RewardWorkerTheorems], [RewardManager], [RewardTheorems]: the
      reward workers and the manager that dispatches to them.
    - [TitoData]: training data of a session; [AgentData]: session, trajectories and
      steps; [AgentRun]: termination reasons, generation requests and the loops;
      [AgentRunTheorems]: the abstract machine of episodes and the refinement;
      [AgentDataTheorems]: rows, returns and segments; [AgentWorker],
      [AgentWorkerTheorems]: the worker, over a [Site] that holds a [World].
    - [DataProcessor]: the data processor over the class [ColumnOps] of its containers;
      [DataMerge], [DataIds], [DataSampling], [DataThread], [DataRuns]: theorems on
      merged batches, ids, sampling, the thread beside the processor's other methods
      and the thread alone; [DataChecks]: concrete runs.
    - [Locks]: both locks, and lock contexts over the class [PollLock], whose
      instances are the busy-polling lock and the push/pull lock of [PSManager].
    - [EnvShell]: wrapped commands, sentinels and observations; [EnvWorker]: the
      worker's calls and its step relation [worker_step]; [EnvWorkerTheorems].
    - [TrainerKeys]: polled keys and multi-trajectory advantages; [TrainerBatch]:
      sizes, balancing and the broadcast plan; [Trainer]: the driver over the
      class [TrainerEnv], which says which remote call fails; [TrainerTheorems]:
      the triples [spec] and what they show for every run; [TrainerChecks]: resume,
      and runs in a concrete environment.
    - [WorkerNames]: worker keys and names.
    - [Tensors]: the class [TensorOps] of tensor operations with its laws
      [TensorLaws], and the instance [views], functions from indices, that satisfies
      them; [PyStr]: string methods.
    - [ModelSlices]: model information, name tests and the slices of fused
      parameters; [ShardSplit], [ShardSplitTheorems]: splitting a fused shard into the
      shards of its components; [QkvLayout]: query, key and value weights arranged
      by groups of heads, and the block of a rank ([qkv_block]).
    - [WeightLayout], [WeightLayoutTheorems]: transforms, name maps, rules, plans,
      their flattening and the builder; [WeightTransforms],
      [WeightTransformsTheorems]: what each transform does to a tensor and the
      execution of a plan.
    - [VllmConverter], [VllmTheorems]: the converter of the inference engine;
      [HfConverters]: those of the storage and of FSDP ranks.

    Attributes are record fields of the same name; a method is a definition of
    the same name without leading underscore (methods of the manager whose name
    the inventory also has carry the prefix [mgr_]; [decide] of the session
    scheduler is [decide_sessions] and that of the scaling policy
    [decide_scaling]; [_abort_requests] is [abort_requests_status]).  An [async]
    method is split where it awaits another party: [exec_begin] and [exec_end],
    [scale_down_begin] and [scale_down_end], [chat_gate], [chat_send] and
    [chat_end].  In [RolloutSync], [RolloutMigrate] and [AgentLoopOps] a method is one definition
    that applies, at each await, an arbitrary state transformer [env]: what other
    coroutines did meanwhile.  [thunder_agent_tick] gets what the router did at its
    two awaits, and the background thread of [DataProcessor] the argument [beside]:
    what other methods did at each point ([ThreadPoint]) where they can run.  A field declared
    [T | list[T]] is a [one_or_many T].  A dictionary is a [gmap] where its order
    is not observable and an association list where it is.  Calls to other
    actors are recorded in order ([sent], [notices], [calls], [upstream],
    [commands], [posts]).

    ** What the theorems show

    - Staleness: every occupied entry of a reachable inventory is within the
      window of its version; reservations take the latest buffer with room;
      occupation succeeds and takes the earliest one, never later than the
      reservation; clearing and deleting remove exactly what they are given.
    - Abortion: the versions selected are exactly those whose window is ready;
      the fences of manager and tracker move together; aborted versions and
      requests cannot make progress; the stages that run an aborted request are
      told.
    - Manager: pushes exclude pulls; a pull gives what was pushed; pushing deletes
      consumed buffers only; reservation and occupation through the manager keep
      its invariant.
    - Tracker: a status update is exact, total and keeps the maps consistent.
    - Schedules: a batch schedule covers each sample once per epoch in whole
      requests; session scheduling restores and respects KV capacity; sandbox
      accounting is exact under every interleaving; the broadcast reaches each
      rank once, from a rank that has the weights.
    - Sessions: under every interleaving of handlers the in-flight count is the
      number of open turns, deletions wait for them and answer every waiting turn of the
      session object they close (its id may be opened anew), a continue request
      releases the blocked turns; one tick of the scheduling loop hangs and continues
      what the scheduler decided, in the states the router has when the requests arrive.
    - Elastic resources: the reverse index and the conflict query are exact,
      selections share no GPU, a policy tick answers at most one admissible
      action, wakes a starved role and respects the cooldown, a scale-down task
      keeps the minimum awake, a decision blocks the policy until its tasks are
      done; a command's caller gets the result of its own command.
    - Versions: a synchronisation takes all instances of the awake replicas it was
      asked for and leaves coordinator and gateway with the version each replica pulled; a greedy round selects exactly the instances
      that are due; the synchronisation check and the migrated instance are
      characterised exactly; coalescing status messages changes nothing; what a
      failed pull, an aborted request and a failed migration leave behind.
    - Weight transfer: refinement keeps a partition of a tensor a partition, the
      unified shardings share one mesh and cover what was covered, and the plan
      gives every target each of its shards from exactly one source that has it,
      or raises exactly when that is impossible.
    - Agent-loop manager: dispatch sends nothing before it saw the version it needs,
      never runs ahead of the model by more than the staleness, and goes on at the
      first poll that shows the version; a plan deals the prompts to
      the workers in turn; a failed group is handled once; the breaker trips on the
      streak it is configured for and ends the waits; the chunks of a buffer are
      complete, sorted and disjoint.
    - Rewards: a worker answers or drops each request it accepted once, within its
      bounds, and drops exactly for aborts; each waiting caller gets the rewards of
      its keys, whichever order they come in; only the latest attempt counts; an abort ends every wait.
    - Episodes: the multi-turn loop refines an abstract machine in which the model
      always continues exactly the recorded tokens, the mask tells its tokens from
      the environment's and the context keeps to its window; the training data of a
      session is its token store; step rewards are the reference's; the worker
      never loses the slot of a request.
    - Data: merged batches keep every row; ids are distinct; a refill gets the
      next prompts in order and fetches no batch it does not use; the thread alone
      dispatches the configured number of batches and ends, and beside refills it
      numbers its requests apart from theirs and stops in time; waiting and polled locks exclude as they should.
    - Environments: a GPU is busy exactly when a registered sandbox holds it; a
      command's output and exit status are read back from any division into
      chunks; a failed probe cleans up; timeouts need a silent read.
    - Trainer: whatever call fails, the colocated actor works only while awake; reference log-probabilities that the actor computes included; a
      step with an actor update pushes the model once, last; the loop ends after
      taking the remaining buffers in order; a checkpoint resumes at its step, from
      the folders it was saved to;
      balancing permutes the samples; chunks are whole prompts and mini-batches; a
      session's trajectories share the advantage of its final one under GRPO, and
      other estimators get the whole batch.
    - Names: no two workers of a deployment share one.
    - Weights: a fused shard is split without loss and each piece has the shards
      its sharding names; storage, FSDP ranks and inference ranks describe a query,
      key or value weight as blocks of one and the same tensor; flattening a plan
      keeps the rules that apply to a parameter; the rotary permutation is undone;
      a merged weight is cut completely, experts are exported once; a name map of
      prefixes undoes itself.
    - Defects of the code are theorems on concrete runs or general statements
      ([redundant_exchange_breaks_window], [merge_request_alignment],
      [abort_group_marks_wrong_request], [timed_out_command_kills_loop],
      [scaling_never_recorded], [lost_turn_blocks_delete],
      [two_shard_client_breaks_unification], [aborted_request_breaks_migration],
      [push_during_sync_hides_version], [filtered_buffer_stuck],
      [early_abort_starves_worker], [normalized_rewards_raise],
      [aborted_reward_counts_as_failure], [recovered_turn_trains_on_env],
      [resume_restores_nothing], [cancelled_waiter_wedges], [stale_status],
      [unknown_scope_never_trains], [trailing_slash_resume], [uneven_heads],
      [experts_lost], [gated_head_size], [extend_drops_includes] and others).

    ** Bounds and fuel

    Few recursions are not structural in the source.  [collect_abort_versions]
    gets the number of pending versions as fuel: each round removes one, and
    [abort_versions_exact] shows that the loop has stopped by then.  The sender
    computation of the broadcast runs [num_rounds] rounds as the source does, and
    [broadcast_reaches_once] shows they suffice.  The [greedy] loop of the planner
    gets one more than the number of sources ([greedy_spec]: each round discards
    one), and [gcd] one more than its second argument ([gcd_correct]).  A request
    waiting for a sandbox worker, and the metadata server waiting for its clients,
    are given the list of their polls; running out of polls means that they
    still wait; the dispatch loop gets a number of polls of the model version.  The
    loops over turns and over attempts recurse on the turns and attempts left, as
    their [range] does.  The training loop gets one more than the number of steps
    left, which [fit_loop_terminates] shows to be enough; the chunk loop of a step
    gets a number of chunks, and the theorem assumes that every buffer ends within
    it, as [chunk_stream_exact] shows of the agent-loop manager.  Integers are Python's unbounded integers, [Z]; slot numbers
    are [nat]; floats are binary64.  Where the source compares or divides request
    counts with float thresholds the counts are converted first, which is exact
    below 2^53.

    ** Assumptions and what is not modelled

    [SetOrder] and the [iter] arguments are any enumeration of a set; the shuffle
    of a batch schedule is any permutation; [random.choice] is any element; the
    weighted token count of the session scheduler (a float product) is any
    function that is zero on no tokens, or any function at all; [math.pow], the
    float [sum], clock readings, the age of a timestamp, [repr] of a JSON value,
    the throughput profile, and the answers of servers and coordinators are
    arguments.  The shardings a client sends are its own objects, as unpickled
    ones are.  A redundant result that displaces another reservation
    is outside [train_step], because it does break the window
    ([redundant_exchange_breaks_window]).  Methods of an actor run one at a time
    between awaits, as its lock or event loop makes them.  Tensors are any
    type with the operations of [TensorOps] under the laws of [TensorLaws]; regular
    expressions are a class [Regex], the callables of a custom transform a class
    [Callables].  Not modelled: the attributes that a sliced parameter copies, the
    conversion for Megatron and the actions around its pushes, the transfer of
    tensors (the NIXL client, storage workers), the gRPC service, the
    inference servers and their plugins, the agent loops of external agents, the
    start-up of the trainer's worker groups, its metrics and profiling and the tensor computation
    of its stages, the balancing for prefix grouping, the scoring functions and the arithmetic of reward
    normalisation, multimodal tensors, environments and tools, files and sockets,
    logging and configuration. *)

From Stdlib Require Export ZArith Lia Sorted.
From stdpp Require Export base sets gmap strings functions list list_numbers.

Declare Scope psrl_scope.
Delimit Scope psrl_scope with psrl.
#[global] Open Scope psrl_scope.
#[global] Open Scope Z_scope.

(** ** Python exceptions and the state-and-exception monad

    A method of a long-lived actor reads and writes the attributes of its
    object and may raise.  An exception does not undo the assignments made
    before it, so [Raise] carries the state reached at that point. *)

Inductive exn :=
  | AssertionError | ValueError | KeyError | TypeError
  | RuntimeError | IndexError | AttributeError | OverflowError | ZeroDivisionError | UnboundLocalError
  | StopIteration | InvalidStateError | OSError | NotImplementedError | TimeoutError.

#[export] Instance exn_eq_dec : EqDecision exn.
Proof. solve_decision. Defined.

Inductive outcome (S A : Type) :=
  | Ret (a : A) (s : S)
  | Raise (e : exn) (s : S).
Arguments Ret {S A} a s.
Arguments Raise {S A} e s.

Definition M (S A : Type) : Type := S → outcome S A.

#[export] Instance M_ret {S} : MRet (M S) := λ A a s, Ret a s.
#[export] Instance M_bind {S} : MBind (M S) := λ A B k m s,
  match m s with Ret a s' => k a s' | Raise e s' => Raise e s' end.

(** The result of a computation that neither reads nor writes shared state
    but may raise. *)
Abbreviation Res A := (exn + A)%type.

Definition raise {S A} (e : exn) : M S A := λ s, Raise e s.
Definition gets {S A} (f : S → A) : M S A := λ s, Ret (f s) s.
Definition modify {S} (f : S → S) : M S unit := λ s, Ret tt (f s).
Definition assert {S} (b : bool) : M S unit :=
  λ s, if b then Ret tt s else Raise AssertionError s.
Definition of_res {S A} (r : Res A) : M S A :=
  λ s, match r with inr a => Ret a s | inl e => Raise e s end.
Definition of_option {S A} (e : exn) (o : option A) : M S A :=
  λ s, match o with Some a => Ret a s | None => Raise e s end.

(** [if x:] on an [int | None]: both [None] and [0] are false. *)
Definition truthy (x : option Z) : option Z :=
  match x with
  | Some z => if bool_decide (z = 0) then None else Some z
  | None => None
  end.

(** The two components of an outcome: what the caller sees and the state left. *)
Definition result {S A} (o : outcome S A) : Res A :=
  match o with Ret a _ => inr a | Raise e _ => inl e end.
Definition final {S A} (o : outcome S A) : S :=
  match o with Ret _ s | Raise _ s => s end.

(** A Python [for] statement: the body runs once per element, in order. *)
Fixpoint for_each {S A} (xs : list A) (body : A → M S unit) : M S unit :=
  match xs with
  | [] => mret tt
  | x :: xs => body x ;; for_each xs body
  end.

(** The same with local variables assigned in the body. *)
Fixpoint fold_each {S A B} (xs : list A) (acc : B) (body : A → B → M S B) : M S B :=
  match xs with
  | [] => mret acc
  | x :: xs => acc ← body x acc; fold_each xs acc body
  end.

(** A list comprehension whose element expression has effects. *)
Fixpoint map_each {S A B} (xs : list A) (body : A → M S B) : M S (list B) :=
  match xs with
  | [] => mret []
  | x :: xs => y ← body x; ys ← map_each xs body; mret (y :: ys)
  end.

(** A comprehension that may raise, without state. *)
Fixpoint map_res {A B} (f : A → Res B) (l : list A) : Res (list B) :=
  match l with
  | [] => inr []
  | x :: l =>
      match f x with
      | inl e => inl e
      | inr y => match map_res f l with inl e => inl e | inr ys => inr (y :: ys) end
      end
  end.

(** Running a method of a component on the object that holds it. *)
Definition zoom {T S A} (view : T → S) (set_view : S → T → T) (m : M S A) : M T A :=
  λ t, match m (view t) with
       | Ret a s => Ret a (set_view s t)
       | Raise e s => Raise e (set_view s t)
       end.

(** ** Iteration order of Python sets

    CPython iterates a [set] in an order that depends on its hash table.  Code
    that loops over a set is modelled with the order as an argument: any
    duplicate-free enumeration of the set. *)
Class SetOrder := {
  set_iter : gset Z → list Z;
  set_iter_NoDup X : NoDup (set_iter X);
  set_iter_elem X x : x ∈ set_iter X ↔ x ∈ X;
}.

(** One concrete order, used to run the model. *)
Definition elements_order : SetOrder.
Proof.
  refine {| set_iter := elements |}.
  - intros X. apply NoDup_elements.
  - intros X x. apply elem_of_elements.
Defined.

(** ** Minimum and maximum of a list of integers

    Python's [min] and [max] raise [ValueError] on an empty argument; [None]
    stands for that case. *)
Fixpoint list_min (l : list Z) : option Z :=
  match l with
  | [] => None
  | x :: l => Some (match list_min l with Some m => Z.min x m | None => x end)
  end.

Fixpoint list_max (l : list Z) : option Z :=
  match l with
  | [] => None
  | x :: l => Some (match list_max l with Some m => Z.max x m | None => x end)
  end.

Definition set_min (X : gset Z) : option Z := list_min (elements X).
Definition set_max (X : gset Z) : option Z := list_max (elements X).

(** [range(lo, hi)] *)
Definition zrange (lo hi : Z) : list Z := seqZ lo (hi - lo).

(** [sorted(xs)] by an integer key: stable insertion sort. *)
Fixpoint insert_by {A} (key : A → Z) (x : A) (l : list A) : list A :=
  match l with
  | [] => [x]
  | y :: l' => if bool_decide (key x ≤ key y) then x :: l else y :: insert_by key x l'
  end.

Fixpoint sort_by {A} (key : A → Z) (l : list A) : list A :=
  match l with
  | [] => []
  | x :: l => insert_by key x (sort_by key l)
  end.

(** The largest index whose element satisfies a test: a scan over
    [reversed(range(len(l)))]. *)
Fixpoint find_last {A} (P : A → Prop) `{∀ x, Decision (P x)} (l : list A) : option nat :=
  match l with
  | [] => None
  | x :: l =>
      match find_last P l with
      | Some i => Some (S i)
      | None => if decide (P x) then Some 0%nat else None
      end
  end.

(** The smallest index whose element satisfies a test. *)
Fixpoint find_first {A} (P : A → Prop) `{∀ x, Decision (P x)} (l : list A) : option nat :=
  match l with
  | [] => None
  | x :: l => if decide (P x) then Some 0%nat else S <$> find_first P l
  end.

(** ** Tactics *)

Create HintDb psrl.
Create Rewrite HintDb psrl.

(** Splits a hypothesis that a computation returned into the steps it took. *)
Ltac minv_step :=
  match goal with
  | H : (mbind _ _) _ = Ret _ _ |- _ =>
      let a := fresh "a" in let s := fresh "s" in
      let E := fresh "Hstep" in let K := fresh "Hk" in
      unfold mbind, M_bind in H;
      match type of H with
      | match ?m with _ => _ end = _ =>
          destruct m as [a s|a s] eqn:E; [|discriminate H]
      end
  | H : match ?m with Ret _ _ => _ | Raise _ _ => _ end = Ret _ _ |- _ =>
      let a := fresh "a" in let s := fresh "s" in let E := fresh "Hstep" in
      destruct m as [a s|a s] eqn:E; [|discriminate H]
  | H : mret _ _ = Ret _ _ |- _ => unfold mret, M_ret in H; simplify_eq
  | H : Ret _ _ = Ret _ _ |- _ => simplify_eq
  | H : gets _ _ = Ret _ _ |- _ => unfold gets in H; simplify_eq
  | H : modify _ _ = Ret _ _ |- _ => unfold modify in H; simplify_eq
  | H : raise _ _ = Ret _ _ |- _ => discriminate H
  | H : assert ?b _ = Ret _ _ |- _ =>
      let E := fresh "Hassert" in
      unfold assert in H; destruct b eqn:E; [simplify_eq|discriminate H]
  | H : of_res ?r _ = Ret _ _ |- _ =>
      let E := fresh "Hres" in
      unfold of_res in H; destruct r eqn:E; [discriminate H|simplify_eq]
  | H : of_option _ ?o _ = Ret _ _ |- _ =>
      let E := fresh "Hopt" in
      unfold of_option in H; destruct o eqn:E; [simplify_eq|discriminate H]
  end.
(** Closes the computation of a concrete run. *)
Ltac compute_run := vm_compute; repeat split; reflexivity.

Ltac minv := repeat (minv_step; simpl in * |-).

(** ** Generic lemmas *)

Section list_lemmas.
Context {A : Type}.
Implicit Types (l : list A) (x y : A) (i j : nat).

Section find.
Context (P : A → Prop) `{∀ x, Decision (P x)}.

Lemma find_first_Some l i :
  find_first P l = Some i ↔
  (∃ x, l !! i = Some x ∧ P x) ∧ (∀ j y, (j < i)%nat → l !! j = Some y → ¬ P y).
Proof.
  revert i. induction l as [|z l IH]; intros i; simpl.
  { split; [done|]. by intros [(x & ? & _) _]. }
  case_decide as Hz.
  - split; [intros [= <-]; split; [by exists z|intros j y Hj; lia]|].
    intros [_ Hmin]. destruct i as [|i]; [done|].
    by destruct (Hmin 0%nat z); [lia| |].
  - rewrite fmap_Some. setoid_rewrite IH. split.
    + intros (i' & [[x Hx] Hmin] & ->). split; [by exists x|].
      intros [|j] y Hj Hy; simplify_eq/=; [done|]. apply (Hmin j); [lia|done].
    + intros [(x & Hx & HP) Hmin]. destruct i as [|i]; [by simplify_eq/=|].
      simpl in Hx. exists i. split; [split; [by exists x|]|done].
      intros j y Hj. apply (Hmin (S j)). lia.
Qed.

Lemma find_first_None l : find_first P l = None ↔ ∀ i x, l !! i = Some x → ¬ P x.
Proof.
  induction l as [|z l IH]; simpl; [naive_solver|].
  case_decide as Hz.
  - split; [done|]. intros Hall. by destruct (Hall 0%nat z).
  - rewrite fmap_None, IH. split.
    + intros Hall [|i] x Hx; simplify_eq/=; eauto.
    + intros Hall i x. apply (Hall (S i)).
Qed.

Lemma find_last_None l : find_last P l = None ↔ ∀ i x, l !! i = Some x → ¬ P x.
Proof.
  induction l as [|z l IH]; simpl; [naive_solver|].
  destruct (find_last P l) as [k|] eqn:E.
  - split; [done|]. intros Hall.
    enough (Some k = None) by done. apply IH. intros i x. apply (Hall (S i)).
  - pose proof (proj1 IH eq_refl) as Hl. case_decide as Hz.
    + split; [done|]. intros Hall. by destruct (Hall 0%nat z).
    + split; [|done]. intros _ [|i] x Hx; simplify_eq/=; eauto.
Qed.

Lemma find_last_Some l i :
  find_last P l = Some i ↔
  (∃ x, l !! i = Some x ∧ P x) ∧ (∀ j y, (i < j)%nat → l !! j = Some y → ¬ P y).
Proof.
  revert i. induction l as [|z l IH]; intros i; simpl.
  { naive_solver. }
  destruct (find_last P l) as [k|] eqn:E.
  - destruct (proj1 (IH k) eq_refl) as [(x & Hx & HP) Hmax]. split.
    + intros [= <-]. split; [by exists x|]. intros [|j] y Hj Hy; [lia|].
      apply (Hmax j); [lia|done].
    + intros [(x' & Hx' & HP') Hmax']. f_equal. destruct i as [|i]; simplify_eq/=.
      * by destruct (Hmax' (S k) x); [lia| |].
      * f_equal. destruct (decide (k < i)%nat); [by destruct (Hmax i x')|].
        destruct (decide (i < k)%nat); [by destruct (Hmax' (S k) x); [lia| |]|lia].
  - pose proof (proj1 (find_last_None l) E) as Hl. case_decide as Hz.
    + split.
      * intros [= <-]. split; [by exists z|]. intros [|j] y Hj Hy; [lia|eauto].
      * intros [(x & Hx & HP) _]. destruct i as [|i]; [done|]. by destruct (Hl i x).
    + split; [done|]. intros [(x & Hx & HP) _]. destruct i as [|i]; simplify_eq/=; [done|].
      by destruct (Hl i x).
Qed.

Lemma find_first_lt l i : find_first P l = Some i → (i < length l)%nat.
Proof. rewrite find_first_Some. intros [(x & Hx & _) _]. by eapply lookup_lt_Some. Qed.

Lemma find_last_lt l i : find_last P l = Some i → (i < length l)%nat.
Proof. rewrite find_last_Some. intros [(x & Hx & _) _]. by eapply lookup_lt_Some. Qed.
End find.

Lemma elem_of_insert_by (key : A → Z) x y l : y ∈ insert_by key x l ↔ y = x ∨ y ∈ l.
Proof. induction l as [|z l IH]; simpl; [set_solver|]. case_bool_decide; set_solver. Qed.

Lemma elem_of_sort_by (key : A → Z) y l : y ∈ sort_by key l ↔ y ∈ l.
Proof. induction l; simpl; [done|]. rewrite elem_of_insert_by. set_solver. Qed.

Lemma insert_by_perm (key : A → Z) x l : insert_by key x l ≡ₚ x :: l.
Proof.
  induction l as [|z l IH]; simpl; [done|]. case_bool_decide; [done|].
  rewrite IH. constructor.
Qed.

Lemma sort_by_perm (key : A → Z) l : sort_by key l ≡ₚ l.
Proof. induction l as [|x l IH]; simpl; [done|]. by rewrite insert_by_perm, IH. Qed.

Lemma insert_by_sorted (key : A → Z) x l :
  StronglySorted (λ a b, key a ≤ key b) l → StronglySorted (λ a b, key a ≤ key b) (insert_by key x l).
Proof.
  induction 1 as [|z l Hl IH Hz]; simpl; [repeat constructor|].
  case_bool_decide as Hx.
  - constructor; [by constructor|]. constructor; [done|].
    rewrite Forall_forall in Hz |- *. intros y Hy. specialize (Hz y Hy). simpl in *. lia.
  - constructor; [done|]. apply Forall_forall. intros y [->|Hy]%elem_of_insert_by; [lia|].
    rewrite Forall_forall in Hz. eauto.
Qed.

Lemma sort_by_sorted (key : A → Z) l : StronglySorted (λ a b, key a ≤ key b) (sort_by key l).
Proof. induction l; simpl; [constructor|by apply insert_by_sorted]. Qed.

Lemma NoDup_omap_inj {B} (f : A → option B) l :
  (∀ i j x y z, l !! i = Some x → l !! j = Some y → f x = Some z → f y = Some z → i = j) →
  NoDup (omap f l).
Proof.
  induction l as [|x l IH]; intros Hinj; simpl; [constructor|].
  assert (NoDup (omap f l)) as Hl.
  { apply IH. intros i j y z w Hi Hj Hy Hz. enough (S i = S j) by lia. by apply (Hinj (S i) (S j) y z w). }
  destruct (f x) as [z|] eqn:Hx; [|done]. constructor; [|done].
  intros (y & (j & Hj)%list_elem_of_lookup & Hy)%list_elem_of_omap.
  enough (0%nat = S j) by lia. by apply (Hinj 0%nat (S j) x y z).
Qed.
End list_lemmas.

Lemma list_min_Some l m : list_min l = Some m ↔ m ∈ l ∧ ∀ x, x ∈ l → m ≤ x.
Proof.
  revert m. induction l as [|z l IH]; intros m; simpl; [set_solver|].
  destruct (list_min l) as [k|] eqn:E.
  - destruct (proj1 (IH k) eq_refl) as [Hk Hmin]. split.
    + intros [= <-]. split; [destruct (Z.min_spec z k) as [[_ ->]|[_ ->]]; set_solver|].
      intros x [->|Hx]%elem_of_cons; [lia|]. specialize (Hmin x Hx). lia.
    + intros [Hm Hall]. f_equal.
      assert (m ≤ z) by (apply Hall; set_solver). assert (m ≤ k) by (apply Hall; set_solver).
      apply elem_of_cons in Hm as [->|Hm]; [lia|]. specialize (Hmin m Hm). lia.
  - destruct l as [|y l]; [|done]. split.
    + intros [= <-]. set_solver by lia.
    + intros [Hm _]. f_equal. set_solver.
Qed.

Lemma list_min_None l : list_min l = None ↔ l = [].
Proof. by destruct l. Qed.

Lemma list_max_Some l m : list_max l = Some m ↔ m ∈ l ∧ ∀ x, x ∈ l → x ≤ m.
Proof.
  revert m. induction l as [|z l IH]; intros m; simpl; [set_solver|].
  destruct (list_max l) as [k|] eqn:E.
  - destruct (proj1 (IH k) eq_refl) as [Hk Hmax]. split.
    + intros [= <-]. split; [destruct (Z.max_spec z k) as [[_ ->]|[_ ->]]; set_solver|].
      intros x [->|Hx]%elem_of_cons; [lia|]. specialize (Hmax x Hx). lia.
    + intros [Hm Hall]. f_equal.
      assert (z ≤ m) by (apply Hall; set_solver). assert (k ≤ m) by (apply Hall; set_solver).
      apply elem_of_cons in Hm as [->|Hm]; [lia|]. specialize (Hmax m Hm). lia.
  - destruct l as [|y l]; [|done]. split.
    + intros [= <-]. set_solver by lia.
    + intros [Hm _]. f_equal. set_solver.
Qed.

Lemma list_max_None l : list_max l = None ↔ l = [].
Proof. by destruct l. Qed.

Lemma set_min_Some X m : set_min X = Some m ↔ m ∈ X ∧ ∀ x, x ∈ X → m ≤ x.
Proof. unfold set_min. rewrite list_min_Some. by setoid_rewrite elem_of_elements. Qed.

Lemma set_max_Some X m : set_max X = Some m ↔ m ∈ X ∧ ∀ x, x ∈ X → x ≤ m.
Proof. unfold set_max. rewrite list_max_Some. by setoid_rewrite elem_of_elements. Qed.

Lemma set_min_None X : set_min X = None ↔ X = ∅.
Proof. unfold set_min. rewrite list_min_None. by rewrite elements_empty_iff, leibniz_equiv_iff. Qed.

Lemma set_max_None X : set_max X = None ↔ X = ∅.
Proof. unfold set_max. rewrite list_max_None. by rewrite elements_empty_iff, leibniz_equiv_iff. Qed.

Lemma filter_none {A} (P : A → Prop) `{∀ x, Decision (P x)} (l : list A) : (∀ x, x ∈ l → ¬ P x) → filter P l = [].
Proof.
  induction l as [|x l IH]; intros Hl; [done|]. rewrite filter_cons_False by (apply Hl; by left). apply IH. intros y Hy. apply Hl. by right.
Qed.

Lemma filter_all {A} (P : A → Prop) `{∀ x, Decision (P x)} (l : list A) : (∀ x, x ∈ l → P x) → filter P l = l.
Proof.
  induction l as [|x l IH]; intros Hl; [done|]. rewrite filter_cons_True by (apply Hl; by left). f_equal. apply IH. intros y Hy. apply Hl. by right.
Qed.

Lemma elem_of_zrange lo hi x : x ∈ zrange lo hi ↔ lo ≤ x < hi.
Proof. unfold zrange. rewrite elem_of_seqZ. lia. Qed.

(** ** Reasoning about [for_each] *)

Lemma for_each_inv {S A} (I : S → Prop) (xs : list A) (body : A → M S unit) s s' :
  (∀ x s s', x ∈ xs → I s → body x s = Ret tt s' → I s') →
  I s → for_each xs body s = Ret tt s' → I s'.
Proof.
  revert s. induction xs as [|x xs IH]; intros s Hbody HI Hrun; simpl in Hrun; minv; [done|].
  destruct a. eapply IH; [|eapply Hbody; eauto; set_solver|done].
  intros ????. eapply Hbody. set_solver.
Qed.

Lemma fold_each_inv {S A B} (I : B → S → Prop) (xs : list A) acc (body : A → B → M S B) s acc' s' :
  (∀ x acc s acc' s', x ∈ xs → I acc s → body x acc s = Ret acc' s' → I acc' s') →
  I acc s → fold_each xs acc body s = Ret acc' s' → I acc' s'.
Proof.
  revert acc s. induction xs as [|x xs IH]; intros acc s Hbody HI Hrun; simpl in Hrun; minv; [done|].
  eapply IH; [|eapply Hbody; [|done..]; set_solver|done].
  intros ??????. eapply Hbody. set_solver.
Qed.

(** Total version: the loop returns when every iteration does. *)
Lemma for_each_total {S A} (I : list A → S → Prop) (xs : list A) (body : A → M S unit) s :
  (∀ x xs s, I (x :: xs) s → ∃ s', body x s = Ret tt s' ∧ I xs s') →
  I xs s → ∃ s', for_each xs body s = Ret tt s' ∧ I [] s'.
Proof.
  intros Hbody. revert s. induction xs as [|x xs IH]; intros s HI; simpl; [by exists s|].
  destruct (Hbody _ _ _ HI) as (s1 & Hs1 & HI1). destruct (IH _ HI1) as (s2 & Hs2 & HI2).
  exists s2. unfold mbind, M_bind. by rewrite Hs1.
Qed.

(** ** Running a computation step by step *)

Section run.
Context {S : Type}.
Implicit Types s : S.

Lemma run_bind {A B} (m : M S A) (k : A → M S B) s a s' :
  m s = Ret a s' → (m ≫= k) s = k a s'.
Proof. intros E. unfold mbind, M_bind. by rewrite E. Qed.

Lemma run_bind_raise {A B} (m : M S A) (k : A → M S B) s e s' :
  m s = Raise e s' → (m ≫= k) s = Raise e s'.
Proof. intros E. unfold mbind, M_bind. by rewrite E. Qed.

Lemma run_mret {A B} (a : A) (k : A → M S B) s : (mret a ≫= k) s = k a s.
Proof. done. Qed.
Lemma run_gets {A B} (f : S → A) (k : A → M S B) s : (gets f ≫= k) s = k (f s) s.
Proof. done. Qed.
Lemma run_modify {B} (f : S → S) (k : unit → M S B) s : (modify f ≫= k) s = k tt (f s).
Proof. done. Qed.
Lemma run_assert {B} (b : bool) (k : unit → M S B) s : b = true → (assert b ≫= k) s = k tt s.
Proof. by intros ->. Qed.
Lemma run_assert_decide {B} (P : Prop) `{Decision P} (k : unit → M S B) s :
  P → (assert (bool_decide P) ≫= k) s = k tt s.
Proof. intros HP. apply run_assert. by apply bool_decide_eq_true. Qed.
Lemma run_of_option {A B} e (o : option A) a (k : A → M S B) s :
  o = Some a → (of_option e o ≫= k) s = k a s.
Proof. by intros ->. Qed.
Lemma run_of_res {A B} (r : Res A) a (k : A → M S B) s :
  r = inr a → (of_res r ≫= k) s = k a s.
Proof. by intros ->. Qed.
Lemma run_assoc {A B C} (m : M S A) (k : A → M S B) (h : B → M S C) s :
  ((m ≫= k) ≫= h) s = (m ≫= λ a, k a ≫= h) s.
Proof. unfold mbind, M_bind. by destruct (m s). Qed.
End run.

Lemma for_each_app {S A} (l k : list A) (body : A → M S unit) s : for_each (l ++ k) body s = (for_each l body ;; for_each k body) s.
Proof. revert s. induction l as [|x l IH]; intros s; simpl; [done|]. rewrite run_assoc. unfold mbind, M_bind. destruct (body x s); [apply IH|done]. Qed.

Lemma for_each_ext {S A} (l : list A) (f g : A → M S unit) s : (∀ x s, x ∈ l → f x s = g x s) → for_each l f s = for_each l g s.
Proof.
  revert s. induction l as [|x l IH]; intros s Hfg; simpl; [done|]. unfold mbind, M_bind. rewrite Hfg by (apply elem_of_cons; by left).
  destruct (g x s); [|done]. apply IH. intros y s' Hy. apply Hfg, elem_of_cons. by right.
Qed.

Lemma for_each_flat {S A B} (l : list A) (f : A → list B) (body : B → M S unit) s :
  for_each (flat_map f l) body s = for_each l (λ x, for_each (f x) body) s.
Proof.
  revert s. induction l as [|x l IH]; intros s; simpl; [done|]. rewrite for_each_app. unfold mbind, M_bind.
  destruct (for_each (f x) body s); [apply IH|done].
Qed.

Lemma for_each_map {S A B} (f : A → B) (l : list A) (body : B → M S unit) s : for_each (map f l) body s = for_each l (λ x, body (f x)) s.
Proof. revert s. induction l as [|x l IH]; intros s; simpl; [done|]. unfold mbind, M_bind. destruct (body (f x) s); [apply IH|done]. Qed.

Lemma map_res_total {A B} (f : A → Res B) (P : A → B → Prop) l :
  (∀ x, x ∈ l → ∃ y, f x = inr y ∧ P x y) → ∃ ys, map_res f l = inr ys ∧ Forall2 P l ys.
Proof.
  induction l as [|x l IH]; intros Hf; simpl; [by exists []|]. destruct (Hf x) as (y & -> & Hy); [apply elem_of_cons; by left|].
  destruct IH as (ys & -> & Hys); [intros z Hz; apply Hf, elem_of_cons; by right|]. exists (y :: ys). split; [done|by constructor].
Qed.

Lemma map_res_Forall2 {A B} (f : A → Res B) l ys : map_res f l = inr ys → Forall2 (λ x y, f x = inr y) l ys.
Proof.
  revert ys. induction l as [|x l IH]; simpl; intros ys H; [simplify_eq; constructor|].
  destruct (f x) eqn:E; [done|]. destruct (map_res f l); simplify_eq. constructor; auto.
Qed.

Lemma outcome_eta {S A} (o : outcome S A) a : result o = inr a → o = Ret a (final o).
Proof. destruct o; simpl; congruence. Qed.

#[export] Hint Rewrite @run_mret @run_gets @run_modify @run_assoc : psrl.

(** Executes the steps of the goal's computation that need no hypothesis. *)
Ltac mrun := autorewrite with psrl; cbn beta iota delta [id].

#[export] Hint Resolve elem_of_zrange list_min_Some list_max_Some : psrl.

(** ** Parts of the state a computation does not change

    [keeps f m]: whether [m] returns or raises, the part [f] of the state is what
    it was.  The lemmas follow the syntax of the monad, so that [auto with psrl]
    proves the property of a method from those of the methods it calls. *)
Definition keeps {S A T} (f : S → T) (m : M S A) : Prop := ∀ s, f (final (m s)) = f s.

Section keeps.
Context {S T : Type} (f : S → T).

Lemma keeps_ret {A} (a : A) : keeps f (mret a).
Proof. done. Qed.
Lemma keeps_raise {A} e : keeps f (raise e : M S A).
Proof. done. Qed.
Lemma keeps_gets {A} (g : S → A) : keeps f (gets g).
Proof. done. Qed.
Lemma keeps_modify (g : S → S) : (∀ s, f (g s) = f s) → keeps f (modify g).
Proof. intros Hg s. apply Hg. Qed.
Lemma keeps_assert b : keeps f (assert b).
Proof. intros s. by destruct b. Qed.
Lemma keeps_of_res {A} (r : Res A) : keeps f (of_res r).
Proof. intros s. by destruct r. Qed.
Lemma keeps_of_option {A} e (o : option A) : keeps f (of_option e o).
Proof. intros s. by destruct o. Qed.
Lemma keeps_bind {A B} (m : M S A) (k : A → M S B) : keeps f m → (∀ a, keeps f (k a)) → keeps f (m ≫= k).
Proof.
  intros Hm Hk s. unfold mbind, M_bind. specialize (Hm s). destruct (m s) as [a s'|e s']; simpl in *; [|done].
  by rewrite (Hk a s').
Qed.
Lemma keeps_for_each {A} (xs : list A) body : (∀ x, keeps f (body x)) → keeps f (for_each xs body).
Proof. intros Hb. induction xs; [apply keeps_ret|]. apply keeps_bind; auto. Qed.
Lemma keeps_fold_each {A B} (xs : list A) (acc : B) body :
  (∀ x acc, keeps f (body x acc)) → keeps f (fold_each xs acc body).
Proof. intros Hb. revert acc. induction xs; intros acc; [apply keeps_ret|]. apply keeps_bind; auto. Qed.
Lemma keeps_map_each {A B} (xs : list A) (body : A → M S B) : (∀ x, keeps f (body x)) → keeps f (map_each xs body).
Proof.
  intros Hb. induction xs; [apply keeps_ret|]. apply keeps_bind; [auto|]. intros y.
  apply keeps_bind; [done|]. intros. apply keeps_ret.
Qed.
Lemma keeps_if {A} (b : bool) (m m' : M S A) : keeps f m → keeps f m' → keeps f (if b then m else m').
Proof. by destruct b. Qed.
Lemma keeps_decide {A} (P : Prop) `{Decision P} (m m' : M S A) :
  keeps f m → keeps f m' → keeps f (if decide P then m else m').
Proof. by destruct (decide P). Qed.
Lemma keeps_match_option {A B} (o : option B) (k : B → M S A) (m : M S A) :
  (∀ b, keeps f (k b)) → keeps f m → keeps f (match o with Some b => k b | None => m end).
Proof. by destruct o. Qed.
Lemma keeps_match_pair {A B C} (p : B * C) (k : B → C → M S A) :
  (∀ b c, keeps f (k b c)) → keeps f (let '(b, c) := p in k b c).
Proof. by destruct p. Qed.
Lemma keeps_match_list {A B} (l : list B) (m : M S A) (k : B → list B → M S A) :
  keeps f m → (∀ x l, keeps f (k x l)) → keeps f (match l with [] => m | x :: l => k x l end).
Proof. by destruct l. Qed.

(** A part that lies outside the component a method runs on. *)
Lemma keeps_zoom_outside {U A} (view : S → U) set_view (m : M U A) :
  (∀ u s, f (set_view u s) = f s) → keeps f (zoom view set_view m).
Proof. intros Hf s. unfold zoom. destruct (m (view s)); apply Hf. Qed.
End keeps.

(** A part of the component a method runs on. *)
Lemma keeps_zoom_inside {S U T A} (g : U → T) (view : S → U) set_view (m : M U A) :
  (∀ u s, view (set_view u s) = u) → keeps g m → keeps (λ s, g (view s)) (zoom view set_view m).
Proof.
  intros Hv Hm s. unfold zoom. specialize (Hm (view s)). destruct (m (view s)); simpl in *; by rewrite Hv.
Qed.

#[export] Hint Resolve keeps_ret keeps_raise keeps_gets keeps_modify keeps_assert keeps_of_res keeps_of_option
  keeps_bind keeps_for_each keeps_fold_each keeps_map_each keeps_if keeps_decide keeps_match_option
  keeps_match_pair keeps_match_list : psrl.

(** Proves a [keeps] goal by following the syntax of the computation. *)
Ltac keeps_tac :=
  repeat first
    [ assumption | apply keeps_ret | apply keeps_raise | apply keeps_gets | apply keeps_assert | apply keeps_of_res
    | apply keeps_of_option | (apply keeps_modify; intros; done) | (apply keeps_bind; [|intros])
    | (apply keeps_for_each; intros) | (apply keeps_fold_each; intros) | (apply keeps_map_each; intros)
    | solve [auto with psrl nocore] | case_match ].

(** ** A finite map and the partial function it inverts

    The prompt tracker maps a prompt to the slot that holds it; the buffers map
    a slot to the prompt it holds.  [inverse] says the two agree. *)
Section inverse.
Context {P : Type} `{EqDecision P}.
Implicit Types (trk : gmap Z P) (held : P → option Z).

Definition inverse trk held : Prop := ∀ pid pos, trk !! pid = Some pos ↔ held pos = Some pid.

#[global] Instance inverse_proper : Proper ((=) ==> pointwise_relation P (=) ==> iff) inverse.
Proof. intros t ? <- f g Hfg. unfold inverse. by setoid_rewrite Hfg. Qed.

Lemma inverse_place trk held pid pos :
  inverse trk held → trk !! pid = None → held pos = None →
  inverse (<[pid := pos]> trk) (<[pos := Some pid]> held).
Proof.
  intros Hinv Hp Hpos q x. rewrite lookup_insert. unfold insert, fn_insert.
  pose proof (Hinv q x). pose proof (Hinv pid x). pose proof (Hinv q pos).
  repeat case_decide; subst; naive_solver congruence.
Qed.

Lemma inverse_remove trk held pid pos :
  inverse trk held → trk !! pid = Some pos →
  inverse (delete pid trk) (<[pos := None]> held).
Proof.
  intros Hinv Hp q x. rewrite lookup_delete. unfold insert, fn_insert.
  pose proof (Hinv q x). pose proof (Hinv pid x). pose proof (Hinv q pos). pose proof (Hinv pid pos).
  repeat case_decide; subst; naive_solver congruence.
Qed.

Lemma inverse_move trk held pid src dst :
  inverse trk held → held src = Some pid → held dst = None →
  inverse (<[pid := dst]> trk) (<[src := None]> (<[dst := Some pid]> held)).
Proof.
  intros Hinv Hsrc Hdst q x. rewrite lookup_insert. unfold insert, fn_insert.
  pose proof (Hinv q x). pose proof (Hinv pid x). pose proof (Hinv pid src).
  pose proof (Hinv q src). pose proof (Hinv q dst).
  repeat case_decide; subst; naive_solver congruence.
Qed.
End inverse.
