(* ===== verification/PyFloat.v ===== *)
(** * Python floats

    A Python [float] is an IEEE 754 binary64 number.  The scaling policy, the
    communication planner and the rate limiter compute with floats, so they are
    modelled with the Standard Library's executable specification [SpecFloat] at
    precision 53 and exponent bound 1024: the operations round, overflow and
    produce NaN as the interpreter does.  The file also has Python's comparison,
    [min], [max] and stable [sort] on them, and shows that away from NaN the
    comparison is a total preorder, so that the head of a sorted list is a least
    element. *)

From Stdlib Require Import SpecFloat.
From S2P Require Import Prelude.

Abbreviation float := spec_float.

#[export] Instance float_eq_dec : EqDecision float.
Proof. solve_decision. Defined.

Definition fadd : float → float → float := SFadd 53 1024.
Definition fsub : float → float → float := SFsub 53 1024.
Definition fmul : float → float → float := SFmul 53 1024.
Definition fdiv : float → float → float := SFdiv 53 1024.
Definition fopp : float → float := SFopp.

(** [float(n)] for an integer, and a decimal literal [p/q]. *)
Definition of_Z (n : Z) : float := binary_normalize 53 1024 n 0 false.
Definition ratio (p q : Z) : float := fdiv (of_Z p) (of_Z q).

Definition fzero : float := S754_zero false.
Definition fone : float := of_Z 1.
Definition inf : float := S754_infinity false.

Definition feqb : float → float → bool := SFeqb.
Definition fltb : float → float → bool := SFltb.
Definition fleb : float → float → bool := SFleb.

(** [max(a, b)] and [min(a, b)] keep the first argument on a tie. *)
Definition fmax (a b : float) : float := if fltb a b then b else a.
Definition fmin (a b : float) : float := if fltb b a then b else a.

#[global] Arguments fadd : simpl never.
#[global] Arguments fsub : simpl never.
#[global] Arguments fmul : simpl never.
#[global] Arguments fdiv : simpl never.
#[global] Arguments of_Z : simpl never.
#[global] Arguments fltb : simpl never.
#[global] Arguments fleb : simpl never.
#[global] Arguments feqb : simpl never.

Definition is_nan (x : float) : bool := match x with S754_nan => true | _ => false end.

(** [a < b] on pairs of floats compares the first components that differ. *)
Definition pair_ltb (a b : float * float) : bool :=
  if feqb a.1 b.1 then fltb a.2 b.2 else fltb a.1 b.1.

(** [sorted(xs, key=...)]: a stable sort that only uses [<]; with [reverse=True]
    elements with equal keys also keep their order, so the same function is used
    with the comparison turned round. *)
Section sort.
Context {A : Type} (lt : A → A → bool).

Fixpoint insert_lt (x : A) (l : list A) : list A :=
  match l with
  | [] => [x]
  | y :: l' => if lt y x then y :: insert_lt x l' else x :: l
  end.

Fixpoint sort_lt (l : list A) : list A :=
  match l with
  | [] => []
  | x :: l => insert_lt x (sort_lt l)
  end.

Lemma elem_of_insert_lt x y l : y ∈ insert_lt x l ↔ y = x ∨ y ∈ l.
Proof. induction l as [|z l IH]; simpl; [set_solver|]. case_match; set_solver. Qed.

Lemma elem_of_sort_lt y l : y ∈ sort_lt l ↔ y ∈ l.
Proof. induction l as [|x l IH]; simpl; [done|]. rewrite elem_of_insert_lt. set_solver. Qed.

Lemma insert_lt_perm x l : insert_lt x l ≡ₚ x :: l.
Proof. induction l as [|z l IH]; simpl; [done|]. case_match; [|done]. rewrite IH. constructor. Qed.

Lemma sort_lt_perm l : sort_lt l ≡ₚ l.
Proof. induction l as [|x l IH]; simpl; [done|]. by rewrite insert_lt_perm, IH. Qed.

Lemma sort_lt_nil l : sort_lt l = [] ↔ l = [].
Proof. split; [|by intros ->]. intros E. apply Permutation_nil. rewrite <-E. apply sort_lt_perm. Qed.

Lemma head_sort_lt_elem l x : head (sort_lt l) = Some x → x ∈ l.
Proof. intros E. apply elem_of_sort_lt. destruct (sort_lt l); simplify_eq/=. set_solver. Qed.

(** The head of the sorted list when [lt] is a strict weak order on it. *)
Lemma head_sort_lt_least l x :
  (∀ a b c, a ∈ l → b ∈ l → c ∈ l → lt b a = false → lt c b = false → lt c a = false) →
  (∀ a b, a ∈ l → b ∈ l → lt a b = true → lt b a = false) →
  head (sort_lt l) = Some x → ∀ y, y ∈ l → lt y x = false.
Proof.
  revert x. induction l as [|z l IH]; intros x Htrans Hasym; simpl; [done|].
  assert (lt z z = false) as Hz.
  { destruct (lt z z) eqn:E; [|done]. rewrite <-E. apply Hasym; [set_solver..|done]. }
  destruct (sort_lt l) as [|w l'] eqn:E; simpl.
  { apply sort_lt_nil in E as ->. intros [= <-] y ->%list_elem_of_singleton. done. }
  assert (w ∈ l) as Hw by (apply elem_of_sort_lt; rewrite E; set_solver).
  assert (∀ y, y ∈ l → lt y w = false) as Hleast.
  { apply IH; [|set_solver|done]. intros a b c Ha Hb Hc. apply Htrans; set_solver. }
  destruct (lt w z) eqn:Hwz; simpl; intros [= <-] y [->|Hy]%elem_of_cons; auto.
  - apply Hasym; set_solver.
  - eapply (Htrans z w y); try set_solver; auto.
Qed.
End sort.

(** ** The order of floats

    A number that is not NaN is compared by sign, then exponent, then mantissa. *)
Definition frank (x : float) : Z * Z * Z :=
  match x with
  | S754_nan => (3, 0, 0)
  | S754_infinity true => (-2, 0, 0)
  | S754_infinity false => (2, 0, 0)
  | S754_zero _ => (0, 0, 0)
  | S754_finite true m e => (-1, - e, - Zpos m)
  | S754_finite false m e => (1, e, Zpos m)
  end.

Definition rank_lt (a b : Z * Z * Z) : Prop :=
  a.1.1 < b.1.1 ∨ a.1.1 = b.1.1 ∧ (a.1.2 < b.1.2 ∨ a.1.2 = b.1.2 ∧ a.2 < b.2).

Lemma SFcompare_rank x y :
  is_nan x = false → is_nan y = false →
  match SFcompare x y with
  | Some Lt => rank_lt (frank x) (frank y)
  | Some Eq => frank x = frank y
  | Some Gt => rank_lt (frank y) (frank x)
  | None => False
  end.
Proof.
  unfold rank_lt. destruct x as [sx|sx| |sx mx ex], y as [sy|sy| |sy my ey]; simpl; try done; intros _ _;
    try (destruct sx); try (destruct sy); simpl; try done; try lia.
  all: change (Pos.compare_cont Eq mx my) with (Pos.compare mx my);
    destruct (Z.compare_spec ex ey); simpl; try lia; subst;
    destruct (Pos.compare_spec mx my); simpl; subst; try lia; done.
Qed.

Lemma fltb_rank x y : is_nan x = false → is_nan y = false → fltb x y = true ↔ rank_lt (frank x) (frank y).
Proof.
  intros Hx Hy. pose proof (SFcompare_rank x y Hx Hy) as H. unfold fltb, SFltb.
  destruct (SFcompare x y) as [[]|]; try done; unfold rank_lt in *; split; try done; try lia. rewrite H. lia.
Qed.

Lemma fleb_rank x y : is_nan x = false → is_nan y = false → fleb x y = true ↔ ¬ rank_lt (frank y) (frank x).
Proof.
  intros Hx Hy. pose proof (SFcompare_rank x y Hx Hy) as H. unfold fleb, SFleb.
  destruct (SFcompare x y) as [[]|]; try done; unfold rank_lt in *; split; try done; try lia. rewrite H. lia.
Qed.

Lemma feqb_rank x y : is_nan x = false → is_nan y = false → feqb x y = true ↔ frank x = frank y.
Proof.
  intros Hx Hy. pose proof (SFcompare_rank x y Hx Hy) as H. unfold feqb, SFeqb.
  destruct (SFcompare x y) as [[]|]; try done; split; try done; intros E; rewrite E in H; unfold rank_lt in H; lia.
Qed.

Lemma rank_lt_negtrans a b c : ¬ rank_lt b a → ¬ rank_lt c b → ¬ rank_lt c a.
Proof. unfold rank_lt. lia. Qed.
Lemma rank_lt_asym a b : rank_lt a b → ¬ rank_lt b a.
Proof. unfold rank_lt. lia. Qed.

Lemma fltb_negb_fleb x y : is_nan x = false → is_nan y = false → fltb x y = negb (fleb y x).
Proof.
  intros Hx Hy. pose proof (fltb_rank x y Hx Hy). pose proof (fleb_rank y x Hy Hx).
  destruct (fltb x y), (fleb y x); naive_solver.
Qed.

Lemma fltb_negtrans x y z :
  is_nan x = false → is_nan y = false → is_nan z = false → fltb y x = false → fltb z y = false → fltb z x = false.
Proof.
  intros Hx Hy Hz. rewrite <-!not_true_iff_false, !fltb_rank by done. apply rank_lt_negtrans.
Qed.

Lemma fltb_asym x y : fltb x y = true → fltb y x = false.
Proof.
  destruct (is_nan x) eqn:Hx; [by destruct x|]. destruct (is_nan y) eqn:Hy; [by destruct y, x|].
  rewrite <-not_true_iff_false, !fltb_rank by done. apply rank_lt_asym.
Qed.

(** A sort by a float key that is never NaN has a least element at its head. *)
Lemma head_sort_key {A} (key : A → float) l x y :
  (∀ a, a ∈ l → is_nan (key a) = false) →
  head (sort_lt (λ a b, fltb (key a) (key b)) l) = Some x → y ∈ l → fltb (key y) (key x) = false.
Proof.
  intros Hnan Hx. revert y. eapply (head_sort_lt_least (λ a b, fltb (key a) (key b))); [|intros; by apply fltb_asym|done].
  intros a b c Ha Hb Hc. apply fltb_negtrans; auto.
Qed.

(** The same with [reverse=True]: a greatest element. *)
Lemma head_sort_key_rev {A} (key : A → float) l x y :
  (∀ a, a ∈ l → is_nan (key a) = false) →
  head (sort_lt (λ a b, fltb (key b) (key a)) l) = Some x → y ∈ l → fltb (key x) (key y) = false.
Proof.
  intros Hnan Hx. revert y. eapply (head_sort_lt_least (λ a b, fltb (key b) (key a))); [|intros; by apply fltb_asym|done].
  intros a b c Ha Hb Hc ??. eapply (fltb_negtrans (key c) (key b) (key a)); auto.
Qed.

Lemma fmin_le_l a b : is_nan a = false → is_nan b = false → fltb a (fmin a b) = false.
Proof.
  intros Ha Hb. unfold fmin. destruct (fltb b a) eqn:E; [by apply fltb_asym|].
  destruct (fltb a a) eqn:E'; [|done]. by rewrite (fltb_asym _ _ E') in E'.
Qed.

Lemma fltb_nan_l x y : fltb x y = true → is_nan x = false.
Proof. by destruct x. Qed.
Lemma fltb_nan_r x y : fltb x y = true → is_nan y = false.
Proof. destruct y; try done. by destruct x as [[]|[]| |[]]. Qed.

#[export] Hint Resolve fltb_asym fltb_nan_l fltb_nan_r : psrl.

(** The literals of the policy: 0.3 < 0.85, and 0.1 + 0.2 is not 0.3. *)
Example ratio_order : fltb (ratio 3 10) (ratio 85 100) = true ∧ feqb (fadd (ratio 1 10) (ratio 2 10)) (ratio 3 10) = false.
Proof. by vm_compute. Qed.
