(* ===== verification/PyData.v ===== *)
(** * Python dictionaries, strings and JSON

    Insertion-ordered dictionaries as association lists, [str.lower], [int] and
    [str] on strings, and JSON values as [json.loads] returns them.  These are
    the parts of the language that the HTTP-facing components and the elastic
    resource manager use. *)

From Stdlib Require Import SpecFloat Ascii.
From stdpp Require Import pretty.
From S2P Require Import Prelude.
From S2P Require Import PyFloat.

(** ** Insertion-ordered dictionaries *)

(** [d.get(k)] *)
Fixpoint assoc {K V} `{EqDecision K} (k : K) (d : list (K * V)) : option V :=
  match d with [] => None | (k', v) :: d => if decide (k' = k) then Some v else assoc k d end.

(** [d[k] = v]: an existing key keeps its place. *)
Fixpoint dict_set {K V} `{EqDecision K} (k : K) (v : V) (d : list (K * V)) : list (K * V) :=
  match d with
  | [] => [(k, v)]
  | (k', v') :: d => if decide (k' = k) then (k', v) :: d else (k', v') :: dict_set k v d
  end.

(** [d.pop(k, None)] *)
Fixpoint dict_pop {K V} `{EqDecision K} (k : K) (d : list (K * V)) : list (K * V) :=
  match d with
  | [] => []
  | (k', v') :: d => if decide (k' = k) then d else (k', v') :: dict_pop k d
  end.

Section dict.
Context {K V : Type} `{EqDecision K}.
Implicit Types (k : K) (v : V) (d : list (K * V)).

Lemma assoc_dict_set k k' v d : assoc k' (dict_set k v d) = if decide (k = k') then Some v else assoc k' d.
Proof.
  induction d as [|[k0 v0] d IH]; simpl; [done|].
  destruct (decide (k0 = k)) as [->|]; simpl; [by repeat case_decide|].
  rewrite IH. repeat case_decide; simplify_eq; done.
Qed.

Lemma assoc_elem k v d : NoDup d.*1 → (k, v) ∈ d → assoc k d = Some v.
Proof.
  induction d as [|[k0 v0] d IH]; simpl; [intros _ Hin; by apply not_elem_of_nil in Hin|].
  intros [Hk0 Hnd]%NoDup_cons [[= <- <-]|Hin]%elem_of_cons; [by rewrite decide_True|].
  rewrite decide_False; [by apply IH|]. intros ->. destruct Hk0. apply list_elem_of_fmap. by exists (k, v).
Qed.

Lemma elem_of_assoc k v d : assoc k d = Some v → (k, v) ∈ d.
Proof.
  induction d as [|[k0 v0] d IH]; simpl; [done|]. case_decide; [intros [= ->]; subst; apply elem_of_cons; by left|].
  intros ?. apply elem_of_cons. right. auto.
Qed.

Lemma assoc_iff k v d : NoDup d.*1 → assoc k d = Some v ↔ (k, v) ∈ d.
Proof. split; [apply elem_of_assoc|by apply assoc_elem]. Qed.

Lemma dict_set_new k v d : assoc k d = None → dict_set k v d = d ++ [(k, v)].
Proof. induction d as [|[k0 v0] d IH]; simpl; [done|]. case_decide; [done|]. intros ?. by rewrite IH. Qed.

Lemma elem_of_dict_set p k v d : p ∈ dict_set k v d → p = (k, v) ∨ p ∈ d.
Proof.
  induction d as [|[k0 v0] d IH]; simpl; [by intros ->%list_elem_of_singleton; left|].
  case_decide; subst; rewrite !elem_of_cons; naive_solver.
Qed.

Lemma dict_set_keys k v d : (k ∈ d.*1 ∧ (dict_set k v d).*1 = d.*1) ∨ ((k ∉ d.*1) ∧ (dict_set k v d).*1 = (d.*1) ++ [k]).
Proof.
  induction d as [|[k0 v0] d IH]; simpl; [right; split; [apply not_elem_of_nil|done]|].
  destruct (decide (k0 = k)) as [->|Hne]; simpl; [left; split; [apply elem_of_cons; by left|done]|].
  change (list_fmap (K * V)%type K fst) with (fmap (M:=list) (A:=K * V) fst).
  rewrite elem_of_cons. destruct IH as [[? E]|[? E]]; [left|right]; rewrite E; naive_solver.
Qed.

Lemma dict_set_NoDup k v d : NoDup d.*1 → NoDup (dict_set k v d).*1.
Proof.
  intros Hd. destruct (dict_set_keys k v d) as [[_ ->]|[? ->]]; [done|]. apply NoDup_app. split_and!; [done| |apply NoDup_singleton].
  intros x Hx ->%list_elem_of_singleton. done.
Qed.

Lemma elem_of_dict_pop p k d : p ∈ dict_pop k d → p ∈ d.
Proof. induction d as [|[k0 v0] d IH]; simpl; [done|]. case_decide; rewrite !elem_of_cons; naive_solver. Qed.

Lemma dict_pop_NoDup k d : NoDup d.*1 → NoDup (dict_pop k d).*1.
Proof.
  induction d as [|[k0 v0] d IH]; simpl; [done|]. intros [Hk Hd]%NoDup_cons. case_decide; [done|]. simpl.
  constructor; [|auto]. intros ([k1 v1] & -> & Hin%elem_of_dict_pop)%list_elem_of_fmap. destruct Hk.
  apply list_elem_of_fmap. by exists (k1, v1).
Qed.

Lemma assoc_dict_pop k k' d : NoDup d.*1 → assoc k' (dict_pop k d) = if decide (k = k') then None else assoc k' d.
Proof.
  induction d as [|[k0 v0] d IH]; simpl; [by case_decide|]. intros [Hk Hd]%NoDup_cons.
  destruct (decide (k0 = k)) as [->|]; simpl.
  - destruct (decide (k = k')) as [->|]; [|done]. destruct (assoc k' d) as [v|] eqn:E; [|done].
    exfalso. apply Hk, list_elem_of_fmap. exists (k', v). split; [done|]. by apply elem_of_assoc.
  - rewrite IH by done. repeat case_decide; simplify_eq; done.
Qed.
End dict.

(** ** Strings *)

(** [str.lower] on ASCII. *)
Definition ascii_lower (c : Ascii.ascii) : Ascii.ascii :=
  let n := Ascii.N_of_ascii c in
  if bool_decide (65 ≤ n ∧ n ≤ 90)%N then Ascii.ascii_of_N (n + 32) else c.
Fixpoint lower (s : string) : string :=
  match s with EmptyString => EmptyString | String c s => String (ascii_lower c) (lower s) end.

(** [int(s)] in base ten on ASCII: surrounding white space, a sign, digits with
    single underscores between them. *)
Definition is_space (c : Ascii.ascii) : bool :=
  let n := Ascii.N_of_ascii c in bool_decide (n = 32 ∨ 9 ≤ n ∧ n ≤ 13)%N.

Definition digit_of (c : Ascii.ascii) : option Z :=
  let n := Z.of_N (Ascii.N_of_ascii c) in if bool_decide (48 ≤ n ∧ n ≤ 57) then Some (n - 48) else None.

Fixpoint all_space (s : string) : bool :=
  match s with EmptyString => true | String c s => is_space c && all_space s end.

Fixpoint parse_digits (acc : Z) (after_digit : bool) (s : string) : option Z :=
  match s with
  | EmptyString => if after_digit then Some acc else None
  | String c s' =>
      match digit_of c with
      | Some d => parse_digits (10 * acc + d) true s'
      | None =>
          if negb after_digit then None
          else if bool_decide (c = "_"%char) then parse_digits acc false s'
          else if all_space s then Some acc else None
      end
  end.

Fixpoint lstrip (s : string) : string :=
  match s with String c s' => if is_space c then lstrip s' else s | EmptyString => s end.

Definition py_int (s : string) : option Z :=
  match lstrip s with
  | String "-"%char s => Z.opp <$> parse_digits 0 false s
  | String "+"%char s => parse_digits 0 false s
  | s => parse_digits 0 false s
  end.

(** [str(n)] of an integer. *)
Definition str_of_Z (n : Z) : string := pretty n.

Lemma digit_of_pretty n : (n < 10)%N → digit_of (pretty_N_char n) = Some (Z.of_N n).
Proof.
  intros Hn. assert (n = 0 ∨ n = 1 ∨ n = 2 ∨ n = 3 ∨ n = 4 ∨ n = 5 ∨ n = 6 ∨ n = 7 ∨ n = 8 ∨ n = 9)%N as H by lia.
  by repeat destruct H as [->|H]; [..|subst].
Qed.

Lemma parse_pretty_go n b s : (0 < n)%N → parse_digits 0 b (pretty_N_go n s) = parse_digits (Z.of_N n) true s.
Proof.
  revert b s. induction (N.lt_wf_0 n) as [n _ IH]. intros b s Hn. rewrite pretty_N_go_step by done.
  pose proof (N.mod_lt n 10 ltac:(done)) as Hmod. pose proof (N.div_mod n 10 ltac:(done)) as Hdm.
  destruct (decide (n `div` 10 = 0)%N) as [Hz|Hz].
  - rewrite Hz, pretty_N_go_0. cbn [parse_digits]. rewrite digit_of_pretty by done. f_equal. lia.
  - rewrite IH; [|apply N.div_lt; lia|lia]. cbn [parse_digits]. rewrite digit_of_pretty by done. f_equal. lia.
Qed.

Lemma parse_pretty (n : N) : parse_digits 0 false (pretty n) = Some (Z.of_N n).
Proof.
  unfold pretty, pretty_N. destruct (decide (n = 0%N)) as [->|]; [done|]. rewrite parse_pretty_go by lia. done.
Qed.

Lemma pretty_N_first (n : N) : ∃ c s, pretty n = String c s ∧ is_Some (digit_of c).
Proof.
  pose proof (parse_pretty n) as H. destruct (pretty n) as [|c s]; [done|]. exists c, s. split; [done|].
  cbn [parse_digits] in H. by destruct (digit_of c).
Qed.

Lemma digit_not_space c : is_Some (digit_of c) → is_space c = false ∧ c ≠ "-"%char ∧ c ≠ "+"%char.
Proof. intros H. destruct c as [[] [] [] [] [] [] [] []]; try (by destruct H as [? [=]]); split_and!; try done; by vm_compute. Qed.

(** [int(str(n))] is [n]. *)
Lemma py_int_str n : py_int (str_of_Z n) = Some n.
Proof.
  assert (∀ m, py_int (pretty m) = Some (Z.of_N m)) as Hpos.
  { intros m. destruct (pretty_N_first m) as (c & s & E & Hc). destruct (digit_not_space c Hc) as (Hs & Hm & Hp).
    unfold py_int. rewrite E. simpl. rewrite Hs.
    rewrite <-(parse_pretty m), E. destruct c as [[] [] [] [] [] [] [] []]; done. }
  unfold str_of_Z, pretty, pretty_Z. destruct n as [|p|p]; [done|apply (Hpos (Npos p))|].
  change (Z.opp <$> parse_digits 0 false (pretty (Npos p)) = Some (Zneg p)). by rewrite parse_pretty.
Qed.

(** ** JSON *)

Inductive Json :=
  | JNull
  | JBool (b : bool)
  | JInt (n : Z)
  | JFloat (x : float)
  | JStr (s : string)
  | JArr (l : list Json)
  | JObj (d : list (string * Json)).

(** [bool(v)] *)
Definition json_true (v : Json) : bool :=
  match v with
  | JNull => false
  | JBool b => b
  | JInt n => bool_decide (n ≠ 0)
  | JFloat x => negb (feqb x fzero)
  | JStr s => bool_decide (s ≠ "")
  | JArr l => match l with [] => false | _ => true end
  | JObj d => match d with [] => false | _ => true end
  end.

(** [int(x)] of a float: truncation towards zero; infinities and NaN raise. *)
Definition ftrunc (x : float) : option Z :=
  match x with
  | S754_zero _ => Some 0
  | S754_finite s m e =>
      let n := if bool_decide (0 ≤ e) then Zpos m * 2 ^ e else Zpos m / 2 ^ (- e) in
      Some (if s then - n else n)
  | _ => None
  end.

(** [round(x)] of a float: to the nearest integer, ties to even. *)
Definition fround (x : float) : Res Z :=
  match x with
  | S754_zero _ => inr 0
  | S754_finite s m e =>
      let n :=
        if bool_decide (0 ≤ e) then Zpos m * 2 ^ e
        else
          let q := Zpos m / 2 ^ (- e) in
          let r := Zpos m mod 2 ^ (- e) in
          let half := 2 ^ (- e - 1) in
          if bool_decide (r < half) then q else if bool_decide (half < r) then q + 1 else if Z.even q then q else q + 1 in
      inr (if s then - n else n)
  | S754_nan => inl ValueError
  | S754_infinity _ => inl OverflowError
  end.

(** [int(v)]; [None] when it raises. *)
Definition json_int (v : Json) : option Z :=
  match v with
  | JBool b => Some (if b then 1 else 0)
  | JInt n => Some n
  | JFloat x => ftrunc x
  | JStr s => py_int s
  | _ => None
  end.

(** [v.get(k)] on an object; [None] when [v] is not an object. *)
Definition json_get (k : string) (v : Json) : option (option Json) :=
  match v with JObj d => Some (assoc k d) | _ => None end.

(** [x is not None] for the result of [v.get(k)]. *)
Definition present (o : option Json) : option Json :=
  match o with Some JNull | None => None | Some v => Some v end.

(** [iter(v)]: [None] when [v] is not iterable. *)
Definition json_iter (v : Json) : option (list Json) :=
  match v with
  | JArr l => Some l
  | JObj d => Some (JStr <$> d.*1)
  | JStr s => Some ((λ c, JStr (String c EmptyString)) <$> String.list_ascii_of_string s)
  | _ => None
  end.

(** [str(v)]; [repr] is the text of floats and containers. *)
Definition json_str (repr : Json → string) (v : Json) : string :=
  match v with
  | JStr s => s
  | JNull => "None"
  | JBool b => if b then "True" else "False"
  | JInt n => str_of_Z n
  | _ => repr v
  end.
