(* ===== verification/StalenessBuffer.v ===== *)
(** * Entries and the staleness buffer

    Models [EntryCategory], [EntryInfo], [Entry], [BufferStatus] and
    [StalenessBuffer] of psrl/workers/ps/staleness_controller.py, and proves
    the shape invariant of a buffer and the classification [get_status]
    computes from it. *)

From S2P Require Import Prelude.

(** ** Data *)

(** [tuple[str, int]]: worker id and data-parallel rank. *)
Abbreviation RolloutInstanceId := (string * Z)%type.
Definition INVALID_ROLLOUT_INSTANCE_ID : RolloutInstanceId := (EmptyString, -1).

Inductive EntryCategory := EMPTY | RESERVED | OCCUPIED.

#[export] Instance EntryCategory_eq_dec : EqDecision EntryCategory.
Proof. solve_decision. Defined.

(** A field declared [T | list[T]]. *)
Inductive one_or_many (A : Type) :=
  | One (a : A)
  | Many (l : list A).
Arguments One {A} a.
Arguments Many {A} l.

#[export] Instance one_or_many_eq_dec `{EqDecision A} : EqDecision (one_or_many A).
Proof. solve_decision. Defined.

Record EntryInfo := mkEntryInfo {
  rollout_instance_id : one_or_many RolloutInstanceId;
  prompt_id : Z;
  request_idx : one_or_many Z;
  model_version : one_or_many Z;
  n_trajectory : one_or_many Z;
  is_validate : bool;
}.

(** Metadata of one request: an [EntryInfo] all of whose fields are scalars, as
    the request tracker and the manager build it. *)
Record RequestInfo := mkRequestInfo {
  req_instance : RolloutInstanceId;
  req_prompt_id : Z;
  req_idx : Z;
  req_version : Z;
  req_n_trajectory : Z;
  req_is_validate : bool;
}.

Definition entry_of_request (r : RequestInfo) : EntryInfo := {|
  rollout_instance_id := One (req_instance r);
  prompt_id := req_prompt_id r;
  request_idx := One (req_idx r);
  model_version := One (req_version r);
  n_trajectory := One (req_n_trajectory r);
  is_validate := req_is_validate r;
|}.

Definition get_all_request_relative_ids (ei : EntryInfo) : list Z :=
  match request_idx ei with Many l => l | One i => [i] end.

Definition get_all_request_ids (ei : EntryInfo) (rollout_n : Z) : list Z :=
  match request_idx ei with
  | Many l => (λ idx, prompt_id ei * rollout_n + idx) <$> l
  | One i => [prompt_id ei * rollout_n + i]
  end.

(** [min] of an empty list of versions raises [ValueError]. *)
Definition get_entry_version (ei : EntryInfo) : Res Z :=
  match model_version ei with
  | Many l => match list_min l with Some v => inr v | None => inl ValueError end
  | One v => inr v
  end.

Definition is_scalar_request_idx (r : one_or_many Z) : bool :=
  match r with One _ => true | Many _ => false end.

Definition with_instance v ei := mkEntryInfo v (prompt_id ei) (request_idx ei) (model_version ei) (n_trajectory ei) (is_validate ei).
Definition with_request_idx v ei := mkEntryInfo (rollout_instance_id ei) (prompt_id ei) v (model_version ei) (n_trajectory ei) (is_validate ei).
Definition with_model_version v ei := mkEntryInfo (rollout_instance_id ei) (prompt_id ei) (request_idx ei) v (n_trajectory ei) (is_validate ei).
Definition with_n_trajectory v ei := mkEntryInfo (rollout_instance_id ei) (prompt_id ei) (request_idx ei) (model_version ei) v (is_validate ei).

Record Entry := mkEntry {
  category : EntryCategory;
  entry_info : option EntryInfo;
}.

Definition empty_entry : Entry := mkEntry EMPTY None.

Inductive BufferStatus := READY | STUCK | PENDING | READY_WITH_CAPACITY.

#[export] Instance BufferStatus_eq_dec : EqDecision BufferStatus.
Proof. solve_decision. Defined.

(** Iteration order of [for status in BufferStatus]. *)
Definition all_statuses : list BufferStatus := [READY; STUCK; PENDING; READY_WITH_CAPACITY].

Record StalenessBuffer := mkBuffer {
  num_entries : nat;
  ready_num_entries : nat;
  entries : list Entry;
  staleness : option Z;
}.

(** [StalenessBuffer.__init__] *)
Definition new_buffer (num_entries ready_num_entries : nat) (staleness : option Z) : StalenessBuffer :=
  mkBuffer num_entries ready_num_entries (replicate num_entries empty_entry) staleness.

Definition with_entries (es : list Entry) (b : StalenessBuffer) : StalenessBuffer :=
  mkBuffer (num_entries b) (ready_num_entries b) es (staleness b).

(** ** Operations *)

Abbreviation occupied e := (category e = OCCUPIED).
Abbreviation reserved e := (category e = RESERVED).
Abbreviation empty e := (category e = EMPTY).

Definition get_first_non_occupied (b : StalenessBuffer) : nat :=
  default (num_entries b) (find_first (λ e, ¬ occupied e) (entries b)).

(** [-1] when every entry is RESERVED. *)
Definition get_last_non_reserved (b : StalenessBuffer) : Z :=
  match find_last (λ e, ¬ reserved e) (entries b) with
  | Some i => Z.of_nat i
  | None => -1
  end.

Definition get_reserve_entry_num (b : StalenessBuffer) : nat :=
  length (filter (λ e, reserved e) (entries b)).

Definition get_reserved_entry_ids (b : StalenessBuffer) : list nat :=
  (filter (λ ie : nat * Entry, reserved ie.2) (imap pair (entries b))).*1.

Definition insert_entry (entry_id : nat) (c : EntryCategory) (info : option EntryInfo)
    (b : StalenessBuffer) : Res StalenessBuffer :=
  if bool_decide (entry_id < num_entries b)%nat
  then inr (with_entries (<[entry_id := mkEntry c info]> (entries b)) b)
  else inl AssertionError.

Definition delete_entry (entry_id : nat) (b : StalenessBuffer) : Res StalenessBuffer :=
  if bool_decide (entry_id < num_entries b)%nat
  then inr (with_entries (<[entry_id := empty_entry]> (entries b)) b)
  else inl AssertionError.

Definition get_status (b : StalenessBuffer) : Res BufferStatus :=
  let first_non_occupied := get_first_non_occupied b in
  if bool_decide (first_non_occupied = ready_num_entries b) then
    if bool_decide (Exists (λ e, empty e) (drop (ready_num_entries b) (entries b)))
    then inr READY_WITH_CAPACITY else inr READY
  else
    let last_non_reserved := get_last_non_reserved b in
    if bool_decide (Z.of_nat first_non_occupied = last_non_reserved + 1) then
      if bool_decide (Forall (λ e, occupied e) (take first_non_occupied (entries b)) ∧
                      Forall (λ e, reserved e) (drop (Z.to_nat (last_non_reserved + 1)) (entries b)))
      then inr STUCK else inl AssertionError
    else
      if bool_decide (Exists (λ e, empty e) (entries b)) then inr PENDING else inl AssertionError.

Definition get_empty_entries_num (b : StalenessBuffer) : nat :=
  length (filter (λ e, empty e) (entries b)).

Definition clear (b : StalenessBuffer) : StalenessBuffer :=
  with_entries (replicate (num_entries b) empty_entry) b.

(** ** Shape invariant

    Occupied entries form a prefix that never reaches past the ready
    threshold; below the threshold the reserved entries form a suffix, so that
    the first entry that is not occupied can be occupied next.  Above the
    threshold (redundant capacity) reserved and empty entries may alternate. *)
Record wf_buffer (b : StalenessBuffer) : Prop := {
  wf_length : length (entries b) = num_entries b;
  wf_ready : (ready_num_entries b ≤ num_entries b)%nat;
  wf_occupied_prefix i j ei ej :
    (i < j)%nat → entries b !! i = Some ei → entries b !! j = Some ej → occupied ej → occupied ei;
  wf_reserved_suffix i j ei ej :
    (i < j)%nat → (i < ready_num_entries b)%nat →
    entries b !! i = Some ei → entries b !! j = Some ej → reserved ei → reserved ej;
  wf_occupied_bound i e : entries b !! i = Some e → occupied e → (i < ready_num_entries b)%nat;
  wf_info i e : entries b !! i = Some e → entry_info e = None ↔ empty e;
}.

Definition has_empty (b : StalenessBuffer) : Prop := ∃ i e, entries b !! i = Some e ∧ empty e.

#[export] Instance has_empty_dec b : Decision (has_empty b).
Proof.
  refine (cast_if (decide (Exists (λ e, empty e) (entries b))));
    abstract (unfold has_empty; rewrite Exists_exists in *; setoid_rewrite list_elem_of_lookup in e || setoid_rewrite list_elem_of_lookup in n; naive_solver).
Defined.

Section buffer_lemmas.
Implicit Types (b : StalenessBuffer) (i j : nat) (e : Entry).

Lemma category_cases e : empty e ∨ reserved e ∨ occupied e.
Proof. destruct (category e); auto. Qed.

Lemma first_non_occupied_before b i e :
  (i < get_first_non_occupied b)%nat → entries b !! i = Some e → occupied e.
Proof.
  unfold get_first_non_occupied. intros Hi He.
  destruct (find_first _ (entries b)) as [k|] eqn:Hf; simpl in Hi.
  - apply find_first_Some in Hf as [_ Hf]. apply dec_stable. eauto.
  - apply dec_stable. eapply find_first_None in Hf; eauto.
Qed.

Lemma first_non_occupied_at b e :
  wf_buffer b → entries b !! get_first_non_occupied b = Some e → ¬ occupied e.
Proof.
  unfold get_first_non_occupied. intros Hwf He.
  destruct (find_first _ (entries b)) as [k|] eqn:Hf; simpl in He.
  - apply find_first_Some in Hf as [(x & Hx & HP) _]. by simplify_eq.
  - apply lookup_lt_Some in He. pose proof (wf_length _ Hwf). lia.
Qed.

Lemma first_non_occupied_spec b i e :
  wf_buffer b → entries b !! i = Some e → occupied e ↔ (i < get_first_non_occupied b)%nat.
Proof.
  intros Hwf He. split; [|intros; by eapply first_non_occupied_before].
  intros Ho. destruct (decide (i < get_first_non_occupied b)%nat); [done|exfalso].
  destruct (decide (get_first_non_occupied b = i)) as [<-|].
  { by eapply first_non_occupied_at. }
  destruct (lookup_lt_is_Some_2 (entries b) (get_first_non_occupied b)) as [e' He'].
  { apply lookup_lt_Some in He. lia. }
  eapply (first_non_occupied_at b e'); [done..|].
  eapply (wf_occupied_prefix _ Hwf (get_first_non_occupied b) i); eauto with lia.
Qed.

Lemma filter_prefix {A} (P : A → Prop) `{∀ x, Decision (P x)} (l : list A) n :
  (n ≤ length l)%nat → (∀ i x, l !! i = Some x → P x ↔ (i < n)%nat) → length (filter P l) = n.
Proof.
  revert n. induction l as [|x l IH]; intros n Hn Hl; simpl in Hn; [by destruct n; [|lia]|].
  destruct n as [|n].
  - rewrite filter_cons_False by (rewrite (Hl 0%nat x eq_refl); lia). apply IH; [lia|].
    intros i y Hy. rewrite (Hl (S i) y Hy). lia.
  - rewrite filter_cons_True by (rewrite (Hl 0%nat x eq_refl); lia). simpl. f_equal. apply IH; [lia|].
    intros i y Hy. rewrite (Hl (S i) y Hy). lia.
Qed.

Lemma first_non_occupied_le_ready b :
  wf_buffer b → (get_first_non_occupied b ≤ ready_num_entries b)%nat.
Proof.
  intros Hwf. destruct (decide (get_first_non_occupied b ≤ ready_num_entries b)%nat); [done|].
  destruct (decide (ready_num_entries b < num_entries b)%nat).
  - destruct (lookup_lt_is_Some_2 (entries b) (ready_num_entries b)) as [e He].
    { by rewrite (wf_length _ Hwf). }
    enough (ready_num_entries b < ready_num_entries b)%nat by lia.
    eapply (wf_occupied_bound _ Hwf); [done|]. eapply first_non_occupied_before; [|done]. lia.
  - pose proof (wf_ready _ Hwf). unfold get_first_non_occupied in *.
    destruct (find_first _ (entries b)) as [k|] eqn:Hf; simpl in *; [|lia].
    apply find_first_lt in Hf. rewrite (wf_length _ Hwf) in Hf. lia.
Qed.

(** The first slot that is not occupied is the number of occupied slots. *)
Definition occupied_count (b : StalenessBuffer) : nat := length (filter (λ e, occupied e) (entries b)).

Lemma first_non_occupied_count b : wf_buffer b → occupied_count b = get_first_non_occupied b.
Proof.
  intros Hwf. apply filter_prefix; [|intros i e; by apply first_non_occupied_spec].
  rewrite (wf_length _ Hwf). pose proof (first_non_occupied_le_ready b Hwf). pose proof (wf_ready _ Hwf). lia.
Qed.

Lemma last_non_reserved_Some b i :
  get_last_non_reserved b = Z.of_nat i →
  (∃ e, entries b !! i = Some e ∧ ¬ reserved e) ∧
  (∀ j e, (i < j)%nat → entries b !! j = Some e → reserved e).
Proof.
  unfold get_last_non_reserved. destruct (find_last _ (entries b)) as [k|] eqn:Hf; [|lia].
  intros ->%Nat2Z.inj. apply find_last_Some in Hf as [Hi Hj]. split; [done|].
  intros j e ??. apply dec_stable. eauto.
Qed.

Lemma last_non_reserved_cases b :
  (get_last_non_reserved b = -1 ∧ ∀ j e, entries b !! j = Some e → reserved e) ∨
  (∃ i, get_last_non_reserved b = Z.of_nat i ∧ (i < length (entries b))%nat).
Proof.
  unfold get_last_non_reserved. destruct (find_last _ (entries b)) as [k|] eqn:Hf.
  - right. exists k. split; [done|]. by eapply find_last_lt.
  - left. split; [done|]. intros j e ?. apply dec_stable. eapply find_last_None in Hf; eauto.
Qed.

(** Index of the first entry of the reserved suffix. *)
Definition first_reserved (b : StalenessBuffer) : nat := Z.to_nat (get_last_non_reserved b + 1).

Lemma first_reserved_above b i e :
  (first_reserved b ≤ i)%nat → entries b !! i = Some e → reserved e.
Proof.
  unfold first_reserved. intros Hi He. destruct (last_non_reserved_cases b) as [[_ Hall]|(k & Hk & _)]; [eauto|].
  destruct (last_non_reserved_Some b k Hk) as [_ Hall]. apply (Hall i); [lia|done].
Qed.

Lemma first_reserved_below b :
  (0 < first_reserved b)%nat → ∃ e, entries b !! pred (first_reserved b) = Some e ∧ ¬ reserved e.
Proof.
  unfold first_reserved. intros Hi. destruct (last_non_reserved_cases b) as [[Hk _]|(k & Hk & _)]; [lia|].
  destruct (last_non_reserved_Some b k Hk) as [Hall _]. rewrite Hk.
  by replace (pred (Z.to_nat (Z.of_nat k + 1))) with k by lia.
Qed.

Lemma first_non_occupied_empty b :
  wf_buffer b → (get_first_non_occupied b < ready_num_entries b)%nat → has_empty b →
  ∃ e, entries b !! get_first_non_occupied b = Some e ∧ empty e.
Proof.
  intros Hwf Hf (i & ei & Hi & Hei). set (f := get_first_non_occupied b) in *.
  destruct (lookup_lt_is_Some_2 (entries b) f) as [e He].
  { rewrite (wf_length _ Hwf). pose proof (wf_ready _ Hwf). lia. }
  exists e. split; [done|].
  pose proof (first_non_occupied_at b e Hwf He) as Hno.
  destruct (category_cases e) as [?|[Hr|?]]; [done| |done]. exfalso.
  destruct (decide (f < i)%nat) as [Hlt|].
  - pose proof (wf_reserved_suffix _ Hwf f i e ei Hlt Hf He Hi Hr). congruence.
  - destruct (decide (i = f)) as [->|]; [simplify_eq; congruence|].
    assert (occupied ei); [eapply (first_non_occupied_before b i)|congruence]; [lia|done].
Qed.

Lemma last_non_reserved_empty b :
  wf_buffer b → has_empty b →
  ∃ i e, get_last_non_reserved b = Z.of_nat i ∧ entries b !! i = Some e ∧ empty e.
Proof.
  intros Hwf (k & ek & Hk & Hek).
  destruct (last_non_reserved_cases b) as [[_ Hall]|(i & Hi & _)].
  { specialize (Hall _ _ Hk). congruence. }
  destruct (last_non_reserved_Some b i Hi) as [(e & He & Hnr) Hall].
  exists i, e. split_and!; [done..|].
  destruct (category_cases e) as [?|[?|Ho]]; [done..|]. exfalso.
  destruct (decide (i < k)%nat). { assert (reserved ek) by (apply (Hall k); [lia|done]). congruence. }
  destruct (decide (i = k)) as [->|]; [simplify_eq; congruence|].
  assert (occupied ek); [eapply (wf_occupied_prefix _ Hwf k i)|congruence]; eauto with lia.
Qed.

Lemma exists_empty b : Exists (λ e, empty e) (entries b) ↔ has_empty b.
Proof.
  unfold has_empty. rewrite Exists_exists. setoid_rewrite list_elem_of_lookup. naive_solver.
Qed.

(** No empty entry and not ready: the occupied prefix meets the reserved suffix. *)
Lemma first_meets_last b :
  wf_buffer b → (get_first_non_occupied b < ready_num_entries b)%nat →
  Z.of_nat (get_first_non_occupied b) = get_last_non_reserved b + 1 ↔ ¬ has_empty b.
Proof.
  intros Hwf Hf. set (f := get_first_non_occupied b) in *. split.
  - intros Heq (i & ei & Hi & Hei).
    destruct (decide (i < f)%nat).
    + assert (occupied ei) by by eapply first_non_occupied_before. congruence.
    + assert (reserved ei) by (eapply (first_reserved_above b i); [unfold first_reserved; lia|done]). congruence.
  - intros Hne.
    destruct (lookup_lt_is_Some_2 (entries b) f) as [e He].
    { rewrite (wf_length _ Hwf). pose proof (wf_ready _ Hwf). lia. }
    pose proof (first_non_occupied_at b e Hwf He) as Hno.
    destruct (category_cases e) as [?|[Hr|?]]; [exfalso; apply Hne; by exists f, e| |done].
    destruct (last_non_reserved_cases b) as [[Hl Hall]|(l & Hl & Hlt)].
    + destruct (decide (f = 0%nat)); [lia|]. exfalso.
      destruct (lookup_lt_is_Some_2 (entries b) 0) as [e0 He0]; [apply lookup_lt_Some in He; lia|].
      assert (occupied e0) by (eapply (first_non_occupied_before b 0); [fold f; lia|done]).
      specialize (Hall 0%nat e0 He0). congruence.
    + destruct (last_non_reserved_Some b l Hl) as [(el & Hel & Hnr) Hall].
      rewrite Hl. assert (l < f)%nat.
      { destruct (decide (l < f)%nat); [done|]. destruct (decide (l = f)) as [->|]; [by simplify_eq|].
        exfalso. apply Hnr. eapply (wf_reserved_suffix _ Hwf f l); eauto with lia. }
      destruct (decide (S l = f)) as [|]; [lia|].
      destruct (lookup_lt_is_Some_2 (entries b) (S l)) as [e' He']; [apply lookup_lt_Some in He; lia|].
      assert (occupied e') by (eapply (first_non_occupied_before b (S l)); [fold f; lia|done]).
      assert (reserved e') by (apply (Hall (S l)); [lia|done]). congruence.
Qed.
End buffer_lemmas.

(** What the status of a buffer means, read off its entries. *)
Definition status_of (b : StalenessBuffer) : BufferStatus :=
  if decide (get_first_non_occupied b = ready_num_entries b)
  then (if decide (has_empty b) then READY_WITH_CAPACITY else READY)
  else (if decide (has_empty b) then PENDING else STUCK).

Lemma get_status_of b : wf_buffer b → get_status b = inr (status_of b).
Proof.
  intros Hwf. unfold get_status, status_of.
  pose proof (first_non_occupied_le_ready b Hwf) as Hle.
  case_bool_decide as Hr.
  - rewrite (decide_True _ _ Hr).
    assert (Exists (λ e, empty e) (drop (ready_num_entries b) (entries b)) ↔ has_empty b) as Hex.
    { rewrite <-exists_empty, !Exists_exists. setoid_rewrite list_elem_of_lookup. split.
      - intros (e & (i & Hi) & He). rewrite lookup_drop in Hi. eauto.
      - intros (e & (i & Hi) & He). exists e. split; [|done].
        assert (ready_num_entries b ≤ i)%nat as Hri.
        { destruct (decide (ready_num_entries b ≤ i)%nat); [done|].
          assert (occupied e); [eapply (first_non_occupied_before b i)|congruence]; [lia|done]. }
        exists (i - ready_num_entries b)%nat. rewrite lookup_drop. by replace (_ + _)%nat with i by lia. }
    case_bool_decide as He; destruct (decide (has_empty b)); naive_solver.
  - rewrite (decide_False _ _ Hr).
    pose proof (first_meets_last b Hwf) as Hm.
    case_bool_decide as Hl.
    + rewrite decide_False by (apply Hm; [lia|done]).
      rewrite bool_decide_true; [done|]. split; apply Forall_lookup_2.
      * intros i e [Hi Hlt]%lookup_take_Some. by eapply first_non_occupied_before.
      * intros i e Hi. rewrite lookup_drop in Hi. eapply first_reserved_above; [|exact Hi].
        unfold first_reserved. lia.
    + destruct (decide (has_empty b)) as [He|He]; [|exfalso; apply Hl, Hm; [lia|done]].
      by rewrite bool_decide_true by by apply exists_empty.
Qed.

Lemma status_capacity b :
  status_of b = PENDING ∨ status_of b = READY_WITH_CAPACITY ↔ has_empty b.
Proof. unfold status_of. repeat case_decide; naive_solver. Qed.

Lemma status_not_ready b :
  status_of b = PENDING ∨ status_of b = STUCK ↔ get_first_non_occupied b ≠ ready_num_entries b.
Proof. unfold status_of. repeat case_decide; naive_solver. Qed.

(** ** The shape is preserved by every slot update the inventory makes *)

(** Splits the lookup of an updated slot into the updated and the kept case. *)
Ltac slot_cases :=
  repeat match goal with
  | H : <[_ := _]> _ !! _ = Some _ |- _ => apply list_lookup_insert_Some in H
  end; destruct_or?; destruct_and?; simplify_eq/=.

Section buffer_updates.
Context (b : StalenessBuffer) (Hwf : wf_buffer b).
Implicit Types (i j : nat) (e : Entry) (info : EntryInfo).

Lemma wf_new n r st : (r ≤ n)%nat → wf_buffer (new_buffer n r st).
Proof using.
  intros Hr. split; simpl; [by rewrite length_replicate|done|..];
    intros *; repeat (let H := fresh in intros H || intros ?); rewrite ?lookup_replicate in *; naive_solver.
Qed.

Lemma wf_clear : wf_buffer (clear b).
Proof. apply wf_new, wf_ready, Hwf. Qed.

(** Occupying the first slot that is not occupied. *)
Lemma wf_occupy info :
  (get_first_non_occupied b < ready_num_entries b)%nat →
  wf_buffer (with_entries (<[get_first_non_occupied b := mkEntry OCCUPIED (Some info)]> (entries b)) b).
Proof.
  intros Hf.
  split; simpl; rewrite ?length_insert; [apply Hwf|apply Hwf|..].
  - intros i j ei ej Hij Hi Hj Ho. slot_cases; try done.
    + by eapply first_non_occupied_before.
    + by eapply (wf_occupied_prefix b Hwf _ _ _ _ Hij).
  - intros i j ei ej Hij Hir Hi Hj Hr. slot_cases; try done.
    + assert (occupied ei) by by eapply first_non_occupied_before. congruence.
    + by eapply (wf_reserved_suffix b Hwf _ _ _ _ Hij).
  - intros i e Hi Ho. slot_cases; [done|]. by eapply (wf_occupied_bound b Hwf).
  - intros i e Hi. slot_cases; [naive_solver|]. by eapply (wf_info b Hwf).
Qed.

(** Reserving the last slot that is not reserved, when it is empty. *)
Lemma wf_reserve i e info :
  get_last_non_reserved b = Z.of_nat i → entries b !! i = Some e → empty e →
  wf_buffer (with_entries (<[i := mkEntry RESERVED (Some info)]> (entries b)) b).
Proof.
  intros Hl He Hemp. destruct (last_non_reserved_Some b i Hl) as [_ Hall].
  split; simpl; rewrite ?length_insert; [apply Hwf|apply Hwf|..].
  - intros k j ek ej Hkj Hk Hj Ho. slot_cases; try done.
    + exfalso. assert (reserved ej) by by eapply (Hall j). congruence.
    + by eapply (wf_occupied_prefix b Hwf _ _ _ _ Hkj).
  - intros k j ek ej Hkj Hkr Hk Hj Hr. slot_cases; try done.
    + by eapply (Hall j).
    + by eapply (wf_reserved_suffix b Hwf _ _ _ _ Hkj).
  - intros k ek Hk Ho. slot_cases; try done. by eapply (wf_occupied_bound b Hwf).
  - intros k ek Hk. slot_cases; [naive_solver|]. by eapply (wf_info b Hwf).
Qed.

(** Replacing one reserved entry by another. *)
Lemma wf_swap_reserved i e info :
  entries b !! i = Some e → reserved e →
  wf_buffer (with_entries (<[i := mkEntry RESERVED (Some info)]> (entries b)) b).
Proof.
  intros He Hres.
  split; simpl; rewrite ?length_insert; [apply Hwf|apply Hwf|..].
  - intros k j ek ej Hkj Hk Hj Ho. slot_cases; try done.
    + exfalso. assert (occupied e) by by eapply (wf_occupied_prefix b Hwf _ _ _ _ Hkj). congruence.
    + by eapply (wf_occupied_prefix b Hwf _ _ _ _ Hkj).
  - intros k j ek ej Hkj Hkr Hk Hj Hr. slot_cases; try done.
    + by eapply (wf_reserved_suffix b Hwf _ _ _ _ Hkj).
    + by eapply (wf_reserved_suffix b Hwf _ _ _ _ Hkj).
  - intros k ek Hk Ho. slot_cases; try done. by eapply (wf_occupied_bound b Hwf).
  - intros k ek Hk. slot_cases; [naive_solver|]. by eapply (wf_info b Hwf).
Qed.

(** Emptying the slot at the boundary of the reserved suffix. *)
Lemma wf_drop_reserved i e :
  entries b !! i = Some e → reserved e →
  (i = first_reserved b ∨ (ready_num_entries b ≤ i)%nat ∧ (i < first_reserved b)%nat
   ∨ get_first_non_occupied b = ready_num_entries b) →
  wf_buffer (with_entries (<[i := empty_entry]> (entries b)) b).
Proof.
  intros He Hres Hpos.
  assert (∀ k ek, (k < i)%nat → (k < ready_num_entries b)%nat → entries b !! k = Some ek → ¬ reserved ek) as Hlow.
  { intros k ek Hki Hkr Hk Hrk.
    destruct Hpos as [->|[[Hri Hlt]|Hf]].
    - destruct (first_reserved_below b) as (e' & He' & Hn); [lia|]. apply Hn.
      destruct (decide (k = pred (first_reserved b))) as [->|]; [by simplify_eq|].
      by apply (wf_reserved_suffix b Hwf k (pred (first_reserved b)) ek e'); [lia|..].
    - destruct (first_reserved_below b) as (e' & He' & Hn); [lia|]. apply Hn.
      by apply (wf_reserved_suffix b Hwf k (pred (first_reserved b)) ek e'); [lia|..].
    - assert (occupied ek) by (eapply (first_non_occupied_before b k); [lia|done]). congruence. }
  clear Hpos. split; simpl; rewrite ?length_insert; [apply Hwf|apply Hwf|..].
  - intros k j ek ej Hkj Hk Hj Ho. slot_cases; try done.
    + exfalso. assert (occupied e) by by eapply (wf_occupied_prefix b Hwf _ _ _ _ Hkj). congruence.
    + by eapply (wf_occupied_prefix b Hwf _ _ _ _ Hkj).
  - intros k j ek ej Hkj Hkr Hk Hj Hr. slot_cases; try done.
    + exfalso. by eapply Hlow.
    + by eapply (wf_reserved_suffix b Hwf _ _ _ _ Hkj).
  - intros k ek Hk Ho. slot_cases; try done. by eapply (wf_occupied_bound b Hwf).
  - intros k ek Hk. slot_cases; [naive_solver|]. by eapply (wf_info b Hwf).
Qed.

(** Emptying the last occupied slot. *)
Lemma wf_drop_occupied :
  (0 < get_first_non_occupied b)%nat →
  wf_buffer (with_entries (<[pred (get_first_non_occupied b) := empty_entry]> (entries b)) b).
Proof.
  intros Hpos.
  split; simpl; rewrite ?length_insert; [apply Hwf|apply Hwf|..].
  - intros k j ek ej Hkj Hk Hj Ho. slot_cases; try done.
    + exfalso. apply (first_non_occupied_spec b j ej Hwf) in Ho; [|done]. lia.
    + by eapply (wf_occupied_prefix b Hwf _ _ _ _ Hkj).
  - intros k j ek ej Hkj Hkr Hk Hj Hr. slot_cases; try done.
    + exfalso. assert (occupied ek) by (eapply (first_non_occupied_before b k); [lia|done]). congruence.
    + by eapply (wf_reserved_suffix b Hwf _ _ _ _ Hkj).
  - intros k ek Hk Ho. slot_cases; try done. by eapply (wf_occupied_bound b Hwf).
  - intros k ek Hk. slot_cases; [naive_solver|]. by eapply (wf_info b Hwf).
Qed.

(** Replacing the metadata of a slot without changing its category. *)
Lemma wf_update_info i e info :
  entries b !! i = Some e → ¬ empty e →
  wf_buffer (with_entries (<[i := mkEntry (category e) (Some info)]> (entries b)) b).
Proof.
  intros He Hne.
  split; simpl; rewrite ?length_insert; [apply Hwf|apply Hwf|..].
  - intros k j ek ej Hkj Hk Hj Ho. slot_cases; try done; by eapply (wf_occupied_prefix b Hwf _ _ _ _ Hkj).
  - intros k j ek ej Hkj Hkr Hk Hj Hr. slot_cases; try done; by eapply (wf_reserved_suffix b Hwf _ _ _ _ Hkj).
  - intros k ek Hk Ho. slot_cases; by eapply (wf_occupied_bound b Hwf).
  - intros k ek Hk. slot_cases; [naive_solver|]. by eapply (wf_info b Hwf).
Qed.
End buffer_updates.
