(* ===== verification/StalenessInventory.v ===== *)
(** * The staleness inventory

    Models [StalenessInventory] of psrl/workers/ps/staleness_controller.py:
    the collection of buffers, the prompt tracker, the cache of buffer ids by
    status and the Reserve / Occupy / Consume operations on them.  The
    invariants are proved in the files that require this one. *)

From S2P Require Import Prelude.
From S2P Require Import StalenessBuffer.

Record StalenessInventory := mkInventory {
  inv_staleness : option Z;
  buffer_id : Z;                       (* the next id to create *)
  inv_num_entries : nat;
  inv_ready_num_entries : nat;
  rollout_n : Z;
  inv_is_validate : bool;
  buffers : gmap Z StalenessBuffer;
  data_tracker : gmap Z (Z * nat);     (* prompt id to (buffer id, slot) *)
  buffer_ids_by_status : BufferStatus → gset Z;
  ready_for_delete_buffer_ids : gset Z;
}.

Definition with_buffer_id v s := mkInventory (inv_staleness s) v (inv_num_entries s) (inv_ready_num_entries s)
  (rollout_n s) (inv_is_validate s) (buffers s) (data_tracker s) (buffer_ids_by_status s) (ready_for_delete_buffer_ids s).
Definition with_sizes n r s := mkInventory (inv_staleness s) (buffer_id s) n r
  (rollout_n s) (inv_is_validate s) (buffers s) (data_tracker s) (buffer_ids_by_status s) (ready_for_delete_buffer_ids s).
Definition with_buffers v s := mkInventory (inv_staleness s) (buffer_id s) (inv_num_entries s) (inv_ready_num_entries s)
  (rollout_n s) (inv_is_validate s) v (data_tracker s) (buffer_ids_by_status s) (ready_for_delete_buffer_ids s).
Definition with_tracker v s := mkInventory (inv_staleness s) (buffer_id s) (inv_num_entries s) (inv_ready_num_entries s)
  (rollout_n s) (inv_is_validate s) (buffers s) v (buffer_ids_by_status s) (ready_for_delete_buffer_ids s).
Definition with_by_status v s := mkInventory (inv_staleness s) (buffer_id s) (inv_num_entries s) (inv_ready_num_entries s)
  (rollout_n s) (inv_is_validate s) (buffers s) (data_tracker s) v (ready_for_delete_buffer_ids s).
Definition with_ready_for_delete v s := mkInventory (inv_staleness s) (buffer_id s) (inv_num_entries s) (inv_ready_num_entries s)
  (rollout_n s) (inv_is_validate s) (buffers s) (data_tracker s) (buffer_ids_by_status s) v.

Abbreviation Inv := (M StalenessInventory).

(** [StalenessInventory.__init__].  In validation mode a truthy staleness is
    replaced by [None] (a staleness of [0] is kept) and the two sizes agree. *)
Definition new_inventory (num_entries ready_num_entries : nat) (staleness : option Z) (rollout_n : Z)
    (is_validate : bool) : StalenessInventory := {|
  inv_staleness :=
    if is_validate then match truthy staleness with Some _ => None | None => staleness end else staleness;
  buffer_id := 0;
  inv_num_entries := if is_validate then ready_num_entries else num_entries;
  inv_ready_num_entries := ready_num_entries;
  rollout_n := rollout_n;
  inv_is_validate := is_validate;
  buffers := ∅;
  data_tracker := ∅;
  buffer_ids_by_status := λ _, ∅;
  ready_for_delete_buffer_ids := ∅;
|}.

(** ** Attribute access *)

(** [self.buffers[bid]] *)
Definition get_buffer (bid : Z) : Inv StalenessBuffer :=
  s ← gets id; of_option KeyError (buffers s !! bid).

(** A method that updates [self.buffers[bid]] in place. *)
Definition on_buffer (bid : Z) (f : StalenessBuffer → Res StalenessBuffer) : Inv unit :=
  b ← get_buffer bid; b' ← of_res (f b); modify (λ s, with_buffers (<[bid := b']> (buffers s)) s).

(** [self.buffers[bid].entries[eid]] *)
Definition get_entry (bid : Z) (eid : nat) : Inv Entry :=
  b ← get_buffer bid; of_option IndexError (entries b !! eid).

(** [self.buffers[bid].entries[eid] = e] *)
Definition set_entry (bid : Z) (eid : nat) (e : Entry) : Inv unit :=
  on_buffer bid (λ b, if bool_decide (eid < length (entries b))%nat
                      then inr (with_entries (<[eid := e]> (entries b)) b) else inl IndexError).

Definition track (pid : Z) (pos : Z * nat) : Inv unit :=
  modify (λ s, with_tracker (<[pid := pos]> (data_tracker s)) s).

(** [del self.data_tracker[pid]] *)
Definition untrack (pid : Z) : Inv unit :=
  s ← gets id; of_option KeyError (data_tracker s !! pid) ;;
  modify (λ s, with_tracker (delete pid (data_tracker s)) s).

(** ** Status cache *)

(** [get_status] read from the cache, in the order of the enum. *)
Definition cached_status (s : StalenessInventory) (bid : Z) : option BufferStatus :=
  head (filter (λ st, bid ∈ buffer_ids_by_status s st) all_statuses).

Definition update_buffer_status (bid : Z) : Inv unit :=
  s ← gets id;
  match buffers s !! bid with
  | None => mret tt
  | Some b =>
      match cached_status s bid with
      | Some st => modify (λ s, with_by_status (<[st := buffer_ids_by_status s st ∖ {[bid]}]> (buffer_ids_by_status s)) s)
      | None => mret tt
      end ;;
      new_status ← of_res (get_status b);
      modify (λ s, with_by_status (<[new_status := {[bid]} ∪ buffer_ids_by_status s new_status]> (buffer_ids_by_status s)) s)
  end.

Definition get_buffer_status (bid : Z) : Inv BufferStatus :=
  s ← gets id;
  match buffers s !! bid with
  | None => raise ValueError
  | Some _ => of_option ValueError (cached_status s bid)
  end.

Definition get_buffers_not_ready (s : StalenessInventory) : gset Z :=
  buffer_ids_by_status s STUCK ∪ buffer_ids_by_status s PENDING.

Definition get_buffers_with_capacity (s : StalenessInventory) : gset Z :=
  buffer_ids_by_status s PENDING ∪ buffer_ids_by_status s READY_WITH_CAPACITY.

Definition ready_buffer_ids (s : StalenessInventory) : gset Z :=
  buffer_ids_by_status s READY ∪ buffer_ids_by_status s READY_WITH_CAPACITY.

Definition min_ready_buffer_id (s : StalenessInventory) : option Z := set_min (ready_buffer_ids s).
Definition max_ready_buffer_id (s : StalenessInventory) : option Z := set_max (ready_buffer_ids s).
Definition min_not_ready_buffer_id (s : StalenessInventory) : option Z := set_min (get_buffers_not_ready s).

(** ** Creating and deleting buffers *)

Definition create_buffer (bid : Z) : Inv unit :=
  s ← gets id;
  assert (bool_decide (bid = buffer_id s)) ;;
  modify (λ s, with_buffers (<[bid := new_buffer (inv_num_entries s) (inv_ready_num_entries s) (inv_staleness s)]> (buffers s)) s) ;;
  update_buffer_status bid ;;
  modify (λ s, with_buffer_id (buffer_id s + 1) s).

Definition create_buffer_with_capacity (ready_num_entries num_entries : nat) : Inv unit :=
  s ← gets id;
  assert (inv_is_validate s) ;;
  modify (with_sizes num_entries ready_num_entries) ;;
  create_buffer (buffer_id s).

Definition delete_buffer (bid : Z) : Inv unit :=
  s ← gets id;
  match buffers s !! bid with
  | None => mret tt
  | Some b =>
      for_each (entry_info <$> filter (λ e, ¬ empty e) (entries b)) (λ oinfo,
        info ← of_option AttributeError oinfo;
        s ← gets id;
        assert (bool_decide (is_Some (data_tracker s !! prompt_id info))) ;;
        untrack (prompt_id info)) ;;
      modify (λ s, with_by_status (λ st, buffer_ids_by_status s st ∖ {[bid]}) s) ;;
      modify (λ s, with_buffers (delete bid (buffers s)) s) ;;
      modify (λ s, with_ready_for_delete (ready_for_delete_buffer_ids s ∖ {[bid]}) s)
  end.

Definition mark_buffer_for_deletion (bid : Z) : Inv unit :=
  st ← get_buffer_status bid;
  assert (bool_decide (st = READY ∨ st = READY_WITH_CAPACITY)) ;;
  modify (λ s, with_ready_for_delete ({[bid]} ∪ ready_for_delete_buffer_ids s) s).

Definition ensure_buffer_exists (max_staleness_buffer_id : option Z) : Inv unit :=
  s ← gets id;
  if inv_is_validate s then mret tt
  else
    hi ← of_option AssertionError max_staleness_buffer_id;
    for_each (zrange (buffer_id s) (hi + 1)) create_buffer.

Definition get_empty_entries_total_num (max_staleness_buffer_id : option Z) : Inv Z :=
  s ← gets id;
  (if inv_is_validate s then mret tt
   else of_option AssertionError max_staleness_buffer_id ;; ensure_buffer_exists max_staleness_buffer_id) ;;
  s ← gets id;
  mret (foldr Z.add 0
    ((λ bid, match buffers s !! bid with Some b => Z.of_nat (get_empty_entries_num b) | None => 0 end) <$>
     filter (λ bid, bid ≤ default bid max_staleness_buffer_id)
       (elements (get_buffers_with_capacity s)))).

Definition get_max_pending_buffer_id (max_staleness_buffer_id : Z) (s : StalenessInventory) : option Z :=
  list_max (filter (λ bid, bid ≤ max_staleness_buffer_id) (elements (get_buffers_with_capacity s))).

(** ** Reserve *)

(** [self.staleness if self.staleness is not None else 0] *)
Definition staleness_or_0 (s : StalenessInventory) : Z := default 0 (inv_staleness s).

Definition can_reserve_data_without_new_reserve_entry (r : RequestInfo) (model_version : Z)
    (s : StalenessInventory) : bool :=
  match data_tracker s !! req_prompt_id r with
  | Some (bid, _) => bool_decide (bid ≤ model_version + staleness_or_0 s)
  | None => false
  end.

Definition can_reserve_data (r : RequestInfo) (model_version : Z) : Inv bool :=
  s ← gets id;
  let staleness := staleness_or_0 s in
  match data_tracker s !! req_prompt_id r with
  | Some (bid, _) => mret (bool_decide (bid ≤ model_version + staleness))
  | None =>
      ensure_buffer_exists (Some (model_version + staleness)) ;;
      s ← gets id;
      let candidate_ids := filter (λ bid, model_version ≤ bid ≤ model_version + staleness
                                          ∧ bid ∉ ready_for_delete_buffer_ids s)
                             (elements (get_buffers_with_capacity s)) in
      mret (bool_decide (candidate_ids ≠ []))
  end.

(** The index list of an entry, turned into a list on first use. *)
Definition idx_list (f : one_or_many Z) : list Z := match f with Many l => l | One i => [i] end.

(** A metadata field extended by one request: a scalar that differs from the
    request's value is first spread over [n] requests. *)
Definition append_field {A} `{EqDecision A} (n : nat) (f : one_or_many A) (v : A) : one_or_many A :=
  match f with
  | One u => if bool_decide (u ≠ v) then Many (replicate n u ++ [v]) else One u
  | Many l => Many (l ++ [v])
  end.

(** The in-place update of a tracked entry by a further request of its prompt.
    After [request_idx.append], [len(request_idx)] copies of the version are
    made, but [len(request_idx) - 1] copies of the instance and of the
    trajectory count. *)
Definition merge_request (t : EntryInfo) (r : RequestInfo) : EntryInfo :=
  let idxs := idx_list (request_idx t) in
  if bool_decide (req_idx r ∈ idxs) then with_request_idx (Many idxs) t
  else
    let idxs := idxs ++ [req_idx r] in
    mkEntryInfo
      (append_field (length idxs - 1) (rollout_instance_id t) (req_instance r))
      (prompt_id t)
      (Many idxs)
      (append_field (length idxs) (model_version t) (req_version r))
      (append_field (length idxs - 1) (n_trajectory t) (req_n_trajectory r))
      (is_validate t).

(** [self.buffers[bid].entries[eid].entry_info], which is never absent on a
    slot the tracker points to. *)
Definition get_info (bid : Z) (eid : nat) : Inv EntryInfo :=
  e ← get_entry bid eid; of_option AttributeError (entry_info e).

Definition set_info (bid : Z) (eid : nat) (info : EntryInfo) : Inv unit :=
  e ← get_entry bid eid; set_entry bid eid (mkEntry (category e) (Some info)).

Definition reserve_data (r : RequestInfo) (max_staleness_buffer_id : option Z) : Inv (option (Z * nat)) :=
  s ← gets id;
  let max_id := if inv_is_validate s then None else max_staleness_buffer_id in
  match data_tracker s !! req_prompt_id r with
  | Some (bid, eid) =>
      t ← get_info bid eid;
      set_info bid eid (merge_request t r) ;;
      mret (Some (bid, eid))
  | None =>
      (if inv_is_validate s then mret tt
       else of_option AssertionError max_id ;; ensure_buffer_exists max_id) ;;
      s ← gets id;
      let pending_buffers := get_buffers_with_capacity s in
      candidate_ids ←
        (match truthy max_id with
         | None =>
             assert (bool_decide (size pending_buffers = 1%nat)) ;;
             mret (elements pending_buffers)
         | Some hi =>
             st ← (match elements pending_buffers with
                   | [] => mret 0
                   | _ => of_option TypeError (inv_staleness s)
                   end);
             mret (filter (λ bid, hi - st ≤ bid ≤ hi ∧ bid ∉ ready_for_delete_buffer_ids s)
                     (elements pending_buffers))
         end);
      match list_max candidate_ids with
      | None => mret None
      | Some target =>
          b ← get_buffer target;
          let last := get_last_non_reserved b in
          assert (bool_decide (last ≠ -1)) ;;
          let eid := Z.to_nat last in
          e ← get_entry target eid;
          assert (bool_decide (empty e)) ;;
          on_buffer target (insert_entry eid RESERVED (Some (entry_of_request r))) ;;
          track (req_prompt_id r) (target, eid) ;;
          update_buffer_status target ;;
          mret (Some (target, eid))
      end
  end.

(** ** Metadata updates *)

(** [list.index], which raises [ValueError]. *)
Definition list_index (x : Z) (l : list Z) : Res nat :=
  match find_first (λ y, y = x) l with Some k => inr k | None => inl ValueError end.

(** The common body of [update_request_version_tag], [update_request_instance_id]
    and [update_request_n_trajectory] on the field they update. *)
Definition update_field {A} `{EqDecision A} (idxs : one_or_many Z) (f : one_or_many A)
    (ridx : Z) (new : A) : Res (one_or_many A) :=
  match f with
  | Many l =>
      match idxs with
      | Many is_ =>
          match list_index ridx is_ with
          | inr k => if bool_decide (k < length l)%nat then inr (Many (<[k := new]> l)) else inl IndexError
          | inl e => inl e
          end
      | One _ => inl AttributeError
      end
  | One v =>
      if bool_decide (v = new) then inr (One v)
      else match idxs with
           | Many is_ =>
               match list_index ridx is_ with
               | inr k => inr (Many (<[k := new]> (replicate (length is_) v)))
               | inl e => inl e
               end
           | One _ => inr (One new)
           end
  end.

Definition update_request (request_id : Z) (upd : Z → EntryInfo → Res EntryInfo) : Inv unit :=
  s ← gets id;
  '(bid, eid) ← of_option AssertionError (data_tracker s !! (request_id / rollout_n s));
  info ← get_info bid eid;
  info' ← of_res (upd (request_id mod rollout_n s) info);
  set_info bid eid info'.

Definition update_request_version_tag (request_id new_version_tag : Z) : Inv unit :=
  update_request request_id (λ ridx info,
    match update_field (request_idx info) (model_version info) ridx new_version_tag with
    | inr f => inr (with_model_version f info) | inl e => inl e end).

Definition update_request_instance_id (request_id : Z) (new_instance_id : RolloutInstanceId) : Inv unit :=
  update_request request_id (λ ridx info,
    match update_field (request_idx info) (rollout_instance_id info) ridx new_instance_id with
    | inr f => inr (with_instance f info) | inl e => inl e end).

Definition update_request_n_trajectory (request_id new_n_trajectory : Z) : Inv unit :=
  update_request request_id (λ ridx info,
    match update_field (request_idx info) (n_trajectory info) ridx new_n_trajectory with
    | inr f => inr (with_n_trajectory f info) | inl e => inl e end).

(** ** Clearing entries *)

(** [entry_info.prompt_id] is read from every entry after the buffer has been
    emptied, so an empty entry raises [AttributeError] here. *)
Definition clear_buffer (bid : Z) : Inv unit :=
  b ← get_buffer bid;
  let entry_infos := entry_info <$> entries b in
  on_buffer bid (λ b, inr (clear b)) ;;
  for_each entry_infos (λ oinfo, info ← of_option AttributeError oinfo; untrack (prompt_id info)) ;;
  update_buffer_status bid.

(** [dst_buffer.entries[dst] = src_buffer.entries[src]; src_buffer.delete(src);
    self.data_tracker[moved.prompt_id] = (dst_bid, dst)] *)
Definition move_entry (src_bid : Z) (src : nat) (dst_bid : Z) (dst : nat) : Inv unit :=
  e ← get_entry src_bid src;
  set_entry dst_bid dst e ;;
  on_buffer src_bid (delete_entry src) ;;
  info ← of_option AssertionError (entry_info e);
  track (prompt_id info) (dst_bid, dst).

Section ordered.
Context `{SetOrder}.

Definition update_statuses (bids : gset Z) : Inv unit :=
  for_each (set_iter bids) update_buffer_status.

Definition clear_occupied_entry (pid : Z) (updated : gset Z) : Inv (gset Z) :=
  s ← gets id;
  '(bid, eid) ← of_option AssertionError (data_tracker s !! pid);
  b ← get_buffer bid;
  let last_occupied := Z.of_nat (get_first_non_occupied b) - 1 in
  assert (bool_decide (Z.of_nat eid ≤ last_occupied)) ;;
  on_buffer bid (delete_entry eid) ;;
  untrack pid ;;
  (if bool_decide (Z.of_nat eid < last_occupied)
   then move_entry bid (Z.to_nat last_occupied) bid eid else mret tt) ;;
  mret ({[bid]} ∪ updated).

Definition clear_occupied_entries (prompt_ids : list Z) : Inv unit :=
  updated ← fold_each prompt_ids ∅ clear_occupied_entry;
  update_statuses updated.

(** The first reserved entry of one buffer that may move to [target]. *)
Fixpoint find_exchange_in (st target : Z) (limit : option nat) (prompt_ids : list Z)
    (eid : nat) (es : list Entry) : Res (option nat) :=
  match es with
  | [] => inr None
  | e :: es =>
      if decide (limit = Some eid) then inr None
      else if decide (reserved e) then
        match entry_info e with
        | None => inl AttributeError
        | Some info =>
            match get_entry_version info with
            | inl x => inl x
            | inr v =>
                if bool_decide (target - st ≤ v ∧ v ≤ target ∧ prompt_id info ∉ prompt_ids)
                then inr (Some eid)
                else find_exchange_in st target limit prompt_ids (S eid) es
            end
        end
      else find_exchange_in st target limit prompt_ids (S eid) es
  end.

(** The search over the buffers of the window, skipping ready ones. *)
Fixpoint find_exchange (st target : Z) (entry_id : nat) (prompt_ids : list Z)
    (bufs : gmap Z StalenessBuffer) (bids : list Z) : Res (option (Z * nat)) :=
  match bids with
  | [] => inr None
  | bid :: bids =>
      match bufs !! bid with
      | None => find_exchange st target entry_id prompt_ids bufs bids
      | Some b =>
          match get_status b with
          | inl x => inl x
          | inr READY | inr READY_WITH_CAPACITY => find_exchange st target entry_id prompt_ids bufs bids
          | inr _ =>
              let limit := if bool_decide (bid = target) then Some entry_id else None in
              match find_exchange_in st target limit prompt_ids 0 (entries b) with
              | inl x => inl x
              | inr (Some eid) => inr (Some (bid, eid))
              | inr None => find_exchange st target entry_id prompt_ids bufs bids
              end
          end
      end
  end.

Definition clear_reserved_entry (move_across_buffer : bool) (prompt_ids : list Z)
    (pid : Z) (changed : gset Z) : Inv (gset Z) :=
  s ← gets id;
  match data_tracker s !! pid with
  | None => mret changed
  | Some (bid, eid) =>
      b ← get_buffer bid;
      e ← get_entry bid eid;
      if negb move_across_buffer then
        let last_reserved := first_reserved b in
        on_buffer bid (delete_entry eid) ;;
        untrack pid ;;
        (if bool_decide (last_reserved < eid)%nat then move_entry bid last_reserved bid eid else mret tt) ;;
        mret ({[bid]} ∪ changed)
      else
        info ← of_option AttributeError (entry_info e);
        v ← of_res (get_entry_version info);
        st ← of_option TypeError (inv_staleness s);
        found ← of_res (find_exchange st bid eid prompt_ids (buffers s) (zrange v (Z.min (v + st) bid + 1)));
        match found with
        | Some (xbid, xeid) =>
            xb ← get_buffer xbid;
            let last_reserved := first_reserved xb in
            on_buffer bid (delete_entry eid) ;;
            untrack pid ;;
            move_entry xbid xeid bid eid ;;
            (if bool_decide (last_reserved < xeid)%nat then move_entry xbid last_reserved xbid xeid else mret tt) ;;
            mret ({[xbid]} ∪ ({[bid]} ∪ changed))
        | None =>
            on_buffer bid (delete_entry eid) ;;
            untrack pid ;;
            mret ({[bid]} ∪ changed)
        end
  end.

Definition clear_reserved_entries (prompt_ids : list Z) (move_across_buffer : bool) : Inv unit :=
  s ← gets id;
  let move_across_buffer := move_across_buffer && negb (inv_is_validate s) in
  changed ← fold_each prompt_ids ∅ (clear_reserved_entry move_across_buffer prompt_ids);
  update_statuses changed.

(** ** Occupy *)

(** [model_version <= bid <= model_version + self.staleness and
    self.buffers[bid].get_first_non_occupied() < self.buffers[bid].ready_num_entries] *)
Definition occupy_candidate (s : StalenessInventory) (v st bid : Z) : Prop :=
  v ≤ bid ≤ v + st ∧
  match buffers s !! bid with
  | Some b => (get_first_non_occupied b < ready_num_entries b)%nat
  | None => False
  end.

#[global] Instance occupy_candidate_dec s v st bid : Decision (occupy_candidate s v st bid).
Proof. unfold occupy_candidate. destruct (buffers s !! bid); apply _. Defined.

(** Occupies the first slot of [bid] that is not occupied; shared by the three
    placements below. *)
Definition occupy_slot (bid : Z) (eid : nat) (info : EntryInfo) : Inv (Z * nat * nat) :=
  on_buffer bid (insert_entry eid OCCUPIED (Some info)) ;;
  track (prompt_id info) (bid, eid) ;;
  b ← get_buffer bid;
  let occupy_num := get_first_non_occupied b in
  update_buffer_status bid ;;
  mret (bid, eid, occupy_num).

(** Placement in the least candidate, which must have its first slot empty. *)
Definition occupy_least (candidate_ids : list Z) (info : EntryInfo) : Inv (Z * nat * nat) :=
  bid ← of_option AssertionError (list_min candidate_ids);
  b ← get_buffer bid;
  let eid := get_first_non_occupied b in
  assert (bool_decide (eid < ready_num_entries b)%nat) ;;
  e ← get_entry bid eid;
  assert (bool_decide (empty e)) ;;
  occupy_slot bid eid info.

Definition occupy_data_without_reserve (info : EntryInfo) : Inv (Z * nat * nat) :=
  v ← of_res (get_entry_version info);
  s ← gets id;
  let pending_buffers := get_buffers_with_capacity s in
  st ← (match elements pending_buffers with [] => mret 0 | _ => of_option TypeError (inv_staleness s) end);
  occupy_least (filter (occupy_candidate s v st) (elements pending_buffers)) info.

Definition move_occupied_entries (infos : list EntryInfo) (bid : Z) : Inv unit :=
  clear_occupied_entries (prompt_id <$> infos) ;;
  for_each infos (λ info,
    '(occupied_bid, _, _) ← occupy_data_without_reserve info;
    assert (bool_decide (occupied_bid = bid))).

(** The check made before the reservation is released. *)
Definition have_possible_occupy_target (s : StalenessInventory) (v : Z) : Res bool :=
  let below bid := match buffers s !! bid with
                   | Some b => bool_decide (get_first_non_occupied b < ready_num_entries b)%nat
                   | None => false
                   end in
  if inv_is_validate s then
    match min_not_ready_buffer_id s with
    | None => inl KeyError
    | Some bid => match buffers s !! bid with None => inl KeyError | Some _ => inr (below bid) end
    end
  else
    match inv_staleness s with
    | None => inl TypeError
    | Some st => inr (existsb below (zrange (v - st) (v + st + 1)))
    end.

(** One candidate of a redundant rollout: its first slot is used when empty;
    a reserved first slot is first vacated into the latest earlier buffer
    with capacity. [None] tries the next candidate. *)
Definition occupy_redundant_at (pending_buffers : gset Z) (info : EntryInfo) (bid : Z)
    : Inv (option (Z * nat * nat)) :=
  b ← get_buffer bid;
  let eid := get_first_non_occupied b in
  assert (bool_decide (eid < ready_num_entries b)%nat) ;;
  e ← get_entry bid eid;
  if bool_decide (empty e) then (res ← occupy_slot bid eid info; mret (Some res))
  else
    assert (bool_decide (reserved e)) ;;
    s ← gets id;
    match list_max (filter (λ x, x < bid ∧ x ∉ ready_for_delete_buffer_ids s) (elements pending_buffers)) with
    | None => mret None
    | Some xbid =>
        xb ← get_buffer xbid;
        let last := get_last_non_reserved xb in
        assert (bool_decide (0 ≤ last)) ;;
        xe ← get_entry xbid (Z.to_nat last);
        assert (bool_decide (empty xe)) ;;
        move_entry bid eid xbid (Z.to_nat last) ;;
        update_buffer_status xbid ;;
        res ← occupy_slot bid eid info;
        mret (Some res)
    end.

Fixpoint occupy_redundant (pending_buffers : gset Z) (info : EntryInfo) (bids : list Z)
    : Inv (option (Z * nat * nat)) :=
  match bids with
  | [] => mret None
  | bid :: bids =>
      r ← occupy_redundant_at pending_buffers info bid;
      match r with
      | Some res => mret (Some res)
      | None => occupy_redundant pending_buffers info bids
      end
  end.

(** The overflow placement of a redundant result no candidate could take. *)
Definition occupy_overflow (candidate_ids : list Z) (info : EntryInfo) : Inv (Z * nat * nat) :=
  bid ← of_option ValueError (list_min candidate_ids);
  b ← get_buffer bid;
  let eid := get_first_non_occupied b in
  assert (bool_decide (ready_num_entries b ≤ eid)%nat) ;;
  e ← get_entry bid eid;
  assert (bool_decide (empty e)) ;;
  occupy_slot bid eid info.

Definition occupy_data_with_reserve (pid : Z) : Inv (Z * nat * nat) :=
  s ← gets id;
  '(old_bid, old_eid) ← of_option AssertionError (data_tracker s !! pid);
  info ← get_info old_bid old_eid;
  v ← of_res (get_entry_version info);
  possible ← of_res (have_possible_occupy_target s v);
  assert possible ;;
  clear_reserved_entries [pid] (negb (inv_is_validate s)) ;;
  s ← gets id;
  old_b ← get_buffer old_bid;
  let pending_buffers := get_buffers_with_capacity s in
  if bool_decide (old_eid < ready_num_entries old_b)%nat then
    candidate_ids ←
      (if inv_is_validate s then mret (elements pending_buffers)
       else st ← (match elements pending_buffers with [] => mret 0 | _ => of_option TypeError (inv_staleness s) end);
            mret (filter (occupy_candidate s v st) (elements pending_buffers)));
    occupy_least candidate_ids info
  else
    let not_ready := get_buffers_not_ready s in
    st ← (match elements not_ready with [] => mret 0 | _ => of_option TypeError (inv_staleness s) end);
    let candidate_ids := filter (occupy_candidate s v st) (set_iter not_ready) in
    assert (bool_decide (candidate_ids ≠ [])) ;;
    r ← occupy_redundant pending_buffers info candidate_ids;
    match r with
    | Some res => mret res
    | None =>
        s ← gets id;
        st ← of_option TypeError (inv_staleness s);
        occupy_overflow (filter (occupy_candidate s v st) (elements pending_buffers)) info
    end.
End ordered.
