(* ===== verification/InventoryInv.v ===== *)
(** * Invariants of the staleness inventory

    The invariant of [StalenessInventory] (shape of every buffer, agreement of
    the prompt tracker with the slots, exactness of the status cache) and the
    lemmas on the primitive steps (slot updates, tracker updates, cache
    refresh) that every operation is made of. *)

From S2P Require Import Prelude.
From S2P Require Import StalenessBuffer.
From S2P Require Import StalenessInventory.

(** ** Slots *)

Definition slot_at (bufs : gmap Z StalenessBuffer) (pos : Z * nat) : option Entry :=
  bufs !! pos.1 ≫= λ b, entries b !! pos.2.

Definition prompt_at (bufs : gmap Z StalenessBuffer) (pos : Z * nat) : option Z :=
  slot_at bufs pos ≫= λ e, prompt_id <$> entry_info e.

(** The buffer with one slot replaced. *)
Definition put_slot (pos : Z * nat) (e : Entry) (bufs : gmap Z StalenessBuffer) : gmap Z StalenessBuffer :=
  alter (λ b, with_entries (<[pos.2 := e]> (entries b)) b) pos.1 bufs.

(** ** The invariant *)

(** The cache is exact outside the buffers [D] whose entries have changed since
    the last refresh; on those it still names at most one status. *)
Record cache_ok (D : gset Z) (s : StalenessInventory) : Prop := {
  cache_exact bid st : bid ∉ D →
    bid ∈ buffer_ids_by_status s st ↔ ∃ b, buffers s !! bid = Some b ∧ status_of b = st;
  cache_unique bid st st' :
    bid ∈ buffer_ids_by_status s st → bid ∈ buffer_ids_by_status s st' → st = st';
  cache_exists bid st : bid ∈ buffer_ids_by_status s st → is_Some (buffers s !! bid);
}.

Definition all_wf (s : StalenessInventory) : Prop :=
  ∀ bid b, buffers s !! bid = Some b → wf_buffer b ∧ bid < buffer_id s.

Record inv_ok (s : StalenessInventory) : Prop := {
  ok_wf : all_wf s;
  ok_tracked : inverse (data_tracker s) (prompt_at (buffers s));
  ok_cache : cache_ok ∅ s;
  ok_delete bid : bid ∈ ready_for_delete_buffer_ids s → is_Some (buffers s !! bid);
  ok_sizes : (inv_ready_num_entries s ≤ inv_num_entries s)%nat;
}.

(** The staleness bound: the oldest version of an entry is at most [st] behind
    the buffer (training step) the entry is placed in, and not ahead of it. *)
Definition in_window (st bid : Z) (info : EntryInfo) : Prop :=
  ∃ v, get_entry_version info = inr v ∧ v ≤ bid ≤ v + st.

Definition window_ok (s : StalenessInventory) : Prop :=
  ∀ st pos e info, inv_is_validate s = false → inv_staleness s = Some st →
    slot_at (buffers s) pos = Some e → entry_info e = Some info → in_window st pos.1 info.

Section slots.
Implicit Types (bufs : gmap Z StalenessBuffer) (pos : Z * nat) (e : Entry).

Lemma slot_at_Some bufs bid eid e :
  slot_at bufs (bid, eid) = Some e ↔ ∃ b, bufs !! bid = Some b ∧ entries b !! eid = Some e.
Proof. unfold slot_at. simpl. destruct (bufs !! bid); naive_solver. Qed.

Lemma slot_at_put bufs pos pos' e e0 :
  slot_at bufs pos = Some e0 →
  slot_at (put_slot pos e bufs) pos' = if decide (pos = pos') then Some e else slot_at bufs pos'.
Proof.
  destruct pos as [bid eid], pos' as [bid' eid']. intros (b & Hb & He)%slot_at_Some.
  unfold slot_at, put_slot. simpl. rewrite lookup_alter.
  destruct (decide (bid = bid')) as [<-|Hne].
  - rewrite Hb. simpl. destruct (decide (eid = eid')) as [<-|].
    + rewrite decide_True by done. apply list_lookup_insert_eq. by eapply lookup_lt_Some.
    + rewrite decide_False by congruence. by apply list_lookup_insert_ne.
  - by rewrite decide_False by congruence.
Qed.

Lemma prompt_at_put bufs pos e e0 :
  slot_at bufs pos = Some e0 →
  pointwise_relation _ (=) (prompt_at (put_slot pos e bufs))
    (<[pos := prompt_id <$> entry_info e]> (prompt_at bufs)).
Proof.
  intros He pos'. unfold prompt_at, insert, fn_insert. rewrite (slot_at_put _ _ _ _ _ He).
  by destruct (decide (pos = pos')).
Qed.

Lemma put_slot_lookup bufs pos e bid b :
  bufs !! bid = Some b →
  put_slot pos e bufs !! bid =
    Some (if decide (pos.1 = bid) then with_entries (<[pos.2 := e]> (entries b)) b else b).
Proof. intros Hb. unfold put_slot. rewrite lookup_alter. case_decide; subst; by rewrite Hb. Qed.

Lemma put_slot_None bufs pos e bid : bufs !! bid = None ↔ put_slot pos e bufs !! bid = None.
Proof. unfold put_slot. rewrite lookup_alter. case_decide; subst; by destruct (bufs !! _). Qed.

Lemma slot_at_lt bufs bid eid b e :
  bufs !! bid = Some b → slot_at bufs (bid, eid) = Some e → (eid < length (entries b))%nat.
Proof. intros Hb (b' & Hb' & He)%slot_at_Some. simplify_eq. by eapply lookup_lt_Some. Qed.
End slots.

(** ** Primitive steps *)

Section steps.
Implicit Types (s : StalenessInventory) (bid pid : Z) (eid : nat).

Lemma run_get_buffer {B} bid b (k : _ → Inv B) s :
  buffers s !! bid = Some b → (get_buffer bid ≫= k) s = k b s.
Proof. intros Hb. apply run_bind. unfold get_buffer. mrun. by rewrite Hb. Qed.

Lemma run_get_entry {B} bid eid e (k : _ → Inv B) s :
  slot_at (buffers s) (bid, eid) = Some e → (get_entry bid eid ≫= k) s = k e s.
Proof.
  intros (b & Hb & He)%slot_at_Some. apply run_bind. unfold get_entry.
  rewrite (run_get_buffer _ _ _ _ Hb). by rewrite He.
Qed.

Lemma run_get_info {B} bid eid e info (k : _ → Inv B) s :
  slot_at (buffers s) (bid, eid) = Some e → entry_info e = Some info → (get_info bid eid ≫= k) s = k info s.
Proof.
  intros He Hi. apply run_bind. unfold get_info. rewrite (run_get_entry _ _ _ _ _ He). by rewrite Hi.
Qed.

Lemma run_set_entry {B} bid eid e0 e (k : _ → Inv B) s :
  slot_at (buffers s) (bid, eid) = Some e0 →
  (set_entry bid eid e ≫= k) s = k tt (with_buffers (put_slot (bid, eid) e (buffers s)) s).
Proof.
  intros He. pose proof He as (b & Hb & Hlt%lookup_lt_Some)%slot_at_Some.
  apply run_bind. unfold set_entry, on_buffer. rewrite (run_get_buffer _ _ _ _ Hb).
  rewrite bool_decide_true by done. unfold modify, mbind, M_bind; simpl. do 2 f_equal.
  unfold put_slot. simpl. apply map_eq. intros j. rewrite lookup_insert, lookup_alter.
  case_decide; subst; [by rewrite Hb|done].
Qed.

Lemma run_insert_entry {B} bid eid c oi e0 (k : _ → Inv B) s :
  all_wf s → slot_at (buffers s) (bid, eid) = Some e0 →
  (on_buffer bid (insert_entry eid c oi) ≫= k) s = k tt (with_buffers (put_slot (bid, eid) (mkEntry c oi) (buffers s)) s).
Proof.
  intros Hwf He. pose proof He as (b & Hb & Hlt%lookup_lt_Some)%slot_at_Some.
  apply run_bind. unfold on_buffer. rewrite (run_get_buffer _ _ _ _ Hb).
  unfold insert_entry. destruct (Hwf _ _ Hb) as [Hb' _]. rewrite bool_decide_true by (by rewrite <-(wf_length _ Hb')).
  unfold modify, mbind, M_bind; simpl. do 2 f_equal.
  unfold put_slot. simpl. apply map_eq. intros j. rewrite lookup_insert, lookup_alter.
  case_decide; subst; [by rewrite Hb|done].
Qed.

Lemma run_delete_entry {B} bid eid e0 (k : _ → Inv B) s :
  (∀ b, buffers s !! bid = Some b → length (entries b) = num_entries b) →
  slot_at (buffers s) (bid, eid) = Some e0 →
  (on_buffer bid (delete_entry eid) ≫= k) s = k tt (with_buffers (put_slot (bid, eid) empty_entry (buffers s)) s).
Proof.
  intros Hwf He. pose proof He as (b & Hb & Hlt%lookup_lt_Some)%slot_at_Some.
  apply run_bind. unfold on_buffer. rewrite (run_get_buffer _ _ _ _ Hb).
  unfold delete_entry. rewrite bool_decide_true by (by rewrite <-(Hwf _ Hb)).
  unfold modify, mbind, M_bind; simpl. do 2 f_equal.
  unfold put_slot. simpl. apply map_eq. intros j. rewrite lookup_insert, lookup_alter.
  case_decide; subst; [by rewrite Hb|done].
Qed.

Lemma run_untrack {B} pid pos (k : _ → Inv B) s :
  data_tracker s !! pid = Some pos →
  (untrack pid ≫= k) s = k tt (with_tracker (delete pid (data_tracker s)) s).
Proof. intros Hp. apply run_bind. unfold untrack. mrun. by rewrite Hp. Qed.

Lemma run_set_info {B} bid eid e info (k : _ → Inv B) s :
  slot_at (buffers s) (bid, eid) = Some e →
  (set_info bid eid info ≫= k) s = k tt (with_buffers (put_slot (bid, eid) (mkEntry (category e) (Some info)) (buffers s)) s).
Proof.
  intros He. apply run_bind. unfold set_info. rewrite (run_get_entry _ _ _ _ _ He).
  pose proof (run_set_entry bid eid e (mkEntry (category e) (Some info)) mret s He) as Hrun.
  unfold mbind, M_bind in Hrun. by destruct (set_entry _ _ _ s) as [[]|].
Qed.

(** Moving the entry at [src] to the slot [dst]. *)
Definition moved (src dst : Z * nat) (e : Entry) (pid : Z) (s : StalenessInventory) : StalenessInventory :=
  with_tracker (<[pid := dst]> (data_tracker s))
    (with_buffers (put_slot src empty_entry (put_slot dst e (buffers s))) s).

Lemma run_move_entry {B} sb se db de e e0 info (k : _ → Inv B) s :
  (∀ b, buffers s !! sb = Some b → length (entries b) = num_entries b) →
  slot_at (buffers s) (sb, se) = Some e → slot_at (buffers s) (db, de) = Some e0 →
  entry_info e = Some info →
  (move_entry sb se db de ≫= k) s = k tt (moved (sb, se) (db, de) e (prompt_id info) s).
Proof.
  intros Hwf Hs Hd Hi. apply run_bind. unfold move_entry.
  rewrite (run_get_entry _ _ _ _ _ Hs), (run_set_entry _ _ _ _ _ _ Hd).
  assert (∃ e', slot_at (put_slot (db, de) e (buffers s)) (sb, se) = Some e') as [e' He'].
  { rewrite (slot_at_put _ _ _ _ _ Hd). case_decide; eauto. }
  erewrite run_delete_entry; [| |done].
  - by rewrite (run_of_option _ _ _ _ _ Hi).
  - simpl. intros b Hb. destruct (buffers s !! sb) as [b0|] eqn:Hb0.
    + rewrite (put_slot_lookup _ _ _ _ _ Hb0) in Hb. simplify_eq/=.
      case_decide; simpl; rewrite ?length_insert; eauto.
    + by rewrite (proj1 (put_slot_None _ _ _ _) Hb0) in Hb.
Qed.
End steps.

(** ** Refreshing the status cache *)

Section cache.
Implicit Types (s : StalenessInventory) (D : gset Z) (bid : Z).

Lemma cached_status_Some s bid st :
  (∀ st st', bid ∈ buffer_ids_by_status s st → bid ∈ buffer_ids_by_status s st' → st = st') →
  cached_status s bid = Some st ↔ bid ∈ buffer_ids_by_status s st.
Proof.
  intros Huniq. unfold cached_status.
  assert (∀ st, st ∈ all_statuses) as Hall by (intros []; set_solver).
  destruct (head _) as [st'|] eqn:Hh.
  - apply head_Some in Hh as [l' Hh].
    assert (st' ∈ filter (λ st, bid ∈ buffer_ids_by_status s st) all_statuses) as Hin by (rewrite Hh; set_solver).
    apply list_elem_of_filter in Hin as [Hin _]. split; [by intros [= <-]|]. intros Hst. f_equal. eauto.
  - apply head_None in Hh. split; [done|]. intros Hst.
    assert (st ∈ filter (λ st, bid ∈ buffer_ids_by_status s st) all_statuses) as Hin by (by apply list_elem_of_filter).
    rewrite Hh in Hin. set_solver.
Qed.

Lemma update_buffer_status_run D bid s :
  (∀ b, buffers s !! bid = Some b → wf_buffer b) → cache_ok ({[bid]} ∪ D) s →
  ∃ f, update_buffer_status bid s = Ret tt (with_by_status f s) ∧ cache_ok D (with_by_status f s).
Proof.
  intros Hwf [Hex Hun Hdom]. unfold update_buffer_status. mrun.
  destruct (buffers s !! bid) as [b|] eqn:Hb; last first.
  { exists (buffer_ids_by_status s). split; [by destruct s|]. split; simpl; [|done..].
    intros x st Hx. destruct (decide (x = bid)) as [->|]; [|apply Hex; set_solver].
    split; [intros [y Hy]%Hdom; congruence|]. rewrite Hb. naive_solver. }
  specialize (Hwf b eq_refl). pose proof (get_status_of b Hwf) as Hst.
  set (g := λ st, buffer_ids_by_status s st ∖ {[bid]}).
  assert (∃ h, (∀ st, h st = g st) ∧
    match cached_status s bid with
    | Some st => modify (λ s, with_by_status (<[st := buffer_ids_by_status s st ∖ {[bid]}]> (buffer_ids_by_status s)) s)
    | None => mret tt
    end s = Ret tt (with_by_status h s)) as (h & Hg & Hrm).
  { destruct (cached_status s bid) as [st|] eqn:Hc.
    - eexists. split; [|reflexivity]. intros st'. unfold insert, fn_insert, g.
      case_decide as Heq; subst; [done|].
      apply leibniz_equiv. assert (bid ∉ buffer_ids_by_status s st'); [|set_solver].
      intros Hin. apply cached_status_Some in Hc; naive_solver.
    - exists (buffer_ids_by_status s). split; [|by destruct s]. intros st'. unfold g.
      apply leibniz_equiv. assert (bid ∉ buffer_ids_by_status s st'); [|set_solver].
      intros Hin. apply cached_status_Some in Hin; naive_solver. }
  rewrite (run_bind _ _ _ _ _ Hrm), (run_of_res _ _ _ _ Hst). eexists. split; [reflexivity|].
  assert (∀ x st, x ∈ (<[status_of b := {[bid]} ∪ h (status_of b)]> h) st ↔
    (x = bid ∧ st = status_of b) ∨ (x ≠ bid ∧ x ∈ buffer_ids_by_status s st)) as Hmem.
  { intros x st. unfold insert, fn_insert. case_decide; subst; rewrite Hg; unfold g; set_solver. }
  split; simpl.
  - intros x st Hx. rewrite Hmem. destruct (decide (x = bid)) as [->|Hne].
    + rewrite Hb. naive_solver.
    + rewrite <-(Hex x st) by set_solver. naive_solver.
  - intros x st st'. rewrite !Hmem. naive_solver.
  - intros x st. rewrite Hmem. intros [[-> _]|[_ ?]]; [by rewrite Hb|eauto].
Qed.

Lemma cache_dirty D D' s s' :
  buffer_ids_by_status s' = buffer_ids_by_status s →
  (∀ bid, bid ∉ D' → buffers s' !! bid = buffers s !! bid) →
  (∀ bid, is_Some (buffers s !! bid) → is_Some (buffers s' !! bid)) →
  cache_ok D s → cache_ok (D' ∪ D) s'.
Proof.
  intros Hst Hsame Hdom [Hex Hun Hd]. split; rewrite ?Hst; [|by eauto|by eauto].
  intros bid st Hbid. rewrite Hsame by set_solver. apply Hex. set_solver.
Qed.

Lemma put_slot_is_Some pos e bufs bid : is_Some (bufs !! bid) → is_Some (put_slot pos e bufs !! bid).
Proof. intros [b Hb]. by rewrite (put_slot_lookup _ _ _ _ _ Hb). Qed.

Lemma put_slot_ne pos e bufs bid : bid ≠ pos.1 → put_slot pos e bufs !! bid = bufs !! bid.
Proof. intros. by apply lookup_alter_ne. Qed.

Context `{SetOrder}.

Lemma update_statuses_run bids s :
  (∀ bid b, buffers s !! bid = Some b → wf_buffer b) → cache_ok bids s →
  ∃ f, update_statuses bids s = Ret tt (with_by_status f s) ∧ cache_ok ∅ (with_by_status f s).
Proof.
  intros Hwf Hc. unfold update_statuses.
  assert (cache_ok (list_to_set (set_iter bids)) s) as Hc'.
  { replace (list_to_set (set_iter bids)) with bids; [done|]. apply leibniz_equiv. intros x.
    by rewrite elem_of_list_to_set, set_iter_elem. }
  clear Hc. revert s Hwf Hc'. induction (set_iter bids) as [|bid l IH]; intros s Hwf Hc; simpl in *.
  { exists (buffer_ids_by_status s). split; [by destruct s|]. by destruct s. }
  destruct (update_buffer_status_run (list_to_set l) bid s) as (f & Hf & Hc'); [by apply Hwf|done|].
  rewrite (run_bind _ _ _ _ _ Hf).
  destruct (IH (with_by_status f s)) as (f' & Hf' & Hc''); [done..|]. by exists f'.
Qed.
End cache.

(** ** Steps that change slots and are followed by a refresh *)

Definition config (s : StalenessInventory) :=
  (inv_staleness s, inv_num_entries s, inv_ready_num_entries s, rollout_n s, inv_is_validate s).

(** From [s0] to [s]: the entries of the buffers in [D] and the tracker changed,
    the shape and the tracker are right, and the cache was not touched. *)
Record core_step (D : gset Z) (s0 s : StalenessInventory) : Prop := {
  cs_config : config s = config s0;
  cs_next : buffer_id s = buffer_id s0;
  cs_status : buffer_ids_by_status s = buffer_ids_by_status s0;
  cs_delete : ready_for_delete_buffer_ids s = ready_for_delete_buffer_ids s0;
  cs_same bid : bid ∉ D → buffers s !! bid = buffers s0 !! bid;
  cs_dom bid : is_Some (buffers s0 !! bid) ↔ is_Some (buffers s !! bid);
  cs_wf : all_wf s;
  cs_tracked : inverse (data_tracker s) (prompt_at (buffers s));
}.

Section core_steps.
Context `{SetOrder}.
Implicit Types (s : StalenessInventory) (D : gset Z).

Lemma core_step_refl s : inv_ok s → core_step ∅ s s.
Proof. intros []. by split. Qed.

Lemma core_step_trans D D' s0 s1 s2 :
  core_step D s0 s1 → core_step D' s1 s2 → core_step (D' ∪ D) s0 s2.
Proof.
  intros [] []. split; try congruence; try done.
  - intros bid ?. transitivity (buffers s1 !! bid); set_solver.
  - intros bid. transitivity (is_Some (buffers s1 !! bid)); auto.
Qed.

Lemma core_step_weaken D D' s0 s : D ⊆ D' → core_step D s0 s → core_step D' s0 s.
Proof. intros ? []. split; try done. set_solver. Qed.

(** The invariant once the cache is exact again. *)
Lemma core_step_inv D s0 s f :
  inv_ok s0 → core_step D s0 s → cache_ok ∅ (with_by_status f s) → inv_ok (with_by_status f s).
Proof.
  intros [] [Hcfg ? ? Hdel ? Hdom]. split; simpl; try done.
  - intros bid Hbid. apply Hdom. rewrite Hdel in Hbid. eauto.
  - unfold config in Hcfg. simplify_eq/=. lia.
Qed.

Lemma core_step_cache D s0 s : inv_ok s0 → core_step D s0 s → cache_ok D s.
Proof.
  intros [] []. replace D with (D ∪ ∅) by set_solver.
  eapply (cache_dirty ∅ D s0 s); try done. intros bid. by rewrite cs_dom0.
Qed.

Lemma core_step_refresh D s0 s :
  inv_ok s0 → core_step D s0 s →
  ∃ f, update_statuses D s = Ret tt (with_by_status f s) ∧ inv_ok (with_by_status f s).
Proof.
  intros Hok Hcs. destruct (update_statuses_run D s) as (f & Hf & Hc).
  - intros bid b Hb. by apply (cs_wf _ _ _ Hcs) in Hb as [].
  - by eapply core_step_cache.
  - exists f. eauto using core_step_inv.
Qed.

Lemma core_step_refresh1 bid s0 s :
  inv_ok s0 → core_step {[bid]} s0 s →
  ∃ f, update_buffer_status bid s = Ret tt (with_by_status f s) ∧ inv_ok (with_by_status f s).
Proof.
  intros Hok Hcs. destruct (update_buffer_status_run ∅ bid s) as (f & Hf & Hc).
  - intros b Hb. by apply (cs_wf _ _ _ Hcs) in Hb as [].
  - replace ({[bid]} ∪ ∅) with ({[bid]} : gset Z) by set_solver. by eapply core_step_cache.
  - exists f. eauto using core_step_inv.
Qed.
End core_steps.

(** ** Creating buffers *)

Section create.
Implicit Types (s : StalenessInventory).

Definition fresh_buffer s := new_buffer (inv_num_entries s) (inv_ready_num_entries s) (inv_staleness s).

Lemma fresh_has_no_prompt s pos :
  slot_at {[pos.1 := fresh_buffer s]} pos ≫= (λ e, prompt_id <$> entry_info e) = None.
Proof.
  unfold slot_at. rewrite lookup_singleton_eq. simpl.
  destruct (replicate _ _ !! _) as [e|] eqn:He; [|done]. by apply lookup_replicate in He as [-> _].
Qed.

Lemma create_buffer_run s :
  inv_ok s → ∃ s', create_buffer (buffer_id s) s = Ret tt s' ∧ inv_ok s' ∧
    buffers s' = <[buffer_id s := fresh_buffer s]> (buffers s) ∧
    buffer_id s' = buffer_id s + 1 ∧ data_tracker s' = data_tracker s ∧
    ready_for_delete_buffer_ids s' = ready_for_delete_buffer_ids s ∧ config s' = config s.
Proof.
  intros [Hwf Htr Hca Hdel Hsz].
  assert (buffers s !! buffer_id s = None) as Hnone.
  { destruct (buffers s !! buffer_id s) eqn:E; [|done]. apply Hwf in E as [_ ?]. lia. }
  unfold create_buffer. mrun. rewrite run_assert_decide by done. mrun.
  set (s1 := with_buffers _ s). fold (fresh_buffer s) in s1.
  destruct (update_buffer_status_run ∅ (buffer_id s) s1) as (f & Hf & Hc).
  - subst s1. simpl. rewrite lookup_insert_eq. intros b [= <-]. by apply wf_new.
  - replace ({[buffer_id s]} ∪ ∅) with ({[buffer_id s]} ∪ ∅ : gset Z) by done.
    apply (cache_dirty ∅ {[buffer_id s]} s s1); subst s1; simpl; [done| | |done].
    + intros bid Hb. apply lookup_insert_ne. set_solver.
    + intros bid Hb. rewrite lookup_insert. case_decide; eauto.
  - rewrite (run_bind _ _ _ _ _ Hf). eexists. split; [reflexivity|]. subst s1. simpl.
    split; [|done]. split; simpl.
    + intros bid b. simpl. rewrite lookup_insert. case_decide; intros Hb; simplify_eq.
      * split; [by apply wf_new|lia].
      * apply Hwf in Hb as []. split; [done|lia].
    + intros pid pos. rewrite (Htr pid pos). unfold prompt_at, slot_at. simpl. rewrite lookup_insert.
      case_decide as Heq; [|done]. rewrite <-Heq, Hnone. simpl.
      pose proof (fresh_has_no_prompt s pos) as Hf'. unfold slot_at in Hf'. rewrite lookup_singleton_eq in Hf'.
      simpl in Hf'. rewrite Hf'. naive_solver.
    + destruct Hc. by split.
    + intros bid Hbid. rewrite lookup_insert. case_decide; eauto.
    + done.
Qed.

(** [ensure_buffer_exists] creates exactly the missing ids up to the bound. *)
Lemma ensure_buffer_exists_run s hi :
  inv_ok s → inv_is_validate s = false →
  ∃ s', ensure_buffer_exists (Some hi) s = Ret tt s' ∧ inv_ok s' ∧
    (∀ bid, buffers s' !! bid =
      if decide (buffer_id s ≤ bid ≤ hi) then Some (fresh_buffer s) else buffers s !! bid) ∧
    buffer_id s' = Z.max (buffer_id s) (hi + 1) ∧ data_tracker s' = data_tracker s ∧
    ready_for_delete_buffer_ids s' = ready_for_delete_buffer_ids s ∧ config s' = config s.
Proof.
  intros Hok Hval. unfold ensure_buffer_exists. mrun. rewrite Hval.
  rewrite (run_of_option _ _ hi) by done.
  destruct (for_each_total (λ xs t, xs = zrange (buffer_id t) (hi + 1) ∧ inv_ok t ∧
    (∀ bid, buffers t !! bid =
      if decide (buffer_id s ≤ bid < buffer_id t) then Some (fresh_buffer s) else buffers s !! bid) ∧
    buffer_id s ≤ buffer_id t ≤ Z.max (buffer_id s) (hi + 1) ∧ data_tracker t = data_tracker s ∧
    ready_for_delete_buffer_ids t = ready_for_delete_buffer_ids s ∧ config t = config s)
    (zrange (buffer_id s) (hi + 1)) create_buffer s) as (s' & Hs' & Hnil & Hok' & Hb & Hid & Ht & Hd & Hcfg).
  - intros x xs t (Hxs & Hokt & Hbt & Hidt & Htt & Hdt & Hct).
    assert (buffer_id t < hi + 1) as Hlt.
    { assert (x ∈ zrange (buffer_id t) (hi + 1)) as Hx%elem_of_zrange; [rewrite <-Hxs; set_solver|lia]. }
    unfold zrange in Hxs. rewrite seqZ_cons in Hxs by lia. injection Hxs as -> ->.
    destruct (create_buffer_run t Hokt) as (t' & Hrun & Hok' & Hbuf & Hid & Htr & Hdel & Hcfg).
    exists t'. split; [done|]. split_and!; try lia; try congruence; try done.
    + unfold zrange. f_equal; lia.
    + intros bid. rewrite Hbuf, lookup_insert, Hbt, Hid.
      assert (fresh_buffer t = fresh_buffer s) as ->.
      { unfold fresh_buffer. unfold config in Hct. simplify_eq. congruence. }
      repeat case_decide; try done; lia.
  - split_and!; try done; [|lia..]. intros bid. by rewrite decide_False by lia.
  - exists s'. assert (buffer_id s' = Z.max (buffer_id s) (hi + 1)) as Hid'.
    { destruct (decide (buffer_id s' < hi + 1)); [|lia].
      assert (buffer_id s' ∈ zrange (buffer_id s') (hi + 1)) as Hin by (apply elem_of_zrange; lia).
      rewrite <-Hnil in Hin. set_solver. }
    split_and!; try done. intros bid. rewrite Hb, Hid'. repeat case_decide; try done; lia.
Qed.
End create.

(** ** Reading the cache *)

Section queries.
Context (s : StalenessInventory) (Hok : inv_ok s).
Implicit Types (bid : Z).

Lemma elem_of_with_capacity bid :
  bid ∈ get_buffers_with_capacity s ↔ ∃ b, buffers s !! bid = Some b ∧ has_empty b.
Proof.
  unfold get_buffers_with_capacity. rewrite elem_of_union, !(cache_exact _ _ (ok_cache _ Hok)) by set_solver.
  setoid_rewrite <-status_capacity. naive_solver.
Qed.

Lemma elem_of_not_ready bid :
  bid ∈ get_buffers_not_ready s ↔
  ∃ b, buffers s !! bid = Some b ∧ (get_first_non_occupied b < ready_num_entries b)%nat.
Proof.
  unfold get_buffers_not_ready. rewrite elem_of_union, !(cache_exact _ _ (ok_cache _ Hok)) by set_solver.
  split.
  - intros Hb. assert (∃ b, buffers s !! bid = Some b ∧ (status_of b = PENDING ∨ status_of b = STUCK))
      as (b & Hbuf & Hst%status_not_ready) by naive_solver.
    exists b. split; [done|]. destruct (ok_wf _ Hok _ _ Hbuf) as [Hwf _].
    pose proof (first_non_occupied_le_ready b Hwf). lia.
  - intros (b & Hbuf & Hlt). assert (status_of b = PENDING ∨ status_of b = STUCK) by (apply status_not_ready; lia).
    naive_solver.
Qed.

Lemma elem_of_ready bid :
  bid ∈ ready_buffer_ids s ↔
  ∃ b, buffers s !! bid = Some b ∧ get_first_non_occupied b = ready_num_entries b.
Proof.
  unfold ready_buffer_ids. rewrite elem_of_union, !(cache_exact _ _ (ok_cache _ Hok)) by set_solver.
  unfold status_of. split.
  - intros [(b & ? & ?)|(b & ? & ?)]; exists b; repeat case_decide; naive_solver.
  - intros (b & ? & ?). destruct (decide (has_empty b)); [right|left]; exists b; repeat case_decide; naive_solver.
Qed.
End queries.

(** ** Placing, removing and moving an entry *)

Section slot_steps.
Implicit Types (s : StalenessInventory) (pos : Z * nat) (e : Entry).

Lemma all_wf_put s pos e b :
  all_wf s → buffers s !! pos.1 = Some b →
  wf_buffer (with_entries (<[pos.2 := e]> (entries b)) b) →
  all_wf (with_buffers (put_slot pos e (buffers s)) s).
Proof.
  intros Hwf Hb Hb' bid b1. simpl. destruct (buffers s !! bid) as [b0|] eqn:E.
  - destruct (Hwf _ _ E). rewrite (put_slot_lookup _ _ _ _ _ E). intros [= <-].
    case_decide; [by simplify_eq|done].
  - by rewrite (proj1 (put_slot_None _ _ _ _) E).
Qed.

Lemma put_slot_core s pos e trk :
  all_wf (with_buffers (put_slot pos e (buffers s)) s) →
  inverse trk (prompt_at (put_slot pos e (buffers s))) →
  core_step {[pos.1]} s (with_tracker trk (with_buffers (put_slot pos e (buffers s)) s)).
Proof.
  intros Hwf Htr. split; simpl; try done.
  - intros bid Hbid. apply put_slot_ne. set_solver.
  - intros bid. rewrite <-!not_eq_None_Some. by rewrite <-put_slot_None.
Qed.

(** An entry for a prompt that is not tracked is put into an empty slot. *)
Lemma place_core s bid eid e0 b c info :
  all_wf s → inverse (data_tracker s) (prompt_at (buffers s)) → buffers s !! bid = Some b → entries b !! eid = Some e0 → empty e0 →
  data_tracker s !! prompt_id info = None →
  wf_buffer (with_entries (<[eid := mkEntry c (Some info)]> (entries b)) b) →
  core_step {[bid]} s
    (with_tracker (<[prompt_id info := (bid, eid)]> (data_tracker s))
      (with_buffers (put_slot (bid, eid) (mkEntry c (Some info)) (buffers s)) s)).
Proof.
  intros Hall Hinv Hb He Hemp Htr Hwf'.
  assert (slot_at (buffers s) (bid, eid) = Some e0) as Hs by (apply slot_at_Some; eauto).
  apply (put_slot_core s (bid, eid)); [by eapply all_wf_put|].
  rewrite (prompt_at_put _ _ _ _ Hs). simpl. apply inverse_place; [done|done|].
  unfold prompt_at. rewrite Hs. simpl. destruct (Hall _ _ Hb) as [Hwf _].
  by rewrite (proj2 (wf_info _ Hwf _ _ He) Hemp).
Qed.

(** Replacing the metadata of a slot by metadata of the same prompt. *)
Lemma update_info_core s bid eid e info info' b :
  inv_ok s → buffers s !! bid = Some b → entries b !! eid = Some e → entry_info e = Some info →
  prompt_id info' = prompt_id info →
  core_step {[bid]} s (with_buffers (put_slot (bid, eid) (mkEntry (category e) (Some info')) (buffers s)) s).
Proof.
  intros Hok Hb He Hi Hp.
  assert (slot_at (buffers s) (bid, eid) = Some e) as Hs by (apply slot_at_Some; eauto).
  destruct (ok_wf _ Hok _ _ Hb) as [Hwf _].
  replace (with_buffers _ s) with (with_tracker (data_tracker s)
    (with_buffers (put_slot (bid, eid) (mkEntry (category e) (Some info')) (buffers s)) s)) by (by destruct s).
  apply (put_slot_core s (bid, eid)).
  - eapply all_wf_put; [apply Hok|done|]. apply wf_update_info; [done..|].
    intros Hc. apply (wf_info _ Hwf _ _ He) in Hc. congruence.
  - rewrite (prompt_at_put _ _ _ _ Hs). simpl. intros pid pos. rewrite (ok_tracked _ Hok pid pos).
    unfold insert, fn_insert. case_decide as Heq; [|done]. subst pos. unfold prompt_at. rewrite Hs. simpl.
    by rewrite Hi, Hp.
Qed.

(** A change that keeps the status of the changed buffers keeps the cache exact. *)
Lemma core_step_same_status bid s0 s b b' :
  inv_ok s0 → core_step {[bid]} s0 s →
  buffers s0 !! bid = Some b → buffers s !! bid = Some b' → status_of b' = status_of b → inv_ok s.
Proof.
  intros Hok Hcs Hb Hb' Hst.
  assert (s = with_by_status (buffer_ids_by_status s) s) as Heq by by destruct s.
  rewrite Heq. eapply core_step_inv; [done..|]. rewrite <-Heq.
  destruct (core_step_cache _ _ _ Hok Hcs) as [Hex Hun Hdom]. split; [|done..].
  intros x st _. destruct (decide (x = bid)) as [->|Hne]; [|apply Hex; set_solver].
  rewrite (cs_status _ _ _ Hcs), (cache_exact _ _ (ok_cache _ Hok)) by set_solver.
  rewrite Hb, Hb'. naive_solver.
Qed.
End slot_steps.

(** The status depends only on the categories of the entries. *)
Section status_categories.
Context (b b' : StalenessBuffer).
Context (Hn : num_entries b' = num_entries b) (Hr : ready_num_entries b' = ready_num_entries b).
Context (Hcat : category <$> entries b' = category <$> entries b).

Lemma find_first_category l :
  find_first (λ e, ¬ occupied e) l = find_first (λ c, c ≠ OCCUPIED) (category <$> l).
Proof using. induction l as [|e l IH]; simpl; [done|]. repeat case_decide; by rewrite ?IH. Qed.

Lemma status_of_categories : status_of b' = status_of b.
Proof.
  assert (get_first_non_occupied b' = get_first_non_occupied b) as Hf.
  { unfold get_first_non_occupied. rewrite Hn.
    by rewrite !find_first_category, Hcat. }
  assert (has_empty b' ↔ has_empty b) as He.
  { assert (∀ x, has_empty x ↔ EMPTY ∈ (category <$> entries x)) as Hx; [|by rewrite !Hx, Hcat].
    intros x. unfold has_empty. rewrite list_elem_of_fmap. setoid_rewrite list_elem_of_lookup. naive_solver. }
  unfold status_of. rewrite Hf, Hr. repeat case_decide; naive_solver.
Qed.
End status_categories.

Lemma update_info_categories eid e info b :
  entries b !! eid = Some e →
  category <$> (<[eid := mkEntry (category e) (Some info)]> (entries b)) = category <$> entries b.
Proof.
  intros He. rewrite list_fmap_insert. simpl. apply list_insert_id. by rewrite list_lookup_fmap, He.
Qed.

(** The empty inventory. *)
Lemma new_inventory_ok n r st rn v : (r ≤ n)%nat → inv_ok (new_inventory n r st rn v).
Proof.
  intros Hr. split; simpl.
  - by intros bid b Hb.
  - intros pid [bid eid]. unfold prompt_at, slot_at. simpl. by rewrite lookup_empty.
  - split; simpl; [|set_solver..]. intros bid st' _. rewrite lookup_empty. set_solver.
  - set_solver.
  - destruct v; simpl; lia.
Qed.

Lemma new_inventory_window n r st rn v : window_ok (new_inventory n r st rn v).
Proof. intros st' [bid eid] e info _ _ (b & Hb & _)%slot_at_Some. by simpl in Hb. Qed.
