(* ===== verification/InventoryReserve.v ===== *)
(** * Reserve: placement, group merging and metadata updates

    Proves what [reserve_data], [can_reserve_data], the metadata updates and
    the buffer life-cycle operations of the staleness inventory do, branch by
    branch, and that they keep the inventory invariant. *)

From S2P Require Import Prelude.
From S2P Require Import StalenessBuffer.
From S2P Require Import StalenessInventory.
From S2P Require Import InventoryInv.

(** ** Fresh prompts *)

(** What a reservation in the window [hi - st .. hi] means: the latest buffer
    of the window that has an empty slot and is not marked for deletion. *)
Definition reservable (s : StalenessInventory) (st hi bid : Z) : Prop :=
  hi - st ≤ bid ≤ hi ∧ (bid ∉ ready_for_delete_buffer_ids s) ∧
  ∃ b, buffers s !! bid = Some b ∧ has_empty b.

Section reserve_fresh.
Context (s : StalenessInventory) (r : RequestInfo) (st hi : Z).
Context (Hval : inv_is_validate s = false) (Hst : inv_staleness s = Some st).
Context (Hfresh : data_tracker s !! req_prompt_id r = None).

(** The state once the buffers up to [hi] exist. *)
Context (s1 : StalenessInventory).
Context (Hens : ensure_buffer_exists (Some hi) s = Ret tt s1) (Hok1 : inv_ok s1).
Context (Htr1 : data_tracker s1 = data_tracker s) (Hcfg1 : config s1 = config s).

Lemma reserve_fresh_run :
  hi ≠ 0 →
  (reserve_data r (Some hi) s = Ret None s1 ∧ ∀ bid, ¬ reservable s1 st hi bid) ∨
  (∃ bid eid b e f,
    let s' := with_by_status f
      (with_tracker (<[req_prompt_id r := (bid, eid)]> (data_tracker s1))
        (with_buffers (put_slot (bid, eid) (mkEntry RESERVED (Some (entry_of_request r))) (buffers s1)) s1)) in
    reserve_data r (Some hi) s = Ret (Some (bid, eid)) s' ∧ inv_ok s' ∧
    reservable s1 st hi bid ∧ (∀ x, reservable s1 st hi x → x ≤ bid) ∧
    buffers s1 !! bid = Some b ∧ get_last_non_reserved b = Z.of_nat eid ∧
    entries b !! eid = Some e ∧ empty e).
Proof using All.
  intros Hhi. unfold reserve_data. mrun. rewrite Hval, Hfresh.
  rewrite run_assoc, (run_of_option _ _ hi), (run_bind _ _ _ _ _ Hens) by done. mrun.
  unfold truthy. rewrite bool_decide_false by done.
  assert (inv_staleness s1 = Some st) as Hst1 by (unfold config in Hcfg1; congruence).
  set (cands := filter (λ bid, hi - st ≤ bid ≤ hi ∧ bid ∉ ready_for_delete_buffer_ids s1)
                  (elements (get_buffers_with_capacity s1))).
  assert (∀ x, x ∈ cands ↔ reservable s1 st hi x) as Hc.
  { intros x. unfold cands, reservable.
    rewrite list_elem_of_filter, elem_of_elements, (elem_of_with_capacity _ Hok1). tauto. }
  rewrite (run_bind _ _ _ cands s1); last first.
  { unfold cands. mrun. destruct (elements (get_buffers_with_capacity s1)); mrun; [done|].
    by rewrite (run_of_option _ _ _ _ _ Hst1). }
  clearbody cands. destruct (list_max cands) as [bid|] eqn:Hmax; last first.
  { left. split; [done|]. intros x Hx%Hc. apply list_max_None in Hmax. subst. set_solver. }
  right. apply list_max_Some in Hmax as [Hin Hmax].
  pose proof Hin as (_ & _ & b & Hb & He)%Hc. destruct (ok_wf _ Hok1 _ _ Hb) as [Hwf _].
  destruct (last_non_reserved_empty b Hwf He) as (eid & e & Hlast & Hlk & Hemp).
  assert (slot_at (buffers s1) (bid, eid) = Some e) as Hs by (apply slot_at_Some; eauto).
  rewrite (run_get_buffer _ _ _ _ Hb), run_assert_decide, Hlast, Nat2Z.id by lia.
  rewrite (run_get_entry _ _ _ _ _ Hs), run_assert_decide by done.
  rewrite (run_insert_entry _ _ _ _ _ _ _ (ok_wf _ Hok1) Hs). unfold track. mrun.
  destruct (core_step_refresh1 bid s1
    (with_tracker (<[req_prompt_id r := (bid, eid)]> (data_tracker s1))
      (with_buffers (put_slot (bid, eid) (mkEntry RESERVED (Some (entry_of_request r))) (buffers s1)) s1)))
    as (f & Hf & Hok'); [done| |].
  { eapply (place_core _ _ _ _ _ _ (entry_of_request r)); try done; [apply Hok1|apply Hok1|by rewrite Htr1|by eapply wf_reserve]. }
  simpl in *. rewrite (run_bind _ _ _ _ _ Hf). exists bid, eid, b, e, f.
  split_and!; try done; [by apply Hc|]. intros x Hx%Hc. auto.
Qed.
End reserve_fresh.

(** ** The staleness window under slot changes *)

Lemma window_step s s' :
  config s' = config s → window_ok s →
  (∀ st pos e info, inv_is_validate s = false → inv_staleness s = Some st →
    slot_at (buffers s') pos = Some e → entry_info e = Some info →
    in_window st pos.1 info ∨ slot_at (buffers s) pos = Some e) →
  window_ok s'.
Proof.
  intros Hcfg Hw Hslots st pos e info Hv Hst He Hi. unfold config in Hcfg.
  destruct (Hslots st pos e info) as [?|?]; [congruence..|done|done|done|].
  eapply Hw; try done; congruence.
Qed.

(** Creating buffers adds no entry. *)
Lemma window_ensure s s' hi :
  config s' = config s → window_ok s →
  (∀ bid, buffers s' !! bid =
    if decide (buffer_id s ≤ bid ≤ hi) then Some (fresh_buffer s) else buffers s !! bid) →
  window_ok s'.
Proof.
  intros Hcfg Hw Hb. apply (window_step s); [done..|]. intros st [bid eid] e info _ Hst He Hi. right.
  unfold slot_at in He |- *. simpl in *. rewrite Hb in He. case_decide; [|done]. simpl in He.
  by apply lookup_replicate in He as [-> _].
Qed.

(** A reservation placed inside the window of its request. *)
Lemma window_reserve s r st bid eid e trk f :
  inv_staleness s = Some st → slot_at (buffers s) (bid, eid) = Some e →
  req_version r ≤ bid ≤ req_version r + st → window_ok s →
  window_ok (with_by_status f (with_tracker trk
    (with_buffers (put_slot (bid, eid) (mkEntry RESERVED (Some (entry_of_request r))) (buffers s)) s))).
Proof.
  intros Hst Hs Hwin Hw. apply (window_step s); [done..|].
  intros st' pos e' info _ Hst' He' Hi'. simpl in He'. rewrite (slot_at_put _ _ _ _ _ Hs) in He'.
  case_decide; [|by right]. subst pos. simplify_eq/=. left. by exists (req_version r).
Qed.


Definition demo_request (pid idx v : Z) : RequestInfo := mkRequestInfo INVALID_ROLLOUT_INSTANCE_ID pid idx v 1 false.

(** One reservation of version [v] in an inventory of staleness 1 and two slots per buffer. *)
Lemma demo_reserved_ok pid idx v :
  v + 1 ≠ 0 →
  let s0 := final (reserve_data (demo_request pid idx v) (Some (v + 1)) (new_inventory 2 2 (Some 1) 4 false)) in
  inv_ok s0 ∧ window_ok s0.
Proof.
  intros Hv. set (s := new_inventory 2 2 (Some 1) 4 false). set (r := demo_request pid idx v).
  assert (inv_ok s) as Hok by (by apply new_inventory_ok).
  destruct (ensure_buffer_exists_run s (v + 1) Hok eq_refl) as (s1 & Hens & Hok1 & Hb1 & _ & Htr1 & _ & Hcfg1).
  assert (window_ok s1) as Hw1 by (eapply window_ensure; [done|apply new_inventory_window|done]).
  destruct (reserve_fresh_run s r 1 (v + 1) eq_refl eq_refl eq_refl s1 Hens Hok1 Htr1 Hcfg1 Hv)
    as [[-> _]|(bid & eid & b & e & f & -> & Hok' & (Hwin & _) & _ & Hb & _ & He & _)]; [done|].
  split; [done|]. eapply (window_reserve s1 r 1); [by unfold config in Hcfg1; simplify_eq/=|apply slot_at_Some; eauto|simpl; lia|done].
Qed.


(** ** Further requests of a tracked prompt *)

Lemma idx_list_merge t r :
  idx_list (request_idx (merge_request t r)) =
    idx_list (request_idx t) ++ (if decide (req_idx r ∈ idx_list (request_idx t)) then [] else [req_idx r]).
Proof.
  unfold merge_request. case_bool_decide; simpl; case_decide; try done. by rewrite app_nil_r.
Qed.

Lemma merge_prompt t r : prompt_id (merge_request t r) = prompt_id t.
Proof. unfold merge_request. by case_bool_decide. Qed.

(** Appending to a version field lowers its minimum to the new version. *)
Lemma append_field_version n t v v' :
  (0 < n)%nat → get_entry_version t = inr v →
  get_entry_version (with_model_version (append_field n (model_version t) v') t) = inr (Z.min v v').
Proof.
  intros Hn. unfold get_entry_version, append_field. destruct (model_version t) as [u|l]; simpl.
  - intros [= ->]. case_bool_decide; simpl; [|f_equal; lia].
    assert (list_min (replicate n v ++ [v']) = Some (Z.min v v')) as ->; [|done].
    apply list_min_Some. split.
    + destruct (Z.min_spec v v') as [[_ ->]|[_ ->]]; rewrite elem_of_app; [left|right; set_solver].
      apply elem_of_replicate. split; [done|lia].
    + intros x. rewrite elem_of_app, elem_of_replicate. set_solver by lia.
  - destruct (list_min l) as [m|] eqn:Hm; [|done]. intros [= <-].
    apply list_min_Some in Hm as [Hin Hmin].
    assert (list_min (l ++ [v']) = Some (Z.min m v')) as ->; [|done].
    apply list_min_Some. split.
    + destruct (Z.min_spec m v') as [[_ ->]|[_ ->]]; set_solver.
    + intros x [Hx|Hx]%elem_of_app; [specialize (Hmin x Hx); lia|set_solver by lia].
Qed.

Lemma merge_version t r v :
  get_entry_version t = inr v →
  get_entry_version (merge_request t r) =
    inr (if decide (req_idx r ∈ idx_list (request_idx t)) then v else Z.min v (req_version r)).
Proof.
  intros Hv. unfold merge_request. case_bool_decide; case_decide; try done.
  apply (append_field_version _ t); [|done]. rewrite length_app. simpl. lia.
Qed.

(** Joining the reservation of a tracked prompt. *)
Section reserve_tracked.
Context (s : StalenessInventory) (r : RequestInfo) (bid : Z) (eid : nat) (e : Entry) (info : EntryInfo).
Context (Hok : inv_ok s) (Htr : data_tracker s !! req_prompt_id r = Some (bid, eid)).
Context (Hs : slot_at (buffers s) (bid, eid) = Some e) (Hi : entry_info e = Some info).

Definition joined : StalenessInventory :=
  with_buffers (put_slot (bid, eid) (mkEntry (category e) (Some (merge_request info r))) (buffers s)) s.

Lemma reserve_tracked_run hi : reserve_data r hi s = Ret (Some (bid, eid)) joined.
Proof. unfold reserve_data. mrun. rewrite Htr, (run_get_info _ _ _ _ _ _ Hs Hi), (run_set_info _ _ _ _ _ _ Hs). done. Qed.

Lemma joined_ok : inv_ok joined.
Proof.
  pose proof Hs as (b & Hb & He)%slot_at_Some.
  eapply core_step_same_status; [done|by eapply update_info_core; eauto using merge_prompt|done| |].
  - simpl. rewrite (put_slot_lookup _ _ _ _ _ Hb). by rewrite decide_True.
  - apply status_of_categories; [done..|]. by apply update_info_categories.
Qed.

Lemma joined_window :
  window_ok s → can_reserve_data_without_new_reserve_entry r (req_version r) s = true → window_ok joined.
Proof.
  unfold can_reserve_data_without_new_reserve_entry. rewrite Htr. intros Hw Hadm%bool_decide_eq_true.
  apply (window_step s); [done..|]. intros st pos e' info' Hval Hst He' Hi'. simpl in He'.
  rewrite (slot_at_put _ _ _ _ _ Hs) in He'. case_decide; [|by right]. subst pos. simplify_eq/=.
  left. destruct (Hw st (bid, eid) e info) as (v & Hv & Hwin); [done..|]. simpl in Hwin.
  eexists. split; [by apply merge_version|]. unfold staleness_or_0 in Hadm. rewrite Hst in Hadm. simpl in Hadm.
  case_decide; lia.
Qed.
End reserve_tracked.

Lemma tracked_entry s pid bid eid :
  inv_ok s → data_tracker s !! pid = Some (bid, eid) →
  ∃ e info, slot_at (buffers s) (bid, eid) = Some e ∧ entry_info e = Some info ∧ prompt_id info = pid.
Proof.
  intros Hok Hp%(ok_tracked _ Hok). unfold prompt_at in Hp.
  destruct (slot_at (buffers s) (bid, eid)) as [e|] eqn:Hs; [|done]. simpl in Hp.
  destruct (entry_info e) as [info|] eqn:Hi; [|done]. injection Hp as Hpid. by exists e, info.
Qed.

(** A further request of a tracked prompt joins the prompt's reservation:
    the answer is the slot already reserved, only the metadata of that slot
    changes, and the entry's version becomes the minimum over the group (a
    repeated request index changes nothing). The staleness window is kept when
    the request is admissible for that buffer, the test of [can_reserve_data]. *)
Theorem reserve_data_tracked (s : StalenessInventory) (r : RequestInfo) (hi : option Z) (bid : Z) (eid : nat) :
  inv_ok s → data_tracker s !! req_prompt_id r = Some (bid, eid) →
  ∃ e info s', slot_at (buffers s) (bid, eid) = Some e ∧ entry_info e = Some info ∧
    reserve_data r hi s = Ret (Some (bid, eid)) s' ∧ inv_ok s' ∧
    data_tracker s' = data_tracker s ∧
    (∀ pos, slot_at (buffers s') pos =
      if decide ((bid, eid) = pos) then Some (mkEntry (category e) (Some (merge_request info r)))
      else slot_at (buffers s) pos) ∧
    (∀ v, get_entry_version info = inr v → get_entry_version (merge_request info r) =
      inr (if decide (req_idx r ∈ idx_list (request_idx info)) then v else Z.min v (req_version r))) ∧
    (window_ok s → can_reserve_data_without_new_reserve_entry r (req_version r) s = true → window_ok s').
Proof.
  intros Hok Htr. destruct (tracked_entry s _ _ _ Hok Htr) as (e & info & Hs & Hi & _).
  exists e, info, (joined s r bid eid e info). split_and!; [done|done|by apply reserve_tracked_run|by apply joined_ok|done| | |].
  - intros pos. apply (slot_at_put _ _ _ _ _ Hs).
  - intros v. apply merge_version.
  - by apply joined_window.
Qed.

(** A first request of version 5 reserved buffer 6; a second one joins the group. *)
Lemma reserve_data_tracked_witness :
  let s0 := final (reserve_data (demo_request 7 0 5) (Some 6) (new_inventory 2 2 (Some 1) 4 false)) in
  ∃ s1, reserve_data (demo_request 7 1 5) (Some 6) s0 = Ret (Some (6, 1%nat)) s1 ∧ inv_ok s1 ∧ window_ok s1.
Proof.
  intros s0. destruct (demo_reserved_ok 7 0 5) as [Hok Hw]; [done|]. fold s0 in Hok, Hw.
  destruct (reserve_data_tracked s0 (demo_request 7 1 5) (Some 6) 6 1%nat)
    as (e & info & s1 & _ & _ & Hrun1 & Hok1 & _ & _ & _ & Hw1);
    [done|unfold s0; vm_compute; reflexivity|].
  exists s1. split_and!; try done. apply Hw1; [done|]. unfold s0. vm_compute. reflexivity.
Defined.

(** ** Alignment of the per-request lists of a group *)

(** A field is a scalar shared by the group or holds one value per request. *)
Definition aligned {A} (n : nat) (f : one_or_many A) : Prop :=
  match f with One _ => True | Many l => length l = n end.

Lemma append_field_aligned {A} `{EqDecision A} n (f : one_or_many A) v :
  aligned n f → aligned (S n) (append_field n f v).
Proof.
  destruct f as [u|l]; simpl; [|rewrite length_app; simpl; lia].
  intros _. case_bool_decide; simpl; [|done]. rewrite length_app, length_replicate. simpl. lia.
Qed.

(** Joining a group keeps the instance and trajectory lists aligned with the
    request indices, but the first request whose version differs from the
    group's makes the version list one element too long: it has one more
    version than the group has requests. *)
Theorem merge_request_alignment (t : EntryInfo) (r : RequestInfo) (u : Z) :
  let n := length (idx_list (request_idx t)) in
  let n' := length (idx_list (request_idx (merge_request t r))) in
  (req_idx r ∉ idx_list (request_idx t)) →
  aligned n (rollout_instance_id t) → aligned n (n_trajectory t) →
  model_version t = One u → u ≠ req_version r →
  n' = S n ∧ aligned n' (rollout_instance_id (merge_request t r)) ∧
  aligned n' (n_trajectory (merge_request t r)) ∧
  ∃ l, model_version (merge_request t r) = Many l ∧ length l = S n'.
Proof.
  simpl. intros Hidx Hi Hn Hv Hne. rewrite idx_list_merge, decide_False by done.
  rewrite length_app. simpl. unfold merge_request. rewrite bool_decide_false by done. simpl.
  rewrite length_app. simpl. rewrite Nat.add_sub, Nat.add_1_r.
  split_and!; [done|by apply append_field_aligned..|].
  unfold append_field. rewrite Hv, bool_decide_true by done. eexists. split; [done|].
  rewrite length_app, length_replicate. simpl. lia.
Qed.

Lemma merge_request_alignment_witness :
  ∃ l, model_version (merge_request (entry_of_request (demo_request 7 0 5)) (demo_request 7 1 3)) = Many l ∧
    length l = 3%nat.
Proof.
  pose proof (merge_request_alignment (entry_of_request (demo_request 7 0 5)) (demo_request 7 1 3) 5) as Hm.
  destruct Hm as (_ & _ & _ & l & Hl & Hlen);
    [vm_compute; set_solver|exact I|exact I|reflexivity|discriminate|].
  exists l. split; [done|]. by rewrite Hlen.
Defined.

(** ** Metadata updates *)

Lemma update_request_run s request_id upd :
  inv_ok s → (∀ ridx info info', upd ridx info = inr info' → prompt_id info' = prompt_id info) →
  match update_request request_id upd s with
  | Ret _ s' => inv_ok s' ∧ data_tracker s' = data_tracker s ∧
      ∃ pos e info info', data_tracker s !! (request_id / rollout_n s) = Some pos ∧
        slot_at (buffers s) pos = Some e ∧ entry_info e = Some info ∧
        upd (request_id mod rollout_n s) info = inr info' ∧
        s' = with_buffers (put_slot pos (mkEntry (category e) (Some info')) (buffers s)) s
  | Raise _ s' => s' = s
  end.
Proof.
  intros Hok Hupd. unfold update_request. mrun.
  destruct (data_tracker s !! (request_id / rollout_n s)) as [[bid eid]|] eqn:Htr; [|done].
  rewrite (run_of_option _ _ (bid, eid)) by done.
  pose proof Htr as Hp. apply (ok_tracked _ Hok) in Hp. unfold prompt_at in Hp.
  destruct (slot_at (buffers s) (bid, eid)) as [e|] eqn:Hs; [|done]. simpl in Hp.
  destruct (entry_info e) as [info|] eqn:Hi; [|done]. rewrite (run_get_info _ _ _ _ _ _ Hs Hi).
  destruct (upd (request_id mod rollout_n s) info) as [x|info'] eqn:Hu; [done|].
  rewrite (run_of_res _ info') by done.
  pose proof (run_set_info bid eid e info' mret s Hs) as Hset. unfold mbind, M_bind in Hset.
  destruct (set_info bid eid info' s) as [[] s'|]; [|done]. injection Hset as ->.
  pose proof Hs as (b & Hb & He)%slot_at_Some. split_and!; [|done|by exists (bid, eid), e, info, info'].
  eapply core_step_same_status; [done|by eapply update_info_core; eauto|done| |].
  - simpl. rewrite (put_slot_lookup _ _ _ _ _ Hb). by rewrite decide_True.
  - apply status_of_categories; [done..|]. by apply update_info_categories.
Qed.

(** Updating the version of one request keeps the inventory invariant and
    the tracker, and changes nothing when it raises (unknown prompt, request
    index not in the group, misaligned list). *)
Theorem update_request_version_tag_safe (s : StalenessInventory) (request_id tag : Z) :
  inv_ok s →
  match update_request_version_tag request_id tag s with
  | Ret _ s' => inv_ok s' ∧ data_tracker s' = data_tracker s
  | Raise _ s' => s' = s
  end.
Proof.
  intros Hok. pose proof (update_request_run s request_id (λ ridx info,
    match update_field (request_idx info) (model_version info) ridx tag with
    | inr f => inr (with_model_version f info) | inl e => inl e end) Hok) as Hrun.
  unfold update_request_version_tag.
  destruct (update_request _ _ s) as [[] s'|]; [|by apply Hrun; intros; repeat case_match; simplify_eq].
  split; apply Hrun; intros; repeat case_match; by simplify_eq.
Qed.

Lemma update_request_version_tag_safe_witness :
  match update_request_version_tag 3 1 (new_inventory 2 2 (Some 1) 1 false) with
  | Ret _ s' => inv_ok s' ∧ data_tracker s' = ∅
  | Raise _ s' => s' = new_inventory 2 2 (Some 1) 1 false
  end.
Proof.
  exact (update_request_version_tag_safe (new_inventory 2 2 (Some 1) 1 false) 3 1
    (new_inventory_ok 2 2 (Some 1) 1 false (le_n 2))).
Defined.

(** No bound is checked on a new version tag: a request reserved at version
    1 in buffer 2 (staleness 1) may be retagged with version 9, which lies
    outside the staleness window of the buffer. *)
Theorem version_tag_bound_unchecked :
  let s := final (reserve_data (demo_request 7 0 1) (Some 2) (new_inventory 2 2 (Some 1) 1 false)) in
  let o := update_request_version_tag 7 9 s in
  result o = inr tt ∧
  ∃ info, (slot_at (buffers (final o)) (2, 1%nat) ≫= entry_info) = Some info ∧
    get_entry_version info = inr 9 ∧ ¬ in_window 1 2 info.
Proof.
  split; [compute_run|]. eexists. split; [vm_compute; reflexivity|]. split; [reflexivity|].
  intros (v & [= <-] & Hv). lia.
Qed.

(** The surplus version of a misaligned group is never updated: after
    requests 0 (version 5) and 1 (version 3) of one prompt, retagging request 1
    with version 6 leaves the group's version at 3. *)
Theorem retag_misses_joined_request :
  let o := (reserve_data (demo_request 0 0 5) (Some 7) ;;
            reserve_data (demo_request 0 1 3) (Some 5) ;;
            update_request_version_tag 1 6) (new_inventory 2 2 (Some 2) 4 false) in
  result o = inr tt ∧
  ∃ info, (slot_at (buffers (final o)) (7, 1%nat) ≫= entry_info) = Some info ∧
    request_idx info = Many [0; 1] ∧ model_version info = Many [5; 6; 3] ∧ get_entry_version info = inr 3.
Proof.
  split; [compute_run|]. eexists. split; [vm_compute; reflexivity|]. compute_run.
Qed.

(** ** Admission check *)

(** C8: the admission check of a training inventory is exact for a new prompt of version [v] with
    [v + st <> 0], [st] being the staleness (at 0 the reservation reads the bound as
    missing, [reserve_bound_zero_raises]): neither call raises, and [can_reserve_data]
    answers [True] precisely when the reservation that follows it finds a slot. *)
Theorem can_reserve_data_exact (s : StalenessInventory) (r : RequestInfo) (st : Z) :
  inv_ok s → inv_is_validate s = false → inv_staleness s = Some st →
  req_version r + st ≠ 0 → data_tracker s !! req_prompt_id r = None →
  ∃ ok s1, can_reserve_data r (req_version r) s = Ret ok s1 ∧ inv_ok s1 ∧
    ∃ res s2, reserve_data r (Some (req_version r + st)) s1 = Ret res s2 ∧ (ok = true ↔ is_Some res).
Proof.
  intros Hok Hval Hst Hhi Hfresh. set (hi := req_version r + st) in *.
  destruct (ensure_buffer_exists_run s hi Hok Hval) as (s1 & Hens & Hok1 & _ & Hid1 & Htr1 & Hdel1 & Hcfg1).
  assert (inv_is_validate s1 = false ∧ inv_staleness s1 = Some st) as [Hval1 Hst1]
    by (unfold config in Hcfg1; split; congruence).
  set (cands := filter (λ bid, req_version r ≤ bid ≤ hi ∧ bid ∉ ready_for_delete_buffer_ids s1)
                  (elements (get_buffers_with_capacity s1))).
  exists (bool_decide (cands ≠ [])), s1. split_and!.
  { unfold can_reserve_data, staleness_or_0. mrun. rewrite Hfresh, Hst. simpl. fold hi.
    rewrite (run_bind _ _ _ _ _ Hens). done. }
  { done. }
  assert (∀ x, x ∈ cands ↔ reservable s1 st hi x) as Hc.
  { intros x. unfold cands, reservable, hi.
    rewrite list_elem_of_filter, elem_of_elements, (elem_of_with_capacity _ Hok1).
    split; intros; destruct_and?; split_and!; naive_solver lia. }
  clearbody cands.
  destruct (ensure_buffer_exists_run s1 hi Hok1 Hval1) as (s2 & Hens2 & Hok2 & Hb2 & _ & Htr2 & Hdel2 & Hcfg2).
  assert (∀ x, reservable s2 st hi x ↔ reservable s1 st hi x) as Hr12.
  { intros x. unfold reservable. rewrite Hdel2. setoid_rewrite Hb2.
    destruct (decide (buffer_id s1 ≤ x ≤ hi)); [|done]. lia. }
  destruct (reserve_fresh_run s1 r st hi) with (s1 := s2)
    as [[Hrun Hnone]|(bid & eid & b & e & f & Hrun & _ & Hres & _)]; try done; [congruence|..].
  - eexists _, _. split; [exact Hrun|]. rewrite bool_decide_eq_true. split; [|by intros []]. intros Hne. exfalso.
    destruct cands as [|x l]; [done|]. apply (Hnone x), Hr12, Hc. set_solver.
  - eexists _, _. split; [exact Hrun|]. rewrite bool_decide_eq_true. split; [done|]. intros _ ->. apply Hr12, Hc in Hres. set_solver.
Qed.

Lemma can_reserve_data_exact_witness :
  let o := can_reserve_data (demo_request 7 0 1) 1 (new_inventory 2 2 (Some 1) 1 false) in
  result o = inr true ∧ ∃ res s2, reserve_data (demo_request 7 0 1) (Some 2) (final o) = Ret res s2 ∧ is_Some res.
Proof.
  destruct (can_reserve_data_exact (new_inventory 2 2 (Some 1) 1 false) (demo_request 7 0 1) 1)
    as (ok & s1 & Hcan & _ & res & s2 & Hres & Hiff);
    [by apply new_inventory_ok|reflexivity|reflexivity|discriminate|reflexivity|].
  assert (result (can_reserve_data (demo_request 7 0 1) 1 (new_inventory 2 2 (Some 1) 1 false)) = inr true)
    as Ho by compute_run.
  split; [done|]. change (req_version (demo_request 7 0 1)) with 1 in *. rewrite Hcan in *.
  simpl in *. injection Ho as ->. exists res, s2. split; [done|]. by apply Hiff.
Defined.

(** The upper bound [0] is read as absent: in a training inventory of
    staleness 0, once buffer 0 is full a reservation of version 0 raises
    instead of answering [(None, None)]. *)
Theorem reserve_bound_zero_raises :
  let o := reserve_data (demo_request 0 0 0) (Some 0) (new_inventory 1 1 (Some 0) 1 false) in
  result o = inr (Some (0, 0%nat)) ∧
  result (reserve_data (demo_request 1 0 0) (Some 0) (final o)) = inl AssertionError.
Proof. compute_run. Qed.

(** ** Deleting a buffer *)

(** The prompts held by the entries of a buffer. *)
Definition prompts_of (b : StalenessBuffer) : list Z :=
  omap (λ e, prompt_id <$> entry_info e) (entries b).

Lemma elem_of_prompts_of bufs bid b pid :
  bufs !! bid = Some b → pid ∈ prompts_of b ↔ ∃ eid, prompt_at bufs (bid, eid) = Some pid.
Proof.
  intros Hb. unfold prompts_of, prompt_at, slot_at. simpl. rewrite Hb. simpl.
  rewrite list_elem_of_omap. setoid_rewrite list_elem_of_lookup. split.
  - intros (e & (i & Hi) & He). exists i. by rewrite Hi.
  - intros (i & Hi). destruct (entries b !! i) eqn:E; [|done]. eauto.
Qed.

(** The deletion loop on a list of entries whose prompts are tracked. *)
Lemma delete_loop_run (infos : list EntryInfo) (s : StalenessInventory) :
  NoDup (prompt_id <$> infos) → (∀ info, info ∈ infos → is_Some (data_tracker s !! prompt_id info)) →
  for_each (Some <$> infos) (λ oinfo : option EntryInfo,
        info ← of_option AttributeError oinfo;
        s ← gets id;
        assert (bool_decide (is_Some (data_tracker s !! prompt_id info))) ;;
        untrack (prompt_id info)) s
  = Ret tt (with_tracker (foldl (λ m pid, delete pid m) (data_tracker s) (prompt_id <$> infos)) s).
Proof.
  revert s. induction infos as [|info infos IH]; intros s Hnd Htr; simpl; [by destruct s|].
  inversion Hnd as [|?? Hni Hnd']; subst. rewrite run_assoc, (run_of_option _ _ info) by done. mrun.
  destruct (Htr info) as [pos Hpos]; [set_solver|].
  rewrite run_assert_decide by done. rewrite (run_untrack _ _ _ _ Hpos). rewrite IH; [done..|].
  intros info' Hin. simpl. rewrite lookup_delete_ne; [apply Htr; set_solver|].
  intros Heq. apply Hni. rewrite Heq. by apply list_elem_of_fmap_2.
Qed.

Lemma foldl_delete_lookup (pids : list Z) (m : gmap Z (Z * nat)) pid :
  foldl (λ m pid, delete pid m) m pids !! pid = if decide (pid ∈ pids) then None else m !! pid.
Proof.
  revert m. induction pids as [|p pids IH]; intros m; simpl; [done|]. rewrite IH, lookup_delete.
  repeat case_decide; subst; set_solver.
Qed.

Lemma non_empty_infos b :
  wf_buffer b → entry_info <$> filter (λ e, ¬ empty e) (entries b) = Some <$> omap entry_info (entries b).
Proof.
  intros Hwf. pose proof (wf_info _ Hwf) as Hi. revert Hi. generalize (entries b) as l.
  induction l as [|e l IH]; intros Hi; simpl; [done|].
  pose proof (Hi 0%nat e eq_refl) as He. assert (∀ i x, l !! i = Some x → entry_info x = None ↔ empty x) as Hl
    by (intros i; apply (Hi (S i))).
  rewrite filter_cons. destruct (entry_info e) as [info|] eqn:E.
  - rewrite decide_True by (intros Hem; apply He in Hem; congruence).
    rewrite !fmap_cons, E. f_equal. by apply IH.
  - rewrite decide_False by naive_solver. by apply IH.
Qed.

Lemma prompts_of_infos b : prompts_of b = prompt_id <$> omap entry_info (entries b).
Proof.
  unfold prompts_of. induction (entries b) as [|e l IH]; csimpl; [done|].
  destruct (entry_info e); csimpl; by rewrite IH.
Qed.

(** Deleting a buffer removes exactly that buffer and the prompts its entries
    hold, from the tracker and from the status cache. *)
Lemma delete_buffer_run (s : StalenessInventory) (bid : Z) (b : StalenessBuffer) :
  inv_ok s → buffers s !! bid = Some b →
  ∃ s', delete_buffer bid s = Ret tt s' ∧ inv_ok s' ∧ (window_ok s → window_ok s') ∧ config s' = config s ∧
    buffers s' = delete bid (buffers s) ∧
    (∀ pid, data_tracker s' !! pid = if decide (pid ∈ prompts_of b) then None else data_tracker s !! pid) ∧
    (∀ st, buffer_ids_by_status s' st = buffer_ids_by_status s st ∖ {[bid]}).
Proof.
  intros Hok Hb. destruct (ok_wf _ Hok _ _ Hb) as [Hwf _].
  unfold delete_buffer. mrun. rewrite Hb, (non_empty_infos b Hwf).
  erewrite run_bind; last first.
  { apply delete_loop_run.
    - rewrite <-prompts_of_infos. unfold prompts_of. apply NoDup_omap_inj.
      intros i j ei ej pid Hi Hj Hpi Hpj.
      assert ((bid, i) = (bid, j)) as Heq; [|by simplify_eq].
      apply (inj Some). transitivity (data_tracker s !! pid); [symmetry|];
        apply (ok_tracked _ Hok); unfold prompt_at, slot_at; simpl; rewrite Hb; simpl; by rewrite ?Hi, ?Hj.
    - intros info Hin. assert (prompt_id info ∈ prompts_of b) as Hp.
      { rewrite prompts_of_infos. by apply list_elem_of_fmap_2. }
      apply (elem_of_prompts_of (buffers s) bid) in Hp as [eid Hp]; [|done].
      exists (bid, eid). by apply (ok_tracked _ Hok). }
  rewrite <-prompts_of_infos. mrun. eexists. split; [reflexivity|]. simpl.
  assert (∀ pos, pos.1 ≠ bid → slot_at (delete bid (buffers s)) pos = slot_at (buffers s) pos) as Hslot.
  { intros pos Hpos. unfold slot_at. by rewrite lookup_delete_ne. }
  assert (∀ pos, pos.1 = bid → slot_at (delete bid (buffers s)) pos = None) as Hgone.
  { intros pos <-. unfold slot_at. by rewrite lookup_delete_eq. }
  split_and!; [| |done|done|intros pid; apply foldl_delete_lookup|done].
  - split; simpl.
    + intros x bx Hx. simpl in Hx. apply lookup_delete_Some in Hx as [_ Hx]. by apply (ok_wf _ Hok).
    + intros pid pos. rewrite foldl_delete_lookup.
      pose proof (ok_tracked _ Hok pid pos) as Hinv.
      pose proof (elem_of_prompts_of (buffers s) bid b pid Hb) as Hel. unfold prompt_at.
      destruct (decide (pos.1 = bid)) as [Heq|Hne].
      * rewrite (Hgone pos Heq). simpl. case_decide as Hd; [done|]. split; [|done].
        intros Hpos%Hinv. exfalso. apply Hd, Hel. exists pos.2. by rewrite <-Heq, <-surjective_pairing.
      * rewrite (Hslot pos Hne). case_decide as Hd; [|exact Hinv]. split; [done|]. intros Hpos%Hinv.
        apply Hel in Hd as [eid Hd%(ok_tracked _ Hok)]. by simplify_eq/=.
    + destruct (ok_cache _ Hok) as [Hex Hun Hdom]. split; simpl.
      * intros x st _. rewrite elem_of_difference, elem_of_singleton, (Hex x st) by set_solver.
        setoid_rewrite lookup_delete_Some. naive_solver.
      * set_solver.
      * intros x st [Hx Hne]%elem_of_difference. rewrite lookup_delete_ne by set_solver. eauto.
    + intros x [Hx Hne]%elem_of_difference. rewrite lookup_delete_ne by set_solver. by apply (ok_delete _ Hok).
    + apply Hok.
  - intros Hw. apply (window_step s); [done..|]. intros st pos e info _ _ He _. simpl in He. right.
    destruct (decide (pos.1 = bid)) as [Heq|Hne]; [by rewrite (Hgone _ Heq) in He|by rewrite <-(Hslot _ Hne)].
Qed.
