(* ===== verification/InventoryClear.v ===== *)
(** * Clearing entries

    Proves that [clear_occupied_entries] and [clear_reserved_entries] remove
    exactly the prompts they are given, refill the gap they leave and keep the
    inventory invariant and the staleness window. *)

From S2P Require Import Prelude.
From S2P Require Import StalenessBuffer.
From S2P Require Import StalenessInventory.
From S2P Require Import InventoryInv.
From S2P Require Import InventoryReserve.

(** ** Slot algebra *)

Lemma put_slot_twice pos e e' bufs : put_slot pos e (put_slot pos e' bufs) = put_slot pos e bufs.
Proof.
  unfold put_slot. apply map_eq. intros j. rewrite !lookup_alter. repeat case_decide; subst; try done.
  destruct (bufs !! _) as [b|]; [|done]. simpl. f_equal. unfold with_entries. simpl.
  by rewrite list_insert_insert_eq.
Qed.

Lemma with_buffers_twice x y s : with_buffers x (with_buffers y s) = with_buffers x s.
Proof. done. Qed.

Section tracked_steps.
Implicit Types (s : StalenessInventory) (pos : Z * nat) (e : Entry).

Definition removed (pos : Z * nat) (pid : Z) (s : StalenessInventory) : StalenessInventory :=
  with_tracker (delete pid (data_tracker s)) (with_buffers (put_slot pos empty_entry (buffers s)) s).

Lemma removed_tracked s pos pid e :
  inverse (data_tracker s) (prompt_at (buffers s)) → data_tracker s !! pid = Some pos →
  slot_at (buffers s) pos = Some e →
  inverse (data_tracker (removed pos pid s)) (prompt_at (buffers (removed pos pid s))).
Proof. intros Hinv Hp Hs. simpl. rewrite (prompt_at_put _ _ _ _ Hs). by apply inverse_remove. Qed.

Lemma moved_tracked s src dst e e0 info :
  inverse (data_tracker s) (prompt_at (buffers s)) → src ≠ dst →
  slot_at (buffers s) src = Some e → entry_info e = Some info →
  slot_at (buffers s) dst = Some e0 → entry_info e0 = None →
  let s' := moved src dst e (prompt_id info) s in
  inverse (data_tracker s') (prompt_at (buffers s')).
Proof.
  intros Hinv Hne Hs Hi Hd Hd0. simpl.
  assert (slot_at (put_slot dst e (buffers s)) src = Some e) as Hs'.
  { rewrite (slot_at_put _ _ _ _ _ Hd). by rewrite decide_False. }
  rewrite (prompt_at_put _ _ _ _ Hs').
  assert (inverse (<[prompt_id info := dst]> (data_tracker s))
    (<[src := None]> (<[dst := Some (prompt_id info)]> (prompt_at (buffers s))))) as Hm.
  { apply inverse_move; [done| |].
    - unfold prompt_at. rewrite Hs. simpl. by rewrite Hi.
    - unfold prompt_at. rewrite Hd. simpl. by rewrite Hd0. }
  intros pid x. rewrite (Hm pid x). unfold insert, fn_insert. case_decide; [done|].
  rewrite (prompt_at_put _ _ _ _ Hd x). unfold insert, fn_insert. case_decide; [by rewrite Hi|done].
Qed.

Lemma slot_at_moved s src dst e e0 e1 pid pos :
  src ≠ dst → slot_at (buffers s) src = Some e0 → slot_at (buffers s) dst = Some e1 →
  slot_at (buffers (moved src dst e pid s)) pos =
    if decide (src = pos) then Some empty_entry else if decide (dst = pos) then Some e else slot_at (buffers s) pos.
Proof.
  intros Hne Hs Hd. simpl. erewrite slot_at_put; last first.
  { rewrite (slot_at_put _ _ _ _ _ Hd), decide_False by done. exact Hs. }
  by rewrite (slot_at_put _ _ _ _ _ Hd).
Qed.

Lemma slot_at_removed s pos pos' pid e :
  slot_at (buffers s) pos = Some e →
  slot_at (buffers (removed pos pid s)) pos' =
    if decide (pos = pos') then Some empty_entry else slot_at (buffers s) pos'.
Proof. intros Hs. simpl. by rewrite (slot_at_put _ _ _ _ _ Hs). Qed.
End tracked_steps.

(** ** The inventory as a map from prompts to placements

    What a client of the inventory can observe about a prompt: the buffer
    (training step) it is assigned to, whether it is reserved or occupied, and
    its metadata.  The slot within the buffer is not part of it. *)

Definition placement : Type := Z * EntryCategory * EntryInfo.

Definition view (s : StalenessInventory) (pid : Z) : option placement :=
  pos ← data_tracker s !! pid; e ← slot_at (buffers s) pos; info ← entry_info e; Some (pos.1, category e, info).

Abbreviation tracks s := (inverse (data_tracker s) (prompt_at (buffers s))).

Section views.
Implicit Types (s : StalenessInventory) (pid bid : Z) (info : EntryInfo).

Lemma prompt_at_Some bufs pos pid :
  prompt_at bufs pos = Some pid ↔
  ∃ c info, slot_at bufs pos = Some (mkEntry c (Some info)) ∧ prompt_id info = pid.
Proof.
  unfold prompt_at. destruct (slot_at bufs pos) as [[c [info|]]|]; simpl; naive_solver.
Qed.

(** Where a prompt with a placement is. *)
Lemma view_Some s pid bid c info :
  tracks s → view s pid = Some (bid, c, info) ↔
  ∃ eid, slot_at (buffers s) (bid, eid) = Some (mkEntry c (Some info)) ∧ prompt_id info = pid.
Proof.
  intros Htr. unfold view. split.
  - destruct (data_tracker s !! pid) as [[bid' eid]|] eqn:Hp; simpl; [|done].
    apply Htr, prompt_at_Some in Hp as (c' & info' & Hs & Hpid). rewrite Hs. simpl. intros [= <- <- <-]. eauto.
  - intros (eid & Hs & Hpid). assert (data_tracker s !! pid = Some (bid, eid)) as ->.
    { apply Htr, prompt_at_Some. eauto. }
    simpl. by rewrite Hs.
Qed.

Lemma view_tracked s pid : tracks s → is_Some (view s pid) ↔ is_Some (data_tracker s !! pid).
Proof.
  intros Htr. unfold view. destruct (data_tracker s !! pid) as [pos|] eqn:Hp; simpl; [|done].
  apply Htr, prompt_at_Some in Hp as (c & info & Hs & _). rewrite Hs. simpl. by split; eauto.
Qed.

Lemma view_slot s pid bid c info :
  all_wf s → tracks s → view s pid = Some (bid, c, info) →
  ∃ b eid, data_tracker s !! pid = Some (bid, eid) ∧ buffers s !! bid = Some b ∧ wf_buffer b ∧
    entries b !! eid = Some (mkEntry c (Some info)) ∧
    slot_at (buffers s) (bid, eid) = Some (mkEntry c (Some info)) ∧ prompt_id info = pid.
Proof.
  intros Hwf Htr (eid & Hs & Hpid)%view_Some; [|done]. pose proof Hs as (b & Hb & He)%slot_at_Some.
  exists b, eid. split_and!; try done; [|by eapply Hwf]. apply Htr, prompt_at_Some. eauto.
Qed.

Lemma window_view s :
  tracks s → window_ok s ↔ ∀ st pid bid c info, inv_is_validate s = false → inv_staleness s = Some st →
    view s pid = Some (bid, c, info) → in_window st bid info.
Proof.
  intros Htr. split.
  - intros Hw st pid bid c info Hv Hst (eid & Hs & _)%view_Some; [|done].
    by apply (Hw st (bid, eid) _ info Hv Hst Hs).
  - intros Hw st [bid eid] [c oi] info Hv Hst Hs Hi. simpl in *. subst oi.
    eapply (Hw st (prompt_id info)); [done..|]. apply view_Some; eauto.
Qed.

Lemma view_removed s pos pid q :
  tracks s → data_tracker s !! pid = Some pos →
  view (removed pos pid s) q = if decide (q = pid) then None else view s q.
Proof.
  intros Htr Hp. pose proof Hp as (c & info & Hs & Hpid)%Htr%prompt_at_Some.
  unfold view. simpl. rewrite lookup_delete. case_decide; case_decide; try done; try congruence.
  destruct (data_tracker s !! q) as [pos'|] eqn:Hq; simpl; [|done].
  rewrite (slot_at_put _ _ _ _ _ Hs), decide_False; [done|].
  intros <-. apply Htr in Hq, Hp. congruence.
Qed.

Lemma view_moved s src dst e e0 info q :
  tracks s → src ≠ dst → slot_at (buffers s) src = Some e → entry_info e = Some info →
  slot_at (buffers s) dst = Some e0 → entry_info e0 = None →
  view (moved src dst e (prompt_id info) s) q =
    if decide (q = prompt_id info) then Some (dst.1, category e, info) else view s q.
Proof.
  intros Htr Hne Hs Hi Hd Hd0. unfold view at 1. cbn [data_tracker moved with_tracker]. rewrite lookup_insert.
  pose proof (λ pos, slot_at_moved s src dst e _ _ (prompt_id info) pos Hne Hs Hd) as Hslot. simpl in *.
  case_decide; case_decide; try congruence; subst.
  - simpl. rewrite Hslot, decide_False, decide_True by done. simpl. by rewrite Hi.
  - unfold view. destruct (data_tracker s !! q) as [pos|] eqn:Hq; simpl; [|done].
    rewrite Hslot.
    pose proof Hq as (c & iq & Hsq & Hpq)%Htr%prompt_at_Some.
    rewrite !decide_False; [done|..]; intros ->; simplify_eq/=; congruence.
Qed.
End views.

Lemma entry_eta e info : reserved e → entry_info e = Some info → e = mkEntry RESERVED (Some info).
Proof. destruct e; simpl. by intros -> ->. Qed.

(** ** The boundary of the reserved suffix depends only on categories *)

Lemma find_last_category l :
  find_last (λ e, ¬ reserved e) l = find_last (λ c, c ≠ RESERVED) (category <$> l).
Proof.
  induction l as [|e l IH]; csimpl; [done|]. rewrite IH.
  destruct (find_last _ (category <$> l)); repeat case_decide; done.
Qed.

Lemma first_reserved_categories b b' :
  category <$> entries b' = category <$> entries b → first_reserved b' = first_reserved b.
Proof.
  intros Hc. unfold first_reserved, get_last_non_reserved. by rewrite !find_last_category, Hc.
Qed.

(** The first slot that is not occupied depends only on which slots are. *)
Lemma first_non_occupied_same b es' :
  length es' = length (entries b) →
  (∀ i x x', entries b !! i = Some x → es' !! i = Some x' → occupied x ↔ occupied x') →
  get_first_non_occupied (with_entries es' b) = get_first_non_occupied b.
Proof.
  unfold get_first_non_occupied. simpl. intros Hlen Hocc. f_equal.
  revert es' Hlen Hocc. induction (entries b) as [|x es IH]; intros [|x' es'] Hlen Hocc; simplify_eq/=; [done|].
  pose proof (Hocc 0%nat x x' eq_refl eq_refl) as H0. rewrite (IH es'); [|done|by intros i; apply (Hocc (S i))].
  repeat case_decide; naive_solver.
Qed.

(** ** Vacating a slot

    The entry at [eid] is dropped and, when [fill] holds, the entry at [last]
    takes its place. *)
Definition vacated (bid : Z) (eid last : nat) (fill : bool) (bufs : gmap Z StalenessBuffer)
    : gmap Z StalenessBuffer :=
  if fill then
    match slot_at bufs (bid, last) with
    | Some e => put_slot (bid, last) empty_entry (put_slot (bid, eid) e bufs)
    | None => bufs
    end
  else put_slot (bid, eid) empty_entry bufs.

Lemma vacate_run {B} s bid eid last fill pid (k : Inv B) :
  all_wf s → tracks s → data_tracker s !! pid = Some (bid, eid) →
  (fill = true → last ≠ eid ∧ is_Some (prompt_at (buffers s) (bid, last))) →
  ∃ trk, let s' := with_tracker trk (with_buffers (vacated bid eid last fill (buffers s)) s) in
    (on_buffer bid (delete_entry eid) ;; untrack pid ;;
     (if fill then move_entry bid last bid eid else mret tt) ;; k) s = k s' ∧
    tracks s' ∧ ∀ q, view s' q = if decide (q = pid) then None else view s q.
Proof.
  intros Hwf Htr Hp Hfill. pose proof Hp as (c & info & Hs & Hpid)%Htr%prompt_at_Some.
  assert (∀ b, buffers s !! bid = Some b → length (entries b) = num_entries b) as Hlen.
  { intros b [Hb _]%Hwf. apply Hb. }
  rewrite (run_delete_entry _ _ _ _ _ Hlen Hs), (run_untrack _ (bid, eid)) by done.
  pose proof (removed_tracked s (bid, eid) pid _ Htr Hp Hs) as Htr1.
  pose proof (λ q, view_removed s (bid, eid) pid q Htr Hp) as Hv1.
  change (with_tracker (delete pid _) _) with (removed (bid, eid) pid s).
  destruct fill; [|by exists (delete pid (data_tracker s))].
  destruct (Hfill eq_refl) as [Hne [pl (cl & il & Hsl & Hpl)%prompt_at_Some]].
  assert (slot_at (buffers (removed (bid, eid) pid s)) (bid, last) = Some (mkEntry cl (Some il))) as Hsl1.
  { rewrite (slot_at_removed _ _ _ _ _ Hs). by rewrite decide_False by congruence. }
  assert (slot_at (buffers (removed (bid, eid) pid s)) (bid, eid) = Some empty_entry) as Hs1.
  { rewrite (slot_at_removed _ _ _ _ _ Hs). by rewrite decide_True. }
  assert ((bid, last) ≠ (bid, eid)) as Hne2 by congruence.
  erewrite run_move_entry; [|..|exact Hsl1|exact Hs1|done].
  - pose proof (moved_tracked _ _ _ _ _ _ Htr1 Hne2 Hsl1 eq_refl Hs1 eq_refl) as Htr2.
    pose proof (λ q, view_moved _ _ _ _ _ _ q Htr1 Hne2 Hsl1 eq_refl Hs1 eq_refl) as Hv2.
    assert (vacated bid eid last true (buffers s) =
      buffers (moved (bid, last) (bid, eid) (mkEntry cl (Some il)) (prompt_id il) (removed (bid, eid) pid s))) as Hbuf.
    { unfold vacated. rewrite Hsl. simpl. by rewrite put_slot_twice. }
    eexists. rewrite Hbuf. split; [reflexivity|]. split; [exact Htr2|]. intros q. rewrite <-Hv1.
    etransitivity; [exact (Hv2 q)|]. case_decide as Hq; [|done]. symmetry. subst q.
    apply view_Some; [done|]. by exists last.
  - simpl. intros b Hb. destruct (buffers s !! bid) as [b0|] eqn:Hb0.
    + rewrite (put_slot_lookup _ _ _ _ _ Hb0) in Hb. simplify_eq/=.
      case_decide; simpl; rewrite ?length_insert; eauto.
    + by rewrite (proj1 (put_slot_None _ _ _ _) Hb0) in Hb.
Qed.

(** Releasing a reserved slot: the boundary entry of the suffix fills the gap. *)
Definition release (bid : Z) (eid : nat) (b : StalenessBuffer) (bufs : gmap Z StalenessBuffer) :=
  vacated bid eid (first_reserved b) (bool_decide (first_reserved b < eid)%nat) bufs.

Section release.
Context (s : StalenessInventory) (bid : Z) (eid : nat) (b : StalenessBuffer) (e : Entry).
Context (Hwf : all_wf s) (Hb : buffers s !! bid = Some b) (He : entries b !! eid = Some e) (Hres : reserved e).

Let Hwfb : wf_buffer b := proj1 (Hwf bid b Hb).

Lemma release_boundary :
  (first_reserved b < eid)%nat → ∃ el il, entries b !! first_reserved b = Some el ∧ reserved el ∧ entry_info el = Some il.
Proof.
  intros Hlt. destruct (lookup_lt_is_Some_2 (entries b) (first_reserved b)) as [el Hel].
  { apply lookup_lt_Some in He. lia. }
  assert (reserved el) as Hr by (by eapply (first_reserved_above b)).
  destruct (entry_info el) as [il|] eqn:Hi; [by exists el, il|].
  apply (wf_info _ Hwfb _ _ Hel) in Hi. congruence.
Qed.

Lemma release_wf : all_wf (with_buffers (release bid eid b (buffers s)) s).
Proof.
  unfold release, vacated. case_bool_decide as Hlt.
  - destruct (release_boundary Hlt) as (el & il & Hel & Hr & Hi).
    assert (slot_at (buffers s) (bid, first_reserved b) = Some el) as Hsl by (apply slot_at_Some; eauto).
    rewrite Hsl.
    rewrite (entry_eta el il Hr Hi). rewrite (entry_eta el il Hr Hi) in Hel.
    rewrite <-(with_buffers_twice _ (put_slot (bid, eid) (mkEntry RESERVED (Some il)) (buffers s))).
    pose proof (wf_swap_reserved b Hwfb eid e il He Hres) as Hwf2.
    eapply (all_wf_put (with_buffers (put_slot (bid, eid) _ (buffers s)) s) (bid, first_reserved b));
      [by eapply all_wf_put|simpl; by rewrite (put_slot_lookup _ _ _ _ _ Hb), decide_True|].
    simpl. assert (first_reserved (with_entries (<[eid := mkEntry RESERVED (Some il)]> (entries b)) b) = first_reserved b) as Hfr.
    { apply first_reserved_categories. simpl. rewrite <-Hres. by apply update_info_categories. }
    rewrite <-Hfr. eapply (wf_drop_reserved _ Hwf2); [|exact Hr|left; done].
    simpl. rewrite Hfr. rewrite list_lookup_insert_ne by lia. by rewrite (entry_eta el il).
  - eapply all_wf_put; [done|done|]. simpl. eapply (wf_drop_reserved b Hwfb); [done..|].
    destruct (decide (eid = first_reserved b)); [by left|]. right. left.
    split; [|lia]. destruct (decide (ready_num_entries b ≤ eid)%nat); [done|]. exfalso.
    destruct (first_reserved_below b) as (e' & He' & Hn); [lia|]. apply Hn.
    destruct (decide (eid = pred (first_reserved b))) as [->|]; [by simplify_eq|].
    eapply (wf_reserved_suffix b Hwfb eid (pred (first_reserved b))); [lia|lia|done..].
Qed.

(** The slots after a release: the released slot is refilled or empty, the
    boundary is empty, the rest is unchanged. *)
Lemma release_slots pos e' :
  slot_at (release bid eid b (buffers s)) pos = Some e' →
  e' = empty_entry ∨ slot_at (buffers s) pos = Some e' ∨
  (pos = (bid, eid) ∧ slot_at (buffers s) (bid, first_reserved b) = Some e').
Proof.
  assert (slot_at (buffers s) (bid, eid) = Some e) as Hs by (apply slot_at_Some; eauto).
  unfold release, vacated. case_bool_decide as Hlt.
  - destruct (release_boundary Hlt) as (el & il & Hel & Hr & Hi).
    assert (slot_at (buffers s) (bid, first_reserved b) = Some el) as Hsl by (apply slot_at_Some; eauto).
    rewrite Hsl.
    erewrite slot_at_put; last first.
    { rewrite (slot_at_put _ _ _ _ _ Hs), decide_False by (intros [= ?]; lia). exact Hsl. }
    rewrite (slot_at_put _ _ _ _ _ Hs). repeat case_decide; naive_solver.
  - rewrite (slot_at_put _ _ _ _ _ Hs). case_decide; naive_solver.
Qed.

Lemma release_empty : ∃ b', release bid eid b (buffers s) !! bid = Some b' ∧ has_empty b' ∧
  ready_num_entries b' = ready_num_entries b ∧ get_first_non_occupied b' = get_first_non_occupied b.
Proof.
  unfold release, vacated. case_bool_decide as Hlt.
  - destruct (release_boundary Hlt) as (el & il & Hel & Hr & Hi).
    assert (slot_at (buffers s) (bid, first_reserved b) = Some el) as Hsl by (apply slot_at_Some; eauto).
    rewrite Hsl.
    eexists. split.
    { erewrite put_slot_lookup; [|by erewrite put_slot_lookup, decide_True by done]. rewrite decide_True by done. done. }
    simpl. split_and!; [|done|].
    + exists (first_reserved b), empty_entry. split; [|done]. apply list_lookup_insert_eq. rewrite length_insert.
      apply lookup_lt_Some in He. lia.
    + eapply (first_non_occupied_same b (<[_ := _]> (<[_ := _]> (entries b)))); [by rewrite !length_insert|].
      intros i x x' Hx Hx'. slot_cases; slot_cases; split; congruence.
  - eexists. split; [by erewrite put_slot_lookup, decide_True by done|]. simpl. split_and!; [|done|].
    + exists eid, empty_entry. split; [|done]. apply list_lookup_insert_eq. by eapply lookup_lt_Some.
    + apply first_non_occupied_same; [by rewrite !length_insert|].
      intros i x x' Hx Hx'. slot_cases; split; congruence.
Qed.
End release.

(** ** Clearing occupied entries *)

Section vacate_core.
Context (s : StalenessInventory) (bid : Z) (eid last : nat) (fill : bool).

Lemma vacated_ne x : x ≠ bid → vacated bid eid last fill (buffers s) !! x = buffers s !! x.
Proof.
  intros Hne. unfold vacated. destruct fill; [|by apply put_slot_ne].
  destruct (slot_at _ _); [|done]. by rewrite !put_slot_ne.
Qed.

Lemma vacated_dom x : is_Some (buffers s !! x) ↔ is_Some (vacated bid eid last fill (buffers s) !! x).
Proof.
  rewrite <-!not_eq_None_Some. unfold vacated. destruct fill; [|by rewrite <-put_slot_None].
  destruct (slot_at _ _); [|done]. by rewrite <-!put_slot_None.
Qed.

Lemma vacate_core trk :
  let s' := with_tracker trk (with_buffers (vacated bid eid last fill (buffers s)) s) in
  all_wf (with_buffers (vacated bid eid last fill (buffers s)) s) → tracks s' → core_step {[bid]} s s'.
Proof.
  intros s' Hwf Htr. split; simpl; try done.
  - intros x Hx. apply vacated_ne. set_solver.
  - apply vacated_dom.
Qed.
End vacate_core.

(** [s'] is [s] without the prompts [pids]. *)
Definition without (pids : gset Z) (s s' : StalenessInventory) : Prop :=
  ∀ q, view s' q = if decide (q ∈ pids) then None else view s q.

Lemma without_trans p ps s s1 s2 : without {[p]} s s1 → without ps s1 s2 → without ({[p]} ∪ ps) s s2.
Proof.
  intros H1 H2 q. rewrite H2, H1. repeat case_decide; set_solver.
Qed.

Lemma without_window pids s s' :
  tracks s → tracks s' → config s' = config s → without pids s s' → window_ok s → window_ok s'.
Proof.
  intros Htr Htr' Hcfg Hw Hok. apply window_view; [done|]. rewrite (window_view s) in Hok by done.
  unfold config in Hcfg. injection Hcfg as Hst _ _ _ Hval. rewrite Hst, Hval.
  intros st pid bid c info. rewrite Hw. case_decide; [done|]. eauto.
Qed.

Section clear_occupied.
Context `{SetOrder}.
Implicit Types (s : StalenessInventory) (bid pid : Z).

Lemma clear_occupied_wf s bid b eid e info :
  all_wf s → buffers s !! bid = Some b → entries b !! eid = Some e → occupied e → entry_info e = Some info →
  let last := pred (get_first_non_occupied b) in
  (eid ≤ last)%nat ∧ (0 < get_first_non_occupied b)%nat ∧ is_Some (prompt_at (buffers s) (bid, last)) ∧
  all_wf (with_buffers (vacated bid eid last (bool_decide (eid < last)%nat) (buffers s)) s).
Proof.
  intros Hwf Hb He Hocc Hi last. destruct (Hwf _ _ Hb) as [Hwfb _].
  pose proof (proj1 (first_non_occupied_spec b eid e Hwfb He) Hocc) as Hlt.
  assert (last < get_first_non_occupied b)%nat as Hl by lia.
  destruct (lookup_lt_is_Some_2 (entries b) last) as [el Hel].
  { rewrite (wf_length _ Hwfb). pose proof (first_non_occupied_le_ready b Hwfb). pose proof (wf_ready _ Hwfb). lia. }
  assert (occupied el) as Hol by (by eapply (first_non_occupied_spec b last)).
  assert (slot_at (buffers s) (bid, last) = Some el) as Hsl by (apply slot_at_Some; eauto).
  destruct el as [cl [il|]]; simpl in Hol; subst cl; last first.
  { pose proof (proj1 (wf_info _ Hwfb _ _ Hel) eq_refl) as Hc. by simpl in Hc. }
  split_and!; [lia|lia|unfold prompt_at; by rewrite Hsl|]. unfold vacated. case_bool_decide as Heid.
  - rewrite Hsl. rewrite <-(with_buffers_twice _ (put_slot (bid, eid) (mkEntry OCCUPIED (Some il)) (buffers s))).
    pose proof (wf_update_info b Hwfb eid e il He) as Hwf2. rewrite Hocc in Hwf2. specialize (Hwf2 ltac:(done)).
    eapply (all_wf_put (with_buffers (put_slot (bid, eid) _ (buffers s)) s) (bid, last));
      [by eapply all_wf_put|simpl; by rewrite (put_slot_lookup _ _ _ _ _ Hb), decide_True|].
    simpl. pose proof (wf_drop_occupied _ Hwf2) as Hdrop. simpl in Hdrop.
    rewrite (first_non_occupied_same b (<[eid := _]> (entries b))) in Hdrop; [apply Hdrop; lia|by rewrite length_insert|].
    intros i x x' Hx Hx'. slot_cases; split; congruence.
  - replace eid with last by lia. eapply all_wf_put; [done|done|]. apply (wf_drop_occupied b Hwfb). lia.
Qed.

Lemma clear_occupied_entry_run s pid bid info U :
  all_wf s → tracks s → view s pid = Some (bid, OCCUPIED, info) →
  ∃ s', clear_occupied_entry pid U s = Ret ({[bid]} ∪ U) s' ∧ core_step {[bid]} s s' ∧ without {[pid]} s s'.
Proof.
  intros Hwf Htr Hv. destruct (view_slot _ _ _ _ _ Hwf Htr Hv) as (b & eid & Hp & Hb & Hwfb & He & Hs & Hpid).
  destruct (clear_occupied_wf s bid b eid _ info Hwf Hb He eq_refl eq_refl) as (Hle & Hpos & Hlast & Hwf').
  destruct (vacate_run (B := gset Z) s bid eid (pred (get_first_non_occupied b))
    (bool_decide (eid < pred (get_first_non_occupied b))%nat) pid (mret ({[bid]} ∪ U)) Hwf Htr Hp)
    as (trk & Hrun & Htr' & Hv').
  { intros ?%bool_decide_eq_true. split; [lia|done]. }
  eexists. split; [|split; [by eapply vacate_core|]].
  - unfold clear_occupied_entry. mrun. rewrite (run_of_option _ _ (bid, eid)) by done.
    rewrite (run_get_buffer _ _ _ _ Hb). cbv zeta.
    replace (Z.to_nat (Z.of_nat (get_first_non_occupied b) - 1)) with (pred (get_first_non_occupied b)) by lia.
    rewrite run_assert_decide by lia.
    rewrite (bool_decide_ext (Z.of_nat eid < Z.of_nat (get_first_non_occupied b) - 1) (eid < pred (get_first_non_occupied b))%nat) by lia.
    exact Hrun.
  - intros q. etransitivity; [exact (Hv' q)|]. repeat case_decide; set_solver.
Qed.

Lemma clear_occupied_fold s0 s U pids :
  core_step U s0 s → NoDup pids →
  (∀ pid, pid ∈ pids → ∃ bid info, view s pid = Some (bid, OCCUPIED, info)) →
  ∃ U' s', fold_each pids U clear_occupied_entry s = Ret U' s' ∧ core_step U' s0 s' ∧ without (list_to_set pids) s s'.
Proof.
  intros Hcs Hnd Hall. revert s U Hcs Hall. induction Hnd as [|pid pids Hnin Hnd IH]; intros s U Hcs Hall; simpl.
  { exists U, s. split_and!; [done..|]. intros q. by rewrite decide_False by set_solver. }
  destruct (Hall pid) as (bid & info & Hv); [set_solver|].
  destruct (clear_occupied_entry_run s pid bid info U) as (s1 & Hrun & Hcs1 & Hw1); [apply Hcs|apply Hcs|done|].
  rewrite (run_bind _ _ _ _ _ Hrun).
  destruct (IH s1 ({[bid]} ∪ U)) as (U' & s' & Hrun' & Hcs' & Hw').
  - by eapply core_step_trans.
  - intros q Hq. destruct (Hall q) as (bq & iq & Hvq); [set_solver|]. exists bq, iq. rewrite Hw1.
    by rewrite decide_False by set_solver.
  - exists U', s'. split_and!; [done..|]. by eapply without_trans.
Qed.

Lemma clear_occupied_run s pids :
  inv_ok s → NoDup pids → (∀ pid, pid ∈ pids → ∃ bid info, view s pid = Some (bid, OCCUPIED, info)) →
  ∃ s', clear_occupied_entries pids s = Ret tt s' ∧ inv_ok s' ∧ config s' = config s ∧
    buffer_id s' = buffer_id s ∧ without (list_to_set pids) s s'.
Proof.
  intros Hok Hnd Hall. destruct (clear_occupied_fold s s ∅ pids) as (U & s1 & Hrun & Hcs & Hw); [by apply core_step_refl|done..|].
  unfold clear_occupied_entries. rewrite (run_bind _ _ _ _ _ Hrun).
  destruct (core_step_refresh U s s1 Hok Hcs) as (f & Hf & Hok').
  exists (with_by_status f s1). split_and!; [done|done|apply Hcs|apply Hcs|done].
Qed.
End clear_occupied.

(** ** Clearing reserved entries *)

(** [info] may be placed in the buffer [target]: its version is in the window
    of that buffer and its prompt is not among those being cleared. *)
Definition exchangeable (st target : Z) (pids : list Z) (info : EntryInfo) : Prop :=
  ∃ v, get_entry_version info = inr v ∧ target - st ≤ v ≤ target ∧ prompt_id info ∉ pids.

Section exchange.
Context (st target : Z) (pids : list Z).

Lemma find_exchange_in_spec limit k es :
  (∀ i e, es !! i = Some e → reserved e → ∃ info v, entry_info e = Some info ∧ get_entry_version info = inr v) →
  (∀ l, limit = Some l → (k ≤ l)%nat) →
  ∃ r, find_exchange_in st target limit pids k es = inr r ∧
  match r with
  | Some j => ∃ i e info, j = (k + i)%nat ∧ es !! i = Some e ∧ reserved e ∧ entry_info e = Some info ∧
      exchangeable st target pids info ∧ ∀ l, limit = Some l → (j < l)%nat
  | None => ∀ i e info, es !! i = Some e → reserved e → entry_info e = Some info →
      (∀ l, limit = Some l → (k + i < l)%nat) → ¬ exchangeable st target pids info
  end.
Proof.
  revert k. induction es as [|e es IH]; intros k Hver Hk; simpl; [by exists None|].
  destruct (decide (limit = Some k)) as [->|Hne].
  { exists None. split; [done|]. intros i e' info _ _ _ Hl. specialize (Hl k eq_refl). lia. }
  destruct (IH (S k)) as (r & Hr & Hspec); [by intros i; apply (Hver (S i))| |].
  { intros l ->. destruct (decide (l = k)); [congruence|]. specialize (Hk l eq_refl). lia. }
  assert (∀ j e' info, (e :: es) !! S j = Some e' → reserved e' → entry_info e' = Some info → r = None →
    (∀ l, limit = Some l → (k + S j < l)%nat) → ¬ exchangeable st target pids info) as Htail.
  { intros j e' info Hj Hres Hi -> Hl. eapply (Hspec j e'); [done..|]. intros l Hl'. specialize (Hl l Hl'). lia. }
  assert (∀ j, r = Some j → ∃ i e' info, j = (k + i)%nat ∧ (e :: es) !! i = Some e' ∧ reserved e' ∧
    entry_info e' = Some info ∧ exchangeable st target pids info ∧ ∀ l, limit = Some l → (j < l)%nat) as Hfound.
  { intros j ->. destruct Hspec as (i & e' & info & -> & ?). exists (S i), e', info. split; [lia|done]. }
  case_decide as Hres.
  - destruct (Hver 0%nat e eq_refl Hres) as (info & v & Hi & Hv). rewrite Hi, Hv. case_bool_decide as Hc.
    + exists (Some k). split; [done|]. exists 0%nat, e, info. split_and!; [lia|done..|by exists v; naive_solver|].
      intros l Hl. pose proof (Hk l Hl). destruct (decide (l = k)); [congruence|lia].
    + rewrite Hr. exists r. split; [done|]. destruct r as [j|]; [by apply Hfound|].
      intros [|i] e' info' He' Hr' Hi' Hl; [|by eapply Htail]. injection He' as <-.
      intros (v' & Hv' & Hw & Hn). assert (info' = info) as -> by congruence. assert (v' = v) as -> by congruence.
      apply Hc. split_and!; [lia|lia|done].
  - rewrite Hr. exists r. split; [done|]. destruct r as [j|]; [by apply Hfound|].
    intros [|i] e' info' He' Hr' Hi' Hl; [|by eapply Htail]. by simplify_eq/=.
Qed.

Lemma find_exchange_spec entry_id bufs bids :
  (∀ bid b, bufs !! bid = Some b → wf_buffer b) →
  (∀ bid b i e info, bufs !! bid = Some b → entries b !! i = Some e → entry_info e = Some info →
    ∃ v, get_entry_version info = inr v) →
  ∃ r, find_exchange st target entry_id pids bufs bids = inr r ∧
  match r with
  | Some (bid, eid) => ∃ b e info, bid ∈ bids ∧ bufs !! bid = Some b ∧ entries b !! eid = Some e ∧ reserved e ∧
      entry_info e = Some info ∧ exchangeable st target pids info ∧
      (get_first_non_occupied b < ready_num_entries b)%nat ∧ (bid = target → (eid < entry_id)%nat)
  | None => ∀ bid b i e info, bid ∈ bids → bufs !! bid = Some b →
      (get_first_non_occupied b < ready_num_entries b)%nat → entries b !! i = Some e → reserved e →
      entry_info e = Some info → (bid = target → (i < entry_id)%nat) → ¬ exchangeable st target pids info
  end.
Proof.
  intros Hwf Hver. induction bids as [|bid bids (r & Hr & Hspec)]; simpl; [exists None; set_solver|].
  assert (bufs !! bid = None ∨ (∃ b, bufs !! bid = Some b ∧ ¬ (get_first_non_occupied b < ready_num_entries b)%nat) →
    match r with Some (bid', eid) => ∃ b e info, bid' ∈ bid :: bids ∧ bufs !! bid' = Some b ∧ entries b !! eid = Some e ∧
        reserved e ∧ entry_info e = Some info ∧ exchangeable st target pids info ∧
        (get_first_non_occupied b < ready_num_entries b)%nat ∧ (bid' = target → (eid < entry_id)%nat)
    | None => ∀ bid' b i e info, bid' ∈ bid :: bids → bufs !! bid' = Some b →
        (get_first_non_occupied b < ready_num_entries b)%nat → entries b !! i = Some e → reserved e →
        entry_info e = Some info → (bid' = target → (i < entry_id)%nat) → ¬ exchangeable st target pids info
    end) as Hskip.
  { intros Hno. destruct r as [[bid' eid]|]; [set_solver|].
    intros bid' b i e info [->|Hin]%elem_of_cons Hb Hlt; [naive_solver|by eapply Hspec]. }
  destruct (bufs !! bid) as [b|] eqn:Hb; [|exists r; split; [done|]; apply Hskip; by left].
  rewrite (get_status_of b) by eauto. pose proof (first_non_occupied_le_ready b (Hwf _ _ Hb)) as Hle.
  destruct (decide (get_first_non_occupied b < ready_num_entries b)%nat) as [Hlt|Hlt]; last first.
  { exists r. split; [|apply Hskip; right; by exists b]. unfold status_of. rewrite decide_True by lia. by destruct (decide (has_empty b)). }
  destruct (find_exchange_in_spec (if bool_decide (bid = target) then Some entry_id else None) 0 (entries b)) as (r' & Hr' & Hs').
  { intros i e He Hres. destruct (entry_info e) as [info|] eqn:Hi.
    - destruct (Hver _ _ _ _ _ Hb He Hi) as [v Hv]. eauto.
    - apply (wf_info _ (Hwf _ _ Hb) _ _ He) in Hi. congruence. }
  { lia. }
  rewrite Hr'. assert (∃ r0, r0 = match r' with Some eid => Some (bid, eid) | None => r end) as [r0 Hr0] by eauto.
  exists r0. split.
  { unfold status_of. rewrite decide_False by lia. destruct (decide (has_empty b)); destruct r'; by subst r0. }
  destruct r' as [j|]; subst r0.
  - destruct Hs' as (i & e & info & -> & He & Hres & Hi & Hex & Hl). exists b, e, info.
    split_and!; try done; [set_solver|]. intros ->. apply Hl. by rewrite bool_decide_true.
  - destruct r as [[bid' eid]|]; [set_solver|].
    intros bid' b' i e info [->|Hin]%elem_of_cons Hb' Hlt' He Hres Hi Hl; [|by eapply Hspec].
    simplify_eq. eapply Hs'; [done..|]. intros l. case_bool_decide; [|done]. intros [= <-]. auto.
Qed.
End exchange.

(** ** Which slots are occupied *)

(** The occupied prefix of every buffer is the same. *)
Definition same_occupied (bufs bufs' : gmap Z StalenessBuffer) : Prop :=
  ∀ x b, bufs !! x = Some b → ∃ b', bufs' !! x = Some b' ∧ ready_num_entries b' = ready_num_entries b ∧
    get_first_non_occupied b' = get_first_non_occupied b.

#[export] Instance same_occupied_preorder : PreOrder same_occupied.
Proof.
  split.
  - intros bufs x b Hb. by exists b.
  - intros bufs1 bufs2 bufs3 H12 H23 x b Hb. destruct (H12 x b Hb) as (b' & Hb' & Hr & Hf).
    destruct (H23 x b' Hb') as (b'' & Hb'' & Hr' & Hf'). exists b''. split_and!; congruence.
Qed.

Lemma same_occupied_put bufs pos e e' :
  slot_at bufs pos = Some e → ¬ occupied e → ¬ occupied e' → same_occupied bufs (put_slot pos e' bufs).
Proof.
  destruct pos as [bid eid]. intros (b0 & Hb0 & He)%slot_at_Some Hn Hn' x b Hb.
  rewrite (put_slot_lookup _ _ _ _ _ Hb). eexists. split; [done|]. simpl. case_decide as Hx; [|done]. simpl.
  split; [done|]. apply first_non_occupied_same; [by rewrite length_insert|]. simplify_eq.
  intros i y y' Hy Hy'. slot_cases; split; congruence.
Qed.

Lemma same_occupied_release s bid eid b e :
  all_wf s → buffers s !! bid = Some b → entries b !! eid = Some e → reserved e →
  same_occupied (buffers s) (release bid eid b (buffers s)).
Proof.
  intros Hwf Hb He Hres.
  assert (slot_at (buffers s) (bid, eid) = Some e) as Hs by (apply slot_at_Some; eauto).
  unfold release, vacated. case_bool_decide as Hlt; [|by eapply same_occupied_put; [|rewrite Hres|]].
  destruct (release_boundary s bid eid b e Hwf Hb He Hlt) as (el & il & Hel & Hr & Hi).
  assert (slot_at (buffers s) (bid, first_reserved b) = Some el) as Hsl by (apply slot_at_Some; eauto).
  rewrite Hsl. etrans; [by eapply (same_occupied_put _ (bid, eid) _ el); [|rewrite ?Hres, ?Hr..]|].
  eapply same_occupied_put; [|by rewrite Hr|done].
  rewrite (slot_at_put _ _ _ _ _ Hs), decide_False; [exact Hsl|]. intros [= ?]. lia.
Qed.

(** ** Clearing within the buffer *)

Section clear_reserved.
Context `{SetOrder}.
Implicit Types (s : StalenessInventory) (bid pid : Z).

Lemma clear_reserved_entry_run s pid bid info pids U :
  all_wf s → tracks s → view s pid = Some (bid, RESERVED, info) →
  ∃ s', clear_reserved_entry false pids pid U s = Ret ({[bid]} ∪ U) s' ∧ core_step {[bid]} s s' ∧
    without {[pid]} s s' ∧ same_occupied (buffers s) (buffers s').
Proof.
  intros Hwf Htr Hv. destruct (view_slot _ _ _ _ _ Hwf Htr Hv) as (b & eid & Hp & Hb & Hwfb & He & Hs & Hpid).
  destruct (vacate_run (B := gset Z) s bid eid (first_reserved b)
    (bool_decide (first_reserved b < eid)%nat) pid (mret ({[bid]} ∪ U)) Hwf Htr Hp) as (trk & Hrun & Htr' & Hv').
  { intros Hlt%bool_decide_eq_true. split; [lia|].
    destruct (release_boundary s bid eid b _ Hwf Hb He Hlt) as (el & il & Hel & Hr & Hi).
    exists (prompt_id il). unfold prompt_at, slot_at. simpl. rewrite Hb. simpl. rewrite Hel. simpl. by rewrite Hi. }
  eexists. split; [|split; [eapply vacate_core; [|done]; by eapply (release_wf s bid eid b)|split]].
  - unfold clear_reserved_entry. mrun. rewrite Hp, (run_get_buffer _ _ _ _ Hb), (run_get_entry _ _ _ _ _ Hs). exact Hrun.
  - intros q. etransitivity; [exact (Hv' q)|]. repeat case_decide; set_solver.
  - by eapply (same_occupied_release s bid eid b).
Qed.

Lemma clear_reserved_fold pids0 s0 s U pids :
  core_step U s0 s →
  (∀ pid bid c info, pid ∈ pids → view s pid = Some (bid, c, info) → c = RESERVED) →
  ∃ U' s', fold_each pids U (clear_reserved_entry false pids0) s = Ret U' s' ∧ core_step U' s0 s' ∧
    without (list_to_set pids) s s' ∧ same_occupied (buffers s) (buffers s').
Proof.
  intros Hcs Hall. revert s U Hcs Hall. induction pids as [|pid pids IH]; intros s U Hcs Hall; simpl.
  { exists U, s. split_and!; [done..| |done]. intros q. by rewrite decide_False by set_solver. }
  destruct (view s pid) as [[[bid c] info]|] eqn:Hv.
  - assert (c = RESERVED) as -> by (eapply (Hall pid); [set_solver|done]).
    destruct (clear_reserved_entry_run s pid bid info pids0 U) as (s1 & Hrun & Hcs1 & Hw1 & Ho1); [apply Hcs|apply Hcs|done|].
    rewrite (run_bind _ _ _ _ _ Hrun).
    destruct (IH s1 ({[bid]} ∪ U)) as (U' & s' & Hrun' & Hcs' & Hw' & Ho'); [by eapply core_step_trans| |].
    { intros q bq c iq Hq. rewrite Hw1. case_decide; [done|]. apply Hall. set_solver. }
    exists U', s'. split_and!; [done..|by eapply without_trans|by etrans].
  - assert (data_tracker s !! pid = None) as Hnone.
    { apply eq_None_not_Some. rewrite <-view_tracked by apply Hcs. by rewrite Hv. }
    assert (clear_reserved_entry false pids0 pid U s = Ret U s) as Hrun.
    { unfold clear_reserved_entry. mrun. by rewrite Hnone. }
    rewrite (run_bind _ _ _ _ _ Hrun).
    destruct (IH s U) as (U' & s' & Hrun' & Hcs' & Hw' & Ho'); [done|by intros q bq c iq Hq; apply Hall; set_solver|].
    exists U', s'. split_and!; [done..| |done]. intros q. rewrite Hw'.
    destruct (decide (q = pid)) as [->|]; [rewrite Hv|]; repeat case_decide; set_solver.
Qed.

Lemma clear_reserved_run s pids :
  inv_ok s → (∀ pid bid c info, pid ∈ pids → view s pid = Some (bid, c, info) → c = RESERVED) →
  ∃ s', clear_reserved_entries pids false s = Ret tt s' ∧ inv_ok s' ∧ config s' = config s ∧
    buffer_id s' = buffer_id s ∧ without (list_to_set pids) s s' ∧ same_occupied (buffers s) (buffers s').
Proof.
  intros Hok Hall. destruct (clear_reserved_fold pids s s ∅ pids) as (U & s1 & Hrun & Hcs & Hw & Ho); [by apply core_step_refl|done|].
  unfold clear_reserved_entries. mrun. simpl. rewrite (run_bind _ _ _ _ _ Hrun).
  destruct (core_step_refresh U s s1 Hok Hcs) as (f & Hf & Hok').
  exists (with_by_status f s1). split_and!; [done|done|apply Hcs|apply Hcs|done..].
Qed.
End clear_reserved.
