(* ===== verification/InventoryExchange.v ===== *)
(** * Clearing a reserved entry across buffers

    [clear_reserved_entries] with [move_across_buffer=True] fills the slot it
    frees with a reserved entry of an earlier (or the same) buffer, so that the
    free slot travels towards the oldest training step.  This file proves where
    the free slot ends up and that the staleness window is kept. *)

From S2P Require Import Prelude.
From S2P Require Import StalenessBuffer.
From S2P Require Import StalenessInventory.
From S2P Require Import InventoryInv.
From S2P Require Import InventoryReserve.
From S2P Require Import InventoryClear.

(** The reservation of [pid] in the buffer [bid] is gone and a slot of [xb] is free. *)
Record freed (st v : Z) (pid bid xb : Z) (s s' : StalenessInventory) : Prop := {
  fr_range : v ≤ xb ≤ bid;
  fr_gone : view s' pid = None;
  fr_other q : q ≠ pid → view s' q = view s q ∨
    ∃ info, view s q = Some (xb, RESERVED, info) ∧ view s' q = Some (bid, RESERVED, info) ∧ in_window st bid info;
  fr_occupied : same_occupied (buffers s) (buffers s');
  fr_same x : x ≠ xb → x ≠ bid → buffers s' !! x = buffers s !! x;
  fr_slot : ∃ b, buffers s' !! xb = Some b ∧ has_empty b ∧
    (xb = bid ∨ (get_first_non_occupied b < ready_num_entries b)%nat);
}.

Lemma same_occupied_lookup bufs bufs' x b b' :
  same_occupied bufs bufs' → bufs !! x = Some b → bufs' !! x = Some b' →
  ready_num_entries b' = ready_num_entries b ∧ get_first_non_occupied b' = get_first_non_occupied b.
Proof. intros Hso Hb Hb'. destruct (Hso x b Hb) as (b2 & Hb2 & ? & ?). by simplify_eq. Qed.

(** ** No exchange: the entry is the boundary of its buffer *)

Section no_exchange.
Context (s : StalenessInventory) (st v pid bid : Z) (eid : nat) (b : StalenessBuffer) (info : EntryInfo).
Context (Hwf : all_wf s) (Htr : tracks s) (Hp : data_tracker s !! pid = Some (bid, eid)).
Context (Hb : buffers s !! bid = Some b) (He : entries b !! eid = Some (mkEntry RESERVED (Some info))).

Let Hwfb : wf_buffer b := proj1 (Hwf bid b Hb).

(** No reserved entry of [bid] precedes [eid], unless the buffer is ready. *)
Context (Hfirst : (get_first_non_occupied b < ready_num_entries b)%nat →
  ∀ i e, (i < eid)%nat → entries b !! i = Some e → ¬ reserved e).

Lemma drop_boundary_wf : all_wf (with_buffers (put_slot (bid, eid) empty_entry (buffers s)) s).
Proof.
  eapply all_wf_put; [done|done|]. simpl. eapply (wf_drop_reserved b Hwfb); [done..|].
  destruct (decide (get_first_non_occupied b < ready_num_entries b)%nat) as [Hlt|Hge]; last first.
  { do 2 right. pose proof (first_non_occupied_le_ready b Hwfb). lia. }
  specialize (Hfirst Hlt).
  destruct (decide (eid = first_reserved b)); [by left|]. right. left.
  destruct (decide (first_reserved b < eid)%nat) as [Hfr|].
  { exfalso. destruct (lookup_lt_is_Some_2 (entries b) (first_reserved b)) as [e' He'].
    { apply lookup_lt_Some in He. lia. }
    eapply (Hfirst (first_reserved b)); [done..|]. by eapply (first_reserved_above b). }
  split; [|lia]. destruct (decide (ready_num_entries b ≤ eid)%nat); [done|exfalso].
  destruct (first_reserved_below b) as (e' & He' & Hn); [lia|]. apply Hn.
  destruct (decide (eid = pred (first_reserved b))) as [Heq|]; [rewrite <-Heq in He'; by simplify_eq|].
  by eapply (wf_reserved_suffix b Hwfb eid (pred (first_reserved b))); [lia|lia|..].
Qed.

Lemma drop_boundary_freed :
  v ≤ bid → core_step {[bid]} s (removed (bid, eid) pid s) ∧ freed st v pid bid bid s (removed (bid, eid) pid s).
Proof.
  intros Hv. assert (slot_at (buffers s) (bid, eid) = Some (mkEntry RESERVED (Some info))) as Hs by (apply slot_at_Some; eauto).
  pose proof (removed_tracked s (bid, eid) pid _ Htr Hp Hs) as Htr'.
  pose proof (λ q, view_removed s (bid, eid) pid q Htr Hp) as Hview. split.
  - apply (vacate_core s bid eid 0 false); [exact drop_boundary_wf|exact Htr'].
  - split; [lia|by rewrite Hview, decide_True| | | |].
    + intros q Hq. left. by rewrite Hview, decide_False.
    + by eapply (same_occupied_put _ (bid, eid)); [exact Hs|..].
    + intros x _ Hx. by apply put_slot_ne.
    + eexists. split; [simpl; by rewrite (put_slot_lookup _ _ _ _ _ Hb), decide_True|]. split; [|by left].
      exists eid, empty_entry. split; [|done]. apply list_lookup_insert_eq. by eapply lookup_lt_Some.
Qed.
End no_exchange.

(** ** Exchange: a reserved entry of [xbid] takes the freed slot *)

Section with_exchange.
Context (s : StalenessInventory) (pid bid xbid : Z) (eid xeid : nat) (b xb : StalenessBuffer) (info xinfo : EntryInfo).
Context (Hwf : all_wf s) (Htr : tracks s) (Hp : data_tracker s !! pid = Some (bid, eid)).
Context (Hb : buffers s !! bid = Some b) (He : entries b !! eid = Some (mkEntry RESERVED (Some info))).
Context (Hxb : buffers s !! xbid = Some xb) (Hxe : entries xb !! xeid = Some (mkEntry RESERVED (Some xinfo))).
Context (Hlt : xbid = bid → (xeid < eid)%nat).

Let ex := mkEntry RESERVED (Some xinfo).
Let swapped := put_slot (bid, eid) ex (buffers s).

Lemma slot_freed : slot_at (buffers s) (bid, eid) = Some (mkEntry RESERVED (Some info)).
Proof. apply slot_at_Some; eauto. Qed.

Lemma slot_exchanged : slot_at (buffers s) (xbid, xeid) = Some ex.
Proof. apply slot_at_Some; eauto. Qed.

Lemma slots_differ : (xbid, xeid) ≠ (bid, eid).
Proof. intros [= H1 H2]. specialize (Hlt H1). lia. Qed.

Lemma swapped_buffer : ∃ xb1, swapped !! xbid = Some xb1 ∧ entries xb1 !! xeid = Some ex ∧
  first_reserved xb1 = first_reserved xb ∧ ready_num_entries xb1 = ready_num_entries xb.
Proof.
  unfold swapped. eexists. rewrite (put_slot_lookup _ _ _ _ _ Hxb). split; [done|]. simpl.
  case_decide as Heq; simpl; [|done]. subst xbid. simplify_eq. specialize (Hlt eq_refl).
  split_and!; [by rewrite list_lookup_insert_ne by lia| |done].
  apply first_reserved_categories. exact (update_info_categories eid _ xinfo _ He).
Qed.

Lemma swapped_wf : all_wf (with_buffers swapped s).
Proof. eapply all_wf_put; [done|done|]. simpl. by eapply (wf_swap_reserved b (proj1 (Hwf _ _ Hb))). Qed.

(** The state after the exchange and before the gap in [xbid] is closed. *)
Definition exchanged := moved (xbid, xeid) (bid, eid) ex (prompt_id xinfo) (removed (bid, eid) pid s).

Lemma exchanged_buffers : buffers exchanged = put_slot (xbid, xeid) empty_entry swapped.
Proof. unfold exchanged, swapped. simpl. by rewrite put_slot_twice. Qed.

Lemma removed_slots :
  slot_at (buffers (removed (bid, eid) pid s)) (xbid, xeid) = Some ex ∧
  slot_at (buffers (removed (bid, eid) pid s)) (bid, eid) = Some empty_entry.
Proof.
  rewrite !(slot_at_removed _ _ _ _ _ slot_freed). split.
  - rewrite decide_False; [apply slot_exchanged|]. intros Heq. by apply slots_differ.
  - by rewrite decide_True.
Qed.

Lemma exchanged_tracks : tracks exchanged.
Proof.
  destruct removed_slots. eapply moved_tracked; [|apply slots_differ|done..].
  eapply removed_tracked; [done|done|apply slot_freed].
Qed.

Lemma exchanged_view q :
  view exchanged q = if decide (q = prompt_id xinfo) then Some (bid, RESERVED, xinfo)
                     else if decide (q = pid) then None else view s q.
Proof.
  destruct removed_slots. unfold exchanged.
  assert (tracks (removed (bid, eid) pid s)) by (eapply removed_tracked; [done|done|apply slot_freed]).
  erewrite view_moved; [|done|apply slots_differ|done..]. simpl. case_decide; [done|]. by rewrite view_removed.
Qed.

Lemma exchanged_ne : prompt_id xinfo ≠ pid.
Proof.
  intros Heq. assert (data_tracker s !! pid = Some (xbid, xeid)) as Hp'.
  { apply Htr, prompt_at_Some. exists RESERVED, xinfo. split; [apply slot_exchanged|done]. }
  apply slots_differ. congruence.
Qed.

(** Closing the gap in [xbid]. *)
Lemma close_gap_run {B} (k : Inv B) :
  ∃ s', ((if bool_decide (first_reserved xb < xeid)%nat then move_entry xbid (first_reserved xb) xbid xeid else mret tt) ;; k) exchanged
      = k s' ∧ (∃ trk, s' = with_tracker trk (with_buffers (vacated xbid xeid (first_reserved xb)
          (bool_decide (first_reserved xb < xeid)%nat) swapped) s)) ∧
    tracks s' ∧ ∀ q, view s' q = view exchanged q.
Proof.
  case_bool_decide as Hgap; last first.
  { exists exchanged. split_and!; [done| |apply exchanged_tracks|done].
    exists (data_tracker exchanged). unfold vacated. rewrite <-exchanged_buffers. done. }
  destruct (release_boundary s xbid xeid xb _ Hwf Hxb Hxe Hgap) as (el & il & Hel & Hr & Hi).
  assert (slot_at (buffers s) (xbid, first_reserved xb) = Some el) as Hsl by (apply slot_at_Some; eauto).
  assert (slot_at swapped (xbid, first_reserved xb) = Some el) as Hsl1.
  { unfold swapped. rewrite (slot_at_put _ _ _ _ _ slot_freed), decide_False; [done|].
    intros [= H1 H2]. symmetry in H1. specialize (Hlt H1). lia. }
  assert (slot_at swapped (xbid, xeid) = Some ex) as Hsx.
  { unfold swapped. rewrite (slot_at_put _ _ _ _ _ slot_freed), decide_False; [apply slot_exchanged|].
    intros Heq. by apply slots_differ. }
  assert (slot_at (buffers exchanged) (xbid, first_reserved xb) = Some el) as Hsl2.
  { rewrite exchanged_buffers, (slot_at_put _ _ _ _ _ Hsx), decide_False; [done|]. intros [= ?]. lia. }
  assert (slot_at (buffers exchanged) (xbid, xeid) = Some empty_entry) as Hsx2.
  { by rewrite exchanged_buffers, (slot_at_put _ _ _ _ _ Hsx), decide_True. }
  assert ((xbid, first_reserved xb) ≠ (xbid, xeid)) as Hne by (intros [= ?]; lia).
  eexists. split; [|split; [|split]].
  - eapply run_move_entry; [|exact Hsl2|exact Hsx2|exact Hi].
    intros b0 Hb0. destruct swapped_buffer as (xb1 & Hxb1 & _).
    rewrite exchanged_buffers, (put_slot_lookup _ _ _ _ _ Hxb1), decide_True in Hb0 by done. simplify_eq/=.
    rewrite length_insert. apply (swapped_wf xbid). exact Hxb1.
  - eexists. unfold vacated. rewrite Hsl1. unfold moved. rewrite exchanged_buffers, put_slot_twice. reflexivity.
  - eapply moved_tracked; [apply exchanged_tracks|done..].
  - intros q. erewrite view_moved; [|apply exchanged_tracks|done..]. case_decide as Hq; [|done]. symmetry. subst q.
    apply view_Some; [apply exchanged_tracks|]. exists (first_reserved xb). split; [|done].
    etrans; [exact Hsl2|]. f_equal. rewrite Hr. by apply entry_eta.
Qed.

Lemma exchange_core trk :
  let s' := with_tracker trk (with_buffers (vacated xbid xeid (first_reserved xb)
              (bool_decide (first_reserved xb < xeid)%nat) swapped) s) in
  tracks s' → core_step ({[xbid]} ∪ {[bid]}) s s' ∧ same_occupied (buffers s) (buffers s') ∧
    ∃ b', buffers s' !! xbid = Some b' ∧ has_empty b'.
Proof.
  destruct swapped_buffer as (xb1 & Hxb1 & Hxe1 & Hfr & Hrd). rewrite <-Hfr. intros s' Htr'.
  pose proof (release_wf (with_buffers swapped s) xbid xeid xb1 ex swapped_wf Hxb1 Hxe1 eq_refl) as Hwf'.
  assert (same_occupied (buffers s) swapped) as Ho1.
  { eapply same_occupied_put; [apply slot_freed|done..]. }
  pose proof (same_occupied_release (with_buffers swapped s) xbid xeid xb1 ex swapped_wf Hxb1 Hxe1 eq_refl) as Ho2.
  split_and!; [|by etrans|].
  - split; simpl; try done.
    + intros x Hx. rewrite (vacated_ne (with_buffers swapped s)) by set_solver. apply put_slot_ne. set_solver.
    + intros x. rewrite <-(vacated_dom (with_buffers swapped s)). simpl. rewrite <-!not_eq_None_Some.
      unfold swapped. by rewrite <-put_slot_None.
  - destruct (release_empty (with_buffers swapped s) xbid xeid xb1 ex swapped_wf Hxb1 Hxe1 eq_refl) as (b' & ? & ? & _).
    by exists b'.
Qed.
End with_exchange.

(** ** The whole operation *)

Section clear_across.
Context `{SetOrder}.
Context (s : StalenessInventory) (st v pid bid : Z) (info : EntryInfo).
Context (Hwf : all_wf s) (Htr : tracks s) (Hwin : window_ok s).
Context (Hval : inv_is_validate s = false) (Hst : inv_staleness s = Some st).
Context (Hview : view s pid = Some (bid, RESERVED, info)) (Hv : get_entry_version info = inr v).

Lemma versions_known x b i e ei :
  buffers s !! x = Some b → entries b !! i = Some e → entry_info e = Some ei → in_window st x ei.
Proof. intros Hb He Hi. eapply (Hwin st (x, i) e); [done..| |done]. apply slot_at_Some; eauto. Qed.

Lemma reserved_window : v ≤ bid ≤ v + st.
Proof.
  destruct (proj1 (window_view s Htr) Hwin st pid bid _ info Hval Hst Hview) as (v' & Hv' & ?).
  assert (v' = v) as -> by congruence. done.
Qed.

(** Every reserved entry of the window of [bid] that precedes [pid] can be exchanged. *)
Lemma exchangeable_here b i e ei eid :
  buffers s !! bid = Some b → data_tracker s !! pid = Some (bid, eid) → entries b !! i = Some e →
  entry_info e = Some ei → i ≠ eid → exchangeable st bid [pid] ei.
Proof.
  intros Hb Hp He Hi Hne. destruct (versions_known _ _ _ _ _ Hb He Hi) as (w & Hw & ?).
  exists w. split_and!; [done|lia|lia|]. intros Heq%list_elem_of_singleton. apply Hne.
  assert (data_tracker s !! pid = Some (bid, i)) as Hp'; [|congruence].
  apply Htr. unfold prompt_at, slot_at. simpl. rewrite Hb. simpl. rewrite He. simpl. rewrite Hi. simpl. congruence.
Qed.

Lemma clear_reserved_move_run U :
  ∃ D s' xbid, clear_reserved_entry true [pid] pid U s = Ret (D ∪ U) s' ∧ core_step D s s' ∧
    freed st v pid bid xbid s s'.
Proof.
  pose proof reserved_window as Hwb.
  destruct (view_slot _ _ _ _ _ Hwf Htr Hview) as (b & eid & Hp & Hb & Hwfb & He & Hs & Hpid).
  destruct (find_exchange_spec st bid [pid] eid (buffers s) (zrange v (Z.min (v + st) bid + 1))) as (r & Hr & Hspec).
  { intros x bx Hx. by apply (Hwf x). }
  { intros x bx i e ei Hx Hi Hei. destruct (versions_known _ _ _ _ _ Hx Hi Hei) as (w & ? & _). eauto. }
  unfold clear_reserved_entry. mrun. rewrite Hp, (run_get_buffer _ _ _ _ Hb), (run_get_entry _ _ _ _ _ Hs). simpl.
  rewrite (run_of_option _ _ info), (run_of_res _ v), (run_of_option _ _ st), (run_of_res _ r) by done.
  assert (∀ b, buffers s !! bid = Some b → length (entries b) = num_entries b) as Hlen.
  { intros b' [Hb' _]%Hwf. apply Hb'. }
  destruct r as [[xbid xeid]|].
  - destruct Hspec as (xb & ex & xinfo & Hin%elem_of_zrange & Hxb & Hxe & Hres & Hxi & Hex & Hnr & Hlt).
    rewrite (entry_eta ex xinfo Hres Hxi) in Hxe.
    rewrite (run_get_buffer _ _ _ _ Hxb). cbv zeta.
    rewrite (run_delete_entry _ _ _ _ _ Hlen Hs), (run_untrack _ (bid, eid)) by done.
    change (with_tracker (delete pid _) _) with (removed (bid, eid) pid s).
    destruct (removed_slots s pid bid xbid eid xeid b xb info xinfo Hb He Hxb Hxe Hlt) as [Hs1 Hs2].
    erewrite run_move_entry; [|..|exact Hs1|exact Hs2|done]; last first.
    { intros b0 Hb0. simpl in Hb0. destruct (buffers s !! xbid) as [b1|] eqn:Hb1; [|done].
      rewrite (put_slot_lookup _ _ _ _ _ Hb1) in Hb0. simplify_eq.
      destruct (Hwf _ _ Hb1) as [Hw _]. case_decide; simpl; rewrite ?length_insert; apply Hw. }
    destruct (close_gap_run s pid bid xbid eid xeid b xb info xinfo Hwf Htr Hp Hb He Hxb Hxe Hlt
      (mret ({[xbid]} ∪ ({[bid]} ∪ U)))) as (s' & Hrun & [trk ->] & Htr' & Hv').
    destruct (exchange_core s pid bid xbid eid xeid b xb info xinfo Hwf Htr Hp Hb He Hxb Hxe Hlt trk Htr')
      as (Hcs & Ho & b' & Hb' & Hemp).
    eexists ({[xbid]} ∪ {[bid]}), _, xbid. split; [|split; [exact Hcs|]].
    { etransitivity; [exact Hrun|]. unfold mret, M_ret. f_equal. set_solver. }
    pose proof (exchanged_ne s pid bid xbid eid xeid xb xinfo Htr Hp Hxb Hxe Hlt) as Hne.
    split; [lia| | |exact Ho|intros x ? ?; apply (cs_same _ _ _ Hcs); set_solver|].
    + rewrite Hv'. erewrite exchanged_view by eauto. by rewrite decide_False, decide_True.
    + intros q Hq. rewrite Hv'. erewrite exchanged_view by eauto. rewrite (decide_False (P := q = pid)) by done.
      destruct (decide (q = prompt_id xinfo)) as [Hqx|]; [|by left].
      right. subst q. exists xinfo. destruct Hex as (w & Hw & Hrange & _). split_and!; [|done|exists w; split; [done|lia]].
      apply view_Some; [done|]. exists xeid. split; [apply slot_at_Some; eauto|done].
    + exists b'. split_and!; [done..|]. right.
      destruct (same_occupied_lookup _ _ _ _ _ Ho Hxb Hb') as [-> ->]. done.
  - rewrite (run_delete_entry _ _ _ _ _ Hlen Hs), (run_untrack _ (bid, eid)) by done.
    destruct (drop_boundary_freed s st v pid bid eid b info Hwf Htr Hp Hb He) as [Hcs Hfr]; [|lia|].
    + intros Hnr i e Hi Hei Hres. destruct (entry_info e) as [ei|] eqn:Hinfo.
      * eapply (Hspec bid b i e ei); [apply elem_of_zrange; lia|done..|eapply exchangeable_here; try done; lia].
      * apply (wf_info _ Hwfb _ _ Hei) in Hinfo. congruence.
    + exists {[bid]}, (removed (bid, eid) pid s), bid. done.
Qed.

Lemma freed_window xbid s' : tracks s' → config s' = config s → freed st v pid bid xbid s s' → window_ok s'.
Proof.
  intros Htr' Hcfg [_ Hgone Hoth _ _ _]. apply window_view; [done|].
  pose proof (proj1 (window_view s Htr) Hwin) as Hw. unfold config in Hcfg. injection Hcfg as Hs' _ _ _ Hv'.
  rewrite Hs', Hv', Hst. intros st' q x c ei _ [= <-] Hq. destruct (decide (q = pid)) as [->|Hne]; [congruence|].
  destruct (Hoth q Hne) as [Heq|(iq & _ & Heq & ?)]; [|congruence].
  rewrite Heq in Hq. by eapply (Hw st q).
Qed.
End clear_across.

Lemma clear_across_run `{SetOrder} s st v pid bid info :
  inv_ok s → window_ok s → inv_is_validate s = false → inv_staleness s = Some st →
  view s pid = Some (bid, RESERVED, info) → get_entry_version info = inr v →
  ∃ s' xbid, clear_reserved_entries [pid] true s = Ret tt s' ∧ inv_ok s' ∧ window_ok s' ∧ config s' = config s ∧
    buffer_id s' = buffer_id s ∧ freed st v pid bid xbid s s'.
Proof.
  intros Hok Hwin Hval Hst Hview Hv.
  destruct (clear_reserved_move_run s st v pid bid info (ok_wf _ Hok) (ok_tracked _ Hok) Hwin Hval Hst Hview Hv ∅)
    as (D & s1 & xbid & Hrun & Hcs & Hfr).
  replace (D ∪ ∅) with D in Hrun by set_solver.
  destruct (core_step_refresh D s s1 Hok Hcs) as (f & Hf & Hok').
  exists (with_by_status f s1), xbid. split_and!; [|done| |apply Hcs|apply Hcs|].
  - unfold clear_reserved_entries. mrun. rewrite Hval. simpl. rewrite !run_assoc, (run_bind _ _ _ _ _ Hrun). mrun. done.
  - eapply (freed_window s st v pid bid); [apply Hok|done|done|done|exact (cs_tracked _ _ _ Hcs)|exact (cs_config _ _ _ Hcs)|by destruct Hfr].
  - by destruct Hfr.
Qed.
