(* ===== verification/InventoryOccupy.v ===== *)
(** * Occupying entries

    Proves that [occupy_data_with_reserve] turns a reservation into an occupied
    entry in the least buffer that can still take it, never later than the
    buffer reserved for it, within the staleness window; and what its
    redundant-rollout branches do. *)

From S2P Require Import Prelude.
From S2P Require Import StalenessBuffer.
From S2P Require Import StalenessInventory.
From S2P Require Import InventoryInv.
From S2P Require Import InventoryReserve.
From S2P Require Import InventoryClear.
From S2P Require Import InventoryExchange.

Lemma first_non_occupied_next b info :
  wf_buffer b → (get_first_non_occupied b < ready_num_entries b)%nat →
  get_first_non_occupied (with_entries (<[get_first_non_occupied b := mkEntry OCCUPIED (Some info)]> (entries b)) b)
  = S (get_first_non_occupied b).
Proof.
  intros Hwf Hf. pose proof (wf_occupy b Hwf info Hf) as Hwf'. set (f := get_first_non_occupied b) in *.
  set (b' := with_entries _ b) in *.
  assert (f < length (entries b))%nat as Hlen by (rewrite (wf_length _ Hwf); pose proof (wf_ready _ Hwf); lia).
  assert (f < get_first_non_occupied b')%nat.
  { apply (first_non_occupied_spec b' f (mkEntry OCCUPIED (Some info)) Hwf'); [|done].
    by apply list_lookup_insert_eq. }
  destruct (decide (S f < get_first_non_occupied b')%nat) as [Hlt|]; [exfalso|lia].
  pose proof (first_non_occupied_le_ready b' Hwf') as Hle. simpl in Hle.
  destruct (lookup_lt_is_Some_2 (entries b) (S f)) as [e He].
  { rewrite (wf_length _ Hwf). pose proof (wf_ready _ Hwf). lia. }
  assert (entries b' !! S f = Some e) as He' by (unfold b'; simpl; by rewrite list_lookup_insert_ne by lia).
  apply (first_non_occupied_spec b' (S f) e Hwf') in Hlt; [|done].
  apply (first_non_occupied_spec b (S f) e Hwf He) in Hlt. lia.
Qed.

(** [s'] is [s] with the prompt of [info] occupying a slot of [bid]. *)
Definition with_occupied (bid : Z) (info : EntryInfo) (s s' : StalenessInventory) : Prop :=
  ∀ q, view s' q = if decide (q = prompt_id info) then Some (bid, OCCUPIED, info) else view s q.

(** A slot of [bid] that can be occupied: the first slot that is not occupied
    is empty and below the ready threshold. *)
Definition occupiable (s : StalenessInventory) (bid : Z) : Prop :=
  ∃ b, buffers s !! bid = Some b ∧ has_empty b ∧ (get_first_non_occupied b < ready_num_entries b)%nat.

Section occupy.
Context `{SetOrder}.
Implicit Types (s : StalenessInventory) (bid pid : Z) (info : EntryInfo).

Lemma view_placed s pos e0 c info q :
  tracks s → data_tracker s !! prompt_id info = None → slot_at (buffers s) pos = Some e0 → entry_info e0 = None →
  view (with_tracker (<[prompt_id info := pos]> (data_tracker s))
    (with_buffers (put_slot pos (mkEntry c (Some info)) (buffers s)) s)) q =
  if decide (q = prompt_id info) then Some (pos.1, c, info) else view s q.
Proof.
  intros Htr Hnone Hs He0. unfold view. simpl. rewrite lookup_insert.
  case_decide; case_decide; try congruence; simpl.
  - by rewrite (slot_at_put _ _ _ _ _ Hs), decide_True.
  - destruct (data_tracker s !! q) as [pos'|] eqn:Hq; simpl; [|done].
    rewrite (slot_at_put _ _ _ _ _ Hs), decide_False; [done|]. intros <-.
    apply Htr, prompt_at_Some in Hq as (c' & iq & Hsq & _). simplify_eq/=.
Qed.

(** The cache may be out of date on the buffer that is occupied. *)
Lemma occupy_slot_core s bid b e0 info :
  all_wf s → tracks s → cache_ok {[bid]} s →
  buffers s !! bid = Some b → (get_first_non_occupied b < ready_num_entries b)%nat →
  entries b !! get_first_non_occupied b = Some e0 → empty e0 → data_tracker s !! prompt_id info = None →
  ∃ s1 f, occupy_slot bid (get_first_non_occupied b) info s =
      Ret (bid, get_first_non_occupied b, S (get_first_non_occupied b)) (with_by_status f s1) ∧
    core_step {[bid]} s s1 ∧ cache_ok ∅ (with_by_status f s1) ∧ with_occupied bid info s s1 ∧
    data_tracker s1 !! prompt_id info = Some (bid, get_first_non_occupied b) ∧
    ∃ b1, buffers s1 !! bid = Some b1 ∧ get_first_non_occupied b1 = S (get_first_non_occupied b).
Proof.
  intros Hwf Htr Hc Hb Hlt He Hemp Hnone. destruct (Hwf _ _ Hb) as [Hwfb _].
  assert (slot_at (buffers s) (bid, get_first_non_occupied b) = Some e0) as Hs by (apply slot_at_Some; eauto).
  pose proof (place_core s bid _ e0 b OCCUPIED info Hwf Htr Hb He Hemp Hnone (wf_occupy b Hwfb info Hlt)) as Hcs.
  destruct (update_buffer_status_run ∅ bid _ (λ b0 Hb0, proj1 (cs_wf _ _ _ Hcs bid b0 Hb0))) as (f & Hf & Hok').
  { replace ({[bid]} ∪ ∅) with ({[bid]} ∪ {[bid]} : gset Z) by set_solver.
    eapply (cache_dirty {[bid]} {[bid]} s); [apply Hcs|apply Hcs|apply Hcs|done]. }
  eexists _, f. split; [|split; [exact Hcs|split; [exact Hok'|]]].
  - unfold occupy_slot. rewrite (run_insert_entry _ _ _ _ e0) by done.
    unfold track. rewrite run_modify. erewrite run_get_buffer; last first.
    { simpl. by rewrite (put_slot_lookup _ _ _ _ _ Hb), decide_True. }
    cbv zeta. rewrite (run_bind _ _ _ _ _ Hf). simpl. by rewrite first_non_occupied_next.
  - split; [|split; [simpl; by rewrite lookup_insert_eq|]]; last first.
    { eexists. split; [simpl; by rewrite (put_slot_lookup _ _ _ _ _ Hb), decide_True|].
      by apply (first_non_occupied_next b info). }
    intros q. eapply (view_placed s (bid, get_first_non_occupied b)); [done|done|done|].
    by apply (wf_info _ Hwfb _ _ He).
Qed.

Lemma occupy_slot_run s bid b e0 info :
  inv_ok s → buffers s !! bid = Some b → (get_first_non_occupied b < ready_num_entries b)%nat →
  entries b !! get_first_non_occupied b = Some e0 → empty e0 → data_tracker s !! prompt_id info = None →
  ∃ s', occupy_slot bid (get_first_non_occupied b) info s =
      Ret (bid, get_first_non_occupied b, S (get_first_non_occupied b)) s' ∧ inv_ok s' ∧
    config s' = config s ∧ buffer_id s' = buffer_id s ∧ with_occupied bid info s s' ∧
    data_tracker s' !! prompt_id info = Some (bid, get_first_non_occupied b) ∧
    ∃ b1, buffers s' !! bid = Some b1 ∧ get_first_non_occupied b1 = S (get_first_non_occupied b).
Proof.
  intros Hok Hb Hlt He Hemp Hnone.
  destruct (occupy_slot_core s bid b e0 info) as (s1 & f & Hrun & Hcs & Hc & Hw & Hpos & Hcount); try done; try apply Hok.
  { eapply (core_step_cache _ s s); [done|]. eapply (core_step_weaken ∅); [set_solver|by apply core_step_refl]. }
  exists (with_by_status f s1). split_and!; [done|by eapply core_step_inv|apply Hcs|apply Hcs|done|done|done].
Qed.

(** Placement in the least candidate. *)
Lemma occupy_least_run s cands info bid :
  inv_ok s → data_tracker s !! prompt_id info = None → bid ∈ cands →
  (∀ x, x ∈ cands → occupiable s x) →
  ∃ tgt eid s', occupy_least cands info s = Ret (tgt, eid, S eid) s' ∧ inv_ok s' ∧ config s' = config s ∧
    buffer_id s' = buffer_id s ∧ tgt ∈ cands ∧ (∀ x, x ∈ cands → tgt ≤ x) ∧ with_occupied tgt info s s' ∧
    data_tracker s' !! prompt_id info = Some (tgt, eid) ∧ ∃ b, buffers s' !! tgt = Some b ∧ occupied_count b = S eid.
Proof.
  intros Hok Hnone Hbid Hall. destruct (list_min cands) as [tgt|] eqn:Hmin; last first.
  { apply list_min_None in Hmin. subst. set_solver. }
  apply list_min_Some in Hmin as Hm. destruct Hm as [Hin Hleast].
  destruct (Hall tgt Hin) as (b & Hb & Hemp & Hlt). destruct (ok_wf _ Hok _ _ Hb) as [Hwfb _].
  destruct (first_non_occupied_empty b Hwfb Hlt Hemp) as (e0 & He0 & He0').
  destruct (occupy_slot_run s tgt b e0 info) as (s' & Hrun & Hok' & Hcfg & Hnext & Hw & Hpos & b1 & Hb1 & Hcount); [done..|].
  exists tgt, (get_first_non_occupied b), s'. split_and!; try done; last first.
  { exists b1. split; [done|]. rewrite first_non_occupied_count; [done|]. by destruct (ok_wf _ Hok' _ _ Hb1). }
  unfold occupy_least. rewrite (run_of_option _ _ tgt), (run_get_buffer _ _ _ _ Hb) by done. cbv zeta.
  rewrite run_assert_decide by done. rewrite (run_get_entry _ _ e0) by (apply slot_at_Some; eauto).
  by rewrite run_assert_decide.
Qed.

(** The candidates of a placement are the buffers of the window with an
    occupiable slot. *)
Lemma occupy_candidates s v st bid :
  inv_ok s → bid ∈ filter (occupy_candidate s v st) (elements (get_buffers_with_capacity s)) ↔
    v ≤ bid ≤ v + st ∧ occupiable s bid.
Proof.
  intros Hok. rewrite list_elem_of_filter, elem_of_elements, (elem_of_with_capacity s Hok).
  unfold occupy_candidate, occupiable. destruct (buffers s !! bid) as [b|]; naive_solver.
Qed.

(** [self.staleness] is read only when there is a buffer to compare with. *)
Lemma run_staleness {B} s st (X : list Z) (k : Z → Inv B) :
  inv_staleness s = Some st → X ≠ [] →
  (match X with [] => mret 0 | _ => of_option TypeError (inv_staleness s) end ≫= k) s = k st s.
Proof. intros Hst Hne. destruct X; [done|]. mrun. by rewrite Hst. Qed.

Lemma with_occupied_window s s' st v bid info :
  tracks s → tracks s' → config s' = config s → inv_staleness s = Some st →
  get_entry_version info = inr v → v ≤ bid ≤ v + st → with_occupied bid info s s' → window_ok s → window_ok s'.
Proof.
  intros Htr Htr' Hcfg Hst Hv Hr Hocc Hwin. apply window_view; [done|].
  pose proof (proj1 (window_view s Htr) Hwin) as Hw. unfold config in Hcfg. injection Hcfg as Hs' _ _ _ Hv'.
  rewrite Hs', Hv', Hst. intros st' q x c ei Hval [= <-]. rewrite Hocc. case_decide as Hq; [|by eapply Hw].
  intros [= <- <- <-]. by exists v.
Qed.
End occupy.

(** ** Occupying with a reservation below the ready threshold *)

Section primary.
Context `{SetOrder}.
Context (s : StalenessInventory) (st v pid bid : Z) (eid : nat) (b : StalenessBuffer) (info : EntryInfo).
Context (Hok : inv_ok s) (Hwin : window_ok s).
Context (Hval : inv_is_validate s = false) (Hst : inv_staleness s = Some st).
Context (Hp : data_tracker s !! pid = Some (bid, eid)) (Hb : buffers s !! bid = Some b).
Context (He : entries b !! eid = Some (mkEntry RESERVED (Some info))) (Hv : get_entry_version info = inr v).
Context (Hprim : (eid < ready_num_entries b)%nat).

Lemma primary_slot : slot_at (buffers s) (bid, eid) = Some (mkEntry RESERVED (Some info)).
Proof. apply slot_at_Some; eauto. Qed.

Lemma primary_view : view s pid = Some (bid, RESERVED, info).
Proof. unfold view. rewrite Hp. simpl. by rewrite primary_slot. Qed.

Lemma primary_prompt : prompt_id info = pid.
Proof.
  pose proof primary_view as (? & ? & ?)%view_Some; [done|apply Hok].
Qed.

Lemma primary_window : v ≤ bid ≤ v + st.
Proof. exact (reserved_window s st v pid bid info (ok_tracked _ Hok) Hwin Hval Hst primary_view Hv). Qed.

Lemma primary_below : (get_first_non_occupied b < ready_num_entries b)%nat.
Proof.
  destruct (ok_wf _ Hok _ _ Hb) as [Hwfb _].
  destruct (decide (eid < get_first_non_occupied b)%nat) as [Hlt|]; [|lia].
  apply (first_non_occupied_spec b eid _ Hwfb He) in Hlt. done.
Qed.

Lemma primary_possible : have_possible_occupy_target s v = inr true.
Proof.
  unfold have_possible_occupy_target. rewrite Hval, Hst. f_equal. apply existsb_exists. exists bid.
  pose proof primary_window. rewrite <-list_elem_of_In. split; [apply elem_of_zrange; lia|].
  rewrite Hb. apply bool_decide_eq_true, primary_below.
Qed.

(** Once the reservation is released, some buffer no later than [bid] can take it. *)
Lemma freed_occupiable xbid s' :
  freed st v pid bid xbid s s' → occupiable s' xbid ∧ v ≤ xbid ≤ bid.
Proof.
  intros Hfr. split; [|apply Hfr]. destruct (fr_slot _ _ _ _ _ _ _ Hfr) as (b' & Hb' & Hemp & Hor).
  exists b'. split_and!; [done|done|]. destruct Hor as [->|]; [|done].
  destruct (same_occupied_lookup _ _ _ _ _ (fr_occupied _ _ _ _ _ _ _ Hfr) Hb Hb') as [-> ->]. apply primary_below.
Qed.

Lemma occupiable_after xbid s' x :
  freed st v pid bid xbid s s' → occupiable s x → x ≠ bid → x ≠ xbid → occupiable s' x.
Proof.
  intros Hfr (bx & Hbx & Hr) Hne Hne'. exists bx. split; [|done]. by rewrite (fr_same _ _ _ _ _ _ _ Hfr).
Qed.

Lemma occupy_primary_run :
  ∃ tgt teid s', occupy_data_with_reserve pid s = Ret (tgt, teid, S teid) s' ∧ inv_ok s' ∧ window_ok s' ∧
    config s' = config s ∧ buffer_id s' = buffer_id s ∧ v ≤ tgt ≤ bid ∧
    view s' pid = Some (tgt, OCCUPIED, info) ∧ data_tracker s' !! pid = Some (tgt, teid) ∧
    (∀ x, v ≤ x ≤ v + st → occupiable s x → tgt ≤ x) ∧
    (∀ q, q ≠ pid → view s' q = view s q ∨
      ∃ xb iq, tgt ≤ xb ≤ bid ∧ view s q = Some (xb, RESERVED, iq) ∧ view s' q = Some (bid, RESERVED, iq)) ∧
    ∃ b', buffers s' !! tgt = Some b' ∧ occupied_count b' = S teid.
Proof.
  pose proof primary_window as Hwb. pose proof primary_prompt as Hpid.
  destruct (clear_across_run s st v pid bid info Hok Hwin Hval Hst primary_view Hv)
    as (s1 & xbid & Hclr & Hok1 & Hwin1 & Hcfg1 & Hnext1 & Hfr).
  pose proof Hcfg1 as Hc. unfold config in Hc. injection Hc as Hst1 _ _ _ Hval1. rewrite Hst in Hst1. rewrite Hval in Hval1.
  destruct (freed_occupiable xbid s1 Hfr) as [Hox Hrx].
  assert (is_Some (buffers s1 !! bid)) as [b1 Hb1].
  { destruct (fr_occupied _ _ _ _ _ _ _ Hfr bid b Hb) as (b' & ? & _). eauto. }
  destruct (same_occupied_lookup _ _ _ _ _ (fr_occupied _ _ _ _ _ _ _ Hfr) Hb Hb1) as [Hr1 _].
  assert (data_tracker s1 !! prompt_id info = None) as Hnone.
  { rewrite Hpid. apply eq_None_not_Some. rewrite <-view_tracked by apply Hok1. by rewrite (fr_gone _ _ _ _ _ _ _ Hfr). }
  set (cands := filter (occupy_candidate s1 v st) (elements (get_buffers_with_capacity s1))).
  assert (∀ x, x ∈ cands ↔ v ≤ x ≤ v + st ∧ occupiable s1 x) as Hcand by (intros x; by apply occupy_candidates).
  destruct (occupy_least_run s1 cands info xbid) as (tgt & teid & s2 & Hrun & Hok2 & Hcfg2 & Hnext2 & Htgt & Hmin & Hocc & Hpos & Hcount); [done|done| | |].
  { apply Hcand. split; [lia|done]. }
  { intros x Hx. by apply Hcand in Hx as [_ ?]. }
  assert (tgt ≤ xbid) as Hle by (apply Hmin, Hcand; split; [lia|done]).
  apply Hcand in Htgt as [Htv _].
  exists tgt, teid, s2. split_and!; try done; try congruence; try lia.
  - unfold occupy_data_with_reserve. mrun. rewrite (run_of_option _ _ (bid, eid)) by done.
    rewrite (run_get_info _ _ _ info _ _ primary_slot) by done.
    rewrite (run_of_res _ v), (run_of_res _ true), run_assert by (done || apply primary_possible).
    rewrite Hval. simpl negb. rewrite (run_bind _ _ _ _ _ Hclr). mrun. rewrite (run_get_buffer _ _ _ _ Hb1). cbv zeta.
    rewrite bool_decide_true by (rewrite Hr1; done). rewrite Hval1. rewrite run_assoc, (run_staleness _ st); [exact Hrun|done|].
    intros Hnil. assert (xbid ∈ cands) as Hx by (apply Hcand; split; [lia|done]). unfold cands in Hx. rewrite Hnil in Hx. set_solver.
  - eapply with_occupied_window; [apply Hok1|apply Hok2|done|done|done|done|done|done].
  - rewrite Hocc. by rewrite decide_True.
  - intros x Hx Ho. destruct (decide (x = bid)) as [->|]; [lia|]. destruct (decide (x = xbid)) as [->|]; [done|].
    apply Hmin, Hcand. split; [done|]. by eapply occupiable_after.
  - intros q Hq. rewrite Hocc, decide_False by congruence.
    destruct (fr_other _ _ _ _ _ _ _ Hfr q Hq) as [->|(iq & Hq1 & Hq2 & _)]; [by left|]. right. exists xbid, iq. split; [lia|done].
Qed.
End primary.

(** ** Redundant rollouts

    A reservation at or above the ready threshold is redundant: its result
    takes the place of another reservation when no slot is empty. *)

Section redundant.
Context `{SetOrder}.
Implicit Types (s : StalenessInventory) (bid pid : Z) (info : EntryInfo).

(** The first slot of a full buffer below the threshold is its boundary. *)
Lemma stuck_boundary b e :
  wf_buffer b → (get_first_non_occupied b < ready_num_entries b)%nat →
  entries b !! get_first_non_occupied b = Some e → reserved e →
  first_reserved b = get_first_non_occupied b.
Proof.
  intros Hwf Hlt He Hres. set (f := get_first_non_occupied b) in *.
  destruct (decide (first_reserved b < f)%nat) as [Hl|Hge].
  - destruct (lookup_lt_is_Some_2 (entries b) (first_reserved b)) as [e' He']; [apply lookup_lt_Some in He; lia|].
    pose proof (first_reserved_above b _ e' ltac:(done) He') as Hr'.
    apply (first_non_occupied_spec b _ e' Hwf He') in Hl. congruence.
  - destruct (decide (first_reserved b = f)); [done|exfalso].
    destruct (first_reserved_below b) as (e' & He' & Hn); [lia|]. apply Hn.
    destruct (decide (f = pred (first_reserved b))) as [Heq|]; [rewrite <-Heq in He'; by simplify_eq|].
    by eapply (wf_reserved_suffix b Hwf f (pred (first_reserved b))); [lia|lia|..].
Qed.

(** Vacating the first slot of a stuck buffer into an earlier one. *)
Lemma vacate_first_run s bid xbid b xb e xe i info {B} (k : Inv B) :
  inv_ok s → xbid ≠ bid → buffers s !! bid = Some b → buffers s !! xbid = Some xb →
  (get_first_non_occupied b < ready_num_entries b)%nat →
  entries b !! get_first_non_occupied b = Some e → reserved e → entry_info e = Some info →
  get_last_non_reserved xb = Z.of_nat i → entries xb !! i = Some xe → empty xe →
  ∃ s1, (move_entry bid (get_first_non_occupied b) xbid i ;; k) s = k s1 ∧
    core_step ({[bid]} ∪ {[xbid]}) s s1 ∧
    buffers s1 !! bid = Some (with_entries (<[get_first_non_occupied b := empty_entry]> (entries b)) b) ∧
    ∀ q, view s1 q = if decide (q = prompt_id info) then Some (xbid, RESERVED, info) else view s q.
Proof.
  intros Hok Hne Hb Hxb Hlt He Hres Hi Hlast Hxe Hemp.
  destruct (ok_wf _ Hok _ _ Hb) as [Hwfb _]. destruct (ok_wf _ Hok _ _ Hxb) as [Hwfx _].
  assert (slot_at (buffers s) (bid, get_first_non_occupied b) = Some e) as Hs by (apply slot_at_Some; eauto).
  assert (slot_at (buffers s) (xbid, i) = Some xe) as Hsx by (apply slot_at_Some; eauto).
  assert (entry_info xe = None) as Hxi by (by apply (wf_info _ Hwfx _ _ Hxe)).
  assert ((bid, get_first_non_occupied b) ≠ (xbid, i)) as Hpos by congruence.
  pose proof (entry_eta e info Hres Hi) as Heq.
  assert (put_slot (xbid, i) e (buffers s) !! bid = Some b) as Hb1 by (by rewrite put_slot_ne).
  eexists. split; [|split; [|split]].
  - eapply run_move_entry; [|exact Hs|exact Hsx|exact Hi]. intros b0 Hb0. simplify_eq. apply Hwfb.
  - split; simpl; try done.
    + intros x Hx. rewrite !put_slot_ne; [done|simpl; set_solver..].
    + intros x. rewrite <-!not_eq_None_Some. by rewrite <-!put_slot_None.
    + assert (all_wf (with_buffers (put_slot (xbid, i) e (buffers s)) s)) as Hwf1.
      { eapply all_wf_put; [apply Hok|exact Hxb|]. rewrite Heq. by eapply (wf_reserve xb Hwfx). }
      pose proof (all_wf_put _ (bid, get_first_non_occupied b) empty_entry b Hwf1 Hb1) as Hwf2.
      apply Hwf2. simpl. eapply (wf_drop_reserved b Hwfb); [done..|]. left. symmetry. by eapply stuck_boundary.
    + eapply moved_tracked; [apply Hok|done..].
  - simpl. by rewrite (put_slot_lookup _ _ _ _ _ Hb1), decide_True.
  - intros q. erewrite view_moved; [|apply Hok|done..]. by rewrite Hres.
Qed.

(** The displacement: the reservation in the first slot moves to an earlier
    buffer and the redundant result takes the slot. *)
Lemma displace_run s info bid xbid b xb e xe i einfo :
  inv_ok s → data_tracker s !! prompt_id info = None → xbid < bid →
  buffers s !! bid = Some b → buffers s !! xbid = Some xb →
  (get_first_non_occupied b < ready_num_entries b)%nat →
  entries b !! get_first_non_occupied b = Some e → reserved e → entry_info e = Some einfo →
  get_last_non_reserved xb = Z.of_nat i → entries xb !! i = Some xe → empty xe →
  ∃ s', (move_entry bid (get_first_non_occupied b) xbid i ;; update_buffer_status xbid ;;
      res ← occupy_slot bid (get_first_non_occupied b) info; mret (Some res)) s =
      Ret (Some (bid, get_first_non_occupied b, S (get_first_non_occupied b))) s' ∧ inv_ok s' ∧
    config s' = config s ∧ buffer_id s' = buffer_id s ∧ view s' (prompt_id info) = Some (bid, OCCUPIED, info) ∧
    (∀ q, q ≠ prompt_id info → view s' q = view s q ∨
      ∃ iq, view s q = Some (bid, RESERVED, iq) ∧ view s' q = Some (xbid, RESERVED, iq)).
Proof.
  intros Hok Hnone Hltx Hb Hxb Hlt He Hres Hei Hlast Hxe Hxemp.
  match goal with |- context [ (move_entry _ _ _ _ ;; ?K) s ] =>
    destruct (vacate_first_run s bid xbid b xb e xe i einfo K) as (s1 & -> & Hcs & Hb1 & Hv1); try done; [lia|] end.
  destruct (update_buffer_status_run {[bid]} xbid s1) as (f & Hf & Hc1).
  { intros b0 Hb0. by apply (cs_wf _ _ _ Hcs xbid). }
  { replace ({[xbid]} ∪ {[bid]}) with ({[bid]} ∪ {[xbid]} : gset Z) by set_solver. by eapply core_step_cache. }
  rewrite (run_bind _ _ _ _ _ Hf).
  assert (prompt_id einfo ≠ prompt_id info) as Hpe.
  { intros Heq. assert (data_tracker s !! prompt_id info = Some (bid, get_first_non_occupied b)); [|congruence].
    apply (ok_tracked _ Hok), prompt_at_Some. exists RESERVED, einfo. split; [|done].
    rewrite <-(entry_eta e einfo) by done. apply slot_at_Some. eauto. }
  set (b1 := with_entries _ b) in Hb1.
  assert (get_first_non_occupied b1 = get_first_non_occupied b) as Hf1.
  { apply first_non_occupied_same; [by rewrite length_insert|]. intros j x x' Hx Hx'. slot_cases; split; congruence. }
  destruct (occupy_slot_core (with_by_status f s1) bid b1 empty_entry info) as (s2 & g & Hrun & Hcs2 & Hc2 & Hw2 & _);
    [apply Hcs|apply Hcs|done|exact Hb1|by rewrite Hf1| |done| |].
  { rewrite Hf1. unfold b1. simpl. apply list_lookup_insert_eq. by eapply lookup_lt_Some. }
  { apply eq_None_not_Some. simpl. rewrite <-view_tracked by apply Hcs. rewrite Hv1, decide_False by congruence.
    rewrite view_tracked by apply Hok. rewrite Hnone. by intros []. }
  rewrite Hf1 in Hrun. exists (with_by_status g s2). rewrite (run_bind _ _ _ _ _ Hrun).
  assert (core_step ({[bid]} ∪ {[xbid]}) s (with_by_status (buffer_ids_by_status s) s2)) as Hcs3.
  { split; [etrans; [apply Hcs2|apply Hcs]|etrans; [apply Hcs2|apply Hcs]|done|etrans; [apply Hcs2|apply Hcs]| | |apply Hcs2|apply Hcs2].
    - intros x Hx. etrans; [apply (cs_same _ _ _ Hcs2); set_solver|]. by apply (cs_same _ _ _ Hcs).
    - intros x. etrans; [apply (cs_dom _ _ _ Hcs)|apply (cs_dom _ _ _ Hcs2)]. }
  split_and!; [done| | | | |].
  - change (with_by_status g s2) with (with_by_status g (with_by_status (buffer_ids_by_status s) s2)).
    by eapply core_step_inv.
  - exact (cs_config _ _ _ Hcs3).
  - exact (cs_next _ _ _ Hcs3).
  - etransitivity; [exact (Hw2 _)|]. by rewrite decide_True.
  - intros q Hq. assert (view (with_by_status g s2) q = view s1 q) as ->.
    { etransitivity; [exact (Hw2 q)|]. by rewrite decide_False. }
    rewrite Hv1. destruct (decide (q = prompt_id einfo)) as [->|]; [|by left]. right. exists einfo. split; [|done].
    apply view_Some; [apply Hok|]. exists (get_first_non_occupied b). split; [|done].
    rewrite <-(entry_eta e einfo) by done. apply slot_at_Some. eauto.
Qed.

(** What one candidate of a redundant result does. *)
Lemma occupy_redundant_at_run s info bid b :
  inv_ok s → data_tracker s !! prompt_id info = None → buffers s !! bid = Some b →
  (get_first_non_occupied b < ready_num_entries b)%nat →
  (occupy_redundant_at (get_buffers_with_capacity s) info bid s = Ret None s ∧ ¬ has_empty b) ∨
  ∃ s', occupy_redundant_at (get_buffers_with_capacity s) info bid s =
      Ret (Some (bid, get_first_non_occupied b, S (get_first_non_occupied b))) s' ∧ inv_ok s' ∧
    config s' = config s ∧ buffer_id s' = buffer_id s ∧ view s' (prompt_id info) = Some (bid, OCCUPIED, info) ∧
    (∀ q, q ≠ prompt_id info → view s' q = view s q ∨
      ∃ xbid iq, xbid < bid ∧ view s q = Some (bid, RESERVED, iq) ∧ view s' q = Some (xbid, RESERVED, iq)).
Proof.
  intros Hok Hnone Hb Hlt. destruct (ok_wf _ Hok _ _ Hb) as [Hwfb _].
  destruct (lookup_lt_is_Some_2 (entries b) (get_first_non_occupied b)) as [e He].
  { rewrite (wf_length _ Hwfb). pose proof (wf_ready _ Hwfb). lia. }
  unfold occupy_redundant_at. rewrite (run_get_buffer _ _ _ _ Hb). cbv zeta.
  rewrite run_assert_decide by done. rewrite (run_get_entry _ _ e) by (apply slot_at_Some; eauto).
  case_bool_decide as Hemp.
  { right. destruct (occupy_slot_run s bid b e info) as (s' & Hrun & Hok' & Hcfg & Hnext & Hw & _); try done.
    exists s'. rewrite (run_bind _ _ _ _ _ Hrun). split_and!; try done; [by rewrite Hw, decide_True|].
    intros q Hq. left. by rewrite Hw, decide_False. }
  assert (reserved e) as Hres.
  { destruct (category_cases e) as [?|[?|Ho]]; [done|done|]. by destruct (first_non_occupied_at b e Hwfb He). }
  rewrite run_assert_decide by done. mrun.
  destruct (list_max _) as [xbid|] eqn:Hmax; last first.
  { left. split; [done|]. intros Hhas. destruct (first_non_occupied_empty b Hwfb Hlt Hhas) as (e' & ? & ?). congruence. }
  right. apply list_max_Some in Hmax as [[[Hltx _] Hcap%elem_of_elements]%list_elem_of_filter _].
  apply (elem_of_with_capacity s Hok) in Hcap as (xb & Hxb & Hhas). destruct (ok_wf _ Hok _ _ Hxb) as [Hwfx _].
  destruct (last_non_reserved_empty xb Hwfx Hhas) as (i & xe & Hlast & Hxe & Hxemp).
  destruct (entry_info e) as [einfo|] eqn:Hei; last first.
  { apply (wf_info _ Hwfb _ _ He) in Hei. congruence. }
  rewrite (run_get_buffer _ _ _ _ Hxb). cbv zeta. rewrite Hlast, Nat2Z.id.
  rewrite run_assert_decide by lia. rewrite (run_get_entry _ _ xe) by (apply slot_at_Some; eauto).
  rewrite run_assert_decide by done.
  destruct (displace_run s info bid xbid b xb e xe i einfo) as (s' & Hrun & ? & ? & ? & ? & Hoth); try done.
  exists s'. split_and!; try done. intros q Hq. destruct (Hoth q Hq) as [?|(iq & ? & ?)]; [by left|]. right. by exists xbid, iq.
Qed.

(** The search over the candidates succeeds as soon as one has an empty slot. *)
Lemma occupy_redundant_run s info bids x :
  inv_ok s → data_tracker s !! prompt_id info = None → x ∈ bids → occupiable s x →
  (∀ bid, bid ∈ bids → ∃ b, buffers s !! bid = Some b ∧ (get_first_non_occupied b < ready_num_entries b)%nat) →
  ∃ tgt eid s', occupy_redundant (get_buffers_with_capacity s) info bids s = Ret (Some (tgt, eid, S eid)) s' ∧
    tgt ∈ bids ∧ inv_ok s' ∧ config s' = config s ∧ buffer_id s' = buffer_id s ∧
    view s' (prompt_id info) = Some (tgt, OCCUPIED, info) ∧
    (∀ q, q ≠ prompt_id info → view s' q = view s q ∨
      ∃ xbid iq, xbid < tgt ∧ view s q = Some (tgt, RESERVED, iq) ∧ view s' q = Some (xbid, RESERVED, iq)).
Proof.
  intros Hok Hnone Hx Hocc Hall. induction bids as [|bid bids IH]; [set_solver|]. simpl.
  destruct (Hall bid) as (b & Hb & Hlt); [set_solver|].
  destruct (occupy_redundant_at_run s info bid b Hok Hnone Hb Hlt) as [[Hrun Hfull]|(s' & Hrun & ? & ? & ? & ? & ?)].
  - rewrite (run_bind _ _ _ _ _ Hrun).
    assert (x ∈ bids) as Hx'.
    { apply elem_of_cons in Hx as [->|]; [|done]. destruct Hocc as (b' & Hb' & ? & _). by simplify_eq. }
    destruct IH as (tgt & eid & s' & Hr & Htgt & ?); [done|intros; apply Hall; set_solver|].
    exists tgt, eid, s'. split_and!; [done|set_solver|naive_solver..].
  - rewrite (run_bind _ _ _ _ _ Hrun). exists bid, (get_first_non_occupied b), s'. split_and!; [done|set_solver|done..].
Qed.
End redundant.

Section redundant_total.
Context `{SetOrder}.
Context (s : StalenessInventory) (st v pid bid : Z) (eid : nat) (b : StalenessBuffer) (info : EntryInfo).
Context (Hok : inv_ok s) (Hwin : window_ok s).
Context (Hval : inv_is_validate s = false) (Hst : inv_staleness s = Some st).
Context (Hp : data_tracker s !! pid = Some (bid, eid)) (Hb : buffers s !! bid = Some b).
Context (He : entries b !! eid = Some (mkEntry RESERVED (Some info))) (Hv : get_entry_version info = inr v).
Context (Hred : (ready_num_entries b ≤ eid)%nat).

(** Some buffer of the window can take a result: the reserved buffer is not
    ready, or a buffer has an occupiable slot. *)
Context (Hroom : (get_first_non_occupied b < ready_num_entries b)%nat ∨ ∃ x, v ≤ x ≤ v + st ∧ occupiable s x).

Lemma redundant_possible : have_possible_occupy_target s v = inr true.
Proof.
  pose proof (primary_window s st v pid bid eid b info Hok Hwin Hval Hst Hp Hb He Hv) as Hwb.
  assert (∃ x bx, v ≤ x ≤ v + st ∧ buffers s !! x = Some bx ∧ (get_first_non_occupied bx < ready_num_entries bx)%nat)
    as (x & bx & Hx & Hbx & Hlt).
  { destruct Hroom as [?|(x & ? & bx & ? & _ & ?)]; [by exists bid, b|by exists x, bx]. }
  unfold have_possible_occupy_target. rewrite Hval, Hst. f_equal. apply existsb_exists. exists x.
  rewrite <-list_elem_of_In. split; [apply elem_of_zrange; lia|]. rewrite Hbx. by apply bool_decide_eq_true.
Qed.

Lemma redundant_room xbid s1 :
  freed st v pid bid xbid s s1 → ∃ x, v ≤ x ≤ v + st ∧ occupiable s1 x.
Proof.
  intros Hfr. pose proof (primary_window s st v pid bid eid b info Hok Hwin Hval Hst Hp Hb He Hv) as Hwb.
  pose proof (fr_range _ _ _ _ _ _ _ Hfr). destruct (fr_slot _ _ _ _ _ _ _ Hfr) as (b' & Hb' & Hemp & Hor).
  destruct (decide (xbid = bid)) as [->|Hne]; last first.
  { exists xbid. split; [lia|]. exists b'. naive_solver. }
  destruct (same_occupied_lookup _ _ _ _ _ (fr_occupied _ _ _ _ _ _ _ Hfr) Hb Hb') as [Hr Hf].
  destruct Hroom as [Hlt|(x & Hx & Ho)]; [exists bid; split; [lia|]; exists b'; rewrite Hr, Hf; done|].
  destruct (decide (x = bid)) as [->|].
  - exists bid. split; [lia|]. exists b'. rewrite Hr, Hf. destruct Ho as (b0 & ? & ? & ?). by simplify_eq.
  - exists x. split; [done|]. destruct Ho as (b0 & Hb0 & ?). exists b0. by rewrite (fr_same _ _ _ _ _ _ _ Hfr).
Qed.

Lemma occupy_redundant_total :
  ∃ tgt teid s', occupy_data_with_reserve pid s = Ret (tgt, teid, S teid) s' ∧ inv_ok s' ∧
    config s' = config s ∧ buffer_id s' = buffer_id s ∧ v ≤ tgt ≤ v + st ∧
    view s' pid = Some (tgt, OCCUPIED, info) ∧
    (∀ q bq iq, view s q = Some (bq, OCCUPIED, iq) → view s' q = view s q).
Proof.
  pose proof (primary_slot s bid eid b info Hb He) as Hslot.
  pose proof (primary_view s pid bid eid b info Hp Hb He) as Hview.
  pose proof (primary_prompt s pid bid eid b info Hok Hp Hb He) as Hpid.
  destruct (clear_across_run s st v pid bid info Hok Hwin Hval Hst Hview Hv)
    as (s1 & xbid & Hclr & Hok1 & Hwin1 & Hcfg1 & Hnext1 & Hfr).
  pose proof Hcfg1 as Hc. unfold config in Hc. injection Hc as Hst1 _ _ _ Hval1. rewrite Hst in Hst1. rewrite Hval in Hval1.
  destruct (redundant_room xbid s1 Hfr) as (x & Hx & Hox).
  destruct (fr_occupied _ _ _ _ _ _ _ Hfr bid b Hb) as (b1 & Hb1 & Hr1 & _).
  assert (data_tracker s1 !! prompt_id info = None) as Hnone.
  { rewrite Hpid. apply eq_None_not_Some. rewrite <-view_tracked by apply Hok1. by rewrite (fr_gone _ _ _ _ _ _ _ Hfr). }
  set (cands := filter (occupy_candidate s1 v st) (set_iter (get_buffers_not_ready s1))).
  assert (∀ y, y ∈ cands ↔ v ≤ y ≤ v + st ∧ ∃ b, buffers s1 !! y = Some b ∧ (get_first_non_occupied b < ready_num_entries b)%nat) as Hcand.
  { intros y. unfold cands. rewrite list_elem_of_filter, set_iter_elem, (elem_of_not_ready s1 Hok1).
    unfold occupy_candidate. destruct (buffers s1 !! y); naive_solver. }
  assert (x ∈ cands) as Hxc by (apply Hcand; split; [done|]; destruct Hox as (bx & ? & _ & ?); eauto).
  destruct (occupy_redundant_run s1 info cands x) as (tgt & teid & s2 & Hrun & Htgt & Hok2 & Hcfg2 & Hnext2 & Hv2 & Hoth2); try done.
  { intros y Hy. by apply Hcand in Hy as [_ ?]. }
  apply Hcand in Htgt as [Htv _].
  exists tgt, teid, s2. split_and!; try done; try congruence; try lia.
  - unfold occupy_data_with_reserve. mrun. rewrite (run_of_option _ _ (bid, eid)) by done.
    rewrite (run_get_info _ _ _ info _ _ Hslot) by done.
    rewrite (run_of_res _ v), (run_of_res _ true), run_assert by (done || apply redundant_possible).
    rewrite Hval. simpl negb. rewrite (run_bind _ _ _ _ _ Hclr). mrun. rewrite (run_get_buffer _ _ _ _ Hb1). cbv zeta.
    rewrite bool_decide_false by lia. rewrite (run_staleness _ st); [|done|].
    + fold cands. rewrite run_assert_decide by (intros Hnil; rewrite Hnil in Hxc; set_solver).
      by rewrite (run_bind _ _ _ _ _ Hrun).
    + intros Hnil. apply elements_empty_iff in Hnil. apply Hcand in Hxc as [_ ?].
      assert (x ∈ get_buffers_not_ready s1) by (by apply elem_of_not_ready). set_solver.
  - intros q bq iq Hq. assert (q ≠ pid) as Hne by congruence.
    assert (view s1 q = view s q) as Hq1.
    { destruct (fr_other _ _ _ _ _ _ _ Hfr q Hne) as [?|(? & ? & _)]; congruence. }
    destruct (Hoth2 q) as [?|(? & ? & _ & ? & _)]; congruence.
Qed.
End redundant_total.
