(* ===== verification/InventoryReach.v ===== *)
(** * Reachable inventories and the staleness bound

    The operations the manager performs on the training inventory as a step
    relation, the invariant that every reachable inventory satisfies, and the
    property the component exists for: an entry that is handed to training
    step [bid] was generated by a model at most [staleness] versions older. *)

From S2P Require Import Prelude.
From S2P Require Import StalenessBuffer.
From S2P Require Import StalenessInventory.
From S2P Require Import InventoryInv.
From S2P Require Import InventoryReserve.
From S2P Require Import InventoryClear.
From S2P Require Import InventoryExchange.
From S2P Require Import InventoryOccupy.

(** ** Retagging inside the window *)

Section retag.
Implicit Types (l : list Z) (v w lo hi : Z).

Lemma list_min_bounds l m lo hi x :
  list_min l = Some m → (∀ y, y ∈ l → lo ≤ y) → x ∈ l → x ≤ hi → lo ≤ m ≤ hi.
Proof. intros [Hin Hmin]%list_min_Some Hlo Hx Hhi. split; [by apply Hlo|]. specialize (Hmin x Hx). lia. Qed.

Lemma list_min_is_Some l x : x ∈ l → ∃ m, list_min l = Some m.
Proof. destruct l; [set_solver|]. simpl. eauto. Qed.

(** Setting one version of a group to a version of the window keeps the
    group's version in the window. *)
Lemma retag_window idxs info ridx tag f v lo hi :
  update_field idxs (model_version info) ridx tag = inr f → get_entry_version info = inr v →
  lo ≤ v ≤ hi → lo ≤ tag ≤ hi →
  ∃ v', get_entry_version (with_model_version f info) = inr v' ∧ lo ≤ v' ≤ hi.
Proof.
  unfold update_field, get_entry_version. simpl. intros Hf Hv Hlo Htag.
  assert (∀ l k, (k < length l)%nat → (∀ y, y ∈ l → lo ≤ y) →
    ∃ v', match list_min (<[k := tag]> l) with Some v => inr v | None => inl ValueError end = inr v' ∧ lo ≤ v' ≤ hi) as Hset.
  { intros l k Hk Hl. assert (tag ∈ <[k := tag]> l) as Hin.
    { apply list_elem_of_lookup. exists k. by apply list_lookup_insert_eq. }
    destruct (list_min_is_Some _ _ Hin) as [m Hm]. rewrite Hm. exists m. split; [done|].
    apply (list_min_bounds _ _ lo hi tag Hm); [|done|lia]. intros y (j & Hj)%list_elem_of_lookup.
    apply list_lookup_insert_Some in Hj as [(-> & <- & _)|[_ Hj]]; [lia|]. apply Hl, list_elem_of_lookup. eauto. }
  destruct (model_version info) as [u|l].
  - injection Hv as ->. case_bool_decide; [by injection Hf as <-; exists v|].
    destruct idxs as [i|is_]; [injection Hf as <-; by exists tag|]. unfold list_index in Hf.
    destruct (find_first _ is_) as [k|] eqn:Hk; [|done]. injection Hf as <-. apply Hset.
    + rewrite length_replicate. by eapply find_first_lt.
    + intros y [-> _]%elem_of_replicate. lia.
  - destruct (list_min l) as [m|] eqn:Hm; [|done]. injection Hv as ->.
    destruct idxs as [i|is_]; [done|]. destruct (list_index ridx is_) as [|k]; [done|].
    case_bool_decide; [|done]. injection Hf as <-. apply Hset; [done|].
    apply list_min_Some in Hm as [_ Hm]. intros y Hy. specialize (Hm y Hy). lia.
Qed.
End retag.

(** ** Steps *)

(** The invariant of a training inventory of staleness [st]. *)
Record training (st : Z) (s : StalenessInventory) : Prop := {
  tr_ok : inv_ok s;
  tr_window : window_ok s;
  tr_validate : inv_is_validate s = false;
  tr_staleness : inv_staleness s = Some st;
}.

(** One call of the manager on the training inventory.  The premises are what
    the manager checks before the call: [can_reserve_data] before a request
    joins a group, a version tag inside the window of the reserved buffer, a
    reservation (not an occupied entry) for an occupation or a release. *)
Inductive train_step `{SetOrder} (st : Z) (s s' : StalenessInventory) : Prop :=
  | step_reserve r res :
      req_version r + st ≠ 0 →
      (is_Some (data_tracker s !! req_prompt_id r) →
        can_reserve_data_without_new_reserve_entry r (req_version r) s = true) →
      reserve_data r (Some (req_version r + st)) s = Ret res s' → train_step st s s'
  | step_admission r v ok : can_reserve_data r v s = Ret ok s' → train_step st s s'
  | step_retag request_id tag bid eid :
      data_tracker s !! (request_id / rollout_n s) = Some (bid, eid) → bid - st ≤ tag ≤ bid →
      update_request_version_tag request_id tag s = Ret tt s' → train_step st s s'
  | step_occupy pid bid eid b info res :
      data_tracker s !! pid = Some (bid, eid) → buffers s !! bid = Some b →
      entries b !! eid = Some (mkEntry RESERVED (Some info)) → (eid < ready_num_entries b)%nat →
      occupy_data_with_reserve pid s = Ret res s' → train_step st s s'
  | step_clear_reserved pids :
      (∀ pid bid c info, pid ∈ pids → view s pid = Some (bid, c, info) → c = RESERVED) →
      clear_reserved_entries pids false s = Ret tt s' → train_step st s s'
  | step_clear_across pid bid info :
      view s pid = Some (bid, RESERVED, info) →
      clear_reserved_entries [pid] true s = Ret tt s' → train_step st s s'
  | step_clear_occupied pids :
      NoDup pids → (∀ pid, pid ∈ pids → ∃ bid info, view s pid = Some (bid, OCCUPIED, info)) →
      clear_occupied_entries pids s = Ret tt s' → train_step st s s'
  | step_mark bid : mark_buffer_for_deletion bid s = Ret tt s' → train_step st s s'
  | step_delete bid b : buffers s !! bid = Some b → delete_buffer bid s = Ret tt s' → train_step st s s'.

Section preservation.
Context `{SetOrder} (st : Z) (s : StalenessInventory) (Hs : training st s).

Lemma training_intro s' : inv_ok s' → window_ok s' → config s' = config s → training st s'.
Proof.
  intros Hok Hw Hc. destruct Hs as [_ _ Hv Hst]. unfold config in Hc. injection Hc as Hst' _ _ _ Hv'.
  split; [done|done|congruence|congruence].
Qed.

Lemma training_version pid bid c info :
  view s pid = Some (bid, c, info) → ∃ v, get_entry_version info = inr v ∧ v ≤ bid ≤ v + st.
Proof.
  destruct Hs as [Hok Hw Hv Hst]. intros Hview. by apply (proj1 (window_view s (ok_tracked _ Hok)) Hw st pid bid c).
Qed.

Lemma reserve_training r res s' :
  req_version r + st ≠ 0 →
  (is_Some (data_tracker s !! req_prompt_id r) →
    can_reserve_data_without_new_reserve_entry r (req_version r) s = true) →
  reserve_data r (Some (req_version r + st)) s = Ret res s' → training st s'.
Proof.
  intros Hhi Hadm Hrun. destruct Hs as [Hok Hw Hv Hst].
  destruct (data_tracker s !! req_prompt_id r) as [[bid eid]|] eqn:Htr.
  - destruct (tracked_entry s _ _ _ Hok Htr) as (e & info & Hsl & Hi & _).
    rewrite (reserve_tracked_run s r bid eid e info Htr Hsl Hi) in Hrun. injection Hrun as _ <-.
    apply training_intro; [by apply joined_ok|apply joined_window; eauto|done].
  - destruct (ensure_buffer_exists_run s (req_version r + st) Hok Hv) as (s1 & Hens & Hok1 & Hb1 & _ & Htr1 & _ & Hcfg1).
    assert (window_ok s1) as Hw1 by (by eapply (window_ensure s)).
    destruct (reserve_fresh_run s r st _ Hv Hst Htr s1 Hens Hok1 Htr1 Hcfg1 Hhi)
      as [[Hrun' _]|(bid & eid & b & e & f & Hrun' & Hok' & (Hwin & _) & _ & Hb & _ & He & _)];
      rewrite Hrun' in Hrun; injection Hrun as _ <-; apply training_intro; try done.
    eapply (window_reserve s1 r st); [by unfold config in Hcfg1; congruence|apply slot_at_Some; eauto|lia|done].
Qed.

Lemma admission_training r v ok s' : can_reserve_data r v s = Ret ok s' → training st s'.
Proof.
  intros Hrun. unfold can_reserve_data in Hrun. autorewrite with psrl in Hrun. cbn beta iota delta [id] in Hrun.
  destruct (data_tracker s !! req_prompt_id r) as [[bid eid]|]; [by injection Hrun as _ <-|].
  destruct Hs as [Hok Hw Hv Hst].
  destruct (ensure_buffer_exists_run s (v + staleness_or_0 s) Hok Hv) as (s1 & Hens & Hok1 & Hb1 & _ & _ & _ & Hcfg1).
  rewrite (run_bind _ _ _ _ _ Hens) in Hrun. injection Hrun as _ <-. apply training_intro; [done|by eapply (window_ensure s)|done].
Qed.

Lemma retag_training request_id tag bid eid s' :
  data_tracker s !! (request_id / rollout_n s) = Some (bid, eid) → bid - st ≤ tag ≤ bid →
  update_request_version_tag request_id tag s = Ret tt s' → training st s'.
Proof.
  intros Htr Htag Hrun. destruct Hs as [Hok Hw Hv Hst]. unfold update_request_version_tag in Hrun.
  match type of Hrun with update_request _ ?upd _ = _ => pose proof (update_request_run s request_id upd Hok) as Hspec end.
  rewrite Hrun in Hspec. destruct Hspec as (Hok' & _ & pos & e & info & info' & Hpos & Hsl & Hi & Hu & ->).
  { intros ??? Hu. by destruct (update_field _ _ _ _); simplify_eq. }
  apply training_intro; [done| |done]. rewrite Htr in Hpos. injection Hpos as <-.
  destruct (Hw st _ e info Hv Hst Hsl Hi) as (v & Hver & Hwin). simpl in Hwin.
  destruct (update_field _ _ _ _) as [|f] eqn:Hf; [done|]. injection Hu as <-.
  destruct (retag_window _ info _ _ _ v (bid - st) bid Hf Hver) as (v' & Hv' & Hr'); [lia|lia|].
  apply (window_step s); [done..|]. intros st' pos e' i' _ Hst' He' Hi'. simpl in He'.
  rewrite (slot_at_put _ _ _ _ _ Hsl) in He'. case_decide; [|by right]. subst pos. left.
  injection He' as <-. injection Hi' as <-. exists v'. split; [done|]. simpl. assert (st' = st) as -> by congruence. lia.
Qed.

Lemma mark_training bid s' : mark_buffer_for_deletion bid s = Ret tt s' → training st s'.
Proof.
  intros Hrun. destruct Hs as [Hok Hw Hv Hst]. unfold mark_buffer_for_deletion in Hrun.
  destruct (get_buffer_status bid s) as [status s1|] eqn:Hget; [|by rewrite (run_bind_raise _ _ _ _ _ Hget) in Hrun].
  rewrite (run_bind _ _ _ _ _ Hget) in Hrun.
  assert (s1 = s ∧ is_Some (buffers s !! bid)) as [-> Hsome].
  { unfold get_buffer_status, mbind, M_bind, gets, id, of_option, raise in Hget. by repeat case_match; simplify_eq; eauto. }
  unfold assert, mbind, M_bind in Hrun. case_bool_decide; [|done]. injection Hrun as <-.
  apply training_intro; [|done|done]. destruct Hok. split; simpl; try done.
  - destruct ok_cache. by split.
  - intros x [->%elem_of_singleton|Hx]%elem_of_union; eauto.
Qed.
End preservation.

(** ** Reachable states *)

Section reachable.
Context `{SetOrder} (st : Z).

Lemma train_step_training s s' : training st s → train_step st s s' → training st s'.
Proof.
  intros Hs Hstep. pose proof Hs as [Hok Hw Hv Hst]. destruct Hstep as
    [r res Hhi Hadm Hrun|r v ok Hrun|rid tag bid eid Htr Htag Hrun|pid bid eid b info res Hp Hb He Hlt Hrun
    |pids Hall Hrun|pid bid info Hview Hrun|pids Hnd Hall Hrun|bid Hrun|bid b Hb Hrun].
  - by eapply reserve_training.
  - by eapply admission_training.
  - by eapply retag_training.
  - destruct (training_version st s Hs pid bid RESERVED info) as (v & Hver & _); [by eapply primary_view|].
    destruct (occupy_primary_run s st v pid bid eid b info Hok Hw Hv Hst Hp Hb He Hver Hlt)
      as (tgt & teid & s2 & Hrun2 & ? & ? & ? & _).
    rewrite Hrun in Hrun2. injection Hrun2 as _ ->. by eapply training_intro.
  - destruct (clear_reserved_run s pids Hok Hall) as (s2 & Hrun2 & Hok2 & Hc & _ & Hwo & _).
    rewrite Hrun in Hrun2. injection Hrun2 as ->. apply (training_intro st s Hs); [done| |done].
    by eapply (without_window _ s); [apply Hok|apply Hok2|..].
  - destruct (training_version st s Hs pid bid RESERVED info Hview) as (v & Hver & _).
    destruct (clear_across_run s st v pid bid info Hok Hw Hv Hst Hview Hver) as (s2 & xb & Hrun2 & ? & ? & ? & _).
    rewrite Hrun in Hrun2. injection Hrun2 as ->. by eapply training_intro.
  - destruct (clear_occupied_run s pids Hok Hnd Hall) as (s2 & Hrun2 & Hok2 & Hc & _ & Hwo).
    rewrite Hrun in Hrun2. injection Hrun2 as ->. apply (training_intro st s Hs); [done| |done].
    by eapply (without_window _ s); [apply Hok|apply Hok2|..].
  - by eapply mark_training.
  - destruct (delete_buffer_run s bid b Hok Hb) as (s2 & Hrun2 & ? & Hw2 & ? & _).
    rewrite Hrun in Hrun2. injection Hrun2 as ->. apply (training_intro st s Hs); auto.
Qed.

Lemma reachable_training n r rn s :
  (r ≤ n)%nat → rtc (train_step st) (new_inventory n r (Some st) rn false) s → training st s.
Proof.
  intros Hr Hreach. assert (training st (new_inventory n r (Some st) rn false)) as H0.
  { split; [by apply new_inventory_ok|apply new_inventory_window|done|done]. }
  revert H0. induction Hreach as [|s1 s2 s3 Hstep _ IH]; [done|]. intros H1. apply IH. by eapply train_step_training.
Qed.
End reachable.
