(* ===== verification/InventoryTheorems.v ===== *)
(** * What the staleness inventory guarantees

    The theorems about whole operations on the training inventory: the
    staleness bound of every reachable state, and what occupying, clearing and
    deleting do on each branch.  The proofs apply the run lemmas of the
    preceding files. *)

From S2P Require Import Prelude.
From S2P Require Import StalenessBuffer.
From S2P Require Import StalenessInventory.
From S2P Require Import InventoryInv.
From S2P Require Import InventoryReserve.
From S2P Require Import InventoryClear.
From S2P Require Import InventoryExchange.
From S2P Require Import InventoryOccupy.
From S2P Require Import InventoryReach.

(** ** Concrete runs *)

(** A reservation of prompt [pid] at version [v] in an inventory of staleness [st]. *)
Definition demo_reserve (pid v st : Z) : Inv (option (Z * nat)) := reserve_data (demo_request pid 0 v) (Some (v + st)).

(** What is observable about the prompts [pids]: buffer, category and version. *)
Definition observe (s : StalenessInventory) (pids : list Z) : list (option (Z * EntryCategory * Res Z)) :=
  (λ q, (λ p : placement, (p.1, get_entry_version p.2)) <$> view s q) <$> pids.

Definition demo_inventory : StalenessInventory := new_inventory 2 2 (Some 1) 4 false.
Definition demo_reserved : StalenessInventory := final (demo_reserve 7 1 1 demo_inventory).

Lemma demo_reserved_facts :
  inv_ok demo_reserved ∧ window_ok demo_reserved ∧ data_tracker demo_reserved !! 7 = Some (2, 1%nat).
Proof.
  destruct (demo_reserved_ok 7 0 1) as [Hok Hw]; [done|]. split; [exact Hok|]. split; [exact Hw|]. vm_compute. reflexivity.
Qed.

Lemma demo_reserved_view : view demo_reserved 7 = Some (2, RESERVED, entry_of_request (demo_request 7 0 1)).
Proof. vm_compute. reflexivity. Qed.

Lemma demo_reserved_buffer :
  ∃ b, buffers demo_reserved !! 2 = Some b ∧ ready_num_entries b = 2%nat ∧
    entries b !! 1%nat = Some (mkEntry RESERVED (Some (entry_of_request (demo_request 7 0 1)))).
Proof. eexists. vm_compute. repeat split; reflexivity. Qed.

Section theorems.
Context `{SetOrder}.



(** C3: turning a reservation below the ready threshold into an occupied
    entry always succeeds.  The entry lands in the earliest buffer of its
    staleness window that can take it, never later than the buffer reserved
    for it; the invariant and the window of all entries are kept; other
    prompts keep their placement, except for at most reservations that move
    up to the reserved buffer to free an earlier slot. *)
Theorem occupy_within_reservation (s : StalenessInventory) (st v pid bid : Z) (eid : nat)
    (b : StalenessBuffer) (info : EntryInfo) :
  inv_ok s → window_ok s → inv_is_validate s = false → inv_staleness s = Some st →
  data_tracker s !! pid = Some (bid, eid) → buffers s !! bid = Some b →
  entries b !! eid = Some (mkEntry RESERVED (Some info)) → get_entry_version info = inr v →
  (eid < ready_num_entries b)%nat →
  ∃ tgt teid s', occupy_data_with_reserve pid s = Ret (tgt, teid, S teid) s' ∧ inv_ok s' ∧ window_ok s' ∧
    v ≤ tgt ≤ bid ∧ view s' pid = Some (tgt, OCCUPIED, info) ∧
    (∀ x, v ≤ x ≤ v + st → occupiable s x → tgt ≤ x) ∧
    (∀ q, q ≠ pid → view s' q = view s q ∨
      ∃ xb iq, tgt ≤ xb ≤ bid ∧ view s q = Some (xb, RESERVED, iq) ∧ view s' q = Some (bid, RESERVED, iq)).
Proof.
  intros Hok Hw Hval Hst Hp Hb He Hv Hlt.
  destruct (occupy_primary_run s st v pid bid eid b info Hok Hw Hval Hst Hp Hb He Hv Hlt)
    as (tgt & teid & s' & ? & ? & ? & _ & _ & ? & ? & _ & ? & ? & _).
  by exists tgt, teid, s'.
Qed.

(** A redundant reservation (at or above the ready threshold) is occupied
    whenever some buffer of its window still has room or its own buffer is
    not ready: the operation succeeds, keeps the invariant, places the entry
    inside its window and never moves an occupied entry. *)
Theorem occupy_redundant_within_window (s : StalenessInventory) (st v pid bid : Z) (eid : nat)
    (b : StalenessBuffer) (info : EntryInfo) :
  inv_ok s → window_ok s → inv_is_validate s = false → inv_staleness s = Some st →
  data_tracker s !! pid = Some (bid, eid) → buffers s !! bid = Some b →
  entries b !! eid = Some (mkEntry RESERVED (Some info)) → get_entry_version info = inr v →
  (ready_num_entries b ≤ eid)%nat →
  ((get_first_non_occupied b < ready_num_entries b)%nat ∨ ∃ x, v ≤ x ≤ v + st ∧ occupiable s x) →
  ∃ tgt teid s', occupy_data_with_reserve pid s = Ret (tgt, teid, S teid) s' ∧ inv_ok s' ∧
    v ≤ tgt ≤ v + st ∧ view s' pid = Some (tgt, OCCUPIED, info) ∧
    (∀ q bq iq, view s q = Some (bq, OCCUPIED, iq) → view s' q = view s q).
Proof.
  intros Hok Hw Hval Hst Hp Hb He Hv Hge Hroom.
  destruct (occupy_redundant_total s st v pid bid eid b info Hok Hw Hval Hst Hp Hb He Hv Hge Hroom)
    as (tgt & teid & s' & ? & ? & _ & _ & ? & ? & ?).
  by exists tgt, teid, s'.
Qed.

(** The overflow placement of a redundant result can never succeed: it
    considers the buffers whose first free slot is below the ready threshold
    and then asserts that the slot is at or above it. *)
Theorem occupy_overflow_never_returns (s s0 : StalenessInventory) (v st : Z) (pending : list Z) (info : EntryInfo) :
  buffers s0 = buffers s →
  ∃ e s', occupy_overflow (filter (occupy_candidate s0 v st) pending) info s = Raise e s' ∧
    (e = ValueError ∨ e = AssertionError) ∧ s' = s.
Proof.
  intros Hbufs. unfold occupy_overflow. destruct (list_min _) as [bid|] eqn:Hmin; [|exists ValueError, s; by auto].
  apply list_min_Some in Hmin as [[[_ Hc] _]%list_elem_of_filter _]. rewrite Hbufs in Hc.
  rewrite (run_of_option _ _ bid) by done. destruct (buffers s !! bid) as [b|] eqn:Hb; [|done].
  rewrite (run_get_buffer _ _ _ _ Hb). cbv zeta. rewrite bool_decide_false by lia.
  exists AssertionError, s. by auto.
Qed.

(** Clearing occupied entries succeeds on occupied prompts and removes
    exactly them: every other prompt keeps its buffer, category and metadata. *)
Theorem clear_occupied_exact (s : StalenessInventory) (pids : list Z) :
  inv_ok s → NoDup pids → (∀ pid, pid ∈ pids → ∃ bid info, view s pid = Some (bid, OCCUPIED, info)) →
  ∃ s', clear_occupied_entries pids s = Ret tt s' ∧ inv_ok s' ∧ (window_ok s → window_ok s') ∧
    without (list_to_set pids) s s'.
Proof.
  intros Hok Hnd Hall. destruct (clear_occupied_run s pids Hok Hnd Hall) as (s' & Hrun & Hok' & Hc & _ & Hw).
  exists s'. split_and!; [done|done| |done]. by apply (without_window (list_to_set pids)); [apply Hok|apply Hok'|..].
Qed.

(** Clearing reservations within their buffer succeeds on any list of
    prompts none of which is occupied (unknown prompts are skipped), removes
    exactly the reserved ones and keeps which slots are occupied. *)
Theorem clear_reserved_exact (s : StalenessInventory) (pids : list Z) :
  inv_ok s → (∀ pid bid c info, pid ∈ pids → view s pid = Some (bid, c, info) → c = RESERVED) →
  ∃ s', clear_reserved_entries pids false s = Ret tt s' ∧ inv_ok s' ∧ (window_ok s → window_ok s') ∧
    without (list_to_set pids) s s' ∧ same_occupied (buffers s) (buffers s').
Proof.
  intros Hok Hall. destruct (clear_reserved_run s pids Hok Hall) as (s' & Hrun & Hok' & Hc & _ & Hw & Ho).
  exists s'. split_and!; [done|done| |done|done]. by apply (without_window (list_to_set pids)); [apply Hok|apply Hok'|..].
Qed.

(** Clearing one reservation across buffers succeeds and moves the free
    slot to an earlier buffer of the window of the cleared entry: afterwards
    a buffer [xb] with [v <= xb <= bid] has room, at most one other
    reservation moved (from [xb] to [bid]) and all entries are still in their
    staleness window. *)
Theorem clear_across_frees_earlier (s : StalenessInventory) (st v pid bid : Z) (info : EntryInfo) :
  inv_ok s → window_ok s → inv_is_validate s = false → inv_staleness s = Some st →
  view s pid = Some (bid, RESERVED, info) → get_entry_version info = inr v →
  ∃ s' xb, clear_reserved_entries [pid] true s = Ret tt s' ∧ inv_ok s' ∧ window_ok s' ∧ freed st v pid bid xb s s'.
Proof.
  intros Hok Hw Hval Hst Hview Hv.
  destruct (clear_across_run s st v pid bid info Hok Hw Hval Hst Hview Hv) as (s' & xb & ? & ? & ? & _ & _ & ?).
  by exists s', xb.
Qed.

(** Deleting a buffer succeeds and removes exactly that buffer and the
    prompts placed in it; every other prompt keeps its placement. *)
Theorem delete_buffer_exact (s : StalenessInventory) (bid : Z) (b : StalenessBuffer) :
  inv_ok s → buffers s !! bid = Some b →
  ∃ s', delete_buffer bid s = Ret tt s' ∧ inv_ok s' ∧ (window_ok s → window_ok s') ∧
    buffers s' = delete bid (buffers s) ∧
    ∀ q, view s' q = match view s q with Some (x, c, info) => if decide (x = bid) then None else Some (x, c, info) | None => None end.
Proof.
  intros Hok Hb. destruct (delete_buffer_run s bid b Hok Hb) as (s' & Hrun & Hok' & Hw & _ & Hbuf & Htr & _).
  exists s'. split_and!; [done..|]. intros q. unfold view. rewrite Htr, Hbuf.
  pose proof (elem_of_prompts_of (buffers s) bid b q Hb) as Hel.
  destruct (data_tracker s !! q) as [[x i]|] eqn:Hq; simpl; [|by case_decide].
  pose proof Hq as (c & info & Hs & _)%(ok_tracked _ Hok)%prompt_at_Some. rewrite Hs. simpl.
  destruct (decide (x = bid)) as [->|Hne].
  - rewrite decide_True; [done|]. apply Hel. exists i. by apply (ok_tracked _ Hok).
  - rewrite decide_False; last first.
    { intros [j Hj%(ok_tracked _ Hok)]%Hel. congruence. }
    simpl. unfold slot_at in Hs |- *. simpl in *. rewrite lookup_delete_ne by done. by rewrite Hs.
Qed.
End theorems.

(** ** Witnesses and counterexamples on concrete runs *)

#[local] Existing Instance elements_order.

Definition demo_info : EntryInfo := entry_of_request (demo_request 7 0 1).
Definition demo_occupied : StalenessInventory := final (occupy_data_with_reserve 7 demo_reserved).

Lemma demo_steps : rtc (train_step 1) demo_inventory demo_occupied.
Proof.
  destruct demo_reserved_buffer as (b & Hb & Hr & He).
  apply (rtc_l _ _ demo_reserved).
  - apply (step_reserve _ _ _ (demo_request 7 0 1) (Some (2, 1%nat))); [done|intros [? [=]]|].
    assert (result (demo_reserve 7 1 1 demo_inventory) = inr (Some (2, 1%nat))) as Hres by (vm_compute; reflexivity).
    exact (outcome_eta _ _ Hres).
  - apply rtc_once. eapply (step_occupy _ _ _ 7 2 1%nat b demo_info (1, 0%nat, 1%nat)); [vm_compute; reflexivity|done|done|lia|].
    assert (result (occupy_data_with_reserve 7 demo_reserved) = inr (1, 0%nat, 1%nat)) as Hres by (vm_compute; reflexivity).
    exact (outcome_eta _ _ Hres).
Qed.



Lemma occupy_within_reservation_witness :
  ∃ teid s', occupy_data_with_reserve 7 demo_reserved = Ret (1, teid, S teid) s' ∧ inv_ok s' ∧
    view s' 7 = Some (1, OCCUPIED, demo_info).
Proof.
  destruct demo_reserved_facts as (Hok & Hw & Hp), demo_reserved_buffer as (b & Hb & Hr & He).
  destruct (occupy_within_reservation demo_reserved 1 1 7 2 1 b demo_info)
    as (tgt & teid & s' & Hrun & Hok' & _ & _ & Hv & _);
    [exact Hok|exact Hw|reflexivity|reflexivity|exact Hp|exact Hb|exact He|reflexivity|lia|].
  assert (result (occupy_data_with_reserve 7 demo_reserved) = inr (1, 0%nat, 1%nat)) as Hres by (vm_compute; reflexivity).
  rewrite Hrun in Hres. injection Hres as -> -> _. exists 0%nat, s'. exact (conj Hrun (conj Hok' Hv)).
Defined.

(** Two slots per buffer of which one makes the buffer ready: the reservation in
    slot 1 is redundant. *)
Definition demo_redundant : StalenessInventory := final (demo_reserve 7 1 1 (new_inventory 2 1 (Some 1) 4 false)).

Lemma occupy_redundant_within_window_witness :
  ∃ tgt teid s', occupy_data_with_reserve 7 demo_redundant = Ret (tgt, teid, S teid) s' ∧ inv_ok s' ∧ 1 ≤ tgt ≤ 2.
Proof.
  assert (training 1 demo_redundant) as [Hok Hw _ _].
  { eapply (reachable_training 1 2 1 4); [lia|]. apply rtc_once.
    apply (step_reserve _ _ _ (demo_request 7 0 1) (Some (2, 1%nat))); [done|intros [? [=]]|].
    assert (result (demo_reserve 7 1 1 (new_inventory 2 1 (Some 1) 4 false)) = inr (Some (2, 1%nat))) as Hres by (vm_compute; reflexivity).
    exact (outcome_eta _ _ Hres). }
  assert (∃ b, buffers demo_redundant !! 2 = Some b ∧ ready_num_entries b = 1%nat ∧ get_first_non_occupied b = 0%nat ∧
    entries b !! 1%nat = Some (mkEntry RESERVED (Some demo_info))) as (b & Hb & Hr & Hf & He).
  { eexists. vm_compute. repeat split; reflexivity. }
  destruct (occupy_redundant_within_window demo_redundant 1 1 7 2 1 b demo_info)
    as (tgt & teid & s' & Hrun & Hok' & Ht & _);
    [exact Hok|exact Hw|reflexivity|reflexivity|vm_compute; reflexivity|exact Hb|exact He|reflexivity|lia|left; lia|].
  exists tgt, teid, s'. exact (conj Hrun (conj Hok' Ht)).
Defined.

Lemma occupy_overflow_never_returns_witness :
  ∃ e s', occupy_overflow (filter (occupy_candidate demo_reserved 1 1) [1; 2]) demo_info demo_reserved = Raise e s' ∧
    (e = ValueError ∨ e = AssertionError) ∧ s' = demo_reserved.
Proof. exact (occupy_overflow_never_returns demo_reserved demo_reserved 1 1 [1; 2] demo_info eq_refl). Defined.

Lemma demo_occupied_view : view demo_occupied 7 = Some (1, OCCUPIED, demo_info).
Proof. vm_compute. reflexivity. Qed.

Lemma demo_occupied_ok : inv_ok demo_occupied.
Proof. exact (tr_ok _ _ (reachable_training 1 2 2 4 demo_occupied (le_n 2) demo_steps)). Qed.

Lemma clear_occupied_exact_witness :
  ∃ s', clear_occupied_entries [7] demo_occupied = Ret tt s' ∧ inv_ok s' ∧ view s' 7 = None.
Proof.
  destruct (clear_occupied_exact demo_occupied [7]) as (s' & Hrun & Hok & _ & Hw);
    [exact demo_occupied_ok|repeat constructor; set_solver| |].
  { intros pid Hq%list_elem_of_singleton. subst pid. exists 1, demo_info. exact demo_occupied_view. }
  exists s'. split_and!; [done|done|]. by rewrite Hw, decide_True by set_solver.
Defined.

Lemma clear_reserved_exact_witness :
  ∃ s', clear_reserved_entries [7; 9] false demo_reserved = Ret tt s' ∧ inv_ok s' ∧ view s' 7 = None.
Proof.
  destruct demo_reserved_facts as (Hok & _ & _).
  destruct (clear_reserved_exact demo_reserved [7; 9] Hok) as (s' & Hrun & Hok' & _ & Hw & _).
  { intros pid bid c info [->|Hq%list_elem_of_singleton]%elem_of_cons; [rewrite demo_reserved_view; congruence|]. subst pid.
    assert (view demo_reserved 9 = None) as -> by (vm_compute; reflexivity). done. }
  exists s'. split_and!; [done|done|]. by rewrite Hw, decide_True by set_solver.
Defined.

Lemma clear_across_frees_earlier_witness :
  ∃ s' xb, clear_reserved_entries [7] true demo_reserved = Ret tt s' ∧ inv_ok s' ∧ freed 1 1 7 2 xb demo_reserved s'.
Proof.
  destruct demo_reserved_facts as (Hok & Hw & _).
  destruct (clear_across_frees_earlier demo_reserved 1 1 7 2 demo_info) as (s' & xb & Hrun & Hok' & _ & Hf);
    [exact Hok|exact Hw|reflexivity|reflexivity|exact demo_reserved_view|reflexivity|].
  exists s', xb. exact (conj Hrun (conj Hok' Hf)).
Defined.

Lemma delete_buffer_exact_witness :
  ∃ s', delete_buffer 2 demo_reserved = Ret tt s' ∧ inv_ok s' ∧ view s' 7 = None.
Proof.
  destruct demo_reserved_facts as (Hok & _ & _), demo_reserved_buffer as (b & Hb & _).
  destruct (delete_buffer_exact demo_reserved 2 b Hok Hb) as (s' & Hrun & Hok' & _ & _ & Hv).
  exists s'. split_and!; [done|done|]. by rewrite Hv, demo_reserved_view.
Defined.

(** A redundant result can push another reservation out of its staleness
    window.  Two slots per buffer, one makes a buffer ready, staleness 1: prompt
    2 (retagged to version 2) holds the first slot of buffer 2; the redundant
    result 3 takes that slot and prompt 2 is moved to buffer 1, whose training
    step precedes its version. *)
Theorem redundant_exchange_breaks_window :
  let o := (demo_reserve 1 1 1 ;; demo_reserve 2 1 1 ;; demo_reserve 3 1 1 ;; demo_reserve 4 1 1 ;;
            occupy_data_with_reserve 4 ;; update_request_version_tag 2 2 ;;
            occupy_data_with_reserve 3) (new_inventory 2 1 (Some 1) 1 false) in
  result o = inr (2, 0%nat, 1%nat) ∧
  observe (final o) [1; 2; 3; 4] =
    [Some (2, RESERVED, inr 1); Some (1, RESERVED, inr 2); Some (2, OCCUPIED, inr 1); Some (1, OCCUPIED, inr 1)] ∧
  ¬ window_ok (final o).
Proof.
  intros o. split; [vm_compute; reflexivity|]. split; [vm_compute; reflexivity|]. intros Hw.
  assert (∃ e info, slot_at (buffers (final o)) (1, 1%nat) = Some e ∧ entry_info e = Some info ∧
    get_entry_version info = inr 2) as (e & info & He & Hi & Hv).
  { eexists _, _. vm_compute. repeat split; reflexivity. }
  destruct (Hw 1 (1, 1%nat) e info) as (v & Hv' & Hr); [vm_compute; reflexivity|vm_compute; reflexivity|done|done|].
  simpl in Hr. assert (v = 2) by congruence. lia.
Qed.

(** Clearing several reservations of one buffer across buffers can leave a
    hole below a reserved entry, so that the buffer no longer has the shape
    occupation relies on: a reservation of buffer 5 is moved into slot 0 of
    buffer 6 while slot 1, cleared before, stays empty under the reserved slot 2. *)
Theorem clear_across_many_leaves_hole :
  let o := (demo_reserve 1 4 2 ;; demo_reserve 2 4 2 ;; demo_reserve 3 4 2 ;; demo_reserve 4 4 2 ;;
            update_request_version_tag 2 6 ;; clear_reserved_entries [2; 3] true)
           (new_inventory 3 3 (Some 2) 1 false) in
  result o = inr tt ∧
  (fmap category ∘ entries) <$> (buffers (final o) !! 6) = Some [RESERVED; EMPTY; RESERVED].
Proof. compute_run. Qed.

(** Clearing a buffer that still has an empty slot raises [AttributeError]
    after the entries were dropped: the prompt of the dropped reservation stays
    in the tracker. *)
Theorem clear_buffer_partial_raises :
  let o := (demo_reserve 1 1 1 ;; clear_buffer 2) (new_inventory 2 2 (Some 1) 1 false) in
  result o = inl AttributeError ∧ data_tracker (final o) !! 1 = Some (2, 1%nat) ∧
  slot_at (buffers (final o)) (2, 1%nat) = Some empty_entry.
Proof. compute_run. Qed.
