(* ===== verification/TransferQueue.v ===== *)
(** * Payload keys and payload life cycle

    The helpers of [psrl/utils/transferqueue_utils.py]: the names under which
    the trajectories of a request are stored, which life-cycle states allow a
    payload to be cleared, which keys a clean-up touches and the check made
    before a batch is published. *)

From S2P Require Import Prelude.
From stdpp Require Export pretty.
From Stdlib Require Import Ascii.

#[local] Open Scope Z_scope.

Inductive PayloadState := PENDING_GROUP | PAYLOAD_OCCUPIED | PAYLOAD_READY | DROPPED | CONSUMED.

#[export] Instance PayloadState_eq_dec : EqDecision PayloadState.
Proof. solve_decision. Defined.

Definition is_terminal (st : PayloadState) : bool := bool_decide (st = DROPPED ∨ st = CONSUMED).

(** [str(request_id)], or [f"{request_id}_{i}"] for each of several trajectories. *)
Definition request_payload_keys (request_id n_trajectory : Z) : Res (list string) :=
  if bool_decide (n_trajectory < 1) then inl ValueError
  else if bool_decide (n_trajectory = 1) then inr [pretty request_id]
  else inr ((λ i, pretty request_id +:+ "_" +:+ pretty i) <$> zrange 0 n_trajectory).

Definition require_terminal_state (st : PayloadState) : Res unit :=
  if is_terminal st then inr tt else inl ValueError.

(** A partition maps a key to its metadata, of which the status is read. *)
Abbreviation partition := (gmap string (option string)).

Definition existing_payload_keys (keys : list string) (partition_id : string)
    (partitions : gmap string partition) : list string :=
  let part := default ∅ (partitions !! partition_id) in
  filter (λ key, is_Some (part !! key)) keys.

(** The keys [kv_clear] is called with, given what [kv_list] answers; [None] when
    it is not called. *)
Definition clear_payload (keys : list string) (partition_id : string) (st : PayloadState)
    (kv_list : gmap string partition) : Res (option (list string)) :=
  match require_terminal_state st with
  | inl e => inl e
  | inr _ =>
      match existing_payload_keys keys partition_id kv_list with
      | [] => inr None
      | existing => inr (Some existing)
      end
  end.

(** The three lists of offending keys; the batch may be published when all are empty. *)
Definition duplicate_keys (keys : list string) : list string :=
  filter (λ key, (1 < length (filter (λ k, k = key) keys))%nat) (remove_dups keys).
Definition missing_keys (keys : list string) (part : partition) : list string :=
  filter (λ key, part !! key = None) keys.
Definition non_success_keys (keys : list string) (part : partition) : list string :=
  filter (λ key, is_Some (part !! key) ∧ part !! key ≠ Some (Some "success")) keys.

Definition validate_ready_payload (keys : list string) (partition_id : string)
    (partitions : gmap string partition) : Res unit :=
  let part := default ∅ (partitions !! partition_id) in
  match duplicate_keys keys, missing_keys keys part, non_success_keys keys part with
  | [], [], [] => inr tt
  | _, _, _ => inl RuntimeError
  end.

(** [kv_batch_meta_update_tags] on the list of tags: a scalar is broadcast, a
    list must have one value per tag. *)
Definition kv_batch_meta_update_tags {V} (tags : list (gmap string V)) (key : string) (value : V + list V)
    : Res (list (gmap string V)) :=
  match value with
  | inr vs =>
      if bool_decide (length vs ≠ length tags) then inl ValueError
      else inr (zip_with (λ tag v, <[key := v]> tag) tags vs)
  | inl v => inr ((λ tag, <[key := v]> tag) <$> tags)
  end.

(** ** Keys of different requests never collide *)

Fixpoint no_underscore (s : string) : Prop :=
  match s with EmptyString => True | String c s => c ≠ "_"%char ∧ no_underscore s end.

Lemma pretty_char_digit x : pretty_N_char x ≠ "_"%char.
Proof. unfold pretty_N_char. by repeat case_match. Qed.

Lemma pretty_go_underscore x s : no_underscore s → no_underscore (pretty_N_go x s).
Proof.
  revert s. induction (N.lt_wf_0 x) as [x _ IH]; intros s Hs.
  destruct (decide (x = 0%N)) as [->|Hx]; [by rewrite pretty_N_go_0|].
  rewrite pretty_N_go_step by lia. apply IH; [by apply N.div_lt; lia|]. split; [apply pretty_char_digit|done].
Qed.

Lemma pretty_Z_underscore (z : Z) : no_underscore (pretty z).
Proof.
  assert (∀ n : N, no_underscore (pretty n)) as HN.
  { intros n. unfold pretty, pretty_N. case_decide; [done|]. by apply pretty_go_underscore. }
  unfold pretty, pretty_Z. destruct z as [|p|p]; [done|apply (HN (Npos p))|]. split; [done|apply (HN (Npos p))].
Qed.

Lemma underscore_split a b c d :
  no_underscore a → no_underscore c → a +:+ "_" +:+ b = c +:+ "_" +:+ d → a = c ∧ b = d.
Proof.
  revert c. induction a as [|x a IH]; intros [|y c] Ha Hc; simpl in *; [intros [= Heq]; by split| | |].
  - intros [= <- _]. by destruct Hc.
  - intros [= -> _]. by destruct Ha.
  - intros [= -> Heq]. destruct (IH c) as [-> ->]; naive_solver.
Qed.

Lemma underscore_none a b c : no_underscore a → a ≠ c +:+ "_" +:+ b.
Proof.
  revert c. induction a as [|x a IH]; intros [|y c] Ha; simpl in *; [done|done| |].
  - intros [= -> _]. by destruct Ha.
  - intros [= -> Heq]. by eapply (IH c); naive_solver.
Qed.

(** The keys of a request are built from its decimal name. *)
Lemma payload_key_form r n keys key :
  request_payload_keys r n = inr keys → key ∈ keys →
  (n = 1 ∧ key = pretty r) ∨ (1 < n ∧ ∃ i, 0 ≤ i < n ∧ key = pretty r +:+ "_" +:+ pretty i).
Proof.
  unfold request_payload_keys. case_bool_decide; [done|]. case_bool_decide as Hn; intros [= <-] Hk.
  - left. set_solver.
  - right. split; [lia|]. apply list_elem_of_fmap in Hk as (i & -> & Hi%elem_of_zrange). eauto.
Qed.

(** The payload keys of a request are as many as its trajectories and
    pairwise different, and different requests never share a key whatever their
    trajectory counts, so clearing the payload of one request cannot drop the
    payload of another. *)
Theorem payload_keys_disjoint (r r' n n' : Z) (keys keys' : list string) :
  request_payload_keys r n = inr keys → request_payload_keys r' n' = inr keys' →
  (NoDup keys ∧ Z.of_nat (length keys) = n) ∧ (r ≠ r' → ∀ key, key ∈ keys → key ∉ keys').
Proof.
  intros Hk Hk'. split.
  - unfold request_payload_keys in Hk. case_bool_decide; [done|]. case_bool_decide; injection Hk as <-.
    + split; [by apply NoDup_singleton|simpl; lia].
    + rewrite length_fmap. unfold zrange. rewrite length_seqZ. split; [|lia].
      apply NoDup_fmap_2_strong; [|apply NoDup_seqZ]. intros i j _ _ Heq.
      apply underscore_split in Heq as [_ Heq]; [|apply pretty_Z_underscore..]. by apply (inj pretty).
  - intros Hne key Hin Hin'. apply Hne, (inj pretty).
    destruct (payload_key_form _ _ _ _ Hk Hin) as [[_ ->]|(_ & i & _ & ->)];
      destruct (payload_key_form _ _ _ _ Hk' Hin') as [[_ Heq]|(_ & j & _ & Heq)].
    + done.
    + by destruct (underscore_none (pretty r) (pretty j) (pretty r')); [apply pretty_Z_underscore|].
    + by destruct (underscore_none (pretty r') (pretty i) (pretty r)); [apply pretty_Z_underscore|].
    + apply underscore_split in Heq as [Heq _]; [done|apply pretty_Z_underscore..].
Qed.

Lemma payload_keys_disjoint_witness :
  request_payload_keys 12 2 = inr ["12_0"; "12_1"] ∧ "12_1" ∉ ["1_0"; "1_1"; "1_2"].
Proof.
  split; [vm_compute; reflexivity|].
  apply (payload_keys_disjoint 12 1 2 3 ["12_0"; "12_1"] ["1_0"; "1_1"; "1_2"]);
    [vm_compute; reflexivity|vm_compute; reflexivity|done|set_solver].
Defined.

(** ** Publishing a batch *)

Lemma filter_nil_iff {A} (P : A → Prop) `{∀ x, Decision (P x)} (l : list A) :
  filter P l = [] ↔ ∀ x, x ∈ l → ¬ P x.
Proof.
  split.
  - intros Hnil x Hx HP. assert (x ∈ filter P l) as Hin by (by apply list_elem_of_filter). rewrite Hnil in Hin. set_solver.
  - intros Hall. destruct (filter P l) as [|x l'] eqn:E; [done|].
    assert (x ∈ filter P l) as [HP Hin]%list_elem_of_filter by (rewrite E; set_solver). by destruct (Hall x).
Qed.

Lemma count_NoDup (keys : list string) :
  (∀ key, key ∈ keys → ¬ (1 < length (filter (λ k, k = key) keys))%nat) ↔ NoDup keys.
Proof.
  assert (∀ (key : string) l, key ∈ l ↔ (0 < length (filter (λ k, k = key) l))%nat) as Hin.
  { intros key l. induction l as [|x l IH]; [rewrite elem_of_nil; simpl; lia|]. rewrite filter_cons, elem_of_cons, IH.
    case_decide as Hx; simpl; [split; [lia|intros _; by left]|]. split; [|by right]. intros [->|?]; [done|lia]. }
  induction keys as [|x keys IH]; [split; [constructor|set_solver]|]. rewrite NoDup_cons, <-IH. split.
  - intros Hc. split.
    + intros Hx. apply (Hc x); [set_solver|]. rewrite filter_cons, decide_True by done. simpl. apply Hin in Hx. lia.
    + intros key Hk Hlt. apply (Hc key); [set_solver|]. rewrite filter_cons. case_decide; simpl; lia.
  - intros [Hx Hc] key Hk. rewrite filter_cons. rewrite Hin in Hx. case_decide; simpl; [subst; lia|].
    apply Hc. set_solver.
Qed.

(** [validate_ready_payload] accepts exactly the batches without repeated
    keys all of whose keys are committed with status [success] in the
    partition; otherwise it raises [RuntimeError]. *)
Theorem validate_ready_payload_exact (keys : list string) (partition_id : string) (partitions : gmap string partition) :
  let part := default ∅ (partitions !! partition_id) in
  let ok := NoDup keys ∧ ∀ key, key ∈ keys → part !! key = Some (Some "success") in
  (validate_ready_payload keys partition_id partitions = inr tt ↔ ok) ∧
  (validate_ready_payload keys partition_id partitions = inl RuntimeError ↔ ¬ ok).
Proof.
  intros part ok. unfold validate_ready_payload. fold part.
  assert (duplicate_keys keys = [] ∧ missing_keys keys part = [] ∧ non_success_keys keys part = [] ↔ ok) as Hok.
  { unfold duplicate_keys, missing_keys, non_success_keys. rewrite !filter_nil_iff.
    setoid_rewrite elem_of_remove_dups. unfold ok. rewrite <-count_NoDup.
    split.
    - intros (Hd & Hm & Hs). split; [done|]. intros key Hk. specialize (Hm key Hk). specialize (Hs key Hk).
      destruct (part !! key) as [st|] eqn:E; [|done]. destruct (decide (st = Some "success")) as [->|]; [done|].
      exfalso. apply Hs. split; [done|congruence].
    - intros [Hd Hall]. split_and!; [done|intros key Hk; by rewrite (Hall key Hk)|].
      intros key Hk [_ Hne]. by apply Hne, Hall. }
  rewrite <-Hok. destruct (duplicate_keys keys), (missing_keys keys part), (non_success_keys keys part); naive_solver.
Qed.
