(* ===== verification/RequestStatusTracker.v ===== *)
(** * Request status tracker

    [RequestStatusTracker] ([psrl/workers/ps/request_status_tracker.py]): the
    status, the metadata and the abort mark of every request in flight.  The
    messages it sends to the rollout coordinator, the reward manager and the
    TransferQueue are recorded in order in [sent]. *)

From S2P Require Import Prelude.
From S2P Require Import StalenessBuffer.
From S2P Require Import TransferQueue.

#[local] Open Scope Z_scope.

(** ** Data *)

Module RequestStatus.
Inductive t :=
  | PENDING | RUNNING | ROLLOUT_ROUTING | ROLLOUT_DISPATCHED | ROLLOUT_RUNNING
  | ROLLOUT_INTERRUPTED | ROLLOUT_COMPLETED | REWARD_RUNNING | REWARD_COMPLETED | COMPLETED.

#[export] Instance t_eq_dec : EqDecision t.
Proof. solve_decision. Defined.

(** [TQ_PAYLOAD_CLEANUP_STATUSES]: the statuses in which a payload may be committed. *)
Definition needs_cleanup (st : t) : bool :=
  match st with ROLLOUT_COMPLETED | REWARD_RUNNING | REWARD_COMPLETED => true | _ => false end.
End RequestStatus.
Export (hints) RequestStatus.

Inductive Message :=
  | AbortRollout (instance_to_uids : list (RolloutInstanceId * gset Z)) (blocking : bool)
  | AbortReward (uids : gset Z) (blocking : bool)
  | ClearPayload (keys : list string) (partition_id : string).

Record RequestStatusTracker := mkTracker {
  request_id_to_status : gmap Z RequestStatus.t;
  request_infos : gmap Z RequestInfo;
  status_to_request_ids : RequestStatus.t → gset Z;
  abort_request_ids : gset Z;
  running_min_version : Z;
  trk_rollout_n : Z;
  alg_rollout_n : Z;
  val_rollout_n : Z;
  has_coordinator : bool;      (* [self.rollout_coordinator is not None] *)
  has_reward_manager : bool;   (* [self.reward_manager is not None] *)
  sent : list Message;
}.

Definition new_tracker (rollout_n alg_rollout_n val_rollout_n : Z) : RequestStatusTracker :=
  mkTracker ∅ ∅ (λ _, ∅) ∅ 0 rollout_n alg_rollout_n val_rollout_n false false [].

Definition with_statuses v t := mkTracker v (request_infos t) (status_to_request_ids t) (abort_request_ids t) (running_min_version t) (trk_rollout_n t) (alg_rollout_n t) (val_rollout_n t) (has_coordinator t) (has_reward_manager t) (sent t).
Definition with_infos v t := mkTracker (request_id_to_status t) v (status_to_request_ids t) (abort_request_ids t) (running_min_version t) (trk_rollout_n t) (alg_rollout_n t) (val_rollout_n t) (has_coordinator t) (has_reward_manager t) (sent t).
Definition with_by_request_status v t := mkTracker (request_id_to_status t) (request_infos t) v (abort_request_ids t) (running_min_version t) (trk_rollout_n t) (alg_rollout_n t) (val_rollout_n t) (has_coordinator t) (has_reward_manager t) (sent t).
Definition with_abort v t := mkTracker (request_id_to_status t) (request_infos t) (status_to_request_ids t) v (running_min_version t) (trk_rollout_n t) (alg_rollout_n t) (val_rollout_n t) (has_coordinator t) (has_reward_manager t) (sent t).
Definition with_min_version v t := mkTracker (request_id_to_status t) (request_infos t) (status_to_request_ids t) (abort_request_ids t) v (trk_rollout_n t) (alg_rollout_n t) (val_rollout_n t) (has_coordinator t) (has_reward_manager t) (sent t).
Definition with_sent v t := mkTracker (request_id_to_status t) (request_infos t) (status_to_request_ids t) (abort_request_ids t) (running_min_version t) (trk_rollout_n t) (alg_rollout_n t) (val_rollout_n t) (has_coordinator t) (has_reward_manager t) v.
Definition with_handles c r t := mkTracker (request_id_to_status t) (request_infos t) (status_to_request_ids t) (abort_request_ids t) (running_min_version t) (trk_rollout_n t) (alg_rollout_n t) (val_rollout_n t) c r (sent t).

Definition req_with_instance v r := mkRequestInfo v (req_prompt_id r) (req_idx r) (req_version r) (req_n_trajectory r) (req_is_validate r).
Definition req_with_version v r := mkRequestInfo (req_instance r) (req_prompt_id r) (req_idx r) v (req_n_trajectory r) (req_is_validate r).
Definition req_with_n_trajectory v r := mkRequestInfo (req_instance r) (req_prompt_id r) (req_idx r) (req_version r) v (req_is_validate r).

Abbreviation Trk := (M RequestStatusTracker).

Definition set_rollout_coordinator : Trk unit := modify (λ t, with_handles true (has_reward_manager t) t).
Definition set_reward_manager : Trk unit := modify (λ t, with_handles (has_coordinator t) true t).

Definition send (m : Message) : Trk unit := modify (λ t, with_sent (sent t ++ [m]) t).

(** A remote call through an actor handle that may still be [None]. *)
Definition call (handle : bool) (m : Message) : Trk unit := if handle then send m else raise AttributeError.

(** An argument [T | list[T]] made a list of [n] values. *)
Definition spread {A} (n : nat) (f : one_or_many A) : list A :=
  match f with One a => replicate n a | Many l => l end.

(** ** Removal *)

Definition remove_one (req_id : Z) (t : RequestStatusTracker) : RequestStatusTracker :=
  let t := match request_id_to_status t !! req_id with
           | Some st => with_statuses (delete req_id (request_id_to_status t))
                          (with_by_request_status (<[st := status_to_request_ids t st ∖ {[req_id]}]> (status_to_request_ids t)) t)
           | None => t
           end in
  let t := with_infos (delete req_id (request_infos t)) t in
  with_abort (abort_request_ids t ∖ {[req_id]}) t.

Definition remove_request (request_ids : list Z) : Trk unit :=
  for_each request_ids (λ req_id, modify (remove_one req_id)).

Definition check_aborted_request (request_id : Z) (remove : bool) : Trk bool :=
  t ← gets id;
  if bool_decide (request_id ∈ abort_request_ids t) then
    (if remove then remove_request [request_id] else mret tt) ;; mret true
  else match request_id_to_status t !! request_id with
  | None => assert (bool_decide (request_infos t !! request_id = None)) ;; mret true
  | Some _ =>
      match request_infos t !! request_id with
      | None => assert (bool_decide (request_id_to_status t !! request_id = None)) ;; mret true
      | Some _ => mret false
      end
  end.

Definition request_tq_keys (request_id : Z) : Trk (list string) :=
  t ← gets id;
  info ← of_option KeyError (request_infos t !! request_id);
  of_res (request_payload_keys request_id (req_n_trajectory info)).

(** ** Status updates *)

(** The metadata written back before the staleness check. *)
Definition refresh_info (model_version : Z) (inst : RolloutInstanceId) (info : RequestInfo) : RequestInfo :=
  let info := if bool_decide (inst ≠ INVALID_ROLLOUT_INSTANCE_ID) then req_with_instance inst info else info in
  if bool_decide (model_version ≠ -1) then req_with_version model_version info else info.

Definition is_stale (t : RequestStatusTracker) (is_validate : bool) (info : RequestInfo) : bool :=
  negb is_validate && bool_decide (req_version info ≠ -1 ∧ req_version info < running_min_version t).

(** [old_status] is left only when it differs; the id is added to the new set. *)
Definition move_status (req_id : Z) (new : RequestStatus.t) (t : RequestStatusTracker) : RequestStatusTracker :=
  match request_id_to_status t !! req_id with
  | Some old =>
      let sets := if decide (old = new) then status_to_request_ids t
                  else <[old := status_to_request_ids t old ∖ {[req_id]}]> (status_to_request_ids t) in
      with_statuses (<[req_id := new]> (request_id_to_status t))
        (with_by_request_status (<[new := {[req_id]} ∪ sets new]> sets) t)
  | None => t
  end.

(** One request of [update_request_status]: whether it was updated, and the
    payload keys to be dropped. *)
Definition update_one (req_id : Z) (status : option RequestStatus.t) (model_version : Z)
    (inst : RolloutInstanceId) (is_validate : bool) : Trk (bool * list string) :=
  aborted ← check_aborted_request req_id true;
  if aborted : bool then mret (false, [])
  else
    t ← gets id;
    info ← of_option KeyError (request_infos t !! req_id);
    let info := refresh_info model_version inst info in
    modify (λ t, with_infos (<[req_id := info]> (request_infos t)) t) ;;
    if is_stale t is_validate info then
      keys ← (match request_id_to_status t !! req_id with
              | Some st => if RequestStatus.needs_cleanup st then request_tq_keys req_id else mret []
              | None => mret []
              end);
      mret (false, keys)
    else
      of_option KeyError (request_id_to_status t !! req_id) ;;
      new ← of_option IndexError status;
      modify (move_status req_id new) ;;
      mret (true, []).

Definition partition_of (is_validate : bool) : string := if is_validate then "val" else "train".

Definition update_request_status (request_id : one_or_many Z) (status : one_or_many RequestStatus.t)
    (model_version : one_or_many Z) (rollout_instance_id : one_or_many RolloutInstanceId) (is_validate : bool)
    : Trk (one_or_many bool) :=
  let ids := match request_id with One i => [i] | Many l => l end in
  let n := length ids in
  let versions := spread n model_version in
  let insts := spread n rollout_instance_id in
  let statuses := spread n status in
  assert (bool_decide (n = length versions ∧ length versions = length insts)) ;;
  '(success, keys) ← fold_each (imap (λ i x, (i, x)) (zip (zip ids versions) insts)) ([], [])
    (λ '(i, (req_id, version, inst)) '(success, keys),
      '(ok, ks) ← update_one req_id (statuses !! i) version inst is_validate;
      mret (success ++ [ok], keys ++ ks));
  (match keys with [] => mret tt | _ => send (ClearPayload keys (partition_of is_validate)) end) ;;
  mret (match success with [b] => One b | _ => Many success end).

Definition get_request_status (request_ids : list Z) (t : RequestStatusTracker) : Res (list RequestStatus.t) :=
  match mapM (λ req_id, request_id_to_status t !! req_id) request_ids with
  | Some l => inr l
  | None => inl KeyError
  end.

Definition remove_train_ready_request (request_ids : list Z) : Trk unit :=
  for_each request_ids (λ req_id,
    t ← gets id;
    assert (bool_decide (is_Some (request_id_to_status t !! req_id))) ;;
    assert (bool_decide (is_Some (request_infos t !! req_id))) ;;
    assert (bool_decide (request_id_to_status t !! req_id = Some RequestStatus.COMPLETED)) ;;
    assert (bool_decide (req_id ∉ abort_request_ids t))) ;;
  remove_request request_ids.

(** ** Registration *)

Definition add_one (req_id : Z) (inst : RolloutInstanceId) (version : Z) (status : RequestStatus.t)
    (is_validate : bool) (t : RequestStatusTracker) : RequestStatusTracker :=
  let n := if is_validate then val_rollout_n t else trk_rollout_n t in
  with_by_request_status (<[status := {[req_id]} ∪ status_to_request_ids t status]> (status_to_request_ids t))
    (with_statuses (<[req_id := status]> (request_id_to_status t))
      (with_infos (<[req_id := mkRequestInfo inst (req_id / n) (req_id mod n) version 1 is_validate]> (request_infos t)) t)).

Definition add_request (request_id : one_or_many Z) (rollout_instance_id : one_or_many RolloutInstanceId)
    (model_version : one_or_many Z) (status : one_or_many RequestStatus.t) (is_validate : one_or_many bool) : Trk unit :=
  let ids := match request_id with One i => [i] | Many l => l end in
  let n := length ids in
  let insts := spread n rollout_instance_id in
  let versions := spread n model_version in
  let statuses := spread n status in
  let validates := spread n is_validate in
  assert (bool_decide (n = length insts ∧ length insts = length versions ∧ length versions = length statuses
                       ∧ length statuses = length validates)) ;;
  for_each (zip (zip (zip (zip ids insts) versions) statuses) validates)
    (λ '(req_id, inst, version, st, v), modify (add_one req_id inst version st v)).

Definition update_request_n_trajectory_info (request_id n_trajectory : Z) : Trk unit :=
  (if bool_decide (n_trajectory < 1) then raise ValueError else mret tt) ;;
  t ← gets id;
  info ← of_option KeyError (request_infos t !! request_id);
  modify (λ t, with_infos (<[request_id := req_with_n_trajectory n_trajectory info]> (request_infos t)) t).

(** ** Classification *)

(** [d.setdefault(k, set()).add(x)] on an insertion-ordered dictionary. *)
Fixpoint dict_add {K} `{EqDecision K} (k : K) (x : Z) (d : list (K * gset Z)) : list (K * gset Z) :=
  match d with
  | [] => [(k, {[x]})]
  | (k', X) :: d => if decide (k' = k) then (k', {[x]} ∪ X) :: d else (k', X) :: dict_add k x d
  end.

Fixpoint classify {K} `{EqDecision K} (key : Z → option K) (ids : list Z) (d : list (K * gset Z))
    : Res (list (K * gset Z)) :=
  match ids with
  | [] => inr d
  | x :: ids => match key x with Some k => classify key ids (dict_add k x d) | None => inl KeyError end
  end.

Definition classify_requests_in_status (ids : list Z) (t : RequestStatusTracker) : Res (list (RequestStatus.t * gset Z)) :=
  classify (λ x, request_id_to_status t !! x) ids [].

Definition classify_requests_in_instance (ids : list Z) (t : RequestStatusTracker) : Res (list (RolloutInstanceId * gset Z)) :=
  classify (λ x, req_instance <$> request_infos t !! x) ids [].

(** The requests a classification puts in one class. *)
Definition in_class {K} `{EqDecision K} (k : K) (d : list (K * gset Z)) : gset Z :=
  ⋃ ((λ kx : K * gset Z, if decide (kx.1 = k) then kx.2 else ∅) <$> d).

Section ordered.
Context `{SetOrder}.

(** [_abort_requests]: mark, tell the stage that runs each request, drop the
    completed ones and the payloads that may be committed. *)
Definition abort_requests_status (request_ids : list Z) (blocking : bool) : Trk unit :=
  t ← gets id;
  let filtered := filter (λ x, is_Some (request_id_to_status t !! x)) (set_iter (list_to_set request_ids)) in
  modify (λ t, with_abort (abort_request_ids t ∪ list_to_set filtered) t) ;;
  t ← gets id;
  classes ← of_res (classify_requests_in_status filtered t);
  let for_rollout := in_class RequestStatus.ROLLOUT_RUNNING classes in
  let for_reward := in_class RequestStatus.REWARD_RUNNING classes in
  let for_completed := in_class RequestStatus.COMPLETED classes in
  keys ← fold_each classes [] (λ '(st, ids) keys,
    if RequestStatus.needs_cleanup st
    then fold_each (set_iter ids) keys (λ x keys, ks ← request_tq_keys x; mret (keys ++ ks))
    else mret keys);
  (if bool_decide (for_rollout = ∅) then mret tt
   else groups ← of_res (classify_requests_in_instance (set_iter for_rollout) t); call (has_coordinator t) (AbortRollout groups blocking)) ;;
  (if bool_decide (for_reward = ∅) then mret tt else call (has_reward_manager t) (AbortReward for_reward blocking)) ;;
  (if bool_decide (for_completed = ∅) then mret tt else remove_request (set_iter for_completed)) ;;
  (match keys with [] => mret tt | _ => send (ClearPayload keys "train") end).
End ordered.

(** ** Queries and version updates *)

Definition get_recorded_child_requests (parent_ids : list Z) (is_validate : bool) (t : RequestStatusTracker) : gset Z :=
  let n := if is_validate then val_rollout_n t else trk_rollout_n t in
  list_to_set (filter (λ c, is_Some (request_infos t !! c)) (pid ← parent_ids; (λ i, pid * n + i) <$> zrange 0 n)).

(** With more than one id the list itself is used as a dictionary key, which is
    not hashable. *)
Definition get_request_info (request_ids : list Z) (t : RequestStatusTracker) : Res RequestInfo :=
  match mapM (λ req_id, request_infos t !! req_id) request_ids with
  | None => inl KeyError
  | Some [info] => inr info
  | Some _ => inl TypeError
  end.

(** [info.request_id] is not a field of [EntryInfo]. *)
Definition update_request_info (entry_infos : list RequestInfo) : Trk unit :=
  for_each entry_infos (λ _, raise AttributeError).

Definition clear_request_status_manager : Trk unit :=
  modify (λ t, with_statuses ∅ (with_by_request_status (λ _, ∅) (with_infos ∅ (with_abort ∅ t)))).

Definition get_requests_by_status (status : RequestStatus.t) (t : RequestStatusTracker) : gset Z := status_to_request_ids t status.

Definition get_requests_ids_of_version (version : Z) : Trk (gset Z) :=
  assert (bool_decide (0 ≤ version)) ;;
  t ← gets id;
  mret (dom (filter (λ kv, req_version kv.2 = version) (request_infos t))).

(** A Python [set] of [EntryInfo], whose equality and hash are those of
    [prompt_id]: it has one element per prompt, given here by the prompt id. *)
Definition get_dispatched_requests_of_instance (instance_id : RolloutInstanceId) (t : RequestStatusTracker) : gset Z :=
  list_to_set (req_prompt_id ∘ snd <$> filter (λ kv : Z * RequestInfo, req_instance kv.2 = instance_id) (map_to_list (request_infos t))).

(** Not only a query: requests of this version and older ones become stale. *)
Definition get_requests_of_abort_version (version : Z) : Trk (gset Z) :=
  assert (bool_decide (0 ≤ version)) ;;
  t ← gets id;
  let ids := dom (filter (λ kv, (kv.1 ∉ abort_request_ids t) ∧ req_is_validate kv.2 = false ∧ req_version kv.2 = version)
                    (request_infos t)) in
  modify (λ t, with_min_version (Z.max (running_min_version t) (version + 1)) t) ;;
  mret ids.

Definition update_request_version (request_ids : list Z) (new_version : Z) : Trk unit :=
  for_each request_ids (λ req_id,
    t ← gets id;
    info ← of_option KeyError (request_infos t !! req_id);
    modify (λ t, with_infos (<[req_id := req_with_version new_version info]> (request_infos t)) t)).

(** Writes the attribute [instance], which no code reads. *)
Definition update_request_instance (request_ids : list Z) (new_instance : Z) : Trk unit :=
  for_each request_ids (λ req_id,
    t ← gets id;
    of_option KeyError (request_infos t !! req_id) ;; mret tt).

(** ** Invariant

    The three maps agree: a request has a status exactly when it has metadata,
    it is in the set of its status and in no other, and only tracked requests
    are marked for abortion. *)
Record tracker_ok (t : RequestStatusTracker) : Prop := {
  tk_dom x : is_Some (request_id_to_status t !! x) ↔ is_Some (request_infos t !! x);
  tk_sets st x : x ∈ status_to_request_ids t st ↔ request_id_to_status t !! x = Some st;
  tk_abort x : x ∈ abort_request_ids t → is_Some (request_id_to_status t !! x);
  tk_trajectories x info : request_infos t !! x = Some info → 1 ≤ req_n_trajectory info;
}.

Section tracker.
Implicit Types (t : RequestStatusTracker) (x y : Z) (st : RequestStatus.t).

Lemma new_tracker_ok n a v : tracker_ok (new_tracker n a v).
Proof. split; simpl; intros *; rewrite ?lookup_empty; set_solver. Qed.

Lemma tk_None t x : tracker_ok t → request_id_to_status t !! x = None ↔ request_infos t !! x = None.
Proof. intros Hok. rewrite !eq_None_not_Some. by rewrite (tk_dom _ Hok). Qed.

(** What removal leaves. *)
Lemma remove_one_lookup t x y :
  request_id_to_status (remove_one x t) !! y = (if decide (y = x) then None else request_id_to_status t !! y) ∧
  request_infos (remove_one x t) !! y = (if decide (y = x) then None else request_infos t !! y) ∧
  (y ∈ abort_request_ids (remove_one x t) ↔ y ≠ x ∧ y ∈ abort_request_ids t).
Proof.
  unfold remove_one. destruct (request_id_to_status t !! x) as [st|] eqn:Hx; simpl.
  - rewrite !lookup_delete. repeat case_decide; subst; set_solver.
  - rewrite lookup_delete. repeat case_decide; subst; set_solver.
Qed.

Lemma remove_one_ok t x : tracker_ok t → tracker_ok (remove_one x t).
Proof.
  intros Hok. pose proof (remove_one_lookup t x) as Hl. split.
  - intros y. destruct (Hl y) as (-> & -> & _). case_decide; [done|apply Hok].
  - intros st y. destruct (Hl y) as (-> & _ & _). unfold remove_one.
    pose proof (tk_sets _ Hok) as Hsets. pose proof (Hsets st y) as Hy.
    destruct (request_id_to_status t !! x) as [sx|] eqn:Hx; simpl.
    + unfold insert, fn_insert. case_decide; subst; case_decide; subst; set_solver.
    + case_decide; subst; set_solver.
  - intros y Hy. destruct (Hl y) as (-> & _ & Ha). apply Ha in Hy as [Hne Hy]. rewrite decide_False by done.
    by apply (tk_abort _ Hok).
  - intros y info. destruct (Hl y) as (_ & -> & _). case_decide; [done|]. apply Hok.
Qed.

Lemma remove_request_run t xs :
  tracker_ok t → ∃ t', remove_request xs t = Ret tt t' ∧ tracker_ok t' ∧
    (∀ y, request_id_to_status t' !! y = if decide (y ∈ xs) then None else request_id_to_status t !! y) ∧
    (∀ y, request_infos t' !! y = if decide (y ∈ xs) then None else request_infos t !! y) ∧
    (∀ y, y ∈ abort_request_ids t' ↔ (y ∉ xs) ∧ y ∈ abort_request_ids t) ∧
    sent t' = sent t ∧ running_min_version t' = running_min_version t.
Proof.
  revert t. induction xs as [|x xs IH]; intros t Hok; simpl.
  { exists t. split_and!; try done; intros y; [by rewrite decide_False by set_solver..|set_solver]. }
  unfold remove_request in *. simpl. rewrite run_modify.
  destruct (IH (remove_one x t)) as (t' & Hrun & Hok' & Hs & Hi & Ha & He & Hm); [by apply remove_one_ok|].
  exists t'. pose proof (remove_one_lookup t x) as Hl. split_and!; try done.
  - intros y. rewrite Hs. destruct (Hl y) as (-> & _). repeat case_decide; set_solver.
  - intros y. rewrite Hi. destruct (Hl y) as (_ & -> & _). repeat case_decide; set_solver.
  - intros y. rewrite Ha. destruct (Hl y) as (_ & _ & ->). set_solver.
  - rewrite He. unfold remove_one. by destruct (request_id_to_status t !! x).
  - rewrite Hm. unfold remove_one. by destruct (request_id_to_status t !! x).
Qed.

Lemma move_status_ok t x st : tracker_ok t → is_Some (request_id_to_status t !! x) → tracker_ok (move_status x st t).
Proof.
  intros Hok [old Hx]. unfold move_status. rewrite Hx. split; simpl; intros *.
  - rewrite lookup_insert. case_decide; subst; [|apply Hok]. rewrite <-(tk_dom _ Hok), Hx. done.
  - rewrite lookup_insert. pose proof (tk_sets _ Hok) as Hsets. unfold insert, fn_insert.
    pose proof (Hsets st0 x0). pose proof (Hsets old x0). pose proof (Hsets st x0).
    repeat case_decide; subst; set_solver.
  - intros Ha%(tk_abort _ Hok). rewrite lookup_insert. case_decide; [done|done].
  - apply Hok.
Qed.

Lemma info_update_ok t x info info' :
  tracker_ok t → request_infos t !! x = Some info → 1 ≤ req_n_trajectory info' →
  tracker_ok (with_infos (<[x := info']> (request_infos t)) t).
Proof.
  intros Hok Hx Hn. split; simpl; try apply Hok.
  - intros y. rewrite (tk_dom _ Hok), lookup_insert. case_decide; subst; [|done]. rewrite Hx. done.
  - intros y i. rewrite lookup_insert. case_decide; [by intros [= <-]|apply Hok].
Qed.

Lemma check_aborted_run t x :
  tracker_ok t →
  check_aborted_request x true t =
    Ret (bool_decide (x ∈ abort_request_ids t ∨ request_id_to_status t !! x = None))
      (if bool_decide (x ∈ abort_request_ids t) then remove_one x t else t).
Proof.
  intros Hok. unfold check_aborted_request. mrun. case_bool_decide as Ha.
  - rewrite bool_decide_true by auto. done.
  - destruct (request_id_to_status t !! x) as [st|] eqn:Hs.
    + destruct (request_infos t !! x) eqn:Hi; [by rewrite bool_decide_false by naive_solver|].
      apply tk_None in Hi; [congruence|done].
    + rewrite run_assert_decide by (by apply tk_None). by rewrite bool_decide_true by auto.
Qed.

Lemma refresh_trajectories v i info : req_n_trajectory (refresh_info v i info) = req_n_trajectory info.
Proof. unfold refresh_info. by repeat case_bool_decide. Qed.

Lemma payload_keys_ok x n : 1 ≤ n → ∃ keys, request_payload_keys x n = inr keys.
Proof. intros Hn. unfold request_payload_keys. rewrite bool_decide_false by lia. case_bool_decide; eauto. Qed.
End tracker.

(** ** One status update *)

(** The outcome of an update of [x]: refused because the request is marked for
    abortion, unknown or stale, or accepted. *)
Inductive verdict := Aborted | Unknown | Stale (info : RequestInfo) | Accepted (info : RequestInfo).

Definition judge (t : RequestStatusTracker) (x version : Z) (inst : RolloutInstanceId) (is_validate : bool) : verdict :=
  if bool_decide (x ∈ abort_request_ids t) then Aborted
  else match request_infos t !! x with
  | None => Unknown
  | Some info =>
      let info := refresh_info version inst info in
      if is_stale t is_validate info then Stale info else Accepted info
  end.

Definition is_accepted (v : verdict) : bool := match v with Accepted _ => true | _ => false end.

(** The tracker after the update. *)
Definition settle (x : Z) (st : RequestStatus.t) (v : verdict) (t : RequestStatusTracker) : RequestStatusTracker :=
  match v with
  | Aborted => remove_one x t
  | Unknown => t
  | Stale info => with_infos (<[x := info]> (request_infos t)) t
  | Accepted info => move_status x st (with_infos (<[x := info]> (request_infos t)) t)
  end.

Section updates.
Implicit Types (t : RequestStatusTracker) (x y version : Z) (st : RequestStatus.t) (inst : RolloutInstanceId).

Lemma update_one_run t x st version inst val :
  tracker_ok t → ∃ keys, update_one x (Some st) version inst val t =
    Ret (is_accepted (judge t x version inst val), keys) (settle x st (judge t x version inst val) t).
Proof.
  intros Hok. unfold update_one, judge. rewrite (run_bind _ _ _ _ _ (check_aborted_run t x Hok)).
  destruct (decide (x ∈ abort_request_ids t)) as [Ha|Ha]; [rewrite !bool_decide_true by auto; by exists []|].
  rewrite (bool_decide_false (x ∈ _)) by done.
  destruct (request_infos t !! x) as [info|] eqn:Hi; last first.
  { apply tk_None in Hi as Hs; [|done]. rewrite bool_decide_true by auto. by exists []. }
  assert (is_Some (request_id_to_status t !! x)) as [s0 Hs] by (apply (tk_dom _ Hok); rewrite Hi; done).
  rewrite bool_decide_false by naive_solver. mrun. rewrite (run_of_option _ _ info) by done. cbv zeta. rewrite run_modify.
  destruct (is_stale t val (refresh_info version inst info)); simpl.
  - rewrite Hs. destruct (RequestStatus.needs_cleanup s0); [|by exists []].
    destruct (payload_keys_ok x (req_n_trajectory info)) as [keys Hk]; [by eapply Hok|]. exists keys.
    unfold request_tq_keys. mrun. simpl. rewrite (run_of_option _ _ (refresh_info version inst info)) by (simpl; by rewrite lookup_insert_eq).
    by rewrite refresh_trajectories, Hk.
  - exists []. rewrite (run_of_option _ _ s0), (run_of_option _ _ st) by done. by rewrite run_modify.
Qed.

Lemma settle_ok t x st version inst val : tracker_ok t → tracker_ok (settle x st (judge t x version inst val) t).
Proof.
  intros Hok. unfold judge. case_bool_decide; [by apply remove_one_ok|].
  destruct (request_infos t !! x) as [info|] eqn:Hi; [|done].
  assert (tracker_ok (with_infos (<[x := refresh_info version inst info]> (request_infos t)) t)) as Hok'.
  { eapply info_update_ok; [done|done|]. rewrite refresh_trajectories. by eapply Hok. }
  destruct (is_stale _ _ _); simpl; [done|]. apply move_status_ok; [done|]. simpl. apply (tk_dom _ Hok). by rewrite Hi.
Qed.

Lemma settle_other t x y st version inst val :
  y ≠ x → let t' := settle x st (judge t x version inst val) t in
  request_id_to_status t' !! y = request_id_to_status t !! y ∧ request_infos t' !! y = request_infos t !! y ∧
  (y ∈ abort_request_ids t' ↔ y ∈ abort_request_ids t).
Proof.
  intros Hne t'. unfold t', judge. case_bool_decide; cbn [settle].
  { destruct (remove_one_lookup t x y) as (-> & -> & ->). rewrite !decide_False by done. naive_solver. }
  destruct (request_infos t !! x) as [info|] eqn:Hi; simpl; [|done].
  destruct (is_stale _ _ _); simpl; [by rewrite lookup_insert_ne by done|].
  unfold move_status. simpl. destruct (request_id_to_status t !! x); simpl; by rewrite ?lookup_insert_ne by done.
Qed.

Lemma settle_self t x st version inst val :
  tracker_ok t → let v := judge t x version inst val in
  request_id_to_status (settle x st v t) !! x =
    match v with Accepted _ => Some st | Aborted => None | _ => request_id_to_status t !! x end.
Proof.
  intros Hok v. unfold v, judge. case_bool_decide; cbn [settle].
  { destruct (remove_one_lookup t x x) as (-> & _). by rewrite decide_True. }
  destruct (request_infos t !! x) as [info|] eqn:Hi; simpl; [|done].
  destruct (is_stale _ _ _); simpl; [done|]. unfold move_status. simpl.
  assert (is_Some (request_id_to_status t !! x)) as [s0 ->] by (apply (tk_dom _ Hok); by rewrite Hi).
  simpl. by rewrite lookup_insert_eq.
Qed.

Lemma with_sent_ok t m : tracker_ok t → tracker_ok (with_sent m t).
Proof. intros []. by split. Qed.

(** The loop of a batch update never raises and keeps the invariant. *)
Lemma update_loop_run statuses val (l : list (nat * (Z * Z * RolloutInstanceId))) acc keys t :
  tracker_ok t → (∀ i r, (i, r) ∈ l → (i < length statuses)%nat) →
  ∃ acc' keys' t', fold_each l (acc, keys)
    (λ '(i, (req_id, version, inst)) '(success, keys),
      '(ok, ks) ← update_one req_id (statuses !! i) version inst val; mret (success ++ [ok], keys ++ ks)) t
    = Ret (acc', keys') t' ∧ tracker_ok t' ∧ length acc' = (length acc + length l)%nat.
Proof.
  revert acc keys t. induction l as [|[i [[x version] inst]] l IH]; intros acc keys t Hok Hl; simpl.
  { exists acc, keys, t. split_and!; [done|done|lia]. }
  destruct (lookup_lt_is_Some_2 statuses i) as [st Hst]; [apply (Hl i (x, version, inst)); set_solver|].
  destruct (update_one_run t x st version inst val Hok) as [ks Hone]. rewrite Hst, run_assoc, (run_bind _ _ _ _ _ Hone).
  rewrite run_mret.
  destruct (IH (acc ++ [is_accepted (judge t x version inst val)]) (keys ++ ks) (settle x st (judge t x version inst val) t))
    as (acc' & keys' & t' & Hrun & Hok' & Hlen); [by apply settle_ok|by intros j r Hj; apply (Hl j r); apply elem_of_cons; right|].
  exists acc', keys', t'. split_and!; [done|done|]. rewrite Hlen, length_app. simpl. lia.
Qed.
End updates.

(** ** Theorems *)

(** A batch status update over tracked, unknown and aborted requests alike
    never raises: it answers one boolean per request and keeps the three maps
    of the tracker consistent. *)
Theorem update_request_status_total (t : RequestStatusTracker) (ids versions : list Z)
    (statuses : list RequestStatus.t) (insts : list RolloutInstanceId) (val : bool) :
  tracker_ok t → length versions = length ids → length insts = length ids → length statuses = length ids →
  ∃ res t', update_request_status (Many ids) (Many statuses) (Many versions) (Many insts) val t = Ret res t' ∧
    tracker_ok t' ∧ match res with One _ => length ids = 1%nat | Many l => length l = length ids end.
Proof.
  intros Hok Hv Hi Hs. unfold update_request_status. simpl. rewrite run_assert_decide by lia.
  destruct (update_loop_run statuses val (imap (λ i x, (i, x)) (zip (zip ids versions) insts)) [] [] t Hok)
    as (acc & keys & t' & Hrun & Hok' & Hlen).
  { intros i r Hin. apply elem_of_lookup_imap in Hin as (j & y & [= -> ->] & Hj).
    apply lookup_lt_Some in Hj. rewrite !length_zip in Hj. lia. }
  rewrite (run_bind _ _ _ _ _ Hrun). simpl in Hlen. rewrite length_imap, !length_zip in Hlen.
  assert (length acc = length ids) as Hacc by lia.
  assert (match (match acc with [b] => One b | _ => Many acc end) with
          | One _ => length ids = 1%nat | Many l => length l = length ids end) as Hres.
  { by destruct acc as [|b [|]]. }
  destruct keys; eexists _, _; (split; [reflexivity|]); (split; [|exact Hres]); [done|by apply with_sent_ok].
Qed.


Lemma update_request_status_total_witness :
  ∃ res t', update_request_status (Many [4; 9]) (Many [RequestStatus.RUNNING; RequestStatus.RUNNING]) (Many [-1; -1])
    (Many [INVALID_ROLLOUT_INSTANCE_ID; INVALID_ROLLOUT_INSTANCE_ID]) false (new_tracker 2 2 1) = Ret res t' ∧ tracker_ok t'.
Proof.
  destruct (update_request_status_total (new_tracker 2 2 1) [4; 9] [-1; -1] [RequestStatus.RUNNING; RequestStatus.RUNNING]
    [INVALID_ROLLOUT_INSTANCE_ID; INVALID_ROLLOUT_INSTANCE_ID] false) as (res & t' & Hrun & Hok & _);
    [apply new_tracker_ok|reflexivity|reflexivity|reflexivity|].
  exists res, t'. split; [exact Hrun|exact Hok].
Defined.

Lemma update_single_run t x st version inst val :
  tracker_ok t → ∃ msgs, update_request_status (One x) (One st) (One version) (One inst) val t =
    Ret (One (is_accepted (judge t x version inst val)))
      (with_sent msgs (settle x st (judge t x version inst val) t)).
Proof.
  intros Hok. destruct (update_one_run t x st version inst val Hok) as [keys Hone].
  unfold update_request_status. rewrite run_assert_decide by done. cbn.
  rewrite !run_assoc, (run_bind _ _ _ _ _ Hone), !run_mret.
  set (t' := settle _ _ _ _). destruct keys; eexists.
  - unfold mret, M_ret, mbind, M_bind. f_equal. instantiate (1 := sent t'). by destruct t'.
  - reflexivity.
Qed.

(** One status update is exact: it answers [True] precisely when the request
    is tracked, not marked for abortion and not stale, and then records the new
    status; an aborted request is forgotten, an unknown or stale one keeps its
    status, and no other request is touched. *)
Theorem update_request_status_exact (t : RequestStatusTracker) (x version : Z) (st : RequestStatus.t)
    (inst : RolloutInstanceId) (val : bool) :
  tracker_ok t → let v := judge t x version inst val in
  ∃ t', update_request_status (One x) (One st) (One version) (One inst) val t = Ret (One (is_accepted v)) t' ∧
    tracker_ok t' ∧
    request_id_to_status t' !! x =
      match v with Accepted _ => Some st | Aborted => None | _ => request_id_to_status t !! x end ∧
    ∀ y, y ≠ x → request_id_to_status t' !! y = request_id_to_status t !! y ∧
      request_infos t' !! y = request_infos t !! y.
Proof.
  intros Hok v. destruct (update_single_run t x st version inst val Hok) as [msgs Hrun].
  eexists. split; [exact Hrun|]. split; [by apply with_sent_ok, settle_ok|]. split; [by apply settle_self|].
  intros y Hy. by destruct (settle_other t x y st version inst val Hy) as (? & ? & _).
Qed.

Lemma update_request_status_exact_witness :
  ∃ t', update_request_status (One 4) (One RequestStatus.RUNNING) (One (-1)) (One INVALID_ROLLOUT_INSTANCE_ID) false
      (new_tracker 2 2 1) = Ret (One false) t' ∧ tracker_ok t'.
Proof.
  destruct (update_request_status_exact (new_tracker 2 2 1) 4 (-1) RequestStatus.RUNNING INVALID_ROLLOUT_INSTANCE_ID false
    (new_tracker_ok 2 2 1)) as (t' & Hrun & Hok & _).
  exists t'. split; [exact Hrun|exact Hok].
Defined.

(** The staleness fence.  Once the requests of version [v] were collected for
    abortion, no training request of version [0 .. v] can change status any
    more: every later update is refused, whether or not the request was in the
    collected set. *)
Theorem abort_version_fences (t : RequestStatusTracker) (v x : Z) (info : RequestInfo) (st : RequestStatus.t) :
  tracker_ok t → 0 ≤ v → request_infos t !! x = Some info → 0 ≤ req_version info ≤ v →
  ∃ ids t1 t2, get_requests_of_abort_version v t = Ret ids t1 ∧
    update_request_status (One x) (One st) (One (-1)) (One INVALID_ROLLOUT_INSTANCE_ID) false t1 = Ret (One false) t2 ∧
    (request_id_to_status t2 !! x = request_id_to_status t !! x ∨ request_id_to_status t2 !! x = None).
Proof.
  intros Hok Hv Hi Hver. unfold get_requests_of_abort_version. rewrite run_assert_decide by done. mrun.
  set (t1 := with_min_version _ t). assert (tracker_ok t1) as Hok1 by (destruct Hok; by split).
  destruct (update_single_run t1 x st (-1) INVALID_ROLLOUT_INSTANCE_ID false Hok1) as [msgs Hrun].
  assert (judge t1 x (-1) INVALID_ROLLOUT_INSTANCE_ID false = Aborted ∨
          ∃ i, judge t1 x (-1) INVALID_ROLLOUT_INSTANCE_ID false = Stale i) as Hj.
  { unfold judge. case_bool_decide; [by left|right]. simpl. rewrite Hi. exists info.
    unfold refresh_info. rewrite !bool_decide_false by naive_solver. unfold is_stale. simpl.
    rewrite bool_decide_true; [done|]. lia. }
  eexists _, t1, (with_sent msgs (settle x st (judge t1 x (-1) INVALID_ROLLOUT_INSTANCE_ID false) t1)). split; [reflexivity|]. split.
  - rewrite Hrun. f_equal. f_equal. by destruct Hj as [->|[i ->]].
  - pose proof (settle_self t1 x st (-1) INVALID_ROLLOUT_INSTANCE_ID false Hok1) as Hs. simpl in Hs. cbn [with_sent request_id_to_status].
    rewrite Hs. destruct Hj as [->|[i ->]]; [by right|by left].
Qed.

Definition demo_info (x version : Z) : RequestInfo := mkRequestInfo INVALID_ROLLOUT_INSTANCE_ID x 0 version 1 false.
Definition demo_one (x version : Z) (st : RequestStatus.t) : RequestStatusTracker :=
  mkTracker {[x := st]} {[x := demo_info x version]} (λ s, if decide (s = st) then {[x]} else ∅) ∅ 0 1 1 1 true true [].

Lemma demo_one_ok x version st : tracker_ok (demo_one x version st).
Proof.
  split; simpl.
  - intros y. rewrite !lookup_singleton. by case_decide.
  - intros s y. rewrite lookup_singleton. repeat case_decide; set_solver.
  - set_solver.
  - intros y info. rewrite lookup_singleton. case_decide; [|done]. by intros [= <-].
Qed.

Lemma abort_version_fences_witness :
  ∃ ids t1 t2, get_requests_of_abort_version 3 (demo_one 7 2 RequestStatus.RUNNING) = Ret ids t1 ∧
    update_request_status (One 7) (One RequestStatus.COMPLETED) (One (-1)) (One INVALID_ROLLOUT_INSTANCE_ID) false t1
      = Ret (One false) t2.
Proof.
  destruct (abort_version_fences (demo_one 7 2 RequestStatus.RUNNING) 3 7 (demo_info 7 2) RequestStatus.COMPLETED)
    as (ids & t1 & t2 & H1 & H2 & _); [apply demo_one_ok|lia|reflexivity|simpl; lia|].
  exists ids, t1, t2. split; [exact H1|exact H2].
Defined.

(** Registering an id that is still tracked under another status leaves it in
    the set of its old status as well, so the status sets no longer partition
    the requests. *)
Theorem readding_breaks_partition :
  let add st := add_request (One 4) (One INVALID_ROLLOUT_INSTANCE_ID) (One 0) (One st) (One false) in
  let o := (add RequestStatus.RUNNING ;; add RequestStatus.PENDING) (new_tracker 1 1 1) in
  result o = inr tt ∧ request_id_to_status (final o) !! 4 = Some RequestStatus.PENDING ∧
  4 ∈ get_requests_by_status RequestStatus.RUNNING (final o) ∧ 4 ∈ get_requests_by_status RequestStatus.PENDING (final o) ∧
  ¬ tracker_ok (final o).
Proof.
  intros add o. split; [vm_compute; reflexivity|]. split; [vm_compute; reflexivity|].
  assert (4 ∈ get_requests_by_status RequestStatus.RUNNING (final o)) as Hr.
  { apply (bool_decide_unpack _). vm_compute. exact I. }
  split; [done|]. split; [apply (bool_decide_unpack _); vm_compute; exact I|]. intros Hok.
  apply (tk_sets _ Hok) in Hr. vm_compute in Hr. discriminate.
Qed.
