(* ===== verification/TrackerAbort.v ===== *)
(** * Aborting requests

    Proves what [_abort_requests] of the request status tracker does: it never
    raises, marks or removes exactly the tracked requests it is given, notifies
    the stage that runs each of them, and every later status update of such a
    request is refused. *)

From S2P Require Import Prelude.
From S2P Require Import StalenessBuffer.
From S2P Require Import TransferQueue.
From S2P Require Import RequestStatusTracker.

#[local] Open Scope Z_scope.

(** ** Classification *)

Section classify.
Context {K : Type} `{EqDecision K}.
Implicit Types (d : list (K * gset Z)) (k : K).

Lemma elem_of_in_class d k x : x ∈ in_class k d ↔ ∃ X, (k, X) ∈ d ∧ x ∈ X.
Proof.
  unfold in_class. rewrite elem_of_union_list. split.
  - intros (X & ([k' Y] & -> & Hin)%list_elem_of_fmap & Hx). simpl in Hx. case_decide; subst; set_solver.
  - intros (X & Hin & Hx). exists X. split; [|done]. apply list_elem_of_fmap. exists (k, X). simpl. by rewrite decide_True.
Qed.

Lemma in_class_add d k k' x y :
  y ∈ in_class k' (dict_add k x d) ↔ y ∈ in_class k' d ∨ (y = x ∧ k = k').
Proof.
  assert (∀ k0 X d0, y ∈ in_class k' ((k0, X) :: d0) ↔ (k0 = k' ∧ y ∈ X) ∨ y ∈ in_class k' d0) as Hcons.
  { intros k0 X d0. unfold in_class. simpl. rewrite elem_of_union. case_decide; set_solver. }
  induction d as [|[k0 X] d IH]; simpl.
  - rewrite Hcons. unfold in_class. simpl. set_solver.
  - destruct (decide (k0 = k)) as [->|]; rewrite !Hcons; [set_solver|]. rewrite IH. tauto.
Qed.

Lemma classify_run (key : Z → option K) ids d :
  (∀ x, x ∈ ids → is_Some (key x)) →
  ∃ d', classify key ids d = inr d' ∧
    ∀ k x, x ∈ in_class k d' ↔ x ∈ in_class k d ∨ (x ∈ ids ∧ key x = Some k).
Proof.
  revert d. induction ids as [|x ids IH]; intros d Hall; simpl; [exists d; set_solver|].
  destruct (Hall x) as [kx Hx]; [set_solver|]. rewrite Hx.
  destruct (IH (dict_add kx x d)) as (d' & Hd' & Hc); [set_solver|].
  exists d'. split; [done|]. intros k y. rewrite Hc, in_class_add, elem_of_cons.
  split; [naive_solver|]. intros [?|[[->|?] ?]]; [auto| |auto]. left. right. split; [done|congruence].
Qed.
End classify.

(** ** The payload keys *)

(** The keys a tracked request may have committed. *)
Definition payload_keys_of (t : RequestStatusTracker) (x : Z) : list string :=
  match request_infos t !! x with
  | Some info => match request_payload_keys x (req_n_trajectory info) with inr ks => ks | inl _ => [] end
  | None => []
  end.

Lemma tq_keys_run t x :
  tracker_ok t → is_Some (request_id_to_status t !! x) → request_tq_keys x t = Ret (payload_keys_of t x) t.
Proof.
  intros Hok Hs. apply (tk_dom _ Hok) in Hs as [info Hi].
  destruct (payload_keys_ok x (req_n_trajectory info)) as [ks Hk]; [by eapply Hok|].
  unfold request_tq_keys, payload_keys_of. mrun. rewrite (run_of_option _ _ info) by done. by rewrite Hi, Hk.
Qed.

(** A loop that only reads the state and extends a list. *)
Lemma fold_each_collect {S A B} (f : A → list B) (xs : list A) (acc : list B) (body : A → list B → M S (list B)) s :
  (∀ x acc, x ∈ xs → body x acc s = Ret (acc ++ f x) s) → fold_each xs acc body s = Ret (acc ++ (xs ≫= f)) s.
Proof.
  revert acc. induction xs as [|x xs IH]; intros acc Hall; simpl; [by rewrite app_nil_r|].
  rewrite (run_bind _ _ _ _ _ (Hall x acc ltac:(set_solver))). rewrite IH by (intros; apply Hall; set_solver).
  by rewrite app_assoc.
Qed.

Section abort.
Context `{SetOrder}.
Implicit Types (t : RequestStatusTracker) (ids : list Z).

Definition class_keys t (c : RequestStatus.t * gset Z) : list string :=
  if RequestStatus.needs_cleanup c.1 then set_iter c.2 ≫= payload_keys_of t else [].

Lemma payload_loop_run t classes :
  tracker_ok t → (∀ st X x, (st, X) ∈ classes → x ∈ X → is_Some (request_id_to_status t !! x)) →
  fold_each classes [] (λ '(st, ids) keys,
    if RequestStatus.needs_cleanup st
    then fold_each (set_iter ids) keys (λ x keys, ks ← request_tq_keys x; mret (keys ++ ks))
    else mret keys) t = Ret (classes ≫= class_keys t) t.
Proof.
  intros Hok Hall. rewrite (fold_each_collect (class_keys t)); [done|]. intros [st X] acc Hin. unfold class_keys. simpl.
  destruct (RequestStatus.needs_cleanup st); [|by rewrite app_nil_r].
  apply fold_each_collect. intros x acc' Hx. rewrite (run_bind _ _ _ _ _ (tq_keys_run t x Hok ltac:(eapply Hall; [done|by apply set_iter_elem]))).
  done.
Qed.

(** The requests an abort marks: those given that are tracked. *)
Definition marked t ids : gset Z :=
  abort_request_ids t ∪ list_to_set (filter (λ x, is_Some (request_id_to_status t !! x)) (set_iter (list_to_set ids))).

Lemma elem_of_marked t ids x :
  x ∈ marked t ids ↔ x ∈ abort_request_ids t ∨ (x ∈ ids ∧ is_Some (request_id_to_status t !! x)).
Proof.
  unfold marked. rewrite elem_of_union, elem_of_list_to_set, list_elem_of_filter, set_iter_elem, elem_of_list_to_set. tauto.
Qed.

Lemma marked_ok t ids : tracker_ok t → tracker_ok (with_abort (marked t ids) t).
Proof.
  intros Hok. split; simpl; try apply Hok. intros x [Hx|[_ Hx]]%elem_of_marked; [by apply (tk_abort _ Hok)|done].
Qed.

(** [x] is dropped at once: it was given and already completed. *)
Definition finished t ids (x : Z) : Prop := x ∈ ids ∧ request_id_to_status t !! x = Some RequestStatus.COMPLETED.

#[global] Instance finished_dec t ids x : Decision (finished t ids x).
Proof. unfold finished. apply _. Defined.

(** What the other actors are told about a request. *)
Definition told_rollout t (blocking : bool) (msgs : list Message) (x : Z) : Prop :=
  ∃ groups inst, AbortRollout groups blocking ∈ msgs ∧ x ∈ in_class inst groups ∧
    req_instance <$> request_infos t !! x = Some inst.
Definition told_reward (blocking : bool) (msgs : list Message) (x : Z) : Prop :=
  ∃ X, AbortReward X blocking ∈ msgs ∧ x ∈ X.
Definition told_queue (msgs : list Message) (k : string) : Prop :=
  ∃ keys, ClearPayload keys "train" ∈ msgs ∧ k ∈ keys.

(** The handles of the two stages have been set. *)
Definition stages_bound t : Prop := has_coordinator t = true ∧ has_reward_manager t = true.

Lemma extend_nothing t : with_sent (sent t ++ []) t = t.
Proof. rewrite app_nil_r. by destruct t. Qed.

Lemma classes_run t ids :
  ∃ classes, classify_requests_in_status
      (filter (λ x, is_Some (request_id_to_status t !! x)) (set_iter (list_to_set ids))) (with_abort (marked t ids) t) = inr classes ∧
    ∀ k x, x ∈ in_class k classes ↔ x ∈ ids ∧ request_id_to_status t !! x = Some k.
Proof.
  destruct (classify_run (λ x, request_id_to_status t !! x)
    (filter (λ x, is_Some (request_id_to_status t !! x)) (set_iter (list_to_set ids))) []) as (classes & Hcl & Hin).
  { by intros x [Hx _]%list_elem_of_filter. }
  exists classes. split; [done|]. intros k x. rewrite Hin, list_elem_of_filter, set_iter_elem, elem_of_list_to_set.
  unfold in_class at 1. simpl. split; [set_solver|]. intros [Hx Hs]. right. rewrite Hs. eauto.
Qed.

Lemma abort_rollout_run t (X : gset Z) blocking :
  has_coordinator t = true → (∀ x, x ∈ X → is_Some (request_infos t !! x)) →
  ∃ msgs, (if bool_decide (X = ∅) then mret tt
           else groups ← of_res (classify_requests_in_instance (set_iter X) t);
                call (has_coordinator t) (AbortRollout groups blocking)) t = Ret tt (with_sent (sent t ++ msgs) t) ∧
    ∀ x, x ∈ X → told_rollout t blocking msgs x.
Proof.
  intros Hc HX. case_bool_decide as He; [exists []; rewrite extend_nothing; set_solver|].
  destruct (classify_run (λ x, req_instance <$> request_infos t !! x) (set_iter X) []) as (groups & Hg & Hin).
  { intros x Hx%set_iter_elem. destruct (HX x Hx) as [i ->]. done. }
  exists [AbortRollout groups blocking]. split.
  - unfold classify_requests_in_instance. rewrite (run_of_res _ groups) by done. by rewrite Hc.
  - intros x Hx. destruct (HX x Hx) as [i Hi]. exists groups, (req_instance i). split_and!; [set_solver| |by rewrite Hi].
    apply Hin. right. split; [by apply set_iter_elem|by rewrite Hi].
Qed.

Lemma abort_reward_run t (X : gset Z) blocking :
  has_reward_manager t = true →
  ∃ msgs, (if bool_decide (X = ∅) then mret tt else call (has_reward_manager t) (AbortReward X blocking)) t =
      Ret tt (with_sent (sent t ++ msgs) t) ∧
    ∀ x, x ∈ X → told_reward blocking msgs x.
Proof.
  intros Hr. case_bool_decide as He; [exists []; rewrite extend_nothing; set_solver|].
  exists [AbortReward X blocking]. rewrite Hr. split; [done|]. intros x Hx. exists X. set_solver.
Qed.

Lemma clear_keys_run t keys :
  ∃ msgs, (match keys with [] => mret tt | _ => send (ClearPayload keys "train") end) t = Ret tt (with_sent (sent t ++ msgs) t) ∧
    ∀ k, k ∈ keys → told_queue msgs k.
Proof.
  destruct keys as [|k0 keys]; [exists []; rewrite extend_nothing; split; [done|set_solver]|].
  exists [ClearPayload (k0 :: keys) "train"]. split; [done|]. intros k Hk. exists (k0 :: keys). set_solver.
Qed.

Lemma remove_set_run t (X : gset Z) :
  tracker_ok t → ∃ t', (if bool_decide (X = ∅) then mret tt else remove_request (set_iter X)) t = Ret tt t' ∧ tracker_ok t' ∧
    (∀ y, request_id_to_status t' !! y = if decide (y ∈ X) then None else request_id_to_status t !! y) ∧
    (∀ y, y ∈ abort_request_ids t' ↔ (y ∉ X) ∧ y ∈ abort_request_ids t) ∧
    sent t' = sent t ∧ running_min_version t' = running_min_version t.
Proof.
  intros Hok. case_bool_decide as He.
  { exists t. subst X. split_and!; try done; intros y; set_solver. }
  destruct (remove_request_run t (set_iter X) Hok) as (t' & Hrun & Hok' & Hs & _ & Ha & Hsent & Hv).
  exists t'. split_and!; try done; intros y; [rewrite Hs|by rewrite Ha, set_iter_elem].
  pose proof (set_iter_elem X y). repeat case_decide; tauto || done.
Qed.

Lemma abort_run t ids blocking :
  tracker_ok t → stages_bound t → ∃ msgs t', abort_requests_status ids blocking t = Ret tt t' ∧ tracker_ok t' ∧
    (∀ x, request_id_to_status t' !! x = if decide (finished t ids x) then None else request_id_to_status t !! x) ∧
    (∀ x, x ∈ abort_request_ids t' ↔ ¬ finished t ids x ∧ x ∈ marked t ids) ∧
    sent t' = sent t ++ msgs ∧
    ∀ x st, x ∈ ids → request_id_to_status t !! x = Some st →
      (st = RequestStatus.ROLLOUT_RUNNING → told_rollout t blocking msgs x) ∧
      (st = RequestStatus.REWARD_RUNNING → told_reward blocking msgs x) ∧
      (RequestStatus.needs_cleanup st = true → ∀ k, k ∈ payload_keys_of t x → told_queue msgs k).
Proof.
  intros Hok [Hc Hr]. unfold abort_requests_status. mrun. fold (marked t ids).
  set (t1 := with_abort (marked t ids) t). assert (tracker_ok t1) as Hok1 by (by apply marked_ok).
  destruct (classes_run t ids) as (classes & Hcl & Hclass). rewrite (run_of_res _ classes) by done. cbv zeta.
  assert (∀ st X x, (st, X) ∈ classes → x ∈ X → request_id_to_status t !! x = Some st) as Hst.
  { intros st X x HX Hx. apply Hclass, elem_of_in_class. eauto. }
  rewrite (run_bind _ _ _ _ _ (payload_loop_run t1 classes Hok1 ltac:(intros; eapply mk_is_Some, Hst; eauto))).
  destruct (abort_rollout_run t1 (in_class RequestStatus.ROLLOUT_RUNNING classes) blocking Hc) as (m1 & Hm1 & Ht1).
  { intros x [_ Hx]%Hclass. apply (tk_dom _ Hok1). by eapply mk_is_Some. }
  rewrite (run_bind _ _ _ _ _ Hm1).
  destruct (abort_reward_run (with_sent (sent t1 ++ m1) t1) (in_class RequestStatus.REWARD_RUNNING classes) blocking Hr) as (m2 & Hm2 & Ht2).
  rewrite (run_bind _ _ _ _ _ Hm2).
  destruct (remove_set_run (with_sent ((sent t1 ++ m1) ++ m2) t1) (in_class RequestStatus.COMPLETED classes))
    as (t3 & Hrm & Hok3 & Hs3 & Ha3 & Hsent3 & _); [by apply with_sent_ok|].
  rewrite (run_bind _ _ _ _ _ Hrm).
  destruct (clear_keys_run t3 (classes ≫= class_keys t1)) as (m3 & Hm3 & Ht3).
  exists (m1 ++ m2 ++ m3), (with_sent (sent t3 ++ m3) t3). split_and!; [done|by apply with_sent_ok| | | |].
  - intros x. simpl. rewrite Hs3. pose proof (Hclass RequestStatus.COMPLETED x) as Hd. unfold finished.
    destruct (decide (x ∈ in_class _ _)); [rewrite decide_True by tauto|rewrite decide_False by tauto]; done.
  - intros x. simpl. rewrite Ha3, Hclass. done.
  - simpl. rewrite Hsent3. simpl. by rewrite <-!app_assoc.
  - intros x st Hx Hs. split_and!.
    + intros ->. destruct (Ht1 x) as (g & i & ? & ? & ?); [by apply Hclass|]. exists g, i. set_solver.
    + intros ->. destruct (Ht2 x) as (X & ? & ?); [by apply Hclass|]. exists X. set_solver.
    + intros Hcl' k Hk. destruct (Ht3 k) as (ks & ? & ?); [|exists ks; set_solver].
      assert (x ∈ in_class st classes) as (X & HX & HxX)%elem_of_in_class by (by apply Hclass).
      apply list_elem_of_bind. exists (st, X). split; [|done]. unfold class_keys. simpl. rewrite Hcl'.
      apply list_elem_of_bind. exists x. split; [done|]. by apply set_iter_elem.
Qed.
End abort.

(** ** Theorems *)

Section theorems.
Context `{SetOrder}.

(** Once the two stages are bound, aborting any list of request ids never
    raises and keeps the tracker consistent.  A tracked request of the list is removed at once when it is
    completed and marked otherwise; unknown ids are ignored; the status of
    every other request and all other marks stay. *)
Theorem abort_requests_exact (t : RequestStatusTracker) (ids : list Z) (blocking : bool) :
  tracker_ok t → stages_bound t → ∃ t', abort_requests_status ids blocking t = Ret tt t' ∧ tracker_ok t' ∧
    ∀ x,
      request_id_to_status t' !! x =
        (if decide (x ∈ ids ∧ request_id_to_status t !! x = Some RequestStatus.COMPLETED) then None
         else request_id_to_status t !! x) ∧
      (x ∈ abort_request_ids t' ↔ is_Some (request_id_to_status t' !! x) ∧ (x ∈ ids ∨ x ∈ abort_request_ids t)).
Proof.
  intros Hok Hb. destruct (abort_run t ids blocking Hok Hb) as (msgs & t' & Hrun & Hok' & Hs & Ha & _).
  exists t'. split_and!; [done|done|]. intros x. split; [apply Hs|]. rewrite Ha, Hs, elem_of_marked.
  pose proof (tk_abort _ Hok x). case_decide; [|naive_solver].
  split; [naive_solver|]. intros [[? ?] _]. done.
Qed.

(** An abort reaches the stage that works on the request.  The messages
    sent name every tracked request of the list: a running rollout to the
    coordinator under the instance that runs it, a running reward computation
    to the reward manager, and every payload key a request past its rollout
    may have committed to the transfer queue. *)
Theorem abort_notifies_stages (t : RequestStatusTracker) (ids : list Z) (blocking : bool) (x : Z) (st : RequestStatus.t) :
  tracker_ok t → stages_bound t → x ∈ ids → request_id_to_status t !! x = Some st →
  ∃ msgs t', abort_requests_status ids blocking t = Ret tt t' ∧ sent t' = sent t ++ msgs ∧
    (st = RequestStatus.ROLLOUT_RUNNING → told_rollout t blocking msgs x) ∧
    (st = RequestStatus.REWARD_RUNNING → told_reward blocking msgs x) ∧
    (RequestStatus.needs_cleanup st = true → ∀ k, k ∈ payload_keys_of t x → told_queue msgs k).
Proof.
  intros Hok Hb Hx Hs. destruct (abort_run t ids blocking Hok Hb) as (msgs & t' & Hrun & _ & _ & _ & Hsent & Htold).
  exists msgs, t'. split_and!; [done|done|by apply (Htold x st)..].
Qed.

(** An aborted request can never make progress: whatever status it is
    given after the abort, the update is refused, and afterwards the request
    is no longer tracked. *)
Theorem aborted_request_refused (t : RequestStatusTracker) (ids : list Z) (blocking val : bool) (x version : Z)
    (st : RequestStatus.t) (inst : RolloutInstanceId) :
  tracker_ok t → stages_bound t → x ∈ ids →
  ∃ t1 t2, abort_requests_status ids blocking t = Ret tt t1 ∧
    update_request_status (One x) (One st) (One version) (One inst) val t1 = Ret (One false) t2 ∧
    tracker_ok t2 ∧ request_id_to_status t2 !! x = None ∧ (x ∉ abort_request_ids t2).
Proof.
  intros Hok Hb Hx. destruct (abort_run t ids blocking Hok Hb) as (msgs0 & t1 & Hrun & Hok1 & Hs & Ha & _).
  destruct (update_single_run t1 x st version inst val Hok1) as [msgs Hup].
  exists t1. eexists. split; [done|].
  assert (judge t1 x version inst val = Aborted ∨ judge t1 x version inst val = Unknown ∧ request_id_to_status t1 !! x = None) as Hj.
  { unfold judge. case_bool_decide as Hin; [by left|]. right.
    assert (request_id_to_status t1 !! x = None) as Hnone.
    { rewrite Hs. case_decide as Hf; [done|]. apply eq_None_not_Some. intros Hsome. apply Hin, Ha.
      split; [done|]. apply elem_of_marked. auto. }
    by rewrite (proj1 (tk_None t1 x Hok1) Hnone). }
  pose proof (settle_self t1 x st version inst val Hok1) as Hself. simpl in Hself.
  assert (tracker_ok (with_sent msgs (settle x st (judge t1 x version inst val) t1))) as Hok2 by (by apply with_sent_ok, settle_ok).
  assert (request_id_to_status (settle x st (judge t1 x version inst val) t1) !! x = None) as Hnone.
  { rewrite Hself. by destruct Hj as [->|[-> ?]]. }
  split; [|split; [exact Hok2|split; [exact Hnone|]]].
  - etrans; [exact Hup|]. f_equal. f_equal. by destruct Hj as [->|[-> _]].
  - intros Hab%(tk_abort _ Hok2). simpl in Hab. rewrite Hnone in Hab. by destruct Hab.
Qed.
End theorems.

#[local] Existing Instance elements_order.

Lemma abort_requests_exact_witness :
  ∃ t', abort_requests_status [7; 8] false (demo_one 7 2 RequestStatus.ROLLOUT_RUNNING) = Ret tt t' ∧ tracker_ok t' ∧
    7 ∈ abort_request_ids t'.
Proof.
  destruct (abort_requests_exact (demo_one 7 2 RequestStatus.ROLLOUT_RUNNING) [7; 8] false) as (t' & Hrun & Hok & Hx);
    [apply demo_one_ok|by split|].
  exists t'. split; [exact Hrun|]. split; [exact Hok|]. destruct (Hx 7) as [Hs Ha]. apply Ha. rewrite Hs. simpl.
  rewrite decide_False by (intros [_ [=]]). split; [done|]. left. set_solver.
Defined.

Lemma aborted_request_refused_witness :
  ∃ t1 t2, abort_requests_status [7] false (demo_one 7 2 RequestStatus.REWARD_RUNNING) = Ret tt t1 ∧
    update_request_status (One 7) (One RequestStatus.COMPLETED) (One (-1)) (One INVALID_ROLLOUT_INSTANCE_ID) false t1
      = Ret (One false) t2 ∧ request_id_to_status t2 !! 7 = None.
Proof.
  destruct (aborted_request_refused (demo_one 7 2 RequestStatus.REWARD_RUNNING) [7] false false 7 (-1) RequestStatus.COMPLETED
    INVALID_ROLLOUT_INSTANCE_ID) as (t1 & t2 & H1 & H2 & _ & H3 & _); [apply demo_one_ok|by split|set_solver|].
  exists t1, t2. split; [exact H1|]. split; [exact H2|exact H3].
Defined.

Lemma abort_notifies_stages_witness :
  ∃ msgs t', abort_requests_status [7] false (demo_one 7 2 RequestStatus.REWARD_RUNNING) = Ret tt t' ∧
    told_reward false msgs 7 ∧ told_queue msgs "7".
Proof.
  destruct (abort_notifies_stages (demo_one 7 2 RequestStatus.REWARD_RUNNING) [7] false 7 RequestStatus.REWARD_RUNNING)
    as (msgs & t' & Hrun & _ & _ & Hr & Hq); [apply demo_one_ok|by split|set_solver|reflexivity|].
  exists msgs, t'. split; [exact Hrun|]. split; [by apply Hr|]. apply Hq; [reflexivity|]. vm_compute. left.
Defined.
