(* ===== verification/PSManager.v ===== *)
(** * Parameter-server manager

    [PSManager] ([psrl/workers/ps/ps_manager.py]): the actor that owns the
    request tracker, the training and the validation inventory, the model
    version and the push/pull lock.  Its methods compose the operations of
    those components; messages to the rollout coordinator are recorded in
    order in [notices]. *)

From S2P Require Import Prelude.
From S2P Require Import StalenessBuffer.
From S2P Require Import StalenessInventory.
From S2P Require Import TransferQueue.
From S2P Require Import RequestStatusTracker.

#[local] Open Scope Z_scope.

(** ** State *)

Inductive Notice :=
  | ReadyBuffer (buffer_id : Z)
  | PSModelVersion (version : Z)
  | InitPSModelVersion (version : Z)
  | InstanceModelVersion (inst : RolloutInstanceId) (version : Z).

(** A state dict, or a reference to one, is an opaque value. *)
Abbreviation StateDict := N.

Record ModelStore := mkModelStore {
  version_tag : Z;
  model_state_dict : option StateDict;
  model_state_dict_ref : option StateDict;
}.

Record PSManager := mkManager {
  tracker : RequestStatusTracker;
  staleness_inventory : StalenessInventory;
  val_staleness_inventory : StalenessInventory;
  rollout_instance_tracker : gmap RolloutInstanceId Z;
  model_store : ModelStore;
  check_abort_versions : gset Z;
  max_aborted_version : Z;
  exclusive_push_locked : bool;
  shared_pull_count : Z;
  cfg_staleness : Z;
  ps_mode : string;
  notices : list Notice;
}.

Definition set_tracker v m := mkManager v (staleness_inventory m) (val_staleness_inventory m) (rollout_instance_tracker m) (model_store m) (check_abort_versions m) (max_aborted_version m) (exclusive_push_locked m) (shared_pull_count m) (cfg_staleness m) (ps_mode m) (notices m).
Definition set_inventory v m := mkManager (tracker m) v (val_staleness_inventory m) (rollout_instance_tracker m) (model_store m) (check_abort_versions m) (max_aborted_version m) (exclusive_push_locked m) (shared_pull_count m) (cfg_staleness m) (ps_mode m) (notices m).
Definition set_val_inventory v m := mkManager (tracker m) (staleness_inventory m) v (rollout_instance_tracker m) (model_store m) (check_abort_versions m) (max_aborted_version m) (exclusive_push_locked m) (shared_pull_count m) (cfg_staleness m) (ps_mode m) (notices m).
Definition set_instances v m := mkManager (tracker m) (staleness_inventory m) (val_staleness_inventory m) v (model_store m) (check_abort_versions m) (max_aborted_version m) (exclusive_push_locked m) (shared_pull_count m) (cfg_staleness m) (ps_mode m) (notices m).
Definition set_model_store v m := mkManager (tracker m) (staleness_inventory m) (val_staleness_inventory m) (rollout_instance_tracker m) v (check_abort_versions m) (max_aborted_version m) (exclusive_push_locked m) (shared_pull_count m) (cfg_staleness m) (ps_mode m) (notices m).
Definition set_check_abort v m := mkManager (tracker m) (staleness_inventory m) (val_staleness_inventory m) (rollout_instance_tracker m) (model_store m) v (max_aborted_version m) (exclusive_push_locked m) (shared_pull_count m) (cfg_staleness m) (ps_mode m) (notices m).
Definition set_max_aborted v m := mkManager (tracker m) (staleness_inventory m) (val_staleness_inventory m) (rollout_instance_tracker m) (model_store m) (check_abort_versions m) v (exclusive_push_locked m) (shared_pull_count m) (cfg_staleness m) (ps_mode m) (notices m).
Definition set_push_locked v m := mkManager (tracker m) (staleness_inventory m) (val_staleness_inventory m) (rollout_instance_tracker m) (model_store m) (check_abort_versions m) (max_aborted_version m) v (shared_pull_count m) (cfg_staleness m) (ps_mode m) (notices m).
Definition set_pull_count v m := mkManager (tracker m) (staleness_inventory m) (val_staleness_inventory m) (rollout_instance_tracker m) (model_store m) (check_abort_versions m) (max_aborted_version m) (exclusive_push_locked m) v (cfg_staleness m) (ps_mode m) (notices m).
Definition set_notices v m := mkManager (tracker m) (staleness_inventory m) (val_staleness_inventory m) (rollout_instance_tracker m) (model_store m) (check_abort_versions m) (max_aborted_version m) (exclusive_push_locked m) (shared_pull_count m) (cfg_staleness m) (ps_mode m) v.

(** [PSManager.__init__]: entries per buffer and those that make it ready, the
    staleness, the group sizes and the transfer mode come from the configuration. *)
Definition new_manager (entries ready : nat) (staleness rollout_n alg_rollout_n val_rollout_n : Z) (mode : string) : PSManager :=
  mkManager (new_tracker rollout_n alg_rollout_n val_rollout_n)
    (new_inventory entries ready (Some staleness) rollout_n false)
    (new_inventory ready ready None val_rollout_n true)
    ∅ (mkModelStore 0 None None) ∅ (-1) false 0 staleness mode [].

(** [get_ps_model_version] *)
Definition ps_model_version (m : PSManager) : Z := version_tag (model_store m).

Abbreviation Mgr := (M PSManager).

Definition on_tracker {A} (m : Trk A) : Mgr A := zoom tracker set_tracker m.
Definition on_inventory {A} (is_validate : bool) (m : Inv A) : Mgr A :=
  if is_validate then zoom val_staleness_inventory set_val_inventory m
  else zoom staleness_inventory set_inventory m.
Definition inventory_of (is_validate : bool) (m : PSManager) : StalenessInventory :=
  if is_validate then val_staleness_inventory m else staleness_inventory m.
Definition group_size (is_validate : bool) (m : PSManager) : Z :=
  if is_validate then val_rollout_n (tracker m) else trk_rollout_n (tracker m).

(** A remote call on the rollout coordinator, which must have been set. *)
Definition notify (n : Notice) : Mgr unit :=
  m ← gets id;
  if has_coordinator (tracker m) then modify (λ m, set_notices (notices m ++ [n]) m) else raise AttributeError.

(** ** Inventory management *)

Definition register_rollout_instance (insts : list RolloutInstanceId) : Mgr unit :=
  modify (λ m, set_instances (foldl (λ t i, <[i := 0]> t) (rollout_instance_tracker m) insts) m).

Definition set_val_staleness_inventory_capacity (ready_num_entries : nat) (num_entries : option nat) : Mgr unit :=
  on_inventory true (create_buffer_with_capacity ready_num_entries (default ready_num_entries num_entries)).

Definition ensure_train_buffer_exists (bid : Z) : Mgr unit := on_inventory false (ensure_buffer_exists (Some bid)).
Definition ensure_validate_buffer_exists : Mgr unit := on_inventory true (ensure_buffer_exists None).

Definition get_max_reserve_num (model_version : Z) (is_validate : bool) : Mgr Z :=
  m ← gets id;
  on_inventory is_validate (get_empty_entries_total_num (if is_validate then None else Some (model_version + cfg_staleness m))).

Definition mgr_update_request_version_tag (request_id tag : Z) (is_validate : bool) : Mgr unit :=
  on_inventory is_validate (update_request_version_tag request_id tag).

Definition mgr_update_request_instance_id (request_id : Z) (inst : RolloutInstanceId) (is_validate : bool) : Mgr unit :=
  on_inventory is_validate (update_request_instance_id request_id inst).

Definition mgr_update_request_n_trajectory (request_id n : Z) (is_validate : bool) : Mgr unit :=
  on_tracker (update_request_n_trajectory_info request_id n) ;;
  on_inventory is_validate (update_request_n_trajectory request_id n).

(** The argument is called [prompt_ids] and declared [int | list[int]]; the
    callers pass [EntryInfo]s, which the inventory needs. *)
Definition mgr_move_occupied_entries `{SetOrder} (infos : list EntryInfo) (bid : Z) (is_validate : bool) : Mgr unit :=
  on_inventory is_validate (move_occupied_entries infos bid).

Definition mgr_clear_occupied_entries `{SetOrder} (prompt_ids : list Z) (is_validate : bool) : Mgr unit :=
  on_inventory is_validate (clear_occupied_entries prompt_ids).

Definition mgr_clear_reserved_entries `{SetOrder} (prompt_ids : list Z) (move_across_buffer is_validate : bool) : Mgr unit :=
  on_inventory is_validate (clear_reserved_entries prompt_ids move_across_buffer).

Definition get_min_pending_buffer (is_validate : bool) (m : PSManager) : Z :=
  let inv := inventory_of is_validate m in
  default (buffer_id inv) (set_min (get_buffers_with_capacity inv)).

(** Deletes the marked buffers up to [bid], in order. *)
Definition maybe_delete_buffer (bid : Z) (is_validate : bool) : Mgr unit :=
  if is_validate then on_inventory true (delete_buffer bid)
  else
    m ← gets id;
    let marked := ready_for_delete_buffer_ids (staleness_inventory m) in
    if bool_decide (bid ∈ marked)
    then for_each (filter (λ x, x ≤ bid) (sort_by id (elements marked))) (λ x, on_inventory false (delete_buffer x))
    else mret tt.

(** ** Reservation *)

(** The metadata the manager builds for a request. *)
Definition request_info (m : PSManager) (inst : RolloutInstanceId) (request_id version : Z) (is_validate : bool) : RequestInfo :=
  let n := group_size is_validate m in
  mkRequestInfo inst (request_id / n) (request_id mod n) version 1 is_validate.

Definition can_reserve_one (request_id model_version : Z) (without_new is_validate : bool) : Mgr bool :=
  m ← gets id;
  assert (bool_decide (model_version ≠ -1)) ;;
  assert (bool_decide (request_id ∉ abort_request_ids (tracker m))) ;;
  if bool_decide (model_version ≤ max_aborted_version m) then mret false
  else
    let info := request_info m INVALID_ROLLOUT_INSTANCE_ID request_id model_version is_validate in
    if without_new
    then mret (can_reserve_data_without_new_reserve_entry info model_version (inventory_of is_validate m))
    else on_inventory is_validate (can_reserve_data info model_version).

Definition can_reserve_request (request_ids model_versions : list Z) (without_new : bool) (is_validate : one_or_many bool)
    : Mgr (list (list bool)) :=
  assert (match is_validate with One _ => true | Many l => bool_decide (length l = length request_ids) end) ;;
  map_each (zip request_ids (spread (length request_ids) is_validate)) (λ '(request_id, v),
    map_each model_versions (λ model_version, can_reserve_one request_id model_version without_new v)).

(** The preference of a version for a request: [-inf], minus a buffer id, or [inf]. *)
Inductive indicator := MinusInf | Finite (z : Z) | PlusInf.

Definition get_reserve_indicator (request_id : Z) (model_versions : list Z) (is_validate : bool) : Mgr (list indicator) :=
  map_each model_versions (λ model_version,
    m ← gets id;
    assert (bool_decide (model_version ≠ -1)) ;;
    assert (bool_decide (request_id ∉ abort_request_ids (tracker m))) ;;
    if bool_decide (model_version ≤ max_aborted_version m) then mret PlusInf
    else
      let info := request_info m INVALID_ROLLOUT_INSTANCE_ID request_id model_version is_validate in
      if can_reserve_data_without_new_reserve_entry info model_version (inventory_of is_validate m) then mret MinusInf
      else
        ok ← on_inventory is_validate (can_reserve_data info model_version);
        if ok : bool then
          m ← gets id;
          hi ← of_option TypeError
            (get_max_pending_buffer_id (model_version + cfg_staleness m) (inventory_of is_validate m));
          mret (Finite (- hi))
        else mret PlusInf).

Definition check_aborted_requests (request_ids : list Z) (remove : bool) : Mgr (list bool) :=
  map_each request_ids (λ x, on_tracker (check_aborted_request x remove)).

Definition check_aborted_model_versions (model_versions : list Z) (m : PSManager) : list bool :=
  (λ v, bool_decide (v ≤ max_aborted_version m)) <$> model_versions.

(** One request of [reserve_rollout_instance_requests]; [None] for an aborted one. *)
Definition reserve_one (inst : RolloutInstanceId) (request_id model_version : Z) (guarantee is_validate : bool)
    : Mgr (option (Z * nat)) :=
  assert (bool_decide (model_version ≠ -1)) ;;
  m ← gets id;
  aborted ← (if guarantee
             then assert (bool_decide (request_id ∉ abort_request_ids (tracker m))) ;; mret false
             else on_tracker (check_aborted_request request_id true));
  if aborted : bool then mret None
  else
    m ← gets id;
    assert (is_validate || bool_decide (max_aborted_version m < model_version)) ;;
    let hi := if is_validate then None else Some (model_version + cfg_staleness m) in
    r ← on_inventory is_validate (reserve_data (request_info m inst request_id model_version is_validate) hi);
    match r with
    | Some pos => mret (Some pos)
    | None => raise RuntimeError
    end.

Definition reserve_rollout_instance_requests (insts : list RolloutInstanceId) (request_ids model_versions : list Z)
    (guarantee_not_aborted is_validate : bool) : Mgr (list (option (Z * nat))) :=
  m ← gets id;
  for_each insts (λ inst, assert (bool_decide (inst = INVALID_ROLLOUT_INSTANCE_ID ∨ is_Some (rollout_instance_tracker m !! inst)))) ;;
  map_each (zip (zip insts request_ids) model_versions) (λ '(inst, request_id, model_version),
    reserve_one inst request_id model_version guarantee_not_aborted is_validate).

(** ** Abortion *)

(** The aborted requests grouped by prompt, in order of first occurrence. *)
Fixpoint group_add (p idx : Z) (d : list (Z * list Z)) : list (Z * list Z) :=
  match d with
  | [] => [(p, [idx])]
  | (p', l) :: d => if decide (p' = p) then (p', l ++ [idx]) :: d else (p', l) :: group_add p idx d
  end.

Definition group_by_prompt (n : Z) (ids : list Z) : list (Z * list Z) :=
  foldl (λ d x, group_add (x / n) (x mod n) d) [] ids.

(** [[l[i] for i in idxs]] *)
Definition pick {A} (l : list A) (idxs : list nat) : Res (list A) :=
  match mapM (λ i, l !! i) idxs with Some l' => inr l' | None => inl IndexError end.

Definition pick_field {A} (f : one_or_many A) (idxs : list nat) : Res (one_or_many A) :=
  match f with
  | One a => inr (One a)
  | Many l => match pick l idxs with inr l' => inr (Many l') | inl e => inl e end
  end.

(** Dropping the aborted requests from a group that stays large enough.  The
    trajectory counts are not filtered. *)
Definition drop_requests (aborted : list Z) (info : EntryInfo) : Res EntryInfo :=
  match request_idx info with
  | One _ => inl AssertionError
  | Many idxs =>
      let keep := (filter (λ ix : nat * Z, ix.2 ∉ aborted) (imap pair idxs)).*1 in
      match pick_field (rollout_instance_id info) keep, pick_field (model_version info) keep, pick idxs keep with
      | inr insts, inr versions, inr idxs' =>
          inr (mkEntryInfo insts (prompt_id info) (Many idxs') versions (n_trajectory info) (is_validate info))
      | inl e, _, _ | _, inl e, _ | _, _, inl e => inl e
      end
  end.

(** What one prompt contributes: the entries to clear and the further ids to
    abort.  The indices of the rest of a cleared group are relative to the
    group, yet they are added to the set of request ids. *)
Definition abort_group_of (abort_group : bool) (p : Z) (idxs : list Z) (acc : list Z * gset Z) : Mgr (list Z * gset Z) :=
  m ← gets id;
  match data_tracker (staleness_inventory m) !! p with
  | None => mret acc
  | Some (bid, eid) =>
      info ← on_inventory false (get_info bid eid);
      let rest := list_to_set (get_all_request_relative_ids info) ∖ list_to_set idxs : gset Z in
      if abort_group && bool_decide (Z.of_nat (size rest) < alg_rollout_n (tracker m))
      then mret (acc.1 ++ [prompt_id info], acc.2 ∪ rest)
      else
        info' ← of_res (drop_requests idxs info);
        on_inventory false (set_info bid eid info') ;;
        mret acc
  end.

Section ordered.
Context `{SetOrder}.

Definition abort_requests (request_ids : list Z) (abort_group blocking : bool) : Mgr unit :=
  m ← gets id;
  let ids := list_to_set request_ids : gset Z in
  '(clear_entries, abort_ids) ←
    fold_each (group_by_prompt (trk_rollout_n (tracker m)) (set_iter ids)) ([], ids)
      (λ '(p, idxs) acc, abort_group_of abort_group p idxs acc);
  on_inventory false (clear_reserved_entries clear_entries false) ;;
  on_tracker (abort_requests_status (set_iter abort_ids) blocking).

Definition abort_reserved_requests (bid : Z) : Mgr (nat * list Z) :=
  m ← gets id;
  b ← on_inventory false (get_buffer bid);
  let n := trk_rollout_n (tracker m) in
  ids ← fold_each (get_reserved_entry_ids b) [] (λ eid ids,
    info ← on_inventory false (get_info bid eid);
    mret (ids ++ ((λ i, prompt_id info * n + i) <$> zrange 0 n)));
  abort_requests ids true false ;;
  mret (length (get_reserved_entry_ids b), ids).

(** The versions whose whole window is ready: the loop stops at the first
    pending version that is not. *)
Fixpoint collect_abort_versions (fuel : nat) (curr st : Z) (ready pending : gset Z) : list Z * gset Z :=
  match fuel with
  | O => ([], pending)
  | S fuel =>
      match set_min pending with
      | None => ([], pending)
      | Some v =>
          if bool_decide (list_to_set (zrange (Z.max v curr) (v + st + 1)) ⊆ ready)
          then let '(vs, rest) := collect_abort_versions fuel curr st ready (pending ∖ {[v]}) in (v :: vs, rest)
          else ([], pending)
      end
  end.

Definition abort_after_buffer_ready (bid : Z) : Mgr (gset Z) :=
  m ← gets id;
  let st := cfg_staleness m in
  let curr := ps_model_version m in
  let ready := ready_buffer_ids (staleness_inventory m) in
  (if bool_decide (st ≤ bid) then modify (λ m, set_check_abort ({[bid - st]} ∪ check_abort_versions m) m) else mret tt) ;;
  m ← gets id;
  let '(versions, pending) := collect_abort_versions (size (check_abort_versions m)) curr st ready (check_abort_versions m) in
  modify (set_check_abort pending) ;;
  ids ← fold_each (sort_by id versions) ∅ (λ v ids,
    modify (λ m, set_max_aborted (Z.max (max_aborted_version m) v) m) ;;
    new ← on_tracker (get_requests_of_abort_version v);
    mret (ids ∪ new));
  (if bool_decide (ids = ∅) then mret tt else abort_requests (set_iter ids) true false) ;;
  for_each (set_iter ready) (λ x,
    b ← on_inventory false (get_buffer x);
    if bool_decide (get_reserve_entry_num b = 0%nat) then
      (if bool_decide (x < curr) then on_inventory false (delete_buffer x)
       else on_inventory false (mark_buffer_for_deletion x))
    else mret tt) ;;
  mret ids.

Definition handle_ready_buffer (bid : Z) : Mgr (gset Z) :=
  notify (ReadyBuffer bid) ;;
  abort_after_buffer_ready bid.

(** [None]: every request of the group was aborted. *)
Definition occupy_rollout_instance_request (pid : Z) (request_ids : option (list Z)) (is_validate : bool)
    : Mgr (option (Z * nat * EntryInfo)) :=
  let request_ids := default [pid] request_ids in
  aborted ← check_aborted_requests request_ids true;
  let filtered := (filter (λ xb : Z * bool, xb.2 = false) (zip request_ids aborted)).*1 in
  on_tracker (remove_train_ready_request filtered) ;;
  m ← gets id;
  match filtered with
  | [] => assert (bool_decide (data_tracker (inventory_of is_validate m) !! pid = None)) ;; mret None
  | _ =>
      '(bid, eid, occupy_num) ← on_inventory is_validate (occupy_data_with_reserve pid);
      info ← on_inventory is_validate (get_info bid eid);
      mret (Some (bid, occupy_num, info))
  end.
End ordered.

(** ** Model versions *)

Definition get_all_rollout_instance_model_versions (m : PSManager) : gmap RolloutInstanceId Z := rollout_instance_tracker m.

Definition get_rollout_instance_model_version (inst : RolloutInstanceId) : Mgr Z :=
  m ← gets id; of_option AssertionError (rollout_instance_tracker m !! inst).

Definition update_rollout_instance_model_version_tag_to_latest (insts : list RolloutInstanceId) : Mgr unit :=
  for_each insts (λ inst,
    m ← gets id;
    v ← of_option AssertionError (rollout_instance_tracker m !! inst);
    if bool_decide (v = ps_model_version m) then mret tt
    else
      assert (has_coordinator (tracker m)) ;;
      modify (λ m, set_instances (<[inst := ps_model_version m]> (rollout_instance_tracker m)) m) ;;
      notify (InstanceModelVersion inst (ps_model_version m))).

Definition init_model_version_for_resume (version : Z) : Mgr unit :=
  modify (set_model_store (mkModelStore version None None)) ;;
  m ← gets id;
  if has_coordinator (tracker m) then notify (InitPSModelVersion version) else mret tt.

(** The common body of the three [push_model_state_dict_*] methods. *)
Definition push_store (store : ModelStore) : Mgr unit :=
  modify (set_model_store store) ;;
  (if bool_decide (0 < version_tag store) then maybe_delete_buffer (version_tag store - 1) false else mret tt) ;;
  notify (PSModelVersion (version_tag store)).

Definition push_model_state_dict_cpu (version : Z) (dict : option StateDict) : Mgr unit :=
  m ← gets id;
  assert (bool_decide (ps_mode m = "cpu")) ;;
  push_store (mkModelStore version dict None).

Definition push_model_state_dict_cpu_ref_list (version : Z) (refs : list StateDict) : Mgr unit :=
  m ← gets id;
  assert (bool_decide (ps_mode m = "cpu_ref")) ;;
  match refs with
  | [ref] => push_store (mkModelStore version None (Some ref))
  | _ => raise AssertionError
  end.

Definition push_model_state_dict_nixl (version : Z) : Mgr unit := push_store (mkModelStore version None None).

Definition pull_model_state_dict_cpu (insts : list RolloutInstanceId) : Mgr (option StateDict) :=
  m ← gets id;
  assert (bool_decide (ps_mode m = "cpu")) ;;
  update_rollout_instance_model_version_tag_to_latest insts ;;
  m ← gets id; mret (model_state_dict (model_store m)).

Definition pull_model_state_dict_cpu_ref (insts : list RolloutInstanceId) : Mgr (option StateDict) :=
  m ← gets id;
  assert (bool_decide (ps_mode m = "cpu_ref")) ;;
  update_rollout_instance_model_version_tag_to_latest insts ;;
  m ← gets id; mret (model_state_dict_ref (model_store m)).

Definition pull_model_state_dict_nixl (insts : list RolloutInstanceId) : Mgr unit :=
  m ← gets id;
  assert (bool_decide (ps_mode m = "nixl_cpu" ∨ ps_mode m = "nixl_gpu")) ;;
  update_rollout_instance_model_version_tag_to_latest insts.

(** ** The push/pull lock *)

Definition try_acquire_exclusive_push_lock : Mgr bool :=
  m ← gets id;
  if exclusive_push_locked m || bool_decide (0 < shared_pull_count m) then mret false
  else modify (set_push_locked true) ;; mret true.

Definition release_exclusive_push_lock : Mgr unit :=
  m ← gets id; assert (exclusive_push_locked m) ;; modify (set_push_locked false).

Definition try_acquire_shared_pull_lock : Mgr bool :=
  m ← gets id;
  if exclusive_push_locked m then mret false
  else modify (λ m, set_pull_count (shared_pull_count m + 1) m) ;; mret true.

Definition release_shared_pull_lock : Mgr unit :=
  m ← gets id;
  assert (bool_decide (0 < shared_pull_count m)) ;;
  modify (λ m, set_pull_count (shared_pull_count m - 1) m).
