(* ===== verification/ManagerTheorems.v ===== *)
(** * What the parameter-server manager guarantees

    The push/pull lock, the selection of versions to abort, the reservation
    path through the manager, the occupation of a finished group, the deletion
    of consumed buffers, and where group abortion goes wrong. *)

From S2P Require Import Prelude.
From S2P Require Import StalenessBuffer.
From S2P Require Import StalenessInventory.
From S2P Require Import InventoryInv.
From S2P Require Import InventoryReserve.
From S2P Require Import InventoryClear.
From S2P Require Import InventoryExchange.
From S2P Require Import InventoryOccupy.
From S2P Require Import InventoryReach.
From S2P Require Import TransferQueue.
From S2P Require Import RequestStatusTracker.
From S2P Require Import TrackerAbort.
From S2P Require Import PSManager.

#[local] Open Scope Z_scope.

(** ** The push/pull lock *)

(** The four lock operations as the moves of the actors that contend for it. *)
Inductive lock_step (m m' : PSManager) : Prop :=
  | lock_push ok : try_acquire_exclusive_push_lock m = Ret ok m' → lock_step m m'
  | unlock_push : release_exclusive_push_lock m = Ret tt m' → lock_step m m'
  | lock_pull ok : try_acquire_shared_pull_lock m = Ret ok m' → lock_step m m'
  | unlock_pull : release_shared_pull_lock m = Ret tt m' → lock_step m m'.

(** A push is never in progress together with a pull. *)
Definition lock_ok (m : PSManager) : Prop :=
  0 ≤ shared_pull_count m ∧ (exclusive_push_locked m = true → shared_pull_count m = 0).

Lemma lock_step_ok m m' : lock_ok m → lock_step m m' → lock_ok m'.
Proof.
  intros [Hpos Hex] [ok Hrun|Hrun|ok Hrun|Hrun].
  - unfold try_acquire_exclusive_push_lock, mbind, M_bind, gets, id in Hrun.
    destruct (exclusive_push_locked m) eqn:Hl; simpl in Hrun; [by injection Hrun as _ <-; split; rewrite ?Hl|].
    case_bool_decide; injection Hrun as _ <-; [by split; rewrite ?Hl|]. split; simpl; lia.
  - unfold release_exclusive_push_lock, mbind, M_bind, gets, id, assert in Hrun.
    destruct (exclusive_push_locked m) eqn:Hl; [|done]. injection Hrun as <-. by split.
  - unfold try_acquire_shared_pull_lock, mbind, M_bind, gets, id in Hrun.
    destruct (exclusive_push_locked m) eqn:Hl; injection Hrun as _ <-; [by split; rewrite ?Hl|].
    split; simpl; [lia|by rewrite Hl].
  - unfold release_shared_pull_lock, mbind, M_bind, gets, id, assert in Hrun.
    case_bool_decide; [|done]. injection Hrun as <-. split; simpl; [lia|]. intros Hl. specialize (Hex Hl). lia.
Qed.

(** Mutual exclusion of model pushes and pulls.  Whatever the interleaving of
    acquisitions and releases, while the exclusive push lock is held no pull is
    counted, and as long as a pull is counted a push cannot be acquired. *)
Theorem push_excludes_pull (m0 m : PSManager) :
  lock_ok m0 → rtc lock_step m0 m →
  (exclusive_push_locked m = true → shared_pull_count m = 0 ∧ try_acquire_shared_pull_lock m = Ret false m) ∧
  (0 < shared_pull_count m → try_acquire_exclusive_push_lock m = Ret false m).
Proof.
  intros H0 Hrtc. assert (lock_ok m) as [Hpos Hex].
  { revert H0. induction Hrtc as [|x y z Hstep _ IH]; [done|]. intros Hx. apply IH. by eapply lock_step_ok. }
  unfold try_acquire_shared_pull_lock, try_acquire_exclusive_push_lock. mrun. split.
  - intros Hl. split; [auto|]. by rewrite Hl.
  - intros Hc. rewrite bool_decide_true by done. by rewrite orb_true_r.
Qed.

Definition demo_manager : PSManager := new_manager 2 2 1 2 2 1 "cpu".

Lemma push_excludes_pull_witness :
  try_acquire_exclusive_push_lock (set_pull_count 1 demo_manager) = Ret false (set_pull_count 1 demo_manager).
Proof.
  apply (push_excludes_pull demo_manager (set_pull_count 1 demo_manager)); [split; simpl; lia| |simpl; lia].
  apply rtc_once. apply (lock_pull _ _ true). reflexivity.
Defined.

(** ** Versions to abort *)

Section collect.
Context (curr st : Z) (ready : gset Z).
Implicit Types (pending : gset Z) (v : Z).

(** Every buffer the requests of version [v] could still be trained in is ready. *)
Definition window_ready (v : Z) : Prop := ∀ x, Z.max v curr ≤ x ≤ v + st → x ∈ ready.

Lemma window_ready_spec v :
  list_to_set (zrange (Z.max v curr) (v + st + 1)) ⊆ ready ↔ window_ready v.
Proof.
  unfold window_ready, subseteq, set_subseteq_instance. setoid_rewrite elem_of_list_to_set.
  setoid_rewrite elem_of_zrange. split; intros Hall x Hx; apply Hall; lia.
Qed.

Lemma collect_spec fuel pending vs rest :
  (size pending ≤ fuel)%nat → collect_abort_versions fuel curr st ready pending = (vs, rest) →
  (∀ v, v ∈ pending ↔ v ∈ vs ∨ v ∈ rest) ∧ StronglySorted Z.lt vs ∧
  (∀ v, v ∈ vs → window_ready v ∧ ∀ w, w ∈ rest → v < w) ∧
  (∀ v, set_min rest = Some v → ¬ window_ready v).
Proof.
  revert pending vs rest. induction fuel as [|fuel IH]; intros pending vs rest Hsz; simpl.
  { intros [= <- <-]. assert (pending = ∅) as -> by (apply leibniz_equiv, size_empty_inv; lia).
    split_and!; [set_solver|constructor|set_solver|]. intros v [Hv _]%set_min_Some. set_solver. }
  destruct (set_min pending) as [v|] eqn:Hmin; last first.
  { intros [= <- <-]. split_and!; [set_solver|constructor|set_solver|]. congruence. }
  case_bool_decide as Hready; last first.
  { intros [= <- <-]. split_and!; [set_solver|constructor|set_solver|].
    intros w Hw. assert (w = v) as -> by congruence. by rewrite <-window_ready_spec. }
  destruct (collect_abort_versions fuel curr st ready (pending ∖ {[v]})) as [vs' rest'] eqn:Hrec. intros [= <- <-].
  apply set_min_Some in Hmin as [Hin Hmin].
  assert (size pending = S (size (pending ∖ {[v]}))) as Hs.
  { rewrite (union_difference_singleton_L v pending) at 1 by done. rewrite size_union by set_solver.
    by rewrite size_singleton. }
  destruct (IH (pending ∖ {[v]}) vs' rest') as (Hmem & Hsort & Hvs & Hrest); [lia|done|].
  assert (∀ w, w ∈ vs' ∨ w ∈ rest' → v < w) as Hlt.
  { intros w [Hw Hne]%Hmem%elem_of_difference. specialize (Hmin w Hw). assert (w ≠ v) by set_solver. lia. }
  split_and!; [| | |done].
  - intros w. rewrite elem_of_cons. specialize (Hmem w). rewrite elem_of_difference, elem_of_singleton in Hmem.
    destruct (decide (w = v)) as [->|]; [naive_solver|]. tauto.
  - constructor; [done|]. apply Forall_forall. auto.
  - intros w [->|Hw]%elem_of_cons; [|auto]. split; [by apply window_ready_spec|auto].
Qed.
End collect.

(** The loop that selects the versions to abort terminates within as many
    rounds as there are pending versions and selects exactly the pending
    versions up to the first one whose staleness window is not completely
    ready: they come out in increasing order, each has every buffer of its
    window from the current model version on ready, and the smallest version
    left has not. *)
Theorem abort_versions_exact (curr st : Z) (ready pending : gset Z) :
  let '(vs, rest) := collect_abort_versions (size pending) curr st ready pending in
  (∀ v, v ∈ pending ↔ v ∈ vs ∨ v ∈ rest) ∧ StronglySorted Z.lt vs ∧
  (∀ v, v ∈ vs → window_ready curr st ready v ∧ ∀ w, w ∈ rest → v < w) ∧
  (∀ v, set_min rest = Some v → ¬ window_ready curr st ready v).
Proof.
  destruct (collect_abort_versions _ _ _ _ _) as [vs rest] eqn:E. by apply (collect_spec curr st ready (size pending)).
Qed.

(** ** The staleness fence

    The tracker's [_running_min_version] and the manager's
    [max_aborted_version] are maintained by different methods; the fence is
    that they agree. *)
Definition fence (m : PSManager) : Z * Z := (running_min_version (tracker m), max_aborted_version m).

Section fence.
Context `{SetOrder}.

Lemma send_keeps msg : keeps running_min_version (send msg).
Proof. unfold send. keeps_tac. Qed.

Lemma call_keeps h msg : keeps running_min_version (call h msg).
Proof. unfold call, send. keeps_tac. Qed.

Lemma remove_keeps xs : keeps running_min_version (remove_request xs).
Proof.
  unfold remove_request. keeps_tac. apply keeps_modify. intros t. unfold remove_one. by case_match.
Qed.

Lemma tq_keys_keeps x : keeps running_min_version (request_tq_keys x).
Proof. unfold request_tq_keys. keeps_tac. Qed.

#[local] Hint Resolve send_keeps call_keeps remove_keeps tq_keys_keeps : psrl.

Lemma abort_status_keeps ids blocking : keeps running_min_version (abort_requests_status ids blocking).
Proof. unfold abort_requests_status. keeps_tac. Qed.

Lemma on_inventory_keeps {A} v (i : Inv A) : keeps fence (on_inventory v i).
Proof. unfold on_inventory. destruct v; by apply keeps_zoom_outside. Qed.

Lemma on_tracker_keeps {A} (k : Trk A) : keeps running_min_version k → keeps fence (on_tracker k).
Proof.
  intros Hk m. unfold on_tracker, zoom. specialize (Hk (tracker m)).
  destruct (k (tracker m)); simpl in *; unfold fence; simpl; by rewrite Hk.
Qed.

#[local] Hint Resolve abort_status_keeps on_inventory_keeps on_tracker_keeps : psrl.

Lemma abort_requests_keeps ids g blocking : keeps fence (abort_requests ids g blocking).
Proof. unfold abort_requests, abort_group_of. keeps_tac. Qed.

(** The two counters agree. *)
Definition fenced (m : PSManager) : Prop := running_min_version (tracker m) = max_aborted_version m + 1.

Definition mark_version (v : Z) (ids : gset Z) : Mgr (gset Z) :=
  modify (λ m, set_max_aborted (Z.max (max_aborted_version m) v) m) ;;
  new ← on_tracker (get_requests_of_abort_version v);
  mret (ids ∪ new).

Lemma mark_versions_run m vs ids :
  fenced m → (∀ v, v ∈ vs → 0 ≤ v) →
  ∃ ids' m', fold_each vs ids mark_version m = Ret ids' m' ∧ fenced m' ∧
    max_aborted_version m ≤ max_aborted_version m' ∧ (∀ v, v ∈ vs → v ≤ max_aborted_version m').
Proof.
  revert m ids. induction vs as [|v vs IH]; intros m ids Hf Hpos; simpl.
  { exists ids, m. split_and!; [done|done|lia|set_solver]. }
  set (m1 := set_max_aborted (Z.max (max_aborted_version m) v) m). assert (∃ X t1, on_tracker (get_requests_of_abort_version v) m1 =
    Ret X (set_tracker t1 m1) ∧ running_min_version t1 = Z.max (running_min_version (tracker m)) (v + 1)) as (X & t1 & Hrun & Ht1).
  { unfold on_tracker, zoom, get_requests_of_abort_version. rewrite run_assert_decide by (apply Hpos; set_solver). mrun.
    eexists _, _. split; reflexivity. }
  assert (mark_version v ids m = Ret (ids ∪ X) (set_tracker t1 m1)) as Hone.
  { unfold mark_version. mrun. by rewrite (run_bind _ _ _ _ _ Hrun). }
  rewrite (run_bind _ _ _ _ _ Hone).
  destruct (IH (set_tracker t1 m1) (ids ∪ X)) as (ids' & m' & Hrun' & Hf' & Hle & Hall).
  - unfold fenced in *. simpl. rewrite Ht1. lia.
  - intros w Hw. apply Hpos. set_solver.
  - simpl in Hle. exists ids', m'. split_and!; [done|done|lia|]. intros w [->|Hw]%elem_of_cons; [lia|auto].
Qed.

Lemma fence_keeps_fenced {A} (k : Mgr A) m : keeps fence k → fenced m →
  fenced (final (k m)) ∧ max_aborted_version (final (k m)) = max_aborted_version m.
Proof.
  intros Hk Hf. specialize (Hk m). unfold fence in Hk. injection Hk as H1 H2. unfold fenced. by rewrite H1, H2.
Qed.

(** C4: when a buffer becomes ready the manager and the request tracker move
    the staleness fence together, and only forwards: whether the handler
    completes or raises, afterwards the tracker's minimum running version is
    one more than the largest aborted version, which has not decreased and
    covers every version selected for abortion. *)
Theorem ready_buffer_moves_fence (m : PSManager) (bid : Z) :
  fenced m → (∀ v, v ∈ check_abort_versions m → 0 ≤ v) →
  let m' := final (abort_after_buffer_ready bid m) in
  let pending := if bool_decide (cfg_staleness m ≤ bid) then {[bid - cfg_staleness m]} ∪ check_abort_versions m
                 else check_abort_versions m in
  fenced m' ∧ max_aborted_version m ≤ max_aborted_version m' ∧
  ∀ v, v ∈ (collect_abort_versions (size pending) (ps_model_version m) (cfg_staleness m)
              (ready_buffer_ids (staleness_inventory m)) pending).1 → v ≤ max_aborted_version m'.
Proof.
  intros Hf Hpos m' pending. unfold m', abort_after_buffer_ready. mrun. cbv zeta.
  set (m1 := if bool_decide (cfg_staleness m ≤ bid) then set_check_abort ({[bid - cfg_staleness m]} ∪ check_abort_versions m) m else m).
  assert ((if bool_decide (cfg_staleness m ≤ bid)
           then modify (λ m0, set_check_abort ({[bid - cfg_staleness m]} ∪ check_abort_versions m0) m0) else mret tt) m = Ret tt m1) as H1.
  { unfold m1. by case_bool_decide. }
  rewrite (run_bind _ _ _ _ _ H1). mrun.
  assert (check_abort_versions m1 = pending ∧ fenced m1 ∧ max_aborted_version m1 = max_aborted_version m) as (Hp & Hf1 & Hmax1).
  { unfold m1, pending. by case_bool_decide. }
  rewrite Hp. destruct (collect_abort_versions _ _ _ _ pending) as [vs rest] eqn:Hcol. simpl. mrun.
  apply collect_spec in Hcol as (Hmem & _); [|done].
  destruct (mark_versions_run (set_check_abort rest m1) (sort_by id vs) ∅) as (ids & m2 & Hrun & Hf2 & Hle & Hall); [done| |].
  { intros v Hv%elem_of_sort_by. assert (v ∈ pending) as Hin by (apply Hmem; auto). unfold pending in Hin.
    case_bool_decide; [|by apply Hpos]. apply elem_of_union in Hin as [Hv'%elem_of_singleton|Hin]; [lia|by apply Hpos]. }
  unfold mark_version in Hrun. rewrite (run_bind _ _ _ _ _ Hrun).
  match goal with |- fenced (final (?k m2)) ∧ _ => assert (keeps fence k) as Hk end.
  { pose proof abort_requests_keeps. keeps_tac; solve [auto|by apply (on_inventory_keeps false)]. }
  destruct (fence_keeps_fenced _ m2 Hk Hf2) as [Hf3 ->]. split_and!; [done|simpl in Hle; lia|].
  intros v Hv. apply Hall. by apply elem_of_sort_by.
Qed.
End fence.

Lemma ready_buffer_moves_fence_witness :
  let m' := final (@abort_after_buffer_ready elements_order 3 demo_manager) in
  fenced m' ∧ -1 ≤ max_aborted_version m'.
Proof.
  destruct (@ready_buffer_moves_fence elements_order demo_manager 3) as (Hf & Hle & _);
    [reflexivity|intros v Hv; simpl in Hv; set_solver|]. split; [exact Hf|exact Hle].
Defined.

(** The version a status update leaves in the metadata of request [x]: the one it
    names, or the recorded one when it names none. *)
Definition updated_version (t : RequestStatusTracker) (x version : Z) : option Z :=
  if bool_decide (version ≠ -1) then Some version else req_version <$> request_infos t !! x.

Lemma judge_fenced t x v version inst :
  0 ≤ v < running_min_version t → (updated_version t x version = Some v ∨ request_infos t !! x = None) →
  is_accepted (judge t x version inst false) = false.
Proof.
  intros Hv Hx. unfold judge. case_bool_decide; [done|]. destruct (request_infos t !! x) as [info|] eqn:Hi; [|done].
  destruct Hx as [Hx|]; [|done]. unfold updated_version in Hx. rewrite Hi in Hx.
  assert (req_version (refresh_info version inst info) = v) as Hr.
  { unfold refresh_info. repeat case_bool_decide; simpl in *; congruence. }
  unfold is_stale. rewrite Hr, bool_decide_true by lia. done.
Qed.

Lemma judge_refused_status t x st version inst : tracker_ok t → is_accepted (judge t x version inst false) = false →
  let t' := settle x st (judge t x version inst false) t in
  request_id_to_status t' !! x = None ∨ request_id_to_status t' !! x = request_id_to_status t !! x.
Proof.
  intros Hok Hj. cbv zeta. rewrite (settle_self t x st version inst false Hok).
  destruct (judge t x version inst false); [by left|by right|by right|done].
Qed.

(** C5: an aborted version is dead for training: whatever request asks, tracked or
    not, a training reservation for a version from 0 up to the largest aborted one is
    not admitted (the check answers no, or raises when the request is itself
    marked for abortion), the reservation itself gives no slot and leaves the
    inventory as it is, and a training status update that names such a version,
    or names none for a request recorded with such a version or not tracked at
    all, is refused: the status stays, or an aborted request is forgotten.
    Requests of validation are exempt from the fence in the code. *)
Theorem aborted_version_is_dead (m : PSManager) (x v : Z) :
  fenced m → tracker_ok (tracker m) → 0 ≤ v ≤ max_aborted_version m →
  (∀ without_new, can_reserve_one x v without_new false m =
    if bool_decide (x ∈ abort_request_ids (tracker m)) then Raise AssertionError m else Ret false m) ∧
  (∀ inst guarantee, let o := reserve_one inst x v guarantee false m in
    (result o = inl AssertionError ∨ result o = inr None) ∧ staleness_inventory (final o) = staleness_inventory m) ∧
  (∀ version inst st, updated_version (tracker m) x version = Some v ∨ request_infos (tracker m) !! x = None →
    ∃ t', update_request_status (One x) (One st) (One version) (One inst) false (tracker m) = Ret (One false) t' ∧
      (request_id_to_status t' !! x = None ∨ request_id_to_status t' !! x = request_id_to_status (tracker m) !! x)).
Proof.
  intros Hf Hok Hv. split_and!.
  - intros without_new. unfold can_reserve_one. mrun. rewrite run_assert_decide by lia.
    destruct (decide (x ∈ abort_request_ids (tracker m))) as [Hx|Hx].
    { rewrite (bool_decide_true (x ∈ _)) by done. mrun. by rewrite (bool_decide_false (x ∉ _)) by naive_solver. }
    rewrite (bool_decide_false (x ∈ _)) by done. mrun. rewrite run_assert_decide by done. by rewrite bool_decide_true by lia.
  - intros inst guarantee. cbv zeta. unfold reserve_one. rewrite run_assert_decide by lia. mrun. destruct guarantee.
    + destruct (decide (x ∈ abort_request_ids (tracker m))) as [Hx|Hx].
      * rewrite bool_decide_false by naive_solver. split; [by left|done].
      * mrun. rewrite run_assert_decide by done. mrun. cbn. rewrite bool_decide_false by lia. split; [by left|done].
    + assert (∃ b t', on_tracker (check_aborted_request x true) m = Ret b (set_tracker t' m)) as (b & t' & Hrun).
      { unfold on_tracker, zoom. rewrite (check_aborted_run _ x Hok). eauto. }
      rewrite (run_bind _ _ _ _ _ Hrun). destruct b; [split; [by right|done]|]. mrun. cbn. rewrite bool_decide_false by lia. split; [by left|done].
  - intros version inst st Hx. destruct (update_single_run (tracker m) x st version inst false Hok) as [msgs Hrun].
    assert (is_accepted (judge (tracker m) x version inst false) = false) as Hj by (apply (judge_fenced _ _ v); [unfold fenced in Hf; lia|done]).
    eexists. rewrite Hrun, Hj. split; [done|]. by apply judge_refused_status.
Qed.

Definition demo_aborted : PSManager :=
  set_tracker (with_min_version 4 (demo_one 7 2 RequestStatus.RUNNING)) (set_max_aborted 3 demo_manager).

Lemma aborted_version_is_dead_witness :
  can_reserve_one 7 2 false false demo_aborted = Ret false demo_aborted ∧
  result (reserve_one INVALID_ROLLOUT_INSTANCE_ID 7 2 false false demo_aborted) = inl AssertionError ∧
  ∃ t', update_request_status (One 7) (One RequestStatus.COMPLETED) (One (-1)) (One INVALID_ROLLOUT_INSTANCE_ID) false
    (tracker demo_aborted) = Ret (One false) t'.
Proof.
  destruct (aborted_version_is_dead demo_aborted 7 2) as (Hc & Hr & Hu); [reflexivity| |simpl; lia|].
  { destruct (demo_one_ok 7 2 RequestStatus.RUNNING). by split. }
  split_and!.
  - rewrite (Hc false). reflexivity.
  - vm_compute. reflexivity.
  - destruct (Hu (-1) INVALID_ROLLOUT_INSTANCE_ID RequestStatus.COMPLETED) as (t' & Hrun & _); [left; reflexivity|].
    exists t'. exact Hrun.
Defined.

(** ** Reserving and occupying through the manager *)

(** The manager's invariant: a consistent tracker, a training inventory of the
    configured staleness and an up-to-date fence. *)
Record mgr_ok (m : PSManager) : Prop := {
  mg_tracker : tracker_ok (tracker m);
  mg_training : training (cfg_staleness m) (staleness_inventory m);
  mg_fenced : fenced m;
}.

Lemma new_manager_ok entries ready st n a v mode : (ready ≤ entries)%nat → mgr_ok (new_manager entries ready st n a v mode).
Proof.
  intros Hr. split; [apply new_tracker_ok| |done].
  split; [by apply new_inventory_ok|apply new_inventory_window|done|done].
Qed.

Lemma on_inventory_run {A} (i : Inv A) m a s :
  i (staleness_inventory m) = Ret a s → on_inventory false i m = Ret a (set_inventory s m).
Proof. intros Hi. unfold on_inventory, zoom. by rewrite Hi. Qed.

Lemma on_tracker_run {A} (k : Trk A) m a t :
  k (tracker m) = Ret a t → on_tracker k m = Ret a (set_tracker t m).
Proof. intros Hk. unfold on_tracker, zoom. by rewrite Hk. Qed.

Lemma set_inventory_ok m s : mgr_ok m → training (cfg_staleness m) s → mgr_ok (set_inventory s m).
Proof. intros [] Hs. by split. Qed.

(** Reserving a new prompt for training through the manager.  For a version
    beyond the aborted ones the answer is a slot of a buffer in
    [v .. v + staleness] and the manager's invariant is kept; when no buffer of
    that window has room the request is refused with [RuntimeError], again with
    the invariant intact; there is no other outcome. *)
Theorem reserve_request_in_window (m : PSManager) (inst : RolloutInstanceId) (x v : Z) :
  mgr_ok m → x ∉ abort_request_ids (tracker m) → max_aborted_version m < v → v ≠ -1 → v + cfg_staleness m ≠ 0 →
  data_tracker (staleness_inventory m) !! (x / trk_rollout_n (tracker m)) = None →
  match reserve_one inst x v true false m with
  | Ret r m' => mgr_ok m' ∧ ∃ bid eid, r = Some (bid, eid) ∧ v ≤ bid ≤ v + cfg_staleness m ∧
      data_tracker (staleness_inventory m') !! (x / trk_rollout_n (tracker m)) = Some (bid, eid)
  | Raise e m' => mgr_ok m' ∧ e = RuntimeError ∧
      ∀ bid, ¬ reservable (staleness_inventory m') (cfg_staleness m) (v + cfg_staleness m) bid
  end.
Proof.
  intros Hm Hx Hab Hv Hhi Hfresh. pose proof (mg_training _ Hm) as Ht. destruct Ht as [Hok Hw Hval Hst].
  unfold reserve_one. rewrite run_assert_decide by done. mrun. rewrite run_assert_decide by done. mrun. cbn [orb].
  rewrite run_assert_decide by done. cbv zeta. cbn iota.
  set (r := request_info m inst x v false).
  assert (req_prompt_id r = x / trk_rollout_n (tracker m)) as Hp by done.
  destruct (ensure_buffer_exists_run (staleness_inventory m) (v + cfg_staleness m) Hok Hval) as (s1 & Hens & Hok1 & Hb1 & _ & Htr1 & _ & Hcfg1).
  assert (window_ok s1) as Hw1 by (by eapply (window_ensure (staleness_inventory m))).
  destruct (reserve_fresh_run (staleness_inventory m) r (cfg_staleness m) (v + cfg_staleness m) Hval Hst Hfresh s1 Hens Hok1 Htr1 Hcfg1 Hhi)
    as [[Hrun Hnone]|(bid & eid & b & e & f & Hrun & Hok' & (Hwin & _) & _ & Hb & _ & He & _)];
    rewrite (run_bind _ _ _ _ _ (on_inventory_run _ m _ _ Hrun)); simpl.
  - split; [|done]. apply set_inventory_ok; [done|]. by eapply (training_intro _ (staleness_inventory m)).
  - split.
    + apply set_inventory_ok; [done|]. eapply (training_intro _ (staleness_inventory m)); [done|done| |done].
      eapply (window_reserve s1 r (cfg_staleness m)); [unfold config in Hcfg1; congruence|apply slot_at_Some; eauto|simpl; lia|done].
    + exists bid, eid. split_and!; [done|lia|lia|]. simpl. by rewrite lookup_insert_eq.
Qed.

Lemma reserve_request_in_window_witness :
  match reserve_one INVALID_ROLLOUT_INSTANCE_ID 6 1 true false demo_manager with
  | Ret r m' => mgr_ok m' ∧ ∃ bid eid, r = Some (bid, eid) ∧ 1 ≤ bid ≤ 2 ∧
      data_tracker (staleness_inventory m') !! 3 = Some (bid, eid)
  | Raise e m' => mgr_ok m' ∧ e = RuntimeError ∧ ∀ bid, ¬ reservable (staleness_inventory m') 1 2 bid
  end.
Proof.
  exact (reserve_request_in_window demo_manager INVALID_ROLLOUT_INSTANCE_ID 6 1 (new_manager_ok 2 2 1 2 2 1 "cpu" (le_n 2))
    ltac:(simpl; set_solver) ltac:(simpl; lia) ltac:(lia) ltac:(simpl; lia) ltac:(reflexivity)).
Defined.

(** A request that may be removed as ready for training. *)
Definition train_ready (t : RequestStatusTracker) (x : Z) : Prop :=
  request_id_to_status t !! x = Some RequestStatus.COMPLETED ∧ x ∉ abort_request_ids t.

Lemma train_ready_checks t xs :
  tracker_ok t → (∀ x, x ∈ xs → train_ready t x) →
  for_each xs (λ req_id,
    t ← gets id;
    assert (bool_decide (is_Some (request_id_to_status t !! req_id))) ;;
    assert (bool_decide (is_Some (request_infos t !! req_id))) ;;
    assert (bool_decide (request_id_to_status t !! req_id = Some RequestStatus.COMPLETED)) ;;
    assert (bool_decide (req_id ∉ abort_request_ids t))) t = Ret tt t.
Proof.
  intros Hok Hall. induction xs as [|x xs IH]; simpl; [done|].
  destruct (Hall x) as [Hs Ha]; [set_solver|]. assert (is_Some (request_id_to_status t !! x)) as Hsome by (by rewrite Hs).
  mrun. rewrite run_assert_decide by done. mrun. rewrite run_assert_decide by (by apply (tk_dom _ Hok)).
  mrun. rewrite run_assert_decide by done. mrun. rewrite run_assert_decide by done. apply IH. set_solver.
Qed.

Lemma not_aborted_checks m xs :
  tracker_ok (tracker m) → (∀ x, x ∈ xs → train_ready (tracker m) x) →
  check_aborted_requests xs true m = Ret (replicate (length xs) false) m.
Proof.
  intros Hok Hall. unfold check_aborted_requests. induction xs as [|x xs IH]; simpl; [done|].
  destruct (Hall x) as [Hs Ha]; [set_solver|].
  assert (on_tracker (check_aborted_request x true) m = Ret false m) as Hone.
  { unfold on_tracker, zoom. rewrite (check_aborted_run _ x Hok). rewrite !bool_decide_false by naive_solver. by destruct m. }
  rewrite (run_bind _ _ _ _ _ Hone). rewrite (run_bind _ _ _ _ _ (IH ltac:(set_solver))). done.
Qed.

Lemma zip_false (xs : list Z) :
  (filter (λ xb : Z * bool, xb.2 = false) (zip xs (replicate (length xs) false))).*1 = xs.
Proof. induction xs as [|x xs IH]; [done|]. cbn [length replicate zip_with]. rewrite filter_cons_True by done. rewrite fmap_cons. by rewrite IH. Qed.

(** C6: handing a finished group to training.  When every request of the group
    is completed and not aborted and the prompt's reservation is in a slot below
    the ready threshold of its buffer, the manager occupies a slot in the window of
    the group's version, no later than the buffer reserved for it, answers its
    buffer, the number of entries that are then occupied in that buffer and the
    group's metadata, stops tracking the requests and keeps its invariant. *)
Theorem occupy_group_exact `{SetOrder} (m : PSManager) (pid bid v : Z) (eid : nat) (b : StalenessBuffer) (info : EntryInfo)
    (xs : list Z) :
  mgr_ok m → xs ≠ [] → (∀ x, x ∈ xs → train_ready (tracker m) x) →
  data_tracker (staleness_inventory m) !! pid = Some (bid, eid) → buffers (staleness_inventory m) !! bid = Some b →
  entries b !! eid = Some (mkEntry RESERVED (Some info)) → get_entry_version info = inr v →
  (eid < ready_num_entries b)%nat →
  ∃ tgt n m', occupy_rollout_instance_request pid (Some xs) false m = Ret (Some (tgt, n, info)) m' ∧ mgr_ok m' ∧
    v ≤ tgt ≤ bid ∧ view (staleness_inventory m') pid = Some (tgt, OCCUPIED, info) ∧
    (∃ b', buffers (staleness_inventory m') !! tgt = Some b' ∧ n = occupied_count b') ∧
    ∀ x, x ∈ xs → request_id_to_status (tracker m') !! x = None.
Proof.
  intros [Htrk Htrain Hf] Hne Hall Hp Hb He Hv Hlt. pose proof Htrain as [Hok Hw Hval Hst].
  destruct (remove_request_run (tracker m) xs Htrk) as (t' & Hrm & Hok' & Hs' & _ & _ & _ & Hmin).
  destruct (occupy_primary_run (staleness_inventory m) (cfg_staleness m) v pid bid eid b info Hok Hw Hval Hst Hp Hb He Hv Hlt)
    as (tgt & teid & s' & Hocc & Hoks & Hws & Hcfg & _ & Hrange & Hview & Hpos & _ & _ & b1 & Hb1 & Hcount).
  exists tgt, (S teid), (set_inventory s' (set_tracker t' m)). split_and!; [|split| | |done|by exists b1|]; try lia.
  - unfold occupy_rollout_instance_request. cbn [default]. rewrite (run_bind _ _ _ _ _ (not_aborted_checks m xs Htrk Hall)).
    cbv zeta. rewrite zip_false.
    assert (on_tracker (remove_train_ready_request xs) m = Ret tt (set_tracker t' m)) as Htr.
    { apply on_tracker_run. unfold remove_train_ready_request. by rewrite (run_bind _ _ _ _ _ (train_ready_checks _ xs Htrk Hall)). }
    rewrite (run_bind _ _ _ _ _ Htr). mrun. destruct xs as [|x xs]; [done|].
    assert (on_inventory false (occupy_data_with_reserve pid) (set_tracker t' m) =
      Ret (tgt, teid, S teid) (set_inventory s' (set_tracker t' m))) as Hrun by (by apply on_inventory_run).
    rewrite (run_bind _ _ _ _ _ Hrun).
    destruct (view_slot s' pid tgt OCCUPIED info (ok_wf _ Hoks) (ok_tracked _ Hoks) Hview) as (b' & eid' & Hp' & _ & _ & _ & Hslot & _).
    assert (eid' = teid) as -> by congruence.
    assert (on_inventory false (get_info tgt teid) (set_inventory s' (set_tracker t' m)) =
      Ret info (set_inventory s' (set_tracker t' m))) as Hinfo.
    { apply (on_inventory_run (get_info tgt teid) (set_inventory s' (set_tracker t' m)) info s').
      unfold get_info. by rewrite (run_get_entry _ _ _ _ _ Hslot). }
    by rewrite (run_bind _ _ _ _ _ Hinfo).
  - done.
  - by eapply (training_intro _ (staleness_inventory m)).
  - unfold fenced in *. simpl. by rewrite Hmin.
  - intros x Hx. simpl. by rewrite Hs', decide_True.
Qed.

#[local] Existing Instance elements_order.

(** Prompt 3 reserved by its requests 6 and 7 of version 1, both completed. *)
Definition demo_group : PSManager :=
  final ((on_tracker (add_request (Many [6; 7]) (One INVALID_ROLLOUT_INSTANCE_ID) (One 1) (One RequestStatus.COMPLETED) (One false)) ;;
          reserve_rollout_instance_requests [INVALID_ROLLOUT_INSTANCE_ID] [6] [1] true false) demo_manager).

Definition demo_group_inventory : StalenessInventory :=
  final (reserve_data (mkRequestInfo INVALID_ROLLOUT_INSTANCE_ID 3 0 1 1 false) (Some 2) (staleness_inventory demo_manager)).

Lemma add_one_ok t x inst v st val :
  tracker_ok t → request_id_to_status t !! x = None → tracker_ok (add_one x inst v st val t).
Proof.
  intros Hok Hnone. split; simpl; intros *.
  - rewrite !lookup_insert. case_decide; [done|apply Hok].
  - rewrite lookup_insert. pose proof (tk_sets _ Hok) as Hsets. unfold insert, fn_insert.
    pose proof (Hsets st0 x0). pose proof (Hsets st x0). repeat case_decide; subst; set_solver.
  - intros Ha%(tk_abort _ Hok). rewrite lookup_insert. by case_decide.
  - rewrite lookup_insert. case_decide; [by intros [= <-]|apply Hok].
Qed.

Lemma demo_group_tracker_ok : tracker_ok (tracker demo_group).
Proof.
  change (tracker demo_group) with
    (add_one 7 INVALID_ROLLOUT_INSTANCE_ID 1 RequestStatus.COMPLETED false
      (add_one 6 INVALID_ROLLOUT_INSTANCE_ID 1 RequestStatus.COMPLETED false (new_tracker 2 2 1))).
  apply add_one_ok; [apply add_one_ok; [apply new_tracker_ok|reflexivity]|reflexivity].
Qed.

Lemma demo_group_training : training 1 (staleness_inventory demo_group).
Proof.
  apply (reachable_training 1 2 2 2); [lia|]. apply rtc_once.
  apply (step_reserve _ _ _ (mkRequestInfo INVALID_ROLLOUT_INSTANCE_ID 3 0 1 1 false) (Some (2, 1%nat))); [done|intros [? [=]]|].
  assert (staleness_inventory demo_group = demo_group_inventory) as -> by (vm_compute; reflexivity).
  assert (result (reserve_data (mkRequestInfo INVALID_ROLLOUT_INSTANCE_ID 3 0 1 1 false) (Some 2) (staleness_inventory demo_manager))
    = inr (Some (2, 1%nat))) as Hres by (vm_compute; reflexivity).
  exact (outcome_eta _ _ Hres).
Qed.

Lemma occupy_group_exact_witness :
  ∃ tgt n info m', occupy_rollout_instance_request 3 (Some [6; 7]) false demo_group = Ret (Some (tgt, n, info)) m' ∧
    mgr_ok m' ∧ 1 ≤ tgt ≤ 2.
Proof.
  assert (∃ b info, buffers (staleness_inventory demo_group) !! 2 = Some b ∧ ready_num_entries b = 2%nat ∧
    entries b !! 1%nat = Some (mkEntry RESERVED (Some info)) ∧ get_entry_version info = inr 1) as (b & info & Hb & Hr & He & Hv).
  { eexists _, _. vm_compute. repeat split; reflexivity. }
  destruct (occupy_group_exact demo_group 3 2 1 1 b info [6; 7]) as (tgt & n & m' & Hrun & Hok & Hrange & _);
    [split; [exact demo_group_tracker_ok|exact demo_group_training|vm_compute; reflexivity]|done|
     |vm_compute; reflexivity|exact Hb|exact He|exact Hv|lia|].
  { assert (∀ x, x ∈ [6; 7] → train_ready (tracker demo_group) x) as Hall; [|exact Hall].
    intros x Hx. apply elem_of_cons in Hx as [->|Hx%list_elem_of_singleton]; [|subst x];
      (split; [vm_compute; reflexivity|]); apply (bool_decide_unpack _); vm_compute; exact I. }
  exists tgt, n, info, m'. exact (conj Hrun (conj Hok Hrange)).
Defined.

(** ** Pushing and pulling a model version *)

(** What the inventory operations leave alone. *)
Definition model_part (m : PSManager) := (model_store m, tracker m, rollout_instance_tracker m, ps_mode m, cfg_staleness m).

Lemma inventory_keeps_model {A} v (i : Inv A) : keeps model_part (on_inventory v i).
Proof. unfold on_inventory. destruct v; by apply keeps_zoom_outside. Qed.

Lemma delete_all_run m xs :
  mgr_ok m → NoDup xs → (∀ x, x ∈ xs → is_Some (buffers (staleness_inventory m) !! x)) →
  ∃ m', for_each xs (λ x, on_inventory false (delete_buffer x)) m = Ret tt m' ∧ mgr_ok m' ∧
    (∀ x, buffers (staleness_inventory m') !! x = if decide (x ∈ xs) then None else buffers (staleness_inventory m) !! x).
Proof.
  intros Hm Hnd. revert m Hm. induction Hnd as [|x xs Hnin Hnd IH]; intros m Hm Hall; simpl.
  { exists m. split_and!; try done; intros x; by rewrite decide_False by set_solver. }
  destruct (Hall x) as [b Hb]; [set_solver|]. pose proof (mg_training _ Hm) as [Hok Hw Hval Hst].
  destruct (delete_buffer_run (staleness_inventory m) x b Hok Hb) as (s' & Hrun & Hok' & Hw' & Hcfg & Hbuf & _).
  rewrite (run_bind _ _ _ _ _ (on_inventory_run _ m _ _ Hrun)).
  destruct (IH (set_inventory s' m)) as (m' & Hrun' & Hm' & Hb').
  - apply set_inventory_ok; [done|]. apply (training_intro _ (staleness_inventory m)); auto. by destruct Hm.
  - intros y Hy. simpl. rewrite Hbuf, lookup_delete_ne; [apply Hall; set_solver|set_solver].
  - exists m'. split_and!; try done. intros y. rewrite Hb'. simpl. rewrite Hbuf, lookup_delete.
    repeat case_decide; set_solver.
Qed.

(** Deleting the marked buffers up to [bid], when [bid] itself is marked. *)
Lemma maybe_delete_run m bid :
  mgr_ok m → let marked := ready_for_delete_buffer_ids (staleness_inventory m) in
  ∃ m', maybe_delete_buffer bid false m = Ret tt m' ∧ mgr_ok m' ∧ model_part m' = model_part m ∧
    ∀ x, buffers (staleness_inventory m') !! x =
      if decide (bid ∈ marked ∧ x ∈ marked ∧ x ≤ bid) then None else buffers (staleness_inventory m) !! x.
Proof.
  intros Hm marked. assert (keeps model_part (maybe_delete_buffer bid false)) as Hk.
  { unfold maybe_delete_buffer. keeps_tac. apply (inventory_keeps_model false). }
  specialize (Hk m). revert Hk. unfold maybe_delete_buffer. mrun. fold marked.
  case_bool_decide as Hin; intros Hk; last first.
  { exists m. split_and!; try done. intros x. by rewrite decide_False by tauto. }
  destruct (delete_all_run m (filter (λ x, x ≤ bid) (sort_by id (elements marked))) Hm) as (m1 & Hrun & Hok1 & Hb1).
  - apply NoDup_filter. rewrite sort_by_perm. apply NoDup_elements.
  - intros x [_ Hx%elem_of_sort_by%elem_of_elements]%list_elem_of_filter.
    apply (ok_delete _ (tr_ok _ _ (mg_training _ Hm))). done.
  - rewrite Hrun in Hk. exists m1. split_and!; [done..|]. intros x. rewrite Hb1.
    assert (x ∈ filter (λ x, x ≤ bid) (sort_by id (elements marked)) ↔ x ∈ marked ∧ x ≤ bid) as Hx.
    { rewrite list_elem_of_filter, elem_of_sort_by, elem_of_elements. tauto. }
    destruct (decide (x ∈ marked ∧ x ≤ bid)); [rewrite !decide_True by tauto|rewrite !decide_False by tauto]; done.
Qed.

Lemma push_run m store :
  mgr_ok m → has_coordinator (tracker m) = true → 0 < version_tag store →
  let marked := ready_for_delete_buffer_ids (staleness_inventory m) in
  ∃ m', push_store store m = Ret tt m' ∧ mgr_ok m' ∧ model_part m' = model_part (set_model_store store m) ∧
    last (notices m') = Some (PSModelVersion (version_tag store)) ∧
    ∀ x, buffers (staleness_inventory m') !! x =
      if decide (version_tag store - 1 ∈ marked ∧ x ∈ marked ∧ x ≤ version_tag store - 1) then None
      else buffers (staleness_inventory m) !! x.
Proof.
  intros Hm Hco Hv marked. unfold push_store. mrun. rewrite bool_decide_true by done.
  destruct (maybe_delete_run (set_model_store store m) (version_tag store - 1)) as (m1 & Hrun & Hok1 & Hpart & Hb1).
  { destruct Hm. by split. }
  rewrite (run_bind _ _ _ _ _ Hrun). unfold notify. mrun.
  assert (has_coordinator (tracker m1) = true) as -> by (unfold model_part in Hpart; simpl in Hpart; congruence).
  eexists. split; [reflexivity|]. split; [destruct Hok1; by split|]. split_and!; [done|simpl; by rewrite last_snoc|done].
Qed.

(** Pushing version [v] deletes consumed buffers only.  When the buffer of
    training step [v - 1] is marked for deletion, exactly the marked buffers up
    to [v - 1] disappear; otherwise no buffer does.  The new version is recorded
    and announced, and the invariant is kept. *)
Theorem push_deletes_consumed (m : PSManager) (v : Z) :
  mgr_ok m → has_coordinator (tracker m) = true → 0 < v →
  let marked := ready_for_delete_buffer_ids (staleness_inventory m) in
  ∃ m', push_model_state_dict_nixl v m = Ret tt m' ∧ mgr_ok m' ∧ ps_model_version m' = v ∧
    last (notices m') = Some (PSModelVersion v) ∧
    ∀ x, buffers (staleness_inventory m') !! x =
      if decide (v - 1 ∈ marked ∧ x ∈ marked ∧ x ≤ v - 1) then None else buffers (staleness_inventory m) !! x.
Proof.
  intros Hm Hco Hv marked. destruct (push_run m (mkModelStore v None None) Hm Hco Hv) as (m' & Hrun & Hok & Hpart & Hn & Hb).
  exists m'. split_and!; try done. unfold ps_model_version. unfold model_part in Hpart. by injection Hpart as -> _.
Qed.

(** The manager with its coordinator set and one registered instance. *)
Definition demo_bound (mode : string) : PSManager :=
  final ((on_tracker set_rollout_coordinator ;; register_rollout_instance [("w", 0)]) (new_manager 2 2 1 2 2 1 mode)).

Lemma demo_bound_ok mode : mgr_ok (demo_bound mode).
Proof.
  destruct (new_manager_ok 2 2 1 2 2 1 mode (le_n 2)) as [Ht Hi Hf]. split; [|exact Hi|exact Hf]. destruct Ht. by split.
Qed.

Lemma push_deletes_consumed_witness :
  ∃ m', push_model_state_dict_nixl 1 (demo_bound "nixl_cpu") = Ret tt m' ∧ mgr_ok m' ∧ last (notices m') = Some (PSModelVersion 1).
Proof.
  destruct (push_deletes_consumed (demo_bound "nixl_cpu") 1) as (m' & Hrun & Hok & _ & Hn & _); [apply demo_bound_ok|reflexivity|lia|].
  exists m'. exact (conj Hrun (conj Hok Hn)).
Defined.

Lemma tag_latest_run m insts :
  has_coordinator (tracker m) = true → (∀ i, i ∈ insts → is_Some (rollout_instance_tracker m !! i)) →
  ∃ m', update_rollout_instance_model_version_tag_to_latest insts m = Ret tt m' ∧ model_store m' = model_store m ∧
    ∀ i, rollout_instance_tracker m' !! i =
      if decide (i ∈ insts) then Some (ps_model_version m) else rollout_instance_tracker m !! i.
Proof.
  unfold update_rollout_instance_model_version_tag_to_latest. revert m.
  induction insts as [|i insts IH]; intros m Hco Hreg; simpl.
  { exists m. by split_and!. }
  destruct (Hreg i) as [v Hv]; [set_solver|].
  set (m1 := if decide (v = ps_model_version m) then m
             else set_notices (notices m ++ [InstanceModelVersion i (ps_model_version m)])
                    (set_instances (<[i := ps_model_version m]> (rollout_instance_tracker m)) m)).
  assert (model_store m1 = model_store m ∧ tracker m1 = tracker m) as [Hms1 Htr1] by (unfold m1; by case_decide).
  assert (∀ j, rollout_instance_tracker m1 !! j = if decide (j = i) then Some (ps_model_version m) else rollout_instance_tracker m !! j) as Hm1.
  { intros j. unfold m1. case_decide; simpl; [case_decide; by subst|]. rewrite lookup_insert. repeat case_decide; by subst. }
  rewrite (run_bind _ _ _ tt m1); last first.
  { mrun. rewrite (run_of_option _ _ v) by done. unfold m1.
    case_decide; [by rewrite bool_decide_true|]. rewrite bool_decide_false by done. unfold assert, notify, mbind, M_bind, gets, modify, id.
    rewrite Hco. simpl. by rewrite Hco. }
  destruct (IH m1) as (m' & Hrun & Hms & Hall).
  - by rewrite Htr1.
  - intros j Hj. rewrite Hm1. case_decide; [done|]. apply Hreg. set_solver.
  - exists m'. split_and!; [done|congruence|]. intros j. rewrite Hall, Hm1. unfold ps_model_version. rewrite Hms1.
    repeat case_decide; set_solver.
Qed.

(** A pull gives what was pushed last.  After version [v] with state dict [d]
    was pushed in CPU mode, a pull by registered instances answers [d] and
    records [v] as the version of exactly these instances. *)
Theorem pull_returns_pushed (m : PSManager) (v : Z) (d : StateDict) (insts : list RolloutInstanceId) :
  mgr_ok m → has_coordinator (tracker m) = true → 0 < v → ps_mode m = "cpu" →
  (∀ i, i ∈ insts → is_Some (rollout_instance_tracker m !! i)) →
  ∃ m1 m2, push_model_state_dict_cpu v (Some d) m = Ret tt m1 ∧ pull_model_state_dict_cpu insts m1 = Ret (Some d) m2 ∧
    ∀ i, rollout_instance_tracker m2 !! i = if decide (i ∈ insts) then Some v else rollout_instance_tracker m !! i.
Proof.
  intros Hm Hco Hv Hmode Hreg. destruct (push_run m (mkModelStore v (Some d) None) Hm Hco Hv) as (m1 & Hrun & _ & Hpart & _).
  unfold model_part in Hpart. simpl in Hpart. injection Hpart as Hs Ht Hi Hmode1 _.
  destruct (tag_latest_run m1 insts) as (m2 & Hrun2 & Hs2 & Hall); [by rewrite Ht|by rewrite Hi|].
  exists m1, m2. split_and!.
  - unfold push_model_state_dict_cpu. mrun. by rewrite run_assert_decide.
  - unfold pull_model_state_dict_cpu. mrun. rewrite run_assert_decide by congruence. rewrite (run_bind _ _ _ _ _ Hrun2). mrun.
    by rewrite Hs2, Hs.
  - intros i. rewrite Hall, Hi. unfold ps_model_version. by rewrite Hs.
Qed.

Lemma pull_returns_pushed_witness :
  ∃ m1 m2, push_model_state_dict_cpu 3 (Some 8%N) (demo_bound "cpu") = Ret tt m1 ∧
    pull_model_state_dict_cpu [("w", 0)] m1 = Ret (Some 8%N) m2 ∧ rollout_instance_tracker m2 !! ("w", 0) = Some 3.
Proof.
  destruct (pull_returns_pushed (demo_bound "cpu") 3 8%N [("w", 0)]) as (m1 & m2 & H1 & H2 & Hi);
    [apply demo_bound_ok|reflexivity|lia|reflexivity|by intros i ->%list_elem_of_singleton|].
  exists m1, m2. split; [exact H1|]. split; [exact H2|]. exact (Hi ("w", 0)).
Defined.

(** ** Group abortion *)

Definition demo_abort_manager (rollout_n alg_rollout_n : Z) : PSManager := new_manager 4 4 1 rollout_n alg_rollout_n 1 "cpu".

Definition demo_setup (ids : list Z) : Mgr unit :=
  on_tracker (set_rollout_coordinator ;;
    add_request (Many ids) (One INVALID_ROLLOUT_INSTANCE_ID) (One 1) (One RequestStatus.ROLLOUT_RUNNING) (One false)).

Definition demo_reserve_one (x : Z) : Mgr (option (Z * nat)) := reserve_one INVALID_ROLLOUT_INSTANCE_ID x 1 true false.

(** Aborting a group adds the remaining members by their index within the
    group instead of their request id.  Groups of 4: prompt 5 has the requests
    20 and 21 in flight, prompt 0 the requests 0 and 1.  Aborting request 20
    drops the group of prompt 5 and marks request 20 and the unrelated request
    1, while request 21 of the dropped group is not marked. *)
Theorem abort_group_marks_wrong_request :
  let o := (demo_setup [0; 1; 20; 21] ;; demo_reserve_one 0 ;; demo_reserve_one 1 ;; demo_reserve_one 20 ;; demo_reserve_one 21 ;;
            abort_requests [20] true false) (demo_abort_manager 4 4) in
  result o = inr tt ∧ elements (abort_request_ids (tracker (final o))) ≡ₚ [1; 20] ∧
  data_tracker (staleness_inventory (final o)) !! 5 = None ∧
  is_Some (data_tracker (staleness_inventory (final o)) !! 0).
Proof.
  intros o. split; [vm_compute; reflexivity|].
  assert (elements (abort_request_ids (tracker (final o))) = [20; 1] ∨ elements (abort_request_ids (tracker (final o))) = [1; 20]) as He
    by (vm_compute; auto).
  split; [destruct He as [->| ->]; [apply perm_swap|done]|].
  split; [vm_compute; reflexivity|]. vm_compute. eauto.
Qed.

(** Aborting a request of a group of which only one other request has been
    reserved raises [AssertionError] when one request is enough for the
    algorithm: the group is kept, and its scalar request index is not a list. *)
Theorem abort_keeps_scalar_group_raises :
  let o := (demo_setup [4; 5] ;; demo_reserve_one 4 ;; abort_requests [5] true false) (demo_abort_manager 2 1) in
  result o = inl AssertionError ∧ abort_request_ids (tracker (final o)) = ∅.
Proof. compute_run. Qed.
