(* ===== verification/Broadcast.v ===== *)
(** * Binary-tree broadcast of the initial weights

    [BinaryTreeBroadcastPlan] and [build_broadcast_plan]
    ([psrl/workers/ps/broadcast.py]) and the rounds
    [PSManager._coordinate_broadcast_init] runs from a plan.  [math.ceil] of
    [math.log2] is [Z.log2_up]. *)

From S2P Require Import Prelude.

(** ** The plan *)

Section plan.
Context (world_size : Z).

Definition get_children (rank : Z) : list Z :=
  filter (λ child, child < world_size) [2 * rank + 1; 2 * rank + 2].

Definition get_parent (rank : Z) : option Z :=
  if bool_decide (rank = 0) then None else Some ((rank - 1) / 2).

Definition num_rounds : nat := if bool_decide (world_size ≤ 1) then 0 else Z.to_nat (Z.log2_up world_size).

(** The senders of [n] rounds, starting from the ranks that may send. *)
Fixpoint precompute_senders (n : nat) (ready_to_send : gset Z) : list (list Z) :=
  match n with
  | O => []
  | S n =>
      let senders := sort_by id (filter (λ r, get_children r ≠ []) (elements ready_to_send)) in
      senders :: precompute_senders n (list_to_set (senders ≫= get_children))
  end.

Definition senders_per_round : list (list Z) :=
  if bool_decide (world_size = 1) then [] else precompute_senders num_rounds {[0]}.

Definition senders_in_round (round_idx : Z) : list Z :=
  if bool_decide (round_idx < 0 ∨ Z.of_nat (length senders_per_round) ≤ round_idx) then []
  else default [] (senders_per_round !! Z.to_nat round_idx).
End plan.

Definition build_broadcast_plan (world_size : Z) (algorithm : string) : Res Z :=
  if bool_decide (algorithm = "binary_tree")
  then (if bool_decide (1 ≤ world_size) then inr world_size else inl AssertionError)
  else inl ValueError.

(** The transfers of the coordinated broadcast: (round, sender, receiver). *)
Definition coordinate_broadcast (n : Z) : list (nat * Z * Z) :=
  seq 0 (num_rounds n) ≫= λ k, senders_in_round n (Z.of_nat k) ≫= λ s, (λ c, (k, s, c)) <$> get_children n s.

(** ** Levels of the tree *)

(** The ranks at depth [k]. *)
Definition level (n : Z) (k : nat) (r : Z) : Prop := 2 ^ Z.of_nat k - 1 ≤ r < 2 ^ Z.of_nat (S k) - 1 ∧ r < n.

Lemma elem_of_get_children n r c : c ∈ get_children n r ↔ (c = 2 * r + 1 ∨ c = 2 * r + 2) ∧ c < n.
Proof. unfold get_children. rewrite list_elem_of_filter. set_solver. Qed.

Lemma pow2_succ k : 2 ^ Z.of_nat (S k) = 2 * 2 ^ Z.of_nat k.
Proof. rewrite Nat2Z.inj_succ, Z.pow_succ_r by lia. done. Qed.

(** The children of a level are the next one. *)
Lemma level_succ n k c : level n (S k) c ↔ ∃ r, level n k r ∧ c ∈ get_children n r.
Proof.
  unfold level. rewrite (pow2_succ (S k)), (pow2_succ k). setoid_rewrite elem_of_get_children. split.
  - intros [Hc Hn]. exists ((c - 1) / 2).
    pose proof (Z_div_mod_eq_full (c - 1) 2). pose proof (Z.mod_pos_bound (c - 1) 2 ltac:(lia)). lia.
  - intros (r & Hr & Hc & Hn). lia.
Qed.

Lemma level_unique n k j r : level n k r → level n j r → k = j.
Proof.
  intros [Hk _] [Hj _]. assert (Z.log2 (r + 1) = Z.of_nat k) by (apply Z.log2_unique; [lia|rewrite <-Nat2Z.inj_succ; lia]).
  assert (Z.log2 (r + 1) = Z.of_nat j) by (apply Z.log2_unique; [lia|rewrite <-Nat2Z.inj_succ; lia]). lia.
Qed.

Lemma level_exists n r : 0 ≤ r < n → ∃ k, level n k r ∧ (k ≤ Z.to_nat (Z.log2 n))%nat.
Proof.
  intros Hr. exists (Z.to_nat (Z.log2 (r + 1))). pose proof (Z.log2_spec (r + 1)) as Hs. pose proof (Z.log2_nonneg (r + 1)).
  unfold level. rewrite Nat2Z.inj_succ, Z2Nat.id by lia. split; [lia|]. apply Z2Nat.inj_le; [lia|apply Z.log2_nonneg|].
  apply Z.log2_le_mono. lia.
Qed.

Lemma precompute_length n m X : length (precompute_senders n m X) = m.
Proof. revert X. induction m as [|m IH]; intros X; simpl; [done|]. by rewrite IH. Qed.

(** Round [j] is sent by the ranks of one level that have children. *)
Lemma precompute_spec n m k X j r :
  (∀ x, x ∈ X ↔ level n k x) → (j < m)%nat →
  r ∈ default [] (precompute_senders n m X !! j) ↔ level n (k + j) r ∧ get_children n r ≠ [].
Proof.
  revert k X j. induction m as [|m IH]; intros k X j HX Hj; [lia|]. simpl.
  assert (∀ x, x ∈ sort_by id (filter (λ r, get_children n r ≠ []) (elements X)) ↔ level n k x ∧ get_children n x ≠ []) as Hs.
  { intros x. rewrite elem_of_sort_by, list_elem_of_filter, elem_of_elements, HX. tauto. }
  destruct j as [|j]; simpl; [by rewrite Nat.add_0_r|].
  replace (k + S j)%nat with (S k + j)%nat by lia. apply IH; [|lia].
  intros x. rewrite elem_of_list_to_set, list_elem_of_bind, level_succ. setoid_rewrite Hs. split.
  - intros (y & Hx & Hy & _). eauto.
  - intros (y & Hy & Hx). exists y. split_and!; [done|done|]. intros Hnil. rewrite Hnil in Hx. set_solver.
Qed.

Lemma senders_spec n k r :
  1 ≤ n → (k < num_rounds n)%nat →
  r ∈ senders_in_round n (Z.of_nat k) ↔ level n k r ∧ get_children n r ≠ [].
Proof.
  intros Hn Hk. unfold num_rounds in Hk. case_bool_decide as H1; [lia|].
  unfold senders_in_round, senders_per_round. rewrite (bool_decide_false (n = 1)) by lia.
  unfold num_rounds. rewrite (bool_decide_false (n ≤ 1)) by lia.
  rewrite precompute_length, Nat2Z.id, bool_decide_false by lia.
  apply (precompute_spec n _ 0); [|done]. intros x. unfold level. simpl. rewrite elem_of_singleton. lia.
Qed.

Lemma coordinate_spec n k s c :
  1 ≤ n → (k, s, c) ∈ coordinate_broadcast n ↔ (k < num_rounds n)%nat ∧ level n k s ∧ c ∈ get_children n s.
Proof.
  intros Hn. unfold coordinate_broadcast. rewrite list_elem_of_bind. setoid_rewrite list_elem_of_bind.
  setoid_rewrite list_elem_of_fmap. split.
  - intros (j & (r & (c' & [= -> -> ->] & Hc) & Hr) & Hj%elem_of_seq). split; [lia|].
    apply senders_spec in Hr as [? _]; [|done|lia]. done.
  - intros (Hk & Hl & Hc). exists k. split; [|apply elem_of_seq; lia]. exists s. split; [eauto|].
    apply senders_spec; [done|done|]. split; [done|]. intros Hnil. rewrite Hnil in Hc. set_solver.
Qed.

(** ** Theorems *)

(** The coordinated broadcast delivers the weights to every rank exactly
    once: each rank other than 0 is the receiver of exactly one transfer, which
    comes from its parent, within the [ceil(log2 n)] rounds. *)
Theorem broadcast_reaches_once (n r : Z) :
  0 < r < n → ∃ k s, (k, s, r) ∈ coordinate_broadcast n ∧ get_parent r = Some s ∧
    ∀ k' s', (k', s', r) ∈ coordinate_broadcast n → k' = k ∧ s' = s.
Proof.
  intros Hr. destruct (level_exists n r) as (k & Hl & Hk); [lia|].
  destruct k as [|k]; [unfold level in Hl; simpl in Hl; lia|].
  pose proof Hl as (s & Hs & Hc)%level_succ. exists k, s.
  assert (k < num_rounds n)%nat as Hlt.
  { unfold num_rounds. rewrite bool_decide_false by lia. pose proof (Z.le_log2_log2_up n). lia. }
  split_and!.
  - apply coordinate_spec; [lia|]. done.
  - unfold get_parent. rewrite bool_decide_false by lia. f_equal. apply elem_of_get_children in Hc.
    pose proof (Z_div_mod_eq_full (r - 1) 2). pose proof (Z.mod_pos_bound (r - 1) 2 ltac:(lia)). lia.
  - intros k' s' (_ & Hl' & Hc')%coordinate_spec; [|lia].
    assert (s' = s) as -> by (apply elem_of_get_children in Hc, Hc'; lia).
    split; [by eapply level_unique|done].
Qed.

Lemma broadcast_reaches_once_witness : ∃ k s, (k, s, 6) ∈ coordinate_broadcast 9 ∧ get_parent 6 = Some s.
Proof. destruct (broadcast_reaches_once 9 6) as (k & s & H1 & H2 & _); [lia|]. exists k, s. exact (conj H1 H2). Defined.

(** No rank sends before it has the weights: the sender of a transfer of
    round [k] is rank 0 or received them in an earlier round, so the barrier
    between rounds makes every transfer valid. *)
Theorem broadcast_sender_has_data (n : Z) (k : nat) (s c : Z) :
  1 ≤ n → (k, s, c) ∈ coordinate_broadcast n → s = 0 ∨ ∃ j p, (j < k)%nat ∧ (j, p, s) ∈ coordinate_broadcast n.
Proof.
  intros Hn (Hk & Hl & _)%coordinate_spec; [|done].
  destruct k as [|k]; [left; unfold level in Hl; simpl in Hl; lia|]. right.
  apply level_succ in Hl as (p & Hp & Hs). exists k, p. split; [lia|]. apply coordinate_spec; [done|]. split_and!; [lia|done|done].
Qed.

Lemma broadcast_sender_has_data_witness : 2 = 0 ∨ ∃ j p, (j < 1)%nat ∧ (j, p, 2) ∈ coordinate_broadcast 9.
Proof. apply (broadcast_sender_has_data 9 1 2 6); [lia|]. apply (bool_decide_unpack _). vm_compute. exact I. Defined.
