(* ===== verification/BatchSchedule.v ===== *)
(** * Training batch schedules

    [psrl/trainer/ppo/batch_schedule.py]: how a training batch is cut into
    worker dispatches.  Trajectory mode hands the whole batch to the worker;
    request mode makes one dispatch per optimizer update, aligned to requests.
    [random.Random(seed).shuffle] is an argument of the definitions. *)

From S2P Require Import Prelude.

(** ** Data *)

(** The entries of a sample's tag the scheduler reads. *)
Record Tag := mkTag {
  is_padding : bool;
  uid : option Z;
}.

Record BatchScheduleStep := mkStep {
  sample_indices : option (list nat);
  global_batch_size : Z;
  mini_batch_size : option Z;
  num_mini_batch : option Z;
  step_epochs : Z;
  step_seed : Z;
  step_shuffle : bool;
}.

Inductive extra_value :=
  | IntValue (z : Z)
  | DataloaderKwargs (shuffle : bool).

Definition worker_extra_info (s : BatchScheduleStep) : list (string * extra_value) :=
  [("global_batch_size", IntValue (global_batch_size s)); ("epochs", IntValue (step_epochs s));
   ("seed", IntValue (step_seed s)); ("dataloader_kwargs", DataloaderKwargs (step_shuffle s))] ++
  (match mini_batch_size s with Some z => [("mini_batch_size", IntValue z)] | None => [] end) ++
  (match num_mini_batch s with Some z => [("num_mini_batch", IntValue z)] | None => [] end).

Record BatchSchedule := mkSchedule {
  schedule_mode : string;
  entries_per_update : Z;
  steps : list BatchScheduleStep;
}.

Definition TRAJECTORY_AGG_MODE : string := "trajectory".
Definition REQUEST_AGG_MODE : string := "request".

Record BatchScheduleStrategy := mkStrategy {
  aggregation_mode : string;
  builder : list Tag → Z → Z → bool → Z → Res BatchSchedule;
  dispatch_steps_individually : bool;
  use_algorithm_rollout_count : bool;
}.

Definition strategy_entries_per_update (st : BatchScheduleStrategy) (ppo_mini_batch_size rollout_n algorithm_rollout_n : Z) : Z :=
  let rollout_count := if use_algorithm_rollout_count st then algorithm_rollout_n else rollout_n in
  ppo_mini_batch_size * rollout_count.

(** ** Operations *)

Definition build_trajectory_schedule (tags : list Tag) (entries_per_update epochs : Z) (shuffle : bool) (seed : Z)
    : Res BatchSchedule :=
  inr (mkSchedule TRAJECTORY_AGG_MODE entries_per_update
         [mkStep None entries_per_update (Some entries_per_update) None epochs seed shuffle]).

(** The requests in order of first appearance and the samples of each. *)
Fixpoint group_samples (i : nat) (tags : list Tag) (order : list Z) (groups : gmap Z (list nat))
    : Res (list Z * gmap Z (list nat)) :=
  match tags with
  | [] => inr (order, groups)
  | tag :: tags =>
      if is_padding tag then group_samples (S i) tags order groups
      else match uid tag with
      | None => inl ValueError
      | Some u =>
          group_samples (S i) tags
            (if bool_decide (is_Some (groups !! u)) then order else order ++ [u])
            (<[u := default [] (groups !! u) ++ [i]]> groups)
      end
  end.

(** [range(0, n, k)] for a positive step. *)
Definition range_step (n k : Z) : list Z := (λ j, j * k) <$> zrange 0 ((n + k - 1) / k).

(** [l[start : start + k]] for non-negative bounds. *)
Definition slice {A} (l : list A) (start k : Z) : list A := take (Z.to_nat k) (drop (Z.to_nat start) l).

(** One optimizer update over whole requests. *)
Definition request_step (groups : gmap Z (list nat)) (seed : Z) (request_ids : list Z) : BatchScheduleStep :=
  let idxs := request_ids ≫= (λ u, default [] (groups !! u)) in
  mkStep (Some idxs) (Z.of_nat (length idxs)) None (Some 1) 1 seed false.

Section shuffled.
(** [random.Random(seed).shuffle] *)
Context (shuffled : Z → list Z → list Z).

(** The dispatches appended by one epoch. *)
Definition epoch_steps (groups : gmap Z (list nat)) (order : list Z) (k : Z) (shuffle : bool) (seed epoch : Z)
    (done : list BatchScheduleStep) : list BatchScheduleStep :=
  let epoch_order := if shuffle then shuffled (seed + epoch) order else order in
  foldl (λ steps start, steps ++ [request_step groups (seed + Z.of_nat (length steps)) (slice epoch_order start k)])
    done (range_step (Z.of_nat (length order)) k).

Definition build_request_schedule (tags : list Tag) (entries_per_update epochs : Z) (shuffle : bool) (seed : Z)
    : Res BatchSchedule :=
  match group_samples 0 tags [] ∅ with
  | inl e => inl e
  | inr (order, groups) =>
      let num_requests := Z.of_nat (length order) in
      if bool_decide (num_requests = 0) then inl ValueError
      else if bool_decide (num_requests mod entries_per_update ≠ 0) then inl ValueError
      else inr (mkSchedule REQUEST_AGG_MODE entries_per_update
             (foldl (λ steps epoch, epoch_steps groups order entries_per_update shuffle seed epoch steps) [] (zrange 0 epochs)))
  end.

(** [_BATCH_SCHEDULE_STRATEGIES] *)
Definition strategies : list (string * BatchScheduleStrategy) :=
  [(TRAJECTORY_AGG_MODE, mkStrategy TRAJECTORY_AGG_MODE build_trajectory_schedule false false);
   (REQUEST_AGG_MODE, mkStrategy REQUEST_AGG_MODE build_request_schedule true true)].

Definition get_batch_schedule_strategy (mode : string) : Res BatchScheduleStrategy :=
  match filter (λ ks : string * BatchScheduleStrategy, ks.1 = mode) strategies with
  | (_, st) :: _ => inr st
  | [] => inl ValueError
  end.

Definition build_batch_schedule (tags : list Tag) (mode : string) (entries_per_update epochs : Z) (shuffle : bool) (seed : Z)
    : Res BatchSchedule :=
  match get_batch_schedule_strategy mode with
  | inl e => inl e
  | inr st =>
      if bool_decide (entries_per_update ≤ 0) then inl ValueError
      else if bool_decide (epochs ≤ 0) then inl ValueError
      else builder st tags entries_per_update epochs shuffle seed
  end.
End shuffled.

Definition resolve_sample_keys (keys : list string) (sample_indices : list Z) : Res (list string) :=
  if bool_decide (Exists (λ i, i < 0 ∨ Z.of_nat (length keys) ≤ i) sample_indices) then inl ValueError
  else match mapM (λ i, keys !! Z.to_nat i) sample_indices with Some ks => inr ks | None => inl IndexError end.

(** ** Grouping *)

(** The positions of the samples that are not padding. *)
Fixpoint real_from (i : nat) (tags : list Tag) : list nat :=
  match tags with
  | [] => []
  | tag :: tags => (if is_padding tag then [] else [i]) ++ real_from (S i) tags
  end.
Definition real_samples (tags : list Tag) : list nat := real_from 0 tags.

(** Sample [i] belongs to request [u]. *)
Definition belongs (tags : list Tag) (i : nat) (u : Z) : Prop :=
  ∃ tag, tags !! i = Some tag ∧ is_padding tag = false ∧ uid tag = Some u.

Definition samples_of (groups : gmap Z (list nat)) (u : Z) : list nat := default [] (groups !! u).

Definition grouped (order : list Z) (groups : gmap Z (list nat)) : Prop :=
  NoDup order ∧ ∀ u, u ∈ order ↔ is_Some (groups !! u).

Section grouping.
Implicit Types (order : list Z) (groups : gmap Z (list nat)) (tags : list Tag).

Lemma samples_of_insert groups u v l :
  samples_of (<[u := l]> groups) v = if decide (v = u) then l else samples_of groups v.
Proof. unfold samples_of. rewrite lookup_insert. repeat case_decide; simplify_eq; done. Qed.

(** Appending a sample to the group of [u], new or not. *)
Lemma grouped_add order groups u i :
  grouped order groups →
  let order' := if bool_decide (is_Some (groups !! u)) then order else order ++ [u] in
  let groups' := <[u := samples_of groups u ++ [i]]> groups in
  grouped order' groups' ∧ order' ≫= samples_of groups' ≡ₚ (order ≫= samples_of groups) ++ [i].
Proof.
  intros [Hnd Hdom] order' groups'.
  assert (∀ l, u ∉ l → l ≫= samples_of groups' = l ≫= samples_of groups) as Hother.
  { induction l as [|v l IH]; [done|]. intros [Hne Hl]%not_elem_of_cons. rewrite !bind_cons, IH by done.
    unfold groups'. rewrite samples_of_insert. by rewrite decide_False. }
  assert (samples_of groups' u = samples_of groups u ++ [i]) as Hu.
  { unfold groups'. rewrite samples_of_insert. by rewrite decide_True. }
  unfold order'. case_bool_decide as Hin.
  - split; [split; [done|]|].
    + intros v. unfold groups'. rewrite lookup_insert. case_decide; subst; [by rewrite Hdom|apply Hdom].
    + apply Hdom, elem_of_Permutation in Hin as [rest Hrest]. rewrite Hrest, !bind_cons, Hu.
      rewrite Hother by (rewrite Hrest in Hnd; by apply NoDup_cons in Hnd as [? _]).
      rewrite <-!app_assoc. f_equiv. apply Permutation_app_comm.
  - assert (u ∉ order) as Hnin by (by rewrite Hdom). split; [split|].
    + apply NoDup_app. split_and!; [done| |apply NoDup_singleton]. intros v Hv ->%list_elem_of_singleton. done.
    + intros v. rewrite elem_of_app, list_elem_of_singleton. unfold groups'. rewrite lookup_insert, Hdom.
      case_decide; naive_solver.
    + rewrite bind_app, bind_singleton, Hu, Hother by done. unfold samples_of at 2.
      apply eq_None_not_Some in Hin. by rewrite Hin.
Qed.

Lemma group_samples_spec i tags order groups order' groups' :
  group_samples i tags order groups = inr (order', groups') → grouped order groups →
  grouped order' groups' ∧
  order' ≫= samples_of groups' ≡ₚ (order ≫= samples_of groups) ++ real_from i tags ∧
  ∀ u j, j ∈ samples_of groups' u ↔ j ∈ samples_of groups u ∨ ∃ d, j = (i + d)%nat ∧ belongs tags d u.
Proof.
  revert i order groups. induction tags as [|tag tags IH]; intros i order groups; simpl.
  { intros [= <- <-] Hg. rewrite app_nil_r. split_and!; [done..|]. intros u j. unfold belongs. set_solver. }
  assert (∀ j u, (∃ d, j = (i + d)%nat ∧ belongs (tag :: tags) d u) ↔
    (j = i ∧ is_padding tag = false ∧ uid tag = Some u) ∨ ∃ d, j = (S i + d)%nat ∧ belongs tags d u) as Hcons.
  { intros j u. split.
    - intros ([|d] & -> & tag' & Hd & Hp & Hu); simpl in Hd; [left; simplify_eq; split_and!; [lia|done..]|].
      right. exists d. split; [lia|]. by exists tag'.
    - intros [(-> & Hp & Hu)|(d & -> & tag' & Hd)]; [exists 0%nat; split; [lia|by exists tag]|].
      exists (S d). split; [lia|]. by exists tag'. }
  destruct (is_padding tag) eqn:Hp.
  { intros Hrun Hg. destruct (IH _ _ _ Hrun Hg) as (H1 & H2 & H3). split_and!; [done..|].
    intros u j. rewrite H3, Hcons. naive_solver. }
  destruct (uid tag) as [v|] eqn:Hv; [|done]. intros Hrun Hg.
  destruct (grouped_add order groups v i Hg) as [Hg' Hperm].
  destruct (IH _ _ _ Hrun Hg') as (H1 & H2 & H3). split_and!; [done| |].
  - rewrite H2. unfold samples_of in Hperm |- *. rewrite Hperm. by rewrite <-app_assoc.
  - intros u j. rewrite H3, Hcons. fold (samples_of groups v). rewrite samples_of_insert.
    case_decide; subst; [rewrite elem_of_app, list_elem_of_singleton; naive_solver|naive_solver].
Qed.

(** Grouping fails exactly on a sample without a request id. *)
Lemma group_samples_error i tags order groups :
  match group_samples i tags order groups with
  | inl e => e = ValueError ∧ ∃ tag, tag ∈ tags ∧ is_padding tag = false ∧ uid tag = None
  | inr _ => ∀ tag, tag ∈ tags → is_padding tag = false → is_Some (uid tag)
  end.
Proof.
  revert i order groups. induction tags as [|tag tags IH]; intros i order groups; simpl; [set_solver|].
  destruct (is_padding tag) eqn:Hp.
  - specialize (IH (S i) order groups). destruct (group_samples _ _ _ _); [naive_solver set_solver|].
    intros tag' [->|?]%elem_of_cons; [congruence|auto].
  - destruct (uid tag) as [v|] eqn:Hv; [|naive_solver set_solver].
    match goal with |- context [group_samples (S i) tags ?o ?g] => specialize (IH (S i) o g) end.
    destruct (group_samples _ _ _ _); [naive_solver set_solver|].
    intros tag' [->|?]%elem_of_cons; [by rewrite Hv|auto].
Qed.
End grouping.

(** ** Cutting an epoch into updates *)

Section cutting.
Context {A : Type}.
Implicit Types (l : list A).

Lemma slices_prefix l k (c : nat) :
  0 < k → concat ((λ j, slice l (j * k) k) <$> seqZ 0 (Z.of_nat c)) = take (c * Z.to_nat k) l.
Proof.
  intros Hk. induction c as [|c IH]; [done|].
  rewrite seqZ_S, fmap_app, concat_app, IH. cbn [fmap list_fmap concat]. rewrite app_nil_r, Z.add_0_l. unfold slice.
  replace (Z.to_nat (Z.of_nat c * k)) with (c * Z.to_nat k)%nat by nia.
  rewrite take_take_drop. f_equal. lia.
Qed.

Definition slices l k : list (list A) := (λ start, slice l start k) <$> range_step (Z.of_nat (length l)) k.

Lemma slices_concat l k : 0 < k → concat (slices l k) = l.
Proof.
  intros Hk. unfold slices, range_step, zrange. rewrite <-list_fmap_compose.
  assert (0 ≤ (Z.of_nat (length l) + k - 1) / k) as Hpos by (apply Z.div_pos; lia).
  pose proof (Z.mul_succ_div_gt (Z.of_nat (length l) + k - 1) k Hk) as Hgt.
  rewrite Z.sub_0_r, <-(Z2Nat.id _ Hpos). unfold compose. rewrite slices_prefix by done.
  apply take_ge. nia.
Qed.

(** Every cut is full when [k] divides the length. *)
Lemma slices_full l k ids :
  0 < k → Z.of_nat (length l) mod k = 0 → ids ∈ slices l k → Z.of_nat (length ids) = k.
Proof.
  intros Hk Hmod. unfold slices, range_step. rewrite <-list_fmap_compose.
  intros (j & -> & Hj%elem_of_zrange)%list_elem_of_fmap. unfold compose, slice.
  rewrite length_take, length_drop.
  apply Z.div_exact in Hmod; [|lia]. set (q := Z.of_nat (length l) / k) in *.
  assert ((Z.of_nat (length l) + k - 1) / k = q) as Hq.
  { symmetry. apply (Z.div_unique _ _ _ (k - 1)); lia. }
  rewrite Hq in Hj. assert (j * k + k ≤ Z.of_nat (length l)) by nia. lia.
Qed.
End cutting.

Section schedule.
Context (shuffled : Z → list Z → list Z).
Implicit Types (order : list Z) (groups : gmap Z (list nat)) (tags : list Tag).

(** The requests of the updates of one epoch. *)
Definition epoch_requests order (k : Z) (sh : bool) (seed epoch : Z) : list (list Z) :=
  (λ start, slice (if sh then shuffled (seed + epoch) order else order) start k) <$> range_step (Z.of_nat (length order)) k.

Definition numbered groups (seed : Z) (n : nat) (reqs : list (list Z)) : list BatchScheduleStep :=
  imap (λ j ids, request_step groups (seed + Z.of_nat (n + j)) ids) reqs.

Lemma numbered_cons groups seed n ids reqs :
  numbered groups seed n (ids :: reqs) = request_step groups (seed + Z.of_nat n) ids :: numbered groups seed (S n) reqs.
Proof.
  unfold numbered. rewrite imap_cons. rewrite Nat.add_0_r. f_equal. apply imap_ext. intros j x _. simpl.
  by replace (n + S j)%nat with (S n + j)%nat by lia.
Qed.

Lemma numbered_app groups seed n reqs reqs' :
  numbered groups seed n (reqs ++ reqs') = numbered groups seed n reqs ++ numbered groups seed (n + length reqs) reqs'.
Proof.
  unfold numbered. rewrite imap_app. f_equal. apply imap_ext. intros j x _. simpl. by rewrite Nat.add_assoc.
Qed.

Lemma numbered_length groups seed n reqs : length (numbered groups seed n reqs) = length reqs.
Proof. apply length_imap. Qed.

Lemma epoch_steps_closed groups order k sh seed epoch done :
  epoch_steps shuffled groups order k sh seed epoch done =
    done ++ numbered groups seed (length done) (epoch_requests order k sh seed epoch).
Proof.
  unfold epoch_steps, epoch_requests. generalize (range_step (Z.of_nat (length order)) k). intros starts.
  revert done. induction starts as [|start starts IH]; intros done; [by rewrite app_nil_r|].
  cbn [foldl]. rewrite IH, fmap_cons, numbered_cons, length_app. simpl. rewrite <-app_assoc. simpl.
  by replace (length done + 1)%nat with (S (length done)) by lia.
Qed.

Lemma all_epochs_closed groups order k sh seed epochs done :
  foldl (λ steps epoch, epoch_steps shuffled groups order k sh seed epoch steps) done epochs =
    done ++ numbered groups seed (length done) (epochs ≫= epoch_requests order k sh seed).
Proof.
  revert done. induction epochs as [|e epochs IH]; intros done; [by rewrite app_nil_r|].
  cbn [foldl]. rewrite IH, epoch_steps_closed, bind_cons, numbered_app, length_app, <-app_assoc.
  by rewrite numbered_length.
Qed.

Lemma build_request_inv tags k epochs sh seed sched :
  build_request_schedule shuffled tags k epochs sh seed = inr sched →
  ∃ order groups, group_samples 0 tags [] ∅ = inr (order, groups) ∧ order ≠ [] ∧ Z.of_nat (length order) mod k = 0 ∧
    steps sched = numbered groups seed 0 (zrange 0 epochs ≫= epoch_requests order k sh seed).
Proof.
  unfold build_request_schedule. destruct (group_samples 0 tags [] ∅) as [|[order groups]]; [done|].
  case_bool_decide as Hz; [done|]. case_bool_decide as Hm; [done|]. intros [= <-]. exists order, groups.
  split_and!; [done|by destruct order|lia|]. simpl. by rewrite all_epochs_closed.
Qed.

Lemma build_batch_request_inv tags k epochs sh seed sched :
  build_batch_schedule shuffled tags REQUEST_AGG_MODE k epochs sh seed = inr sched →
  0 < k ∧ 0 < epochs ∧ build_request_schedule shuffled tags k epochs sh seed = inr sched.
Proof.
  unfold build_batch_schedule. simpl. repeat (case_bool_decide; [done|]). intros ?. split_and!; [lia|lia|done].
Qed.

Context (shuffled_perm : ∀ seed l, shuffled seed l ≡ₚ l).

Lemma epoch_requests_perm order k sh seed epoch :
  0 < k → concat (epoch_requests order k sh seed epoch) ≡ₚ order.
Proof.
  intros Hk. unfold epoch_requests. set (o := if sh then _ else _).
  assert (o ≡ₚ order) as Ho by (unfold o; by destruct sh). rewrite <-(Permutation_length Ho).
  etrans; [|exact Ho]. pose proof (slices_concat o k Hk) as Hc. unfold slices in Hc. by rewrite Hc.
Qed.

Lemma epoch_requests_full order k sh seed epoch ids :
  0 < k → Z.of_nat (length order) mod k = 0 → ids ∈ epoch_requests order k sh seed epoch → Z.of_nat (length ids) = k.
Proof.
  intros Hk. unfold epoch_requests. set (o := if sh then _ else _).
  assert (o ≡ₚ order) as Ho by (unfold o; by destruct sh). rewrite <-(Permutation_length Ho). intros Hm. by apply slices_full.
Qed.
End schedule.

(** ** Theorems *)

Definition step_samples (s : BatchScheduleStep) : list nat := default [] (sample_indices s).

(** The ids of the requests in a batch. *)
Definition request_uids (tags : list Tag) : gset Z :=
  list_to_set (omap (λ tag, if is_padding tag then None else uid tag) tags).

Lemma step_samples_request groups seed ids : step_samples (request_step groups seed ids) = ids ≫= samples_of groups.
Proof. done. Qed.

Lemma numbered_samples groups seed n reqs :
  numbered groups seed n reqs ≫= step_samples = concat reqs ≫= samples_of groups.
Proof.
  revert n. induction reqs as [|ids reqs IH]; intros n; [done|].
  rewrite numbered_cons, bind_cons, IH. simpl. by rewrite bind_app.
Qed.

Lemma grouped_empty : grouped [] ∅.
Proof. split; [constructor|]. intros u. rewrite lookup_empty. split; [set_solver|by intros []]. Qed.

(** The samples of the requests [order] are those that are not padding. *)
Lemma group_samples_all tags order groups :
  group_samples 0 tags [] ∅ = inr (order, groups) →
  NoDup order ∧ order ≫= samples_of groups ≡ₚ real_samples tags ∧
  (∀ u j, j ∈ samples_of groups u ↔ belongs tags j u) ∧ (∀ u, u ∈ order ↔ ∃ j, belongs tags j u).
Proof.
  intros Hrun. destruct (group_samples_spec _ _ _ _ _ _ Hrun grouped_empty) as ([Hnd Hdom] & Hperm & Hin).
  assert (∀ u j, j ∈ samples_of groups u ↔ belongs tags j u) as Hb.
  { intros u j. rewrite Hin. unfold samples_of at 1. rewrite lookup_empty. simpl. split; [|eauto].
    intros [?|(d & -> & Hd)]; [set_solver|done]. }
  split_and!; [done|exact Hperm|done|]. intros u.
  enough (∀ i ts o g, grouped o g → (∀ v, v ∈ o → samples_of g v ≠ []) → ∀ o' g', group_samples i ts o g = inr (o', g') →
    ∀ v, v ∈ o' → samples_of g' v ≠ []) as Hne.
  { split.
    - intros Hu. specialize (Hne 0%nat tags [] ∅ grouped_empty ltac:(set_solver) _ _ Hrun u Hu).
      destruct (samples_of groups u) as [|j l] eqn:E; [done|]. exists j. apply Hb. rewrite E. set_solver.
    - intros [j Hj%Hb]. apply Hdom. unfold samples_of in Hj. destruct (groups !! u); [done|set_solver]. }
  clear. intros i ts. revert i. induction ts as [|tag ts IH]; intros i o g Hg Hne o' g'; simpl; [by intros [= <- <-]|].
  destruct (is_padding tag); [by apply IH|]. destruct (uid tag) as [w|]; [|done].
  apply IH; [by apply grouped_add|]. intros v Hv. fold (samples_of g w). rewrite samples_of_insert.
  case_decide; [by destruct (samples_of g w)|]. apply Hne. case_bool_decide; set_solver.
Qed.

Section theorems.
Context (shuffled : Z → list Z → list Z) (shuffled_perm : ∀ seed l, shuffled seed l ≡ₚ l).

(** A request-aggregated schedule trains on every sample once per epoch:
    its dispatches split into [epochs] runs, and the samples of each run are
    the samples of the batch that are not padding, each exactly once. *)
Theorem request_schedule_covers (tags : list Tag) (k epochs seed : Z) (sh : bool) (sched : BatchSchedule) :
  build_batch_schedule shuffled tags REQUEST_AGG_MODE k epochs sh seed = inr sched →
  ∃ per_epoch, steps sched = concat per_epoch ∧ Z.of_nat (length per_epoch) = epochs ∧
    ∀ es, es ∈ per_epoch → es ≫= step_samples ≡ₚ real_samples tags.
Proof.
  intros (Hk & He & (order & groups & Hg & _ & _ & ->)%build_request_inv)%build_batch_request_inv.
  destruct (group_samples_all _ _ _ Hg) as (_ & Hperm & _).
  assert (∀ es n, ∃ per_epoch, numbered groups seed n (es ≫= epoch_requests shuffled order k sh seed) = concat per_epoch ∧
    length per_epoch = length es ∧ ∀ ss, ss ∈ per_epoch → ss ≫= step_samples ≡ₚ real_samples tags) as Hall.
  { induction es as [|e es IH]; intros n; [exists []; set_solver|].
    destruct (IH (n + length (epoch_requests shuffled order k sh seed e))%nat) as (pe & Heq & Hlen & Hin).
    exists (numbered groups seed n (epoch_requests shuffled order k sh seed e) :: pe).
    rewrite bind_cons, numbered_app, Heq. split_and!; [done|simpl; lia|].
    intros ss [->|Hss]%elem_of_cons; [|auto]. rewrite numbered_samples.
    by rewrite epoch_requests_perm. }
  destruct (Hall (zrange 0 epochs) 0%nat) as (pe & Heq & Hlen & Hin). exists pe. split_and!; [done| |done].
  rewrite Hlen. unfold zrange. rewrite length_seqZ. lia.
Qed.

(** Every dispatch of a request-aggregated schedule is one optimizer update
    over exactly [k] whole requests: its samples are all the samples of [k]
    different requests, it declares their number, and the [j]-th dispatch uses
    seed [seed + j]. *)
Theorem request_schedule_aligned (tags : list Tag) (k epochs seed : Z) (sh : bool) (sched : BatchSchedule)
    (j : nat) (s : BatchScheduleStep) :
  build_batch_schedule shuffled tags REQUEST_AGG_MODE k epochs sh seed = inr sched → steps sched !! j = Some s →
  global_batch_size s = Z.of_nat (length (step_samples s)) ∧ step_seed s = seed + Z.of_nat j ∧
  ∃ ids, NoDup ids ∧ Z.of_nat (length ids) = k ∧ ∀ i, i ∈ step_samples s ↔ ∃ u, u ∈ ids ∧ belongs tags i u.
Proof.
  intros (Hk & He & (order & groups & Hg & _ & Hmod & ->)%build_request_inv)%build_batch_request_inv.
  destruct (group_samples_all _ _ _ Hg) as (Hnd & _ & Hb & _).
  unfold numbered. rewrite list_lookup_imap. intros (ids & Hids & ->)%fmap_Some.
  split; [done|]. split; [done|]. exists ids.
  apply list_elem_of_lookup_2, list_elem_of_bind in Hids as (e & Hin & _).
  split_and!; [|by eapply epoch_requests_full|].
  - assert (NoDup (concat (epoch_requests shuffled order k sh seed e))) as Hnd' by (by rewrite epoch_requests_perm).
    apply list_elem_of_split in Hin as (l1 & l2 & Heq). rewrite Heq in Hnd'. rewrite concat_app in Hnd'. simpl in Hnd'.
    apply NoDup_app in Hnd' as (_ & _ & Hnd'). by apply NoDup_app in Hnd' as (? & _).
  - intros i. rewrite step_samples_request, list_elem_of_bind. setoid_rewrite Hb. naive_solver.
Qed.
End theorems.

(** A batch of four samples of the requests 5 and 6, with one padding sample. *)
Definition demo_tags : list Tag := [mkTag false (Some 5); mkTag false (Some 6); mkTag true None; mkTag false (Some 5)].

Definition demo_schedule : BatchSchedule :=
  match build_batch_schedule (λ _, reverse) demo_tags REQUEST_AGG_MODE 1 2 true 7 with inr s => s | inl _ => mkSchedule REQUEST_AGG_MODE 0 [] end.

Lemma reversed_perm (l : list Z) : reverse l ≡ₚ l.
Proof. apply reverse_Permutation. Qed.

Lemma request_schedule_covers_witness :
  ∃ per_epoch, steps demo_schedule = concat per_epoch ∧ Z.of_nat (length per_epoch) = 2.
Proof.
  destruct (request_schedule_covers (λ _, reverse) (λ _, reversed_perm) demo_tags 1 2 7 true demo_schedule) as (pe & H1 & H2 & _); [reflexivity|].
  exists pe. exact (conj H1 H2).
Defined.

Lemma request_schedule_aligned_witness :
  ∃ s, steps demo_schedule !! 3%nat = Some s ∧ step_seed s = 10 ∧ global_batch_size s = Z.of_nat (length (step_samples s)).
Proof.
  eexists. split; [reflexivity|].
  destruct (request_schedule_aligned (λ _, reverse) (λ _, reversed_perm) demo_tags 1 2 7 true demo_schedule 3
    (request_step (match group_samples 0 demo_tags [] ∅ with inr (_, g) => g | inl _ => ∅ end) 10 [5])) as (H1 & H2 & _);
    [reflexivity|reflexivity|]. exact (conj H2 H1).
Defined.

(** The modes, sizes and tags a schedule can be built for. *)
Definition schedulable (tags : list Tag) (mode : string) (k epochs : Z) : Prop :=
  (mode = TRAJECTORY_AGG_MODE ∨ mode = REQUEST_AGG_MODE) ∧ 0 < k ∧ 0 < epochs ∧
  (mode = REQUEST_AGG_MODE →
    (∀ tag, tag ∈ tags → is_padding tag = false → is_Some (uid tag)) ∧
    request_uids tags ≠ ∅ ∧ (k | Z.of_nat (size (request_uids tags)))).

Lemma elem_of_request_uids tags u : u ∈ request_uids tags ↔ ∃ j, belongs tags j u.
Proof.
  unfold request_uids, belongs. rewrite elem_of_list_to_set, list_elem_of_omap. split.
  - intros (tag & [j Hj]%list_elem_of_lookup & Hu). exists j, tag. destruct (is_padding tag); naive_solver.
  - intros (j & tag & Hj & Hp & Hu). exists tag. rewrite Hp. split; [by eapply list_elem_of_lookup_2|done].
Qed.

Lemma group_samples_uids tags order groups :
  group_samples 0 tags [] ∅ = inr (order, groups) → request_uids tags = list_to_set order ∧ size (request_uids tags) = length order.
Proof.
  intros Hg. destruct (group_samples_all _ _ _ Hg) as (Hnd & _ & _ & Hin).
  assert (request_uids tags = list_to_set order) as ->.
  { apply set_eq. intros u. by rewrite elem_of_request_uids, elem_of_list_to_set, Hin. }
  split; [done|]. by rewrite size_list_to_set.
Qed.

(** Building a schedule succeeds exactly for a known mode, positive sizes and,
    in request mode, when every sample that is not padding names its request and
    the number of requests is a positive multiple of the update size; every
    refusal is a [ValueError]. *)
Theorem build_batch_schedule_exact (shuffled : Z → list Z → list Z) (tags : list Tag) (mode : string) (k epochs seed : Z) (sh : bool) :
  match build_batch_schedule shuffled tags mode k epochs sh seed with
  | inr sched => schedulable tags mode k epochs ∧ entries_per_update sched = k ∧ schedule_mode sched = mode
  | inl e => e = ValueError ∧ ¬ schedulable tags mode k epochs
  end.
Proof.
  unfold build_batch_schedule, get_batch_schedule_strategy, strategies, schedulable. rewrite !filter_cons, filter_nil. simpl.
  destruct (decide (TRAJECTORY_AGG_MODE = mode)) as [<-|Ht]; simpl.
  { repeat (case_bool_decide; [split; [done|lia]|]). simpl. split_and!; [auto|lia|lia|done|done|done]. }
  destruct (decide (REQUEST_AGG_MODE = mode)) as [<-|Hr]; simpl; [|split; [done|naive_solver]].
  repeat (case_bool_decide; [split; [done|lia]|]).
  unfold build_request_schedule. pose proof (group_samples_error 0 tags [] ∅) as Herr.
  destruct (group_samples 0 tags [] ∅) as [e|[order groups]] eqn:Hg.
  { destruct Herr as (-> & tag & Hin & Hp & Hu). split; [done|]. intros (_ & _ & _ & Hok). specialize (Hok eq_refl) as (Hall & _).
    destruct (Hall tag Hin Hp). congruence. }
  destruct (group_samples_uids _ _ _ Hg) as [Hset Hsize]. cbv zeta.
  case_bool_decide as Hz.
  { split; [done|]. intros (_ & _ & _ & Hok). specialize (Hok eq_refl) as (_ & Hne & _). apply Hne. rewrite Hset. by destruct order. }
  case_bool_decide as Hm.
  - split; [done|]. intros (_ & _ & _ & Hok). specialize (Hok eq_refl) as (_ & _ & Hdiv). rewrite Hsize in Hdiv.
    apply Hm, Z.mod_divide; [lia|done].
  - split_and!; [auto|lia|lia| |done|done]. intros _. split_and!; [done| |rewrite Hsize; apply Z.mod_divide; lia].
    rewrite Hset. destruct order; [done|]. set_solver.
Qed.

(** A schedule has at least one dispatch. *)
Lemma range_step_nonempty n k : 0 < n → 0 < k → range_step n k ≠ [].
Proof.
  intros Hn Hk E. unfold range_step in E. apply fmap_nil_inv in E.
  assert (0 ∈ zrange 0 ((n + k - 1) / k)) as H; [|rewrite E in H; by apply not_elem_of_nil in H].
  apply elem_of_zrange. pose proof (Z.div_le_mono k (n + k - 1) k). rewrite Z.div_same in * by lia. lia.
Qed.

Lemma build_batch_schedule_nonempty (shuffled : Z → list Z → list Z) (tags : list Tag) (mode : string) (k epochs seed : Z) (sh : bool) (sched : BatchSchedule) :
  build_batch_schedule shuffled tags mode k epochs sh seed = inr sched → steps sched ≠ [].
Proof.
  intros Hb. destruct (decide (mode = REQUEST_AGG_MODE)) as [->|Hr].
  - apply build_batch_request_inv in Hb as (Hk & He & (order & groups & _ & Ho & _ & ->)%build_request_inv).
    assert (zrange 0 epochs ≫= epoch_requests shuffled order k sh seed ≠ []) as Hne.
    { intros E. assert (0 ∈ zrange 0 epochs) as H0 by (apply elem_of_zrange; lia).
      assert (epoch_requests shuffled order k sh seed 0 ≠ []) as H1.
      { unfold epoch_requests. intros E1%fmap_nil_inv. revert E1. apply range_step_nonempty; [destruct order; [done|cbn; lia]|done]. }
      destruct (epoch_requests shuffled order k sh seed 0) as [|x l] eqn:E1; [done|].
      assert (x ∈ zrange 0 epochs ≫= epoch_requests shuffled order k sh seed) as Hx; [|rewrite E in Hx; by apply not_elem_of_nil in Hx].
      apply list_elem_of_bind. exists 0. rewrite E1. split; [apply elem_of_cons; by left|done]. }
    destruct (zrange 0 epochs ≫= _) as [|x l]; [done|]. unfold numbered. by rewrite imap_cons.
  - revert Hb. unfold build_batch_schedule, get_batch_schedule_strategy, strategies. rewrite !filter_cons, filter_nil. simpl.
    destruct (decide (TRAJECTORY_AGG_MODE = mode)) as [<-|Ht]; simpl.
    + repeat (case_bool_decide; [done|]). simpl. by intros [= <-].
    + by rewrite decide_False by congruence.
Qed.

Lemma mapM_total {A B} (f : A → option B) (l : list A) :
  (∀ x, x ∈ l → is_Some (f x)) → ∃ l', mapM f l = Some l' ∧ length l' = length l.
Proof.
  intros Hall. destruct (mapM_is_Some_2 f l) as [l' Hl']; [by apply Forall_forall|].
  exists l'. split; [done|]. symmetry. by eapply Forall2_length, mapM_Some_1.
Qed.

(** The sample positions of a request-aggregated schedule always resolve: for
    one key per sample, [resolve_sample_keys] answers as many keys as the
    dispatch has samples, each of them the key at its position. *)
Theorem schedule_keys_resolve (shuffled : Z → list Z → list Z) (tags : list Tag) (k epochs seed : Z) (sh : bool) (sched : BatchSchedule)
    (s : BatchScheduleStep) (keys : list string) :
  build_batch_schedule shuffled tags REQUEST_AGG_MODE k epochs sh seed = inr sched → s ∈ steps sched →
  length keys = length tags →
  ∃ ks, resolve_sample_keys keys (Z.of_nat <$> step_samples s) = inr ks ∧ Z.of_nat (length ks) = global_batch_size s ∧
    Forall2 (λ i key, keys !! i = Some key) (step_samples s) ks.
Proof.
  intros (Hk & He & (order & groups & Hg & _ & _ & Hsteps)%build_request_inv)%build_batch_request_inv Hs Hlen.
  destruct (group_samples_all _ _ _ Hg) as (_ & _ & Hb & _).
  rewrite Hsteps in Hs. apply elem_of_lookup_imap in Hs as (j & ids & -> & _).
  rewrite step_samples_request. set (idxs := ids ≫= samples_of groups).
  assert (∀ i, i ∈ idxs → (i < length keys)%nat) as Hlt.
  { intros i (u & (tag & Hi & _)%Hb & _)%list_elem_of_bind. apply lookup_lt_Some in Hi. lia. }
  destruct (mapM_total (λ i, keys !! i) idxs) as (ks & Hks & Hl). { intros i Hi. by apply lookup_lt_is_Some_2, Hlt. }
  exists ks. unfold resolve_sample_keys. rewrite bool_decide_false; last first.
  { intros (i & (n & -> & Hn%Hlt)%list_elem_of_fmap & Hi)%Exists_exists. lia. }
  split_and!; [|simpl; by rewrite Hl|by apply mapM_Some_1].
  assert (mapM (λ i, keys !! Z.to_nat i) (Z.of_nat <$> idxs) = Some ks) as ->; [|done].
  apply mapM_Some_2, Forall2_fmap_l. apply mapM_Some_1 in Hks. eapply Forall2_impl; [exact Hks|].
  intros i key Hi. simpl. by rewrite Nat2Z.id.
Qed.

Lemma schedule_keys_resolve_witness :
  ∃ ks, resolve_sample_keys ["a"; "b"; "c"; "d"] [0; 3] = inr ks ∧ Z.of_nat (length ks) = 2.
Proof.
  destruct (schedule_keys_resolve (λ _, reverse) demo_tags 1 2 7 true demo_schedule
    (request_step (match group_samples 0 demo_tags [] ∅ with inr (_, g) => g | inl _ => ∅ end) 10 [5]) ["a"; "b"; "c"; "d"])
    as (ks & H1 & H2 & _); [reflexivity| |reflexivity|].
  { apply (list_elem_of_lookup_2 _ 3). reflexivity. }
  exists ks. exact (conj H1 H2).
Defined.
