(* ===== verification/SessionScheduler.v ===== *)
(** * Session hang and continue scheduling

    [ThunderAgentScheduler] of
    psrl/workers/gen/rollout_coordination/session/thunder_agent.py with the data
    of base.py: which sessions to hang on instances over their KV-cache
    capacity, and which hung sessions to readmit.  The environment-token weight
    is a float; [active_tokens g e] stands for
    [int(generate_tokens + self.env_token_weight * env_tokens)] and is an
    argument of the definitions, of which the theorems use that it is zero on
    no tokens. *)

From S2P Require Import Prelude.
From S2P Require Import PyData.
From S2P Require Import StalenessBuffer.

(** ** Data *)

Definition STATUS_GENERATE : string := "generate".
Definition STATUS_ENV : string := "env".
Definition SESSION_RUNNING : string := "running".
Definition SESSION_HUNG : string := "hung".

Record InstanceCapacity := mkCapacity {
  cap_instance_id : RolloutInstanceId;
  total_kv_tokens : Z;
  used_tokens : Z;
}.

Record SessionInfo := mkSession {
  session_id : string;
  session_instance : option RolloutInstanceId;
  session_status : string;
  hang_state : string;
  total_tokens : Z;
}.

#[export] Instance SessionInfo_eq_dec : EqDecision SessionInfo.
Proof. solve_decision. Defined.

(** [d.setdefault(k, []).append(x)] *)
Definition dict_append {V} (k : RolloutInstanceId) (x : V) (d : list (RolloutInstanceId * list V)) :=
  dict_set k (default [] (assoc k d) ++ [x]) d.

Abbreviation Sessions := (list (RolloutInstanceId * list SessionInfo)).
Abbreviation Capacities := (list (RolloutInstanceId * Z)).

(** ** Operations *)

(** The sessions of known instances, running and hung, grouped by instance. *)
Fixpoint group_sessions (known : list RolloutInstanceId) (sessions : list SessionInfo) (running hung : Sessions) : Sessions * Sessions :=
  match sessions with
  | [] => (running, hung)
  | sess :: sessions =>
      match session_instance sess with
      | None => group_sessions known sessions running hung
      | Some i =>
          if bool_decide (i ∉ known) then group_sessions known sessions running hung
          else if bool_decide (hang_state sess = SESSION_HUNG)
          then group_sessions known sessions running (dict_append i sess hung)
          else group_sessions known sessions (dict_append i sess running) hung
      end
  end.

Definition tokens (sessions : list SessionInfo) : Z := foldr Z.add 0 (total_tokens <$> sessions).

Abbreviation is_env s := (session_status s = STATUS_ENV).

(** Environment sessions first, smaller footprints first within each class. *)
Definition hang_order (running : list SessionInfo) : list SessionInfo :=
  sort_by total_tokens (filter (λ s, is_env s) running) ++ sort_by total_tokens (filter (λ s, ¬ is_env s) running).

Section scheduler.
Context (active_tokens : Z → Z → Z) (buffer_per_session : Z) (global_scope : bool).

Definition remaining_capacity (inst : InstanceCapacity) (running : list SessionInfo) (hung_now : gset string) : Z :=
  let generate_tokens_full := tokens (filter (λ s, ¬ is_env s) running) in
  let shared := Z.max 0 (generate_tokens_full - used_tokens inst) in
  let kept := filter (λ s, session_id s ∉ hung_now) running in
  let active := active_tokens (tokens (filter (λ s, ¬ is_env s) kept)) (tokens (filter (λ s, is_env s) kept)) in
  let buffer := Z.of_nat (length kept) * buffer_per_session in
  let used := active - shared + buffer in
  total_kv_tokens inst - used.

(** The eviction loop of one instance: the sessions hung, in order, and the
    capacity then remaining. *)
Fixpoint shed (inst : InstanceCapacity) (running order : list SessionInfo) (hung_now : gset string) (remaining : Z)
    : list SessionInfo * Z :=
  match order with
  | [] => ([], remaining)
  | sess :: order =>
      if bool_decide (0 ≤ remaining) then ([], remaining)
      else
        let hung_now := {[session_id sess]} ∪ hung_now in
        let '(rest, final) := shed inst running order hung_now (remaining_capacity inst running hung_now) in
        (sess :: rest, final)
  end.

Definition hang_instance (inst : InstanceCapacity) (running : list SessionInfo) : list SessionInfo * Z :=
  let remaining := remaining_capacity inst running ∅ in
  if bool_decide (remaining < 0) then shed inst running (hang_order running) ∅ remaining else ([], remaining).

Fixpoint hang_all (instances : list InstanceCapacity) (running : Sessions) (to_hang : list SessionInfo) (remaining : Capacities)
    : list SessionInfo * Capacities :=
  match instances with
  | [] => (to_hang, remaining)
  | inst :: instances =>
      let '(hung, capacity) := hang_instance inst (default [] (assoc (cap_instance_id inst) running)) in
      hang_all instances running (to_hang ++ hung) (dict_set (cap_instance_id inst) capacity remaining)
  end.

Definition need (s : SessionInfo) : Z := total_tokens s + buffer_per_session.

(** Readmission of sessions in the given order while they fit. *)
Fixpoint readmit (remaining : Z) (hung : list SessionInfo) : list SessionInfo :=
  match hung with
  | [] => []
  | sess :: hung =>
      if bool_decide (need sess ≤ remaining) then sess :: readmit (remaining - need sess) hung else readmit remaining hung
  end.

Definition continue_on (remaining : Z) (hung : list SessionInfo) : list SessionInfo :=
  if bool_decide (remaining ≤ buffer_per_session) then [] else readmit remaining (sort_by total_tokens hung).

Definition continue_pinned (hung : Sessions) (remaining : Capacities) : list (SessionInfo * RolloutInstanceId) :=
  hung ≫= λ '(i, ss), (λ s, (s, i)) <$> continue_on (default 0 (assoc i remaining)) ss.

(** Largest session first onto the emptiest instance; [caps] is sorted by
    decreasing capacity. *)
Fixpoint place (min_need : Z) (caps : Capacities) (resumable : list SessionInfo) : list (SessionInfo * RolloutInstanceId) :=
  match resumable with
  | [] => []
  | sess :: resumable =>
      match caps with
      | [] => []
      | (i, max_cap) :: rest =>
          if bool_decide (max_cap < min_need) then []
          else if bool_decide (max_cap < need sess) then place min_need caps resumable
          else
            let new_cap := max_cap - need sess in
            (sess, i) ::
              place min_need (if bool_decide (buffer_per_session < new_cap) then sort_by (λ row, - row.2) ((i, new_cap) :: rest) else rest)
                resumable
      end
  end.

Definition continue_global_bfd (hung : Sessions) (remaining : Capacities) : list (SessionInfo * RolloutInstanceId) :=
  let caps := filter (λ row : RolloutInstanceId * Z, buffer_per_session < row.2) remaining in
  let total_capacity := foldr Z.add 0 caps.*2 in
  if bool_decide (caps = []) || bool_decide (total_capacity ≤ 0) then []
  else
    let all_hung := hung ≫= snd in
    let resumable := readmit total_capacity (sort_by total_tokens all_hung) in
    let resumable := sort_by (λ s, - total_tokens s) resumable in
    match last resumable with
    | None => []
    | Some smallest => place (need smallest) (sort_by (λ row, - row.2) caps) resumable
    end.

Definition decide_sessions (instances : list InstanceCapacity) (sessions : list SessionInfo)
    : list string * list (string * RolloutInstanceId) :=
  let '(running, hung) := group_sessions (cap_instance_id <$> instances) sessions [] [] in
  let '(to_hang, remaining) := hang_all instances running [] [] in
  let to_continue := if global_scope then continue_global_bfd hung remaining else continue_pinned hung remaining in
  (session_id <$> to_hang, (λ '(s, i), (session_id s, i)) <$> to_continue).
End scheduler.

(** ** Sums over sorted lists *)

Section sums.
Context {A : Type} (f : A → Z).
Implicit Types (l g : list A).

Definition total l : Z := foldr Z.add 0 (f <$> l).

Lemma total_cons x l : total (x :: l) = f x + total l.
Proof. done. Qed.

Lemma total_app l l' : total (l ++ l') = total l + total l'.
Proof. induction l as [|x l IH]; [done|]. cbn [app]. rewrite !total_cons, IH. lia. Qed.

#[global] Instance total_perm : Proper ((≡ₚ) ==> (=)) total.
Proof. induction 1; rewrite ?total_cons in *; lia. Qed.

Lemma total_nonneg l : (∀ x, x ∈ l → 0 ≤ f x) → 0 ≤ total l.
Proof. induction l as [|x l IH]; intros Hl; [done|]. rewrite total_cons. pose proof (Hl x ltac:(set_solver)). specialize (IH ltac:(set_solver)). lia. Qed.

(** Dropping the least element of a sorted list cannot lower a prefix sum. *)
Lemma total_shift x l n :
  (∀ y, y ∈ l → f x ≤ f y) → (n ≤ length l)%nat → total (take n (x :: l)) ≤ total (take n l).
Proof.
  intros Hmin Hn. destruct n as [|n]; [done|].
  destruct (lookup_lt_is_Some_2 l n) as [y Hy]; [lia|]. rewrite (take_S_r _ _ _ Hy). cbn [take].
  rewrite total_cons, total_app, total_cons. specialize (Hmin y ltac:(by eapply list_elem_of_lookup_2)). change (total []) with 0. lia.
Qed.

(** The first [n] elements of a sorted list weigh least among all choices of [n]. *)
Lemma total_take_least l g :
  StronglySorted (λ a b, f a ≤ f b) l → g ⊆+ l → total (take (length g) l) ≤ total g.
Proof.
  intros Hs. revert g. induction Hs as [|x l Hs IH Hx]; intros g Hg.
  { apply submseteq_nil_r in Hg as ->. done. }
  rewrite Forall_forall in Hx.
  apply submseteq_cons_r in Hg as [Hg|(g' & Hperm & Hg')].
  - etrans; [apply total_shift; [done|by apply submseteq_length]|by apply IH].
  - rewrite Hperm. cbn [length take]. rewrite !total_cons. specialize (IH _ Hg'). lia.
Qed.

Lemma total_take_mono l n m :
  (∀ x, x ∈ l → 0 ≤ f x) → (n ≤ m)%nat → total (take n l) ≤ total (take m l).
Proof.
  intros Hl Hnm. rewrite <-(take_drop n (take m l)), take_take, Nat.min_l by done. rewrite total_app.
  pose proof (total_nonneg (drop n (take m l))) as Hpos. enough (0 ≤ total (drop n (take m l))) by lia.
  apply Hpos. intros x Hx. apply Hl. eapply subseteq_take, subseteq_drop, Hx.
Qed.
End sums.

Lemma list_empty_no_elem {A} (l : list A) : (∀ x, x ∉ l) → l = [].
Proof. destruct l as [|x l]; [done|]. intros Hl. destruct (Hl x). set_solver. Qed.

Lemma unique_key (l : Capacities) i c c' : NoDup l.*1 → (i, c) ∈ l → (i, c') ∈ l → c = c'.
Proof.
  intros Hnd H1%(elem_of_list_to_map_1 (M := gmap RolloutInstanceId)) H2%(elem_of_list_to_map_1 (M := gmap RolloutInstanceId));
    [|done..]. congruence.
Qed.

Lemma sort_by_submseteq {A} (key : A → Z) (l g : list A) : g ⊆+ sort_by key l ↔ g ⊆+ l.
Proof. by rewrite sort_by_perm. Qed.

(** ** Hanging *)

Definition ids_of (l : list SessionInfo) : gset string := list_to_set (session_id <$> l).

Lemma elem_of_hang_order running s : s ∈ hang_order running ↔ s ∈ running.
Proof.
  unfold hang_order. rewrite elem_of_app, !elem_of_sort_by, !list_elem_of_filter. destruct (decide (is_env s)); tauto.
Qed.

Lemma ids_of_none n (X : gset string) : ids_of (take 0 n) ∪ X = X.
Proof. unfold ids_of. cbn. set_solver. Qed.

Section hang.
Context (active_tokens : Z → Z → Z) (buffer_per_session : Z).
Context (active_zero : active_tokens 0 0 = 0).
Abbreviation rc := (remaining_capacity active_tokens buffer_per_session).

Lemma all_hung_fits inst running hung_now :
  0 ≤ total_kv_tokens inst → (∀ s, s ∈ running → session_id s ∈ hung_now) → 0 ≤ rc inst running hung_now.
Proof.
  intros Ht Hall. unfold remaining_capacity. cbv zeta.
  assert (filter (λ s, session_id s ∉ hung_now) running = []) as ->.
  { apply list_empty_no_elem. intros s [Hn Hs]%list_elem_of_filter. by apply Hn, Hall. }
  rewrite !filter_nil. change (tokens []) with 0. rewrite active_zero. simpl. lia.
Qed.

Lemma shed_spec inst running order hung_now :
  0 ≤ total_kv_tokens inst → (∀ s, s ∈ running → s ∈ order ∨ session_id s ∈ hung_now) →
  ∃ n, (n ≤ length order)%nat ∧
    shed active_tokens buffer_per_session inst running order hung_now (rc inst running hung_now)
      = (take n order, rc inst running (ids_of (take n order) ∪ hung_now)) ∧
    0 ≤ rc inst running (ids_of (take n order) ∪ hung_now) ∧
    ∀ m, (m < n)%nat → rc inst running (ids_of (take m order) ∪ hung_now) < 0.
Proof.
  intros Ht. revert hung_now. induction order as [|s order IH]; intros hung_now Hall; cbn [shed].
  { exists 0%nat. rewrite ids_of_none. split_and!; [done|done| |lia]. apply all_hung_fits; [done|].
    intros s Hs. destruct (Hall s Hs); set_solver. }
  case_bool_decide as Hr.
  { exists 0%nat. rewrite ids_of_none. split_and!; [lia|done|done|lia]. }
  destruct (IH ({[session_id s]} ∪ hung_now)) as (n & Hn & Hrun & Hfit & Hmin).
  { intros x Hx. destruct (Hall x Hx) as [[->|?]%elem_of_cons|?]; set_solver. }
  assert (∀ m, ids_of (take (S m) (s :: order)) ∪ hung_now = ids_of (take m order) ∪ ({[session_id s]} ∪ hung_now)) as Heq.
  { intros m. unfold ids_of. simpl. set_solver. }
  exists (S n). rewrite Heq, Hrun. split_and!; [simpl; lia|done|done|]. intros [|m] Hm.
  - rewrite ids_of_none. lia.
  - rewrite Heq. apply Hmin. lia.
Qed.
End hang.

(** Hanging restores the capacity of an instance with as few evictions as the
    eviction order allows.  The sessions hung are a prefix of that order
    (environment sessions before generating ones, smaller before larger), the
    instance then is within its KV capacity, and it was over capacity after
    every shorter prefix; in particular nothing is hung on an instance that is
    within its capacity. *)
Theorem hang_restores_capacity (active_tokens : Z → Z → Z) (buffer_per_session : Z) (inst : InstanceCapacity) (running : list SessionInfo) :
  active_tokens 0 0 = 0 → 0 ≤ total_kv_tokens inst →
  let rc hung := remaining_capacity active_tokens buffer_per_session inst running (ids_of hung) in
  ∃ n, let hung := take n (hang_order running) in
    hang_instance active_tokens buffer_per_session inst running = (hung, rc hung) ∧ 0 ≤ rc hung ∧
    ∀ m, (m < n)%nat → rc (take m (hang_order running)) < 0.
Proof.
  intros Hz Ht rc. unfold hang_instance. cbv zeta. case_bool_decide as Hr; last first.
  { exists 0%nat. simpl. split_and!; [done|unfold rc; unfold ids_of; simpl; lia|lia]. }
  destruct (shed_spec active_tokens buffer_per_session Hz inst running (hang_order running) ∅ Ht) as (n & _ & Hrun & Hfit & Hmin).
  { intros s Hs. left. by apply elem_of_hang_order. }
  rewrite union_empty_r_L in Hrun, Hfit. exists n. split_and!; [done|done|]. intros m Hm. specialize (Hmin m Hm).
  by rewrite union_empty_r_L in Hmin.
Qed.

Definition demo_session (sid st hs : string) (n : Z) : SessionInfo := mkSession sid (Some ("w", 0)) st hs n.
Definition demo_running : list SessionInfo :=
  [demo_session "a" STATUS_GENERATE SESSION_RUNNING 60; demo_session "b" STATUS_ENV SESSION_RUNNING 50].

Lemma hang_restores_capacity_witness :
  ∃ n, let hung := take n (hang_order demo_running) in
    hang_instance Z.add 10 (mkCapacity ("w", 0) 100 60) demo_running =
      (hung, remaining_capacity Z.add 10 (mkCapacity ("w", 0) 100 60) demo_running (ids_of hung)).
Proof.
  destruct (hang_restores_capacity Z.add 10 (mkCapacity ("w", 0) 100 60) demo_running) as (n & H & _); [reflexivity|simpl; lia|].
  exists n. exact H.
Defined.

(** ** Readmitting *)

Section readmission.
Context (buffer_per_session : Z).
Abbreviation need := (need buffer_per_session).
Abbreviation admit_while := (readmit buffer_per_session).

Lemma admit_sublist remaining l : sublist (admit_while remaining l) l.
Proof. revert remaining. induction l as [|s l IH]; intros remaining; simpl; [done|]. case_bool_decide; by constructor. Qed.

Lemma admit_total remaining l : total need (admit_while remaining l) ≤ Z.max 0 remaining.
Proof.
  revert remaining. induction l as [|s l IH]; intros remaining; simpl; [unfold total; simpl; lia|].
  case_bool_decide as Hs; [|done]. rewrite total_cons. specialize (IH (remaining - need s)).
  destruct (decide (0 ≤ remaining - need s)); lia.
Qed.

(** On a sorted list the loop takes a longest fitting prefix. *)
Lemma admit_prefix remaining l :
  StronglySorted (λ a b, need a ≤ need b) l →
  ∃ n, admit_while remaining l = take n l ∧ ((n < length l)%nat → remaining < total need (take (S n) l)).
Proof.
  intros Hs. revert remaining. induction Hs as [|s l Hs IH Hx]; intros remaining; simpl; [exists 0%nat; split; [done|simpl; lia]|].
  case_bool_decide as Hfit.
  - destruct (IH (remaining - need s)) as (n & -> & Hn). exists (S n). split; [done|]. intros Hlt%Nat.succ_lt_mono.
    specialize (Hn Hlt). change (take (S (S n)) (s :: l)) with (s :: take (S n) l). rewrite total_cons. lia.
  - exists 0%nat. split.
    + rewrite Forall_forall in Hx. cbn [take]. clear IH Hs. induction l as [|y l IHl]; [done|]. simpl.
      rewrite bool_decide_false by (specialize (Hx y ltac:(set_solver)); lia). apply IHl. set_solver.
    + intros _. change (take 1 (s :: l)) with [s]. rewrite total_cons. change (total need []) with 0. apply Z.nle_gt in Hfit. rewrite Z.add_0_r. exact Hfit.
Qed.

Lemma sorted_by_need l : StronglySorted (λ a b, need a ≤ need b) (sort_by total_tokens l).
Proof.
  assert (∀ k, StronglySorted (λ a b, total_tokens a ≤ total_tokens b) k → StronglySorted (λ a b, need a ≤ need b) k) as Himp.
  { induction 1 as [|x k Hs IH Hx]; constructor; [done|]. eapply Forall_impl; [exact Hx|]. intros y Hy. simpl in Hy |- *. unfold SessionScheduler.need. lia. }
  apply Himp, sort_by_sorted.
Qed.

Lemma admit_most remaining l g :
  (∀ s, s ∈ l → 0 ≤ need s) → g ⊆+ l → total need g ≤ remaining →
  (length g ≤ length (admit_while remaining (sort_by total_tokens l)))%nat.
Proof.
  intros Hpos Hg Hfit. destruct (admit_prefix remaining _ (sorted_by_need l)) as (n & -> & Hn).
  pose proof (submseteq_length _ _ Hg) as Hlen. rewrite length_take, sort_by_perm.
  destruct (decide (n < length l)%nat) as [Hlt|]; [|lia].
  destruct (decide (length g ≤ n)%nat); [lia|exfalso]. specialize (Hn ltac:(by rewrite sort_by_perm)).
  pose proof (total_take_least need (sort_by total_tokens l) g (sorted_by_need l)) as Hleast.
  rewrite sort_by_submseteq in Hleast. specialize (Hleast Hg).
  pose proof (total_take_mono need (sort_by total_tokens l) (S n) (length g)) as Hmono.
  assert (total need (take (S n) (sort_by total_tokens l)) ≤ total need (take (length g) (sort_by total_tokens l))); [|lia].
  apply Hmono; [|lia]. intros s Hs%elem_of_sort_by. auto.
Qed.

(** The tokens readmitted onto instance [i]. *)
Definition load (i : RolloutInstanceId) (placed : list (SessionInfo * RolloutInstanceId)) : Z :=
  total (λ p, need p.1) (filter (λ p : SessionInfo * RolloutInstanceId, p.2 = i) placed).

Lemma load_cons i s j placed : load i ((s, j) :: placed) = (if decide (j = i) then need s else 0) + load i placed.
Proof. unfold load. rewrite filter_cons. simpl. by case_decide. Qed.

Definition within (caps : Capacities) (placed : list (SessionInfo * RolloutInstanceId)) : Prop :=
  ∀ i, (i ∉ caps.*1 → load i placed = 0) ∧ ∀ c, (i, c) ∈ caps → load i placed ≤ c.

#[global] Instance within_perm : Proper ((≡ₚ) ==> (=) ==> iff) within.
Proof. intros c c' Hc p p' ->. unfold within. by setoid_rewrite Hc. Qed.

Lemma within_nil caps : (∀ row, row ∈ caps → 0 ≤ row.2) → within caps [].
Proof. intros Hpos i. split; [done|]. intros c Hc. apply (Hpos _ Hc). Qed.

Lemma place_within min_need resumable caps :
  NoDup caps.*1 → (∀ row, row ∈ caps → 0 ≤ row.2) → within caps (place buffer_per_session min_need caps resumable).
Proof.
  revert caps. induction resumable as [|s resumable IH]; intros caps Hnd Hpos; cbn [place]; [by apply within_nil|].
  destruct caps as [|[j c] rest]; [by apply within_nil|]. case_bool_decide; [by apply within_nil|].
  case_bool_decide as Hfit; [by apply IH|]. cbv zeta.
  rewrite fmap_cons, NoDup_cons in Hnd. destruct Hnd as [Hj Hnd]. simpl in Hj.
  set (caps' := if bool_decide (buffer_per_session < c - need s) then sort_by (λ row, - row.2) ((j, c - need s) :: rest) else rest).
  assert (∀ placed, within caps' placed → within ((j, c) :: rest) ((s, j) :: placed)) as Hstep.
  { intros placed Hw. assert ((∀ i, i ≠ j → i ∉ rest.*1 → load i placed = 0) ∧
      (∀ i c', i ≠ j → (i, c') ∈ rest → load i placed ≤ c') ∧ load j placed ≤ c - need s) as (H1 & H2 & H3).
    { revert Hw. unfold caps'. case_bool_decide; [rewrite sort_by_perm|]; intros Hw; split_and!.
      - intros i Hne Hi. apply Hw. set_solver.
      - intros i c' Hne Hi. apply Hw. set_solver.
      - apply Hw. set_solver.
      - intros i Hne Hi. by apply Hw.
      - intros i c' Hne Hi. by apply Hw.
      - destruct (Hw j) as [Hz _]. rewrite (Hz Hj). lia. }
    intros i. rewrite load_cons. split.
    - simpl. intros [Hne Hi]%not_elem_of_cons. rewrite decide_False by done. rewrite H1 by done. lia.
    - intros c' [[= -> ->]|Hi]%elem_of_cons; [rewrite decide_True by done; lia|].
      assert (i ≠ j) as Hne by (intros ->; apply Hj; apply list_elem_of_fmap; by exists (j, c')).
      rewrite decide_False by done. specialize (H2 i c' Hne Hi). lia. }
  apply Hstep, IH; unfold caps'; case_bool_decide.
  - rewrite sort_by_perm. simpl. by constructor.
  - done.
  - intros row [->|Hr]%elem_of_sort_by%elem_of_cons; [simpl; lia|]. apply Hpos. set_solver.
  - intros row Hr. apply Hpos. set_solver.
Qed.

Lemma place_sublist min_need resumable caps : sublist (place buffer_per_session min_need caps resumable).*1 resumable.
Proof.
  revert caps. induction resumable as [|s resumable IH]; intros caps; cbn [place]; [done|].
  destruct caps as [|[j c] rest]; [apply sublist_nil_l|]. case_bool_decide; [apply sublist_nil_l|].
  case_bool_decide; [by constructor|]. simpl. by constructor.
Qed.
End readmission.

(** Sticky readmission is within capacity and readmits as many sessions as
    possible.  The sessions readmitted on an instance are hung there, their
    tokens with the decode headroom fit the remaining capacity, and no other
    choice of hung sessions that fits is larger. *)
Theorem pinned_readmits_most (buffer_per_session remaining : Z) (hung : list SessionInfo) :
  0 ≤ buffer_per_session → (∀ s, s ∈ hung → 0 < total_tokens s) →
  let admitted := continue_on buffer_per_session remaining hung in
  admitted ⊆+ hung ∧ total (need buffer_per_session) admitted ≤ Z.max 0 remaining ∧
  ∀ g, g ⊆+ hung → total (need buffer_per_session) g ≤ remaining → (length g ≤ length admitted)%nat.
Proof.
  intros Hbuf Hpos admitted. unfold admitted, continue_on. case_bool_decide as Hr.
  - split_and!; [apply submseteq_nil_l|unfold total; simpl; lia|]. intros [|s g] Hg Hfit; [done|exfalso].
    assert (∀ x, x ∈ s :: g → 0 < total_tokens x) as Hall by (intros x Hx; apply Hpos; by eapply elem_of_submseteq).
    rewrite total_cons in Hfit. unfold need at 1 in Hfit. pose proof (Hall s ltac:(set_solver)).
    pose proof (total_nonneg (need buffer_per_session) g) as Hn.
    assert (0 ≤ total (need buffer_per_session) g); [|lia]. apply Hn. intros x Hx. unfold need. specialize (Hall x ltac:(set_solver)). lia.
  - split_and!.
    + rewrite <-(sort_by_submseteq total_tokens). apply sublist_submseteq, admit_sublist.
    + apply admit_total.
    + intros g Hg Hfit. apply admit_most; [|done|done]. intros s Hs. unfold need. specialize (Hpos s Hs). lia.
Qed.

Lemma pinned_readmits_most_witness :
  let admitted := continue_on 10 100 [demo_session "a" STATUS_ENV SESSION_HUNG 60; demo_session "b" STATUS_ENV SESSION_HUNG 20] in
  total (need 10) admitted ≤ 100.
Proof.
  destruct (pinned_readmits_most 10 100 [demo_session "a" STATUS_ENV SESSION_HUNG 60; demo_session "b" STATUS_ENV SESSION_HUNG 20])
    as (_ & H & _); [lia| |exact H].
  intros s Hs. apply elem_of_cons in Hs as [->|Hs]; [simpl; lia|]. apply list_elem_of_singleton in Hs as ->. simpl. lia.
Defined.

(** Global readmission never overfills an instance.  Whatever the capacities
    and the hung sessions, every session is placed at most once, and the tokens
    placed on an instance, with the decode headroom of each session, fit the
    capacity that remained there. *)
Theorem bfd_within_capacity (buffer_per_session : Z) (hung : Sessions) (remaining : Capacities) (i : RolloutInstanceId) (c : Z) :
  0 ≤ buffer_per_session → NoDup remaining.*1 → (i, c) ∈ remaining →
  let placed := continue_global_bfd buffer_per_session hung remaining in
  load buffer_per_session i placed ≤ Z.max 0 c ∧ placed.*1 ⊆+ (hung ≫= snd).
Proof.
  intros Hbuf Hnd Hi placed. unfold placed, continue_global_bfd.
  set (caps := filter _ remaining). cbv zeta. set (adm := readmit _ _ _).
  destruct (bool_decide (caps = []) || _); [split; [unfold load, total; simpl; lia|apply submseteq_nil_l]|].
  destruct (last _) as [smallest|]; [|split; [unfold load, total; simpl; lia|apply submseteq_nil_l]]. split.
  - assert (NoDup caps.*1) as Hnd'. { eapply sublist_NoDup; [exact Hnd|]. apply fmap_sublist, sublist_filter. }
    assert (∀ row, row ∈ caps → 0 ≤ row.2) as Hpos. { intros row [Hr _]%list_elem_of_filter. lia. }
    pose proof (place_within buffer_per_session (need buffer_per_session smallest) (sort_by (λ s, - total_tokens s) adm)
      (sort_by (λ row : RolloutInstanceId * Z, - row.2) caps)) as Hw.
    specialize (Hw ltac:(by rewrite sort_by_perm) ltac:(intros row Hr%elem_of_sort_by; auto) i) as [Hout Hin].
    destruct (decide (buffer_per_session < c)).
    + etrans; [apply Hin; apply elem_of_sort_by, list_elem_of_filter; done|lia].
    + rewrite Hout; [lia|]. rewrite sort_by_perm. intros ([i' c'] & -> & [Hc Hin']%list_elem_of_filter)%list_elem_of_fmap.
      simpl in *. assert (c' = c) as ->; [|lia]. by eapply (unique_key remaining i').
  - etrans; [apply sublist_submseteq, place_sublist|]. rewrite sort_by_perm. unfold adm.
    rewrite <-(sort_by_submseteq total_tokens). apply sublist_submseteq, admit_sublist.
Qed.

Lemma bfd_within_capacity_witness :
  let placed := continue_global_bfd 10 [(("w", 0), [demo_session "a" STATUS_ENV SESSION_HUNG 60])] [(("w", 0), 20); (("v", 0), 90)] in
  load 10 ("v", 0) placed ≤ 90.
Proof.
  destruct (bfd_within_capacity 10 [(("w", 0), [demo_session "a" STATUS_ENV SESSION_HUNG 60])] [(("w", 0), 20); (("v", 0), 90)] ("v", 0) 90)
    as [H _]; [lia| |set_solver|exact H].
  apply (bool_decide_unpack _). vm_compute. exact I.
Defined.

(** ** One decision *)

(** A dictionary all of whose sessions satisfy [P] for their key. *)
Definition all_sessions (P : RolloutInstanceId → SessionInfo → Prop) (d : Sessions) : Prop :=
  NoDup d.*1 ∧ ∀ i s, s ∈ default [] (assoc i d) → P i s.

Lemma all_sessions_append P i s d : all_sessions P d → P i s → all_sessions P (dict_append i s d).
Proof.
  intros [Hnd Hall] Hs. split; [by apply dict_set_NoDup|]. intros j x. unfold dict_append. rewrite assoc_dict_set.
  case_decide as Hij; [|apply Hall]. subst. simpl. intros [Hx| ->%list_elem_of_singleton]%elem_of_app; [by apply Hall|done].
Qed.

Lemma all_sessions_nil P : all_sessions P [].
Proof. split; [constructor|set_solver]. Qed.

(** Where a grouped session comes from. *)
Definition origin (sessions : list SessionInfo) (hung : Prop → Prop) (i : RolloutInstanceId) (s : SessionInfo) : Prop :=
  s ∈ sessions ∧ session_instance s = Some i ∧ hung (hang_state s = SESSION_HUNG).

Lemma group_sessions_origin all known sessions running hung :
  (∀ s, s ∈ sessions → s ∈ all) → all_sessions (origin all not) running → all_sessions (origin all id) hung →
  let '(running', hung') := group_sessions known sessions running hung in
  all_sessions (origin all not) running' ∧ all_sessions (origin all id) hung'.
Proof.
  revert running hung. induction sessions as [|s sessions IH]; intros running hung Hin Hr Hh; simpl; [done|].
  assert (∀ x, x ∈ sessions → x ∈ all) as Hin' by set_solver.
  destruct (session_instance s) as [i|] eqn:Hi; [|by apply IH].
  case_bool_decide; [by apply IH|]. case_bool_decide.
  - apply IH; [done|done|]. apply all_sessions_append; [done|]. split_and!; [apply Hin; set_solver|done|done].
  - apply IH; [done| |done]. apply all_sessions_append; [done|]. split_and!; [apply Hin; set_solver|done|done].
Qed.

Section decision.
Context (active_tokens : Z → Z → Z) (buffer_per_session : Z).
Implicit Types (running hung : Sessions) (remaining : Capacities) (instances : list InstanceCapacity).

Lemma shed_prefix inst (running order : list SessionInfo) hung_now r :
  ∃ n, (shed active_tokens buffer_per_session inst running order hung_now r).1 = take n order.
Proof.
  revert hung_now r. induction order as [|s order IH]; intros hung_now r; cbn [shed]; [by exists 0%nat|].
  case_bool_decide; [by exists 0%nat|].
  destruct (IH ({[session_id s]} ∪ hung_now) (remaining_capacity active_tokens buffer_per_session inst running ({[session_id s]} ∪ hung_now)))
    as [n Hn].
  destruct (shed _ _ _ _ _ _ _) as [rest f]. simpl in *. exists (S n). simpl. by rewrite Hn.
Qed.

Lemma hang_instance_running inst ss s : s ∈ (hang_instance active_tokens buffer_per_session inst ss).1 → s ∈ ss.
Proof.
  unfold hang_instance. case_bool_decide; [|set_solver].
  destruct (shed_prefix inst ss (hang_order ss) ∅ (remaining_capacity active_tokens buffer_per_session inst ss ∅)) as [n ->].
  intros Hs%subseteq_take. by apply elem_of_hang_order.
Qed.

Lemma hang_all_origin (P : SessionInfo → Prop) instances running acc remaining :
  (∀ i s, s ∈ default [] (assoc i running) → P s) → (∀ s, s ∈ acc → P s) → NoDup remaining.*1 →
  let '(to_hang, remaining') := hang_all active_tokens buffer_per_session instances running acc remaining in
  (∀ s, s ∈ to_hang → P s) ∧ NoDup remaining'.*1.
Proof.
  intros Hr. revert acc remaining. induction instances as [|inst instances IH]; intros acc remaining Hacc Hnd; simpl; [done|].
  pose proof (hang_instance_running inst (default [] (assoc (cap_instance_id inst) running))) as Hin.
  destruct (hang_instance _ _ _ _) as [h c]. apply IH; [|by apply dict_set_NoDup].
  intros s [Hs|Hs]%elem_of_app; [auto|]. eapply Hr, Hin, Hs.
Qed.

(** Readmission names hung sessions only, in sticky mode on their own instance. *)
Lemma continue_origin (P : RolloutInstanceId → SessionInfo → Prop) hung remaining (global : bool) s i :
  all_sessions P hung →
  (s, i) ∈ (if global then continue_global_bfd buffer_per_session hung remaining
            else continue_pinned buffer_per_session hung remaining) →
  ∃ j, P j s ∧ (global = false → j = i).
Proof.
  intros [Hnd Hall]. destruct global.
  - unfold continue_global_bfd. cbv zeta. set (caps := filter _ _).
    destruct (bool_decide (caps = []) || _); [set_solver|]. destruct (last _) as [sm|]; [|set_solver].
    intros Hin. assert (s ∈ (place buffer_per_session (need buffer_per_session sm) (sort_by (λ row : RolloutInstanceId * Z, - row.2) caps)
      (sort_by (λ s, - total_tokens s) (readmit buffer_per_session (foldr Z.add 0 caps.*2) (sort_by total_tokens (hung ≫= snd))))).*1) as Hs.
    { apply list_elem_of_fmap. by exists (s, i). }
    eapply elem_of_submseteq in Hs; [|apply sublist_submseteq, place_sublist].
    apply elem_of_sort_by in Hs. eapply elem_of_submseteq in Hs; [|apply sublist_submseteq, admit_sublist].
    apply elem_of_sort_by, list_elem_of_bind in Hs as ([j ss] & Hs & Hj). exists j. split; [|done].
    apply Hall. apply (assoc_iff j ss hung Hnd) in Hj. by rewrite Hj.
  - intros ([j ss] & Hin & Hj)%list_elem_of_bind. apply list_elem_of_fmap in Hin as (x & [= -> ->] & Hx).
    exists j. split; [|done]. apply Hall. apply (assoc_iff j ss hung Hnd) in Hj. rewrite Hj. simpl.
    unfold continue_on in Hx. case_bool_decide; [set_solver|].
    eapply elem_of_submseteq in Hx; [|apply sublist_submseteq, admit_sublist]. by apply elem_of_sort_by in Hx.
Qed.

(** A scheduling decision respects the state of the sessions.  It hangs only
    sessions that are not hung and readmits only sessions that are, all of
    them known to the router and pinned to an instance; in sticky mode a
    session is readmitted on the instance it is pinned to. *)
Theorem decision_respects_state (global : bool) (instances : list InstanceCapacity) (sessions : list SessionInfo) :
  let '(to_hang, to_continue) := decide_sessions active_tokens buffer_per_session global instances sessions in
  (∀ sid, sid ∈ to_hang → ∃ s, s ∈ sessions ∧ session_id s = sid ∧ hang_state s ≠ SESSION_HUNG ∧ is_Some (session_instance s)) ∧
  (∀ sid i, (sid, i) ∈ to_continue → ∃ s, s ∈ sessions ∧ session_id s = sid ∧ hang_state s = SESSION_HUNG ∧
     is_Some (session_instance s) ∧ (global = false → session_instance s = Some i)).
Proof.
  unfold decide_sessions.
  pose proof (group_sessions_origin sessions (cap_instance_id <$> instances) sessions [] [] (λ _ H, H)
    (all_sessions_nil _) (all_sessions_nil _)) as Hg.
  destruct (group_sessions _ _ _ _) as [running hung]. destruct Hg as [[_ Hr] Hh].
  pose proof (hang_all_origin (λ s, ∃ i, origin sessions not i s) instances running [] []) as Ha.
  destruct (hang_all _ _ _ _ _ _) as [to_hang remaining].
  destruct Ha as [Hhang _]; [by intros i s Hs; exists i; apply Hr|set_solver|constructor|]. split.
  - intros sid (s & -> & (i & Hs & Hi & Hn)%Hhang)%list_elem_of_fmap. exists s. by rewrite Hi.
  - intros sid i ([s j] & [= -> ->] & Hs)%list_elem_of_fmap.
    apply (continue_origin _ _ _ _ _ _ Hh) in Hs as (k & (Hs & Hk & Hstate) & Hpin).
    exists s. rewrite Hk. split_and!; try done. intros Hg. by rewrite (Hpin Hg).
Qed.
End decision.
