(* ===== verification/EnvCoordinator.v ===== *)
(** * Sandbox placement

    psrl/workers/env_worker/coordinator.py: [EnvWorkerCoordinator] routes sandbox
    requests to registered workers and keeps their capacity; [SandboxHandle]
    returns a sandbox's capacity exactly once.  Worker handles are opaque
    numbers; [random.choice] and the answers of the remote workers are arguments
    of the definitions, and so are, for each poll of a waiting request, whether
    the deadline has passed and what other requests did during the sleep. *)

From S2P Require Import Prelude.

(** ** Data *)

Record WorkerSlot := mkSlot {
  worker_id : Z;
  handle : N;
  cpu_slots : Z;
  gpu_slots : Z;
  node_ip : string;
  used_cpu : Z;
  used_gpu : Z;
}.

Definition with_used (c g : Z) (s : WorkerSlot) : WorkerSlot :=
  mkSlot (worker_id s) (handle s) (cpu_slots s) (gpu_slots s) (node_ip s) c g.

Definition has_cpu_capacity (s : WorkerSlot) : bool := bool_decide (used_cpu s < cpu_slots s).
Definition has_gpu_capacity (requested : Z) (s : WorkerSlot) : bool := bool_decide (used_gpu s + requested ≤ gpu_slots s).

(** The coordinator and the process-wide round-robin counter it uses; [slots] is
    the insertion-ordered dictionary from worker id to slot. *)
Record EnvWorkerCoordinator := mkCoordinator {
  routing_method : string;
  slots : list (Z * WorkerSlot);
  round_robin : nat;
}.

Definition with_slots v (c : EnvWorkerCoordinator) := mkCoordinator (routing_method c) v (round_robin c).
Definition with_round_robin v (c : EnvWorkerCoordinator) := mkCoordinator (routing_method c) (slots c) v.

Definition new_coordinator (method : string) (counter : nat) : EnvWorkerCoordinator := mkCoordinator method [] counter.

Record SandboxHandle := mkHandle {
  sandbox_id : string;
  sandbox_worker_id : Z;
  sandbox_gpus : Z;
  destroyed : bool;
}.

Abbreviation Env := (M EnvWorkerCoordinator).

Fixpoint slot_set (k : Z) (v : WorkerSlot) (d : list (Z * WorkerSlot)) : list (Z * WorkerSlot) :=
  match d with
  | [] => [(k, v)]
  | (k', v') :: d => if decide (k' = k) then (k', v) :: d else (k', v') :: slot_set k v d
  end.

Fixpoint slot_get (k : Z) (d : list (Z * WorkerSlot)) : option WorkerSlot :=
  match d with
  | [] => None
  | (k', v) :: d => if decide (k' = k) then Some v else slot_get k d
  end.

(** ** Operations *)

(** [min(eligible, key=lambda slot: (slot.used_cpu, slot.worker_id))] *)
Definition before (a b : WorkerSlot) : bool :=
  bool_decide (used_cpu a < used_cpu b ∨ used_cpu a = used_cpu b ∧ worker_id a ≤ worker_id b).

Fixpoint least_loaded (l : list WorkerSlot) : option WorkerSlot :=
  match l with
  | [] => None
  | s :: l => Some (match least_loaded l with Some m => if before s m then s else m | None => s end)
  end.

Definition eligible (gpus : Z) (candidates : list WorkerSlot) : list WorkerSlot :=
  filter (λ s, has_cpu_capacity s && has_gpu_capacity gpus s = true) candidates.

Section coordinator.
(** [random.choice] on a non-empty list *)
Context (choice : list WorkerSlot → option WorkerSlot).

Definition select_by_method (method : string) (candidates : list WorkerSlot) (gpus : Z) : Env (option WorkerSlot) :=
  if bool_decide (method ∉ ["least_loaded"; "round_robin"; "random"]) then raise ValueError
  else
    let ok := eligible gpus candidates in
    match ok with
    | [] => mret None
    | _ =>
        if bool_decide (method = "least_loaded") then mret (least_loaded ok)
        else if bool_decide (method = "round_robin") then
          c ← gets round_robin;
          modify (λ s, with_round_robin (S c) s) ;;
          mret (ok !! (c mod length ok)%nat)
        else mret (choice ok)
    end.

Definition register_worker (h : N) (wid cpus gpus : Z) (ip : string) : Env unit :=
  modify (λ c, with_slots (slot_set wid (mkSlot wid h cpus gpus ip 0 0) (slots c)) c).

(** One round of [select_worker] under the lock. *)
Definition try_select (gpus : Z) : Env (option (N * Z)) :=
  c ← gets id;
  if bool_decide (slots c = []) then raise RuntimeError
  else
    chosen ← select_by_method (routing_method c) (slots c).*2 gpus;
    match chosen with
    | None => mret None
    | Some s =>
        modify (λ c, with_slots (slot_set (worker_id s) (with_used (used_cpu s + 1) (used_gpu s + gpus) s) (slots c)) c) ;;
        mret (Some (handle s, worker_id s))
    end.

(** A poll that found no capacity: whether the deadline has passed, and the
    effect of the requests served during the sleep. *)
Record poll := mkPoll {
  expired : bool;
  meanwhile : EnvWorkerCoordinator → EnvWorkerCoordinator;
}.

(** [None] when the given polls are used up and the request still waits. *)
Fixpoint select_worker (gpus : Z) (polls : list poll) : Env (option (N * Z)) :=
  match polls with
  | [] => mret None
  | p :: polls =>
      r ← try_select gpus;
      match r with
      | Some res => mret (Some res)
      | None => if expired p then raise RuntimeError else modify (meanwhile p) ;; select_worker gpus polls
      end
  end.

Definition release (wid gpus : Z) : Env unit :=
  modify (λ c, match slot_get wid (slots c) with
               | None => c
               | Some s => with_slots (slot_set wid (with_used (Z.max 0 (used_cpu s - 1)) (Z.max 0 (used_gpu s - gpus)) s) (slots c)) c
               end).

(** The two attempts; the worker answers a sandbox id or fails. *)
Fixpoint create_attempts (gpus : Z) (attempts : list (list poll * option string)) : Env (option SandboxHandle) :=
  match attempts with
  | [] => raise RuntimeError
  | (polls, answer) :: attempts =>
      r ← select_worker gpus polls;
      match r with
      | None => mret None
      | Some (_, wid) =>
          match answer with
          | Some sid => mret (Some (mkHandle sid wid gpus false))
          | None => release wid gpus ;; create_attempts gpus attempts
          end
      end
  end.

Definition create_sandbox (gpus : Z) (first second : list poll * option string) : Env (option SandboxHandle) :=
  create_attempts gpus [first; second].

(** [SandboxHandle.destroy]: the handle after the call and whether the worker's
    exception is passed on.  The capacity is returned in either case. *)
Definition destroy (worker_ok : bool) (h : SandboxHandle) : Env (SandboxHandle * bool) :=
  if destroyed h then mret (h, false)
  else
    release (sandbox_worker_id h) (sandbox_gpus h) ;;
    mret (mkHandle (sandbox_id h) (sandbox_worker_id h) (sandbox_gpus h) true, negb worker_ok).

Definition stats (c : EnvWorkerCoordinator) : string * list (Z * string * Z * Z * Z * Z) :=
  (routing_method c, (λ s, (worker_id s, node_ip s, cpu_slots s, used_cpu s, gpu_slots s, used_gpu s)) <$> (slots c).*2).
End coordinator.

(** ** The slot dictionary *)

Section slots.
Implicit Types (d : list (Z * WorkerSlot)) (s : WorkerSlot).

Lemma slot_get_set k k' s d : slot_get k (slot_set k' s d) = if decide (k' = k) then Some s else slot_get k d.
Proof.
  induction d as [|[k0 v0] d IH]; simpl; [by case_decide|].
  destruct (decide (k0 = k')) as [->|]; simpl; [by repeat case_decide|].
  rewrite IH. repeat case_decide; simplify_eq; done.
Qed.

Lemma slot_set_keys k s d : (slot_set k s d).*1 = if bool_decide (k ∈ d.*1) then d.*1 else d.*1 ++ [k].
Proof.
  induction d as [|[k0 v0] d IH]; cbn [slot_set]; [done|]. destruct (decide (k0 = k)) as [->|]; rewrite !fmap_cons; simpl.
  - by rewrite bool_decide_true by set_solver.
  - rewrite IH. repeat case_bool_decide; set_solver.
Qed.

Lemma slot_set_NoDup k s d : NoDup d.*1 → NoDup (slot_set k s d).*1.
Proof.
  rewrite slot_set_keys. case_bool_decide as Hk; [done|]. intros Hnd. apply NoDup_app. split_and!; [done| |apply NoDup_singleton].
  by intros x Hx ->%list_elem_of_singleton.
Qed.

Lemma slot_get_elem k d s : NoDup d.*1 → slot_get k d = Some s ↔ (k, s) ∈ d.
Proof.
  induction d as [|[k0 v0] d IH]; simpl; [set_solver|]. intros [Hk0 Hnd]%NoDup_cons. rewrite elem_of_cons.
  case_decide as Hk; [|rewrite (IH Hnd); naive_solver]. subst. split; [intros [= ->]; auto|].
  intros [[= ->]|Hin]; [done|]. destruct Hk0. apply list_elem_of_fmap. by exists (k, s).
Qed.

Lemma slot_set_same k s d : slot_get k d = Some s → slot_set k s d = d.
Proof.
  induction d as [|[k0 v0] d IH]; simpl; [done|]. case_decide; [by intros [= ->]; subst|]. intros Hget. by rewrite IH.
Qed.

Lemma slot_set_set k s s' d : slot_set k s (slot_set k s' d) = slot_set k s d.
Proof.
  induction d as [|[k0 v0] d IH]; simpl; [by rewrite decide_True|].
  destruct (decide (k0 = k)) as [->|]; simpl; [by rewrite decide_True|]. rewrite decide_False by done. by rewrite IH.
Qed.
End slots.

(** ** Selection *)

Section selection.
Context (choice : list WorkerSlot → option WorkerSlot).
Context (choice_elem : ∀ l, l ≠ [] → ∃ s, choice l = Some s ∧ s ∈ l).

Lemma least_loaded_spec l :
  match least_loaded l with Some m => m ∈ l ∧ ∀ s, s ∈ l → before m s = true | None => l = [] end.
Proof.
  assert (∀ a b c, before a b = true → before b c = true → before a c = true) as Htrans.
  { unfold before. intros a b c ?%bool_decide_eq_true ?%bool_decide_eq_true. apply bool_decide_eq_true. lia. }
  assert (∀ a, before a a = true) as Hrefl by (intros a; apply bool_decide_eq_true; lia).
  assert (∀ a b, before a b = false → before b a = true) as Htot.
  { unfold before. intros a b ?%bool_decide_eq_false. apply bool_decide_eq_true. lia. }
  induction l as [|s l IH]; simpl; [done|]. destruct (least_loaded l) as [m|]; last first.
  { subst l. split; [set_solver|]. by intros x ->%list_elem_of_singleton. }
  destruct IH as [Hm Hall]. destruct (before s m) eqn:E.
  - split; [set_solver|]. intros x [->|Hx]%elem_of_cons; [done|]. eauto.
  - split; [set_solver|]. intros x [->|Hx]%elem_of_cons; auto.
Qed.

(** The chosen worker can host the request; under the default method no
    eligible worker has fewer sandboxes. *)
Lemma select_run method candidates gpus c :
  method ∈ ["least_loaded"; "round_robin"; "random"] →
  ∃ r c', select_by_method choice method candidates gpus c = Ret r c' ∧ slots c' = slots c ∧ routing_method c' = routing_method c ∧
    match r with
    | None => eligible gpus candidates = []
    | Some s => s ∈ eligible gpus candidates ∧
        (method = "least_loaded" → ∀ s', s' ∈ eligible gpus candidates → before s s' = true)
    end.
Proof.
  intros Hm. unfold select_by_method. rewrite bool_decide_false by tauto. cbv zeta.
  destruct (eligible gpus candidates) as [|s0 ok] eqn:Hok; [by exists None, c|]. case_bool_decide as Hl.
  { pose proof (least_loaded_spec (s0 :: ok)) as Hs. exists (least_loaded (s0 :: ok)), c. split_and!; [done..|].
    destruct (least_loaded (s0 :: ok)) as [m|]; [|done]. naive_solver. }
  case_bool_decide as Hr.
  - mrun. destruct (lookup_lt_is_Some_2 (s0 :: ok) (round_robin c mod length (s0 :: ok))) as [s Hs].
    { apply Nat.mod_upper_bound. simpl. lia. }
    eexists (Some s), _. rewrite Hs. split_and!; [reflexivity|done|done|by eapply list_elem_of_lookup_2|done].
  - destruct (choice_elem (s0 :: ok)) as (s & Hs & Hin); [done|]. exists (choice (s0 :: ok)), c. split_and!; [done..|].
    by rewrite Hs.
Qed.
End selection.

(** ** Accounting *)

(** The sandboxes alive, each with its worker and its GPUs. *)
Abbreviation Live := (list (Z * Z)).
Definition hosted (wid : Z) (live : Live) : list Z := (filter (λ p : Z * Z, p.1 = wid) live).*2.

(** Interleavings of worker registrations and of the critical sections of
    [select_worker] and [release]; a sandbox is released once, as
    [SandboxHandle.destroy] does. *)
Inductive env_step (choice : list WorkerSlot → option WorkerSlot) : EnvWorkerCoordinator * Live → EnvWorkerCoordinator * Live → Prop :=
  | step_register c live h wid cpus gpus ip c' :
      slot_get wid (slots c) = None → 0 ≤ cpus → 0 ≤ gpus →
      register_worker h wid cpus gpus ip c = Ret tt c' → env_step choice (c, live) (c', live)
  | step_select c live gpus h wid c' :
      0 ≤ gpus → try_select choice gpus c = Ret (Some (h, wid)) c' → env_step choice (c, live) (c', (wid, gpus) :: live)
  | step_wait c live gpus c' :
      try_select choice gpus c = Ret None c' → env_step choice (c, live) (c', live)
  | step_release c live live' wid gpus c' :
      live ≡ₚ (wid, gpus) :: live' → release wid gpus c = Ret tt c' → env_step choice (c, live) (c', live').

Record env_ok (c : EnvWorkerCoordinator) (live : Live) : Prop := {
  env_keys : NoDup (slots c).*1;
  env_ids wid s : slot_get wid (slots c) = Some s → worker_id s = wid;
  env_used wid s : slot_get wid (slots c) = Some s →
    used_cpu s = Z.of_nat (length (hosted wid live)) ∧ used_gpu s = foldr Z.add 0 (hosted wid live);
  env_bound wid s : slot_get wid (slots c) = Some s → used_cpu s ≤ cpu_slots s ∧ used_gpu s ≤ gpu_slots s;
  env_registered wid gpus : (wid, gpus) ∈ live → is_Some (slot_get wid (slots c)) ∧ 0 ≤ gpus;
  env_method : routing_method c ∈ ["least_loaded"; "round_robin"; "random"];
}.

Lemma hosted_cons wid w g live : hosted wid ((w, g) :: live) = (if decide (w = wid) then [g] else []) ++ hosted wid live.
Proof. unfold hosted. rewrite filter_cons. simpl. by case_decide. Qed.

Lemma hosted_perm wid live live' : live ≡ₚ live' → hosted wid live ≡ₚ hosted wid live'.
Proof. intros Hl. unfold hosted. by rewrite Hl. Qed.

Lemma sum_perm (l l' : list Z) : l ≡ₚ l' → foldr Z.add 0 l = foldr Z.add 0 l'.
Proof. induction 1; simpl; lia. Qed.

Lemma hosted_none wid live : (∀ g, (wid, g) ∉ live) → hosted wid live = [].
Proof.
  intros Hn. unfold hosted. destruct (filter _ live) as [|[w g] l] eqn:E; [done|].
  assert ((w, g) ∈ filter (λ p : Z * Z, p.1 = wid) live) as [<- Hin]%list_elem_of_filter by (rewrite E; set_solver).
  by destruct (Hn g).
Qed.

Lemma hosted_nonneg wid live : (∀ p, p ∈ live → 0 ≤ p.2) → 0 ≤ foldr Z.add 0 (hosted wid live).
Proof.
  intros Hnn. induction live as [|[w g] l IH]; [done|]. specialize (IH ltac:(set_solver)). rewrite hosted_cons.
  pose proof (Hnn (w, g) ltac:(set_solver)) as Hg. simpl in Hg. case_decide; cbn [app foldr]; lia.
Qed.

Section accounting.
Context (choice : list WorkerSlot → option WorkerSlot).
Context (choice_elem : ∀ l, l ≠ [] → ∃ s, choice l = Some s ∧ s ∈ l).

(** One round of a request: it waits with nothing changed, or takes a slot
    that has the capacity. *)
Lemma try_select_run c live gpus :
  env_ok c live → slots c ≠ [] →
  ∃ r c', try_select choice gpus c = Ret r c' ∧ routing_method c' = routing_method c ∧
    match r with
    | None => slots c' = slots c ∧ ∀ wid s, slot_get wid (slots c) = Some s → has_cpu_capacity s && has_gpu_capacity gpus s = false
    | Some (h, wid) => ∃ s, slot_get wid (slots c) = Some s ∧ handle s = h ∧
        used_cpu s < cpu_slots s ∧ used_gpu s + gpus ≤ gpu_slots s ∧
        slots c' = slot_set wid (with_used (used_cpu s + 1) (used_gpu s + gpus) s) (slots c)
    end.
Proof.
  intros Hok Hne. unfold try_select. mrun. rewrite bool_decide_false by done.
  destruct (select_run choice choice_elem (routing_method c) (slots c).*2 gpus c (env_method _ _ Hok)) as (r & c1 & Hrun & Hs1 & Hm1 & Hr).
  rewrite (run_bind _ _ _ _ _ Hrun). destruct r as [s|].
  - destruct Hr as [[Hcap ([w s'] & -> & Hin)%list_elem_of_fmap]%list_elem_of_filter _].
    apply (slot_get_elem _ _ _ (env_keys _ _ Hok)) in Hin. simpl in *. pose proof (env_ids _ _ Hok _ _ Hin) as Hid.
    mrun. eexists _, _. split; [reflexivity|]. split; [done|]. rewrite Hid. exists s'.
    apply andb_true_iff in Hcap as [Hc%bool_decide_eq_true Hg%bool_decide_eq_true]. simpl. by rewrite Hs1.
  - exists None, c1. split_and!; [done..|]. intros wid s Hs%(slot_get_elem _ _ _ (env_keys _ _ Hok)).
    destruct (_ && _) eqn:E; [|done]. exfalso.
    assert (s ∈ eligible gpus (slots c).*2) as Hel; [|rewrite Hr in Hel; set_solver].
    apply list_elem_of_filter. split; [done|]. apply list_elem_of_fmap. by exists (wid, s).
Qed.

(** Replacing the slot of one worker, consistently with the sandboxes on it. *)
Lemma env_update c c' live live' wid s :
  env_ok c live → slots c' = slot_set wid s (slots c) → routing_method c' = routing_method c → worker_id s = wid →
  used_cpu s = Z.of_nat (length (hosted wid live')) → used_gpu s = foldr Z.add 0 (hosted wid live') →
  used_cpu s ≤ cpu_slots s → used_gpu s ≤ gpu_slots s →
  (∀ w, w ≠ wid → hosted w live' ≡ₚ hosted w live) →
  (∀ w g, (w, g) ∈ live' → (w = wid ∨ is_Some (slot_get w (slots c))) ∧ 0 ≤ g) → env_ok c' live'.
Proof.
  intros Hok Hs Hm Hid Huc Hug Hbc Hbg Hother Hlive. split; rewrite ?Hs, ?Hm; [by apply slot_set_NoDup, Hok| | | | |apply Hok].
  - intros w s'. rewrite slot_get_set. case_decide; [by intros [= <-]; subst|apply Hok].
  - intros w s'. rewrite slot_get_set. case_decide as Hw; [by intros [= <-]; subst|]. intros Hs'.
    rewrite (Permutation_length (Hother w ltac:(done))), (sum_perm _ _ (Hother w ltac:(done))). by apply Hok.
  - intros w s'. rewrite slot_get_set. case_decide; [by intros [= <-]|apply Hok].
  - intros w g Hin. rewrite slot_get_set. destruct (Hlive w g Hin) as [[->|Hw] Hg]; [by rewrite decide_True|]. by case_decide.
Qed.

Lemma register_ok c live h wid cpus gpus ip :
  env_ok c live → slot_get wid (slots c) = None → 0 ≤ cpus → 0 ≤ gpus →
  env_ok (with_slots (slot_set wid (mkSlot wid h cpus gpus ip 0 0) (slots c)) c) live.
Proof.
  intros Hok Hnew Hc Hg. assert (hosted wid live = []) as Hnone.
  { apply hosted_none. intros g Hin. destruct (env_registered _ _ Hok _ _ Hin) as [[s Hs] _]. congruence. }
  eapply (env_update c _ live live wid); try done; [by rewrite Hnone..|].
  intros w g Hin. destruct (env_registered _ _ Hok _ _ Hin). auto.
Qed.

Lemma try_select_nonempty c gpus r c' : try_select choice gpus c = Ret r c' → slots c ≠ [].
Proof. intros Hrun E. revert Hrun. unfold try_select. mrun. by rewrite bool_decide_true. Qed.

Lemma select_ok c live gpus h wid c' :
  env_ok c live → 0 ≤ gpus → try_select choice gpus c = Ret (Some (h, wid)) c' → env_ok c' ((wid, gpus) :: live).
Proof.
  intros Hok Hg Hrun. destruct (try_select_run c live gpus Hok (try_select_nonempty _ _ _ _ Hrun)) as (r & c1 & Hrun1 & Hm & Hr).
  rewrite Hrun in Hrun1. injection Hrun1 as <- <-. destruct Hr as (s & Hs & _ & Hcpu & Hgpu & Hslots).
  pose proof (env_used _ _ Hok _ _ Hs) as [Huc Hug].
  eapply (env_update c c' live _ wid); [done|done|done| | | | | | |]; simpl; try lia.
  - by apply Hok.
  - rewrite hosted_cons, decide_True by done. simpl. lia.
  - rewrite hosted_cons, decide_True by done. simpl. lia.
  - intros w Hw. by rewrite hosted_cons, decide_False.
  - intros w g [[= -> ->]|Hin]%elem_of_cons; [auto|]. destruct (env_registered _ _ Hok _ _ Hin). auto.
Qed.

Lemma release_ok c live live' wid gpus c' :
  env_ok c live → live ≡ₚ (wid, gpus) :: live' → release wid gpus c = Ret tt c' → env_ok c' live'.
Proof.
  intros Hok Hlive Hrun. destruct (env_registered _ _ Hok wid gpus) as [[s Hs] Hg]; [rewrite Hlive; set_solver|].
  unfold release in Hrun. injection Hrun as <-. rewrite Hs.
  pose proof (env_used _ _ Hok _ _ Hs) as [Huc Hug]. pose proof (env_bound _ _ Hok _ _ Hs) as [Hbc Hbg].
  pose proof (hosted_perm wid _ _ Hlive) as Hh. rewrite hosted_cons, decide_True in Hh by done.
  pose proof (sum_perm _ _ Hh) as Hsum. pose proof (Permutation_length Hh) as Hlen. simpl in Hsum, Hlen.
  assert (∀ p, p ∈ live' → 0 ≤ p.2) as Hnn.
  { intros [w g] Hin. apply (env_registered _ _ Hok w). rewrite Hlive. set_solver. }
  pose proof (hosted_nonneg wid live' Hnn) as Hpos.
  eapply (env_update c _ live live' wid); [done|reflexivity|done| | | | | | |]; simpl; try lia.
  - by apply Hok.
  - intros w Hw. pose proof (hosted_perm w _ _ Hlive) as Hh'. rewrite hosted_cons, decide_False in Hh' by done. done.
  - intros w g Hin. destruct (env_registered _ _ Hok w g) as [? ?]; [rewrite Hlive; set_solver|]. auto.
Qed.

Lemma env_step_ok x y : env_ok x.1 x.2 → env_step choice x y → env_ok y.1 y.2.
Proof.
  intros Hok Hstep. destruct Hstep as [c live h wid cpus gpus ip c' Hnew Hc Hg Hrun|c live gpus h wid c' Hg Hrun
    |c live gpus c' Hrun|c live live' wid gpus c' Hlive Hrun]; simpl in *.
  - injection Hrun as <-. by apply register_ok.
  - by eapply select_ok.
  - destruct (try_select_run c live gpus Hok (try_select_nonempty _ _ _ _ Hrun)) as (r & c1 & Hrun1 & Hm & Hr).
    rewrite Hrun in Hrun1. injection Hrun1 as <- <-. destruct Hr as [Hs _]. destruct Hok. split; rewrite ?Hs, ?Hm; done.
  - by eapply release_ok.
Qed.

(** C37: the coordinator's books are exact under every interleaving of
    registrations, placements and releases: the used slots of a worker are the
    sandboxes alive on it, its used GPUs the sum of theirs, and neither
    exceeds what the worker registered. *)
Theorem capacity_accounted (method : string) (counter : nat) (c : EnvWorkerCoordinator) (live : Live) (wid : Z) (s : WorkerSlot) :
  method ∈ ["least_loaded"; "round_robin"; "random"] →
  rtc (env_step choice) (new_coordinator method counter, []) (c, live) → slot_get wid (slots c) = Some s →
  used_cpu s = Z.of_nat (length (hosted wid live)) ∧ used_gpu s = foldr Z.add 0 (hosted wid live) ∧
  used_cpu s ≤ cpu_slots s ∧ used_gpu s ≤ gpu_slots s.
Proof.
  intros Hm Hrtc Hs. assert (∀ x y, rtc (env_step choice) x y → env_ok x.1 x.2 → env_ok y.1 y.2) as Hinv.
  { induction 1 as [|x y z Hxy _ IH]; [done|]. intros Hx. apply IH. by eapply env_step_ok. }
  destruct (Hinv _ _ Hrtc) as [? ? Hu Hb]; simpl.
  { split; simpl; try done; [constructor|set_solver]. }
  destruct (Hu _ _ Hs). destruct (Hb _ _ Hs). done.
Qed.
End accounting.

Definition first_choice (l : list WorkerSlot) : option WorkerSlot := head l.

Lemma first_choice_elem l : l ≠ [] → ∃ s, first_choice l = Some s ∧ s ∈ l.
Proof. destruct l as [|s l]; [done|]. intros _. exists s. split; [done|]. set_solver. Qed.

(** Worker 4 with one CPU slot and two GPUs, hosting a sandbox with one GPU. *)
Definition demo_registered : EnvWorkerCoordinator :=
  final (register_worker 9%N 4 1 2 "ip" (new_coordinator "least_loaded" 0)).
Definition demo_hosting : EnvWorkerCoordinator := final (try_select first_choice 1 demo_registered).

Lemma capacity_accounted_witness :
  ∃ s, slot_get 4 (slots demo_hosting) = Some s ∧ used_cpu s = 1 ∧ used_gpu s = 1 ∧ used_gpu s ≤ gpu_slots s.
Proof.
  eexists. split; [reflexivity|].
  destruct (capacity_accounted first_choice first_choice_elem "least_loaded" 0 demo_hosting [(4, 1)] 4
    (mkSlot 4 9%N 1 2 "ip" 1 1)) as (H1 & H2 & _ & H3); [set_solver| |reflexivity|exact (conj H1 (conj H2 H3))].
  eapply rtc_l; [eapply (step_register _ _ _ 9%N 4 1 2 "ip"); [reflexivity|lia|lia|reflexivity]|].
  apply rtc_once. eapply (step_select _ _ _ 1 9%N 4); [lia|reflexivity].
Defined.

(** A placement is exact.  When workers are registered, one round of
    [select_worker] either reserves one CPU slot and the requested GPUs on a
    worker that has both free, changing no other slot, or leaves all slots as
    they are because no worker can host the request. *)
Theorem try_select_exact (choice : list WorkerSlot → option WorkerSlot) (c : EnvWorkerCoordinator) (live : Live) (gpus : Z) :
  (∀ l, l ≠ [] → ∃ s, choice l = Some s ∧ s ∈ l) → env_ok c live → slots c ≠ [] →
  ∃ r c', try_select choice gpus c = Ret r c' ∧
    match r with
    | None => slots c' = slots c ∧ ∀ wid s, slot_get wid (slots c) = Some s → cpu_slots s ≤ used_cpu s ∨ gpu_slots s < used_gpu s + gpus
    | Some (h, wid) => ∃ s, slot_get wid (slots c) = Some s ∧ handle s = h ∧
        used_cpu s < cpu_slots s ∧ used_gpu s + gpus ≤ gpu_slots s ∧
        slots c' = slot_set wid (with_used (used_cpu s + 1) (used_gpu s + gpus) s) (slots c)
    end.
Proof.
  intros Hch Hok Hne. destruct (try_select_run choice Hch c live gpus Hok Hne) as (r & c' & Hrun & _ & Hr).
  exists r, c'. split; [done|]. destruct r as [[h wid]|]; [done|]. destruct Hr as [Hs Hno]. split; [done|].
  intros wid s Hw. specialize (Hno wid s Hw). unfold has_cpu_capacity, has_gpu_capacity in Hno.
  apply andb_false_iff in Hno as [?%bool_decide_eq_false|?%bool_decide_eq_false]; lia.
Qed.

Lemma demo_registered_ok : env_ok demo_registered [].
Proof.
  apply (register_ok (new_coordinator "least_loaded" 0)); [|done|lia|lia].
  split; simpl; try done; [constructor|set_solver|set_solver].
Qed.

Lemma try_select_exact_witness : ∃ r c', try_select first_choice 3 demo_registered = Ret r c'.
Proof.
  destruct (try_select_exact first_choice demo_registered [] 3 first_choice_elem demo_registered_ok) as (r & c' & H & _); [done|].
  exists r, c'. exact H.
Defined.

(** ** Creating and destroying sandboxes *)

Section creation.
Context (choice : list WorkerSlot → option WorkerSlot).
Context (choice_elem : ∀ l, l ≠ [] → ∃ s, choice l = Some s ∧ s ∈ l).

Lemma with_used_eta s : with_used (used_cpu s) (used_gpu s) s = s.
Proof. by destruct s. Qed.

Lemma used_nonneg c live wid s : env_ok c live → slot_get wid (slots c) = Some s → 0 ≤ used_cpu s ∧ 0 ≤ used_gpu s.
Proof.
  intros Hok Hs. destruct (env_used _ _ Hok _ _ Hs) as [-> ->]. split; [lia|].
  apply hosted_nonneg. intros [w g] Hin. by apply (env_registered _ _ Hok w).
Qed.

(** A reservation given back leaves the books as they were. *)
Lemma reserve_release c live gpus h wid c1 :
  env_ok c live → 0 ≤ gpus → try_select choice gpus c = Ret (Some (h, wid)) c1 →
  ∃ c2, release wid gpus c1 = Ret tt c2 ∧ slots c2 = slots c ∧ routing_method c2 = routing_method c.
Proof.
  intros Hok Hg Hrun.
  destruct (try_select_run choice choice_elem c live gpus Hok (try_select_nonempty choice _ _ _ _ Hrun)) as (r & c1' & Hrun1 & Hm & Hr).
  rewrite Hrun in Hrun1. injection Hrun1 as <- <-. destruct Hr as (s & Hs & _ & _ & _ & Hslots).
  pose proof (used_nonneg c live wid s Hok Hs) as [Huc Hug].
  eexists. split; [reflexivity|]. rewrite Hslots, slot_get_set, decide_True by done. simpl.
  rewrite slot_set_set. split; [|done].
  replace (with_used _ _ _) with s; [by apply slot_set_same|].
  rewrite <-(with_used_eta s) at 1. unfold with_used. simpl. f_equal; lia.
Qed.

(** The attempts when the deadline has already passed at the first poll. *)
Lemma attempts_fail live gpus fs c :
  env_ok c live → slots c ≠ [] → 0 ≤ gpus →
  ∃ c', create_attempts choice gpus ((λ f, ([mkPoll true f], None)) <$> fs) c = Raise RuntimeError c' ∧ slots c' = slots c.
Proof.
  revert c. induction fs as [|f fs IH]; intros c Hok Hne Hg; [by exists c|]. cbn [fmap list_fmap create_attempts select_worker].
  destruct (try_select_run choice choice_elem c live gpus Hok Hne) as (r & c1 & Hrun & Hm & Hr).
  rewrite run_assoc, (run_bind _ _ _ _ _ Hrun). destruct r as [[h wid]|]; last first.
  { exists c1. split; [done|]. by destruct Hr. }
  mrun. destruct (reserve_release c live gpus h wid c1 Hok Hg Hrun) as (c2 & Hrel & Hs2 & Hm2).
  rewrite (run_bind _ _ _ _ _ Hrel). destruct (IH c2) as (c' & Hrun' & Hs').
  - destruct Hok. split; rewrite ?Hs2, ?Hm2; done.
  - by rewrite Hs2.
  - done.
  - exists c'. split; [exact Hrun'|congruence].
Qed.
End creation.

(** A sandbox that cannot be created costs nothing: when both attempts fail,
    because no worker has capacity or because the chosen worker fails, the
    request ends in [RuntimeError] and the capacity of every worker is what it
    was before. *)
Theorem failed_creation_restores (choice : list WorkerSlot → option WorkerSlot) (c : EnvWorkerCoordinator) (live : Live) (gpus : Z)
    (f g : EnvWorkerCoordinator → EnvWorkerCoordinator) :
  (∀ l, l ≠ [] → ∃ s, choice l = Some s ∧ s ∈ l) → env_ok c live → slots c ≠ [] → 0 ≤ gpus →
  ∃ c', create_sandbox choice gpus ([mkPoll true f], None) ([mkPoll true g], None) c = Raise RuntimeError c' ∧ slots c' = slots c.
Proof. intros Hch Hok Hne Hg. exact (attempts_fail choice Hch live gpus [f; g] c Hok Hne Hg). Qed.

Lemma failed_creation_restores_witness :
  ∃ c', create_sandbox first_choice 1 ([mkPoll true id], None) ([mkPoll true id], None) demo_registered = Raise RuntimeError c' ∧
    slots c' = slots demo_registered.
Proof. apply (failed_creation_restores first_choice demo_registered [] 1 id id first_choice_elem demo_registered_ok); [done|lia]. Defined.

(** The retry does not avoid the worker that failed.  With two idle workers
    and the default routing, a failed creation on worker 4 is tried again on
    worker 4, not on worker 7. *)
Theorem retry_same_worker :
  let c := final ((register_worker 9%N 4 2 0 "a" ;; register_worker 8%N 7 2 0 "b") (new_coordinator "least_loaded" 0)) in
  result (try_select first_choice 0 c) = inr (Some (9%N, 4)) ∧
  result (create_sandbox first_choice 0 ([mkPoll true id], None) ([mkPoll true id], Some "s") c) = inr (Some (mkHandle "s" 4 0 false)).
Proof. split; vm_compute; reflexivity. Qed.
