(* ===== verification/ClusterTopology.v ===== *)
(** * GPU placement of instances

    psrl/utils/elastic_rm/cluster_topology.py: [ClusterTopology] keeps, for every
    rollout or reward-model instance, the GPUs it is placed on and whether it is
    awake, together with the reverse index from a GPU to the instances on it.
    The two indices are dictionaries whose order no operation but [snapshot]
    shows; [frozenset]s and the sets of the reverse index are finite sets, and
    the loops over them only collect or test their elements. *)

From S2P Require Import Prelude.
From S2P Require Import PyFloat.

(** ** Data *)

(** [RolloutInstanceId = tuple[str, int]] *)
Abbreviation RolloutInstanceId := (string * Z)%type.

Inductive PSRL_Role :=
  | Actor | Rollout | ActorRollout | Critic | RefPolicy | RewardModel
  | ActorRolloutRef | Validate | TeacherModel | DummyPolicy.

#[export] Instance role_eq_dec : EqDecision PSRL_Role.
Proof. solve_decision. Defined.
#[export] Instance role_countable : Countable PSRL_Role.
Proof.
  refine (inj_countable' (λ r, match r with Actor => 0 | Rollout => 1 | ActorRollout => 2 | Critic => 3 | RefPolicy => 4
    | RewardModel => 5 | ActorRolloutRef => 6 | Validate => 7 | TeacherModel => 8 | DummyPolicy => 9 end)
    (λ n, if decide (n = 0) then Actor else if decide (n = 1) then Rollout else if decide (n = 2) then ActorRollout
     else if decide (n = 3) then Critic else if decide (n = 4) then RefPolicy else if decide (n = 5) then RewardModel
     else if decide (n = 6) then ActorRolloutRef else if decide (n = 7) then Validate
     else if decide (n = 8) then TeacherModel else DummyPolicy) _). by intros [].
Defined.

Record GPUSlot := mkGPU { node_id : option string; gpu_id : Z }.

#[export] Instance gpu_eq_dec : EqDecision GPUSlot.
Proof. solve_decision. Defined.
#[export] Instance gpu_countable : Countable GPUSlot.
Proof. refine (inj_countable' (λ g, (node_id g, gpu_id g)) (λ p, mkGPU p.1 p.2) _). by intros []. Defined.

Record InstanceIdentifier := mkIdent { ident_role : PSRL_Role; ident_model : string; ident_instance : RolloutInstanceId }.

#[export] Instance ident_eq_dec : EqDecision InstanceIdentifier.
Proof. solve_decision. Defined.
#[export] Instance ident_countable : Countable InstanceIdentifier.
Proof.
  refine (inj_countable' (λ k, (ident_role k, ident_model k, ident_instance k)) (λ p, mkIdent p.1.1 p.1.2 p.2) _).
  by intros [].
Defined.

Inductive InstanceStatus := ASLEEP | AWAKEN.
#[export] Instance status_eq_dec : EqDecision InstanceStatus.
Proof. solve_decision. Defined.

Record InstanceInfo := mkInfo { info_key : InstanceIdentifier; info_slots : gset GPUSlot; info_status : InstanceStatus }.

Record ClusterTopology := mkTopology {
  instances : gmap InstanceIdentifier InstanceInfo;
  gpu_to_instances : gmap GPUSlot (gset InstanceIdentifier);
}.

Definition with_instances v (t : ClusterTopology) := mkTopology v (gpu_to_instances t).
Definition with_gpus v (t : ClusterTopology) := mkTopology (instances t) v.

Definition new_topology : ClusterTopology := mkTopology ∅ ∅.

Abbreviation Topo := (M ClusterTopology).

(** ** Operations *)

Definition discard_key (k : InstanceIdentifier) (idx : gmap GPUSlot (gset InstanceIdentifier)) (g : GPUSlot) :=
  match idx !! g with
  | None => idx
  | Some keys => if bool_decide (keys ∖ {[k]} = ∅) then delete g idx else <[g := keys ∖ {[k]}]> idx
  end.

Definition remove_from_reverse_index (k : InstanceIdentifier) (t : ClusterTopology) : ClusterTopology :=
  match instances t !! k with
  | None => t
  | Some info => with_gpus (foldl (discard_key k) (gpu_to_instances t) (elements (info_slots info))) t
  end.

Definition add_key (k : InstanceIdentifier) (idx : gmap GPUSlot (gset InstanceIdentifier)) (g : GPUSlot) :=
  <[g := default ∅ (idx !! g) ∪ {[k]}]> idx.

Definition add_to_reverse_index (k : InstanceIdentifier) (t : ClusterTopology) : ClusterTopology :=
  match instances t !! k with
  | None => t
  | Some info => with_gpus (foldl (add_key k) (gpu_to_instances t) (elements (info_slots info))) t
  end.

Definition register (role : PSRL_Role) (model : string) (iid : RolloutInstanceId)
    (slots : option (gset GPUSlot)) (status : InstanceStatus) : Topo InstanceIdentifier :=
  let k := mkIdent role model iid in
  let slots := default ∅ slots in
  t ← gets id;
  (if bool_decide (is_Some (instances t !! k)) then modify (remove_from_reverse_index k) else mret tt) ;;
  modify (λ t, with_instances (<[k := mkInfo k slots status]> (instances t)) t) ;;
  modify (add_to_reverse_index k) ;;
  mret k.

Definition update_gpu_slots (role : PSRL_Role) (model : string) (iid : RolloutInstanceId) (slots : gset GPUSlot) : Topo unit :=
  let k := mkIdent role model iid in
  t ← gets id;
  info ← of_option KeyError (instances t !! k);
  modify (remove_from_reverse_index k) ;;
  modify (λ t, with_instances (<[k := mkInfo k slots (info_status info)]> (instances t)) t) ;;
  modify (add_to_reverse_index k).

Definition set_status (role : PSRL_Role) (model : string) (iid : RolloutInstanceId) (status : InstanceStatus) : Topo unit :=
  let k := mkIdent role model iid in
  t ← gets id;
  info ← of_option KeyError (instances t !! k);
  modify (λ t, with_instances (<[k := mkInfo k (info_slots info) status]> (instances t)) t).

Definition get_status (role : PSRL_Role) (model : string) (iid : RolloutInstanceId) (t : ClusterTopology) : Res InstanceStatus :=
  match instances t !! mkIdent role model iid with Some info => inr (info_status info) | None => inl KeyError end.

Definition get_gpu_slots (role : PSRL_Role) (model : string) (iid : RolloutInstanceId) (t : ClusterTopology) : gset GPUSlot :=
  match instances t !! mkIdent role model iid with Some info => info_slots info | None => ∅ end.

(** An instance of another role that is awake. *)
Definition awake_other (role : PSRL_Role) (t : ClusterTopology) (other : InstanceIdentifier) : bool :=
  bool_decide (ident_role other ≠ role) &&
  match instances t !! other with Some info => bool_decide (info_status info = AWAKEN) | None => false end.

Definition has_other_role_awaken_on_shared_gpu (role : PSRL_Role) (model : string) (iid : RolloutInstanceId)
    (t : ClusterTopology) : bool :=
  match instances t !! mkIdent role model iid with
  | None => false
  | Some info =>
      existsb (λ g, existsb (awake_other role t) (elements (default ∅ (gpu_to_instances t !! g)))) (elements (info_slots info))
  end.

Definition get_awaken_gpu_slots (t : ClusterTopology) : gset GPUSlot :=
  ⋃ ((λ p, if bool_decide (info_status p.2 = AWAKEN) then info_slots p.2 else ∅) <$> map_to_list (instances t)).

(** [sorted] on tuples of a string and an integer. *)
Definition id_ltb (a b : RolloutInstanceId) : bool :=
  match String.compare a.1 b.1 with Lt => true | Gt => false | Eq => bool_decide (a.2 < b.2) end.

(** The loop over the sorted ids: the ids selected after [selected], and the
    GPUs taken; [break] once enough are selected. *)
Fixpoint select_loop (role : PSRL_Role) (model : string) (target : Z) (t : ClusterTopology)
    (ids : list RolloutInstanceId) (occupied : gset GPUSlot) (selected : list RolloutInstanceId) : list RolloutInstanceId :=
  match ids with
  | [] => selected
  | iid :: ids =>
      match instances t !! mkIdent role model iid with
      | None => select_loop role model target t ids occupied selected
      | Some info =>
          if bool_decide (info_slots info ≠ ∅ ∧ ¬ info_slots info ## occupied)
          then select_loop role model target t ids occupied selected
          else
            let selected := selected ++ [iid] in
            if bool_decide (target ≤ Z.of_nat (length selected)) then selected
            else select_loop role model target t ids (occupied ∪ info_slots info) selected
      end
  end.

Definition select_non_conflicting_awake_ids (role : PSRL_Role) (model : string) (ids : list RolloutInstanceId)
    (target_awake_num min_awake_num : Z) (t : ClusterTopology) : Res (list RolloutInstanceId) :=
  let selected := select_loop role model target_awake_num t (sort_lt id_ltb ids) (get_awaken_gpu_slots t) [] in
  if bool_decide (Z.of_nat (length selected) < min_awake_num) then inl RuntimeError else inr selected.

Definition get_instance_gpu_keys_frozenset (role : PSRL_Role) (model : string) (iid : RolloutInstanceId)
    (t : ClusterTopology) : option (gset (option string * Z)) :=
  match instances t !! mkIdent role model iid with
  | None => None
  | Some info =>
      if bool_decide (info_slots info = ∅) then None
      else Some (set_map (λ g, (node_id g, gpu_id g)) (info_slots info))
  end.

(** [collect_gpu_slots_from_worker_group] on the answers of the two remote calls:
    [zip(..., strict=True)] raises [ValueError] when their lengths differ. *)
Fixpoint collect_gpu_slots (gpu_ids : list (list Z)) (node_ids : list string) : Res (gset GPUSlot) :=
  match gpu_ids, node_ids with
  | [], [] => inr ∅
  | g :: gpu_ids, n :: node_ids =>
      match collect_gpu_slots gpu_ids node_ids with
      | inl e => inl e
      | inr s => inr (match g with [] => s | i :: _ => {[mkGPU (Some n) i]} ∪ s end)
      end
  | _, _ => inl ValueError
  end.

(** [snapshot]: the two indices as printed.  [sorted] compares the GPU pairs of
    one instance, which fails when one node id is [None] and another is a string,
    and the keys on one GPU, which have no order: [sorted] then raises
    [TypeError] as soon as there are two of them. *)
Definition sortable_pairs (l : list GPUSlot) : bool :=
  bool_decide (Forall (λ g, node_id g = None) l ∨ Forall (λ g, is_Some (node_id g)) l).

Definition snapshot (t : ClusterTopology) :
    Res (list (InstanceIdentifier * InstanceStatus * gset GPUSlot) * list (GPUSlot * gset InstanceIdentifier)) :=
  if forallb (λ p, sortable_pairs (elements (info_slots p.2))) (map_to_list (instances t)) then
    if forallb (λ p, bool_decide (size p.2 ≤ 1)%nat) (map_to_list (gpu_to_instances t)) then
      inr ((λ p, (p.1, info_status p.2, info_slots p.2)) <$> map_to_list (instances t),
           filter (λ p, p.2 ≠ ∅) (map_to_list (gpu_to_instances t)))
    else inl TypeError
  else inl TypeError.

(** ** The invariant: the two indices describe the same placement *)

Definition keys_on (g : GPUSlot) (t : ClusterTopology) : gset InstanceIdentifier := default ∅ (gpu_to_instances t !! g).

Record topology_ok (t : ClusterTopology) : Prop := {
  ok_keys : ∀ k info, instances t !! k = Some info → info_key info = k;
  ok_reverse : ∀ g k, k ∈ keys_on g t ↔ ∃ info, instances t !! k = Some info ∧ g ∈ info_slots info;
  ok_nonempty : ∀ g keys, gpu_to_instances t !! g = Some keys → keys ≠ ∅;
}.

Section index.
Implicit Types (idx : gmap GPUSlot (gset InstanceIdentifier)) (l : list GPUSlot).

Lemma discard_keys_lookup k k' g idx l :
  k' ∈ default ∅ (foldl (discard_key k) idx l !! g) ↔ k' ∈ default ∅ (idx !! g) ∧ (k' = k → g ∉ l).
Proof.
  revert idx. induction l as [|g0 l IH]; intros idx; simpl; [set_solver|].
  rewrite IH, not_elem_of_cons. unfold discard_key. destruct (idx !! g0) as [keys|] eqn:E.
  - case_bool_decide as Hk.
    + rewrite lookup_delete. case_decide as Hg; simpl; [subst g0|naive_solver]. rewrite E. simpl.
      split; [by intros [?%elem_of_empty _]|]. intros [Hin Hl].
      destruct (decide (k' = k)); [naive_solver|]. rewrite <-Hk. set_solver.
    + rewrite lookup_insert. case_decide as Hg; simpl; [subst g0|naive_solver]. rewrite E. simpl.
      rewrite elem_of_difference, elem_of_singleton. naive_solver.
  - split; [|naive_solver]. intros [Hin Hl]. split; [done|]. intros Hk. split; [|tauto].
    intros ->. rewrite E in Hin. by apply elem_of_empty in Hin.
Qed.

Lemma discard_keys_nonempty k idx l :
  (∀ g keys, idx !! g = Some keys → keys ≠ ∅) → ∀ g keys, foldl (discard_key k) idx l !! g = Some keys → keys ≠ ∅.
Proof.
  revert idx. induction l as [|g0 l IH]; intros idx Hne; simpl; [done|]. apply IH.
  intros g keys. unfold discard_key. destruct (idx !! g0) as [ks|]; [|apply Hne].
  case_bool_decide as Hk.
  - rewrite lookup_delete. case_decide; [done|]. apply Hne.
  - rewrite lookup_insert. case_decide; [by intros [= <-]|]. apply Hne.
Qed.

Lemma add_keys_lookup k k' g idx l :
  k' ∈ default ∅ (foldl (add_key k) idx l !! g) ↔ k' ∈ default ∅ (idx !! g) ∨ k' = k ∧ g ∈ l.
Proof.
  revert idx. induction l as [|g0 l IH]; intros idx; simpl; [set_solver|].
  rewrite IH, elem_of_cons. unfold add_key. rewrite lookup_insert. case_decide; simpl; [subst|]; set_solver.
Qed.

Lemma add_keys_nonempty k idx l :
  (∀ g keys, idx !! g = Some keys → keys ≠ ∅) → ∀ g keys, foldl (add_key k) idx l !! g = Some keys → keys ≠ ∅.
Proof.
  revert idx. induction l as [|g0 l IH]; intros idx Hne; simpl; [done|]. apply IH.
  intros g keys. unfold add_key. rewrite lookup_insert. case_decide; [|apply Hne]. intros [= <-]. set_solver.
Qed.
End index.

(** Replacing an instance's record together with its entries of the index. *)
Lemma replace_instance_ok k info t :
  topology_ok t → info_key info = k →
  topology_ok (add_to_reverse_index k (with_instances (<[k := info]> (instances t)) (remove_from_reverse_index k t))).
Proof.
  intros [Hkeys Hrev Hne] Hk. unfold add_to_reverse_index. simpl. rewrite lookup_insert_eq. simpl.
  assert (∀ g k', k' ∈ keys_on g (remove_from_reverse_index k t) ↔ k' ∈ keys_on g t ∧ k' ≠ k) as Hrem.
  { intros g k'. unfold remove_from_reverse_index. destruct (instances t !! k) as [old|] eqn:E; last first.
    { split; [|tauto]. intros Hin. split; [done|]. intros ->. apply Hrev in Hin as (? & ? & _). congruence. }
    unfold keys_on. simpl. rewrite discard_keys_lookup, elem_of_elements. fold (keys_on g t).
    split; [|tauto]. intros [Hin Hg]. split; [done|]. intros ->. apply Hrev in Hin as (? & ? & ?). naive_solver. }
  assert (gpu_to_instances (with_instances (<[k:=info]> (instances t)) (remove_from_reverse_index k t))
          = gpu_to_instances (remove_from_reverse_index k t)) as Hg by done.
  split; simpl.
  - intros k' info'. rewrite lookup_insert. case_decide; [|apply Hkeys]. intros [= <-]. congruence.
  - intros g k'. unfold keys_on in *. simpl. rewrite add_keys_lookup, Hrem, elem_of_elements, lookup_insert.
    rewrite Hrev. case_decide; naive_solver.
  - apply add_keys_nonempty. unfold remove_from_reverse_index. destruct (instances t !! k); [|done].
    by apply discard_keys_nonempty.
Qed.

Lemma remove_absent k t : instances t !! k = None → remove_from_reverse_index k t = t.
Proof. intros E. unfold remove_from_reverse_index. by rewrite E. Qed.

Lemma register_run role model iid slots status t :
  register role model iid slots status t =
  Ret (mkIdent role model iid)
    (let k := mkIdent role model iid in
     add_to_reverse_index k (with_instances (<[k := mkInfo k (default ∅ slots) status]> (instances t)) (remove_from_reverse_index k t))).
Proof.
  unfold register. mrun. unfold remove_from_reverse_index.
  destruct (instances t !! mkIdent role model iid) eqn:E.
  - rewrite bool_decide_true by done. mrun. unfold remove_from_reverse_index. by rewrite E.
  - rewrite bool_decide_false by (intros [? ?]; congruence). mrun. by destruct t.
Qed.

(** ** Reachable topologies *)

Inductive topology_step : ClusterTopology → ClusterTopology → Prop :=
  | step_register role model iid slots status t :
      topology_step t (final (register role model iid slots status t))
  | step_update role model iid slots t : topology_step t (final (update_gpu_slots role model iid slots t))
  | step_status role model iid status t : topology_step t (final (set_status role model iid status t)).

Definition topology_reachable := rtc topology_step new_topology.

Lemma new_topology_ok : topology_ok new_topology.
Proof. split; try done. intros g k. unfold keys_on. simpl. rewrite lookup_empty. simpl. set_solver. Qed.

Lemma update_gpu_slots_ok role model iid slots t :
  topology_ok t → topology_ok (final (update_gpu_slots role model iid slots t)).
Proof.
  intros Hok. unfold update_gpu_slots. mrun. set (k := mkIdent role model iid).
  destruct (instances t !! k) as [info|] eqn:E; [|done].
  rewrite (run_of_option _ _ info) by done. mrun. simpl.
  assert (instances (remove_from_reverse_index k t) = instances t) as ->
    by (unfold remove_from_reverse_index; by rewrite E).
  by apply (replace_instance_ok k (mkInfo k slots (info_status info))).
Qed.

Lemma set_status_ok role model iid status t : topology_ok t → topology_ok (final (set_status role model iid status t)).
Proof.
  intros [Hkeys Hrev Hne]. unfold set_status. mrun. set (k := mkIdent role model iid).
  destruct (instances t !! k) as [info|] eqn:E; [|done]. rewrite (run_of_option _ _ info) by done. simpl.
  split; simpl; [..|done].
  - intros k' info'. rewrite lookup_insert. case_decide; [|apply Hkeys]. intros [= <-]. done.
  - intros g k'. unfold keys_on in *. simpl. rewrite Hrev, lookup_insert. case_decide; naive_solver.
Qed.

Lemma topology_step_ok t t' : topology_step t t' → topology_ok t → topology_ok t'.
Proof.
  intros []; [|apply update_gpu_slots_ok|apply set_status_ok]. intros Hok. rewrite register_run. simpl.
  by apply replace_instance_ok.
Qed.

Lemma topology_reachable_ok t : topology_reachable t → topology_ok t.
Proof.
  intros Hr. unfold topology_reachable in Hr. remember new_topology as t0 eqn:E.
  assert (topology_ok t0) as Hok by (subst; apply new_topology_ok). clear E.
  induction Hr; eauto using topology_step_ok.
Qed.

(** Two awake instances of different roles on one GPU: what the reverse index is
    consulted for. *)
Definition conflicts (role : PSRL_Role) (k : InstanceIdentifier) (t : ClusterTopology) : Prop :=
  ∃ info other oinfo g,
    instances t !! k = Some info ∧ instances t !! other = Some oinfo ∧ ident_role other ≠ role ∧
    info_status oinfo = AWAKEN ∧ g ∈ info_slots info ∧ g ∈ info_slots oinfo.

Lemma has_other_role_exact role model iid t :
  topology_ok t →
  has_other_role_awaken_on_shared_gpu role model iid t = true ↔ conflicts role (mkIdent role model iid) t.
Proof.
  intros [_ Hrev _]. unfold has_other_role_awaken_on_shared_gpu, conflicts, awake_other.
  set (k := mkIdent role model iid). destruct (instances t !! k) as [info|] eqn:E; [|naive_solver].
  rewrite existsb_exists. setoid_rewrite existsb_exists. setoid_rewrite <-list_elem_of_In. split.
  - intros (g & Hg%elem_of_elements & other & Ho%elem_of_elements & Haw).
    apply andb_true_iff in Haw as [Hrole%bool_decide_eq_true Hst].
    apply Hrev in Ho as (oinfo & Ho & Hg'). rewrite Ho in Hst. apply bool_decide_eq_true in Hst. naive_solver.
  - intros (info' & other & oinfo & g & [= <-] & Ho & Hrole & Hst & Hg & Hg').
    exists g. rewrite elem_of_elements. split; [done|]. exists other. rewrite elem_of_elements. split.
    { apply Hrev. eauto. }
    rewrite Ho. by rewrite !bool_decide_true.
Qed.

(** In every topology built by registrations, placement updates and status
    changes, the reverse index lists exactly the instances placed on each GPU,
    and the conflict query answers True exactly when an awake instance of another
    role shares a GPU with the given instance. *)
Theorem conflict_query_exact (t : ClusterTopology) (role : PSRL_Role) (model : string) (iid : RolloutInstanceId) :
  topology_reachable t →
  (∀ g k, k ∈ keys_on g t ↔ ∃ info, instances t !! k = Some info ∧ g ∈ info_slots info) ∧
  (has_other_role_awaken_on_shared_gpu role model iid t = true ↔ conflicts role (mkIdent role model iid) t).
Proof.
  intros Hok%topology_reachable_ok. split; [apply ok_reverse, Hok|by apply has_other_role_exact].
Qed.

(** ** Selection *)

Definition registered (role : PSRL_Role) (model : string) (t : ClusterTopology) (iid : RolloutInstanceId) : Prop :=
  is_Some (instances t !! mkIdent role model iid).

Definition awake_gpu (t : ClusterTopology) (g : GPUSlot) : Prop :=
  ∃ k info, instances t !! k = Some info ∧ info_status info = AWAKEN ∧ g ∈ info_slots info.

Lemma elem_of_awaken_slots g t : g ∈ get_awaken_gpu_slots t ↔ awake_gpu t g.
Proof.
  unfold get_awaken_gpu_slots, awake_gpu. rewrite elem_of_union_list. setoid_rewrite list_elem_of_fmap. split.
  - intros (X & ([k info] & -> & Hin%elem_of_map_to_list) & Hg). simpl in *. case_bool_decide; set_solver.
  - intros (k & info & Hk & Hst & Hg). exists (info_slots info). split; [|done].
    exists (k, info). rewrite elem_of_map_to_list. split; [|done]. simpl. by rewrite bool_decide_true.
Qed.

Section selection.
Context (role : PSRL_Role) (model : string) (t : ClusterTopology).

Abbreviation slots_of i := (get_gpu_slots role model i t).

(** A further selection [added] that respects the GPUs in [occ]. *)
Definition compatible (occ : gset GPUSlot) (added : list RolloutInstanceId) : Prop :=
  (∀ i, i ∈ added → registered role model t i ∧ slots_of i ## occ) ∧
  (∀ a b i j, added !! a = Some i → added !! b = Some j → a ≠ b → slots_of i ## slots_of j).

(** No further candidate could be added. *)
Definition saturated (occ : gset GPUSlot) (cands added : list RolloutInstanceId) : Prop :=
  ∀ i, i ∈ cands → registered role model t i → i ∈ added ∨ ∃ g, g ∈ slots_of i ∧ (g ∈ occ ∨ ∃ j, j ∈ added ∧ g ∈ slots_of j).

Lemma compatible_cons occ i added :
  registered role model t i → slots_of i ## occ → compatible (occ ∪ slots_of i) added → compatible occ (i :: added).
Proof.
  intros Hreg Hdis [Hall Hpw]. split.
  - intros j [->|Hj]%elem_of_cons; [done|]. destruct (Hall j Hj). set_solver.
  - assert (∀ b j, added !! b = Some j → slots_of j ## slots_of i) as Hi.
    { intros b j Hj%list_elem_of_lookup_2. destruct (Hall j Hj). set_solver. }
    intros [|a] [|b] x y Hx Hy Hab; simpl in *.
    + done.
    + simplify_eq. symmetry. eauto.
    + simplify_eq. eauto.
    + apply (Hpw a b); [done..|]. intros ->. done.
Qed.

Lemma select_loop_spec target ids occ sel :
  ∃ added, select_loop role model target t ids occ sel = sel ++ added ∧ added `sublist_of` ids ∧ compatible occ added ∧
    (Z.of_nat (length added) ≤ Z.max 1 (target - Z.of_nat (length sel))) ∧
    (Z.of_nat (length (sel ++ added)) < target → saturated occ ids added).
Proof.
  revert occ sel. induction ids as [|i ids IH]; intros occ sel; simpl.
  { exists []. rewrite app_nil_r. split_and!; [done|constructor|by split; intros; set_solver|simpl; lia|]. intros _ ??; set_solver. }
  destruct (instances t !! mkIdent role model i) as [info|] eqn:E; last first.
  { destruct (IH occ sel) as (added & -> & Hsub & Hc & Hlen & Hsat). exists added.
    split_and!; [done|by constructor|done..|]. intros Hlt j [->|Hj]%elem_of_cons Hreg; [|by apply Hsat].
    destruct Hreg as [? Hreg]. congruence. }
  assert (slots_of i = info_slots info) as Hslots by (unfold get_gpu_slots; by rewrite E).
  case_bool_decide as Hconf.
  { destruct (IH occ sel) as (added & -> & Hsub & Hc & Hlen & Hsat). exists added.
    split_and!; [done|by constructor|done..|]. intros Hlt j [->|Hj]%elem_of_cons Hreg; [|by apply Hsat].
    right. destruct Hconf as [_ Hnd]. rewrite Hslots.
    destruct (set_choose_or_empty (info_slots info ∩ occ)) as [[g Hg]|Hg]; [exists g; set_solver|].
    destruct Hnd. set_solver. }
  assert (slots_of i ## occ) as Hdis.
  { rewrite Hslots. destruct (decide (info_slots info = ∅)) as [->|]; [set_solver|].
    destruct (decide (info_slots info ## occ)); [done|]. by destruct Hconf. }
  case_bool_decide as Htgt.
  { exists [i]. split_and!; [done| | |simpl; lia|intros; lia].
    - by apply sublist_skip, sublist_nil_l.
    - apply compatible_cons; [by exists info|done|]. split; intros; set_solver. }
  destruct (IH (occ ∪ info_slots info) (sel ++ [i])) as (added & -> & Hsub & Hc & Hlen & Hsat).
  rewrite <-Hslots in Hc, Hsat. rewrite length_app in Hlen, Htgt. simpl in Hlen, Htgt.
  exists (i :: added). rewrite <-app_assoc. simpl. split_and!; [done|by constructor| |simpl; lia|].
  - apply compatible_cons; [by exists info|done..].
  - intros Hlt j [->|Hj]%elem_of_cons Hreg; [set_solver|]. rewrite <-app_assoc in Hsat.
    destruct (Hsat Hlt j Hj Hreg) as [|(g & Hg & Hocc)]; [set_solver|]. right. exists g. split; [done|].
    destruct Hocc as [[|]%elem_of_union|(j' & ? & ?)]; [by left|right; exists i; set_solver|right; exists j'; set_solver].
Qed.
End selection.

(** Whatever is selected is registered. *)
Lemma select_registered role model ids target mn t sel :
  select_non_conflicting_awake_ids role model ids target mn t = inr sel → ∀ i, i ∈ sel → registered role model t i.
Proof.
  unfold select_non_conflicting_awake_ids. intros Hsel i Hi.
  destruct (select_loop_spec role model t target (sort_lt id_ltb ids) (get_awaken_gpu_slots t) []) as (added & E & _ & [Hreg _] & _).
  rewrite E in Hsel. simpl in Hsel. case_bool_decide; [done|]. injection Hsel as <-. by apply Hreg.
Qed.

(** Selecting instances to wake takes registered ids in sorted order whose GPUs
    overlap neither those of an awake instance nor each other, and stops at the
    target only; when it stops below the target every other registered id shares
    a GPU with an awake or a selected instance.  It raises RuntimeError exactly
    when that selection has fewer than [min_awake_num] ids. *)
Theorem select_non_conflicting_exact (role : PSRL_Role) (model : string) (ids : list RolloutInstanceId)
    (target min_awake : Z) (t : ClusterTopology) :
  ∃ sel, sel `sublist_of` sort_lt id_ltb ids ∧
    compatible role model t (get_awaken_gpu_slots t) sel ∧
    (∀ i g, i ∈ sel → g ∈ get_gpu_slots role model i t → ¬ awake_gpu t g) ∧
    Z.of_nat (length sel) ≤ Z.max 1 target ∧
    (Z.of_nat (length sel) < target → saturated role model t (get_awaken_gpu_slots t) ids sel) ∧
    select_non_conflicting_awake_ids role model ids target min_awake t =
      if bool_decide (Z.of_nat (length sel) < min_awake) then inl RuntimeError else inr sel.
Proof.
  destruct (select_loop_spec role model t target (sort_lt id_ltb ids) (get_awaken_gpu_slots t) [])
    as (sel & E & Hsub & Hc & Hlen & Hsat). simpl in *.
  exists sel. split_and!; [done..| |lia| |].
  - intros i g Hi Hg Haw%elem_of_awaken_slots. destruct (proj1 Hc i Hi). set_solver.
  - intros Hlt i Hi. apply (Hsat Hlt). by apply elem_of_sort_lt.
  - unfold select_non_conflicting_awake_ids. by rewrite E.
Qed.

(** A target of zero still selects one instance. *)
Definition demo_topology : ClusterTopology :=
  final ((register Rollout "m" ("r0", 0) (Some {[mkGPU (Some "n0") 0]}) ASLEEP ;;
          register Rollout "m" ("r1", 0) (Some {[mkGPU (Some "n0") 1]}) ASLEEP ;;
          register RewardModel "rm" ("w0", 0) (Some {[mkGPU (Some "n0") 0]}) AWAKEN) new_topology).

Lemma demo_topology_reachable : topology_reachable demo_topology.
Proof.
  eapply rtc_l; [apply (step_register Rollout "m" ("r0", 0) (Some {[mkGPU (Some "n0") 0]}) ASLEEP)|].
  eapply rtc_l; [apply (step_register Rollout "m" ("r1", 0) (Some {[mkGPU (Some "n0") 1]}) ASLEEP)|].
  eapply rtc_l; [apply (step_register RewardModel "rm" ("w0", 0) (Some {[mkGPU (Some "n0") 0]}) AWAKEN)|].
  apply rtc_refl.
Qed.

Lemma conflict_query_exact_witness :
  topology_reachable demo_topology ∧ has_other_role_awaken_on_shared_gpu Rollout "m" ("r0", 0) demo_topology = true ∧
  conflicts Rollout (mkIdent Rollout "m" ("r0", 0)) demo_topology.
Proof.
  pose proof demo_topology_reachable as Hr. split; [exact Hr|].
  assert (has_other_role_awaken_on_shared_gpu Rollout "m" ("r0", 0) demo_topology = true) as E by by vm_compute.
  split; [exact E|]. apply (conflict_query_exact demo_topology Rollout "m" ("r0", 0) Hr). exact E.
Defined.

Lemma select_target_zero_selects_one :
  select_non_conflicting_awake_ids Rollout "m" [("r1", 0); ("r0", 0)] 0 0 demo_topology = inr [("r1", 0)].
Proof. by vm_compute. Qed.

(** The snapshot of a topology with two instances on one GPU raises TypeError:
    instance identifiers are not ordered. *)
Lemma snapshot_shared_gpu_raises t g a b :
  topology_reachable t → a ≠ b → a ∈ keys_on g t → b ∈ keys_on g t → snapshot t = inl TypeError.
Proof.
  intros _ Hab Ha Hb. unfold snapshot. case_match; [|done].
  destruct (forallb _ (map_to_list (gpu_to_instances t))) eqn:F; [|done].
  rewrite forallb_forall in F. unfold keys_on in *. destruct (gpu_to_instances t !! g) as [keys|] eqn:E; simpl in *; [|set_solver].
  assert (In (g, keys) (map_to_list (gpu_to_instances t))) as Hin by (apply list_elem_of_In, elem_of_map_to_list, E).
  apply F, bool_decide_eq_true in Hin. simpl in Hin.
  assert (size ({[a; b]} : gset InstanceIdentifier) ≤ size keys)%nat as Hsz by (apply subseteq_size; set_solver).
  rewrite size_union in Hsz by set_solver. rewrite !size_singleton in Hsz. lia.
Qed.
