(* ===== verification/ScalingPolicy.v ===== *)
(** * The elastic scaling policy

    psrl/utils/elastic_rm/scaling_policy.py: on every monitor tick
    [ScalingPolicy.decide] looks at one signal per instance and answers at most one
    action, waking an instance or putting one to sleep.

    Arguments of the definitions, because they are not the program's: [pow]
    ([math.pow] of the platform's C library), [fsum] (Python's [sum] over floats,
    compensated or not depending on the interpreter), the contents of the
    throughput files ([formula], [profile]), the two readings of [time.time()] and
    the age of a snapshot timestamp ([None] when it does not parse).  The reasons
    are a data type with one constructor per reason of a decision; the reason
    string of an action, which only goes to the log, is represented by the reason
    of its decision, and log lines are left out. *)

From S2P Require Import Prelude.
From S2P Require Import PyFloat.
From S2P Require Import PyData.
From S2P Require Import ClusterTopology.

(** ** Data *)

Record InstanceSignal := mkSignal {
  sig_role : PSRL_Role;
  model_name : string;
  instance_id : RolloutInstanceId;
  is_awaken : bool;
  kv_cache_utilization : float;
  running_queue_num : Z;
  waiting_queue_num : Z;
  generation_throughput : float;
  total_token_num : Z;
  snapshot_timestamp : option string;
  gpu_keys : option (gset (option string * Z));
}.

Inductive ActionType := scale_up | scale_down.
#[export] Instance action_type_eq_dec : EqDecision ActionType.
Proof. solve_decision. Defined.

Inductive Reason :=
  | policy_disabled | empty_signals | decision_execution_in_progress | cooldown | all_signals_stale
  | force_wake (role : string) (backlog : Z)
  | force_wake_needed_but_no_asleep_candidate (role : string) (backlog : Z)
  | skip_decision_missing_rollout_or_rm_signals
  | trainer_idle_waiting_rollout | trainer_idle_waiting_rollout_but_no_scaleup_candidate
  | trainer_idle_waiting_reward | trainer_idle_waiting_reward_but_no_scaleup_candidate
  | rm_full_free_gpu_scale_up | transfer_rollout_to_rm
  | rollout_full_free_gpu_scale_up | transfer_rm_to_rollout
  | optimize_rollout_to_rm (gain : float) | optimize_rm_to_rollout (gain : float)
  | rollout_low_scale_down | rm_low_scale_down
  | no_action.

Record ScalingAction := mkAction {
  action_type : ActionType;
  act_role : PSRL_Role;
  act_model : string;
  num_instances : Z;
  preferred_instance_ids : list RolloutInstanceId;
  act_reason : Reason;
}.

Record ScalingDecision := mkDecision {
  actions : list ScalingAction;
  reason : Reason;
  estimated_lambda : float;
  role_to_total_mu : list (string * float);
}.

(** [trainer_waiting_hint] with the defaults of its missing keys. *)
Record TrainerHint := mkHint { trainer_busy : bool; waiting_on : string; pending_total : Z }.
Definition no_hint : TrainerHint := mkHint true "none" 0.

(** The policy's settings, as read from the configuration dictionary, and the
    state it keeps between ticks. *)
Record PolicyConfig := mkPolicyConfig {
  cfg_enable_policy : option bool;
  cfg_enable : option bool;
  cfg_theta_low : option float;
  cfg_theta_max : option float;
  cfg_cooldown_ms : option Z;
  cfg_hysteresis : option float;
  cfg_min_awake_per_role : option Z;
  cfg_full_load_mode : option string;
  cfg_max_waiting : option Z;
  cfg_ewma_alpha : option float;
}.

Record ScalingPolicy := mkPolicy {
  enable : bool;
  theta_low : float;
  theta_max : float;
  cooldown_ms : Z;
  hysteresis : float;
  min_awake_per_role : Z;
  full_load_mode : string;
  max_waiting_queue_for_scale_down : Z;
  lambda_ewma_alpha : float;
  last_action_time_ms : float;
  last_total_queue : Z;
  last_lambda_time : float;
  lambda_ewma : float;
}.

Definition with_last_action v (p : ScalingPolicy) :=
  mkPolicy (enable p) (theta_low p) (theta_max p) (cooldown_ms p) (hysteresis p) (min_awake_per_role p) (full_load_mode p)
    (max_waiting_queue_for_scale_down p) (lambda_ewma_alpha p) v (last_total_queue p) (last_lambda_time p) (lambda_ewma p).
Definition with_lambda queue time ewma (p : ScalingPolicy) :=
  mkPolicy (enable p) (theta_low p) (theta_max p) (cooldown_ms p) (hysteresis p) (min_awake_per_role p) (full_load_mode p)
    (max_waiting_queue_for_scale_down p) (lambda_ewma_alpha p) (last_action_time_ms p) queue time ewma.

Definition new_policy (cfg : PolicyConfig) (now : float) : ScalingPolicy :=
  mkPolicy (default (default false (cfg_enable cfg)) (cfg_enable_policy cfg))
    (default (ratio 3 10) (cfg_theta_low cfg)) (default (ratio 85 100) (cfg_theta_max cfg))
    (default 3000 (cfg_cooldown_ms cfg)) (default (ratio 5 100) (cfg_hysteresis cfg))
    (Z.max 0 (default 0 (cfg_min_awake_per_role cfg))) (lower (default "any" (cfg_full_load_mode cfg)))
    (default 0 (cfg_max_waiting cfg)) (default (ratio 2 10) (cfg_ewma_alpha cfg))
    fzero 0 now fzero.

(** ** Throughput estimates *)

(** The fitted parameters of a model's token-throughput file: [None] when there is
    no usable file, [Some None] when its entry lacks one of the three numbers. *)
Record Formula := mkFormula { fit_A : float; fit_B : float; fit_k : float }.

(** One entry of a profile file; the keys of [mu_by_running_queue] are decimal
    numerals. *)
Record MuRow := mkRow { max_running : option Z; max_tokens : option Z; row_throughput : option float; row_mu : option float }.
Record ProfileEntry := mkProfile {
  default_mu : option float;
  mu_by_running_queue : list (Z * float);
  mu_table : list MuRow;
}.

Section policy.
Context (pow : float → float → float).
Context (fsum : list float → float).
Context (formula : string → option (option Formula)).
Context (profile : InstanceSignal → option ProfileEntry).

Definition estimate_mu_by_running_queue (model : string) (queue : float) (fallback : option float) : option float :=
  let queue := fmax queue fzero in
  match formula model with
  | Some (Some f) =>
      let mu := fmul (fit_A f) (fsub fone (pow (fadd (fmul (fit_B f) queue) fone) (fopp (fit_k f)))) in
      Some (fmax mu fzero)
  | _ => (λ m, fmax m fzero) <$> fallback
  end.

Fixpoint lookup_row (rows : list MuRow) (s : InstanceSignal) : option float :=
  match rows with
  | [] => None
  | r :: rows =>
      if bool_decide (running_queue_num s ≤ default (10 ^ 9) (max_running r) ∧ total_token_num s ≤ default (10 ^ 18) (max_tokens r)) then
        match row_throughput r, row_mu r with
        | Some x, _ => Some x
        | None, Some x => Some x
        | None, None => lookup_row rows s
        end
      else lookup_row rows s
  end.

Definition lookup_throughput_from_table (e : ProfileEntry) (s : InstanceSignal) : option float :=
  match default_mu e with
  | Some m => Some m
  | None =>
      match assoc (running_queue_num s) (mu_by_running_queue e) with
      | Some m => Some m
      | None =>
          match list_max (filter (λ k, k ≤ running_queue_num s) (mu_by_running_queue e).*1) with
          | Some k => assoc k (mu_by_running_queue e)
          | None => lookup_row (mu_table e) s
          end
      end
  end.

Definition estimate_instance_mu (s : InstanceSignal) : float :=
  match estimate_mu_by_running_queue (model_name s) (of_Z (running_queue_num s)) None with
  | Some m => m
  | None =>
      match profile s ≫= λ e, lookup_throughput_from_table e s with
      | Some m => fmax fzero m
      | None => fmax fzero (generation_throughput s)
      end
  end.

(** ** Grouping *)

Definition get_role_name (r : PSRL_Role) : string :=
  match r with
  | Actor => "Actor" | Rollout => "Rollout" | ActorRollout => "ActorRollout" | Critic => "Critic" | RefPolicy => "RefPolicy"
  | RewardModel => "RewardModel" | ActorRolloutRef => "ActorRolloutRef" | Validate => "Validate"
  | TeacherModel => "TeacherModel" | DummyPolicy => "DummyPolicy"
  end.

(** [grouped.setdefault(key, []).append(x)] on an insertion-ordered dictionary. *)
Fixpoint append_to {V} (k : string) (v : V) (d : list (string * list V)) : list (string * list V) :=
  match d with
  | [] => [(k, [v])]
  | (k', vs) :: d => if decide (k' = k) then (k', vs ++ [v]) :: d else (k', vs) :: append_to k v d
  end.

Definition group_by_role (signals : list InstanceSignal) : list (string * list InstanceSignal) :=
  foldl (λ d s, append_to (get_role_name (sig_role s)) s d) [] signals.

Definition mu_key : Type := string * string * RolloutInstanceId.
Definition mu_key_of (s : InstanceSignal) : mu_key := (get_role_name (sig_role s), model_name s, instance_id s).

Definition build_mu_maps (signals : list InstanceSignal) : gmap mu_key float * list (string * float) :=
  foldl (λ '(im, rt) s,
    let mu := estimate_instance_mu s in
    let role := get_role_name (sig_role s) in
    (<[mu_key_of s := mu]> im,
     if is_awaken s then dict_set role (fadd (default fzero (assoc role rt)) mu) rt else rt)) (∅, []) signals.

Definition awake (l : list InstanceSignal) : list InstanceSignal := filter (λ s, is_awaken s = true) l.
Definition asleep (l : list InstanceSignal) : list InstanceSignal := filter (λ s, is_awaken s = false) l.

Definition estimate_lambda (signals : list InstanceSignal) (totals : list (string * float)) (now : float) (p : ScalingPolicy) :
    float * ScalingPolicy :=
  let elapsed := fmax (fsub now (last_lambda_time p)) (ratio 1 1000000) in
  let queue := foldr Z.add 0 ((λ s, running_queue_num s + waiting_queue_num s) <$> awake signals) in
  let raw := fmax (fadd (fsum totals.*2) (fdiv (of_Z (queue - last_total_queue p)) elapsed)) fzero in
  let ewma := fadd (fmul (lambda_ewma_alpha p) raw) (fmul (fsub fone (lambda_ewma_alpha p)) (lambda_ewma p)) in
  (ewma, with_lambda queue now ewma p).

(** [x or 0.0] *)
Definition or_zero (x : option float) : float :=
  match x with Some m => if feqb m fzero then fzero else m | None => fzero end.

Section rules.
Context (p : ScalingPolicy) (instance_mu : gmap mu_key float).

Definition mu_of (s : InstanceSignal) : float := default fzero (instance_mu !! mu_key_of s).

Definition total_mu_at (l : list InstanceSignal) (queue : InstanceSignal → float) : float :=
  fsum ((λ s, or_zero (estimate_mu_by_running_queue (model_name s) (queue s) (Some (generation_throughput s)))) <$> l).

(** [_estimate_role_total_mu_with_rebalance] in its three uses. *)
Definition total_mu_now (l : list InstanceSignal) : float :=
  match awake l with [] => fzero | aw => total_mu_at aw (λ s, of_Z (running_queue_num s)) end.

Definition total_mu_scaled_up (l : list InstanceSignal) (up : InstanceSignal) : float :=
  match awake l with
  | [] => fzero
  | aw =>
      let total := fsum ((λ s, of_Z (running_queue_num s + waiting_queue_num s)) <$> aw) in
      let active := aw ++ [up] in
      let avg := fdiv total (of_Z (Z.max (Z.of_nat (length active)) 1)) in
      total_mu_at active (λ _, avg)
  end.

Definition total_mu_scaled_down (l : list InstanceSignal) (down : InstanceSignal) : float :=
  match awake l with
  | [] => fzero
  | aw =>
      let retained := filter (λ s, instance_id s ≠ instance_id down) aw in
      if bool_decide (Z.of_nat (length retained) < min_awake_per_role p) then of_Z (-1)
      else
        let extra := fdiv (of_Z (running_queue_num down)) (of_Z (Z.max (Z.of_nat (length retained)) 1)) in
        total_mu_at retained (λ s, fadd (of_Z (running_queue_num s)) extra)
  end.

Definition pick_scale_down_candidate (l : list InstanceSignal) : option InstanceSignal :=
  let aw := awake l in
  if bool_decide (Z.of_nat (length aw) ≤ min_awake_per_role p) then None
  else head (sort_lt (λ a b, pair_ltb (kv_cache_utilization a, mu_of a) (kv_cache_utilization b, mu_of b))
               (filter (λ s, fleb (kv_cache_utilization s) (theta_low p) = true) aw)).

Definition pick_scale_down_candidate_for_bottleneck_transfer (l : list InstanceSignal) : option InstanceSignal :=
  let aw := awake l in
  if bool_decide (Z.of_nat (length aw) ≤ min_awake_per_role p) then None
  else head (sort_lt (λ a b, pair_ltb (mu_of a, kv_cache_utilization a) (mu_of b, kv_cache_utilization b)) aw).

Definition pick_scale_up_candidate (l : list InstanceSignal) : option InstanceSignal :=
  head (sort_lt (λ a b, fltb (mu_of b) (mu_of a)) (asleep l)).

Definition awake_gpu_keys (l : list InstanceSignal) : gset (option string * Z) :=
  ⋃ ((λ s, default ∅ (gpu_keys s)) <$> awake l).

(** Candidates with an unknown or empty GPU mapping are skipped. *)
Definition on_free_gpu (taken : gset (option string * Z)) (s : InstanceSignal) : bool :=
  match gpu_keys s with Some g => bool_decide (g ≠ ∅ ∧ g ∩ taken = ∅) | None => false end.

Definition pick_scale_up_candidate_on_free_gpu (full_role other_role : list InstanceSignal) : option InstanceSignal :=
  let taken := awake_gpu_keys other_role in
  head (sort_lt (λ a b, fltb (mu_of b) (mu_of a))
    (filter (λ s, on_free_gpu taken s = true) (asleep full_role))).

Definition role_full_load (l : list InstanceSignal) : bool :=
  match awake l with
  | [] => false
  | aw =>
      let test s := fleb (theta_max p) (kv_cache_utilization s) in
      if bool_decide (full_load_mode p = "any") then existsb test aw else forallb test aw
  end.

Definition role_has_low_load (l : list InstanceSignal) : bool :=
  existsb (λ s, fleb (kv_cache_utilization s) (theta_low p)) (awake l).

Definition act (ty : ActionType) (s : InstanceSignal) (r : Reason) : ScalingAction :=
  mkAction ty (sig_role s) (model_name s) 1 [instance_id s] r.

(** Priority 2: candidate transfers with their gain, best first. *)
Definition transfer (before : float) (rollout_mu rm_mu : float) (up : InstanceSignal) (r : float → Reason) :
    list (float * ScalingAction * Reason) :=
  if fleb fzero rollout_mu && fleb fzero rm_mu then
    let gain := fsub (fmin rollout_mu rm_mu) before in [(gain, act scale_up up (r gain), r gain)]
  else [].

Definition transfer_candidates (rollout rm : list InstanceSignal) (rollout_up rm_up : option InstanceSignal) :
    list (float * ScalingAction * Reason) :=
  let before := fmin (total_mu_now rollout) (total_mu_now rm) in
  let both := role_full_load rollout && role_full_load rm in
  let rollout_xfer := if both then pick_scale_down_candidate_for_bottleneck_transfer rollout else None in
  let rm_xfer := if both then pick_scale_down_candidate_for_bottleneck_transfer rm else None in
  match rollout_xfer, rm_up with
  | Some d, Some u => transfer before (total_mu_scaled_down rollout d) (total_mu_scaled_up rm u) u optimize_rollout_to_rm
  | _, _ => []
  end ++
  match rm_xfer, rollout_up with
  | Some d, Some u => transfer before (total_mu_scaled_up rollout u) (total_mu_scaled_down rm d) u optimize_rm_to_rollout
  | _, _ => []
  end.

Definition best_transfer (l : list (float * ScalingAction * Reason)) : option (ScalingAction * Reason) :=
  match sort_lt (λ a b, fltb b.1.1 a.1.1) l with
  | (gain, a, r) :: _ => if fltb (hysteresis p) gain then Some (a, r) else None
  | [] => None
  end.

(** Priority 3: one underloaded side scales itself down. *)
Definition can_self_down (low other_full : bool) (down : option InstanceSignal) : option InstanceSignal :=
  match down with
  | Some d =>
      if low && negb other_full && bool_decide (waiting_queue_num d ≤ max_waiting_queue_for_scale_down p) then Some d else None
  | None => None
  end.

Definition self_down (rollout rm : list InstanceSignal) (rollout_down rm_down : option InstanceSignal) :
    list ScalingAction * Reason :=
  match can_self_down (role_has_low_load rollout) (role_full_load rm) rollout_down with
  | Some d => ([act scale_down d rollout_low_scale_down], rollout_low_scale_down)
  | None =>
      match can_self_down (role_has_low_load rm) (role_full_load rollout) rm_down with
      | Some d => ([act scale_down d rm_low_scale_down], rm_low_scale_down)
      | None => ([], no_action)
      end
  end.

(** Priority 1: one side full; [None] when neither step applies. *)
Definition one_side_full (full other : list InstanceSignal) (up other_down : option InstanceSignal)
    (free_reason cede_reason : Reason) : option (ScalingAction * Reason) :=
  match pick_scale_up_candidate_on_free_gpu full other with
  | Some u => Some (act scale_up u free_reason, free_reason)
  | None =>
      match up, other_down with
      | Some u, Some _ => Some (act scale_up u cede_reason, cede_reason)
      | _, _ => None
      end
  end.

(** The stage an idle trainer waits for: [None] when the branch is not taken. *)
Definition trainer_idle (h : TrainerHint) (rollout_up rm_up : option InstanceSignal) : option (list ScalingAction * Reason) :=
  if negb (trainer_busy h) && bool_decide (0 < pending_total h) then
    if bool_decide (lower (waiting_on h) = "rollout") then
      Some match rollout_up with
           | None => ([], trainer_idle_waiting_rollout_but_no_scaleup_candidate)
           | Some u => ([act scale_up u trainer_idle_waiting_rollout], trainer_idle_waiting_rollout)
           end
    else if bool_decide (lower (waiting_on h) = "reward") then
      Some match rm_up with
           | None => ([], trainer_idle_waiting_reward_but_no_scaleup_candidate)
           | Some u => ([act scale_up u trainer_idle_waiting_reward], trainer_idle_waiting_reward)
           end
    else None
  else None.

Definition make_stepwise_decision (grouped : list (string * list InstanceSignal)) (h : TrainerHint) : list ScalingAction * Reason :=
  let rollout := default [] (assoc "Rollout" grouped) in
  let rm := default [] (assoc "RewardModel" grouped) in
  match rollout, rm with
  | [], _ | _, [] => ([], skip_decision_missing_rollout_or_rm_signals)
  | _, _ =>
      let rollout_full := role_full_load rollout in
      let rm_full := role_full_load rm in
      let rollout_up := pick_scale_up_candidate rollout in
      let rm_up := pick_scale_up_candidate rm in
      let rollout_down := pick_scale_down_candidate rollout in
      let rm_down := pick_scale_down_candidate rm in
      match trainer_idle h rollout_up rm_up with
      | Some d => d
      | None =>
          let p1 :=
            if rm_full && negb rollout_full then
              one_side_full rm rollout rm_up rollout_down rm_full_free_gpu_scale_up transfer_rollout_to_rm
            else if rollout_full && negb rm_full then
              one_side_full rollout rm rollout_up rm_down rollout_full_free_gpu_scale_up transfer_rm_to_rollout
            else None in
          match p1 with
          | Some (a, r) => ([a], r)
          | None =>
              match best_transfer (transfer_candidates rollout rm rollout_up rm_up) with
              | Some (a, r) => ([a], r)
              | None => self_down rollout rm rollout_down rm_down
              end
          end
      end
  end.

(** The loop that wakes a role with backlog and no awake instance. *)
Fixpoint backlog_wake (backlog : gmap string Z) (grouped : list (string * list InstanceSignal)) :
    option (option InstanceSignal * Reason) :=
  match grouped with
  | [] => None
  | (role, l) :: grouped =>
      let n := default 0 (backlog !! role) in
      if bool_decide (awake l ≠ [] ∨ n ≤ 0) then backlog_wake backlog grouped
      else
        match pick_scale_up_candidate l with
        | Some s => Some (Some s, force_wake role n)
        | None => Some (None, force_wake_needed_but_no_asleep_candidate role n)
        end
  end.
End rules.

(** [_is_snapshot_staled] with the timestamp's age. *)
Definition is_snapshot_staled (age : string → option float) (s : InstanceSignal) : bool :=
  match snapshot_timestamp s with
  | None => true
  | Some ts =>
      if bool_decide (ts = "") then true
      else match age ts with Some a => fltb (of_Z 5) a | None => true end
  end.

Definition decide_scaling (signals : list InstanceSignal) (execution_in_progress : bool) (backlog : gmap string Z)
    (h : TrainerHint) (now now_lambda : float) (age : string → option float) (p : ScalingPolicy) :
    ScalingDecision * ScalingPolicy :=
  if negb (enable p) then (mkDecision [] policy_disabled fzero [], p)
  else match signals with
  | [] => (mkDecision [] empty_signals fzero [], p)
  | _ =>
      if execution_in_progress then (mkDecision [] decision_execution_in_progress fzero [], p)
      else
        let now_ms := fmul now (of_Z 1000) in
        if fltb (fsub now_ms (last_action_time_ms p)) (of_Z (cooldown_ms p)) then (mkDecision [] cooldown fzero [], p)
        else
          let grouped := group_by_role signals in
          let '(instance_mu, totals) := build_mu_maps signals in
          let '(lam, p) := estimate_lambda signals totals now_lambda p in
          match backlog_wake instance_mu backlog grouped with
          | Some (Some s, r) => (mkDecision [act scale_up s r] r lam totals, with_last_action now_ms p)
          | Some (None, r) => (mkDecision [] r lam totals, p)
          | None =>
              if forallb (is_snapshot_staled age) signals then (mkDecision [] all_signals_stale fzero [], p)
              else
                let '(acts, r) := make_stepwise_decision p instance_mu grouped h in
                (mkDecision acts r lam totals, match acts with [] => p | _ => with_last_action now_ms p end)
          end
  end.
End policy.

(** ** Grouping by role *)

Lemma get_role_name_inj : Inj (=) (=) get_role_name.
Proof. by intros [] []. Qed.

(** The signals of one role, in order. *)
Definition of_role (r : PSRL_Role) (signals : list InstanceSignal) : list InstanceSignal :=
  filter (λ s, sig_role s = r) signals.

Lemma assoc_append_to {V} k k' (v : V) d :
  assoc k (append_to k' v d) = if decide (k' = k) then Some (default [] (assoc k d) ++ [v]) else assoc k d.
Proof.
  induction d as [|[k0 vs] d IH]; simpl; [by repeat case_decide|].
  destruct (decide (k0 = k')) as [->|]; simpl; [by repeat case_decide|].
  rewrite IH. repeat case_decide; simplify_eq; done.
Qed.

Lemma append_to_nonempty {V} k (v : V) d : Forall (λ p, p.2 ≠ []) d → Forall (λ p, p.2 ≠ []) (append_to k v d).
Proof.
  induction 1 as [|[k0 vs] d Hvs Hd IH]; simpl; [by repeat constructor|].
  case_decide; constructor; simpl; auto. by destruct vs.
Qed.

Lemma group_by_role_app signals s :
  group_by_role (signals ++ [s]) = append_to (get_role_name (sig_role s)) s (group_by_role signals).
Proof. unfold group_by_role. by rewrite foldl_snoc. Qed.

Lemma group_by_role_lookup r signals : default [] (assoc (get_role_name r) (group_by_role signals)) = of_role r signals.
Proof.
  induction signals as [|s signals IH] using rev_ind; [done|].
  rewrite group_by_role_app, assoc_append_to. unfold of_role in *. rewrite filter_app, filter_cons, filter_nil. simpl.
  destruct (decide (sig_role s = r)) as [<-|Hr].
  - rewrite decide_True by done. simpl. by rewrite IH.
  - rewrite decide_False by (by intros ?%get_role_name_inj). by rewrite app_nil_r.
Qed.

Lemma append_to_elem {V} k (v : V) d p :
  p ∈ append_to k v d → p ∈ d ∨ p.1 = k ∧ ∃ vs, p.2 = vs ++ [v] ∧ (vs = [] ∨ (k, vs) ∈ d).
Proof.
  induction d as [|[k0 vs0] d IH]; simpl.
  - intros ->%list_elem_of_singleton. right. split; [done|]. exists []. auto.
  - case_decide as Hk.
    + intros [->|Hin]%elem_of_cons; [|left; set_solver]. right. subst. split; [done|]. exists vs0. set_solver.
    + intros [->|Hin]%elem_of_cons; [left; set_solver|].
      destruct (IH Hin) as [Hp|(Hp & vs & Hvs & Hor)]; [left; by apply elem_of_cons; right|right].
      split; [done|]. exists vs. split; [done|]. destruct Hor; [by left|right; by apply elem_of_cons; right].
Qed.

Lemma group_by_role_elem signals k l :
  (k, l) ∈ group_by_role signals → l ≠ [] ∧ ∀ s, s ∈ l → s ∈ signals ∧ get_role_name (sig_role s) = k.
Proof.
  revert k l. induction signals as [|s signals IH] using rev_ind; intros k l; [intros Hin; by apply not_elem_of_nil in Hin|].
  rewrite group_by_role_app. intros [Hin|(Hk & vs & Hl & Hvs)]%append_to_elem.
  - destruct (IH k l Hin) as [? Hall]. split; [done|]. intros x Hx. destruct (Hall x Hx). set_solver.
  - simpl in *. subst. split; [by destruct vs|].
    intros x [Hx| ->%list_elem_of_singleton]%elem_of_app; [|set_solver].
    destruct Hvs as [->|Hin]; [set_solver|]. destruct (IH _ _ Hin) as [_ Hall]. destruct (Hall x Hx). set_solver.
Qed.

(** ** The candidates *)

Lemma elem_of_awake s l : s ∈ awake l ↔ s ∈ l ∧ is_awaken s = true.
Proof. unfold awake. rewrite list_elem_of_filter. tauto. Qed.
Lemma elem_of_asleep s l : s ∈ asleep l ↔ s ∈ l ∧ is_awaken s = false.
Proof. unfold asleep. rewrite list_elem_of_filter. tauto. Qed.
Lemma elem_of_of_role s r l : s ∈ of_role r l ↔ s ∈ l ∧ sig_role s = r.
Proof. unfold of_role. rewrite list_elem_of_filter. tauto. Qed.

#[export] Hint Rewrite elem_of_awake elem_of_asleep elem_of_of_role : psrl.

Section candidates.
Context (p : ScalingPolicy) (im : gmap mu_key float).

Lemma pick_scale_up_spec l s : pick_scale_up_candidate im l = Some s → s ∈ l ∧ is_awaken s = false.
Proof. intros Hs%head_sort_lt_elem. by apply elem_of_asleep. Qed.

Lemma pick_scale_up_None l : pick_scale_up_candidate im l = None ↔ asleep l = [].
Proof.
  unfold pick_scale_up_candidate. rewrite <-(sort_lt_nil (λ a b, fltb (mu_of im b) (mu_of im a)) (asleep l)).
  by destruct (sort_lt _ _).
Qed.

(** No asleep instance has a larger estimate than the one picked. *)
Lemma pick_scale_up_best l s s' :
  (∀ x, x ∈ asleep l → is_nan (mu_of im x) = false) →
  pick_scale_up_candidate im l = Some s → s' ∈ asleep l → fltb (mu_of im s) (mu_of im s') = false.
Proof. intros Hnan Hs Hs'. by eapply (head_sort_key_rev (mu_of im) (asleep l)). Qed.

Lemma pick_scale_down_spec l s :
  pick_scale_down_candidate p im l = Some s →
  s ∈ l ∧ is_awaken s = true ∧ fleb (kv_cache_utilization s) (theta_low p) = true ∧
  min_awake_per_role p < Z.of_nat (length (awake l)).
Proof.
  unfold pick_scale_down_candidate. case_bool_decide; [done|].
  intros [Hkv Hs%elem_of_awake]%head_sort_lt_elem%list_elem_of_filter. naive_solver lia.
Qed.

Lemma pick_free_gpu_spec l other s :
  pick_scale_up_candidate_on_free_gpu im l other = Some s →
  s ∈ l ∧ is_awaken s = false ∧ ∃ g, gpu_keys s = Some g ∧ g ≠ ∅ ∧
    ∀ o og, o ∈ other → is_awaken o = true → gpu_keys o = Some og → g ## og.
Proof.
  unfold pick_scale_up_candidate_on_free_gpu. intros [Hfree Hs%elem_of_asleep]%head_sort_lt_elem%list_elem_of_filter.
  unfold on_free_gpu in Hfree. destruct (gpu_keys s) as [g|] eqn:E; [|done]. apply bool_decide_eq_true in Hfree as [Hne Hdis].
  split_and!; [naive_solver..|]. exists g. split_and!; [done..|]. intros o og Ho Haw Hog.
  assert (og ⊆ awake_gpu_keys other).
  { intros x Hx. unfold awake_gpu_keys. apply elem_of_union_list. exists og. split; [|done].
    apply list_elem_of_fmap. exists o. rewrite Hog. split; [done|]. by apply elem_of_awake. }
  set_solver.
Qed.
End candidates.

(** ** One decision *)

(** What may be done to an instance: [other] is the other role's signals. *)
Definition admissible_action (p : ScalingPolicy) (signals : list InstanceSignal) (a : ScalingAction) : Prop :=
  ∃ s, s ∈ signals ∧ act_role a = sig_role s ∧ act_model a = model_name s ∧ preferred_instance_ids a = [instance_id s] ∧
    num_instances a = 1 ∧
    match action_type a with
    | scale_up => is_awaken s = false
    | scale_down =>
        is_awaken s = true ∧ fleb (kv_cache_utilization s) (theta_low p) = true ∧
        waiting_queue_num s ≤ max_waiting_queue_for_scale_down p ∧
        min_awake_per_role p < Z.of_nat (length (awake (of_role (sig_role s) signals))) ∧
        ∃ r, r ≠ sig_role s ∧ (r = Rollout ∨ r = RewardModel) ∧ role_full_load p (of_role r signals) = false
    end.

Section decision.
Context (pow : float → float → float) (fsum : list float → float).
Context (formula : string → option (option Formula)).
Context (p : ScalingPolicy) (im : gmap mu_key float).

Lemma admissible_up signals s r : s ∈ signals → is_awaken s = false → admissible_action p signals (act scale_up s r).
Proof. intros ??. by exists s. Qed.

Lemma best_transfer_elem l a r : best_transfer p l = Some (a, r) → ∃ gain, (gain, a, r) ∈ l ∧ fltb (hysteresis p) gain = true.
Proof.
  unfold best_transfer. destruct (sort_lt _ l) as [|[[gain a'] r'] l'] eqn:E; [done|].
  case_match; [|done]. intros [= -> ->]. exists gain. split; [|done].
  eapply (elem_of_sort_lt (λ a b, fltb b.1.1 a.1.1)). rewrite E. set_solver.
Qed.

Lemma transfer_candidates_spec rollout rm rollout_up rm_up gain a r :
  (gain, a, r) ∈ transfer_candidates pow fsum formula p im rollout rm rollout_up rm_up →
  role_full_load p rollout = true ∧ role_full_load p rm = true ∧
  ∃ u, (rm_up = Some u ∨ rollout_up = Some u) ∧ a = act scale_up u r ∧
    (r = optimize_rollout_to_rm gain ∨ r = optimize_rm_to_rollout gain).
Proof.
  unfold transfer_candidates, transfer. rewrite elem_of_app.
  destruct (role_full_load p rollout), (role_full_load p rm); simpl;
    try (intros [Hin|Hin]; by apply not_elem_of_nil in Hin).
  intros [Hin|Hin]; repeat case_match; simplify_eq; try (by apply not_elem_of_nil in Hin);
    apply list_elem_of_singleton in Hin; simplify_eq; (split_and!; [done..|]); eauto 8.
Qed.

Lemma can_self_down_spec low full down d :
  can_self_down p low full down = Some d →
  down = Some d ∧ full = false ∧ waiting_queue_num d ≤ max_waiting_queue_for_scale_down p.
Proof.
  unfold can_self_down. destruct down as [d'|]; [|done]. destruct low, full; simpl; try done.
  case_bool_decide; [|done]. naive_solver.
Qed.

Lemma self_down_spec signals a acts r :
  self_down p (of_role Rollout signals) (of_role RewardModel signals)
    (pick_scale_down_candidate p im (of_role Rollout signals))
    (pick_scale_down_candidate p im (of_role RewardModel signals)) = (acts, r) →
  a ∈ acts → acts = [a] ∧ admissible_action p signals a.
Proof.
  unfold self_down.
  assert (∀ r other d reason, r ≠ other → other = Rollout ∨ other = RewardModel →
    can_self_down p (role_has_low_load p (of_role r signals)) (role_full_load p (of_role other signals))
      (pick_scale_down_candidate p im (of_role r signals)) = Some d →
    admissible_action p signals (act scale_down d reason)) as Hdown.
  { intros r' other d reason' Hne Hor (Hd & Hfull & Hw)%can_self_down_spec.
    apply pick_scale_down_spec in Hd as ([Hs Hrole]%elem_of_of_role & ? & ? & ?).
    exists d. simpl. rewrite Hrole. split_and!; try done. by exists other. }
  destruct (can_self_down _ _ _ _) as [d|] eqn:E.
  { intros [= <- <-] ->%list_elem_of_singleton. split; [done|]. eapply (Hdown Rollout RewardModel); [done|auto|exact E]. }
  clear E. destruct (can_self_down _ _ _ _) as [d|] eqn:E; intros [= <- <-].
  - intros ->%list_elem_of_singleton. split; [done|]. eapply (Hdown RewardModel Rollout); [done|auto|exact E].
  - intros Hin. by apply not_elem_of_nil in Hin.
Qed.

Lemma stepwise_spec signals h acts r a :
  make_stepwise_decision pow fsum formula p im (group_by_role signals) h = (acts, r) →
  a ∈ acts → acts = [a] ∧ admissible_action p signals a.
Proof.
  unfold make_stepwise_decision.
  pose proof (group_by_role_lookup Rollout signals) as E1. pose proof (group_by_role_lookup RewardModel signals) as E2.
  cbn [get_role_name] in E1, E2. rewrite E1, E2. clear E1 E2.
  destruct (of_role Rollout signals) as [|r0 rs] eqn:ER; [intros [= <- <-] Hin; by apply not_elem_of_nil in Hin|].
  destruct (of_role RewardModel signals) as [|m0 ms] eqn:EM; [intros [= <- <-] Hin; by apply not_elem_of_nil in Hin|].
  rewrite <-ER, <-EM.
  set (rollout := of_role Rollout signals). set (rm := of_role RewardModel signals).
  assert (∀ s, s ∈ rollout → s ∈ signals) as HR by (intros s [? _]%elem_of_of_role; done).
  assert (∀ s, s ∈ rm → s ∈ signals) as HM by (intros s [? _]%elem_of_of_role; done).
  assert (∀ l s r, (∀ x, x ∈ l → x ∈ signals) → pick_scale_up_candidate im l = Some s → admissible_action p signals (act scale_up s r)) as Hup.
  { intros l s r' Hl [??]%pick_scale_up_spec. apply admissible_up; auto. }
  assert (∀ l o s r, (∀ x, x ∈ l → x ∈ signals) → pick_scale_up_candidate_on_free_gpu im l o = Some s → admissible_action p signals (act scale_up s r)) as Hfree.
  { intros l o s r' Hl (? & ? & _)%pick_free_gpu_spec. apply admissible_up; auto. }
  destruct (trainer_idle h _ _) as [d|] eqn:Etr.
  { intros -> Hin. unfold trainer_idle in Etr. repeat case_match; simplify_eq; try (by apply not_elem_of_nil in Hin);
      apply list_elem_of_singleton in Hin as ->; eauto. }
  match goal with |- match ?x with _ => _ end = _ → _ => destruct x as [[a' r']|] eqn:Ep1 end.
  { intros [= <- <-] ->%list_elem_of_singleton. split; [done|]. unfold one_side_full in Ep1.
    repeat case_match; simplify_eq; eauto. }
  destruct (best_transfer _ _) as [[a' r']|] eqn:Eb.
  { intros [= <- <-] ->%list_elem_of_singleton. split; [done|].
    apply best_transfer_elem in Eb as (gain & (_ & _ & u & Hu & -> & _)%transfer_candidates_spec & _).
    destruct Hu; eauto. }
  apply self_down_spec.
Qed.
End decision.

Lemma append_to_keys {V} k k' (v : V) d : k' ∈ (append_to k v d).*1 → k' = k ∨ k' ∈ d.*1.
Proof. induction d as [|[k0 v0] d IH]; simpl; [set_solver|]. case_decide; simpl; set_solver. Qed.

Lemma append_to_NoDup {V} k (v : V) d : NoDup d.*1 → NoDup (append_to k v d).*1.
Proof.
  induction d as [|[k0 v0] d IH]; simpl; [intros; apply NoDup_singleton|]. intros [Hk0 Hnd]%NoDup_cons.
  case_decide as Hk; simpl; constructor; auto. intros [->|?]%append_to_keys; done.
Qed.

Lemma group_by_role_NoDup signals : NoDup (group_by_role signals).*1.
Proof.
  induction signals as [|s signals IH] using rev_ind; [constructor|]. rewrite group_by_role_app. by apply append_to_NoDup.
Qed.

(** ** Whole ticks *)

Section ticks.
Context (pow : float → float → float) (fsum : list float → float).
Context (formula : string → option (option Formula)) (profile : InstanceSignal → option ProfileEntry).

Abbreviation tick := (decide_scaling pow fsum formula profile).

Lemma admissible_with_lambda q t e p signals a :
  admissible_action (with_lambda q t e p) signals a → admissible_action p signals a.
Proof.
  intros (s & Hs). exists s. unfold role_full_load in *. done.
Qed.

Lemma backlog_wake_spec im backlog signals o r :
  backlog_wake im backlog (group_by_role signals) = Some (o, r) →
  ∃ s role, o = Some s ∧ s ∈ signals ∧ is_awaken s = false ∧ get_role_name (sig_role s) = role ∧
    0 < default 0 (backlog !! role) ∧ r = force_wake role (default 0 (backlog !! role)) ∧
    awake (of_role (sig_role s) signals) = [].
Proof.
  assert (∀ role l, (role, l) ∈ group_by_role signals →
    l ≠ [] ∧ (∀ s, s ∈ l → s ∈ signals ∧ get_role_name (sig_role s) = role) ∧
    ∀ s, s ∈ l → l = of_role (sig_role s) signals) as Hg.
  { intros role l Hin. destruct (group_by_role_elem _ _ _ Hin) as [Hne Hall]. split_and!; [done..|].
    intros s Hs. destruct (Hall s Hs) as [_ <-]. rewrite <-group_by_role_lookup.
    by rewrite (assoc_elem _ l) by (done || apply group_by_role_NoDup). }
  revert Hg. induction (group_by_role signals) as [|[role l] d IH]; intros Hg; simpl; [done|].
  case_bool_decide as Hc; [apply IH; set_solver|].
  destruct (Hg role l) as (Hne & Hall & Hof); [set_solver|].
  assert (awake l = []) as Haw by (destruct (awake l); [done|naive_solver]).
  destruct (pick_scale_up_candidate im l) as [s|] eqn:E; intros [= <- <-].
  - apply pick_scale_up_spec in E as [Hs Hsl]. destruct (Hall s Hs) as [Hin Hrole].
    exists s, role. split_and!; try done; [lia|]. by rewrite <-(Hof s Hs).
  - apply pick_scale_up_None in E. destruct l as [|s l]; [done|]. unfold awake, asleep in *.
    rewrite filter_cons in Haw, E. destruct (is_awaken s) eqn:Es; simpl in *; by repeat case_decide.
Qed.

(** The ways a tick ends. *)
Lemma tick_cases signals busy backlog h now nl age p d p' :
  tick signals busy backlog h now nl age p = (d, p') →
  actions d = [] ∧ last_action_time_ms p' = last_action_time_ms p ∧ cooldown_ms p' = cooldown_ms p ∨
  enable p = true ∧ busy = false ∧ fltb (fsub (fmul now (of_Z 1000)) (last_action_time_ms p)) (of_Z (cooldown_ms p)) = false ∧
  last_action_time_ms p' = fmul now (of_Z 1000) ∧ cooldown_ms p' = cooldown_ms p ∧
  ∃ a, actions d = [a] ∧ admissible_action p signals a.
Proof.
  unfold decide_scaling. destruct (enable p); simpl; [|intros [= <- <-]; by left].
  destruct signals as [|s0 signals']; [intros [= <- <-]; by left|]. set (signals := s0 :: signals').
  destruct busy; [intros [= <- <-]; by left|].
  destruct (fltb _ _) eqn:Ecool; [intros [= <- <-]; by left|].
  destruct (build_mu_maps _ _ _ signals) as [im totals]. unfold estimate_lambda. cbv zeta.
  destruct (backlog_wake im backlog (group_by_role signals)) as [[o r]|] eqn:Eb.
  { apply backlog_wake_spec in Eb as (s & role & -> & Hs & Hasl & _). intros [= <- <-]. right. split_and!; try done.
    eexists. split; [done|]. by apply admissible_up. }
  destruct (forallb _ signals); [intros [= <- <-]; by left|].
  destruct (make_stepwise_decision _ _ _ _ _ _ _) as [acts r] eqn:Es. intros [= <- <-]. simpl.
  destruct acts as [|a acts]; [by left|]. right. split_and!; try done.
  edestruct (stepwise_spec pow fsum formula) as [Ha Hadm]; [exact Es|by apply elem_of_cons; left|]. exists a. split; [done|].
  by eapply admissible_with_lambda.
Qed.

(** A tick of the policy answers at most one action, for one instance of the
    signals: it wakes an instance that is asleep, or puts to sleep an awake one
    whose KV-cache use is at most [theta_low], whose waiting queue is within the
    limit, whose role keeps at least [min_awake_per_role] awake instances and
    while the other role is not at full load. *)
Theorem decision_sound (signals : list InstanceSignal) (busy : bool) (backlog : gmap string Z) (h : TrainerHint)
    (now now_lambda : float) (age : string → option float) (p : ScalingPolicy) :
  (length (actions (tick signals busy backlog h now now_lambda age p).1) ≤ 1)%nat ∧
  Forall (admissible_action p signals) (actions (tick signals busy backlog h now now_lambda age p).1).
Proof.
  destruct (tick signals busy backlog h now now_lambda age p) as [d p'] eqn:E. simpl.
  destruct (tick_cases _ _ _ _ _ _ _ _ _ _ E) as [(-> & _)|(_ & _ & _ & _ & _ & a & -> & Ha)]; simpl; split; try lia; by repeat constructor.
Qed.

(** C40: With scaling enabled, outside the cooldown and with no decision of the policy
    being executed: when some role has requests waiting in its router and no awake
    instance, the tick decides on exactly one scale-up, of a sleeping instance of that
    role or of another role in the same situation, even when every snapshot is stale,
    and starts the cooldown; the branch for a missing candidate cannot be reached.
    (What is stated is the decision; the executor carries it out.) *)
Theorem backlog_wakes_role (signals : list InstanceSignal) (backlog : gmap string Z) (h : TrainerHint)
    (now now_lambda : float) (age : string → option float) (p : ScalingPolicy) (s : InstanceSignal) :
  enable p = true →
  fltb (fsub (fmul now (of_Z 1000)) (last_action_time_ms p)) (of_Z (cooldown_ms p)) = false →
  s ∈ signals → awake (of_role (sig_role s) signals) = [] → 0 < default 0 (backlog !! get_role_name (sig_role s)) →
  ∃ w, actions (tick signals false backlog h now now_lambda age p).1 =
         [act scale_up w (reason (tick signals false backlog h now now_lambda age p).1)] ∧
    w ∈ signals ∧ is_awaken w = false ∧ awake (of_role (sig_role w) signals) = [] ∧
    0 < default 0 (backlog !! get_role_name (sig_role w)) ∧
    last_action_time_ms (tick signals false backlog h now now_lambda age p).2 = fmul now (of_Z 1000).
Proof.
  intros Hen Hcool Hs Haw Hb. unfold decide_scaling. rewrite Hen, Hcool. cbn [negb].
  destruct signals as [|s0 signals']; [by apply not_elem_of_nil in Hs|]. set (signals := s0 :: signals') in *.
  destruct (build_mu_maps _ _ _ signals) as [im totals]. unfold estimate_lambda. cbv zeta.
  destruct (backlog_wake im backlog (group_by_role signals)) as [[o r]|] eqn:Eb.
  { apply backlog_wake_spec in Eb as (w & role & -> & Hw & Hasl & <- & Hpos & -> & Haww). by exists w. }
  exfalso. pose proof (group_by_role_lookup (sig_role s) signals) as Hg.
  assert (of_role (sig_role s) signals ≠ []) as Hne.
  { intros E. assert (s ∈ of_role (sig_role s) signals) as Hin by (by apply elem_of_of_role). rewrite E in Hin. by apply not_elem_of_nil in Hin. }
  clear Hs. induction (group_by_role signals) as [|[k l] d IH]; simpl in *; [by rewrite <-Hg in Hne|].
  case_bool_decide as Hc; [|by destruct (pick_scale_up_candidate im l)]. apply IH; [done|].
  destruct (decide (k = get_role_name (sig_role s))) as [->|]; [|done]. simpl in Hg. subst l. destruct Hc; [done|lia].
Qed.

(** ** Sequences of ticks *)

Record tick_input := mkTick {
  tick_signals : list InstanceSignal; tick_busy : bool; tick_backlog : gmap string Z; tick_hint : TrainerHint;
  tick_now : float; tick_now_lambda : float; tick_age : string → option float;
}.

(** The times, in milliseconds, of the ticks that acted. *)
Fixpoint acting_times (ticks : list tick_input) (p : ScalingPolicy) : list float :=
  match ticks with
  | [] => []
  | i :: ticks =>
      let '(d, p') := tick (tick_signals i) (tick_busy i) (tick_backlog i) (tick_hint i) (tick_now i) (tick_now_lambda i) (tick_age i) p in
      (match actions d with [] => [] | _ => [fmul (tick_now i) (of_Z 1000)] end) ++ acting_times ticks p'
  end.

Definition spaced (c : float) (t0 : float) (times : list float) : Prop :=
  ∀ i a b, (t0 :: times) !! i = Some a → times !! i = Some b → fltb (fsub b a) c = false.

(** In any sequence of ticks, two consecutive ticks that act (and the first one
    and the initial time) are at least the cooldown apart, by the float
    difference the policy computes. *)
Theorem acting_times_spaced (ticks : list tick_input) (p : ScalingPolicy) :
  spaced (of_Z (cooldown_ms p)) (last_action_time_ms p) (acting_times ticks p).
Proof.
  revert p. induction ticks as [|i ticks IH]; intros p; simpl; [intros [|]; done|].
  destruct (tick _ _ _ _ _ _ _ p) as [d p'] eqn:E.
  destruct (tick_cases _ _ _ _ _ _ _ _ _ _ E) as [(-> & Hl & Hc)|(_ & _ & Hcool & Hl & Hc & a & -> & _)]; simpl.
  - rewrite <-Hl, <-Hc. apply IH.
  - intros [|j] x y Hx Hy; simpl in *; simplify_eq; [done|]. specialize (IH p'). rewrite Hl, Hc in IH. by apply (IH j).
Qed.

(** The action of a free-GPU decision. *)
Definition free_gpu_action (signals : list InstanceSignal) (full other : PSRL_Role) (r : Reason) (acts : list ScalingAction) : Prop :=
  ∃ s g, acts = [act scale_up s r] ∧ s ∈ signals ∧ sig_role s = full ∧ is_awaken s = false ∧ gpu_keys s = Some g ∧ g ≠ ∅ ∧
    ∀ o og, o ∈ signals → sig_role o = other → is_awaken o = true → gpu_keys o = Some og → g ## og.

Lemma one_side_full_free im signals r other up down free cede a rr :
  free ≠ cede → one_side_full im (of_role r signals) (of_role other signals) up down free cede = Some (a, rr) →
  rr = free → free_gpu_action signals r other free [a].
Proof.
  unfold one_side_full. intros Hne. destruct (pick_scale_up_candidate_on_free_gpu _ _ _) as [s|] eqn:E; last first.
  { destruct up, down; simpl; intros; simplify_eq. }
  intros [= <- <-] _. apply pick_free_gpu_spec in E as ([Hs Hr]%elem_of_of_role & Hasl & g & Hg & Hgne & Hdis).
  exists s, g. split_and!; try done. intros o og Ho Hro. apply Hdis. by apply elem_of_of_role.
Qed.

(** Neither priority 2 nor priority 3 gives a free-GPU reason. *)
Lemma later_priority_reason p im rollout rm ru mu rd md acts r :
  match best_transfer p (transfer_candidates pow fsum formula p im rollout rm ru mu) with
  | Some (a, r) => ([a], r)
  | None => self_down p rollout rm rd md
  end = (acts, r) →
  r ≠ rm_full_free_gpu_scale_up ∧ r ≠ rollout_full_free_gpu_scale_up.
Proof.
  destruct (best_transfer _ _) as [[a r']|] eqn:E.
  - apply best_transfer_elem in E as (gain & (_ & _ & u & _ & _ & [-> | ->])%transfer_candidates_spec & _);
      intros Eq; simplify_eq; done.
  - unfold self_down. intros Eq. repeat case_match; simplify_eq; done.
Qed.

Lemma stepwise_free p im signals h acts r :
  make_stepwise_decision pow fsum formula p im (group_by_role signals) h = (acts, r) →
  (r = rm_full_free_gpu_scale_up → free_gpu_action signals RewardModel Rollout r acts) ∧
  (r = rollout_full_free_gpu_scale_up → free_gpu_action signals Rollout RewardModel r acts).
Proof.
  unfold make_stepwise_decision.
  pose proof (group_by_role_lookup Rollout signals) as E1. pose proof (group_by_role_lookup RewardModel signals) as E2.
  cbn [get_role_name] in E1, E2. rewrite E1, E2. clear E1 E2.
  destruct (of_role Rollout signals) as [|r0 rs] eqn:ER; [by intros [= <- <-]|].
  destruct (of_role RewardModel signals) as [|m0 ms] eqn:EM; [by intros [= <- <-]|]. rewrite <-ER, <-EM.
  destruct (trainer_idle h _ _) as [d|] eqn:Etr.
  { intros ->. unfold trainer_idle in Etr. split; intros ->; repeat case_match; simplify_eq. }
  match goal with |- match ?x with _ => _ end = _ → _ => destruct x as [[a r']|] eqn:Ep end; last first.
  { intros [??]%later_priority_reason. done. }
  intros [= <- <-].
  destruct (role_full_load p (of_role RewardModel signals)), (role_full_load p (of_role Rollout signals)); simpl in Ep; try done.
  - split; intros ->; [by eapply one_side_full_free in Ep|]. unfold one_side_full in Ep. repeat case_match; simplify_eq.
  - split; intros ->; [|by eapply one_side_full_free in Ep]. unfold one_side_full in Ep. repeat case_match; simplify_eq.
Qed.

(** When the policy scales a full role up on a free GPU, the instance it names is
    asleep, has a known GPU placement, and shares no GPU with an awake instance of
    the other role. *)
Theorem free_gpu_scale_up_disjoint (signals : list InstanceSignal) (busy : bool) (backlog : gmap string Z) (h : TrainerHint)
    (now now_lambda : float) (age : string → option float) (p : ScalingPolicy) :
  let d := (tick signals busy backlog h now now_lambda age p).1 in
  (reason d = rm_full_free_gpu_scale_up → free_gpu_action signals RewardModel Rollout (reason d) (actions d)) ∧
  (reason d = rollout_full_free_gpu_scale_up → free_gpu_action signals Rollout RewardModel (reason d) (actions d)).
Proof.
  unfold decide_scaling. destruct (enable p); simpl; [|done]. destruct signals as [|s0 signals']; [done|].
  set (signals := s0 :: signals'). destruct busy; [done|]. destruct (fltb _ _); [done|].
  destruct (build_mu_maps _ _ _ signals) as [im totals]. unfold estimate_lambda. cbv zeta.
  destruct (backlog_wake im backlog (group_by_role signals)) as [[o r]|] eqn:Eb.
  { apply backlog_wake_spec in Eb as (s & role & -> & _ & _ & _ & _ & -> & _). done. }
  destruct (forallb _ signals); [done|].
  destruct (make_stepwise_decision _ _ _ _ _ _ _) as [acts r] eqn:Es. simpl. by eapply stepwise_free.
Qed.
End ticks.

(** ** Concrete ticks

    One awake rollout instance with little load, a reward model at full load and
    a second reward-model instance asleep on a GPU of its own. *)
Definition demo_pow (x y : float) : float := fone.
Definition demo_sum (l : list float) : float := foldl fadd fzero l.
Definition demo_signal (r : PSRL_Role) (m : string) (i : RolloutInstanceId) (aw : bool) (kv : float) (gpu : Z) : InstanceSignal :=
  mkSignal r m i aw kv 2 0 (of_Z 10) 100 (Some "2026-01-01T00:00:00") (Some {[(Some "n0", gpu)]}).
Definition demo_signals : list InstanceSignal :=
  [demo_signal Rollout "policy" ("r0", 0) true (ratio 1 10) 0;
   demo_signal Rollout "policy" ("r1", 0) true (ratio 2 10) 1;
   demo_signal RewardModel "rm" ("w0", 0) true (ratio 9 10) 2;
   demo_signal RewardModel "rm" ("w1", 0) false fzero 3].
Definition demo_policy : ScalingPolicy :=
  new_policy (mkPolicyConfig (Some true) None None None None None (Some 1) None None None) fzero.
Definition demo_tick (signals : list InstanceSignal) (backlog : gmap string Z) (now : float) (p : ScalingPolicy) :=
  decide_scaling demo_pow demo_sum (λ _, None) (λ _, None) signals false backlog no_hint now now (λ _, Some fone) p.

Example demo_free_gpu :
  actions (demo_tick demo_signals ∅ (of_Z 100) demo_policy).1 =
    [mkAction scale_up RewardModel "rm" 1 [("w1", 0)] rm_full_free_gpu_scale_up].
Proof. by vm_compute. Qed.

Example demo_low_load :
  actions (demo_tick (take 2 demo_signals ++ [demo_signal RewardModel "rm" ("w0", 0) true (ratio 5 10) 2]) ∅ (of_Z 100) demo_policy).1 =
    [mkAction scale_down Rollout "policy" 1 [("r0", 0)] rollout_low_scale_down].
Proof. by vm_compute. Qed.

Example demo_cooldown :
  reason (demo_tick demo_signals ∅ (of_Z 101) (demo_tick demo_signals ∅ (of_Z 100) demo_policy).2).1 = cooldown.
Proof. by vm_compute. Qed.

Lemma free_gpu_scale_up_disjoint_witness :
  let d := (demo_tick demo_signals ∅ (of_Z 100) demo_policy).1 in
  reason d = rm_full_free_gpu_scale_up ∧ free_gpu_action demo_signals RewardModel Rollout (reason d) (actions d).
Proof.
  intros d. assert (reason d = rm_full_free_gpu_scale_up) as E by by vm_compute. split; [exact E|].
  apply (free_gpu_scale_up_disjoint demo_pow demo_sum (λ _, None) (λ _, None) demo_signals false ∅ no_hint (of_Z 100)
    (of_Z 100) (λ _, Some fone) demo_policy). exact E.
Defined.

(** Every reward-model instance asleep, requests waiting for it. *)
Definition demo_starved : list InstanceSignal :=
  take 2 demo_signals ++ [demo_signal RewardModel "rm" ("w0", 0) false fzero 2; demo_signal RewardModel "rm" ("w1", 0) false fzero 3].

Lemma backlog_wakes_role_witness :
  ∃ w, actions (demo_tick demo_starved {["RewardModel" := 4]} (of_Z 100) demo_policy).1 =
         [act scale_up w (reason (demo_tick demo_starved {["RewardModel" := 4]} (of_Z 100) demo_policy).1)] ∧
       is_awaken w = false.
Proof.
  destruct (backlog_wakes_role demo_pow demo_sum (λ _, None) (λ _, None) demo_starved {["RewardModel" := 4]} no_hint (of_Z 100)
    (of_Z 100) (λ _, Some fone) demo_policy (demo_signal RewardModel "rm" ("w0", 0) false fzero 2)) as (w & Hact & _ & Hasl & _).
  - reflexivity.
  - by vm_compute.
  - unfold demo_starved. apply elem_of_app. right. apply elem_of_cons. by left.
  - by vm_compute.
  - by vm_compute.
  - exists w. exact (conj Hact Hasl).
Defined.
