(* ===== verification/CommandLoop.v ===== *)
(** * Commands to the rollout coordinator

    psrl/utils/server/command.py: [CommandExtension] queues commands for a
    background loop and hands their results back to the callers; and
    psrl/workers/gen/rollout_coordination/command_loop.py with the routing helper
    of base.py: the loop that executes ABORT, SYNC, SLEEP and WAKE_UP.

    [exec_command] suspends once, on the event of its command, so it is two
    atomic parts, [exec_begin] and [exec_end]; [success] is what the wait
    answered.  An event that has been removed from the dictionary is still held
    by its waiter, so the events that were set are kept apart ([fired]).  Remote
    calls are recorded in [calls] in the order they are started; the answers of
    servers and gateway are arguments. *)

From S2P Require Import Prelude.
From S2P Require Import ClusterTopology.

(** ** Data *)

(** The arguments of a command; uids are request ids. *)
Inductive Command :=
  | ABORT (instance_to_uids : option (list (RolloutInstanceId * list Z))) (instance_ids : option (list RolloutInstanceId))
  | SYNC (instance_ids : list RolloutInstanceId) (curr_ps_model_version : option Z) (wait_model_sync : bool)
  | SLEEP (instance_ids : list RolloutInstanceId)
  | WAKE_UP (instance_ids : list RolloutInstanceId)
  | OTHER.

(** The result of a command: Python's [None] or the number ABORT reports. *)
Abbreviation CommandResult := (option Z).

Inductive RemoteCall :=
  | abort_requests (replica : string) (uids : gset Z)
  | abort_all_requests (replica : string)
  | is_sleeping (replica : string)
  | sync_with_ps (replica : string) (version : Z)
  | nixl_sleep (replica : string)
  | nixl_wake_up (replica : string)
  | routing_pause
  | routing_resume.

#[export] Instance call_eq_dec : EqDecision RemoteCall.
Proof. solve_decision. Defined.

Record CommandExtension := mkExt {
  command_results : gmap Z CommandResult;
  command_events : gset Z;
  fired : gset Z;
  command_counter : Z;
  command_queue : list (Z * Command);
  server_handles : gset string;
  calls : list RemoteCall;
}.

Definition with_results v (e : CommandExtension) := mkExt v (command_events e) (fired e) (command_counter e) (command_queue e) (server_handles e) (calls e).
Definition with_events v (e : CommandExtension) := mkExt (command_results e) v (fired e) (command_counter e) (command_queue e) (server_handles e) (calls e).
Definition with_fired v (e : CommandExtension) := mkExt (command_results e) (command_events e) v (command_counter e) (command_queue e) (server_handles e) (calls e).
Definition with_counter v (e : CommandExtension) := mkExt (command_results e) (command_events e) (fired e) v (command_queue e) (server_handles e) (calls e).
Definition with_queue v (e : CommandExtension) := mkExt (command_results e) (command_events e) (fired e) (command_counter e) v (server_handles e) (calls e).
Definition with_calls v (e : CommandExtension) := mkExt (command_results e) (command_events e) (fired e) (command_counter e) (command_queue e) (server_handles e) v.

Definition new_extension (handles : gset string) : CommandExtension := mkExt ∅ ∅ ∅ 0 [] handles [].

Abbreviation Cmd := (M CommandExtension).

(** ** Callers *)

Definition exec_begin (c : Command) : Cmd Z :=
  i ← gets command_counter;
  modify (with_counter (i + 1)) ;;
  modify (λ e, with_events ({[i]} ∪ command_events e) e) ;;
  modify (λ e, with_results (<[i := None]> (command_results e)) e) ;;
  modify (λ e, with_queue (command_queue e ++ [(i, c)]) e) ;;
  mret i.

Definition forget (i : Z) : Cmd unit :=
  modify (λ e, with_results (delete i (command_results e)) e) ;;
  modify (λ e, with_events (command_events e ∖ {[i]}) e).

Definition exec_end (i : Z) (success : bool) : Cmd CommandResult :=
  if success then
    r ← gets (λ e, command_results e !! i);
    forget i ;;
    mret (default None r)
  else forget i ;; mret None.

(** The second half of [synchronize_command]; the assertion is its first half. *)
Definition synchronize_begin (i : Z) : Cmd unit :=
  e ← gets id; assert (bool_decide (i ∈ command_events e)).

Definition synchronize_end (i : Z) (success : bool) : Cmd CommandResult :=
  if success then
    r ← gets (λ e, command_results e !! i);
    forget i ;;
    mret (default None r)
  else mret None.

Definition complete_command (i : Z) (r : CommandResult) : Cmd unit :=
  e ← gets id;
  if bool_decide (is_Some (command_results e !! i)) then
    modify (λ e, with_results (<[i := r]> (command_results e)) e) ;;
    if bool_decide (i ∈ command_events e) then modify (λ e, with_fired ({[i]} ∪ fired e) e) else mret tt
  else raise ValueError.

(** ** The command loop *)

(** The gateway's answer to a pause or resume request. *)
Record GatewayReply := mkReply { paused : option bool; selecting : bool; active_dispatch_handoffs : Z }.

(** The answers that make the coordinator raise. *)
Definition routing_refused (running : bool) (g : GatewayReply) : bool :=
  match paused g with Some b => bool_decide (b ≠ negb running) | None => false end
  || negb running && (selecting g || bool_decide (active_dispatch_handoffs g ≠ 0)).

Definition set_routing_loop_running (running : bool) (g : GatewayReply) : Cmd unit :=
  modify (λ e, with_calls (calls e ++ [if running then routing_resume else routing_pause]) e) ;;
  if routing_refused running g then raise RuntimeError else mret tt.

(** A call on the handle of a replica: [KeyError] when there is none. *)
Definition remote (replica : string) (c : RemoteCall) : Cmd unit :=
  e ← gets id;
  if bool_decide (replica ∈ server_handles e) then modify (λ e, with_calls (calls e ++ [c]) e) else raise KeyError.

(** [replica_to_uids.setdefault(replica_id, set()).update(uids)] *)
Fixpoint merge_uids (replica : string) (uids : gset Z) (d : list (string * gset Z)) : list (string * gset Z) :=
  match d with
  | [] => [(replica, uids)]
  | (r, us) :: d => if decide (r = replica) then (r, us ∪ uids) :: d else (r, us) :: merge_uids replica uids d
  end.

Definition replica_uids (m : list (RolloutInstanceId * list Z)) : list (string * gset Z) :=
  foldl (λ d '(inst, uids), match uids with [] => d | _ => merge_uids inst.1 (list_to_set uids) d end) [] m.

Section handler.
(** How many requests a replica reports as aborted, and whether it sleeps. *)
Context (aborted_count : RemoteCall → Z) (sleeping : string → bool) (gateway : GatewayReply).

Definition handle_abort (i : Z) (m : option (list (RolloutInstanceId * list Z))) (ids : option (list RolloutInstanceId)) : Cmd unit :=
  match m, ids with
  | None, None => raise ValueError
  | _, _ =>
      before ← gets (λ e, length (calls e));
      (match m with
       | Some m => for_each (replica_uids m) (λ '(r, uids), remote r (abort_requests r uids))
       | None => mret tt
       end) ;;
      (match ids with
       | Some ids => for_each ids (λ inst, remote inst.1 (abort_all_requests inst.1))
       | None => mret tt
       end) ;;
      futures ← gets (λ e, drop before (calls e));
      complete_command i (Some (foldr Z.add 0 (aborted_count <$> futures)))
  end.

Definition handle_sync (i : Z) (ids : list RolloutInstanceId) (version : option Z) (wait : bool) : Cmd unit :=
  match version with
  | None => raise ValueError
  | Some v =>
      for_each ids (λ inst, remote inst.1 (is_sleeping inst.1)) ;;
      match filter (λ inst : RolloutInstanceId, sleeping inst.1 = false) ids with
      | [] => complete_command i None
      | _ =>
          for_each ids (λ inst, remote inst.1 (sync_with_ps inst.1 v)) ;;
          complete_command i None
      end
  end.

Definition handle_sleep (i : Z) (ids : list RolloutInstanceId) : Cmd unit :=
  set_routing_loop_running false gateway ;;
  for_each ids (λ inst, remote inst.1 (nixl_sleep inst.1)) ;;
  complete_command i None.

Definition handle_wake_up (i : Z) (ids : list RolloutInstanceId) : Cmd unit :=
  for_each ids (λ inst, remote inst.1 (nixl_wake_up inst.1)) ;;
  set_routing_loop_running true gateway ;;
  complete_command i None.

Definition handle (i : Z) (c : Command) : Cmd unit :=
  match c with
  | ABORT m ids => handle_abort i m ids
  | SYNC ids v wait => handle_sync i ids v wait
  | SLEEP ids => handle_sleep i ids
  | WAKE_UP ids => handle_wake_up i ids
  | OTHER => raise ValueError
  end.

(** One round of [_command_handler_loop]; an exception ends the loop. *)
Definition command_handler_round : Cmd unit :=
  e ← gets id;
  match command_queue e with
  | [] => mret tt
  | (i, c) :: q => modify (with_queue q) ;; handle i c
  end.
End handler.

(** ** Bookkeeping of commands in flight *)

Record commands_ok (e : CommandExtension) : Prop := {
  cmd_dom : dom (command_results e) = command_events e;
  cmd_ids : ∀ i, i ∈ command_events e ∨ i ∈ fired e ∨ i ∈ (command_queue e).*1 → i < command_counter e;
  cmd_queue : NoDup (command_queue e).*1;
}.

Lemma new_extension_ok h : commands_ok (new_extension h).
Proof. split; simpl; [apply dom_empty_L| |constructor]. intros i. set_solver. Qed.

Lemma exec_begin_run c e :
  exec_begin c e = Ret (command_counter e)
    (mkExt (<[command_counter e := None]> (command_results e)) ({[command_counter e]} ∪ command_events e) (fired e)
       (command_counter e + 1) (command_queue e ++ [(command_counter e, c)]) (server_handles e) (calls e)).
Proof. done. Qed.

Lemma exec_begin_ok c e : commands_ok e → commands_ok (final (exec_begin c e)).
Proof.
  intros [Hdom Hids Hq]. rewrite exec_begin_run. simpl. split; simpl.
  - by rewrite dom_insert_L, Hdom.
  - intros i. rewrite elem_of_union, elem_of_singleton, fmap_app, elem_of_app. simpl. rewrite list_elem_of_singleton.
    intros Hi. assert (i = command_counter e ∨ i < command_counter e) by naive_solver. lia.
  - rewrite fmap_app. apply NoDup_app. split_and!; [done| |apply NoDup_singleton].
    intros x Hx ->%list_elem_of_singleton. assert (command_counter e < command_counter e) by (apply Hids; auto). lia.
Qed.

Lemma forget_run i e :
  forget i e = Ret tt (mkExt (delete i (command_results e)) (command_events e ∖ {[i]}) (fired e) (command_counter e)
                         (command_queue e) (server_handles e) (calls e)).
Proof. done. Qed.

Lemma forget_ok i e : commands_ok e → commands_ok (final (forget i e)).
Proof.
  intros [Hdom Hids Hq]. rewrite forget_run. simpl. split; simpl; [by rewrite dom_delete_L, Hdom| |done].
  intros j Hj. apply Hids. set_solver.
Qed.

Lemma complete_command_run i r e :
  commands_ok e →
  complete_command i r e =
    if bool_decide (i ∈ command_events e) then
      Ret tt (mkExt (<[i := r]> (command_results e)) (command_events e) ({[i]} ∪ fired e) (command_counter e)
                (command_queue e) (server_handles e) (calls e))
    else Raise ValueError e.
Proof.
  intros [Hdom _ _]. unfold complete_command. mrun.
  assert (is_Some (command_results e !! i) ↔ i ∈ command_events e) as Hiff by (by rewrite <-Hdom, elem_of_dom).
  destruct (decide (i ∈ command_events e)) as [Hi|Hi].
  - rewrite bool_decide_true by (by apply Hiff). mrun. by rewrite !bool_decide_true.
  - rewrite !bool_decide_false by tauto. done.
Qed.

Lemma complete_command_ok i r e : commands_ok e → commands_ok (final (complete_command i r e)).
Proof.
  intros Hok. pose proof Hok as [Hdom Hids Hq]. rewrite complete_command_run by done.
  case_bool_decide as Hi; [|done]. simpl. split; simpl; [|set_solver|done].
  rewrite dom_insert_L, Hdom. set_solver.
Qed.

(** What may happen to the extension while command [i] is in flight: other
    callers issue and finish commands, the loop takes commands from the queue,
    completes other commands and calls servers. *)
Inductive other_step (i : Z) : CommandExtension → CommandExtension → Prop :=
  | other_begin c e : other_step i e (final (exec_begin c e))
  | other_end j b e : j ≠ i → other_step i e (final (exec_end j b e))
  | other_synchronize j b e : j ≠ i → other_step i e (final (synchronize_end j b e))
  | other_complete j r e : j ≠ i → other_step i e (final (complete_command j r e))
  | other_take x q e : command_queue e = x :: q → other_step i e (with_queue q e)
  | other_call c e : other_step i e (with_calls (calls e ++ [c]) e).

Lemma end_final j b e : final (exec_end j b e) = final (forget j e).
Proof. by destruct b. Qed.

Lemma exec_end_run i e : exec_end i true e = Ret (default None (command_results e !! i)) (final (forget i e)).
Proof. done. Qed.

Lemma other_step_keeps i e e' :
  other_step i e e' → commands_ok e → i < command_counter e →
  commands_ok e' ∧ i < command_counter e' ∧ command_results e' !! i = command_results e !! i ∧
  (i ∈ command_events e' ↔ i ∈ command_events e).
Proof.
  intros [] Hok Hi.
  - split; [by apply exec_begin_ok|]. rewrite exec_begin_run. simpl. split_and!; [lia| |set_solver by lia].
    by rewrite lookup_insert_ne by lia.
  - rewrite end_final. split; [by apply forget_ok|]. rewrite forget_run. simpl. split_and!; [done| |set_solver].
    by rewrite lookup_delete_ne.
  - destruct b; [|done]. split; [by apply forget_ok|]. simpl. split_and!; [done| |set_solver]. by rewrite lookup_delete_ne.
  - split; [by apply complete_command_ok|]. rewrite complete_command_run by done. case_bool_decide; [|done]. simpl.
    split_and!; [done| |done]. by rewrite lookup_insert_ne.
  - destruct Hok as [Hdom Hids Hq]. split_and!; try done. split; simpl; [done| |].
    + intros j Hj. apply Hids. rewrite H. set_solver.
    + rewrite H in Hq. by apply NoDup_cons in Hq as [_ Hq].
  - destruct Hok. by split_and!.
Qed.

Lemma other_steps_keep i e e' :
  rtc (other_step i) e e' → commands_ok e → i < command_counter e →
  commands_ok e' ∧ i < command_counter e' ∧ command_results e' !! i = command_results e !! i ∧
  (i ∈ command_events e' ↔ i ∈ command_events e).
Proof.
  induction 1 as [|e e1 e2 Hs _ IH]; intros Hok Hi; [done|].
  destruct (other_step_keeps _ _ _ Hs Hok Hi) as (? & ? & ? & ?). destruct IH as (? & ? & ? & ?); [done..|].
  split_and!; [done..|congruence|naive_solver].
Qed.

(** A command gets a fresh id; whatever other callers and the loop do with other
    commands, completing it with [r] sets its event, and its caller then receives
    [r] and leaves no trace of it in the tables.  The tables stay consistent
    throughout. *)
Theorem exec_returns_own_result (e e1 e2 e3 e4 : CommandExtension) (c : Command) (i : Z) (r : CommandResult) :
  commands_ok e → exec_begin c e = Ret i e1 → rtc (other_step i) e1 e2 →
  complete_command i r e2 = Ret tt e3 → rtc (other_step i) e3 e4 →
  (i ∉ command_events e) ∧ (i ∉ fired e) ∧ (i ∉ (command_queue e).*1) ∧ i ∈ fired e3 ∧ commands_ok e4 ∧
  ∃ e5, exec_end i true e4 = Ret r e5 ∧ (i ∉ command_events e5) ∧ command_results e5 !! i = None ∧ commands_ok e5.
Proof.
  intros Hok Hbegin Hrun Hcomp Hrun'. rewrite exec_begin_run in Hbegin. injection Hbegin as <- <-.
  set (i := command_counter e) in *.
  assert (∀ j, j ∈ command_events e ∨ j ∈ fired e ∨ j ∈ (command_queue e).*1 → j ≠ i) as Hfresh.
  { intros j Hj. apply (cmd_ids e Hok) in Hj. lia. }
  assert (commands_ok (final (exec_begin c e))) as Hok1 by by apply exec_begin_ok.
  destruct (other_steps_keep _ _ _ Hrun Hok1) as (Hok2 & Hlt2 & _ & Hev2); [simpl; lia|].
  assert (i ∈ command_events e2) as Hi2 by (apply Hev2; simpl; set_solver).
  rewrite complete_command_run, bool_decide_true in Hcomp by done. injection Hcomp as <-.
  pose proof (complete_command_ok i r e2 Hok2) as Hok3. rewrite complete_command_run, bool_decide_true in Hok3 by done.
  destruct (other_steps_keep _ _ _ Hrun' Hok3) as (Hok4 & _ & Hres & _); [done|]. simpl in Hres.
  split; [intros Hin; by apply (Hfresh i); auto|]. split; [intros Hin; by apply (Hfresh i); auto|].
  split; [intros Hin; by apply (Hfresh i); auto|]. split; [simpl; set_solver|]. split; [done|].
  exists (final (forget i e4)). rewrite exec_end_run, Hres, lookup_insert_eq. split; [done|].
  rewrite forget_run. split_and!; simpl; [set_solver|by rewrite lookup_delete_eq|]. exact (forget_ok i e4 Hok4).
Qed.

(** ** What the loop answers *)

Lemma keeps_remote {T} (f : CommandExtension → T) r c :
  (∀ v e, f (with_calls v e) = f e) → keeps f (remote r c).
Proof. intros Hf. unfold remote. keeps_tac. Qed.

Lemma keeps_routing {T} (f : CommandExtension → T) b g :
  (∀ v e, f (with_calls v e) = f e) → keeps f (set_routing_loop_running b g).
Proof. intros Hf. unfold set_routing_loop_running. apply keeps_bind; [by apply keeps_modify|]. intros. keeps_tac. Qed.

Lemma complete_command_Ret i r e e' :
  complete_command i r e = Ret tt e' → command_results e' !! i = Some r ∧ is_Some (command_results e !! i).
Proof.
  unfold complete_command. mrun. case_bool_decide as Hi; [|done]. mrun. case_bool_decide; intros [= <-]; simpl;
    by rewrite lookup_insert_eq.
Qed.

Lemma keeps_Ret {S A T} (f : S → T) (m : M S A) s a s' : keeps f m → m s = Ret a s' → f s' = f s.
Proof. intros Hk E. specialize (Hk s). by rewrite E in Hk. Qed.

Section answers.
Context (aborted_count : RemoteCall → Z) (sleeping : string → bool) (gateway : GatewayReply).

(** [m], when it returns, has completed the pending command [i] with a result in [Q]. *)
Definition completes (i : Z) (Q : CommandResult → Prop) (m : Cmd unit) : Prop :=
  ∀ s s', m s = Ret tt s' → is_Some (command_results s !! i) ∧ ∃ r, command_results s' !! i = Some r ∧ Q r.

Lemma completes_bind {A} i Q (m : Cmd A) k :
  keeps command_results m → (∀ a, completes i Q (k a)) → completes i Q (m ≫= k).
Proof.
  intros Hm Hk s s' Hrun. minv. apply keeps_Ret with (f := command_results) in Hstep; [|done].
  rewrite <-Hstep. by eapply Hk.
Qed.

Lemma completes_command i r (Q : CommandResult → Prop) : Q r → completes i Q (complete_command i r).
Proof. intros HQ s s' [Hres Hsome]%complete_command_Ret. eauto. Qed.

Lemma keeps_calls {A} (l : list A) f :
  (∀ x, ∃ r c, f x = remote r c) → keeps command_results (for_each l f).
Proof. intros Hf. apply keeps_for_each. intros x. destruct (Hf x) as (r & c' & ->). by apply keeps_remote. Qed.

(** Every branch ends with [complete_command], after calls that leave the tables
    alone. *)
Lemma handle_completes i c :
  completes i (λ r, match c with ABORT _ _ => True | _ => r = None end) (handle aborted_count sleeping gateway i c).
Proof.
  assert (∀ b, keeps command_results (set_routing_loop_running b gateway)) as Hrt by (intros; by apply keeps_routing).
  destruct c as [m ids|ids v w|ids|ids|]; simpl.
  - destruct m as [m|], ids as [ids|]; simpl; try (by intros s s' [=]);
      repeat first [by apply completes_command |
        apply completes_bind; [first [apply keeps_calls; intros [? ?]; eauto | apply keeps_gets | apply keeps_ret]|intros]].
  - destruct v as [v|]; simpl; [|by intros s s' [=]]. apply completes_bind; [apply keeps_calls; eauto|]. intros _.
    case_match; [by apply completes_command|]. apply completes_bind; [apply keeps_calls; eauto|]. intros _.
    by apply completes_command.
  - apply completes_bind; [apply Hrt|intros _]. apply completes_bind; [apply keeps_calls; eauto|intros _]. by apply completes_command.
  - apply completes_bind; [apply keeps_calls; eauto|intros _]. apply completes_bind; [apply Hrt|intros _]. by apply completes_command.
  - by intros s s' [=].
Qed.

(** A caller of SYNC, SLEEP or WAKE_UP receives None when the command was
    executed, exactly as it does when the wait timed out: the answer does not
    tell success from failure. *)
Theorem lifecycle_commands_answer_none (c : Command) (i : Z) (q : list (Z * Command)) (e e' : CommandExtension) :
  (match c with ABORT _ _ => False | _ => True end) →
  command_queue e = (i, c) :: q → command_handler_round aborted_count sleeping gateway e = Ret tt e' →
  (∃ e1, exec_end i true e' = Ret None e1) ∧ ∃ e2, exec_end i false e' = Ret None e2.
Proof.
  intros Hc Hq Hrun. split; [|by eexists]. unfold command_handler_round in Hrun. revert Hrun. mrun. rewrite Hq. mrun. intros Hrun.
  apply handle_completes in Hrun as (_ & r & Hr & HQ). exists (final (forget i e')). rewrite exec_end_run, Hr.
  simpl. by destruct c; simplify_eq.
Qed.

(** When a caller's wait times out while its command is still queued, the loop
    that later takes the command raises, whatever the command and whatever the
    servers answer, so the loop ends and no further command is executed. *)
Theorem timed_out_command_kills_loop (c : Command) (i : Z) (q : list (Z * Command)) (e : CommandExtension) :
  command_queue e = (i, c) :: q →
  ∀ a e', command_handler_round aborted_count sleeping gateway (final (exec_end i false e)) ≠ Ret a e'.
Proof.
  intros Hq [] e' Hrun. rewrite end_final, forget_run in Hrun. simpl in Hrun. unfold command_handler_round in Hrun. revert Hrun. mrun. simpl.
  rewrite Hq. mrun. intros [[r Hr] _]%handle_completes. simpl in Hr. by rewrite lookup_delete_eq in Hr.
Qed.
End answers.

(** ** Aborts *)

Lemma merge_uids_keys r us d : (merge_uids r us d).*1 = if bool_decide (r ∈ d.*1) then d.*1 else d.*1 ++ [r].
Proof.
  induction d as [|[r0 u0] d IH]; cbn [merge_uids]; [done|]. destruct (decide (r0 = r)) as [->|]; rewrite !fmap_cons; simpl.
  - by rewrite bool_decide_true by set_solver.
  - rewrite IH. repeat case_bool_decide; set_solver.
Qed.

Lemma merge_uids_elem r us d x :
  NoDup d.*1 →
  (∃ u, (r, u) ∈ merge_uids r us d ∧ x ∈ u) ↔ x ∈ us ∨ ∃ u, (r, u) ∈ d ∧ x ∈ u.
Proof.
  induction d as [|[r0 u0] d IH]; cbn [merge_uids]; intros Hnd.
  - setoid_rewrite list_elem_of_singleton. setoid_rewrite elem_of_nil. naive_solver.
  - apply NoDup_cons in Hnd as [Hr0 Hnd]. setoid_rewrite elem_of_cons. case_decide as Hr.
    + subst. setoid_rewrite elem_of_cons. assert (∀ u, (r, u) ∉ d) as Hno.
      { intros u Hin. apply Hr0, list_elem_of_fmap. by exists (r, u). }
      split.
      * intros (u & [[= ->]|Hin] & Hx); [|by destruct (Hno u)]. apply elem_of_union in Hx as [|]; eauto.
      * intros [Hx|(u & [[= ->]|Hin] & Hx)]; [..|by destruct (Hno u)]; exists (u0 ∪ us); set_solver.
    + setoid_rewrite elem_of_cons. specialize (IH Hnd). naive_solver.
Qed.

Lemma merge_uids_other r r' us u d : r' ≠ r → (r', u) ∈ merge_uids r us d ↔ (r', u) ∈ d.
Proof.
  intros Hne. induction d as [|[r0 u0] d IH]; cbn [merge_uids].
  - rewrite list_elem_of_singleton, elem_of_nil. naive_solver.
  - case_decide; rewrite !elem_of_cons; naive_solver.
Qed.

Lemma merge_uids_NoDup r us d : NoDup d.*1 → NoDup (merge_uids r us d).*1.
Proof.
  intros Hnd. rewrite merge_uids_keys. case_bool_decide; [done|]. apply NoDup_app.
  split_and!; [done| |apply NoDup_singleton]. by intros x Hx ->%list_elem_of_singleton.
Qed.

Lemma replica_uids_spec m :
  NoDup (replica_uids m).*1 ∧
  ∀ r x, (∃ u, (r, u) ∈ replica_uids m ∧ x ∈ u) ↔ ∃ inst uids, (inst, uids) ∈ m ∧ inst.1 = r ∧ x ∈ uids.
Proof.
  unfold replica_uids. induction m as [|[inst uids] m [Hnd IH]] using rev_ind.
  { split; [constructor|]. intros r x. setoid_rewrite elem_of_nil. naive_solver. }
  rewrite foldl_snoc. set (d := foldl _ _ m) in *. setoid_rewrite elem_of_app. setoid_rewrite list_elem_of_singleton.
  destruct uids as [|u0 uids].
  { split; [done|]. intros r x. rewrite IH. split; [naive_solver|]. intros (i & us & [?|[= -> ->]] & Hr & Hx); [eauto|set_solver]. }
  split; [by apply merge_uids_NoDup|]. intros r x. destruct (decide (r = inst.1)) as [->|Hne].
  - rewrite merge_uids_elem, elem_of_list_to_set, IH by done. split.
    + intros [Hx|(i & us & ? & ? & ?)]; [exists inst, (u0 :: uids)|exists i, us]; auto.
    + intros (i & us & [?|[= -> ->]] & Hr & Hx); [right; eauto|by left].
  - setoid_rewrite (merge_uids_other inst.1 r); [|done]. rewrite IH. split; [naive_solver|].
    intros (i & us & [?|[= -> ->]] & Hr & Hx); [eauto|congruence].
Qed.

Lemma replica_uids_keys m r : r ∈ (replica_uids m).*1 → ∃ inst uids, (inst, uids) ∈ m ∧ inst.1 = r.
Proof.
  unfold replica_uids. induction m as [|[inst uids] m IH] using rev_ind; [simpl; set_solver|].
  assert (∀ r, (∃ inst' uids', (inst', uids') ∈ m ∧ inst'.1 = r) → ∃ inst' uids', (inst', uids') ∈ m ++ [(inst, uids)] ∧ inst'.1 = r) as Hm.
  { intros r' (i & us & ? & ?). exists i, us. split; [by apply elem_of_app; left|done]. }
  rewrite foldl_snoc. intros Hr. destruct uids as [|u0 uids]; [auto|].
  rewrite merge_uids_keys in Hr. case_bool_decide; [auto|].
  apply elem_of_app in Hr as [Hr| ->%list_elem_of_singleton]; [auto|].
  exists inst, (u0 :: uids). split; [apply elem_of_app; right; by apply list_elem_of_singleton|done].
Qed.

Lemma remote_run r c e : r ∈ server_handles e → remote r c e = Ret tt (with_calls (calls e ++ [c]) e).
Proof. intros Hr. unfold remote. mrun. by rewrite bool_decide_true. Qed.

Lemma remote_loop_run {A} (f : A → string) (g : A → RemoteCall) l e :
  (∀ x, x ∈ l → f x ∈ server_handles e) →
  for_each l (λ x, remote (f x) (g x)) e = Ret tt (with_calls (calls e ++ (g <$> l)) e).
Proof.
  revert e. induction l as [|x l IH]; intros e Hl; simpl; [rewrite app_nil_r; by destruct e|].
  rewrite (run_bind _ _ _ tt _ (remote_run (f x) (g x) e (Hl x ltac:(set_solver)))).
  rewrite IH by (simpl; set_solver). simpl. by rewrite <-app_assoc.
Qed.

(** Aborting requests sends exactly one call to each replica that runs one of
    them, with the union of the uids named for its instances, and completes the
    command with the sum of the counts the replicas report. *)
Theorem abort_reaches_each_replica_once (count : RemoteCall → Z) (i : Z) (m : list (RolloutInstanceId * list Z))
    (e : CommandExtension) :
  commands_ok e → i ∈ command_events e → (∀ inst uids, (inst, uids) ∈ m → inst.1 ∈ server_handles e) →
  let sent := (λ '(r, uids), abort_requests r uids) <$> replica_uids m in
  NoDup (replica_uids m).*1 ∧
  (∀ r x, (∃ u, abort_requests r u ∈ sent ∧ x ∈ u) ↔ ∃ inst uids, (inst, uids) ∈ m ∧ inst.1 = r ∧ x ∈ uids) ∧
  ∃ e', handle_abort count i (Some m) None e = Ret tt e' ∧ calls e' = calls e ++ sent ∧
    command_results e' !! i = Some (Some (foldr Z.add 0 (count <$> sent))) ∧ i ∈ fired e'.
Proof.
  intros Hok Hi Hh sent. destruct (replica_uids_spec m) as [Hnd Hspec]. split; [done|]. split.
  { intros r x. rewrite <-Hspec. unfold sent. setoid_rewrite list_elem_of_fmap. split.
    - intros (u & ([r' u'] & [= -> ->] & ?) & ?). eauto.
    - intros (u & ? & ?). exists u. split; [|done]. by exists (r, u). }
  assert (∀ x : string * gset Z, x ∈ replica_uids m → x.1 ∈ server_handles e) as Hall.
  { intros [r u] Hin. destruct (replica_uids_keys m r) as (inst & uids & Hm & <-); [|by eapply Hh].
    apply list_elem_of_fmap. by exists (r, u). }
  unfold handle_abort. mrun.
  assert (∀ l : list (string * gset Z), for_each l (λ '(r, uids), remote r (abort_requests r uids))
    = for_each l (λ x, remote x.1 (abort_requests x.1 x.2))) as Heq.
  { intros l. induction l as [|[r u] l IH]; [done|]. simpl. by rewrite IH. }
  rewrite Heq. rewrite (run_bind _ _ _ tt _ (remote_loop_run fst (λ x, abort_requests x.1 x.2) _ e Hall)). mrun. simpl.
  assert ((λ x : string * gset Z, abort_requests x.1 x.2) <$> replica_uids m = sent) as ->
    by (apply list_fmap_ext; by intros ? []).
  rewrite drop_app_length. rewrite complete_command_run, bool_decide_true by (done || by destruct Hok).
  eexists. split; [done|]. simpl. rewrite lookup_insert_eq. set_solver.
Qed.

(** ** Concrete runs *)

Definition demo_ext : CommandExtension := new_extension {["a"; "b"]}.
Definition demo_gateway : GatewayReply := mkReply None false 0.
Definition demo_round (sleeping : string → bool) := command_handler_round (λ _, 1) sleeping demo_gateway.

(** A SYNC for a sleeping and an awake instance is also sent to the sleeping one. *)
Lemma sync_reaches_sleeping_instance :
  let sleeping r := bool_decide (r = "a"%string) in
  calls (final (demo_round sleeping (final (exec_begin (SYNC [("a", 0); ("b", 0)] (Some 3) true) demo_ext)))) =
    [is_sleeping "a"; is_sleeping "b"; sync_with_ps "a" 3; sync_with_ps "b" 3].
Proof. by vm_compute. Qed.

Lemma abort_reaches_each_replica_once_witness :
  let e := final (exec_begin (ABORT (Some [(("a", 0), [1; 2]); (("a", 1), [2; 3]); (("b", 0), [])]) None) demo_ext) in
  ∃ e', handle_abort (λ _, 1) 0 (Some [(("a", 0), [1; 2]); (("a", 1), [2; 3]); (("b", 0), [])]) None e = Ret tt e' ∧
    calls e' = [abort_requests "a" {[1; 2; 3]}].
Proof.
  intros e. destruct (abort_reaches_each_replica_once (λ _, 1) 0 [(("a", 0), [1; 2]); (("a", 1), [2; 3]); (("b", 0), [])] e)
    as (_ & _ & e' & Hrun & Hcalls & _).
  - apply exec_begin_ok, new_extension_ok.
  - set_solver.
  - intros inst uids Hin. repeat (apply elem_of_cons in Hin as [[= -> ->]|Hin]; [vm_compute; reflexivity|]).
    by apply not_elem_of_nil in Hin.
  - exists e'. split; [exact Hrun|]. rewrite Hcalls. by vm_compute.
Defined.

Lemma exec_returns_own_result_witness :
  ∃ e5, exec_end 0 true (final (complete_command 0 (Some 7) (final (exec_begin OTHER (final (exec_begin (ABORT (Some []) None) demo_ext)))))) = Ret (Some 7) e5 ∧
    command_results e5 !! 0 = None.
Proof.
  set (e1 := final (exec_begin (ABORT (Some []) None) demo_ext)).
  destruct (exec_returns_own_result demo_ext e1 (final (exec_begin OTHER e1)) (final (complete_command 0 (Some 7) (final (exec_begin OTHER e1))))
    (final (complete_command 0 (Some 7) (final (exec_begin OTHER e1)))) (ABORT (Some []) None) 0 (Some 7)) as (_ & _ & _ & _ & _ & e5 & H1 & _ & H2 & _).
  - apply new_extension_ok.
  - reflexivity.
  - apply rtc_once. apply other_begin.
  - reflexivity.
  - apply rtc_refl.
  - exists e5. exact (conj H1 H2).
Defined.

Lemma lifecycle_commands_answer_none_witness :
  let e := final (exec_begin (SLEEP [("a", 0)]) demo_ext) in
  ∃ e' e1, demo_round (λ _, false) e = Ret tt e' ∧ exec_end 0 true e' = Ret None e1.
Proof.
  intros e. destruct (lifecycle_commands_answer_none (λ _, 1) (λ _, false) demo_gateway (SLEEP [("a", 0)]) 0 [] e (final (demo_round (λ _, false) e)))
    as [[e1 H] _]; [exact I|reflexivity|reflexivity|]. exists (final (demo_round (λ _, false) e)), e1. split; [reflexivity|exact H].
Defined.

Definition demo_sleeping_call : CommandExtension := final (exec_begin (SLEEP [("a", 0)]) demo_ext).

Lemma timed_out_command_kills_loop_witness :
  (∀ a e', command_handler_round (λ _, 1) (λ _, false) demo_gateway (final (exec_end 0 false demo_sleeping_call)) ≠ Ret a e') ∧
  result (command_handler_round (λ _, 1) (λ _, false) demo_gateway (final (exec_end 0 false demo_sleeping_call))) = inl ValueError.
Proof.
  split; [|vm_compute; reflexivity].
  apply (timed_out_command_kills_loop (λ _, 1) (λ _, false) demo_gateway (SLEEP [("a", 0)]) 0 [] demo_sleeping_call).
  vm_compute. reflexivity.
Defined.
