(* ===== verification/ElasticExecutor.v ===== *)
(** * The elastic executor

    psrl/utils/elastic_rm/elastic_executor.py: [ElasticExecutor] feeds engine
    status, router backlog and the trainer's hint to the scaling policy and
    carries its decisions out by SLEEP, WAKE_UP and ABORT commands to the
    coordinators.

    A coroutine runs without interruption between two awaits, so
    [_scale_up_instance] and [_scale_down_instance], which await one command, are
    two atomic parts each; [asyncio.gather] starts all of its coroutines before
    the first of them resumes.  Commands are recorded in [commands]; what the
    coordinators answer is an argument.  Dictionaries whose order decides a choice
    are association lists. *)

From Stdlib Require Import SpecFloat.
From S2P Require Import Prelude.
From S2P Require Import PyFloat.
From S2P Require Import PyData.
From S2P Require Import ClusterTopology.
From S2P Require Import ScalingPolicy.
From S2P Require Import CommandLoop.

(** ** Data *)

(** The fields of an engine snapshot that are read; [None] is a missing key.  A
    waiting uid that is not an integer is [None]. *)
Record Snapshot := mkSnapshot {
  snap_kv_cache_usage : option float;
  snap_num_running : option Z;
  snap_num_waiting : option Z;
  snap_waiting_uids : list (option Z);
  snap_tokens : Z;
  snap_throughput : option float;
  snap_timestamp : option string;
}.

Definition empty_snapshot : Snapshot := mkSnapshot None None None [] 0 None None.
Definition default_snapshot (now : string) : Snapshot := mkSnapshot (Some fzero) (Some 0) (Some 0) [] 0 (Some fzero) (Some now).

(** A queued scale-up or scale-down task. *)
Record Task := mkTask {
  task_role : PSRL_Role;
  task_model : string;
  task_num : Z;
  task_preferred : list RolloutInstanceId;
  task_decision : option Z;
}.

Abbreviation Flags := (list (PSRL_Role * list (string * list (RolloutInstanceId * InstanceStatus)))).

Record ElasticExecutor := mkExecutor {
  roles : list (PSRL_Role * string);
  coordinators : gset (PSRL_Role * string);
  flags : Flags;
  engine_stats : gmap InstanceIdentifier (option Snapshot);
  topology : ClusterTopology;
  scaling_policy : ScalingPolicy;
  execution_in_progress : bool;
  next_decision_id : Z;
  pending_action_counts : gmap Z Z;
  stall_ticks : Z;
  abandon_stall_ticks : Z;
  scale_up_queue : list Task;
  scale_down_queue : list Task;
  router_backlog : gmap string Z;
  trainer_waiting_hint : TrainerHint;
  abort_waiting_ratio : float;
  commands : list (PSRL_Role * string * Command);
}.

Definition with_flags v (x : ElasticExecutor) := mkExecutor (roles x) (coordinators x) v (engine_stats x) (topology x) (scaling_policy x) (execution_in_progress x) (next_decision_id x) (pending_action_counts x) (stall_ticks x) (abandon_stall_ticks x) (scale_up_queue x) (scale_down_queue x) (router_backlog x) (trainer_waiting_hint x) (abort_waiting_ratio x) (commands x).
Definition with_stats v (x : ElasticExecutor) := mkExecutor (roles x) (coordinators x) (flags x) v (topology x) (scaling_policy x) (execution_in_progress x) (next_decision_id x) (pending_action_counts x) (stall_ticks x) (abandon_stall_ticks x) (scale_up_queue x) (scale_down_queue x) (router_backlog x) (trainer_waiting_hint x) (abort_waiting_ratio x) (commands x).
Definition with_topology v (x : ElasticExecutor) := mkExecutor (roles x) (coordinators x) (flags x) (engine_stats x) v (scaling_policy x) (execution_in_progress x) (next_decision_id x) (pending_action_counts x) (stall_ticks x) (abandon_stall_ticks x) (scale_up_queue x) (scale_down_queue x) (router_backlog x) (trainer_waiting_hint x) (abort_waiting_ratio x) (commands x).
Definition with_policy v (x : ElasticExecutor) := mkExecutor (roles x) (coordinators x) (flags x) (engine_stats x) (topology x) v (execution_in_progress x) (next_decision_id x) (pending_action_counts x) (stall_ticks x) (abandon_stall_ticks x) (scale_up_queue x) (scale_down_queue x) (router_backlog x) (trainer_waiting_hint x) (abort_waiting_ratio x) (commands x).
Definition with_decisions busy next counts (x : ElasticExecutor) := mkExecutor (roles x) (coordinators x) (flags x) (engine_stats x) (topology x) (scaling_policy x) busy next counts (stall_ticks x) (abandon_stall_ticks x) (scale_up_queue x) (scale_down_queue x) (router_backlog x) (trainer_waiting_hint x) (abort_waiting_ratio x) (commands x).
Definition with_stall v (x : ElasticExecutor) := mkExecutor (roles x) (coordinators x) (flags x) (engine_stats x) (topology x) (scaling_policy x) (execution_in_progress x) (next_decision_id x) (pending_action_counts x) v (abandon_stall_ticks x) (scale_up_queue x) (scale_down_queue x) (router_backlog x) (trainer_waiting_hint x) (abort_waiting_ratio x) (commands x).
Definition with_queues up down (x : ElasticExecutor) := mkExecutor (roles x) (coordinators x) (flags x) (engine_stats x) (topology x) (scaling_policy x) (execution_in_progress x) (next_decision_id x) (pending_action_counts x) (stall_ticks x) (abandon_stall_ticks x) up down (router_backlog x) (trainer_waiting_hint x) (abort_waiting_ratio x) (commands x).
Definition with_backlog v (x : ElasticExecutor) := mkExecutor (roles x) (coordinators x) (flags x) (engine_stats x) (topology x) (scaling_policy x) (execution_in_progress x) (next_decision_id x) (pending_action_counts x) (stall_ticks x) (abandon_stall_ticks x) (scale_up_queue x) (scale_down_queue x) v (trainer_waiting_hint x) (abort_waiting_ratio x) (commands x).
Definition with_hint v (x : ElasticExecutor) := mkExecutor (roles x) (coordinators x) (flags x) (engine_stats x) (topology x) (scaling_policy x) (execution_in_progress x) (next_decision_id x) (pending_action_counts x) (stall_ticks x) (abandon_stall_ticks x) (scale_up_queue x) (scale_down_queue x) (router_backlog x) v (abort_waiting_ratio x) (commands x).
Definition with_commands v (x : ElasticExecutor) := mkExecutor (roles x) (coordinators x) (flags x) (engine_stats x) (topology x) (scaling_policy x) (execution_in_progress x) (next_decision_id x) (pending_action_counts x) (stall_ticks x) (abandon_stall_ticks x) (scale_up_queue x) (scale_down_queue x) (router_backlog x) (trainer_waiting_hint x) (abort_waiting_ratio x) v.

Abbreviation Ela := (M ElasticExecutor).

(** ** Status flags *)

(** [instances_status_flags.get(role, {}).get(model, {})] *)
Definition role_status (r : PSRL_Role) (m : string) (f : Flags) : list (RolloutInstanceId * InstanceStatus) :=
  default [] (assoc r f ≫= assoc m).

(** [instances_status_flags.setdefault(role, {}).setdefault(model, {})] *)
Definition setdefault (r : PSRL_Role) (m : string) (f : Flags) : Flags :=
  let ms := default [] (assoc r f) in
  dict_set r (dict_set m (default [] (assoc m ms)) ms) f.

(** [instances_status_flags[role][model][instance_id] = status] *)
Definition set_flag (r : PSRL_Role) (m : string) (i : RolloutInstanceId) (st : InstanceStatus) : Ela unit :=
  x ← gets id;
  ms ← of_option KeyError (assoc r (flags x));
  insts ← of_option KeyError (assoc m ms);
  modify (with_flags (dict_set r (dict_set m (dict_set i st insts) ms) (flags x))).

Definition set_stats (k : InstanceIdentifier) (v : option Snapshot) : Ela unit :=
  modify (λ x, with_stats (<[k := v]> (engine_stats x)) x).

Definition on_topology {A} (m : Topo A) : Ela A := zoom topology with_topology m.

(** ** Construction and bootstrap *)

Definition clamp_ratio (r : float) : float := fmax fzero (fmin fone r).

Definition new_executor (rs : list (PSRL_Role * string)) (coords : gset (PSRL_Role * string)) (p : ScalingPolicy)
    (abandon : Z) (ratio : float) : ElasticExecutor :=
  mkExecutor rs coords (foldl (λ f '(r, m), setdefault r m f) [] rs) ∅ new_topology p false 1 ∅ 0 abandon [] [] ∅ no_hint
    (clamp_ratio ratio) [].

Definition register_role (r : PSRL_Role) (m : string) (ids : list RolloutInstanceId) (slots : list (gset GPUSlot)) (now : string) : Ela unit :=
  if bool_decide (length ids ≠ length slots) then raise ValueError
  else
    modify (λ x, with_flags (setdefault r m (flags x)) x) ;;
    for_each (zip ids slots) (λ '(i, g),
      set_flag r m i ASLEEP ;;
      set_stats (mkIdent r m i) (Some (default_snapshot now)) ;;
      on_topology (register r m i (Some g) ASLEEP) ;;
      mret tt).

Definition select_initial_awake_ids (r : PSRL_Role) (m : string) (target min_awake : Z) : Ela (list RolloutInstanceId) :=
  x ← gets id;
  sel ← of_res (select_non_conflicting_awake_ids r m (role_status r m (flags x)).*1 target min_awake (topology x));
  for_each sel (λ i, set_flag r m i AWAKEN ;; on_topology (set_status r m i AWAKEN)) ;;
  mret sel.

(** ** Decision bookkeeping *)

Definition mark_decision_action_finished (d : option Z) : Ela unit :=
  match d with
  | None => mret tt
  | Some d =>
      x ← gets id;
      match pending_action_counts x !! d with
      | None => mret tt
      | Some n =>
          if bool_decide (0 < n - 1) then
            modify (λ x, with_decisions (execution_in_progress x) (next_decision_id x) (<[d := n - 1]> (pending_action_counts x)) x)
          else
            let rest := delete d (pending_action_counts x) in
            modify (λ x, with_decisions (if bool_decide (rest = ∅) then false else execution_in_progress x) (next_decision_id x) rest x)
      end
  end.

Definition abandon_in_flight_decision : Ela unit :=
  x ← gets id;
  if negb (execution_in_progress x) && bool_decide (pending_action_counts x = ∅) then mret tt
  else
    modify (λ x, with_decisions false (next_decision_id x) ∅ x) ;;
    modify (with_stall 0).

(** ** Engine status *)

Definition stats_of (k : InstanceIdentifier) (x : ElasticExecutor) : option Snapshot :=
  match engine_stats x !! k with Some v => v | None => Some empty_snapshot end.

Definition get_instance_kv_cache_usage (k : InstanceIdentifier) (x : ElasticExecutor) : float :=
  match stats_of k x with Some s => default fone (snap_kv_cache_usage s) | None => fone end.

Definition get_instance_running_waiting (k : InstanceIdentifier) (x : ElasticExecutor) : Z * Z :=
  match stats_of k x with Some s => (default 0 (snap_num_running s), default 0 (snap_num_waiting s)) | None => (0, 0) end.

(** A snapshot that is Python's [None] has no [get]: [AttributeError]. *)
Definition build_signal (r : PSRL_Role) (m : string) (i : RolloutInstanceId) (st : InstanceStatus) (x : ElasticExecutor) : Res InstanceSignal :=
  match stats_of (mkIdent r m i) x with
  | None => inl AttributeError
  | Some s =>
      inr (mkSignal r m i (bool_decide (st = AWAKEN)) (default fzero (snap_kv_cache_usage s)) (default 0 (snap_num_running s))
             (default 0 (snap_num_waiting s)) (default fzero (snap_throughput s)) (snap_tokens s) (snap_timestamp s)
             (get_instance_gpu_keys_frozenset r m i (topology x)))
  end.

Definition build_instance_signals : Ela (list InstanceSignal) :=
  x ← gets id;
  map_each (flat_map (λ '(r, ms), flat_map (λ '(m, insts), map (λ '(i, st), (r, m, i, st)) insts) ms) (flags x))
    (λ '(r, m, i, st), of_res (build_signal r m i st x)).

(** The answers of the coordinators, one per role and model that has one, in the
    order of [roles]; [None] is a failed or timed-out call. *)
Definition polled (x : ElasticExecutor) : list (PSRL_Role * string) := filter (λ k, k ∈ coordinators x) (roles x).

Definition sync_engine_status (answers : list (option (list (RolloutInstanceId * option Snapshot)))) : Ela unit :=
  x ← gets id;
  for_each (zip (polled x) answers) (λ '((r, m), a),
    match a with
    | None => mret tt
    | Some snaps => for_each snaps (λ '(i, s), set_stats (mkIdent r m i) s)
    end).

(** One role's backlog: the sum of its models' queues, or the previous value when
    one of the calls failed. *)
Fixpoint sum_backlog (l : list (option Z)) (total : Z) : option Z :=
  match l with
  | [] => Some total
  | None :: _ => None
  | Some n :: l => sum_backlog l (total + Z.max 0 n)
  end.

Definition sync_router_backlog (answers : list (option Z)) : Ela unit :=
  x ← gets id;
  match polled x with
  | [] => modify (with_backlog ∅)
  | ks =>
      let grouped := foldl (λ d '((r, _), a), append_to (get_role_name r) a d) [] (zip ks answers) in
      modify (with_backlog (list_to_map ((λ '(k, l), (k, default (default 0 (router_backlog x !! k)) (sum_backlog l 0))) <$> grouped)))
  end.

(** The hint of the agent-loop manager; [None] when there is none or the call failed. *)
Definition sync_trainer_hint (answer : option TrainerHint) : Ela unit := modify (with_hint (default no_hint answer)).

(** ** Choosing instances *)

Definition in_status (st : InstanceStatus) (l : list (RolloutInstanceId * InstanceStatus)) : list RolloutInstanceId :=
  (filter (λ p, p.2 = st) l).*1.

(** [l[:n]] *)
Definition slice_to {A} (n : Z) (l : list A) : list A :=
  take (Z.to_nat (if bool_decide (n < 0) then Z.of_nat (length l) + n else n)) l.

Definition min_awake (x : ElasticExecutor) : Z := Z.max 0 (min_awake_per_role (scaling_policy x)).

Definition prefer (preferred all : list RolloutInstanceId) : list RolloutInstanceId :=
  match filter (λ i, i ∈ preferred) all with [] => all | l => l end.

(** The preferred candidates that pass [ok], or else any that does. *)
Definition wake_candidates (preferred all : list RolloutInstanceId) (ok : RolloutInstanceId → bool) : list RolloutInstanceId :=
  let candidates := match preferred with [] => all | pr => prefer pr all end in
  match filter (λ i, ok i = true) candidates, preferred with
  | [], _ :: _ => filter (λ i, ok i = true) all
  | l, _ => l
  end.

Definition find_instances_to_scaled_up (t : Task) (x : ElasticExecutor) : option (list InstanceIdentifier) :=
  match in_status ASLEEP (role_status (task_role t) (task_model t) (flags x)) with
  | [] => None
  | all =>
      match wake_candidates (task_preferred t) all
              (λ i, negb (has_other_role_awaken_on_shared_gpu (task_role t) (task_model t) i (topology x))) with
      | [] => None
      | filtered => Some (mkIdent (task_role t) (task_model t) <$> slice_to (task_num t) filtered)
      end
  end.

(** Candidates of the other roles with the number of instances each role and
    model may give up, least loaded first. *)
Definition ceding_roles (target : PSRL_Role) (x : ElasticExecutor) : list (PSRL_Role * string * list RolloutInstanceId) :=
  omap (λ '(r, m),
    if decide (r = target) then None
    else
      let aw := in_status AWAKEN (role_status r m (flags x)) in
      if bool_decide (Z.of_nat (length aw) - min_awake x ≤ 0) then None else Some (r, m, aw)) (roles x).

Fixpoint pick_within (n : Z) (budget : gmap (PSRL_Role * string) Z) (cands : list InstanceIdentifier) (picked : list InstanceIdentifier) :
    list InstanceIdentifier :=
  match cands with
  | [] => picked
  | c :: cands =>
      let k := (ident_role c, ident_model c) in
      let b := default 0 (budget !! k) in
      if bool_decide (b ≤ 0) then pick_within n budget cands picked
      else
        let picked := picked ++ [c] in
        if bool_decide (n ≤ Z.of_nat (length picked)) then picked
        else pick_within n (<[k := b - 1]> budget) cands picked
  end.

Definition find_instances_to_scaled_down_for_other_roles (t : Task) (x : ElasticExecutor) : option (list InstanceIdentifier) :=
  let ceding := ceding_roles (task_role t) x in
  let budget := foldl (λ b '(r, m, aw), <[(r, m) := Z.of_nat (length aw) - min_awake x]> b) ∅ ceding in
  let cands := flat_map (λ '(r, m, aw), map (mkIdent r m) aw) ceding in
  match pick_within (task_num t) budget (sort_lt (λ a b, fltb (get_instance_kv_cache_usage a x) (get_instance_kv_cache_usage b x)) cands) [] with
  | [] => None
  | picked => Some picked
  end.

Definition find_instances_to_scaled_down_in_role (t : Task) (x : ElasticExecutor) : option (list InstanceIdentifier) :=
  let all := in_status AWAKEN (role_status (task_role t) (task_model t) (flags x)) in
  match all with
  | [] => None
  | _ =>
      let room := Z.of_nat (length all) - min_awake x in
      if bool_decide (room ≤ 0) then None
      else
        let candidates := match task_preferred t with [] => all | pr => prefer pr all end in
        let kv i := get_instance_kv_cache_usage (mkIdent (task_role t) (task_model t) i) x in
        let sorted := sort_lt (λ a b, fltb (kv a) (kv b)) candidates in
        Some (mkIdent (task_role t) (task_model t) <$> slice_to (Z.min (task_num t) room) sorted)
  end.

(** ** One instance *)

(** [coordinators[role][model]] and [exec_command.remote]. *)
Definition send_command (k : InstanceIdentifier) (c : Command) : Ela unit :=
  x ← gets id;
  if bool_decide ((ident_role k, ident_model k) ∈ coordinators x)
  then modify (λ x, with_commands (commands x ++ [(ident_role k, ident_model k, c)]) x)
  else raise KeyError.

Definition set_both (k : InstanceIdentifier) (st : InstanceStatus) : Ela unit :=
  set_flag (ident_role k) (ident_model k) (ident_instance k) st ;;
  on_topology (set_status (ident_role k) (ident_model k) (ident_instance k) st).

Definition scale_up_begin (k : InstanceIdentifier) : Ela unit := send_command k (WAKE_UP [ident_instance k]).

Definition scale_up_end (k : InstanceIdentifier) (reply : CommandResult) : Ela unit :=
  match reply with None => mret tt | Some _ => set_both k AWAKEN end.

(** Whether the SLEEP command was sent. *)
Definition scale_down_begin (k : InstanceIdentifier) : Ela bool :=
  x ← gets id;
  let n := Z.of_nat (length (in_status AWAKEN (role_status (ident_role k) (ident_model k) (flags x)))) in
  let '(running, waiting) := get_instance_running_waiting k x in
  if bool_decide (n ≤ min_awake x) then mret false
  else if bool_decide (min_awake x = 0 ∧ n = 1 ∧ (0 < running ∨ 0 < waiting)) then mret false
  else send_command k (SLEEP [ident_instance k]) ;; mret true.

Definition scale_down_end (k : InstanceIdentifier) (reply : CommandResult) : Ela unit :=
  match reply with
  | None => mret tt
  | Some _ => set_both k ASLEEP ;; set_stats k None
  end.

(** [gather] over instances: every coroutine runs to its command, then resumes
    with its answer. *)
Definition scale_down_all (ks : list InstanceIdentifier) (reply : InstanceIdentifier → CommandResult) : Ela unit :=
  sent ← map_each ks (λ k, b ← scale_down_begin k; mret (k, b));
  for_each sent (λ '(k, b), if (b : bool) then scale_down_end k (reply k) else mret tt).

Definition scale_up_all (ks : list InstanceIdentifier) (reply : InstanceIdentifier → CommandResult) : Ela unit :=
  for_each ks scale_up_begin ;;
  for_each ks (λ k, scale_up_end k (reply k)).

(** ** After a scale-up: part of the waiting requests is sent back to the router *)

(** [math.floor] of a finite float. *)
Definition ffloor (x : float) : Z :=
  match x with
  | S754_finite s m e =>
      let z := if s then Zneg m else Zpos m in
      if bool_decide (0 ≤ e) then z * 2 ^ e else z / 2 ^ (- e)
  | _ => 0
  end.

Definition waiting_uids_for_abort_by_ratio (r : float) (uids : list Z) : list Z :=
  if fleb r fzero then []
  else if fleb fone r then uids
  else
    let n := Z.of_nat (length uids) in
    take (Z.to_nat (Z.min n (ffloor (fadd (fmul (of_Z n) r) (ratio 1 (10 ^ 12)))))) uids.

Definition interrupt_waiting_after_scale_up (r : PSRL_Role) (m : string) : Ela unit :=
  x ← gets id;
  match in_status AWAKEN (role_status r m (flags x)) with
  | [] => mret tt
  | aw =>
      let selected i := match stats_of (mkIdent r m i) x with
        | None => []
        | Some s => waiting_uids_for_abort_by_ratio (abort_waiting_ratio x) (omap id (snap_waiting_uids s))
        end in
      let uids := filter (λ p, p.2 ≠ []) ((λ i, (i, selected i)) <$> aw) in
      if bool_decide ((r, m) ∉ coordinators x) then mret tt
      else match uids with
      | [] => mret tt
      | _ => modify (λ x, with_commands (commands x ++ [(r, m, ABORT (Some uids) None)]) x)
      end
  end.

(** ** The three loops *)

(** [try: ... finally: ...] *)
Definition finally {A} (m : Ela A) (f : Ela unit) : Ela A := λ x,
  match m x with
  | Ret a x' => match f x' with Ret _ x'' => Ret a x'' | Raise e x'' => Raise e x'' end
  | Raise e x' => match f x' with Ret _ x'' => Raise e x'' | Raise e' x'' => Raise e' x'' end
  end.

Definition scale_up_task (t : Task) (reply : InstanceIdentifier → CommandResult) : Ela unit :=
  x ← gets id;
  (match find_instances_to_scaled_down_for_other_roles t x with
   | Some ks => scale_down_all ks reply
   | None => mret tt
   end) ;;
  x ← gets id;
  match find_instances_to_scaled_up t x with
  | None => mret tt
  | Some ks =>
      scale_up_all ks reply ;;
      interrupt_waiting_after_scale_up (task_role t) (task_model t)
  end.

Definition scale_up_round (reply : InstanceIdentifier → CommandResult) : Ela unit :=
  x ← gets id;
  match scale_up_queue x with
  | [] => mret tt
  | t :: q =>
      modify (λ x, with_queues q (scale_down_queue x) x) ;;
      finally (scale_up_task t reply) (mark_decision_action_finished (task_decision t))
  end.

Definition scale_down_task (t : Task) (reply : InstanceIdentifier → CommandResult) : Ela unit :=
  x ← gets id;
  match find_instances_to_scaled_down_in_role t x with
  | None => mret tt
  | Some ks => scale_down_all ks reply
  end.

Definition scale_down_round (reply : InstanceIdentifier → CommandResult) : Ela unit :=
  x ← gets id;
  match scale_down_queue x with
  | [] => mret tt
  | t :: q =>
      modify (λ x, with_queues (scale_up_queue x) q x) ;;
      finally (scale_down_task t reply) (mark_decision_action_finished (task_decision t))
  end.

(** What the monitor does with a decision. *)
Definition is_blocked (d : ScalingDecision) : bool :=
  match actions d, reason d with [], decision_execution_in_progress => true | _, _ => false end.

Definition enqueue (id : Z) (a : ScalingAction) : Ela unit :=
  let t := mkTask (act_role a) (act_model a) (num_instances a) (preferred_instance_ids a) (Some id) in
  match action_type a with
  | scale_up => modify (λ x, with_queues (scale_up_queue x ++ [t]) (scale_down_queue x) x)
  | scale_down => modify (λ x, with_queues (scale_up_queue x) (scale_down_queue x ++ [t]) x)
  end.

Definition apply_decision (d : ScalingDecision) : Ela unit :=
  (if is_blocked d then
     x ← gets id;
     modify (with_stall (stall_ticks x + 1)) ;;
     if bool_decide (0 < abandon_stall_ticks x ∧ abandon_stall_ticks x ≤ stall_ticks x + 1)
     then abandon_in_flight_decision else mret tt
   else modify (with_stall 0)) ;;
  match actions d with
  | [] => mret tt
  | acts =>
      x ← gets id;
      let did := next_decision_id x in
      modify (λ x, with_decisions true (did + 1) (<[did := Z.of_nat (length acts)]> (pending_action_counts x)) x) ;;
      for_each acts (enqueue did)
  end.

(** One iteration of [_monitor_loop]; exceptions are logged and dropped. *)
Section monitor.
Context (pow : float → float → float) (fsum : list float → float).
Context (formula : string → option (option Formula)) (profile : InstanceSignal → option ProfileEntry).

Definition monitor_body (statuses : list (option (list (RolloutInstanceId * option Snapshot)))) (backlogs : list (option Z))
    (hint : option TrainerHint) (now now_lambda : float) (age : string → option float) : Ela unit :=
  sync_engine_status statuses ;;
  sync_router_backlog backlogs ;;
  sync_trainer_hint hint ;;
  signals ← build_instance_signals;
  x ← gets id;
  let '(d, p) := decide_scaling pow fsum formula profile signals (execution_in_progress x) (router_backlog x)
                   (trainer_waiting_hint x) now now_lambda age (scaling_policy x) in
  modify (with_policy p) ;;
  apply_decision d.

Definition monitor_tick statuses backlogs hint now now_lambda age (x : ElasticExecutor) : ElasticExecutor :=
  final (monitor_body statuses backlogs hint now now_lambda age x).
End monitor.

(** ** Flags *)

Definition flag_of (k : InstanceIdentifier) (x : ElasticExecutor) : option InstanceStatus :=
  assoc (ident_instance k) (role_status (ident_role k) (ident_model k) (flags x)).

(** Writing the entry of one role and model. *)
Lemma role_status_set r m r' m' insts (f : Flags) :
  role_status r' m' (dict_set r (dict_set m insts (default [] (assoc r f))) f) =
  if decide ((r, m) = (r', m')) then insts else role_status r' m' f.
Proof.
  unfold role_status. rewrite assoc_dict_set. destruct (decide (r = r')) as [<-|]; simpl.
  - rewrite assoc_dict_set. destruct (decide (m = m')) as [<-|]; simpl; [by rewrite decide_True|].
    rewrite decide_False by congruence. by destruct (assoc r f).
  - by rewrite decide_False by congruence.
Qed.

Lemma setdefault_status r m r' m' f : role_status r' m' (setdefault r m f) = role_status r' m' f.
Proof.
  unfold setdefault. rewrite role_status_set. case_decide; [|done]. simplify_eq. unfold role_status.
  by destruct (assoc r' f).
Qed.

Definition has_entry (r : PSRL_Role) (m : string) (f : Flags) : Prop := is_Some (assoc r f ≫= assoc m).

Lemma set_flag_run r m i st x :
  set_flag r m i st x = Raise KeyError x ∨
  has_entry r m (flags x) ∧ ∃ f, set_flag r m i st x = Ret tt (with_flags f x) ∧
    (∀ r' m', role_status r' m' f = if decide ((r, m) = (r', m')) then dict_set i st (role_status r m (flags x)) else role_status r' m' (flags x)) ∧
    (∀ r' m', has_entry r' m' (flags x) → has_entry r' m' f).
Proof.
  unfold set_flag, has_entry. mrun. destruct (assoc r (flags x)) as [ms|] eqn:Er; [|by left].
  rewrite (run_of_option _ _ ms) by done. destruct (assoc m ms) as [insts|] eqn:Em; [|by left].
  rewrite (run_of_option _ _ insts) by done. right. split; [simpl; by rewrite Em|]. eexists. split; [done|].
  assert (role_status r m (flags x) = insts) as Hst by (unfold role_status; rewrite Er; simpl; by rewrite Em).
  assert (default [] (assoc r (flags x)) = ms) as Hms by (by rewrite Er). rewrite <-Hms. split.
  - intros r' m'. rewrite role_status_set. by rewrite Hst.
  - intros r' m'. rewrite assoc_dict_set. case_decide as Hr; [|done]. simpl. rewrite assoc_dict_set. subst r'.
    rewrite Er. by case_decide.
Qed.

Lemma set_flag_flag_of r m i st x x' k :
  set_flag r m i st x = Ret tt x' → flag_of k x' = if decide (mkIdent r m i = k) then Some st else flag_of k x.
Proof.
  destruct (set_flag_run r m i st x) as [->|(_ & f & -> & Hf & _)]; [done|]. intros [= <-]. unfold flag_of. simpl. rewrite Hf.
  destruct k as [r' m' i']. simpl. case_decide as Hk; simplify_eq.
  - rewrite assoc_dict_set. repeat case_decide; simplify_eq; done.
  - rewrite decide_False; [done|]. by intros ?; simplify_eq.
Qed.

(** ** Flags and topology agree *)

Record flags_ok (x : ElasticExecutor) : Prop := {
  fl_topology : topology_ok (topology x);
  fl_agree : ∀ k, flag_of k x = info_status <$> instances (topology x) !! k;
}.

Lemma flag_of_entry k x : is_Some (flag_of k x) → has_entry (ident_role k) (ident_model k) (flags x).
Proof. unfold flag_of, role_status, has_entry. destruct (_ ≫= _); [done|]. simpl. intros [? [=]]. Qed.

Lemma set_status_run r m i st t info :
  instances t !! mkIdent r m i = Some info →
  set_status r m i st t = Ret tt (with_instances (<[mkIdent r m i := mkInfo (mkIdent r m i) (info_slots info) st]> (instances t)) t).
Proof. intros E. unfold set_status. mrun. by rewrite (run_of_option _ _ info). Qed.

Lemma set_both_run k st x :
  flags_ok x → is_Some (flag_of k x) →
  ∃ x', set_both k st x = Ret tt x' ∧ flags_ok x' ∧ (∀ k', flag_of k' x' = if decide (k = k') then Some st else flag_of k' x) ∧
    pending_action_counts x' = pending_action_counts x ∧ execution_in_progress x' = execution_in_progress x ∧
    next_decision_id x' = next_decision_id x.
Proof.
  intros [Htop Hag] Hk. pose proof (flag_of_entry _ _ Hk) as Hent. destruct k as [r m i]. unfold set_both. simpl in *.
  destruct (set_flag_run r m i st x) as [E|(_ & f & E & Hf & _)].
  { exfalso. destruct Hent as [insts Hent]. destruct (assoc r (flags x)) as [ms|] eqn:Er; [|done]. simpl in Hent.
    unfold set_flag in E. revert E. mrun. rewrite (run_of_option _ _ ms) by done. by rewrite (run_of_option _ _ insts). }
  pose proof (set_flag_flag_of _ _ _ _ _ _ (mkIdent r m i) E) as _.
  rewrite (run_bind _ _ _ _ _ E). unfold on_topology, zoom. simpl.
  rewrite Hag in Hk. destruct (instances (topology x) !! mkIdent r m i) as [info|] eqn:Ei; [|by destruct Hk].
  rewrite (set_status_run _ _ _ _ _ info) by done. eexists. split; [done|].
  assert (∀ k', flag_of k' (with_flags f x) = if decide (mkIdent r m i = k') then Some st else flag_of k' x) as Hfl
    by (intros k'; by apply (set_flag_flag_of _ _ _ _ _ _ k' E)).
  split; [|done]. split; simpl.
  - pose proof (set_status_ok r m i st (topology x) Htop) as H. by rewrite (set_status_run _ _ _ _ _ info) in H by done.
  - intros k'. change (flag_of k' (with_flags f x) = info_status <$> <[mkIdent r m i := mkInfo (mkIdent r m i) (info_slots info) st]> (instances (topology x)) !! k').
    rewrite Hfl, lookup_insert, Hag. case_decide; done.
Qed.

Definition placement (x : ElasticExecutor) := (flags x, topology x).

Lemma flags_ok_placement x x' : placement x' = placement x → flags_ok x → flags_ok x'.
Proof. intros [= Hf Ht] [H1 H2]. split; [by rewrite Ht|]. intros k. unfold flag_of. rewrite Hf, Ht. apply H2. Qed.

Lemma keeps_send_command {T} (f : ElasticExecutor → T) k c : (∀ v x, f (with_commands v x) = f x) → keeps f (send_command k c).
Proof. intros Hf. unfold send_command. keeps_tac. Qed.

Lemma keeps_scale_down_begin {T} (f : ElasticExecutor → T) k : (∀ v x, f (with_commands v x) = f x) → keeps f (scale_down_begin k).
Proof.
  intros Hf. unfold scale_down_begin. apply keeps_bind; [apply keeps_gets|intros x].
  destruct (get_instance_running_waiting k x). keeps_tac.
Qed.

Lemma keeps_interrupt {T} (f : ElasticExecutor → T) r m : (∀ v x, f (with_commands v x) = f x) → keeps f (interrupt_waiting_after_scale_up r m).
Proof. intros Hf. unfold interrupt_waiting_after_scale_up. keeps_tac. Qed.

Lemma keeps_mark {T} (f : ElasticExecutor → T) d :
  (∀ b n c x, f (with_decisions b n c x) = f x) → keeps f (mark_decision_action_finished d).
Proof. intros Hf. unfold mark_decision_action_finished. keeps_tac. Qed.

Lemma keeps_apply_decision d : keeps placement (apply_decision d).
Proof.
  assert (∀ i a, keeps placement (enqueue i a)) by (intros i a; unfold enqueue; destruct (action_type a); keeps_tac).
  unfold apply_decision, abandon_in_flight_decision. keeps_tac. all: apply H.
Qed.

Lemma keeps_monitor pow fsum formula profile st bl h now nl age : keeps placement (monitor_body pow fsum formula profile st bl h now nl age).
Proof.
  unfold monitor_body, sync_engine_status, sync_router_backlog, sync_trainer_hint, build_instance_signals, set_stats.
  apply keeps_bind; [keeps_tac|intros _]. apply keeps_bind; [keeps_tac|intros _]. apply keeps_bind; [keeps_tac|intros _].
  apply keeps_bind; [keeps_tac|intros signals]. apply keeps_bind; [keeps_tac|intros x].
  destruct (decide_scaling _ _ _ _ _ _ _ _ _ _ _ _) as [d p]. apply keeps_bind; [keeps_tac|intros _]. apply keeps_apply_decision.
Qed.

Lemma register_instance_ok r m i g now x :
  flags_ok x → has_entry r m (flags x) →
  ∃ x', (set_flag r m i ASLEEP ;; set_stats (mkIdent r m i) (Some (default_snapshot now)) ;;
         on_topology (register r m i (Some g) ASLEEP) ;; mret tt) x = Ret tt x' ∧ flags_ok x' ∧ has_entry r m (flags x').
Proof.
  intros [Htop Hag] Hent. destruct (set_flag_run r m i ASLEEP x) as [E|(_ & f & E & Hf & Hent')].
  { exfalso. destruct Hent as [insts Hent]. destruct (assoc r (flags x)) as [ms|] eqn:Er; [|done]. simpl in Hent.
    unfold set_flag in E. revert E. mrun. rewrite (run_of_option _ _ ms) by done. by rewrite (run_of_option _ _ insts). }
  rewrite (run_bind _ _ _ _ _ E). unfold set_stats. mrun. unfold on_topology, zoom. unfold mbind at 1, M_bind at 1. simpl.
  rewrite register_run. eexists. split; [done|]. split; [|simpl; by apply Hent'].
  assert (∀ k', flag_of k' (with_flags f x) = if decide (mkIdent r m i = k') then Some ASLEEP else flag_of k' x) as Hfl
    by (intros k'; by apply (set_flag_flag_of _ _ _ _ _ _ k' E)).
  set (k := mkIdent r m i) in *. split; simpl; [by apply replace_instance_ok|].
  intros k'. change (flag_of k' (with_flags f x) =
    info_status <$> instances (add_to_reverse_index k (with_instances (<[k:=mkInfo k g ASLEEP]> (instances (topology x))) (remove_from_reverse_index k (topology x)))) !! k').
  rewrite Hfl. unfold add_to_reverse_index. simpl. rewrite lookup_insert_eq. simpl. rewrite lookup_insert, Hag. by case_decide.
Qed.

Lemma register_role_ok r m ids slots now x : flags_ok x → flags_ok (final (register_role r m ids slots now x)).
Proof.
  intros Hok. unfold register_role. case_bool_decide; [done|]. mrun. set (x1 := with_flags _ x).
  assert (flags_ok x1) as Hok1.
  { destruct Hok as [H1 H2]. split; [done|]. intros k. unfold flag_of, x1. simpl. rewrite setdefault_status. apply H2. }
  assert (has_entry r m (flags x1)) as Hent.
  { unfold x1, has_entry, setdefault. simpl. rewrite assoc_dict_set, decide_True by done. simpl. by rewrite assoc_dict_set, decide_True. }
  destruct (for_each_total (λ _ x, flags_ok x ∧ has_entry r m (flags x)) (zip ids slots) (λ '(i, g),
      set_flag r m i ASLEEP ;; set_stats (mkIdent r m i) (Some (default_snapshot now)) ;;
      on_topology (register r m i (Some g) ASLEEP) ;; mret tt) x1) as (x' & Hrun & Hok' & _); [|done|].
  { intros [i g] l y [Hy He]. destruct (register_instance_ok r m i g now y Hy He) as (y' & ? & ? & ?). by exists y'. }
  by rewrite Hrun.
Qed.

Lemma select_initial_ok r m target mn x : flags_ok x → flags_ok (final (select_initial_awake_ids r m target mn x)).
Proof.
  intros Hok. unfold select_initial_awake_ids. mrun.
  destruct (select_non_conflicting_awake_ids r m (role_status r m (flags x)).*1 target mn (topology x)) as [e|sel] eqn:E; [done|].
  pose proof (select_registered _ _ _ _ _ _ _ E) as Hreg. rewrite (run_of_res _ sel) by done.
  destruct (for_each_total (λ l y, flags_ok y ∧ ∀ i, i ∈ l → is_Some (flag_of (mkIdent r m i) y)) sel
    (λ i, set_both (mkIdent r m i) AWAKEN) x) as (x' & Hrun & Hok' & _).
  - intros i l y [Hy Hall]. destruct (set_both_run (mkIdent r m i) AWAKEN y Hy) as (y' & Hy' & Hok' & Hfl & _); [apply Hall; set_solver|].
    exists y'. split_and!; [done..|]. intros j Hj. rewrite Hfl. case_decide; [done|]. apply Hall. set_solver.
  - split; [done|]. intros i Hi. destruct (Hreg i Hi) as [info Hinfo]. rewrite (fl_agree x Hok), Hinfo. done.
  - unfold set_both in Hrun. simpl in Hrun. by rewrite (run_bind _ _ _ _ _ Hrun).
Qed.

(** ** Reachable executors *)

Inductive executor_step : ElasticExecutor → ElasticExecutor → Prop :=
  | st_register r m ids slots now x : executor_step x (final (register_role r m ids slots now x))
  | st_select r m target mn x : executor_step x (final (select_initial_awake_ids r m target mn x))
  | st_monitor pow fsum formula profile st bl h now nl age x :
      executor_step x (monitor_tick pow fsum formula profile st bl h now nl age x)
  | st_up_begin k x : executor_step x (final (scale_up_begin k x))
  | st_up_end k reply x : is_Some (flag_of k x) → executor_step x (final (scale_up_end k reply x))
  | st_down_begin k x : executor_step x (final (scale_down_begin k x))
  | st_down_end k reply x : is_Some (flag_of k x) → executor_step x (final (scale_down_end k reply x))
  | st_interrupt r m x : executor_step x (final (interrupt_waiting_after_scale_up r m x))
  | st_take up down x : executor_step x (with_queues up down x)
  | st_finish d x : executor_step x (final (mark_decision_action_finished d x)).

Lemma new_executor_ok rs coords p abandon ratio : flags_ok (new_executor rs coords p abandon ratio).
Proof.
  split; [apply new_topology_ok|]. intros k. simpl. rewrite lookup_empty. unfold flag_of. simpl.
  assert (∀ f, role_status (ident_role k) (ident_model k) (foldl (λ f '(r, m), setdefault r m f) f rs)
    = role_status (ident_role k) (ident_model k) f) as ->; [|done].
  induction rs as [|[r m] rs IH]; intros f; simpl; [done|]. by rewrite IH, setdefault_status.
Qed.

Lemma executor_step_ok x x' : executor_step x x' → flags_ok x → flags_ok x'.
Proof.
  intros Hstep Hok. pose proof (λ y H, flags_ok_placement x y H Hok) as Hkeep. destruct Hstep.
  - by apply register_role_ok.
  - by apply select_initial_ok.
  - apply Hkeep, keeps_monitor.
  - apply Hkeep. refine (keeps_send_command placement _ _ _ _). done.
  - destruct reply; [|done]. simpl. by destruct (set_both_run k AWAKEN x Hok H) as (y & -> & ? & _).
  - apply Hkeep. by apply keeps_scale_down_begin.
  - destruct reply; [|done]. simpl. destruct (set_both_run k ASLEEP x Hok H) as (y & Hy & Hoky & _).
    rewrite (run_bind _ _ _ _ _ Hy). simpl. by apply (flags_ok_placement y).
  - apply Hkeep. by apply keeps_interrupt.
  - by apply Hkeep.
  - apply Hkeep. by apply keeps_mark.
Qed.

Definition executor_reachable (x : ElasticExecutor) : Prop :=
  ∃ rs coords p abandon ratio, rtc executor_step (new_executor rs coords p abandon ratio) x.

Lemma executor_reachable_ok x : executor_reachable x → flags_ok x.
Proof.
  intros (rs & coords & p & abandon & ratio & Hr). pose proof (new_executor_ok rs coords p abandon ratio) as Hok.
  induction Hr; eauto using executor_step_ok.
Qed.

Lemma reachable_register r m ids slots now x :
  executor_reachable x → executor_reachable (final (register_role r m ids slots now x)).
Proof. intros (rs & coords & p & abandon & ratio & Hr). exists rs, coords, p, abandon, ratio. eapply rtc_r; [done|constructor]. Qed.

Lemma reachable_select r m target mn x :
  executor_reachable x → executor_reachable (final (select_initial_awake_ids r m target mn x)).
Proof. intros (rs & coords & p & abandon & ratio & Hr). exists rs, coords, p, abandon, ratio. eapply rtc_r; [done|constructor]. Qed.

(** ** What is woken and what is put to sleep *)

Lemma elem_of_in_status st i l : i ∈ in_status st l ↔ (i, st) ∈ l.
Proof.
  unfold in_status. rewrite list_elem_of_fmap. split.
  - intros ([j st'] & -> & [Hst Hin]%list_elem_of_filter). simpl in *. by subst.
  - intros Hin. exists (i, st). split; [done|]. by apply list_elem_of_filter.
Qed.

Lemma elem_of_prefer i pr l : i ∈ prefer pr l → i ∈ l.
Proof. unfold prefer. case_match eqn:E; [done|]. rewrite <-E. by intros [_ ?]%list_elem_of_filter. Qed.

Lemma elem_of_slice_to {A} n (l : list A) a : a ∈ slice_to n l → a ∈ l.
Proof. unfold slice_to. set (n' := Z.to_nat _). intros Ha. rewrite <-(take_drop n' l). apply elem_of_app. by left. Qed.

Lemma elem_of_wake_candidates i pr all ok : i ∈ wake_candidates pr all ok → i ∈ all ∧ ok i = true.
Proof.
  unfold wake_candidates. destruct pr as [|p ps].
  - destruct (filter _ all) eqn:E; rewrite <-E; intros []%list_elem_of_filter; done.
  - destruct (filter _ (prefer _ all)) eqn:E; [intros []%list_elem_of_filter; done|].
    rewrite <-E. intros [? Hi%elem_of_prefer]%list_elem_of_filter. done.
Qed.

(** C21: In every reachable executor the status flags and the topology agree on every
    instance, and the instances chosen for a wake-up belong to the task's role and
    model, are asleep, and share no GPU with an awake instance of another role. *)
Theorem wake_targets_conflict_free (x : ElasticExecutor) (t : Task) :
  executor_reachable x →
  (∀ k, flag_of k x = info_status <$> instances (topology x) !! k) ∧
  ∀ ks k, find_instances_to_scaled_up t x = Some ks → k ∈ ks →
    ident_role k = task_role t ∧ ident_model k = task_model t ∧
    (ident_instance k, ASLEEP) ∈ role_status (task_role t) (task_model t) (flags x) ∧
    ¬ conflicts (task_role t) k (topology x).
Proof.
  intros Hok%executor_reachable_ok. split; [apply Hok|]. intros ks k. unfold find_instances_to_scaled_up.
  destruct (in_status ASLEEP _) as [|i0 all'] eqn:Eall; [done|]. rewrite <-Eall. clear Eall i0 all'.
  destruct (wake_candidates _ _ _) as [|c0 cs] eqn:Ec; [done|]. intros [= <-] (i & -> & Hi%elem_of_slice_to)%list_elem_of_fmap.
  rewrite <-Ec in Hi. apply elem_of_wake_candidates in Hi as [Hin Hoki]. split_and!; [done..|by apply elem_of_in_status|].
  intros Hconf. apply (has_other_role_exact _ _ _ _ (fl_topology x Hok)) in Hconf. by rewrite Hconf in Hoki.
Qed.

(** ** The number of awake instances *)

Definition awake_count (r : PSRL_Role) (m : string) (x : ElasticExecutor) : Z :=
  Z.of_nat (length (in_status AWAKEN (role_status r m (flags x)))).

Lemma in_status_dict_set i st l :
  (length (in_status AWAKEN l) ≤ S (length (in_status AWAKEN (dict_set i st l))))%nat.
Proof.
  unfold in_status. rewrite !length_fmap. induction l as [|[i0 st0] l IH]; simpl; [lia|].
  case_decide as Hi; rewrite !filter_cons; simpl; repeat case_decide; simpl; lia.
Qed.

Lemma set_flag_count r m r' m' i st x :
  awake_count r' m' x ≤ awake_count r' m' (final (set_flag r m i st x)) + (if decide ((r, m) = (r', m')) then 1 else 0).
Proof.
  destruct (set_flag_run r m i st x) as [->|(_ & f & -> & Hf & _)]; [simpl; case_decide; lia|].
  unfold awake_count. simpl. rewrite Hf. destruct (decide ((r, m) = (r', m'))) as [[= -> ->]|]; [|lia]. pose proof (in_status_dict_set i st (role_status r' m' (flags x))). lia.
Qed.

Lemma keeps_final_bind {S A B T} (f : S → T) (m : M S A) (k : A → M S B) s :
  (∀ a, keeps f (k a)) → f (final ((m ≫= k) s)) = f (final (m s)).
Proof. intros Hk. unfold mbind, M_bind. destruct (m s); [apply Hk|done]. Qed.

Lemma scale_down_end_count k reply r m x :
  awake_count r m x ≤ awake_count r m (final (scale_down_end k reply x)) + 1.
Proof.
  destruct reply; simpl; [|lia]. unfold set_both.
  assert (∀ x y, flags y = flags x → awake_count r m y = awake_count r m x) as Hc by (unfold awake_count; by intros ?? ->).
  match goal with |- _ ≤ awake_count r m ?y + 1 =>
    rewrite (Hc (final (set_flag (ident_role k) (ident_model k) (ident_instance k) ASLEEP x)) y) end.
  - pose proof (set_flag_count (ident_role k) (ident_model k) r m (ident_instance k) ASLEEP x). case_decide; lia.
  - rewrite (keeps_final_bind flags) by (intros; apply keeps_modify; done).
    apply (keeps_final_bind flags). intros. by apply keeps_zoom_outside.
Qed.

Lemma scale_down_ends_count (l : list (InstanceIdentifier * bool)) reply r m x :
  awake_count r m x ≤
  awake_count r m (final (for_each l (λ '(k, b), if (b : bool) then scale_down_end k (reply k) else mret tt) x)) + Z.of_nat (length l).
Proof.
  revert x. induction l as [|[k b] l IH]; intros x; simpl; [lia|].
  assert (awake_count r m x ≤ awake_count r m (final ((if b then scale_down_end k (reply k) else mret tt) x)) + 1) as H1.
  { destruct b; [apply scale_down_end_count|simpl; lia]. }
  unfold mbind, M_bind. destruct b; simpl in *; [|specialize (IH x); lia].
  destruct (scale_down_end k (reply k) x) as [u y|e y]; simpl in *; [specialize (IH y)|]; lia.
Qed.

Lemma map_each_length {S A B} (l : list A) (f : A → M S B) s ys s' : map_each l f s = Ret ys s' → length ys = length l.
Proof. revert s ys s'. induction l as [|a l IH]; intros s ys s' H; simpl in H; minv; [done|]. simpl. f_equal. eauto. Qed.

Lemma scale_down_all_count ks reply r m x :
  awake_count r m x ≤ awake_count r m (final (scale_down_all ks reply x)) + Z.of_nat (length ks).
Proof.
  assert (keeps flags (map_each ks (λ k, b ← scale_down_begin k; mret (k, b)))) as Hk.
  { apply keeps_map_each. intros k. apply keeps_bind; [by apply keeps_scale_down_begin|]. intros. apply keeps_ret. }
  specialize (Hk x). unfold scale_down_all. unfold mbind at 1, M_bind at 1.
  destruct (map_each ks _ x) as [sent y|e y] eqn:E; simpl in *.
  - apply map_each_length in E. unfold awake_count at 1. rewrite <-Hk, <-E. apply (scale_down_ends_count sent reply r m y).
  - unfold awake_count. rewrite Hk. lia.
Qed.

(** Carrying out one scale-down task (for a non-negative number of instances) leaves at least [min_awake_per_role]
    instances of its role and model awake whenever there were that many, whatever
    the coordinators answer and even when the task ends in an exception. *)
Theorem scale_down_task_keeps_minimum (t : Task) (reply : InstanceIdentifier → CommandResult) (x : ElasticExecutor) :
  0 ≤ task_num t →
  min_awake x ≤ awake_count (task_role t) (task_model t) x →
  min_awake x ≤ awake_count (task_role t) (task_model t) (final (scale_down_task t reply x)).
Proof.
  intros Hnum Hmin. unfold scale_down_task. mrun.
  destruct (find_instances_to_scaled_down_in_role t x) as [ks|] eqn:E; [|done].
  pose proof (scale_down_all_count ks reply (task_role t) (task_model t) x) as Hc. unfold find_instances_to_scaled_down_in_role in E.
  destruct (in_status AWAKEN _) as [|i0 l] eqn:Eall; [done|]. rewrite <-Eall in E.
  case_bool_decide as Hroom; [done|]. injection E as E.
  fold (awake_count (task_role t) (task_model t) x) in *.
  enough (Z.of_nat (length ks) ≤ awake_count (task_role t) (task_model t) x - min_awake x) by lia.
  subst ks. rewrite length_fmap. unfold slice_to. rewrite length_take, bool_decide_false by lia.
  unfold awake_count in *. lia.
Qed.

(** ** What the coordinators answer

    The answer of a coordinator to one command: the caller's wait ended after a
    round of the command loop, or it timed out. *)
Definition coordinator_reply (c : Command) (r : CommandResult) : Prop :=
  ∃ count sleeping gateway i q e e1,
    command_queue e = (i, c) :: q ∧
    (exec_end i false e = Ret r e1 ∨
     ∃ e', command_handler_round count sleeping gateway e = Ret tt e' ∧ exec_end i true e' = Ret r e1).

Lemma coordinator_reply_none c r :
  match c with ABORT _ _ => False | _ => True end → coordinator_reply c r → r = None.
Proof.
  intros Hc (count & sleeping & gateway & i & q & e & e1 & Hq & [H|(e' & Hrun & Hend)]).
  - unfold exec_end in H. minv. done.
  - assert (∃ r', command_results e' !! i = Some r' ∧ match c with ABORT _ _ => True | _ => r' = None end) as (r' & Hr & HQ).
    { unfold command_handler_round in Hrun. revert Hrun. mrun. rewrite Hq. mrun. intros Hrun.
      by apply handle_completes in Hrun as (_ & ?). }
    rewrite exec_end_run, Hr in Hend. simpl in Hend. destruct c; simplify_eq; done.
Qed.

Lemma keeps_finally {A T} (f : ElasticExecutor → T) (m : Ela A) g : keeps f m → keeps f g → keeps f (finally m g).
Proof.
  intros Hm Hg x. unfold finally. specialize (Hm x). destruct (m x) as [a y|e y]; simpl in *.
  - specialize (Hg y). destruct (g y); simpl in *; congruence.
  - specialize (Hg y). destruct (g y); simpl in *; congruence.
Qed.

Section none_replies.
Context (reply : InstanceIdentifier → CommandResult) (Hnone : ∀ k, reply k = None).

Lemma keeps_scale_down_all ks : keeps placement (scale_down_all ks reply).
Proof.
  unfold scale_down_all. apply keeps_bind; [|intros sent].
  - apply keeps_map_each. intros k. apply keeps_bind; [by apply keeps_scale_down_begin|]. intros. apply keeps_ret.
  - apply keeps_for_each. intros [k []]; [|apply keeps_ret]. unfold scale_down_end. rewrite Hnone. apply keeps_ret.
Qed.

Lemma keeps_scale_up_all ks : keeps placement (scale_up_all ks reply).
Proof.
  unfold scale_up_all. apply keeps_bind; [|intros _]; apply keeps_for_each; intros k.
  - refine (keeps_send_command placement _ _ _). done.
  - unfold scale_up_end. rewrite Hnone. apply keeps_ret.
Qed.

Lemma keeps_scale_up_round : keeps placement (scale_up_round reply).
Proof.
  unfold scale_up_round. apply keeps_bind; [apply keeps_gets|intros x]. destruct (scale_up_queue x) as [|t q]; [apply keeps_ret|].
  apply keeps_bind; [by apply keeps_modify|intros _]. apply keeps_finally; [|by apply keeps_mark].
  unfold scale_up_task. apply keeps_bind; [apply keeps_gets|intros y]. apply keeps_bind.
  { case_match; [apply keeps_scale_down_all|apply keeps_ret]. }
  intros _. apply keeps_bind; [apply keeps_gets|intros z]. case_match; [|apply keeps_ret].
  apply keeps_bind; [apply keeps_scale_up_all|intros _]. by apply keeps_interrupt.
Qed.

Lemma keeps_scale_down_round : keeps placement (scale_down_round reply).
Proof.
  unfold scale_down_round. apply keeps_bind; [apply keeps_gets|intros x]. destruct (scale_down_queue x) as [|t q]; [apply keeps_ret|].
  apply keeps_bind; [by apply keeps_modify|intros _]. apply keeps_finally; [|by apply keeps_mark].
  unfold scale_down_task. apply keeps_bind; [apply keeps_gets|intros y]. case_match; [apply keeps_scale_down_all|apply keeps_ret].
Qed.
End none_replies.

(** Executor and coordinators together: the command loop answers None to SLEEP
    and WAKE_UP whether they were executed or timed out, and the executor takes
    None for a failure, so no scale-up or scale-down round ever changes the status
    flags or the topology.  The executor goes on with the placement of its
    bootstrap whatever is awake in the cluster. *)
Theorem scaling_never_recorded (reply : InstanceIdentifier → CommandResult) (x : ElasticExecutor) :
  (∀ k, coordinator_reply (SLEEP [ident_instance k]) (reply k) ∨ coordinator_reply (WAKE_UP [ident_instance k]) (reply k)) →
  let up := final (scale_up_round reply x) in
  let down := final (scale_down_round reply x) in
  flags up = flags x ∧ topology up = topology x ∧ flags down = flags x ∧ topology down = topology x.
Proof.
  intros Hreply up down.
  assert (∀ k, reply k = None) as Hnone by (intros k; destruct (Hreply k) as [H|H]; by apply coordinator_reply_none in H).
  pose proof (keeps_scale_up_round reply Hnone x) as [= ??]. pose proof (keeps_scale_down_round reply Hnone x) as [= ??]. done.
Qed.

(** ** Decisions in flight *)

Fixpoint finish_times (n : nat) (d : Z) (x : ElasticExecutor) : ElasticExecutor :=
  match n with O => x | S n => finish_times n d (final (mark_decision_action_finished (Some d) x)) end.

Lemma finish_times_busy n k d x :
  execution_in_progress x = true → pending_action_counts x = {[d := Z.of_nat k]} → (n < k)%nat →
  execution_in_progress (finish_times n d x) = true ∧ pending_action_counts (finish_times n d x) = {[d := Z.of_nat (k - n)]}.
Proof.
  revert k x. induction n as [|n IH]; intros k x Hb Hp Hlt; simpl; [by rewrite Nat.sub_0_r|].
  unfold mark_decision_action_finished. mrun. rewrite Hp, lookup_singleton_eq. rewrite bool_decide_true by lia. simpl.
  replace (k - S n)%nat with ((k - 1) - n)%nat by lia. apply IH; simpl; [done| |lia].
  rewrite Hp, insert_singleton_eq. f_equal. lia.
Qed.

Lemma finish_last d x :
  pending_action_counts x = {[d := 1]} →
  execution_in_progress (final (mark_decision_action_finished (Some d) x)) = false ∧
  pending_action_counts (final (mark_decision_action_finished (Some d) x)) = ∅.
Proof.
  intros Hp. unfold mark_decision_action_finished. mrun. rewrite Hp, lookup_singleton_eq. rewrite bool_decide_false by lia. simpl.
  rewrite delete_singleton_eq. by rewrite bool_decide_true.
Qed.

Lemma finish_times_S n d x : finish_times (S n) d x = final (mark_decision_action_finished (Some d) (finish_times n d x)).
Proof. revert x. induction n as [|n IH]; intros x; [done|]. simpl. simpl in IH. by rewrite IH. Qed.

Lemma enqueue_all_run did acts x :
  ∃ up down, for_each acts (enqueue did) x = Ret tt (with_queues (scale_up_queue x ++ up) (scale_down_queue x ++ down) x) ∧
    (length up + length down = length acts)%nat ∧ Forall (λ t, task_decision t = Some did) (up ++ down).
Proof.
  revert x. induction acts as [|a acts IH]; intros x; simpl.
  { exists [], []. rewrite !app_nil_r. split_and!; [by destruct x|done|constructor]. }
  assert (∃ u d, enqueue did a x = Ret tt (with_queues (scale_up_queue x ++ u) (scale_down_queue x ++ d) x) ∧
    (length u + length d = 1)%nat ∧ Forall (λ t, task_decision t = Some did) (u ++ d)) as (u & d & E & Hl & Hd).
  { unfold enqueue. set (t := mkTask _ _ _ _ _). destruct (action_type a); [exists [t], []|exists [], [t]];
      (split_and!; [unfold modify; by rewrite app_nil_r|simpl; lia|by repeat constructor]). }
  rewrite (run_bind _ _ _ _ _ E). destruct (IH (with_queues (scale_up_queue x ++ u) (scale_down_queue x ++ d) x)) as (u' & d' & -> & Hl' & Hd').
  exists (u ++ u'), (d ++ d'). simpl. rewrite !app_assoc. split_and!; [done|rewrite !length_app; lia|].
  apply Forall_app in Hd as [??], Hd' as [??]. rewrite <-!app_assoc. repeat (apply Forall_app; split); done.
Qed.

(** Accepting a decision with [n] actions blocks the policy and queues one task
    per action under a new decision id; the policy stays blocked after fewer than
    [n] finished tasks and is free again after exactly [n]. *)
Theorem decision_lifecycle (d : ScalingDecision) (x : ElasticExecutor) :
  actions d ≠ [] → pending_action_counts x = ∅ →
  ∃ x', apply_decision d x = Ret tt x' ∧ execution_in_progress x' = true ∧
    (∃ up down, scale_up_queue x' = scale_up_queue x ++ up ∧ scale_down_queue x' = scale_down_queue x ++ down ∧
       (length up + length down = length (actions d))%nat ∧ Forall (λ t, task_decision t = Some (next_decision_id x)) (up ++ down)) ∧
    (∀ n, (n < length (actions d))%nat → execution_in_progress (finish_times n (next_decision_id x) x') = true) ∧
    execution_in_progress (finish_times (length (actions d)) (next_decision_id x) x') = false ∧
    pending_action_counts (finish_times (length (actions d)) (next_decision_id x) x') = ∅.
Proof.
  intros Hne Hp. unfold apply_decision. assert (is_blocked d = false) as -> by (unfold is_blocked; by destruct (actions d)).
  mrun. destruct (actions d) as [|a acts] eqn:Ea; [done|]. rewrite <-Ea in *. mrun.
  set (x1 := with_decisions _ _ _ _). destruct (enqueue_all_run (next_decision_id x) (actions d) x1) as (up & down & Hrun & Hl & Hd).
  simpl in *. rewrite Hrun. eexists. split; [done|].
  set (x2 := with_queues _ _ x1). assert (pending_action_counts x2 = {[next_decision_id x := Z.of_nat (length (actions d))]}) as Hp2
    by (simpl; by rewrite Hp).
  split; [done|]. split; [by exists up, down|]. split.
  { intros n Hn. by eapply finish_times_busy. }
  rewrite Ea in *. simpl length in *. rewrite finish_times_S. apply finish_last.
  destruct (finish_times_busy (length acts) (S (length acts)) (next_decision_id x) x2) as [_ ->]; [done..|lia|].
  f_equal. lia.
Qed.

(** ** A concrete cluster

    Two awake rollout instances; of the reward model's three instances [w0] is
    awake, [w1] sleeps on a GPU of its own and [w2] on the GPU of [r0]. *)
Definition demo_gpu (g : Z) : gset GPUSlot := {[mkGPU (Some "n0") g]}.
Definition demo_roles : list (PSRL_Role * string) := [(Rollout, "policy"); (RewardModel, "rm")].
Definition demo_new : ElasticExecutor := new_executor demo_roles (list_to_set demo_roles) demo_policy 0 fone.
Definition demo_boot1 : ElasticExecutor :=
  final (register_role Rollout "policy" [("r0", 0); ("r1", 0)] [demo_gpu 0; demo_gpu 1] "t0" demo_new).
Definition demo_boot2 : ElasticExecutor :=
  final (register_role RewardModel "rm" [("w0", 0); ("w1", 0); ("w2", 0)] [demo_gpu 2; demo_gpu 3; demo_gpu 0] "t0" demo_boot1).
Definition demo_boot3 : ElasticExecutor := final (select_initial_awake_ids Rollout "policy" 2 1 demo_boot2).
Definition demo_cluster : ElasticExecutor := final (select_initial_awake_ids RewardModel "rm" 1 1 demo_boot3).
Definition demo_task : Task := mkTask RewardModel "rm" 1 [("w2", 0); ("w1", 0)] (Some 1).
Definition demo_shrink : Task := mkTask Rollout "policy" 5 [] (Some 1).

Example demo_cluster_flags :
  flags demo_cluster =
    [(Rollout, [("policy", [(("r0", 0), AWAKEN); (("r1", 0), AWAKEN)])]);
     (RewardModel, [("rm", [(("w0", 0), AWAKEN); (("w1", 0), ASLEEP); (("w2", 0), ASLEEP)])])].
Proof. by vm_compute. Qed.

Lemma demo_cluster_reachable : executor_reachable demo_cluster.
Proof.
  unfold demo_cluster. apply reachable_select. unfold demo_boot3. apply reachable_select.
  unfold demo_boot2. apply reachable_register. unfold demo_boot1. apply reachable_register.
  unfold demo_new. exists demo_roles, (list_to_set demo_roles), demo_policy, 0, fone. apply rtc_refl.
Qed.

Lemma wake_targets_conflict_free_witness :
  find_instances_to_scaled_up demo_task demo_cluster = Some [mkIdent RewardModel "rm" ("w1", 0)] ∧
  ¬ conflicts RewardModel (mkIdent RewardModel "rm" ("w1", 0)) (topology demo_cluster).
Proof.
  assert (find_instances_to_scaled_up demo_task demo_cluster = Some [mkIdent RewardModel "rm" ("w1", 0)]) as E by (vm_compute; reflexivity).
  split; [exact E|].
  destruct (wake_targets_conflict_free demo_cluster demo_task demo_cluster_reachable) as [_ H].
  apply (H _ (mkIdent RewardModel "rm" ("w1", 0)) E). apply elem_of_cons. left. reflexivity.
Defined.

Lemma scale_down_task_keeps_minimum_witness :
  awake_count Rollout "policy" demo_cluster = 2 ∧
  min_awake demo_cluster ≤ awake_count Rollout "policy" (final (scale_down_task demo_shrink (λ _, Some 0) demo_cluster)).
Proof.
  split; [vm_compute; reflexivity|].
  apply (scale_down_task_keeps_minimum demo_shrink (λ _, Some 0) demo_cluster); vm_compute; discriminate.
Defined.

(** A command that times out is answered by None. *)
Lemma scaling_never_recorded_witness :
  let x := with_queues [demo_task] [demo_shrink] demo_cluster in
  flags (final (scale_up_round (λ _, None) x)) = flags x ∧
  commands (final (scale_up_round (λ _, None) x)) =
    [(Rollout, "policy", SLEEP [("r0", 0)]); (RewardModel, "rm", WAKE_UP [("w1", 0)])].
Proof.
  intros x. split; [|vm_compute; reflexivity].
  apply (scaling_never_recorded (λ _, None) x). intros k. left.
  exists (λ _, 1), (λ _, false), demo_gateway, 0, [], (final (exec_begin (SLEEP [ident_instance k]) demo_ext)).
  eexists. split; [reflexivity|]. left. reflexivity.
Defined.

Lemma decision_lifecycle_witness :
  let d := mkDecision [mkAction scale_up RewardModel "rm" 1 [("w1", 0)] rm_full_free_gpu_scale_up] rm_full_free_gpu_scale_up fone [] in
  ∃ x', apply_decision d demo_cluster = Ret tt x' ∧ execution_in_progress (finish_times 1 (next_decision_id demo_cluster) x') = false.
Proof.
  intros d. destruct (decision_lifecycle d demo_cluster) as (x' & Hrun & _ & _ & _ & Hfree & _);
    [discriminate|vm_compute; reflexivity|]. exists x'. split; [exact Hrun|exact Hfree].
Defined.

(** Two scale-downs that both check the minimum before either of them finishes
    leave the role below it: the check is not repeated after the command. *)
Example concurrent_scale_downs_pass_minimum :
  let race :=
    scale_down_begin (mkIdent Rollout "policy" ("r0", 0)) ;;
    scale_down_begin (mkIdent Rollout "policy" ("r1", 0)) ;;
    scale_down_end (mkIdent Rollout "policy" ("r0", 0)) (Some 0) ;;
    scale_down_end (mkIdent Rollout "policy" ("r1", 0)) (Some 0) in
  min_awake demo_cluster = 1 ∧ awake_count Rollout "policy" (final (race demo_cluster)) = 0.
Proof. by vm_compute. Qed.

(** A scale-up the policy justifies by a free GPU still puts an instance of the
    other role to sleep first. *)
Example free_gpu_scale_up_sleeps_a_peer :
  commands (final (scale_up_task (mkTask RewardModel "rm" 1 [("w1", 0)] None) (λ _, Some 0) demo_cluster)) =
    [(Rollout, "policy", SLEEP [("r0", 0)]); (RewardModel, "rm", WAKE_UP [("w1", 0)])].
Proof. by vm_compute. Qed.
