(* ===== verification/SessionRouter.v ===== *)
(** * The session router

    psrl/workers/gen/session_router.py: an HTTP proxy in front of the gateway that
    tracks one [SessionState] per session, counts the turns in flight, and lets
    the coordinator hang and continue sessions.

    Handlers are coroutines of one event loop.  The locks guard sections without
    an await and are therefore never contended: a handler runs without
    interruption between two awaits of something else, and each such stretch is
    one definition here.  [Handler] is where a handler waits, [World] the router
    with its handlers, [world_step] one stretch of one handler.  A session object
    outlives its entry in [states], so objects live in a store and handlers hold
    references.  [asyncio.Event] wakes every waiter when it is set, and a woken
    waiter runs later: [woken] records it.  Replies of the gateway, request
    headers and bodies are arguments; [repr] is Python's text of floats and
    containers. *)

From S2P Require Import Prelude.
From S2P Require Import PyFloat.
From S2P Require Import PyData.

Definition SESSION_RUNNING : string := "running".
Definition SESSION_HUNG : string := "hung".
Definition STATUS_GENERATE : string := "generate".
Definition STATUS_ENV : string := "env".
Definition SESSION_ID_HEADER : string := "x-smg-tito-session-id".
Definition TRAJECTORY_ID_HEADER : string := "x-smg-tito-trajectory-id".
Definition TRAJECTORY_ID_STRATEGIES : list string := ["auto"; "manual"].

(** ** Data *)

Abbreviation Headers := (gmap string string).

Record SessionState := mkState {
  headers : Headers;
  drained : bool;
  closing : bool;
  inflight : Z;
  trajectory_turns : gmap Z Z;
  base_worker_id : option string;
  target_dp_rank : option string;
  version_tag : option string;
  total_tokens : Z;
  hang_state : string;
  marked_for_hang : bool;
  continue_event : bool;
  pin_once_instance : option (string * string);
}.

Definition with_headers v (s : SessionState) := mkState v (drained s) (closing s) (inflight s) (trajectory_turns s) (base_worker_id s) (target_dp_rank s) (version_tag s) (total_tokens s) (hang_state s) (marked_for_hang s) (continue_event s) (pin_once_instance s).
Definition with_closing v (s : SessionState) := mkState (headers s) (drained s) v (inflight s) (trajectory_turns s) (base_worker_id s) (target_dp_rank s) (version_tag s) (total_tokens s) (hang_state s) (marked_for_hang s) (continue_event s) (pin_once_instance s).
Definition with_inflight d n (s : SessionState) := mkState (headers s) d (closing s) n (trajectory_turns s) (base_worker_id s) (target_dp_rank s) (version_tag s) (total_tokens s) (hang_state s) (marked_for_hang s) (continue_event s) (pin_once_instance s).
Definition with_turns v (s : SessionState) := mkState (headers s) (drained s) (closing s) (inflight s) v (base_worker_id s) (target_dp_rank s) (version_tag s) (total_tokens s) (hang_state s) (marked_for_hang s) (continue_event s) (pin_once_instance s).
Definition with_worker b r (s : SessionState) := mkState (headers s) (drained s) (closing s) (inflight s) (trajectory_turns s) b r (version_tag s) (total_tokens s) (hang_state s) (marked_for_hang s) (continue_event s) (pin_once_instance s).
Definition with_version v (s : SessionState) := mkState (headers s) (drained s) (closing s) (inflight s) (trajectory_turns s) (base_worker_id s) (target_dp_rank s) v (total_tokens s) (hang_state s) (marked_for_hang s) (continue_event s) (pin_once_instance s).
Definition with_tokens v (s : SessionState) := mkState (headers s) (drained s) (closing s) (inflight s) (trajectory_turns s) (base_worker_id s) (target_dp_rank s) (version_tag s) v (hang_state s) (marked_for_hang s) (continue_event s) (pin_once_instance s).
Definition with_hang h m e (s : SessionState) := mkState (headers s) (drained s) (closing s) (inflight s) (trajectory_turns s) (base_worker_id s) (target_dp_rank s) (version_tag s) (total_tokens s) h m e (pin_once_instance s).
Definition with_pin v (s : SessionState) := mkState (headers s) (drained s) (closing s) (inflight s) (trajectory_turns s) (base_worker_id s) (target_dp_rank s) (version_tag s) (total_tokens s) (hang_state s) (marked_for_hang s) (continue_event s) v.

(** [SessionState(headers=h)] with its [__post_init__]. *)
Definition new_state (h : Headers) : SessionState :=
  mkState h true false 0 ∅ None None None 0 SESSION_RUNNING false true None.

Definition status (s : SessionState) : string := if bool_decide (0 < inflight s) then STATUS_GENERATE else STATUS_ENV.

Definition get_trajectory_turn (t : Z) (s : SessionState) : Z := default 0 (trajectory_turns s !! t).
Definition advance_trajectory_turn (t : Z) (s : SessionState) : SessionState :=
  with_turns (<[t := default 0 (trajectory_turns s !! t) + 1]> (trajectory_turns s)) s.

Record HttpResponse := mkResponse {
  resp_status : Z;
  resp_headers : Headers;
  resp_json : option Json;
}.

(** What the router sends to the gateway. *)
Inductive Upstream :=
  | UpPost
  | UpGet (sid : string)
  | UpDelete (sid : string)
  | UpChat (sid : string) (h : Headers)
  | UpProxy (method path : string) (h : Headers).

Record SessionRouter := mkRouter {
  trajectory_id_strategy : string;
  store : gmap nat SessionState;
  states : list (string * nat);
  upstream : list Upstream;
}.

Definition with_store v (r : SessionRouter) := mkRouter (trajectory_id_strategy r) v (states r) (upstream r).
Definition with_states v (r : SessionRouter) := mkRouter (trajectory_id_strategy r) (store r) v (upstream r).
Definition with_upstream v (r : SessionRouter) := mkRouter (trajectory_id_strategy r) (store r) (states r) v.

Abbreviation Rt := (M SessionRouter).

Definition new_router (strategy : string) : Res SessionRouter :=
  if bool_decide (lower strategy ∉ TRAJECTORY_ID_STRATEGIES) then inl ValueError
  else inr (mkRouter (lower strategy) ∅ [] []).

(** The object behind a reference; every reference a handler holds has one. *)
Definition obj (l : nat) (r : SessionRouter) : SessionState := default (new_state ∅) (store r !! l).
Definition update (l : nat) (f : SessionState → SessionState) : Rt unit := modify (λ r, with_store (alter f l (store r)) r).
Definition send (u : Upstream) : Rt unit := modify (λ r, with_upstream (upstream r ++ [u]) r).

(** ** Headers *)

Definition HOP_BY_HOP_HEADERS : list string :=
  ["connection"; "keep-alive"; "proxy-authenticate"; "proxy-authorization"; "te"; "trailer"; "transfer-encoding";
   "upgrade"; "host"; "content-length"].

(** Request headers are a list of pairs; a dict comprehension keeps the last value. *)
Definition dict_of (l : list (string * string)) : Headers := foldl (λ d '(k, v), <[k := v]> d) ∅ l.

Definition filter_http_headers (hs : list (string * string)) : Headers :=
  dict_of (filter (λ p, lower p.1 ∉ HOP_BY_HOP_HEADERS) hs).

Definition allowed_session_headers : list string :=
  ["x-prompt-id"; "x-request-id"; "x-is-validate"; "x-is-sticky"; "x-version-tag"; "x-base-worker-id"; "x-target-dp-rank"].

Definition session_headers (hs : list (string * string)) (sid : string) : Headers :=
  <[SESSION_ID_HEADER := sid]> (dict_of (map (λ '(k, v), (lower k, v)) (filter (λ p, lower p.1 ∈ allowed_session_headers) hs))).

(** [request_headers | session_headers] of stdpp is left-biased: the request wins. *)
Definition add_session_headers (strategy : string) (request : list (string * string)) (session : Headers) : Headers :=
  let request := delete SESSION_ID_HEADER (filter_http_headers request) in
  let request := if bool_decide (strategy = "auto") then delete TRAJECTORY_ID_HEADER request else request in
  let hs := request ∪ session in
  if bool_decide (strategy = "manual" ∧ hs !! TRAJECTORY_ID_HEADER = None) then <[TRAJECTORY_ID_HEADER := "0"]> hs else hs.

Definition set_opt (k : string) (v : option string) (h : Headers) : Headers :=
  match v with Some v => <[k := v]> h | None => h end.

(** The headers of a turn: routing hints of the session over everything else, the
    one-shot pin over the hints. *)
Definition turn_headers (strategy : string) (request : list (string * string)) (s : SessionState) : Headers :=
  let h := add_session_headers strategy request (headers s) in
  let h := set_opt "x-base-worker-id" (base_worker_id s) h in
  let h := set_opt "x-target-dp-rank" (target_dp_rank s) h in
  let h := set_opt "x-version-tag" (version_tag s) h in
  match pin_once_instance s with
  | Some (b, d) => <["x-force-pin-once" := "true"]> (<["x-target-dp-rank" := d]> (<["x-base-worker-id" := b]> h))
  | None => h
  end.

(** ** Sessions *)

Definition ensure_state (sid : string) : Rt nat :=
  r ← gets id;
  match assoc sid (states r) with
  | Some l => mret l
  | None =>
      let l := fresh (dom (store r)) in
      modify (λ r, with_states (dict_set sid l (states r)) (with_store (<[l := new_state {[SESSION_ID_HEADER := sid]}]> (store r)) r)) ;;
      mret l
  end.

(** Where a handler waits.  [ChatDead]: it ended with an exception while reading
    the request body. *)
Inductive Handler :=
  | ChatWait (sid : string) (l : nat) (traj : option Z) (request : list (string * string)) (woken : bool)
  | ChatBody (sid : string) (l : nat) (traj : option Z) (h : Headers)
  | ChatUpstream (l : nat) (traj : option Z)
  | ChatDead (l : nat)
  | DeleteWait (sid : string) (l : nat) (woken : bool)
  | DeleteUpstream (sid : string) (l : nat)
  | Done (code : Z).

(** [extract_session_id]; the gateway's session ids are strings. *)
Definition extract_session_id (result : HttpResponse) : Res string :=
  match resp_json result with
  | Some (JObj d) =>
      match assoc "session_id" d with Some (JStr sid) => inr sid | Some _ => inl TypeError | None => inl KeyError end
  | Some _ => inl TypeError
  | None => inl ValueError
  end.

(** [create_session] after the gateway has answered. *)
Definition create_session (request : list (string * string)) (result : HttpResponse) : Rt unit :=
  send UpPost ;;
  if bool_decide (resp_status result < 400) then
    sid ← of_res (extract_session_id result);
    l ← ensure_state sid;
    update l (with_headers (session_headers request sid))
  else mret tt.

(** The headers of the answer to [get_session]. *)
Definition get_session (sid : string) (result : HttpResponse) : Rt Headers :=
  send (UpGet sid) ;;
  r ← gets id;
  match assoc sid (states r) with
  | None => mret (resp_headers result)
  | Some l =>
      let s := obj l r in
      mret (set_opt "x-target-dp-rank" (target_dp_rank s) (set_opt "x-base-worker-id" (base_worker_id s) (resp_headers result)))
  end.

Definition session_proxy (sid method path : string) (request : list (string * string)) : Rt unit :=
  l ← ensure_state sid;
  r ← gets id;
  send (UpProxy method path (add_session_headers (trajectory_id_strategy r) request (headers (obj l r)))).

(** ** Deleting a session *)

(** The wait for [drained] ends at once when the event is set. *)
Definition delete_drained (sid : string) (l : nat) : Rt Handler := send (UpDelete sid) ;; mret (DeleteUpstream sid l).

Definition delete_session (sid : string) : Rt Handler :=
  l ← ensure_state sid;
  update l (λ s, with_hang SESSION_RUNNING false true (with_closing true s)) ;;
  r ← gets id;
  if drained (obj l r) then delete_drained sid l else mret (DeleteWait sid l false).

(** [None] is a gateway call that raised: the entry stays. *)
Definition delete_end (sid : string) (l : nat) (result : option HttpResponse) : Rt Handler :=
  match result with
  | None => mret (Done 500)
  | Some result =>
      r ← gets id;
      (if bool_decide (assoc sid (states r) = Some l) then modify (λ r, with_states (dict_pop sid (states r)) r) else mret tt) ;;
      mret (Done (resp_status result))
  end.

(** ** A turn *)

(** The loop at the hang point and the section that starts the turn. *)
Definition chat_gate (sid : string) (l : nat) (traj : option Z) (request : list (string * string)) : Rt Handler :=
  r ← gets id;
  let s := obj l r in
  if closing s then mret (Done 409)
  else if bool_decide (hang_state s = SESSION_HUNG) then mret (ChatWait sid l traj request (continue_event s))
  else
    update l (λ s, with_inflight false (inflight s + 1) (with_pin None s)) ;;
    mret (ChatBody sid l traj (turn_headers (trajectory_id_strategy r) request s)).

(** Header names of a request are lower case. *)
Definition session_chat_completions (sid : string) (request : list (string * string)) : Rt Handler :=
  l ← ensure_state sid;
  r ← gets id;
  if bool_decide (trajectory_id_strategy r = "manual") then
    t ← of_option ValueError (py_int (default "0" (assoc TRAJECTORY_ID_HEADER request)));
    chat_gate sid l (Some t) request
  else chat_gate sid l None request.

Definition chat_send (sid : string) (l : nat) (traj : option Z) (h : Headers) : Rt Handler :=
  send (UpChat sid h) ;; mret (ChatUpstream l traj).

(** [int(usage.get(k, 0))] *)
Definition usage_count (k : string) (usage : Json) : option Z :=
  v ← json_get k usage; json_int (default (JInt 0) v).

Definition usage_footprint (body : option Json) : option Z :=
  b ← body;
  u ← json_get "usage" b;
  let usage := match u with Some v => if json_true v then v else JObj [] | None => JObj [] end in
  prompt ← usage_count "prompt_tokens" usage;
  completion ← usage_count "completion_tokens" usage;
  Some (prompt + completion).

Definition update_total_tokens (body : option Json) (s : SessionState) : SessionState :=
  match usage_footprint body with
  | None => s
  | Some n => if bool_decide (total_tokens s < n) then with_tokens n s else s
  end.

Definition record_success (traj : option Z) (resp : HttpResponse) (s : SessionState) : SessionState :=
  let s := match resp_headers resp !! "x-base-worker-id", resp_headers resp !! "x-target-dp-rank" with
           | Some b, Some d => with_worker (Some b) (Some d) s
           | _, _ => s
           end in
  let s := match resp_headers resp !! "x-version-tag" with Some v => with_version (Some v) s | None => s end in
  let s := update_total_tokens (resp_json resp) s in
  match traj with Some t => advance_trajectory_turn t s | None => s end.

(** The [finally] section; [None] is a gateway call that raised. *)
Definition finish_turn (traj : option Z) (result : option HttpResponse) (s : SessionState) : SessionState :=
  let n := Z.max 0 (inflight s - 1) in
  let s := with_inflight (if bool_decide (n = 0) then true else drained s) n s in
  let s := match result with
           | Some resp => if bool_decide (resp_status resp < 400) then record_success traj resp s else s
           | None => s
           end in
  if marked_for_hang s && bool_decide (inflight s = 0) then with_hang SESSION_HUNG false false s else s.

Definition chat_end (l : nat) (traj : option Z) (result : option HttpResponse) : Rt Handler :=
  update l (finish_turn traj result) ;;
  mret (Done (match result with Some resp => resp_status resp | None => 500 end)).

(** ** The control plane *)

(** One entry of [/control/sessions]. *)
Record SessionItem := mkItem {
  item_session_id : string;
  item_base_worker_id : option string;
  item_target_dp_rank : option string;
  item_status : string;
  item_hang_state : string;
  item_inflight : Z;
  item_total_tokens : Z;
  item_marked_for_hang : bool;
  item_closing : bool;
}.

Definition session_item (sid : string) (s : SessionState) : SessionItem :=
  mkItem sid (base_worker_id s) (target_dp_rank s) (status s) (hang_state s) (inflight s) (total_tokens s) (marked_for_hang s) (closing s).

Definition control_list_sessions (r : SessionRouter) : list SessionItem :=
  map (λ '(sid, l), session_item sid (obj l r)) (states r).

Record HangReply := mkHangReply { hung : list string; deferred : list string; hang_missing : list string }.

Definition hang_one (sid : string) (acc : HangReply) : Rt HangReply :=
  r ← gets id;
  match assoc sid (states r) with
  | None => mret (mkHangReply (hung acc) (deferred acc) (hang_missing acc ++ [sid]))
  | Some l =>
      let s := obj l r in
      if closing s then mret (mkHangReply (hung acc) (deferred acc) (hang_missing acc ++ [sid]))
      else if bool_decide (inflight s = 0) then
        update l (with_hang SESSION_HUNG false false) ;;
        mret (mkHangReply (hung acc ++ [sid]) (deferred acc) (hang_missing acc))
      else
        update l (λ s, with_hang (hang_state s) true (continue_event s) s) ;;
        mret (mkHangReply (hung acc) (deferred acc ++ [sid]) (hang_missing acc))
  end.

Definition control_hang (ids : list string) : Rt HangReply := fold_each ids (mkHangReply [] [] []) hang_one.

Definition continue_one (p : string * option (string * string)) (acc : list string * list string) : Rt (list string * list string) :=
  let '(sid, instance) := p in
  r ← gets id;
  match assoc sid (states r) with
  | None => mret (acc.1, acc.2 ++ [sid])
  | Some l =>
      update l (λ s,
        let s := with_hang SESSION_RUNNING false true s in
        match instance with
        | Some (b, d) => with_pin (Some (b, d)) (with_worker (Some b) (Some d) s)
        | None => s
        end) ;;
      mret (acc.1 ++ [sid], acc.2)
  end.

Definition control_continue (pins : list (string * option (string * string))) : Rt (list string * list string) :=
  fold_each pins ([], []) continue_one.

(** Control requests; a body that is not JSON is [None]. *)
Section parsing.
Context (repr : Json → string).

Definition control_items (body : option Json) : Res (list Json) :=
  match body with
  | None => inr []
  | Some b =>
      let b := match b with JObj d => default (JArr []) (assoc "sessions" d) | _ => b end in
      if json_true b then match json_iter b with Some l => inr l | None => inl TypeError end else inr []
  end.

Definition item_sid (item : Json) : option string :=
  json_str repr <$> present (match item with JObj d => assoc "session_id" d | v => Some v end).

Definition read_control_ids (body : option Json) : Res (list string) :=
  match control_items body with inl e => inl e | inr l => inr (omap item_sid l) end.

Definition item_pin (item : Json) : option (string * string) :=
  match item with
  | JObj d =>
      match present (assoc "base_worker_id" d), present (assoc "target_dp_rank" d) with
      | Some b, Some t => Some (json_str repr b, json_str repr t)
      | _, _ => None
      end
  | _ => None
  end.

Definition read_control_pins (body : option Json) : Res (list (string * option (string * string))) :=
  match control_items body with
  | inl e => inl e
  | inr l => inr (foldl (λ pins item, match item_sid item with Some sid => dict_set sid (item_pin item) pins | None => pins end) [] l)
  end.
End parsing.

(** ** The event loop *)

Record World := mkWorld { router : SessionRouter; handlers : gmap nat Handler }.

(** Setting an event wakes the handlers that wait for it. *)
Definition wake (r : SessionRouter) (h : Handler) : Handler :=
  match h with
  | ChatWait sid l traj req woken => ChatWait sid l traj req (woken || continue_event (obj l r))
  | DeleteWait sid l woken => DeleteWait sid l (woken || drained (obj l r))
  | h => h
  end.

Definition settle (r : SessionRouter) (hs : gmap nat Handler) : World := mkWorld r (wake r <$> hs).

(** One stretch of handler [p]; an exception ends it with status 500. *)
Definition run_handler (p : nat) (m : Rt Handler) (w : World) : World :=
  match m (router w) with
  | Ret h r => settle r (<[p := h]> (handlers w))
  | Raise _ r => settle r (<[p := Done 500]> (handlers w))
  end.

(** A handler that keeps no reference to a session across its awaits. *)
Definition run_once {A} (m : Rt A) (w : World) : World := settle (final (m (router w))) (handlers w).

Inductive world_step : World → World → Prop :=
  | st_chat p sid req w : handlers w !! p = None → world_step w (run_handler p (session_chat_completions sid req) w)
  | st_resume p sid l traj req w :
      handlers w !! p = Some (ChatWait sid l traj req true) → world_step w (run_handler p (chat_gate sid l traj req) w)
  | st_body p sid l traj h w :
      handlers w !! p = Some (ChatBody sid l traj h) → world_step w (run_handler p (chat_send sid l traj h) w)
  | st_body_fails p sid l traj h w :
      handlers w !! p = Some (ChatBody sid l traj h) → world_step w (run_handler p (mret (ChatDead l)) w)
  | st_end p l traj result w :
      handlers w !! p = Some (ChatUpstream l traj) → world_step w (run_handler p (chat_end l traj result) w)
  | st_delete p sid w : handlers w !! p = None → world_step w (run_handler p (delete_session sid) w)
  | st_drained p sid l w :
      handlers w !! p = Some (DeleteWait sid l true) → world_step w (run_handler p (delete_drained sid l) w)
  | st_delete_end p sid l result w :
      handlers w !! p = Some (DeleteUpstream sid l) → world_step w (run_handler p (delete_end sid l result) w)
  | st_create req result w : world_step w (run_once (create_session req result) w)
  | st_get sid result w : world_step w (run_once (get_session sid result) w)
  | st_proxy sid method path req w : world_step w (run_once (session_proxy sid method path req) w)
  | st_hang ids w : world_step w (run_once (control_hang ids) w)
  | st_continue pins w : world_step w (run_once (control_continue pins) w).

Definition start (strategy : string) : World := mkWorld (mkRouter strategy ∅ [] []) ∅.
Definition router_reachable (w : World) : Prop := ∃ strategy, rtc world_step (start strategy) w.

(** ** Invariant *)

Definition turn_at (l : nat) (h : Handler) : bool :=
  match h with ChatBody _ l' _ _ | ChatUpstream l' _ | ChatDead l' => bool_decide (l' = l) | _ => false end.

(** The turns of a session object that have started and not been accounted for. *)
Definition turns (l : nat) (hs : gmap nat Handler) : nat := size (filter (λ p, turn_at l p.2 = true) hs).

Record state_ok (n : nat) (s : SessionState) : Prop := {
  so_inflight : inflight s = Z.of_nat n;
  so_drained : drained s = bool_decide (inflight s = 0);
  so_event : continue_event s = bool_decide (hang_state s ≠ SESSION_HUNG);
  so_hung : hang_state s = SESSION_HUNG → inflight s = 0;
  so_marked : marked_for_hang s = true → 0 < inflight s;
  so_closing : closing s = true → hang_state s ≠ SESSION_HUNG ∧ marked_for_hang s = false;
}.

(** The session a request names to the gateway. *)
Definition names (sid : string) (h : Headers) : Prop := h !! SESSION_ID_HEADER = Some sid.

Record router_ok (r : SessionRouter) : Prop := {
  ro_keys : NoDup (states r).*1;
  ro_objects : NoDup (states r).*2;
  ro_names : ∀ sid l, (sid, l) ∈ states r → ∃ s, store r !! l = Some s ∧ names sid (headers s);
  ro_sent : ∀ sid h, UpChat sid h ∈ upstream r → names sid h;
}.

Definition handler_ok (r : SessionRouter) (h : Handler) : Prop :=
  match h with
  | ChatWait sid l _ _ woken =>
      is_Some (store r !! l) ∧ names sid (headers (obj l r)) ∧ (woken = false → hang_state (obj l r) = SESSION_HUNG)
  | ChatBody sid l _ h => is_Some (store r !! l) ∧ names sid h
  | ChatUpstream l _ | ChatDead l => is_Some (store r !! l)
  | DeleteWait _ l woken => is_Some (store r !! l) ∧ closing (obj l r) = true ∧ (woken = true ↔ inflight (obj l r) = 0)
  | DeleteUpstream _ l => is_Some (store r !! l) ∧ closing (obj l r) = true ∧ inflight (obj l r) = 0
  | Done _ => True
  end.

Record world_ok (w : World) : Prop := {
  wo_router : router_ok (router w);
  wo_objects : ∀ l s, store (router w) !! l = Some s → state_ok (turns l (handlers w)) s;
  wo_handlers : ∀ p h, handlers w !! p = Some h → handler_ok (router w) h;
}.

(** *** Counting turns *)

Lemma turns_insert_new l p h hs : hs !! p = None → turns l (<[p := h]> hs) = ((if turn_at l h then 1 else 0) + turns l hs)%nat.
Proof.
  intros Hp. unfold turns. destruct (turn_at l h) eqn:E.
  - rewrite map_filter_insert_True by done. rewrite map_size_insert_None; [done|]. apply map_lookup_filter_None. by left.
  - rewrite map_filter_insert_not'; [done|simpl; congruence|]. intros y Hy. by rewrite Hp in Hy.
Qed.

Lemma turns_insert l p h h' hs :
  hs !! p = Some h → (turns l (<[p := h']> hs) + (if turn_at l h then 1 else 0) = turns l hs + (if turn_at l h' then 1 else 0))%nat.
Proof.
  intros Hp. rewrite <-(insert_delete_id hs p h) at 2 by done. rewrite <-(insert_delete_eq hs p h').
  rewrite !turns_insert_new by apply lookup_delete_eq. lia.
Qed.

Lemma turns_wake l r hs : turns l (wake r <$> hs) = turns l hs.
Proof.
  unfold turns. rewrite map_filter_fmap, map_size_fmap. f_equal. apply map_filter_ext. intros p h _. by destruct h.
Qed.

Lemma turns_zero l r hs : (∀ p h, hs !! p = Some h → handler_ok r h) → store r !! l = None → turns l hs = 0%nat.
Proof.
  intros Hh Hl. unfold turns. apply map_size_empty_iff, map_eq. intros p. rewrite lookup_empty. apply map_lookup_filter_None. right.
  intros h Hp Ht. simpl in Ht. specialize (Hh p h Hp).
  destruct h; simpl in *; try done; apply bool_decide_eq_true in Ht as ->; [destruct Hh as [Hh _]|..]; rewrite Hl in Hh; by destruct Hh.
Qed.

(** *** Steps that start or end no turn *)

(** A session keeps its identity; a closing one stays closing, and idle once it is. *)
Definition mono (s s' : SessionState) : Prop :=
  headers s' !! SESSION_ID_HEADER = headers s !! SESSION_ID_HEADER ∧
  (closing s = true → closing s' = true ∧ (inflight s = 0 → inflight s' = 0)).

Lemma mono_refl s : mono s s.
Proof. by split. Qed.
Lemma mono_trans s1 s2 s3 : mono s1 s2 → mono s2 s3 → mono s1 s3.
Proof.
  intros [E1 M1] [E2 M2]. split; [congruence|]. intros Hc. destruct (M1 Hc) as [Hc2 I1]. destruct (M2 Hc2) as [Hc3 I2]. auto.
Qed.

Definition calm (f : SessionState → SessionState) : Prop := ∀ s, mono s (f s) ∧ ∀ n, state_ok n s → state_ok n (f s).

Record quiet (r r' : SessionRouter) : Prop := {
  q_old : ∀ l s, store r !! l = Some s → ∃ s', store r' !! l = Some s' ∧ mono s s' ∧ ∀ n, state_ok n s → state_ok n s';
  q_new : ∀ l s', store r !! l = None → store r' !! l = Some s' → state_ok 0 s';
  q_router : router_ok r → router_ok r';
}.

#[export] Instance quiet_refl : Reflexive quiet.
Proof. intros r. split; [|congruence|done]. intros l s Hs. exists s. split_and!; [done|apply mono_refl|done]. Qed.

#[export] Instance quiet_trans : Transitive quiet.
Proof.
  intros r1 r2 r3 [O1 N1 R1] [O2 N2 R2]. split; [| |auto].
  - intros l s (s2 & Hs2 & M1 & K1)%O1. destruct (O2 l s2 Hs2) as (s3 & Hs3 & M2 & K2). exists s3.
    split_and!; [done| |auto]. by eapply mono_trans.
  - intros l s3 Hl Hs3. destruct (store r2 !! l) as [s2|] eqn:E; [|by eapply N2].
    destruct (O2 l s2 E) as (s3' & ? & _ & K2). simplify_eq. eauto.
Qed.

(** A method none of whose outcomes starts or ends a turn. *)
Definition quietly {A} (m : Rt A) : Prop := ∀ r, router_ok r → quiet r (final (m r)).

Lemma quietly_bind {A B} (m : Rt A) (k : A → Rt B) : quietly m → (∀ a, quietly (k a)) → quietly (m ≫= k).
Proof. 
  intros Hm Hk r Hr. unfold mbind, M_bind. specialize (Hm r Hr). destruct (m r) as [a r'|e r']; simpl in *; [|done].
  etrans; [done|]. apply Hk. by apply (q_router _ _ Hm).
Qed.
Lemma quietly_same {A} (m : Rt A) : (∀ r, final (m r) = r) → quietly m.
Proof. intros Hm r _. by rewrite Hm. Qed.
Lemma quietly_fold_each {A B} (xs : list A) (body : A → B → Rt B) : (∀ x acc, quietly (body x acc)) → ∀ acc, quietly (fold_each xs acc body).
Proof. intros Hb. induction xs; intros acc; [by apply quietly_same|]. apply quietly_bind; auto. Qed.

Lemma quietly_send u : match u with UpChat sid h => names sid h | _ => True end → quietly (send u).
Proof.
  intros Hu r _. split; simpl; [|congruence|].
  - intros l s Hs. exists s. split_and!; [done|apply mono_refl|done].
  - intros [H1 H2 H3 H4]. split; simpl; [done..|]. intros sid h [Hin|Hin%list_elem_of_singleton]%elem_of_app; [eauto|by subst].
Qed.

Lemma alter_router_ok l f r s :
  store r !! l = Some s → mono s (f s) → router_ok r → router_ok (with_store (alter f l (store r)) r).
Proof.
  intros Hs [Hid _] [H1 H2 H3 H4]. split; simpl; [done..| |done]. intros sid l' Hin. destruct (H3 sid l' Hin) as (s' & Hs' & Hn).
  destruct (decide (l' = l)) as [->|]; [|exists s'; by rewrite lookup_alter_ne].
  exists (f s). rewrite lookup_alter_eq, Hs. split; [done|]. unfold names in *. rewrite Hid. congruence.
Qed.

(** Updating an object whose state is known, and a reference without object. *)
Lemma quietly_update_at l f r s :
  store r !! l = Some s → mono s (f s) → (∀ n, state_ok n s → state_ok n (f s)) → quiet r (final (update l f r)).
Proof.
  intros Hs Hm Hk. split; simpl.
  - intros l' s0 Hs0. destruct (decide (l' = l)) as [->|].
    + exists (f s). assert (s0 = s) as -> by congruence. by rewrite lookup_alter_eq, Hs.
    + exists s0. rewrite lookup_alter_ne by done. split_and!; [done|apply mono_refl|done].
  - intros l' s' Hn Hs'. apply lookup_alter_Some in Hs' as [(-> & s0 & ? & _)|[_ ?]]; congruence.
  - intros Hr. by apply (alter_router_ok l f r s).
Qed.

Lemma update_missing l f r : store r !! l = None → quiet r (final (update l f r)).
Proof.
  intros Hl. assert (final (update l f r) = r) as ->; [|done]. simpl. destruct r as [a st b c]. unfold with_store. simpl in *.
  f_equal. apply map_eq. intros l'. destruct (decide (l' = l)) as [->|]; [by rewrite lookup_alter_eq, Hl|by rewrite lookup_alter_ne].
Qed.

Lemma quietly_update l f : calm f → quietly (update l f).
Proof.
  intros Hf r _. destruct (store r !! l) as [s|] eqn:Es; [|by apply update_missing].
  destruct (Hf s). by apply (quietly_update_at l f r s).
Qed.

Lemma quietly_of_res {A} (x : Res A) : quietly (of_res x).
Proof. apply quietly_same. intros r. by destruct x. Qed.

Lemma new_state_ok h : state_ok 0 (new_state h).
Proof. by split. Qed.

Lemma quietly_ensure sid : quietly (ensure_state sid).
Proof.
  intros r _. unfold ensure_state. mrun. destruct (assoc sid (states r)) as [l|] eqn:E; [by simpl|]. simpl.
  pose proof (is_fresh (dom (store r))) as Hf. apply not_elem_of_dom in Hf. set (l := fresh _) in *. split; simpl.
  - intros l' s Hs. exists s. rewrite lookup_insert_ne by congruence. split_and!; [done|apply mono_refl|done].
  - intros l' s' Hn. rewrite lookup_insert. case_decide; [intros [= <-]; apply new_state_ok|congruence].
  - intros [H1 H2 H3 H4]. split; simpl; [| | |done].
    + by apply dict_set_NoDup.
    + rewrite dict_set_new, fmap_app by done. apply NoDup_app. split_and!; [done| |apply NoDup_singleton].
      intros l' ([sid' l0] & El & Hin)%list_elem_of_fmap El'%list_elem_of_singleton. simpl in *. subst.
      destruct (H3 _ _ Hin) as (? & ? & _). congruence.
    + intros sid' l' Hin. apply elem_of_dict_set in Hin as [[= -> ->]|Hin].
      { eexists. rewrite lookup_insert_eq. split; [done|]. unfold names. simpl. apply lookup_singleton_eq. }
      destruct (H3 _ _ Hin) as (s' & ? & ?). exists s'. by rewrite lookup_insert_ne by congruence.
Qed.

(** Proves [quietly] of a method by following its syntax. *)
Ltac quietly_tac :=
  repeat first
    [ (apply quietly_send; exact I) | apply quietly_ensure | apply quietly_of_res | (apply quietly_update; solve [auto])
    | (apply quietly_same; intros; done) | (apply quietly_bind; [|intros]) | case_match ].

Ltac calm_tac :=
  let s := fresh "s" in intros s; split; [by split|];
  let n := fresh "n" in intros n [? ? ? ? ? ?]; split; simpl in *; try done; try congruence.

Lemma calm_close : calm (λ s, with_hang SESSION_RUNNING false true (with_closing true s)).
Proof. calm_tac. Qed.

Lemma calm_continue o :
  calm (λ s, let s := with_hang SESSION_RUNNING false true s in
             match o with Some (b, d) => with_pin (Some (b, d)) (with_worker (Some b) (Some d) s) | None => s end).
Proof. destruct o as [[b d]|]; calm_tac. Qed.

Lemma ensure_state_run sid r :
  router_ok r → ∃ l r', ensure_state sid r = Ret l r' ∧ quiet r r' ∧ assoc sid (states r') = Some l ∧
    ∃ s, store r' !! l = Some s ∧ names sid (headers s).
Proof.
  intros Hr. pose proof (quietly_ensure sid r Hr) as Hq. unfold ensure_state in *. revert Hq. mrun.
  destruct (assoc sid (states r)) as [l|] eqn:E; intros Hq.
  - exists l, r. split_and!; [done..|]. apply (ro_names r Hr). by apply elem_of_assoc.
  - eexists _, _. split; [done|]. split; [done|]. split; [simpl; by rewrite assoc_dict_set, decide_True|].
    eexists. simpl. rewrite lookup_insert_eq. split; [done|]. apply lookup_singleton_eq.
Qed.

Lemma quietly_create req result : quietly (create_session req result).
Proof.
  unfold create_session. apply quietly_bind; [by apply quietly_send|intros _]. case_bool_decide; [|by apply quietly_same].
  apply quietly_bind; [apply quietly_of_res|intros sid r Hr]. destruct (ensure_state_run sid r Hr) as (l & r' & E & Hq & _ & s & Hs & Hn).
  rewrite (run_bind _ _ _ _ _ E). etrans; [done|]. apply (quietly_update_at l _ r' s Hs); [split; [|done]|].
  - simpl. rewrite Hn. apply lookup_insert_eq.
  - intros n []. by split.
Qed.

Lemma quietly_get sid result : quietly (get_session sid result).
Proof. unfold get_session. quietly_tac. Qed.

Lemma quietly_proxy sid method path req : quietly (session_proxy sid method path req).
Proof. unfold session_proxy. quietly_tac. Qed.

Lemma quietly_continue pins : quietly (control_continue pins).
Proof. unfold control_continue. apply quietly_fold_each. intros [sid o] acc. unfold continue_one. pose proof (calm_continue o). quietly_tac. Qed.

Lemma quietly_hang ids : quietly (control_hang ids).
Proof.
  unfold control_hang. apply quietly_fold_each. intros sid acc r _. unfold hang_one. mrun.
  destruct (assoc sid (states r)) as [l|]; [|done]. destruct (store r !! l) as [s|] eqn:Es.
  - unfold obj. rewrite Es. simpl. destruct (closing s) eqn:Ec; [done|]. case_bool_decide as Hi.
    + apply (quietly_update_at l (with_hang SESSION_HUNG false false) r s Es); [split; [done|congruence]|].
      intros n [? ? ? ? ? ?]; split; simpl in *; try done; congruence.
    + apply (quietly_update_at l (λ s, with_hang (hang_state s) true (continue_event s) s) r s Es); [split; [done|congruence]|].
      intros n [Hn ? ? ? ? ?]; split; simpl in *; try done; [lia|congruence].
  - unfold obj. rewrite Es. simpl. apply (update_missing l (with_hang SESSION_HUNG false false) r Es).
Qed.

(** *** Every step keeps the invariant *)

(** What a new or changed handler must satisfy before it is woken. *)
Definition fresh_ok (r : SessionRouter) (h : Handler) : Prop := handler_ok r (wake r h).

Lemma obj_store l r s : store r !! l = Some s → obj l r = s.
Proof. intros E. unfold obj. by rewrite E. Qed.

(** Waking keeps a handler's promise when its object evolves monotonically. *)
Lemma wake_ok n r r' h :
  handler_ok r h →
  (∀ l s, store r !! l = Some s → ∃ s', store r' !! l = Some s' ∧ mono s s') →
  (∀ l s', store r' !! l = Some s' → state_ok (n l) s') →
  handler_ok r' (wake r' h).
Proof.
  intros Hh Hold Hok. destruct h as [sid l traj req woken|sid l traj h|l traj|l|sid l woken|sid l|code]; simpl in *; [| | | | | |done].
  - destruct Hh as ([s Hs] & Hn & _). rewrite (obj_store l r s Hs) in Hn. destruct (Hold l s Hs) as (s' & Hs' & Hid & _).
    rewrite (obj_store l r' s') by done. split_and!; [done|unfold names in *; congruence|].
    intros [_ Hev]%orb_false_iff. rewrite (so_event _ _ (Hok l s' Hs')) in Hev. apply bool_decide_eq_false in Hev. by apply dec_stable in Hev.
  - destruct Hh as [[s Hs] Hn]. destruct (Hold l s Hs) as (s' & Hs' & _). split; [by exists s'|done].
  - destruct Hh as [s Hs]. destruct (Hold l s Hs) as (s' & Hs' & _). by exists s'.
  - destruct Hh as [s Hs]. destruct (Hold l s Hs) as (s' & Hs' & _). by exists s'.
  - destruct Hh as ([s Hs] & Hc & Hw). rewrite (obj_store l r s) in * by done. destruct (Hold l s Hs) as (s' & Hs' & _ & Hm).
    destruct (Hm Hc) as [Hc' Hi]. rewrite (obj_store l r' s') by done. split_and!; [done..|].
    rewrite (so_drained _ _ (Hok l s' Hs')). rewrite orb_true_iff, bool_decide_eq_true. naive_solver.
  - destruct Hh as ([s Hs] & Hc & Hi). rewrite (obj_store l r s) in * by done. destruct (Hold l s Hs) as (s' & Hs' & _ & Hm).
    destruct (Hm Hc) as [Hc' Hi']. rewrite (obj_store l r' s') by done. split_and!; [done..|auto].
Qed.

(** A good world in which every object has evolved monotonically. *)
Definition evolves (w w' : World) : Prop :=
  ∀ l s, store (router w) !! l = Some s → ∃ s', store (router w') !! l = Some s' ∧ mono s s'.
Definition advances (w w' : World) : Prop := world_ok w' ∧ evolves w w'.

Lemma settled_world_ok w r' hs' :
  world_ok w → router_ok r' →
  (∀ l s, store (router w) !! l = Some s → ∃ s', store r' !! l = Some s' ∧ mono s s') →
  (∀ l s', store r' !! l = Some s' → state_ok (turns l hs') s') →
  (∀ p h, hs' !! p = Some h → handlers w !! p = Some h ∨ fresh_ok r' h) →
  advances w (settle r' hs').
Proof.
  intros [Hr Ho Hh] Hr' Hold Hok Hhs. split; [split; simpl; [done| |]|done].
  - intros l s Hs. rewrite turns_wake. auto.
  - intros p h' Hp. rewrite lookup_fmap in Hp. destruct (hs' !! p) as [h|] eqn:E; simplify_eq/=.
    destruct (Hhs p h E) as [Hw|]; [|done]. eapply (wake_ok (λ l, turns l hs')); eauto.
Qed.

(** A step that starts and ends no turn. *)
Lemma quiet_ok w r' hs' :
  world_ok w → quiet (router w) r' → (∀ l, turns l hs' = turns l (handlers w)) →
  (∀ p h, hs' !! p = Some h → handlers w !! p = Some h ∨ (world_ok (settle r' (handlers w)) → fresh_ok r' h)) →
  advances w (settle r' hs').
Proof.
  intros Hw [Hold Hnew Hrt] Hturns Hhs. destruct Hw as [Hr Ho Hh] eqn:EW. clear EW.
  assert (∀ l s', store r' !! l = Some s' → state_ok (turns l (handlers w)) s') as Hok.
  { intros l s' Hs'. destruct (store (router w) !! l) as [s|] eqn:Es.
    - destruct (Hold l s Es) as (s'' & ? & _ & Hk). simplify_eq. eauto.
    - rewrite (turns_zero l (router w)) by done. eauto. }
  assert (∀ l s, store (router w) !! l = Some s → ∃ s', store r' !! l = Some s' ∧ mono s s') as Hold'.
  { intros l s Hs. destruct (Hold l s Hs) as (s' & ? & ? & _). eauto. }
  assert (world_ok (settle r' (handlers w))) as Hsame by (apply (settled_world_ok w); auto).
  apply (settled_world_ok w); auto.
  - intros l s' Hs'. rewrite Hturns. auto.
  - intros p h Hp. destruct (Hhs p h Hp); auto.
Qed.

Lemma run_once_ok {A} (m : Rt A) w : quietly m → world_ok w → advances w (run_once m w).
Proof. intros Hm Hw. apply (quiet_ok w); auto. apply Hm, wo_router, Hw. Qed.

(** A handler without a started turn may be replaced by one with none. *)
Lemma insert_quiet w p h r' :
  world_ok w → quiet (router w) r' → (∀ l, turn_at l h = from_option (turn_at l) false (handlers w !! p)) →
  (world_ok (settle r' (handlers w)) → fresh_ok r' h) → advances w (settle r' (<[p := h]> (handlers w))).
Proof.
  intros Hw Hq Ht Hf. apply (quiet_ok w); [done..| |].
  - intros l. specialize (Ht l). destruct (handlers w !! p) as [h0|] eqn:E; simpl in Ht.
    + pose proof (turns_insert l p h0 h _ E) as H. rewrite Ht in H. lia.
    + rewrite turns_insert_new by done. by rewrite Ht.
  - intros q h' Hq'. apply lookup_insert_Some in Hq' as [[<- <-]|[_ ?]]; auto.
Qed.

(** The objects of a settled router that evolved quietly from a good world. *)
Lemma quiet_objects w r' : world_ok w → quiet (router w) r' → ∀ l s, store r' !! l = Some s → state_ok (turns l (handlers w)) s.
Proof.
  intros Hw Hq l s Hs. assert (world_ok (settle r' (handlers w))) as [_ Ho _] by (apply (quiet_ok w); auto).
  specialize (Ho l s Hs). simpl in Ho. by rewrite turns_wake in Ho.
Qed.

Definition no_turn (w : World) (p : nat) : Prop := ∀ l, from_option (turn_at l) false (handlers w !! p) = false.

(** A step that changes one object and the number of its turns. *)
Lemma update_turn_ok w p h r' l f s :
  world_ok w → quiet (router w) r' → store r' !! l = Some s → mono s (f s) →
  state_ok (turns l (<[p := h]> (handlers w))) (f s) →
  (∀ l', l' ≠ l → turns l' (<[p := h]> (handlers w)) = turns l' (handlers w)) →
  (∀ r'', is_Some (store r'' !! l) → fresh_ok r'' h) →
  advances w (settle (with_store (alter f l (store r')) r') (<[p := h]> (handlers w))).
Proof.
  intros Hw Hq Hs Hm Hok Hother Hf. pose proof (quiet_objects w r' Hw Hq) as Ho. apply (settled_world_ok w); simpl; [done| | | |].
  - apply (alter_router_ok l f r' s); [done..|]. apply (q_router _ _ Hq), Hw.
  - intros l' s0 Hs0. destruct (q_old _ _ Hq l' s0 Hs0) as (s1 & Hs1 & Hm1 & _). destruct (decide (l' = l)) as [->|].
    + exists (f s1). rewrite lookup_alter_eq, Hs1. split; [done|].
      assert (s1 = s) as -> by congruence. by eapply mono_trans.
    + exists s1. by rewrite lookup_alter_ne.
  - intros l' s' Hs'. apply lookup_alter_Some in Hs' as [(-> & s0 & Hs0 & ->)|[Hne Hs']].
    + by assert (s0 = s) as -> by congruence.
    + rewrite Hother by done. auto.
  - intros q h' Hq'. apply lookup_insert_Some in Hq' as [[<- <-]|[_ ?]]; [right|by left]. apply Hf. simpl. by rewrite lookup_alter_eq, Hs.
Qed.

Lemma begin_ok n s :
  state_ok n s → closing s = false → hang_state s ≠ SESSION_HUNG → state_ok (S n) (with_inflight false (inflight s + 1) (with_pin None s)).
Proof.
  intros [Hn Hd He Hh Hm Hc] Hcl Hrun. split; simpl; try done; try lia; try congruence.
  by rewrite bool_decide_false by lia.
Qed.

(** What a finished turn does not touch on success. *)
Definition core (s : SessionState) :=
  (headers s, drained s, closing s, inflight s, (hang_state s, marked_for_hang s, continue_event s, pin_once_instance s)).

Lemma update_total_tokens_core body s : core (update_total_tokens body s) = core s.
Proof. unfold update_total_tokens. destruct (usage_footprint body); [|done]. by case_bool_decide. Qed.

Lemma record_success_core traj resp s : core (record_success traj resp s) = core s.
Proof.
  unfold record_success.
  assert (∀ s, core (match traj with Some t => advance_trajectory_turn t s | None => s end) = core s) as -> by (intros; by destruct traj).
  rewrite update_total_tokens_core.
  destruct (resp_headers resp !! "x-version-tag"), (resp_headers resp !! "x-base-worker-id"), (resp_headers resp !! "x-target-dp-rank"); done.
Qed.

Lemma finish_turn_fields traj result s :
  let n := Z.max 0 (inflight s - 1) in
  let hang := marked_for_hang s && bool_decide (n = 0) in
  let s' := finish_turn traj result s in
  inflight s' = n ∧ drained s' = (if bool_decide (n = 0) then true else drained s) ∧ closing s' = closing s ∧
  hang_state s' = (if hang then SESSION_HUNG else hang_state s) ∧ marked_for_hang s' = (if hang then false else marked_for_hang s) ∧
  continue_event s' = (if hang then false else continue_event s).
Proof.
  intros n hang s'. unfold s', finish_turn. fold n. set (s1 := with_inflight _ n s).
  set (s2 := match result with Some resp => _ | None => s1 end).
  assert (inflight s2 = n ∧ drained s2 = drained s1 ∧ closing s2 = closing s ∧ hang_state s2 = hang_state s ∧
    marked_for_hang s2 = marked_for_hang s ∧ continue_event s2 = continue_event s) as (H1 & H2 & H3 & H4 & H5 & H6).
  { unfold s2. destruct result as [resp|]; [|done]. case_bool_decide; [|done].
    pose proof (record_success_core traj resp s1) as [= H1 H2 H3 H4 H5 H6 H7 H8]. done. }
  rewrite H5, H1. fold hang. destruct hang; simpl; rewrite ?H1, ?H2, ?H3, ?H4, ?H5, ?H6; done.
Qed.

Lemma finish_ok n traj result s : state_ok (S n) s → state_ok n (finish_turn traj result s).
Proof.
  intros [Hn Hd He Hh Hm Hc]. destruct (finish_turn_fields traj result s) as (H1 & H2 & H3 & H4 & H5 & H6).
  assert (hang_state s ≠ SESSION_HUNG) as Hrun by (intros E; specialize (Hh E); lia).
  replace (Z.max 0 (inflight s - 1)) with (Z.of_nat n) in * by lia.
  destruct (marked_for_hang s) eqn:Em; simpl in *.
  - case_bool_decide as Hz; split; rewrite ?H1, ?H2, ?H3, ?H4, ?H5, ?H6; try done.
    + by rewrite bool_decide_true.
    + intros Hcl. by destruct (Hc Hcl).
    + rewrite bool_decide_false by done. rewrite Hd. apply bool_decide_false. lia.
    + lia.
  - split; rewrite ?H1, ?H2, ?H3, ?H4, ?H5, ?H6; try done.
    case_bool_decide; [done|]. rewrite Hd. apply bool_decide_false. lia.
Qed.

Lemma finish_headers traj result s : headers (finish_turn traj result s) = headers s ∧ pin_once_instance (finish_turn traj result s) = pin_once_instance s.
Proof.
  unfold finish_turn. set (s1 := with_inflight _ _ s). set (s2 := match result with Some resp => _ | None => s1 end).
  assert (headers s2 = headers s ∧ pin_once_instance s2 = pin_once_instance s) as [H1 H2].
  { unfold s2. destruct result as [resp|]; [|done]. case_bool_decide; [|done].
    pose proof (record_success_core traj resp s1) as [= H1 H2 H3 H4 H5 H6 H7 H8]. done. }
  by destruct (marked_for_hang s2 && _).
Qed.

Lemma finish_mono traj result s : mono s (finish_turn traj result s).
Proof. destruct (finish_turn_fields traj result s) as (H1 & _ & H3 & _). split; [by rewrite (proj1 (finish_headers traj result s))|]. intros Hc. rewrite H1, H3. split; [done|lia]. Qed.

(** A turn names the session whatever the request's headers say. *)
Lemma add_session_headers_id strategy req session :
  add_session_headers strategy req session !! SESSION_ID_HEADER = session !! SESSION_ID_HEADER.
Proof.
  unfold add_session_headers. set (r0 := delete SESSION_ID_HEADER _).
  assert (∀ r1 : Headers, r1 !! SESSION_ID_HEADER = None → (r1 ∪ session) !! SESSION_ID_HEADER = session !! SESSION_ID_HEADER) as Hu.
  { intros r1 H. rewrite lookup_union, H. by destruct (session !! _). }
  assert (r0 !! SESSION_ID_HEADER = None) as Hr0 by apply lookup_delete_eq.
  destruct (bool_decide (strategy = "auto")); (destruct (bool_decide (strategy = "manual" ∧ _)); [rewrite lookup_insert_ne by done|]);
    apply Hu; rewrite ?lookup_delete_ne by done; done.
Qed.

Lemma set_opt_ne k k' v h : k ≠ k' → set_opt k v h !! k' = h !! k'.
Proof. intros Hne. destruct v; [|done]. simpl. by rewrite lookup_insert_ne. Qed.

Lemma turn_headers_names strategy req s sid : names sid (headers s) → names sid (turn_headers strategy req s).
Proof.
  unfold names, turn_headers. intros Hn. destruct (pin_once_instance s) as [[b d]|].
  - rewrite !lookup_insert_ne by done. rewrite !set_opt_ne by done. by rewrite add_session_headers_id.
  - rewrite !set_opt_ne by done. by rewrite add_session_headers_id.
Qed.

(** The gate of a turn, after a quiet start of the handler. *)
Lemma chat_gate_ok w p sid l traj req r' h r'' :
  world_ok w → no_turn w p → quiet (router w) r' → (∃ s, store r' !! l = Some s ∧ names sid (headers s)) →
  chat_gate sid l traj req r' = Ret h r'' → advances w (settle r'' (<[p := h]> (handlers w))).
Proof.
  intros Hw Hp Hq (s & Hs & Hn). pose proof (quiet_objects w r' Hw Hq l s Hs) as Hok. unfold chat_gate. mrun. rewrite (obj_store l r' s Hs).
  destruct (closing s) eqn:Ec; [|case_bool_decide as Eh].
  - intros [= <- <-]. apply insert_quiet; [done..| |done]. intros l'. by rewrite Hp.
  - intros [= <- <-]. apply insert_quiet; [done..| |]; [intros l'; by rewrite Hp|]. intros _. unfold fresh_ok. simpl.
    rewrite (obj_store l r' s Hs). split_and!; [by exists s|done..].
  - intros [= <- <-]. apply (update_turn_ok w p _ r' l _ s); [done..|split; [done|congruence]| | |].
    + enough (turns l (<[p:=ChatBody sid l traj (turn_headers (trajectory_id_strategy r') req s)]> (handlers w)) = S (turns l (handlers w)))
        as -> by by apply begin_ok.
      specialize (Hp l). destruct (handlers w !! p) as [h0|] eqn:E; simpl in Hp.
      * pose proof (turns_insert l p h0 (ChatBody sid l traj (turn_headers (trajectory_id_strategy r') req s)) _ E) as H.
        rewrite Hp in H. simpl in H. rewrite bool_decide_true in H by done. lia.
      * rewrite turns_insert_new by done. simpl. by rewrite bool_decide_true.
    + intros l' Hne. specialize (Hp l'). destruct (handlers w !! p) as [h0|] eqn:E; simpl in Hp.
      * pose proof (turns_insert l' p h0 (ChatBody sid l traj (turn_headers (trajectory_id_strategy r') req s)) _ E) as H.
        rewrite Hp in H. simpl in H. rewrite bool_decide_false in H by done. lia.
      * rewrite turns_insert_new by done. simpl. by rewrite bool_decide_false.
    + intros r'' Hr''. split; [done|]. by apply turn_headers_names.
Qed.

Lemma chat_start_ok w p sid req :
  world_ok w → handlers w !! p = None → advances w (run_handler p (session_chat_completions sid req) w).
Proof.
  intros Hw Hp. assert (no_turn w p) as Hno by (intros l; by rewrite Hp).
  destruct (ensure_state_run sid (router w) (wo_router _ Hw)) as (l & r' & E & Hq & _ & Hl).
  unfold run_handler, session_chat_completions. rewrite (run_bind _ _ _ _ _ E). mrun.
  assert (advances w (settle r' (<[p:=Done 500]> (handlers w)))) as Hfail.
  { apply insert_quiet; [done..| |done]. intros l'. by rewrite Hno. }
  assert (∀ traj, ∃ h r'', chat_gate sid l traj req r' = Ret h r'') as Hgate.
  { intros traj. unfold chat_gate. mrun. repeat case_match; eauto. }
  case_bool_decide.
  - destruct (py_int _) as [t|]; [|done]. rewrite (run_of_option _ _ t) by done.
    destruct (Hgate (Some t)) as (h & r'' & Eg). rewrite Eg. by eapply chat_gate_ok.
  - destruct (Hgate None) as (h & r'' & Eg). rewrite Eg. by eapply chat_gate_ok.
Qed.

Lemma chat_end_ok w p l traj result :
  world_ok w → handlers w !! p = Some (ChatUpstream l traj) → advances w (run_handler p (chat_end l traj result) w).
Proof.
  intros Hw Hp. pose proof (wo_handlers _ Hw p _ Hp) as [s Hs]. simpl in Hs. unfold run_handler, chat_end, update. mrun. simpl.
  set (h := Done _). apply (update_turn_ok w p h (router w) l (finish_turn traj result) s); [done..|apply finish_mono| | |done].
  - pose proof (turns_insert l p _ h _ Hp) as H. simpl in H. rewrite bool_decide_true in H by done. apply finish_ok.
    replace (S (turns l (<[p:=h]> (handlers w)))) with (turns l (handlers w)) by lia. by apply (wo_objects _ Hw).
  - intros l' Hne. pose proof (turns_insert l' p _ h _ Hp) as H. simpl in H. rewrite bool_decide_false in H by done. lia.
Qed.

Lemma delete_start_ok w p sid :
  world_ok w → handlers w !! p = None → advances w (run_handler p (delete_session sid) w).
Proof.
  intros Hw Hp. destruct (ensure_state_run sid (router w) (wo_router _ Hw)) as (l & r' & E & Hq & _ & s & Hs & _).
  unfold run_handler, delete_session. rewrite (run_bind _ _ _ _ _ E). unfold update at 1. mrun. set (close := λ s, _).
  set (r1 := with_store _ r'). assert (quiet (router w) r1) as Hq1 by (etrans; [done|]; apply (quietly_update l close calm_close r'), (q_router _ _ Hq), Hw).
  assert (store r1 !! l = Some (close s)) as Hs1 by (simpl; by rewrite lookup_alter_eq, Hs).
  pose proof (quiet_objects w r1 Hw Hq1 l (close s) Hs1) as Hok. rewrite (obj_store l r1 (close s)) by done.
  assert (∀ l', false = from_option (turn_at l') false (handlers w !! p)) as Hno by (intros l'; by rewrite Hp).
  destruct (drained (close s)) eqn:Ed; rewrite (so_drained _ _ Hok) in Ed.
  - apply bool_decide_eq_true in Ed. unfold delete_drained, send. mrun. simpl. set (r2 := with_upstream _ r1).
    apply insert_quiet; [done| |done|].
    + etrans; [done|]. apply (quietly_send (UpDelete sid) I r1), (q_router _ _ Hq1), Hw.
    + intros _. unfold fresh_ok. simpl. rewrite (obj_store l r2 (close s)) by done. split_and!; [by exists (close s)|done..].
  - apply bool_decide_eq_false in Ed. apply insert_quiet; [done..|]. intros _. unfold fresh_ok. simpl.
    rewrite (obj_store l r1 (close s)) by done. split_and!; [by exists (close s)|done|].
    rewrite (so_drained _ _ Hok), bool_decide_false by done. naive_solver.
Qed.

Lemma delete_end_ok w p sid l result :
  world_ok w → handlers w !! p = Some (DeleteUpstream sid l) → advances w (run_handler p (delete_end sid l result) w).
Proof.
  intros Hw Hp. unfold run_handler, delete_end. destruct result as [resp|]; [|apply insert_quiet; [done..|intros; by rewrite Hp|done]].
  mrun. case_bool_decide; mrun; (apply insert_quiet; [done| |intros; by rewrite Hp|done]); [|done].
  split; simpl; [|congruence|].
  - intros l' s Hs. exists s. split_and!; [done|apply mono_refl|done].
  - intros [H1 H2 H3 H4]. split; simpl; [by apply dict_pop_NoDup| |intros ?? ?%elem_of_dict_pop; eauto|done].
    revert H2. generalize (states (router w)). induction l0 as [|[k v] d IH]; simpl; [done|]. intros [Hv Hd]%NoDup_cons.
    case_decide; [done|]. simpl. constructor; [|auto].
    intros ([k1 v1] & El & Hin%elem_of_dict_pop)%list_elem_of_fmap. destruct Hv. simpl in El. subst. apply list_elem_of_fmap. by exists (k1, v1).
Qed.

Lemma world_step_ok w w' : world_step w w' → world_ok w → advances w w'.
Proof.
  intros Hstep Hw. destruct Hstep as [p sid req w Hp|p sid l traj req w Hp|p sid l traj h w Hp|p sid l traj h w Hp|p l traj result w Hp
    |p sid w Hp|p sid l w Hp|p sid l result w Hp|req result w|sid result w|sid method path req w|ids w|pins w].
  - by apply chat_start_ok.
  - pose proof (wo_handlers _ Hw p _ Hp) as ([s Hs] & Hn & _). rewrite (obj_store _ _ _ Hs) in Hn. unfold run_handler.
    assert (∃ h r'', chat_gate sid l traj req (router w) = Ret h r'') as (h & r'' & Eg)
      by (unfold chat_gate; mrun; repeat case_match; eauto).
    rewrite Eg. eapply chat_gate_ok; [done| |done|by exists s|done]. intros l'. by rewrite Hp.
  - pose proof (wo_handlers _ Hw p _ Hp) as [Hl Hn].
    apply (insert_quiet w p (ChatUpstream l traj)); [done|apply (quietly_send (UpChat sid h) Hn (router w)), Hw|intros; by rewrite Hp|done].
  - pose proof (wo_handlers _ Hw p _ Hp) as [Hl Hn].
    apply (insert_quiet w p (ChatDead l)); [done|done|intros; by rewrite Hp|done].
  - by apply chat_end_ok.
  - by apply delete_start_ok.
  - pose proof (wo_handlers _ Hw p _ Hp) as (Hl & Hc & Hi).
    apply (insert_quiet w p (DeleteUpstream sid l)); [done|apply (quietly_send (UpDelete sid) I (router w)), Hw|intros; by rewrite Hp|].
    intros _. split_and!; [done..|]. by apply Hi.
  - by apply delete_end_ok.
  - apply run_once_ok; [apply quietly_create|done].
  - apply run_once_ok; [apply quietly_get|done].
  - apply run_once_ok; [apply quietly_proxy|done].
  - apply run_once_ok; [apply quietly_hang|done].
  - apply run_once_ok; [apply quietly_continue|done].
Qed.

Lemma start_ok strategy : world_ok (start strategy).
Proof. split; simpl; [split; simpl; [constructor..|intros ?? []%not_elem_of_nil|intros ?? []%not_elem_of_nil]|intros ??; by rewrite lookup_empty|intros ??; by rewrite lookup_empty]. Qed.

Lemma reachable_ok w : router_reachable w → world_ok w.
Proof. intros [strategy Hr]. pose proof (start_ok strategy) as Hok. induction Hr as [|w1 w2 w3 Hstep _ IH]; [done|]. apply IH. by apply (world_step_ok w1). Qed.
