(* ===== verification/SessionTheorems.v ===== *)
(** * What the session router guarantees

    Theorems about every interleaving of the handlers of [SessionRouter]: turns in
    flight are counted exactly, a turn waits only while its session is hung, a
    session is deleted after its last turn, every turn names its own session, the
    control plane hangs and continues what it is asked to. *)

From S2P Require Import Prelude.
From S2P Require Import PyFloat.
From S2P Require Import PyData.
From S2P Require Import SessionRouter.

Lemma reachable_steps w w' : router_reachable w → rtc world_step w w' → router_reachable w'.
Proof. intros [strategy Hr] Hs. exists strategy. by etrans. Qed.

Lemma rtc_evolves w w' : world_ok w → rtc world_step w w' → evolves w w'.
Proof.
  intros Hw Hr. induction Hr as [w|w1 w2 w3 Hstep _ IH]; [intros l s Hs; exists s; split; [done|apply mono_refl]|].
  destruct (world_step_ok _ _ Hstep Hw) as [Hw2 Hev]. intros l s Hs. destruct (Hev l s Hs) as (s2 & Hs2 & Hm).
  destruct (IH Hw2 l s2 Hs2) as (s3 & Hs3 & Hm'). exists s3. split; [done|]. by eapply mono_trans.
Qed.

(** C18: In every reachable world the in-flight counter of a session object is the
    number of its turns that have started and not finished; [drained] is set exactly
    when it is zero; a hung session has no turn in flight and its event is clear; a
    pending hang means that a turn is in flight; a closing session is neither.  A
    turn that waits without having been woken belongs to a hung session, and a
    deletion that waits without having been woken to one with a turn in flight. *)
Theorem session_accounting (w : World) :
  router_reachable w →
  (∀ l s, store (router w) !! l = Some s →
     inflight s = Z.of_nat (turns l (handlers w)) ∧ (drained s = true ↔ turns l (handlers w) = 0%nat) ∧
     (hang_state s = SESSION_HUNG ↔ continue_event s = false) ∧
     (hang_state s = SESSION_HUNG → turns l (handlers w) = 0%nat) ∧
     (marked_for_hang s = true → (0 < turns l (handlers w))%nat ∧ hang_state s ≠ SESSION_HUNG) ∧
     (closing s = true → hang_state s ≠ SESSION_HUNG ∧ marked_for_hang s = false)) ∧
  (∀ p sid l traj req, handlers w !! p = Some (ChatWait sid l traj req false) →
     ∃ s, store (router w) !! l = Some s ∧ hang_state s = SESSION_HUNG ∧ closing s = false) ∧
  (∀ p sid l, handlers w !! p = Some (DeleteWait sid l false) → (0 < turns l (handlers w))%nat).
Proof.
  intros [_ Ho Hh]%reachable_ok. split_and!.
  - intros l s Hs. destruct (Ho l s Hs) as [Hn Hd He Hu Hm Hc]. split_and!; [done| | | | |done].
    + rewrite Hd, bool_decide_eq_true. lia.
    + rewrite He, bool_decide_eq_false. split; [naive_solver|apply dec_stable].
    + intros E. specialize (Hu E). lia.
    + intros E. specialize (Hm E). split; [lia|]. intros E'. specialize (Hu E'). lia.
  - intros p sid l traj req Hp. destruct (Hh p _ Hp) as ([s Hs] & _ & Hw). rewrite (obj_store _ _ _ Hs) in Hw. exists s.
    specialize (Hw eq_refl). split_and!; [done..|]. destruct (closing s) eqn:Ec; [|done]. by destruct (so_closing _ _ (Ho l s Hs) Ec).
  - intros p sid l Hp. destruct (Hh p _ Hp) as ([s Hs] & _ & Hw). rewrite (obj_store _ _ _ Hs) in Hw.
    destruct (decide (turns l (handlers w) = 0%nat)) as [Ez|]; [|lia]. exfalso.
    assert (inflight s = 0) as Hi by (rewrite (so_inflight _ _ (Ho l s Hs)); lia). apply Hw in Hi. done.
Qed.

(** C19: Once the deletion of a session has been sent to the gateway, the session
    object it deletes is closed for good, whatever requests follow: it has no turn in
    flight, every turn that still waits on it has been woken and is answered with
    status 409 when it resumes, and as long as the session id names this object a
    new turn of that id is answered with 409 or fails on its trajectory header; none
    of them changes the router or sends anything to the gateway.  (When the deletion
    has ended the id is free, and a later request starts a fresh session under it.) *)
Theorem delete_seals_session (w w' : World) (p : nat) (sid : string) (l : nat) :
  router_reachable w → handlers w !! p = Some (DeleteUpstream sid l) → rtc world_step w w' →
  (turns l (handlers w') = 0%nat ∧ ∃ s, store (router w') !! l = Some s ∧ closing s = true) ∧
  (∀ q sid' traj req b, handlers w' !! q = Some (ChatWait sid' l traj req b) →
     b = true ∧ chat_gate sid' l traj req (router w') = Ret (Done 409) (router w')) ∧
  (∀ req, assoc sid (states (router w')) = Some l →
     session_chat_completions sid req (router w') = Ret (Done 409) (router w') ∨
     ∃ e, session_chat_completions sid req (router w') = Raise e (router w')).
Proof.
  intros Hr Hp Hs. pose proof (reachable_ok w Hr) as Hw. pose proof (reachable_ok w' (reachable_steps w w' Hr Hs)) as Hw'.
  destruct (wo_handlers w Hw p _ Hp) as ([s Es] & Hc & Hi). rewrite (obj_store _ _ _ Es) in Hc, Hi.
  destruct (rtc_evolves w w' Hw Hs l s Es) as (s' & Es' & _ & Hm). destruct (Hm Hc) as [Hc' Hi'].
  assert (∀ sid' traj req, chat_gate sid' l traj req (router w') = Ret (Done 409) (router w')) as Hgate
    by (intros; unfold chat_gate; mrun; by rewrite (obj_store l _ s' Es'), Hc').
  split; [split; [|by exists s']|split].
  - pose proof (so_inflight _ _ (wo_objects w' Hw' l s' Es')). specialize (Hi' Hi). lia.
  - intros q sid' traj req b Hq. split; [|done]. destruct (wo_handlers w' Hw' q _ Hq) as (_ & _ & Hb). rewrite (obj_store l _ s' Es') in Hb.
    destruct b; [done|]. specialize (Hb eq_refl). by destruct (so_closing _ _ (wo_objects w' Hw' l s' Es') Hc').
  - intros req El. unfold session_chat_completions, ensure_state. mrun. rewrite El. autorewrite with psrl. cbn beta.
    case_bool_decide; [|by left]. destruct (py_int _) as [t|]; [|right; by eexists]. left. unfold of_option. mrun. apply Hgate.
Qed.

(** Every chat completion sent to the gateway on behalf of a session carries that
    session's id, whatever headers the client sent. *)
Theorem chat_names_own_session (w : World) (sid : string) (h : Headers) :
  router_reachable w → UpChat sid h ∈ upstream (router w) → h !! SESSION_ID_HEADER = Some sid.
Proof. intros Hw%reachable_ok. apply (ro_sent _ (wo_router _ Hw)). Qed.

(** ** A turn that fails before it is forwarded *)

(** A handler that no step resumes stays. *)
Lemma idle_handler_stays w w' q h :
  world_step w w' → handlers w !! q = Some h →
  match h with ChatDead _ | DeleteWait _ _ false => True | _ => False end →
  handlers w' !! q = Some (wake (router w') h).
Proof.
  intros Hstep Hq Hh.
  assert (∀ p m, handlers w !! p ≠ Some h → handlers (run_handler p m w) !! q = Some (wake (router (run_handler p m w)) h)) as Hrun.
  { intros p m Hp. assert (p ≠ q) as Hne by congruence. unfold run_handler. destruct (m (router w)); simpl;
      rewrite lookup_fmap, lookup_insert_ne, Hq by done; done. }
  assert (∀ A (m : Rt A), handlers (run_once m w) !! q = Some (wake (router (run_once m w)) h)) as Honce.
  { intros A m. unfold run_once. simpl. by rewrite lookup_fmap, Hq. }
  destruct Hstep as [p ? ? w E|p ? ? ? ? w E|p ? ? ? ? w E|p ? ? ? ? w E|p ? ? ? w E|p ? w E|p ? ? w E|p ? ? ? w E|? ? w|? ? w|? ? ? ? w|? w|? w];
    try apply Honce; apply Hrun; rewrite E; intros [= <-]; done.
Qed.

(** A turn whose request body cannot be read leaves the session with a turn in
    flight for ever: a deletion waiting for that session never proceeds. *)
Theorem lost_turn_blocks_delete (w w' : World) (p q : nat) (sid : string) (l : nat) :
  router_reachable w → handlers w !! q = Some (ChatDead l) → handlers w !! p = Some (DeleteWait sid l false) →
  rtc world_step w w' → handlers w' !! p = Some (DeleteWait sid l false).
Proof.
  intros Hr Hq Hp Hs. enough (handlers w' !! q = Some (ChatDead l) ∧ handlers w' !! p = Some (DeleteWait sid l false)) by tauto.
  induction Hs as [w|w1 w2 w3 Hstep _ IH]; [done|]. pose proof (reachable_steps w1 w2 Hr (rtc_once _ _ Hstep)) as Hr2.
  pose proof (idle_handler_stays w1 w2 q _ Hstep Hq I) as Hq2. pose proof (idle_handler_stays w1 w2 p _ Hstep Hp I) as Hp2. simpl in Hq2, Hp2.
  apply IH; [done..|]. pose proof (reachable_ok w2 Hr2) as Hw2. destruct (wo_handlers w2 Hw2 p _ Hp2) as ([s Es] & _ & Hi).
  rewrite (obj_store _ _ _ Es) in *. rewrite Hp2. do 2 f_equal. destruct (drained s) eqn:Ed; [|done]. exfalso.
  pose proof (proj1 Hi eq_refl) as Hz. rewrite (so_inflight _ _ (wo_objects w2 Hw2 l s Es)) in Hz.
  assert (filter (λ p, turn_at l p.2 = true) (handlers w2) !! q = Some (ChatDead l)) as Hf
    by (apply map_lookup_filter_Some; split; [done|]; simpl; by apply bool_decide_eq_true).
  unfold turns in Hz. assert (size (filter (λ p, turn_at l p.2 = true) (handlers w2)) = 0%nat) as E by lia.
  apply map_size_empty_iff in E. rewrite E in Hf. done.
Qed.

(** ** The control plane *)

Definition session_of (sid : string) (r : SessionRouter) : option SessionState := assoc sid (states r) ≫= λ l, store r !! l.

Lemma assoc_inj {K V} `{EqDecision K} (d : list (K * V)) k k' v : NoDup d.*2 → assoc k d = Some v → assoc k' d = Some v → k = k'.
Proof.
  intros Hd [i Hi]%elem_of_assoc%list_elem_of_lookup [j Hj]%elem_of_assoc%list_elem_of_lookup.
  enough (i = j) by congruence. eapply (NoDup_lookup d.*2); [done|by rewrite list_lookup_fmap, Hi|by rewrite list_lookup_fmap, Hj].
Qed.

(** Updating the object of one session. *)
Lemma update_session r sid l f :
  router_ok r → assoc sid (states r) = Some l → (∀ s, names sid (headers s) → names sid (headers (f s))) →
  let r' := with_store (alter f l (store r)) r in
  router_ok r' ∧ ∀ sid', session_of sid' r' = if decide (sid = sid') then f <$> session_of sid r else session_of sid' r.
Proof.
  intros Hr Hl Hf r'. split.
  - destruct Hr as [H1 H2 H3 H4]. split; simpl; [done..| |done]. intros sid' l' Hin. destruct (H3 sid' l' Hin) as (s' & Hs' & Hn).
    destruct (decide (l' = l)) as [->|]; [|exists s'; by rewrite lookup_alter_ne]. exists (f s').
    rewrite lookup_alter_eq, Hs'. split; [done|]. assert (sid' = sid) as -> by (eapply assoc_inj; [done|by apply assoc_elem|done]). auto.
  - intros sid'. unfold session_of, r'. simpl. destruct (decide (sid = sid')) as [<-|Hne].
    + rewrite Hl. simpl. by rewrite lookup_alter_eq.
    + destruct (assoc sid' (states r)) as [l'|] eqn:E; [|done]. simpl. rewrite lookup_alter_ne; [done|].
      intros ->. apply Hne. eapply assoc_inj; [by apply Hr|done..].
Qed.

Lemma session_lookup r sid l : router_ok r → assoc sid (states r) = Some l → session_of sid r = Some (obj l r).
Proof.
  intros Hr Hl. destruct (ro_names r Hr sid l) as (s & Hs & _); [by apply elem_of_assoc|]. unfold session_of. rewrite Hl. simpl.
  by rewrite (obj_store l r s).
Qed.

(** What a hang request means for a session. *)
Definition hang_effect (s : SessionState) : SessionState :=
  if closing s then s
  else if bool_decide (inflight s = 0) then with_hang SESSION_HUNG false false s
  else with_hang (hang_state s) true (continue_event s) s.

Definition open_idle (o : option SessionState) : bool := match o with Some s => negb (closing s) && bool_decide (inflight s = 0) | None => false end.
Definition open_busy (o : option SessionState) : bool := match o with Some s => negb (closing s) && bool_decide (inflight s ≠ 0) | None => false end.
Definition gone (o : option SessionState) : bool := match o with Some s => closing s | None => true end.

Lemma hang_one_run sid acc r :
  router_ok r →
  ∃ acc' r', hang_one sid acc r = Ret acc' r' ∧ router_ok r' ∧
    (∀ sid', session_of sid' r' = if decide (sid = sid') then hang_effect <$> session_of sid r else session_of sid' r) ∧
    hung acc' = hung acc ++ filter (λ i, open_idle (session_of i r) = true) [sid] ∧
    deferred acc' = deferred acc ++ filter (λ i, open_busy (session_of i r) = true) [sid] ∧
    hang_missing acc' = hang_missing acc ++ filter (λ i, gone (session_of i r) = true) [sid].
Proof.
  intros Hr. unfold hang_one. mrun. rewrite !filter_cons, !filter_nil.
  destruct (assoc sid (states r)) as [l|] eqn:El.
  - rewrite (session_lookup r sid l) by done. set (s := obj l r). simpl.
    assert (∀ f, (∀ s, names sid (headers s) → names sid (headers (f s))) → f s = hang_effect s →
      let r' := with_store (alter f l (store r)) r in
      router_ok r' ∧ ∀ sid', session_of sid' r' = if decide (sid = sid') then Some (hang_effect s) else session_of sid' r) as Hupd.
    { intros f Hn Hf. destruct (update_session r sid l f Hr El Hn) as [? H]. split; [done|]. intros sid'. rewrite H.
      rewrite (session_lookup r sid l) by done. simpl. fold s. by rewrite Hf. }
    destruct (closing s) eqn:Ec; [|case_bool_decide as Ei]; simpl.
    + eexists _, r. split; [done|]. split_and!; [done| |by rewrite app_nil_r..|done]. intros sid'. case_decide; [|done]. subst.
      rewrite (session_lookup r sid' l) by done. fold s. unfold hang_effect. by rewrite Ec.
    + rewrite (bool_decide_false (inflight s ≠ 0)) by tauto.
      destruct (Hupd (with_hang SESSION_HUNG false false)) as [? ?]; [done|unfold hang_effect; by rewrite Ec, bool_decide_true|].
      eexists _, _. split; [done|]. split_and!; [done..| |]; by rewrite app_nil_r.
    + rewrite (bool_decide_true (inflight s ≠ 0)) by done.
      destruct (Hupd (λ s, with_hang (hang_state s) true (continue_event s) s)) as [? ?]; [done|unfold hang_effect; by rewrite Ec, bool_decide_false|].
      eexists _, _. split; [done|]. split_and!; [done..|by rewrite app_nil_r|done|by rewrite app_nil_r].
  - assert (session_of sid r = None) as E by (unfold session_of; by rewrite El). rewrite E. simpl.
    eexists _, r. split_and!; [done|done| |by rewrite app_nil_r..|done]. intros sid'. case_decide; [by subst|done].
Qed.

Lemma hang_effect_fields s : closing (hang_effect s) = closing s ∧ inflight (hang_effect s) = inflight s.
Proof. unfold hang_effect. repeat case_match; done. Qed.

Lemma hang_effect_class o :
  open_idle (hang_effect <$> o) = open_idle o ∧ open_busy (hang_effect <$> o) = open_busy o ∧ gone (hang_effect <$> o) = gone o.
Proof. destruct o as [s|]; [|done]. simpl. destruct (hang_effect_fields s) as [-> ->]. done. Qed.

Lemma hang_effect_idem s : hang_effect (hang_effect s) = hang_effect s.
Proof.
  unfold hang_effect at 1. destruct (hang_effect_fields s) as [-> ->]. unfold hang_effect. repeat case_match; done.
Qed.

(** A hang request hangs at once the listed sessions that are open and idle,
    marks the listed ones with a turn in flight, reports the unknown and closing
    ones as missing and changes no other session; the answer lists them in the
    order of the request. *)
Theorem control_hang_exact (w : World) (ids : list string) :
  router_reachable w →
  ∃ r', control_hang ids (router w) =
      Ret (mkHangReply (filter (λ i, open_idle (session_of i (router w)) = true) ids)
             (filter (λ i, open_busy (session_of i (router w)) = true) ids)
             (filter (λ i, gone (session_of i (router w)) = true) ids)) r' ∧
    ∀ sid, session_of sid r' = if decide (sid ∈ ids) then hang_effect <$> session_of sid (router w) else session_of sid (router w).
Proof.
  intros Hw%reachable_ok%wo_router. unfold control_hang. revert Hw. generalize (router w). clear w. intros r.
  enough (∀ acc, router_ok r → ∃ acc' r', fold_each ids acc hang_one r = Ret acc' r' ∧
    (∀ sid, session_of sid r' = if decide (sid ∈ ids) then hang_effect <$> session_of sid r else session_of sid r) ∧
    hung acc' = hung acc ++ filter (λ i, open_idle (session_of i r) = true) ids ∧
    deferred acc' = deferred acc ++ filter (λ i, open_busy (session_of i r) = true) ids ∧
    hang_missing acc' = hang_missing acc ++ filter (λ i, gone (session_of i r) = true) ids) as H.
  { intros Hr. destruct (H (mkHangReply [] [] []) Hr) as ([h d m] & r' & -> & Hs & Hh & Hd & Hm). simpl in *. subst. by exists r'. }
  revert r. induction ids as [|sid ids IH]; intros r acc Hr.
  { exists acc, r. split; [done|]. rewrite !filter_nil, !app_nil_r. split_and!; [|done..]. intros sid.
    by rewrite decide_False by apply not_elem_of_nil. }
  destruct (hang_one_run sid acc r Hr) as (acc1 & r1 & E1 & Hr1 & Hs1 & Hh1 & Hd1 & Hm1).
  destruct (IH r1 acc1 Hr1) as (acc2 & r2 & E2 & Hs2 & Hh2 & Hd2 & Hm2). exists acc2, r2. simpl. rewrite (run_bind _ _ _ _ _ E1). split; [done|].
  assert (∀ i, open_idle (session_of i r1) = open_idle (session_of i r) ∧ open_busy (session_of i r1) = open_busy (session_of i r) ∧
    gone (session_of i r1) = gone (session_of i r)) as Hcl.
  { intros i. rewrite Hs1. case_decide; [|done]. subst. apply hang_effect_class. }
  assert (∀ (P Q : string → Prop) `{∀ x, Decision (P x), ∀ x, Decision (Q x)}, (∀ i, P i ↔ Q i) → filter P ids = filter Q ids) as Hext
    by (intros; by apply list_filter_iff).
  split.
  - intros sid'. rewrite Hs2, !Hs1. destruct (decide (sid = sid')) as [<-|Hne].
    + rewrite (decide_True (P := sid ∈ sid :: ids)) by (apply elem_of_cons; by left). case_decide; [|done].
      destruct (session_of sid r); simpl; [|done]. by rewrite hang_effect_idem.
    + destruct (decide (sid' ∈ ids)); [rewrite decide_True by (apply elem_of_cons; by right)|rewrite decide_False]; [done..|].
      intros [->|?]%elem_of_cons; done.
  - rewrite Hh2, Hd2, Hm2, Hh1, Hd1, Hm1. rewrite <-!app_assoc.
    rewrite !(filter_app _ [sid] ids : filter _ (sid :: ids) = _).
    split_and!; do 2 f_equal; apply Hext; intros i; destruct (Hcl i) as (E3 & E4 & E5); by rewrite ?E3, ?E4, ?E5.
Qed.

(** What a continue request means for a session. *)
Definition continue_effect (o : option (string * string)) (s : SessionState) : SessionState :=
  let s := with_hang SESSION_RUNNING false true s in
  match o with Some (b, d) => with_pin (Some (b, d)) (with_worker (Some b) (Some d) s) | None => s end.

Lemma continue_run pins r acc :
  router_ok r → NoDup pins.*1 →
  ∃ acc' r', fold_each pins acc continue_one r = Ret acc' r' ∧ router_ok r' ∧ states r' = states r ∧
    (∀ sid, session_of sid r' = match assoc sid pins with Some o => continue_effect o <$> session_of sid r | None => session_of sid r end) ∧
    acc'.1 = acc.1 ++ filter (λ i, is_Some (assoc i (states r))) pins.*1 ∧
    acc'.2 = acc.2 ++ filter (λ i, assoc i (states r) = None) pins.*1.
Proof.
  revert r acc. induction pins as [|[sid o] pins IH]; intros r acc Hr Hnd; simpl in *.
  { exists acc, r. rewrite !app_nil_r. by split_and!. }
  apply NoDup_cons in Hnd as [Hnew Hnd]. rewrite !filter_cons.
  assert (assoc sid pins = None) as Hno.
  { destruct (assoc sid pins) as [x|] eqn:E; [|done]. destruct Hnew. apply list_elem_of_fmap. exists (sid, x). split; [done|]. by apply elem_of_assoc. }
  destruct (assoc sid (states r)) as [l|] eqn:El.
  - set (f := λ s, continue_effect o s). assert (∀ s, names sid (headers s) → names sid (headers (f s))) as Hn
      by (intros s; unfold f, continue_effect; by destruct o as [[]|]).
    destruct (update_session r sid l f Hr El Hn) as [Hr1 Hs1]. set (r1 := with_store _ r) in *.
    destruct (IH r1 (acc.1 ++ [sid], acc.2) Hr1 Hnd) as (acc' & r' & E & Hr' & Hst & Hs & Ha & Hb). exists acc', r'.
    assert (continue_one (sid, o) acc r = Ret (acc.1 ++ [sid], acc.2) r1) as E1 by (unfold continue_one; mrun; by rewrite El).
    rewrite (run_bind _ _ _ _ _ E1). split_and!; [done..| | |done].
    + intros sid'. rewrite Hs, Hs1. destruct (decide (sid = sid')) as [<-|]; [by rewrite Hno|done].
    + rewrite Ha. simpl. by rewrite <-app_assoc.
  - destruct (IH r (acc.1, acc.2 ++ [sid]) Hr Hnd) as (acc' & r' & E & Hr' & Hst & Hs & Ha & Hb). exists acc', r'.
    assert (continue_one (sid, o) acc r = Ret (acc.1, acc.2 ++ [sid]) r) as E1 by (unfold continue_one; mrun; by rewrite El).
    rewrite (run_bind _ _ _ _ _ E1). split_and!; [done..| |done|].
    + intros sid'. rewrite Hs. destruct (decide (sid = sid')) as [<-|]; [|done]. rewrite Hno. unfold session_of. by rewrite El.
    + rewrite Hb. simpl. by rewrite <-app_assoc.
Qed.

Lemma pinned_turn_headers strategy req s b d :
  pin_once_instance s = Some (b, d) →
  turn_headers strategy req s !! "x-base-worker-id" = Some b ∧ turn_headers strategy req s !! "x-target-dp-rank" = Some d ∧
  turn_headers strategy req s !! "x-force-pin-once" = Some "true".
Proof. intros E. unfold turn_headers. rewrite E. repeat first [rewrite lookup_insert_eq | rewrite lookup_insert_ne by done]. done. Qed.

(** Continuing a session wakes every turn that waits at its hang point, and the
    woken turn starts when it runs next: pinned to the requested instance if the
    request named one, and the pin is used up by that turn. *)
Theorem continue_unblocks_turn (w : World) (p : nat) (sid : string) (l : nat) (traj : option Z) (req : list (string * string)) (b : bool)
    (pins : list (string * option (string * string))) (o : option (string * string)) :
  router_reachable w → handlers w !! p = Some (ChatWait sid l traj req b) →
  assoc sid (states (router w)) = Some l → closing (obj l (router w)) = false →
  NoDup pins.*1 → assoc sid pins = Some o →
  let w1 := run_once (control_continue pins) w in
  let w2 := run_handler p (chat_gate sid l traj req) w1 in
  handlers w1 !! p = Some (ChatWait sid l traj req true) ∧
  world_step w1 w2 ∧
  pin_once_instance (obj l (router w2)) = None ∧
  ∃ h, handlers w2 !! p = Some (ChatBody sid l traj h) ∧
    ∀ base rank, o = Some (base, rank) →
      h !! "x-base-worker-id" = Some base ∧ h !! "x-target-dp-rank" = Some rank ∧ h !! "x-force-pin-once" = Some "true".
Proof.
  intros Hw%reachable_ok Hp Hl Hc Hnd Ho w1 w2. pose proof (wo_router _ Hw) as Hr.
  destruct (continue_run pins (router w) ([], []) Hr Hnd) as (acc & r1 & E & Hr1 & Hst & Hs & _).
  specialize (Hs sid). assert (assoc sid (states r1) = Some l) as Hl1 by (by rewrite Hst).
  rewrite Ho, (session_lookup r1 sid l Hr1 Hl1), (session_lookup (router w) sid l Hr Hl) in Hs.
  injection Hs as Hs. assert (router w1 = r1) as Ew1 by (unfold w1, run_once, control_continue; by rewrite E).
  assert (continue_event (obj l r1) = true ∧ closing (obj l r1) = false ∧ hang_state (obj l r1) = SESSION_RUNNING ∧
    (∀ q, o = Some q → pin_once_instance (obj l r1) = Some q)) as (He1 & Hc1 & Hh1 & Hpin1).
  { rewrite Hs. unfold continue_effect. destruct o as [[x y]|]; simpl; split_and!; done. }
  assert (handlers w1 !! p = Some (ChatWait sid l traj req true)) as Hp1.
  { unfold w1, run_once. simpl. rewrite lookup_fmap, Hp. simpl. unfold control_continue. rewrite E. simpl. by rewrite He1, orb_true_r. }
  split; [done|]. split; [by apply st_resume|].
  destruct (ro_names r1 Hr1 sid l) as (s & Es & _); [apply elem_of_assoc; by rewrite Hst|].
  unfold w2, run_handler. rewrite Ew1. unfold chat_gate. mrun. rewrite Hc1, bool_decide_false by (by rewrite Hh1). simpl. split.
  { unfold obj. simpl. by rewrite lookup_alter_eq, Es. }
  eexists. rewrite lookup_fmap, lookup_insert_eq. split; [done|].
  intros base rank ->. apply pinned_turn_headers. by apply Hpin1.
Qed.

(** A hang that was requested while turns were in flight takes effect with the
    last of them: it leaves the session hung, and until then the session goes on
    running, so that further turns may start. *)
Theorem deferred_hang_at_last_turn (w : World) (p : nat) (l : nat) (traj : option Z) (result : option HttpResponse) :
  router_reachable w → handlers w !! p = Some (ChatUpstream l traj) → marked_for_hang (obj l (router w)) = true →
  let w' := run_handler p (chat_end l traj result) w in
  let s' := obj l (router w') in
  (turns l (handlers w) = 1%nat → hang_state s' = SESSION_HUNG ∧ marked_for_hang s' = false ∧ continue_event s' = false) ∧
  ((1 < turns l (handlers w))%nat → hang_state s' = hang_state (obj l (router w)) ∧ hang_state s' ≠ SESSION_HUNG ∧ marked_for_hang s' = true).
Proof.
  intros Hw%reachable_ok Hp Hm w' s'. destruct (wo_handlers _ Hw p _ Hp) as [s Es]. rewrite (obj_store _ _ _ Es) in *.
  assert (s' = finish_turn traj result s) as ->.
  { unfold s', w', run_handler, chat_end, update. mrun. simpl. unfold obj. simpl. by rewrite lookup_alter_eq, Es. }
  destruct (wo_objects _ Hw l s Es) as [Hn _ _ Hh _ _]. destruct (finish_turn_fields traj result s) as (_ & _ & _ & H4 & H5 & H6).
  rewrite H4, H5, H6, Hm. simpl. split; intros Ht.
  - by rewrite bool_decide_true by lia.
  - rewrite bool_decide_false by lia. split_and!; [done| |done]. intros E. specialize (Hh E). lia.
Qed.

(** ** Concrete runs

    A turn of session [s] starts and is forwarded; the coordinator asks to hang the
    session meanwhile; the turn ends and the session is hung; the next turn waits. *)
Lemma reach_step w w' : router_reachable w → world_step w w' → router_reachable w'.
Proof. intros [strategy Hr] Hs. exists strategy. by eapply rtc_r. Qed.

Definition demo_reply : HttpResponse :=
  mkResponse 200 {["x-base-worker-id" := "r0"; "x-target-dp-rank" := "1"]}
    (Some (JObj [("usage", JObj [("prompt_tokens", JInt 90); ("completion_tokens", JInt 10)])])).

Definition demo_turn : World := run_handler 0 (session_chat_completions "s" []) (start "manual").
Definition demo_headers : Headers := {[SESSION_ID_HEADER := "s"; TRAJECTORY_ID_HEADER := "0"]}.
Definition demo_sent : World := run_handler 0 (chat_send "s" 0 (Some 0) demo_headers) demo_turn.
Definition demo_marked : World := run_once (control_hang ["s"]) demo_sent.
Definition demo_hung : World := run_handler 0 (chat_end 0 (Some 0) (Some demo_reply)) demo_marked.
Definition demo_blocked : World := run_handler 1 (session_chat_completions "s" []) demo_hung.
Definition demo_deleting : World := run_handler 2 (delete_session "s") demo_hung.
Definition demo_dead : World := run_handler 0 (mret (ChatDead 0)) demo_turn.
Definition demo_stuck : World := run_handler 1 (delete_session "s") demo_dead.

Lemma demo_turn_reachable : router_reachable demo_turn.
Proof. eapply reach_step; [exists "manual"; apply rtc_refl|]. apply (st_chat 0 "s" [] (start "manual")). reflexivity. Qed.
Lemma demo_sent_reachable : router_reachable demo_sent.
Proof. eapply reach_step; [apply demo_turn_reachable|]. apply (st_body 0 "s" 0 (Some 0) demo_headers demo_turn). vm_compute. reflexivity. Qed.
Lemma demo_marked_reachable : router_reachable demo_marked.
Proof. eapply reach_step; [apply demo_sent_reachable|]. apply st_hang. Qed.
Lemma demo_hung_reachable : router_reachable demo_hung.
Proof. eapply reach_step; [apply demo_marked_reachable|]. apply (st_end 0 0 (Some 0) (Some demo_reply) demo_marked). vm_compute. reflexivity. Qed.
Lemma demo_blocked_reachable : router_reachable demo_blocked.
Proof. eapply reach_step; [apply demo_hung_reachable|]. apply (st_chat 1 "s" [] demo_hung). vm_compute. reflexivity. Qed.
Lemma demo_deleting_reachable : router_reachable demo_deleting.
Proof. eapply reach_step; [apply demo_hung_reachable|]. apply (st_delete 2 "s" demo_hung). vm_compute. reflexivity. Qed.
Lemma demo_dead_reachable : router_reachable demo_dead.
Proof. eapply reach_step; [apply demo_turn_reachable|]. apply (st_body_fails 0 "s" 0 (Some 0) demo_headers demo_turn). vm_compute. reflexivity. Qed.
Lemma demo_stuck_reachable : router_reachable demo_stuck.
Proof. eapply reach_step; [apply demo_dead_reachable|]. apply (st_delete 1 "s" demo_dead). vm_compute. reflexivity. Qed.

Lemma session_accounting_witness :
  turns 0 (handlers demo_blocked) = 0%nat ∧ ∃ s, store (router demo_blocked) !! 0%nat = Some s ∧ hang_state s = SESSION_HUNG ∧ closing s = false.
Proof.
  split; [vm_compute; reflexivity|]. destruct (session_accounting demo_blocked demo_blocked_reachable) as (_ & H & _).
  apply (H 1%nat "s" 0%nat (Some 0) []). vm_compute. reflexivity.
Defined.

Lemma delete_seals_session_witness : turns 0 (handlers (run_once (control_continue [("s", None)]) demo_deleting)) = 0%nat.
Proof.
  refine (proj1 (proj1 (delete_seals_session demo_deleting (run_once (control_continue [("s", None)]) demo_deleting) 2 "s" 0 demo_deleting_reachable _ _))).
  - vm_compute. reflexivity.
  - apply rtc_once. apply st_continue.
Defined.

(** The id of a deleted session is free: a later turn under it starts on a new
    object and is forwarded. *)
Example reused_id_starts_afresh :
  let w1 := run_handler 2 (delete_end "s" 0 (Some (mkResponse 200 ∅ None))) demo_deleting in
  let w2 := run_handler 3 (session_chat_completions "s" []) w1 in
  assoc "s" (states (router w1)) = None ∧ turns 0 (handlers w2) = 0%nat ∧ turns 1 (handlers w2) = 1%nat.
Proof. by vm_compute. Qed.

Lemma chat_names_own_session_witness : upstream (router demo_sent) = [UpChat "s" demo_headers] ∧ demo_headers !! SESSION_ID_HEADER = Some "s".
Proof.
  assert (upstream (router demo_sent) = [UpChat "s" demo_headers]) as E by (vm_compute; reflexivity). split; [exact E|].
  apply (chat_names_own_session demo_sent "s" demo_headers demo_sent_reachable). rewrite E. apply elem_of_cons. left. reflexivity.
Defined.

Lemma lost_turn_blocks_delete_witness :
  handlers (run_once (control_continue [("s", None)]) demo_stuck) !! 1%nat = Some (DeleteWait "s" 0 false).
Proof.
  apply (lost_turn_blocks_delete demo_stuck _ 1 0 "s" 0 demo_stuck_reachable).
  - vm_compute. reflexivity.
  - vm_compute. reflexivity.
  - apply rtc_once. apply st_continue.
Defined.

Lemma control_hang_exact_witness :
  ∃ r', control_hang ["s"; "t"; "s"] (router demo_sent) = Ret (mkHangReply [] ["s"; "s"] ["t"]) r' ∧
    (marked_for_hang <$> session_of "s" r') = Some true.
Proof.
  destruct (control_hang_exact demo_sent ["s"; "t"; "s"] demo_sent_reachable) as (r' & E & Hs). exists r'.
  split; [rewrite E; vm_compute; reflexivity|]. rewrite Hs. vm_compute. reflexivity.
Defined.

Lemma continue_unblocks_turn_witness :
  let w1 := run_once (control_continue [("s", Some ("r1", "0"))]) demo_blocked in
  handlers w1 !! 1%nat = Some (ChatWait "s" 0 (Some 0) [] true) ∧
  ∃ h, handlers (run_handler 1 (chat_gate "s" 0 (Some 0) []) w1) !! 1%nat = Some (ChatBody "s" 0 (Some 0) h) ∧ h !! "x-base-worker-id" = Some "r1".
Proof.
  intros w1. destruct (continue_unblocks_turn demo_blocked 1 "s" 0 (Some 0) [] false [("s", Some ("r1", "0"))] (Some ("r1", "0")) demo_blocked_reachable)
    as (H1 & _ & _ & h & Hh & Hpin).
  - vm_compute. reflexivity.
  - vm_compute. reflexivity.
  - vm_compute. reflexivity.
  - apply NoDup_singleton.
  - reflexivity.
  - split; [exact H1|]. exists h. split; [exact Hh|]. destruct (Hpin "r1" "0" eq_refl) as [Hb _]. exact Hb.
Defined.

Lemma deferred_hang_at_last_turn_witness :
  turns 0 (handlers demo_marked) = 1%nat ∧ hang_state (obj 0 (router demo_hung)) = SESSION_HUNG.
Proof.
  assert (turns 0 (handlers demo_marked) = 1%nat) as E by (vm_compute; reflexivity). split; [exact E|].
  apply (deferred_hang_at_last_turn demo_marked 0 0 (Some 0) (Some demo_reply) demo_marked_reachable); [vm_compute; reflexivity|vm_compute; reflexivity|exact E].
Defined.

(** While the hang is pending a second turn starts, so the hang need not happen at
    the next turn boundary. *)
Example marked_session_starts_turn :
  let w1 := run_handler 1 (session_chat_completions "s" []) demo_marked in
  let w2 := run_handler 0 (chat_end 0 (Some 0) (Some demo_reply)) w1 in
  hang_state (obj 0 (router w2)) = SESSION_RUNNING ∧ marked_for_hang (obj 0 (router w2)) = true.
Proof. by vm_compute. Qed.
