(* ===== verification/SessionLoop.v ===== *)
(** * The session scheduling loop

    [ThunderAgentSessionMixin] of
    psrl/workers/gen/rollout_coordination/session/thunder_agent.py: one iteration of
    the coordinator's loop reads the sessions from the router, decides with
    [SessionScheduler] and posts the decision back to [SessionRouter].  Each of these
    is a call the loop awaits, so the router serves other requests between them and
    the coordinator's tables change meanwhile; both are arguments of the iteration.
    The file composes the two components: what the loop sends is what the router
    parses, and the router carries out what is still possible of the decision. *)

From Stdlib Require Import SpecFloat.
From S2P Require Import Prelude.
From S2P Require Import PyFloat.
From S2P Require Import StalenessBuffer.
From S2P Require Import SessionScheduler.
From S2P Require Import PyData.
From S2P Require Import SessionRouter.
From S2P Require Import SessionTheorems.

(** The attributes of the coordinator that the loop uses; engine status is the
    KV-cache utilization. *)
Record Coordinator := mkCoordinator {
  instance_ids : list RolloutInstanceId;
  rollout_replicas : gset string;
  instance_to_total_kv_tokens : gmap RolloutInstanceId Z;
  instance_to_engine_status : list (RolloutInstanceId * float);
}.

(** ** Capacities *)

(** [get_total_kv_cache_tokens] of a replica is [total_of]; the call is awaited, and
    [others] is what the rest of the coordinator has done when it returns. *)
Definition missing_replicas (c : Coordinator) : list string :=
  elements (list_to_set (omap (λ i : RolloutInstanceId,
    if bool_decide (instance_to_total_kv_tokens c !! i = None ∧ i.1 ∈ rollout_replicas c) then Some i.1 else None) (instance_ids c)) : gset string).

Definition set_total_tokens (r : string) (total : Z) (c : Coordinator) : Coordinator :=
  mkCoordinator (instance_ids c) (rollout_replicas c)
    (foldl (λ m (i : RolloutInstanceId), if bool_decide (i.1 = r) then <[i := total]> m else m) (instance_to_total_kv_tokens c) (instance_ids c))
    (instance_to_engine_status c).

Definition refresh_kv_token_capacities (total_of : string → Z) (others : string → Coordinator → Coordinator) (c : Coordinator) : Coordinator :=
  foldl (λ c r, set_total_tokens r (total_of r) (others r c)) c (missing_replicas c).

Definition instance_capacity (c : Coordinator) (row : RolloutInstanceId * float) : Res (option InstanceCapacity) :=
  let '(i, kv) := row in
  if bool_decide (i.1 ∉ rollout_replicas c) then inr None
  else match truthy (instance_to_total_kv_tokens c !! i) with
  | None => inr None
  | Some total =>
      match fround (fmul kv (of_Z total)) with
      | inl e => inl e
      | inr used => inr (Some (mkCapacity i total used))
      end
  end.

Definition build_instance_capacities (c : Coordinator) : Res (list InstanceCapacity) :=
  match map_res (instance_capacity c) (instance_to_engine_status c) with inl e => inl e | inr l => inr (omap id l) end.

(** ** Sessions *)

Definition item_instance (it : SessionItem) : Res (option RolloutInstanceId) :=
  match item_base_worker_id it, item_target_dp_rank it with
  | Some b, Some d => match py_int d with Some n => inr (Some (b, n)) | None => inl ValueError end
  | _, _ => inr None
  end.

Definition parse_item (it : SessionItem) : Res SessionInfo :=
  match item_instance it with
  | inl e => inl e
  | inr i => inr (mkSession (item_session_id it) i (item_status it) (item_hang_state it) (item_total_tokens it))
  end.

Definition parse_session_infos (items : list SessionItem) : Res (list SessionInfo) :=
  map_res parse_item (filter (λ it, item_closing it = false) items).

(** ** Requests *)

Definition hang_payload (sids : list string) : Json := JArr ((λ sid, JObj [("session_id", JStr sid)]) <$> sids).

Definition continue_payload (force_pin : bool) (l : list (string * RolloutInstanceId)) : Json :=
  JArr ((λ p : string * RolloutInstanceId,
    if force_pin then
      JObj [("session_id", JStr p.1); ("base_worker_id", JStr (p.2).1); ("target_dp_rank", JStr (str_of_Z (p.2).2))]
    else JObj [("session_id", JStr p.1)]) <$> l).

(** [int(generate_tokens + self.env_token_weight * env_tokens)] *)
Definition weighted_tokens (w : float) (g e : Z) : Z := default 0 (ftrunc (fadd (of_Z g) (fmul w (of_Z e)))).

(** ** One iteration *)

Section loop.
Context (repr : Json → string) (active_tokens : Z → Z → Z) (buffer_per_session : Z) (global_scope force_pin : bool).

(** What the loop decides from the sessions and capacities it read. *)
Definition loop_decision (c : Coordinator) (r : SessionRouter) : Res (list string * list (string * RolloutInstanceId)) :=
  match parse_session_infos (control_list_sessions r) with
  | inl e => inl e
  | inr [] => inr ([], [])
  | inr sessions =>
      match build_instance_capacities c with
      | inl e => inl e
      | inr instances => inr (decide_sessions active_tokens buffer_per_session global_scope instances sessions)
      end
  end.

Definition post_hang (sids : list string) : Rt HangReply :=
  ids ← of_res (read_control_ids repr (Some (hang_payload sids)));
  control_hang ids.

Definition post_continue (l : list (string * RolloutInstanceId)) : Rt (list string * list string) :=
  pins ← of_res (read_control_pins repr (Some (continue_payload force_pin l)));
  control_continue pins.

(** [if l: ... f(l)] *)
Definition unless_empty {A B} (l : list A) (f : list A → Rt B) : Rt (option B) :=
  match l with [] => mret None | _ => x ← f l; mret (Some x) end.

(** The loop body; the replies are what the log line prints.  [between1] and
    [between2] are what the router does for its other clients while the loop waits:
    after it has listed its sessions, and after it has served the hang request.
    [c] is the coordinator when the list arrives. *)
Definition thunder_agent_tick (between1 between2 : SessionRouter → SessionRouter) (c : Coordinator) :
    Rt (option HangReply * option (list string * list string)) :=
  r ← gets id;
  modify between1 ;;
  d ← of_res (loop_decision c r);
  h ← unless_empty d.1 post_hang;
  modify between2 ;;
  k ← unless_empty d.2 post_continue;
  mret (h, k).
End loop.

(** ** Each session is readmitted at most once *)

Lemma members_append i (s : SessionInfo) (d : Sessions) : dict_append i s d ≫= snd ≡ₚ s :: (d ≫= snd).
Proof.
  unfold dict_append. induction d as [|[k ss] d IH]; simpl; [done|]. destruct (decide (k = i)) as [->|]; simpl.
  - rewrite <-app_assoc. simpl. by rewrite <-Permutation_middle.
  - rewrite IH. by rewrite <-Permutation_middle.
Qed.

Lemma group_members known sessions running hung :
  (group_sessions known sessions running hung).2 ≫= snd ⊆+ sessions ++ (hung ≫= snd).
Proof.
  revert running hung. induction sessions as [|s sessions IH]; intros running hung; simpl; [done|].
  destruct (session_instance s) as [i|]; [|by apply submseteq_cons]. repeat case_bool_decide; [by apply submseteq_cons| |by apply submseteq_cons].
  etrans; [apply IH|]. rewrite members_append. by rewrite <-Permutation_middle.
Qed.

Lemma continue_once buffer hung remaining (global : bool) :
  (if global then continue_global_bfd buffer hung remaining else continue_pinned buffer hung remaining).*1 ⊆+ hung ≫= snd.
Proof.
  destruct global.
  - unfold continue_global_bfd. cbv zeta. set (caps := filter _ _).
    destruct (bool_decide (caps = []) || _); [apply submseteq_nil_l|]. destruct (last _) as [sm|]; [|apply submseteq_nil_l].
    etrans; [apply sublist_submseteq, place_sublist|]. rewrite sort_by_perm.
    etrans; [apply sublist_submseteq, admit_sublist|]. by rewrite sort_by_perm.
  - unfold continue_pinned. induction hung as [|[i ss] hung IH]; simpl; [done|]. rewrite fmap_app.
    apply submseteq_app; [|done]. rewrite <-list_fmap_compose, (list_fmap_ext _ id), list_fmap_id by done.
    unfold continue_on. case_bool_decide; [apply submseteq_nil_l|].
    etrans; [apply sublist_submseteq, admit_sublist|]. by rewrite sort_by_perm.
Qed.

Lemma decide_readmits_once active buffer global instances sessions :
  NoDup (session_id <$> sessions) → NoDup (decide_sessions active buffer global instances sessions).2.*1.
Proof.
  intros Hnd. unfold decide_sessions. pose proof (group_members (cap_instance_id <$> instances) sessions [] []) as Hg.
  destruct (group_sessions _ _ _ _) as [running hung]. simpl in Hg. rewrite app_nil_r in Hg.
  destruct (hang_all _ _ _ _ _ _) as [to_hang remaining]. simpl.
  pose proof (continue_once buffer hung remaining global) as Hc. set (l := if global then _ else _) in *.
  assert ((((λ '(s, i), (session_id s, i)) <$> l).*1) = session_id <$> (l.*1)) as ->
    by (rewrite <-!list_fmap_compose; apply list_fmap_ext; by intros j [s i] _).
  assert (session_id <$> l.*1 ⊆+ session_id <$> sessions) as [k Hk]%submseteq_Permutation by (apply fmap_submseteq; by etrans).
  rewrite Hk in Hnd. by apply NoDup_app in Hnd as [? _].
Qed.

(** ** What the loop sends is what the router reads *)

Lemma control_items_arr l : control_items (Some (JArr l)) = inr l.
Proof. by destruct l. Qed.

Lemma hang_payload_parses repr sids : read_control_ids repr (Some (hang_payload sids)) = inr sids.
Proof.
  unfold read_control_ids, hang_payload. rewrite control_items_arr. f_equal.
  induction sids as [|y l IH]; [done|]. cbn. f_equal. exact IH.
Qed.

Definition payload_pins (force_pin : bool) (l : list (string * RolloutInstanceId)) : list (string * option (string * string)) :=
  (λ p : string * RolloutInstanceId, (p.1, if force_pin then Some ((p.2).1, str_of_Z (p.2).2) else None)) <$> l.

Lemma continue_payload_parses repr force_pin l :
  NoDup l.*1 → read_control_pins repr (Some (continue_payload force_pin l)) = inr (payload_pins force_pin l).
Proof.
  intros Hnd. unfold read_control_pins, continue_payload. rewrite control_items_arr. set (item := λ p : string * RolloutInstanceId, _).
  f_equal. set (step := λ pins it, _).
  enough (∀ pins, (∀ k, k ∈ pins.*1 → k ∉ l.*1) → foldl step pins (item <$> l) = pins ++ payload_pins force_pin l) as H.
  { apply (H []). intros k []%not_elem_of_nil. }
  induction l as [|[sid i] l IH]; intros pins Hfr; simpl; [by rewrite app_nil_r|]. simpl in Hnd. apply NoDup_cons in Hnd as [Hsid Hnd].
  assert (step pins (item (sid, i)) = pins ++ [(sid, if force_pin then Some (i.1, str_of_Z i.2) else None)]) as ->.
  { unfold step, item. simpl. destruct force_pin; simpl; (apply dict_set_new; destruct (assoc sid pins) as [v|] eqn:E; [|done]; exfalso;
      apply (Hfr sid); [apply list_elem_of_fmap; exists (sid, v); split; [done|]; by apply elem_of_assoc|apply elem_of_cons; by left]). }
  rewrite IH; [by rewrite <-app_assoc|done|]. intros k Hk Hl. rewrite fmap_app in Hk. apply elem_of_app in Hk as [Hk|Hk].
  - apply (Hfr k Hk). apply elem_of_cons. by right.
  - apply list_elem_of_singleton in Hk. simpl in Hk. by subst.
Qed.

(** ** The sessions the loop reads *)

Lemma parsed_session r sessions s :
  router_ok r → parse_session_infos (control_list_sessions r) = inr sessions → s ∈ sessions →
  ∃ st, session_of (session_id s) r = Some st ∧ closing st = false ∧ SessionScheduler.hang_state s = SessionRouter.hang_state st.
Proof.
  intros Hr H%map_res_Forall2 Hs. apply list_elem_of_lookup in Hs as [n Hn]. destruct (Forall2_lookup_r _ _ _ _ _ H Hn) as (it & Hit & E).
  apply list_elem_of_lookup_2, list_elem_of_filter in Hit as [Hc Hin]. apply list_elem_of_fmap in Hin as ([sid l] & -> & Hin).
  unfold parse_item in E. destruct (item_instance _) as [|i]; simplify_eq. simpl in *. exists (obj l r).
  split_and!; [|done|done]. apply session_lookup; [done|]. apply assoc_elem; [apply Hr|done].
Qed.

Lemma parsed_distinct r sessions :
  router_ok r → parse_session_infos (control_list_sessions r) = inr sessions → NoDup (session_id <$> sessions).
Proof.
  intros Hr H%map_res_Forall2.
  assert (session_id <$> sessions = item_session_id <$> filter (λ it, item_closing it = false) (control_list_sessions r)) as ->.
  { induction H as [|it s l ss E _ IH]; [done|]. rewrite !fmap_cons, IH. f_equal. unfold parse_item in E. by destruct (item_instance it); simplify_eq. }
  apply (sublist_NoDup _ ((states r).*1)); [apply Hr|].
  assert ((states r).*1 = item_session_id <$> control_list_sessions r) as ->.
  { unfold control_list_sessions. rewrite <-list_fmap_compose. apply list_fmap_ext. by intros j [sid l] _. }
  apply fmap_sublist, sublist_filter.
Qed.

(** The decision is about open sessions, each in one list. *)
Definition sound_decision (r : SessionRouter) (d : list string * list (string * RolloutInstanceId)) : Prop :=
  NoDup d.2.*1 ∧
  (∀ sid, sid ∈ d.1 → ∃ s, session_of sid r = Some s ∧ closing s = false ∧ SessionRouter.hang_state s ≠ SessionRouter.SESSION_HUNG) ∧
  (∀ sid, sid ∈ d.2.*1 → ∃ s, session_of sid r = Some s ∧ closing s = false ∧ SessionRouter.hang_state s = SessionRouter.SESSION_HUNG).

Lemma loop_decision_sound active buffer global c r d : router_ok r → loop_decision active buffer global c r = inr d → sound_decision r d.
Proof.
  intros Hr. unfold loop_decision. destruct (parse_session_infos _) as [e|sessions] eqn:Ep; [done|].
  assert (∀ l, decide_sessions active buffer global l sessions = d → sound_decision r d) as Hd.
  { intros l <-. split; [apply decide_readmits_once; by eapply parsed_distinct|].
    pose proof (decision_respects_state active buffer global l sessions) as H. destruct (decide_sessions _ _ _ _ _) as [hs cs]. destruct H as [Hh Hc].
    split; simpl.
    - intros sid (s & Hs & <- & Hn & _)%Hh. destruct (parsed_session r sessions s Hr Ep Hs) as (st & ? & ? & E). exists st. rewrite <-E. done.
    - intros sid ([sid' i] & -> & Hin)%list_elem_of_fmap. destruct (Hc _ _ Hin) as (s & Hs & <- & Hn & _).
      destruct (parsed_session r sessions s Hr Ep Hs) as (st & ? & ? & E). exists st. rewrite <-E. done. }
  destruct sessions as [|s0 ss].
  - intros [= <-]. split_and!; [constructor|intros ? []%not_elem_of_nil|intros ? []%not_elem_of_nil].
  - destruct (build_instance_capacities c) as [|insts]; [done|]. intros [= E]. by apply (Hd insts).
Qed.

(** ** One iteration *)

Lemma hang_router_ok ids r : router_ok r → router_ok (final (control_hang ids r)).
Proof. intros Hr. by apply (q_router _ _ (quietly_hang ids r Hr)). Qed.

Lemma run_post_hang repr sids r hr r1 :
  control_hang sids r = Ret hr r1 →
  unless_empty sids (post_hang repr) r = Ret (if bool_decide (sids = []) then None else Some hr) r1.
Proof.
  intros E. destruct sids as [|x l]; [by injection E as _ <-|].
  unfold unless_empty, post_hang. rewrite hang_payload_parses. mrun. rewrite (run_of_res _ (x :: l)) by done. by rewrite (run_bind _ _ _ _ _ E).
Qed.

Lemma run_post_continue repr force_pin l r acc r1 :
  NoDup l.*1 → control_continue (payload_pins force_pin l) r = Ret acc r1 →
  unless_empty l (post_continue repr force_pin) r = Ret (if bool_decide (l = []) then None else Some acc) r1.
Proof.
  intros Hnd E. destruct l as [|x l]; [by injection E as _ <-|].
  unfold unless_empty, post_continue. rewrite continue_payload_parses by done. mrun. rewrite (run_of_res _ (payload_pins force_pin (x :: l))) by done.
  by rewrite (run_bind _ _ _ _ _ E).
Qed.

Lemma payload_pins_names force_pin l : (payload_pins force_pin l).*1 = l.*1.
Proof. unfold payload_pins. rewrite <-list_fmap_compose. by apply list_fmap_ext. Qed.

(** C22: One iteration of the scheduling loop carries out the decision it makes,
    whatever the router serves while the loop waits for its answers ([w] is read,
    [w1] is where the hang request arrives, [w2] where the continue request does).
    The decision is sound for what was read: it hangs open sessions that are not hung,
    continues open ones that are, each at most once.  The hang request hangs the
    sessions of the decision that are open and idle when it arrives, marks those with
    a turn in flight, reports the ones closed or deleted meanwhile as missing, and
    changes no other session.  The continue request lets every session of the decision
    that is still known run again, reports the others as missing, and changes no other
    session; with [continue_force_pin] the next turn of a continued session goes to
    the chosen instance, which is also the one a later iteration reads back. *)
Theorem tick_carries_out_decision (repr : Json → string) (active : Z → Z → Z) (buffer : Z) (global force_pin : bool)
    (c : Coordinator) (w w1 w2 : World) (between1 between2 : SessionRouter → SessionRouter) (d : list string * list (string * RolloutInstanceId)) :
  router_reachable w → loop_decision active buffer global c (router w) = inr d →
  rtc world_step w w1 → between1 (router w) = router w1 →
  let wh := run_once (control_hang d.1) w1 in
  rtc world_step wh w2 → between2 (router wh) = router w2 →
  sound_decision (router w) d ∧
  ∃ reply r', thunder_agent_tick repr active buffer global force_pin between1 between2 c (router w) = Ret reply r' ∧
    reply.1 = (if bool_decide (d.1 = []) then None else
       Some (mkHangReply (filter (λ sid, open_idle (session_of sid (router w1)) = true) d.1)
               (filter (λ sid, open_busy (session_of sid (router w1)) = true) d.1)
               (filter (λ sid, gone (session_of sid (router w1)) = true) d.1))) ∧
    (∀ sid s, sid ∈ d.1 → session_of sid (router w1) = Some s → closing s = false →
       ∃ s', session_of sid (router wh) = Some s' ∧
         if bool_decide (inflight s = 0) then SessionRouter.hang_state s' = SessionRouter.SESSION_HUNG else marked_for_hang s' = true) ∧
    (∀ sid, sid ∉ d.1 → session_of sid (router wh) = session_of sid (router w1)) ∧
    reply.2 = (if bool_decide (d.2 = []) then None else
       Some (filter (λ sid, is_Some (assoc sid (states (router w2)))) d.2.*1, filter (λ sid, assoc sid (states (router w2)) = None) d.2.*1)) ∧
    (∀ sid i, (sid, i) ∈ d.2 → ∀ s, session_of sid (router w2) = Some s →
       ∃ s', session_of sid r' = Some s' ∧ SessionRouter.hang_state s' = SessionRouter.SESSION_RUNNING ∧ continue_event s' = true ∧
       (force_pin = true → pin_once_instance s' = Some (i.1, str_of_Z i.2) ∧ item_instance (session_item sid s') = inr (Some i))) ∧
    (∀ sid, sid ∉ d.2.*1 → session_of sid r' = session_of sid (router w2)).
Proof.
  intros Hw Hd Hw1 Eb1 wh Hw2 Eb2. pose proof (reachable_steps w w1 Hw Hw1) as Hw1r. pose proof (wo_router _ (reachable_ok w Hw)) as Hr.
  pose proof (loop_decision_sound _ _ _ _ _ _ Hr Hd) as Hsound. split; [done|]. destruct Hsound as (Hnd & _ & _).
  destruct (control_hang_exact w1 d.1 Hw1r) as (r1 & E1 & Hs1). assert (router wh = r1) as Ewh by (unfold wh, run_once; simpl; by rewrite E1).
  assert (router_reachable w2) as Hw2r by (eapply reachable_steps; [|done]; eapply reach_step; [done|apply st_hang]).
  pose proof (wo_router _ (reachable_ok w2 Hw2r)) as Hr2.
  assert (NoDup (payload_pins force_pin d.2).*1) as Hnd' by (by rewrite payload_pins_names).
  destruct (continue_run (payload_pins force_pin d.2) (router w2) ([], []) Hr2 Hnd') as (acc & r2 & E2 & _ & _ & Hs2 & Ha1 & Ha2).
  rewrite payload_pins_names in Ha1, Ha2. simpl in Ha1, Ha2.
  unfold thunder_agent_tick. mrun. rewrite Eb1, (run_of_res _ d) by done. rewrite (run_bind _ _ _ _ _ (run_post_hang repr _ _ _ _ E1)). mrun.
  rewrite <-Ewh, Eb2, (run_bind _ _ _ _ _ (run_post_continue repr force_pin d.2 _ acc r2 Hnd E2)). eexists _, r2. split; [done|]. cbn [fst snd].
  split; [done|]. split; [|split; [|split; [|split]]].
  - intros sid s Hin Es Hcl. exists (hang_effect s). rewrite Ewh, Hs1, decide_True, Es by done. split; [done|]. unfold hang_effect. rewrite Hcl.
    by case_bool_decide.
  - intros sid Hin. by rewrite Ewh, Hs1, decide_False.
  - case_bool_decide; [done|]. f_equal. destruct acc as [a1 a2]. simpl in *. congruence.
  - intros sid i Hin s Es. set (o := if force_pin then Some (i.1, str_of_Z i.2) else None).
    assert (assoc sid (payload_pins force_pin d.2) = Some o) as Ho
      by (apply assoc_elem; [done|]; apply list_elem_of_fmap; by exists (sid, i)).
    exists (continue_effect o s). rewrite Hs2, Ho, Es. unfold continue_effect, o. destruct force_pin; simpl; split_and!; try done. intros _. split; [done|].
    unfold item_instance. simpl. rewrite py_int_str. by destruct i.
  - intros sid Hn. rewrite Hs2. destruct (assoc sid (payload_pins force_pin d.2)) as [o|] eqn:E; [|done]. destruct Hn.
    rewrite <-(payload_pins_names force_pin). apply elem_of_assoc in E. apply list_elem_of_fmap. by exists (sid, o).
Qed.

(** ** A concrete iteration

    Session [s] is hung on instance [("r0", 1)], which has room. *)
Definition demo_coordinator : Coordinator :=
  mkCoordinator [("r0", 0); ("r0", 1)] {["r0"]} ∅ [(("r0", 0), ratio 1 10); (("r0", 1), ratio 1 10)].
Definition demo_decision : list string * list (string * RolloutInstanceId) := ([], [("s", ("r0", 1))]).

Definition demo_refreshed : Coordinator := refresh_kv_token_capacities (λ _, 1000) (λ _ c, c) demo_coordinator.

Example demo_capacities :
  build_instance_capacities demo_refreshed = inr [mkCapacity ("r0", 0) 1000 100; mkCapacity ("r0", 1) 1000 100].
Proof. by vm_compute. Qed.

(** A new turn of [s] blocks at its hang point while the loop waits for the list;
    the continue request wakes it and pins it. *)
Definition demo_asked : World := run_once (control_hang demo_decision.1) demo_blocked.

Lemma demo_decides : loop_decision (weighted_tokens fone) 100 false demo_refreshed (router demo_hung) = inr demo_decision.
Proof. vm_compute. reflexivity. Qed.
Lemma demo_blocks : rtc world_step demo_hung demo_blocked.
Proof. apply rtc_once. apply (st_chat 1 "s" [] demo_hung). vm_compute. reflexivity. Qed.
Lemma demo_asked_session : session_of "s" (router demo_asked) = Some (obj 0 (router demo_hung)).
Proof. vm_compute. reflexivity. Qed.

Lemma tick_carries_out_decision_witness :
  ∃ reply r' s', thunder_agent_tick (λ _, "") (weighted_tokens fone) 100 false true (λ _, router demo_blocked) (λ r, r) demo_refreshed (router demo_hung) =
      Ret reply r' ∧ reply = (None, Some (["s"], [])) ∧ session_of "s" r' = Some s' ∧ pin_once_instance s' = Some ("r0", "1").
Proof.
  destruct (tick_carries_out_decision (λ _, "") (weighted_tokens fone) 100 false true demo_refreshed demo_hung demo_blocked demo_asked
    (λ _, router demo_blocked) (λ r, r) demo_decision demo_hung_reachable demo_decides demo_blocks eq_refl (rtc_refl _ _) eq_refl)
    as (_ & reply & r' & E & Hh & _ & _ & Hk & Hc & _).
  assert (("s", ("r0", 1)) ∈ demo_decision.2) as Hd by (apply elem_of_cons; left; reflexivity).
  destruct (Hc "s" ("r0", 1) Hd _ demo_asked_session) as (s' & Es' & _ & _ & Hpin).
  assert (reply = (None, Some (["s"], []))) as HR.
  { clear -Hh Hk. destruct reply as [h k]. cbn [fst snd] in Hh, Hk. rewrite Hh, Hk. vm_compute. reflexivity. }
  exists reply, r', s'. split; [exact E|]. split; [exact HR|]. split; [exact Es'|]. apply Hpin. reflexivity.
Defined.

(** A session that is deleted while the loop waits is reported as missing. *)
Example tick_misses_deleted_session :
  let gone_s := λ r : SessionRouter, with_states [] r in
  ∃ r', thunder_agent_tick (λ _, "") (weighted_tokens fone) 100 false true gone_s (λ r, r) demo_refreshed (router demo_hung) = Ret (None, Some ([], ["s"])) r'.
Proof. eexists. vm_compute. reflexivity. Qed.
