(* ===== verification/Sharding.v ===== *)
(** * Tensor shardings

    [NIXLSharding] of psrl/utils/nixl/nixl_spec.py: which shards of a tensor a
    client holds, and how a sharding is refined to a common finer mesh.  A shard
    mesh is an ordered dictionary from tensor dimensions to shard counts, a shard
    index a tuple with one coordinate per dimension of the mesh. *)

From S2P Require Import Prelude.
From S2P Require Import PyFloat.
From S2P Require Import PyData.

Abbreviation Mesh := (list (Z * Z)).
Abbreviation Shard := (list Z).

Record NIXLSharding := mkSharding {
  shard_mesh : Mesh;
  local_shard_mesh : Mesh;
  shard_indices : list Shard;
}.

(** ** Greatest common divisor *)

(** The loop of [gcd]; [fuel] bounds the number of rounds. *)
Fixpoint gcd_loop (fuel : nat) (a b : Z) : Z :=
  match fuel with
  | O => a
  | S fuel => if bool_decide (b = 0) then a else gcd_loop fuel b (a mod b)
  end.

Definition gcd (a b : Z) : Z := gcd_loop (S (Z.to_nat (Z.abs b))) a b.

Definition lcm (a b : Z) : Res Z :=
  if bool_decide (gcd a b = 0) then inl ZeroDivisionError else inr (a * b / gcd a b).

(** ** Validation *)

(** [prev < curr] on tuples of integers. *)
Fixpoint shard_ltb (a b : Shard) : bool :=
  match a, b with
  | _, [] => false
  | [], _ :: _ => true
  | x :: a, y :: b => if bool_decide (x = y) then shard_ltb a b else bool_decide (x < y)
  end.

Fixpoint increasing (l : list Shard) : bool :=
  match l with
  | a :: (b :: _) as l' => shard_ltb a b && increasing l'
  | _ => true
  end.

(** The number of distinct values of each coordinate. *)
Definition dim_sizes (n : nat) (l : list Shard) : list Z :=
  (λ d, Z.of_nat (size (list_to_set (omap (λ t : Shard, t !! d) l) : gset Z))) <$> seq 0 n.

Definition product (l : list Z) : Z := foldl Z.mul 1 l.

(** [_validate_and_set_local_shard_mesh]: the local mesh, or [ValueError]. *)
Definition validate_local_shard_mesh (mesh : Mesh) (indices : list Shard) : Res Mesh :=
  match indices with
  | [] => inr []
  | first :: _ =>
      let n := length first in
      if negb (forallb (λ t, bool_decide (length t = n)) indices) then inl ValueError
      else if negb (increasing indices) then inl ValueError
      else
        let sizes := dim_sizes n indices in
        if bool_decide (Z.of_nat (length indices) ≠ product sizes) then inl ValueError
        else inr (foldl (λ d '(k, v), dict_set k v d) [] (zip mesh.*1 sizes))
  end.

Definition new_sharding (mesh : Mesh) (indices : list Shard) : Res NIXLSharding :=
  match validate_local_shard_mesh mesh indices with inl e => inl e | inr l => inr (mkSharding mesh l indices) end.

Definition default_sharding : NIXLSharding := mkSharding [(0, 1)] [(0, 1)] [[0]].
Definition empty_sharding : NIXLSharding := mkSharding [(0, 1)] [] [].
Definition is_contiguous_sharding (s : NIXLSharding) : bool :=
  bool_decide (length (shard_mesh s) = 1%nat) && bool_decide (is_Some (assoc 0 (shard_mesh s))).

(** ** The finest mesh of several clients *)

Fixpoint fold_lcm (acc : Z) (l : list Z) : Res Z :=
  match l with
  | [] => inr acc
  | x :: l => match lcm acc x with inl e => inl e | inr n => fold_lcm n l end
  end.

Fixpoint finest_at (meshes : list Mesh) (dims : list Z) : Res Mesh :=
  match dims with
  | [] => inr []
  | d :: dims =>
      match fold_lcm 1 (omap (assoc d) meshes) with
      | inl e => inl e
      | inr n => match finest_at meshes dims with inl e => inl e | inr m => inr ((d, n) :: m) end
      end
  end.

(** [max] of no key raises [ValueError]. *)
Fixpoint max_dims (meshes : list Mesh) : option (list Z) :=
  match meshes with
  | [] => Some []
  | m :: ms => match list_max m.*1, max_dims ms with Some x, Some l => Some (x :: l) | _, _ => None end
  end.

Definition find_finest_shard_mesh (meshes : list Mesh) : Res Mesh :=
  match max_dims meshes ≫= list_max with
  | None => inl ValueError
  | Some max_dim => finest_at meshes (zrange 0 (max_dim + 1))
  end.

(** ** Refinement *)

Fixpoint validate_refactor_compatibility (mesh finer : Mesh) : Res unit :=
  match mesh with
  | [] => inr tt
  | (d, cur) :: mesh =>
      match assoc d finer with
      | Some f =>
          if bool_decide (cur = 0) then inl ZeroDivisionError
          else if bool_decide (f mod cur ≠ 0) then inl ValueError
          else validate_refactor_compatibility mesh finer
      | None => validate_refactor_compatibility mesh finer
      end
  end.

Fixpoint current_factors (mesh finer : Mesh) (factors : Mesh) : Res Mesh :=
  match mesh with
  | [] => inr factors
  | (d, cur) :: mesh =>
      match assoc d finer with
      | Some f => current_factors mesh finer (dict_set d (f / cur) factors)
      | None => if bool_decide (cur = 1) then current_factors mesh finer factors else inl AssertionError
      end
  end.

Definition calculate_scaling_factors (mesh finer : Mesh) : Res Mesh :=
  match current_factors mesh finer [] with
  | inl e => inl e
  | inr factors => inr (foldl (λ fs '(d, f), if bool_decide (assoc d mesh = None) then dict_set d f fs else fs) factors finer)
  end.

(** The range of finer coordinates of one dimension. *)
Definition coordinate_range (mesh : Mesh) (cur : list (Z * Z)) (factors : Mesh) (d f : Z) : Res (list Z) :=
  match assoc d factors with
  | None => inl KeyError
  | Some sf =>
      match assoc d mesh with
      | Some _ => let start := default 0 (assoc d cur) * sf in inr (zrange start (start + sf))
      | None => if bool_decide (sf = f) then inr (zrange 0 sf) else inl AssertionError
      end
  end.

(** [_expand_recursive] over the remaining dimensions of the finer mesh. *)
Fixpoint expand_recursive (mesh : Mesh) (cur : list (Z * Z)) (factors dims : Mesh) : Res (list Shard) :=
  match dims with
  | [] => inr [[]]
  | (d, f) :: dims =>
      match coordinate_range mesh cur factors d f with
      | inl e => inl e
      | inr range =>
          match range, expand_recursive mesh cur factors dims with
          | [], _ => inr []
          | _, inl e => inl e
          | _, inr rest => inr (flat_map (λ x, cons x <$> rest) range)
          end
      end
  end.

Fixpoint generate_new_shard_indices (mesh finer factors : Mesh) (indices : list Shard) : Res (list Shard) :=
  match indices with
  | [] => inr []
  | idx :: indices =>
      if bool_decide (length mesh ≠ length idx) then inl AssertionError
      else
        match expand_recursive mesh (zip mesh.*1 idx) factors finer with
        | inl e => inl e
        | inr l =>
            match generate_new_shard_indices mesh finer factors indices with inl e => inl e | inr l' => inr (l ++ l') end
        end
  end.

(** The indices [refactor_based_on_finer_shard_mesh] computes. *)
Definition refined_indices (mesh finer : Mesh) (indices : list Shard) : Res (list Shard) :=
  match validate_refactor_compatibility mesh finer with
  | inl e => inl e
  | inr _ =>
      match calculate_scaling_factors mesh finer with
      | inl e => inl e
      | inr factors => generate_new_shard_indices mesh finer factors indices
      end
  end.

(** In place: mesh and indices are assigned before they are validated. *)
Definition refactor_based_on_finer_shard_mesh (finer : Mesh) : M NIXLSharding unit :=
  s ← gets id;
  l ← of_res (refined_indices (shard_mesh s) finer (shard_indices s));
  modify (λ s, mkSharding finer (local_shard_mesh s) l) ;;
  local ← of_res (validate_local_shard_mesh finer l);
  modify (λ s, mkSharding (shard_mesh s) local (shard_indices s)).

(** The example of the docstring, and a client that holds two shards of a later
    dimension when an earlier one is split. *)
Example refactor_docstring :
  refactor_based_on_finer_shard_mesh [(0, 2); (1, 4)] (mkSharding [(1, 2)] [(1, 1)] [[1]]) =
    Ret tt (mkSharding [(0, 2); (1, 4)] [(0, 2); (1, 2)] [[0; 2]; [0; 3]; [1; 2]; [1; 3]]).
Proof. by vm_compute. Qed.

(** ** Cartesian products *)

Fixpoint cart (rs : list (list Z)) : list Shard :=
  match rs with [] => [[]] | r :: rs => flat_map (λ x, cons x <$> cart rs) r end.

Lemma elem_of_cart rs j : j ∈ cart rs ↔ Forall2 (λ r y, y ∈ r) rs j.
Proof.
  revert j. induction rs as [|r rs IH]; intros j; simpl.
  - rewrite list_elem_of_singleton. split; [intros ->; constructor|by intros ->%Forall2_nil_inv_l].
  - rewrite list_elem_of_In, in_flat_map. split.
    + intros (x & Hx%list_elem_of_In & (j' & -> & Hj)%list_elem_of_In%list_elem_of_fmap). constructor; [done|]. by apply IH.
    + intros (y & j' & Hy & Hj & ->)%Forall2_cons_inv_l. exists y. split; [by apply list_elem_of_In|].
      apply list_elem_of_In, list_elem_of_fmap. exists j'. split; [done|]. by apply IH.
Qed.

Lemma flat_map_length_const {A B} (f : A → list B) n l : (∀ x, length (f x) = n) → length (flat_map f l) = (length l * n)%nat.
Proof. intros Hf. induction l as [|x l IH]; simpl; [done|]. by rewrite length_app, Hf, IH. Qed.

Lemma length_cart rs : Z.of_nat (length (cart rs)) = product (Z.of_nat ∘ length <$> rs).
Proof.
  assert (∀ l acc, foldl Z.mul acc l = acc * foldl Z.mul 1 l) as Hmul.
  { induction l as [|x l IH]; intros acc; simpl; [lia|]. rewrite IH, (IH (1 * x)) . destruct x; nia. }
  induction rs as [|r rs IH]; [done|]. cbn [cart fmap list_fmap]. unfold product in *. simpl. rewrite Hmul.
  rewrite (flat_map_length_const _ (length (cart rs))) by (intros; by rewrite length_fmap). rewrite Nat2Z.inj_mul, IH. destruct (length r); nia.
Qed.

Definition sorted_lt (l : list Z) : Prop := StronglySorted Z.lt l.

Lemma increasing_app (l k : list Shard) :
  increasing l = true → increasing k = true → (∀ a b, last l = Some a → head k = Some b → shard_ltb a b = true) → increasing (l ++ k) = true.
Proof.
  induction l as [|a l IH]; intros Hl Hk Hlk; [done|]. destruct l as [|b l].
  - simpl. destruct k as [|c k]; [done|]. rewrite (Hlk a c) by done. done.
  - simpl in Hl. apply andb_true_iff in Hl as [Hab Hl]. simpl. rewrite Hab. apply IH; [done..|]. intros x y Hx Hy. by apply Hlk.
Qed.

Lemma increasing_cons x (l : list Shard) : increasing (cons x <$> l) = increasing l.
Proof.
  induction l as [|a [|b l] IH]; [done..|]. simpl in *. rewrite bool_decide_true by done. by rewrite IH.
Qed.

Lemma increasing_cart rs : Forall sorted_lt rs → increasing (cart rs) = true.
Proof.
  induction 1 as [|r rs Hr Hrs IH]; [done|]. simpl. induction Hr as [|x r Hr IHr Hx]; [done|]. simpl.
  apply increasing_app; [by rewrite increasing_cons|done|]. intros a b Ha Hb.
  apply last_Some in Ha as (l1 & Ha). assert (a ∈ cons x <$> cart rs) as (a' & -> & _)%list_elem_of_fmap
    by (rewrite Ha; apply elem_of_app; right; by apply list_elem_of_singleton).
  assert (b ∈ flat_map (λ x, cons x <$> cart rs) r) as Hb' by (destruct (flat_map _ r); simplify_eq/=; apply elem_of_cons; by left).
  apply list_elem_of_In, in_flat_map in Hb' as (y & Hy%list_elem_of_In & (b' & -> & _)%list_elem_of_In%list_elem_of_fmap).
  rewrite Forall_forall in Hx. specialize (Hx y Hy). simpl. rewrite bool_decide_false by lia. by apply bool_decide_eq_true.
Qed.

Lemma shard_ltb_trans a b c : shard_ltb a b = true → shard_ltb b c = true → shard_ltb a c = true.
Proof.
  revert b c. induction a as [|x a IH]; intros [|y b] [|z c]; simpl; try done.
  repeat case_bool_decide; subst; try done; try lia; eauto.
Qed.

Lemma shard_ltb_irrefl a : shard_ltb a a = false.
Proof. induction a as [|x a IH]; simpl; [done|]. by rewrite bool_decide_true. Qed.

Lemma increasing_NoDup l : increasing l = true → NoDup l.
Proof.
  intros Hl. assert (StronglySorted (λ a b, shard_ltb a b = true) l) as Hs.
  { apply Sorted_StronglySorted; [intros a b c; apply shard_ltb_trans|]. induction l as [|a l IH]; [constructor|]. destruct l as [|b l].
    - repeat constructor.
    - simpl in Hl. apply andb_true_iff in Hl as [Hab Hl]. constructor; [by apply IH|]. by constructor. }
  clear Hl. induction Hs as [|a l Hs IH Ha]; constructor; [|done]. intros Hin. rewrite Forall_forall in Ha.
  specialize (Ha a Hin). by rewrite shard_ltb_irrefl in Ha.
Qed.

Lemma zrange_sorted lo hi : sorted_lt (zrange lo hi).
Proof.
  unfold zrange, sorted_lt. generalize (hi - lo). intros n. destruct (decide (0 ≤ n)) as [Hn|]; [|rewrite seqZ_nil by lia; constructor].
  revert lo. pattern n. apply natlike_ind; [intros lo; rewrite seqZ_nil by lia; constructor| |done]. clear n Hn. intros n Hn IH lo.
  rewrite seqZ_cons by lia. rewrite Z.pred_succ. constructor; [apply IH|]. apply Forall_forall. intros x Hx%elem_of_seqZ. lia.
Qed.

Lemma zrange_length lo hi : lo ≤ hi → Z.of_nat (length (zrange lo hi)) = hi - lo.
Proof. intros H. unfold zrange. rewrite length_seqZ. lia. Qed.

(** ** Refinement covers the same region *)

Record wf_mesh (m : Mesh) : Prop := {
  wm_dims : NoDup m.*1;
  wm_pos : ∀ d c, assoc d m = Some c → 0 < c;
}.

(** An index of the mesh. *)
Definition in_mesh (m : Mesh) (idx : Shard) : Prop := Forall2 (λ (row : Z * Z) x, 0 ≤ x < row.2) m idx.

(** The coordinate of an index along a tensor dimension. *)
Definition coord (m : Mesh) (idx : Shard) (d : Z) : option Z := assoc d (zip m.*1 idx).

(** The finer mesh splits every dimension of the coarser one evenly. *)
Definition compatible (m finer : Mesh) : Prop :=
  ∀ d c, assoc d m = Some c → match assoc d finer with Some f => (c | f) | None => c = 1 end.

(** Shard [j] of the finer mesh lies in shard [idx] of the coarser one: along every
    common dimension the interval [[y/f, (y+1)/f)] starts inside [[x/c, (x+1)/c)]. *)
Definition inside (m finer : Mesh) (idx j : Shard) : Prop :=
  ∀ d c f x y, assoc d m = Some c → assoc d finer = Some f → coord m idx d = Some x → coord finer j d = Some y →
    x * f ≤ y * c < (x + 1) * f.

Lemma assoc_zip (m : Mesh) (idx : Shard) d c x :
  NoDup m.*1 → length idx = length m →
  (assoc d m = Some c ∧ coord m idx d = Some x) ↔ ∃ n, m !! n = Some (d, c) ∧ idx !! n = Some x.
Proof.
  unfold coord. revert idx. induction m as [|[d0 c0] m IH]; intros [|x0 idx] Hnd Hlen; simplify_eq/=.
  { split; [by intros [? ?]|by intros (n & ? & ?)]. }
  apply NoDup_cons in Hnd as [Hd0 Hnd]. case_decide as Hd.
  - subst d0. split; [intros [[= ->] [= ->]]; by exists 0%nat|]. intros ([|n] & Hn & Hx); simplify_eq/=; [done|].
    destruct Hd0. apply list_elem_of_fmap. exists (d, c). split; [done|]. by apply list_elem_of_lookup_2 in Hn.
  - rewrite IH by done. split; [intros (n & ? & ?); by exists (S n)|]. intros ([|n] & Hn & Hx); simplify_eq/=. by exists n.
Qed.

(** The ranges over which one shard is expanded. *)
Definition fine_range (m : Mesh) (idx : Shard) (row : Z * Z) : list Z :=
  match assoc row.1 m with
  | Some c => let start := default 0 (coord m idx row.1) * (row.2 / c) in zrange start (start + row.2 / c)
  | None => zrange 0 row.2
  end.

Lemma validate_ok m finer : wf_mesh m → compatible m finer → validate_refactor_compatibility m finer = inr tt.
Proof.
  intros [Hnd Hpos] Hc. induction m as [|[d c] m IH]; [done|]. simpl. apply NoDup_cons in Hnd as [Hd Hnd].
  assert (∀ d' c', assoc d' m = Some c' → d' ≠ d) as Hne.
  { intros d' c' H ->. destruct Hd. apply list_elem_of_fmap. exists (d, c'). split; [done|]. by apply elem_of_assoc. }
  assert (validate_refactor_compatibility m finer = inr tt) as Hrest.
  { apply IH; [done| |].
    - intros d' c' H. apply (Hpos d' c'). simpl. rewrite decide_False by (intros ->; by eapply Hne). done.
    - intros d' c' H. apply Hc. simpl. rewrite decide_False by (intros ->; by eapply Hne). done. }
  specialize (Hc d c). specialize (Hpos d c). simpl in Hc, Hpos. rewrite decide_True in Hc, Hpos by done.
  specialize (Hc eq_refl). specialize (Hpos eq_refl). destruct (assoc d finer) as [f|]; [|done].
  rewrite bool_decide_false by lia. rewrite bool_decide_false; [done|]. intros H. apply H. by apply Z.mod_divide; [lia|].
Qed.

Lemma current_factors_ok m finer acc :
  NoDup m.*1 → compatible m finer →
  ∃ fs, current_factors m finer acc = inr fs ∧
    ∀ d, assoc d fs = match assoc d m, assoc d finer with Some c, Some f => Some (f / c) | _, _ => assoc d acc end.
Proof.
  revert acc. induction m as [|[d c] m IH]; intros acc Hnd Hc; [exists acc; split; [done|]; intros d; by destruct (assoc d finer)|].
  apply NoDup_cons in Hnd as [Hd Hnd].
  assert (assoc d m = None) as Hno.
  { destruct (assoc d m) as [c'|] eqn:E; [|done]. destruct Hd. apply list_elem_of_fmap. exists (d, c'). split; [done|]. by apply elem_of_assoc. }
  assert (compatible m finer) as Hc'.
  { intros d' c' H. apply Hc. simpl. rewrite decide_False by congruence. done. }
  pose proof (Hc d c) as Hdc. simpl in Hdc. rewrite decide_True in Hdc by done. specialize (Hdc eq_refl). simpl.
  destruct (assoc d finer) as [f|] eqn:Ef.
  - destruct (IH (dict_set d (f / c) acc) Hnd Hc') as (fs & -> & Hfs). exists fs. split; [done|]. intros d'. rewrite Hfs, assoc_dict_set.
    destruct (decide (d = d')) as [<-|]; [|done]. by rewrite Hno, Ef.
  - rewrite bool_decide_true by done. destruct (IH acc Hnd Hc') as (fs & -> & Hfs). exists fs. split; [done|]. intros d'. rewrite Hfs.
    destruct (decide (d = d')) as [<-|]; [|done]. by rewrite Hno, Ef.
Qed.

Lemma scaling_factors_ok m finer :
  NoDup m.*1 → NoDup finer.*1 → compatible m finer →
  ∃ fs, calculate_scaling_factors m finer = inr fs ∧
    ∀ d f, assoc d finer = Some f → assoc d fs = Some (match assoc d m with Some c => f / c | None => f end).
Proof.
  intros Hm Hf Hc. unfold calculate_scaling_factors. destruct (current_factors_ok m finer [] Hm Hc) as (fs & -> & Hfs).
  eexists. split; [done|]. intros d f Hd.
  assert (∀ (l : Mesh) acc, NoDup l.*1 →
    assoc d (foldl (λ fs '(d, f), if bool_decide (assoc d m = None) then dict_set d f fs else fs) acc l) =
      match assoc d m, assoc d l with None, Some f => Some f | _, _ => assoc d acc end) as Hfold.
  { induction l as [|[d0 f0] l IH]; intros acc Hnd; simpl; [by destruct (assoc d m)|]. apply NoDup_cons in Hnd as [Hd0 Hnd]. rewrite IH by done.
    destruct (decide (d0 = d)) as [->|Hne].
    - assert (assoc d l = None) as ->.
      { destruct (assoc d l) as [c'|] eqn:E; [|done]. destruct Hd0. apply list_elem_of_fmap. exists (d, c'). split; [done|]. by apply elem_of_assoc. }
      case_bool_decide as Hm0; [rewrite assoc_dict_set, decide_True, Hm0 by done; done|]. by destruct (assoc d m).
    - case_bool_decide; [|done]. rewrite assoc_dict_set, decide_False by done. done. }
  rewrite Hfold, Hfs, Hd by done. by destruct (assoc d m).
Qed.

Lemma expand_ok m finer fs idx (dims : Mesh) :
  wf_mesh m → in_mesh m idx → compatible m finer → wf_mesh finer →
  (∀ d f, assoc d finer = Some f → assoc d fs = Some (match assoc d m with Some c => f / c | None => f end)) →
  (∀ row, row ∈ dims → assoc row.1 finer = Some row.2) →
  expand_recursive m (zip m.*1 idx) fs dims = inr (cart (fine_range m idx <$> dims)).
Proof.
  intros Hm Hidx Hc Hf Hfs. induction dims as [|[d f] dims IH]; intros Hdims; [done|]. simpl.
  assert (assoc d finer = Some f) as Hd by (apply (Hdims (d, f)), elem_of_cons; by left).
  assert (coordinate_range m (zip m.*1 idx) fs d f = inr (fine_range m idx (d, f))) as ->.
  { unfold coordinate_range, fine_range. rewrite (Hfs d f Hd). simpl. destruct (assoc d m); [done|]. by rewrite bool_decide_true. }
  rewrite IH by (intros row Hrow; apply Hdims, elem_of_cons; by right).
  destruct (fine_range m idx (d, f)); done.
Qed.

(** Membership in a range is containment. *)
Lemma elem_of_fine_range m finer idx d f y :
  wf_mesh m → wf_mesh finer → compatible m finer → in_mesh m idx → assoc d finer = Some f →
  y ∈ fine_range m idx (d, f) ↔ 0 ≤ y < f ∧ ∀ c x, assoc d m = Some c → coord m idx d = Some x → x * f ≤ y * c < (x + 1) * f.
Proof.
  intros Hm Hf Hc Hidx Hd. unfold fine_range. simpl. destruct (assoc d m) as [c|] eqn:Ec.
  - assert (length idx = length m) as Hlen by (symmetry; by eapply Forall2_length).
    assert (∃ x, coord m idx d = Some x ∧ 0 ≤ x < c) as (x & Hx & Hxc).
    { apply elem_of_assoc, list_elem_of_lookup in Ec as [n Hn]. destruct (Forall2_lookup_l _ _ _ _ _ Hidx Hn) as (x & Hx & Hb).
      exists x. split; [|done]. apply (proj2 (assoc_zip m idx d c x (wm_dims m Hm) Hlen)). by exists n. }
    rewrite Hx. simpl. rewrite elem_of_zrange. pose proof (wm_pos m Hm d c Ec) as Hcp. specialize (Hc d c Ec). rewrite Hd in Hc.
    destruct Hc as [q ->]. rewrite Z.div_mul by lia. split.
    + intros Hy. split; [nia|]. intros c' x' [= <-] [= <-]. nia.
    + intros [_ H]. destruct (H c x eq_refl eq_refl). nia.
  - rewrite elem_of_zrange. naive_solver.
Qed.

Lemma expand_exact m finer idx j :
  wf_mesh m → wf_mesh finer → compatible m finer → in_mesh m idx →
  j ∈ cart (fine_range m idx <$> finer) ↔ in_mesh finer j ∧ inside m finer idx j.
Proof.
  intros Hm Hf Hc Hidx. rewrite elem_of_cart, Forall2_fmap_l. unfold in_mesh.
  assert (∀ n row, finer !! n = Some row → assoc row.1 finer = Some row.2) as Has.
  { intros n [d f] Hn. apply assoc_elem; [apply Hf|]. by eapply list_elem_of_lookup_2. }
  assert (Forall2 (λ row y, y ∈ fine_range m idx row) finer j ↔ Forall2 (λ (row : Z * Z) y, 0 ≤ y < row.2 ∧
    ∀ c x, assoc row.1 m = Some c → coord m idx row.1 = Some x → x * row.2 ≤ y * c < (x + 1) * row.2) finer j) as ->.
  { rewrite !Forall2_same_length_lookup. apply and_iff_compat_l. split; intros H n [d f] y Hn Hy; specialize (H n (d, f) y Hn Hy);
      by eapply (elem_of_fine_range m finer idx d f y Hm Hf Hc Hidx (Has _ _ Hn)). }
  rewrite !Forall2_same_length_lookup. split.
  - intros [Hlen H]. split; [split; [done|]; intros n row y Hn Hy; by apply (H n row y)|].
    intros d c f x y Hdc Hdf Hx Hy.
    destruct (proj1 (assoc_zip finer j d f y (wm_dims _ Hf) (eq_sym Hlen)) (conj Hdf Hy)) as (n & Hn & Hjn).
    destruct (H n (d, f) y Hn Hjn) as [_ Hin]. by apply Hin.
  - intros [[Hlen H] Hin]. split; [done|]. intros n [d f] y Hn Hy. split; [by apply (H n)|]. intros c x Hdc Hx. simpl in *.
    assert (assoc d finer = Some f ∧ coord finer j d = Some y) as [Hdf Hcy]
      by (apply (assoc_zip finer j d f y (wm_dims _ Hf) (eq_sym Hlen)); by exists n).
    by eapply Hin.
Qed.

Lemma coord_lookup m idx n d c x : wf_mesh m → in_mesh m idx → m !! n = Some (d, c) → idx !! n = Some x → assoc d m = Some c ∧ coord m idx d = Some x.
Proof.
  intros Hm Hidx Hn Hx. apply assoc_zip; [apply Hm|symmetry; by eapply Forall2_length|]. by exists n.
Qed.

(** A dimension of the finer mesh has a coordinate in every index. *)
Lemma coord_some m idx d c : wf_mesh m → in_mesh m idx → assoc d m = Some c → ∃ x, coord m idx d = Some x ∧ 0 ≤ x < c.
Proof.
  intros Hm Hidx Hd. pose proof Hd as Hd'. apply elem_of_assoc, list_elem_of_lookup in Hd' as [n Hn].
  destruct (Forall2_lookup_l _ _ _ _ _ Hidx Hn) as (x & Hx & Hb). exists x. split; [|done].
  by apply (coord_lookup m idx n d c x).
Qed.

Lemma inside_unique m finer i i' j :
  wf_mesh m → wf_mesh finer → compatible m finer → in_mesh m i → in_mesh m i' → in_mesh finer j →
  inside m finer i j → inside m finer i' j → i = i'.
Proof.
  intros Hm Hf Hc Hi Hi' Hj Hin Hin'. apply list_eq_same_length with (length m); [by eapply eq_sym, Forall2_length..|].
  intros n x x' _ Hx Hx'. destruct (Forall2_lookup_r _ _ _ _ _ Hi Hx) as ([d c] & Hn & Hb). destruct (Forall2_lookup_l _ _ _ _ _ Hi' Hn) as (x0 & ? & Hb').
  simplify_eq. simpl in *. destruct (coord_lookup m i n d c x Hm Hi Hn Hx) as [Hd Hcx]. destruct (coord_lookup m i' n d c x' Hm Hi' Hn Hx') as [_ Hcx'].
  specialize (Hc d c Hd). destruct (assoc d finer) as [f|] eqn:Ef; [|lia]. destruct (coord_some finer j d f Hf Hj Ef) as (y & Hy & Hby).
  specialize (Hin d c f x y Hd Ef Hcx Hy). specialize (Hin' d c f x' y Hd Ef Hcx' Hy). nia.
Qed.

(** The shard of the coarser mesh a finer shard belongs to. *)
Definition coarse (m finer : Mesh) (j : Shard) : Shard :=
  (λ row : Z * Z, match assoc row.1 finer, coord finer j row.1 with Some f, Some y => y * row.2 / f | _, _ => 0 end) <$> m.

Lemma coarse_inside m finer j :
  wf_mesh m → wf_mesh finer → compatible m finer → in_mesh finer j → in_mesh m (coarse m finer j) ∧ inside m finer (coarse m finer j) j.
Proof.
  intros Hm Hf Hc Hj.
  assert (∀ n d c, m !! n = Some (d, c) → assoc d m = Some c) as Has
    by (intros n d c Hn; apply assoc_elem; [apply Hm|]; by eapply list_elem_of_lookup_2).
  assert (∀ d c f y, assoc d m = Some c → assoc d finer = Some f → coord finer j d = Some y → 0 < c ∧ 0 < f ∧ 0 ≤ y < f) as Hb.
  { intros d c f y Hdc Hdf Hy. split; [by apply (wm_pos m Hm d)|]. split; [by apply (wm_pos finer Hf d)|].
    destruct (coord_some finer j d f Hf Hj Hdf) as (y' & ? & ?). by simplify_eq. }
  assert (in_mesh m (coarse m finer j)) as Hin.
  { unfold in_mesh, coarse. apply Forall2_fmap_r, Forall_Forall2_diag, Forall_lookup. intros n [d c] Hn. simpl. pose proof (Has n d c Hn) as Hd.
    pose proof (wm_pos m Hm d c Hd). destruct (assoc d finer) as [f|] eqn:Ef; [|lia]. destruct (coord finer j d) as [y|] eqn:Ey; [|lia].
    destruct (Hb d c f y Hd Ef Ey) as (Hc0 & Hf0 & Hy). split; [apply Z.div_pos; nia|]. apply Z.div_lt_upper_bound; nia. }
  split; [done|]. intros d c f x y Hdc Hdf Hx Hy. destruct (Hb d c f y Hdc Hdf Hy) as (Hc0 & Hf0 & Hy0).
  pose proof (proj1 (assoc_zip m (coarse m finer j) d c x (wm_dims m Hm) (eq_sym (Forall2_length _ _ _ Hin))) (conj Hdc Hx)) as (n & Hn & Hxn).
  unfold coarse in Hxn. rewrite list_lookup_fmap, Hn in Hxn. simpl in Hxn. rewrite Hdf, Hy in Hxn. injection Hxn as <-.
  pose proof (Z.mul_div_le (y * c) f Hf0). pose proof (Z.mul_succ_div_gt (y * c) f Hf0). lia.
Qed.

Lemma generate_ok m finer fs indices :
  wf_mesh m → wf_mesh finer → compatible m finer → Forall (in_mesh m) indices →
  (∀ d f, assoc d finer = Some f → assoc d fs = Some (match assoc d m with Some c => f / c | None => f end)) →
  generate_new_shard_indices m finer fs indices = inr (flat_map (λ idx, cart (fine_range m idx <$> finer)) indices).
Proof.
  intros Hm Hf Hc Hall Hfs. induction Hall as [|idx indices Hidx _ IH]; [done|]. simpl.
  rewrite bool_decide_false by (apply Forall2_length in Hidx; lia).
  rewrite (expand_ok m finer fs idx finer); [by rewrite IH|done..|].
  intros [d f] Hin. apply assoc_elem; [apply Hf|done].
Qed.

Lemma fine_ranges_sorted m idx (finer : Mesh) : Forall sorted_lt (fine_range m idx <$> finer).
Proof. apply Forall_fmap, Forall_true. intros [d f]. unfold fine_range. simpl. destruct (assoc d m); apply zrange_sorted. Qed.

(** Refining a client's shards to a compatible finer mesh yields exactly the finer
    shards that lie inside them, each once. *)
Lemma refined_indices_exact (m finer : Mesh) (indices : list Shard) :
  wf_mesh m → wf_mesh finer → compatible m finer → Forall (in_mesh m) indices → NoDup indices →
  ∃ l, refined_indices m finer indices = inr l ∧ NoDup l ∧
    ∀ j, j ∈ l ↔ in_mesh finer j ∧ ∃ idx, idx ∈ indices ∧ inside m finer idx j.
Proof.
  intros Hm Hf Hc Hall Hnd. unfold refined_indices. rewrite validate_ok by done.
  destruct (scaling_factors_ok m finer (wm_dims m Hm) (wm_dims finer Hf) Hc) as (fs & -> & Hfs). rewrite generate_ok by done.
  rewrite Forall_forall in Hall. eexists. split; [done|]. split.
  - induction Hnd as [|idx indices Hidx Hnd IH]; [constructor|]. simpl. apply NoDup_app.
    assert (in_mesh m idx) as Hin by (apply Hall, elem_of_cons; by left).
    split_and!; [by apply increasing_NoDup, increasing_cart, fine_ranges_sorted| |].
    + intros j Hj (idx' & Hidx'%list_elem_of_In & Hj'%list_elem_of_In)%list_elem_of_In%in_flat_map.
      assert (in_mesh m idx') as Hin' by (apply Hall, elem_of_cons; by right).
      apply expand_exact in Hj as [Hjf Hji]; [|done..]. apply expand_exact in Hj' as [_ Hji']; [|done..].
      by assert (idx = idx') as -> by by apply (inside_unique m finer idx idx' j).
    + apply IH. intros x Hx. apply Hall, elem_of_cons. by right.
  - intros j. rewrite list_elem_of_In, in_flat_map. split.
    + intros (idx & Hidx%list_elem_of_In & Hj%list_elem_of_In). apply expand_exact in Hj as [? ?]; auto. split; [done|]. by exists idx.
    + intros (Hj & idx & Hidx & Hji). exists idx. split; [by apply list_elem_of_In|]. apply list_elem_of_In, expand_exact; auto.
Qed.

(** C23: A partition stays a partition: when every shard of a mesh is held by exactly
    one of several clients, every shard of a compatible finer mesh is held by
    exactly one of them after refinement. *)
Theorem refinement_preserves_partition (m finer : Mesh) (held : list (list Shard)) :
  wf_mesh m → wf_mesh finer → compatible m finer →
  NoDup (concat held) → (∀ idx, idx ∈ concat held ↔ in_mesh m idx) →
  ∃ held', map (refined_indices m finer) held = map inr held' ∧
    NoDup (concat held') ∧ ∀ j, j ∈ concat held' ↔ in_mesh finer j.
Proof.
  intros Hm Hf Hc Hnd Hcover.
  assert (Forall (in_mesh m) (concat held)) as Hall by (apply Forall_forall; intros; by apply Hcover).
  enough (∃ held', map (refined_indices m finer) held = map inr held' ∧ NoDup (concat held') ∧
    ∀ j, j ∈ concat held' ↔ in_mesh finer j ∧ ∃ idx, idx ∈ concat held ∧ inside m finer idx j) as (held' & E & Hnd' & Hj).
  { exists held'. split_and!; [done..|]. intros j. rewrite Hj. split; [by intros [? _]|]. intros Hjf. split; [done|].
    destruct (coarse_inside m finer j Hm Hf Hc Hjf). exists (coarse m finer j). split; [by apply Hcover|done]. }
  clear Hcover. induction held as [|l held IH]; simpl in *.
  { exists []. split_and!; [done|constructor|]. intros j. split; [intros []%not_elem_of_nil|]. intros (_ & idx & []%not_elem_of_nil & _). }
  apply NoDup_app in Hnd as (Hl & Hdis & Hnd). apply Forall_app in Hall as [Hall1 Hall2].
  destruct (refined_indices_exact m finer l Hm Hf Hc Hall1 Hl) as (l' & E & Hl' & Hj'). destruct (IH Hnd Hall2) as (held' & E' & Hnd' & Hheld').
  exists (l' :: held'). simpl. rewrite E, E'. split; [done|]. split.
  - apply NoDup_app. split_and!; [done| |done]. intros j (Hjf & idx & Hidx & Hin)%Hj' (_ & idx' & Hidx' & Hin')%Hheld'.
    rewrite Forall_forall in Hall1, Hall2. assert (idx = idx') as <- by (apply (inside_unique m finer idx idx' j); auto). by apply (Hdis idx).
  - intros j. rewrite elem_of_app, Hj', Hheld'. setoid_rewrite elem_of_app. naive_solver.
Qed.

(** ** A client with one shard can always be refined *)

Lemma cart_pick rs n r x : Forall (λ r, r ≠ []) rs → rs !! n = Some r → x ∈ r → ∃ j, j ∈ cart rs ∧ j !! n = Some x.
Proof.
  intros Hne. revert n. induction Hne as [|r0 rs Hr0 Hne IH]; intros [|n] Hn Hx; simplify_eq/=.
  - assert (∃ j, j ∈ cart rs) as [j Hj].
    { clear IH Hx. induction Hne as [|r1 rs Hr1 _ [j Hj]]; [exists []; by apply list_elem_of_singleton|].
      destruct r1 as [|y r1]; [done|]. exists (y :: j). apply elem_of_cart. constructor; [apply elem_of_cons; by left|by apply elem_of_cart]. }
    exists (x :: j). split; [|done]. change (x :: j ∈ cart (r :: rs)). apply elem_of_cart. constructor; [done|]. by apply elem_of_cart.
  - destruct (IH n Hn Hx) as (j & Hj & Hjn). destruct r0 as [|y r0]; [done|]. exists (y :: j). split; [|done].
    change (y :: j ∈ cart ((y :: r0) :: rs)). apply elem_of_cart. constructor; [apply elem_of_cons; by left|by apply elem_of_cart].
Qed.

Lemma sorted_lt_NoDup l : sorted_lt l → NoDup l.
Proof.
  induction 1 as [|x l Hl IH Hx]; constructor; [|done]. intros Hin. rewrite Forall_forall in Hx. specialize (Hx x Hin). lia.
Qed.

Lemma dim_sizes_cart rs : Forall (λ r, r ≠ []) rs → Forall sorted_lt rs → dim_sizes (length rs) (cart rs) = (Z.of_nat ∘ length <$> rs).
Proof.
  intros Hne Hs. unfold dim_sizes. apply list_eq. intros n. rewrite !list_lookup_fmap.
  destruct (decide (n < length rs)%nat) as [Hn|Hn]; last first.
  { rewrite lookup_seq_ge by lia. by rewrite (proj2 (lookup_ge_None rs n)) by lia. }
  rewrite lookup_seq_lt by done. destruct (lookup_lt_is_Some_2 rs n Hn) as [r Hr]. rewrite Hr. simpl. do 2 f_equal.
  rewrite <-(size_list_to_set (C := gset Z) r).
  - f_equal. apply set_eq. intros x. rewrite !elem_of_list_to_set, list_elem_of_omap. split.
    + intros (j & Hj%elem_of_cart & Hx). exact (Forall2_lookup_lr _ _ _ _ _ _ Hj Hr Hx).
    + intros Hx. destruct (cart_pick rs n r x Hne Hr Hx) as (j & ? & ?). by exists j.
  - apply sorted_lt_NoDup. rewrite Forall_forall in Hs. apply Hs. by eapply list_elem_of_lookup_2.
Qed.

Lemma dict_of_zip (ks : list Z) (vs : list Z) : NoDup ks → foldl (λ d '(k, v), dict_set k v d) [] (zip ks vs) = zip ks vs.
Proof.
  intros Hnd. enough (∀ acc, (∀ k, k ∈ acc.*1 → k ∉ ks) → foldl (λ d '(k, v), dict_set k v d) acc (zip ks vs) = acc ++ zip ks vs) as H.
  { apply (H []). intros k []%not_elem_of_nil. }
  revert vs. induction Hnd as [|k ks Hk Hnd IH]; intros [|v vs] acc Hacc; simpl; [by rewrite app_nil_r..|].
  rewrite dict_set_new; [|destruct (assoc k acc) as [x|] eqn:E; [exfalso|done]].
  - rewrite IH; [by rewrite <-app_assoc|]. intros k'. rewrite fmap_app. intros [Hk'|Hk']%elem_of_app Hin.
    + apply (Hacc k' Hk'), elem_of_cons. by right.
    + apply list_elem_of_singleton in Hk'. simpl in Hk'. by subst.
  - apply (Hacc k); [apply list_elem_of_fmap; exists (k, x); split; [done|]; by apply elem_of_assoc|apply elem_of_cons; by left].
Qed.

Lemma validate_cart (finer : Mesh) rs :
  NoDup finer.*1 → length rs = length finer → Forall (λ r, r ≠ []) rs → Forall sorted_lt rs →
  validate_local_shard_mesh finer (cart rs) = inr (zip finer.*1 (Z.of_nat ∘ length <$> rs)).
Proof.
  intros Hnd Hlen Hne Hs. unfold validate_local_shard_mesh.
  assert (Forall (λ j, length j = length rs) (cart rs)) as Hl
    by (apply Forall_forall; intros j Hj%elem_of_cart; symmetry; by eapply Forall2_length).
  destruct (cart rs) as [|first l] eqn:Ec.
  { exfalso. assert (∃ j, j ∈ cart rs) as [j Hj].
    { destruct rs as [|r rs]; [exists []; by apply list_elem_of_singleton|]. inversion Hne as [|? ? Hr]; subst.
      destruct r as [|x r]; [done|]. destruct (cart_pick ((x :: r) :: rs) 0 (x :: r) x) as (j & Hj & _); [done..|apply elem_of_cons; by left|by exists j]. }
    rewrite Ec in Hj. by apply not_elem_of_nil in Hj. }
  rewrite <-Ec in *. assert (length first = length rs) as Hfirst.
  { rewrite Forall_forall in Hl. apply Hl. rewrite Ec. apply elem_of_cons. by left. }
  assert (forallb (λ t, bool_decide (length t = length first)) (cart rs) = true) as ->.
  { apply forallb_forall. intros j Hj%list_elem_of_In. apply bool_decide_eq_true. rewrite Forall_forall in Hl. rewrite (Hl j Hj). done. }
  rewrite increasing_cart by done. simpl. rewrite Hfirst, dim_sizes_cart by done. rewrite bool_decide_false by (rewrite length_cart; tauto).
  by rewrite dict_of_zip.
Qed.

Lemma fine_ranges_nonempty m finer idx :
  wf_mesh m → wf_mesh finer → compatible m finer → Forall (λ r, r ≠ []) (fine_range m idx <$> finer).
Proof.
  intros Hm Hf Hc. apply Forall_fmap, Forall_forall. intros [d f] Hin. simpl.
  assert (assoc d finer = Some f) as Hd by (apply assoc_elem; [apply Hf|done]). pose proof (wm_pos finer Hf d f Hd) as Hf0.
  unfold fine_range. simpl. destruct (assoc d m) as [c|] eqn:Ec.
  - pose proof (wm_pos m Hm d c Ec) as Hc0. specialize (Hc d c Ec). rewrite Hd in Hc. destruct Hc as [q ->]. rewrite Z.div_mul by lia.
    set (lo := _ * q). intros E. pose proof (zrange_length lo (lo + q)) as Hl. rewrite E in Hl. simpl in Hl. nia.
  - intros E. pose proof (zrange_length 0 f) as Hl. rewrite E in Hl. simpl in Hl. lia.
Qed.

Lemma refine_one_shard m finer idx local :
  wf_mesh m → wf_mesh finer → compatible m finer → in_mesh m idx →
  refactor_based_on_finer_shard_mesh finer (mkSharding m local [idx]) =
    Ret tt (mkSharding finer (zip finer.*1 (Z.of_nat ∘ length <$> (fine_range m idx <$> finer))) (cart (fine_range m idx <$> finer))).
Proof.
  intros Hm Hf Hc Hidx. unfold refactor_based_on_finer_shard_mesh. mrun. simpl. unfold refined_indices. rewrite validate_ok by done.
  destruct (scaling_factors_ok m finer (wm_dims m Hm) (wm_dims finer Hf) Hc) as (fs & -> & Hfs).
  rewrite generate_ok; [|done..|by constructor|done]. simpl. rewrite app_nil_r. erewrite run_of_res by done. mrun.
  rewrite validate_cart; [|apply Hf|by rewrite length_fmap|by apply fine_ranges_nonempty|apply fine_ranges_sorted].
  by erewrite run_of_res.
Qed.

(** ** The common mesh *)

Lemma gcd_loop_correct fuel a b : 0 ≤ a → 0 ≤ b → (Z.to_nat b < fuel)%nat → gcd_loop fuel a b = Z.gcd a b.
Proof.
  revert a b. induction fuel as [|fuel IH]; intros a b Ha Hb Hf; [lia|]. simpl. case_bool_decide as Hz.
  - subst. by rewrite Z.gcd_0_r, Z.abs_eq.
  - pose proof (Z.mod_pos_bound a b ltac:(lia)). rewrite IH by lia. rewrite Z.gcd_comm, Z.gcd_mod by done. apply Z.gcd_comm.
Qed.

Lemma gcd_correct a b : 0 ≤ a → 0 ≤ b → gcd a b = Z.gcd a b.
Proof. intros Ha Hb. apply gcd_loop_correct; lia. Qed.

Lemma lcm_correct a b : 0 < a → 0 < b → lcm a b = inr (Z.lcm a b).
Proof.
  intros Ha Hb. unfold lcm. rewrite gcd_correct by lia. pose proof (Z.gcd_nonneg a b).
  assert (Z.gcd a b ≠ 0) as Hg by (intros [-> _]%Z.gcd_eq_0; lia). rewrite bool_decide_false by done. f_equal.
  unfold Z.lcm. rewrite Z.divide_div_mul_exact; [|done|apply Z.gcd_divide_r]. rewrite Z.abs_eq; [done|].
  apply Z.mul_nonneg_nonneg; [lia|]. apply Z.div_pos; lia.
Qed.

Lemma fold_lcm_correct acc l :
  0 < acc → Forall (Z.lt 0) l →
  ∃ n, fold_lcm acc l = inr n ∧ 0 < n ∧ (acc | n) ∧ (∀ x, x ∈ l → (x | n)) ∧ ∀ k, (acc | k) → (∀ x, x ∈ l → (x | k)) → (n | k).
Proof.
  intros Hacc Hl. revert acc Hacc. induction Hl as [|x l Hx Hl IH]; intros acc Hacc; simpl.
  { exists acc. split_and!; [done..|intros x []%not_elem_of_nil|done]. }
  rewrite lcm_correct by done. destruct (IH (Z.lcm acc x)) as (n & -> & Hn & Hacc' & Hall & Hleast).
  { pose proof (Z.lcm_nonneg acc x). assert (Z.lcm acc x ≠ 0); [|lia]. intros [?|?]%Z.lcm_eq_0; lia. }
  exists n. split_and!; [done..| | |].
  - etrans; [apply Z.divide_lcm_l|done].
  - intros y [->|Hy]%elem_of_cons; [etrans; [apply Z.divide_lcm_r|done]|auto].
  - intros k Hk Hks. apply Hleast; [apply Z.lcm_least; [done|]; apply Hks, elem_of_cons; by left|].
    intros y Hy. apply Hks, elem_of_cons. by right.
Qed.

Lemma finest_at_correct meshes dims :
  Forall wf_mesh meshes → NoDup dims →
  ∃ f, finest_at meshes dims = inr f ∧ f.*1 = dims ∧ ∀ d n, assoc d f = Some n →
    0 < n ∧ (∀ m c, m ∈ meshes → assoc d m = Some c → (c | n)) ∧
    ∀ k, (∀ m c, m ∈ meshes → assoc d m = Some c → (c | k)) → (n | k).
Proof.
  intros Hm. induction 1 as [|d dims Hd Hnd IH]; simpl; [by exists []|].
  destruct (fold_lcm_correct 1 (omap (assoc d) meshes)) as (n & -> & Hn & _ & Hall & Hleast); [lia| |].
  { apply Forall_forall. intros c (m & Hin & Hc)%list_elem_of_omap. rewrite Forall_forall in Hm. by apply (wm_pos m (Hm m Hin) d). }
  destruct IH as (f & -> & Hf & Hspec). exists ((d, n) :: f). split; [done|]. split; [rewrite fmap_cons; by rewrite Hf|]. simpl.
  intros d' n'. case_decide as Hdd; [|by apply Hspec]. intros [= <-]. subst d'. split_and!; [done| |].
  - intros m c Hin Hc. apply Hall, list_elem_of_omap. by exists m.
  - intros k Hk. apply Hleast; [apply Z.divide_1_l|]. intros c (m & Hin & Hc)%list_elem_of_omap. by apply (Hk m).
Qed.

Lemma max_dims_some meshes : Forall (λ m : Mesh, m ≠ []) meshes → ∃ l, max_dims meshes = Some l ∧
  ∀ m d c, m ∈ meshes → assoc d m = Some c → ∃ x, x ∈ l ∧ d ≤ x.
Proof.
  induction 1 as [|m ms Hm _ (l & E & Hl)]; simpl; [exists []; split; [done|]; intros m d c []%not_elem_of_nil|].
  destruct (list_max m.*1) as [x|] eqn:Ex; [|apply list_max_None in Ex; by destruct m]. rewrite E. exists (x :: l). split; [done|].
  apply list_max_Some in Ex as [_ Hmax]. intros m' d c [->|Hin]%elem_of_cons Hc.
  - exists x. split; [apply elem_of_cons; by left|]. apply Hmax, list_elem_of_fmap. exists (d, c). split; [done|]. by apply elem_of_assoc.
  - destruct (Hl m' d c Hin Hc) as (y & Hy & ?). exists y. split; [apply elem_of_cons; by right|done].
Qed.

(** Meshes as clients send them. *)
Definition client_mesh (m : Mesh) : Prop := wf_mesh m ∧ m ≠ [] ∧ ∀ d c, assoc d m = Some c → 0 ≤ d.

(** The common mesh of any clients refines all of their meshes, and no mesh that
    does is coarser along any dimension. *)
Lemma finest_mesh_least meshes :
  meshes ≠ [] → Forall client_mesh meshes →
  ∃ f, find_finest_shard_mesh meshes = inr f ∧ wf_mesh f ∧ (∀ m, m ∈ meshes → compatible m f) ∧
    ∀ f', (∀ m, m ∈ meshes → compatible m f') → ∀ d n n', assoc d f = Some n → assoc d f' = Some n' → (n | n').
Proof.
  intros Hne Hall. rewrite Forall_forall in Hall. unfold find_finest_shard_mesh.
  destruct (max_dims_some meshes) as (l & -> & Hl); [apply Forall_forall; intros m Hm; by apply Hall|]. simpl.
  destruct (list_max l) as [x|] eqn:Ex.
  2:{ apply list_max_None in Ex as ->. destruct meshes as [|m ms]; [done|]. destruct (Hall m) as (_ & Hm & _); [apply elem_of_cons; by left|].
      destruct m as [|[d c] m]; [done|]. destruct (Hl ((d, c) :: m) d c) as (y & []%not_elem_of_nil & _); [apply elem_of_cons; by left|simpl; by rewrite decide_True]. }
  apply list_max_Some in Ex as [_ Hmax].
  destruct (finest_at_correct meshes (zrange 0 (x + 1))) as (f & -> & Hdims & Hspec).
  { apply Forall_forall. intros m Hm. by apply Hall. } { apply sorted_lt_NoDup, zrange_sorted. }
  exists f. split; [done|].
  assert (∀ m d c, m ∈ meshes → assoc d m = Some c → ∃ n, assoc d f = Some n) as Hin.
  { intros m d c Hm Hd. destruct (Hl m d c Hm Hd) as (y & Hy & Hdy). specialize (Hmax y Hy). destruct (Hall m Hm) as (_ & _ & Hpos). specialize (Hpos d c Hd).
    assert (d ∈ f.*1) as ([d' n] & -> & Hdf)%list_elem_of_fmap by (rewrite Hdims; apply elem_of_zrange; lia). exists n.
    apply assoc_elem; [rewrite Hdims; apply sorted_lt_NoDup, zrange_sorted|done]. }
  split_and!.
  - split; [rewrite Hdims; apply sorted_lt_NoDup, zrange_sorted|]. intros d n Hd. by apply (Hspec d).
  - intros m Hm d c Hd. destruct (Hin m d c Hm Hd) as [n Hn]. rewrite Hn. by apply (Hspec d n Hn) with m.
  - intros f' Hf' d n n' Hn Hn'. apply (Hspec d n Hn). intros m c Hm Hd. specialize (Hf' m Hm d c Hd). by rewrite Hn' in Hf'.
Qed.

(** Two clients that share dimension 1, refined to a mesh that splits both
    dimensions. *)
Lemma refinement_preserves_partition_witness :
  ∃ held', map (refined_indices [(1, 2)] [(0, 2); (1, 4)]) [[[0]]; [[1]]] = map inr held' ∧
    NoDup (concat held') ∧ ∀ j, j ∈ concat held' ↔ in_mesh [(0, 2); (1, 4)] j.
Proof.
  apply (refinement_preserves_partition [(1, 2)] [(0, 2); (1, 4)] [[[0]]; [[1]]]).
  - split; [apply NoDup_singleton|]. simpl. intros d c. case_decide; [intros [= <-]; lia|discriminate].
  - split; [apply (bool_decide_eq_true_1 (NoDup [0; 1])); vm_compute; reflexivity|]. simpl. intros d c.
    case_decide; [intros [= <-]; lia|]. case_decide; [intros [= <-]; lia|discriminate].
  - intros d c. simpl. case_decide as Hd; [|discriminate]. intros [= <-]. subst d. simpl. exists 2. reflexivity.
  - apply (bool_decide_eq_true_1 (NoDup [[0]; [1]])). vm_compute. reflexivity.
  - intros idx. simpl. rewrite !elem_of_cons. split.
    + intros [->|[->|Hin]]; [constructor; simpl; [lia|constructor]..|]. by apply not_elem_of_nil in Hin.
    + intros (x & l & Hx & Hl & ->)%Forall2_cons_inv_l. apply Forall2_nil_inv_l in Hl as ->. simpl in Hx.
      assert (x = 0 ∨ x = 1) as [-> | ->] by lia; [left|right; left]; reflexivity.
Defined.
