(* ===== verification/CommPlan.v ===== *)
(** * Network topology and the communication plan

    psrl/utils/nixl/network_topology.py and psrl/utils/nixl/comm_plan.py: for every
    tensor a target client needs, which source client provides which shards.  The
    planner picks greedily, by link quality and then by the load already put on a
    source.  A Python set of client names is iterated in the order [iter] gives;
    of that the theorems use that it enumerates the set.  The two caches of the
    planner (sources by restriction, shard positions) hold values that do not
    change while it runs, and are computed where they are used. *)

From S2P Require Import Prelude.
From S2P Require Import PyFloat.
From S2P Require Import PyData.
From S2P Require Import Sharding.

(** ** Network topology *)

Inductive LinkType := ETH | IB_PCIE | PCIE | IB | NVLINK | LOCAL.

#[export] Instance link_eq_dec : EqDecision LinkType.
Proof. solve_decision. Defined.

Record NetworkLink := mkLink { link_type : LinkType; bandwidth_gbps : float; latency_us : float }.

Definition default_link (t : LinkType) : NetworkLink :=
  match t with
  | ETH => mkLink ETH (of_Z 25) (of_Z 20)
  | IB_PCIE => mkLink IB_PCIE (of_Z 128) (of_Z 5)
  | PCIE => mkLink PCIE (of_Z 128) (of_Z 5)
  | IB => mkLink IB (of_Z 200) (of_Z 2)
  | NVLINK => mkLink NVLINK (of_Z 900) (ratio 5 10)
  | LOCAL => mkLink LOCAL (of_Z 1000) (ratio 1 10)
  end.

Record NetworkTopology := mkTopology {
  links : gmap (string * string) NetworkLink;
  client_positions : gmap string (string * Z);
}.

(** [tuple(sorted([a, b]))] *)
Definition link_key (a b : string) : string * string := if String.ltb b a then (b, a) else (a, b).

Definition register_client (c ip : string) (gpu : Z) : M NetworkTopology unit :=
  modify (λ t, mkTopology (links t) (<[c := (ip, gpu)]> (client_positions t))).

(** The link between two positions. *)
Definition position_link (a b : string * Z) : LinkType :=
  if bool_decide (a.1 = b.1) then
    if bool_decide (a.2 ≠ b.2) then (if bool_decide (a.2 = -1 ∨ b.2 = -1) then PCIE else NVLINK) else LOCAL
  else if bool_decide (a.2 ≠ -1 ∧ b.2 ≠ -1) then IB else IB_PCIE.

Definition position (c : string) (t : NetworkTopology) : string * Z := default ("unknown", -1) (client_positions t !! c).

Definition get_link (a b : string) : M NetworkTopology NetworkLink :=
  if decide (a = b) then mret (default_link LOCAL)
  else
    t ← gets id;
    match links t !! link_key a b with
    | Some l => mret l
    | None =>
        let l := default_link (position_link (position a t) (position b t)) in
        modify (λ t, mkTopology (<[link_key a b := l]> (links t)) (client_positions t)) ;;
        mret l
    end.

Definition get_bandwidth_gbps (a b : string) : M NetworkTopology float := l ← get_link a b; mret (bandwidth_gbps l).
Definition get_latency_us (a b : string) : M NetworkTopology float := l ← get_link a b; mret (latency_us l).
Definition get_link_type (a b : string) : M NetworkTopology LinkType := l ← get_link a b; mret (link_type l).

Definition priority (t : LinkType) : Z :=
  match t with LOCAL => 5 | NVLINK => 4 | IB => 3 | PCIE => 2 | IB_PCIE => 1 | ETH => 0 end.

Definition get_link_priority (a b : string) : M NetworkTopology Z := t ← get_link_type a b; mret (priority t).

Definition set_custom_link (a b : string) (l : NetworkLink) : M NetworkTopology unit :=
  modify (λ t, mkTopology (<[link_key a b := l]> (links t)) (client_positions t)).

(** ** Clients *)

Inductive NIXLClientType := PS | PS_FOR_PUSH | PS_FOR_PULL | PUSH_SIDE | PULL_SIDE.

#[export] Instance client_type_eq_dec : EqDecision NIXLClientType.
Proof. solve_decision. Defined.

(** The fields of a tensor's description the planner reads: the sharding and the
    size of each local shard ([numel * itemsize]). *)
Record NIXLTensorInfo := mkTensor { tensor_shards : list Shard; num_local_shards : nat; shard_sizes : list Z }.

Definition get_shard_size_bytes (t : NIXLTensorInfo) (pos : nat) : Res Z :=
  if bool_decide (num_local_shards t ≤ pos)%nat then inl AssertionError
  else match shard_sizes t !! pos with Some n => inr n | None => inl IndexError end.

Record NIXLClientInfo := mkClient {
  node_ip : string;
  node_gpu_id : Z;
  client_type : NIXLClientType;
  tensor_infos : list (string * NIXLTensorInfo);
  client_group_id : Z;
}.

Abbreviation Clients := (list (string * NIXLClientInfo)).
Abbreviation Groups := (list (Z * list string)).
(** [{client: {key: {peer: shards}}}] *)
Abbreviation Plan := (gmap string (gmap string (gmap string (list Shard)))).

Record PlanState := mkPlanState {
  topo : NetworkTopology;
  source_client_volumes : gmap string float;
  comm_plan : Plan;
}.

Definition with_topo v (s : PlanState) := mkPlanState v (source_client_volumes s) (comm_plan s).
Definition with_volumes v (s : PlanState) := mkPlanState (topo s) v (comm_plan s).
Definition with_plan v (s : PlanState) := mkPlanState (topo s) (source_client_volumes s) v.

Abbreviation Pl := (M PlanState).
Definition on_topo {A} (m : M NetworkTopology A) : Pl A := zoom topo with_topo m.

(** ** One target and one tensor *)

Definition key_ltb (a b : Z * float) : bool := if bool_decide (a.1 = b.1) then fltb a.2 b.2 else bool_decide (a.1 < b.1).

Section planner.
Context (iter : gset string → list string) (clients : Clients).

Definition tensor_of (c key : string) : option NIXLTensorInfo := assoc c clients ≫= λ i, assoc key (tensor_infos i).

(** Link quality first (negated), then the volume already assigned. *)
Definition sort_key (target source : string) : Pl (Z * float) :=
  p ← on_topo (get_link_priority source target);
  s ← gets id;
  v ← of_option KeyError (source_client_volumes s !! source);
  mret (- p, v).

(** [min(available, key=sort_key)]: the first least element. *)
Definition min_volume_client (target : string) (available : gset string) : Pl string :=
  match iter available with
  | [] => raise ValueError
  | c :: cs =>
      k ← sort_key target c;
      best ← fold_each cs (c, k) (λ c best, k ← sort_key target c; mret (if key_ltb k best.2 then (c, k) else best));
      mret best.1
  end.

(** The position of each shard in a client's tensor. *)
Definition shard_pos (t : NIXLTensorInfo) (sh : Shard) : option nat := find_last (λ x, x = sh) (tensor_shards t).

Definition shards_bytes (t : NIXLTensorInfo) (shards : list Shard) : Pl Z :=
  fold_each shards 0 (λ sh acc,
    pos ← of_option KeyError (shard_pos t sh);
    n ← of_res (get_shard_size_bytes t pos);
    mret (acc + n)).

(** [comm_plan[outer][key][inner] = shards] *)
Definition record_plan (outer key inner : string) (shards : list Shard) : Pl unit :=
  s ← gets id;
  row ← of_option KeyError (comm_plan s !! outer);
  modify (with_plan (<[outer := <[key := <[inner := shards]> (default ∅ (row !! key))]> row]> (comm_plan s))).

(** One source chosen for the shards it can still provide. *)
Definition bytes_per_s (bandwidth : float) : float := fmul bandwidth (of_Z (10 ^ 9)).

Definition assign_shards (is_push_to_ps : bool) (target key source : string) (t : NIXLTensorInfo) (shards : list Shard) : Pl unit :=
  (if is_push_to_ps then record_plan source key target shards else record_plan target key source shards) ;;
  bytes ← shards_bytes t shards;
  bw ← on_topo (get_bandwidth_gbps source target);
  if feqb (bytes_per_s bw) fzero then raise ZeroDivisionError
  else
    s ← gets id;
    v ← of_option KeyError (source_client_volumes s !! source);
    modify (with_volumes (<[source := fadd v (fdiv (of_Z bytes) (bytes_per_s bw))]> (source_client_volumes s))).

(** The greedy loop; every round discards a source. *)
Fixpoint greedy (fuel : nat) (is_push_to_ps : bool) (target key : string) (available : gset string) (needed assigned : gset Shard) : Pl (gset Shard) :=
  match fuel with
  | O => mret assigned
  | S fuel =>
      if bool_decide (assigned = needed) then mret assigned
      else
        source ← min_volume_client target available;
        t ← of_option KeyError (tensor_of source key);
        let can := (list_to_set (tensor_shards t) ∖ assigned) ∩ needed in
        let rest := available ∖ {[source]} in
        if bool_decide (can = ∅) then
          if bool_decide (rest = ∅) then mret assigned else greedy fuel is_push_to_ps target key rest needed assigned
        else
          let shards := sort_lt shard_ltb (elements can) in
          assign_shards is_push_to_ps target key source t shards ;;
          if bool_decide (rest = ∅) then mret (assigned ∪ can)
          else greedy fuel is_push_to_ps target key rest needed (assigned ∪ can)
  end.

(** The sources, in the allowed groups, that have the tensor. *)
Definition sources_of (groups : Groups) (restrict : list Z) (key : string) : gset string :=
  list_to_set (filter (λ c, is_Some (tensor_of c key)) (flat_map (λ g, default [] (assoc g groups)) restrict)).

Definition plan_tensor (is_push_to_ps : bool) (sources : Groups) (restrict : list Z) (target : string) (row : string * NIXLTensorInfo) : Pl unit :=
  let '(key, t) := row in
  let available := sources_of sources restrict key in
  if bool_decide (available = ∅) then raise AssertionError
  else
    let needed := list_to_set (tensor_shards t) in
    assigned ← greedy (S (size available)) is_push_to_ps target key available needed ∅;
    if bool_decide (assigned = needed) then mret tt else raise AssertionError.

(** ** All targets *)

(** The source groups a target group may use. *)
Definition restriction (restrict_client_group_comm is_push_to_ps : bool) (sources targets : Groups) (g : Z) : Res (list Z) :=
  if restrict_client_group_comm && is_push_to_ps then
    let ids := filter (λ s, s mod Z.of_nat (length targets) = g mod Z.of_nat (length sources)) sources.*1 in
    match ids with [] => inl AssertionError | _ => inr ids end
  else inr sources.*1.

(** [s] is written back by the caller, which owns [comm_plan] and the topology. *)
Definition make_comm_plan_generic (restrict_client_group_comm is_push_to_ps : bool) (sources targets : Groups) : Pl unit :=
  modify (with_volumes (list_to_map ((λ c, (c, fzero)) <$> flat_map snd sources))) ;;
  rs ← map_each targets (λ '(g, cs), ids ← of_res (restriction restrict_client_group_comm is_push_to_ps sources targets g); mret (ids, cs));
  for_each rs (λ '(ids, cs),
    for_each cs (λ target,
      info ← of_option KeyError (assoc target clients);
      for_each (tensor_infos info) (plan_tensor is_push_to_ps sources ids target))).

(** ** The plan of all clients *)

Fixpoint group_append (g : Z) (c : string) (d : Groups) : Groups :=
  match d with
  | [] => [(g, [c])]
  | (g', cs) :: d => if decide (g' = g) then (g', cs ++ [c]) :: d else (g', cs) :: group_append g c d
  end.

Definition groups_of (t : NIXLClientType) : Groups :=
  foldl (λ d '(c, i), if decide (client_type i = t) then group_append (client_group_id i) c d else d) [] clients.

Record NIXLCommPlan := mkPlan {
  push_to_ps_plan : Plan;
  rollout_pull_from_ps_plan : Plan;
  train_pull_from_ps_plan : Plan;
}.

(** [{client: {} for group in groups.values() for client in group}] *)
Definition empty_plan (g : Groups) : Plan := list_to_map ((λ c, (c, ∅)) <$> flat_map snd g).

Definition run_plan (restrict is_push : bool) (sources targets : Groups) (plan : Plan) : M NetworkTopology Plan := λ t,
  match make_comm_plan_generic restrict is_push sources targets (mkPlanState t ∅ plan) with
  | Ret _ s => Ret (comm_plan s) (topo s)
  | Raise e s => Raise e (topo s)
  end.

(** [if sources and targets: ...] *)
Definition plan_if (restrict is_push : bool) (sources targets : Groups) (plan : Plan) : M NetworkTopology Plan :=
  match sources, targets with
  | [], _ | _, [] => mret plan
  | _, _ => run_plan restrict is_push sources targets plan
  end.

Definition make_comm_plan (restrict : bool) : M NetworkTopology NIXLCommPlan :=
  for_each clients (λ '(c, i), register_client c (node_ip i) (node_gpu_id i)) ;;
  if bool_decide (Exists (λ p, client_type p.2 = PS) clients) then raise ValueError
  else
    let push := groups_of PUSH_SIDE in
    let ps_push := groups_of PS_FOR_PUSH in
    let pull := groups_of PULL_SIDE in
    let ps_pull := groups_of PS_FOR_PULL in
    p ← plan_if restrict true push ps_push (empty_plan push);
    t ← plan_if restrict false ps_push push (empty_plan push);
    r ← plan_if restrict false ps_pull pull (empty_plan pull);
    mret (mkPlan p r t).
End planner.

(** ** Reading the plan *)

Definition get_push_plan (p : NIXLCommPlan) (c key : string) : gmap string (list Shard) := default ∅ (default ∅ (push_to_ps_plan p !! c) !! key).
Definition get_rollout_pull_plan (p : NIXLCommPlan) (c key : string) : gmap string (list Shard) := default ∅ (default ∅ (rollout_pull_from_ps_plan p !! c) !! key).
Definition get_train_pull_plan (p : NIXLCommPlan) (c key : string) : gmap string (list Shard) := default ∅ (default ∅ (train_pull_from_ps_plan p !! c) !! key).

(** Transposition: what the peer [ps] exchanges with each client. *)
Definition transpose (plan : Plan) (ps key : string) : gmap string (list Shard) := omap (λ row : gmap string (gmap string (list Shard)), row !! key ≫= lookup ps) plan.

Definition get_ps_write_plan (p : NIXLCommPlan) := transpose (push_to_ps_plan p).
Definition get_rollout_ps_read_plan (p : NIXLCommPlan) := transpose (rollout_pull_from_ps_plan p).
Definition get_train_ps_read_plan (p : NIXLCommPlan) := transpose (train_pull_from_ps_plan p).

(** ** What one tensor's assignment does *)

Section correctness.
Context (iter : gset string → list string) (iter_elem : ∀ X c, c ∈ iter X ↔ c ∈ X) (clients : Clients).
Implicit Types (s : PlanState) (available : gset string) (needed assigned : gset Shard).

(** No cached link has bandwidth zero, as the default links have not. *)
Definition usable (t : NetworkTopology) : Prop := ∀ k l, links t !! k = Some l → feqb (bytes_per_s (bandwidth_gbps l)) fzero = false.

(** Only the cache of links differs. *)
Record same_plan s s' : Prop := {
  sp_volumes : source_client_volumes s' = source_client_volumes s;
  sp_plan : comm_plan s' = comm_plan s;
  sp_usable : usable (topo s) → usable (topo s');
}.

Lemma same_plan_refl s : same_plan s s.
Proof. done. Qed.

Lemma same_plan_trans s1 s2 s3 : same_plan s1 s2 → same_plan s2 s3 → same_plan s1 s3.
Proof. intros [? ? ?] [? ? ?]. split; [congruence..|auto]. Qed.

Lemma get_link_run a b t :
  ∃ l t', get_link a b t = Ret l t' ∧ (usable t → usable t' ∧ feqb (bytes_per_s (bandwidth_gbps l)) fzero = false).
Proof.
  assert (∀ lt, feqb (bytes_per_s (bandwidth_gbps (default_link lt))) fzero = false) as Hdef by (by intros []; vm_compute).
  unfold get_link. case_decide; [by eexists _, _|]. mrun. destruct (links t !! link_key a b) as [l|] eqn:E; eexists _, _; (split; [done|]).
  - intros Hu. split; [done|]. by eapply Hu.
  - intros Hu. split; [|done]. intros k l. simpl. rewrite lookup_insert. case_decide; [intros [= <-]; done|apply Hu].
Qed.

(** A query of the topology that reads one link. *)
Lemma on_link_run {A} a b (f : NetworkLink → A) (m : M NetworkTopology A) s :
  (∀ t, m t = (l ← get_link a b; mret (f l)) t) →
  ∃ l s', on_topo m s = Ret (f l) s' ∧ same_plan s s' ∧ (usable (topo s) → feqb (bytes_per_s (bandwidth_gbps l)) fzero = false).
Proof.
  intros Hm. unfold on_topo, zoom. destruct (get_link_run a b (topo s)) as (l & t' & E & Hu). rewrite Hm, (run_bind _ _ _ _ _ E).
  eexists l, _. split; [done|]. split; [split; [done..|]; simpl|]; intros H; by apply Hu.
Qed.

Lemma sort_key_run target source s :
  is_Some (source_client_volumes s !! source) → ∃ k s', sort_key target source s = Ret k s' ∧ same_plan s s'.
Proof.
  intros [v Hv]. unfold sort_key. destruct (on_link_run source target (λ l, priority (link_type l)) (get_link_priority source target) s) as (l & s1 & E & Hs1 & _).
  { intros t. unfold get_link_priority, get_link_type. by rewrite run_assoc. }
  rewrite (run_bind _ _ _ _ _ E). mrun. rewrite (run_of_option _ _ v) by (rewrite (sp_volumes _ _ Hs1); done). by eexists _, _.
Qed.

Lemma fold_min_run target (cs : list string) c k s :
  (∀ c, c ∈ cs → is_Some (source_client_volumes s !! c)) →
  ∃ best s', fold_each cs (c, k) (λ c best, k ← sort_key target c; mret (if key_ltb k best.2 then (c, k) else best)) s = Ret best s' ∧
    same_plan s s' ∧ (best.1 = c ∨ best.1 ∈ cs).
Proof.
  revert c k s. induction cs as [|c0 cs IH]; intros c k s Hv; simpl; [exists (c, k), s; split_and!; [done|apply same_plan_refl|by left]|].
  destruct (sort_key_run target c0 s) as (k0 & s1 & E & Hs1); [apply Hv, elem_of_cons; by left|]. mrun. rewrite (run_bind _ _ _ _ _ E).
  assert (∀ c, c ∈ cs → is_Some (source_client_volumes s1 !! c)) as Hv1 by (rewrite (sp_volumes _ _ Hs1); intros; apply Hv, elem_of_cons; by right).
  simpl. destruct (key_ltb k0 k).
  - destruct (IH c0 k0 s1 Hv1) as (best & s' & E' & Hs' & Hb). rewrite run_mret. exists best, s'. split_and!; [done|by eapply same_plan_trans|].
    right. apply elem_of_cons. naive_solver.
  - destruct (IH c k s1 Hv1) as (best & s' & E' & Hs' & Hb). rewrite run_mret. exists best, s'. split_and!; [done|by eapply same_plan_trans|].
    rewrite elem_of_cons. naive_solver.
Qed.

Lemma min_volume_client_run target available s :
  available ≠ ∅ → (∀ c, c ∈ available → is_Some (source_client_volumes s !! c)) →
  ∃ c s', min_volume_client iter target available s = Ret c s' ∧ c ∈ available ∧ same_plan s s'.
Proof.
  intros Hne Hv. unfold min_volume_client. destruct (iter available) as [|c cs] eqn:Ei.
  { exfalso. apply Hne. apply set_eq. intros x. rewrite <-iter_elem, Ei. split; [intros []%not_elem_of_nil|set_solver]. }
  assert (∀ x, x ∈ c :: cs → x ∈ available) as Hin by (intros x; by rewrite <-Ei, iter_elem).
  destruct (sort_key_run target c s) as (k & s1 & E & Hs1); [apply Hv, Hin, elem_of_cons; by left|]. rewrite (run_bind _ _ _ _ _ E).
  destruct (fold_min_run target cs c k s1) as (best & s2 & E2 & Hs2 & Hb).
  { rewrite (sp_volumes _ _ Hs1). intros x Hx. apply Hv, Hin, elem_of_cons. by right. }
  rewrite (run_bind _ _ _ _ _ E2). exists best.1, s2. split_and!; [done| |by eapply same_plan_trans].
  apply Hin, elem_of_cons. naive_solver.
Qed.

(** A tensor whose descriptors match its sharding. *)
Definition wf_tensor (t : NIXLTensorInfo) : Prop := num_local_shards t = length (tensor_shards t) ∧ length (shard_sizes t) = length (tensor_shards t).

Lemma shards_bytes_run t shards s : wf_tensor t → (∀ x, x ∈ shards → x ∈ tensor_shards t) → ∃ n, shards_bytes t shards s = Ret n s.
Proof.
  intros [Hn Hl]. unfold shards_bytes. generalize 0. induction shards as [|x shards IH]; intros acc Hin; simpl; [by eexists|].
  assert (x ∈ tensor_shards t) as (i & Hi)%list_elem_of_lookup by (apply Hin, elem_of_cons; by left).
  destruct (shard_pos t x) as [pos|] eqn:Ep; [|exfalso; unfold shard_pos in Ep; rewrite find_last_None in Ep; by eapply Ep].
  assert (pos < length (tensor_shards t))%nat as Hp by by apply find_last_lt in Ep.
  mrun. rewrite (run_of_option _ _ pos) by done. mrun. destruct (lookup_lt_is_Some_2 (shard_sizes t) pos) as [n Hsz]; [lia|].
  rewrite (run_of_res _ n); [|unfold get_shard_size_bytes; rewrite bool_decide_false by lia; by rewrite Hsz].
  rewrite run_mret. apply IH. intros y Hy. apply Hin, elem_of_cons. by right.
Qed.

(** The shards [source] provides for tensor [key] of [target]. *)
Definition outer (is_push : bool) (source target : string) : string := if is_push then source else target.
Definition inner (is_push : bool) (source target : string) : string := if is_push then target else source.
Definition entry (is_push : bool) (p : Plan) (source target key : string) : option (list Shard) :=
  (p !! outer is_push source target ≫= λ row, row !! key) ≫= λ m, m !! inner is_push source target.

Lemma record_plan_run is_push source target key shards s :
  is_Some (comm_plan s !! outer is_push source target) →
  ∃ s', record_plan (outer is_push source target) key (inner is_push source target) shards s = Ret tt s' ∧
    topo s' = topo s ∧ source_client_volumes s' = source_client_volumes s ∧
    (∀ c, is_Some (comm_plan s !! c) → is_Some (comm_plan s' !! c)) ∧
    ∀ c t k, entry is_push (comm_plan s') c t k = if decide ((c, t, k) = (source, target, key)) then Some shards else entry is_push (comm_plan s) c t k.
Proof.
  intros [row Hrow]. unfold record_plan. mrun. rewrite (run_of_option _ _ row) by done. eexists. split; [done|]. split; [done|]. split; [done|]. simpl. split.
  { intros c Hc. rewrite lookup_insert. by case_decide. }
  intros c t k. unfold entry. simpl. rewrite lookup_insert. case_decide as Ho.
  - simpl. rewrite <-Ho, Hrow. simpl. rewrite lookup_insert. destruct (decide (key = k)) as [->|Hk]; simpl.
    + rewrite lookup_insert. destruct (decide (inner is_push source target = inner is_push c t)) as [Hi|Hi].
      * rewrite decide_True; [done|]. destruct is_push; simpl in *; congruence.
      * rewrite decide_False by (intros [= -> ->]; done). by destruct (row !! k).
    + rewrite decide_False; [done|]. congruence.
  - rewrite decide_False; [done|]. intros [= -> -> ->]. done.
Qed.

(** What the assignment of one tensor needs of the state. *)
Definition ready (is_push : bool) (target : string) available s : Prop :=
  usable (topo s) ∧ ∀ c, c ∈ available → is_Some (source_client_volumes s !! c) ∧ is_Some (comm_plan s !! outer is_push c target).

Lemma assign_shards_run is_push target key source t shards s :
  wf_tensor t → (∀ x, x ∈ shards → x ∈ tensor_shards t) → usable (topo s) →
  is_Some (source_client_volumes s !! source) → is_Some (comm_plan s !! outer is_push source target) →
  ∃ s', assign_shards is_push target key source t shards s = Ret tt s' ∧ usable (topo s') ∧
    (∀ c, is_Some (source_client_volumes s !! c) → is_Some (source_client_volumes s' !! c)) ∧
    (∀ c, is_Some (comm_plan s !! c) → is_Some (comm_plan s' !! c)) ∧
    ∀ c' t' k', entry is_push (comm_plan s') c' t' k' = if decide ((c', t', k') = (source, target, key)) then Some shards else entry is_push (comm_plan s) c' t' k'.
Proof.
  intros Ht Hin Hu [v Hv] Hrow. unfold assign_shards.
  destruct (record_plan_run is_push source target key shards s Hrow) as (s1 & E1 & Ht1 & Hv1 & Hr1 & He1).
  assert ((if is_push then record_plan source key target shards else record_plan target key source shards) s = Ret tt s1) as E1' by by destruct is_push.
  rewrite (run_bind _ _ _ _ _ E1'). destruct (shards_bytes_run t shards s1 Ht Hin) as (n & E2). rewrite (run_bind _ _ _ _ _ E2).
  destruct (on_link_run source target bandwidth_gbps (get_bandwidth_gbps source target) s1) as (l & s2 & E3 & [Hv2 Hp2 Hu2] & Hbw); [done|].
  rewrite <-Ht1 in Hu. rewrite (run_bind _ _ _ _ _ E3), (Hbw Hu). mrun. rewrite (run_of_option _ _ v) by congruence.
  eexists. split; [done|]. simpl. rewrite Hv2, Hp2, Hv1. split_and!; [auto| |done..].
  intros c Hc. rewrite lookup_insert. by case_decide.
Qed.

(** What each source gives: shards it has, that were needed and not yet assigned,
    no shard twice. *)
Record gives (key : string) available needed assigned (give : gmap string (list Shard)) : Prop := {
  gv_sources : dom give ⊆ available;
  gv_shards : ∀ c l x, give !! c = Some l → x ∈ l → (∃ t, tensor_of clients c key = Some t ∧ x ∈ tensor_shards t) ∧ x ∈ needed ∧ x ∉ assigned;
  gv_NoDup : ∀ c l, give !! c = Some l → NoDup l;
  gv_once : ∀ c c' l l' x, give !! c = Some l → give !! c' = Some l' → x ∈ l → x ∈ l' → c = c';
}.

Definition given (give : gmap string (list Shard)) (x : Shard) : Prop := ∃ c l, give !! c = Some l ∧ x ∈ l.

Lemma gives_empty key available needed assigned : gives key available needed assigned ∅.
Proof. split; [by rewrite dom_empty|intros c l x Hc|intros c l Hc|intros c c' l l' x Hc]; by rewrite lookup_empty in Hc. Qed.

Lemma gives_insert key available needed assigned give c l t :
  gives key (available ∖ {[c]}) needed (assigned ∪ list_to_set l) give → c ∈ available → tensor_of clients c key = Some t → NoDup l →
  (∀ x, x ∈ l → x ∈ tensor_shards t ∧ x ∈ needed ∧ x ∉ assigned) →
  gives key available needed assigned (<[c := l]> give).
Proof.
  intros [Hd Hs Hn Ho] Hc Ht Hl Hx. assert (give !! c = None) as Hno by (apply not_elem_of_dom; set_solver).
  assert (∀ c' l' x, give !! c' = Some l' → x ∈ l' → x ∉ l) as Hdis.
  { intros c' l' x Hc' Hx' Hxl. destruct (Hs c' l' x Hc' Hx') as (_ & _ & Hnot). apply Hnot, elem_of_union. right. by apply elem_of_list_to_set. }
  split.
  - rewrite dom_insert. set_solver.
  - intros c' l' x. rewrite lookup_insert. case_decide; [intros [= <-] Hin; subst; split; [exists t; split; [done|]|]; by apply Hx|].
    intros Hc' Hin. destruct (Hs c' l' x Hc' Hin) as (? & ? & Hnot). split_and!; [done..|]. set_solver.
  - intros c' l'. rewrite lookup_insert. case_decide; [by intros [= <-]|apply Hn].
  - intros c1 c2 l1 l2 x. rewrite !lookup_insert. repeat case_decide; subst; try done; intros H1 H2 Hx1 Hx2; simplify_eq.
    + exfalso. by eapply Hdis.
    + exfalso. by eapply Hdis.
    + by eapply Ho.
Qed.

(** The outcome of assigning from [available]. *)
Record assigns (is_push : bool) (target key : string) available needed assigned s assigned' s' (give : gmap string (list Shard)) : Prop := {
  as_gives : gives key available needed assigned give;
  as_assigned : ∀ x, x ∈ assigned' ↔ x ∈ assigned ∨ given give x;
  as_all : ∀ c t x, c ∈ available → tensor_of clients c key = Some t → x ∈ tensor_shards t → x ∈ needed → x ∈ assigned';
  as_usable : usable (topo s');
  as_volumes : ∀ c, is_Some (source_client_volumes s !! c) → is_Some (source_client_volumes s' !! c);
  as_rows : ∀ c, is_Some (comm_plan s !! c) → is_Some (comm_plan s' !! c);
  as_entries : ∀ c t k, entry is_push (comm_plan s') c t k =
    if decide ((t, k) = (target, key)) then (match give !! c with Some l => Some l | None => entry is_push (comm_plan s) c t k end)
    else entry is_push (comm_plan s) c t k;
}.

(** No source of [available] has a needed shard that is not assigned. *)
Lemma assigns_nothing is_push target key available needed assigned s s' :
  usable (topo s) → same_plan s s' → (∀ c t x, c ∈ available → tensor_of clients c key = Some t → x ∈ tensor_shards t → x ∈ needed → x ∈ assigned) →
  assigns is_push target key available needed assigned s assigned s' ∅.
Proof.
  intros Hu [Hv Hp Hsu] Hall. split; [apply gives_empty| |done|auto|by rewrite Hv|by rewrite Hp|].
  - intros x. split; [by left|]. intros [?|(c & l & Hc & _)]; [done|]. by rewrite lookup_empty in Hc.
  - intros c t k. rewrite lookup_empty, Hp. by case_decide.
Qed.

(** A chosen source that has nothing to give. *)
Lemma assigns_skip is_push target key available needed assigned s s1 assigned' s' give c t :
  same_plan s s1 → tensor_of clients c key = Some t → (∀ x, x ∈ tensor_shards t → x ∈ needed → x ∈ assigned) →
  assigns is_push target key (available ∖ {[c]}) needed assigned s1 assigned' s' give →
  assigns is_push target key available needed assigned s assigned' s' give.
Proof.
  intros [Hv Hp _] Ht Hno [[Hd Hs Hn Ho] Has Hall Hu Hvs Hps He]. split; [split; [set_solver|done..]|done| |done|by rewrite <-Hv|by rewrite <-Hp|by rewrite <-Hp].
  intros c' t' x Hc' Ht' Hx Hneed. destruct (decide (c' = c)) as [->|]; [|apply (Hall c' t' x); [set_solver|done..]].
  simplify_eq. apply Has. left. auto.
Qed.

(** A chosen source that gives [l]. *)
Lemma assigns_take is_push target key available needed assigned s s1 assigned' s' give c t l :
  c ∈ available → tensor_of clients c key = Some t → NoDup l →
  (∀ x, x ∈ l → x ∈ tensor_shards t ∧ x ∈ needed ∧ x ∉ assigned) → (∀ x, x ∈ tensor_shards t → x ∈ needed → x ∈ assigned ∨ x ∈ l) →
  (∀ c, is_Some (source_client_volumes s !! c) → is_Some (source_client_volumes s1 !! c)) →
  (∀ c, is_Some (comm_plan s !! c) → is_Some (comm_plan s1 !! c)) →
  (∀ c' t' k', entry is_push (comm_plan s1) c' t' k' = if decide ((c', t', k') = (c, target, key)) then Some l else entry is_push (comm_plan s) c' t' k') →
  assigns is_push target key (available ∖ {[c]}) needed (assigned ∪ list_to_set l) s1 assigned' s' give →
  assigns is_push target key available needed assigned s assigned' s' (<[c := l]> give).
Proof.
  intros Hc Ht Hnd Hlx Hcan Hv1 Hp1 He1 [Hg Has Hall Hu Hvs Hps He].
  assert (give !! c = None) as Hgc by (apply not_elem_of_dom; intros Hin%(gv_sources _ _ _ _ _ Hg); set_solver).
  split; [by eapply gives_insert| | |done|auto|auto|].
  - intros x. rewrite Has, elem_of_union, elem_of_list_to_set. unfold given. split.
    + intros [[?|?]|(c' & l' & Hc' & Hx)]; [by left| |].
      * right. exists c, l. by rewrite lookup_insert_eq.
      * right. exists c', l'. rewrite lookup_insert_ne by congruence. done.
    + intros [?|(c' & l' & Hc' & Hx)]; [naive_solver|]. apply lookup_insert_Some in Hc' as [[-> ->]|[_ ?]]; naive_solver.
  - intros c' t' x Hc' Ht' Hx Hn. destruct (decide (c' = c)) as [->|]; [|apply (Hall c' t' x); [set_solver|done..]]. simplify_eq. apply Has. left.
    rewrite elem_of_union, elem_of_list_to_set. by apply Hcan.
  - intros c' t' k. rewrite He, He1. destruct (decide ((t', k) = (target, key))) as [[= -> ->]|Hne'].
    + rewrite lookup_insert. destruct (decide (c = c')) as [<-|]; [by rewrite Hgc, decide_True|].
      destruct (give !! c'); [done|]. rewrite decide_False; [done|]. congruence.
    + rewrite decide_False; [done|]. intros [= -> -> ->]. done.
Qed.

Lemma greedy_spec fuel is_push target key available needed assigned s :
  (∀ c t, tensor_of clients c key = Some t → wf_tensor t) →
  (∀ c, c ∈ available → is_Some (tensor_of clients c key)) →
  ready is_push target available s → available ≠ ∅ → (size available < fuel)%nat →
  ∃ assigned' s' give, greedy iter clients fuel is_push target key available needed assigned s = Ret assigned' s' ∧
    assigns is_push target key available needed assigned s assigned' s' give.
Proof.
  intros Hwf. revert available assigned s. induction fuel as [|fuel IH]; intros available assigned s Hhas [Hu Hready] Hne Hfuel; [lia|]. simpl.
  case_bool_decide as Hdone; [exists assigned, s, ∅; split; [done|]; apply assigns_nothing; [done|apply same_plan_refl|by rewrite Hdone]|].
  destruct (min_volume_client_run target available s Hne) as (c & s1 & E1 & Hc & Hs1); [intros c Hc; by apply (Hready c)|].
  rewrite (run_bind _ _ _ _ _ E1). destruct (Hhas c Hc) as [t Ht]. rewrite (run_of_option _ _ t) by done.
  set (can := (list_to_set (tensor_shards t) ∖ assigned) ∩ needed). set (rest := available ∖ {[c]}).
  assert (size rest < fuel)%nat as Hfuel' by (assert (size rest < size available)%nat; [apply subset_size; set_solver|lia]).
  assert (∀ c, c ∈ rest → c ∈ available) as Hrest by set_solver.
  assert (∀ x, x ∈ can ↔ x ∈ tensor_shards t ∧ x ∈ needed ∧ x ∉ assigned) as Hcan.
  { intros x. unfold can. rewrite elem_of_intersection, elem_of_difference, elem_of_list_to_set. naive_solver. }
  assert (∀ s' asg, usable (topo s') → rest = ∅ → assigns is_push target key rest needed asg s' asg s' ∅) as Hlast.
  { intros s' asg Hu' ->. apply assigns_nothing; [done|apply same_plan_refl|set_solver]. }
  pose proof (sp_usable _ _ Hs1 Hu) as Hu1.
  case_bool_decide as Hcan0.
  - assert (∀ x, x ∈ tensor_shards t → x ∈ needed → x ∈ assigned) as Hno.
    { intros x Hx Hn. destruct (decide (x ∈ assigned)) as [|Hbad]; [done|]. exfalso. pose proof (proj2 (Hcan x) (conj Hx (conj Hn Hbad))). set_solver. }
    case_bool_decide as Hr0; [exists assigned, s1, ∅; split; [done|]; eapply assigns_skip; eauto|].
    destruct (IH rest assigned s1) as (as' & s' & give & E & Ha); [intros; by apply Hhas, Hrest| |done..|].
    { split; [done|]. intros c' Hc'. destruct Hs1 as [-> -> _]. by apply Hready, Hrest. }
    exists as', s', give. split; [done|]. by eapply assigns_skip.
  - set (l := sort_lt shard_ltb (elements can)).
    assert (∀ x, x ∈ l ↔ x ∈ can) as Hl by (intros x; unfold l; rewrite elem_of_sort_lt, elem_of_elements; done).
    assert (NoDup l) as Hnd by (unfold l; rewrite sort_lt_perm; apply NoDup_elements).
    assert (list_to_set l = can) as Hlset by (apply set_eq; intros x; by rewrite elem_of_list_to_set).
    destruct (Hready c Hc) as [Hvc Hpc]. destruct Hs1 as [Hv1 Hp1 _].
    destruct (assign_shards_run is_push target key c t l s1) as (s2 & E2 & Hu2 & Hv2 & Hp2 & He2);
      [by eapply Hwf|intros x Hx; by apply Hcan, Hl|done|by rewrite Hv1|by rewrite Hp1|]. rewrite (run_bind _ _ _ _ _ E2). rewrite Hp1, Hv1 in *.
    assert (∀ asg s' give, assigns is_push target key rest needed (assigned ∪ can) s2 asg s' give →
      assigns is_push target key available needed assigned s asg s' (<[c := l]> give)) as Htake.
    { intros asg s' give Ha. rewrite <-Hlset in Ha. eapply assigns_take; [done..| | |done|done|done|done].
      - intros x Hx. by apply Hcan, Hl.
      - intros x Hx Hn. destruct (decide (x ∈ assigned)); [by left|right]. by apply Hl, Hcan. }
    case_bool_decide as Hr0; [exists (assigned ∪ can), s2, (<[c := l]> ∅); auto|].
    destruct (IH rest (assigned ∪ can) s2) as (as' & s' & give & E & Ha); [intros; by apply Hhas, Hrest| |done..|].
    { split; [done|]. intros c' Hc'. destruct (Hready c' (Hrest c' Hc')). split; auto. }
    exists as', s', (<[c := l]> give). auto.
Qed.

(** Every shard [target] needs of [key] is provided by exactly one source that has
    it, and nothing else is. *)
Record served (is_push : bool) (p : Plan) (target key : string) (t : NIXLTensorInfo) : Prop := {
  sv_owned : ∀ c l x, entry is_push p c target key = Some l → x ∈ l → x ∈ tensor_shards t ∧ ∃ tc, tensor_of clients c key = Some tc ∧ x ∈ tensor_shards tc;
  sv_all : ∀ x, x ∈ tensor_shards t → ∃ c l, entry is_push p c target key = Some l ∧ x ∈ l;
  sv_once : ∀ c c' l l' x, entry is_push p c target key = Some l → entry is_push p c' target key = Some l' → x ∈ l → x ∈ l' → c = c';
  sv_NoDup : ∀ c l, entry is_push p c target key = Some l → NoDup l;
}.

(** The allowed sources have the tensor, and among them every shard needed. *)
Definition coverable (sources : Groups) (restrict : list Z) (key : string) (t : NIXLTensorInfo) : Prop :=
  sources_of clients sources restrict key ≠ ∅ ∧
  ∀ x, x ∈ tensor_shards t → ∃ c tc, c ∈ sources_of clients sources restrict key ∧ tensor_of clients c key = Some tc ∧ x ∈ tensor_shards tc.

Definition all_wf : Prop := ∀ c key t, tensor_of clients c key = Some t → wf_tensor t.

Lemma sources_of_tensor sources restrict key c : c ∈ sources_of clients sources restrict key → is_Some (tensor_of clients c key).
Proof. unfold sources_of. rewrite elem_of_list_to_set, list_elem_of_filter. by intros [? _]. Qed.

Lemma plan_tensor_run is_push sources restrict target key t s :
  all_wf → ready is_push target (sources_of clients sources restrict key) s →
  (coverable sources restrict key t →
    ∃ s' give, plan_tensor iter clients is_push sources restrict target (key, t) s = Ret tt s' ∧
      assigns is_push target key (sources_of clients sources restrict key) (list_to_set (tensor_shards t)) ∅ s (list_to_set (tensor_shards t)) s' give) ∧
  (¬ coverable sources restrict key t → ∃ s', plan_tensor iter clients is_push sources restrict target (key, t) s = Raise AssertionError s').
Proof.
  intros Hwf Hready. unfold plan_tensor, coverable. set (av := sources_of clients sources restrict key) in *. set (needed := list_to_set _ : gset Shard).
  case_bool_decide as Hav; [split; [by intros [? _]|by eexists]|].
  destruct (greedy_spec (S (size av)) is_push target key av needed ∅ s) as (asg & s' & give & E & Ha);
    [intros c tc; apply Hwf|intros c; apply sources_of_tensor|done|done|lia|].
  rewrite (run_bind _ _ _ _ _ E). split.
  - intros [_ Hcov]. assert (asg = needed) as ->; [|rewrite bool_decide_true by done; by exists s', give].
    apply set_eq. intros x. split.
    + rewrite (as_assigned _ _ _ _ _ _ _ _ _ _ Ha). intros [?|(c & l & Hc & Hx)]; [set_solver|].
      by apply (gv_shards _ _ _ _ _ (as_gives _ _ _ _ _ _ _ _ _ _ Ha) c l x).
    + intros Hx. destruct (Hcov x) as (c & tc & Hc & Htc & Hxc); [by apply elem_of_list_to_set in Hx|].
      by apply (as_all _ _ _ _ _ _ _ _ _ _ Ha c tc x).
  - intros Hn. rewrite bool_decide_false; [by eexists|]. intros ->. apply Hn. split; [done|]. intros x Hx.
    assert (x ∈ needed) as Hxn by by apply elem_of_list_to_set.
    apply (as_assigned _ _ _ _ _ _ _ _ _ _ Ha) in Hxn as [?|(c & l & Hc & Hxl)]; [set_solver|].
    destruct (gv_shards _ _ _ _ _ (as_gives _ _ _ _ _ _ _ _ _ _ Ha) c l x Hc Hxl) as ((tc & Htc & Hxt) & _). exists c, tc. split_and!; [|done..].
    apply (gv_sources _ _ _ _ _ (as_gives _ _ _ _ _ _ _ _ _ _ Ha)), elem_of_dom. by exists l.
Qed.

(** A tensor that had no entries is served. *)
Lemma assigns_served is_push target key available t s s' give :
  assigns is_push target key available (list_to_set (tensor_shards t)) ∅ s (list_to_set (tensor_shards t)) s' give →
  (∀ c, entry is_push (comm_plan s) c target key = None) → served is_push (comm_plan s') target key t.
Proof.
  intros [[Hd Hs Hn Ho] Has _ _ _ _ He] Hnone.
  assert (∀ c, entry is_push (comm_plan s') c target key = give !! c) as Hgive.
  { intros c. rewrite He, decide_True by done. rewrite Hnone. by destruct (give !! c). }
  split.
  - intros c l x. rewrite Hgive. intros Hc Hx. destruct (Hs c l x Hc Hx) as (Hown & Hneed & _). apply elem_of_list_to_set in Hneed. done.
  - intros x Hx. assert (x ∈ (list_to_set (tensor_shards t) : gset Shard)) as Hxn by by apply elem_of_list_to_set.
    apply Has in Hxn as [?|(c & l & Hc & Hxl)]; [set_solver|]. exists c, l. by rewrite Hgive.
  - intros c c' l l' x. rewrite !Hgive. apply Ho.
  - intros c l. rewrite Hgive. apply Hn.
Qed.

(** ** All targets *)

(** One unit of work: allowed groups, target, tensor. *)
Definition Job : Type := list Z * string * (string * NIXLTensorInfo).
Definition tensors (c : string) : list (string * NIXLTensorInfo) := default [] (tensor_infos <$> assoc c clients).
Definition jobs (rs : list (list Z * list string)) : list Job :=
  flat_map (λ '(ids, cs), flat_map (λ target, map (λ row, (ids, target, row)) (tensors target)) cs) rs.
Definition job_key (j : Job) : string * string := (j.1.2, j.2.1).
Definition run_job (is_push : bool) (sources : Groups) (j : Job) : Pl unit := plan_tensor iter clients is_push sources j.1.1 j.1.2 j.2.

Lemma jobs_run is_push sources (rs : list (list Z * list string)) s :
  (∀ ids cs c, (ids, cs) ∈ rs → c ∈ cs → is_Some (assoc c clients)) →
  for_each rs (λ '(ids, cs), for_each cs (λ target, info ← of_option KeyError (assoc target clients);
    for_each (tensor_infos info) (plan_tensor iter clients is_push sources ids target))) s = for_each (jobs rs) (run_job is_push sources) s.
Proof.
  intros Hin. unfold jobs. rewrite for_each_flat. apply for_each_ext. intros [ids cs] s1 Hrs. rewrite for_each_flat. apply for_each_ext.
  intros c s2 Hc. destruct (Hin ids cs c Hrs Hc) as [info Hinfo]. rewrite (run_of_option _ _ info) by done.
  unfold tensors. rewrite Hinfo. simpl. by rewrite for_each_map.
Qed.

(** All jobs, one after the other. *)
Lemma run_jobs_ok is_push sources (js : list Job) s :
  all_wf → NoDup (job_key <$> js) →
  (∀ j, j ∈ js → coverable sources j.1.1 j.2.1 j.2.2) →
  (∀ j, j ∈ js → ready is_push j.1.2 (sources_of clients sources j.1.1 j.2.1) s) →
  (∀ j c, j ∈ js → entry is_push (comm_plan s) c j.1.2 j.2.1 = None) →
  ∃ s', for_each js (run_job is_push sources) s = Ret tt s' ∧
    (∀ j, j ∈ js → served is_push (comm_plan s') j.1.2 j.2.1 j.2.2) ∧
    (∀ c t k, (t, k) ∉ job_key <$> js → entry is_push (comm_plan s') c t k = entry is_push (comm_plan s) c t k).
Proof.
  intros Hwf. revert s. induction js as [|j js IH]; intros s Hnd Hcov Hready Hnone; simpl.
  { exists s. split_and!; [done|intros j []%not_elem_of_nil|done]. }
  rewrite fmap_cons in Hnd. apply NoDup_cons in Hnd as [Hj Hnd]. assert (j ∈ j :: js) as Hjin by (apply elem_of_cons; by left).
  assert (∀ j', j' ∈ js → j' ∈ j :: js) as Htail by (intros; apply elem_of_cons; by right).
  destruct j as [[ids target] [key t]]. simpl in *.
  destruct (proj1 (plan_tensor_run is_push sources ids target key t s Hwf (Hready _ Hjin)) (Hcov _ Hjin)) as (s1 & give & E & Ha).
  unfold run_job at 1. simpl. rewrite (run_bind _ _ _ _ _ E). pose proof (assigns_served _ _ _ _ _ _ _ _ Ha (λ c, Hnone _ c Hjin)) as Hserved.
  assert (∀ c t' k', (t', k') ≠ (target, key) → entry is_push (comm_plan s1) c t' k' = entry is_push (comm_plan s) c t' k') as Hother.
  { intros c t' k' Hne. rewrite (as_entries _ _ _ _ _ _ _ _ _ _ Ha). by rewrite decide_False. }
  assert (∀ j', j' ∈ js → job_key j' ≠ (target, key)) as Hdist.
  { intros j' Hj' E'. apply Hj. unfold job_key at 1. simpl. rewrite <-E'. by apply list_elem_of_fmap_2. }
  destruct (IH s1) as (s' & E' & Hs' & Hrest); [done|by intros; apply Hcov, Htail| | |].
  - intros j' Hj'. split; [apply (as_usable _ _ _ _ _ _ _ _ _ _ Ha)|]. intros c Hc. destruct (proj2 (Hready j' (Htail j' Hj')) c Hc) as [Hv Hp].
    split; [by apply (as_volumes _ _ _ _ _ _ _ _ _ _ Ha)|by apply (as_rows _ _ _ _ _ _ _ _ _ _ Ha)].
  - intros j' c Hj'. rewrite Hother; [by apply Hnone, Htail|]. by apply Hdist.
  - exists s'. split; [done|]. split.
    + intros j' [->|Hj']%elem_of_cons; [|by apply Hs']. simpl. destruct Hserved as [H1 H2 H3 H4].
      assert (∀ c, entry is_push (comm_plan s') c target key = entry is_push (comm_plan s1) c target key) as Hsame by (intros c; by apply Hrest).
      split; [intros c l x; rewrite Hsame; eauto| |intros c c' l l' x; rewrite !Hsame; eauto|intros c l; rewrite Hsame; eauto].
      intros x Hx. destruct (H2 x Hx) as (c & l & Hc & Hxl). exists c, l. by rewrite Hsame.
    + intros c t' k' Hn.
      assert ((t', k') ≠ (target, key) ∧ (t', k') ∉ job_key <$> js) as [Hne Hn'] by (split; intros ?; apply Hn, elem_of_cons; [by left|by right]).
      rewrite Hrest by done. by apply Hother.
Qed.
End correctness.

(** ** The whole plan *)

Lemma sources_of_subset clients sources restrict key c :
  c ∈ sources_of clients sources restrict key → c ∈ flat_map snd sources.
Proof.
  unfold sources_of. rewrite elem_of_list_to_set, list_elem_of_filter. intros [_ (g & _ & Hc%list_elem_of_In)%list_elem_of_In%in_flat_map].
  destruct (assoc g sources) as [cs|] eqn:E; [|by apply not_elem_of_nil in Hc]. apply list_elem_of_In, in_flat_map. exists (g, cs).
  split; [by apply list_elem_of_In, elem_of_assoc|by apply list_elem_of_In].
Qed.

Lemma jobs_distinct clients (rs : list (list Z * list string)) :
  NoDup (flat_map snd rs) → (∀ c i, assoc c clients = Some i → NoDup (tensor_infos i).*1) → NoDup (job_key <$> jobs clients rs).
Proof.
  intros Hnd Hkeys.
  assert (job_key <$> jobs clients rs = flat_map (λ c, map (pair c) (tensors clients c).*1) (flat_map snd rs)) as ->.
  { unfold jobs. induction rs as [|[ids cs] rs IH]; [done|]. simpl. simpl in Hnd. apply NoDup_app in Hnd as (_ & _ & Hnd).
    rewrite fmap_app, (IH Hnd), flat_map_app. f_equal. clear.
    induction cs as [|c cs IH]; [done|]. simpl. rewrite fmap_app, IH. f_equal. induction (tensors clients c) as [|[k t] l IHl]; [done|]. simpl. by f_equal. }
  induction Hnd as [|c cs Hc Hnd IH]; [constructor|]. simpl. apply NoDup_app. split_and!; [| |done].
  - apply (NoDup_fmap_2 (pair c)). unfold tensors. destruct (assoc c clients) as [i|] eqn:E; [|constructor]. by eapply Hkeys.
  - intros [c' k'] Hin (c0 & Hc0%list_elem_of_In & Hin')%list_elem_of_In%in_flat_map.
    apply list_elem_of_In, in_map_iff in Hin as (k & [= <- <-] & _). apply in_map_iff in Hin' as (k0 & [= <- _] & _). done.
Qed.

Lemma job_elem clients rs ids cs c key t :
  (ids, cs) ∈ rs → c ∈ cs → (key, t) ∈ tensors clients c → (ids, c, (key, t)) ∈ jobs clients rs.
Proof.
  intros Hrs Hc Ht. unfold jobs. apply list_elem_of_In, in_flat_map. exists (ids, cs). split; [by apply list_elem_of_In|].
  apply in_flat_map. exists c. split; [by apply list_elem_of_In|]. apply in_map_iff. exists (key, t). split; [done|by apply list_elem_of_In].
Qed.

Lemma job_inv clients rs j : j ∈ jobs clients rs → ∃ ids cs c row, (ids, cs) ∈ rs ∧ c ∈ cs ∧ row ∈ tensors clients c ∧ j = (ids, c, row).
Proof.
  unfold jobs. intros ([ids cs] & Hrs%list_elem_of_In & (c & Hc%list_elem_of_In & Hj)%in_flat_map)%list_elem_of_In%in_flat_map.
  apply in_map_iff in Hj as (row & <- & Hrow%list_elem_of_In). by exists ids, cs, c, row.
Qed.

Lemma empty_plan_lookup g c : c ∈ flat_map snd g → empty_plan g !! c = Some ∅.
Proof.
  intros Hc. unfold empty_plan. assert (∀ l : list string, c ∈ l → (list_to_map ((λ c, (c, ∅)) <$> l) : Plan) !! c = Some ∅) as H; [|by apply H].
  induction l as [|x l IH]; [intros []%not_elem_of_nil|]. intros Hin. simpl. rewrite lookup_insert. case_decide; [done|].
  apply IH. apply elem_of_cons in Hin as [->|?]; done.
Qed.

Lemma empty_plan_entry is_push g c t k : entry is_push (empty_plan g) c t k = None.
Proof.
  unfold entry, empty_plan. assert (∀ (l : list string) o, match (list_to_map ((λ c, (c, ∅)) <$> l) : Plan) !! o with Some row => row = ∅ | None => True end) as H.
  { induction l as [|x l IH]; intros o; simpl; [by rewrite lookup_empty|]. rewrite lookup_insert. case_decide; [done|apply IH]. }
  specialize (H (flat_map snd g) (outer is_push c t)). destruct (_ !! outer is_push c t) as [row|]; [|done]. subst. simpl. by rewrite lookup_empty.
Qed.

Lemma volumes_lookup c (l : list string) : c ∈ l → is_Some ((list_to_map ((λ c, (c, fzero)) <$> l) : gmap string float) !! c).
Proof.
  induction l as [|x l IH]; [intros []%not_elem_of_nil|]. intros Hin. simpl. rewrite lookup_insert. case_decide; [done|].
  apply IH. apply elem_of_cons in Hin as [->|?]; done.
Qed.

(** The groups each target may use, when every target has some. *)
Lemma restrictions_run restrict is_push sources targets (l : Groups) s rs :
  Forall2 (λ '(g, cs) '(ids, cs'), restriction restrict is_push sources targets g = inr ids ∧ cs' = cs) l rs →
  map_each l (λ '(g, cs), ids ← of_res (restriction restrict is_push sources targets g); mret (ids, cs)) s = Ret (S := PlanState) rs s.
Proof.
  induction 1 as [|[g cs] [ids cs'] l rs [E ->] _ IH]; [done|]. simpl. rewrite run_assoc. rewrite (run_of_res _ ids) by done. rewrite run_mret.
  by rewrite (run_bind _ _ _ _ _ IH).
Qed.

Lemma flat_map_snd {A} (l : list (A * list string)) : flat_map snd l = concat (l.*2).
Proof. induction l as [|[a cs] l IH]; [done|]. simpl. by rewrite IH. Qed.

(** C20: When no link has bandwidth zero and every tensor of every target can be covered
    by the source groups it may use, planning succeeds, and for every target, every tensor and every shard of it
    the plan names exactly one source, which has that shard; nothing else is sent. *)
Theorem comm_plan_complete (iter : gset string → list string) (clients : Clients) (restrict is_push : bool) (sources targets : Groups)
    (t0 : NetworkTopology) :
  (∀ X c, c ∈ iter X ↔ c ∈ X) → usable t0 →
  all_wf clients → (∀ c i, assoc c clients = Some i → NoDup (tensor_infos i).*1) →
  NoDup (flat_map snd targets) → (∀ c, c ∈ flat_map snd targets → is_Some (assoc c clients)) →
  (∀ g cs, (g, cs) ∈ targets → ∃ ids, restriction restrict is_push sources targets g = inr ids ∧
     ∀ c key t, c ∈ cs → (key, t) ∈ tensors clients c → coverable clients sources ids key t) →
  ∃ s', make_comm_plan_generic iter clients restrict is_push sources targets
      (mkPlanState t0 ∅ (empty_plan (if is_push then sources else targets))) = Ret tt s' ∧
    ∀ c key t, c ∈ flat_map snd targets → (key, t) ∈ tensors clients c → served clients is_push (comm_plan s') c key t.
Proof.
  intros Hiter Hu Hwf Hkeys Hnd Hin Hcov.
  assert (∃ rs, Forall2 (λ '(g, cs) '(ids, cs'), (restriction restrict is_push sources targets g = inr ids ∧
    ∀ c key t, c ∈ cs → (key, t) ∈ tensors clients c → coverable clients sources ids key t) ∧ cs' = cs) targets rs) as [rs Hrs].
  { assert (∀ l : Groups, (∀ p, p ∈ l → p ∈ targets) → ∃ rs, Forall2 (λ '(g, cs) '(ids, cs'), (restriction restrict is_push sources targets g = inr ids ∧
      ∀ c key t, c ∈ cs → (key, t) ∈ tensors clients c → coverable clients sources ids key t) ∧ cs' = cs) l rs) as H; [|by apply H].
    induction l as [|[g cs] l IH]; intros Hl; [by exists []|]. destruct (Hcov g cs) as (ids & E & Hc); [apply Hl, elem_of_cons; by left|].
    destruct IH as [rs IH]; [intros p Hp; apply Hl, elem_of_cons; by right|]. exists ((ids, cs) :: rs). by constructor. }
  assert (flat_map snd rs = flat_map snd targets) as Hflat.
  { rewrite !flat_map_snd. f_equal. clear -Hrs. induction Hrs as [|[g cs] [ids cs'] l rs [_ ->] _ IH]; [done|]. rewrite !fmap_cons. by rewrite IH. }
  assert (∀ ids cs, (ids, cs) ∈ rs → ∀ c key t, c ∈ cs → (key, t) ∈ tensors clients c → coverable clients sources ids key t) as Hcovrs.
  { intros ids cs [n Hn]%list_elem_of_lookup. destruct (Forall2_lookup_r _ _ _ _ _ Hrs Hn) as ([g cs'] & _ & (_ & H) & ->). done. }
  assert (∀ ids cs c, (ids, cs) ∈ rs → c ∈ cs → c ∈ flat_map snd targets) as Hmem.
  { intros ids cs c Hr Hc. rewrite <-Hflat. apply list_elem_of_In, in_flat_map. exists (ids, cs). split; [by apply list_elem_of_In|by apply list_elem_of_In]. }
  unfold make_comm_plan_generic. rewrite run_modify. simpl. set (s0 := with_volumes _ _).
  rewrite (run_bind _ _ s0 rs s0); [|apply restrictions_run; eapply Forall2_impl; [exact Hrs|]; intros [g cs] [ids cs'] [[? _] ?]; done].
  rewrite jobs_run by (intros ids cs c Hr Hc; eapply Hin, Hmem; eauto).
  destruct (run_jobs_ok iter Hiter clients is_push sources (jobs clients rs) s0) as (s' & E & Hserved & _); [done| | | | |].
  - apply jobs_distinct; [by rewrite Hflat|done].
  - intros j (ids & cs & c & [key t] & Hr & Hc & Ht & ->)%job_inv. by eapply Hcovrs.
  - intros j (ids & cs & c & [key t] & Hr & Hc & Ht & ->)%job_inv. split; [done|]. intros src Hsrc. simpl in *. pose proof (sources_of_subset _ _ _ _ _ Hsrc) as Hs.
    split; [eapply volumes_lookup; eauto|]. exists ∅. destruct is_push; apply empty_plan_lookup; simpl; [done|by eapply Hmem].
  - intros j c _. apply empty_plan_entry.
  - exists s'. split; [done|]. intros c key t Hc Ht. rewrite <-Hflat in Hc.
    apply list_elem_of_In, in_flat_map in Hc as ([ids cs] & Hr%list_elem_of_In & Hc%list_elem_of_In).
    apply (Hserved (ids, c, (key, t))). by eapply job_elem.
Qed.

(** Planning one tensor of one target succeeds exactly when the allowed sources
    have the tensor and together all of its needed shards, and then every shard
    comes from exactly one source that has it; otherwise it raises
    [AssertionError]. *)
Theorem tensor_plan_exact (iter : gset string → list string) (clients : Clients) (is_push : bool) (sources : Groups) (ids : list Z)
    (target key : string) (t : NIXLTensorInfo) (s : PlanState) :
  (∀ X c, c ∈ iter X ↔ c ∈ X) → all_wf clients →
  ready is_push target (sources_of clients sources ids key) s → (∀ c, entry is_push (comm_plan s) c target key = None) →
  (coverable clients sources ids key t →
     ∃ s', plan_tensor iter clients is_push sources ids target (key, t) s = Ret tt s' ∧ served clients is_push (comm_plan s') target key t) ∧
  (¬ coverable clients sources ids key t →
     ∃ s', plan_tensor iter clients is_push sources ids target (key, t) s = Raise AssertionError s').
Proof.
  intros Hiter Hwf Hready Hnone. destruct (plan_tensor_run iter Hiter clients is_push sources ids target key t s Hwf Hready) as [Hyes Hno].
  split; [|done]. intros Hc. destruct (Hyes Hc) as (s' & give & E & Ha). exists s'. split; [done|]. by eapply assigns_served.
Qed.

(** With group restriction, sources and targets numbered from zero are paired
    round robin: every target group gets a source group, and every source group
    serves a target group. *)
Theorem round_robin_pairs_all (sources targets : Groups) :
  sources ≠ [] → targets ≠ [] →
  sources.*1 ≡ₚ zrange 0 (Z.of_nat (length sources)) → targets.*1 ≡ₚ zrange 0 (Z.of_nat (length targets)) →
  (∀ g, g ∈ targets.*1 → ∃ ids, restriction true true sources targets g = inr ids ∧ ids ≠ [] ∧ ids ⊆+ sources.*1) ∧
  (∀ s, s ∈ sources.*1 → ∃ g ids, g ∈ targets.*1 ∧ restriction true true sources targets g = inr ids ∧ s ∈ ids).
Proof.
  intros Hs Ht Ps Pt. set (n := Z.of_nat (length sources)) in *. set (m := Z.of_nat (length targets)) in *.
  assert (0 < n) as Hn by (destruct sources; [done|unfold n; simpl; lia]). assert (0 < m) as Hm by (destruct targets; [done|unfold m; simpl; lia]).
  assert (∀ s, s ∈ sources.*1 ↔ 0 ≤ s < n) as Es by (intros s; by rewrite Ps, elem_of_zrange).
  assert (∀ g, g ∈ targets.*1 ↔ 0 ≤ g < m) as Et by (intros g; by rewrite Pt, elem_of_zrange).
  assert (∀ g s, s ∈ sources.*1 → s mod m = g mod n → ∃ ids, restriction true true sources targets g = inr ids ∧ s ∈ ids ∧ ids ⊆+ sources.*1) as Hr.
  { intros g s Hin E. unfold restriction. simpl. fold m n. set (ids := filter _ _). assert (s ∈ ids) as Hsi by (apply list_elem_of_filter; done).
    exists ids. split; [by destruct ids; [apply not_elem_of_nil in Hsi|]|]. split; [done|]. apply sublist_submseteq, sublist_filter. }
  split.
  - intros g Hg%Et. destruct (Hr g (g mod n)) as (ids & E & Hin & Hsub); [apply Es, Z.mod_pos_bound; lia| |].
    + destruct (decide (n ≤ m)); [apply Z.mod_small; pose proof (Z.mod_pos_bound g n); lia|]. rewrite (Z.mod_small g n) by lia. apply Z.mod_small. lia.
    + exists ids. split_and!; [done| |done]. intros ->. by apply not_elem_of_nil in Hin.
  - intros s Hin. pose proof (proj1 (Es s) Hin) as Hsb. exists (s mod m).
    destruct (Hr (s mod m) s Hin) as (ids & E & Hsi & _); [|exists ids; split_and!; [|done..]; apply Et, Z.mod_pos_bound; lia].
    destruct (decide (n ≤ m)); [rewrite (Z.mod_small s m) by lia; symmetry; apply Z.mod_small; lia|].
    symmetry. apply Z.mod_small. pose proof (Z.mod_pos_bound s m). lia.
Qed.

(** The plan seen from the parameter server is the transposed plan. *)
Lemma ps_write_plan_transposed p ps key c : get_ps_write_plan p ps key !! c = get_push_plan p c key !! ps.
Proof.
  unfold get_ps_write_plan, get_push_plan, transpose. rewrite lookup_omap. destruct (push_to_ps_plan p !! c) as [row|]; simpl; [|by rewrite !lookup_empty].
  destruct (row !! key); simpl; [done|by rewrite lookup_empty].
Qed.

(** ** Concrete plans *)

(** A client that moves after its link was looked up keeps the old link. *)
Example moved_client_keeps_link :
  let t := final ((register_client "a" "n0" 0 ;; register_client "b" "n0" 1 ;; get_link_type "a" "b" ;; register_client "b" "n1" 1) (mkTopology ∅ ∅)) in
  position "b" t = ("n1", 1) ∧ result (get_link_type "a" "b" t) = inr NVLINK.
Proof. by vm_compute. Qed.

Definition demo_tensor (l : list Shard) : NIXLTensorInfo := mkTensor l (length l) ((λ _, 4) <$> l).
Definition demo_clients : Clients :=
  [("ps0", mkClient "n0" 0 PS_FOR_PULL [("w", demo_tensor [[0]; [1]])] 0);
   ("ps1", mkClient "n1" 0 PS_FOR_PULL [("w", demo_tensor [[1]; [2]])] 1);
   ("r0", mkClient "n0" 1 PULL_SIDE [("w", demo_tensor [[0]; [1]; [2]])] 0)].
Definition demo_sources : Groups := [(0, ["ps0"]); (1, ["ps1"])].
Definition demo_targets : Groups := [(0, ["r0"])].

Example demo_plan :
  match make_comm_plan elements demo_clients false (mkTopology ∅ ∅) with
  | Ret p _ => get_rollout_pull_plan p "r0" "w" = {["ps0" := [[0]; [1]]; "ps1" := [[2]]]}
  | Raise _ _ => False
  end.
Proof. by vm_compute. Qed.

Lemma demo_wf : all_wf demo_clients.
Proof.
  intros c key t. unfold tensor_of, demo_clients. simpl. repeat case_decide; simpl; try done; repeat case_decide; intros [= <-]; by split.
Qed.

Lemma demo_coverable : coverable demo_clients demo_sources [0; 1] "w" (demo_tensor [[0]; [1]; [2]]).
Proof.
  split; [by vm_compute|]. intros x Hx. simpl in Hx. rewrite !elem_of_cons in Hx. destruct Hx as [->|[->|[->|[]%not_elem_of_nil]]].
  - exists "ps0", (demo_tensor [[0]; [1]]). split; [|split; [done|apply elem_of_cons; by left]].
    unfold sources_of. apply elem_of_list_to_set, list_elem_of_filter. split; [by eexists|]. apply elem_of_cons. by left.
  - exists "ps0", (demo_tensor [[0]; [1]]). split; [|split; [done|apply elem_of_cons; right; apply elem_of_cons; by left]].
    unfold sources_of. apply elem_of_list_to_set, list_elem_of_filter. split; [by eexists|]. apply elem_of_cons. by left.
  - exists "ps1", (demo_tensor [[1]; [2]]). split; [|split; [done|apply elem_of_cons; right; apply elem_of_cons; by left]].
    unfold sources_of. apply elem_of_list_to_set, list_elem_of_filter. split; [by eexists|]. apply elem_of_cons. right. apply elem_of_cons. by left.
Qed.

Lemma comm_plan_complete_witness :
  ∃ s', make_comm_plan_generic elements demo_clients false false demo_sources demo_targets
      (mkPlanState (mkTopology ∅ ∅) ∅ (empty_plan demo_targets)) = Ret tt s' ∧
    served demo_clients false (comm_plan s') "r0" "w" (demo_tensor [[0]; [1]; [2]]).
Proof.
  destruct (comm_plan_complete elements demo_clients false false demo_sources demo_targets (mkTopology ∅ ∅)) as (s' & E & Hs).
  - intros X c. apply elem_of_elements.
  - intros k l H. discriminate H.
  - exact demo_wf.
  - intros c i. unfold demo_clients. simpl. repeat case_decide; intros [= <-]; apply NoDup_singleton.
  - apply NoDup_singleton.
  - intros c Hc. apply list_elem_of_singleton in Hc as ->. eexists. reflexivity.
  - intros g cs Hin. apply list_elem_of_singleton in Hin as [= -> ->]. exists [0; 1]. split; [reflexivity|].
    intros c key t Hc Ht. apply list_elem_of_singleton in Hc as ->. apply list_elem_of_singleton in Ht as [= -> ->]. exact demo_coverable.
  - exists s'. split; [exact E|]. apply Hs; apply list_elem_of_singleton; reflexivity.
Defined.

Lemma tensor_plan_exact_witness :
  ∃ s', plan_tensor elements demo_clients false demo_sources [0; 1] "r0" ("w", demo_tensor [[0]; [1]; [2]])
      (mkPlanState (mkTopology ∅ ∅) {["ps0" := fzero; "ps1" := fzero]} {["r0" := ∅]}) = Ret tt s' ∧
    served demo_clients false (comm_plan s') "r0" "w" (demo_tensor [[0]; [1]; [2]]).
Proof.
  apply (tensor_plan_exact elements demo_clients false demo_sources [0; 1] "r0" "w" (demo_tensor [[0]; [1]; [2]])).
  - intros X c. apply elem_of_elements.
  - exact demo_wf.
  - split; [intros k l H; discriminate H|].
    intros c Hc%sources_of_subset. simpl in Hc. apply elem_of_cons in Hc as [->|Hc]; [split; eexists; reflexivity|].
    apply list_elem_of_singleton in Hc as ->. split; eexists; reflexivity.
  - intros c. reflexivity.
  - exact demo_coverable.
Defined.

Lemma round_robin_pairs_all_witness :
  ∃ ids, restriction true true [(0, ["a"]); (1, ["b"]); (2, ["c"])] [(0, ["x"]); (1, ["y"])] 1 = inr ids ∧ ids ≠ [] ∧ ids ⊆+ [0; 1; 2].
Proof.
  destruct (round_robin_pairs_all [(0, ["a"]); (1, ["b"]); (2, ["c"])] [(0, ["x"]); (1, ["y"])]) as [H _];
    [discriminate|discriminate|reflexivity|reflexivity|].
  apply (H 1). apply elem_of_cons. right. apply elem_of_cons. left. reflexivity.
Defined.
