(* ===== verification/MetaServer.v ===== *)
(** * The NIXL metadata server

    psrl/utils/nixl/server.py: [NIXLMetaServer] collects the shardings, descriptors
    and temporary mappings of all agents, brings the shardings of every tensor to a
    common mesh, and tells each agent about the clients it needs.  What the agents
    send arrives in polls, a list of (agent, messages); a message that cannot be
    unpickled is [None].  Each sharding object belongs to one client and tensor. *)

From S2P Require Import Prelude.
From S2P Require Import PyFloat.
From S2P Require Import PyData.
From S2P Require Import Sharding.
From S2P Require Import CommPlan.

(** ** Collecting messages *)

Abbreviation Connected := (list (string * list string)).

Definition add_client (agent client : string) (conn : Connected) : Connected :=
  let cs := default [] (assoc agent conn) in
  if bool_decide (client ∈ cs) then dict_set agent cs conn else dict_set agent (cs ++ [client]) conn.

(** One poll: for each agent the messages it sent, each a dictionary by client. *)
Abbreviation Poll V := (list (string * list (option (list (string * V))))).

Record Inbox V := mkInbox {
  values : list (string * V);
  connected_clients : Connected;
  already_recved_agents : gset string;
}.
Arguments mkInbox {V} values connected_clients already_recved_agents.
Arguments values {V} _.
Arguments connected_clients {V} _.
Arguments already_recved_agents {V} _.

Definition receive_entry {V} (agent : string) (b : Inbox V) (e : string * V) : Inbox V :=
  mkInbox (dict_set e.1 e.2 (values b)) (add_client agent e.1 (connected_clients b)) ({[agent]} ∪ already_recved_agents b).

Definition receive_message {V} (agent : string) (b : Inbox V) (m : option (list (string * V))) : Inbox V :=
  match m with Some l => foldl (receive_entry agent) b l | None => b end.

Definition receive_poll {V} (b : Inbox V) (p : Poll V) : Inbox V :=
  foldl (λ b '(agent, ms), foldl (receive_message agent) b ms) b p.

(** The waiting loop; the list ends when the timeout strikes.  [None] is
    [TimeoutError]. *)
Fixpoint wait_for {V} (expected_agents : Z) (polls : list (Poll V)) (b : Inbox V) : option (Inbox V) :=
  if bool_decide (expected_agents ≤ Z.of_nat (size (already_recved_agents b))) then Some b
  else match polls with [] => None | p :: polls => wait_for expected_agents polls (receive_poll b p) end.

(** [wait_for_client_shardings], [wait_for_client_infos] and
    [wait_for_client_temp_mappings] start from what was stored before and no
    agent counted. *)
Definition wait_for_all {V} (expected_agents : Z) (polls : list (Poll V)) (stored : list (string * V)) (conn : Connected) :=
  wait_for expected_agents polls (mkInbox stored conn ∅).

(** ** A common mesh for every tensor *)

Abbreviation ShardingDicts := (list (string * gmap string NIXLSharding)).

Definition refactor_client (f : Mesh) (row : string * NIXLSharding) : Res (string * NIXLSharding) :=
  match refactor_based_on_finer_shard_mesh f row.2 with Ret _ s => inr (row.1, s) | Raise e _ => inl e end.

(** Clients without the tensor get the empty sharding. *)
Definition key_shardings (key : string) (dicts : ShardingDicts) : list (string * NIXLSharding) :=
  (λ p : string * gmap string NIXLSharding, (p.1, default empty_sharding (p.2 !! key))) <$> dicts.

Definition unify_key (dicts : ShardingDicts) (key : string) : Res (string * list (string * NIXLSharding)) :=
  let ss := key_shardings key dicts in
  match find_finest_shard_mesh ((λ p : string * NIXLSharding, shard_mesh p.2) <$> ss) with
  | inl e => inl e
  | inr f => match map_res (refactor_client f) ss with inl e => inl e | inr ss' => inr (key, ss') end
  end.

Definition all_keys (dicts : ShardingDicts) : gset string := union_list (dom <$> dicts.*2).

(** [iter] is the order in which the set of keys is visited; the result is stored by
    client. *)
Definition make_unified_sharding (iter : gset string → list string) (recved : bool) (unified dicts : ShardingDicts) : Res ShardingDicts :=
  if negb recved then inl AssertionError
  else match unified with
  | _ :: _ => inl AssertionError
  | [] =>
      match map_res (unify_key dicts) (iter (all_keys dicts)) with
      | inl e => inl e
      | inr rows =>
          inr (match rows with
               | [] => []
               | _ => (λ p : string * gmap string NIXLSharding,
                   (p.1, list_to_map (omap (λ '(k, l), pair k <$> assoc p.1 l) rows))) <$> dicts
               end)
      end
  end.

(** ** Which clients an agent needs *)

Definition type_needs (t : NIXLClientType) : option NIXLClientType :=
  match t with PUSH_SIDE => Some PS_FOR_PUSH | PULL_SIDE => Some PS_FOR_PULL | _ => None end.

Definition is_ps (t : NIXLClientType) : bool := bool_decide (t = PS_FOR_PUSH ∨ t = PS_FOR_PULL).

Definition get_relevant_client_names_for_agent (broadcast_init_enabled : bool) (conn : Connected) (infos : Clients) (agent : string) : Res (gset string) :=
  match assoc agent conn with
  | None => inl KeyError
  | Some mine =>
      let my_types := omap (λ c, client_type <$> assoc c infos) mine in
      let needed := omap type_needs my_types in
      let named (P : NIXLClientType → bool) : gset string := list_to_set (filter (λ p, P (client_type p.2) = true) infos).*1 in
      let relevant := list_to_set mine ∪ named (λ t, bool_decide (t ∈ needed)) in
      inr (if broadcast_init_enabled && existsb is_ps my_types then relevant ∪ named is_ps else relevant)
  end.

(** ** Collection *)

Lemma receive_entry_connected {V} agent (b : Inbox V) e a c :
  c ∈ default [] (assoc a (connected_clients (receive_entry agent b e))) ↔
  c ∈ default [] (assoc a (connected_clients b)) ∨ (a = agent ∧ c = e.1).
Proof.
  unfold receive_entry, add_client. simpl. case_bool_decide as Hin; rewrite assoc_dict_set; case_decide; subst; simpl; [naive_solver|naive_solver| |naive_solver].
  rewrite elem_of_app, list_elem_of_singleton. naive_solver.
Qed.

(** What is collected names every stored client under the agent that sent it, and
    every counted agent has a client. *)
Record inbox_ok {V} (b : Inbox V) : Prop := {
  ib_agents : ∀ a, a ∈ already_recved_agents b → ∃ c, c ∈ default [] (assoc a (connected_clients b));
  ib_once : ∀ a, NoDup (default [] (assoc a (connected_clients b)));
}.

Lemma receive_entry_ok {V} agent (b : Inbox V) e : inbox_ok b → inbox_ok (receive_entry agent b e).
Proof.
  intros [Ha Ho]. split.
  - intros a Hin. simpl in Hin. apply elem_of_union in Hin as [->%elem_of_singleton|Hin]; [exists e.1; apply receive_entry_connected; by right|].
    destruct (Ha a Hin) as [c Hc]. exists c. apply receive_entry_connected. by left.
  - intros a. unfold receive_entry, add_client. simpl. case_bool_decide as Hin; rewrite assoc_dict_set; case_decide; subst; simpl; [apply Ho|apply Ho| |apply Ho].
    apply NoDup_app. split_and!; [apply Ho| |apply NoDup_singleton]. intros x Hx ->%list_elem_of_singleton. done.
Qed.

Lemma receive_poll_ok {V} (b : Inbox V) p : inbox_ok b → inbox_ok (receive_poll b p).
Proof.
  unfold receive_poll. revert b. induction p as [|[agent ms] p IH]; intros b Hb; simpl; [done|]. apply IH. clear IH.
  revert b Hb. induction ms as [|m ms IH]; intros b Hb; simpl; [done|]. apply IH. clear IH. destruct m as [l|]; [|done]. simpl.
  revert b Hb. induction l as [|e l IH]; intros b Hb; simpl; [done|]. apply IH. by apply receive_entry_ok.
Qed.

(** The wait ends only when at least the expected number of agents have sent
    something, and lists no client twice for an agent. *)
Lemma wait_for_complete {V} expected (polls : list (Poll V)) b b' :
  inbox_ok b → wait_for expected polls b = Some b' → inbox_ok b' ∧ expected ≤ Z.of_nat (size (already_recved_agents b')).
Proof.
  revert b. induction polls as [|p polls IH]; intros b Hb; simpl; case_bool_decide; try done.
  - by intros [= <-].
  - by intros [= <-].
  - apply IH. by apply receive_poll_ok.
Qed.

(** ** Unification *)

(** A sharding with at most one shard, as a client with one rank's part holds it. *)
Definition one_shard (s : NIXLSharding) : Prop :=
  client_mesh (shard_mesh s) ∧ (shard_indices s = [] ∨ ∃ idx, shard_indices s = [idx] ∧ in_mesh (shard_mesh s) idx).

(** The refined sharding holds what the old one held. *)
Definition same_region (f : Mesh) (s s' : NIXLSharding) : Prop :=
  shard_mesh s' = f ∧ ∀ j, j ∈ shard_indices s' ↔ in_mesh f j ∧ ∃ idx, idx ∈ shard_indices s ∧ inside (shard_mesh s) f idx j.

Lemma refactor_one_shard f s :
  one_shard s → wf_mesh f → compatible (shard_mesh s) f →
  ∃ s', refactor_based_on_finer_shard_mesh f s = Ret tt s' ∧ same_region f s s'.
Proof.
  intros [(Hm & _) Hidx] Hf Hc. destruct s as [m local indices]. simpl in *. destruct Hidx as [->|(idx & -> & Hin)].
  - eexists. split.
    + unfold refactor_based_on_finer_shard_mesh. mrun. simpl. unfold refined_indices. rewrite validate_ok by done.
      destruct (scaling_factors_ok m f (wm_dims m Hm) (wm_dims f Hf) Hc) as (fs & -> & _). done.
    + split; [done|]. intros j. simpl. split; [intros []%not_elem_of_nil|]. intros (_ & idx & []%not_elem_of_nil & _).
  - eexists. split; [by apply refine_one_shard|]. split; [done|]. intros j. simpl. rewrite expand_exact by done.
    split; [intros [? ?]; split; [done|]; exists idx; split; [by apply list_elem_of_singleton|done]|].
    intros (? & idx' & ->%list_elem_of_singleton & ?). done.
Qed.

Lemma empty_one_shard : one_shard empty_sharding.
Proof.
  split; [|by left]. split; [split|split; [done|]]; simpl.
  - apply NoDup_singleton.
  - intros d c. case_decide; [intros [= <-]; lia|done].
  - intros d c. case_decide; [intros _; lia|done].
Qed.

Lemma unify_key_ok dicts key :
  dicts ≠ [] → (∀ c d s, (c, d) ∈ dicts → d !! key = Some s → one_shard s) →
  ∃ f ss', unify_key dicts key = inr (key, ss') ∧ wf_mesh f ∧
    Forall2 (λ row row' : string * NIXLSharding, row'.1 = row.1 ∧ same_region f row.2 row'.2) (key_shardings key dicts) ss'.
Proof.
  intros Hne Hone. unfold unify_key.
  assert (∀ row, row ∈ key_shardings key dicts → one_shard row.2) as Hall.
  { intros row ([c d] & -> & Hin)%list_elem_of_fmap. simpl. destruct (d !! key) as [s|] eqn:E; [by eapply Hone|apply empty_one_shard]. }
  set (ss := key_shardings key dicts) in *. set (meshes := (λ p : string * NIXLSharding, shard_mesh p.2) <$> ss).
  destruct (finest_mesh_least meshes) as (f & -> & Hf & Hc & _).
  { unfold meshes, ss, key_shardings. by destruct dicts. }
  { apply Forall_forall. intros m (row & -> & Hrow)%list_elem_of_fmap. by apply (Hall row). }
  destruct (map_res_total (refactor_client f) (λ row row', row'.1 = row.1 ∧ same_region f row.2 row'.2) ss) as (ss' & -> & H2); [|by exists f, ss'].
  intros row Hrow. destruct (refactor_one_shard f row.2 (Hall row Hrow) Hf) as (s' & E & Hs'); [apply Hc, list_elem_of_fmap; by exists row|].
  exists (row.1, s'). unfold refactor_client. rewrite E. done.
Qed.

Lemma omap_keys_sublist (c : string) (rows : list (string * list (string * NIXLSharding))) :
  (omap (λ '(k, l), pair k <$> assoc c l) rows).*1 `sublist_of` rows.*1.
Proof.
  induction rows as [|[k l] rows IH]; [constructor|]. simpl. destruct (assoc c l); simpl; by constructor.
Qed.

(** When every client holds at most one shard of each tensor, unification
    succeeds for any number of clients and tensors: all clients of a tensor end with
    the same mesh, and each holds exactly the shards of that mesh that lie in what
    it held before. *)
Theorem unified_sharding_exact (iter : gset string → list string) (dicts : ShardingDicts) :
  (∀ X k, k ∈ iter X ↔ k ∈ X) → (∀ X, NoDup (iter X)) → NoDup dicts.*1 →
  (∀ c d key s, (c, d) ∈ dicts → d !! key = Some s → one_shard s) →
  ∃ unified, make_unified_sharding iter true [] dicts = inr unified ∧
    ∀ key, key ∈ all_keys dicts → ∃ f, wf_mesh f ∧ ∀ c d, (c, d) ∈ dicts →
      ∃ m s', (c, m) ∈ unified ∧ m !! key = Some s' ∧ same_region f (default empty_sharding (d !! key)) s'.
Proof.
  intros Hiter Hnd Hcl Hone.
  assert (∀ key, key ∈ all_keys dicts → dicts ≠ []) as Hne by (intros key Hk ->; unfold all_keys in Hk; simpl in Hk; by apply elem_of_empty in Hk).
  destruct (map_res_total (unify_key dicts) (λ key row, row.1 = key ∧ ∃ f, wf_mesh f ∧
    Forall2 (λ r r' : string * NIXLSharding, r'.1 = r.1 ∧ same_region f r.2 r'.2) (key_shardings key dicts) row.2) (iter (all_keys dicts)))
    as (rows & E & Hrows).
  { intros key Hk%Hiter. destruct (unify_key_ok dicts key (Hne key Hk)) as (f & ss' & E & Hf & H2); [by intros; eapply Hone|].
    exists (key, ss'). split; [done|]. split; [done|]. by exists f. }
  unfold make_unified_sharding. simpl. rewrite E. eexists. split; [done|]. intros key Hk%Hiter.
  apply list_elem_of_lookup in Hk as [n Hn]. destruct (Forall2_lookup_l _ _ _ _ _ Hrows Hn) as ([k ss'] & Hrow & Ek & f & Hf & H2). simpl in *. subst k.
  exists f. split; [done|]. intros c d Hin. apply list_elem_of_lookup in Hin as Hin'. destruct Hin' as [i Hi].
  assert (key_shardings key dicts !! i = Some (c, default empty_sharding (d !! key))) as Hks by (unfold key_shardings; by rewrite list_lookup_fmap, Hi).
  destruct (Forall2_lookup_l _ _ _ _ _ H2 Hks) as ([c' s'] & Hs' & Ec & Hsame). simpl in *. subst c'.
  assert (rows.*1 = iter (all_keys dicts)) as Hkeys by (clear -Hrows; induction Hrows as [|x y l k [? _] _ IH]; [done|]; rewrite fmap_cons, IH; by f_equal).
  assert (ss'.*1 = dicts.*1) as Hss.
  { trans (key_shardings key dicts).*1; [|unfold key_shardings; by rewrite <-list_fmap_compose].
    clear -H2. induction H2 as [|x y l k [? _] _ IH]; [done|]. rewrite !fmap_cons, IH. by f_equal. }
  assert (assoc c ss' = Some s') as Has by (apply assoc_elem; [by rewrite Hss|by eapply list_elem_of_lookup_2]).
  eexists _, s'. split; [|split; [|exact Hsame]].
  - destruct rows as [|r0 rows']; [done|]. apply list_elem_of_fmap. exists (c, d). split; [reflexivity|done].
  - apply elem_of_list_to_map; [eapply sublist_NoDup; [|apply omap_keys_sublist]; by rewrite Hkeys|].
    apply list_elem_of_omap. exists (key, ss'). split; [by eapply list_elem_of_lookup_2|]. simpl. by rewrite Has.
Qed.

(** ** Concrete servers *)

Definition demo_dicts : ShardingDicts :=
  [("t0", {["w" := mkSharding [(0, 2)] [(0, 1)] [[0]]]}); ("t1", {["w" := mkSharding [(0, 2)] [(0, 1)] [[1]]]});
   ("r0", {["w" := mkSharding [(1, 3)] [(1, 1)] [[2]]]})].

Lemma unified_sharding_exact_witness :
  ∃ unified, make_unified_sharding elements true [] demo_dicts = inr unified ∧
    ∃ f m s', (("r0" : string), m) ∈ unified ∧ m !! ("w" : string) = Some s' ∧ same_region f (mkSharding [(1, 3)] [(1, 1)] [[2]]) s'.
Proof.
  destruct (unified_sharding_exact elements demo_dicts) as (unified & E & Hu).
  - intros X k. apply elem_of_elements.
  - intros X. apply NoDup_elements.
  - apply (bool_decide_eq_true_1 (NoDup demo_dicts.*1)). vm_compute. reflexivity.
  - assert (∀ d c x, 0 ≤ d → 0 < c → 0 ≤ x < c → one_shard (mkSharding [(d, c)] [(d, 1)] [[x]])) as H.
    { intros d c x Hd Hc Hx. split; [split; [split|split; [discriminate|]]|right; exists [x]; split; [reflexivity|constructor; [exact Hx|constructor]]]; simpl.
      - apply NoDup_singleton.
      - intros d' c'. case_decide; intros [= <-]; exact Hc.
      - intros d' c'. case_decide; intros [= <-]; subst; exact Hd. }
    intros c d key s Hin Hk. unfold demo_dicts in Hin. rewrite !elem_of_cons in Hin.
    destruct Hin as [[= -> ->]|[[= -> ->]|[[= -> ->]|Hin%not_elem_of_nil]]]; [| | |destruct Hin];
      apply lookup_singleton_Some in Hk as [_ <-]; apply H; lia.
  - exists unified. split; [exact E|]. destruct (Hu "w") as (f & _ & Hf); [apply (bool_decide_eq_true_1 (("w" : string) ∈ all_keys demo_dicts)); vm_compute; reflexivity|].
    destruct (Hf "r0" {["w" := mkSharding [(1, 3)] [(1, 1)] [[2]]]}) as (m & s' & Hm & Hs & Hsame).
    + unfold demo_dicts. apply elem_of_cons. right. apply elem_of_cons. right. apply elem_of_cons. left. reflexivity.
    + exists f, m, s'. split; [exact Hm|]. split; [exact Hs|]. exact Hsame.
Defined.

(** A client that holds both halves of dimension 1 cannot be brought to a mesh that
    also splits dimension 0: the server fails. *)
Example two_shard_client_breaks_unification :
  make_unified_sharding elements true []
    [("t0", {["w" := mkSharding [(0, 2)] [(0, 1)] [[0]]]}); ("r0", {["w" := mkSharding [(1, 2)] [(1, 2)] [[0]; [1]]]})] = inl ValueError.
Proof. by vm_compute. Qed.
