(* ===== verification/RolloutSync.v ===== *)
(** * Version tracking and weight synchronisation of the rollout coordinator

    [RolloutCoordinator] ([psrl/workers/gen/rollout_coordination/coordinator.py])
    keeps the model version of every rollout instance, the version the gateway is
    told, and the version of the parameter server.  The greedy and the
    status-based loop decide which instances to synchronise; [sync_with_ps]
    pauses their replicas, announces the new version and lets them pull it, and
    [_finish_gateway_sync] completes the synchronisation in the background
    ([sync_and_migrate/]).

    Every method runs on one event loop: between two awaits nothing else happens,
    and at an await any other coroutine may run.  A method is one definition with
    a state transformer for each of its awaits, [env], standing for what happened
    meanwhile. *)

From S2P Require Import Prelude.
From S2P Require Import PyFloat.
From S2P Require Import PyData.
From S2P Require Import StalenessBuffer.
From S2P Require Import ClusterTopology.
From S2P Require Import CommandLoop.

#[local] Open Scope Z_scope.

(** ** State *)

Record EngineStats := mkStats {
  stats_version : Z;
  num_waiting : Z;
  num_running : Z;
  generation_throughput : float;
  kv_cache_usage : float;
}.
Definition default_stats (version : Z) : EngineStats := mkStats version 0 0 fzero fzero.
Definition get_waiting_and_running_queue_size (s : EngineStats) : Z := num_waiting s + num_running s.

Inductive ServerCall :=
  | pause_for_sync | wait_for_requests_to_drain | pull_model_for_sync (version : Z)
  | resume_after_sync | fail_sync | pull_model.

(** What the coordinator sends to the gateway and to the servers. *)
Inductive Post :=
  | Routing (running : bool)
  | WeightVersions (updates : list (RolloutInstanceId * Z))
  | PauseWorkers (ids : list RolloutInstanceId)
  | AbortCommand (ids : list RolloutInstanceId)
  | Server (replica : string) (c : ServerCall).

Record RolloutCoordinator := mkRollout {
  instance_ids : gset RolloutInstanceId;
  server_handles : gset string;
  rollout_replica_ids : gset string;
  validate_replica_ids : gset string;
  instance_to_model_version : gmap RolloutInstanceId Z;
  instance_to_latest_stale_model_version : gmap RolloutInstanceId Z;
  instance_to_version_after_sync : gmap RolloutInstanceId Z;
  ps_model_version : Z;
  ready_buffers : gset Z;
  instance_to_engine_status : list (RolloutInstanceId * EngineStats);
  model_sync_tasks : gset nat;
  replica_sync_tasks : gmap string nat;
  posts : list Post;
}.

Definition with_replicas ids handles rollout validate c := mkRollout ids handles rollout validate (instance_to_model_version c) (instance_to_latest_stale_model_version c) (instance_to_version_after_sync c) (ps_model_version c) (ready_buffers c) (instance_to_engine_status c) (model_sync_tasks c) (replica_sync_tasks c) (posts c).
Definition with_model_version v c := mkRollout (instance_ids c) (server_handles c) (rollout_replica_ids c) (validate_replica_ids c) v (instance_to_latest_stale_model_version c) (instance_to_version_after_sync c) (ps_model_version c) (ready_buffers c) (instance_to_engine_status c) (model_sync_tasks c) (replica_sync_tasks c) (posts c).
Definition with_stale v c := mkRollout (instance_ids c) (server_handles c) (rollout_replica_ids c) (validate_replica_ids c) (instance_to_model_version c) v (instance_to_version_after_sync c) (ps_model_version c) (ready_buffers c) (instance_to_engine_status c) (model_sync_tasks c) (replica_sync_tasks c) (posts c).
Definition with_after_sync v c := mkRollout (instance_ids c) (server_handles c) (rollout_replica_ids c) (validate_replica_ids c) (instance_to_model_version c) (instance_to_latest_stale_model_version c) v (ps_model_version c) (ready_buffers c) (instance_to_engine_status c) (model_sync_tasks c) (replica_sync_tasks c) (posts c).
Definition with_ps v r c := mkRollout (instance_ids c) (server_handles c) (rollout_replica_ids c) (validate_replica_ids c) (instance_to_model_version c) (instance_to_latest_stale_model_version c) (instance_to_version_after_sync c) v r (instance_to_engine_status c) (model_sync_tasks c) (replica_sync_tasks c) (posts c).
Definition with_engine v c := mkRollout (instance_ids c) (server_handles c) (rollout_replica_ids c) (validate_replica_ids c) (instance_to_model_version c) (instance_to_latest_stale_model_version c) (instance_to_version_after_sync c) (ps_model_version c) (ready_buffers c) v (model_sync_tasks c) (replica_sync_tasks c) (posts c).
Definition with_tasks t r c := mkRollout (instance_ids c) (server_handles c) (rollout_replica_ids c) (validate_replica_ids c) (instance_to_model_version c) (instance_to_latest_stale_model_version c) (instance_to_version_after_sync c) (ps_model_version c) (ready_buffers c) (instance_to_engine_status c) t r (posts c).
Definition with_posts v c := mkRollout (instance_ids c) (server_handles c) (rollout_replica_ids c) (validate_replica_ids c) (instance_to_model_version c) (instance_to_latest_stale_model_version c) (instance_to_version_after_sync c) (ps_model_version c) (ready_buffers c) (instance_to_engine_status c) (model_sync_tasks c) (replica_sync_tasks c) v.

Definition new_rollout : RolloutCoordinator := mkRollout ∅ ∅ ∅ ∅ ∅ ∅ ∅ 0 ∅ [] ∅ ∅ [].

Abbreviation Co := (M RolloutCoordinator).

Definition post (p : Post) : Co unit := modify (λ c, with_posts (posts c ++ [p]) c).

(** The state another coroutine leaves when this one continues. *)
Definition await (env : RolloutCoordinator → RolloutCoordinator) : Co unit := modify env.

(** [try: m except Exception: h; raise] *)
Definition or_quarantine {A} (m : Co A) (h : Co unit) : Co A := λ c,
  match m c with Ret a c' => Ret a c' | Raise e c' => (h ;; raise e) c' end.

(** ** Registration and notifications *)

Definition set_engine_version (i : RolloutInstanceId) (v : Z) (d : list (RolloutInstanceId * EngineStats)) :=
  match assoc i d with
  | Some s => dict_set i (mkStats v (num_waiting s) (num_running s) (generation_throughput s) (kv_cache_usage s)) d
  | None => d
  end.

Definition add_worker (replica : string) (dp_size : Z) (is_validate : bool) (version : Z) : Co unit :=
  let ids := (λ k, (replica, k)) <$> zrange 0 dp_size in
  modify (λ c, with_replicas (instance_ids c ∪ list_to_set ids) ({[replica]} ∪ server_handles c)
    (if is_validate then rollout_replica_ids c else {[replica]} ∪ rollout_replica_ids c)
    (if is_validate then {[replica]} ∪ validate_replica_ids c else validate_replica_ids c) c) ;;
  for_each ids (λ i,
    modify (λ c, with_model_version (<[i := version]> (instance_to_model_version c)) c) ;;
    modify (λ c, with_after_sync (<[i := version]> (instance_to_version_after_sync c)) c) ;;
    modify (λ c, with_engine (dict_set i (default_stats version) (instance_to_engine_status c)) c)).

Definition set_ps_model_version (version : Z) : Co unit :=
  modify (λ c, with_ps version (ready_buffers c) c) ;;
  assert (bool_decide (0 < version)) ;;
  c ← gets id;
  if bool_decide (ready_buffers c = ∅) then mret tt
  else
    assert (bool_decide (version - 1 ∈ ready_buffers c)) ;;
    modify (λ c, with_ps version (ready_buffers c ∖ {[version - 1]}) c).

Definition init_ps_model_version (version : Z) : Co unit := modify (λ c, with_ps version (ready_buffers c) c).

Definition set_rollout_instance_model_version (i : RolloutInstanceId) (v : Z) : Co unit :=
  modify (λ c, with_model_version (<[i := v]> (instance_to_model_version c)) c) ;;
  modify (λ c, with_engine (set_engine_version i v (instance_to_engine_status c)) c).

Definition update_ready_buffer (b : Z) : Co unit := modify (λ c, with_ps (ps_model_version c) ({[b]} ∪ ready_buffers c) c).

(** ** Synchronisation *)

Definition expand_replica_instance_ids (ids : list RolloutInstanceId) (c : RolloutCoordinator) : list RolloutInstanceId :=
  sort_lt id_ltb (filter (λ i, i.1 ∈ ids.*1) (elements (instance_ids c))).

Definition replicas_of (ids : list RolloutInstanceId) : list string :=
  sort_lt String.ltb (elements (list_to_set ids.*1 : gset string)).

Definition build_weight_version_updates (ids : list RolloutInstanceId) (v : Z) : list (RolloutInstanceId * Z) := (λ i, (i, v)) <$> ids.

(** The gateway's answer: how many updates it rejected and applied; [None] when
    the request fails. *)
Definition publish_weight_version_updates (updates : list (RolloutInstanceId * Z)) (reply : option (Z * Z))
    (env : RolloutCoordinator → RolloutCoordinator) : Co unit :=
  post (WeightVersions updates) ;; await env ;;
  match reply with
  | Some (rejected, updated) =>
      if bool_decide (rejected ≠ 0 ∨ updated ≠ Z.of_nat (length updates)) then raise RuntimeError else mret tt
  | None => raise RuntimeError
  end.

Definition set_routing (running : bool) (g : GatewayReply) (env : RolloutCoordinator → RolloutCoordinator) : Co unit :=
  post (Routing running) ;; await env ;; if routing_refused running g then raise RuntimeError else mret tt.

(** [self.server_handles[replica_id]] *)
Definition handle_of (replica : string) : Co unit :=
  c ← gets id; if bool_decide (replica ∈ server_handles c) then mret tt else raise KeyError.

Definition call_server (call : ServerCall) (replica : string) : Co unit :=
  handle_of replica ;; post (Server replica call).

(** [await asyncio.gather] over one call to each replica. *)
Definition call_servers (replicas : list string) (call : ServerCall) (failed : bool) (env : RolloutCoordinator → RolloutCoordinator) : Co unit :=
  for_each replicas (call_server call) ;; await env ;; if failed then raise RuntimeError else mret tt.

(** The awaits of a synchronisation, in order. *)
Inductive Await :=
  | AwSleeping | AwPending | AwPauseRouting | AwPause | AwDrain | AwPublish | AwResumeRouting
  | AwPulls | AwCorrect | AwResume | AwFail | AwPauseWorkers | AwReopen.

(** The answers a synchronisation gets. *)
Record SyncAnswers := mkAnswers {
  is_sleeping : string → bool;
  pending_failed : bool;
  paused_routing : GatewayReply;
  pause_failed : bool;
  drain_failed : bool;
  published : option (Z * Z);
  resumed_routing : GatewayReply;
  reopened_routing : GatewayReply;
  pulled : string → option Z;
  corrected : option (Z * Z);
  resume_failed : bool;
}.

Section sync.
Context (env : Await → RolloutCoordinator → RolloutCoordinator) (ans : SyncAnswers).

(** [fail_sync] failures are ignored ([return_exceptions=True]). *)
Definition quarantine (replicas : list string) (ids : list RolloutInstanceId) : Co unit :=
  call_servers replicas fail_sync false (env AwFail) ;;
  post (PauseWorkers ids) ;; await (env AwPauseWorkers).

Definition quarantine_failed_replicas (replicas : list string) (ids : list RolloutInstanceId) : Co unit :=
  quarantine replicas ids ;; set_routing true (reopened_routing ans) (env AwReopen).

Definition wait_for_replica_syncs (replicas : list string) : Co unit :=
  c ← gets id;
  if bool_decide (omap (λ r, replica_sync_tasks c !! r) replicas = []) then mret tt
  else await (env AwPending) ;; if pending_failed ans then raise RuntimeError else mret tt.

Definition mark_stale (i : RolloutInstanceId) : Co unit :=
  modify (λ c, with_stale (<[i := default 0 (instance_to_model_version c !! i)]> (instance_to_latest_stale_model_version c)) c).

Definition set_after_sync (i : RolloutInstanceId) : Co unit :=
  modify (λ c, with_after_sync (<[i := ps_model_version c]> (instance_to_version_after_sync c)) c).

(** The body of the [try] of [sync_with_ps]. *)
Definition announce (partial_rollout loop_back : bool) (replicas : list string) (ids : list RolloutInstanceId) : Co unit :=
  call_servers replicas pause_for_sync (pause_failed ans) (env AwPause) ;;
  (if loop_back && partial_rollout
   then call_servers (replicas_of ids) wait_for_requests_to_drain (drain_failed ans) (env AwDrain) else mret tt) ;;
  c ← gets id;
  for_each replicas (call_server (pull_model_for_sync (ps_model_version c))) ;;
  c ← gets id;
  publish_weight_version_updates (build_weight_version_updates ids (ps_model_version c)) (published ans) (env AwPublish) ;;
  for_each ids set_after_sync ;;
  set_routing true (resumed_routing ans) (env AwResumeRouting).

(** [sync_with_ps] up to the creation of the completion: its replicas, instances
    and advertised version, or nothing when all replicas sleep. *)
Definition sync_begin (partial_rollout loop_back : bool) (ids : list RolloutInstanceId)
    : Co (option (list string * list RolloutInstanceId * Z)) :=
  c ← gets id;
  let ids := expand_replica_instance_ids ids c in
  let replicas := replicas_of ids in
  for_each replicas handle_of ;;
  await (env AwSleeping) ;;
  let replicas := filter (λ r, is_sleeping ans r = false) replicas in
  let ids := filter (λ i : RolloutInstanceId, i.1 ∈ replicas) ids in
  if bool_decide (replicas = []) then mret None
  else
    wait_for_replica_syncs replicas ;;
    for_each ids mark_stale ;;
    set_routing false (paused_routing ans) (env AwPauseRouting) ;;
    or_quarantine (announce partial_rollout loop_back replicas ids) (quarantine_failed_replicas replicas ids) ;;
    c ← gets id;
    mret (Some (replicas, ids, ps_model_version c)).

(** The versions the replicas pulled, as [asyncio.gather] gives them. *)
Definition gather_pulls (replicas : list string) : option (list Z) := mapM (pulled ans) replicas.

Definition record_version (v : Z) (i : RolloutInstanceId) : Co unit :=
  set_rollout_instance_model_version i v ;;
  modify (λ c, with_after_sync (<[i := v]> (instance_to_version_after_sync c)) c).

Definition record_row (ids : list RolloutInstanceId) (advertised : Z) (row : string * Z) (updates : list (RolloutInstanceId * Z))
    : Co (list (RolloutInstanceId * Z)) :=
  let mine := filter (λ i : RolloutInstanceId, i.1 = row.1) ids in
  for_each mine (record_version row.2) ;;
  mret (if bool_decide (row.2 ≠ advertised) then updates ++ build_weight_version_updates mine row.2 else updates).

Definition finish_gateway_sync (replicas : list string) (ids : list RolloutInstanceId) (advertised : Z) : Co unit :=
  or_quarantine
    (await (env AwPulls) ;;
     vs ← of_option RuntimeError (gather_pulls replicas);
     updates ← fold_each (zip replicas vs) [] (record_row ids advertised);
     (if bool_decide (updates = []) then mret tt else publish_weight_version_updates updates (corrected ans) (env AwCorrect)) ;;
     call_servers replicas resume_after_sync (resume_failed ans) (env AwResume))
    (quarantine replicas ids).

Definition track_model_sync_task (task : nat) (replicas : list string) : Co unit :=
  modify (λ c, with_tasks ({[task]} ∪ model_sync_tasks c) (foldl (λ d r, <[r := task]> d) (replica_sync_tasks c) replicas) c).

Definition on_done (task : nat) (replicas : list string) : Co unit :=
  modify (λ c, with_tasks (model_sync_tasks c ∖ {[task]})
    (foldl (λ d r, if bool_decide (d !! r = Some task) then delete r d else d) (replica_sync_tasks c) replicas) c).

Definition sync_with_ps (partial_rollout wait_model_sync loop_back : bool) (task : nat) (ids : list RolloutInstanceId) : Co unit :=
  r ← sync_begin partial_rollout loop_back ids;
  match r with
  | None => mret tt
  | Some (replicas, ids, advertised) =>
      if wait_model_sync then finish_gateway_sync replicas ids advertised else track_model_sync_task task replicas
  end.
End sync.

(** The replicas with a tag, in the order their set is iterated, pull the initial
    weights. *)
Definition initial_pull_from_ps (replicas : list string) (ids : list RolloutInstanceId) (reply : option (Z * Z))
    (env env' : RolloutCoordinator → RolloutCoordinator) : Co unit :=
  call_servers replicas pull_model false env ;;
  let ids := filter (λ i : RolloutInstanceId, i.1 ∈ replicas) ids in
  for_each ids (λ i,
    modify (λ c, with_model_version (<[i := ps_model_version c]> (instance_to_model_version c)) c) ;;
    modify (λ c, with_after_sync (<[i := ps_model_version c]> (instance_to_version_after_sync c)) c)) ;;
  c ← gets id;
  if bool_decide (ids = []) then mret tt
  else publish_weight_version_updates (build_weight_version_updates ids (ps_model_version c)) reply env'.

(** ** The synchronisation loops *)

Record SyncConfig := mkSyncConfig {
  partial_rollout : bool;
  mig_enable : bool;
  seamless_train_version : Z;
}.

Inductive LoopDecision := SyncWith (ids : list RolloutInstanceId) | CheckAndMigrate | NoDecision.

Definition loop_decision (cfg : SyncConfig) (have_syncing_instance : bool) (ids : list RolloutInstanceId) : LoopDecision :=
  match ids with
  | [] => if negb have_syncing_instance && mig_enable cfg then CheckAndMigrate else NoDecision
  | _ => SyncWith ids
  end.

(** The trainer can go on with version [ps_model_version] at once. *)
Definition seamless (cfg : SyncConfig) (c : RolloutCoordinator) : bool :=
  negb (bool_decide (ps_model_version c ≤ seamless_train_version cfg)) || bool_decide (ps_model_version c ∈ ready_buffers c).

Section loops.
Context (iter : gset RolloutInstanceId → list RolloutInstanceId) (cfg : SyncConfig).
Context (env : nat → RolloutInstanceId → RolloutCoordinator → RolloutCoordinator).

(** One instance in the greedy loop; [active] is the answer of its server. *)
Definition greedy_check (active : RolloutInstanceId → Z) (i : RolloutInstanceId) (acc : bool * list RolloutInstanceId)
    : Co (bool * list RolloutInstanceId) :=
  c ← gets id;
  let version := default 0 (instance_to_model_version c !! i) in
  if bool_decide (i.1 ∉ rollout_replica_ids c) then mret acc
  else if bool_decide (version ≤ default (-1) (instance_to_latest_stale_model_version c !! i)) then mret (true, acc.2)
  else if bool_decide (version = ps_model_version c) then mret acc
  else
    idle ← (if partial_rollout cfg then mret true
            else handle_of i.1 ;; await (env 0%nat i) ;; mret (bool_decide (active i = 0)));
    c ← gets id;
    mret (if idle && seamless cfg c then (acc.1, acc.2 ++ [i]) else acc).

Definition greedy_round (active : RolloutInstanceId → Z) : Co LoopDecision :=
  c ← gets id;
  '(syncing, ids) ← fold_each (iter (instance_ids c)) (false, []) (greedy_check active);
  mret (loop_decision cfg syncing ids).

(** One instance in the status-based loop: whether the router is selecting, and
    whether the instance should be synchronised, are answers. *)
Definition status_check (selecting : RolloutInstanceId → bool) (should_sync : RolloutInstanceId → Res bool)
    (row : RolloutInstanceId * EngineStats) (acc : bool * list RolloutInstanceId) : Co (bool * list RolloutInstanceId) :=
  let '(i, stats) := row in
  c ← gets id;
  if bool_decide (i.1 ∉ rollout_replica_ids c) then mret acc
  else if bool_decide (stats_version stats ≤ default (-1) (instance_to_latest_stale_model_version c !! i)) then mret (true, acc.2)
  else
    await (env 0%nat i) ;;
    c ← gets id;
    if selecting i then mret acc
    else if bool_decide (default 0 (instance_to_model_version c !! i) = ps_model_version c) then mret acc
    else
      ok ← (if partial_rollout cfg then await (env 1%nat i) ;; of_res (should_sync i) else mret (bool_decide (get_waiting_and_running_queue_size stats ≤ 0)));
      c ← gets id;
      mret (if ok && seamless cfg c then (acc.1, acc.2 ++ [i]) else acc).

Definition status_round (selecting : RolloutInstanceId → bool) (should_sync : RolloutInstanceId → Res bool) : Co LoopDecision :=
  c ← gets id;
  '(syncing, ids) ← fold_each (instance_to_engine_status c) (false, []) (status_check selecting should_sync);
  mret (loop_decision cfg syncing ids).
End loops.

(** ** What the gateway has been told *)

Definition told (i : RolloutInstanceId) (acc : option Z) (p : Post) : option Z :=
  match p with
  | WeightVersions updates => foldl (λ acc '(j, v), if decide (j = i) then Some v else acc) acc updates
  | _ => acc
  end.

Definition gateway_version (i : RolloutInstanceId) (c : RolloutCoordinator) : option Z := foldl (told i) None (posts c).

Lemma gateway_post i p c : gateway_version i (with_posts (posts c ++ [p]) c) = told i (gateway_version i c) p.
Proof. unfold gateway_version. simpl. by rewrite foldl_app. Qed.

Lemma told_updates i v ids acc : told i acc (WeightVersions (build_weight_version_updates ids v)) = if decide (i ∈ ids) then Some v else acc.
Proof.
  simpl. revert acc. induction ids as [|j ids IH]; intros acc; [done|]. simpl.
  unfold build_weight_version_updates in IH. rewrite IH. destruct (decide (i ∈ ids)), (decide (j = i)); subst.
  - by rewrite decide_True by (apply elem_of_cons; by left).
  - by rewrite decide_True by (apply elem_of_cons; by right).
  - by rewrite decide_True by (apply elem_of_cons; by left).
  - rewrite decide_False; [done|]. intros [?|?]%elem_of_cons; done.
Qed.

Lemma told_app i acc u1 u2 : told i acc (WeightVersions (u1 ++ u2)) = told i (told i acc (WeightVersions u1)) (WeightVersions u2).
Proof. simpl. by rewrite foldl_app. Qed.

Lemma bind_Ret {S A B} (m : M S A) (k : A → M S B) s b s' : (m ≫= k) s = Ret b s' → ∃ a s1, m s = Ret a s1 ∧ k a s1 = Ret b s'.
Proof. unfold mbind, M_bind. destruct (m s) as [a s1|]; [|done]. by exists a, s1. Qed.

Lemma keeps_Ret_final {S A T} (f : S → T) (m : M S A) s a s' : keeps f m → m s = Ret a s' → f s' = f s.
Proof. intros Hk E. specialize (Hk s). by rewrite E in Hk. Qed.

(** ** Synchronised instances *)

Section agreement.
Context (env : Await → RolloutCoordinator → RolloutCoordinator) (ans : SyncAnswers).

(** The posts to servers and about routing tell the gateway nothing. *)
Lemma keeps_post_told i p : (∀ acc, told i acc p = acc) → keeps (gateway_version i) (post p).
Proof. intros Hp s. simpl. by rewrite gateway_post. Qed.

Lemma keeps_call_server i call r : keeps (gateway_version i) (call_server call r).
Proof. unfold call_server, handle_of. keeps_tac. by apply keeps_post_told. Qed.

(** Announcing leaves the gateway with the version the coordinator advertises,
    unless the parameter server's version changes before it is done. *)
Lemma announce_told partial loop_back replicas ids c c' i :
  (∀ a s, gateway_version i (env a s) = gateway_version i s) →
  (∀ s, ps_model_version (env AwPublish s) = ps_model_version s) → (∀ s, ps_model_version (env AwResumeRouting s) = ps_model_version s) →
  announce env ans partial loop_back replicas ids c = Ret tt c' → i ∈ ids → gateway_version i c' = Some (ps_model_version c').
Proof.
  intros Hg Hp1 Hp2 E Hi. unfold announce in E.
  apply bind_Ret in E as (_ & c1 & _ & E). apply bind_Ret in E as (_ & c2 & _ & E). apply bind_Ret in E as (v0 & c3 & _ & E).
  apply bind_Ret in E as (_ & c4 & _ & E). apply bind_Ret in E as (v' & c5 & E5 & E). unfold gets in E5. injection E5 as E5a E5b. subst v' c5. unfold id in E.
  apply bind_Ret in E as ([] & c6 & Epub & E). apply bind_Ret in E as ([] & c7 & Eset & Eroute).
  set (v := ps_model_version c4) in *.
  assert (gateway_version i c6 = Some v ∧ ps_model_version c6 = v) as [Hg6 Hp6].
  { unfold publish_weight_version_updates in Epub. simpl in Epub. destruct (published ans) as [[rej upd]|]; [|done].
    case_bool_decide; [done|]. injection Epub as <-. rewrite Hg, Hp1, gateway_post, told_updates, decide_True by done. done. }
  assert (gateway_version i c7 = gateway_version i c6) as Hg7 by (eapply keeps_Ret_final; [|exact Eset]; unfold set_after_sync; keeps_tac).
  assert (ps_model_version c7 = ps_model_version c6) as Hp7 by (eapply keeps_Ret_final; [|exact Eset]; unfold set_after_sync; keeps_tac).
  unfold set_routing in Eroute. simpl in Eroute. destruct (routing_refused _ _); [done|]. injection Eroute as <-.
  rewrite Hg, Hp2, gateway_post. simpl. congruence.
Qed.

(** What [sync_begin] hands to the completion. *)
Lemma sync_begin_Ret partial loop_back ids c c' replicas ids' adv :
  sync_begin env ans partial loop_back ids c = Ret (Some (replicas, ids', adv)) c' →
  NoDup replicas ∧ (∀ i, i ∈ ids' → i.1 ∈ replicas) ∧
  (∀ i, i ∈ ids' ↔ i ∈ instance_ids c ∧ i.1 ∈ ids.*1 ∧ is_sleeping ans i.1 = false) ∧ adv = ps_model_version c' ∧
  ∃ c1, announce env ans partial loop_back replicas ids' c1 = Ret tt c'.
Proof.
  unfold sync_begin. intros E. apply bind_Ret in E as (x & c1 & E1 & E). unfold gets in E1. injection E1 as E1a E1b. subst x c1. unfold id in E.
  apply bind_Ret in E as (_ & c2 & _ & E). apply bind_Ret in E as (_ & c3 & _ & E).
  set (ids0 := expand_replica_instance_ids ids c) in *. case_bool_decide; [done|].
  apply bind_Ret in E as (_ & c4 & _ & E). apply bind_Ret in E as (_ & c5 & _ & E). apply bind_Ret in E as (_ & c6 & _ & E).
  apply bind_Ret in E as ([] & c7 & Ea & E). simpl in E. injection E as <- <- <- <-.
  unfold or_quarantine in Ea. destruct (announce _ _ _ _ _ _ c6) as [[] c8|e c8] eqn:Ean; [injection Ea as <-|].
  2: { apply bind_Ret in Ea as (? & ? & _ & Ea). done. }
  split_and!; [|by intros i [? _]%list_elem_of_filter| |done|by exists c6].
  2: { assert (∀ i, i ∈ ids0 ↔ i ∈ instance_ids c ∧ i.1 ∈ ids.*1) as Hids.
       { intros i. unfold ids0, expand_replica_instance_ids. rewrite elem_of_sort_lt, list_elem_of_filter, elem_of_elements. tauto. }
       intros i. rewrite !list_elem_of_filter, Hids. unfold replicas_of. rewrite elem_of_sort_lt, elem_of_elements, elem_of_list_to_set.
       split; [tauto|]. intros (Hi & Hr & Hs). split_and!; [done| |done..]. apply list_elem_of_fmap. exists i. split; [done|by apply Hids]. }
  apply NoDup_filter. unfold replicas_of. rewrite sort_lt_perm. apply NoDup_elements.
Qed.

(** Recording the versions that were pulled. *)
Definition versions_of (i : RolloutInstanceId) (c : RolloutCoordinator) : option Z * option Z :=
  (instance_to_model_version c !! i, instance_to_version_after_sync c !! i).

Lemma record_version_run v j c :
  ∃ c', record_version v j c = Ret tt c' ∧ posts c' = posts c ∧
    ∀ i, versions_of i c' = if decide (j = i) then (Some v, Some v) else versions_of i c.
Proof.
  eexists. split; [done|]. split; [done|]. intros i. unfold versions_of. simpl. rewrite !lookup_insert. by case_decide.
Qed.

Lemma record_mine_run v ids c :
  ∃ c', for_each ids (record_version v) c = Ret tt c' ∧ posts c' = posts c ∧
    ∀ i, versions_of i c' = if decide (i ∈ ids) then (Some v, Some v) else versions_of i c.
Proof.
  revert c. induction ids as [|j ids IH]; intros c; cbn [for_each]; [by exists c|].
  destruct (record_version_run v j c) as (c1 & E1 & Hp1 & Hv1). rewrite (run_bind _ _ _ _ _ E1).
  destruct (IH c1) as (c2 & E2 & Hp2 & Hv2). exists c2. split; [done|]. split; [congruence|]. intros i. rewrite Hv2, Hv1.
  destruct (decide (i ∈ ids)), (decide (j = i)); subst.
  1-3: rewrite decide_True; [done|]; apply elem_of_cons; tauto.
  rewrite decide_False; [done|]. intros [?|?]%elem_of_cons; done.
Qed.

(** After the rows are recorded every instance has the version of its replica, and
    the updates name exactly those whose version was not advertised. *)
Lemma record_versions_run ids adv rows acc c :
  NoDup rows.*1 →
  ∃ updates c', fold_each rows acc (record_row ids adv) c = Ret updates c' ∧
    posts c' = posts c ∧
    ∀ i, i ∈ ids → (∀ r v, (r, v) ∈ rows → i.1 = r → versions_of i c' = (Some v, Some v)) ∧ (i.1 ∉ rows.*1 → versions_of i c' = versions_of i c) ∧
      ∀ g, told i g (WeightVersions updates) = match assoc i.1 rows with Some v => if bool_decide (v ≠ adv) then Some v else told i g (WeightVersions acc) | None => told i g (WeightVersions acc) end.
Proof.
  revert acc c. induction rows as [|[r v] rows IH]; intros acc c Hnd; cbn [fold_each].
  { exists acc, c. split; [done|]. split; [done|]. intros i Hi. split; [intros r v []%not_elem_of_nil|done]. }
  rewrite fmap_cons in Hnd. apply NoDup_cons in Hnd as [Hr Hnd]. simpl in Hr.
  destruct (record_mine_run v (filter (λ i : RolloutInstanceId, i.1 = r) ids) c) as (c1 & E1 & Hp1 & Hv1).
  assert (record_row ids adv (r, v) acc c = Ret (if bool_decide (v ≠ adv) then acc ++ build_weight_version_updates (filter (λ i : RolloutInstanceId, i.1 = r) ids) v else acc) c1) as E0
    by (unfold record_row; simpl; by rewrite (run_bind _ _ _ _ _ E1)).
  rewrite (run_bind _ _ _ _ _ E0).
  destruct (IH (if bool_decide (v ≠ adv) then acc ++ build_weight_version_updates (filter (λ i : RolloutInstanceId, i.1 = r) ids) v else acc) c1 Hnd)
    as (updates & c2 & E2 & Hp2 & H2). exists updates, c2. split; [done|]. split; [congruence|].
  intros i Hi. destruct (H2 i Hi) as (Hrow & Hno & Htold). split_and!.
  - intros r' v' [[= -> ->]|Hin]%elem_of_cons Heq; [|by eapply Hrow]. subst. rewrite Hno by done. rewrite Hv1, decide_True; [done|].
    by apply list_elem_of_filter.
  - intros Hn. rewrite Hno by (intros ?; apply Hn; rewrite fmap_cons; apply elem_of_cons; by right). rewrite Hv1, decide_False; [done|].
    intros [<- _]%list_elem_of_filter. apply Hn. rewrite fmap_cons. apply elem_of_cons. by left.
  - intros g. rewrite Htold. cbn [assoc]. destruct (decide (r = i.1)) as [->|Hne].
    + assert (assoc i.1 rows = None) as ->.
      { destruct (assoc i.1 rows) as [w|] eqn:E; [|done]. apply elem_of_assoc in E. destruct Hr. apply list_elem_of_fmap. by exists (i.1, w). }
      case_bool_decide; [|done].
      rewrite told_app, told_updates, decide_True; [done|]. by apply list_elem_of_filter.
    + assert (∀ g, told i g (WeightVersions (if bool_decide (v ≠ adv) then acc ++ build_weight_version_updates (filter (λ i : RolloutInstanceId, i.1 = r) ids) v else acc))
        = told i g (WeightVersions acc)) as Hsame; [|by repeat case_match; rewrite ?Hsame].
      intros g'. case_bool_decide; [|done]. rewrite told_app, told_updates, decide_False; [done|]. intros [<- _]%list_elem_of_filter. done.
Qed.

Lemma gather_pulls_zip replicas vs r : gather_pulls ans replicas = Some vs → r ∈ replicas → ∃ v, pulled ans r = Some v ∧ assoc r (zip replicas vs) = Some v.
Proof.
  unfold gather_pulls. rewrite mapM_Some. induction 1 as [|r' v replicas vs Hr _ IH]; [intros []%not_elem_of_nil|].
  intros Hin. simpl. destruct (decide (r' = r)) as [->|]; [by exists v|]. apply IH. apply elem_of_cons in Hin as [->|?]; done.
Qed.

(** The completion, when it returns, leaves the pulled version of an instance's
    replica in both tables and at the gateway. *)
Lemma finish_told replicas ids adv c c' i :
  (∀ a s, gateway_version i (env a s) = gateway_version i s) →
  (∀ s, versions_of i (env AwCorrect s) = versions_of i s) → (∀ s, versions_of i (env AwResume s) = versions_of i s) →
  NoDup replicas → i ∈ ids → i.1 ∈ replicas → gateway_version i c = Some adv →
  finish_gateway_sync env ans replicas ids adv c = Ret tt c' →
  ∃ v, pulled ans i.1 = Some v ∧ gateway_version i c' = Some v ∧ versions_of i c' = (Some v, Some v).
Proof.
  intros Hg Hv1 Hv2 Hnd Hi Hr Hadv. unfold finish_gateway_sync, or_quarantine.
  set (body := (await _ ≫= _)). destruct (body c) as [[] c0|e c0] eqn:E; [intros [= <-]|intros (? & ? & _ & [=])%bind_Ret].
  unfold body in E. clear body. apply bind_Ret in E as ([] & c1 & E1 & E). apply bind_Ret in E as (vs & c2 & E2 & E).
  assert (gateway_version i c1 = Some adv) as Hg1 by (unfold await, modify in E1; injection E1 as <-; by rewrite Hg).
  destruct (gather_pulls ans replicas) as [vs'|] eqn:Egp; [|done]. injection E2 as <- <-.
  destruct (gather_pulls_zip replicas vs' i.1 Egp Hr) as (v & Hpull & Hz).
  assert ((zip replicas vs').*1 = replicas) as Hfst.
  { unfold gather_pulls in Egp. apply mapM_Some, Forall2_length in Egp. apply fst_zip. lia. }
  apply bind_Ret in E as (updates & c3 & E3 & E).
  destruct (record_versions_run ids adv (zip replicas vs') [] c1) as (updates' & c3' & E3' & Hp3 & H3); [by rewrite Hfst|].
  rewrite E3' in E3. injection E3 as <- <-. destruct (H3 i Hi) as (Hrow & _ & Htold).
  specialize (Hrow i.1 v (elem_of_assoc _ _ _ Hz) eq_refl). rewrite Hz in Htold.
  assert (gateway_version i c3' = Some adv) as Hg3 by (unfold gateway_version in *; by rewrite Hp3).
  exists v. split; [done|].
  apply bind_Ret in E as ([] & c4 & E4 & E5).
  assert (gateway_version i c4 = Some v ∧ versions_of i c4 = (Some v, Some v)) as [Hg4 Hv4].
  { destruct (decide (updates' = [])) as [Hnil|Hnil]; [rewrite bool_decide_true in E4 by done|rewrite bool_decide_false in E4 by done].
    - unfold mret, M_ret in E4. injection E4 as <-. split; [|done]. rewrite Hg3. specialize (Htold None). rewrite Hnil in Htold. simpl in Htold. case_bool_decide; [done|].
      f_equal. lia.
    - unfold publish_weight_version_updates in E4. simpl in E4. destruct (corrected ans) as [[rej upd]|]; [|done].
      destruct (bool_decide (rej ≠ 0 ∨ _)); [done|]. injection E4 as <-. rewrite Hg, Hv1, gateway_post, Hg3, Htold. split; [|done]. case_bool_decide; [done|].
      simpl. f_equal. lia. }
  unfold call_servers in E5. apply bind_Ret in E5 as ([] & c5 & E5 & E6).
  assert (gateway_version i c5 = gateway_version i c4) as Hg5.
  { eapply keeps_Ret_final; [|exact E5]. apply keeps_for_each. intros r. apply keeps_call_server. }
  assert (versions_of i c5 = versions_of i c4) as Hv5 by (eapply keeps_Ret_final; [|exact E5]; unfold call_server, handle_of, post; keeps_tac).
  simpl in E6. destruct (resume_failed ans); [done|]. injection E6 as <-. rewrite Hg, Hv2. split; congruence.
Qed.
End agreement.

(** C29: A synchronisation covers exactly the registered instances of the replicas
    it is asked for that are awake, all instances of such a replica even if only one
    was named; and when it completes it leaves the coordinator and the gateway in
    agreement on them: each has, in both version tables and at the gateway, the
    version its replica pulled, even when that is newer than the one announced,
    whatever other coroutines do at its awaits, as long as they leave these instances
    to it and the parameter server's version does not change between the announcement
    and the start of the completion. *)
Theorem sync_versions_agree (env env' : Await → RolloutCoordinator → RolloutCoordinator) (ans ans' : SyncAnswers) (partial loop_back : bool)
    (ids replicas : _) (ids' : list RolloutInstanceId) (adv : Z) (c c1 c2 c3 : RolloutCoordinator) :
  sync_begin env ans partial loop_back ids c = Ret (Some (replicas, ids', adv)) c1 →
  (∀ a s, a = AwPublish ∨ a = AwResumeRouting → ps_model_version (env a s) = ps_model_version s) →
  (∀ a s i, i ∈ ids' → gateway_version i (env a s) = gateway_version i s ∧ gateway_version i (env' a s) = gateway_version i s ∧
     versions_of i (env' a s) = versions_of i s) →
  (∀ i, i ∈ ids' → gateway_version i c2 = gateway_version i c1) →
  finish_gateway_sync env' ans' replicas ids' adv c2 = Ret tt c3 →
  (∀ i, i ∈ ids' ↔ i ∈ instance_ids c ∧ i.1 ∈ ids.*1 ∧ is_sleeping ans i.1 = false) ∧
  ∀ i, i ∈ ids' → ∃ v, pulled ans' i.1 = Some v ∧ gateway_version i c3 = Some v ∧
    instance_to_model_version c3 !! i = Some v ∧ instance_to_version_after_sync c3 !! i = Some v.
Proof.
  intros Hbegin Hps Henv Hgap Hfin.
  destruct (sync_begin_Ret _ _ _ _ _ _ _ _ _ _ Hbegin) as (Hnd & Hmem & Hall & -> & c0 & Hann). split; [exact Hall|]. intros i Hi.
  assert (gateway_version i c1 = Some (ps_model_version c1)) as Hg1.
  { apply (announce_told env ans partial loop_back replicas ids' c0); [intros a s; by apply Henv|intros; apply Hps; by left|intros; apply Hps; by right|exact Hann|done]. }
  destruct (finish_told env' ans' replicas ids' (ps_model_version c1) c2 c3 i) as (v & Hp & Hg & Hv);
    [intros a s; by apply Henv|intros s; by apply Henv|intros s; by apply Henv|done|done|by apply Hmem|by rewrite Hgap|exact Hfin|].
  exists v. unfold versions_of in Hv. injection Hv as Hm Ha. done.
Qed.

(** ** What the loops decide *)

(** What a decision depends on. *)
Definition loop_view (c : RolloutCoordinator) :=
  (instance_ids c, server_handles c, rollout_replica_ids c, instance_to_model_version c, instance_to_latest_stale_model_version c,
   ps_model_version c, ready_buffers c).

(** An instance that is being synchronised, or whose synchronisation failed. *)
Definition syncing (c : RolloutCoordinator) (i : RolloutInstanceId) : bool :=
  bool_decide (i.1 ∈ rollout_replica_ids c) &&
  bool_decide (default 0 (instance_to_model_version c !! i) ≤ default (-1) (instance_to_latest_stale_model_version c !! i)).

(** An instance that lags behind and may be synchronised now. *)
Definition due (cfg : SyncConfig) (active : RolloutInstanceId → Z) (c : RolloutCoordinator) (i : RolloutInstanceId) : bool :=
  bool_decide (i.1 ∈ rollout_replica_ids c) && negb (syncing c i) &&
  bool_decide (default 0 (instance_to_model_version c !! i) ≠ ps_model_version c) &&
  (partial_rollout cfg || bool_decide (active i = 0)) && seamless cfg c.

Lemma loop_view_eq c c' cfg active i : loop_view c' = loop_view c → syncing c' i = syncing c i ∧ due cfg active c' i = due cfg active c i.
Proof. unfold loop_view, due, syncing, seamless. intros [= _ _ -> -> -> -> ->]. done. Qed.

Lemma greedy_check_run cfg env active i acc c :
  (∀ s, loop_view (env 0%nat i s) = loop_view s) → i.1 ∈ server_handles c →
  ∃ c', greedy_check cfg env active i acc c = Ret (acc.1 || syncing c i, if due cfg active c i then acc.2 ++ [i] else acc.2) c' ∧ loop_view c' = loop_view c.
Proof.
  intros Henv Hh. unfold greedy_check. mrun. unfold due, syncing. destruct acc as [b l]. simpl.
  case_bool_decide as H1; [rewrite bool_decide_false by done; exists c; by rewrite orb_false_r|]. rewrite (bool_decide_true (_ ∈ rollout_replica_ids c)) by done.
  case_bool_decide as H2; simpl; [exists c; by rewrite orb_true_r|]. rewrite orb_false_r.
  case_bool_decide as H3; [rewrite bool_decide_false by tauto; by exists c|]. rewrite (bool_decide_true (_ ≠ _)) by done. simpl.
  destruct (partial_rollout cfg); simpl.
  - exists c. mrun. by destruct (seamless cfg c).
  - assert (handle_of i.1 c = Ret tt c) as E0 by (unfold handle_of; mrun; by rewrite bool_decide_true).
    rewrite run_assoc, (run_bind _ _ _ _ _ E0), run_assoc. unfold await. mrun. exists (env 0%nat i c). split; [|apply Henv].
    assert (seamless cfg (env 0%nat i c) = seamless cfg c) as -> by (unfold seamless; specialize (Henv c); unfold loop_view in Henv; injection Henv as _ _ _ _ _ -> ->; done).
    by destruct (bool_decide (active i = 0)), (seamless cfg c).
Qed.

Lemma greedy_fold_run cfg env active l acc c :
  (∀ i s, loop_view (env 0%nat i s) = loop_view s) → (∀ i, i ∈ l → i.1 ∈ server_handles c) →
  ∃ c', fold_each l acc (greedy_check cfg env active) c =
      Ret (acc.1 || existsb (syncing c) l, acc.2 ++ filter (λ i, due cfg active c i = true) l) c' ∧ loop_view c' = loop_view c.
Proof.
  intros Henv. revert acc c. induction l as [|i l IH]; intros acc c Hh; cbn [fold_each existsb].
  { exists c. rewrite filter_nil, app_nil_r, orb_false_r. by destruct acc. }
  destruct (greedy_check_run cfg env active i acc c) as (c1 & E1 & Hv1); [done|apply Hh, elem_of_cons; by left|].
  rewrite (run_bind _ _ _ _ _ E1).
  destruct (IH (acc.1 || syncing c i, if due cfg active c i then acc.2 ++ [i] else acc.2) c1) as (c2 & E2 & Hv2).
  { intros j Hj. assert (server_handles c1 = server_handles c) as -> by (unfold loop_view in Hv1; congruence). apply Hh, elem_of_cons. by right. }
  exists c2. split; [|congruence]. rewrite E2. simpl. f_equal. f_equal.
  - rewrite orb_assoc. f_equal. clear -Hv1 cfg active. induction l as [|j l IHl]; [done|]. simpl. destruct (loop_view_eq c c1 cfg active j Hv1) as [-> _]. by rewrite IHl.
  - rewrite filter_cons. assert (filter (λ i, due cfg active c1 i = true) l = filter (λ i, due cfg active c i = true) l) as ->.
    { apply list_filter_iff. intros j. by destruct (loop_view_eq c c1 cfg active j Hv1) as [_ ->]. }
    destruct (due cfg active c i) eqn:E; [rewrite decide_True by done; by rewrite <-app_assoc|by rewrite decide_False by done].
Qed.

(** One round of the greedy loop synchronises exactly the rollout instances that
    lag behind the parameter server, are not being synchronised, are idle when
    partial rollouts are forbidden, and whose new version the trainer can use at
    once; it checks for migration only when there is none of them and no instance
    is being synchronised. *)
Theorem greedy_round_exact (iter : gset RolloutInstanceId → list RolloutInstanceId) (cfg : SyncConfig)
    (env : nat → RolloutInstanceId → RolloutCoordinator → RolloutCoordinator) (active : RolloutInstanceId → Z) (c : RolloutCoordinator) :
  (∀ X i, i ∈ iter X ↔ i ∈ X) → (∀ i s, loop_view (env 0%nat i s) = loop_view s) → (∀ i, i ∈ instance_ids c → i.1 ∈ server_handles c) →
  ∃ d c', greedy_round iter cfg env active c = Ret d c' ∧
    (∀ ids, d = SyncWith ids → ∀ i, i ∈ ids ↔ i ∈ instance_ids c ∧ due cfg active c i = true) ∧
    ((∃ ids, d = SyncWith ids) ↔ ∃ i, i ∈ instance_ids c ∧ due cfg active c i = true) ∧
    (d = CheckAndMigrate ↔ mig_enable cfg = true ∧ ∀ i, i ∈ instance_ids c → due cfg active c i = false ∧ syncing c i = false).
Proof.
  intros Hiter Henv Hh. unfold greedy_round. mrun.
  destruct (greedy_fold_run cfg env active (iter (instance_ids c)) (false, []) c Henv) as (c' & E & _); [intros i Hi; by apply Hh, Hiter|].
  rewrite (run_bind _ _ _ _ _ E). simpl. eexists _, c'. split; [done|].
  set (sel := filter (λ i, due cfg active c i = true) (iter (instance_ids c))).
  assert (∀ i, i ∈ sel ↔ i ∈ instance_ids c ∧ due cfg active c i = true) as Hsel.
  { intros i. unfold sel. rewrite list_elem_of_filter, Hiter. tauto. }
  assert (existsb (syncing c) (iter (instance_ids c)) = false ↔ ∀ i, i ∈ instance_ids c → syncing c i = false) as Hsync.
  { rewrite <-not_true_iff_false, existsb_exists. split.
    - intros H i Hi. apply not_true_iff_false. intros Hs. apply H. exists i. split; [|done]. by apply list_elem_of_In, Hiter.
    - intros H (i & Hi & Hs). rewrite H in Hs; [done|]. by apply Hiter, list_elem_of_In. }
  unfold loop_decision. destruct sel as [|i0 sel'] eqn:Es.
  - assert (∀ i, i ∈ instance_ids c → due cfg active c i = false) as Hno.
    { intros i Hi. destruct (due cfg active c i) eqn:Ed; [|done]. exfalso. by apply (not_elem_of_nil i), Hsel. }
    split_and!.
    + intros ids. by destruct (negb _ && _).
    + split; [intros [ids H]; by destruct (negb _ && _)|]. intros (i & Hi & Hd). rewrite Hno in Hd; done.
    + destruct (existsb _ _) eqn:Ex; simpl.
      * split; [done|]. intros [_ H]. exfalso. enough (true = false) by done. apply Hsync. intros i Hi. by apply H.
      * destruct (mig_enable cfg); [|split; [done|by intros [? _]]]. split; [|done]. intros _. split; [done|]. intros i Hi. split; [by apply Hno|]. by apply Hsync.
  - split_and!.
    + intros ids [= <-]. done.
    + split; [|by eexists]. intros _. exists i0. apply Hsel, elem_of_cons. by left.
    + split; [done|]. intros [_ H]. destruct (proj1 (Hsel i0)) as [Hi Hd]; [apply elem_of_cons; by left|]. destruct (H i0 Hi) as [Hf _]. congruence.
Qed.

(** An instance whose last synchronisation has not recorded a new version keeps
    the loop from migrating and is not synchronised again. *)
Lemma syncing_blocks iter cfg env active c i :
  (∀ X i, i ∈ iter X ↔ i ∈ X) → (∀ i s, loop_view (env 0%nat i s) = loop_view s) → (∀ i, i ∈ instance_ids c → i.1 ∈ server_handles c) →
  i ∈ instance_ids c → syncing c i = true →
  ∃ d c', greedy_round iter cfg env active c = Ret d c' ∧ d ≠ CheckAndMigrate ∧ ∀ ids, d = SyncWith ids → i ∉ ids.
Proof.
  intros Hiter Henv Hh Hi Hs. unfold greedy_round. mrun.
  destruct (greedy_fold_run cfg env active (iter (instance_ids c)) (false, []) c Henv) as (c' & E & _); [intros j Hj; by apply Hh, Hiter|].
  rewrite (run_bind _ _ _ _ _ E). simpl. eexists _, c'. split; [done|].
  assert (existsb (syncing c) (iter (instance_ids c)) = true) as -> by (apply existsb_exists; exists i; split; [by apply list_elem_of_In, Hiter|done]).
  unfold loop_decision. simpl. destruct (filter _ _) as [|j l] eqn:Ef; [done|]. split; [done|]. intros ids [= <-] Hin.
  rewrite <-Ef in Hin. apply list_elem_of_filter in Hin as [Hd _]. unfold due in Hd. rewrite Hs in Hd. by destruct (bool_decide _).
Qed.

(** What other coroutines leave alone while a synchronisation of [ids] runs. *)
Record leaves (ids : list RolloutInstanceId) (f : RolloutCoordinator → RolloutCoordinator) : Prop := {
  lv_syncing : ∀ s i, i ∈ ids → syncing (f s) i = syncing s i;
  lv_handles : ∀ s, server_handles s ⊆ server_handles (f s);
  lv_posts : ∀ s, posts s `prefix_of` posts (f s);
}.

Lemma call_servers_run replicas call env ids c :
  leaves ids env → (∀ r, r ∈ replicas → r ∈ server_handles c) →
  ∃ c', call_servers replicas call false env c = Ret tt c' ∧ (∀ i, i ∈ ids → syncing c' i = syncing c i) ∧
    server_handles c ⊆ server_handles c' ∧ posts c ++ ((λ r, Server r call) <$> replicas) `prefix_of` posts c'.
Proof.
  intros [Hs Hh Hp] Hr. unfold call_servers.
  assert (∃ c1, for_each replicas (call_server call) c = Ret tt c1 ∧ posts c1 = posts c ++ ((λ r, Server r call) <$> replicas) ∧
    server_handles c1 = server_handles c ∧ ∀ i, syncing c1 i = syncing c i) as (c1 & E & Hp1 & Hh1 & Hs1).
  { clear -Hr. revert c Hr. induction replicas as [|r replicas IH]; intros c Hr; simpl; [exists c; by rewrite app_nil_r|].
    assert (call_server call r c = Ret tt (with_posts (posts c ++ [Server r call]) c)) as E1.
    { unfold call_server, handle_of. mrun. rewrite bool_decide_true by (apply Hr, elem_of_cons; by left). done. }
    rewrite (run_bind _ _ _ _ _ E1). destruct (IH (with_posts (posts c ++ [Server r call]) c)) as (c1 & E & Hp1 & Hh1 & Hs1).
    { intros r' Hr'. apply Hr, elem_of_cons. by right. }
    exists c1. split_and!; [done| |done|done]. rewrite Hp1. simpl. by rewrite <-app_assoc. }
  rewrite (run_bind _ _ _ _ _ E). exists (env c1). split; [done|]. split_and!.
  - intros i Hi. by rewrite Hs, Hs1.
  - rewrite <-Hh1. apply Hh.
  - rewrite <-Hp1. apply Hp.
Qed.

(** When a replica cannot pull, the completion raises after it has told every
    replica of the synchronisation to fail and the gateway to pause their workers.
    The instances stay marked: as long as no version is recorded for one of them,
    no round of the greedy loop selects it and none checks for migration. *)
Theorem failed_pull_quarantines (env : Await → RolloutCoordinator → RolloutCoordinator) (ans : SyncAnswers) (replicas : list string)
    (ids : list RolloutInstanceId) (adv : Z) (c : RolloutCoordinator) :
  (∀ a, leaves ids (env a)) → (∀ r, r ∈ replicas → r ∈ server_handles c) → (∃ r, r ∈ replicas ∧ pulled ans r = None) →
  ∃ c', finish_gateway_sync env ans replicas ids adv c = Raise RuntimeError c' ∧
    (∀ r, r ∈ replicas → Server r fail_sync ∈ posts c') ∧ PauseWorkers ids ∈ posts c' ∧
    (∀ i, i ∈ ids → syncing c' i = syncing c i) ∧
    ∀ iter cfg lenv active c'' i, (∀ X i, i ∈ iter X ↔ i ∈ X) → (∀ i s, loop_view (lenv 0%nat i s) = loop_view s) →
      (∀ i, i ∈ instance_ids c'' → i.1 ∈ server_handles c'') → i ∈ ids → i ∈ instance_ids c'' → syncing c i = true → syncing c'' i = syncing c' i →
      ∃ d c3, greedy_round iter cfg lenv active c'' = Ret d c3 ∧ d ≠ CheckAndMigrate ∧ ∀ sel, d = SyncWith sel → i ∉ sel.
Proof.
  intros Henv Hr (r0 & Hr0 & Hnone). unfold finish_gateway_sync, or_quarantine, await. mrun.
  assert (gather_pulls ans replicas = None) as ->.
  { destruct (gather_pulls ans replicas) as [vs|] eqn:E; [|done]. destruct (gather_pulls_zip ans replicas vs r0 E Hr0) as (v & Hv & _). congruence. }
  simpl. unfold quarantine.
  destruct (call_servers_run replicas fail_sync (env AwFail) ids (env AwPulls c)) as (c1 & E1 & Hs1 & _ & Hp1);
    [done|intros r Hin; by apply (lv_handles _ _ (Henv AwPulls)), Hr|].
  rewrite run_assoc, (run_bind _ _ _ _ _ E1). unfold post, await. mrun. eexists. split; [done|].
  pose proof (lv_posts _ _ (Henv AwPauseWorkers) (with_posts (posts c1 ++ [PauseWorkers ids]) c1)) as [k Hk]. simpl in Hk.
  assert (∀ i, i ∈ ids → syncing (env AwPauseWorkers (with_posts (posts c1 ++ [PauseWorkers ids]) c1)) i = syncing c i) as Hs.
  { intros i Hi. rewrite (lv_syncing _ _ (Henv AwPauseWorkers)) by done. change (syncing c1 i = syncing c i).
    rewrite Hs1 by done. by apply (lv_syncing _ _ (Henv AwPulls)). }
  split_and!; [| |done|].
  - intros r Hin. rewrite Hk, !elem_of_app. left. left. destruct Hp1 as [k' ->]. rewrite !elem_of_app. left. right. apply list_elem_of_fmap. by exists r.
  - rewrite Hk, !elem_of_app. left. right. by apply list_elem_of_singleton.
  - intros iter cfg lenv active c'' i Hit Hle Hha Hi Hin Hci Hsame. apply syncing_blocks; [done..|]. rewrite Hsame, Hs; done.
Qed.

(** ** Concrete runs *)

Definition demo_rollout : RolloutCoordinator :=
  final ((add_worker "r0" 2 false 0 ;; add_worker "v0" 1 true 0 ;; update_ready_buffer 0 ;; set_ps_model_version 1) new_rollout).
Definition demo_calm : Await → RolloutCoordinator → RolloutCoordinator := λ _ c, c.
Definition demo_quiet : GatewayReply := mkReply None false 0.
Definition demo_answers (version : option Z) : SyncAnswers :=
  mkAnswers (λ _, false) false demo_quiet false false (Some (0, 2)) demo_quiet demo_quiet (λ _, version) (Some (0, 2)) false.
Definition demo_sync_config : SyncConfig := mkSyncConfig true true 0.
Definition demo_begun : RolloutCoordinator := final (sync_begin demo_calm (demo_answers (Some 1)) true true [("r0", 0)] demo_rollout).
Definition demo_instances : list RolloutInstanceId := [("r0", 0); ("r0", 1)].

Example demo_greedy : result (greedy_round elements demo_sync_config (λ _ _ c, c) (λ _, 0) demo_rollout) = inr (SyncWith demo_instances).
Proof. by vm_compute. Qed.

(** A push while the announcement is awaited: the gateway is told version 1, the
    completion believes that version 2 was advertised, and when the replica pulls
    version 2 nothing corrects the gateway. *)
Example push_during_sync_hides_version :
  let env a := match a with AwPublish => λ c, final (set_ps_model_version 2 c) | _ => λ c, c end in
  match sync_begin env (demo_answers (Some 2)) true true [("r0", 0)] demo_rollout with
  | Ret (Some (replicas, ids, adv)) c =>
      let c' := final (finish_gateway_sync env (demo_answers (Some 2)) replicas ids adv c) in
      adv = 2 ∧ gateway_version ("r0", 0) c' = Some 1 ∧ instance_to_model_version c' !! ("r0", 0) = Some 2 ∧
      instance_to_version_after_sync c' !! ("r0", 0) = Some 2 ∧ result (finish_gateway_sync env (demo_answers (Some 2)) replicas ids adv c) = inr tt
  | _ => False
  end.
Proof. vm_compute. repeat split; reflexivity. Qed.

Lemma sync_versions_agree_witness :
  ∃ v, pulled (demo_answers (Some 3)) "r0" = Some v ∧
    gateway_version ("r0", 1) (final (finish_gateway_sync demo_calm (demo_answers (Some 3)) ["r0"] demo_instances 1 demo_begun)) = Some v ∧
    instance_to_model_version (final (finish_gateway_sync demo_calm (demo_answers (Some 3)) ["r0"] demo_instances 1 demo_begun)) !! ("r0", 1) = Some v ∧
    instance_to_version_after_sync (final (finish_gateway_sync demo_calm (demo_answers (Some 3)) ["r0"] demo_instances 1 demo_begun)) !! ("r0", 1) = Some v.
Proof.
  apply (λ A B C D F, proj2 (sync_versions_agree demo_calm demo_calm (demo_answers (Some 1)) (demo_answers (Some 3)) true true [("r0", 0)] ["r0"] demo_instances 1
    demo_rollout demo_begun demo_begun _ A B C D F) ("r0", 1)).
  - vm_compute. reflexivity.
  - reflexivity.
  - intros a s i _. split_and!; reflexivity.
  - reflexivity.
  - vm_compute. reflexivity.
  - apply elem_of_cons. right. apply elem_of_cons. left. reflexivity.
Defined.

Lemma demo_handles i : i ∈ instance_ids demo_rollout → i.1 ∈ server_handles demo_rollout.
Proof.
  intros Hi. apply elem_of_elements in Hi. assert (elements (instance_ids demo_rollout) = [("v0", 0); ("r0", 0); ("r0", 1)]) as E by by vm_compute.
  rewrite E, !elem_of_cons in Hi. destruct Hi as [->|[->|[->|[]%not_elem_of_nil]]]; apply (bool_decide_unpack _); by vm_compute.
Qed.

Lemma greedy_round_exact_witness :
  ∃ d c', greedy_round elements demo_sync_config (λ _ _ c, c) (λ _, 0) demo_rollout = Ret d c' ∧
    ((∃ ids, d = SyncWith ids) ↔ ∃ i, i ∈ instance_ids demo_rollout ∧ due demo_sync_config (λ _, 0) demo_rollout i = true).
Proof.
  destruct (greedy_round_exact elements demo_sync_config (λ _ _ c, c) (λ _, 0) demo_rollout) as (d & c' & E & _ & H & _).
  - intros X i. apply elem_of_elements.
  - reflexivity.
  - exact demo_handles.
  - exists d, c'. split; [exact E|exact H].
Defined.

Lemma failed_pull_quarantines_witness :
  ∃ c', finish_gateway_sync demo_calm (demo_answers None) ["r0"] demo_instances 1 demo_begun = Raise RuntimeError c' ∧ PauseWorkers demo_instances ∈ posts c'.
Proof.
  destruct (failed_pull_quarantines demo_calm (demo_answers None) ["r0"] demo_instances 1 demo_begun) as (c' & E & _ & H & _).
  - intros a. split; reflexivity.
  - intros r Hr. apply list_elem_of_singleton in Hr as ->. apply (bool_decide_unpack _). vm_compute. exact I.
  - exists "r0". split; [apply list_elem_of_singleton; reflexivity|reflexivity].
  - exists c'. split; [exact E|exact H].
Defined.
