(* ===== verification/RolloutMigrate.v ===== *)
(** * Synchronisation checks and migration of rollout instances

    [check_should_sync] and [check_and_migrate]
    ([psrl/workers/gen/rollout_coordination/sync_and_migrate/sync_and_migrate_mixin.py])
    compose three parties: the coordinator's tables, the parameter-server manager
    and the gateway.  The manager is the model of [PSManager.v], so the checks run
    its methods and not a summary of them; the gateway's answers are arguments.
    The status stream that feeds the coordinator's tables
    ([rollout_coordination/status_loop.py]) is here too.

    As in [RolloutSync.v], [env] is what other coroutines and the manager's other
    clients do while a call is awaited: it comes before the effect of the call. *)

From S2P Require Import Prelude.
From S2P Require Import PyFloat.
From S2P Require Import PyData.
From S2P Require Import StalenessBuffer.
From S2P Require Import StalenessInventory.
From S2P Require Import RequestStatusTracker.
From S2P Require Import PSManager.
From S2P Require Import ManagerTheorems.
From S2P Require Import ClusterTopology.
From S2P Require Import CommandLoop.
From S2P Require Import RolloutSync.

#[local] Open Scope Z_scope.

(** ** State *)

Record Sys := mkSys { co : RolloutCoordinator; mgr : PSManager }.

Abbreviation Go := (M Sys).

Definition on_co {A} (m : Co A) : Go A := zoom co (λ c s, mkSys c (mgr s)) m.
Definition on_mgr {A} (m : Mgr A) : Go A := zoom mgr (λ m s, mkSys (co s) m) m.
Definition other (env : Sys → Sys) : Go unit := modify env.

Record MigrateConfig := mkMigrateConfig {
  method : string;
  status_collection : bool;
  sync_config : SyncConfig;
  check_req_before_sync : bool;
  sync_indicator : string;
  sync_threshold : float;
  mig_indicator : string;
  mig_threshold : float;
  stop_indicator : string;
  stop_threshold : float;
}.

(** ** The status stream *)

(** A snapshot as it arrives: the replica's index, the rank and the statistics. *)
Abbreviation StatusMessage := (Z * Z * EngineStats)%type.

Section status.
Context (replica_idx_to_replica_id : gmap Z string).

Definition message_instance (msg : StatusMessage) : Res RolloutInstanceId :=
  match replica_idx_to_replica_id !! msg.1.1 with Some r => inr (r, msg.1.2) | None => inl RuntimeError end.

(** The version the comment gives: every message is applied when it arrives. *)
Definition naive_status_step (msg : StatusMessage) : Co unit :=
  i ← of_res (message_instance msg);
  modify (λ c, with_engine (dict_set i msg.2 (instance_to_engine_status c)) c).

(** [d.update(d')] *)
Definition dict_update {K V} `{EqDecision K} (d d' : list (K * V)) : list (K * V) := foldl (λ d '(k, v), dict_set k v d) d d'.

(** One round of [_process_status_queue] on the messages it drains. *)
Definition process_status_queue (msgs : list StatusMessage) : Co unit :=
  latest_by_instance ← fold_each msgs [] (λ (msg : StatusMessage) latest, i ← of_res (message_instance msg); mret (dict_set i msg.2 latest));
  modify (λ c, with_engine (dict_update (instance_to_engine_status c) latest_by_instance) c).
End status.

(** ** Requests waiting at the gateway *)

(** [int(v)] with the error it raises. *)
Definition int_of_json (v : option Json) : Res Z :=
  match v with
  | Some (JStr s) => match py_int s with Some n => inr n | None => inl ValueError end
  | Some (JFloat x) => match ftrunc x with Some n => inr n | None => inl (if is_nan x then ValueError else OverflowError) end
  | Some (JInt n) => inr n
  | Some (JBool b) => inr (if b then 1 else 0)
  | _ => inl TypeError
  end.

Definition request_meta (req : Json) : Res (Z * bool) :=
  match json_get "request_id" req with
  | None => inl AttributeError
  | Some v =>
      match int_of_json v with
      | inl e => inl e
      | inr n => inr (n, match json_get "is_validate" req with Some (Some b) => json_true b | _ => false end)
      end
  end.

Fixpoint request_metas (reqs : list Json) : Res (list (Z * bool)) :=
  match reqs with
  | [] => inr []
  | req :: reqs =>
      match request_meta req with
      | inl e => inl e
      | inr x => match request_metas reqs with inl e => inl e | inr l => inr (x :: l) end
      end
  end.

(** [reply] is the decoded body, or the error of the request. *)
Definition fetch_filtered_request_meta (reply : Res Json) : Res (list (Z * bool)) :=
  match reply with
  | inl e => inl e
  | inr body => match json_iter body with None => inl TypeError | Some reqs => request_metas reqs end
  end.

(** ** Checks *)

Definition status_of (i : RolloutInstanceId) : Go EngineStats :=
  s ← gets id; of_option KeyError (assoc i (instance_to_engine_status (co s))).
Definition version_after_sync (i : RolloutInstanceId) : Go Z :=
  s ← gets id; of_option KeyError (instance_to_version_after_sync (co s) !! i).

(** [check_aborted_model_versions] on a single version. *)
Definition check_aborted_model_version (v : Z) (m : PSManager) : bool := bool_decide (v ≤ max_aborted_version m).

(** [[x for i, x in enumerate(xs) if bs[i]]] *)
Definition keep_where {A} (xs : list A) (bs : list bool) : list A := (filter (λ p, p.2 = true) (zip xs bs)).*1.

(** What an indicator reads of an instance's status. *)
Definition reading (ind : string) : option (EngineStats → float) :=
  if decide (ind = "request_num") then Some (λ st, of_Z (get_waiting_and_running_queue_size st))
  else if decide (ind = "throughput") then Some generation_throughput
  else if decide (ind = "kv_cache") then Some kv_cache_usage
  else None.

Section checks.
Context (iter : gset RolloutInstanceId → list RolloutInstanceId) (cfg : MigrateConfig).
Context (env : RolloutInstanceId → nat → Sys → Sys) (reply : RolloutInstanceId → Res Json).

(** The requests of [metas] that are not aborted and that the manager would let
    version [v] reserve. *)
Definition reservable_requests (i : RolloutInstanceId) (v : Z) (without_new : bool) (is_validate : one_or_many bool) (ids : list Z) : Go (list Z) :=
  match ids with
  | [] => mret []
  | _ =>
      other (env i 2%nat) ;;
      is_aborted ← on_mgr (check_aborted_requests ids false);
      let ids := keep_where ids (negb <$> is_aborted) in
      other (env i 3%nat) ;;
      can_reserve ← on_mgr (can_reserve_request ids [v] without_new is_validate);
      mret (keep_where ids ((λ r, bool_decide (r = [true])) <$> can_reserve))
  end.

Definition check_should_sync_inner (i : RolloutInstanceId) : Go bool :=
  instance_status ← status_of i;
  if bool_decide (0 < num_waiting instance_status) then mret false
  else
    v ← version_after_sync i;
    other (env i 0%nat) ;;
    aborted ← on_mgr (gets (check_aborted_model_version v));
    ids ← (if aborted : bool then mret []
           else other (env i 1%nat) ;; metas ← of_res (fetch_filtered_request_meta (reply i)); mret metas.*1);
    ids ← reservable_requests i v true (One false) ids;
    if bool_decide (ids ≠ []) && check_req_before_sync cfg then mret false
    else
      read ← of_option ValueError (reading (sync_indicator cfg));
      st ← (if decide (sync_indicator cfg = "throughput") then status_of i else mret instance_status);
      mret (negb (fltb (sync_threshold cfg) (read st))).

Definition check_should_sync (i : RolloutInstanceId) : Go bool :=
  assert (bool_decide (method cfg = "status_based")) ;;
  assert (status_collection cfg) ;;
  assert (partial_rollout (sync_config cfg)) ;;
  check_should_sync_inner i.

(** ** Migration *)

(** Whether an instance has nothing it could be given. *)
Definition is_starved (i : RolloutInstanceId) : Go bool :=
  st ← status_of i;
  if bool_decide (num_waiting st ≠ 0) then mret false
  else
    v ← version_after_sync i;
    other (env i 0%nat) ;;
    aborted ← on_mgr (gets (check_aborted_model_version v));
    if aborted : bool then mret false
    else
      other (env i 1%nat) ;;
      metas ← of_res (fetch_filtered_request_meta (reply i));
      ids ← reservable_requests i v false (Many metas.*2) metas.*1;
      mret (bool_decide (ids = [])).

Definition starved_instances : Go (list RolloutInstanceId) :=
  s ← gets id;
  fold_each (iter (instance_ids (co s))) [] (λ i acc, b ← is_starved i; mret (if b : bool then acc ++ [i] else acc)).

Definition load_ratio (x starved : float) : float :=
  if feqb starved fzero then (if fltb fzero x then inf else fone) else fdiv x starved.

Definition add_candidate (starved i : RolloutInstanceId) (acc : list (RolloutInstanceId * float)) : Go (list (RolloutInstanceId * float)) :=
  if decide (i = starved) then mret acc
  else
    v ← version_after_sync i;
    v' ← version_after_sync starved;
    if bool_decide (v' < v) then mret acc
    else
      read ← of_option ValueError (reading (mig_indicator cfg));
      st ← status_of i;
      st' ← status_of starved;
      let r := load_ratio (read st) (read st') in
      mret (if fltb (mig_threshold cfg) r then acc ++ [(i, r)] else acc).

Definition candidates (starved : list RolloutInstanceId) : Go (list (RolloutInstanceId * float)) :=
  fold_each starved [] (λ j acc, s ← gets id; fold_each (iter (instance_ids (co s))) acc (add_candidate j)).

Definition check_should_migrate : Go (list RolloutInstanceId) :=
  starved ← starved_instances;
  cands ← candidates starved;
  match sort_lt (λ a b : RolloutInstanceId * float, fltb b.2 a.2) cands with
  | [] => mret []
  | (i, _) :: _ =>
      read ← of_option ValueError (reading (stop_indicator cfg));
      st ← status_of i;
      mret (if fltb (read st) (stop_threshold cfg) then [] else [i])
  end.

(** The awaits of a migration and the answers it gets: how the abort command and
    the draining end. *)
Inductive MigAwait := MwPause | MwAbort | MwDrain | MwResume.

Definition check_and_migrate (menv : MigAwait → RolloutCoordinator → RolloutCoordinator) (paused resumed : GatewayReply)
    (abort_failed : option exn) (drain_failed loop_back : bool) : Go unit :=
  assert (mig_enable (sync_config cfg)) ;;
  assert (status_collection cfg) ;;
  ids ← check_should_migrate;
  if bool_decide (ids = []) then mret tt
  else
    on_co (set_routing false paused (menv MwPause)) ;;
    on_co (post (AbortCommand ids) ;; await (menv MwAbort)) ;;
    match abort_failed with Some e => raise e | None => mret tt end ;;
    (if loop_back then on_co (call_servers (replicas_of ids) wait_for_requests_to_drain drain_failed (menv MwDrain)) else mret tt) ;;
    on_co (set_routing true resumed (menv MwResume)).
End checks.

(** ** The status stream *)

Section dict_update.
Context {K V : Type} `{EqDecision K}.
Implicit Types (d l : list (K * V)).

Lemma dict_set_set k v v' d : dict_set k v (dict_set k v' d) = dict_set k v d.
Proof.
  induction d as [|[k' w] d IH]; simpl; [by rewrite decide_True|].
  case_decide; simpl; [by rewrite !decide_True|by rewrite decide_False, IH].
Qed.

Lemma dict_set_comm k k' v v' d : k ≠ k' → k ∈ d.*1 → dict_set k' v' (dict_set k v d) = dict_set k v (dict_set k' v' d).
Proof.
  intros Hne. induction d as [|[j w] d IH]; rewrite ?fmap_cons; [by intros []%not_elem_of_nil|]. intros Hin. simpl.
  destruct (decide (j = k)) as [Hj|Hj], (decide (j = k')) as [Hj'|Hj']; subst; simpl; try done.
  - rewrite decide_False by done. by rewrite decide_True.
  - rewrite (decide_True (P := k' = k')), decide_False by done. done.
  - rewrite !decide_False by done. f_equal. apply IH. apply elem_of_cons in Hin as [->|?]; done.
Qed.

Lemma dict_set_in k v d : k ∈ (dict_set k v d).*1.
Proof. destruct (dict_set_keys k v d) as [[Hin ->] | [_ ->]]; [done|]. apply elem_of_app. right. by apply list_elem_of_singleton. Qed.

Lemma dict_set_update k v d l : k ∉ l.*1 → k ∈ d.*1 → dict_update (dict_set k v d) l = dict_set k v (dict_update d l).
Proof.
  unfold dict_update. revert d. induction l as [|[j w] l IH]; intros d; [done|]. rewrite fmap_cons, not_elem_of_cons. simpl. intros [Hj Hl] Hin.
  rewrite dict_set_comm by done. apply IH; [done|]. destruct (dict_set_keys j w d) as [[_ ->] | [_ ->]]; [done|]. apply elem_of_app. by left.
Qed.

(** Updating with a table in which one entry was replaced is replacing it after
    the update. *)
Lemma dict_update_set k v d l : NoDup l.*1 → dict_update d (dict_set k v l) = dict_set k v (dict_update d l).
Proof.
  revert d. induction l as [|[j w] l IH]; intros d; [done|]. rewrite fmap_cons, NoDup_cons. simpl. intros [Hj Hl].
  case_decide as Hjk; subst; unfold dict_update in *; simpl; [|by apply IH].
  pose proof (dict_set_update k v (dict_set k w d) l Hj (dict_set_in k w d)) as Hu. unfold dict_update in Hu.
  by rewrite <-Hu, dict_set_set.
Qed.
End dict_update.

Lemma naive_status_run idx msg c :
  naive_status_step idx msg c =
    match message_instance idx msg with
    | inl e => Raise e c
    | inr i => Ret tt (with_engine (dict_set i msg.2 (instance_to_engine_status c)) c)
    end.
Proof. unfold naive_status_step. by destruct (message_instance idx msg). Qed.

(** C32: Coalescing a burst of status messages is the same as applying them one by
    one as they arrive, table order included; when a message comes from an unknown
    replica both raise, and the coalesced round then leaves the table as it was. *)
Theorem coalesced_status_equiv (idx : gmap Z string) (msgs : list StatusMessage) (c : RolloutCoordinator) :
  process_status_queue idx msgs c =
    match for_each msgs (naive_status_step idx) c with Ret _ c' => Ret tt c' | Raise e _ => Raise e c end.
Proof.
  unfold process_status_queue.
  enough (∀ latest, NoDup latest.*1 →
    (fold_each msgs latest (λ (msg : StatusMessage) l, i ← of_res (message_instance idx msg); mret (dict_set i msg.2 l)) ≫=
      λ l, modify (λ c, with_engine (dict_update (instance_to_engine_status c) l) c)) c =
    match for_each msgs (naive_status_step idx) (with_engine (dict_update (instance_to_engine_status c) latest) c) with
    | Ret _ c' => Ret tt c' | Raise e _ => Raise e c end) as H.
  { rewrite (H [] (NoDup_nil_2)). unfold dict_update. simpl. by destruct c. }
  induction msgs as [|msg msgs IH]; intros latest Hnd; cbn [fold_each for_each]; [done|].
  rewrite run_assoc. pose proof (naive_status_run idx msg (with_engine (dict_update (instance_to_engine_status c) latest) c)) as Hn.
  destruct (message_instance idx msg) as [e|i]; [by rewrite (run_bind_raise _ _ _ _ _ Hn)|]. rewrite (run_bind _ _ _ _ _ Hn).
  rewrite run_assoc, (run_of_res _ i) by done. rewrite run_mret, IH by (by apply dict_set_NoDup). by rewrite dict_update_set.
Qed.

(** ** Filtering the requests *)

(** The tracker answers that a request is aborted, or does not know it. *)
Definition gone (m : PSManager) (x : Z) : bool :=
  bool_decide (x ∈ abort_request_ids (tracker m) ∨ request_id_to_status (tracker m) !! x = None).

(** A request that version [v] may serve with a reservation that exists. *)
Definition useful (m : PSManager) (v x : Z) : bool :=
  negb (check_aborted_model_version v m) && negb (gone m x) &&
  can_reserve_data_without_new_reserve_entry (request_info m INVALID_ROLLOUT_INSTANCE_ID x v false) v (staleness_inventory m).

Lemma keep_where_map {A} (f : A → bool) xs : keep_where xs (f <$> xs) = filter (λ x, f x = true) xs.
Proof.
  unfold keep_where. induction xs as [|x xs IH]; [done|]. rewrite fmap_cons. simpl. rewrite !filter_cons. simpl.
  case_decide; [rewrite fmap_cons; by f_equal|done].
Qed.

Lemma check_aborted_requests_run m ids :
  tracker_ok (tracker m) → check_aborted_requests ids false m = Ret (gone m <$> ids) m.
Proof.
  intros Hok. unfold check_aborted_requests. induction ids as [|x ids IH]; [done|]. cbn [map_each].
  assert (on_tracker (check_aborted_request x false) m = Ret (gone m x) m) as E.
  { unfold on_tracker, zoom, check_aborted_request, gone. mrun. case_bool_decide as Ha; [rewrite bool_decide_true by auto; by destruct m|].
    destruct (request_id_to_status (tracker m) !! x) as [st|] eqn:Hs.
    - destruct (request_infos (tracker m) !! x) eqn:Hi; [rewrite bool_decide_false by naive_solver; by destruct m|].
      apply tk_None in Hi; [congruence|done].
    - rewrite run_assert_decide by (by apply tk_None). rewrite bool_decide_true by auto. by destruct m. }
  rewrite (run_bind _ _ _ _ _ E), (run_bind _ _ _ _ _ IH). done.
Qed.

Lemma can_reserve_existing_run m v ids :
  v ≠ -1 → check_aborted_model_version v m = false → (∀ x, x ∈ ids → gone m x = false) →
  can_reserve_request ids [v] true (One false) m = Ret ((λ x, [useful m v x]) <$> ids) m.
Proof.
  intros Hv Hver Hlive. unfold can_reserve_request. rewrite run_assert by done. unfold spread.
  induction ids as [|x ids IH]; [done|]. simpl. cbn [map_each].
  assert (gone m x = false) as Hx by (apply Hlive, elem_of_cons; by left).
  assert (can_reserve_one x v true false m = Ret (useful m v x) m) as E.
  { unfold can_reserve_one, useful. rewrite Hver, Hx. mrun. unfold check_aborted_model_version in Hver. rewrite run_assert_decide by done.
    rewrite run_assert_decide by (unfold gone in Hx; apply bool_decide_eq_false in Hx; naive_solver). by rewrite Hver. }
  rewrite run_assoc, (run_bind _ _ _ _ _ E), run_assoc, run_mret, run_mret.
  rewrite (run_bind _ _ _ _ _ (IH (λ y Hy, Hlive y (proj2 (elem_of_cons _ _ _) (or_intror Hy))))). done.
Qed.

(** What a check reads. *)
Definition check_view (s : Sys) := (mgr s, instance_ids (co s), instance_to_engine_status (co s), instance_to_version_after_sync (co s)).

Lemma view_mgr s s' : check_view s' = check_view s → mgr s' = mgr s.
Proof. unfold check_view. by intros [= ? _ _ _]. Qed.

Section run.
Context (env : RolloutInstanceId → nat → Sys → Sys).
Hypothesis calm : ∀ i k s, check_view (env i k s) = check_view s.

Lemma reservable_existing_run i v ids s :
  tracker_ok (tracker (mgr s)) → v ≠ -1 → check_aborted_model_version v (mgr s) = false →
  ∃ s', reservable_requests env i v true (One false) ids s = Ret (filter (λ x, useful (mgr s) v x = true) ids) s' ∧ check_view s' = check_view s.
Proof.
  intros Hok Hv Hver. destruct ids as [|x0 ids0] eqn:Eids; [by exists s|]. unfold reservable_requests. rewrite <-Eids. clear x0 ids0 Eids.
  unfold other. mrun. set (s1 := env i 2%nat s). assert (mgr s1 = mgr s) as Hm1 by apply view_mgr, calm.
  assert (on_mgr (check_aborted_requests ids false) s1 = Ret (gone (mgr s) <$> ids) s1) as E1.
  { unfold on_mgr, zoom. rewrite Hm1, check_aborted_requests_run by done. rewrite <-Hm1. by destruct s1. }
  rewrite (run_bind _ _ _ _ _ E1). mrun. set (s2 := env i 3%nat s1).
  assert (mgr s2 = mgr s) as Hm2 by (rewrite <-Hm1; apply view_mgr, calm).
  assert (keep_where ids (negb <$> (gone (mgr s) <$> ids)) = filter (λ x, negb (gone (mgr s) x) = true) ids) as ->.
  { rewrite <-list_fmap_compose. apply (keep_where_map (λ x, negb (gone (mgr s) x))). }
  set (live := filter _ ids).
  assert (on_mgr (can_reserve_request live [v] true (One false)) s2 = Ret ((λ x, [useful (mgr s) v x]) <$> live) s2) as E2.
  { unfold on_mgr, zoom. rewrite Hm2, can_reserve_existing_run; [rewrite <-Hm2; by destruct s2|done|done|].
    intros x [Hx _]%list_elem_of_filter. by destruct (gone (mgr s) x). }
  rewrite (run_bind _ _ _ _ _ E2). exists s2. split; [|unfold s2, s1; by rewrite !calm]. unfold mret, M_ret. f_equal.
  rewrite <-list_fmap_compose. rewrite (list_fmap_ext _ (useful (mgr s) v) live) by (intros; simpl; by destruct (useful _ _ _)).
  rewrite keep_where_map. unfold live. rewrite list_filter_filter. apply list_filter_iff. intros x. unfold useful. destruct (gone (mgr s) x); simpl; rewrite ?andb_false_r; naive_solver.
Qed.

(** The requests the gateway queues, down to the useful ones. *)
Lemma useful_requests_run reply i v metas s :
  tracker_ok (tracker (mgr s)) → v ≠ -1 → fetch_filtered_request_meta (reply i) = inr metas →
  ∃ s', ((if check_aborted_model_version v (mgr s) then mret []
          else other (env i 1%nat) ;; metas ← of_res (fetch_filtered_request_meta (reply i)); mret metas.*1) ≫=
         reservable_requests env i v true (One false)) s =
      Ret (filter (λ x, useful (mgr s) v x = true) metas.*1) s' ∧ check_view s' = check_view s.
Proof.
  intros Hok Hv Hreply. destruct (check_aborted_model_version v (mgr s)) eqn:Hver.
  - exists s. rewrite run_mret. split; [|done]. simpl. unfold mret, M_ret. f_equal.
    symmetry. rewrite (list_filter_iff _ (λ _, False)); [|intros x; unfold useful; by rewrite Hver]. induction metas.*1; [done|]. by rewrite filter_cons.
  - pose proof (view_mgr _ _ (calm i 1%nat s)) as Hm.
    destruct (reservable_existing_run i v metas.*1 (env i 1%nat s)) as (s3 & E3 & Hs3); rewrite ?Hm; [done..|]. rewrite Hm in E3.
    exists s3. split; [|by rewrite Hs3, calm]. unfold other. mrun. by rewrite (run_of_res _ metas), run_mret.
Qed.
End run.

(** While nobody else changes what it reads, a synchronisation check of the
    status-based loop returns, leaves it unchanged, and says yes exactly when the
    instance has no waiting requests, its indicator is not above the threshold
    and, if requests are to be checked, the gateway queues none that is alive in
    the manager's tracker and has a reservation the instance's version can use. *)
Theorem should_sync_exact (cfg : MigrateConfig) (env : RolloutInstanceId → nat → Sys → Sys) (reply : RolloutInstanceId → Res Json)
    (i : RolloutInstanceId) (s : Sys) (st : EngineStats) (v : Z) (metas : list (Z * bool)) (read : EngineStats → float) :
  (∀ i k s, check_view (env i k s) = check_view s) → tracker_ok (tracker (mgr s)) →
  assoc i (instance_to_engine_status (co s)) = Some st → instance_to_version_after_sync (co s) !! i = Some v → v ≠ -1 →
  fetch_filtered_request_meta (reply i) = inr metas → reading (sync_indicator cfg) = Some read →
  method cfg = "status_based" → status_collection cfg = true → partial_rollout (sync_config cfg) = true →
  ∃ s', check_should_sync cfg env reply i s =
      Ret (bool_decide (num_waiting st ≤ 0) && negb (check_req_before_sync cfg && existsb (useful (mgr s) v) metas.*1) &&
           negb (fltb (sync_threshold cfg) (read st))) s' ∧ check_view s' = check_view s.
Proof.
  intros calm Hok Hst Hv Hv1 Hreply Hread Hme Hsc Hpr. unfold check_should_sync. rewrite run_assert_decide, !run_assert by done.
  unfold check_should_sync_inner.
  assert (∀ s1, check_view s1 = check_view s → status_of i s1 = Ret st s1) as Hstat.
  { intros s1 [= _ _ He _]. unfold status_of. mrun. by rewrite He, Hst. }
  rewrite (run_bind _ _ _ _ _ (Hstat s eq_refl)). destruct (decide (0 < num_waiting st)); [rewrite bool_decide_true, bool_decide_false by lia; by exists s|].
  rewrite bool_decide_false, bool_decide_true by lia.
  assert (version_after_sync i s = Ret v s) as E by (unfold version_after_sync; mrun; by rewrite Hv). rewrite (run_bind _ _ _ _ _ E). clear E.
  unfold other. mrun. set (s1 := env i 0%nat s). assert (check_view s1 = check_view s) as Hs1 by apply calm.
  assert (on_mgr (gets (check_aborted_model_version v)) s1 = Ret (check_aborted_model_version v (mgr s)) s1) as E
    by (rewrite <-(view_mgr _ _ Hs1); by destruct s1).
  rewrite (run_bind _ _ _ _ _ E). clear E.
  destruct (useful_requests_run env calm reply i v metas s1) as (s3 & E3 & Hs3); rewrite ?(view_mgr _ _ Hs1); [done..|]. rewrite (view_mgr _ _ Hs1) in E3.
  rewrite <-run_assoc, (run_bind _ _ _ _ _ E3). rewrite Hs1 in Hs3.
  assert (bool_decide (filter (λ x, useful (mgr s) v x = true) metas.*1 ≠ []) = existsb (useful (mgr s) v) metas.*1) as ->.
  { clear. induction metas.*1 as [|x l IH]; [done|]. rewrite filter_cons. simpl. case_decide as Hx; [by rewrite Hx|]. apply not_true_is_false in Hx. by rewrite Hx. }
  rewrite (andb_comm (existsb _ _)). destruct (check_req_before_sync cfg && existsb (useful (mgr s) v) metas.*1); [by exists s3|]. simpl.
  rewrite Hread. rewrite (run_of_option _ _ read) by done. case_decide; [rewrite (run_bind _ _ _ _ _ (Hstat s3 Hs3))|rewrite run_mret]; by exists s3.
Qed.

(** ** An aborted request stops the migration check *)

(** What decides whether the check fails. *)
Definition abort_view (s : Sys) :=
  (tracker (mgr s), max_aborted_version (mgr s), instance_ids (co s), instance_to_engine_status (co s), instance_to_version_after_sync (co s)).

Lemma keeps_on_inventory_abort {A} val (m : Inv A) : keeps (λ m, (tracker m, max_aborted_version m)) (on_inventory val m).
Proof. unfold on_inventory. destruct val; by apply keeps_zoom_outside. Qed.

Lemma keeps_can_reserve ids vs without_new val : keeps (λ m, (tracker m, max_aborted_version m)) (can_reserve_request ids vs without_new val).
Proof.
  unfold can_reserve_request, can_reserve_one. keeps_tac. apply keeps_on_inventory_abort.
Qed.

Lemma keeps_on_mgr {A} (m : Mgr A) : keeps (λ m, (tracker m, max_aborted_version m)) m → keeps abort_view (on_mgr m).
Proof.
  intros Hm s. unfold on_mgr, zoom. specialize (Hm (mgr s)). destruct (m (mgr s)); simpl in *; unfold abort_view; simpl; by injection Hm as -> ->.
Qed.

Section aborted.
Context (iter : gset RolloutInstanceId → list RolloutInstanceId) (cfg : MigrateConfig).
Context (env : RolloutInstanceId → nat → Sys → Sys) (reply : RolloutInstanceId → Res Json).
Hypothesis calm : ∀ i k s, abort_view (env i k s) = abort_view s.

Lemma check_aborted_request_keep t x : final (check_aborted_request x false t) = t.
Proof.
  unfold check_aborted_request. mrun. case_bool_decide; [done|]. destruct (request_id_to_status t !! x); [destruct (request_infos t !! x); [done|]|]; by case_bool_decide.
Qed.

Lemma keeps_is_starved i : keeps abort_view (is_starved env reply i).
Proof.
  assert (∀ k, keeps abort_view (other (env i k))) by (intros k; apply keeps_modify; intros; apply calm).
  unfold is_starved, reservable_requests, status_of, version_after_sync.
  assert (∀ ids, keeps abort_view (on_mgr (check_aborted_requests ids false))).
  { intros ids. apply keeps_on_mgr. apply keeps_map_each. intros x. intros m. unfold on_tracker, zoom.
    pose proof (check_aborted_request_keep (tracker m) x) as H1. destruct (check_aborted_request x false (tracker m)); simpl in *; by subst. }
  assert (∀ v, keeps abort_view (on_mgr (gets (check_aborted_model_version v)))) by (intros v; apply keeps_on_mgr, keeps_gets).
  assert (∀ ids v val, keeps abort_view (on_mgr (can_reserve_request ids [v] false val))) by (intros; apply keeps_on_mgr, keeps_can_reserve).
  keeps_tac; auto.
Qed.

Lemma starved_raises i s st v metas x :
  tracker_ok (tracker (mgr s)) → assoc i (instance_to_engine_status (co s)) = Some st → num_waiting st = 0 →
  instance_to_version_after_sync (co s) !! i = Some v → max_aborted_version (mgr s) < v →
  fetch_filtered_request_meta (reply i) = inr metas → x ∈ metas.*1 → gone (mgr s) x = true →
  ∃ s', is_starved env reply i s = Raise AssertionError s'.
Proof.
  intros Hok Hst Hw Hv Hver Hreply Hx Hgone. unfold is_starved.
  assert (status_of i s = Ret st s) as E1 by (unfold status_of; mrun; by rewrite Hst). rewrite (run_bind _ _ _ _ _ E1).
  rewrite bool_decide_false by lia.
  assert (version_after_sync i s = Ret v s) as E2 by (unfold version_after_sync; mrun; by rewrite Hv). rewrite (run_bind _ _ _ _ _ E2).
  unfold other. mrun. set (s1 := env i 0%nat s). pose proof (calm i 0%nat s) as Hs1. fold s1 in Hs1.
  assert (on_mgr (gets (check_aborted_model_version v)) s1 = Ret false s1) as E3.
  { unfold on_mgr, zoom, gets, check_aborted_model_version. injection Hs1 as _ -> _ _ _. rewrite bool_decide_false by lia. by destruct s1. }
  rewrite (run_bind _ _ _ _ _ E3). mrun. rewrite (run_of_res _ metas) by done. set (s2 := env i 1%nat s1).
  pose proof (calm i 1%nat s1) as Hs2. fold s2 in Hs2. rewrite Hs1 in Hs2.
  unfold reservable_requests. destruct metas.*1 as [|y ys] eqn:Em; [by apply not_elem_of_nil in Hx|]. rewrite <-Em in *. unfold other. mrun.
  set (s3 := env i 2%nat s2). pose proof (calm i 2%nat s2) as Hs3. fold s3 in Hs3. rewrite Hs2 in Hs3. injection Hs3 as Ht _ _ _ _.
  assert (on_mgr (check_aborted_requests metas.*1 false) s3 = Ret (gone (mgr s3) <$> metas.*1) s3) as E4.
  { unfold on_mgr, zoom. rewrite check_aborted_requests_run by (by rewrite Ht). by destruct s3. }
  rewrite (run_bind _ _ _ _ _ E4). mrun. unfold on_mgr, zoom, can_reserve_request.
  assert (gone (mgr s3) x = true) as Hg3 by (unfold gone in *; by rewrite Ht).
  assert (length (keep_where metas.*1 (negb <$> (gone (mgr s3) <$> metas.*1))) < length metas)%nat as Hlen.
  { rewrite <-list_fmap_compose, (keep_where_map (negb ∘ gone (mgr s3))), <-(length_fmap fst metas).
    apply (length_filter_lt _ _ x); [done|]. simpl. by rewrite Hg3. }
  eexists. unfold mbind, M_bind at 1. unfold assert at 1. rewrite bool_decide_false by (rewrite length_fmap; lia). done.
Qed.

Lemma fold_each_raises {S A B} (I : S → Prop) (l : list A) (acc : B) (body : A → B → M S B) x s :
  (∀ y acc s, I s → I (final (body y acc s))) → (∀ acc s, I s → ∃ e s', body x acc s = Raise e s') →
  x ∈ l → I s → ∃ e s', fold_each l acc body s = Raise e s'.
Proof.
  intros Hinv Hx. revert acc s. induction l as [|y l IH]; intros acc s; [intros []%not_elem_of_nil|]. intros Hin Hs. cbn [fold_each].
  unfold mbind, M_bind. pose proof (Hinv y acc s Hs) as Hf. destruct (body y acc s) as [b s1|e s1] eqn:E; [|by eexists _, _].
  apply IH; [|done]. apply elem_of_cons in Hin as [<-|?]; [|done]. destruct (Hx acc s Hs) as (e & s' & E'). congruence.
Qed.
End aborted.

(** C33: When the gateway still queues a request that the manager has aborted or
    forgotten, for an instance with an empty waiting queue and a live version, the
    migration check does not return: it raises, whatever the other instances look
    like, because the validation flags are not filtered with the requests.  The
    loop that awaits it has no handler, so it ends. *)
Theorem aborted_request_breaks_migration (iter : gset RolloutInstanceId → list RolloutInstanceId) (cfg : MigrateConfig)
    (env : RolloutInstanceId → nat → Sys → Sys) (reply : RolloutInstanceId → Res Json)
    (i : RolloutInstanceId) (s : Sys) (st : EngineStats) (v x : Z) (metas : list (Z * bool)) :
  (∀ i k s, abort_view (env i k s) = abort_view s) → tracker_ok (tracker (mgr s)) →
  (∀ X j, j ∈ iter X ↔ j ∈ X) → i ∈ instance_ids (co s) →
  assoc i (instance_to_engine_status (co s)) = Some st → num_waiting st = 0 →
  instance_to_version_after_sync (co s) !! i = Some v → max_aborted_version (mgr s) < v →
  fetch_filtered_request_meta (reply i) = inr metas → x ∈ metas.*1 → gone (mgr s) x = true →
  ∃ e s', check_should_migrate iter cfg env reply s = Raise e s'.
Proof.
  intros calm Hok Hiter Hi Hst Hw Hv Hver Hreply Hx Hgone. unfold check_should_migrate.
  destruct (fold_each_raises (λ s1, abort_view s1 = abort_view s) (iter (instance_ids (co s))) [] (λ i acc, b ← is_starved env reply i; mret (if b : bool then acc ++ [i] else acc)) i s)
    as (e & s' & E); [| |by apply Hiter|done|].
  - intros y acc s1 H1. rewrite <-H1. revert s1 H1. intros s1 _. apply keeps_bind; [by apply keeps_is_starved|intros; apply keeps_ret].
  - intros acc s1 H1. injection H1 as Ht Hm _ He Hva.
    destruct (starved_raises env reply calm i s1 st v metas x) as (s2 & E); [by rewrite Ht|by rewrite He|done|by rewrite Hva|by rewrite Hm|done|done|by unfold gone in *; rewrite Ht|].
    exists AssertionError, s2. by rewrite (run_bind_raise _ _ _ _ _ E).
  - exists e, s'. assert (starved_instances iter env reply s = Raise e s') as E' by (unfold starved_instances; mrun; exact E).
    by rewrite (run_bind_raise _ _ _ _ _ E').
Qed.

(** ** The instance that is migrated *)

(** [i] is loaded [r] times as much as the starved instance [j], which its
    requests may move to. *)
Definition is_candidate (cfg : MigrateConfig) (c : RolloutCoordinator) (j i : RolloutInstanceId) (r : float) : Prop :=
  i ≠ j ∧ ∃ v v' read st st',
    instance_to_version_after_sync c !! i = Some v ∧ instance_to_version_after_sync c !! j = Some v' ∧ v ≤ v' ∧
    reading (mig_indicator cfg) = Some read ∧
    assoc i (instance_to_engine_status c) = Some st ∧ assoc j (instance_to_engine_status c) = Some st' ∧
    r = load_ratio (read st) (read st') ∧ fltb (mig_threshold cfg) r = true.

Lemma add_candidate_Ret cfg j i acc s acc' s' :
  add_candidate cfg j i acc s = Ret acc' s' → s' = s ∧ ∀ p, p ∈ acc' ↔ p ∈ acc ∨ p.1 = i ∧ is_candidate cfg (co s) j i p.2.
Proof.
  unfold add_candidate. case_decide as Hij; [intros [= <- <-]; split; [done|]; intros p; split; [tauto|]; intros [?|[_ [? _]]]; done|].
  unfold version_after_sync, status_of. mrun.
  destruct (instance_to_version_after_sync (co s) !! i) as [v|] eqn:Hv; [|done]. rewrite (run_of_option _ _ v) by done. mrun.
  destruct (instance_to_version_after_sync (co s) !! j) as [v'|] eqn:Hv'; [|done]. rewrite (run_of_option _ _ v') by done. mrun.
  case_bool_decide.
  { intros [= <- <-]. split; [done|]. intros p. split; [tauto|]. intros [?|(_ & _ & w & w' & ? & ? & ? & Hw & Hw' & ? & _)]; [done|]. simplify_eq. lia. }
  destruct (reading (mig_indicator cfg)) as [read|] eqn:Hr; [|done]. rewrite (run_of_option _ _ read) by done. mrun.
  destruct (assoc i (instance_to_engine_status (co s))) as [st|] eqn:Hs; [|done]. rewrite (run_of_option _ _ st) by done. mrun.
  destruct (assoc j (instance_to_engine_status (co s))) as [st'|] eqn:Hs'; [|done]. rewrite (run_of_option _ _ st') by done.
  intros [= <- <-]. split; [done|]. intros [i' r']. simpl.
  destruct (fltb (mig_threshold cfg) (load_ratio (read st) (read st'))) eqn:Ef.
  - rewrite elem_of_app, list_elem_of_singleton. apply or_iff_compat_l. split.
    + intros [= -> ->]. split; [done|]. split; [done|]. exists v, v', read, st, st'. split_and!; try done. lia.
    + intros (-> & _ & w & w' & ? & ? & ? & Hw & Hw' & _ & ? & ? & ? & -> & _). by simplify_eq.
  - split; [tauto|]. intros [?|(-> & _ & w & w' & ? & ? & ? & Hw & Hw' & _ & ? & ? & ? & -> & ?)]; [done|]. simplify_eq. congruence.
Qed.

Lemma candidates_Ret iter cfg starved s cands s' :
  candidates iter cfg starved s = Ret cands s' →
  s' = s ∧ ∀ i r, (i, r) ∈ cands ↔ i ∈ iter (instance_ids (co s)) ∧ ∃ j, j ∈ starved ∧ is_candidate cfg (co s) j i r.
Proof.
  unfold candidates.
  assert (∀ j l acc acc' s1 s2, fold_each l acc (add_candidate cfg j) s1 = Ret acc' s2 →
    s2 = s1 ∧ ∀ p, p ∈ acc' ↔ p ∈ acc ∨ p.1 ∈ l ∧ is_candidate cfg (co s1) j p.1 p.2) as Hin.
  { intros j l. induction l as [|i l IH]; intros acc acc' s1 s2; cbn [fold_each].
    - intros [= <- <-]. split; [done|]. intros p. split; [tauto|]. intros [?|[[]%not_elem_of_nil _]]; done.
    - intros (a & s3 & E1 & E2)%bind_Ret. apply add_candidate_Ret in E1 as [-> H1]. apply IH in E2 as [-> H2]. split; [done|].
      intros p. rewrite H2, H1, elem_of_cons. split; [intros [[?|[-> ?]]|[? ?]]; tauto|]. intros [?|[[->|?] ?]]; tauto. }
  enough (∀ acc, fold_each starved acc (λ j acc, s ← gets id; fold_each (iter (instance_ids (co s))) acc (add_candidate cfg j)) s = Ret cands s' →
    s' = s ∧ ∀ p, p ∈ cands ↔ p ∈ acc ∨ p.1 ∈ iter (instance_ids (co s)) ∧ ∃ j, j ∈ starved ∧ is_candidate cfg (co s) j p.1 p.2) as H.
  { intros E. destruct (H _ E) as [-> H']. split; [done|]. intros i r. rewrite H'. simpl. split; [intros [[]%not_elem_of_nil|?]; done|tauto]. }
  induction starved as [|j starved IH]; intros acc; cbn [fold_each].
  - intros [= <- <-]. split; [done|]. intros p. split; [tauto|]. intros [?|(_ & j & []%not_elem_of_nil & _)]; done.
  - intros (a & s3 & E1 & E2)%bind_Ret. rewrite run_gets in E1. apply Hin in E1 as [-> H1]. apply IH in E2 as [-> H2]. split; [done|].
    intros p. unfold id in H1. rewrite H2, H1. setoid_rewrite elem_of_cons. split.
    + intros [[?|[? ?]]|(? & j' & ? & ?)]; [by left|right; eauto|right; eauto].
    + intros [?|(? & j' & [->|?] & ?)]; [tauto|tauto|right; eauto].
Qed.

(** The migration check, when it returns, names at most one instance.  It is
    one of those whose requests a starved instance could take over (its version is
    not newer) and whose load exceeds that instance's by more than the threshold;
    no other such pair has a greater ratio; and its own load is not below the stop
    threshold.  It names none only if there is no such pair, or the one with the
    greatest ratio is below the stop threshold. *)
Theorem migrate_exact (iter : gset RolloutInstanceId → list RolloutInstanceId) (cfg : MigrateConfig)
    (env : RolloutInstanceId → nat → Sys → Sys) (reply : RolloutInstanceId → Res Json)
    (s s1 s2 : Sys) (starved res : list RolloutInstanceId) :
  starved_instances iter env reply s = Ret starved s1 → check_should_migrate iter cfg env reply s = Ret res s2 →
  let pair i r := i ∈ iter (instance_ids (co s1)) ∧ ∃ j, j ∈ starved ∧ is_candidate cfg (co s1) j i r in
  s2 = s1 ∧
  ((res = [] ∧ ∀ i r, ¬ pair i r) ∨
   ∃ i r st read, pair i r ∧ (∀ i' r', pair i' r' → fltb r r' = false) ∧
     reading (stop_indicator cfg) = Some read ∧ assoc i (instance_to_engine_status (co s1)) = Some st ∧
     res = if fltb (read st) (stop_threshold cfg) then [] else [i]).
Proof.
  intros Hst E pair. unfold check_should_migrate in E. rewrite (run_bind _ _ _ _ _ Hst) in E.
  apply bind_Ret in E as (cands & s3 & Ec & E). apply candidates_Ret in Ec as [-> Hc].
  assert (∀ p, p ∈ cands → is_nan p.2 = false) as Hnan.
  { intros [i r] (_ & j & _ & _ & ? & ? & ? & ? & ? & _ & _ & _ & _ & _ & _ & _ & H)%Hc. by eapply fltb_nan_r. }
  destruct (sort_lt _ cands) as [|[i r] l] eqn:Es.
  - injection E as <- <-. split; [done|]. left. split; [done|]. intros i r Hp. apply sort_lt_nil in Es. subst cands.
    by apply (not_elem_of_nil (i, r)), Hc.
  - destruct (reading (stop_indicator cfg)) as [read|] eqn:Hr; [|done]. rewrite (run_of_option _ _ read) in E by done.
    unfold status_of in E. autorewrite with psrl in E. unfold id in E.
    destruct (assoc i (instance_to_engine_status (co s1))) as [st|] eqn:Hs; [|done]. rewrite (run_of_option _ _ st) in E by done.
    injection E as <- <-. split; [done|]. right. exists i, r, st, read.
    assert (head (sort_lt (λ a b : RolloutInstanceId * float, fltb b.2 a.2) cands) = Some (i, r)) as Hh by (by rewrite Es).
    split_and!; [| |done|done|done].
    + apply Hc. by apply head_sort_lt_elem in Hh.
    + intros i' r' Hp. apply (head_sort_key_rev snd cands (i, r) (i', r')); [done|done|]. by apply Hc.
Qed.

(** ** Routing during a migration *)

(** Whether the gateway was last told to route. *)
Definition routing_running (c : RolloutCoordinator) : bool :=
  foldl (λ b p, match p with Routing running => running | _ => b end) true (posts c).

Lemma routing_post p c : routing_running (with_posts (posts c ++ [p]) c) = match p with Routing b => b | _ => routing_running c end.
Proof. unfold routing_running. simpl. rewrite foldl_app. by destruct p. Qed.

Lemma set_routing_run b g env c :
  set_routing b g env c =
    if routing_refused b g then Raise RuntimeError (env (with_posts (posts c ++ [Routing b]) c)) else Ret tt (env (with_posts (posts c ++ [Routing b]) c)).
Proof. unfold set_routing, post, await. mrun. by destruct (routing_refused b g). Qed.

Lemma keeps_call_servers_routing replicas call failed env :
  (∀ c, routing_running (env c) = routing_running c) → keeps routing_running (call_servers replicas call failed env).
Proof.
  intros Henv. unfold call_servers, call_server, handle_of, await. apply keeps_bind; [|intros; apply keeps_bind; [by apply keeps_modify|intros; by destruct failed]].
  apply keeps_for_each. intros r. apply keeps_bind; [keeps_tac|]. intros _. apply keeps_modify. intros c. apply routing_post.
Qed.

(** A migration pauses the gateway's routing and resumes it once it is done.
    If it raises, because the abort command or the draining failed, routing stays
    paused: nothing reopens it, unlike after a failed synchronisation.  The only
    error after which the gateway was told to route is its refusal to resume. *)
Theorem failed_migration_keeps_paused (iter : gset RolloutInstanceId → list RolloutInstanceId) (cfg : MigrateConfig)
    (env : RolloutInstanceId → nat → Sys → Sys) (reply : RolloutInstanceId → Res Json)
    (menv : MigAwait → RolloutCoordinator → RolloutCoordinator) (paused resumed : GatewayReply)
    (abort_failed : option exn) (drain_failed loop_back : bool) (s s1 : Sys) (ids : list RolloutInstanceId) :
  (∀ a c, routing_running (menv a c) = routing_running c) → mig_enable (sync_config cfg) = true → status_collection cfg = true →
  check_should_migrate iter cfg env reply s = Ret ids s1 → ids ≠ [] →
  match check_and_migrate iter cfg env reply menv paused resumed abort_failed drain_failed loop_back s with
  | Ret _ s2 => routing_running (co s2) = true ∧ abort_failed = None ∧ (loop_back = true → drain_failed = false)
  | Raise e s2 => routing_running (co s2) = true → routing_refused true resumed = true
  end.
Proof.
  intros Hm He Hsc Hs Hne. unfold check_and_migrate. rewrite !run_assert by done. rewrite (run_bind _ _ _ _ _ Hs). rewrite bool_decide_false by done.
  set (c1 := menv MwPause (with_posts (posts (co s1) ++ [Routing false]) (co s1))).
  assert (routing_running c1 = false) as H1 by (unfold c1; by rewrite Hm, routing_post).
  assert (on_co (set_routing false paused (menv MwPause)) s1 = if routing_refused false paused then Raise RuntimeError (mkSys c1 (mgr s1)) else Ret tt (mkSys c1 (mgr s1))) as E1
    by (unfold on_co, zoom; rewrite set_routing_run; by destruct (routing_refused false paused)).
  destruct (routing_refused false paused); [rewrite (run_bind_raise _ _ _ _ _ E1); simpl; congruence|]. rewrite (run_bind _ _ _ _ _ E1).
  set (c2 := menv MwAbort (with_posts (posts c1 ++ [AbortCommand ids]) c1)).
  assert (routing_running c2 = false) as H2 by (unfold c2; by rewrite Hm, routing_post).
  assert (on_co (post (AbortCommand ids) ;; await (menv MwAbort)) (mkSys c1 (mgr s1)) = Ret tt (mkSys c2 (mgr s1))) as E2 by done.
  rewrite (run_bind _ _ _ _ _ E2). destruct abort_failed as [e|]; [simpl; congruence|]. rewrite run_mret.
  set (drain := if loop_back then _ else _).
  assert (keeps (λ s, routing_running (co s)) drain) as Hk.
  { unfold drain. destruct loop_back; [|apply keeps_ret]. apply (keeps_zoom_inside routing_running); [done|]. by apply keeps_call_servers_routing. }
  specialize (Hk (mkSys c2 (mgr s1))). assert (∀ s3, drain (mkSys c2 (mgr s1)) = Ret tt s3 → loop_back = true → drain_failed = false) as Hdr.
  { intros s3 E -> . unfold drain, on_co, zoom, call_servers in E. destruct drain_failed; [|done]. exfalso.
    destruct ((for_each _ _ ≫= _) _) as [? c3|] eqn:E3; [|done]. apply bind_Ret in E3 as (_ & c4 & _ & E4). by unfold await in E4. }
  destruct (drain (mkSys c2 (mgr s1))) as [[] s3|e s3] eqn:Ed; [rewrite (run_bind _ _ _ _ _ Ed)|rewrite (run_bind_raise _ _ _ _ _ Ed); simpl in Hk; congruence].
  unfold on_co, zoom. rewrite set_routing_run. destruct (routing_refused true resumed); simpl; [done|]. rewrite Hm, routing_post. eauto.
Qed.

(** ** Concrete runs *)

Definition demo_queue (ids : list Z) : Res Json := inr (JArr ((λ x, JObj [("request_id", JInt x)]) <$> ids)).
Definition demo_mig_config (check : bool) : MigrateConfig :=
  mkMigrateConfig "status_based" true (mkSyncConfig true true 0) check "request_num" (of_Z 2) "request_num" (of_Z 2) "request_num" (of_Z 4).
Definition demo_load (running : Z) : EngineStats := mkStats 1 0 running fzero fzero.

(** Three instances of version 1: one that runs nine requests, one that runs six
    and one that runs two; requests 6 and 7 are known to the manager. *)
Definition demo_coordinator : RolloutCoordinator :=
  with_engine [(("r0", 0), demo_load 9); (("r0", 1), demo_load 6); (("r1", 0), demo_load 2)]
    (final ((add_worker "r0" 2 false 1 ;; add_worker "r1" 1 false 1) new_rollout)).
Definition demo_sys : Sys := mkSys demo_coordinator demo_group.
Definition demo_env : RolloutInstanceId → nat → Sys → Sys := λ _ _ s, s.

(** Nothing is queued: every instance is starved, and the most loaded one gives
    its requests away. *)
Example demo_migrate : result (check_should_migrate elements (demo_mig_config true) demo_env (λ _, demo_queue []) demo_sys) = inr [("r0", 0)].
Proof. by vm_compute. Qed.

(** Unknown ids, text that is no number and missing fields. *)
Example demo_fetch :
  fetch_filtered_request_meta (inr (JArr [JObj [("request_id", JStr "12"); ("is_validate", JBool true)]; JObj [("request_id", JInt 3)]])) = inr [(12, true); (3, false)] ∧
  fetch_filtered_request_meta (inr (JArr [JObj [("is_validate", JBool true)]])) = inl TypeError ∧
  fetch_filtered_request_meta (inr (JObj [])) = inr [] ∧ fetch_filtered_request_meta (inr (JArr [JInt 3])) = inl AttributeError.
Proof. by vm_compute. Qed.

Lemma should_sync_exact_witness :
  ∃ s', check_should_sync (demo_mig_config true) demo_env (λ _, demo_queue [6; 9]) ("r1", 0) demo_sys = Ret false s' ∧ check_view s' = check_view demo_sys.
Proof.
  destruct (should_sync_exact (demo_mig_config true) demo_env (λ _, demo_queue [6; 9]) ("r1", 0) demo_sys (demo_load 2) 1 [(6, false); (9, false)]
    (λ st, of_Z (get_waiting_and_running_queue_size st))) as (s' & E & Hv); try reflexivity; [exact demo_group_tracker_ok|done|].
  exists s'. split; [|exact Hv]. rewrite E. reflexivity.
Defined.

Lemma aborted_request_breaks_migration_witness :
  ∃ e s', check_should_migrate elements (demo_mig_config true) demo_env (λ i, if decide (i = ("r1", 0)) then demo_queue [6; 9] else demo_queue [6]) demo_sys = Raise e s'.
Proof.
  apply (aborted_request_breaks_migration elements (demo_mig_config true) demo_env _ ("r1", 0) demo_sys (demo_load 2) 1 9 [(6, false); (9, false)]);
    try reflexivity; [exact demo_group_tracker_ok|intros; apply elem_of_elements|apply (bool_decide_unpack _); vm_compute; reflexivity..].
Defined.

Definition demo_starved : list RolloutInstanceId :=
  match starved_instances elements demo_env (λ _, demo_queue []) demo_sys with Ret l _ => l | Raise _ _ => [] end.

Lemma migrate_exact_witness :
  ∃ r, fltb (of_Z 2) r = true ∧ ∃ j, j ∈ demo_starved ∧ is_candidate (demo_mig_config true) demo_coordinator j ("r0", 0) r.
Proof.
  destruct (migrate_exact elements (demo_mig_config true) demo_env (λ _, demo_queue []) demo_sys demo_sys demo_sys demo_starved [("r0", 0)])
    as (_ & [[H _] | (i & r & st & read & (_ & j & Hj & Hc) & _ & _ & _ & Hres)]); [vm_compute; reflexivity|vm_compute; reflexivity|done|].
  destruct (fltb (read st) _); [done|]. injection Hres as <-. exists r. split; [|by exists j].
  destruct Hc as (_ & ? & ? & ? & ? & ? & _ & _ & _ & _ & _ & _ & _ & H). exact H.
Defined.

Lemma failed_migration_keeps_paused_witness :
  match check_and_migrate elements (demo_mig_config true) demo_env (λ _, demo_queue []) (λ _ c, c) demo_quiet demo_quiet (Some RuntimeError) false true demo_sys with
  | Ret _ s2 => False
  | Raise e s2 => routing_running (co s2) = false
  end.
Proof.
  assert (check_should_migrate elements (demo_mig_config true) demo_env (λ _, demo_queue []) demo_sys = Ret [("r0", 0)] demo_sys) as E by (vm_compute; reflexivity).
  pose proof (failed_migration_keeps_paused elements (demo_mig_config true) demo_env (λ _, demo_queue []) (λ _ c, c) demo_quiet demo_quiet (Some RuntimeError) false true
    demo_sys demo_sys [("r0", 0)] (λ _ _, eq_refl) eq_refl eq_refl E ltac:(done)) as H.
  clear E. destruct (check_and_migrate _ _ _ _ _ _ _ _ _ _ _) as [u s2|e s2]; [by destruct H as (_ & ? & _)|].
  destruct (routing_running (co s2)); [|done]. by specialize (H eq_refl).
Defined.
