(* ===== verification/AgentLoop.v ===== *)
(** * Agent-loop manager: state and local operations

    [PSRL_AgentLoopManager] ([psrl/workers/agent_loop/manager.py]) dispatches
    prompts to the agent-loop workers, collects their results into the buffers the
    parameter-server manager assigns, and hands complete buffers, or chunks of
    them, to the trainer.  This file has its state and the operations that do not
    leave the actor: the record of failed groups, the dispatch plan and throttle,
    the refill breaker, the metadata of a batch and the emission of chunks.

    An [asyncio.Future] is a number; [futures] maps it to its result once it has
    one.  An entry in an accumulated buffer is an object with an address, because
    the code compares [id(entry)]. *)

From S2P Require Import Prelude.
From S2P Require Import StalenessBuffer.
From S2P Require Import TransferQueue.
From S2P Require Import RequestStatusTracker.
From S2P Require Import PyData.

#[local] Open Scope Z_scope.

(** ** Failed groups *)

(** [BoundedIdSet]: the ids in insertion order. *)
Record BoundedIdSet := mkBounded { capacity : Z; ids : list Z }.

Definition new_bounded (capacity : Z) : Res BoundedIdSet :=
  if bool_decide (capacity ≤ 0) then inl ValueError else inr (mkBounded capacity []).

Definition bounded_add (x : Z) (b : BoundedIdSet) : BoundedIdSet :=
  if bool_decide (x ∈ ids b) then b
  else
    let l := ids b ++ [x] in
    mkBounded (capacity b) (if bool_decide (capacity b < Z.of_nat (length l)) then tail l else l).

(** ** Configuration *)

Inductive ProactiveMethod := Retry | Truncate.

(** A row of processed data, as a buffer post-processing function returns it. *)
Record ProcessedRow := mkProcessed {
  p_uid : Z;
  p_parent_id : Z;
  p_version_tag : Z;
  p_rollout_instance_id : RolloutInstanceId;
  p_trajectory_index : Z;
  p_trajectory_num : Z;
}.

(** The two post-processing functions act on the stored payload of the keys: the
    first keeps or drops a group, the second answers the rows that are left. *)
Record AgentConfig := mkAgentConfig {
  c_staleness : Z;
  c_rollout_n : Z;
  c_alg_rollout_n : Z;
  c_val_rollout_n : Z;
  c_entries_per_buffer : Z;
  c_ready_entries : Z;
  c_max_dispatch_ahead : Z;
  c_refill_failure_threshold : Z;
  c_num_workers : Z;
  c_launch_reward_fn_async : bool;
  c_proactive_method : option ProactiveMethod;
  c_proactive_threshold : Z;
  c_group_post_process : option (list string → bool);
  c_buffer_post_process : option (list string → option (list ProcessedRow));
}.

(** [psrl.rollout_coordination.redundant_rollout]: disabled, or its sizes. *)
Record RedundantRollout := mkRedundant {
  redundant_rollout_n : Z;
  redundant_alg_rollout_n : Z;
  redundant_global_batch_size : Z;
  alg_global_batch_size : Z;
}.

Definition make_config (redundant : option RedundantRollout) (staleness rollout_n val_rollout_n staleness_buffer_entries : Z)
    (max_dispatch_ahead threshold : option Z) (workers : Z) (async : bool) (method : option ProactiveMethod) (gap : Z)
    (group : option (list string → bool)) (buffer : option (list string → option (list ProcessedRow))) : AgentConfig :=
  let '(n, alg, entries, ready) :=
    match redundant with
    | Some r => (redundant_rollout_n r, redundant_alg_rollout_n r, redundant_global_batch_size r, alg_global_batch_size r)
    | None => (rollout_n, rollout_n, staleness_buffer_entries, staleness_buffer_entries)
    end in
  mkAgentConfig staleness n alg val_rollout_n entries ready (default 5 max_dispatch_ahead) (default 32 threshold)
    workers async method gap group buffer.

(** ** Batches *)

Record Tag := mkTag {
  tag_uid : Z;
  tag_parent_id : option Z;
  tag_version : Z;
  tag_instance : one_or_many RolloutInstanceId;
  tag_reward_ready : bool;
}.

Record KVBatchMeta := mkMeta { meta_keys : list string; meta_tags : list Tag; meta_partition : string }.

Definition empty_val_batch : KVBatchMeta := mkMeta [] [] "val".

(** An entry object and its address. *)
Abbreviation Obj := (nat * EntryInfo)%type.

(** ** State *)

(** The attributes that exist once for training and once for validation. *)
Record Side := mkSide {
  data_buffers : gmap Z KVBatchMeta;
  accumulated_buffers : gmap Z (gmap Z (list Obj));
  accumulated_buffer_size : list (Z * Z);
  buffer_waiters : gmap Z (list nat);
  logged_ready : gset Z;
}.

Record Chunks := mkChunks {
  train_chunk_size : option Z;
  chunk_consumed : gmap Z Z;
  chunk_emitted : gmap Z (gset nat);
  chunk_waiters : gmap (Z * Z) (list nat);
  resolved_chunks : gmap (Z * Z) (KVBatchMeta * bool);
}.

(** Why the refill breaker tripped. *)
Inductive Diagnosis := TooManyFailures (reasons : list (string * Z)) | NothingDispatched (n_prompts : Z).

Record Breaker := mkBreaker {
  consecutive_group_failures : Z;
  group_failure_reasons : list (string * Z);
  refill_breaker_diagnosis : option Diagnosis;
}.

Record Dispatch := mkDispatch {
  request_counter : Z;
  dispatch_idx : Z;
  curr_ps_version_tag : Z;
  initial_ps_version : Z;
  stop_train_dispatch : bool;
  running : bool;
}.

(** The result of a future. *)
Inductive FutureResult := GotBatch (b : KVBatchMeta) | GotChunk (c : KVBatchMeta * bool) | GotError (d : Diagnosis).

Record AgentLoop := mkAgentLoop {
  train_side : Side;
  val_side : Side;
  chunks : Chunks;
  breaker : Breaker;
  dispatch : Dispatch;
  rollout_request_tracker : gmap Z (list EntryInfo);
  failed_train_group_ids : BoundedIdSet;
  failed_val_group_ids : gset Z;
  val_buffer_size : option Z;
  val_round_all_failed : bool;
  val_buffer_id : Z;
  futures : gmap nat FutureResult;
  next_future : nat;
  next_object : nat;
}.

Definition side_of (is_validate : bool) (a : AgentLoop) : Side := if is_validate then val_side a else train_side a.

Definition new_side : Side := mkSide ∅ ∅ [] ∅ ∅.
Definition failed_id_capacity (cfg : AgentConfig) : Z := Z.max (4 * c_entries_per_buffer cfg * (c_staleness cfg + 1)) 65536.

Definition new_agent_loop (cfg : AgentConfig) : AgentLoop :=
  mkAgentLoop new_side new_side (mkChunks None ∅ ∅ ∅ ∅) (mkBreaker 0 [] None) (mkDispatch 0 0 0 0 false false)
    ∅ (mkBounded (failed_id_capacity cfg) []) ∅ None false 0 ∅ 0 0.

Definition with_data_buffers v0 s := mkSide v0 (accumulated_buffers s) (accumulated_buffer_size s) (buffer_waiters s) (logged_ready s).
Definition with_accumulated v0 v1 s := mkSide (data_buffers s) v0 v1 (buffer_waiters s) (logged_ready s).
Definition with_buffer_waiters v0 s := mkSide (data_buffers s) (accumulated_buffers s) (accumulated_buffer_size s) v0 (logged_ready s).
Definition with_logged v0 s := mkSide (data_buffers s) (accumulated_buffers s) (accumulated_buffer_size s) (buffer_waiters s) v0.
Definition with_chunk_size v0 c := mkChunks v0 (chunk_consumed c) (chunk_emitted c) (chunk_waiters c) (resolved_chunks c).
Definition with_consumed v0 c := mkChunks (train_chunk_size c) v0 (chunk_emitted c) (chunk_waiters c) (resolved_chunks c).
Definition with_emitted v0 c := mkChunks (train_chunk_size c) (chunk_consumed c) v0 (chunk_waiters c) (resolved_chunks c).
Definition with_chunk_waiters v0 c := mkChunks (train_chunk_size c) (chunk_consumed c) (chunk_emitted c) v0 (resolved_chunks c).
Definition with_resolved v0 c := mkChunks (train_chunk_size c) (chunk_consumed c) (chunk_emitted c) (chunk_waiters c) v0.
Definition with_counter v0 d := mkDispatch v0 (dispatch_idx d) (curr_ps_version_tag d) (initial_ps_version d) (stop_train_dispatch d) (running d).
Definition with_dispatch_idx v0 d := mkDispatch (request_counter d) v0 (curr_ps_version_tag d) (initial_ps_version d) (stop_train_dispatch d) (running d).
Definition with_ps_tag v0 d := mkDispatch (request_counter d) (dispatch_idx d) v0 (initial_ps_version d) (stop_train_dispatch d) (running d).
Definition with_initial v0 v1 d := mkDispatch (request_counter d) (dispatch_idx d) v1 v0 (stop_train_dispatch d) (running d).
Definition with_stop v0 d := mkDispatch (request_counter d) (dispatch_idx d) (curr_ps_version_tag d) (initial_ps_version d) v0 (running d).
Definition with_train v0 a := mkAgentLoop v0 (val_side a) (chunks a) (breaker a) (dispatch a) (rollout_request_tracker a) (failed_train_group_ids a) (failed_val_group_ids a) (val_buffer_size a) (val_round_all_failed a) (val_buffer_id a) (futures a) (next_future a) (next_object a).
Definition with_val v0 a := mkAgentLoop (train_side a) v0 (chunks a) (breaker a) (dispatch a) (rollout_request_tracker a) (failed_train_group_ids a) (failed_val_group_ids a) (val_buffer_size a) (val_round_all_failed a) (val_buffer_id a) (futures a) (next_future a) (next_object a).
Definition with_chunks v0 a := mkAgentLoop (train_side a) (val_side a) v0 (breaker a) (dispatch a) (rollout_request_tracker a) (failed_train_group_ids a) (failed_val_group_ids a) (val_buffer_size a) (val_round_all_failed a) (val_buffer_id a) (futures a) (next_future a) (next_object a).
Definition with_breaker v0 a := mkAgentLoop (train_side a) (val_side a) (chunks a) v0 (dispatch a) (rollout_request_tracker a) (failed_train_group_ids a) (failed_val_group_ids a) (val_buffer_size a) (val_round_all_failed a) (val_buffer_id a) (futures a) (next_future a) (next_object a).
Definition with_dispatch v0 a := mkAgentLoop (train_side a) (val_side a) (chunks a) (breaker a) v0 (rollout_request_tracker a) (failed_train_group_ids a) (failed_val_group_ids a) (val_buffer_size a) (val_round_all_failed a) (val_buffer_id a) (futures a) (next_future a) (next_object a).
Definition with_group_tracker v0 a := mkAgentLoop (train_side a) (val_side a) (chunks a) (breaker a) (dispatch a) v0 (failed_train_group_ids a) (failed_val_group_ids a) (val_buffer_size a) (val_round_all_failed a) (val_buffer_id a) (futures a) (next_future a) (next_object a).
Definition with_failed_train v0 a := mkAgentLoop (train_side a) (val_side a) (chunks a) (breaker a) (dispatch a) (rollout_request_tracker a) v0 (failed_val_group_ids a) (val_buffer_size a) (val_round_all_failed a) (val_buffer_id a) (futures a) (next_future a) (next_object a).
Definition with_failed_val v0 a := mkAgentLoop (train_side a) (val_side a) (chunks a) (breaker a) (dispatch a) (rollout_request_tracker a) (failed_train_group_ids a) v0 (val_buffer_size a) (val_round_all_failed a) (val_buffer_id a) (futures a) (next_future a) (next_object a).
Definition with_val_round v0 v1 a := mkAgentLoop (train_side a) (val_side a) (chunks a) (breaker a) (dispatch a) (rollout_request_tracker a) (failed_train_group_ids a) (failed_val_group_ids a) v0 v1 (val_buffer_id a) (futures a) (next_future a) (next_object a).
Definition with_val_buffer_id v0 a := mkAgentLoop (train_side a) (val_side a) (chunks a) (breaker a) (dispatch a) (rollout_request_tracker a) (failed_train_group_ids a) (failed_val_group_ids a) (val_buffer_size a) (val_round_all_failed a) v0 (futures a) (next_future a) (next_object a).
Definition with_futures v0 a := mkAgentLoop (train_side a) (val_side a) (chunks a) (breaker a) (dispatch a) (rollout_request_tracker a) (failed_train_group_ids a) (failed_val_group_ids a) (val_buffer_size a) (val_round_all_failed a) (val_buffer_id a) v0 (next_future a) (next_object a).
Definition with_next_future v0 a := mkAgentLoop (train_side a) (val_side a) (chunks a) (breaker a) (dispatch a) (rollout_request_tracker a) (failed_train_group_ids a) (failed_val_group_ids a) (val_buffer_size a) (val_round_all_failed a) (val_buffer_id a) (futures a) v0 (next_object a).
Definition with_next_object v0 a := mkAgentLoop (train_side a) (val_side a) (chunks a) (breaker a) (dispatch a) (rollout_request_tracker a) (failed_train_group_ids a) (failed_val_group_ids a) (val_buffer_size a) (val_round_all_failed a) (val_buffer_id a) (futures a) (next_future a) v0.

Definition with_side (is_validate : bool) (s : Side) (a : AgentLoop) : AgentLoop :=
  if is_validate then with_val s a else with_train s a.

Abbreviation Al := (M AgentLoop).

Definition on_side {A} (is_validate : bool) (m : M Side A) : Al A := zoom (side_of is_validate) (with_side is_validate) m.
Definition on_chunks {A} (m : M Chunks A) : Al A := zoom chunks with_chunks m.
Definition on_dispatch (f : Dispatch → Dispatch) : Al unit := modify (λ a, with_dispatch (f (dispatch a)) a).

(** [loop.create_future()] *)
Definition create_future : Al nat :=
  a ← gets id; modify (λ a, with_next_future (S (next_future a)) a) ;; mret (next_future a).

(** [if not fut.done(): fut.set_result(r)] for each future. *)
Definition resolve (r : FutureResult) (futs : list nat) : Al unit :=
  modify (λ a, with_futures (foldl (λ m f, match m !! f with Some _ => m | None => <[f := r]> m end) (futures a) futs) a).

(** ** Dispatch *)

Record Row := mkRow { r_uid : Z; r_parent_id : Z; r_version_tag : Z }.

Definition group_n (cfg : AgentConfig) (is_validate : bool) : Z := if is_validate then c_val_rollout_n cfg else c_rollout_n cfg.

(** [d.setdefault(k, []).append(x)] *)
Definition dict_append {K V} `{EqDecision K} (k : K) (x : V) (d : list (K * list V)) : list (K * list V) :=
  dict_set k (default [] (assoc k d) ++ [x]) d.

Definition row_prompt (cfg : AgentConfig) (is_validate : bool) (r : Row) : Z :=
  if bool_decide (1 < group_n cfg is_validate) then r_parent_id r else r_uid r.

(** One row: the worker of its prompt, or the next one in turn. *)
Definition plan_row (cfg : AgentConfig) (is_validate : bool) (idx : Z) (acc : list (Z * Z) * list (Z * list Row)) (r : Row)
    : list (Z * Z) * list (Z * list Row) :=
  let '(prompt_to_worker, plan) := acc in
  let p := row_prompt cfg is_validate r in
  match assoc p prompt_to_worker with
  | Some w => (prompt_to_worker, dict_append w r plan)
  | None =>
      let w := (idx + Z.of_nat (length prompt_to_worker)) mod c_num_workers cfg in
      (dict_set p w prompt_to_worker, dict_append w r plan)
  end.

Definition get_dispatch_plan (cfg : AgentConfig) (rows : list Row) (is_validate : bool) : Al (list (Z * list Row)) :=
  if bool_decide (c_num_workers cfg = 0) then raise ZeroDivisionError
  else
    a ← gets id;
    let idx := dispatch_idx (dispatch a) in
    let '(prompt_to_worker, plan) := foldl (plan_row cfg is_validate idx) ([], []) rows in
    on_dispatch (with_dispatch_idx ((idx + Z.of_nat (length prompt_to_worker)) mod c_num_workers cfg)) ;;
    mret plan.

(** The requests one buffer takes. *)
Definition dispatch_buffer_size (cfg : AgentConfig) : Z := c_entries_per_buffer cfg * c_rollout_n cfg.

Definition get_expected_ps_version (cfg : AgentConfig) (d : Dispatch) : Res Z :=
  let buffer_size := dispatch_buffer_size cfg in
  let effective_staleness := Z.min (c_staleness cfg) (c_max_dispatch_ahead cfg) in
  if bool_decide (buffer_size = 0) then inl ZeroDivisionError
  else inr (initial_ps_version d + Z.max (request_counter d - effective_staleness * buffer_size) 0 / buffer_size).

Definition set_initial_ps_version (version : Z) : Al unit := on_dispatch (with_initial version version).

(** ** The refill breaker *)

Definition reset_group_failure_streak : Al unit :=
  modify (λ a,
    if bool_decide (consecutive_group_failures (breaker a) = 0) then a
    else with_breaker (mkBreaker 0 [] (refill_breaker_diagnosis (breaker a))) a).

Definition count_reason (r : string) (d : list (string * Z)) : list (string * Z) := dict_set r (default 0 (assoc r d) + 1) d.

(** [Counter.most_common()] *)
Definition most_common (d : list (string * Z)) : list (string * Z) := sort_by (λ x : string * Z, - x.2) d.

Definition trip_refill_breaker (diagnosis : Diagnosis) : Al unit :=
  a ← gets id;
  match refill_breaker_diagnosis (breaker a) with
  | Some _ => mret tt
  | None =>
      modify (λ a, with_breaker (mkBreaker (consecutive_group_failures (breaker a)) (group_failure_reasons (breaker a)) (Some diagnosis)) a) ;;
      resolve (GotError diagnosis) (concat (map_to_list (buffer_waiters (train_side a))).*2) ;;
      on_side false (modify (with_buffer_waiters ∅)) ;;
      resolve (GotError diagnosis) (concat (map_to_list (chunk_waiters (chunks a))).*2) ;;
      on_chunks (modify (λ c, with_resolved ∅ (with_chunk_waiters ∅ c)))
  end.

Definition record_group_failure (cfg : AgentConfig) (terminate_reason : option string) : Al unit :=
  modify (λ a, with_breaker (mkBreaker (consecutive_group_failures (breaker a) + 1)
    (count_reason (default "unknown" terminate_reason) (group_failure_reasons (breaker a))) (refill_breaker_diagnosis (breaker a))) a) ;;
  a ← gets id;
  if bool_decide (c_refill_failure_threshold cfg ≤ consecutive_group_failures (breaker a))
  then trip_refill_breaker (TooManyFailures (most_common (group_failure_reasons (breaker a)))) else mret tt.

Definition raise_if_refill_breaker_tripped : Al unit :=
  a ← gets id; match refill_breaker_diagnosis (breaker a) with Some _ => raise RuntimeError | None => mret tt end.

(** ** The metadata of a batch *)

Definition to_list {A} (x : one_or_many A) : list A := match x with One a => [a] | Many l => l end.

(** [versions[j] if j < len(versions) else versions[-1]] *)
Definition version_at (versions : list Z) (j : nat) : Res Z :=
  match versions !! j with
  | Some v => inr v
  | None => match last versions with Some v => inr v | None => inl IndexError end
  end.

(** The requests of an entry with their trajectory counts and versions: sorted
    together by request index when there is one version per request. *)
Definition entry_rows (ei : EntryInfo) : Res (list (Z * Z) * list Z) :=
  let request_idxs := to_list (request_idx ei) in
  let n_trajectories := match n_trajectory ei with Many l => l | One n => replicate (length request_idxs) n end in
  let model_versions := to_list (model_version ei) in
  if bool_decide (length model_versions = length request_idxs) then
    match zip (zip request_idxs n_trajectories) model_versions with
    | [] => inl ValueError
    | rows => let rows := sort_by (λ x : Z * Z * Z, x.1.1) rows in inr (rows.*1, rows.*2)
    end
  else
    match zip request_idxs n_trajectories with
    | [] => inl ValueError
    | rows => inr (sort_by fst rows, model_versions)
    end.

(** The keys and tags of one request. *)
Definition request_meta_rows (ready : bool) (n : Z) (ei : EntryInfo) (versions : list Z) (jr : nat * (Z * Z)) : Res (list (string * Tag)) :=
  let '(j, (idx, n_trajectory)) := jr in
  let request_id := prompt_id ei * n + idx in
  let keys := if bool_decide (n_trajectory = 1) then [pretty request_id]
              else (λ i, pretty request_id +:+ "_" +:+ pretty i) <$> zrange 0 n_trajectory in
  match keys with
  | [] => inr []
  | _ =>
      match version_at versions j with
      | inl e => inl e
      | inr v => inr ((λ k, (k, mkTag request_id (Some (prompt_id ei)) v (rollout_instance_id ei) ready)) <$> keys)
      end
  end.

Definition entry_meta_rows (ready : bool) (n : Z) (ei : EntryInfo) : Res (list (string * Tag)) :=
  match entry_rows ei with
  | inl e => inl e
  | inr (rows, versions) =>
      match map_res (request_meta_rows ready n ei versions) (imap pair rows) with
      | inl e => inl e
      | inr l => inr (concat l)
      end
  end.

Definition rewards_ready (cfg : AgentConfig) (is_validate : bool) : bool :=
  negb is_validate && bool_decide (1 < group_n cfg is_validate) &&
  match c_group_post_process cfg with Some _ => true | None => false end && c_launch_reward_fn_async cfg.

Definition entry_infos_to_kv_batch_meta (cfg : AgentConfig) (infos : list EntryInfo) (is_validate : bool) : Res KVBatchMeta :=
  match map_res (entry_meta_rows (rewards_ready cfg is_validate) (group_n cfg is_validate)) infos with
  | inl e => inl e
  | inr l => inr (mkMeta (concat l).*1 (concat l).*2 (partition_of is_validate))
  end.

(** ** Chunks *)

(** The entries of an accumulated buffer, by version and then arrival. *)
Definition buffer_entries (versions : gmap Z (list Obj)) : list Obj :=
  concat ((λ v, default [] (versions !! v)) <$> sort_by id (elements (dom versions))).

(** Wake the waiters of a chunk, or keep the chunk for a later one. *)
Definition deliver_chunk (key : Z * Z) (c : KVBatchMeta * bool) : Al unit :=
  a ← gets id;
  match chunk_waiters (chunks a) !! key with
  | Some futs =>
      resolve (GotChunk c) futs ;;
      on_chunks (modify (λ c, with_resolved (delete key (resolved_chunks c)) (with_chunk_waiters (delete key (chunk_waiters c)) c)))
  | None => on_chunks (modify (λ ch, with_resolved (<[key := c]> (resolved_chunks ch)) ch))
  end.

(** How many entries the next chunk takes and whether it is the last one. *)
Definition next_chunk (size total : Z) (complete : bool) (available consumed : Z) : option (Z * bool) :=
  if complete && bool_decide (0 < available) && bool_decide (available < size) then Some (available, true)
  else if bool_decide (size ≤ available) then Some (size, bool_decide (total ≤ consumed + size))
  else None.

Fixpoint emit_loop (cfg : AgentConfig) (fuel : nat) (bid size : Z) (complete : bool) (pending : list Obj) (consumed : Z) : Al unit :=
  match fuel with
  | O => mret tt
  | S fuel =>
      match next_chunk size (c_ready_entries cfg) complete (Z.of_nat (length pending)) consumed with
      | None => mret tt
      | Some (n, is_last) =>
          let entries := sort_by (λ o : Obj, prompt_id o.2) (take (Z.to_nat n) pending) in
          meta ← of_res (entry_infos_to_kv_batch_meta cfg entries.*2 false);
          deliver_chunk (bid, consumed / size) (meta, is_last) ;;
          on_chunks (modify (λ c, with_emitted (<[bid := list_to_set entries.*1 ∪ default ∅ (chunk_emitted c !! bid)]> (chunk_emitted c)) c)) ;;
          on_chunks (modify (λ c, with_consumed (<[bid := consumed + n]> (chunk_consumed c)) c)) ;;
          if is_last : bool then mret tt else emit_loop cfg fuel bid size complete (drop (Z.to_nat n) pending) (consumed + n)
      end
  end.

(** A chunk takes a positive number of prompt groups; 0 divides by zero. *)
Definition emit_pending_chunks (cfg : AgentConfig) (bid : Z) : Al unit :=
  a ← gets id;
  match train_chunk_size (chunks a), accumulated_buffers (train_side a) !! bid with
  | Some size, Some versions =>
      let all_entries := buffer_entries versions in
      on_chunks (modify (λ c, with_emitted (<[bid := default ∅ (chunk_emitted c !! bid)]> (chunk_emitted c)) c)) ;;
      let emitted := default ∅ (chunk_emitted (chunks a) !! bid) in
      let pending := filter (λ o : Obj, o.1 ∉ emitted) all_entries in
      let consumed := default 0 (chunk_consumed (chunks a) !! bid) in
      let accumulated_size := default (Z.of_nat (length all_entries)) (assoc bid (accumulated_buffer_size (train_side a))) in
      (if bool_decide (size = 0) then raise ZeroDivisionError else mret tt) ;;
      emit_loop cfg (S (length pending)) bid size (bool_decide (c_ready_entries cfg ≤ accumulated_size)) pending consumed
  | _, _ => mret tt
  end.

(** What a waiting caller gets: a result now, or a future. *)
Inductive Wait (A : Type) := Now (a : A) | Later (fut : nat).
Arguments Now {A} a.
Arguments Later {A} fut.

(** Nothing is awaited between the look-up and the registration, so the look-up
    that follows it finds what the first one found. *)
Definition wait_for_training_chunk (bid idx : Z) : Al (Wait (KVBatchMeta * bool)) :=
  raise_if_refill_breaker_tripped ;;
  a ← gets id;
  match resolved_chunks (chunks a) !! (bid, idx) with
  | Some c => on_chunks (modify (λ ch, with_resolved (delete (bid, idx) (resolved_chunks ch)) ch)) ;; mret (Now c)
  | None =>
      fut ← create_future;
      on_chunks (modify (λ c, with_chunk_waiters (<[(bid, idx) := default [] (chunk_waiters c !! (bid, idx)) ++ [fut]]> (chunk_waiters c)) c)) ;;
      mret (Later fut)
  end.

Definition set_chunk_size (size : option Z) : Al unit := on_chunks (modify (with_chunk_size size)).

(** ** Buffers *)

Definition set_val_buffer_size (n : Z) : Al unit :=
  modify (λ a, with_failed_val ∅ (with_val_round (Some n) false a)).

Definition log_ready_buffer (bid : Z) (is_validate : bool) : Al unit :=
  on_side is_validate (modify (λ s, with_logged ({[bid]} ∪ logged_ready s) s)).

Definition consume_buffer (bid : Z) (is_validate : bool) : Al KVBatchMeta :=
  a ← gets id;
  b ← of_option AssertionError (data_buffers (side_of is_validate a) !! bid);
  on_side is_validate (modify (λ s, with_data_buffers (delete bid (data_buffers s)) s)) ;;
  (if is_validate then mret tt
   else on_chunks (modify (λ c, with_consumed (delete bid (chunk_consumed c))
          (with_chunk_waiters (filter (λ kv, kv.1.1 ≠ bid) (chunk_waiters c))
            (with_resolved (filter (λ kv, kv.1.1 ≠ bid) (resolved_chunks c)) c))))) ;;
  mret b.
