(* ===== verification/AgentLoopOps.v ===== *)
(** * Agent-loop manager: operations that involve other actors

    The methods of [PSRL_AgentLoopManager] ([psrl/workers/agent_loop/manager.py])
    that call the parameter-server manager, the data processor or the
    TransferQueue.  The manager is the model of [PSManager.v]; what it tells the
    TransferQueue to clear is cleared in [tq].  The data processor's answers are a
    list that its calls consume.

    [env] is what the other actors, and the coroutines of this actor that do not
    hold the lock of the manager, do while a call is awaited; it comes before the
    effect of the call.  A remote call that is submitted and gathered later runs
    when it is submitted: an actor executes the calls of one caller in order. *)

From S2P Require Import Prelude.
From S2P Require Import StalenessBuffer.
From S2P Require Import StalenessInventory.
From S2P Require Import TransferQueue.
From S2P Require Import RequestStatusTracker.
From S2P Require Import PSManager.
From S2P Require Import PyData.
From S2P Require Import AgentLoop.

#[local] Open Scope Z_scope.

(** ** State *)

(** What is sent to the agent-loop workers. *)
Inductive WorkerCall := AddAgentProgram (worker : Z) (rows : list Row).

Record World := mkWorld {
  al : AgentLoop;
  pm : PSManager;
  tq : gmap string partition;
  prompts : list (option (list Row));
  worker_calls : list WorkerCall;
}.

Definition set_al v w := mkWorld v (pm w) (tq w) (prompts w) (worker_calls w).
Definition set_tq v w := mkWorld (al w) (pm w) v (prompts w) (worker_calls w).
Definition set_prompts v w := mkWorld (al w) (pm w) (tq w) v (worker_calls w).
Definition set_worker_calls v w := mkWorld (al w) (pm w) (tq w) (prompts w) v.

Abbreviation Wld := (M World).

Definition on_al {A} (m : Al A) : Wld A := zoom al set_al m.

(** [kv_clear] *)
Definition tq_delete (part : string) (keys : list string) (q : gmap string partition) : gmap string partition :=
  <[part := foldl (λ p k, delete k p) (default ∅ (q !! part)) keys]> q.

Definition obey (q : gmap string partition) (m : Message) : gmap string partition :=
  match m with ClearPayload keys part => tq_delete part keys q | _ => q end.

(** The manager after a call, and the payloads it has had cleared. *)
Definition settle_pm (w : World) (p : PSManager) : World :=
  mkWorld (al w) p (foldl obey (tq w) (drop (length (sent (tracker (pm w)))) (sent (tracker p)))) (prompts w) (worker_calls w).

Definition on_pm {A} (m : Mgr A) : Wld A := zoom pm (λ p w, settle_pm w p) m.

(** The awaited calls. *)
Inductive Aw :=
  | AwLock | AwPoll | AwStatus | AwSample | AwTrajectories | AwAbort | AwClear | AwReward | AwOccupy | AwReady
  | AwDelete | AwList | AwMove | AwEnsure | AwVal | AwPut.

Record Result := mkResult {
  res_request_id : Z;
  res_prompt_id : Z;
  res_instance : RolloutInstanceId;
  res_version : Z;
  res_n_trajectory : Z;
}.

Section ops.
Context `{SetOrder} (cfg : AgentConfig) (env : Aw → World → World).

Definition await_call {A} (k : Aw) (m : Wld A) : Wld A := modify (env k) ;; m.

Definition async_clear_payload (keys : list string) (part : string) (st : PayloadState) : Wld unit :=
  await_call AwClear (
    w ← gets id;
    r ← of_res (clear_payload keys part st (tq w));
    match r with None => mret tt | Some ks => modify (λ w, set_tq (tq_delete part ks (tq w)) w) end).

(** ** Dispatch *)

(** [if not update_status_success] on a bool or a list of bools. *)
Definition truth (r : one_or_many bool) : bool := match r with One b => b | Many l => negb (bool_decide (l = [])) end.

Definition inner_dispatch_data (rows : list Row) (is_validate : bool) : Wld unit :=
  ok ← await_call AwStatus (on_pm (on_tracker (update_request_status (Many (r_uid <$> rows)) (One RequestStatus.RUNNING)
    (Many (r_version_tag <$> rows)) (One INVALID_ROLLOUT_INSTANCE_ID) is_validate)));
  if negb (truth ok) then mret tt
  else
    plan ← on_al (get_dispatch_plan cfg rows is_validate);
    for_each plan (λ '(worker, rows), modify (λ w, set_worker_calls (worker_calls w ++ [AddAgentProgram worker rows]) w)).

Definition with_version_tag (v : Z) (rows : list Row) : list Row := (λ r, mkRow (r_uid r) (r_parent_id r) v) <$> rows.

(** The data processor registers the requests it samples. *)
Definition sample_train_prompts : Wld (option (list Row)) :=
  w ← gets id;
  match prompts w with
  | [] => mret None
  | answer :: rest =>
      modify (set_prompts rest) ;;
      (match answer with
       | Some rows => on_pm (on_tracker (add_request (Many (r_uid <$> rows)) (One INVALID_ROLLOUT_INSTANCE_ID) (One (-1)) (One RequestStatus.PENDING) (One false)))
       | None => mret tt
       end) ;;
      mret answer
  end.

Definition retry_data (n_prompts : Z) : Wld Z :=
  w ← gets id;
  if negb (running (dispatch (al w))) || bool_decide (n_prompts ≤ 0) then mret 0
  else
    data ← await_call AwSample sample_train_prompts;
    match data with
    | None | Some [] => mret 0
    | Some rows =>
        inner_dispatch_data (with_version_tag (-1) rows) false ;;
        on_al (on_dispatch (λ d, with_counter (request_counter d + Z.of_nat (length rows)) d)) ;;
        mret (Z.of_nat (length rows))
    end.

Definition refill_failed_group (n_prompts : Z) : Wld Z :=
  dispatched ← retry_data n_prompts;
  (if bool_decide (dispatched = 0) then on_al (trip_refill_breaker (NothingDispatched n_prompts)) else mret tt) ;;
  mret dispatched.

(** Busy polling for the model version; [false] while it is not there. *)
Fixpoint poll_version (polls : nat) (expected : Z) : Wld bool :=
  match polls with
  | O => mret false
  | S polls =>
      v ← await_call AwPoll (on_pm (gets ps_model_version));
      if bool_decide (v < expected) then poll_version polls expected else mret true
  end.

(** The wait for the version the next dispatch needs. *)
Definition catch_up (polls : nat) (expected : Z) : Wld bool :=
  w ← gets id;
  if bool_decide (curr_ps_version_tag (dispatch (al w)) < expected) then
    ok ← poll_version polls expected;
    (if ok : bool then on_al (on_dispatch (with_ps_tag expected)) else mret tt) ;;
    mret ok
  else mret true.

(** One round of the training dispatch loop on the data it took from the queue;
    [false] while it still waits for the model. *)
Definition train_dispatch_round (polls : nat) (data : option (list Row)) : Wld bool :=
  match data with
  | None => on_al (on_dispatch (with_stop true)) ;; mret true
  | Some rows =>
      w ← gets id;
      expected ← of_res (get_expected_ps_version cfg (dispatch (al w)));
      ok ← catch_up polls expected;
      if negb ok then mret false
      else
        inner_dispatch_data (with_version_tag (-1) rows) false ;;
        on_al (on_dispatch (λ d, with_counter (request_counter d + Z.of_nat (length rows)) d)) ;;
        mret true
  end.

Definition val_dispatch_round (rows : list Row) : Wld unit :=
  w ← gets id;
  inner_dispatch_data (with_version_tag (curr_ps_version_tag (dispatch (al w))) rows) true.

(** ** Payloads of failed groups *)

Definition entry_info_tq_keys (ei : EntryInfo) (n : Z) : Res (list string) :=
  let idxs := to_list (request_idx ei) in
  let counts := match n_trajectory ei with Many l => l | One k => replicate (length idxs) k end in
  match map_res (λ '(idx, k), request_payload_keys (prompt_id ei * n + idx) k) (zip idxs counts) with
  | inl e => inl e
  | inr l => inr (concat l)
  end.

Definition purge_tracker_group (parent_id n : Z) (is_validate : bool) : Wld (list EntryInfo) :=
  w ← gets id;
  let entries := default [] (rollout_request_tracker (al w) !! parent_id) in
  on_al (modify (λ a, with_group_tracker (delete parent_id (rollout_request_tracker a)) a)) ;;
  if bool_decide (entries = []) then mret []
  else
    keys ← of_res (map_res (λ ei, entry_info_tq_keys ei n) entries);
    (if bool_decide (concat keys = []) then mret tt else async_clear_payload (concat keys) (partition_of is_validate) DROPPED) ;;
    mret entries.

(** ** Buffers *)

(** The entries rebuilt from the rows that are left, in order of first appearance. *)
Definition add_field {A} (f : one_or_many A) (x : A) : one_or_many A := Many (to_list f ++ [x]).

Definition extract_row (n : Z) (d : list (Z * EntryInfo)) (r : ProcessedRow) : list (Z * EntryInfo) :=
  if bool_decide (1 < n) then
    match assoc (p_parent_id r) d with
    | Some ei =>
        dict_set (p_parent_id r) (mkEntryInfo (add_field (rollout_instance_id ei) (p_rollout_instance_id r)) (prompt_id ei)
          (add_field (request_idx ei) (p_uid r mod n)) (add_field (model_version ei) (p_version_tag r))
          (add_field (n_trajectory ei) (p_trajectory_num r)) (is_validate ei)) d
    | None =>
        dict_set (p_parent_id r) (mkEntryInfo (One (p_rollout_instance_id r)) (p_parent_id r) (One (p_uid r mod n))
          (One (p_version_tag r)) (One (p_trajectory_num r)) false) d
    end
  else dict_set (p_uid r) (mkEntryInfo (One (p_rollout_instance_id r)) (p_uid r) (One 0) (One (p_version_tag r)) (One (p_trajectory_num r)) false) d.

Definition extract_entry_infos_from_td (n : Z) (rows : list ProcessedRow) : list EntryInfo := (foldl (extract_row n) [] rows).*2.

(** [d.setdefault(v, []).append(o)] *)
Definition bucket_add (v : Z) (o : Obj) (d : gmap Z (list Obj)) : gmap Z (list Obj) := <[v := default [] (d !! v) ++ [o]]> d.

Definition add_accumulated (is_validate : bool) (bid v : Z) (info : EntryInfo) : Al unit :=
  a ← gets id;
  modify (λ a, with_next_object (S (next_object a)) a) ;;
  on_side is_validate (modify (λ s,
    with_accumulated (<[bid := bucket_add v (next_object a, info) (default ∅ (accumulated_buffers s !! bid))]> (accumulated_buffers s))
      (dict_set bid (match accumulated_buffers s !! bid with Some _ => default 0 (assoc bid (accumulated_buffer_size s)) | None => 0 end + 1) (accumulated_buffer_size s)) s)).

Definition kept_key (r : ProcessedRow) : string :=
  if bool_decide (p_trajectory_num r = 1) then pretty (p_uid r) else pretty (p_uid r) +:+ "_" +:+ pretty (p_trajectory_index r).

(** The filter over a full buffer: whether the buffer is published, and its
    metadata.  The payload of dropped keys is cleared. *)
Definition buffer_post_process (f : list string → option (list ProcessedRow)) (bid : Z) (batch : KVBatchMeta) : Wld (bool * option KVBatchMeta) :=
  let original := meta_keys batch in
  let clear keys := r ← (w ← gets id; of_res (clear_payload keys (meta_partition batch) DROPPED (tq w)));
    match r with None => mret tt | Some ks => modify (λ w, set_tq (tq_delete (meta_partition batch) ks (tq w)) w) end in
  match f original with
  | Some rows =>
      if bool_decide (length rows = length original) then mret (true, Some batch)
      else
        on_al (on_side false (modify (λ s, with_accumulated (<[bid := ∅]> (accumulated_buffers s)) (dict_set bid 0 (dict_pop bid (accumulated_buffer_size s))) s))) ;;
        if bool_decide (rows = []) then clear original ;; mret (false, None)
        else
          let kept := kept_key <$> rows in
          let dropped := filter (λ k, k ∉ kept) original in
          (if bool_decide (dropped = []) then mret tt else clear dropped) ;;
          for_each (extract_entry_infos_from_td (c_rollout_n cfg) rows) (λ ei,
            v ← of_res (get_entry_version ei);
            on_al (add_accumulated false bid v ei)) ;;
          let tags := (λ r, mkTag (p_uid r) (if bool_decide (1 < c_rollout_n cfg) then Some (p_parent_id r) else None) (p_version_tag r)
                              (One (p_rollout_instance_id r)) (rewards_ready cfg false)) <$> rows in
          mret (false, Some (mkMeta kept tags (meta_partition batch)))
  | None =>
      on_al (on_side false (modify (λ s, with_accumulated (<[bid := ∅]> (accumulated_buffers s)) (dict_set bid 0 (dict_pop bid (accumulated_buffer_size s))) s))) ;;
      clear original ;; mret (false, None)
  end.

Definition maybe_add_buffer (bid : Z) (batch : KVBatchMeta) (is_validate : bool) : Wld bool :=
  if is_validate then on_al (on_side true (modify (λ s, with_data_buffers (<[bid := batch]> (data_buffers s)) s))) ;; mret true
  else
    '(add, meta) ← (match c_buffer_post_process cfg with Some f => buffer_post_process f bid batch | None => mret (true, Some batch) end);
    match add, meta with
    | true, Some meta => on_al (on_side false (modify (λ s, with_data_buffers (<[bid := meta]> (data_buffers s)) s))) ;; mret true
    | _, _ => mret false
    end.

Definition al_handle_ready_buffer (bid : Z) (is_validate : bool) : Wld unit :=
  on_al (log_ready_buffer bid is_validate) ;;
  (if is_validate then mret tt else await_call AwReady (on_pm (handle_ready_buffer bid)) ;; mret tt) ;;
  w ← gets id;
  let s := side_of is_validate (al w) in
  match set_min (dom (data_buffers s)) with
  | None => mret tt
  | Some ready =>
      match buffer_waiters s !! ready with
      | None => mret tt
      | Some futs =>
          batch ← on_al (consume_buffer ready is_validate);
          assert (bool_decide (length futs = 1%nat)) ;;
          on_al (resolve (GotBatch batch) futs) ;;
          on_al (on_side is_validate (modify (λ s, with_buffer_waiters (delete ready (buffer_waiters s)) s))) ;;
          if is_validate then await_call AwDelete (on_pm (maybe_delete_buffer ready true)) else mret tt
      end
  end.

Definition drop_accumulated (bid : Z) (s : Side) : Side :=
  with_accumulated (delete bid (accumulated_buffers s)) (dict_pop bid (accumulated_buffer_size s)) s.

Definition flush_ready_buffer (bid : Z) (is_validate : bool) : Wld bool :=
  w ← gets id;
  match accumulated_buffers (side_of is_validate (al w)) !! bid with
  | None => mret false
  | Some versions =>
      let infos := sort_by prompt_id (buffer_entries versions).*2 in
      batch ← of_res (entry_infos_to_kv_batch_meta cfg infos is_validate);
      await_call AwList (w ← gets id; of_res (validate_ready_payload (meta_keys batch) (meta_partition batch) (tq w))) ;;
      w ← gets id;
      match is_validate, train_chunk_size (chunks (al w)) with
      | false, Some _ =>
          on_al (log_ready_buffer bid false) ;;
          await_call AwReady (on_pm (handle_ready_buffer bid)) ;;
          on_al (emit_pending_chunks cfg bid) ;;
          on_al (on_chunks (modify (λ c, with_consumed (delete bid (chunk_consumed c)) (with_emitted (delete bid (chunk_emitted c)) c)))) ;;
          on_al (on_side false (modify (drop_accumulated bid))) ;;
          mret true
      | _, _ =>
          add ← maybe_add_buffer bid batch is_validate;
          if add : bool then
            al_handle_ready_buffer bid is_validate ;;
            (if is_validate then mret tt else on_al (emit_pending_chunks cfg bid)) ;;
            on_al (on_side is_validate (modify (drop_accumulated bid))) ;;
            mret true
          else mret false
      end
  end.

(** ** Filling a buffer the trainer waits for *)

(** [lst.remove(x)]: the first entry equal to [x], that is, of the same prompt. *)
Fixpoint remove_prompt (p : Z) (l : list Obj) : list Obj :=
  match l with
  | [] => []
  | o :: l => if decide (prompt_id o.2 = p) then l else o :: remove_prompt p l
  end.

(** Entries of one version move from buffer [other] to [bid] until [gap] have. *)
Definition move_version (gap bid other v : Z) (s : Side) (moved : list Obj) : Side * list Obj :=
  let from := default ∅ (accumulated_buffers s !! other) in
  let taken := take (Z.to_nat gap - length moved) (default [] (from !! v)) in
  let to := default ∅ (accumulated_buffers s !! bid) in
  let n := Z.of_nat (length taken) in
  let size k := default 0 (assoc k (accumulated_buffer_size s)) in
  (with_accumulated
     (<[other := <[v := foldl (λ l o, remove_prompt (prompt_id o.2) l) (default [] (from !! v)) taken]> from]>
       (<[bid := <[v := default [] (to !! v) ++ taken]> to]> (accumulated_buffers s)))
     (dict_set other (size other - n) (dict_set bid (size bid + n) (accumulated_buffer_size s))) s,
   moved ++ taken).

Fixpoint move_versions (gap bid other : Z) (vs : list Z) (s : Side) (moved : list Obj) : Side * list Obj :=
  match vs with
  | [] => (s, moved)
  | v :: vs =>
      let '(s, moved) := move_version gap bid other v s moved in
      if bool_decide (Z.of_nat (length moved) = gap) then (s, moved) else move_versions gap bid other vs s moved
  end.

Definition drop_empty_versions (other : Z) (s : Side) : Side :=
  with_accumulated (<[other := filter (λ kv : Z * list Obj, kv.2 ≠ []) (default ∅ (accumulated_buffers s !! other))]> (accumulated_buffers s))
    (accumulated_buffer_size s) s.

Fixpoint move_buffers (gap bid : Z) (others : list Z) (s : Side) (moved : list Obj) : Side * list Obj :=
  match others with
  | [] => (s, moved)
  | other :: others =>
      let '(s, moved) := move_versions gap bid other (sort_by id (elements (dom (default ∅ (accumulated_buffers s !! other))))) s moved in
      let s := drop_empty_versions other s in
      if bool_decide (Z.of_nat (length moved) = gap) then (s, moved) else move_buffers gap bid others s moved
  end.

Definition drop_empty_buffers (s : Side) : Side :=
  let gone := filter (λ k, size (default ∅ (accumulated_buffers s !! k)) = 0%nat) (elements (dom (accumulated_buffers s))) in
  with_accumulated (foldl (λ m k, delete k m) (accumulated_buffers s) gone) (foldl (λ d k, dict_pop k d) (accumulated_buffer_size s) gone) s.

(** The buffers after [bid], from the latest one. *)
Definition later_buffers (bid : Z) (s : Side) : list Z :=
  reverse (sort_by id (elements (filter (λ k, bid < k) (dom (accumulated_buffers s))))).

Definition available_entries (bid : Z) (s : Side) : Z :=
  foldr Z.add 0 ((λ k, Z.of_nat (length (buffer_entries (default ∅ (accumulated_buffers s !! k))))) <$> later_buffers bid s).

Definition train_size (bid : Z) : Wld Z := w ← gets id; of_option KeyError (assoc bid (accumulated_buffer_size (train_side (al w)))).

Definition recover_buffer (bid gap : Z) : Wld unit :=
  '(aborted, _) ← await_call AwAbort (on_pm (abort_reserved_requests bid));
  w ← gets id;
  let '(s, moved) := move_buffers gap bid (later_buffers bid (train_side (al w))) (train_side (al w)) [] in
  on_al (modify (with_train (drop_empty_buffers s))) ;;
  await_call AwMove (on_pm (mgr_move_occupied_entries moved.*2 bid false)) ;;
  if bool_decide (0 < aborted)%nat then refill_failed_group (Z.of_nat aborted) ;; mret tt else mret tt.

Definition force_ready (bid : Z) : Wld unit :=
  w ← gets id;
  size ← train_size bid;
  if stop_train_dispatch (dispatch (al w)) && bool_decide (0 < c_ready_entries cfg - size) then
    await_call AwAbort (on_pm (abort_reserved_requests bid)) ;;
    on_al (on_side false (modify (λ s, with_accumulated (accumulated_buffers s) (dict_set bid (c_ready_entries cfg) (accumulated_buffer_size s)) s)))
  else mret tt.

Definition handle_waiting_buffer (bid : Z) : Wld unit :=
  match c_proactive_method cfg with
  | None => mret tt
  | Some Truncate => raise RuntimeError (* [NotImplementedError], a subclass *)
  | Some Retry =>
      size ← train_size bid;
      let gap := c_ready_entries cfg - size in
      if bool_decide (gap = 0) then mret tt
      else
        assert (bool_decide (0 < gap)) ;;
        if bool_decide (gap ≤ c_proactive_threshold cfg) then
          w ← gets id;
          if bool_decide (available_entries bid (train_side (al w)) < gap) then
            (if stop_train_dispatch (dispatch (al w)) then force_ready bid else mret tt)
          else recover_buffer bid gap
        else force_ready bid
  end.

(** ** Collecting results *)

Definition scalar_keys (n : Z) (ei : EntryInfo) : list string :=
  let id := prompt_id ei * n + match request_idx ei with One i => i | Many _ => 0 end in
  match n_trajectory ei with
  | One k => if bool_decide (k = 1) then [pretty id] else (λ i, pretty id +:+ "_" +:+ pretty i) <$> zrange 0 k
  | Many _ => []
  end.

(** Whether a finished group is kept. *)
Definition group_post_process (keep : list string → bool) (entries : list EntryInfo) : Wld bool :=
  assert (forallb (λ ei, negb (is_validate ei)) entries) ;;
  let keys := concat (scalar_keys (c_rollout_n cfg) <$> entries) in
  (if c_launch_reward_fn_async cfg then modify (env AwReward) else mret tt) ;;
  if keep keys then mret true else async_clear_payload keys "train" DROPPED ;; mret false.

(** A submitted occupation: the positions it decides, its outcome and its keys. *)
Record Job := mkJob { job_positions : list nat; job_result : Res (option (Z * nat * EntryInfo)); job_keys : list string }.

Record Collect := mkCollect { dispositions : list PayloadState; jobs : list Job; dropped_keys : list string }.

(** A call whose error is only seen when it is gathered. *)
Definition submit {A} (m : Wld A) : Wld (Res A) := λ w, match m w with Ret a w' => Ret (inr a) w' | Raise e w' => Ret (inl e) w' end.

(** [request_positions]: the last position of each id. *)
Definition position_of (results : list Result) (id : Z) : option nat :=
  last ((filter (λ p : nat * Result, res_request_id p.2 = id) (imap pair results)).*1).

Definition mark (results : list Result) (st : PayloadState) (ids : list Z) (ds : list PayloadState) : list PayloadState :=
  foldl (λ ds i, match position_of results i with Some p => <[p := st]> ds | None => ds end) ds ids.

Definition child_id (n p : Z) (ei : EntryInfo) : Z := p * n + match request_idx ei with One i => i | Many _ => 0 end.

(** A group that has its [alg_rollout_n] children: the missing ones are aborted,
    the surplus dropped, and the group occupied unless it is filtered out. *)
Definition finish_group (results : list Result) (is_validate : bool) (p : Z) (entries : list EntryInfo) (acc : Collect) : Wld Collect :=
  let n := group_n cfg is_validate in
  let alg := if is_validate then c_val_rollout_n cfg else c_alg_rollout_n cfg in
  assert (forallb (λ ei, is_scalar_request_idx (request_idx ei)) entries) ;;
  let stored := list_to_set (concat (to_list ∘ request_idx <$> entries)) : gset Z in
  let missing := list_to_set (zrange 0 n) ∖ stored in
  (if bool_decide (missing = ∅) then mret tt
   else assert (negb is_validate) ;;
        await_call AwAbort (on_pm (abort_requests ((λ i, p * n + i) <$> set_iter missing) true false))) ;;
  let extra := drop (Z.to_nat alg) entries in
  extra_keys ← of_res (map_res (λ ei, match n_trajectory ei with One k => request_payload_keys (child_id n p ei) k | Many _ => inl TypeError end) extra);
  let chosen := take (Z.to_nat alg) entries in
  let acc := mkCollect (mark results DROPPED (child_id n p <$> extra) (dispositions acc)) (jobs acc) (dropped_keys acc ++ concat extra_keys) in
  add ← (match c_group_post_process cfg, is_validate with
         | Some keep, false => group_post_process keep chosen
         | _, _ => mret true
         end);
  if negb add then
    await_call AwClear (on_pm (mgr_clear_reserved_entries [p] is_validate false)) ;;
    refill_failed_group 1 ;;
    mret (mkCollect (mark results DROPPED (child_id n p <$> chosen) (dispositions acc)) (jobs acc) (dropped_keys acc))
  else
    let children := child_id n p <$> chosen in
    keys ← of_res (map_res (λ ei, match n_trajectory ei with One k => request_payload_keys (child_id n p ei) k | Many _ => inl TypeError end) chosen);
    r ← submit (await_call AwOccupy (on_pm (occupy_rollout_instance_request p (Some children) is_validate)));
    mret (mkCollect (dispositions acc) (jobs acc ++ [mkJob (omap (position_of results) children) r (concat keys)]) (dropped_keys acc)).

Definition is_failed (is_validate : bool) (p : Z) (a : AgentLoop) : bool :=
  if is_validate then bool_decide (p ∈ failed_val_group_ids a) else bool_decide (p ∈ ids (failed_train_group_ids a)).

(** Step 1 for one result. *)
Definition collect_result (results : list Result) (is_validate : bool) (jr : nat * Result) (acc : Collect) : Wld Collect :=
  let '(j, r) := jr in
  let n := group_n cfg is_validate in
  let alg := if is_validate then c_val_rollout_n cfg else c_alg_rollout_n cfg in
  let p := res_prompt_id r in
  w ← gets id;
  if is_failed is_validate p (al w) then
    keys ← of_res (request_payload_keys (res_request_id r) (res_n_trajectory r));
    async_clear_payload keys (partition_of is_validate) DROPPED ;;
    mret (mkCollect (<[j := DROPPED]> (dispositions acc)) (jobs acc) (dropped_keys acc))
  else
    (if bool_decide (1 < res_n_trajectory r)
     then await_call AwTrajectories (on_pm (mgr_update_request_n_trajectory (res_request_id r) (res_n_trajectory r) is_validate)) else mret tt) ;;
    if bool_decide (1 < n) then
      let ei := mkEntryInfo (One (res_instance r)) p (One (res_request_id r mod n)) (One (res_version r)) (One (res_n_trajectory r)) is_validate in
      on_al (modify (λ a, with_group_tracker (<[p := default [] (rollout_request_tracker a !! p) ++ [ei]]> (rollout_request_tracker a)) a)) ;;
      w ← gets id;
      let entries := default [] (rollout_request_tracker (al w) !! p) in
      if bool_decide (alg ≤ Z.of_nat (length entries)) then
        on_al (modify (λ a, with_group_tracker (delete p (rollout_request_tracker a)) a)) ;;
        finish_group results is_validate p entries acc
      else mret acc
    else
      keys ← of_res (request_payload_keys (res_request_id r) (res_n_trajectory r));
      o ← submit (await_call AwOccupy (on_pm (occupy_rollout_instance_request (res_request_id r) None is_validate)));
      mret (mkCollect (dispositions acc) (jobs acc ++ [mkJob [j] o keys]) (dropped_keys acc)).

(** [await asyncio.gather]: the first error, when there is one. *)
Fixpoint gather (js : list Job) : Res (list (Job * option (Z * nat * EntryInfo))) :=
  match js with
  | [] => inr []
  | j :: js =>
      match job_result j, gather js with
      | inl e, _ => inl e
      | inr o, inr l => inr ((j, o) :: l)
      | inr _, inl e => inl e
      end
  end.

(** Step 3 for one job: the buffers that have become complete. *)
Definition accumulate_job (is_validate : bool) (jo : Job * option (Z * nat * EntryInfo)) (acc : list PayloadState * gset Z)
    : Wld (list PayloadState * gset Z) :=
  let '(job, o) := jo in
  let '(ds, ready) := acc in
  match o with
  | None =>
      async_clear_payload (job_keys job) (partition_of is_validate) DROPPED ;;
      mret (foldl (λ ds p, <[p := DROPPED]> ds) ds (job_positions job), ready)
  | Some (bid, _, info) =>
      let ds := foldl (λ ds p, <[p := PAYLOAD_OCCUPIED]> ds) ds (job_positions job) in
      (if is_validate then mret tt else on_al reset_group_failure_streak) ;;
      w ← gets id;
      let expected := if is_validate then val_buffer_size (al w) else Some (c_ready_entries cfg) in
      v ← of_res (get_entry_version info);
      on_al (add_accumulated is_validate bid v info) ;;
      (if is_validate then mret tt else on_al (emit_pending_chunks cfg bid)) ;;
      w ← gets id;
      (if negb is_validate && bool_decide (set_min (dom (buffer_waiters (train_side (al w)))) = Some bid)
       then handle_waiting_buffer bid else mret tt) ;;
      w ← gets id;
      size ← of_option KeyError (assoc bid (accumulated_buffer_size (side_of is_validate (al w))));
      mret (ds, if bool_decide (Some size = expected) then {[bid]} ∪ ready else ready)
  end.

Definition occupy_requests (results : list Result) (is_validate : bool) : Wld (list PayloadState) :=
  if bool_decide (results = []) then mret []
  else
    modify (env AwLock) ;;
    acc ← fold_each (imap pair results) (mkCollect (replicate (length results) PENDING_GROUP) [] []) (collect_result results is_validate);
    outcomes ← of_res (gather (jobs acc));
    '(ds, ready) ← fold_each outcomes (dispositions acc, ∅) (accumulate_job is_validate);
    (if bool_decide (dropped_keys acc = []) then mret tt else async_clear_payload (dropped_keys acc) (partition_of is_validate) DROPPED) ;;
    for_each (sort_by id (elements ready)) (λ bid, flush_ready_buffer bid is_validate ;; mret tt) ;;
    mret ds.

(** One round of the collection loop on the results it drained: the validation
    results together, the training results one by one. *)
Definition collect_round (results : list (bool * Result)) : Wld unit :=
  let val := (filter (λ p : bool * Result, p.1 = true) results).*2 in
  let train := (filter (λ p : bool * Result, p.1 = false) results).*2 in
  (if bool_decide (val = []) then mret tt else occupy_requests val true ;; mret tt) ;;
  for_each train (λ r, ds ← occupy_requests [r] false; assert (bool_decide (length ds = 1%nat))).

(** ** Failures *)

Definition wake_with_empty_batch : Wld unit :=
  on_al (
    modify (λ a, with_val_round (val_buffer_size a) true a) ;;
    a ← gets id;
    resolve (GotBatch empty_val_batch) (concat (map_to_list (buffer_waiters (val_side a))).*2) ;;
    on_side true (modify (with_buffer_waiters ∅))).

Definition shrink_validation : Wld unit :=
  w ← gets id;
  match val_buffer_size (al w) with
  | Some n =>
      if bool_decide (n ≤ 0) then mret tt
      else
        on_al (modify (λ a, with_val_round (Some (n - 1)) (val_round_all_failed a) a)) ;;
        for_each (accumulated_buffer_size (val_side (al w))) (λ '(bid, size),
          w ← gets id;
          if bool_decide (Some size = val_buffer_size (al w)) && bool_decide (data_buffers (val_side (al w)) !! bid = None)
          then flush_ready_buffer bid true ;; mret tt else mret tt) ;;
        w ← gets id;
        if bool_decide (default 0 (val_buffer_size (al w)) ≤ 0) then wake_with_empty_batch else mret tt
  | None => mret tt
  end.

Definition notify_group_failed (parent_id failed_uid : Z) (is_validate : bool) (terminate_reason : option string) : Wld unit :=
  modify (env AwLock) ;;
  w ← gets id;
  if is_failed is_validate parent_id (al w) then mret tt
  else
    on_al (modify (λ a, if is_validate then with_failed_val ({[parent_id]} ∪ failed_val_group_ids a) a
                        else with_failed_train (bounded_add parent_id (failed_train_group_ids a)) a)) ;;
    let n := group_n cfg is_validate in
    let siblings := filter (λ uid, uid ≠ failed_uid) ((λ i, parent_id * n + i) <$> zrange 0 n) in
    (if bool_decide (siblings = []) then mret tt else await_call AwAbort (on_pm (abort_requests siblings true false))) ;;
    purge_tracker_group parent_id n is_validate ;;
    if is_validate then shrink_validation
    else on_al (record_group_failure cfg terminate_reason) ;; refill_failed_group 1 ;; mret tt.

(** ** Waiting *)

Definition wait_on (is_validate : bool) (bid : Z) : Al (Wait KVBatchMeta) :=
  fut ← create_future;
  on_side is_validate (modify (λ s, with_buffer_waiters (<[bid := default [] (buffer_waiters s !! bid) ++ [fut]]> (buffer_waiters s)) s)) ;;
  mret (Later fut).

Definition wait_for_training_batch (bid : Z) : Wld (Wait KVBatchMeta) :=
  on_al raise_if_refill_breaker_tripped ;;
  await_call AwEnsure (on_pm (ensure_train_buffer_exists bid)) ;;
  w ← gets id;
  match data_buffers (train_side (al w)) !! bid, accumulated_buffers (train_side (al w)) !! bid with
  | Some _, _ => b ← on_al (consume_buffer bid false); mret (Now b)
  | None, Some _ =>
      modify (env AwLock) ;;
      handle_waiting_buffer bid ;;
      size ← train_size bid;
      add ← (if bool_decide (size = c_ready_entries cfg) then flush_ready_buffer bid false else mret false);
      if add : bool then b ← on_al (consume_buffer bid false); mret (Now b) else on_al (wait_on false bid)
  | None, None => on_al (wait_on false bid)
  end.

Definition wait_for_validation_batch (bid : Z) : Wld (Wait KVBatchMeta) :=
  modify (env AwLock) ;;
  await_call AwEnsure (on_pm ensure_validate_buffer_exists) ;;
  w ← gets id;
  match data_buffers (val_side (al w)) !! bid with
  | Some _ => b ← on_al (consume_buffer bid true); mret (Now b)
  | None => if val_round_all_failed (al w) then mret (Now empty_val_batch) else on_al (wait_on true bid)
  end.

(** [put_data] of the batch follows; [rows] is what the data processor answers. *)
Definition generate_validate_sequences (rows : list Row) : Wld Z :=
  modify (env AwVal) ;;
  (if bool_decide (c_val_rollout_n cfg = 0) then raise ZeroDivisionError else mret tt) ;;
  let prompt_num := Z.of_nat (length rows) / c_val_rollout_n cfg in
  on_al (set_val_buffer_size prompt_num) ;;
  await_call AwVal (on_pm (set_val_staleness_inventory_capacity (Z.to_nat prompt_num) None)) ;;
  await_call AwVal (on_pm (on_tracker (add_request (Many (r_uid <$> rows)) (One INVALID_ROLLOUT_INSTANCE_ID) (One (-1)) (One RequestStatus.PENDING) (One true)))) ;;
  w ← gets id;
  on_al (modify (λ a, with_val_buffer_id (val_buffer_id a + 1) a)) ;;
  mret (val_buffer_id (al w)).
End ops.
