(* ===== verification/AgentLoopTheorems.v ===== *)
(** * Agent-loop manager: theorems about its local operations

    The dispatch plan, the record of failed groups, the refill breaker, the
    metadata of a batch and the stream of chunks of a buffer
    ([psrl/workers/agent_loop/manager.py], modelled in [AgentLoop.v]). *)

From S2P Require Import Prelude.
From S2P Require Import StalenessBuffer.
From S2P Require Import TransferQueue.
From S2P Require Import RequestStatusTracker.
From S2P Require Import PyData.
From S2P Require Import AgentLoop.
From S2P Require Import AgentLoopOps.

#[local] Open Scope Z_scope.

(** ** Failed groups *)

Lemma bounded_add_list xs c :
  0 < c → NoDup xs →
  foldl (λ b x, bounded_add x b) (mkBounded c []) xs = mkBounded c (drop (length xs - Z.to_nat c) xs).
Proof.
  intros Hc. induction xs as [|x xs IH] using rev_ind; [done|]. intros (Hnd & Hx & _)%NoDup_app.
  rewrite foldl_app, IH by done. simpl. unfold bounded_add. simpl. set (k := (length xs - Z.to_nat c)%nat).
  rewrite bool_decide_false.
  2: { intros H. apply (Hx x); [|by apply list_elem_of_singleton]. rewrite <-(take_drop k xs). apply elem_of_app. by right. }
  rewrite !length_app, length_drop. simpl. f_equal. destruct (decide (Z.to_nat c ≤ length xs)%nat) as [Hle|Hle].
  - rewrite bool_decide_true by lia. replace (length xs + 1 - Z.to_nat c)%nat with (k + 1)%nat by lia.
    rewrite drop_app_le by lia. rewrite <-drop_drop. destruct (drop k xs) as [|y ys] eqn:E; [|done].
    apply (f_equal length) in E. rewrite length_drop in E. simpl in E. lia.
  - rewrite bool_decide_false by lia. unfold k. replace (length xs - Z.to_nat c)%nat with 0%nat by lia.
    by replace (length xs + 1 - Z.to_nat c)%nat with 0%nat by lia.
Qed.

(** ** Dispatch plan *)

(** The prompts in order of first appearance, and the place of one of them. *)
Definition see (l : list Z) (p : Z) : list Z := if bool_decide (p ∈ l) then l else l ++ [p].
Definition seen (ps : list Z) : list Z := foldl see [] ps.

Fixpoint rank (p : Z) (l : list Z) : nat :=
  match l with [] => O | x :: l => if decide (x = p) then O else S (rank p l) end.

Lemma rank_app p l l' : p ∈ l → rank p (l ++ l') = rank p l.
Proof.
  induction l as [|x l IH]; [intros []%not_elem_of_nil|]. simpl. case_decide; [done|].
  intros [->|?]%elem_of_cons; [done|]. f_equal. auto.
Qed.

Lemma rank_new p l : p ∉ l → rank p (l ++ [p]) = length l.
Proof.
  induction l as [|x l IH]; simpl; [by rewrite decide_True|]. rewrite not_elem_of_cons. intros [? ?].
  rewrite decide_False by done. f_equal. auto.
Qed.

Lemma filter_ext_elem {A} (P Q : A → Prop) `{∀ x, Decision (P x), ∀ x, Decision (Q x)} (l : list A) :
  (∀ x, x ∈ l → P x ↔ Q x) → filter P l = filter Q l.
Proof.
  induction l as [|x l IH]; [done|]. intros Hpq. rewrite !filter_cons.
  assert (P x ↔ Q x) as Hx by (apply Hpq, elem_of_cons; by left).
  rewrite IH by (intros y Hy; apply Hpq, elem_of_cons; by right). repeat case_decide; tauto.
Qed.

Section plan.
Context (cfg : AgentConfig) (is_validate : bool) (idx : Z).
Implicit Types (rows : list Row).

Definition worker_of (l : list Z) (r : Row) : Z := (idx + Z.of_nat (rank (row_prompt cfg is_validate r) l)) mod c_num_workers cfg.

(** What the plan is after some rows. *)
Record plan_ok (rows : list Row) (acc : list (Z * Z) * list (Z * list Row)) : Prop := {
  po_seen : acc.1.*1 = seen (row_prompt cfg is_validate <$> rows);
  po_worker p w : (p, w) ∈ acc.1 → w = (idx + Z.of_nat (rank p (seen (row_prompt cfg is_validate <$> rows)))) mod c_num_workers cfg;
  po_keys : NoDup acc.2.*1;
  po_rows w rs : (w, rs) ∈ acc.2 ↔ rs ≠ [] ∧ rs = filter (λ r, worker_of (seen (row_prompt cfg is_validate <$> rows)) r = w) rows;
}.

Lemma seen_snoc ps p : seen (ps ++ [p]) = see (seen ps) p.
Proof. unfold seen. by rewrite foldl_app. Qed.

Lemma seen_elem ps p : p ∈ seen ps ↔ p ∈ ps.
Proof.
  induction ps as [|q ps IH] using rev_ind; [done|]. rewrite seen_snoc. unfold see. rewrite elem_of_app, list_elem_of_singleton.
  case_bool_decide as Hq; rewrite ?elem_of_app, ?list_elem_of_singleton, IH; [|done]. split; [tauto|]. intros [?| ->]; [done|]. by apply IH.
Qed.

Lemma seen_NoDup ps : NoDup (seen ps).
Proof.
  induction ps as [|q ps IH] using rev_ind; [apply NoDup_nil_2|]. rewrite seen_snoc. unfold see. case_bool_decide; [done|].
  apply NoDup_app. split; [done|]. split; [|apply NoDup_singleton]. by intros x Hx ->%list_elem_of_singleton.
Qed.

Lemma rank_see p l q : p ∈ l → rank p (see l q) = rank p l.
Proof. intros Hp. unfold see. case_bool_decide; [done|by apply rank_app]. Qed.

Lemma dict_append_rows w r (d : list (Z * list Row)) v rs :
  NoDup d.*1 → (v, rs) ∈ dict_append w r d ↔ if decide (v = w) then rs = default [] (assoc w d) ++ [r] else (v, rs) ∈ d.
Proof.
  intros Hnd. unfold dict_append. rewrite <-(assoc_iff v rs (dict_set _ _ _)) by (by apply dict_set_NoDup). rewrite assoc_dict_set.
  destruct (decide (w = v)) as [->|Hne]; [rewrite decide_True by done|rewrite decide_False by done; by apply assoc_iff].
  split; [by intros [= <-]|by intros ->].
Qed.

Lemma plan_snoc rows r acc : plan_ok rows acc → plan_ok (rows ++ [r]) (plan_row cfg is_validate idx acc r).
Proof.
  intros [Hs Hw Hk Hr]. destruct acc as [p2w plan]. simpl in Hs, Hw, Hk, Hr. set (p := row_prompt cfg is_validate r) in *. set (l := seen (row_prompt cfg is_validate <$> rows)) in *.
  assert (seen (row_prompt cfg is_validate <$> rows ++ [r]) = see l p) as Hsnoc by (rewrite fmap_app; apply seen_snoc).
  assert (∀ q, q ∈ rows → worker_of (see l p) q = worker_of l q) as Hsame.
  { intros q Hq. unfold worker_of. rewrite rank_see; [done|]. apply seen_elem, list_elem_of_fmap. by exists q. }
  assert (∀ w, plan_row cfg is_validate idx (p2w, plan) r = (if bool_decide (p ∈ l) then p2w else dict_set p w p2w, dict_append w r plan) → w = worker_of (see l p) r →
    plan_ok (rows ++ [r]) (plan_row cfg is_validate idx (p2w, plan) r)) as Hgo.
  { intros w -> Hwr. split; simpl; rewrite ?Hsnoc.
    - unfold see. case_bool_decide as Hp; [done|]. destruct (dict_set_keys p w p2w) as [[Hin _] | [_ ->]]; [by rewrite Hs in Hin|by rewrite Hs].
    - intros q w' Hin. assert ((q, w') ∈ p2w ∨ q = p ∧ w' = w) as [Hq| [-> ->]].
      { case_bool_decide; [by left|]. apply elem_of_dict_set in Hin as [[= -> ->]|?]; auto. }
      + rewrite rank_see; [by apply Hw|]. rewrite <-Hs. apply list_elem_of_fmap. by exists (q, w').
      + exact Hwr.
    - by apply dict_set_NoDup.
    - intros w' rs. rewrite dict_append_rows by done. rewrite filter_app.
      rewrite (filter_ext_elem _ (λ q, worker_of l q = w') rows) by (intros q Hq; by rewrite Hsame).
      rewrite filter_cons, filter_nil, <-Hwr. pose proof (Hr w') as Hrw.
      destruct (decide (w' = w)) as [->|Hne].
      + rewrite decide_True by done. assert (default [] (assoc w plan) = filter (λ q, worker_of l q = w) rows) as ->.
        { destruct (assoc w plan) as [rs0|] eqn:E.
          - apply assoc_iff in E; [|done]. simpl. by apply Hrw in E as [_ ->].
          - simpl. destruct (filter _ rows) as [|q qs] eqn:Ef; [done|]. exfalso. enough (Some (q :: qs) = None) by done.
            rewrite <-E. symmetry. apply assoc_iff; [done|]. by apply Hrw. }
        split; [|by intros [_ ->]]. intros ->. split; [|done]. by destruct (filter _ rows).
      + rewrite decide_False, app_nil_r by done. apply Hrw. }
  destruct (assoc p p2w) as [w|] eqn:E.
  - assert (p ∈ l) as Hp by (rewrite <-Hs; apply list_elem_of_fmap; exists (p, w); split; [done|by apply elem_of_assoc]).
    apply (Hgo w); [simpl; fold p; by rewrite E, bool_decide_true|]. unfold worker_of. rewrite rank_see by done. by apply Hw, elem_of_assoc.
  - assert (p ∉ l) as Hp.
    { rewrite <-Hs. intros ([q w] & Hq & Hin)%list_elem_of_fmap. simpl in Hq. subst q.
      assert (NoDup p2w.*1) as Hnd by (rewrite Hs; apply seen_NoDup). rewrite (assoc_elem p w p2w) in E; done. }
    apply (Hgo ((idx + Z.of_nat (length p2w)) mod c_num_workers cfg)); [simpl; fold p; by rewrite E, bool_decide_false|].
    unfold worker_of, see. fold p. rewrite bool_decide_false, rank_new by done. by rewrite <-Hs, length_fmap.
Qed.

Lemma plan_rows_ok rows : plan_ok rows (foldl (plan_row cfg is_validate idx) ([], []) rows).
Proof.
  induction rows as [|r rows IH] using rev_ind; [|rewrite foldl_app; by apply plan_snoc].
  split; simpl; [done|intros ? ? []%not_elem_of_nil|apply NoDup_nil_2|]. intros w rs. split; [intros []%not_elem_of_nil|]. intros [? ->]. done.
Qed.
End plan.

(** The dispatch plan gives every row to exactly one worker, in order: the rows
    of a prompt all go to the same worker, and the prompts are dealt to the workers
    in turn, in the order in which they first appear, starting where the previous
    plan stopped. *)
Theorem dispatch_plan_exact (cfg : AgentConfig) (rows : list Row) (is_validate : bool) (a : AgentLoop) :
  0 < c_num_workers cfg →
  let ps := seen (row_prompt cfg is_validate <$> rows) in
  let turn p := (dispatch_idx (dispatch a) + Z.of_nat (rank p ps)) mod c_num_workers cfg in
  ∃ plan a', get_dispatch_plan cfg rows is_validate a = Ret plan a' ∧ NoDup plan.*1 ∧
    (∀ w rs, (w, rs) ∈ plan ↔ rs ≠ [] ∧ rs = filter (λ r, turn (row_prompt cfg is_validate r) = w) rows) ∧
    a' = with_dispatch (with_dispatch_idx ((dispatch_idx (dispatch a) + Z.of_nat (length ps)) mod c_num_workers cfg) (dispatch a)) a.
Proof.
  intros Hn ps turn. unfold get_dispatch_plan. rewrite bool_decide_false by lia. mrun.
  pose proof (plan_rows_ok cfg is_validate (dispatch_idx (dispatch a)) rows) as [Hs _ Hk Hr].
  destruct (foldl _ _ rows) as [p2w plan]. simpl in *. eexists plan, _. split; [done|]. split_and!; [done|exact Hr|].
  unfold ps. by rewrite <-Hs, length_fmap.
Qed.

(** ** The refill breaker *)

Lemma resolve_all r futs m f :
  (foldl (λ m f, match m !! f with Some _ => m | None => <[f := r]> m end) m futs : gmap nat FutureResult) !! f =
    match m !! f with Some x => Some x | None => if decide (f ∈ futs) then Some r else None end.
Proof.
  revert m. induction futs as [|g futs IH]; intros m; cbn [foldl]; [rewrite decide_False by apply not_elem_of_nil; by destruct (m !! f)|].
  rewrite IH. destruct (m !! g) as [x|] eqn:Hg.
  - destruct (m !! f) eqn:Hf; [done|]. destruct (decide (f ∈ futs)); [rewrite decide_True by (apply elem_of_cons; by right); done|].
    rewrite decide_False; [done|]. intros [->|?]%elem_of_cons; congruence.
  - rewrite lookup_insert. destruct (decide (g = f)) as [->|Hne]; [rewrite Hg, decide_True by (apply elem_of_cons; by left); done|].
    destruct (m !! f); [done|]. destruct (decide (f ∈ futs)); [rewrite decide_True by (apply elem_of_cons; by right); done|].
    rewrite decide_False; [done|]. intros [->|?]%elem_of_cons; congruence.
Qed.

Lemma elem_of_concat {A} (x : A) (ls : list (list A)) : x ∈ concat ls ↔ ∃ l, x ∈ l ∧ l ∈ ls.
Proof.
  induction ls as [|l ls IH]; simpl; [split; [intros []%not_elem_of_nil|intros (? & _ & []%not_elem_of_nil)]|].
  rewrite elem_of_app, IH. setoid_rewrite elem_of_cons. naive_solver.
Qed.

Lemma concat_values {K} `{Countable K} (m : gmap K (list nat)) k futs f :
  m !! k = Some futs → f ∈ futs → f ∈ concat (map_to_list m).*2.
Proof. intros Hk Hf. apply elem_of_concat. exists futs. split; [done|]. apply list_elem_of_fmap. exists (k, futs). split; [done|]. by apply elem_of_map_to_list. Qed.

Lemma trip_run d a :
  refill_breaker_diagnosis (breaker a) = None →
  trip_refill_breaker d a = Ret tt (with_chunks (with_resolved ∅ (with_chunk_waiters ∅ (chunks a))) (with_train (with_buffer_waiters ∅ (train_side a))
    (with_breaker (mkBreaker (consecutive_group_failures (breaker a)) (group_failure_reasons (breaker a)) (Some d))
      (with_futures (foldl (λ m f, match m !! f with Some _ => m | None => <[f := GotError d]> m end)
        (foldl (λ m f, match m !! f with Some _ => m | None => <[f := GotError d]> m end) (futures a) (concat (map_to_list (buffer_waiters (train_side a))).*2))
        (concat (map_to_list (chunk_waiters (chunks a))).*2)) a)))).
Proof. intros Hd. unfold trip_refill_breaker. mrun. by rewrite Hd. Qed.

(** Tripping the breaker fails every caller that waits for a training buffer or
    a chunk with the diagnosis and leaves nobody waiting; from then on waiting for
    a chunk raises at once, and the first diagnosis is kept. *)
Theorem breaker_ends_waits (d : Diagnosis) (a : AgentLoop) :
  refill_breaker_diagnosis (breaker a) = None →
  ∃ a', trip_refill_breaker d a = Ret tt a' ∧
    (∀ bid futs f, buffer_waiters (train_side a) !! bid = Some futs → f ∈ futs → futures a !! f = None → futures a' !! f = Some (GotError d)) ∧
    (∀ key futs f, chunk_waiters (chunks a) !! key = Some futs → f ∈ futs → futures a !! f = None → futures a' !! f = Some (GotError d)) ∧
    buffer_waiters (train_side a') = ∅ ∧ chunk_waiters (chunks a') = ∅ ∧
    ∀ a2, refill_breaker_diagnosis (breaker a2) = refill_breaker_diagnosis (breaker a') →
      (∀ bid idx, wait_for_training_chunk bid idx a2 = Raise RuntimeError a2) ∧ ∀ d', trip_refill_breaker d' a2 = Ret tt a2.
Proof.
  intros Hd. eexists. split; [by apply trip_run|]. cbn [futures]. split_and!; [| |done|done|].
  - intros bid futs f Hb Hf Hp. simpl. rewrite !resolve_all, Hp, decide_True; [done|]. by eapply concat_values.
  - intros key futs f Hb Hf Hp. simpl. rewrite !resolve_all, Hp. case_decide; [done|]. rewrite decide_True; [done|]. by eapply concat_values.
  - intros a2 Ha2. simpl in Ha2. split; intros *; [unfold wait_for_training_chunk, raise_if_refill_breaker_tripped|unfold trip_refill_breaker]; mrun; by rewrite Ha2.
Qed.

(** What happens to the training groups: one fails, for a reason, or is occupied. *)
Inductive GroupEvent := GroupFailed (reason : option string) | GroupOccupied.

Definition group_event (cfg : AgentConfig) (e : GroupEvent) : Al unit :=
  match e with GroupFailed reason => record_group_failure cfg reason | GroupOccupied => reset_group_failure_streak end.

Definition is_failure (e : GroupEvent) : Prop := match e with GroupFailed _ => True | GroupOccupied => False end.

(** The failures since the last success. *)
Fixpoint streak (es : list GroupEvent) : nat :=
  match es with [] => O | GroupFailed _ :: es => S (streak es) | GroupOccupied :: es => O end.

Lemma record_failure_run cfg reason a :
  ∃ a', record_group_failure cfg reason a = Ret tt a' ∧ consecutive_group_failures (breaker a') = consecutive_group_failures (breaker a) + 1 ∧
    (is_Some (refill_breaker_diagnosis (breaker a')) ↔
     is_Some (refill_breaker_diagnosis (breaker a)) ∨ c_refill_failure_threshold cfg ≤ consecutive_group_failures (breaker a) + 1).
Proof.
  unfold record_group_failure. mrun. simpl. case_bool_decide as Ht; [|eexists; split; [done|]; simpl; split; [done|]; tauto].
  set (a1 := with_breaker _ a). destruct (refill_breaker_diagnosis (breaker a)) as [d|] eqn:Hd.
  - exists a1. split; [unfold trip_refill_breaker; mrun; simpl; by rewrite ?Hd|]. simpl. rewrite ?Hd. split; [done|]. split; [by left|eauto].
  - eexists. split; [apply trip_run; done|]. simpl. split; [done|]. split; [by right|done].
Qed.

Lemma streak_le es l : Forall is_failure l → l `prefix_of` es → (length l ≤ streak es)%nat.
Proof.
  revert es. induction l as [|e l IH]; intros es Hl Hp; [simpl; lia|]. destruct es as [|e' es]; [by apply prefix_nil_inv in Hp|].
  apply Forall_cons in Hl as [He Hl]. apply prefix_cons_inv_1 in Hp as He'. subst e'. apply prefix_cons_inv_2 in Hp. destruct e; [|done]. simpl. apply le_n_S. auto.
Qed.

Lemma streak_prefix es : Forall is_failure (take (streak es) es).
Proof. induction es as [|[]]; simpl; [constructor|by constructor|constructor]. Qed.

Lemma streak_length es : (streak es ≤ length es)%nat.
Proof. induction es as [|[]]; simpl; lia. Qed.

(** The breaker trips exactly when [refill_failure_threshold] groups have failed
    in a row without one being occupied in between. *)
Theorem breaker_trips_on_streak (cfg : AgentConfig) (es : list GroupEvent) (a : AgentLoop) :
  0 < c_refill_failure_threshold cfg → breaker a = mkBreaker 0 [] None →
  ∃ a', for_each es (group_event cfg) a = Ret tt a' ∧
    (is_Some (refill_breaker_diagnosis (breaker a')) ↔
     ∃ l1 l2 l3, es = l1 ++ l2 ++ l3 ∧ Forall is_failure l2 ∧ c_refill_failure_threshold cfg ≤ Z.of_nat (length l2)).
Proof.
  intros Ht Ha.
  enough (∃ a', for_each es (group_event cfg) a = Ret tt a' ∧ consecutive_group_failures (breaker a') = Z.of_nat (streak (reverse es)) ∧
    (is_Some (refill_breaker_diagnosis (breaker a')) ↔
     ∃ l1 l2 l3, es = l1 ++ l2 ++ l3 ∧ Forall is_failure l2 ∧ c_refill_failure_threshold cfg ≤ Z.of_nat (length l2))) as (a' & E & _ & H) by eauto.
  induction es as [|e es (a1 & E1 & Hc1 & Hd1)] using rev_ind.
  { exists a. split; [done|]. rewrite Ha. split; [done|]. split; [by intros [? [=]]|]. intros (l1 & l2 & l3 & Heq & _ & Hl).
    symmetry in Heq. apply app_nil in Heq as [_ [-> _]%app_nil]. simpl in Hl. lia. }
  rewrite for_each_app, (run_bind _ _ _ _ _ E1), reverse_snoc. cbn [for_each].
  destruct e as [reason|]; simpl.
  - destruct (record_failure_run cfg reason a1) as (a2 & E2 & Hc2 & Hd2). exists a2. split; [by rewrite (run_bind _ _ _ _ _ E2)|]. split; [lia|]. rewrite Hd2, Hd1, Hc1. split.
    + intros [(l1 & l2 & l3 & -> & Hf & Hl)|Hl]; [exists l1, l2, (l3 ++ [GroupFailed reason]); by rewrite !app_assoc|].
      exists (reverse (drop (streak (reverse es)) (reverse es))), (reverse (take (streak (reverse es)) (reverse es)) ++ [GroupFailed reason]), [].
      rewrite app_nil_r, app_assoc, <-reverse_app, take_drop, reverse_involutive. split; [done|].
      split; [apply Forall_app; split; [apply Forall_reverse, streak_prefix|by constructor]|].
      rewrite length_app, length_reverse, length_take. simpl. pose proof (streak_length (reverse es)). lia.
    + intros (l1 & l2 & l3 & Heq & Hf & Hl). destruct l3 as [|e3 l3 _] using rev_ind.
      * rewrite app_nil_r in Heq. right. destruct l2 as [|e2 l2 _] using rev_ind; [simpl in Hl; lia|].
        rewrite app_assoc in Heq. apply app_inj_tail in Heq as [-> _]. rewrite length_app in Hl. simpl in Hl.
        apply Forall_app in Hf as [Hf _]. assert (length (reverse l2) ≤ streak (reverse (l1 ++ l2)))%nat as H.
        { apply streak_le; [by apply Forall_reverse|]. rewrite reverse_app. by eexists. }
        rewrite length_reverse in H. lia.
      * left. rewrite !app_assoc in Heq. apply app_inj_tail in Heq as [-> _]. exists l1, l2, l3. by rewrite app_assoc.
  - eexists. split; [done|]. unfold reset_group_failure_streak. simpl.
    assert (∀ b : bool, ∀ a3, refill_breaker_diagnosis (breaker (if b then a1 else with_breaker (mkBreaker 0 [] (refill_breaker_diagnosis (breaker a1))) a3)) = refill_breaker_diagnosis (breaker a1)) as Hsame by (by intros []).
    split; [case_bool_decide; [done|done]|]. rewrite Hsame, Hd1. split.
    + intros (l1 & l2 & l3 & -> & Hf & Hl). exists l1, l2, (l3 ++ [GroupOccupied]). by rewrite !app_assoc.
    + intros (l1 & l2 & l3 & Heq & Hf & Hl). destruct l3 as [|e3 l3 _] using rev_ind.
      * rewrite app_nil_r in Heq. destruct l2 as [|e2 l2 _] using rev_ind; [simpl in Hl; lia|].
        rewrite app_assoc in Heq. apply app_inj_tail in Heq as [_ <-]. apply Forall_app in Hf as [_ [[] _]%Forall_cons].
      * rewrite !app_assoc in Heq. apply app_inj_tail in Heq as [-> _]. exists l1, l2, l3. by rewrite app_assoc.
Qed.

(** ** The stream of chunks *)

Lemma concat_perm {A} (ls ls' : list (list A)) : ls ≡ₚ ls' → concat ls ≡ₚ concat ls'.
Proof.
  induction 1 as [| |x y l|]; simpl; [done|by f_equiv| |by etrans]. rewrite !app_assoc. f_equiv. apply Permutation_app_comm.
Qed.

Lemma map_values_perm {V} (d : gmap Z V) : (λ k, (k, d !! k)) <$> elements (dom d) ≡ₚ (λ kv : Z * V, (kv.1, Some kv.2)) <$> map_to_list d.
Proof.
  apply NoDup_Permutation.
  - apply NoDup_fmap_2; [by intros ? ? [= ->]|apply NoDup_elements].
  - apply NoDup_fmap_2; [by intros [] [] [= -> ->]|apply NoDup_map_to_list].
  - intros [k o]. rewrite !list_elem_of_fmap. split.
    + intros (k' & [= -> ->] & Hk). apply elem_of_elements, elem_of_dom in Hk as [v Hv]. exists (k', v). rewrite Hv. split; [done|]. by apply elem_of_map_to_list.
    + intros ([k' v] & [= -> ->] & Hk). apply elem_of_map_to_list in Hk. exists k'. simpl. rewrite Hk. split; [done|]. apply elem_of_elements, elem_of_dom. eauto.
Qed.

Lemma buffer_entries_perm d : buffer_entries d ≡ₚ concat (map_to_list d).*2.
Proof.
  unfold buffer_entries. apply concat_perm. etrans; [apply fmap_Permutation, sort_by_perm|].
  pose proof (fmap_Permutation (λ x : Z * option (list Obj), default [] x.2) _ _ (map_values_perm d)) as Hp. rewrite <-!list_fmap_compose in Hp. exact Hp.
Qed.

Lemma buffer_entries_add v o d : buffer_entries (bucket_add v o d) ≡ₚ buffer_entries d ++ [o].
Proof.
  rewrite !buffer_entries_perm. unfold bucket_add. rewrite <-insert_delete_eq, map_to_list_insert by apply lookup_delete_eq. simpl.
  destruct (d !! v) as [l|] eqn:E; simpl.
  - rewrite <-(insert_delete_id d v l) at 2 by done. rewrite map_to_list_insert by apply lookup_delete_eq. simpl.
    rewrite <-!app_assoc. f_equiv. apply Permutation_app_comm.
  - rewrite delete_id by done. apply Permutation_cons_append.
Qed.

Lemma filter_perm_drop (E : gset nat) (l l' : list Obj) :
  NoDup l.*1 → l' ⊆+ l → E = list_to_set l'.*1 → filter (λ o : Obj, o.1 ∉ E) l ++ l' ≡ₚ l.
Proof.
  intros Hnd [k Hk]%submseteq_Permutation ->. rewrite Hk in Hnd |- *. rewrite fmap_app in Hnd. apply NoDup_app in Hnd as (_ & Hd & _).
  rewrite filter_app. assert (filter (λ o : Obj, o.1 ∉ (list_to_set l'.*1 : gset nat)) l' = []) as ->.
  { clear. assert (∀ k, (∀ o, o ∈ k → o ∈ l') → filter (λ o : Obj, o.1 ∉ (list_to_set l'.*1 : gset nat)) k = []) as H; [|by apply H].
    induction k as [|o k IH]; [done|]. intros Hk. rewrite filter_cons_False; [apply IH; intros o' Ho'; apply Hk, elem_of_cons; by right|].
    intros H. apply H, elem_of_list_to_set, list_elem_of_fmap. exists o. split; [done|]. apply Hk, elem_of_cons. by left. }
  rewrite (filter_ext_elem _ (λ _, True) k).
  - assert (∀ k : list Obj, filter (λ _, True) k = k) as -> by (induction k0 as [|o k0 IH]; [done|]; rewrite filter_cons_True, IH; done).
    apply Permutation_app_comm.
  - intros o Ho. split; [done|]. intros _ Hin%elem_of_list_to_set. apply (Hd o.1); [done|]. apply list_elem_of_fmap. by exists o.
Qed.

(** An entry that can be put into a batch. *)
Definition publishable (cfg : AgentConfig) (ei : EntryInfo) : Prop :=
  ∃ v rows, get_entry_version ei = inr v ∧ entry_meta_rows (rewards_ready cfg false) (group_n cfg false) ei = inr rows.

(** An entry arrives in a training buffer. *)
Definition feed (cfg : AgentConfig) (bid : Z) (ei : EntryInfo) : Al unit :=
  v ← of_res (get_entry_version ei);
  add_accumulated false bid v ei ;;
  emit_pending_chunks cfg bid.

Lemma meta_defined cfg infos : Forall (publishable cfg) infos → ∃ m, entry_infos_to_kv_batch_meta cfg infos false = inr m.
Proof.
  rewrite Forall_forall. intros H. unfold entry_infos_to_kv_batch_meta.
  destruct (map_res_total (entry_meta_rows (rewards_ready cfg false) (group_n cfg false)) (λ _ _, True) infos) as (ys & -> & _); [|by eexists].
  intros x (v & rows & _ & Hx)%H. by exists rows.
Qed.

Definition sorted_chunk (l : list Obj) : list Obj := sort_by (λ o : Obj, prompt_id o.2) l.

Lemma run_chunks {B} f (k : unit → Al B) a : (on_chunks (modify f) ≫= k) a = k tt (with_chunks (f (chunks a)) a).
Proof. done. Qed.

Lemma run_side {B} v f (k : unit → Al B) a : (on_side v (modify f) ≫= k) a = k tt (with_side v (f (side_of v a)) a).
Proof. done. Qed.

#[export] Hint Rewrite @run_chunks @run_side : psrl.

Lemma emit_loop_nil cfg fuel bid size complete consumed a : 0 < size → emit_loop cfg fuel bid size complete [] consumed a = Ret tt a.
Proof. intros Hs. destruct fuel; [done|]. simpl. unfold next_chunk. simpl. rewrite andb_false_r. simpl. by rewrite bool_decide_false by lia. Qed.

Lemma deliver_kept key c a :
  chunk_waiters (chunks a) !! key = None →
  deliver_chunk key c a = Ret tt (with_chunks (with_resolved (<[key := c]> (resolved_chunks (chunks a))) (chunks a)) a).
Proof. intros Hw. unfold deliver_chunk. mrun. by rewrite Hw. Qed.

(** The chunk of a whole pending list is published and the loop ends. *)
Lemma emit_all cfg bid size complete pending consumed last m a :
  0 < size → pending ≠ [] →
  next_chunk size (c_ready_entries cfg) complete (Z.of_nat (length pending)) consumed = Some (Z.of_nat (length pending), last) →
  entry_infos_to_kv_batch_meta cfg (sorted_chunk pending).*2 false = inr m →
  chunk_waiters (chunks a) !! (bid, consumed / size) = None →
  emit_loop cfg (S (length pending)) bid size complete pending consumed a = Ret tt (with_chunks
    (with_consumed (<[bid := consumed + Z.of_nat (length pending)]> (chunk_consumed (chunks a)))
      (with_emitted (<[bid := list_to_set (sorted_chunk pending).*1 ∪ default ∅ (chunk_emitted (chunks a) !! bid)]> (chunk_emitted (chunks a)))
        (with_resolved (<[(bid, consumed / size) := (m, last)]> (resolved_chunks (chunks a))) (chunks a)))) a).
Proof.
  intros Hs Hne Hn Hm Hw. simpl. rewrite Hn, Nat2Z.id, take_ge, drop_ge by lia. fold (sorted_chunk pending).
  rewrite (run_of_res _ m), (run_bind _ _ _ _ _ (deliver_kept _ (m, last) _ Hw)) by done. mrun. destruct last; [done|]. by rewrite emit_loop_nil.
Qed.

Lemma emit_none cfg bid size complete pending consumed a :
  next_chunk size (c_ready_entries cfg) complete (Z.of_nat (length pending)) consumed = None →
  emit_loop cfg (S (length pending)) bid size complete pending consumed a = Ret tt a.
Proof. intros Hn. simpl. by rewrite Hn. Qed.

Section stream.
Context (cfg : AgentConfig) (bid size : Z).
Hypothesis size_pos : 0 < size.
Implicit Types (infos : list EntryInfo) (cs : list (list EntryInfo)).

Definition entries_of (a : AgentLoop) : list Obj := buffer_entries (default ∅ (accumulated_buffers (train_side a) !! bid)).

(** The chunks of [infos] that are out: all are full, except the one that closes
    the stream, which alone is flagged. *)
Record chunks_out (closed : bool) (infos : list EntryInfo) (cs : list (list EntryInfo)) (resolved : gmap (Z * Z) (KVBatchMeta * bool)) : Prop := {
  co_chunk (k : nat) c : cs !! k = Some c →
    (∃ m, entry_infos_to_kv_batch_meta cfg c false = inr m ∧ resolved !! (bid, Z.of_nat k) = Some (m, closed && bool_decide (S k = length cs))) ∧
    StronglySorted (λ x y, prompt_id x ≤ prompt_id y) c ∧
    (Z.of_nat (length c) = size ∨ closed = true ∧ S k = length cs ∧ 0 < Z.of_nat (length c) < size);
  co_only k : (k < 0 ∨ Z.of_nat (length cs) ≤ k) → resolved !! (bid, k) = None;
  co_incl : concat cs ⊆+ infos;
  co_open : closed = false → Z.of_nat (length (concat cs)) = size * (Z.of_nat (length infos) / size) ∧ Z.of_nat (length cs) = Z.of_nat (length infos) / size;
  co_closed : closed = true → concat cs ≡ₚ infos;
}.

Record stream (closed : bool) infos cs (a : AgentLoop) : Prop := {
  st_size : train_chunk_size (chunks a) = Some size;
  st_infos : (entries_of a).*2 ≡ₚ infos;
  st_addr : NoDup (entries_of a).*1;
  st_fresh o : o ∈ entries_of a → (o.1 < next_object a)%nat;
  st_count : match accumulated_buffers (train_side a) !! bid with Some _ => default 0 (assoc bid (accumulated_buffer_size (train_side a))) | None => 0 end
             = Z.of_nat (length infos);
  st_emitted : ∃ em, em ⊆+ entries_of a ∧ default ∅ (chunk_emitted (chunks a) !! bid) = list_to_set em.*1 ∧ em.*2 = concat cs;
  st_consumed : default 0 (chunk_consumed (chunks a) !! bid) = Z.of_nat (length (concat cs));
  st_quiet k : chunk_waiters (chunks a) !! (bid, k) = None;
  st_out : chunks_out closed infos cs (resolved_chunks (chunks a));
}.

(** The state once the entry is in the buffer. *)
Lemma stream_add infos cs a v ei :
  stream false infos cs a →
  ∃ a', add_accumulated false bid v ei a = Ret tt a' ∧ is_Some (accumulated_buffers (train_side a') !! bid) ∧
    chunks a' = chunks a ∧ assoc bid (accumulated_buffer_size (train_side a')) = Some (Z.of_nat (S (length infos))) ∧
    entries_of a' ≡ₚ entries_of a ++ [(next_object a, ei)] ∧ next_object a' = S (next_object a) ∧
    (entries_of a').*2 ≡ₚ infos ++ [ei] ∧ NoDup (entries_of a').*1 ∧ (∀ o, o ∈ entries_of a' → (o.1 < next_object a')%nat).
Proof.
  intros [_ Hi Hnd Hf Hc _ _ _ _]. eexists. split; [unfold add_accumulated; mrun; reflexivity|].
  assert (∀ v o d, buffer_entries (default ∅ ((<[bid := bucket_add v o d]> (accumulated_buffers (train_side a))) !! bid)) ≡ₚ buffer_entries d ++ [o]) as Hadd.
  { intros. rewrite lookup_insert_eq. apply buffer_entries_add. }
  split; [by exists (bucket_add v (next_object a, ei) (default ∅ (accumulated_buffers (train_side a) !! bid))); apply lookup_insert_eq|].
  split; [done|]. split; [simpl; rewrite assoc_dict_set, decide_True by done; f_equal; rewrite Hc; lia|].
  split; [apply Hadd|]. split; [done|]. split; [|split].
  - unfold entries_of. simpl. rewrite Hadd, fmap_app. by rewrite <-Hi.
  - unfold entries_of. simpl. rewrite Hadd, fmap_app. apply NoDup_app. split; [done|]. split; [|apply NoDup_singleton].
    intros x (o & -> & Ho)%list_elem_of_fmap. apply Hf in Ho. simpl. rewrite list_elem_of_singleton. lia.
  - intros o. unfold entries_of. simpl. rewrite Hadd, elem_of_app, list_elem_of_singleton. intros [Ho| ->]; [apply Hf in Ho; lia|simpl; lia].
Qed.

Lemma chunk_snoc closed infos cs resolved ei c m :
  chunks_out false infos cs resolved → entry_infos_to_kv_batch_meta cfg c false = inr m →
  StronglySorted (λ x y, prompt_id x ≤ prompt_id y) c →
  Z.of_nat (length c) = Z.of_nat (length infos) mod size + 1 → closed = true ∨ Z.of_nat (length c) = size →
  concat cs ++ c ⊆+ infos ++ [ei] →
  chunks_out closed (infos ++ [ei]) (cs ++ [c]) (<[(bid, Z.of_nat (length infos) / size) := (m, closed)]> resolved).
Proof.
  intros [Hch Hon _ Hop _] Hm Hs Hl Hc Hin. destruct (Hop eq_refl) as [Hlen Hcs]. rewrite <-Hcs.
  pose proof (Z.mod_pos_bound (Z.of_nat (length infos)) size size_pos) as Hmod.
  pose proof (Z.div_mod (Z.of_nat (length infos)) size ltac:(lia)) as Hdm. split.
  - intros k c' Hk. rewrite length_app. simpl. apply lookup_app_Some in Hk as [Hk|[Hge Hk]].
    + apply lookup_lt_Some in Hk as Hlt. destruct (Hch k c' Hk) as ((m' & Hm' & Hr) & Hs' & [Hsz|[? _]]); [|done].
      split_and!; [|done|by left]. exists m'. split; [done|]. rewrite lookup_insert_ne by (intros [= ?]; lia).
      by rewrite Hr, (bool_decide_false (_ = (_ + 1)%nat)), andb_false_r by lia.
    + apply list_lookup_singleton_Some in Hk as [Hk <-]. assert (k = length cs) as -> by lia. split_and!; [|done|].
      * exists m. split; [done|]. by rewrite lookup_insert_eq, bool_decide_true, andb_true_r by lia.
      * destruct (decide (Z.of_nat (length c) = size)); [by left|]. right. destruct Hc as [->|?]; [|done]. split_and!; [done|lia|lia|lia].
  - intros k. rewrite length_app. simpl. intros Hk. rewrite lookup_insert_ne by (intros [= ?]; lia). apply Hon. lia.
  - rewrite concat_app. simpl. by rewrite app_nil_r.
  - intros ->. destruct Hc as [?|Hc]; [done|]. rewrite concat_app; simpl; rewrite app_nil_r, !length_app. simpl.
    assert (Z.of_nat (length infos + 1) / size = Z.of_nat (length infos) / size + 1) as ->; [|lia].
    symmetry. apply Z.div_unique with 0; [lia|]. rewrite Z.mul_add_distr_l, <-Hlen. lia.
  - intros ->. rewrite concat_app; simpl; rewrite app_nil_r. apply submseteq_length_Permutation; [done|]. rewrite !length_app. simpl. lia.
Qed.

Lemma next_chunk_all (n : nat) (complete : bool) avail consumed :
  Z.of_nat (S n) ≤ c_ready_entries cfg → complete = bool_decide (c_ready_entries cfg ≤ Z.of_nat (S n)) →
  avail = Z.of_nat n mod size + 1 → consumed = size * (Z.of_nat n / size) →
  next_chunk size (c_ready_entries cfg) complete avail consumed =
    if complete || bool_decide (avail = size) then Some (avail, complete) else None.
Proof.
  intros Hr -> -> ->. pose proof (Z.mod_pos_bound (Z.of_nat n) size size_pos) as Hm. pose proof (Z.div_mod (Z.of_nat n) size ltac:(lia)) as Hd.
  unfold next_chunk. rewrite (bool_decide_true (0 < _)) by lia.
  destruct (decide (Z.of_nat n mod size + 1 = size)) as [E|E].
  - rewrite (bool_decide_false (_ < size)), (bool_decide_true (_ = size)), (bool_decide_true (size ≤ _)), andb_false_r, orb_true_r by lia.
    rewrite E. do 2 f_equal. apply bool_decide_ext. lia.
  - rewrite (bool_decide_true (_ < size)), (bool_decide_false (_ = size)), (bool_decide_false (size ≤ _)), orb_false_r by lia.
    by case_bool_decide.
Qed.

Lemma sorted_chunk_sorted l : StronglySorted (λ x y, prompt_id x ≤ prompt_id y) (sorted_chunk l).*2.
Proof.
  pose proof (sort_by_sorted (λ o : Obj, prompt_id o.2) l) as H. unfold sorted_chunk. induction H as [|o k _ IH Hk]; [constructor|].
  constructor; [done|]. by apply Forall_fmap.
Qed.

(** The pending entries are those of the buffer that are not in a chunk yet. *)
Lemma pending_perm infos cs a a1 em (E : gset nat) ei :
  stream false infos cs a → entries_of a1 ≡ₚ entries_of a ++ [(next_object a, ei)] → NoDup (entries_of a1).*1 →
  em ⊆+ entries_of a → E = list_to_set em.*1 → em.*2 = concat cs →
  let pending := filter (λ o : Obj, o.1 ∉ E) (entries_of a1) in
  pending ++ em ≡ₚ entries_of a1 ∧ Z.of_nat (length pending) = Z.of_nat (length infos) mod size + 1.
Proof.
  intros Hst Hp Hnd Hem HE He2 pending. assert (pending ++ em ≡ₚ entries_of a1) as Hpe.
  { apply filter_perm_drop; [done| |done]. rewrite Hp. etrans; [exact Hem|by apply submseteq_inserts_r]. }
  split; [done|]. apply Permutation_length in Hpe. rewrite length_app, (Permutation_length Hp), length_app in Hpe. simpl in Hpe.
  pose proof (st_infos _ _ _ _ Hst) as Hi%Permutation_length. rewrite length_fmap in Hi.
  destruct (co_open _ _ _ _ (st_out _ _ _ _ Hst) eq_refl) as [Hlen _]. rewrite <-He2, length_fmap in Hlen.
  pose proof (Z.div_mod (Z.of_nat (length infos)) size ltac:(lia)). lia.
Qed.

(** The stream after an entry was added, from what happened to the chunks. *)
Lemma stream_chunks closed infos cs a a1 ei d cs' ch :
  stream false infos cs a → accumulated_buffers (train_side a1) !! bid = Some d → chunks a1 = chunks a →
  assoc bid (accumulated_buffer_size (train_side a1)) = Some (Z.of_nat (S (length infos))) →
  (entries_of a1).*2 ≡ₚ infos ++ [ei] → NoDup (entries_of a1).*1 → (∀ o, o ∈ entries_of a1 → (o.1 < next_object a1)%nat) →
  train_chunk_size ch = train_chunk_size (chunks a1) → chunk_waiters ch = chunk_waiters (chunks a1) →
  (∃ em, em ⊆+ entries_of a1 ∧ default ∅ (chunk_emitted ch !! bid) = list_to_set em.*1 ∧ em.*2 = concat cs') →
  default 0 (chunk_consumed ch !! bid) = Z.of_nat (length (concat cs')) → chunks_out closed (infos ++ [ei]) cs' (resolved_chunks ch) →
  stream closed (infos ++ [ei]) cs' (with_chunks ch a1).
Proof.
  intros Hst Hd Hch Hsz Hi Hnd Hf Hs Hw He Hc Ho. split; [by rewrite <-(st_size _ _ _ _ Hst), <-Hch|done|done|done| |done|done| |done].
  - simpl. rewrite Hd, Hsz, length_app. simpl. lia.
  - intros k. simpl. rewrite Hw, Hch. apply (st_quiet _ _ _ _ Hst).
Qed.

Lemma chunks_wait infos cs resolved ei :
  chunks_out false infos cs resolved → Z.of_nat (length infos) mod size + 1 ≠ size → chunks_out false (infos ++ [ei]) cs resolved.
Proof.
  intros [Hch Hon Hin Hop _] Hne. pose proof (Z.mod_pos_bound (Z.of_nat (length infos)) size size_pos) as Hm.
  split; [exact Hch|exact Hon|by apply submseteq_inserts_r| |done]. intros _. rewrite length_app. simpl.
  assert (Z.of_nat (length infos + 1) / size = Z.of_nat (length infos) / size) as ->; [|by apply Hop].
  symmetry. apply Z.div_unique with (Z.of_nat (length infos) mod size + 1); [lia|].
  pose proof (Z.div_mod (Z.of_nat (length infos)) size ltac:(lia)). lia.
Qed.

Lemma stream_feed infos cs a ei :
  stream false infos cs a → Forall (publishable cfg) (infos ++ [ei]) → Z.of_nat (S (length infos)) ≤ c_ready_entries cfg →
  ∃ a' cs', feed cfg bid ei a = Ret tt a' ∧
    stream (bool_decide (c_ready_entries cfg ≤ Z.of_nat (S (length infos)))) (infos ++ [ei]) cs' a'.
Proof.
  intros Hst Hpub Hr. apply Forall_app in Hpub as Hp. destruct Hp as [_ [(v & rows & Hv & _) _]%Forall_cons].
  destruct (stream_add infos cs a v ei Hst) as (a1 & E1 & [d Hd] & Hch & Hsz & Hent & Hnx & Hi & Hnd & Hf).
  destruct (st_emitted _ _ _ _ Hst) as (em & Hem & HE & He2). pose proof (st_consumed _ _ _ _ Hst) as Hcon. rewrite <-Hch in HE, Hcon.
  destruct (pending_perm infos cs a a1 em _ ei Hst Hent Hnd Hem HE He2) as [Hpe Hpl].
  set (pending := filter (λ o : Obj, o.1 ∉ default ∅ (chunk_emitted (chunks a1) !! bid)) (entries_of a1)) in *.
  set (complete := bool_decide (c_ready_entries cfg ≤ Z.of_nat (S (length infos)))).
  pose proof (st_out _ _ _ _ Hst) as Hout. destruct (co_open _ _ _ _ Hout eq_refl) as [Hlen _].
  pose proof (next_chunk_all (length infos) complete _ (default 0 (chunk_consumed (chunks a1) !! bid)) Hr eq_refl Hpl ltac:(by rewrite Hcon, Hlen)) as Hnext.
  unfold feed. rewrite (run_of_res _ v) by done. rewrite (run_bind _ _ _ _ _ E1). unfold emit_pending_chunks. mrun.
  rewrite Hd, Hch, (st_size _ _ _ _ Hst), <-Hch, Hsz. rewrite (bool_decide_false (size = 0)) by lia. mrun. cbn [default from_option].
  assert (buffer_entries d = entries_of a1) as -> by (unfold entries_of; by rewrite Hd). fold pending complete.
  change (λ x, x) with (@id Z). fold complete.
  pose proof (λ cs' ch, stream_chunks complete infos cs a a1 ei d cs' ch Hst Hd Hch Hsz Hi Hnd Hf) as Hgo.
  destruct (complete || _) eqn:Eb.
  - assert ((sorted_chunk pending).*2 ++ concat cs ⊆+ infos ++ [ei]) as Hsub.
    { rewrite <-Hi, <-Hpe, fmap_app, He2. unfold sorted_chunk. by rewrite sort_by_perm. }
    assert (length (sorted_chunk pending) = length pending) as Hsl by apply Permutation_length, sort_by_perm.
    destruct (meta_defined cfg (sorted_chunk pending).*2) as [m Hm].
    { rewrite Forall_forall in Hpub |- *. intros x Hx. apply Hpub. eapply elem_of_submseteq; [|exact Hsub]. apply elem_of_app. by left. }
    eexists _, (cs ++ [(sorted_chunk pending).*2]). split.
    { eapply emit_all; [done|by intros Hnil; rewrite Hnil in Hpl; simpl in Hpl; pose proof (Z.mod_pos_bound (Z.of_nat (length infos)) size size_pos); lia|done|done|].
      simpl. rewrite Hch. apply (st_quiet _ _ _ _ Hst). }
    apply Hgo; simpl; [done|done| | |].
    + exists (em ++ sorted_chunk pending). split_and!.
      * rewrite <-Hpe, (Permutation_app_comm em). unfold sorted_chunk. by rewrite sort_by_perm.
      * rewrite lookup_insert_eq, !lookup_insert_eq. simpl. rewrite HE, fmap_app, list_to_set_app_L. set_solver.
      * rewrite fmap_app, He2, concat_app. simpl. by rewrite app_nil_r.
    + rewrite lookup_insert_eq, concat_app, length_app, Hcon. simpl. rewrite app_nil_r, length_fmap, Hsl. lia.
    + rewrite Hcon, Hlen, Z.mul_comm, Z.div_mul, Hch by lia. apply chunk_snoc; [done|done|apply sorted_chunk_sorted| | |].
      * by rewrite length_fmap, Hsl.
      * apply orb_true_iff in Eb as [?|?%bool_decide_eq_true]; [by left|right]. by rewrite length_fmap, Hsl.
      * by rewrite (Permutation_app_comm (concat cs)).
  - eexists _, cs. split; [by apply emit_none|]. apply orb_false_iff in Eb as [Ec Eb%bool_decide_eq_false]. apply Hgo; simpl; [done|done| | |].
    + exists em. rewrite lookup_insert_eq. split_and!; [|done|done]. rewrite Hent. by apply submseteq_inserts_r.
    + done.
    + rewrite Ec, Hch. by apply chunks_wait; [|lia].
Qed.

(** Nothing is known of the buffer yet. *)
Definition new_buffer (a : AgentLoop) : Prop :=
  train_chunk_size (chunks a) = Some size ∧ accumulated_buffers (train_side a) !! bid = None ∧ chunk_emitted (chunks a) !! bid = None ∧
  chunk_consumed (chunks a) !! bid = None ∧ ∀ k, chunk_waiters (chunks a) !! (bid, k) = None ∧ resolved_chunks (chunks a) !! (bid, k) = None.

Lemma stream_new a : new_buffer a → stream false [] [] a.
Proof.
  intros (Hs & Ha & He & Hc & Hk). split; [done| | | | | | | |]; unfold entries_of; rewrite ?Ha, ?He, ?Hc; try done.
  - apply NoDup_nil_2.
  - intros o []%not_elem_of_nil.
  - by exists [].
  - intros k. apply Hk.
  - split; [by intros|intros k _; apply Hk|done| |done]. intros _. simpl. rewrite Z.div_0_l by lia. lia.
Qed.

Lemma stream_run infos a :
  new_buffer a → Forall (publishable cfg) infos → 0 < c_ready_entries cfg → Z.of_nat (length infos) ≤ c_ready_entries cfg →
  ∃ a' cs, for_each infos (feed cfg bid) a = Ret tt a' ∧ stream (bool_decide (Z.of_nat (length infos) = c_ready_entries cfg)) infos cs a'.
Proof.
  intros Hnew Hpub H0. induction infos as [|ei infos IH] using rev_ind; intros Hr.
  { exists a, []. split; [done|]. rewrite bool_decide_false by (simpl; lia). by apply stream_new. }
  rewrite length_app in Hr. simpl in Hr. apply Forall_app in Hpub as Hp. destruct IH as (a1 & cs & E1 & Hs1); [by destruct Hp|lia|].
  rewrite bool_decide_false in Hs1 by lia. destruct (stream_feed infos cs a1 ei Hs1 Hpub) as (a2 & cs2 & E2 & Hs2); [lia|].
  exists a2, cs2. rewrite for_each_app, (run_bind _ _ _ _ _ E1). simpl. rewrite (run_bind _ _ _ _ _ E2). split; [done|].
  erewrite bool_decide_ext; [exact Hs2|]. rewrite length_app. simpl. lia.
Qed.
End stream.


(** ** Witnesses *)

(** Groups of one request, two entries per buffer. *)
Definition demo_config (threshold : Z) (filter : option (list string → option (list ProcessedRow))) : AgentConfig :=
  make_config None 1 1 1 2 None (Some threshold) 2 false None 0 None filter.

Lemma dispatch_plan_exact_witness :
  ∃ plan a', get_dispatch_plan (demo_config 2 None) [mkRow 4 4 0; mkRow 7 7 0; mkRow 9 9 0] false (new_agent_loop (demo_config 2 None)) = Ret plan a' ∧
    (0, [mkRow 4 4 0; mkRow 9 9 0]) ∈ plan.
Proof.
  destruct (dispatch_plan_exact (demo_config 2 None) [mkRow 4 4 0; mkRow 7 7 0; mkRow 9 9 0] false (new_agent_loop (demo_config 2 None)))
    as (plan & a' & E & _ & Hp & _); [done|]. exists plan, a'. split; [exact E|]. apply Hp. split; [done|]. vm_compute. reflexivity.
Defined.

Lemma breaker_ends_waits_witness :
  ∃ a', trip_refill_breaker (NothingDispatched 1) (final (wait_for_training_chunk 0 0 (new_agent_loop (demo_config 2 None)))) = Ret tt a' ∧
    futures a' !! 0%nat = Some (GotError (NothingDispatched 1)).
Proof.
  destruct (breaker_ends_waits (NothingDispatched 1) (final (wait_for_training_chunk 0 0 (new_agent_loop (demo_config 2 None)))))
    as (a' & E & _ & Hc & _); [done|]. exists a'. split; [exact E|].
  apply (Hc (0, 0) [0%nat]); [vm_compute; reflexivity|by left|vm_compute; reflexivity].
Defined.

Lemma breaker_trips_on_streak_witness :
  ∃ a', for_each [GroupFailed None; GroupOccupied; GroupFailed None; GroupFailed (Some "timeout")] (group_event (demo_config 2 None)) (new_agent_loop (demo_config 2 None)) = Ret tt a' ∧
    is_Some (refill_breaker_diagnosis (breaker a')).
Proof.
  destruct (breaker_trips_on_streak (demo_config 2 None) [GroupFailed None; GroupOccupied; GroupFailed None; GroupFailed (Some "timeout")] (new_agent_loop (demo_config 2 None)))
    as (a' & E & Ht); [done|done|]. exists a'. split; [exact E|]. apply Ht.
  exists [GroupFailed None; GroupOccupied], [GroupFailed None; GroupFailed (Some "timeout")], []. split; [done|]. split; [repeat constructor|done].
Defined.

Definition demo_entry (p : Z) : EntryInfo := mkEntryInfo (One INVALID_ROLLOUT_INSTANCE_ID) p (One 0) (One 3) (One 1) false.

