(* ===== verification/AgentLoopRuns.v ===== *)
(** * Agent-loop manager: theorems about runs

    What the operations of [AgentLoopOps.v] guarantee in any environment that
    respects the lock: the dispatch throttle, the failure path of a group, the
    end of a validation round, and runs that show what the code does in the cases
    where it does not do what it means to. *)

From S2P Require Import Prelude.
From S2P Require Import StalenessBuffer.
From S2P Require Import StalenessInventory.
From S2P Require Import TransferQueue.
From S2P Require Import RequestStatusTracker.
From S2P Require Import PSManager.
From S2P Require Import PyData.
From S2P Require Import AgentLoop.
From S2P Require Import AgentLoopOps.
From S2P Require Import AgentLoopTheorems.

#[local] Open Scope Z_scope.

(** ** What the operations leave alone *)

Section kept.
Context `{SetOrder} (cfg : AgentConfig) (env : Aw → World → World).
Context {T : Type} (f : AgentLoop → T).

Lemma keeps_on_pm {A} (m : Mgr A) : keeps (λ w, f (al w)) (on_pm m).
Proof. by apply keeps_zoom_outside. Qed.

Lemma keeps_on_al {A} (m : Al A) : keeps f m → keeps (λ w, f (al w)) (on_al m).
Proof. by apply keeps_zoom_inside. Qed.

Lemma keeps_al_modify g : (∀ a, f (g a) = f a) → keeps (λ w, f (al w)) (on_al (modify g)).
Proof. intros Hg. by apply keeps_on_al, keeps_modify. Qed.

Hypothesis env_keeps : ∀ k w, f (al (env k w)) = f (al w).

Lemma keeps_await {A} k (m : Wld A) : keeps (λ w, f (al w)) m → keeps (λ w, f (al w)) (await_call env k m).
Proof. intros Hm. apply keeps_bind; [apply keeps_modify, env_keeps|done]. Qed.

#[local] Hint Resolve keeps_on_pm keeps_await : psrl.

Lemma keeps_clear keys part st : keeps (λ w, f (al w)) (async_clear_payload env keys part st).
Proof. unfold async_clear_payload. apply keeps_await. keeps_tac. Qed.

(** Dispatching touches the round-robin index and the counter only. *)
Hypothesis f_dispatch : ∀ d a, f (with_dispatch d a) = f a.

Lemma keeps_plan rows v : keeps f (get_dispatch_plan cfg rows v).
Proof. unfold get_dispatch_plan, on_dispatch. keeps_tac. Qed.

Lemma keeps_inner_dispatch rows v : keeps (λ w, f (al w)) (inner_dispatch_data cfg env rows v).
Proof. unfold inner_dispatch_data. pose proof keeps_plan. keeps_tac; by apply keeps_on_al. Qed.

Lemma keeps_sample : keeps (λ w, f (al w)) sample_train_prompts.
Proof. unfold sample_train_prompts. keeps_tac. Qed.

#[local] Hint Resolve keeps_inner_dispatch keeps_sample : psrl.

Lemma keeps_retry n : keeps (λ w, f (al w)) (retry_data cfg env n).
Proof. unfold retry_data, on_dispatch. keeps_tac; solve [by apply keeps_al_modify|apply keeps_on_al, keeps_plan]. Qed.

Lemma keeps_trip d : (∀ b s c m a, f (with_chunks c (with_train s (with_breaker b (with_futures m a)))) = f a) → keeps f (trip_refill_breaker d).
Proof.
  intros Hf a. destruct (refill_breaker_diagnosis (breaker a)) as [d'|] eqn:E; [unfold trip_refill_breaker; mrun; by rewrite E|].
  rewrite trip_run by done. simpl. apply Hf.
Qed.

Lemma keeps_refill n : (∀ b s c m a, f (with_chunks c (with_train s (with_breaker b (with_futures m a)))) = f a) →
  keeps (λ w, f (al w)) (refill_failed_group cfg env n).
Proof.
  intros Hf. unfold refill_failed_group. apply keeps_bind; [apply keeps_retry|]. intros k. apply keeps_bind; [|intros; apply keeps_ret].
  case_bool_decide; [by apply keeps_on_al, keeps_trip|apply keeps_ret].
Qed.

Lemma keeps_purge p n v : (∀ t a, f (with_group_tracker t a) = f a) → keeps (λ w, f (al w)) (purge_tracker_group env p n v).
Proof. intros Hf. unfold purge_tracker_group. pose proof keeps_clear. keeps_tac; by apply keeps_al_modify. Qed.
End kept.

(** ** Dispatch throttle *)

(** The state the throttle depends on is the dispatch loop's own. *)
Section throttle.
Context (cfg : AgentConfig) (env : Aw → World → World).
Hypothesis env_dispatch : ∀ k w, dispatch (al (env k w)) = dispatch (al w).
Hypothesis env_version : ∀ k w, ps_model_version (pm w) ≤ ps_model_version (pm (env k w)).
Hypothesis env_tracker : ∀ k w, tracker_ok (tracker (pm w)) → tracker_ok (tracker (pm (env k w))).

Lemma settle_same w : settle_pm w (pm w) = w.
Proof. unfold settle_pm. rewrite drop_all. by destruct w. Qed.

Lemma run_pm_gets {A B} (g : PSManager → A) (k : A → Wld B) w : (on_pm (gets g) ≫= k) w = k (g (pm w)) w.
Proof. unfold mbind, M_bind, on_pm, zoom, gets. by rewrite settle_same. Qed.

Lemma poll_run polls expected w :
  tracker_ok (tracker (pm w)) →
  ∃ b w', poll_version env polls expected w = Ret b w' ∧ dispatch (al w') = dispatch (al w) ∧ tracker_ok (tracker (pm w')) ∧
    ps_model_version (pm w) ≤ ps_model_version (pm w') ∧ (b = true → expected ≤ ps_model_version (pm w')) ∧
    (expected ≤ ps_model_version (pm w) → (0 < polls)%nat → b = true).
Proof.
  revert w. induction polls as [|polls IH]; intros w Ht; [exists false, w; split_and!; [done..|lia]|]. simpl. unfold await_call. mrun. rewrite run_pm_gets.
  pose proof (env_version AwPoll w). case_bool_decide as Hv.
  - destruct (IH (env AwPoll w)) as (b & w' & -> & Hd & Ht' & Hv' & Hb & _); [by apply env_tracker|].
    exists b, w'. rewrite Hd, env_dispatch. split_and!; [done..|lia|done|lia].
  - eexists true, _. split; [done|]. split_and!; [apply env_dispatch|by apply env_tracker|lia|lia|done].
Qed.

Lemma tracker_update_run rows (t : RequestStatusTracker) v :
  tracker_ok t →
  ∃ r t', update_request_status (Many (r_uid <$> rows)) (One RequestStatus.RUNNING) (Many (r_version_tag <$> rows)) (One INVALID_ROLLOUT_INSTANCE_ID) v t
    = Ret r t' ∧ tracker_ok t'.
Proof.
  intros Ht. destruct (update_request_status_total t (r_uid <$> rows) (r_version_tag <$> rows) (replicate (length (r_uid <$> rows)) RequestStatus.RUNNING)
    (replicate (length (r_uid <$> rows)) INVALID_ROLLOUT_INSTANCE_ID) v Ht) as (r & t' & E & Ht' & _); [by rewrite !length_fmap|by rewrite length_replicate..|].
  by exists r, t'.
Qed.

Lemma plan_run rows v a :
  0 < c_num_workers cfg → ∃ plan i, get_dispatch_plan cfg rows v a = Ret plan (with_dispatch (with_dispatch_idx i (dispatch a)) a).
Proof.
  intros Hn. unfold get_dispatch_plan. rewrite bool_decide_false by lia. mrun. destruct (foldl _ _ rows) as [p2w plan]. by eexists plan, _.
Qed.

Lemma send_programs (plan : list (Z * list Row)) w :
  ∃ calls, for_each plan (λ '(worker, rows), modify (λ w, set_worker_calls (worker_calls w ++ [AddAgentProgram worker rows]) w)) w
    = Ret tt (set_worker_calls calls w).
Proof.
  revert w. induction plan as [|[worker rows] plan IH]; intros w; [exists (worker_calls w); by destruct w|]. simpl. mrun.
  destruct (IH (set_worker_calls (worker_calls w ++ [AddAgentProgram worker rows]) w)) as [calls ->]. by exists calls.
Qed.

(** Handing rows to the workers always works and moves only the index. *)
Lemma inner_dispatch_run rows v w :
  0 < c_num_workers cfg → tracker_ok (tracker (pm w)) →
  ∃ w' i, inner_dispatch_data cfg env rows v w = Ret tt w' ∧ dispatch (al w') = with_dispatch_idx i (dispatch (al w)) ∧
    tracker_ok (tracker (pm w')) ∧ ps_model_version (pm w) ≤ ps_model_version (pm w').
Proof.
  intros Hn Ht. unfold inner_dispatch_data, await_call. mrun. pose proof (env_dispatch AwStatus w) as Hd. pose proof (env_version AwStatus w) as Hv.
  destruct (tracker_update_run rows (tracker (pm (env AwStatus w))) v (env_tracker AwStatus w Ht)) as (r & t' & E & Ht').
  rewrite (run_bind (on_pm _) _ _ r (settle_pm (env AwStatus w) (set_tracker t' (pm (env AwStatus w))))) by (unfold on_pm, on_tracker, zoom; by rewrite E).
  set (w1 := settle_pm _ _). assert (dispatch (al w1) = dispatch (al w)) as Hd1 by done. assert (ps_model_version (pm w) ≤ ps_model_version (pm w1)) as Hv1 by done.
  destruct (negb (truth r)).
  { exists w1, (dispatch_idx (dispatch (al w1))). split; [done|]. split; [rewrite Hd1; by destruct (dispatch (al w))|done]. }
  destruct (plan_run rows v (al w1) Hn) as (plan & i & Ep).
  rewrite (run_bind (on_al _) _ _ plan (set_al (with_dispatch (with_dispatch_idx i (dispatch (al w1))) (al w1)) w1)) by (unfold on_al, zoom; by rewrite Ep).
  destruct (send_programs plan (set_al (with_dispatch (with_dispatch_idx i (dispatch (al w1))) (al w1)) w1)) as [calls ->].
  eexists _, i. split; [done|]. simpl. by rewrite Hd.
Qed.

(** The version the throttle asks for bounds the requests that were dispatched. *)
Lemma expected_bound d v e :
  0 < dispatch_buffer_size cfg → get_expected_ps_version cfg d = inr e → e ≤ v →
  request_counter d < (v - initial_ps_version d + Z.min (c_staleness cfg) (c_max_dispatch_ahead cfg) + 1) * dispatch_buffer_size cfg.
Proof.
  intros Hbs. unfold get_expected_ps_version. rewrite bool_decide_false by lia. intros [= <-] Hv.
  set (x := Z.max _ 0) in Hv. assert (x < (x / dispatch_buffer_size cfg + 1) * dispatch_buffer_size cfg) as Hx.
  { pose proof (Z.div_mod x (dispatch_buffer_size cfg) ltac:(lia)). pose proof (Z.mod_pos_bound x (dispatch_buffer_size cfg) Hbs). nia. }
  nia.
Qed.

Lemma catch_up_run polls e w :
  tracker_ok (tracker (pm w)) → curr_ps_version_tag (dispatch (al w)) ≤ ps_model_version (pm w) →
  ∃ b w1 d, catch_up env polls e w = Ret b w1 ∧ dispatch (al w1) = with_ps_tag d (dispatch (al w)) ∧ d ≤ ps_model_version (pm w1) ∧
    tracker_ok (tracker (pm w1)) ∧ (b = true → e ≤ ps_model_version (pm w1)) ∧ (e ≤ ps_model_version (pm w) → (0 < polls)%nat → b = true).
Proof.
  intros Ht Hc. unfold catch_up. mrun. case_bool_decide as Hlt.
  - destruct (poll_run polls e w Ht) as (b & w1 & E & Hd & Ht1 & Hv & Hb & Hgo). rewrite (run_bind _ _ _ _ _ E). destruct b.
    + eexists true, _, e. split; [done|]. simpl. rewrite Hd. split_and!; auto.
    + eexists false, _, (curr_ps_version_tag (dispatch (al w))). split; [done|]. rewrite Hd. split_and!; [by destruct (dispatch (al w))|lia|done|done|done].
  - exists true, w, (curr_ps_version_tag (dispatch (al w))). split; [done|]. split_and!; [by destruct (dispatch (al w))|lia|done|lia|done].
Qed.

Lemma dispatch_round_run polls rows w :
  0 < dispatch_buffer_size cfg → 0 < c_num_workers cfg → tracker_ok (tracker (pm w)) →
  curr_ps_version_tag (dispatch (al w)) ≤ ps_model_version (pm w) →
  ∃ b w' e, train_dispatch_round cfg env polls (Some rows) w = Ret b w' ∧ get_expected_ps_version cfg (dispatch (al w)) = inr e ∧
    tracker_ok (tracker (pm w')) ∧ curr_ps_version_tag (dispatch (al w')) ≤ ps_model_version (pm w') ∧
    initial_ps_version (dispatch (al w')) = initial_ps_version (dispatch (al w)) ∧
    request_counter (dispatch (al w')) = request_counter (dispatch (al w)) + (if b then Z.of_nat (length rows) else 0) ∧
    (b = true → e ≤ ps_model_version (pm w')) ∧ (e ≤ ps_model_version (pm w) → (0 < polls)%nat → b = true).
Proof.
  intros Hbs Hn Ht Hc. unfold train_dispatch_round. mrun.
  destruct (get_expected_ps_version cfg (dispatch (al w))) as [|e] eqn:Ee;
    [unfold get_expected_ps_version in Ee; rewrite bool_decide_false in Ee by lia; done|].
  rewrite (run_of_res _ e) by done.
  destruct (catch_up_run polls e w Ht Hc) as (b & w1 & d & E1 & Hd1 & Hdv & Ht1 & Hb & Hgo). rewrite (run_bind _ _ _ _ _ E1).
  destruct b; simpl.
  - destruct (inner_dispatch_run (with_version_tag (-1) rows) false w1 Hn Ht1) as (w2 & i & E2 & Hd2 & Ht2 & Hv2).
    rewrite (run_bind _ _ _ _ _ E2). eexists true, _, e. split; [done|]. simpl. rewrite Hd2, Hd1. simpl.
    split_and!; [done|done|lia|done|done|intros _; specialize (Hb eq_refl); lia|done].
  - exists false, w1, e. split; [done|]. rewrite Hd1. simpl. split_and!; [done|done|lia|done|lia|done|done].
Qed.
End throttle.

(** The state after [n] polls: only what others did in the meantime. *)
Definition polled (env : Aw → World → World) (n : nat) (w : World) : World := Nat.iter n (env AwPoll) w.

Lemma poll_exact env polls e w :
  (∃ n, (0 < n ≤ polls)%nat ∧ e ≤ ps_model_version (pm (polled env n w)) ∧ (∀ i, (0 < i < n)%nat → ps_model_version (pm (polled env i w)) < e) ∧
     poll_version env polls e w = Ret true (polled env n w)) ∨
  ((∀ i, (0 < i ≤ polls)%nat → ps_model_version (pm (polled env i w)) < e) ∧ poll_version env polls e w = Ret false (polled env polls w)).
Proof.
  revert w. induction polls as [|polls IH]; intros w; [right; split; [lia|done]|].
  assert (∀ i, polled env (S i) w = polled env i (env AwPoll w)) as Hs by (intros i; apply Nat.iter_succ_r).
  simpl. unfold await_call. mrun. rewrite run_pm_gets. case_bool_decide as Hv; last first.
  { left. exists 1%nat. split_and!; [lia|lia|unfold polled; simpl; lia|lia|done]. }
  destruct (IH (env AwPoll w)) as [(n & Hn & He & Hf & E)|[Hf E]]; [left|right].
  - exists (S n). rewrite Hs. split_and!; [lia|lia|done| |done]. intros [|[|i]] Hi; [lia|done|]. rewrite Hs. apply Hf. lia.
  - split; [|rewrite E; by rewrite <-(Hs polls)]. intros [|[|i]] Hi; [lia|done|]. rewrite Hs. apply Hf. lia.
Qed.

(** The dispatch once the loop may go on. *)
Definition send_round cfg env (rows : list Row) : Wld unit :=
  inner_dispatch_data cfg env (with_version_tag (-1) rows) false ;;
  on_al (on_dispatch (λ d, with_counter (request_counter d + Z.of_nat (length rows)) d)).

Definition tagged (e : Z) (w : World) : World := set_al (with_dispatch (with_ps_tag e (dispatch (al w))) (al w)) w.

(** C16: The dispatch loop never runs ahead of the model.  Let [e] be the version
    it asks for.  As long as the polls show a smaller one, the round only polls: it
    sends nothing and changes nothing itself.  At the first poll that shows [e] (at
    once when a version as new was seen before) it sends its requests, from the state
    of that moment; then the requests dispatched before are fewer than those of the
    buffers up to the model version plus the effective staleness, and the counter
    grows by those sent.  Others may do anything at its awaits but change its
    counters, take a version back or break the request tracker. *)
Theorem dispatch_throttle_bound (cfg : AgentConfig) (env : Aw → World → World) (polls : nat) (rows : list Row) (w : World) :
  (∀ k w, dispatch (al (env k w)) = dispatch (al w)) →
  (∀ k w, ps_model_version (pm w) ≤ ps_model_version (pm (env k w))) →
  (∀ k w, tracker_ok (tracker (pm w)) → tracker_ok (tracker (pm (env k w)))) →
  0 < dispatch_buffer_size cfg → 0 < c_num_workers cfg → tracker_ok (tracker (pm w)) →
  curr_ps_version_tag (dispatch (al w)) ≤ ps_model_version (pm w) →
  let d := dispatch (al w) in
  let ahead := Z.min (c_staleness cfg) (c_max_dispatch_ahead cfg) in
  let seen n := ps_model_version (pm (polled env n w)) in
  ∃ e, get_expected_ps_version cfg d = inr e ∧
    ((∃ n w1 w', (if bool_decide (curr_ps_version_tag d < e)
                  then (0 < n ≤ polls)%nat ∧ e ≤ seen n ∧ (∀ i, (0 < i < n)%nat → seen i < e) ∧ w1 = tagged e (polled env n w)
                  else w1 = w) ∧
        train_dispatch_round cfg env polls (Some rows) w = Ret true w' ∧ send_round cfg env rows w1 = Ret tt w' ∧
        request_counter d < (ps_model_version (pm w1) - initial_ps_version d + ahead + 1) * dispatch_buffer_size cfg ∧
        request_counter (dispatch (al w')) = request_counter d + Z.of_nat (length rows) ∧
        curr_ps_version_tag (dispatch (al w')) ≤ ps_model_version (pm w')) ∨
     (curr_ps_version_tag d < e ∧ (∀ i, (0 < i ≤ polls)%nat → seen i < e) ∧
        train_dispatch_round cfg env polls (Some rows) w = Ret false (polled env polls w))).
Proof.
  intros He1 He2 He3 Hbs Hn Ht Hc d ahead seen.
  destruct (get_expected_ps_version cfg d) as [|e] eqn:Ee; [unfold get_expected_ps_version in Ee; rewrite bool_decide_false in Ee by lia; done|].
  exists e. split; [done|].
  assert (∀ n, dispatch (al (polled env n w)) = d ∧ ps_model_version (pm w) ≤ seen n ∧ tracker_ok (tracker (pm (polled env n w)))) as Hpoll.
  { unfold seen. induction n as [|n (I1 & I2 & I3)]; [split_and!; [done|simpl; lia|done]|]. unfold polled in *. simpl.
    rewrite He1. split_and!; [done| |by apply He3]. specialize (He2 AwPoll (Nat.iter n (env AwPoll) w)). lia. }
  assert (∀ w1, tracker_ok (tracker (pm w1)) → request_counter (dispatch (al w1)) = request_counter d → e ≤ ps_model_version (pm w1) →
    curr_ps_version_tag (dispatch (al w1)) ≤ ps_model_version (pm w1) →
    ∃ w', send_round cfg env rows w1 = Ret tt w' ∧ (send_round cfg env rows ;; mret true) w1 = Ret true w' ∧
      request_counter d < (ps_model_version (pm w1) - initial_ps_version d + ahead + 1) * dispatch_buffer_size cfg ∧
      request_counter (dispatch (al w')) = request_counter d + Z.of_nat (length rows) ∧
      curr_ps_version_tag (dispatch (al w')) ≤ ps_model_version (pm w')) as Hsend.
  { intros w1 Ht1 Hr1 Hv1 Hc1. destruct (inner_dispatch_run cfg env He1 He2 He3 (with_version_tag (-1) rows) false w1 Hn Ht1) as (w2 & i & E2 & Hd2 & _ & Hv2).
    assert (send_round cfg env rows w1 = Ret tt (set_al (with_dispatch (with_counter (request_counter (dispatch (al w2)) + Z.of_nat (length rows)) (dispatch (al w2))) (al w2)) w2)) as E.
    { unfold send_round. by rewrite (run_bind _ _ _ _ _ E2). }
    eexists. split; [exact E|]. split; [by rewrite (run_bind _ _ _ _ _ E)|]. split; [by apply (expected_bound cfg d _ e)|]. simpl. rewrite Hd2. simpl. split; lia. }
  unfold train_dispatch_round. mrun. fold d. rewrite (run_of_res _ e) by done. unfold catch_up. rewrite run_assoc. mrun. fold d.
  case_bool_decide as Hlt.
  - destruct (poll_exact env polls e w) as [(n & Hnp & He & Hf & E)|[Hf E]]; [left|right].
    + destruct (Hpoll n) as (P1 & P2 & P3). destruct (Hsend (tagged e (polled env n w))) as (w' & E1 & E1' & Hb & Hr & Hc'); [done|simpl; by rewrite P1|done|done|].
      exists n, (tagged e (polled env n w)), w'. split_and!; [lia|lia|done|exact Hf|done| |done|done|done|done].
      rewrite !run_assoc, (run_bind _ _ _ _ _ E). unfold send_round in E1'. rewrite run_assoc in E1'. exact E1'.
    + split_and!; [done|done|]. rewrite !run_assoc, (run_bind _ _ _ _ _ E). done.
  - left. destruct (Hsend w) as (w' & E1 & E1' & Hb & Hr & Hc'); [done|done|unfold d in Hlt; lia|done|]. exists 0%nat, w, w'. split_and!; try done.
    unfold send_round in E1'. rewrite run_assoc in E1'. exact E1'.
Qed.

(** ** The failure of a group *)

Section failure.
Context `{SetOrder} (cfg : AgentConfig) (env : Aw → World → World).

(** The record of failed groups and the breaker only change under the lock. *)
Definition guarded (a : AgentLoop) := failed_train_group_ids a.

Lemma bounded_add_in x b : 0 < capacity b → x ∈ ids (bounded_add x b).
Proof.
  intros Hc. unfold bounded_add. case_bool_decide as Hx; [done|]. simpl. case_bool_decide as Hl; [|apply elem_of_app; right; by apply list_elem_of_singleton].
  rewrite length_app in Hl. simpl in Hl. destruct (ids b) as [|y l]; [simpl in Hl; lia|]. simpl. apply elem_of_app. right. by apply list_elem_of_singleton.
Qed.

Hypothesis env_failed : ∀ k w, guarded (al (env k w)) = guarded (al w).

Lemma record_keeps_failed reason : keeps guarded (record_group_failure cfg reason).
Proof. unfold record_group_failure. pose proof (keeps_trip guarded) as Ht. keeps_tac; by apply Ht. Qed.

(** Once the group is recorded, the rest of the handler leaves the record alone. *)
Lemma notify_rest_keeps parent n siblings reason :
  keeps (λ w, guarded (al w)) (
    (if bool_decide (siblings = []) then mret tt else await_call env AwAbort (on_pm (abort_requests siblings true false))) ;;
    purge_tracker_group env parent n false ;;
    on_al (record_group_failure cfg reason) ;; refill_failed_group cfg env 1 ;; mret tt).
Proof.
  apply keeps_bind; [case_bool_decide; [apply keeps_ret|by apply keeps_await; [|apply keeps_on_pm]]|]. intros _.
  apply keeps_bind; [by apply keeps_purge|]. intros _. apply keeps_bind; [apply keeps_on_al, record_keeps_failed|]. intros _.
  apply keeps_bind; [by apply keeps_refill|]. intros _. apply keeps_ret.
Qed.

Lemma notify_marks parent uid reason w :
  0 < capacity (failed_train_group_ids (al w)) →
  is_failed false parent (al (final (notify_group_failed cfg env parent uid false reason w))) = true.
Proof.
  intros Hc. unfold notify_group_failed. mrun. unfold is_failed at 2. rewrite env_failed. case_bool_decide as Hin.
  { simpl. rewrite env_failed. by apply bool_decide_eq_true. }
  rewrite (run_bind (on_al _) _ _ tt (set_al (with_failed_train (bounded_add parent (failed_train_group_ids (al (env AwLock w)))) (al (env AwLock w))) (env AwLock w))) by done.
  match goal with |- context [final (?m ?w1)] => pose proof (notify_rest_keeps parent (group_n cfg false)
    (filter (λ u, u ≠ uid) ((λ i, parent * group_n cfg false + i) <$> zrange 0 (group_n cfg false))) reason w1) as Hk end.
  unfold is_failed, guarded in *. cbn beta in Hk. rewrite Hk. simpl. rewrite env_failed. by apply bool_decide_eq_true, bounded_add_in.
Qed.

Lemma notify_known parent uid reason w :
  is_failed false parent (al w) = true → notify_group_failed cfg env parent uid false reason w = Ret tt (env AwLock w).
Proof.
  intros Hf. unfold notify_group_failed. mrun. unfold is_failed in *. fold (guarded (al w)) in Hf. fold (guarded (al (env AwLock w))).
  by rewrite env_failed, Hf.
Qed.

Lemma delete_all_lookup ks (m : partition) k : foldl (λ p k, delete k p) m ks !! k = if decide (k ∈ ks) then None else m !! k.
Proof.
  revert m. induction ks as [|x ks IH]; intros m; cbn [foldl]; [by rewrite decide_False by apply not_elem_of_nil|]. rewrite IH.
  destruct (decide (k ∈ ks)); [by rewrite decide_True by (apply elem_of_cons; by right)|].
  destruct (decide (x = k)) as [->|Hne]; [rewrite decide_True by (apply elem_of_cons; by left); apply lookup_delete_eq|].
  rewrite decide_False by (intros [->|?]%elem_of_cons; done). by apply lookup_delete_ne.
Qed.

Lemma clear_run keys part w : ∃ q, async_clear_payload env keys part DROPPED w = Ret tt (set_tq q (env AwClear w)) ∧
  ∀ k, k ∈ keys → default ∅ (q !! part) !! k = None.
Proof.
  unfold async_clear_payload, await_call, clear_payload. mrun. simpl. set (q := tq (env AwClear w)).
  assert (∀ k, k ∈ keys → k ∉ existing_payload_keys keys part q → default ∅ (q !! part) !! k = None) as Hgone.
  { intros k Hk Hn. apply eq_None_not_Some. intros Hs. by apply Hn, list_elem_of_filter. }
  destruct (existing_payload_keys keys part q) as [|x l] eqn:E.
  - exists q. rewrite (run_of_res _ None) by done. split; [by destruct (env AwClear w)|]. intros k Hk. apply Hgone; [done|apply not_elem_of_nil].
  - exists (tq_delete part (x :: l) q). split; [done|]. intros k Hk. unfold tq_delete. rewrite lookup_insert_eq.
    cbn [default from_option]. unfold id. rewrite delete_all_lookup. case_decide; [done|]. by apply Hgone.
Qed.

(** A result of a failed group changes nothing but its own disposition. *)
Lemma collect_failed results j r acc w :
  is_failed false (res_prompt_id r) (al w) = true → 1 ≤ res_n_trajectory r →
  ∃ q keys, request_payload_keys (res_request_id r) (res_n_trajectory r) = inr keys ∧
    collect_result cfg env results false (j, r) acc w =
      Ret (mkCollect (<[j := DROPPED]> (dispositions acc)) (jobs acc) (dropped_keys acc)) (set_tq q (env AwClear w)) ∧
    ∀ k, k ∈ keys → default ∅ (q !! "train") !! k = None.
Proof.
  intros Hf Hn. destruct (request_payload_keys (res_request_id r) (res_n_trajectory r)) as [|keys] eqn:Ek.
  { unfold request_payload_keys in Ek. rewrite bool_decide_false in Ek by lia. by case_bool_decide. }
  destruct (clear_run keys "train" w) as (q & Eq & Hq). exists q, keys. split; [done|]. split; [|done].
  unfold collect_result. mrun. rewrite Hf, (run_of_res _ keys) by done. change (partition_of false) with "train". by rewrite (run_bind _ _ _ _ _ Eq).
Qed.
End failure.

(** The failure of a training group is handled once and for good, even when its
    handler raises: a second notification for the group does nothing, and a result
    of it that still arrives is dropped and its payload cleared, without touching
    the rest of the manager's state. *)
Theorem failed_group_once `{SetOrder} (cfg : AgentConfig) (env : Aw → World → World) (parent uid : Z) (reason : option string) (w : World) :
  (∀ k w, failed_train_group_ids (al (env k w)) = failed_train_group_ids (al w)) →
  0 < capacity (failed_train_group_ids (al w)) →
  let w1 := final (notify_group_failed cfg env parent uid false reason w) in
  ∀ w2, failed_train_group_ids (al w2) = failed_train_group_ids (al w1) →
    (∀ uid' reason', notify_group_failed cfg env parent uid' false reason' w2 = Ret tt (env AwLock w2)) ∧
    ∀ results j r acc, res_prompt_id r = parent → 1 ≤ res_n_trajectory r →
      ∃ q keys, request_payload_keys (res_request_id r) (res_n_trajectory r) = inr keys ∧
        collect_result cfg env results false (j, r) acc w2 =
          Ret (mkCollect (<[j := DROPPED]> (dispositions acc)) (jobs acc) (dropped_keys acc)) (set_tq q (env AwClear w2)) ∧
        ∀ k, k ∈ keys → default ∅ (q !! "train") !! k = None.
Proof.
  intros He Hc w1 w2 Hw2. assert (is_failed false parent (al w2) = true) as Hf.
  { pose proof (notify_marks cfg env He parent uid reason w Hc) as Hm. unfold is_failed in *. fold w1 in Hm. by rewrite Hw2. }
  split; [intros; by apply notify_known|]. intros results j r acc <- Hn. by apply collect_failed.
Qed.

(** ** Runs *)

Section demo.
#[local] Existing Instance elements_order.

Definition idle (_ : Aw) (w : World) : World := w.

Definition demo_world (cfg : AgentConfig) (answers : list (option (list Row))) : World :=
  mkWorld (with_dispatch (mkDispatch 0 0 0 0 false true) (new_agent_loop cfg)) (new_manager 2 2 1 1 1 1 "cpu") ∅ answers [].

(** A rollout of request [x]: reserved, run and committed to the TransferQueue. *)
Definition demo_rollout (x : Z) : Wld unit :=
  on_pm (reserve_one INVALID_ROLLOUT_INSTANCE_ID x 0 true false) ;;
  on_pm (on_tracker (update_request_status (One x) (One RequestStatus.COMPLETED) (One 0) (One INVALID_ROLLOUT_INSTANCE_ID) false)) ;;
  modify (λ w, set_tq (<["train" := <[pretty x := Some "success"]> (default ∅ (tq w !! "train"))]> (tq w)) w).

Definition demo_results (xs : list Z) : list (bool * Result) := (λ x, (false, mkResult x x INVALID_ROLLOUT_INSTANCE_ID 0 1)) <$> xs.

Definition demo_batch (cfg : AgentConfig) : Wld (Wait KVBatchMeta) :=
  on_pm (on_tracker set_rollout_coordinator) ;;
  on_pm (on_tracker (add_request (Many [4; 7]) (One INVALID_ROLLOUT_INSTANCE_ID) (One (-1)) (One RequestStatus.PENDING) (One false))) ;;
  train_dispatch_round cfg idle 1 (Some [mkRow 4 4 0; mkRow 7 7 0]) ;;
  for_each [4; 7] demo_rollout ;;
  fut ← wait_for_training_batch cfg idle 0;
  collect_round cfg idle (demo_results [7; 4]) ;;
  mret fut.

(** The whole path of a batch: two prompts are dispatched to the two workers, run,
    collected in the other order and delivered to the waiting trainer. *)
Example batch_delivered :
  let cfg := demo_config 2 None in
  let o := demo_batch cfg (demo_world cfg []) in
  result o = inr (Later 0) ∧
  worker_calls (final o) = [AddAgentProgram 0 [mkRow 4 4 (-1)]; AddAgentProgram 1 [mkRow 7 7 (-1)]] ∧
  (∃ b, futures (al (final o)) !! 0%nat = Some (GotBatch b) ∧ meta_keys b = ["4"; "7"] ∧ (tag_version <$> meta_tags b) = [0; 0]) ∧
  accumulated_buffer_size (train_side (al (final o))) = [].
Proof. intros cfg o. split; [vm_compute; reflexivity|]. split; [vm_compute; reflexivity|]. split; [eexists; split; [vm_compute; reflexivity|done]|vm_compute; reflexivity]. Qed.

(** A buffer filter that keeps one of the two rows: the buffer is not published, the
    trainer stays waiting with one entry missing, and nothing is sampled to replace
    the dropped row, while both slots of the buffer stay taken in the
    parameter-server manager, so no later request can be placed there. *)
Theorem filtered_buffer_stuck :
  let cfg := demo_config 2 (Some (λ _, Some [mkProcessed 4 4 0 INVALID_ROLLOUT_INSTANCE_ID 0 1])) in
  let o := demo_batch cfg (demo_world cfg [Some [mkRow 9 9 0]]) in
  result o = inr (Later 0) ∧ futures (al (final o)) !! 0%nat = None ∧
  accumulated_buffer_size (train_side (al (final o))) = [(0, 1)] ∧ prompts (final o) = [Some [mkRow 9 9 0]] ∧
  data_tracker (staleness_inventory (pm (final o))) !! 4 = Some (0, 1%nat) ∧ data_tracker (staleness_inventory (pm (final o))) !! 7 = Some (0, 0%nat).
Proof. compute_run. Qed.

(** The breaker trips while a caller awaits the manager between the check of the
    breaker and the registration: the caller waits on a future that tripping has
    already gone past, and tripping again does nothing. *)
Definition trip_at_ensure (k : Aw) (w : World) : World :=
  match k with AwEnsure => final (on_al (trip_refill_breaker (NothingDispatched 1)) w) | _ => w end.

Theorem late_waiter_misses_breaker :
  let cfg := demo_config 2 None in
  let o := wait_for_training_batch cfg trip_at_ensure 0 (demo_world cfg []) in
  result o = inr (Later 0) ∧ refill_breaker_diagnosis (breaker (al (final o))) = Some (NothingDispatched 1) ∧
  futures (al (final o)) !! 0%nat = None ∧ buffer_waiters (train_side (al (final o))) !! 0 = Some [0%nat] ∧
  ∀ d, trip_refill_breaker d (al (final o)) = Ret tt (al (final o)).
Proof. intros cfg o. split_and!; [vm_compute; reflexivity..|]. intros d. vm_compute. reflexivity. Qed.
End demo.

Lemma dispatch_throttle_bound_witness :
  ∃ w', train_dispatch_round (demo_config 2 None) idle 1 (Some [mkRow 4 4 0]) (demo_world (demo_config 2 None) []) = Ret true w' ∧
    request_counter (dispatch (al w')) = 1.
Proof.
  destruct (dispatch_throttle_bound (demo_config 2 None) idle 1 [mkRow 4 4 0] (demo_world (demo_config 2 None) []))
    as (e & Hexp & [(n & w1 & w' & _ & E & _ & _ & Hr & _)|(Hlt & _)]); [done|intros; unfold idle; lia|done|done|done|apply new_tracker_ok|done| |].
  - exists w'. split; [exact E|exact Hr].
  - vm_compute in Hexp. injection Hexp as <-. done.
Defined.

Lemma failed_group_once_witness :
  let w1 := final (@notify_group_failed elements_order (demo_config 2 None) idle 3 3 false None (demo_world (demo_config 2 None) [])) in
  @notify_group_failed elements_order (demo_config 2 None) idle 3 3 false (Some "again") w1 = Ret tt w1.
Proof.
  intros w1. destruct (@failed_group_once elements_order (demo_config 2 None) idle 3 3 None (demo_world (demo_config 2 None) [])) with (w2 := w1) as [H _];
    [done|simpl; unfold failed_id_capacity; lia|done|]. apply H.
Defined.
