(* ===== verification/RewardWorker.v ===== *)
(** * Reward-loop worker

    [RewardLoopWorker] ([psrl/workers/reward/reward_worker.py]) takes requests from
    the reward manager into a bounded queue, runs at most
    [max_concurrency_per_worker] of them at a time behind a semaphore, and sends a
    result for each one that was not aborted.  The file also has the choice of the
    reward function for a sample, which the manager
    ([psrl/workers/reward/reward_manager.py]) shares.

    One event of [worker_step] is what the worker's event loop does without
    yielding: a poll of [add_reward_requests], one turn of [_launch_reward_loop], a
    task's first step, a task's end, one [abort_requests].  A task that is cancelled
    before its first step never enters the [try] of [_run_reward_loop_with_release],
    so its [finally] does not run. *)

From S2P Require Import Prelude.
From S2P Require Import PyFloat.

#[local] Open Scope Z_scope.

(** ** Requests and results *)

Record RewardInput := mkInput {
  i_uid : Z;
  i_parent_id : Z;
  i_n_trajectory : Z;
  i_data_source : string;
}.

(** A request on its way to a worker. *)
Record Dispatched := mkDispatched {
  d_input : RewardInput;
  d_is_validate : bool;
  d_keys : list string;
  d_attempt : Z;
}.

(** What the reward functions compute: the weighted score, and the rest. *)
Record Score := mkScore { reward_score : float; reward_extra : N }.

(** [put_reward_result]: [None] when the computation failed. *)
Record WorkerResult := mkWorkerResult {
  w_uid : Z;
  w_keys : list string;
  w_is_validate : bool;
  w_attempt : Z;
  w_score : option Score;
  w_response_len : Z;
}.

(** ** The choice of a reward function *)

Record RewardSpec := mkSpec { reward_manager_type : string; reward_fn_name : string; spec_model_name : option string }.

#[export] Instance spec_eq_dec : EqDecision RewardSpec.
Proof. solve_decision. Defined.

(** [reward_fn] of a sample: a name, a configuration or a list of either. *)
Inductive FnName := FnString (s : string) | FnDict (name : option string).
Inductive RawFn := RawList (l : list FnName) | RawOne (f : FnName).

Definition single_fn (f : FnName) : string := match f with FnString s => s | FnDict name => default "default" name end.

(** [str([])] is the name for an empty list. *)
Definition fn_name (raw : option RawFn) : string :=
  match raw with
  | None => "default"
  | Some (RawList (f :: _)) => single_fn f
  | Some (RawList []) => "[]"
  | Some (RawOne f) => single_fn f
  end.

Record RewardModelDict := mkModelDict {
  raw_reward_fn : option RawFn;
  raw_model_name : option string;
  raw_loop_type : option string;
  raw_coef : option float;
}.

(** A configured reward: its loop type, its model's name when the configuration
    has the key, and the names of its functions. *)
Record RewardModelConfig := mkModelConfig {
  cfg_loop_type : string;
  cfg_model_name : option (option string);
  cfg_fn_names : list (option string);
}.

Section specs.
Context {Mgr : Type} (load : RewardModelConfig → option string → Mgr) (has_model : option string → bool).

Definition init_fn (c : RewardModelConfig) (fn : option string) (d : list (RewardSpec * Mgr)) : Res (list (RewardSpec * Mgr)) :=
  let model := default (Some "null") (cfg_model_name c) in
  let spec := mkSpec (cfg_loop_type c) (default "null" fn) model in
  if bool_decide (spec ∈ d.*1) then inr d
  else if bool_decide (cfg_loop_type c = "gen") && (bool_decide (model = None) || negb (has_model model)) then inl ValueError
  else inr (d ++ [(spec, load c fn)]).

Definition foldl_res {A B} (f : A → B → Res B) (l : list A) (b : B) : Res B :=
  foldl (λ r x, match r with inl e => inl e | inr b => f x b end) (inr b) l.

Definition init_reward_fn (cs : list RewardModelConfig) : Res (list (RewardSpec * Mgr)) :=
  foldl_res (λ c d, foldl_res (init_fn c) (cfg_fn_names c) d) cs [].

Definition requested_spec (r : RewardModelDict) : RewardSpec :=
  mkSpec (default "naive" (raw_loop_type r)) (fn_name (raw_reward_fn r))
    (if bool_decide (raw_model_name r = Some "null") then None else raw_model_name r).

(** The manager of a sample's reward: the one of the requested specification, else
    the first of the same type, else the first one. *)
Definition resolve_one (d : list (RewardSpec * Mgr)) (r : RewardModelDict) : RewardSpec * option Mgr :=
  let spec := requested_spec r in
  match find_first (λ x : RewardSpec * Mgr, x.1 = spec) d with
  | Some i => (spec, snd <$> d !! i)
  | None =>
      match filter (λ x : RewardSpec * Mgr, reward_manager_type x.1 = reward_manager_type spec) d with
      | (s, m) :: _ => (s, Some m)
      | [] => match d with (s, m) :: _ => (s, Some m) | [] => (spec, None) end
      end
  end.

Definition resolve_reward_manager (d : list (RewardSpec * Mgr)) (rs : list RewardModelDict) : list (RewardSpec * option Mgr * float) :=
  (λ r, (resolve_one d r, default fone (raw_coef r))) <$> rs.
End specs.

(** [np.sum] is a parameter; the products are rounded one by one. *)
Definition weighted_score (np_sum : list float → float) (scores coefs : list float) : float := np_sum (zip_with fmul scores coefs).

(** ** The worker *)

Record WTask := mkTask { t_request : Dispatched; t_started : bool }.

Record RewardLoopWorker := mkWorker {
  max_concurrency : Z;
  queue_size : Z;
  pending_reward_queue : list Dispatched;
  held : option Dispatched;              (* popped, waiting for the semaphore *)
  reward_tasks : list (nat * WTask);
  request_key_to_task : gmap string nat;
  aborted_keys : gset string;
  semaphore : Z;
  completed : Z;
  failed : Z;
  next_task : nat;
  busy_loop_task : bool;                 (* a loop task that has not ended *)
  stop_busy_loop_task : bool;
}.

Definition new_worker (max_concurrency queue_size : Z) : RewardLoopWorker :=
  mkWorker max_concurrency queue_size [] None [] ∅ ∅ max_concurrency 0 0 0 false false.

Definition with_pending v0 w := mkWorker (max_concurrency w) (queue_size w) v0 (held w) (reward_tasks w) (request_key_to_task w) (aborted_keys w) (semaphore w) (completed w) (failed w) (next_task w) (busy_loop_task w) (stop_busy_loop_task w).
Definition with_held v0 w := mkWorker (max_concurrency w) (queue_size w) (pending_reward_queue w) v0 (reward_tasks w) (request_key_to_task w) (aborted_keys w) (semaphore w) (completed w) (failed w) (next_task w) (busy_loop_task w) (stop_busy_loop_task w).
Definition with_tasks v0 v1 w := mkWorker (max_concurrency w) (queue_size w) (pending_reward_queue w) (held w) v0 v1 (aborted_keys w) (semaphore w) (completed w) (failed w) (next_task w) (busy_loop_task w) (stop_busy_loop_task w).
Definition with_aborted v0 w := mkWorker (max_concurrency w) (queue_size w) (pending_reward_queue w) (held w) (reward_tasks w) (request_key_to_task w) v0 (semaphore w) (completed w) (failed w) (next_task w) (busy_loop_task w) (stop_busy_loop_task w).
Definition with_semaphore v0 w := mkWorker (max_concurrency w) (queue_size w) (pending_reward_queue w) (held w) (reward_tasks w) (request_key_to_task w) (aborted_keys w) v0 (completed w) (failed w) (next_task w) (busy_loop_task w) (stop_busy_loop_task w).
Definition with_counts v0 v1 w := mkWorker (max_concurrency w) (queue_size w) (pending_reward_queue w) (held w) (reward_tasks w) (request_key_to_task w) (aborted_keys w) (semaphore w) v0 v1 (next_task w) (busy_loop_task w) (stop_busy_loop_task w).
Definition with_next_task v0 w := mkWorker (max_concurrency w) (queue_size w) (pending_reward_queue w) (held w) (reward_tasks w) (request_key_to_task w) (aborted_keys w) (semaphore w) (completed w) (failed w) v0 (busy_loop_task w) (stop_busy_loop_task w).
Definition with_loop v0 v1 w := mkWorker (max_concurrency w) (queue_size w) (pending_reward_queue w) (held w) (reward_tasks w) (request_key_to_task w) (aborted_keys w) (semaphore w) (completed w) (failed w) (next_task w) v0 v1.

Definition start_busy_loop (w : RewardLoopWorker) : RewardLoopWorker := if busy_loop_task w then w else with_loop true false w.

(** [stop_busy_loop] up to its wait for the end of the loop. *)
Definition stop_busy_loop (w : RewardLoopWorker) : RewardLoopWorker := if busy_loop_task w then with_loop true true w else w.

(** One poll of [add_reward_requests]; [None] while there is no room and the loop
    is not to stop. *)
Definition add_reward_requests (rs : list Dispatched) (w : RewardLoopWorker) : option RewardLoopWorker :=
  if bool_decide (queue_size w < Z.of_nat (length (pending_reward_queue w) + length rs)) && negb (stop_busy_loop_task w) then None
  else Some (with_pending (pending_reward_queue w ++ rs) w).

(** The task of a request, once the semaphore is acquired. *)
Definition start_task (r : Dispatched) (w : RewardLoopWorker) : RewardLoopWorker :=
  with_next_task (S (next_task w))
    (with_tasks (reward_tasks w ++ [(next_task w, mkTask r false)]) (foldl (λ m k, <[k := next_task w]> m) (request_key_to_task w) (d_keys r))
      (with_semaphore (semaphore w - 1) (with_held None w))).

(** One turn of [_launch_reward_loop], and the request it skips.  A turn that waits for
    the semaphore goes on when it can; a new turn begins unless the loop is to stop. *)
Definition launch (w : RewardLoopWorker) : option (RewardLoopWorker * list Dispatched) :=
  if negb (busy_loop_task w) then None else
  match held w, pending_reward_queue w with
  | Some r, _ => if bool_decide (0 < semaphore w) then Some (start_task r w, []) else None
  | None, [] => if stop_busy_loop_task w then Some (with_loop false true w, []) else None
  | None, r :: rest =>
      if stop_busy_loop_task w then Some (with_loop false true w, []) else
      let w := with_pending rest w in
      if existsb (λ k, bool_decide (k ∈ aborted_keys w)) (d_keys r) then Some (w, [r])
      else if bool_decide (0 < semaphore w) then Some (start_task r w, [])
      else Some (with_held (Some r) w, [])
  end.

Definition task_of (id : nat) (w : RewardLoopWorker) : option WTask :=
  snd <$> (x ← find_first (λ p : nat * WTask, p.1 = id) (reward_tasks w); reward_tasks w !! x).

(** The done callback. *)
Definition forget_task (id : nat) (keys : list string) (w : RewardLoopWorker) : RewardLoopWorker :=
  with_tasks (filter (λ p : nat * WTask, p.1 ≠ id) (reward_tasks w)) (foldl (λ m k, delete k m) (request_key_to_task w) keys) w.

Definition begin_task (id : nat) (w : RewardLoopWorker) : RewardLoopWorker :=
  with_tasks ((λ p : nat * WTask, if decide (p.1 = id) then (p.1, mkTask (t_request p.2) true) else p) <$> reward_tasks w) (request_key_to_task w) w.

Definition result_of (r : Dispatched) (score : option Score) (response_len : Z) : WorkerResult :=
  mkWorkerResult (i_uid (d_input r)) (d_keys r) (d_is_validate r) (d_attempt r) score response_len.

(** The end of a task that runs. *)
Definition finish_task (id : nat) (score : option Score) (response_len : Z) (w : RewardLoopWorker) : option (RewardLoopWorker * list WorkerResult) :=
  match task_of id w with
  | Some (mkTask r true) =>
      let w := match score with Some _ => with_counts (completed w + 1) (failed w) w | None => with_counts (completed w) (failed w + 1) w end in
      Some (forget_task id (d_keys r) (with_semaphore (semaphore w + 1) w), [result_of r score response_len])
  | _ => None
  end.

(** [task.cancel()] and its consequences. *)
Definition cancel_task (id : nat) (w : RewardLoopWorker) : RewardLoopWorker * list Dispatched :=
  match task_of id w with
  | Some (mkTask r started) =>
      (forget_task id (d_keys r) (if started : bool then with_semaphore (semaphore w + 1) w else w), [r])
  | None => (w, [])
  end.

Definition abort_key (acc : RewardLoopWorker * list Dispatched) (key : string) : RewardLoopWorker * list Dispatched :=
  let w := with_aborted ({[key]} ∪ aborted_keys acc.1) acc.1 in
  match request_key_to_task w !! key with
  | Some id => let '(w, rs) := cancel_task id w in (w, acc.2 ++ rs)
  | None => (w, acc.2)
  end.

Definition abort_requests (keys : list string) (w : RewardLoopWorker) : RewardLoopWorker * list Dispatched := foldl abort_key (w, []) keys.

Inductive WEvent :=
  | WStart
  | WStop
  | WAdd (rs : list Dispatched)
  | WLaunch
  | WBegin (id : nat)
  | WFinish (id : nat) (score : option Score) (response_len : Z)
  | WAbort (keys : list string).

(** What an event makes happen: requests accepted, results sent, requests dropped. *)
Record Trace := mkTrace { accepted : list Dispatched; sent_results : list WorkerResult; finished : list Dispatched; dropped : list Dispatched }.

Definition no_trace : Trace := mkTrace [] [] [] [].

Definition worker_step (e : WEvent) (w : RewardLoopWorker) : option (RewardLoopWorker * Trace) :=
  match e with
  | WStart => Some (start_busy_loop w, no_trace)
  | WStop => Some (stop_busy_loop w, no_trace)
  | WAdd rs => (λ w, (w, mkTrace rs [] [] [])) <$> add_reward_requests rs w
  | WLaunch => (λ x : _ * _, (x.1, mkTrace [] [] [] x.2)) <$> launch w
  | WBegin id => Some (begin_task id w, no_trace)
  | WFinish id score len =>
      (λ x : _ * _, (x.1, mkTrace [] x.2 (match task_of id w with Some t => [t_request t] | None => [] end) [])) <$> finish_task id score len w
  | WAbort keys => let '(w, rs) := abort_requests keys w in Some (w, mkTrace [] [] [] rs)
  end.

(** Events that cannot happen in the current state do not. *)
Fixpoint worker_run (es : list WEvent) (w : RewardLoopWorker) : RewardLoopWorker * Trace :=
  match es with
  | [] => (w, no_trace)
  | e :: es =>
      match worker_step e w with
      | None => worker_run es w
      | Some (w, t) =>
          let '(w, t') := worker_run es w in
          (w, mkTrace (accepted t ++ accepted t') (sent_results t ++ sent_results t') (finished t ++ finished t') (dropped t ++ dropped t'))
      end
  end.
