(* ===== verification/RewardWorkerTheorems.v ===== *)
(** * Reward-loop worker: theorems

    Every accepted request is answered exactly once or dropped by an abort, within
    the bounds on queue and concurrency ([RewardWorker.v]); what a leaked slot of
    the semaphore does; and which reward function a sample gets. *)

From S2P Require Import Prelude.
From S2P Require Import PyFloat.
From S2P Require Import RewardWorker.

#[local] Open Scope Z_scope.

Section worker.
Implicit Types (w : RewardLoopWorker) (r : Dispatched).

(** The requests a worker has. *)
Definition task_requests w : list Dispatched := (λ p : nat * WTask, t_request p.2) <$> reward_tasks w.
Definition in_flight w : list Dispatched := pending_reward_queue w ++ option_list (held w) ++ task_requests w.

Record worker_ok w : Prop := {
  wk_ids : NoDup (reward_tasks w).*1;
  wk_fresh p : p ∈ reward_tasks w → (p.1 < next_task w)%nat;
  wk_sem : 0 ≤ semaphore w;
  wk_slots : semaphore w + Z.of_nat (length (reward_tasks w)) ≤ max_concurrency w;
}.

(** A worker that was never told to stop keeps to the size of its queue. *)
Definition queue_ok w : Prop := stop_busy_loop_task w = false ∧ Z.of_nat (length (pending_reward_queue w)) ≤ queue_size w.

(** The result of a request answers it. *)
Definition answers r (x : WorkerResult) : Prop :=
  w_uid x = i_uid (d_input r) ∧ w_keys x = d_keys r ∧ w_attempt x = d_attempt r ∧ w_is_validate x = d_is_validate r.

(** The limits of a worker never change. *)
Definition limits w := (max_concurrency w, queue_size w).

(** A step that keeps the worker consistent and accounts for every request. *)
Definition accounted w w' (t : Trace) : Prop :=
  worker_ok w' ∧ limits w' = limits w ∧ in_flight w ++ accepted t ≡ₚ finished t ++ dropped t ++ in_flight w' ∧ Forall2 answers (finished t) (sent_results t).

Lemma task_of_split id w t :
  NoDup (reward_tasks w).*1 → task_of id w = Some t → reward_tasks w ≡ₚ (id, t) :: filter (λ p : nat * WTask, p.1 ≠ id) (reward_tasks w).
Proof.
  unfold task_of. intros Hnd Hf. destruct (find_first _ _) as [i|] eqn:E; [|done]. simpl in Hf.
  apply find_first_Some in E as [((j & t') & Hi & Hj) _]. simpl in Hj. subst j. rewrite Hi in Hf. injection Hf as ->.
  apply list_elem_of_lookup_2 in Hi. revert Hnd Hi. induction (reward_tasks w) as [|[j u] l IH]; [by intros _ ?%elem_of_nil|].
  simpl. rewrite NoDup_cons. intros [Hj Hnd] [[= <- <-]|Hi]%elem_of_cons.
  - rewrite filter_cons_False by (simpl; tauto). f_equiv. rewrite filter_all; [done|]. intros p Hp Heq. apply Hj, list_elem_of_fmap. by exists p.
  - rewrite filter_cons_True by (simpl; intros ->; apply Hj, list_elem_of_fmap; by exists (id, t)). etrans; [by rewrite (IH Hnd Hi) at 1|]. apply Permutation_swap.
Qed.

(** A task leaves: its request is the only one that does. *)
Lemma reward_forget_ok id t keys w s :
  worker_ok w → task_of id w = Some t → semaphore w ≤ s ≤ semaphore w + 1 →
  let w' := forget_task id keys (with_semaphore s w) in
  worker_ok w' ∧ limits w' = limits w ∧ in_flight w ≡ₚ t_request t :: in_flight w'.
Proof.
  intros [Hid Hfr Hs Hsl] Ht Hle w'. pose proof (task_of_split id w t Hid Ht) as Hp.
  assert (length (reward_tasks w) = S (length (reward_tasks w'))) as Hlen by (by rewrite (Permutation_length Hp)).
  split; [|split; [done|]].
  - split; [|intros p [_ Hpin]%list_elem_of_filter; by apply Hfr|simpl; lia|simpl; simpl in Hlen; lia].
    simpl. rewrite Hp in Hid. by apply NoDup_cons in Hid as [_ ?].
  - unfold in_flight, task_requests. simpl. rewrite Hp at 1. simpl. rewrite !app_assoc. by rewrite <-Permutation_middle.
Qed.

Lemma reward_start_ok r w :
  worker_ok w → 0 < semaphore w → held w = None ∨ held w = Some r →
  worker_ok (start_task r w) ∧ limits (start_task r w) = limits w ∧
  in_flight (start_task r w) ≡ₚ pending_reward_queue w ++ task_requests w ++ [r].
Proof.
  intros [Hid Hfr Hs Hsl] H0 Hh. split; [|split; [done|]].
  - split; simpl; [|intros p [Hp| ->%list_elem_of_singleton]%elem_of_app; [apply Hfr in Hp; lia|simpl; lia]|lia|rewrite length_app; simpl; lia].
    rewrite fmap_app. apply NoDup_app. split; [done|]. split; [|apply NoDup_singleton]. intros x (p & -> & Hp)%list_elem_of_fmap. apply Hfr in Hp. simpl. rewrite list_elem_of_singleton. lia.
  - unfold in_flight, task_requests. simpl. by rewrite fmap_app.
Qed.

Lemma abort_key_ok key w rs : worker_ok w →
  let x := abort_key (w, rs) key in
  worker_ok x.1 ∧ limits x.1 = limits w ∧ in_flight w ++ rs ≡ₚ x.2 ++ in_flight x.1.
Proof.
  intros Hok. unfold abort_key. simpl. set (w1 := with_aborted _ w). assert (worker_ok w1) as Hok1 by (destruct Hok; by split).
  destruct (request_key_to_task w !! key) as [id|]; [|split; [done|]; split; [done|]; apply Permutation_app_comm].
  unfold cancel_task. destruct (task_of id w1) as [[r started]|] eqn:Et; [|simpl; rewrite app_nil_r; split; [done|]; split; [done|]; apply Permutation_app_comm].
  assert (∃ s, semaphore w1 ≤ s ≤ semaphore w1 + 1 ∧ (if started then with_semaphore (semaphore w1 + 1) w1 else w1) = with_semaphore s w1) as (s & Hs & ->).
  { destruct started; [exists (semaphore w1 + 1); split; [lia|done]|exists (semaphore w1); split; [lia|by destruct w1]]. }
  destruct (reward_forget_ok id (mkTask r started) (d_keys r) w1 s Hok1 Et Hs) as (Hok2 & Hlim & Hfl). split; [done|]. split; [done|]. simpl.
  change (in_flight w) with (in_flight w1). rewrite Hfl. simpl. rewrite <-app_assoc. simpl. rewrite <-Permutation_middle. f_equiv. apply Permutation_app_comm.
Qed.

Lemma aborts_ok keys w rs : worker_ok w →
  let x := foldl abort_key (w, rs) keys in
  worker_ok x.1 ∧ limits x.1 = limits w ∧ in_flight w ++ rs ≡ₚ x.2 ++ in_flight x.1.
Proof.
  revert w rs. induction keys as [|k keys IH]; intros w rs Hok; simpl; [split; [done|]; split; [done|]; apply Permutation_app_comm|].
  destruct (abort_key_ok k w rs Hok) as (Hok1 & Hl1 & Hp1). destruct (abort_key (w, rs) k) as [w1 rs1]. simpl in *.
  destruct (IH w1 rs1 Hok1) as (Hok2 & Hl2 & Hp2). split; [done|]. split; [congruence|]. rewrite Hp1, <-Hp2. apply Permutation_app_comm.
Qed.

Lemma launch_ok w w' rs :
  worker_ok w → launch w = Some (w', rs) → worker_ok w' ∧ limits w' = limits w ∧ in_flight w ≡ₚ rs ++ in_flight w'.
Proof.
  intros Hok. unfold launch. destruct (busy_loop_task w); [|done]. simpl. destruct (held w) as [r|] eqn:Hh.
  - case_bool_decide as Hs; [|done]. intros [= <- <-]. destruct (reward_start_ok r w Hok Hs) as (H1 & H2 & H3); [by right|]. split; [done|]. split; [done|].
    simpl. rewrite H3. unfold in_flight. rewrite Hh. f_equiv. apply Permutation_cons_append.
  - assert (worker_ok (with_loop false true w) ∧ in_flight (with_loop false true w) = in_flight w) as [Hend Hendf] by (destruct Hok; by split).
    destruct (pending_reward_queue w) as [|r rest] eqn:Hq; [destruct (stop_busy_loop_task w); [|done]; intros [= <- <-]; by rewrite Hendf|].
    destruct (stop_busy_loop_task w); [intros [= <- <-]; by rewrite Hendf|]. set (w1 := with_pending rest w).
    assert (worker_ok w1) as Hok1 by (destruct Hok; by split).
    assert (in_flight w ≡ₚ r :: in_flight w1) as Hfl by (unfold in_flight; by rewrite Hq).
    destruct (existsb _ _); [intros [= <- <-]; done|]. case_bool_decide as Hs; intros [= <- <-].
    + destruct (reward_start_ok r w1 Hok1 Hs) as (H1 & H2 & H3); [by left|]. split; [done|]. split; [done|]. simpl. rewrite H3, Hfl. unfold in_flight.
      change (held w1) with (held w). rewrite Hh. simpl. rewrite app_assoc. apply Permutation_cons_append.
    + split; [destruct Hok1; by split|]. split; [done|]. simpl. rewrite Hfl. unfold in_flight. simpl. rewrite Hh. simpl. by rewrite Permutation_middle.
Qed.

Lemma reward_begin_ok id w : worker_ok w → worker_ok (begin_task id w) ∧ in_flight (begin_task id w) = in_flight w.
Proof.
  intros [Hid Hfr Hs Hsl]. set (f := λ p : nat * WTask, if decide (p.1 = id) then (p.1, mkTask (t_request p.2) true) else p).
  assert (∀ p, (f p).1 = p.1 ∧ t_request (f p).2 = t_request p.2) as Hf by (intros p; unfold f; by case_decide).
  change (begin_task id w) with (with_tasks (f <$> reward_tasks w) (request_key_to_task w) w). split.
  - split; [|simpl; intros p (q & -> & Hq')%list_elem_of_fmap; rewrite (proj1 (Hf q)); by apply Hfr|done|simpl; by rewrite length_fmap].
    simpl. rewrite <-list_fmap_compose. erewrite list_fmap_ext; [exact Hid|]. intros i p _. apply Hf.
  - unfold in_flight, task_requests. simpl. do 2 f_equal. rewrite <-list_fmap_compose. apply list_fmap_ext. intros i p _. apply Hf.
Qed.

Lemma worker_step_ok e w w' t : worker_ok w → worker_step e w = Some (w', t) → accounted w w' t.
Proof.
  intros Hok. unfold accounted. destruct e as [| |rs| |id|id score len|keys]; simpl.
  - intros [= <- <-]. unfold start_busy_loop. simpl. rewrite app_nil_r. destruct (busy_loop_task w); split_and!; try done; destruct Hok; by split.
  - intros [= <- <-]. unfold stop_busy_loop. simpl. rewrite app_nil_r. destruct (busy_loop_task w); split_and!; try done; destruct Hok; by split.
  - unfold add_reward_requests. destruct (_ && _); [done|]. intros [= <- <-]. simpl. split; [destruct Hok; by split|].
    split; [done|]. split; [|constructor]. unfold in_flight. simpl. rewrite <-!app_assoc. f_equiv. rewrite app_assoc. apply Permutation_app_comm.
  - destruct (launch w) as [[w1 rs]|] eqn:El; [|done]. intros [= <- <-]. simpl. destruct (launch_ok w w1 rs Hok El) as (? & ? & ?).
    rewrite app_nil_r. split_and!; [done|done|done|constructor].
  - intros [= <- <-]. simpl. destruct (reward_begin_ok id w Hok) as [? ->]. rewrite app_nil_r. split_and!; [done|done|done|constructor].
  - unfold finish_task. destruct (task_of id w) as [[r []]|] eqn:Et; [|done|done]. intros [= <- <-]. simpl.
    set (w1 := match score with Some _ => _ | None => _ end).
    assert (worker_ok w1 ∧ task_of id w1 = Some (mkTask r true) ∧ in_flight w1 = in_flight w ∧ limits w1 = limits w) as (Hok1 & Et1 & Hfl & Hl).
    { unfold w1. destruct Hok. by destruct score. }
    destruct (reward_forget_ok id (mkTask r true) (d_keys r) w1 (semaphore w1 + 1) Hok1 Et1 ltac:(lia)) as (H1 & H2 & H3).
    split; [done|]. split; [congruence|]. split; [by rewrite app_nil_r, <-Hfl|]. by repeat constructor.
  - destruct (abort_requests keys w) as [w1 rs] eqn:Ea. intros [= <- <-]. simpl. destruct (aborts_ok keys w [] Hok) as (H1 & H2 & H3).
    unfold abort_requests in Ea. rewrite Ea in H1, H2, H3. split_and!; [done|done|done|constructor].
Qed.

Lemma worker_run_ok es w : worker_ok w → let '(w', t) := worker_run es w in accounted w w' t.
Proof.
  revert w. induction es as [|e es IH]; intros w Hok; simpl; [unfold accounted; rewrite app_nil_r; by split_and!; [|..|constructor]|].
  destruct (worker_step e w) as [[w1 t1]|] eqn:Es; [|by apply IH]. destruct (worker_step_ok e w w1 t1 Hok Es) as (Hok1 & Hl1 & Hp1 & Hf1).
  specialize (IH w1 Hok1). destruct (worker_run es w1) as [w2 t2]. destruct IH as (Hok2 & Hl2 & Hp2 & Hf2). split; [done|]. split; [congruence|]. simpl. split; [|by apply Forall2_app].
  rewrite app_assoc, Hp1. rewrite <-!app_assoc, Hp2. rewrite !app_assoc. f_equiv. rewrite <-!app_assoc. f_equiv. rewrite !app_assoc. f_equiv. apply Permutation_app_comm.
Qed.

(** ** Runs in parts *)

Definition trace_app (t t' : Trace) : Trace :=
  mkTrace (accepted t ++ accepted t') (sent_results t ++ sent_results t') (finished t ++ finished t') (dropped t ++ dropped t').

Lemma worker_run_cons e es w : worker_run (e :: es) w =
  match worker_step e w with
  | None => worker_run es w
  | Some x => let y := worker_run es x.1 in (y.1, trace_app x.2 y.2)
  end.
Proof. simpl. destruct (worker_step e w) as [[w1 t1]|]; [|done]. simpl. by destruct (worker_run es w1). Qed.

Lemma worker_run_app es1 es2 w : worker_run (es1 ++ es2) w =
  let x := worker_run es1 w in let y := worker_run es2 x.1 in (y.1, trace_app x.2 y.2).
Proof.
  revert w. induction es1 as [|e es1 IH]; intros w; [cbn; by destruct (worker_run es2 w) as [? []]|].
  rewrite <-app_comm_cons, !worker_run_cons. destruct (worker_step e w) as [[w1 t1]|]; [|apply IH].
  rewrite IH. unfold trace_app. cbn. by rewrite !app_assoc.
Qed.

(** A property that every step keeps. *)
Lemma worker_run_inv (I : RewardLoopWorker → Prop) (E : WEvent → Prop) es w :
  (∀ e w w' t, E e → I w → worker_step e w = Some (w', t) → I w') → Forall E es → I w → I (worker_run es w).1.
Proof.
  intros Hstep Hes. revert w. induction Hes as [|e es He _ IH]; intros w Hw; [done|]. rewrite worker_run_cons.
  destruct (worker_step e w) as [[w1 t1]|] eqn:Es; [|by apply IH]. simpl. apply IH. by eapply Hstep.
Qed.

(** What aborts do to the rest of the worker. *)
Lemma aborts_frame keys w rs :
  let x := (foldl abort_key (w, rs) keys).1 in
  pending_reward_queue x = pending_reward_queue w ∧ held x = held w ∧ busy_loop_task x = busy_loop_task w ∧
  stop_busy_loop_task x = stop_busy_loop_task w ∧ queue_size x = queue_size w ∧ next_task x = next_task w ∧
  ∀ k, k ∈ aborted_keys x ↔ k ∈ keys ∨ k ∈ aborted_keys w.
Proof.
  revert w rs. induction keys as [|key keys IH]; intros w rs; simpl; [split_and!; try done; set_solver|].
  assert (∃ w1 rs1, abort_key (w, rs) key = (w1, rs1) ∧ pending_reward_queue w1 = pending_reward_queue w ∧ held w1 = held w ∧ busy_loop_task w1 = busy_loop_task w ∧
    stop_busy_loop_task w1 = stop_busy_loop_task w ∧ queue_size w1 = queue_size w ∧ next_task w1 = next_task w ∧ aborted_keys w1 = {[key]} ∪ aborted_keys w) as (w1 & rs1 & -> & H1 & H2 & H3 & H4 & H5 & H6 & Ha).
  { unfold abort_key. simpl. destruct (request_key_to_task w !! key) as [id|]; [|by eexists _, _].
    unfold cancel_task. destruct (task_of id _) as [[r []]|]; eexists _, _; by split_and!. }
  destruct (IH w1 rs1) as (E1 & E2 & E3 & E4 & E5 & E6 & E7). split_and!; [congruence..|]. intros k. rewrite E7, Ha. set_solver.
Qed.

Lemma abort_requests_frame keys w : let x := (abort_requests keys w).1 in
  pending_reward_queue x = pending_reward_queue w ∧ held x = held w ∧ busy_loop_task x = busy_loop_task w ∧
  stop_busy_loop_task x = stop_busy_loop_task w ∧ queue_size x = queue_size w ∧ next_task x = next_task w ∧
  ∀ k, k ∈ aborted_keys x ↔ k ∈ keys ∨ k ∈ aborted_keys w.
Proof. apply aborts_frame. Qed.

Lemma queue_step e w w' t : e ≠ WStop → queue_ok w → worker_step e w = Some (w', t) → queue_ok w'.
Proof.
  intros He [Hs Hq]. destruct e as [| |rs| |id|id score len|keys]; simpl; try done.
  - intros [= <- <-]. unfold start_busy_loop. by destruct (busy_loop_task w).
  - unfold add_reward_requests. rewrite Hs, andb_true_r. case_bool_decide; [done|]. intros [= <- <-]. split; [done|]. simpl. rewrite length_app. lia.
  - unfold launch. rewrite Hs. destruct (negb _); [done|]. destruct (held w); [case_bool_decide; [|done]; by intros [= <- <-]|].
    destruct (pending_reward_queue w) as [|r rest] eqn:Ep; [done|]. simpl in Hq.
    destruct (existsb _ _); [|case_bool_decide]; intros [= <- <-]; (split; [done|simpl; lia]).
  - by intros [= <- <-].
  - unfold finish_task. destruct (task_of id w) as [[r []]|]; [|done|done]. intros [= <- <-]. by destruct score.
  - destruct (abort_requests_frame keys w) as (E1 & _ & _ & E4 & E5 & _). destruct (abort_requests keys w) as [w1 rs]. intros [= <- <-]. simpl in *.
    unfold queue_ok. by rewrite E1, E4, E5.
Qed.

(** ** Who is dropped *)

(** A key leads to a task of that key. *)
Record keyed w : Prop := {
  ky_key k id p : request_key_to_task w !! k = Some id → p ∈ reward_tasks w → p.1 = id → k ∈ d_keys (t_request p.2);
  ky_fresh k id : request_key_to_task w !! k = Some id → (id < next_task w)%nat;
  ky_tasks p : p ∈ reward_tasks w → (p.1 < next_task w)%nat;
}.

Lemma foldl_insert_lookup (ks : list string) (id : nat) (m : gmap string nat) k :
  foldl (λ m k, <[k := id]> m) m ks !! k = if decide (k ∈ ks) then Some id else m !! k.
Proof.
  revert m. induction ks as [|x ks IH]; intros m; [by rewrite decide_False by apply not_elem_of_nil|simpl].
  rewrite IH, lookup_insert. rewrite (decide_ext (k ∈ x :: ks) (k = x ∨ k ∈ ks)) by apply elem_of_cons. repeat case_decide; naive_solver.
Qed.

Lemma foldl_delete_task_lookup (ks : list string) (m : gmap string nat) k :
  foldl (λ m k, delete k m) m ks !! k = if decide (k ∈ ks) then None else m !! k.
Proof.
  revert m. induction ks as [|x ks IH]; intros m; [by rewrite decide_False by apply not_elem_of_nil|simpl].
  rewrite IH, lookup_delete. rewrite (decide_ext (k ∈ x :: ks) (k = x ∨ k ∈ ks)) by apply elem_of_cons. repeat case_decide; naive_solver.
Qed.

Lemma start_keyed r w : keyed w → keyed (start_task r w).
Proof.
  intros [Hk Hf Ht]. split; simpl.
  - intros k id p. rewrite foldl_insert_lookup, elem_of_app, list_elem_of_singleton. intros Hm [Hp| ->] Hid; simpl in *.
    + case_decide; [|by eapply Hk]. injection Hm as <-. apply Ht in Hp. lia.
    + subst id. case_decide; [done|]. apply Hf in Hm. lia.
  - intros k id. rewrite foldl_insert_lookup. case_decide; [intros [= <-]; lia|]. intros Hm%Hf. lia.
  - intros p [Hp%Ht| ->%list_elem_of_singleton]%elem_of_app; simpl; lia.
Qed.

Lemma forget_keyed id keys w : keyed w → keyed (forget_task id keys w).
Proof.
  intros [Hk Hf Ht]. split; simpl.
  - intros k i p. rewrite foldl_delete_task_lookup, list_elem_of_filter. case_decide; [done|]. intros Hm [_ Hp]. by eapply Hk.
  - intros k i. rewrite foldl_delete_task_lookup. case_decide; [done|]. apply Hf.
  - intros p [_ Hp]%list_elem_of_filter. by apply Ht.
Qed.

Lemma begin_keyed id w : keyed w → keyed (begin_task id w).
Proof.
  intros [Hk Hf Ht]. split; simpl; [|done|].
  - intros k i p Hm (q & -> & Hq)%list_elem_of_fmap. intros Hid. assert (k ∈ d_keys (t_request q.2)) as Hin; [|by case_decide].
    eapply Hk; [done|done|]. by case_decide.
  - intros p (q & -> & Hq)%list_elem_of_fmap. apply Ht in Hq. by case_decide.
Qed.

Lemma task_of_elem id w t : task_of id w = Some t → (id, t) ∈ reward_tasks w.
Proof.
  unfold task_of. destruct (find_first _ _) as [i|] eqn:E; [|done]. simpl. intros Hf.
  apply find_first_Some in E as [((j & t') & Hi & Hj) _]. simpl in Hj. subst j. rewrite Hi in Hf. injection Hf as ->. by eapply list_elem_of_lookup_2.
Qed.

(** Every request that an abort drops has one of its keys. *)
Lemma aborts_dropped (P : string → Prop) keys w rs :
  keyed w → (∀ k, k ∈ keys → P k) → (∀ r, r ∈ rs → ∃ k, k ∈ d_keys r ∧ P k) →
  let x := foldl abort_key (w, rs) keys in keyed x.1 ∧ ∀ r, r ∈ x.2 → ∃ k, k ∈ d_keys r ∧ P k.
Proof.
  revert w rs. induction keys as [|key keys IH]; intros w rs Hk Hks Hrs; [done|]. simpl.
  assert (keyed (abort_key (w, rs) key).1 ∧ ∀ r, r ∈ (abort_key (w, rs) key).2 → ∃ k, k ∈ d_keys r ∧ P k) as [Hk1 Hrs1].
  { unfold abort_key. simpl. set (w1 := with_aborted _ w). assert (keyed w1) as Hk1 by (destruct Hk; by split).
    destruct (request_key_to_task w !! key) as [id|] eqn:Em; [|done]. unfold cancel_task.
    destruct (task_of id w1) as [[r started]|] eqn:Et; [|simpl; by rewrite app_nil_r]. simpl. split.
    - apply forget_keyed. destruct started; destruct Hk1; by split.
    - intros r' [Hr'| ->%list_elem_of_singleton]%elem_of_app; [by apply Hrs|]. exists key. split; [|apply Hks, elem_of_cons; by left].
      apply task_of_elem in Et. by apply (ky_key w Hk key id (id, mkTask r started)). }
  destruct (abort_key (w, rs) key) as [w1 rs1]. apply IH; [done| |done]. intros k Hkk. apply Hks, elem_of_cons. by right.
Qed.

Lemma dropped_step (P : string → Prop) e w w' t :
  (∀ keys k, e = WAbort keys → k ∈ keys → P k) → keyed w ∧ (∀ k, k ∈ aborted_keys w → P k) → worker_step e w = Some (w', t) →
  (keyed w' ∧ ∀ k, k ∈ aborted_keys w' → P k) ∧ ∀ r, r ∈ dropped t → ∃ k, k ∈ d_keys r ∧ P k.
Proof.
  intros He [Hk Ha]. assert (∀ r, r ∈ [] → ∃ k, k ∈ d_keys r ∧ P k) as Hnil by (by intros r ?%elem_of_nil).
  destruct e as [| |rs| |id|id score len|keys]; simpl.
  - intros [= <- <-]. unfold start_busy_loop. destruct (busy_loop_task w); (split; [split; [|done]|done]); [done|destruct Hk; by split].
  - intros [= <- <-]. unfold stop_busy_loop. destruct (busy_loop_task w); (split; [split; [|done]|done]); [destruct Hk; by split|done].
  - unfold add_reward_requests. destruct (_ && _); [done|]. intros [= <- <-]. split; [split; [destruct Hk; by split|done]|done].
  - unfold launch. destruct (negb _); [done|]. assert (keyed (with_loop false true w)) as Hkl by (destruct Hk; by split).
    destruct (held w) as [r|]; [case_bool_decide; [|done]; intros [= <- <-]; split; [split; [by apply start_keyed|done]|done]|].
    destruct (pending_reward_queue w) as [|r rest]; [destruct (stop_busy_loop_task w); [|done]; by intros [= <- <-]|].
    destruct (stop_busy_loop_task w); [by intros [= <- <-]|]. set (w1 := with_pending rest w). assert (keyed w1) as Hk1 by (destruct Hk; by split).
    destruct (existsb _ _) eqn:Ex; [|case_bool_decide]; intros [= <- <-]; simpl.
    + split; [done|]. intros r' ->%list_elem_of_singleton. apply existsb_exists in Ex as (k & Hin & Hb%bool_decide_eq_true). exists k. split; [by apply list_elem_of_In|by apply Ha].
    + split; [|done]. split; [by apply start_keyed|done].
    + split; [|done]. split; [destruct Hk; by split|done].
  - intros [= <- <-]. split; [|done]. split; [by apply begin_keyed|done].
  - unfold finish_task. destruct (task_of id w) as [[r []]|]; [|done|done]. intros [= <- <-]. simpl. split; [|done].
    split; [|by destruct score]. apply forget_keyed. destruct Hk, score; by split.
  - destruct (aborts_dropped P keys w [] Hk) as [Hk1 Hd]; [by intros k; apply (He keys)|done|].
    destruct (abort_requests_frame keys w) as (_ & _ & _ & _ & _ & _ & Hab). unfold abort_requests in *. destruct (foldl abort_key (w, []) keys) as [w1 rs]. intros [= <- <-]. simpl in *.
    split; [|done]. split; [done|]. intros k [Hkk|Hkk]%Hab; [by apply (He keys)|by apply Ha].
Qed.

(** An abort event names key [k]. *)
Definition named (es : list WEvent) (k : string) : Prop := ∃ keys, WAbort keys ∈ es ∧ k ∈ keys.

Lemma dropped_run (P : string → Prop) es w :
  (∀ k, named es k → P k) → keyed w → (∀ k, k ∈ aborted_keys w → P k) → ∀ r, r ∈ dropped (worker_run es w).2 → ∃ k, k ∈ d_keys r ∧ P k.
Proof.
  intros Hes Hk Ha. assert (keyed w ∧ ∀ k, k ∈ aborted_keys w → P k) as Hw by done. clear Hk Ha. revert w Hw.
  induction es as [|e es IH]; intros w Hw r; [by intros ?%elem_of_nil|]. rewrite worker_run_cons.
  assert (∀ k, named es k → P k) as Hes' by (intros k (keys & Hin & Hk); apply Hes; exists keys; split; [apply elem_of_cons; by right|done]).
  destruct (worker_step e w) as [[w1 t1]|] eqn:Es; [|by apply IH].
  destruct (dropped_step P e w w1 t1) as [Hw1 Hd]; [|done|done|].
  { intros keys k -> Hk. apply Hes. exists keys. split; [apply elem_of_cons; by left|done]. }
  simpl. intros [Hr|Hr]%elem_of_app; [by apply Hd|]. by eapply (IH Hes' w1).
Qed.

(** A queued request with an aborted key stays in the queue or is dropped. *)
Lemma queued_step r k e w w' t :
  k ∈ d_keys r → r ∈ pending_reward_queue w → k ∈ aborted_keys w → worker_step e w = Some (w', t) →
  r ∈ dropped t ∨ (r ∈ pending_reward_queue w' ∧ k ∈ aborted_keys w').
Proof.
  intros Hk Hr Ha. destruct e as [| |rs| |id|id score len|keys]; simpl.
  - intros [= <- <-]. right. unfold start_busy_loop. by destruct (busy_loop_task w).
  - intros [= <- <-]. right. unfold stop_busy_loop. by destruct (busy_loop_task w).
  - unfold add_reward_requests. destruct (_ && _); [done|]. intros [= <- <-]. right. split; [|done]. simpl. apply elem_of_app. by left.
  - unfold launch. destruct (negb _); [done|]. destruct (held w) as [r0|]; [case_bool_decide; [|done]; intros [= <- <-]; by right|].
    destruct (pending_reward_queue w) as [|r0 rest] eqn:Ep; [by apply elem_of_nil in Hr|]. destruct (stop_busy_loop_task w); [intros [= <- <-]; right; simpl; by rewrite Ep|].
    apply elem_of_cons in Hr as [<-|Hr].
    + assert (existsb (λ k, bool_decide (k ∈ aborted_keys (with_pending rest w))) (d_keys r) = true) as ->.
      { apply existsb_exists. exists k. split; [by apply list_elem_of_In|by apply bool_decide_eq_true]. }
      intros [= <- <-]. left. by apply list_elem_of_singleton.
    + destruct (existsb _ _); [|case_bool_decide]; intros [= <- <-]; by right.
  - intros [= <- <-]. by right.
  - unfold finish_task. destruct (task_of id w) as [[r0 []]|]; [|done|done]. intros [= <- <-]. right. by destruct score.
  - destruct (abort_requests_frame keys w) as (E1 & _ & _ & _ & _ & _ & Hab). destruct (abort_requests keys w) as [w1 rs]. intros [= <- <-]. simpl in *.
    right. rewrite E1. split; [done|]. apply Hab. by right.
Qed.

Lemma queued_run r k es w :
  k ∈ d_keys r → r ∈ pending_reward_queue w → k ∈ aborted_keys w →
  r ∈ dropped (worker_run es w).2 ∨ r ∈ pending_reward_queue (worker_run es w).1.
Proof.
  intros Hk. revert w. induction es as [|e es IH]; intros w Hr Ha; [by right|]. rewrite worker_run_cons.
  destruct (worker_step e w) as [[w1 t1]|] eqn:Es; [|by apply IH]. simpl. rewrite elem_of_app.
  destruct (queued_step r k e w w1 t1 Hk Hr Ha Es) as [Hd|[Hr1 Ha1]]; [by left; left|]. destruct (IH w1 Hr1 Ha1); [left; by right|by right].
Qed.

(** ** Requests that share no key *)

Definition keys_apart (l : list Dispatched) : Prop := NoDup (l ≫= d_keys).

Lemma keys_apart_perm l l' : l ≡ₚ l' → keys_apart l → keys_apart l'.
Proof. intros Hp. unfold keys_apart. by rewrite Hp. Qed.

Lemma keys_apart_app l l' : keys_apart (l ++ l') → keys_apart l ∧ keys_apart l' ∧ ∀ r r' k, r ∈ l → r' ∈ l' → k ∈ d_keys r → k ∉ d_keys r'.
Proof.
  unfold keys_apart. rewrite bind_app. intros (H1 & H2 & H3)%NoDup_app. split_and!; [done|done|]. intros r r' k Hr Hr' Hk Hk'.
  apply (H2 k); apply list_elem_of_bind; eauto.
Qed.

(** Each key of a task leads to it. *)
Definition mapped w : Prop := ∀ p k, p ∈ reward_tasks w → k ∈ d_keys (t_request p.2) → request_key_to_task w !! k = Some p.1.

Lemma tasks_apart p q k w :
  keys_apart (task_requests w) → NoDup (reward_tasks w).*1 → p ∈ reward_tasks w → q ∈ reward_tasks w →
  k ∈ d_keys (t_request p.2) → k ∈ d_keys (t_request q.2) → p = q.
Proof.
  unfold task_requests. induction (reward_tasks w) as [|x l IH]; [by intros _ _ ?%elem_of_nil|].
  rewrite fmap_cons. intros Ha Hnd Hp Hq Hkp Hkq. 
  destruct (keys_apart_app [t_request x.2] ((λ p : nat * WTask, t_request p.2) <$> l)) as (_ & Ha' & Hx); [exact Ha|].
  simpl in Hnd. apply NoDup_cons in Hnd as [_ Hnd].
  apply elem_of_cons in Hp as [->|Hp]; apply elem_of_cons in Hq as [->|Hq]; [done| | |by apply IH].
  - destruct (Hx (t_request x.2) (t_request q.2) k); [by apply list_elem_of_singleton|apply list_elem_of_fmap; by exists q|done|done].
  - destruct (Hx (t_request x.2) (t_request p.2) k); [by apply list_elem_of_singleton|apply list_elem_of_fmap; by exists p|done|done].
Qed.

Lemma forget_mapped id t w s :
  worker_ok w → keys_apart (task_requests w) → mapped w → (id, t) ∈ reward_tasks w →
  mapped (forget_task id (d_keys (t_request t)) (with_semaphore s w)).
Proof.
  intros Hok Ha Hm Ht p k. simpl. rewrite list_elem_of_filter, foldl_delete_task_lookup. intros [Hne Hp] Hk.
  case_decide as Hkt; [|by apply Hm]. exfalso. apply Hne.
  by rewrite (tasks_apart p (id, t) k w Ha (wk_ids w Hok) Hp Ht Hk Hkt).
Qed.

Lemma start_mapped r w : keys_apart (task_requests w ++ [r]) → mapped w → mapped (start_task r w).
Proof.
  intros (_ & _ & Ha)%keys_apart_app Hm p k. simpl. rewrite foldl_insert_lookup, elem_of_app, list_elem_of_singleton. intros [Hp| ->] Hk; simpl in *.
  - rewrite decide_False; [by apply Hm|]. apply (Ha (t_request p.2) r k); [apply list_elem_of_fmap; by exists p|by apply list_elem_of_singleton|done].
  - by rewrite decide_True.
Qed.

Lemma task_of_mapped p w : NoDup (reward_tasks w).*1 → p ∈ reward_tasks w → task_of p.1 w = Some p.2.
Proof.
  intros Hnd Hp. destruct (task_of p.1 w) as [t|] eqn:E.
  - apply task_of_elem in E. f_equal. revert Hnd Hp E. clear. induction (reward_tasks w) as [|x l IH]; [by intros _ ?%elem_of_nil|].
    simpl. rewrite NoDup_cons. intros [Hx Hnd] [->|Hp]%elem_of_cons [E|E]%elem_of_cons.
    + by rewrite <-E.
    + destruct Hx. apply list_elem_of_fmap. by exists (x.1, t).
    + destruct Hx. apply list_elem_of_fmap. exists p. by rewrite <-E.
    + by apply IH.
  - unfold task_of in E. destruct (find_first _ _) as [i|] eqn:Ef.
    + apply find_first_Some in Ef as [(x & Hx & _) _]. simpl in E. by rewrite Hx in E.
    + apply list_elem_of_lookup in Hp as [i Hi]. by destruct (proj1 (find_first_None _ _) Ef i p Hi).
Qed.

(** An abort drops the request of every task it names. *)
Lemma aborts_mapped keys w rs :
  worker_ok w → keys_apart (task_requests w) → mapped w →
  let x := foldl abort_key (w, rs) keys in
  mapped x.1 ∧ (∀ r, r ∈ rs → r ∈ x.2) ∧ ∀ r k, r ∈ task_requests w → k ∈ d_keys r → k ∈ keys → r ∈ x.2.
Proof.
  revert w rs. induction keys as [|key keys IH]; intros w rs Hok Ha Hm; simpl; [split_and!; [done|done|by intros r k _ _ ?%elem_of_nil]|].
  destruct (abort_key_ok key w rs Hok) as (Hok1 & _ & Hp).
  assert (∃ w1 rs1, abort_key (w, rs) key = (w1, rs1) ∧ mapped w1 ∧ keys_apart (task_requests w1) ∧ (∀ r, r ∈ rs → r ∈ rs1) ∧
    ∀ r, r ∈ task_requests w → r ∈ rs1 ∨ (r ∈ task_requests w1 ∧ key ∉ d_keys r)) as (w1 & rs1 & E & Hm1 & Ha1 & Hrs & Htr).
  { unfold abort_key. simpl. set (w0 := with_aborted _ w). assert (worker_ok w0) as Hok0 by (destruct Hok; by split).
    destruct (request_key_to_task w !! key) as [id|] eqn:Em; last first.
    { eexists w0, rs. split_and!; try done. intros r Hr. right. split; [done|]. intros Hk. apply list_elem_of_fmap in Hr as (p & -> & Hp'). by rewrite (Hm p key) in Em. }
    unfold cancel_task. destruct (task_of id w0) as [[r0 started]|] eqn:Et; last first.
    { eexists w0, _. split_and!; try done; [intros r Hr; by rewrite app_nil_r|]. intros r Hr. right. split; [done|]. intros Hk. apply list_elem_of_fmap in Hr as (p & -> & Hp').
      assert (id = p.1) as -> by (pose proof (Hm p key Hp' Hk); congruence). change (task_of p.1 w0) with (task_of p.1 w) in Et. by rewrite (task_of_mapped p w (wk_ids w Hok) Hp') in Et. }
    pose proof (task_of_elem _ _ _ Et) as Hin. change (reward_tasks w0) with (reward_tasks w) in Hin.
    pose proof (task_of_split id w0 (mkTask r0 started) (wk_ids w0 Hok0) Et) as Hsp.
    assert (∃ s, (if started then with_semaphore (semaphore w0 + 1) w0 else w0) = with_semaphore s w0) as [s ->].
    { destruct started; [by exists (semaphore w0 + 1)|exists (semaphore w0); by destruct w0]. }
    assert (task_requests w ≡ₚ r0 :: task_requests (forget_task id (d_keys r0) (with_semaphore s w0))) as Htp.
    { unfold task_requests. change (reward_tasks w) with (reward_tasks w0). rewrite Hsp at 1. done. }
    eexists _, _. split; [done|]. split_and!.
    - by apply (forget_mapped id (mkTask r0 started)).
    - apply (keys_apart_perm _ _ Htp) in Ha. by apply (keys_apart_app [r0]) in Ha as (_ & ? & _).
    - intros r Hr. apply elem_of_app. by left.
    - intros r Hr. destruct (decide (key ∈ d_keys r)) as [Hk|Hk].
      + left. apply elem_of_app. right. apply list_elem_of_singleton. apply list_elem_of_fmap in Hr as (p & -> & Hp').
        assert (id = p.1) as -> by (pose proof (Hm p key Hp' Hk); congruence).
        change (task_of p.1 w0) with (task_of p.1 w) in Et. rewrite (task_of_mapped p w (wk_ids w Hok) Hp') in Et. injection Et as Et. by rewrite Et.
      + rewrite Htp in Hr. apply elem_of_cons in Hr as [->|Hr]; [left; apply elem_of_app; right; by apply list_elem_of_singleton|by right]. }
  rewrite E in *. simpl in *. destruct (IH w1 rs1 Hok1 Ha1 Hm1) as (Hm2 & Hrs2 & Hd2). split_and!; [done|by auto|].
  intros r k Hr Hk Hkk. destruct (Htr r Hr) as [H1|[H1 Hno]]; [by apply Hrs2|]. apply elem_of_cons in Hkk as [->|Hkk]; [done|]. by apply (Hd2 r k).
Qed.

Lemma mapped_step e w w' t :
  worker_ok w → keys_apart (in_flight w ++ accepted t) → mapped w → worker_step e w = Some (w', t) → mapped w'.
Proof.
  intros Hok Hap Hm Es. apply keys_apart_app in Hap as (Hap & _ & _).
  assert (keys_apart (task_requests w)) as Hat.
  { unfold in_flight in Hap. apply keys_apart_app in Hap as (_ & Hap & _). by apply keys_apart_app in Hap as (_ & ? & _). }
  destruct e as [| |rs| |id|id score len|keys]; simpl in Es.
  - injection Es as <- <-. unfold start_busy_loop. by destruct (busy_loop_task w).
  - injection Es as <- <-. unfold stop_busy_loop. by destruct (busy_loop_task w).
  - unfold add_reward_requests in Es. destruct (_ && _); [done|]. by injection Es as <- <-.
  - unfold launch in Es. destruct (negb _); [done|]. unfold in_flight in Hap. destruct (held w) as [r|].
    + case_bool_decide; [|done]. injection Es as <- <-. apply start_mapped; [|done].
      apply keys_apart_app in Hap as (_ & Hap & _). simpl in Hap. by apply (keys_apart_perm _ (task_requests w ++ [r])) in Hap; [|apply Permutation_cons_append].
    + destruct (pending_reward_queue w) as [|r rest]; [destruct (stop_busy_loop_task w); [|done]; by injection Es as <- <-|].
      destruct (stop_busy_loop_task w); [by injection Es as <- <-|].
      destruct (existsb _ _); [by injection Es as <- <-|]. case_bool_decide; injection Es as <- <-; [|done]. apply start_mapped; [|done].
      apply (keys_apart_perm _ (rest ++ (task_requests w ++ [r]))) in Hap; [by apply keys_apart_app in Hap as (_ & ? & _)|].
      simpl. rewrite app_assoc. apply Permutation_cons_append.
  - injection Es as <- <-. intros p k. simpl. intros (q & -> & Hq)%list_elem_of_fmap Hk. replace (if decide _ then _ else _).1 with q.1 by (by case_decide). apply Hm; [done|]. by case_decide.
  - unfold finish_task in Es. destruct (task_of id w) as [[r []]|] eqn:Et; [|done|done]. injection Es as <- <-. set (w1 := match score with Some _ => _ | None => _ end).
    apply task_of_elem in Et. apply (forget_mapped id (mkTask r true)); [unfold w1; destruct Hok, score; by split|unfold w1; by destruct score..].
  - destruct (aborts_mapped keys w [] Hok Hat Hm) as (H1 & _). unfold abort_requests in Es. destruct (foldl abort_key (w, []) keys). by injection Es as <- <-.
Qed.

Lemma mapped_run es w : worker_ok w → keys_apart (in_flight w ++ accepted (worker_run es w).2) → mapped w → mapped (worker_run es w).1.
Proof.
  revert w. induction es as [|e es IH]; intros w Hok Hap Hm; [done|]. rewrite worker_run_cons in *.
  destruct (worker_step e w) as [[w1 t1]|] eqn:Es; [|by apply IH]. simpl in *. rewrite app_assoc in Hap.
  destruct (worker_step_ok e w w1 t1 Hok Es) as (Hok1 & _ & Hp & _). apply IH; [done| |].
  - apply (keys_apart_perm _ _ (Permutation_app_tail _ Hp)) in Hap. rewrite !app_assoc in Hap. rewrite <-(app_assoc (finished t1 ++ dropped t1)) in Hap. by apply keys_apart_app in Hap as (_ & ? & _).
  - apply keys_apart_app in Hap as (Hap & _ & _). by apply (mapped_step e w w1 t1).
Qed.

(** ** Progress *)

(** A turn of the loop, the first step of a task, or its end. *)
Inductive progress : WEvent → Prop :=
  | pr_launch : progress WLaunch
  | pr_begin id : progress (WBegin id)
  | pr_finish id score len : progress (WFinish id score len).

(** No abort, no stop: the loop runs and every slot is free or has a task. *)
Record running w : Prop := {
  rn_ok : worker_ok w;
  rn_loop : busy_loop_task w = true ∧ stop_busy_loop_task w = false;
  rn_slots : semaphore w + Z.of_nat (length (reward_tasks w)) = max_concurrency w;
  rn_aborted : aborted_keys w = ∅;
}.

Definition calm (e : WEvent) : Prop := e ≠ WStop ∧ ∀ keys, e ≠ WAbort keys.

(** The same of a worker whose loop may not be started yet. *)
Record quiet w : Prop := {
  qt_ok : worker_ok w;
  qt_stop : stop_busy_loop_task w = false;
  qt_slots : semaphore w + Z.of_nat (length (reward_tasks w)) = max_concurrency w;
  qt_aborted : aborted_keys w = ∅;
}.

Lemma quiet_running w : quiet w → busy_loop_task w = true → running w.
Proof. intros [? ? ? ?] ?. by split. Qed.

Lemma finish_length id w t : worker_ok w → task_of id w = Some t →
  length (reward_tasks w) = S (length (filter (λ p : nat * WTask, p.1 ≠ id) (reward_tasks w))).
Proof. intros Hok Ht. by rewrite (Permutation_length (task_of_split id w t (wk_ids w Hok) Ht)). Qed.

Lemma quiet_step e w w' t : calm e → quiet w → worker_step e w = Some (w', t) →
  quiet w' ∧ (busy_loop_task w = true ∨ e = WStart → busy_loop_task w' = true).
Proof.
  intros [Hc1 Hc2] [Hok Hs Hsl Ha] Es. pose proof (worker_step_ok e w w' t Hok Es) as (Hok' & _).
  destruct e as [| |rs| |id|id score len|keys]; simpl in Es; try done.
  - injection Es as <- <-. unfold start_busy_loop in *. by destruct (busy_loop_task w) eqn:Hb.
  - unfold add_reward_requests in Es. destruct (_ && _); [done|]. injection Es as <- <-. split; [by split|]. by intros [?|?].
  - unfold launch in Es. rewrite Hs in Es. destruct (busy_loop_task w) eqn:Hb; [|done]. simpl in Es. destruct (held w) as [r|].
    + case_bool_decide; [|done]. injection Es as <- <-. split; [|done]. split; try done. simpl. rewrite length_app. simpl. lia.
    + destruct (pending_reward_queue w) as [|r rest]; [done|].
      destruct (existsb _ _); [|case_bool_decide]; injection Es as <- <-; (split; [|done]); split; try done. simpl. rewrite length_app. simpl. lia.
  - injection Es as <- <-. split; [|by intros [?|?]]. split; try done. simpl. by rewrite length_fmap.
  - unfold finish_task in Es. destruct (task_of id w) as [[r []]|] eqn:Et; [|done|done]. injection Es as <- <-. pose proof (finish_length id w _ Hok Et) as Hlen.
    split; [|intros [?|?]; by destruct score]. split; [done|by destruct score| |by destruct score]. destruct score; simpl in *; lia.
  - by destruct (Hc2 keys).
Qed.

Lemma quiet_run es w : Forall calm es → quiet w → quiet (worker_run es w).1.
Proof. intros Hes. apply worker_run_inv with calm; [|done]. intros e w0 w' t He Hq Es. by destruct (quiet_step e w0 w' t He Hq Es). Qed.

Lemma busy_run es w : Forall calm es → quiet w → busy_loop_task w = true ∨ WStart ∈ es → busy_loop_task (worker_run es w).1 = true.
Proof.
  intros Hes. revert w. induction Hes as [|e es He Hes IH]; intros w Hq Hb; [by destruct Hb as [?|?%elem_of_nil]|]. rewrite worker_run_cons.
  destruct (worker_step e w) as [[w1 t1]|] eqn:Es.
  - destruct (quiet_step e w w1 t1 He Hq Es) as [Hq1 Hb1]. simpl. apply IH; [done|]. destruct Hb as [Hb|[Hb|Hb]%elem_of_cons]; [left; by auto|left; auto|by right].
  - apply IH; [done|]. destruct Hb as [Hb|[<-|Hb]%elem_of_cons]; [by left|done|by right].
Qed.

(** The work that is left: a queued request takes three steps, a held one two. *)
Definition work w : nat := 4 * length (pending_reward_queue w) + 3 * length (option_list (held w)) + 2 * length (reward_tasks w).

Lemma progress_step w : running w → 1 ≤ max_concurrency w → in_flight w ≠ [] →
  ∃ es, Forall progress es ∧ running (worker_run es w).1 ∧ max_concurrency (worker_run es w).1 = max_concurrency w ∧
    (work (worker_run es w).1 < work w)%nat ∧ accepted (worker_run es w).2 = [].
Proof.
  intros [Hok [Hb Hs] Hsl Ha] Hmax Hne.
  assert (quiet w) as Hq by by split.
  assert (∀ es, Forall progress es → running (worker_run es w).1) as Hrun.
  { intros es Hes. assert (Forall calm es) as Hc by (eapply Forall_impl; [exact Hes|]; by intros ? []).
    apply quiet_running; [by apply quiet_run|]. apply busy_run; [done|done|by left]. }
  assert (∀ e w' t, progress e → worker_step e w = Some (w', t) → (work w' < work w)%nat → accepted t = [] →
    ∃ es, Forall progress es ∧ running (worker_run es w).1 ∧ max_concurrency (worker_run es w).1 = max_concurrency w ∧ (work (worker_run es w).1 < work w)%nat ∧ accepted (worker_run es w).2 = []) as Hone.
  { intros e w' t He Es Hw Hacc. exists [e]. assert (Forall progress [e]) as Hf by by constructor. split; [done|]. split; [by apply Hrun|].
    destruct (worker_step_ok e w w' t Hok Es) as (_ & [= Hl _] & _). simpl. rewrite Es. simpl. by rewrite Hacc. }
  destruct (reward_tasks w) as [|[id [r0 st]] tl] eqn:Et.
  - simpl in Hsl. assert (launch w ≠ None) as Hl.
    { unfold launch. rewrite Hb, Hs. simpl. destruct (held w) as [r|] eqn:Eh; [by rewrite bool_decide_true by lia|].
      destruct (pending_reward_queue w) as [|r rest] eqn:Ep; [|by case_match; [|case_match]]. exfalso. apply Hne. unfold in_flight, task_requests. by rewrite Ep, Eh, Et. }
    destruct (launch w) as [[w' rs]|] eqn:El; [|done]. apply (Hone WLaunch w' (mkTrace [] [] [] rs)); [constructor|by simpl; rewrite El| |done].
    unfold launch in El. rewrite Hb, Hs in El. simpl in El. unfold work. destruct (held w) as [r|] eqn:Eh.
    + case_bool_decide; [|done]. injection El as <- <-. simpl. rewrite Et. simpl. lia.
    + destruct (pending_reward_queue w) as [|r rest]; [done|]. destruct (existsb _ _); [|case_bool_decide]; injection El as <- <-; simpl; rewrite ?Eh, ?Et; simpl; lia.
  - exists [WBegin id; WFinish id None 0]. assert (Forall progress [WBegin id; WFinish id None 0]) as Hf by (repeat constructor). split; [done|]. split; [by apply Hrun|].
    rewrite worker_run_cons. simpl worker_step. cbn [fst snd].
    assert (task_of id (begin_task id w) = Some (mkTask r0 true)) as Ht1.
    { destruct (reward_begin_ok id w Hok) as [Hok1 _]. apply (task_of_mapped (id, mkTask r0 true)); [apply Hok1|]. simpl. rewrite Et. simpl. rewrite decide_True by done. apply elem_of_cons. by left. }
    destruct (reward_begin_ok id w Hok) as [Hok1 _]. pose proof (finish_length id (begin_task id w) _ Hok1 Ht1) as Hlen.
    assert (length (reward_tasks (begin_task id w)) = length (reward_tasks w)) as Hlb by (simpl; by rewrite length_fmap).
    rewrite worker_run_cons. simpl worker_step. unfold finish_task. rewrite Ht1. simpl. split; [done|]. split; [|done]. unfold work. simpl in *. lia.
Qed.

Lemma drain w : running w → 1 ≤ max_concurrency w →
  ∃ es, Forall progress es ∧ in_flight (worker_run es w).1 = [] ∧ accepted (worker_run es w).2 = [].
Proof.
  remember (work w) as n eqn:Hn. revert w Hn. induction (lt_wf n) as [n _ IH]. intros w -> Hr Hmax.
  destruct (decide (in_flight w = [])) as [E|Hne]; [by exists []|].
  destruct (progress_step w Hr Hmax Hne) as (es1 & Hp1 & Hr1 & Hm1 & Hw1 & Ha1).
  destruct (IH _ Hw1 _ eq_refl Hr1) as (es2 & Hp2 & Hf2 & Ha2); [by rewrite Hm1|].
  exists (es1 ++ es2). split; [by apply Forall_app|]. rewrite worker_run_app. simpl. by rewrite Ha1, Ha2.
Qed.
End worker.

Lemma new_worker_reward_ok mc qs : 0 ≤ mc → worker_ok (new_worker mc qs).
Proof. intros H. split; simpl; [apply NoDup_nil_2|intros p []%elem_of_nil|lia|lia]. Qed.

(** C15: Whatever requests arrive, end or are aborted and in whatever order, at most
    [max_concurrency] tasks have a slot, at most [queue_size] requests are queued as
    long as the loop is not told to stop, and every request a worker accepted is in
    flight, was answered by exactly one result with its keys and attempt, or was
    dropped; never two of these.  Only an abort that names one of its keys drops a
    request; and a request that is queued when one of its keys is aborted never
    starts any more, nor does one with a running task survive it (when requests
    share no key).  Without aborts and stops nothing gets stuck: turns of the loop
    and ends of tasks lead from every state to one where each accepted request was
    answered. *)
Theorem worker_exactly_once (max_concurrency queue_size : Z) (es : list WEvent) :
  0 ≤ max_concurrency → 0 ≤ queue_size →
  let start := new_worker max_concurrency queue_size in
  let w := (worker_run es start).1 in let t := (worker_run es start).2 in
  Z.of_nat (length (reward_tasks w)) ≤ max_concurrency ∧
  (WStop ∉ es → Z.of_nat (length (pending_reward_queue w)) ≤ queue_size) ∧
  accepted t ≡ₚ finished t ++ dropped t ++ in_flight w ∧ Forall2 answers (finished t) (sent_results t) ∧
  (∀ r, r ∈ dropped t → ∃ k, k ∈ d_keys r ∧ named es k) ∧
  (∀ es1 keys es2 r k, es = es1 ++ WAbort keys :: es2 → k ∈ keys → k ∈ d_keys r → let w1 := (worker_run es1 start).1 in
     r ∈ pending_reward_queue w1 ∨ (r ∈ task_requests w1 ∧ keys_apart (accepted t)) → r ∈ dropped t ∨ r ∈ pending_reward_queue w) ∧
  (1 ≤ max_concurrency → WStart ∈ es → Forall calm es →
     ∃ es', Forall progress es' ∧ finished (worker_run (es ++ es') start).2 ≡ₚ accepted t).
Proof.
  intros Hm Hq start w t. pose proof (new_worker_reward_ok max_concurrency queue_size Hm) as Hok0. fold start in Hok0.
  pose proof (worker_run_ok es start Hok0) as H. unfold w, t. destruct (worker_run es start) as [w' t'] eqn:E. simpl.
  destruct H as ([_ _ Hs Hsl] & Hl & Hp & Hf). injection Hl as Hlm Hlq. simpl in Hlm, Hlq. split_and!; [lia| |exact Hp|done| | |].
  - intros Hns. pose proof (worker_run_inv queue_ok (λ e, e ≠ WStop) es start (λ e w w' t, queue_step e w w' t)) as Hi. rewrite E in Hi. simpl in Hi.
    destruct Hi as [_ Hi]; [|by split|congruence || lia]. apply Forall_forall. by intros e He ->.
  - pose proof (dropped_run (named es) es start) as Hd. rewrite E in Hd. apply Hd; [done|split; simpl|].
    + by intros k id p.
    + by intros k id.
    + by intros p ?%elem_of_nil.
    + by intros k ?%elem_of_empty.
  - intros es1 keys es2 r k -> Hk Hkr Hr. rewrite worker_run_app in E. cbv zeta in E. set (w1 := (worker_run es1 start).1) in *. rewrite worker_run_cons in E.
    set (x := abort_requests keys w1) in *. assert (worker_step (WAbort keys) w1 = Some (x.1, mkTrace [] [] [] x.2)) as Es by (simpl; unfold x; by destruct (abort_requests keys w1)).
    rewrite Es in E. cbn [fst snd] in E. cbv zeta in E. cbn [fst snd] in E. apply pair_eq in E as [<- <-]. simpl.
    destruct (abort_requests_frame keys w1) as (E1 & _ & _ & _ & _ & _ & Hab).
    destruct Hr as [Hr|[Hr Hap]].
    + destruct (queued_run r k es2 x.1) as [Hd|Hd]; [done|unfold x; by rewrite E1|apply Hab; by left| |by right]. left. rewrite !elem_of_app. tauto.
    + left. rewrite !elem_of_app. right. left. simpl in Hap. apply keys_apart_app in Hap as (Hap & _ & _).
      pose proof (worker_run_ok es1 start Hok0) as Hacc. fold w1 in Hap. pose proof (mapped_run es1 start Hok0) as Hmap. fold w1 in Hmap.
      unfold w1 in *. destruct (worker_run es1 start) as [w1' t1'] eqn:E1'. simpl in *. destruct Hacc as (Hok1 & _ & Hp1 & _).
      apply (aborts_mapped keys w1' [] Hok1) with k; [|apply Hmap; [done|by intros p k' ?%elem_of_nil]|done|done|done].
      apply (keys_apart_perm _ _ Hp1) in Hap. rewrite app_assoc in Hap. apply keys_apart_app in Hap as (_ & Hap & _). unfold in_flight in Hap.
      rewrite app_assoc in Hap. by apply keys_apart_app in Hap as (_ & ? & _).
  - intros H1 Hst Hc. assert (quiet start) as Hqs by (split; [done|done|simpl; lia|done]).
    pose proof (quiet_run es start Hc Hqs) as Hqr. pose proof (busy_run es start Hc Hqs ltac:(by right)) as Hbr. rewrite E in Hqr, Hbr. simpl in Hqr, Hbr.
    destruct (drain w') as (es' & Hes' & Hfl & Hacc); [by apply quiet_running|lia|]. exists es'. split; [done|].
    pose proof (worker_run_ok (es ++ es') start Hok0) as H2. pose proof (dropped_run (named (es ++ es')) (es ++ es') start (λ k H, H)) as Hd.
    rewrite worker_run_app, E in *. cbv zeta in *. cbn [fst snd] in *. destruct (worker_run es' w') as [w2 t2]. cbn [fst snd trace_app accepted finished dropped] in *.
    destruct H2 as (_ & _ & Hp2 & _). cbn [trace_app accepted finished dropped] in Hp2. rewrite Hfl, Hacc, !app_nil_r in Hp2. simpl in Hp2.
    rewrite Hp2. destruct (dropped t' ++ dropped t2) as [|r l] eqn:Ed; [by rewrite app_nil_r|]. exfalso.
    destruct (Hd ltac:(split; simpl; [by intros k id p|by intros k id|by intros p ?%elem_of_nil]) ltac:(by intros k ?%elem_of_empty) r) as (k & _ & keys & Hin & _); [apply elem_of_cons; by left|].
    apply elem_of_app in Hin as [Hin|Hin].
    + rewrite Forall_forall in Hc. destruct (Hc _ Hin) as [_ Hno]; by apply (Hno keys).
    + rewrite Forall_forall in Hes'. apply Hes' in Hin. inversion Hin.
Qed.

Lemma worker_exactly_once_witness :
  let r := mkDispatched (mkInput 5 5 1 "math") false ["5"] 1 in let q := mkDispatched (mkInput 6 6 1 "math") false ["6"] 2 in
  let es := [WStart; WAdd [r; q]; WLaunch; WBegin 0; WAbort ["6"]; WFinish 0 None 7; WLaunch] in
  let t := (worker_run es (new_worker 1 4)).2 in
  accepted t = [r; q] ∧ sent_results t = [mkWorkerResult 5 ["5"] false 1 None 7] ∧ accepted t ≡ₚ finished t ++ dropped t ++ in_flight (worker_run es (new_worker 1 4)).1 ∧
  (q ∈ dropped t ∨ q ∈ pending_reward_queue (worker_run es (new_worker 1 4)).1).
Proof.
  intros r q es t. destruct (worker_exactly_once 1 4 es) as (_ & _ & Hp & _ & _ & Ha & _); [discriminate|discriminate|].
  split; [reflexivity|]. split; [reflexivity|]. split; [exact Hp|].
  apply (Ha [WStart; WAdd [r; q]; WLaunch; WBegin 0] ["6"] [WFinish 0 None 7; WLaunch] q "6"); [reflexivity|apply list_elem_of_singleton; reflexivity|apply list_elem_of_singleton; reflexivity|].
  left. apply list_elem_of_singleton. reflexivity.
Defined.

(** ** Slots of the semaphore *)

Definition starved (w : RewardLoopWorker) : Prop := semaphore w = 0 ∧ reward_tasks w = [].

Lemma starved_step e w w' t : starved w → worker_step e w = Some (w', t) → starved w' ∧ sent_results t = [].
Proof.
  intros [Hs Ht]. assert (∀ id, task_of id w = None) as Hnone by (intros id; unfold task_of; by rewrite Ht).
  destruct e as [| |rs| |id|id score len|keys]; simpl.
  - intros [= <- <-]. unfold start_busy_loop. by destruct (busy_loop_task w).
  - intros [= <- <-]. unfold stop_busy_loop. by destruct (busy_loop_task w).
  - unfold add_reward_requests. destruct (_ && _); [done|]. by intros [= <- <-].
  - unfold launch. destruct (negb _); [done|]. destruct (held w); [by rewrite bool_decide_false by lia|].
    destruct (pending_reward_queue w); [destruct (stop_busy_loop_task w); [|done]; by intros [= <- <-]|]. destruct (stop_busy_loop_task w); [by intros [= <- <-]|]. simpl.
    destruct (existsb _ _); [by intros [= <- <-]|]. rewrite bool_decide_false by lia. by intros [= <- <-].
  - intros [= <- <-]. split; [|done]. split; [done|]. simpl. by rewrite Ht.
  - unfold finish_task. by rewrite Hnone.
  - assert (∀ rs, starved (foldl abort_key (w, rs) keys).1) as Hab.
    { assert (∀ v rs, starved v → starved (foldl abort_key (v, rs) keys).1) as Hall; [|intros rs; by apply Hall].
      clear. induction keys as [|k keys IH]; intros v rs [Hs Ht]; [done|]. simpl. unfold abort_key at 2. simpl.
      destruct (request_key_to_task v !! k); [|by apply IH]. unfold cancel_task, task_of. simpl. rewrite Ht. simpl. by apply IH. }
    specialize (Hab []). unfold abort_requests. destruct (foldl abort_key (w, []) keys) as [w1 rs]. by intros [= <- <-].
Qed.

Lemma starved_run es w : starved w → sent_results (worker_run es w).2 = [].
Proof.
  revert w. induction es as [|e es IH]; intros w Hw; simpl; [done|]. destruct (worker_step e w) as [[w1 t1]|] eqn:E; [|by apply IH].
  destruct (starved_step e w w1 t1 Hw E) as [Hw1 Ht1]. specialize (IH w1 Hw1). destruct (worker_run es w1) as [w2 t2]. simpl in *. by rewrite Ht1, IH.
Qed.

(** An abort that reaches a task before its first step loses the task's slot of the
    semaphore.  A worker with one slot never sends a result again, whatever it is
    given afterwards. *)
Theorem early_abort_starves_worker (r : Dispatched) (key : string) (queue_size : Z) (es : list WEvent) :
  d_keys r = [key] → 1 ≤ queue_size →
  let w := (worker_run [WStart; WAdd [r]; WLaunch; WAbort [key]] (new_worker 1 queue_size)).1 in
  reward_tasks w = [] ∧ semaphore w = 0 ∧ sent_results (worker_run es w).2 = [].
Proof.
  intros Hk Hq w. assert (starved w) as Hw.
  { unfold w. simpl. unfold add_reward_requests. simpl. rewrite bool_decide_false by lia. simpl. unfold launch. simpl. rewrite Hk. simpl. rewrite ?bool_decide_false by set_solver. simpl.
    unfold start_task. simpl. rewrite Hk. simpl. unfold abort_requests. simpl. unfold abort_key. simpl. rewrite lookup_insert_eq. by vm_compute. }
  split; [apply Hw|]. split; [apply Hw|]. by apply starved_run.
Qed.

(** A batch larger than the queue is refused by every poll until the loop is to stop. *)
Theorem oversized_batch_waits_forever (rs : list Dispatched) (w : RewardLoopWorker) :
  queue_size w < Z.of_nat (length rs) → stop_busy_loop_task w = false → add_reward_requests rs w = None.
Proof. intros Hl Hs. unfold add_reward_requests. by rewrite bool_decide_true, Hs by lia. Qed.

(** ** Reward functions *)

Section resolve.
Context {Mgr : Type} (load : RewardModelConfig → option string → Mgr) (has_model : option string → bool).

(** A sample always gets a registered reward function when there is one, and the
    one it asks for when its specification is registered. *)
Lemma resolve_registered (d : list (RewardSpec * Mgr)) r :
  d ≠ [] → ∃ spec m, resolve_one d r = (spec, Some m) ∧ (spec, m) ∈ d ∧ (requested_spec r ∈ d.*1 → spec = requested_spec r).
Proof.
  intros Hd. unfold resolve_one. destruct (find_first _ d) as [i|] eqn:E.
  - apply find_first_Some in E as [([s m] & Hi & Hs) _]. simpl in Hs. subst s. rewrite Hi. eexists _, m. split; [done|]. split; [by eapply list_elem_of_lookup_2|done].
  - assert (requested_spec r ∉ d.*1) as Hno.
    { intros (x & Hx & (i & Hi)%list_elem_of_lookup)%list_elem_of_fmap. by destruct (proj1 (find_first_None _ d) E i x Hi). }
    destruct (filter _ d) as [|[s m] l] eqn:Ef.
    + destruct d as [|[s m] d]; [done|]. exists s, m. split; [done|]. split; [apply elem_of_cons; by left|done].
    + exists s, m. split; [done|]. split; [|done]. assert ((s, m) ∈ (s, m) :: l) as Hin by (apply elem_of_cons; by left). rewrite <-Ef in Hin. by apply list_elem_of_filter in Hin as [_ ?].
Qed.
End resolve.

(** A reward without a model is registered under the model name ["null"] but looked
    up under [None], so that its specification is never found: of two functions of
    the same type the first one scores the samples of the second. *)
Theorem modelless_reward_gets_first :
  let cs := [mkModelConfig "naive" None [Some "math"; Some "code"]] in
  let r := mkModelDict (Some (RawOne (FnString "code"))) (Some "null") (Some "naive") None in
  ∃ d, init_reward_fn (λ _ fn, fn) (λ _, false) cs = inr d ∧ resolve_one d r = (mkSpec "naive" "math" (Some "null"), Some (Some "math")).
Proof. eexists. split; [vm_compute; reflexivity|]. vm_compute. reflexivity. Qed.
