(* ===== verification/RewardManager.v ===== *)
(** * Reward manager

    [RewardLoopManager] ([psrl/workers/reward/reward_manager.py]) sends finished
    rollouts to the reward-loop workers, matches the results that come back with the
    attempts it waits for, and hands the rewards to whoever asks for them, before or
    after they are computed.

    The request-status tracker it reports to is the model of
    [RequestStatusTracker.v].  A handler that awaits is cut at the await, or takes
    [env], what others do meanwhile.  Futures are numbers, as in [AgentLoop.v]. *)

From S2P Require Import Prelude.
From S2P Require Import StalenessBuffer.
From S2P Require Import TransferQueue.
From S2P Require Import RequestStatusTracker.
From S2P Require Import PyFloat.
From S2P Require Import PyData.
From S2P Require Import RewardWorker.

#[local] Open Scope Z_scope.

(** ** State *)

(** A stored reward; [None] where the computation failed or was aborted. *)
Record Reward := mkReward { r_score : Score; response_len : Z }.

Definition default_reward_result : Reward := mkReward (mkScore fzero 0%N) 1.

(** The rewards a score is normalised with. *)
Inductive RewardGroup := BySource (s : string) | ByPrompt (p : Z).
Inductive Normalization := NormBatch | NormGroup | NormOther.

Record RewardConfig := mkRewardConfig {
  rw_rollout_n : Z;
  rw_val_rollout_n : Z;
  rw_num_workers : Z;
  rw_async : bool;
  rw_normalization : option Normalization;
}.

Record RewardLoopManager := mkRewardManager {
  request_id_to_n_trajectory : gmap Z Z;
  request_key_to_future : gmap string nat;
  request_key_to_reward : gmap string (option Reward);
  request_id_to_data_source : gmap Z string;
  request_id_to_request_keys : gmap Z (list string);
  request_key_to_worker : gmap string Z;
  request_key_to_attempt : gmap string Z;
  request_id_to_group : gmap Z RewardGroup;
  rw_dispatch_idx : Z;
  attempt_counter : Z;
  dispatch_queue : list Dispatched;
  rw_futures : gmap nat (option Reward);
  rw_next_future : nat;
}.

Definition new_reward_manager : RewardLoopManager := mkRewardManager ∅ ∅ ∅ ∅ ∅ ∅ ∅ ∅ 0 0 [] ∅ 0.

Definition with_n_trajectory v0 m := mkRewardManager v0 (request_key_to_future m) (request_key_to_reward m) (request_id_to_data_source m) (request_id_to_request_keys m) (request_key_to_worker m) (request_key_to_attempt m) (request_id_to_group m) (rw_dispatch_idx m) (attempt_counter m) (dispatch_queue m) (rw_futures m) (rw_next_future m).
Definition with_future v0 m := mkRewardManager (request_id_to_n_trajectory m) v0 (request_key_to_reward m) (request_id_to_data_source m) (request_id_to_request_keys m) (request_key_to_worker m) (request_key_to_attempt m) (request_id_to_group m) (rw_dispatch_idx m) (attempt_counter m) (dispatch_queue m) (rw_futures m) (rw_next_future m).
Definition with_reward v0 m := mkRewardManager (request_id_to_n_trajectory m) (request_key_to_future m) v0 (request_id_to_data_source m) (request_id_to_request_keys m) (request_key_to_worker m) (request_key_to_attempt m) (request_id_to_group m) (rw_dispatch_idx m) (attempt_counter m) (dispatch_queue m) (rw_futures m) (rw_next_future m).
Definition with_data_source v0 m := mkRewardManager (request_id_to_n_trajectory m) (request_key_to_future m) (request_key_to_reward m) v0 (request_id_to_request_keys m) (request_key_to_worker m) (request_key_to_attempt m) (request_id_to_group m) (rw_dispatch_idx m) (attempt_counter m) (dispatch_queue m) (rw_futures m) (rw_next_future m).
Definition with_request_keys v0 m := mkRewardManager (request_id_to_n_trajectory m) (request_key_to_future m) (request_key_to_reward m) (request_id_to_data_source m) v0 (request_key_to_worker m) (request_key_to_attempt m) (request_id_to_group m) (rw_dispatch_idx m) (attempt_counter m) (dispatch_queue m) (rw_futures m) (rw_next_future m).
Definition with_key_worker v0 m := mkRewardManager (request_id_to_n_trajectory m) (request_key_to_future m) (request_key_to_reward m) (request_id_to_data_source m) (request_id_to_request_keys m) v0 (request_key_to_attempt m) (request_id_to_group m) (rw_dispatch_idx m) (attempt_counter m) (dispatch_queue m) (rw_futures m) (rw_next_future m).
Definition with_key_attempt v0 m := mkRewardManager (request_id_to_n_trajectory m) (request_key_to_future m) (request_key_to_reward m) (request_id_to_data_source m) (request_id_to_request_keys m) (request_key_to_worker m) v0 (request_id_to_group m) (rw_dispatch_idx m) (attempt_counter m) (dispatch_queue m) (rw_futures m) (rw_next_future m).
Definition with_request_group v0 m := mkRewardManager (request_id_to_n_trajectory m) (request_key_to_future m) (request_key_to_reward m) (request_id_to_data_source m) (request_id_to_request_keys m) (request_key_to_worker m) (request_key_to_attempt m) v0 (rw_dispatch_idx m) (attempt_counter m) (dispatch_queue m) (rw_futures m) (rw_next_future m).
Definition with_rw_idx v0 m := mkRewardManager (request_id_to_n_trajectory m) (request_key_to_future m) (request_key_to_reward m) (request_id_to_data_source m) (request_id_to_request_keys m) (request_key_to_worker m) (request_key_to_attempt m) (request_id_to_group m) v0 (attempt_counter m) (dispatch_queue m) (rw_futures m) (rw_next_future m).
Definition with_attempts v0 m := mkRewardManager (request_id_to_n_trajectory m) (request_key_to_future m) (request_key_to_reward m) (request_id_to_data_source m) (request_id_to_request_keys m) (request_key_to_worker m) (request_key_to_attempt m) (request_id_to_group m) (rw_dispatch_idx m) v0 (dispatch_queue m) (rw_futures m) (rw_next_future m).
Definition with_dispatch_queue v0 m := mkRewardManager (request_id_to_n_trajectory m) (request_key_to_future m) (request_key_to_reward m) (request_id_to_data_source m) (request_id_to_request_keys m) (request_key_to_worker m) (request_key_to_attempt m) (request_id_to_group m) (rw_dispatch_idx m) (attempt_counter m) v0 (rw_futures m) (rw_next_future m).
Definition with_rw_futures v0 v1 m := mkRewardManager (request_id_to_n_trajectory m) (request_key_to_future m) (request_key_to_reward m) (request_id_to_data_source m) (request_id_to_request_keys m) (request_key_to_worker m) (request_key_to_attempt m) (request_id_to_group m) (rw_dispatch_idx m) (attempt_counter m) (dispatch_queue m) v0 v1.

(** What the manager sends to its workers or starts on its own. *)
Inductive WorkerMsg :=
  | AddRewardRequests (worker : Z) (rs : list Dispatched)
  | AbortKeys (worker : Z) (keys : list string)
  | LaunchReward (i : RewardInput).       (* a task of the manager itself *)

Record RewardWorld := mkRewardWorld { man : RewardLoopManager; rtracker : RequestStatusTracker; messages : list WorkerMsg }.

Definition set_man v w := mkRewardWorld v (rtracker w) (messages w).
Definition set_rtracker v w := mkRewardWorld (man w) v (messages w).
Definition set_messages v w := mkRewardWorld (man w) (rtracker w) v.

Abbreviation Rm := (M RewardLoopManager).
Abbreviation Rw := (M RewardWorld).

Definition on_man {A} (m : Rm A) : Rw A := zoom man set_man m.
Definition on_rtracker {A} (m : Trk A) : Rw A := zoom rtracker set_rtracker m.
Definition tell (msg : WorkerMsg) : Rw unit := modify (λ w, set_messages (messages w ++ [msg]) w).

(** ** Futures and keys *)

Definition new_future (key : string) : Rm nat :=
  fut ← gets rw_next_future;
  modify (λ m, with_rw_futures (rw_futures m) (S fut) m) ;;
  modify (λ m, with_future (<[key := fut]> (request_key_to_future m)) m) ;;
  mret fut.

Definition is_done (fut : nat) (m : RewardLoopManager) : bool := bool_decide (is_Some (rw_futures m !! fut)).

(** [if not fut.done(): fut.set_result(r)] *)
Definition settle_future (fut : nat) (r : option Reward) (m : RewardLoopManager) : RewardLoopManager :=
  if is_done fut m then m else with_rw_futures (<[fut := r]> (rw_futures m)) (rw_next_future m) m.

Definition reward_keys (request_id n_trajectory : Z) : list string :=
  if bool_decide (1 < n_trajectory) then (λ i, pretty request_id +:+ "_" +:+ pretty i) <$> zrange 0 n_trajectory else [pretty request_id].

(** ** Sending requests to the workers *)

(** One request that was accepted or refused by the tracker. *)
Definition register_key (ok : bool) (attempt : Z) (key : string) : Rm unit :=
  m ← gets id;
  if ok then
    (if match request_key_to_future m !! key with Some fut => is_done fut m | None => true end
     then new_future key ;; mret tt else mret tt) ;;
    modify (λ m, with_key_attempt (<[key := attempt]> (request_key_to_attempt m)) m)
  else
    modify (λ m, with_reward (<[key := None]> (request_key_to_reward m))
      (match request_key_to_future m !! key with
       | Some fut => settle_future fut None (with_future (delete key (request_key_to_future m)) m)
       | None => m
       end)).

Definition group_of (cfg : RewardConfig) (is_validate : bool) (i : RewardInput) : option RewardGroup :=
  let n := if is_validate then rw_val_rollout_n cfg else rw_rollout_n cfg in
  match rw_normalization cfg with
  | Some NormBatch => Some (BySource (i_data_source i))
  | Some NormGroup => Some (ByPrompt (if bool_decide (1 < n) then i_parent_id i else i_uid i))
  | _ => None
  end.

Definition register_request (cfg : RewardConfig) (is_validate : bool) (i : RewardInput) (ok : bool) : Rm (list Dispatched) :=
  let keys := reward_keys (i_uid i) (i_n_trajectory i) in
  modify (λ m, with_n_trajectory (<[i_uid i := i_n_trajectory i]> (request_id_to_n_trajectory m)) m) ;;
  modify (λ m, with_request_keys (<[i_uid i := keys]> (request_id_to_request_keys m)) m) ;;
  modify (λ m, match group_of cfg is_validate i with Some g => with_request_group (<[i_uid i := g]> (request_id_to_group m)) m | None => m end) ;;
  modify (λ m, with_data_source (<[i_uid i := i_data_source i]> (request_id_to_data_source m)) m) ;;
  modify (λ m, with_attempts (attempt_counter m + 1) m) ;;
  attempt ← gets attempt_counter;
  for_each keys (register_key ok attempt) ;;
  mret (if ok then [mkDispatched i is_validate keys attempt] else []).

(** Requests go to the workers in turn; the keys remember their worker. *)
Definition place_request (cfg : RewardConfig) (r : Dispatched) (by_worker : list (Z * list Dispatched)) : Rm (list (Z * list Dispatched)) :=
  m ← gets id;
  let worker := rw_dispatch_idx m mod rw_num_workers cfg in
  modify (λ m, with_rw_idx (rw_dispatch_idx m + 1) m) ;;
  modify (λ m, with_key_worker (foldl (λ d k, <[k := worker]> d) (request_key_to_worker m) (d_keys r)) m) ;;
  mret (dict_set worker (default [] (assoc worker by_worker) ++ [r]) by_worker).

Definition dispatch_reward_requests (cfg : RewardConfig) (rs : list Dispatched) : Rw unit :=
  (if bool_decide (rw_num_workers cfg = 0) && negb (bool_decide (rs = [])) then raise ZeroDivisionError else mret tt) ;;
  by_worker ← on_man (fold_each rs [] (place_request cfg));
  for_each by_worker (λ '(worker, rs), tell (AddRewardRequests worker rs)).

(** One turn of [_dispatch_loop]. *)
Definition dispatch_round (cfg : RewardConfig) : Rw unit :=
  w ← gets id;
  on_man (modify (with_dispatch_queue [])) ;;
  if bool_decide (dispatch_queue (man w) = []) then mret tt else dispatch_reward_requests cfg (dispatch_queue (man w)).

Section ops.
Context `{SetOrder} (cfg : RewardConfig) (env : RewardWorld → RewardWorld).

Definition update_status (ids : list Z) (st : RequestStatus.t) (is_validate : bool) : Rw (list bool) :=
  modify env ;;
  r ← on_rtracker (update_request_status (Many ids) (One st) (One (-1)) (One INVALID_ROLLOUT_INSTANCE_ID) is_validate);
  mret (match r with One b => [b] | Many l => l end).

(** [compute_score] up to the point where the synchronous mode waits: the keys it
    waits for. *)
Definition compute_score (inputs : list RewardInput) (is_validate : bool) : Rw (list string) :=
  oks ← update_status (i_uid <$> inputs) RequestStatus.REWARD_RUNNING is_validate;
  items ← on_man (fold_each (zip inputs oks) [] (λ '(i, ok) items, new ← register_request cfg is_validate i ok; mret (items ++ new)));
  (if bool_decide (items = []) then mret tt
   else if rw_async cfg then on_man (modify (λ m, with_dispatch_queue (dispatch_queue m ++ items) m))
   else modify env ;; dispatch_reward_requests cfg items) ;;
  mret (if rw_async cfg then []
        else match items with
             | r :: _ => d_keys r
             | [] => concat ((λ x : RewardInput * bool, reward_keys (i_uid x.1) (i_n_trajectory x.1)) <$> zip inputs oks)
             end).

(** One key of the synchronous wait; [None] while its future is not done. *)
Definition sync_take (key : string) : Rm (option (option Reward)) :=
  m ← gets id;
  match request_key_to_reward m !! key with
  | Some r => modify (λ m, with_reward (delete key (request_key_to_reward m)) m) ;; mret (Some r)
  | None =>
      fut ← of_option KeyError (request_key_to_future m !! key);
      match rw_futures m !! fut with
      | Some r => modify (λ m, with_future (delete key (request_key_to_future m)) m) ;; mret (Some r)
      | None => mret None
      end
  end.

(** ** Results *)

Definition set_reward_for_key (r : option Reward) (key : string) : Rm unit :=
  modify (λ m, with_key_attempt (delete key (request_key_to_attempt m)) m) ;;
  modify (λ m, with_key_worker (delete key (request_key_to_worker m)) m) ;;
  modify (λ m, match request_key_to_future m !! key with
               | Some fut => settle_future fut r m
               | None => with_reward (<[key := r]> (request_key_to_reward m)) m
               end).

Definition set_reward_for_request_keys (keys : list string) (r : option Reward) : Rm unit := for_each keys (set_reward_for_key r).

Definition set_reward_for_requests (rewards : list (string * option Reward)) : Rm unit :=
  for_each rewards (λ '(key, r), modify (λ m,
    match request_key_to_future m !! key with
    | Some fut => settle_future fut r m
    | None => with_reward (<[key := r]> (request_key_to_reward m)) m
    end)).

(** The end of [_async_reward_task]. *)
Definition async_reward_task (i : RewardInput) (score : Score) (len : Z) : Rm unit :=
  set_reward_for_requests ((λ k, (k, Some (mkReward score len))) <$> reward_keys (i_uid i) (i_n_trajectory i)).

(** [compute_score_local]: without workers.  [score] is what the reward functions
    answer; in the synchronous mode the last request's score is returned.  The
    answer for several requests is a list, which is true unless it is empty. *)
Definition local_request (score : RewardInput → Score) (is_validate : bool) (i : RewardInput) (result : option Score) : Rw (option Score) :=
  on_man (modify (λ m, match group_of cfg is_validate i with Some g => with_request_group (<[i_uid i := g]> (request_id_to_group m)) m | None => m end)) ;;
  on_man (modify (λ m, with_data_source (<[i_uid i := i_data_source i]> (request_id_to_data_source m)) m)) ;;
  if rw_async cfg then tell (LaunchReward i) ;; mret result
  else
    modify env ;;
    oks ← update_status [i_uid i] RequestStatus.REWARD_COMPLETED is_validate;
    mret (if bool_decide (oks = [true]) then Some (score i) else None).

Definition compute_score_local (score : RewardInput → Score) (inputs : list RewardInput) (is_validate : bool) : Rw (option Score) :=
  on_man (for_each inputs (λ i, modify (λ m, with_n_trajectory (<[i_uid i := i_n_trajectory i]> (request_id_to_n_trajectory m)) m))) ;;
  oks ← update_status (i_uid <$> inputs) RequestStatus.REWARD_RUNNING is_validate;
  if bool_decide (oks = [] ∨ oks = [false]) then
    on_man (for_each (concat ((λ i, reward_keys (i_uid i) (i_n_trajectory i)) <$> inputs))
      (λ k, modify (λ m, with_reward (<[k := None]> (request_key_to_reward m)) m))) ;;
    mret None
  else fold_each inputs None (local_request score is_validate).

(** A result counts when it is of the attempt its first key waits for. *)
Definition is_current (m : RewardLoopManager) (x : WorkerResult) : bool :=
  match w_keys x with [] => false | key :: _ => bool_decide (request_key_to_attempt m !! key = Some (w_attempt x)) end.

Definition reward_of (x : WorkerResult) : option Reward := (λ s, mkReward s (w_response_len x)) <$> w_score x.

Definition handle_group (valid : list WorkerResult) (is_validate : bool) : Rw unit :=
  let group := filter (λ x, w_is_validate x = is_validate) valid in
  if bool_decide (group = []) then mret tt
  else
    update_status (w_uid <$> group) RequestStatus.REWARD_COMPLETED is_validate ;;
    on_man (for_each group (λ x, set_reward_for_request_keys (w_keys x) (reward_of x))).

Definition handle_reward_results (results : list WorkerResult) : Rw unit :=
  w ← gets id;
  let valid := filter (λ x, is_current (man w) x = true) results in
  handle_group valid false ;;
  handle_group valid true.

(** ** Aborts *)

(** One key of an aborted request: the worker that may have it is noted. *)
Definition abort_reward_key (key : string) (acc : Z * list (Z * list string)) : Rm (Z * list (Z * list string)) :=
  let '(count, by_worker) := acc in
  m ← gets id;
  modify (λ m, with_key_attempt (delete key (request_key_to_attempt m)) m) ;;
  modify (λ m, with_key_worker (delete key (request_key_to_worker m)) m) ;;
  let by_worker := match request_key_to_worker m !! key with
                   | Some worker => dict_set worker (default [] (assoc worker by_worker) ++ [key]) by_worker
                   | None => by_worker
                   end in
  modify (λ m, with_reward (<[key := None]> (request_key_to_reward m))
    (match request_key_to_future m !! key with
     | Some fut => settle_future fut None (with_future (delete key (request_key_to_future m)) m)
     | None => m
     end)) ;;
  mret (match request_key_to_future m !! key with
        | Some fut => if is_done fut m then count else count + 1
        | None => count
        end, by_worker).

Definition abort_reward_request (x : Z) (acc : Z * list (Z * list string)) : Rm (Z * list (Z * list string)) :=
  m ← gets id;
  modify (λ m, with_n_trajectory (delete x (request_id_to_n_trajectory m)) m) ;;
  fold_each (reward_keys x (default 1 (request_id_to_n_trajectory m !! x))) acc abort_reward_key.

(** The [ABORT] command of the command loop; it answers how many computations it
    ended.  [parents] are the parent ids, whose recorded children are aborted. *)
Definition handle_abort (parents uids : option (list Z)) (is_validate : bool) : Rw Z :=
  assert (negb is_validate) ;;
  (if bool_decide (parents = None ∧ uids = None) then raise ValueError else mret tt) ;;
  children ← (match parents with
              | Some ps => modify env ;; w ← gets id; mret (get_recorded_child_requests ps is_validate (rtracker w))
              | None => mret ∅
              end);
  let ids := children ∪ list_to_set (default [] uids) : gset Z in
  on_man (for_each (set_iter ids) (λ x,
    modify (λ m, with_request_group (delete x (request_id_to_group m)) m) ;;
    modify (λ m, with_data_source (delete x (request_id_to_data_source m)) m))) ;;
  '(count, by_worker) ← on_man (fold_each (set_iter ids) (0, []) abort_reward_request);
  for_each by_worker (λ '(worker, keys), tell (AbortKeys worker keys)) ;;
  (if bool_decide (by_worker = []) then mret tt else modify env) ;;
  oks ← update_status (set_iter ids) RequestStatus.REWARD_COMPLETED is_validate;
  assert (forallb negb oks) ;;
  mret count.

(** ** Waiting for rewards *)

(** A key of a batch, whether it is padding and whether its reward is in place. *)
Record BatchKey := mkBatchKey { b_key : string; b_uid : Z; b_padding : bool; b_reward_ready : bool }.

(** What a waiter has and what it waits for. *)
Record Waiter := mkWaiter { keys_to_put : list string; got : gmap string (option Reward); waiting : list (string * nat) }.

Definition wait_key (k : BatchKey) (wt : Waiter) : Rm Waiter :=
  let key := b_key k in
  let have r := mret (mkWaiter (keys_to_put wt ++ [key]) (<[key := r]> (got wt)) (waiting wt)) : Rm Waiter in
  let wait fut := mret (mkWaiter (keys_to_put wt ++ [key]) (got wt) (dict_set key fut (waiting wt))) : Rm Waiter in
  m ← gets id;
  if b_padding k then have (Some default_reward_result)
  else
    match request_key_to_reward m !! key, request_key_to_future m !! key with
    | Some r, _ => modify (λ m, with_reward (delete key (request_key_to_reward m)) m) ;; have r
    | None, Some fut => wait fut
    | None, None => fut ← new_future key; wait fut
    end.

Definition wait_register (is_validate : bool) (batch : list BatchKey) : Rm Waiter :=
  fold_each (filter (λ k, negb is_validate && b_reward_ready k = false) batch) (mkWaiter [] ∅ []) wait_key.

(** [rm_scores]: zeros up to the last token, which has the score. *)
Definition rm_scores (r : Reward) : list float :=
  replicate (Z.to_nat (Z.max (response_len r) 1) - 1) fzero ++ [reward_score (r_score r)].

(** The rest once every future is done, [None] while one is not: the fields that
    are written. *)
Definition wait_finish (wt : Waiter) : Rm (option (list (string * (Score * list float)))) :=
  m ← gets id;
  match mapM (λ x : string * nat, (λ r, (x.1, r)) <$> rw_futures m !! x.2) (waiting wt) with
  | None => mret None
  | Some late =>
      let rewards := foldl (λ d x, <[x.1 := x.2]> d) (got wt) late in
      modify (λ m, with_future (foldl (λ d k, delete k d) (request_key_to_future m) (keys_to_put wt)) m) ;;
      mret (Some ((λ k, let r := default default_reward_result (default None (rewards !! k)) in (k, (r_score r, rm_scores r))) <$> keys_to_put wt))
  end.

(** The variant for group post-processing leaves what it reads in place until the
    fields are written. *)
Definition ready_key (key : string) (wt : Waiter) : Rm Waiter :=
  let have r := mret (mkWaiter (keys_to_put wt) (<[key := r]> (got wt)) (waiting wt)) : Rm Waiter in
  let wait fut := mret (mkWaiter (keys_to_put wt) (got wt) (dict_set key fut (waiting wt))) : Rm Waiter in
  m ← gets id;
  match request_key_to_reward m !! key, request_key_to_future m !! key with
  | Some r, _ => have r
  | None, Some fut => match rw_futures m !! fut with Some r => have r | None => wait fut end
  | None, None => fut ← new_future key; wait fut
  end.

Definition ready_register (keys : list string) : Rm Waiter := fold_each keys (mkWaiter keys ∅ []) ready_key.

Definition ready_finish (wt : Waiter) : Rm (option (list (string * (Score * list float)))) :=
  m ← gets id;
  match mapM (λ x : string * nat, (λ r, (x.1, r)) <$> rw_futures m !! x.2) (waiting wt) with
  | None => mret None
  | Some late =>
      let rewards := foldl (λ d x, <[x.1 := x.2]> d) (got wt) late in
      modify (λ m, with_reward (foldl (λ d k, delete k d) (request_key_to_reward m) (keys_to_put wt))
        (with_future (foldl (λ d k, delete k d) (request_key_to_future m) (keys_to_put wt)) m)) ;;
      mret (Some ((λ k, let r := default default_reward_result (default None (rewards !! k)) in (k, (r_score r, rm_scores r))) <$> keys_to_put wt))
  end.

(** ** Normalisation *)

(** [key.rsplit("_", 1)] *)
Fixpoint split_last (s : string) : option (string * string) :=
  match s with
  | EmptyString => None
  | String c s =>
      match split_last s with
      | Some (a, b) => Some (String c a, b)
      | None => if bool_decide (c = Ascii.ascii_of_N 95) then Some ("", s) else None
      end
  end.

(** The last trajectory of each session, with its uid. *)
Definition final_trajectory (k : BatchKey) (d : list (string * (Z * Z))) : Res (list (string * (Z * Z))) :=
  match split_last (b_key k) with
  | Some (session, suffix) =>
      match py_int suffix with
      | None => inl ValueError
      | Some index =>
          inr (if bool_decide (default (index - 1) (fst <$> assoc session d) < index) then dict_set session (index, b_uid k) d else d)
      end
  | None => inr (dict_set (b_key k) (0, b_uid k) d)
  end.

(** The sources of the batch are taken out, a missing one raises; a mode that is
    not one of the two stops there.  Otherwise the groups are taken out and the
    scores computed, and then the answer of [async_kv_batch_get], a coroutine that
    is not awaited yet, is subscripted. *)
Definition normalize_reward (batch : list BatchKey) : Rm unit :=
  for_each (set_iter (list_to_set (b_uid <$> batch))) (λ x,
    m ← gets id;
    of_option KeyError (request_id_to_data_source m !! x) ;;
    modify (λ m, with_data_source (delete x (request_id_to_data_source m)) m)) ;;
  match rw_normalization cfg with
  | Some NormBatch | Some NormGroup =>
      final ← of_res (foldl_res final_trajectory batch []);
      for_each final.*2.*2 (λ x, modify (λ m, with_request_group (delete x (request_id_to_group m)) m)) ;;
      raise TypeError
  | _ => mret tt
  end.

(** The end of [wait_for_reward_of_requests]. *)
Definition wait_for_reward_of_requests (is_validate : bool) (batch : list BatchKey) (wt : Waiter) : Rm (option (list (string * (Score * list float)))) :=
  r ← wait_finish wt;
  match r with
  | None => mret None
  | Some fields =>
      (if negb is_validate && match rw_normalization cfg with Some _ => true | None => false end then normalize_reward batch else mret tt) ;;
      mret (Some fields)
  end.
End ops.
