(* ===== verification/RewardTheorems.v ===== *)
(** * Reward manager: theorems

    A reward reaches whoever waits for it whatever comes first, an outdated result
    never does, and an abort ends every wait ([RewardManager.v]). *)

From S2P Require Import Prelude.
From S2P Require Import StalenessBuffer.
From S2P Require Import TransferQueue.
From S2P Require Import RequestStatusTracker.
From S2P Require Import PyFloat.
From S2P Require Import PyData.
From S2P Require Import RewardWorker.
From S2P Require Import RewardManager.

#[local] Open Scope Z_scope.

Section rewards.
Implicit Types (m : RewardLoopManager) (k : string) (f : nat).

(** Different keys have different futures, and numbers are used once. *)
Record futures_ok m : Prop := {
  fo_inj k k' f : request_key_to_future m !! k = Some f → request_key_to_future m !! k' = Some f → k = k';
  fo_key k f : request_key_to_future m !! k = Some f → (f < rw_next_future m)%nat;
  fo_done f r : rw_futures m !! f = Some r → (f < rw_next_future m)%nat;
}.

(** ** A reward arrives *)

Definition arrive (rs : string → option Reward) (keys : list string) : Rm unit := for_each keys (λ k, set_reward_for_key (rs k) k).

(** What the arrivals leave: pending futures are settled, other keys stored. *)
Record arrived (rs : string → option Reward) (keys : list string) m m' : Prop := {
  ar_future : request_key_to_future m' = request_key_to_future m;
  ar_next : rw_next_future m' = rw_next_future m;
  ar_reward k : request_key_to_reward m' !! k =
    if decide (k ∈ keys ∧ request_key_to_future m !! k = None) then Some (rs k) else request_key_to_reward m !! k;
  ar_settled k f : request_key_to_future m !! k = Some f → rw_futures m !! f = None →
    rw_futures m' !! f = if decide (k ∈ keys) then Some (rs k) else None;
  ar_kept f r : rw_futures m !! f = Some r → rw_futures m' !! f = Some r;
  ar_ok : futures_ok m';
}.

Lemma key_reward_run r k m :
  ∃ m', set_reward_for_key r k m = Ret tt m' ∧ request_key_to_future m' = request_key_to_future m ∧ rw_next_future m' = rw_next_future m ∧
    request_key_to_reward m' = match request_key_to_future m !! k with Some _ => request_key_to_reward m | None => <[k := r]> (request_key_to_reward m) end ∧
    rw_futures m' = match request_key_to_future m !! k with
                    | Some f => match rw_futures m !! f with Some _ => rw_futures m | None => <[f := r]> (rw_futures m) end
                    | None => rw_futures m end.
Proof.
  unfold set_reward_for_key. eexists. split; [mrun; reflexivity|]. cbn [request_key_to_future with_key_worker with_key_attempt].
  destruct (request_key_to_future m !! k) as [f|] eqn:Ef; [|simpl; by rewrite ?Ef].
  unfold settle_future, is_done. simpl. destruct (rw_futures m !! f) eqn:E; simpl; by rewrite ?Ef, ?E.
Qed.

Lemma arrive_run rs keys m : futures_ok m → ∃ m', arrive rs keys m = Ret tt m' ∧ arrived rs keys m m'.
Proof.
  revert m. induction keys as [|k keys IH]; intros m Hok.
  { exists m. split; [done|]. split; [done|done| | |done|done]; intros; rewrite decide_False; [done| |done|]; [intros [[]%not_elem_of_nil _]|apply not_elem_of_nil]. }
  destruct (key_reward_run (rs k) k m) as (m1 & E1 & Hf1 & Hn1 & Hr1 & Hs1).
  assert (futures_ok m1) as Hok1.
  { destruct Hok as [Hi Hk Hd]. split; rewrite ?Hf1, ?Hn1; [done|done|]. rewrite Hs1. intros f r.
    destruct (request_key_to_future m !! k) as [g|] eqn:Eg; [|apply Hd]. destruct (rw_futures m !! g); [apply Hd|].
    rewrite lookup_insert. case_decide as Hfg; [intros _; subst; by apply (Hk k)|apply Hd]. }
  destruct (IH m1 Hok1) as (m2 & E2 & [Hf2 Hn2 Hr2 Hs2 Hk2 Hok2]). exists m2. unfold arrive. simpl. rewrite (run_bind _ _ _ _ _ E1).
  split; [exact E2|]. split; [congruence|congruence| | | |done].
  - intros k'. rewrite Hr2, Hr1.
    rewrite (decide_ext (k' ∈ keys ∧ request_key_to_future m1 !! k' = None) (k' ∈ keys ∧ request_key_to_future m !! k' = None)) by (by rewrite Hf1).
    rewrite (decide_ext (k' ∈ k :: keys ∧ _) ((k' = k ∨ k' ∈ keys) ∧ request_key_to_future m !! k' = None)) by (by rewrite elem_of_cons).
    destruct (decide (k' = k)) as [->|Hne].
    + destruct (request_key_to_future m !! k) eqn:Ef; [by rewrite !decide_False by naive_solver|]. rewrite (decide_True (P := (_ ∨ _) ∧ _)) by naive_solver.
      case_decide; [done|]. apply lookup_insert_eq.
    + assert ((match request_key_to_future m !! k with Some _ => request_key_to_reward m | None => <[k := rs k]> (request_key_to_reward m) end) !! k' = request_key_to_reward m !! k') as ->.
      { destruct (request_key_to_future m !! k); [done|]. by apply lookup_insert_ne. }
      apply decide_ext. naive_solver.
  - intros k' f Hk' Hp. assert (rw_futures m1 !! f = if decide (k' = k) then Some (rs k) else None) as H1.
    { rewrite Hs1. case_decide as Hkk; [subst; by rewrite Hk', Hp, lookup_insert_eq|]. destruct (request_key_to_future m !! k) as [g|] eqn:Eg; [|done].
      destruct (rw_futures m !! g); [done|]. rewrite lookup_insert_ne; [done|]. intros ->. apply Hkk. by apply (fo_inj m Hok k' k f). }
    destruct (decide (k' = k)) as [->|Hne].
    + rewrite decide_True by (apply elem_of_cons; by left). by apply Hk2.
    + rewrite (Hs2 k' f) by (by rewrite ?Hf1). apply decide_ext. rewrite elem_of_cons. naive_solver.
  - intros f r Hd. apply Hk2. rewrite Hs1. destruct (request_key_to_future m !! k) as [g|]; [|done]. destruct (rw_futures m !! g) eqn:Eg; [done|].
    rewrite lookup_insert_ne; [done|]. intros ->. congruence.
Qed.

(** ** A waiter *)

(** A key is unknown, or its reward is being computed. *)
Definition undelivered m k : Prop :=
  request_key_to_reward m !! k = None ∧ ∀ f, request_key_to_future m !! k = Some f → rw_futures m !! f = None.

(** What a waiter knows of a key: its reward, or the future that will have it. *)
Definition knows (rs : string → option Reward) (done : list string) (wt : Waiter) m k : Prop :=
  (got wt !! k = Some (rs k) ∧ k ∈ done ∧ ∀ f, (k, f) ∉ waiting wt) ∨
  (got wt !! k = None ∧ ∃ f, (k, f) ∈ waiting wt ∧ request_key_to_future m !! k = Some f ∧
     rw_futures m !! f = if decide (k ∈ done) then Some (rs k) else None).

Lemma new_future_run k m : new_future k m = Ret (rw_next_future m)
  (with_future (<[k := rw_next_future m]> (request_key_to_future m)) (with_rw_futures (rw_futures m) (S (rw_next_future m)) m)).
Proof. done. Qed.

Lemma new_future_ok k m : futures_ok m → request_key_to_future m !! k = None →
  futures_ok (with_future (<[k := rw_next_future m]> (request_key_to_future m)) (with_rw_futures (rw_futures m) (S (rw_next_future m)) m)).
Proof.
  intros [Hi Hk Hd] Hn. split; simpl.
  - intros k1 k2 f. rewrite !lookup_insert. repeat case_decide; subst; [done| | |by apply Hi].
    + intros [= <-] Hlt%Hk. lia.
    + intros Hlt%Hk [= <-]. lia.
  - intros k1 f. rewrite lookup_insert. case_decide; [intros [= <-]; lia|]. intros Hlt%Hk. lia.
  - intros f r Hlt%Hd. lia.
Qed.

(** The entries of a batch that a caller waits for: in training those whose reward is
    not in place yet. *)
Definition wanted (is_validate : bool) (batch : list BatchKey) : list BatchKey := filter (λ b, negb is_validate && b_reward_ready b = false) batch.

(** The keys of a batch whose reward is computed by a worker: padding has none. *)
Definition computed (batch : list BatchKey) : list string := b_key <$> filter (λ b, b_padding b = false) batch.
Definition padding (batch : list BatchKey) : list string := b_key <$> filter (λ b, b_padding b = true) batch.

(** The state before a key is looked at, and the waiter after it. *)
Definition has_arrived (rs : string → option Reward) (done : list string) m k : Prop :=
  (request_key_to_future m !! k = None ∧ request_key_to_reward m !! k = if decide (k ∈ done) then Some (rs k) else None) ∨
  (request_key_to_reward m !! k = None ∧ ∃ f, request_key_to_future m !! k = Some f ∧ rw_futures m !! f = if decide (k ∈ done) then Some (rs k) else None).

Record looked (rs : string → option Reward) (done : list string) k wt m wt' m' : Prop := {
  lk_ok : futures_ok m';
  lk_knows : knows rs done wt' m' k;
  lk_keys : keys_to_put wt' = keys_to_put wt ++ [k];
  lk_got k' : k' ≠ k → got wt' !! k' = got wt !! k';
  lk_waiting k' f : k' ≠ k → (k', f) ∈ waiting wt' ↔ (k', f) ∈ waiting wt;
  lk_NoDup : NoDup (waiting wt').*1;
  lk_future k' : k' ≠ k → request_key_to_future m' !! k' = request_key_to_future m !! k';
  lk_reward k' : k' ≠ k → request_key_to_reward m' !! k' = request_key_to_reward m !! k';
  lk_taken : request_key_to_reward m' !! k = None;
  lk_futures : rw_futures m' = rw_futures m;
}.

Lemma wait_on_future rs done k wt m f :
  (∀ g, (k, g) ∉ waiting wt) → NoDup (waiting wt).*1 → got wt !! k = None → futures_ok m → request_key_to_future m !! k = Some f →
  request_key_to_reward m !! k = None → rw_futures m !! f = (if decide (k ∈ done) then Some (rs k) else None) →
  looked rs done k wt m (mkWaiter (keys_to_put wt ++ [k]) (got wt) (dict_set k f (waiting wt))) m.
Proof.
  intros Hno Hnd Hg Hok Hf Hr Hd.
  assert (assoc k (waiting wt) = None) as Ha.
  { destruct (assoc k (waiting wt)) as [g|] eqn:E; [|done]. apply elem_of_assoc in E. by destruct (Hno g). }
  split; simpl; try done.
  - right. split; [done|]. exists f. rewrite dict_set_new by done. split_and!; [apply elem_of_app; right; by apply list_elem_of_singleton|done|done].
  - intros k' g Hne. rewrite dict_set_new, elem_of_app, list_elem_of_singleton by done. naive_solver.
  - by apply dict_set_NoDup.
Qed.

(** A key that is waited for, or a padded one: its reward is the default one from the start. *)
Definition expected (rs : string → option Reward) (done : list string) m (b : BatchKey) : Prop :=
  if b_padding b then request_key_to_reward m !! b_key b = None ∧ rs (b_key b) = Some default_reward_result ∧ b_key b ∈ done
  else has_arrived rs done m (b_key b).

Lemma wait_key_run rs done b wt m :
  let k := b_key b in
  futures_ok m → expected rs done m b → got wt !! k = None → (∀ f, (k, f) ∉ waiting wt) → NoDup (waiting wt).*1 →
  ∃ wt' m', wait_key b wt m = Ret wt' m' ∧ looked rs done k wt m wt' m'.
Proof.
  destruct b as [k u pad rdy]. simpl. intros Hok Har Hg Hno Hnd. unfold expected in Har. simpl in Har. unfold wait_key. simpl. mrun. destruct pad.
  { destruct Har as (Hr & Hrs & Hin). eexists _, _. split; [reflexivity|]. split; simpl; try done.
    - left. split_and!; [rewrite Hrs; apply lookup_insert_eq|done|done].
    - intros k' Hne. by apply lookup_insert_ne. }
  destruct Har as [[Hf Hr]|(Hr & f & Hf & Hd)].
  - rewrite Hf, Hr. case_decide as Hk.
    + eexists _, _. split; [mrun; reflexivity|]. split; simpl; try done; [destruct Hok; by split|left|..].
      * split_and!; [apply lookup_insert_eq|done|done].
      * intros k' Hne. by apply lookup_insert_ne.
      * intros k' Hne. by apply lookup_delete_ne.
      * apply lookup_delete_eq.
    + rewrite (run_bind _ _ _ _ _ (new_future_run k m)). eexists _, _. split; [reflexivity|].
      set (m1 := with_future _ _). assert (rw_futures m !! rw_next_future m = None) as Hnone.
      { destruct (rw_futures m !! rw_next_future m) eqn:E; [|done]. apply (fo_done m Hok) in E. lia. }
      destruct (wait_on_future rs done k wt m1 (rw_next_future m)) as [L1 L2 L3 L4 L5 L6 L7 L8 L9 L10]; try done.
      * by apply new_future_ok.
      * apply lookup_insert_eq.
      * simpl. by rewrite Hnone, decide_False.
      * split; try done. intros k' Hne. by apply lookup_insert_ne.
  - rewrite Hr, Hf. eexists _, _. split; [reflexivity|]. by apply wait_on_future.
Qed.

Lemma looked_knows rs done k wt m wt' m' k' : looked rs done k wt m wt' m' → k' ≠ k → knows rs done wt m k' → knows rs done wt' m' k'.
Proof.
  intros L Hne. unfold knows. rewrite (lk_got _ _ _ _ _ _ _ L k' Hne), (lk_future _ _ _ _ _ _ _ L k' Hne), (lk_futures _ _ _ _ _ _ _ L).
  intros [(Hg & Hd & Hw)|(Hg & f & Hw & Hf)]; [left|right].
  - split_and!; [done|done|]. intros f. by rewrite (lk_waiting _ _ _ _ _ _ _ L k' f Hne).
  - split; [done|]. exists f. by rewrite (lk_waiting _ _ _ _ _ _ _ L k' f Hne).
Qed.

Lemma looked_expected rs done k wt m wt' m' b : looked rs done k wt m wt' m' → b_key b ≠ k → expected rs done m b → expected rs done m' b.
Proof.
  intros L Hne. unfold expected, has_arrived. set (k' := b_key b) in *. by rewrite (lk_future _ _ _ _ _ _ _ L k' Hne), (lk_reward _ _ _ _ _ _ _ L k' Hne), (lk_futures _ _ _ _ _ _ _ L).
Qed.

(** A registered waiter. *)
Record registered (rs : string → option Reward) (done keys : list string) (wt : Waiter) m : Prop := {
  rg_ok : futures_ok m;
  rg_NoDup : NoDup (waiting wt).*1;
  rg_keys : keys_to_put wt = keys;
  rg_knows k : k ∈ keys → knows rs done wt m k;
  rg_taken k : k ∈ keys → request_key_to_reward m !! k = None;
  rg_waiting k f : (k, f) ∈ waiting wt → k ∈ keys;
  rg_got k : k ∉ keys → got wt !! k = None;
}.

Lemma batch_register_run rs done seen batch wt m :
  NoDup (seen ++ (b_key <$> batch)) → registered rs done seen wt m → (∀ b, b ∈ batch → expected rs done m b) →
  ∃ wt' m', fold_each batch wt wait_key m = Ret wt' m' ∧ registered rs done (seen ++ (b_key <$> batch)) wt' m'.
Proof.
  revert seen wt m. induction batch as [|b batch IH]; intros seen wt m Hnd Hrg Har; [exists wt, m; by rewrite app_nil_r|].
  rewrite fmap_cons in Hnd |- *. set (k := b_key b) in *. set (keys := b_key <$> batch) in *.
  pose proof Hnd as (_ & Hdisj & Hnk)%NoDup_app. assert (k ∉ seen) as Hk by (intros Hin; by apply (Hdisj k Hin), elem_of_cons; left).
  apply NoDup_cons in Hnk as [Hkk _]. destruct Hrg as [Hok Hnw Hkeys Hkn Htk Hwt Hgt].
  destruct (wait_key_run rs done b wt m Hok) as (wt1 & m1 & E1 & L); [by apply Har, elem_of_cons; left|by apply Hgt|by intros f ?%Hwt|done|]. fold k in L.
  assert (∀ k', k' ∈ seen ∨ k' ∈ keys → k' ≠ k) as Hne by (intros k' [?|?] ->; done).
  destruct (IH (seen ++ [k]) wt1 m1) as (wt2 & m2 & E2 & Hrg2).
  - by rewrite <-app_assoc.
  - split; [apply L|apply L|by rewrite (lk_keys _ _ _ _ _ _ _ L), Hkeys| | | |]; setoid_rewrite elem_of_app; setoid_rewrite list_elem_of_singleton.
    + intros k' [Hs| ->]; [|apply L]. apply (looked_knows _ _ _ _ _ _ _ _ L); [by apply Hne; left|by apply Hkn].
    + intros k' [Hs| ->]; [|apply L]. rewrite (lk_reward _ _ _ _ _ _ _ L) by (by apply Hne; left). by apply Htk.
    + intros k' f Hin. destruct (decide (k' = k)) as [->|Hkn']; [by right|]. left. apply (Hwt k' f). by apply (lk_waiting _ _ _ _ _ _ _ L).
    + intros k' Hk'. rewrite (lk_got _ _ _ _ _ _ _ L) by naive_solver. apply Hgt. naive_solver.
  - intros b' Hb'. apply (looked_expected _ _ _ _ _ _ _ _ L); [|by apply Har, elem_of_cons; right]. apply Hne. right. apply list_elem_of_fmap. by exists b'.
  - exists wt2, m2. simpl. rewrite (run_bind _ _ _ _ _ E1). rewrite <-app_assoc in Hrg2. done.
Qed.

(** Arrivals between the registration and the end of the wait. *)
Lemma registered_arrive rs done later keys wt m m' :
  registered rs done keys wt m → (∀ k, k ∈ later → k ∉ done) → arrived rs later m m' → registered rs (done ++ later) keys wt m'.
Proof.
  intros [Hok Hnw Hkeys Hkn Htk Hwt Hgt] Hdisj [Hf Hn Hr Hs Hk Hok']. split; try done.
  - intros k Hin. destruct (Hkn k Hin) as [(Hg & Hd & Hw)|(Hg & f & Hw & Hfu & Hd)]; [left|right].
    + split_and!; [done|apply elem_of_app; by left|done].
    + split; [done|]. exists f. rewrite Hf. split_and!; [done|done|]. destruct (decide (k ∈ done)) as [Hdn|Hdn].
      * rewrite decide_True by (apply elem_of_app; by left). by apply Hk.
      * rewrite (Hs k f Hfu Hd). apply decide_ext. rewrite elem_of_app. tauto.
  - intros k Hin. rewrite Hr. case_decide as Hc; [|by apply Htk]. destruct Hc as [Hl Hnone].
    destruct (Hkn k Hin) as [(_ & Hd & _)|(_ & f & _ & Hfu & _)]; [by destruct (Hdisj k Hl)|congruence].
Qed.

Lemma insert_all_lookup (late : list (string * option Reward)) (d : gmap string (option Reward)) k :
  NoDup late.*1 → foldl (λ d x, <[x.1 := x.2]> d) d late !! k = match assoc k late with Some r => Some r | None => d !! k end.
Proof.
  revert d. induction late as [|[k1 r1] late IH]; intros d; simpl; [done|]. rewrite NoDup_cons. intros [Hn Hnd]. rewrite IH by done.
  case_decide as Hk; [subst k1|].
  - assert (assoc k late = None) as ->; [|apply lookup_insert_eq].
    destruct (assoc k late) as [r|] eqn:E; [|done]. apply elem_of_assoc in E. exfalso. apply Hn, list_elem_of_fmap. by exists (k, r).
  - destruct (assoc k late); [done|]. by apply lookup_insert_ne.
Qed.

(** What is written for a key. *)
Definition fields_of (r : option Reward) : Score * list float := let r := default default_reward_result r in (r_score r, rm_scores r).

Lemma wait_finish_run rs keys wt m :
  registered rs keys keys wt m →
  ∃ m', wait_finish wt m = Ret (Some ((λ k, (k, fields_of (rs k))) <$> keys)) m' ∧
    ∀ k, k ∈ keys → request_key_to_future m' !! k = None ∧ request_key_to_reward m' !! k = None.
Proof.
  intros [Hok Hnw Hkeys Hkn Htk Hwt Hgt]. unfold wait_finish. mrun.
  assert (∀ k f, (k, f) ∈ waiting wt → rw_futures m !! f = Some (rs k)) as Hdone.
  { intros k f Hin. pose proof (Hwt k f Hin) as Hkin. destruct (Hkn k Hkin) as [(_ & _ & Hno)|(_ & g & Hg & _ & Hfu)]; [by destruct (Hno f)|].
    assert (Some g = Some f) as [= ->] by (rewrite <-(proj2 (assoc_iff k g (waiting wt) Hnw) Hg); by apply assoc_iff). by rewrite decide_True in Hfu. }
  assert (mapM (λ x : string * nat, (λ r, (x.1, r)) <$> rw_futures m !! x.2) (waiting wt) = Some ((λ x : string * nat, (x.1, rs x.1)) <$> waiting wt)) as ->.
  { apply mapM_Some, Forall2_fmap_r, Forall_Forall2_diag, Forall_forall. intros [k f] Hin. simpl. by rewrite (Hdone k f Hin). }
  set (late := (λ x : string * nat, (x.1, rs x.1)) <$> waiting wt).
  assert (late.*1 = (waiting wt).*1) as Hl1 by (unfold late; rewrite <-list_fmap_compose; by apply list_fmap_ext).
  assert (∀ k, k ∈ keys → foldl (λ d x, <[x.1 := x.2]> d) (got wt) late !! k = Some (rs k)) as Hrew.
  { intros k Hk. rewrite insert_all_lookup by (by rewrite Hl1). destruct (assoc k late) as [r|] eqn:E.
    - apply elem_of_assoc in E. apply list_elem_of_fmap in E as ([k' f] & [= -> ->] & _). done.
    - destruct (Hkn k Hk) as [(Hg & _)|(_ & f & Hw & _)]; [done|]. exfalso.
      assert (NoDup late.*1) as Hnl by (by rewrite Hl1). enough (assoc k late = Some (rs k)) by congruence.
      apply assoc_iff; [done|]. apply list_elem_of_fmap. by exists (k, f). }
  eexists. split; [mrun; rewrite Hkeys; f_equal; f_equal; apply list_fmap_ext; intros i k Hk%list_elem_of_lookup_2; unfold fields_of; by rewrite (Hrew k Hk)|].
  intros k Hk. simpl. split; [|by apply Htk]. clear -Hk. generalize (request_key_to_future m). induction keys as [|x keys IH]; [by apply elem_of_nil in Hk|].
  intros d. simpl. destruct (decide (k ∈ keys)) as [Hin|Hin]; [by apply IH|]. apply elem_of_cons in Hk as [->|?]; [|done].
  assert (∀ (d : gmap string nat), d !! x = None → foldl (λ d k, delete k d) d keys !! x = None) as Hgone; [|by apply Hgone, lookup_delete_eq].
  clear. induction keys as [|y keys IH]; intros d Hd; [done|]. simpl. apply IH. rewrite lookup_delete. by case_decide.
Qed.

Lemma undelivered_arrived rs early m m' k : undelivered m k → arrived rs early m m' → has_arrived rs early m' k.
Proof.
  intros [Hr Hf] [Hf' _ Hr' Hs' _ _]. unfold has_arrived. rewrite Hf', Hr', Hr. destruct (request_key_to_future m !! k) as [f|] eqn:E.
  - right. rewrite decide_False by naive_solver. split; [done|]. exists f. split; [done|]. by apply Hs'; [|apply Hf].
  - left. split; [done|]. apply decide_ext. naive_solver.
Qed.

Lemma batch_expected rs early done m m' b :
  undelivered m (b_key b) → (b_padding b = true → rs (b_key b) = Some default_reward_result ∧ b_key b ∈ done) →
  arrived rs early m m' → (b_padding b = false → b_key b ∈ done ↔ b_key b ∈ early) → (b_padding b = true → b_key b ∉ early) → expected rs done m' b.
Proof.
  intros Hu Hpad Ha Hdone Hearly. unfold expected. destruct (b_padding b) eqn:E.
  - destruct (Hpad eq_refl). split_and!; [|done|done]. rewrite (ar_reward _ _ _ _ Ha), decide_False by naive_solver. by apply Hu.
  - pose proof (undelivered_arrived rs early m m' _ Hu Ha) as H. unfold has_arrived in *.
    by rewrite (decide_ext (b_key b ∈ done) (b_key b ∈ early)) by auto.
Qed.

Lemma unfinished rs done keys wt m k : registered rs done keys wt m → k ∈ keys → k ∉ done → wait_finish wt m = Ret None m.
Proof.
  intros [Hok Hnw _ Hkn _ _ _] Hk Hd. destruct (Hkn k Hk) as [(_ & ? & _)|(_ & f & Hw & _ & Hfu)]; [done|]. rewrite decide_False in Hfu by done.
  unfold wait_finish. mrun. assert (mapM (λ x : string * nat, (λ r, (x.1, r)) <$> rw_futures m !! x.2) (waiting wt) = None) as ->; [|done].
  apply mapM_None, Exists_exists. exists (k, f). split; [done|]. simpl. by rewrite Hfu.
Qed.
(** The books of a key that the worker keeps: the attempt and the worker that computes it. *)
Definition key_books m := (request_key_to_attempt m, request_key_to_worker m).

Lemma wait_keeps_books batch wt : keeps key_books (fold_each batch wt wait_key).
Proof. apply keeps_fold_each. intros b wt'. unfold wait_key, new_future. keeps_tac; by case_match. Qed.

Lemma finish_keeps_books wt : keeps key_books (wait_finish wt).
Proof. unfold wait_finish. keeps_tac. Qed.

Lemma books_run r k m : ∃ m', set_reward_for_key r k m = Ret tt m' ∧
  request_key_to_attempt m' = delete k (request_key_to_attempt m) ∧ request_key_to_worker m' = delete k (request_key_to_worker m).
Proof.
  unfold set_reward_for_key. eexists. split; [mrun; reflexivity|]. cbn [request_key_to_future with_key_worker with_key_attempt].
  destruct (request_key_to_future m !! k) as [f|]; [|done]. unfold settle_future. by destruct (is_done f _).
Qed.

Lemma arrive_kept rs keys m k : request_key_to_attempt m !! k = None ∧ request_key_to_worker m !! k = None →
  request_key_to_attempt (final (arrive rs keys m)) !! k = None ∧ request_key_to_worker (final (arrive rs keys m)) !! k = None.
Proof.
  revert m. induction keys as [|x keys IH]; intros m Hk; [done|]. unfold arrive. simpl.
  destruct (books_run (rs x) x m) as (m1 & E & Ha & Hw). rewrite (run_bind _ _ _ _ _ E). apply IH.
  rewrite Ha, Hw, !lookup_delete. by repeat case_decide.
Qed.

Lemma arrive_books rs keys m :
  let m' := final (arrive rs keys m) in
  ∀ k, k ∈ keys → request_key_to_attempt m' !! k = None ∧ request_key_to_worker m' !! k = None.
Proof.
  revert m. induction keys as [|x keys IH]; intros m m' k Hk; [by apply elem_of_nil in Hk|]. unfold m', arrive. simpl.
  destruct (books_run (rs x) x m) as (m1 & E & Ha & Hw). rewrite (run_bind _ _ _ _ _ E).
  apply elem_of_cons in Hk as [->|Hk]; [|by apply IH]. apply arrive_kept. by rewrite Ha, Hw, !lookup_delete_eq.
Qed.

Lemma arrive_ext rs rs' keys m : (∀ k, k ∈ keys → rs k = rs' k) → arrive rs keys m = arrive rs' keys m.
Proof. intros H. unfold arrive. apply for_each_ext. intros k Hk m0. by rewrite H. Qed.

Lemma computed_padding batch : computed batch ++ padding batch ≡ₚ b_key <$> batch.
Proof.
  induction batch as [|b batch IH]; [done|]. unfold computed, padding in *. simpl. destruct (b_padding b) eqn:E.
  - rewrite filter_cons_False, filter_cons_True by (rewrite E; done). simpl. by rewrite <-Permutation_middle, IH.
  - rewrite filter_cons_True, filter_cons_False by (rewrite E; done). simpl. by rewrite IH.
Qed.
End rewards.

(** C14: A batch of rewards is delivered complete and once, whatever comes first.
    For a validation batch, or a training batch with reward normalisation off (with
    it on the call raises, [normalized_rewards_raise]), with distinct keys of which
    nothing was delivered before: whichever rewards of its workers arrive before the
    caller asks and whichever after, and in whatever order, the caller gets, for every
    key whose reward is not in place yet, the reward that arrived for it, or the default
    reward when the computation failed or the key is padding; it waits as long as one is
    missing, and afterwards no future and no stored reward is left for any of these
    keys, and no attempt and no worker for those that were computed. *)
Theorem reward_delivery_exact `{SetOrder} (cfg : RewardConfig) (is_validate : bool) (batch : list BatchKey) (early later : list string) (rs : string → option Reward) (m : RewardLoopManager) :
  let asked := wanted is_validate batch in
  is_validate = true ∨ rw_normalization cfg = None →
  NoDup (b_key <$> asked) → early ++ later ≡ₚ computed asked → futures_ok m → (∀ b, b ∈ asked → undelivered m (b_key b)) →
  ∃ m1 wt m2 m3 m4, arrive rs early m = Ret tt m1 ∧ wait_register is_validate batch m1 = Ret wt m2 ∧
    (later ≠ [] → wait_for_reward_of_requests cfg is_validate batch wt m2 = Ret None m2) ∧
    arrive rs later m2 = Ret tt m3 ∧
    wait_for_reward_of_requests cfg is_validate batch wt m3 =
      Ret (Some ((λ b, (b_key b, fields_of (if b_padding b then None else rs (b_key b)))) <$> asked)) m4 ∧
    (∀ k, k ∈ b_key <$> asked → request_key_to_future m4 !! k = None ∧ request_key_to_reward m4 !! k = None) ∧
    (∀ k, k ∈ computed asked → request_key_to_attempt m4 !! k = None ∧ request_key_to_worker m4 !! k = None).
Proof.
  intros asked Hcfg Hnd Hp Hok Hun. set (keys := b_key <$> asked) in *.
  set (rs' := λ k, if decide (k ∈ padding asked) then Some default_reward_result else rs k).
  assert (NoDup (computed asked ++ padding asked)) as Hndp by (by rewrite computed_padding).
  apply NoDup_app in Hndp as (Hndc & Hcp & _).
  assert (∀ k, k ∈ computed asked → rs k = rs' k) as Hrs by (intros k Hk; unfold rs'; rewrite decide_False; [done|by apply Hcp]).
  rewrite <-Hp in Hndc. apply NoDup_app in Hndc as (_ & Hdisj & _).
  assert (∀ k, k ∈ early ∨ k ∈ later → k ∈ computed asked) as Hin by (intros k Hk; rewrite <-Hp; by apply elem_of_app).
  rewrite (arrive_ext rs rs' early) by (intros k Hk; apply Hrs, Hin; by left).
  destruct (arrive_run rs' early m Hok) as (m1 & E1 & Ha1). set (done := padding asked ++ early).
  destruct (batch_register_run rs' done [] asked (mkWaiter [] ∅ []) m1) as (wt & m2 & E2 & Hrg); [done| | |].
  { split; try done; [apply Ha1|apply NoDup_nil_2|intros k []%elem_of_nil|intros k []%elem_of_nil|intros k f []%elem_of_nil]. }
  { intros b Hb. apply batch_expected with early m; [by apply Hun| |done| |].
    - unfold rs'. intros Hpad. assert (b_key b ∈ padding asked) as Hbp by (apply list_elem_of_fmap; exists b; by rewrite list_elem_of_filter).
      rewrite decide_True by done. split; [done|]. unfold done. apply elem_of_app. by left.
    - intros Hpad. unfold done. rewrite elem_of_app. assert (b_key b ∉ padding asked); [|naive_solver].
      apply Hcp, list_elem_of_fmap. exists b. by rewrite list_elem_of_filter.
    - intros Hpad Hk. apply (Hcp (b_key b)); [apply Hin; by left|]. apply list_elem_of_fmap. exists b. by rewrite list_elem_of_filter. }
  destruct (arrive_run rs' later m2) as (m3 & E3 & Ha3); [apply Hrg|].
  assert (registered rs' keys keys wt m3) as Hrg3.
  { destruct (registered_arrive rs' done later keys wt m2 m3 Hrg) as [R1 R2 R3 R4 R5 R6 R7]; [|done|].
    - intros k Hk [Hk'|Hk']%elem_of_app; [by apply (Hcp k); [apply Hin; by right|]|by apply (Hdisj k)].
    - split; try done. intros k Hk.
      assert (∀ x, x ∈ done ++ later ↔ x ∈ keys) as Hall.
      { intros x. unfold keys. rewrite <-computed_padding, <-Hp. unfold done. rewrite !elem_of_app. tauto. }
      destruct (R4 k Hk) as [(G & D & W)|(G & f & W & F & D)]; [left; split_and!; [done|by apply Hall|done]|right].
      split; [done|]. exists f. split_and!; [done|done|]. rewrite D. apply decide_ext. apply Hall. }
  destruct (wait_finish_run rs' keys wt m3 Hrg3) as (m4 & E4 & Hgone).
  assert (∀ m, (if negb is_validate && match rw_normalization cfg with Some _ => true | None => false end then normalize_reward cfg batch else mret tt) m = Ret tt m) as Hno.
  { intros m0. destruct Hcfg as [-> | ->]; [done|by rewrite andb_false_r]. }
  exists m1, wt, m2, m3, m4. split_and!; [done|exact E2| | | |done|].
  - intros Hl. destruct later as [|k later]; [done|]. unfold wait_for_reward_of_requests.
    assert (k ∈ computed asked) as Hkc by (apply Hin; right; apply elem_of_cons; by left).
    rewrite (run_bind _ _ _ _ _ (unfinished rs' done keys wt m2 k Hrg ltac:(unfold keys; rewrite <-computed_padding; apply elem_of_app; by left)
      ltac:(unfold done; intros [Hk|Hk]%elem_of_app; [by apply (Hcp k)|apply (Hdisj k Hk), elem_of_cons; by left]))). done.
  - rewrite (arrive_ext rs rs' later) by (intros k Hk; apply Hrs, Hin; by right). done.
  - unfold wait_for_reward_of_requests. rewrite (run_bind _ _ _ _ _ E4). simpl. rewrite (run_bind _ _ _ _ _ (Hno m4)). unfold mret, M_ret. f_equal. f_equal.
    unfold keys. rewrite <-list_fmap_compose. apply list_fmap_ext. intros i b Hb%list_elem_of_lookup_2. simpl. f_equal. unfold rs'. destruct (b_padding b) eqn:Hpad.
    + rewrite decide_True; [done|]. apply list_elem_of_fmap. exists b. by rewrite list_elem_of_filter.
    + rewrite decide_False; [done|]. apply Hcp, list_elem_of_fmap. exists b. by rewrite list_elem_of_filter.
  - assert (key_books m4 = key_books m3) as [= Hba Hbw].
    { pose proof (finish_keeps_books wt m3) as Hk. by rewrite E4 in Hk. }
    assert (key_books m2 = key_books m1) as [= Hba1 Hbw1].
    { pose proof (wait_keeps_books asked (mkWaiter [] ∅ []) m1) as Hk. by rewrite E2 in Hk. }
    intros k Hk. rewrite Hba, Hbw. rewrite <-Hp in Hk. pose proof (arrive_books rs' early m) as B1. rewrite E1 in B1.
    apply elem_of_app in Hk as [Hk|Hk].
    + pose proof (arrive_kept rs' later m2 k) as B2. rewrite E3 in B2. apply B2. rewrite Hba1, Hbw1. by apply B1.
    + pose proof (arrive_books rs' later m2) as B2. rewrite E3 in B2. by apply B2.
Qed.

(** ** Attempts *)

Section attempts.
Implicit Types (m : RewardLoopManager) (k : string) (f : nat).

(** Attempt numbers are handed out in increasing order. *)
Definition attempts_ok m : Prop := ∀ k a, request_key_to_attempt m !! k = Some a → a ≤ attempt_counter m.

Lemma register_key_run a k m : ∃ m', register_key true a k m = Ret tt m' ∧
  request_key_to_attempt m' = <[k := a]> (request_key_to_attempt m) ∧ attempt_counter m' = attempt_counter m.
Proof.
  unfold register_key. mrun. destruct (match request_key_to_future m !! k with Some fut => is_done fut m | None => true end).
  - mrun. rewrite (run_bind _ _ _ _ _ (new_future_run k m)). mrun. by eexists.
  - mrun. by eexists.
Qed.

Lemma register_keys_run a keys m : ∃ m', for_each keys (register_key true a) m = Ret tt m' ∧
  (∀ k, request_key_to_attempt m' !! k = if decide (k ∈ keys) then Some a else request_key_to_attempt m !! k) ∧ attempt_counter m' = attempt_counter m.
Proof.
  revert m. induction keys as [|k keys IH]; intros m; [exists m; split; [done|]; split; [|done]; intros k; by rewrite decide_False by apply not_elem_of_nil|].
  destruct (register_key_run a k m) as (m1 & E1 & Ha1 & Hc1). destruct (IH m1) as (m2 & E2 & Ha2 & Hc2). exists m2. simpl. rewrite (run_bind _ _ _ _ _ E1).
  split; [done|]. split; [|congruence]. intros k'. rewrite Ha2, Ha1, lookup_insert.
  rewrite (decide_ext (k' ∈ k :: keys) (k' = k ∨ k' ∈ keys)) by apply elem_of_cons. repeat case_decide; naive_solver.
Qed.

Lemma reward_keys_cons x n : ∃ k keys, reward_keys x n = k :: keys.
Proof.
  unfold reward_keys. case_bool_decide as Hn; [|by eexists _, _]. unfold zrange. rewrite seqZ_cons by lia. by eexists _, _.
Qed.
End attempts.

(** Only the latest attempt at a request counts.  Sending a request out gives it a
    number above all earlier ones; from then on a result for it is taken exactly
    when it carries this number, and a result of an earlier attempt changes nothing
    at all. *)
Theorem latest_attempt_counts (cfg : RewardConfig) (is_validate : bool) (i : RewardInput) (m : RewardLoopManager) :
  attempts_ok m →
  let keys := reward_keys (i_uid i) (i_n_trajectory i) in
  ∃ m', register_request cfg is_validate i true m = Ret [mkDispatched i is_validate keys (attempt_counter m + 1)] m' ∧ attempts_ok m' ∧
    (∀ x, w_keys x = keys → is_current m' x = bool_decide (w_attempt x = attempt_counter m + 1)) ∧
    ∀ env w x, man w = m' → w_keys x = keys → w_attempt x ≤ attempt_counter m → handle_reward_results env [x] w = Ret tt w.
Proof.
  intros Hok keys. unfold register_request. fold keys. mrun. cbn [attempt_counter with_attempts].
  match goal with |- context [(for_each keys (register_key true ?a) ≫= _) ?m0] => destruct (register_keys_run a keys m0) as (m1 & E1 & Ha1 & Hc1); rewrite (run_bind _ _ _ _ _ E1) end.
  assert (attempt_counter m1 = attempt_counter m + 1) as Hc by (rewrite Hc1; simpl; by destruct (group_of cfg is_validate i)).
  assert (∀ k, request_key_to_attempt m1 !! k = if decide (k ∈ keys) then Some (attempt_counter m + 1) else request_key_to_attempt m !! k) as Ha.
  { intros k. rewrite Ha1. simpl. by destruct (group_of cfg is_validate i). }
  assert (∀ x, w_keys x = keys → is_current m1 x = bool_decide (w_attempt x = attempt_counter m + 1)) as Hcur.
  { intros x Hx. unfold is_current. rewrite Hx. destruct (reward_keys_cons (i_uid i) (i_n_trajectory i)) as (k & ks & Hk). fold keys in Hk. rewrite Hk.
    rewrite Ha, decide_True by (rewrite Hk; apply elem_of_cons; by left). apply bool_decide_ext; split; [by intros [= ->]|by intros ->]. }
  exists m1. split; [simpl; by destruct (group_of cfg is_validate i)|]. split_and!; [|done|].
  - intros k a. rewrite Ha, Hc. case_decide; [intros [= <-]; lia|]. intros Hle%Hok. lia.
  - intros env w x Hw Hx Hlt. unfold handle_reward_results. mrun. rewrite Hw, filter_cons_False; [done|]. rewrite Hcur by done. rewrite bool_decide_false by lia. done.
Qed.

(** ** Aborts *)

Section aborts.
Implicit Types (m : RewardLoopManager) (k : string) (f : nat).

(** A key whose computation was aborted. *)
Definition aborted_key m m' k : Prop :=
  request_key_to_attempt m' !! k = None ∧ request_key_to_worker m' !! k = None ∧ request_key_to_future m' !! k = None ∧
  request_key_to_reward m' !! k = Some None ∧
  ∀ f, request_key_to_future m !! k = Some f → rw_futures m !! f = None → rw_futures m' !! f = Some None.

Lemma abort_reward_key_run k acc m : ∃ acc' m', abort_reward_key k acc m = Ret acc' m' ∧
  request_key_to_attempt m' = delete k (request_key_to_attempt m) ∧ request_key_to_worker m' = delete k (request_key_to_worker m) ∧
  request_key_to_future m' = delete k (request_key_to_future m) ∧ request_key_to_reward m' = <[k := None]> (request_key_to_reward m) ∧
  (∀ f r, rw_futures m !! f = Some r → rw_futures m' !! f = Some r) ∧
  (∀ f, rw_futures m !! f = None → rw_futures m' !! f = if decide (request_key_to_future m !! k = Some f) then Some None else None).
Proof.
  destruct acc as [count bw]. unfold abort_reward_key. mrun. eexists _, _. split; [mrun; reflexivity|]. simpl.
  destruct (request_key_to_future m !! k) as [g|] eqn:E; simpl; [|rewrite (delete_id (request_key_to_future m)) by done; split_and!; try done; intros f Hf; by rewrite decide_False].
  unfold settle_future, is_done. simpl. case_bool_decide as Hd; simpl; split_and!; try done.
  - intros f Hf. rewrite decide_False; [done|]. intros [= ->]. by rewrite Hf in Hd; destruct Hd.
  - intros f r Hf. rewrite lookup_insert_ne; [done|]. intros ->. rewrite Hf in Hd. by destruct Hd.
  - intros f Hf. rewrite lookup_insert. repeat case_decide; naive_solver.
Qed.

Lemma abort_keys_run keys acc m : ∃ acc' m', fold_each keys acc abort_reward_key m = Ret acc' m' ∧
  (∀ k, k ∈ keys → aborted_key m m' k) ∧
  (∀ k, k ∉ keys → request_key_to_attempt m' !! k = request_key_to_attempt m !! k ∧ request_key_to_future m' !! k = request_key_to_future m !! k ∧
     request_key_to_reward m' !! k = request_key_to_reward m !! k ∧ request_key_to_worker m' !! k = request_key_to_worker m !! k) ∧
  (∀ f r, rw_futures m !! f = Some r → rw_futures m' !! f = Some r).
Proof.
  revert acc m. induction keys as [|k keys IH]; intros acc m; [exists acc, m; split; [done|]; split; [intros k []%elem_of_nil|done]|].
  destruct (abort_reward_key_run k acc m) as (acc1 & m1 & E1 & Ha & Hw & Hf & Hr & Hd & Hn). destruct (IH acc1 m1) as (acc2 & m2 & E2 & Hk2 & Ho2 & Hd2).
  exists acc2, m2. simpl. rewrite (run_bind _ _ _ _ _ E1). split; [done|]. split_and!.
  - intros k' Hin. assert (∀ f, request_key_to_future m !! k' = Some f → rw_futures m !! f = None → rw_futures m2 !! f = Some None) as Hset.
    { intros f Hfk Hnone. destruct (rw_futures m1 !! f) as [r|] eqn:E.
      - rewrite (Hn f Hnone) in E. case_decide; [|done]. injection E as <-. apply Hd2. by rewrite (Hn f Hnone), decide_True.
      - rewrite (Hn f Hnone) in E. case_decide as Hkf; [done|]. assert (k' ≠ k) as Hne by (intros ->; done). apply elem_of_cons in Hin as [->|Hin]; [done|].
        apply (Hk2 k' Hin); [rewrite Hf, lookup_delete_ne; done|by rewrite (Hn f Hnone), decide_False]. }
    destruct (decide (k' ∈ keys)) as [Hin'|Hin'].
    + destruct (Hk2 k' Hin') as (H1 & H2 & H3 & H4 & _). by split_and!.
    + apply elem_of_cons in Hin as [->|?]; [|done]. destruct (Ho2 k Hin') as (H1 & H2 & H3 & H4). unfold aborted_key.
      rewrite H1, H2, H3, H4, Ha, Hw, Hf, Hr, !lookup_delete_eq, lookup_insert_eq. by split_and!.
  - intros k' [Hne Hni]%not_elem_of_cons. destruct (Ho2 k' Hni) as (-> & -> & -> & ->). rewrite Ha, Hf, Hr, Hw, !lookup_delete_ne, lookup_insert_ne by done. done.
  - intros f r Hfr. by apply Hd2, Hd.
Qed.
End aborts.

(** Aborting a request ends every wait for it: each pending future of its keys gets
    the empty result at once, a later caller finds the empty result stored, no
    result a worker still sends for it is taken, and the keys of other requests are
    not touched. *)
Theorem reward_abort_settles (x : Z) (acc : Z * list (Z * list string)) (m : RewardLoopManager) :
  let keys := reward_keys x (default 1 (request_id_to_n_trajectory m !! x)) in
  ∃ acc' m', abort_reward_request x acc m = Ret acc' m' ∧
    (∀ k, k ∈ keys → aborted_key m m' k) ∧
    (∀ r, w_keys r = keys → is_current m' r = false) ∧
    (∀ k, k ∉ keys → request_key_to_attempt m' !! k = request_key_to_attempt m !! k ∧ request_key_to_future m' !! k = request_key_to_future m !! k ∧
       request_key_to_reward m' !! k = request_key_to_reward m !! k) ∧
    ∀ f r, rw_futures m !! f = Some r → rw_futures m' !! f = Some r.
Proof.
  intros keys. unfold abort_reward_request. mrun. fold keys.
  destruct (abort_keys_run keys acc (with_n_trajectory (delete x (request_id_to_n_trajectory m)) m)) as (acc' & m' & E & Hk & Ho & Hd).
  exists acc', m'. split; [done|]. split_and!; [exact Hk| | |exact Hd].
  - intros r Hr. unfold is_current. rewrite Hr. destruct (reward_keys_cons x (default 1 (request_id_to_n_trajectory m !! x))) as (k & ks & Hks). fold keys in Hks.
    rewrite Hks. destruct (Hk k) as (-> & _); [rewrite Hks; apply elem_of_cons; by left|]. by rewrite bool_decide_false.
  - intros k Hni. by destruct (Ho k Hni) as (-> & -> & -> & _).
Qed.

(** ** Normalisation *)

Lemma normalize_raises `{SetOrder} (cfg : RewardConfig) batch m :
  rw_normalization cfg = Some NormBatch ∨ rw_normalization cfg = Some NormGroup → ∃ e m', normalize_reward cfg batch m = Raise e m'.
Proof.
  intros Hn. unfold normalize_reward. unfold mbind at 1, M_bind at 1. destruct (for_each _ _ m) as [u m1|e m1]; [|by eexists _, _].
  assert (∀ T (a b : Rm T), (match rw_normalization cfg with Some NormBatch | Some NormGroup => a | _ => b end) = a) as -> by (intros; by destruct Hn as [-> | ->]).
  destruct (foldl_res final_trajectory batch []) as [e|final]; [by eexists _, _|]. rewrite (run_of_res _ final) by done.
  unfold mbind, M_bind. destruct (for_each _ _ m1) as [u' m2|e m2]; by eexists _, _.
Qed.

(** A training batch never gets its rewards when they are to be normalised over the
    batch or the group: once the rewards are there, the call raises. *)
Theorem normalized_rewards_raise `{SetOrder} (cfg : RewardConfig) (batch : list BatchKey) (wt : Waiter) (fields : list (string * (Score * list float))) (m m1 : RewardLoopManager) :
  rw_normalization cfg = Some NormBatch ∨ rw_normalization cfg = Some NormGroup → wait_finish wt m = Ret (Some fields) m1 →
  ∃ e m', wait_for_reward_of_requests cfg false batch wt m = Raise e m'.
Proof.
  intros Hn Hf. unfold wait_for_reward_of_requests. rewrite (run_bind _ _ _ _ _ Hf). simpl.
  destruct (normalize_raises cfg batch m1 Hn) as (e & m' & E). exists e, m'.
  destruct Hn as [Hn|Hn]; rewrite Hn; unfold mbind, M_bind; by rewrite E.
Qed.

(** ** Witnesses *)

Lemma new_reward_manager_ok : futures_ok new_reward_manager.
Proof. by split. Qed.

Definition demo_reward (k : string) : option Reward := if bool_decide (k = "7") then None else Some (mkReward (mkScore fone 3%N) 2).

Definition demo_reward_config (n : option Normalization) : RewardConfig := mkRewardConfig 1 1 2 true n.

(** Four trajectories of one request, one of them scored before, and a padded row. *)
Definition demo_batch : list BatchKey :=
  [mkBatchKey "5_0" 5 false false; mkBatchKey "5_1" 5 false false; mkBatchKey "5_2" 5 false true; mkBatchKey "7" 7 false false; mkBatchKey "9" 9 true false].

#[local] Existing Instance elements_order.

Lemma reward_delivery_exact_witness :
  ∃ m1 wt m2 m3 m4, arrive demo_reward ["5_1"] new_reward_manager = Ret tt m1 ∧ wait_register false demo_batch m1 = Ret wt m2 ∧
    arrive demo_reward ["7"; "5_0"] m2 = Ret tt m3 ∧
    wait_for_reward_of_requests (demo_reward_config None) false demo_batch wt m3 =
      Ret (Some [("5_0", (mkScore fone 3%N, [fzero; fone])); ("5_1", (mkScore fone 3%N, [fzero; fone])); ("7", (mkScore fzero 0%N, [fzero])); ("9", (mkScore fzero 0%N, [fzero]))]) m4.
Proof.
  destruct (reward_delivery_exact (demo_reward_config None) false demo_batch ["5_1"] ["7"; "5_0"] demo_reward new_reward_manager)
    as (m1 & wt & m2 & m3 & m4 & E1 & E2 & _ & E3 & E4 & _).
  - by right.
  - apply (bool_decide_unpack _). vm_compute. exact I.
  - change (["5_1"; "7"] ++ ["5_0"] ≡ₚ ["5_0"] ++ ["5_1"; "7"]). apply Permutation_app_comm.
  - apply new_reward_manager_ok.
  - intros b _. by split.
  - exists m1, wt, m2, m3, m4. split; [exact E1|]. split; [exact E2|]. split; [exact E3|exact E4].
Defined.

Lemma latest_attempt_counts_witness :
  ∃ m', register_request (demo_reward_config None) false (mkInput 5 5 1 "math") true new_reward_manager = Ret [mkDispatched (mkInput 5 5 1 "math") false ["5"] 1] m' ∧
    is_current m' (mkWorkerResult 5 ["5"] false 1 None 3) = true.
Proof.
  destruct (latest_attempt_counts (demo_reward_config None) false (mkInput 5 5 1 "math") new_reward_manager) as (m' & E & _ & Hc & _); [by intros k a|].
  exists m'. split; [exact E|]. rewrite Hc by (vm_compute; reflexivity). by apply bool_decide_eq_true.
Defined.
