(* ===== verification/TitoData.v ===== *)
(** * Training data of a token-in-token-out session

    [build_training_data] and [_assemble_routed_experts]
    ([psrl/utils/tito/training_data.py]): the token store of a session and the
    records of its turns become prompt, response, mask and log probabilities.
    Token counts and positions are naturals, log probabilities binary64 floats, a
    routing array is the list of its rows and [blank] is a row of zeros. *)

From S2P Require Import Prelude.
From S2P Require Import PyFloat.

#[local] Open Scope nat_scope.

Section tito.
Context {Experts : Type} (blank : Experts).

(** ** Data *)

Record TitoRecord := mkTitoRecord {
  prompt_token_count : nat;
  output_logprobs : option (list (float * Z));
  routed_blob : option (nat * list Experts);
}.

Record TrainingData := mkTrainingData {
  td_prompt_ids : list Z;
  td_response_ids : list Z;
  td_response_mask : list Z;
  td_logprobs : list float;
  td_routed_experts : option (list Experts);
  td_num_turns : nat;
}.

(** What the loop over the records accumulates. *)
Record TitoAcc := mkTitoAcc {
  all_response_ids : list Z;
  all_response_mask : list Z;
  all_logprobs : list float;
  cursor : nat;
}.

(** ** Operations *)

Definition slice {A} (lo hi : nat) (l : list A) : list A := take (hi - lo) (drop lo l).

Definition put_rows (total_len : nat) (rows : list Experts) (blob : nat * list Experts) : list Experts :=
  let '(prompt_start, arr) := blob in
  let stop := (prompt_start + length arr) `min` total_len in
  if bool_decide (prompt_start < stop) then take prompt_start rows ++ take (stop - prompt_start) arr ++ drop stop rows else rows.

Definition assemble_routed_experts (records : list TitoRecord) (total_len : nat) : option (list Experts) :=
  match omap routed_blob records with
  | [] => None
  | blobs => Some (foldl (put_rows total_len) (replicate total_len blank) blobs)
  end.

(** The environment's tokens between the end of the last turn and this prompt's. *)
Definition add_env (acc : list Z) (prompt_len : nat) (s : TitoAcc) : TitoAcc :=
  if bool_decide (0 < cursor s) && bool_decide (cursor s < prompt_len) then
    let env_ids := slice (cursor s) prompt_len acc in
    mkTitoAcc (all_response_ids s ++ env_ids) (all_response_mask s ++ replicate (length env_ids) 0%Z)
      (all_logprobs s ++ replicate (length env_ids) fzero) (cursor s)
  else s.

(** A turn without log probabilities takes its tokens from the store. *)
Definition recover_output (acc : list Z) (next : option TitoRecord) (prompt_len : nat) (out : list Z * list float) : list Z * list float :=
  if bool_decide (out.1 = []) && bool_decide (prompt_len < length acc) then
    let stop := match next with None => length acc | Some r => prompt_token_count r end in
    if bool_decide (prompt_len < stop) then
      let ids := slice prompt_len stop acc in (ids, replicate (length ids) fzero)
    else out
  else out.

(** How many tokens agree with the store. *)
Fixpoint matched (ids store : list Z) : nat :=
  match ids, store with
  | i :: ids, s :: store => if bool_decide (i = s) then S (matched ids store) else 0
  | _, _ => 0
  end.

(** Every turn but the last drops the tokens that the store does not have. *)
Definition trim_output (acc : list Z) (max_trim_tokens : nat) (next : option TitoRecord) (prompt_len : nat) (out : list Z * list float) : Res (list Z * list float) :=
  match next with
  | None => inr out
  | Some _ =>
      if bool_decide (out.1 = []) then inr out
      else
        let m := matched out.1 (drop prompt_len acc) in
        if bool_decide (max_trim_tokens < length out.1 - m) then inl ValueError
        else if bool_decide (0 < length out.1 - m) then inr (take m out.1, take m out.2) else inr out
  end.

Definition add_turn (acc : list Z) (max_trim_tokens : nat) (next : option TitoRecord) (record : TitoRecord) (s : TitoAcc) : Res TitoAcc :=
  let prompt_len := prompt_token_count record in
  let raw_lps := default [] (output_logprobs record) in
  let s := add_env acc prompt_len s in
  let out := recover_output acc next prompt_len (raw_lps.*2, raw_lps.*1) in
  match trim_output acc max_trim_tokens next prompt_len out with
  | inl e => inl e
  | inr (ids, lps) =>
      inr (mkTitoAcc (all_response_ids s ++ ids) (all_response_mask s ++ replicate (length ids) 1%Z) (all_logprobs s ++ lps) (prompt_len + length ids))
  end.

Fixpoint add_turns (acc : list Z) (max_trim_tokens : nat) (records : list TitoRecord) (s : TitoAcc) : Res TitoAcc :=
  match records with
  | [] => inr s
  | r :: rest =>
      match add_turn acc max_trim_tokens (head rest) r s with
      | inl e => inl e
      | inr s => add_turns acc max_trim_tokens rest s
      end
  end.

Definition build_training_data (acc : list Z) (records : list TitoRecord) (max_trim_tokens : nat) (prompt_ids_override : option (list Z)) : Res TrainingData :=
  match records with
  | [] => inr (mkTrainingData [] [] [] [] None 0)
  | first :: _ =>
      match add_turns acc max_trim_tokens records (mkTitoAcc [] [] [] 0) with
      | inl e => inl e
      | inr s =>
          let prompt_ids := default (take (prompt_token_count first) acc) prompt_ids_override in
          let experts := assemble_routed_experts records (length prompt_ids + length (all_response_ids s) - 1) in
          if bool_decide (length (all_response_ids s) = length (all_response_mask s)) && bool_decide (length (all_response_mask s) = length (all_logprobs s)) then
            inr (mkTrainingData prompt_ids (all_response_ids s) (all_response_mask s) (all_logprobs s) experts (length records))
          else inl AssertionError
      end
  end.
End tito.

Arguments mkTitoRecord {_} _ _ _.
Arguments prompt_token_count {_} _.
Arguments output_logprobs {_} _.
Arguments routed_blob {_} _.
Arguments mkTrainingData {_} _ _ _ _ _ _.

(** ** What the store promises

    A session starts with a prompt.  The model generates a turn; the store keeps
    its first tokens, trims the boundary tokens behind them and appends what the
    environment feeds back.  The last turn is kept whole. *)

Record Turn Experts := mkTurn {
  generated : list (float * Z);
  kept : nat;
  fed_back : list Z;
  blob : option (nat * list Experts);
}.
Arguments mkTurn {_} _ _ _ _.
Arguments generated {_} _.
Arguments kept {_} _.
Arguments fed_back {_} _.
Arguments blob {_} _.

Section session.
Context {Experts : Type} (blank : Experts).
Implicit Types (t : Turn Experts) (turns : list (Turn Experts)) (last : list (float * Z)) (s : TitoAcc).

Definition stored t : list Z := take (kept t) (generated t).*2 ++ fed_back t.

Fixpoint session_records (pos : nat) turns last (last_blob : option (nat * list Experts)) : list (TitoRecord (Experts := Experts)) :=
  match turns with
  | [] => [mkTitoRecord pos (Some last) last_blob]
  | t :: ts => mkTitoRecord pos (Some (generated t)) (blob t) :: session_records (pos + length (stored t)) ts last last_blob
  end.

Definition session_store (prompt : list Z) turns last : list Z := prompt ++ concat (stored <$> turns) ++ last.*2.

(** The rows of the training data: token, mask and log probability. *)
Definition assistant_rows (out : list (float * Z)) : list (Z * Z * float) := (λ x, (x.2, 1%Z, x.1)) <$> out.
Definition env_rows (ids : list Z) : list (Z * Z * float) := (λ i, (i, 0%Z, fzero)) <$> ids.

(** Boundary tokens that the environment's text repeats count as generated. *)
Definition repeated t : nat := matched (drop (kept t) (generated t).*2) (fed_back t).
Definition turn_rows t : list (Z * Z * float) :=
  assistant_rows (take (kept t + repeated t) (generated t)) ++ env_rows (drop (repeated t) (fed_back t)).

Definition turn_ok (max_trim_tokens : nat) t : Prop :=
  generated t ≠ [] ∧ kept t ≤ length (generated t) ∧ length (generated t) - kept t ≤ max_trim_tokens `min` length (fed_back t).

Definition holds s (rows : list (Z * Z * float)) : Prop :=
  all_response_ids s = rows.*1.*1 ∧ all_response_mask s = rows.*1.*2 ∧ all_logprobs s = rows.*2.

Lemma matched_app (l x y : list Z) : matched (l ++ x) (l ++ y) = length l + matched x y.
Proof. induction l as [|a l IH]; simpl; [done|]. by rewrite bool_decide_true, IH. Qed.

Lemma matched_le (x y : list Z) : matched x y ≤ length x ∧ matched x y ≤ length y.
Proof. revert y. induction x as [|a x IH]; intros [|b y]; simpl; try lia. case_bool_decide; [|lia]. specialize (IH y). lia. Qed.

Lemma matched_app_r (x y z : list Z) : length x ≤ length y → matched x (y ++ z) = matched x y.
Proof.
  revert y. induction x as [|a x IH]; intros [|b y]; simpl; try done; [lia|]. intros Hl. by rewrite IH by lia.
Qed.

Lemma take_matched (x y : list Z) : take (matched x y) x = take (matched x y) y.
Proof. revert y. induction x as [|a x IH]; intros [|b y]; simpl; try done. case_bool_decide; [|done]. subst. simpl. by rewrite IH. Qed.

Lemma assistant_rows_ids out : (assistant_rows out).*1.*1 = out.*2 ∧ (assistant_rows out).*1.*2 = replicate (length out) 1%Z ∧ (assistant_rows out).*2 = out.*1.
Proof. unfold assistant_rows. rewrite <-!list_fmap_compose. split_and!; try done. induction out; by f_equal/=. Qed.

Lemma env_rows_ids ids : (env_rows ids).*1.*1 = ids ∧ (env_rows ids).*1.*2 = replicate (length ids) 0%Z ∧ (env_rows ids).*2 = replicate (length ids) fzero.
Proof. unfold env_rows. rewrite <-!list_fmap_compose. split_and!; induction ids; by f_equal/=. Qed.

Lemma holds_app s rows ids lps m c rows' :
  holds s rows → ids = rows'.*1.*1 → m = rows'.*1.*2 → lps = rows'.*2 →
  holds (mkTitoAcc (all_response_ids s ++ ids) (all_response_mask s ++ m) (all_logprobs s ++ lps) c) (rows ++ rows').
Proof. intros (H1 & H2 & H3) -> -> ->. unfold holds. simpl. by rewrite !fmap_app, H1, H2, H3. Qed.

(** What a turn of the session puts in the store, matched against the store. *)
Lemma matched_turn t pre rest :
  kept t ≤ length (generated t) → length (generated t) - kept t ≤ length (fed_back t) →
  matched (generated t).*2 (drop (length pre) (pre ++ stored t ++ rest)) = kept t + repeated t.
Proof.
  intros Hk Hl. rewrite drop_app_length. unfold stored, repeated. rewrite <-app_assoc.
  rewrite <-(take_drop (kept t) (generated t).*2) at 1. rewrite matched_app, length_take, length_fmap, Nat.min_l by lia.
  f_equal. apply matched_app_r. rewrite length_drop, length_fmap. lia.
Qed.

Lemma turn_rows_ids t : kept t ≤ length (generated t) → (turn_rows t).*1.*1 = stored t.
Proof.
  intros Hk. unfold turn_rows, stored. rewrite !fmap_app. destruct (assistant_rows_ids (take (kept t + repeated t) (generated t))) as (-> & _ & _).
  destruct (env_rows_ids (drop (repeated t) (fed_back t))) as (-> & _ & _). rewrite fmap_take.
  rewrite <-(take_drop (kept t) (generated t).*2) at 1. rewrite take_app, length_take, length_fmap, Nat.min_l by lia.
  rewrite take_take, Nat.min_r by lia. rewrite <-app_assoc. f_equal.
  replace (kept t + repeated t - kept t) with (repeated t) by lia. unfold repeated. rewrite take_matched. apply take_drop.
Qed.

(** One turn of a session that is not the last. *)
Lemma add_turn_session mt t pre rest s s0 rows next :
  turn_ok mt t → pre ≠ [] → let acc := pre ++ stored t ++ rest in
  add_env acc (length pre) s = s0 → holds s0 rows →
  ∃ s1, add_turn acc mt (Some next) (mkTitoRecord (length pre) (Some (generated t)) (blob t)) s = inr s1 ∧
    holds (add_env acc (length (pre ++ stored t)) s1) (rows ++ turn_rows t).
Proof.
  intros (Hg & Hk & Hl) Hpre acc E Hs0. unfold add_turn. simpl. rewrite E. unfold recover_output. simpl.
  rewrite (bool_decide_false ((generated t).*2 = [])) by (intros ?%fmap_nil_inv; done). simpl.
  rewrite (bool_decide_false ((generated t).*2 = [])) by (intros ?%fmap_nil_inv; done).
  unfold acc. rewrite matched_turn by lia. set (m := kept t + repeated t).
  assert (Hm : kept t ≤ m ≤ length (generated t) ∧ repeated t ≤ length (fed_back t)).
  { pose proof (matched_le (drop (kept t) (generated t).*2) (fed_back t)) as H. unfold m, repeated. rewrite length_drop, length_fmap in H. lia. }
  rewrite length_fmap, bool_decide_false by lia.
  set (out := if bool_decide (0 < length (generated t) - m) then _ else _).
  assert (out = inr (take m (generated t).*2, take m (generated t).*1)) as ->.
  { unfold out. case_bool_decide; [done|]. by rewrite !take_ge by (rewrite length_fmap; lia). }
  eexists. split; [done|]. destruct (assistant_rows_ids (take m (generated t))) as (A1 & A2 & A3).
  rewrite !fmap_take in *. rewrite length_take, length_fmap in *. rewrite length_take in A2. rewrite Nat.min_l in * by lia.
  unfold turn_rows. fold m. rewrite (app_assoc rows). unfold add_env. simpl.
  rewrite (bool_decide_true (0 < length pre + m)) by (destruct pre; simpl; [done|lia]). simpl.
  assert (Hst : length (stored t) = kept t + length (fed_back t)) by (unfold stored; rewrite length_app, length_take, length_fmap; lia).
  rewrite length_app, Hst. destruct (env_rows_ids (drop (repeated t) (fed_back t))) as (B1 & B2 & B3).
  assert (slice (length pre + m) (length pre + (kept t + length (fed_back t))) (pre ++ stored t ++ rest) = drop (repeated t) (fed_back t)) as Hsl.
  { unfold slice. rewrite <-drop_drop, drop_app_length. unfold stored. rewrite <-app_assoc. unfold m. rewrite <-drop_drop.
    rewrite drop_app_length' by (rewrite length_take, length_fmap; lia). rewrite drop_app_le by lia.
    rewrite take_app_le by (rewrite length_drop; lia). apply take_ge. rewrite length_drop. lia. }
  case_bool_decide as Hc; simpl.
  - rewrite Hsl. eapply (holds_app (mkTitoAcc _ _ _ (length pre + m))); [by apply (holds_app s0 rows)|done..].
  - rewrite (drop_ge (fed_back t)) by lia. simpl. rewrite app_nil_r. by apply (holds_app s0 rows).
Qed.

Lemma add_turns_session mt turns last lb pre s s0 rows :
  Forall (turn_ok mt) turns → last ≠ [] → pre ≠ [] → let acc := pre ++ concat (stored <$> turns) ++ last.*2 in
  add_env acc (length pre) s = s0 → holds s0 rows →
  ∃ s', add_turns acc mt (session_records (length pre) turns last lb) s = inr s' ∧ holds s' (rows ++ concat (turn_rows <$> turns) ++ assistant_rows last).
Proof.
  intros Ht Hlast. revert pre s s0 rows. induction Ht as [|t ts Ht _ IH]; intros pre s s0 rows Hpre; simpl.
  - intros E Hs. unfold add_turn. simpl. rewrite E. unfold recover_output. simpl. rewrite bool_decide_false by (intros ?%fmap_nil_inv; done). simpl.
    eexists. split; [done|]. destruct (assistant_rows_ids last) as (A1 & A2 & A3). rewrite length_fmap. by apply holds_app.
  - intros E Hs. rewrite <-app_assoc in E |- *. destruct (session_records (length pre + length (stored t)) ts last lb) as [|r rs] eqn:Er; [by destruct ts|].
    destruct (add_turn_session mt t pre _ s s0 rows r Ht Hpre E Hs) as (s1 & E1 & H1). cbn [head]. rewrite E1.
    rewrite <-length_app in Er. rewrite <-Er. rewrite app_assoc. rewrite app_assoc in H1.
    destruct (IH (pre ++ stored t) s1 _ _ ltac:(by destruct pre) eq_refl H1) as (s' & E' & H'). exists s'. split; [done|].
    by rewrite <-!app_assoc in *.
Qed.

Lemma session_records_cons pos turns last lb : ∃ r rs, session_records pos turns last lb = r :: rs ∧ prompt_token_count r = pos ∧ length rs = length turns.
Proof.
  revert pos. induction turns as [|t ts IH]; intros pos; simpl; [by eexists _, _|].
  eexists _, _. split_and!; [done..|]. destruct (IH (pos + length (stored t))) as (r & rs & -> & _ & Hl). simpl. by rewrite Hl.
Qed.
End session.



(** ** Any store and records *)

Definition aligned (s : TitoAcc) : Prop :=
  length (all_response_mask s) = length (all_response_ids s) ∧ length (all_logprobs s) = length (all_response_ids s) ∧
  Forall (λ b, b = 0%Z ∨ b = 1%Z) (all_response_mask s).

Lemma aligned_app s ids b lps c :
  aligned s → length lps = length ids → b = 0%Z ∨ b = 1%Z →
  aligned (mkTitoAcc (all_response_ids s ++ ids) (all_response_mask s ++ replicate (length ids) b) (all_logprobs s ++ lps) c).
Proof.
  intros (H1 & H2 & H3) Hl Hb. unfold aligned. simpl. rewrite !length_app, length_replicate, H1, H2, Hl. split_and!; [done..|].
  apply Forall_app. split; [done|]. by apply Forall_replicate.
Qed.

Lemma recover_length {E} acc (next : option (TitoRecord (Experts := E))) n out : length out.2 = length out.1 → length (recover_output acc next n out).2 = length (recover_output acc next n out).1.
Proof. intros Hl. unfold recover_output. case_match; [|done]. case_match; destruct (bool_decide _); simpl; try done; apply length_replicate. Qed.

Lemma add_turn_aligned {E} acc mt next (r : TitoRecord (Experts := E)) s : aligned s → match add_turn acc mt next r s with inl e => e = ValueError | inr s' => aligned s' end.
Proof.
  intros Hs. unfold add_turn. set (out := recover_output _ _ _ _).
  assert (Ho : length out.2 = length out.1) by (apply recover_length; simpl; by rewrite !length_fmap).
  set (s0 := add_env _ _ s). assert (Hs0 : aligned s0).
  { unfold s0, add_env. case_match; [|done]. apply aligned_app; [done|by rewrite length_replicate|by left]. }
  destruct out as [ids lps]. simpl in Ho. unfold trim_output. simpl. repeat case_match; simplify_eq; try done; apply aligned_app; try done; try by right.
  by rewrite !length_take, Ho.
Qed.

Lemma add_turns_aligned {E} acc mt (records : list (TitoRecord (Experts := E))) s :
  aligned s → match add_turns acc mt records s with inl e => e = ValueError | inr s' => aligned s' end.
Proof.
  revert s. induction records as [|r rest IH]; intros s Hs; simpl; [done|].
  pose proof (add_turn_aligned acc mt (head rest) r s Hs). destruct (add_turn _ _ _ _ _) as [e|s1]; [done|]. by apply IH.
Qed.

(** Whatever the store and the records hold, the only error is the trim overflow, and
    tokens, mask and log probabilities have the same length. *)
Theorem training_data_aligned {E} (blank : E) acc records mt over :
  match build_training_data blank acc records mt over with
  | inl e => e = ValueError
  | inr d => length (td_response_mask d) = length (td_response_ids d) ∧ length (td_logprobs d) = length (td_response_ids d) ∧
      Forall (λ b, b = 0%Z ∨ b = 1%Z) (td_response_mask d) ∧ td_num_turns d = length records
  end.
Proof.
  unfold build_training_data. destruct records as [|r rest]; [by simpl|].
  assert (aligned (mkTitoAcc [] [] [] 0)) as H0 by (by split_and!).
  pose proof (add_turns_aligned acc mt (r :: rest) _ H0) as H. destruct (add_turns _ _ _ _) as [e|s]; [done|].
  destruct H as (H1 & H2 & H3). rewrite !bool_decide_true by congruence. by split_and!.
Qed.

(** The rows of a routing array land at the positions it was recorded for. *)
Lemma put_rows_lookup {E} total (rows : list E) start arr i :
  length rows = total → put_rows total rows (start, arr) !! i = if bool_decide (start ≤ i < total `min` (start + length arr)) then arr !! (i - start) else rows !! i.
Proof.
  intros Hl. unfold put_rows. set (stop := (start + length arr) `min` total). case_bool_decide as Hs; [|by rewrite bool_decide_false by (unfold stop in *; lia)].
  destruct (decide (i < start)).
  { rewrite lookup_app_l, lookup_take_lt by (rewrite ?length_take; unfold stop in *; lia). by rewrite bool_decide_false by lia. }
  rewrite lookup_app_r, length_take, Nat.min_l by (rewrite ?length_take; unfold stop in *; lia). destruct (decide (i < stop)).
  - rewrite lookup_app_l, lookup_take_lt by (rewrite ?length_take; unfold stop in *; lia). by rewrite bool_decide_true by (unfold stop in *; lia).
  - rewrite lookup_app_r, length_take, Nat.min_l by (rewrite ?length_take; unfold stop in *; lia). rewrite lookup_drop.
    replace (stop + (i - start - (stop - start))) with i by lia. by rewrite bool_decide_false by (unfold stop in *; lia).
Qed.

(** A turn without log probabilities that is not the last is recovered up to the next
    prompt, so that the tokens the environment fed back are marked as generated. *)
Theorem recovered_turn_trains_on_env :
  ∃ d, build_training_data tt [1; 2; 3; 7; 8; 5]%Z [mkTitoRecord 2 None None; mkTitoRecord 5 (Some [(fone, 5%Z)]) None] 0 None = inr d ∧
    td_response_ids d = [3; 7; 8; 5]%Z ∧ td_response_mask d = [1; 1; 1; 1]%Z.
Proof. eexists. split_and!; vm_compute; reflexivity. Qed.
