(* ===== verification/AgentData.v ===== *)
(** * Agent data

    The record of an episode that the agent loops fill in:
    [psrl/workers/agent_loop/agent_data/base.py] and
    [conversation_agent_data.py].  Steps are objects that the session and its
    trajectory share, so they live in a heap and both hold their positions.
    Messages, actions and media are JSON values; tokenizer and chat template,
    [np.sum] and what the reward manager answers are arguments.  Lengths of the
    configuration are naturals. *)

From S2P Require Import Prelude.
From S2P Require Import PyFloat.
From S2P Require Import StalenessBuffer.
From S2P Require Import PyData.

#[local] Open Scope nat_scope.

(** ** Data *)

(** [info] of a step: the media it carries and the keys that are written to it. *)
Record StepInfo := mkStepInfo {
  info_images : option (list Json);
  info_videos : option (list Json);
  info_instance : option RolloutInstanceId;
  info_decode_error : option exn;
}.

Definition no_info : StepInfo := mkStepInfo None None None None.

Record Step := mkStep {
  chat_completions : list Json;
  observation : list Json;
  action : option Json;
  model_response : string;
  step_info : StepInfo;
  tool_reward : option (list float);
  model_reward : option float;
  step_reward : option float;
  step_done : bool;
}.

Record Trajectory := mkTrajectory {
  tr_steps : list nat;
  tr_assistant_turns : nat;
  tr_user_turns : nat;
  tr_reward : option float;
  tr_response_length : nat;
  tr_prompt_ids : list Z;
  tr_response_ids : list Z;
  tr_response_mask : list Z;
  tr_response_logprobs : list float;
  tr_routed_experts : list Z;
  tr_tool_rewards : list float;
  tr_turn_scores : list float;
  tr_image_data : option (list Json);
  tr_video_data : option (list Json);
}.

Definition new_trajectory : Trajectory := mkTrajectory [] 0 0 None 0 [] [] [] [] [] [] [] None None.

Record SessionData := mkSession {
  heap : list Step;
  request_id : Z;
  parent_id : option Z;
  curr_rollout_instance_id : option RolloutInstanceId;
  validate : bool;
  steps : list nat;
  assistant_turns : nat;
  user_turns : nat;
  response_length : nat;
  trajectories : list Trajectory;
}.

(** The default values of the dataclass; the objects it does not reach are gone. *)
Definition new_session : SessionData := mkSession [] 0 None None false [] 0 0 0 [].

Record TokenOutput := mkTokenOutput {
  to_prompt_ids : list Z;
  to_response_ids : list Z;
  to_response_mask : list Z;
  to_response_log_probs : option (list float);
  to_routed_experts : option (list Z);
  to_images : option (list Json);
  to_videos : option (list Json);
  to_reward_score : option float;
  to_num_turns : option Z;
  to_instance : option RolloutInstanceId;
  to_tool_rewards : list float;
  to_turn_scores : list float;
}.

Inductive TrajRewardMode := ModeStep | ModeTraj | ModeOther.

#[export] Instance TrajRewardMode_eq_dec : EqDecision TrajRewardMode.
Proof. solve_decision. Defined.

Record DataConfig := mkDataConfig {
  c_prompt_length : nat;
  c_response_length : nat;
  c_max_turns : nat;
  c_gamma : float;
  c_reward_bonus_coeff : float;
  c_traj_reward_mode : TrajRewardMode;
  c_launch_reward_fn_async : bool;
}.

(** The request, as far as the session keeps it. *)
Record Request := mkRequest {
  rq_uid : Z;
  rq_parent_id : option Z;
  rq_validate : bool;
}.

(** Tokenizer, chat template and action parser: [chat_ids is_init messages images
    videos]; [parse_action] answers [None] where the class has no parser. *)
Record Codec := mkCodec {
  chat_ids : bool → list Json → option (list Json) → option (list Json) → Res (list Z);
  system_prompt_ids : list Z;
  decode : list Z → string;
  parse_action : list Z → option (Res Json);
  assistant_message : string → Json;
}.

Abbreviation Ad := (M SessionData).

(** ** Field updates *)

Definition with_heap h s := mkSession h (request_id s) (parent_id s) (curr_rollout_instance_id s) (validate s) (steps s) (assistant_turns s) (user_turns s) (response_length s) (trajectories s).
Definition with_instance i s := mkSession (heap s) (request_id s) (parent_id s) i (validate s) (steps s) (assistant_turns s) (user_turns s) (response_length s) (trajectories s).
Definition with_steps l s := mkSession (heap s) (request_id s) (parent_id s) (curr_rollout_instance_id s) (validate s) l (assistant_turns s) (user_turns s) (response_length s) (trajectories s).
Definition with_turns a u n s := mkSession (heap s) (request_id s) (parent_id s) (curr_rollout_instance_id s) (validate s) (steps s) a u n (trajectories s).
Definition with_trajectories l s := mkSession (heap s) (request_id s) (parent_id s) (curr_rollout_instance_id s) (validate s) (steps s) (assistant_turns s) (user_turns s) (response_length s) l.

Definition with_tr_steps l t := mkTrajectory l (tr_assistant_turns t) (tr_user_turns t) (tr_reward t) (tr_response_length t) (tr_prompt_ids t) (tr_response_ids t) (tr_response_mask t) (tr_response_logprobs t) (tr_routed_experts t) (tr_tool_rewards t) (tr_turn_scores t) (tr_image_data t) (tr_video_data t).
Definition with_tr_reward r t := mkTrajectory (tr_steps t) (tr_assistant_turns t) (tr_user_turns t) r (tr_response_length t) (tr_prompt_ids t) (tr_response_ids t) (tr_response_mask t) (tr_response_logprobs t) (tr_routed_experts t) (tr_tool_rewards t) (tr_turn_scores t) (tr_image_data t) (tr_video_data t).
Definition with_tr_prompt p t := mkTrajectory (tr_steps t) (tr_assistant_turns t) (tr_user_turns t) (tr_reward t) (tr_response_length t) p (tr_response_ids t) (tr_response_mask t) (tr_response_logprobs t) (tr_routed_experts t) (tr_tool_rewards t) (tr_turn_scores t) (tr_image_data t) (tr_video_data t).
Definition with_tr_turns a u n t := mkTrajectory (tr_steps t) a u (tr_reward t) n (tr_prompt_ids t) (tr_response_ids t) (tr_response_mask t) (tr_response_logprobs t) (tr_routed_experts t) (tr_tool_rewards t) (tr_turn_scores t) (tr_image_data t) (tr_video_data t).
Definition with_tr_response ids mask lps t := mkTrajectory (tr_steps t) (tr_assistant_turns t) (tr_user_turns t) (tr_reward t) (tr_response_length t) (tr_prompt_ids t) ids mask lps (tr_routed_experts t) (tr_tool_rewards t) (tr_turn_scores t) (tr_image_data t) (tr_video_data t).
Definition with_tr_experts e t := mkTrajectory (tr_steps t) (tr_assistant_turns t) (tr_user_turns t) (tr_reward t) (tr_response_length t) (tr_prompt_ids t) (tr_response_ids t) (tr_response_mask t) (tr_response_logprobs t) e (tr_tool_rewards t) (tr_turn_scores t) (tr_image_data t) (tr_video_data t).
Definition with_tr_rewards l t := mkTrajectory (tr_steps t) (tr_assistant_turns t) (tr_user_turns t) (tr_reward t) (tr_response_length t) (tr_prompt_ids t) (tr_response_ids t) (tr_response_mask t) (tr_response_logprobs t) (tr_routed_experts t) l (tr_turn_scores t) (tr_image_data t) (tr_video_data t).
Definition with_tr_media i v t := mkTrajectory (tr_steps t) (tr_assistant_turns t) (tr_user_turns t) (tr_reward t) (tr_response_length t) (tr_prompt_ids t) (tr_response_ids t) (tr_response_mask t) (tr_response_logprobs t) (tr_routed_experts t) (tr_tool_rewards t) (tr_turn_scores t) i v.

Definition with_chat c x := mkStep c (observation x) (action x) (model_response x) (step_info x) (tool_reward x) (model_reward x) (step_reward x) (step_done x).
Definition with_action a x := mkStep (chat_completions x) (observation x) a (model_response x) (step_info x) (tool_reward x) (model_reward x) (step_reward x) (step_done x).
Definition with_model_response r x := mkStep (chat_completions x) (observation x) (action x) r (step_info x) (tool_reward x) (model_reward x) (step_reward x) (step_done x).
Definition with_step_info i x := mkStep (chat_completions x) (observation x) (action x) (model_response x) i (tool_reward x) (model_reward x) (step_reward x) (step_done x).
Definition with_model_reward r x := mkStep (chat_completions x) (observation x) (action x) (model_response x) (step_info x) (tool_reward x) r (step_reward x) (step_done x).
Definition with_step_reward r x := mkStep (chat_completions x) (observation x) (action x) (model_response x) (step_info x) (tool_reward x) (model_reward x) r (step_done x).

(** ** [AgentData] *)

(** [self.session_data.trajectories[-1]] *)
Definition last_trajectory : Ad Trajectory := s ← gets id; of_option IndexError (last (trajectories s)).

Definition replace_last {A} (x : A) (l : list A) : list A := removelast l ++ [x].

Definition on_last (f : Trajectory → Trajectory) : Ad unit :=
  t ← last_trajectory; modify (λ s, with_trajectories (replace_last (f t) (trajectories s)) s).

Definition create_trajectory : Ad unit := modify (λ s, with_trajectories (trajectories s ++ [new_trajectory]) s).

Definition start_step (obs : list Json) (reward : option (list float)) (done : bool) (info : StepInfo) : Ad nat :=
  s ← gets id;
  let i := length (heap s) in
  modify (with_heap (heap s ++ [mkStep [] obs None "" info reward None None done])) ;;
  modify (λ s, with_steps (steps s ++ [i]) s) ;;
  on_last (λ t, with_tr_steps (tr_steps t ++ [i]) t) ;;
  mret i.

Definition get_current_step : Ad nat := s ← gets id; of_option RuntimeError (last (steps s)).

Definition on_step (i : nat) (f : Step → Step) : Ad unit := modify (λ s, with_heap (alter f i (heap s)) s).

Definition append_prompt_ids (prompt_ids : list Z) : Ad unit := on_last (with_tr_prompt prompt_ids).

Definition append_user_tokens (token_ids : list Z) : Ad unit :=
  if bool_decide (token_ids = []) then mret tt
  else
    let n := length token_ids in
    modify (λ s, with_turns (assistant_turns s) (user_turns s + 1) (response_length s + n) s) ;;
    on_last (λ t, with_tr_turns (tr_assistant_turns t) (tr_user_turns t + 1) (tr_response_length t + n)
      (with_tr_response (tr_response_ids t ++ token_ids) (tr_response_mask t ++ replicate n 0%Z)
        (if bool_decide (0 < length (tr_response_logprobs t)) then tr_response_logprobs t ++ replicate n fzero else tr_response_logprobs t) t)).

(** [if logprobs:] and [if routed_experts:] on a list or [None]. *)
Definition append_assistant_tokens (token_ids : list Z) (logprobs : option (list float)) (routed_experts : option (list Z)) : Ad unit :=
  if bool_decide (token_ids = []) then mret tt
  else
    let n := length token_ids in
    modify (λ s, with_turns (assistant_turns s + 1) (user_turns s) (response_length s + n) s) ;;
    on_last (λ t, with_tr_turns (tr_assistant_turns t + 1) (tr_user_turns t) (tr_response_length t + n)
      (with_tr_response (tr_response_ids t ++ token_ids) (tr_response_mask t ++ replicate n 1%Z) (tr_response_logprobs t ++ default [] logprobs) t)) ;;
    match routed_experts with
    | Some (x :: l) => on_last (with_tr_experts (x :: l))
    | _ => mret tt
    end.

Definition set_step_action (a : Json) : Ad unit := i ← get_current_step; on_step i (with_action (Some a)).
Definition set_step_model_response (text : string) : Ad unit := i ← get_current_step; on_step i (with_model_response text).
Definition add_step_chat_message (m : Json) : Ad unit := i ← get_current_step; on_step i (λ x, with_chat (chat_completions x ++ [m]) x).

Definition update_trajectory_state_from_output (out : TokenOutput) : Ad unit :=
  modify (with_instance (to_instance out)) ;;
  i ← get_current_step;
  on_step i (λ x, with_step_info (mkStepInfo (info_images (step_info x)) (info_videos (step_info x)) (to_instance out) (info_decode_error (step_info x))) x).

Section data.
Context (cfg : DataConfig) (np_sum : list float → float).

(** ** Rewards *)

Definition compute_step_reward (i : nat) : Ad float :=
  s ← gets id;
  x ← of_option IndexError (heap s !! i);
  let tool := match tool_reward x with Some l => np_sum l | None => fzero end in
  let r := fadd tool (default fzero (model_reward x)) in
  on_step i (with_step_reward (Some r)) ;;
  mret r.

(** The rewards of the steps of a trajectory; [None] has no arithmetic. *)
Definition step_rewards (ixs : list nat) : Ad (list float) :=
  map_each ixs (λ i, s ← gets id; x ← of_option IndexError (heap s !! i); of_option TypeError (step_reward x)).

Fixpoint shape_rewards (prev : float) (raw : list float) (ixs : list nat) : Ad unit :=
  match raw, ixs with
  | r :: raw, i :: ixs =>
      s ← gets id;
      x ← of_option IndexError (heap s !! i);
      cur ← of_option TypeError (step_reward x);
      on_step i (with_step_reward (Some (fadd cur (fmul (c_reward_bonus_coeff cfg) (fsub r prev))))) ;;
      shape_rewards r raw ixs
  | _, _ => mret tt
  end.

(** Monte Carlo returns, backwards; [rev_ixs] is the reversed list of steps. *)
Fixpoint mc_returns (G : float) (rev_ixs : list nat) : Ad unit :=
  match rev_ixs with
  | [] => mret tt
  | i :: rest =>
      s ← gets id;
      x ← of_option IndexError (heap s !! i);
      r ← of_option TypeError (step_reward x);
      let G := fadd r (fmul (c_gamma cfg) G) in
      on_step i (with_step_reward (Some G)) ;;
      mc_returns G rest
  end.

Definition adjust_step_rewards (t : Trajectory) : Ad unit :=
  (if fltb fzero (c_reward_bonus_coeff cfg) then
     raw ← step_rewards (tr_steps t);
     match raw, tr_steps t with
     | r0 :: raw, _ :: ixs => shape_rewards r0 raw ixs
     | _, _ => mret tt
     end
   else mret tt) ;;
  if fltb fzero (c_gamma cfg) then mc_returns fzero (reverse (tr_steps t)) else mret tt.

(** ** The output *)

Definition truncate (t : Trajectory) : Trajectory :=
  let n := c_response_length cfg in
  with_tr_response (take n (tr_response_ids t)) (take n (tr_response_mask t)) (take n (tr_response_logprobs t)) t.

Definition output_of (s : SessionData) (t : Trajectory) : TokenOutput :=
  mkTokenOutput (tr_prompt_ids t) (tr_response_ids t) (tr_response_mask t)
    (if bool_decide (0 < length (tr_response_logprobs t)) then Some (tr_response_logprobs t) else None)
    (if bool_decide (0 < length (tr_routed_experts t)) then Some (take (length (tr_prompt_ids t) + c_response_length cfg) (tr_routed_experts t)) else None)
    (tr_image_data t) (tr_video_data t) None (Some (Z.of_nat (assistant_turns s + user_turns s + 1))) (curr_rollout_instance_id s)
    (tr_tool_rewards t) (tr_turn_scores t).

Definition with_reward_score (r : float) (o : TokenOutput) : TokenOutput :=
  mkTokenOutput (to_prompt_ids o) (to_response_ids o) (to_response_mask o) (to_response_log_probs o) (to_routed_experts o) (to_images o) (to_videos o)
    (Some r) (to_num_turns o) (to_instance o) (to_tool_rewards o) (to_turn_scores o).

(** The reward of a trajectory from its steps: [traj_reward_mode] is [step]. *)
Definition score_steps (kt : nat * TokenOutput) : Ad TokenOutput :=
  let '(k, out) := kt in
  s ← gets id;
  t ← of_option IndexError (trajectories s !! k);
  rs ← map_each (tr_steps t) compute_step_reward;
  let r := np_sum rs in
  modify (λ s, with_trajectories (<[k := with_tr_reward (Some r) t]> (trajectories s)) s) ;;
  (if bool_decide (1 < length (tr_steps t)) then adjust_step_rewards t else mret tt) ;;
  mret (with_reward_score r out).

(** [answer] is what the reward manager answers; [None] stands for every false value.
    The result is [None], or one output or several. *)
Definition finalize_output (answer : option float) : Ad (option (list TokenOutput)) :=
  modify (λ s, with_trajectories (truncate <$> trajectories s) s) ;;
  s ← gets id;
  let outputs := output_of s <$> trajectories s in
  match c_traj_reward_mode cfg with
  | ModeStep =>
      assert (negb (c_launch_reward_fn_async cfg)) ;;
      outputs ← map_each (imap pair outputs) score_steps;
      mret (Some outputs)
  | ModeTraj =>
      _ ← of_option IndexError (last outputs);
      if c_launch_reward_fn_async cfg then mret (Some outputs)
      else match answer with
           | None => mret None
           | Some r => mret (Some (with_reward_score r <$> outputs))
           end
  | ModeOther => raise ValueError
  end.

(** ** [ConversationAgentData] *)

Context (codec : Codec).

Definition reset : Ad unit := modify (λ _, new_session).

Definition init_trajectory (r : Request) : Ad unit :=
  modify (λ _, mkSession [] (rq_uid r) (rq_parent_id r) None (rq_validate r) [] 0 0 0 [new_trajectory]).

Definition is_overlong (t : Trajectory) : bool :=
  bool_decide (c_prompt_length cfg + c_response_length cfg ≤ length (tr_prompt_ids t) + length (tr_response_ids t)).

Definition encode_observation (obs : list Json) (images videos : option (list Json)) (is_init : bool) : Res (list Z * bool) :=
  match obs with
  | [] => inr ([], is_init)
  | _ =>
      match chat_ids codec is_init obs images videos with
      | inl e => inl e
      | inr ids => inr (if is_init then ids else drop (length (system_prompt_ids codec)) ids, is_init)
      end
  end.

(** [extend] on data that may be [None], for a non-empty list only. *)
Definition extend_media (new old : option (list Json)) : option (list Json) :=
  match new with Some (x :: l) => Some (default [] old ++ x :: l) | _ => old end.

(** The reward of an environment step: a number, a list of numbers or [None]. *)
Inductive EnvReward := RewardNone | RewardNum (r : float) | RewardList (l : list float).

Definition reward_list (r : EnvReward) : option (list float) :=
  match r with RewardNone => None | RewardNum r => Some [r] | RewardList l => Some l end.

(** [float(np.sum(reward))]; of a number it is the number. *)
Definition reward_total (r : EnvReward) : option float :=
  match r with RewardNone => None | RewardNum r => Some r | RewardList l => Some (np_sum l) end.

Definition update_from_env (obs : list Json) (reward : EnvReward) (done : bool) (info : StepInfo) : Ad bool :=
  t ← last_trajectory;
  let is_init := bool_decide (length (tr_steps t) = 0) in
  let images := info_images info in
  let videos := info_videos info in
  on_last (λ t, with_tr_media (extend_media images (tr_image_data t)) (extend_media videos (tr_video_data t)) t) ;;
  (if bool_decide (length (tr_steps t) < c_max_turns cfg) then
     i ← start_step obs (reward_list reward) done info;
     on_step i (with_chat obs) ;;
     '(ids, is_prompt) ← of_res (encode_observation obs images videos is_init);
     if is_prompt : bool then append_prompt_ids ids else append_user_tokens ids
   else mret tt) ;;
  (match reward_total reward with Some r => on_last (λ t, with_tr_rewards (tr_tool_rewards t ++ [r]) t) | None => mret tt end) ;;
  t ← last_trajectory;
  mret (is_overlong t).

(** [answer] is the score that the reward manager answers for the step. *)
Definition update_from_model_token_ids (out : TokenOutput) (answer : option float) : Ad (option Json * bool) :=
  t ← last_trajectory;
  (if bool_decide (length (tr_steps t) = 0) then start_step [] None false no_info ;; mret tt else mret tt) ;;
  update_trajectory_state_from_output out ;;
  append_assistant_tokens (to_response_ids out) (to_response_log_probs out) (to_routed_experts out) ;;
  let content := decode codec (to_response_ids out) in
  add_step_chat_message (assistant_message codec content) ;;
  set_step_model_response content ;;
  act ← match parse_action codec (to_response_ids out) with
        | None => mret None
        | Some (inr a) => mret (Some a)
        | Some (inl e) =>
            i ← get_current_step;
            on_step i (λ x, with_step_info (mkStepInfo (info_images (step_info x)) (info_videos (step_info x)) (info_instance (step_info x)) (Some e)) x) ;;
            mret (Some (JArr []))
        end;
  (match act with Some a => set_step_action a | None => mret tt end) ;;
  (if bool_decide (c_traj_reward_mode cfg = ModeStep) then
     r ← of_option TypeError answer;
     i ← get_current_step;
     on_step i (with_model_reward (Some r))
   else mret tt) ;;
  t ← last_trajectory;
  mret (act, is_overlong t).
End data.
