(* ===== verification/AgentRun.v ===== *)
(** * Agent loops

    How an episode runs: the termination reasons ([loops/utils.py]), the
    generation requests and the handling of terminations
    ([loops/base_agent_loop.py]), the single-turn loop ([generate_agent_loop.py])
    and the multi-turn loop ([multi_turn_agent_loop.py]), all under
    [psrl/workers/agent_loop].  The answers of the gateway and of the environment
    are arguments, as are the chat template and the recognition of images; sound
    is treated the way videos are.  What goes wrong while the payload of a request
    is built counts as an answer of the gateway. *)

From S2P Require Import Prelude.
From S2P Require Import PyFloat.
From S2P Require Import StalenessBuffer.
From S2P Require Import PyData.
From S2P Require Import AgentData.

#[local] Open Scope Z_scope.

(** ** [TerminateReason] *)

Inductive TerminateReason :=
  | FINISHED | MAX_RESPONSE_LENGTH_EXCEEDED | MAX_TURNS_EXCEEDED | AGENT_TIMEOUT | VERIFIER_ERROR
  | ENV_TIMEOUT | TRAJECTORY_TIMEOUT | ABORTED | UNKNOWN | ROLLOUT_ERROR.

#[export] Instance TerminateReason_eq_dec : EqDecision TerminateReason.
Proof. solve_decision. Defined.

Definition reason_value (r : TerminateReason) : string :=
  match r with
  | FINISHED => "finished"
  | MAX_RESPONSE_LENGTH_EXCEEDED => "max_response_length_exceeded"
  | MAX_TURNS_EXCEEDED => "max_turns_exceeded"
  | AGENT_TIMEOUT => "agent_timeout"
  | VERIFIER_ERROR => "verifier_error"
  | ENV_TIMEOUT => "env_timeout"
  | TRAJECTORY_TIMEOUT => "trajectory_timeout"
  | ABORTED => "aborted"
  | UNKNOWN => "unknown"
  | ROLLOUT_ERROR => "rollout_error"
  end.

Definition is_successful (r : TerminateReason) : bool :=
  match r with
  | FINISHED | MAX_TURNS_EXCEEDED | MAX_RESPONSE_LENGTH_EXCEEDED | AGENT_TIMEOUT | VERIFIER_ERROR | ENV_TIMEOUT => true
  | _ => false
  end.
Definition is_ungraded (r : TerminateReason) : bool := bool_decide (r = VERIFIER_ERROR).
Definition is_budget_truncated (r : TerminateReason) : bool := bool_decide (r = MAX_TURNS_EXCEEDED ∨ r = MAX_RESPONSE_LENGTH_EXCEEDED).
Definition is_timeout (r : TerminateReason) : bool := bool_decide (r = TRAJECTORY_TIMEOUT).
Definition is_error (r : TerminateReason) : bool := bool_decide (r = ROLLOUT_ERROR ∨ r = UNKNOWN).
Definition is_aborted (r : TerminateReason) : bool := bool_decide (r = ABORTED).
Definition needs_worker_retry (r : TerminateReason) : bool := is_timeout r || is_error r.
Definition needs_manager_retry (r : TerminateReason) : bool := negb (is_successful r) && negb (is_aborted r).

(** ** Generation requests *)

Inductive TokenMode := Unexpanded | Preexpanded.

#[export] Instance TokenMode_eq_dec : EqDecision TokenMode.
Proof. solve_decision. Defined.

(** The request dictionary of a loop; [None] for a missing key. *)
Record GenRequest := mkGenRequest {
  g_uid : Z;
  g_parent_id : option Z;
  g_validate : bool;
  g_version_tag : Z;
  g_instance : option RolloutInstanceId;
  g_raw_prompt : option (list Json);
  g_input_ids : option (list Z);
  g_raw_prompt_ids : option (list Z);
  g_raw_response_ids : option (list Z);
  g_images : option (list Json);
  g_videos : option (list Json);
  g_token_mode : option TokenMode;
  g_stop_token_ids : option (list Z);
}.

Definition with_g_ids p r q := mkGenRequest (g_uid q) (g_parent_id q) (g_validate q) (g_version_tag q) (g_instance q) (g_raw_prompt q) (g_input_ids q) p r (g_images q) (g_videos q) (g_token_mode q) (g_stop_token_ids q).
Definition with_g_instance i q := mkGenRequest (g_uid q) (g_parent_id q) (g_validate q) (g_version_tag q) i (g_raw_prompt q) (g_input_ids q) (g_raw_prompt_ids q) (g_raw_response_ids q) (g_images q) (g_videos q) (g_token_mode q) (g_stop_token_ids q).
Definition with_g_media i v q := mkGenRequest (g_uid q) (g_parent_id q) (g_validate q) (g_version_tag q) (g_instance q) (g_raw_prompt q) (g_input_ids q) (g_raw_prompt_ids q) (g_raw_response_ids q) i v (g_token_mode q) (g_stop_token_ids q).
Definition with_g_mode m q := mkGenRequest (g_uid q) (g_parent_id q) (g_validate q) (g_version_tag q) (g_instance q) (g_raw_prompt q) (g_input_ids q) (g_raw_prompt_ids q) (g_raw_response_ids q) (g_images q) (g_videos q) m (g_stop_token_ids q).

Record TokenInput := mkTokenInput {
  ti_input_ids : list Z;
  ti_request_id : Z;
  ti_prompt_id : Z;
  ti_instance : option RolloutInstanceId;
  ti_version_tag : Z;
  ti_cu_response_len : nat;
  ti_images : option (list Json);
  ti_videos : option (list Json);
  ti_raw_prompt : option (list Json);
  ti_is_validate : bool;
  ti_stop_token_ids : option (list Z);
}.

Record Sampling := mkSampling {
  sp_temperature : float;
  sp_top_p : float;
  sp_top_k : Z;
}.

Record LoopConfig := mkLoopConfig {
  lc_data : DataConfig;
  lc_max_model_len : option nat;
  lc_sampling : Sampling;
  lc_val_sampling : Sampling;
  lc_rust : bool;
  lc_pad_token_id : Z;
  lc_gateway : bool;
  lc_routing_replay : bool;
}.

Record SamplingParams := mkSamplingParams {
  max_new_tokens : Z;
  sampling : Sampling;
  stop_token_ids : gset Z;
}.

(** One response of the gateway to [/generate]. *)
Record GenResponse := mkGenResponse {
  gr_output_ids : list Z;
  gr_prompt_token_ids : option (list Z);
  gr_prompt_tokens : option nat;
  gr_output_token_logprobs : option (list (list (option float)));
  gr_routed_experts : option (list Z);
}.

(** What posting to the gateway does. *)
Inductive GatewayAnswer :=
  | Responses (l : list GenResponse) (instance : RolloutInstanceId)
  | AbortedByGateway
  | TimedOut
  | Failed (e : exn).

(** How a call ends that the loops let through: an exception of the gateway, a time-out
    or any other one. *)
Inductive Stop := StopAborted | StopTimeout | StopError (e : exn).

Section loops.
Context (cfg : LoopConfig) (template : bool → list Json → option (list Json) → option (list Json) → Res (list Z))
  (media_of : list Json → option (list Json) * option (list Json)) (contains_images : list Json → bool).

Definition P : nat := c_prompt_length (lc_data cfg).
Definition R : nat := c_response_length (lc_data cfg).

(** [bool(x)] of a list or [None]. *)
Definition nonempty {A} (l : option (list A)) : bool := match l with Some (_ :: _) => true | _ => false end.

(** [_pre_process_inputs]: without the padding on the left. *)
Fixpoint strip_left_padding (pad : Z) (ids : list Z) : Res (list Z) :=
  match ids with
  | [] => inl IndexError
  | i :: rest => if bool_decide (i = pad) then strip_left_padding pad rest else inr ids
  end.

(** [prompt_ids[-n:]] *)
Definition keep_right (n : nat) (ids : list Z) : list Z := if bool_decide (n = 0%nat) then ids else drop (length ids - n) ids.

Definition apply_chat_template (messages : list Json) (images videos : option (list Json)) (expand : bool) : Res (list Z) :=
  match template expand messages images videos with
  | inl e => inl e
  | inr ids =>
      if bool_decide (P < length ids)%nat then
        if nonempty images || nonempty videos then inl ValueError else inr (keep_right P ids)
      else inr ids
  end.

Definition raw_images (messages : option (list Json)) : bool := match messages with Some (m :: l) => contains_images (m :: l) | _ => false end.

Definition has_raw_images (q : GenRequest) : bool := raw_images (g_raw_prompt q).

Definition expected_mode (q : GenRequest) : TokenMode := if lc_rust cfg && has_raw_images q then Unexpanded else Preexpanded.

(** The prompt is tokenized again when the mode of its tokens is another one. *)
Definition rebuild (q : GenRequest) : bool := has_raw_images q && bool_decide (g_token_mode q ≠ Some (expected_mode q)).

(** The prompt tokens, the messages and the request with what was stored in it. *)
Definition prompt_tokens (q : GenRequest) : Res (list Z * option (list Json) * GenRequest) :=
  match g_raw_prompt_ids q, rebuild q with
  | Some ids, false => inr (ids, g_raw_prompt q, q)
  | _, again =>
      match g_input_ids q, again, g_raw_prompt q with
      | Some ids, false, _ =>
          match strip_left_padding (lc_pad_token_id cfg) ids with inl e => inl e | inr ids => inr (ids, None, q) end
      | _, _, Some messages =>
          let '(images, videos) := media_of messages in
          match apply_chat_template messages images videos (negb (has_raw_images q && lc_rust cfg)) with
          | inl e => inl e
          | inr ids =>
              let q' := with_g_ids (Some ids) (g_raw_response_ids q) q in
              let q' := if has_raw_images q then with_g_mode (Some (expected_mode q)) q' else q' in
              inr (ids, Some messages, match images, videos with None, None => q' | _, _ => with_g_media images videos q' end)
          end
      | _, _, None => inl ValueError
      end
  end.

Definition pre_process_inputs (q : GenRequest) : Res (TokenInput * GenRequest) :=
  match prompt_tokens q with
  | inl e => inl e
  | inr (ids, messages, q') =>
      let response := default [] (g_raw_response_ids q) in
      inr (mkTokenInput (ids ++ response) (g_uid q) (default (g_uid q) (g_parent_id q)) (g_instance q) (g_version_tag q) (length response)
             (g_images q') (g_videos q') messages (g_validate q) (g_stop_token_ids q), q')
  end.

Definition get_sampling_params (t : TokenInput) : Res SamplingParams :=
  let has_images := nonempty (ti_images t) || raw_images (ti_raw_prompt t) in
  let input_length := Z.of_nat (if has_images && lc_rust cfg then P else length (ti_input_ids t)) in
  let max_model_len := Z.of_nat (default (P + R)%nat (lc_max_model_len cfg)) in
  let max_possible_tokens := max_model_len - input_length in
  if bool_decide (max_possible_tokens < 0) then inl ValueError
  else
    let max_tokens := Z.max 0 (Z.min (Z.of_nat R + Z.of_nat P - input_length) max_possible_tokens) in
    if bool_decide (max_tokens ≤ max_possible_tokens) then
      inr (mkSamplingParams max_tokens (if ti_is_validate t then lc_val_sampling cfg else lc_sampling cfg) (list_to_set (default [] (ti_stop_token_ids t))))
    else inl AssertionError.

(** The log probability of the token that was sampled. *)
Definition first_logprob (per_pos : list (option float)) : float := match omap id per_pos with lp :: _ => lp | [] => fzero end.

Definition gateway_prompt_ids (expects : bool) (t : TokenInput) (r : GenResponse) : Res (list Z) :=
  if expects then
    match gr_prompt_token_ids r with
    | None => inl RuntimeError
    | Some ids =>
        if match gr_prompt_tokens r with Some n => bool_decide (n ≠ length ids) | None => false end then inl RuntimeError
        else if bool_decide (P < length ids)%nat then inl ValueError
        else inr ids
    end
  else inr (ti_input_ids t).

(** The result of [generate_sequence]: [None] when the gateway answers nothing. *)
Definition read_responses (t : TokenInput) (l : list GenResponse) (instance : RolloutInstanceId) : Res (option TokenOutput) :=
  match l with
  | [] => inr None
  | r :: _ =>
      let image_refs := nonempty (ti_images t) || raw_images (ti_raw_prompt t) in
      match gateway_prompt_ids (image_refs && lc_rust cfg) t r with
      | inl e => inl e
      | inr prompt_ids =>
          inr (Some (mkTokenOutput prompt_ids (gr_output_ids r) (replicate (length (gr_output_ids r)) 1)
            (map first_logprob <$> gr_output_token_logprobs r) (if lc_routing_replay cfg then gr_routed_experts r else None) (ti_images t) (ti_videos t) None None (Some instance) [] []))
      end
  end.

Definition generate_sequence (post : TokenInput → SamplingParams → GatewayAnswer) (q : GenRequest) : Stop + (option TokenOutput * GenRequest) :=
  match pre_process_inputs q with
  | inl e => inl (StopError e)
  | inr (t, q') =>
      match get_sampling_params t with
      | inl e => inl (StopError e)
      | inr sp =>
          if negb (lc_gateway cfg) then inl (StopError RuntimeError)
          else if nonempty (ti_videos t) then inl (StopError RuntimeError) (* NotImplementedError *)
          else match post t sp with
               | AbortedByGateway => inl StopAborted
               | TimedOut => inl StopTimeout
               | Failed e => inl (StopError e)
               | Responses l instance =>
                   match read_responses t l instance with
                   | inl e => inl (StopError e)
                   | inr o => inr (o, q')
                   end
               end
      end
  end.

(** ** The single-turn loop *)

(** [compute_reward_score]: the answer of the reward manager, [None] for every false one. *)
Definition compute_reward_score (answer : option float) (outs : list TokenOutput) : Res (option (list TokenOutput)) :=
  match last outs with
  | None => inl IndexError
  | Some _ =>
      if c_launch_reward_fn_async (lc_data cfg) then inr (Some outs)
      else match answer with None => inr None | Some r => inr (Some (with_reward_score r <$> outs)) end
  end.

Definition clip_output (o : TokenOutput) : TokenOutput :=
  mkTokenOutput (to_prompt_ids o) (take R (to_response_ids o)) (take R (to_response_mask o)) (take R <$> to_response_log_probs o)
    (take (length (to_prompt_ids o) + R) <$> to_routed_experts o) (to_images o) (to_videos o) (to_reward_score o) (Some 2) (to_instance o) (to_tool_rewards o) (to_turn_scores o).

Definition generate_run (post : TokenInput → SamplingParams → GatewayAnswer) (answer : option float) (q : GenRequest)
    : Stop + (option (list TokenOutput) * TerminateReason) :=
  match generate_sequence post q with
  | inl s => inl s
  | inr (None, _) => inr (None, UNKNOWN)
  | inr (Some o, _) =>
      match compute_reward_score answer [clip_output o] with
      | inl e => inl (StopError e)
      | inr None => inr (None, ABORTED)
      | inr (Some outs) => inr (Some outs, FINISHED)
      end
  end.

(** ** The multi-turn loop *)

Inductive EnvAnswer :=
  | EnvOut (obs : list Json) (reward : EnvReward) (done : bool) (info : StepInfo)
  | EnvTimeout
  | EnvFailed (e : exn).

(** Who an episode talks to: the environment, the gateway and the reward manager, each
    asked at most once in a turn. *)
Record Partners := mkPartners {
  env_reset : Res (list Json * StepInfo);
  post : nat → TokenInput → SamplingParams → GatewayAnswer;
  env_step : nat → option Json → EnvAnswer;
  score : nat → option float;
  final_score : option float;
}.

Context (np_sum : list float → float) (codec : Codec) (partners : Partners).

Definition prepare_generation_request (q : GenRequest) : Ad GenRequest :=
  t ← last_trajectory;
  s ← gets id;
  let q := with_g_ids (Some (tr_prompt_ids t)) (Some (tr_response_ids t)) q in
  let q := match curr_rollout_instance_id s with Some i => with_g_instance (Some i) q | None => q end in
  mret (match tr_image_data t, tr_video_data t with None, None => q | i, v => with_g_media i v q end).

Abbreviation Episode := (Ad (Stop + (option (list TokenOutput) * TerminateReason))).

Definition finish (reason : TerminateReason) : Episode :=
  out ← finalize_output (lc_data cfg) np_sum (final_score partners);
  mret (inr (out, reason)).

Fixpoint turns (n k : nat) (q : GenRequest) : Episode :=
  match n with
  | O => finish MAX_TURNS_EXCEEDED
  | S n =>
      q ← prepare_generation_request q;
      match generate_sequence (post partners k) q with
      | inl stop => mret (inl stop)
      | inr (None, _) => mret (inr (None, ABORTED))
      | inr (Some out, q) =>
          '(act, overlong) ← update_from_model_token_ids (lc_data cfg) codec out (score partners k);
          if overlong : bool then finish MAX_RESPONSE_LENGTH_EXCEEDED
          else match env_step partners k act with
               | EnvTimeout => finish ENV_TIMEOUT
               | EnvFailed e => raise e
               | EnvOut obs reward done info =>
                   overlong ← update_from_env (lc_data cfg) np_sum codec obs reward done info;
                   if overlong : bool then finish MAX_RESPONSE_LENGTH_EXCEEDED
                   else if done : bool then finish FINISHED
                   else turns n (S k) q
               end
      end
  end.

Definition multi_turn_run (q : GenRequest) : Episode :=
  reset ;;
  '(obs, info) ← of_res (env_reset partners);
  init_trajectory (mkRequest (g_uid q) (g_parent_id q) (g_validate q)) ;;
  overlong ← update_from_env (lc_data cfg) np_sum codec obs (RewardNum fzero) false info;
  if overlong : bool then finish MAX_RESPONSE_LENGTH_EXCEEDED else turns (c_max_turns (lc_data cfg)) 0 q.

(** ** Termination handling *)

(** The result of [run], or the time limit of the trajectory. *)
Definition run_result {A} (o : outcome SessionData (Stop + A)) : Stop + A :=
  match o with Ret r _ => r | Raise e _ => inl (StopError e) end.
End loops.

Definition run_with_termination_handling {A} (raise_on_error : bool) (r : Stop + (option A * TerminateReason)) : Res (option A * TerminateReason) :=
  match r with
  | inr (Some out, reason) => inr (Some out, reason)
  | inr (None, reason) =>
      if is_aborted reason then inr (None, reason)
      else if needs_worker_retry reason then
        if is_error reason && raise_on_error then inl RuntimeError else inr (None, reason)
      else if raise_on_error then inl RuntimeError else inr (None, UNKNOWN)
  | inl StopAborted => inr (None, ABORTED)
  | inl StopTimeout => inr (None, TRAJECTORY_TIMEOUT)
  | inl (StopError e) => if raise_on_error then inl e else inr (None, ROLLOUT_ERROR)
  end.

(** ** The text of a trajectory *)

Inductive Role := Assistant | Observation.

#[export] Instance Role_eq_dec : EqDecision Role.
Proof. solve_decision. Defined.

Definition role_of (mask : bool) : Role := if mask then Assistant else Observation.

(** The runs of equal mask; a run is decoded as a whole. *)
Fixpoint segment_loop (rows : list (Z * Z)) (run_ids : list Z) (run_mask : bool) : list (Role * list Z) :=
  match rows with
  | [] => match run_ids with [] => [] | _ => [(role_of run_mask, run_ids)] end
  | (tok, mask) :: rest =>
      let mask := bool_decide (mask ≠ 0) in
      if bool_decide (mask = run_mask) then segment_loop rest (run_ids ++ [tok]) run_mask
      else (role_of run_mask, run_ids) :: segment_loop rest [tok] mask
  end.

Definition segment_by_mask (response_ids response_mask : list Z) : list (Role * list Z) :=
  match response_ids with
  | [] => []
  | _ =>
      match response_mask with
      | m :: _ =>
          if bool_decide (length response_mask = length response_ids) then segment_loop (zip response_ids response_mask) [] (bool_decide (m ≠ 0))
          else [(Assistant, response_ids)]
      | [] => [(Assistant, response_ids)]
      end
  end.
