(* ===== verification/AgentRunTheorems.v ===== *)
(** * Episodes: theorems

    The multi-turn loop against an abstract machine of episodes: what the model is
    asked, what is recorded, how long the context gets and when the episode ends;
    the rewards of a trajectory; the segments of its text. *)

From S2P Require Import Prelude.
From S2P Require Import PyFloat.
From S2P Require Import StalenessBuffer.
From S2P Require Import PyData.
From S2P Require Import AgentData.
From S2P Require Import AgentRun.

#[local] Open Scope nat_scope.

(** ** The machine of episodes

    A state is the number of finished turns, what happens next, and the response
    so far with its mask. *)

Inductive Phase := AskModel | AskEnv (act : option Json) | Over (reason : TerminateReason).

Record EpisodeState := mkEpisode {
  ep_turn : nat;
  ep_phase : Phase;
  ep_ids : list Z;
  ep_mask : list Z;
}.

Section machine.
Context (cfg : LoopConfig) (codec : Codec) (partners : Partners) (prompt : list Z).

Definition full (ids : list Z) : bool := bool_decide (P cfg + R cfg ≤ length prompt + length ids).

Definition parsed (out : list Z) : option Json :=
  match parse_action codec out with None => None | Some (inr a) => Some a | Some (inl _) => Some (JArr []) end.

(** Where the episode goes after an observation. *)
Definition after_env (turn : nat) (done : bool) (ids : list Z) : Phase :=
  if full ids then Over MAX_RESPONSE_LENGTH_EXCEEDED else if done then Over FINISHED
  else if bool_decide (turn < c_max_turns (lc_data cfg)) then AskModel else Over MAX_TURNS_EXCEEDED.

(** The tokens of an observation; the one after the last turn is not recorded. *)
Definition observed (turn : nat) (obs : list Json) (ids : list Z) : Prop :=
  if bool_decide (S turn < c_max_turns (lc_data cfg)) then encode_observation codec obs None None false = inr (ids, false) else ids = [].

Inductive episode_step : EpisodeState → EpisodeState → Prop :=
  | step_model k ids mask t sp r rest instance :
      ti_input_ids t = prompt ++ ids →
      max_new_tokens sp = (Z.of_nat (P cfg + R cfg) - Z.of_nat (length (prompt ++ ids)))%Z →
      post partners k t sp = Responses (r :: rest) instance →
      episode_step (mkEpisode k AskModel ids mask)
        (mkEpisode k (if full (ids ++ gr_output_ids r) then Over MAX_RESPONSE_LENGTH_EXCEEDED else AskEnv (parsed (gr_output_ids r)))
           (ids ++ gr_output_ids r) (mask ++ replicate (length (gr_output_ids r)) 1%Z))
  | step_env k act ids mask obs reward done info new :
      env_step partners k act = EnvOut obs reward done info → observed k obs new →
      episode_step (mkEpisode k (AskEnv act) ids mask)
        (mkEpisode (S k) (after_env (S k) done (ids ++ new)) (ids ++ new) (mask ++ replicate (length new) 0%Z))
  | step_timeout k act ids mask :
      env_step partners k act = EnvTimeout →
      episode_step (mkEpisode k (AskEnv act) ids mask) (mkEpisode k (Over ENV_TIMEOUT) ids mask).

Definition episode_start : EpisodeState := mkEpisode 0 (after_env 0 false []) [] [].
End machine.

(** ** The session of an episode *)

(** The session holds one trajectory with this prompt and response, [n] steps and no
    media. *)
Definition holding (prompt ids mask : list Z) (n : nat) (s : SessionData) : Prop :=
  ∃ t, trajectories s = [t] ∧ tr_prompt_ids t = prompt ∧ tr_response_ids t = ids ∧ tr_response_mask t = mask ∧ length (tr_steps t) = n ∧
    tr_image_data t = None ∧ tr_video_data t = None ∧ (0 < n → is_Some (last (steps s))).

(** Text only, and partners that answer. *)
Record cooperative (cfg : LoopConfig) (contains_images : list Json → bool) (codec : Codec) (partners : Partners) (q : GenRequest) : Prop := {
  coop_reset : ∃ obs, env_reset partners = inr (obs, no_info);
  coop_post : ∀ k t sp, ∃ r rest instance, post partners k t sp = Responses (r :: rest) instance;
  coop_env : ∀ k act, env_step partners k act = EnvTimeout ∨ ∃ obs reward done, env_step partners k act = EnvOut obs reward done no_info;
  coop_encode : ∀ is_init obs, ∃ ids, chat_ids codec is_init obs None None = inr ids;
  coop_score : c_traj_reward_mode (lc_data cfg) = ModeTraj ∧ (c_launch_reward_fn_async (lc_data cfg) = true ∨ is_Some (final_score partners));
  coop_text : g_images q = None ∧ g_videos q = None ∧ has_raw_images contains_images q = false;
  coop_config : lc_gateway cfg = true ∧ 0 < c_max_turns (lc_data cfg) ∧ from_option (λ n, P cfg + R cfg ≤ n) True (lc_max_model_len cfg);
}.

Section refine.
Context (cfg : LoopConfig) (np_sum : list float → float) (codec : Codec).
Abbreviation dc := (lc_data cfg).

(** Runs a method on a session whose fields are known. *)
Ltac session := unfold on_last, last_trajectory, start_step, on_step, get_current_step, append_prompt_ids, append_user_tokens, append_assistant_tokens,
  set_step_action, set_step_model_response, add_step_chat_message, update_trajectory_state_from_output, mbind, M_bind, mret, M_ret, gets, of_option, of_res, modify, id; simpl.

Lemma append_user_run prompt ids mask n s new :
  holding prompt ids mask n s → ∃ s', append_user_tokens new s = Ret tt s' ∧ holding prompt (ids ++ new) (mask ++ replicate (length new) 0%Z) n s' ∧ steps s' = steps s.
Proof.
  intros (t & Et & <- & <- & <- & <- & Hi & Hv & Hl). destruct s; simpl in *. subst. session. case_bool_decide as Hn.
  - subst. simpl. rewrite !app_nil_r. eexists. split_and!; [done|by exists t|done].
  - session. eexists. split_and!; [done| |done]. eexists. split_and!; try done.
Qed.

Lemma append_assistant_run prompt ids mask n s new lps ex :
  holding prompt ids mask n s → ∃ s', append_assistant_tokens new lps ex s = Ret tt s' ∧ holding prompt (ids ++ new) (mask ++ replicate (length new) 1%Z) n s' ∧ steps s' = steps s.
Proof.
  intros (t & Et & <- & <- & <- & <- & Hi & Hv & Hl). destruct s; simpl in *. subst. session. case_bool_decide as Hn.
  - subst. simpl. rewrite !app_nil_r. eexists. split_and!; [done|by exists t|done].
  - destruct ex as [[|x l]|]; session; (eexists; split_and!; [done| |done]); eexists; by split_and!.
Qed.

Lemma encode_total obs b : (∃ ids, chat_ids codec b obs None None = inr ids) → ∃ ids, encode_observation codec obs None None b = inr (ids, b).
Proof. intros [ids E]. unfold encode_observation. destruct obs; [by eexists|]. rewrite E. by eexists. Qed.

Lemma add_reward_run r prompt ids mask n s :
  holding prompt ids mask n s →
  ∃ s', (match reward_total np_sum r with Some r => on_last (λ t, with_tr_rewards (tr_tool_rewards t ++ [r]) t) | None => mret tt end) s = Ret tt s' ∧ holding prompt ids mask n s'.
Proof.
  intros Hh. destruct (reward_total np_sum r) as [x|]; [|by eexists]. destruct Hh as (t & Et & <- & <- & <- & <- & Hi & Hv & Hl).
  destruct s; simpl in *. subst. session. eexists. split; [done|]. eexists. by split_and!.
Qed.

Lemma read_overlong prompt ids mask n s : holding prompt ids mask n s → (t ← last_trajectory; mret (is_overlong dc t)) s = Ret (full cfg prompt ids) s.
Proof. intros (t & Et & <- & <- & <- & <- & _). destruct s; simpl in *. subst. by session. Qed.

(** The step that an observation starts. *)
Lemma start_step_run prompt ids mask n s obs r d i :
  holding prompt ids mask n s → ∃ k s1 s', start_step obs r d i s = Ret k s1 ∧ on_step k (with_chat obs) s1 = Ret tt s' ∧ holding prompt ids mask (S n) s'.
Proof.
  intros (t & Et & <- & <- & <- & <- & Hi & Hv & Hl). destruct s; simpl in *. subst. session. eexists _, _, _. split_and!; [done..|].
  eexists. split_and!; try done; simpl; [rewrite length_app; simpl; lia|]. intros _. by rewrite last_snoc.
Qed.

Lemma keep_media prompt ids mask n s : holding prompt ids mask n s →
  ∃ s', on_last (λ t, with_tr_media (extend_media None (tr_image_data t)) (extend_media None (tr_video_data t)) t) s = Ret tt s' ∧ holding prompt ids mask n s'.
Proof. intros (t & Et & <- & <- & <- & <- & Hi & Hv & Hl). destruct s; simpl in *. subst. session. eexists. split; [done|]. eexists. by split_and!. Qed.

Lemma append_prompt_run prompt ids mask n s p : holding prompt ids mask n s → ∃ s', append_prompt_ids p s = Ret tt s' ∧ holding p ids mask n s'.
Proof. intros (t & Et & <- & <- & <- & <- & Hi & Hv & Hl). destruct s; simpl in *. subst. session. eexists. split; [done|]. eexists. by split_and!. Qed.

(** What an observation does to the session. *)
Definition observe (n : nat) (obs : list Json) (prompt prompt' new : list Z) : Prop :=
  if bool_decide (n < c_max_turns dc) then
    if bool_decide (n = 0) then encode_observation codec obs None None true = inr (prompt', true) ∧ new = []
    else prompt' = prompt ∧ encode_observation codec obs None None false = inr (new, false)
  else prompt' = prompt ∧ new = [].

Lemma update_from_env_run prompt ids mask n s obs reward done :
  holding prompt ids mask n s → (∀ b, ∃ l, chat_ids codec b obs None None = inr l) →
  ∃ s' prompt' new, update_from_env dc np_sum codec obs reward done no_info s = Ret (full cfg prompt' (ids ++ new)) s' ∧ observe n obs prompt prompt' new ∧
    holding prompt' (ids ++ new) (mask ++ replicate (length new) 0%Z) (if bool_decide (n < c_max_turns dc) then S n else n) s'.
Proof.
  intros Hh Hc. unfold update_from_env. pose proof Hh as (t & Et & Hrest).
  assert (last_trajectory s = Ret t s) as E0 by (unfold last_trajectory; session; by rewrite Et).
  assert (length (tr_steps t) = n) as Hn by (by destruct Hrest as (_ & _ & _ & ? & _)). clear Hrest Et.
  rewrite (run_bind _ _ _ _ _ E0), Hn. simpl. destruct (keep_media _ _ _ _ _ Hh) as (s1 & E1 & H1). rewrite (run_bind _ _ _ _ _ E1).
  assert (Hend : ∀ p l m k s2, holding p l m k s2 → ∃ s', ((match reward_total np_sum reward with Some r => on_last (λ t, with_tr_rewards (tr_tool_rewards t ++ [r]) t) | None => mret tt end) ;;
    (t ← last_trajectory; mret (is_overlong dc t))) s2 = Ret (full cfg p l) s' ∧ holding p l m k s').
  { intros p l m k s2 H2. destruct (add_reward_run reward _ _ _ _ _ H2) as (s3 & E3 & H3). exists s3. split; [|done].
    rewrite (run_bind _ _ _ _ _ E3). by eapply read_overlong. }
  unfold observe. case_bool_decide as Hm.
  - destruct (start_step_run _ _ _ _ _ obs (reward_list reward) done no_info H1) as (k & s2 & s3 & E2 & E3 & H3).
    destruct (encode_total obs (bool_decide (n = 0)) (Hc _)) as (l & El).
    rewrite run_assoc, (run_bind _ _ _ _ _ E2), run_assoc, (run_bind _ _ _ _ _ E3), El, run_assoc, (run_of_res _ (l, bool_decide (n = 0))) by done.
    case_bool_decide as Hz.
    + destruct (append_prompt_run _ _ _ _ _ l H3) as (s4 & E4 & H4). rewrite (run_bind _ _ _ _ _ E4).
      destruct (Hend _ _ _ _ _ H4) as (s' & E' & H'). exists s', l, []. rewrite !app_nil_r. by split_and!.
    + destruct (append_user_run _ _ _ _ _ l H3) as (s4 & E4 & H4 & _). rewrite (run_bind _ _ _ _ _ E4).
      destruct (Hend _ _ _ _ _ H4) as (s' & E' & H'). exists s', prompt, l. by split_and!.
  - rewrite run_mret. destruct (Hend _ _ _ _ _ H1) as (s' & E' & H'). exists s', prompt, []. rewrite !app_nil_r. by split_and!.
Qed.

Lemma current_step_run prompt ids mask n s : 0 < n → holding prompt ids mask n s → ∃ i, get_current_step s = Ret i s.
Proof. intros Hn (t & _ & _ & _ & _ & _ & _ & _ & [i Hi]); [done|]. exists i. unfold get_current_step. session. by rewrite Hi. Qed.

(** Writing to the current step leaves the trajectory alone. *)
Lemma write_step_run prompt ids mask n s f :
  0 < n → holding prompt ids mask n s → ∃ s', (i ← get_current_step; on_step i f) s = Ret tt s' ∧ holding prompt ids mask n s'.
Proof.
  intros Hn Hh. destruct (current_step_run _ _ _ _ _ Hn Hh) as (i & Ei). rewrite (run_bind _ _ _ _ _ Ei). eexists. split; [done|].
  destruct Hh as (t & Hh). exists t. by destruct s.
Qed.

Lemma model_state_run prompt ids mask n s out :
  0 < n → holding prompt ids mask n s → ∃ s', update_trajectory_state_from_output out s = Ret tt s' ∧ holding prompt ids mask n s'.
Proof.
  intros Hn Hh. unfold update_trajectory_state_from_output. rewrite run_modify. apply write_step_run; [done|]. destruct Hh as (t & Hh). exists t. by destruct s.
Qed.

Lemma parse_run prompt ids mask n s out :
  0 < n → holding prompt ids mask n s →
  ∃ s', (match parse_action codec out with
         | None => mret None
         | Some (inr a) => mret (Some a)
         | Some (inl e) =>
             i ← get_current_step;
             on_step i (λ x, with_step_info (mkStepInfo (info_images (step_info x)) (info_videos (step_info x)) (info_instance (step_info x)) (Some e)) x) ;;
             mret (Some (JArr []))
         end) s = Ret (parsed codec out) s' ∧ holding prompt ids mask n s'.
Proof.
  intros Hn Hh. unfold parsed. destruct (parse_action codec out) as [[e|a]|]; [|by eexists..].
  destruct (write_step_run _ _ _ _ _ (λ x, with_step_info (mkStepInfo (info_images (step_info x)) (info_videos (step_info x)) (info_instance (step_info x)) (Some e)) x) Hn Hh) as (s' & E & H').
  exists s'. split; [|done]. destruct (current_step_run _ _ _ _ _ Hn Hh) as (i & Ei). rewrite (run_bind _ _ _ _ _ Ei) in E. by rewrite (run_bind _ _ _ _ _ Ei), (run_bind _ _ _ _ _ E).
Qed.

Lemma update_from_model_run prompt ids mask n s out answer :
  c_traj_reward_mode dc = ModeTraj → 0 < n → holding prompt ids mask n s →
  let new := to_response_ids out in
  ∃ s', update_from_model_token_ids dc codec out answer s = Ret (parsed codec new, full cfg prompt (ids ++ new)) s' ∧
    holding prompt (ids ++ new) (mask ++ replicate (length new) 1%Z) n s'.
Proof.
  intros Hmode Hn Hh new. unfold update_from_model_token_ids. pose proof Hh as (t & Et & Hrest).
  assert (last_trajectory s = Ret t s) as E0 by (unfold last_trajectory; session; by rewrite Et).
  assert (length (tr_steps t) = n) as Hl by (by destruct Hrest as (_ & _ & _ & ? & _)). clear Hrest Et.
  rewrite (run_bind _ _ _ _ _ E0), Hl, (bool_decide_false (n = 0)), run_mret by lia. clear E0 Hl t.
  destruct (model_state_run _ _ _ _ _ out Hn Hh) as (s1 & E1 & H1). rewrite (run_bind _ _ _ _ _ E1).
  destruct (append_assistant_run _ _ _ _ _ new (to_response_log_probs out) (to_routed_experts out) H1) as (s2 & E2 & H2 & _). fold new. rewrite (run_bind _ _ _ _ _ E2).
  destruct (write_step_run _ _ _ _ _ (λ x, with_chat (chat_completions x ++ [assistant_message codec (decode codec new)]) x) Hn H2) as (s3 & E3 & H3).
  unfold add_step_chat_message at 1. rewrite (run_bind _ _ _ _ _ E3).
  destruct (write_step_run _ _ _ _ _ (with_model_response (decode codec new)) Hn H3) as (s4 & E4 & H4). unfold set_step_model_response at 1. rewrite (run_bind _ _ _ _ _ E4).
  destruct (parse_run _ _ _ _ _ new Hn H4) as (s5 & E5 & H5). rewrite (run_bind _ _ _ _ _ E5).
  assert (∃ s6, (match parsed codec new with Some a => set_step_action a | None => mret tt end) s5 = Ret tt s6 ∧ holding prompt (ids ++ new) (mask ++ replicate (length new) 1%Z) n s6) as (s6 & E6 & H6).
  { destruct (parsed codec new) as [a|]; [|by eexists]. by apply write_step_run. }
  rewrite (run_bind _ _ _ _ _ E6), (bool_decide_false (_ = ModeStep)), run_mret by (by rewrite Hmode). exists s6. split; [|done].
  destruct H6 as (t & Et & <- & <- & _). unfold last_trajectory. session. rewrite Et. done.
Qed.

(** ** Generation *)

Context (template : bool → list Json → option (list Json) → option (list Json) → Res (list Z))
  (media_of : list Json → option (list Json) * option (list Json)) (contains_images : list Json → bool) (partners : Partners).

Definition text (q : GenRequest) : Prop := g_images q = None ∧ g_videos q = None ∧ has_raw_images contains_images q = false.

(** A request with the tokens of a session asks for what is left of the context. *)
Lemma generate_text k q prompt ids :
  text q → g_raw_prompt_ids q = Some prompt → g_raw_response_ids q = Some ids → full cfg prompt ids = false →
  lc_gateway cfg = true → from_option (λ n, P cfg + R cfg ≤ n) True (lc_max_model_len cfg) →
  (∀ k t sp, ∃ r rest instance, post partners k t sp = Responses (r :: rest) instance) →
  ∃ t sp r rest instance out, generate_sequence cfg template media_of contains_images (post partners k) q = inr (Some out, q) ∧
    ti_input_ids t = prompt ++ ids ∧ max_new_tokens sp = (Z.of_nat (P cfg + R cfg) - Z.of_nat (length (prompt ++ ids)))%Z ∧
    post partners k t sp = Responses (r :: rest) instance ∧ to_response_ids out = gr_output_ids r.
Proof.
  intros (Hi & Hv & Hr) Ep Er Hf Hg Hm Hpost. unfold generate_sequence, pre_process_inputs, prompt_tokens, rebuild. rewrite Ep, Er, Hr. simpl.
  set (t := mkTokenInput _ _ _ _ _ _ _ _ _ _ _). unfold has_raw_images in Hr.
  unfold full in Hf. apply bool_decide_eq_false in Hf.
  assert (∃ sp, get_sampling_params cfg contains_images t = inr sp ∧ max_new_tokens sp = (Z.of_nat (P cfg + R cfg) - Z.of_nat (length (prompt ++ ids)))%Z) as (sp & Esp & Hsp).
  { unfold get_sampling_params. simpl. rewrite Hi, Hr. simpl. rewrite length_app. destruct (lc_max_model_len cfg) as [l|]; simpl in *.
    - rewrite (bool_decide_false _), bool_decide_true by lia. eexists. split; [done|]. simpl. lia.
    - rewrite (bool_decide_false _), bool_decide_true by lia. eexists. split; [done|]. simpl. lia. }
  rewrite Esp, Hg, Hv. simpl. destruct (Hpost k t sp) as (r & rest & i & E). rewrite E. unfold read_responses. simpl. rewrite Hi, Hr. simpl.
  by eexists t, sp, r, rest, i, _.
Qed.

Lemma prepare_run q prompt ids mask n s :
  holding prompt ids mask n s → text q →
  ∃ q', prepare_generation_request q s = Ret q' s ∧ text q' ∧ g_raw_prompt_ids q' = Some prompt ∧ g_raw_response_ids q' = Some ids.
Proof.
  intros (t & Et & <- & <- & <- & <- & Hi & Hv & Hl) Hq. unfold prepare_generation_request. session. rewrite Et. simpl. rewrite Hi, Hv.
  eexists. split; [done|]. destruct (curr_rollout_instance_id s); by split_and!.
Qed.

(** The output that ends an episode. *)
Definition emits (prompt : list Z) (st : EpisodeState) (out : TokenOutput) (reason : TerminateReason) : Prop :=
  ep_phase st = Over reason ∧ to_prompt_ids out = prompt ∧ to_response_ids out = take (R cfg) (ep_ids st) ∧ to_response_mask out = take (R cfg) (ep_mask st).

Lemma finish_run reason prompt ids mask n s k :
  c_traj_reward_mode dc = ModeTraj → c_launch_reward_fn_async dc = true ∨ is_Some (final_score partners) → holding prompt ids mask n s →
  ∃ out s', finish cfg np_sum partners reason s = Ret (inr (Some [out], reason)) s' ∧ emits prompt (mkEpisode k (Over reason) ids mask) out reason.
Proof.
  intros Hmode Hscore (t & Et & <- & <- & <- & _). unfold finish, finalize_output. session. rewrite Et, Hmode. simpl.
  destruct (c_launch_reward_fn_async dc); [by eexists _, _|]. destruct Hscore as [?|[x ->]]; [done|]. by eexists _, _.
Qed.

(** ** The loop *)

Abbreviation mstep prompt := (episode_step cfg codec partners prompt).

Lemma env_turn_run k act prompt ids mask s reward done obs :
  (∀ b obs, ∃ l, chat_ids codec b obs None None = inr l) → env_step partners k act = EnvOut obs reward done no_info → k < c_max_turns dc → holding prompt ids mask (S k) s →
  ∃ s' new, update_from_env dc np_sum codec obs reward done no_info s = Ret (full cfg prompt (ids ++ new)) s' ∧
    mstep prompt (mkEpisode k (AskEnv act) ids mask) (mkEpisode (S k) (after_env cfg prompt (S k) done (ids ++ new)) (ids ++ new) (mask ++ replicate (length new) 0%Z)) ∧
    holding prompt (ids ++ new) (mask ++ replicate (length new) 0%Z) (S (S k) `min` c_max_turns dc) s'.
Proof.
  intros Henc E Hk Hh. destruct (update_from_env_run prompt ids mask (S k) s obs reward done Hh (λ b, Henc b obs)) as (s' & p' & new & E' & Ho & Hh').
  unfold observe in Ho. rewrite (bool_decide_false (S k = 0)) in Ho by lia. assert (p' = prompt) as -> by (destruct (bool_decide (S k < _)); naive_solver).
  exists s', new. split_and!; [done| |].
  - eapply step_env; [done|]. unfold observed. destruct (bool_decide (S k < c_max_turns dc)); naive_solver.
  - destruct (bool_decide_reflect (S k < c_max_turns dc)) in Hh'; [rewrite Nat.min_l by lia|rewrite Nat.min_r by lia; replace (c_max_turns dc) with (S k) by lia]; done.
Qed.

Lemma turns_run n k q prompt ids mask s :
  cooperative cfg contains_images codec partners q → n + k = c_max_turns dc → full cfg prompt ids = false → holding prompt ids mask (S k `min` c_max_turns dc) s →
  ∃ out reason s' st, turns cfg template media_of contains_images np_sum codec partners n k q s = Ret (inr (Some [out], reason)) s' ∧
    rtc (mstep prompt) (mkEpisode k (after_env cfg prompt k false ids) ids mask) st ∧ emits prompt st out reason.
Proof.
  revert k q ids mask s. induction n as [|n IH]; intros k q ids mask s Hc Hk Hf Hh; pose proof Hc as [_ Hpost Henv Henc [Hmode Hscore] Htext (Hg & Hpos & Hlen)]; unfold after_env; rewrite Hf; simpl.
  - rewrite bool_decide_false by lia. destruct (finish_run MAX_TURNS_EXCEEDED _ _ _ _ _ k Hmode Hscore Hh) as (out & s' & E & He).
    eexists out, _, s', _. split_and!; [exact E|apply rtc_refl|done].
  - rewrite bool_decide_true by lia. rewrite Nat.min_l in Hh by lia. destruct (prepare_run q _ _ _ _ _ Hh Htext) as (q1 & E1 & Htext1 & Ep & Er). rewrite (run_bind _ _ _ _ _ E1).
    destruct (generate_text k q1 prompt ids Htext1 Ep Er Hf Hg Hlen Hpost) as (t & sp & r & rest & i & out & Eg & Hin & Hsp & Epost & Hout). rewrite Eg.
    destruct (update_from_model_run prompt ids mask (S k) s out (score partners k) Hmode ltac:(lia) Hh) as (s1 & Em & Hh1). rewrite (run_bind _ _ _ _ _ Em). rewrite Hout in Hh1 |- *.
    pose proof (step_model cfg codec partners prompt k ids mask t sp r rest i Hin Hsp Epost) as Hstep. set (ids1 := ids ++ gr_output_ids r) in *.
    destruct (full cfg prompt ids1) eqn:Hf1.
    { destruct (finish_run MAX_RESPONSE_LENGTH_EXCEEDED _ _ _ _ _ k Hmode Hscore Hh1) as (o & s' & E & He). eexists o, _, s', _. split_and!; [exact E|by apply rtc_once|done]. }
    destruct (Henv k (parsed codec (gr_output_ids r))) as [Et|(obs & rw & done & Ee)]; [rewrite Et|rewrite Ee].
    { destruct (finish_run ENV_TIMEOUT _ _ _ _ _ k Hmode Hscore Hh1) as (o & s' & E & He). eexists o, _, s', _. split_and!; [exact E| |done].
      eapply rtc_l; [exact Hstep|]. apply rtc_once. by apply step_timeout. }
    destruct (env_turn_run k _ _ _ _ _ _ _ _ Henc Ee ltac:(lia) Hh1) as (s2 & new & E2 & Hstep2 & Hh2). rewrite (run_bind _ _ _ _ _ E2). unfold after_env in Hstep2.
    destruct (full cfg prompt (ids1 ++ new)) eqn:Hf2.
    { destruct (finish_run MAX_RESPONSE_LENGTH_EXCEEDED _ _ _ _ _ (S k) Hmode Hscore Hh2) as (o & s' & E & He). eexists o, _, s', _. split_and!; [exact E| |done].
      eapply rtc_l; [exact Hstep|]. by apply rtc_once. }
    destruct done.
    { destruct (finish_run FINISHED _ _ _ _ _ (S k) Hmode Hscore Hh2) as (o & s' & E & He). eexists o, _, s', _. split_and!; [exact E| |done].
      eapply rtc_l; [exact Hstep|]. by apply rtc_once. }
    destruct (IH (S k) q1 (ids1 ++ new) (mask ++ replicate (length (gr_output_ids r)) 1%Z ++ replicate (length new) 0%Z) s2) as (o & reason & s' & st & E & Hrtc & He).
    { destruct Hc. by split. }
    { lia. }
    { done. }
    { by rewrite app_assoc. }
    exists o, reason, s', st. split_and!; [exact E| |done]. eapply rtc_l; [exact Hstep|]. eapply rtc_l; [exact Hstep2|].
    unfold after_env in Hrtc. rewrite Hf2, app_assoc in Hrtc. exact Hrtc.
Qed.
Lemma multi_turn_run_machine q s :
  cooperative cfg contains_images codec partners q →
  ∃ obs prompt out reason s' st, env_reset partners = inr (obs, no_info) ∧ encode_observation codec obs None None true = inr (prompt, true) ∧
    multi_turn_run cfg template media_of contains_images np_sum codec partners q s = Ret (inr (Some [out], reason)) s' ∧
    rtc (mstep prompt) (episode_start cfg prompt) st ∧ emits prompt st out reason.
Proof.
  intros Hc. pose proof Hc as [[obs Eobs] _ _ Henc [Hmode Hscore] _ (_ & Hpos & _)]. unfold multi_turn_run, reset, init_trajectory. rewrite run_modify, (run_of_res _ (obs, no_info)), run_modify by done.
  set (s0 := mkSession _ _ _ _ _ _ _ _ _ _). assert (holding [] [] [] 0 s0) as Hh0 by (exists new_trajectory; split_and!; try done; simpl; lia).
  destruct (update_from_env_run _ _ _ _ _ obs (RewardNum fzero) false Hh0 (λ b, Henc b obs)) as (s1 & prompt & new & E1 & Ho & Hh1).
  unfold observe in Ho. rewrite bool_decide_true, bool_decide_true in Ho by lia. destruct Ho as [Eenc ->]. rewrite bool_decide_true in Hh1 by lia. simpl in Hh1.
  rewrite (run_bind _ _ _ _ _ E1). simpl. exists obs, prompt. unfold episode_start, after_env. destruct (full cfg prompt []) eqn:Hf.
  - destruct (finish_run MAX_RESPONSE_LENGTH_EXCEEDED _ _ _ _ _ 0 Hmode Hscore Hh1) as (out & s' & E & He).
    eexists out, _, s', _. split_and!; [done|done|exact E|apply rtc_refl|done].
  - destruct (turns_run (c_max_turns (lc_data cfg)) 0 q prompt [] [] s1 Hc) as (out & reason & s' & st & E & Hr & He);
      [lia|done|by rewrite Nat.min_l by lia|]. unfold after_env in Hr. rewrite Hf in Hr. by exists out, reason, s', st.
Qed.
End refine.

(** C10: A text-only episode of the multi-turn loop through the gateway, with one reward
    per trajectory and at least one turn allowed, is an episode of the abstract
    machine, provided its partners cooperate: the reset, every gateway request, every
    tokenization and the final score succeed, an environment step answers an
    observation without further information or times out, and prompt and response
    lengths fit the model's context (when that is configured).  Then the loop returns
    one output and a reason; the machine reaches that end by steps in which the model
    is asked for exactly the tokens recorded so far and given exactly the rest of the
    context, its tokens are recorded with mask 1, the observations with mask 0 and the
    action handed to the environment is the one parsed from them; prompt, response and
    mask of the output are the machine's, the latter two cut at the response length.
    (Nothing is claimed of an environment or gateway that raises, of images, or of
    rewards per turn.) *)
Theorem multi_turn_refines_machine (cfg : LoopConfig) template media_of contains_images np_sum codec partners q s :
  cooperative cfg contains_images codec partners q →
  ∃ obs prompt out reason s' st, env_reset partners = inr (obs, no_info) ∧ encode_observation codec obs None None true = inr (prompt, true) ∧
    multi_turn_run cfg template media_of contains_images np_sum codec partners q s = Ret (inr (Some [out], reason)) s' ∧
    rtc (episode_step cfg codec partners prompt) (episode_start cfg prompt) st ∧ emits cfg prompt st out reason.
Proof. apply multi_turn_run_machine. Qed.

(** ** A concrete episode *)

Definition demo_data : DataConfig := mkDataConfig 4 6 3 fzero fzero ModeTraj false.
Definition demo_loop : LoopConfig := mkLoopConfig demo_data None (mkSampling fone fone (-1)) (mkSampling fzero fone (-1)) false 0 true false.
Definition demo_codec : Codec := mkCodec (λ is_init obs _ _, inr (if is_init then [1; 2]%Z else [1; 8]%Z)) [1%Z] (λ _, "text") (λ ids, Some (inr (JInt (Z.of_nat (length ids))))) JStr.
Definition demo_partners : Partners :=
  mkPartners (inr ([JStr "task"], no_info)) (λ _ _ sp, Responses [mkGenResponse (take (Z.to_nat (max_new_tokens sp)) [5; 6]%Z) None None (Some [[Some fone]; [None; Some fone]]) None] ("r", 0%Z))
    (λ k act, EnvOut [JStr "seen"] (RewardNum fone) (bool_decide (k = 1)) no_info) (λ _, None) (Some fone).
Definition demo_gen : GenRequest := mkGenRequest 7 None false 3 None None None None None None None None None.

Lemma demo_cooperative : cooperative demo_loop (λ _, false) demo_codec demo_partners demo_gen.
Proof.
  split; try by split_and!.
  - by eexists.
  - intros. by eexists _, _, _.
  - intros. right. by eexists _, _, _.
  - intros. by eexists.
  - split; [done|]. right. by eexists.
  - split_and!; try done. vm_compute. lia.
Qed.

Lemma multi_turn_refines_machine_witness :
  ∃ prompt out reason s' st,
    multi_turn_run demo_loop (λ _ _ _ _, inl ValueError) (λ _, (None, None)) (λ _, false) (λ _, fzero) demo_codec demo_partners demo_gen new_session = Ret (inr (Some [out], reason)) s' ∧
    rtc (episode_step demo_loop demo_codec demo_partners prompt) (episode_start demo_loop prompt) st ∧ emits demo_loop prompt st out reason ∧
    to_response_ids out = [5; 6; 8; 5; 6; 8]%Z ∧ to_response_mask out = [1; 1; 0; 1; 1; 0]%Z ∧ reason = FINISHED.
Proof.
  destruct (multi_turn_refines_machine demo_loop (λ _ _ _ _, inl ValueError) (λ _, (None, None)) (λ _, false) (λ _, fzero) demo_codec demo_partners demo_gen new_session demo_cooperative)
    as (obs & prompt & out & reason & s' & st & _ & _ & E & Hr & He).
  exists prompt, out, reason, s', st. split; [exact E|]. split; [exact Hr|]. split; [exact He|]. clear Hr He. vm_compute in E. injection E as <- <- <-. by split_and!.
Defined.

(** ** The context *)

(** The response ends with an observation, or with none; everything before it fits. *)
Definition fits (cfg : LoopConfig) (prompt : list Z) (st : EpisodeState) (body bmask tail : list Z) : Prop :=
  ep_ids st = body ++ tail ∧ ep_mask st = bmask ++ replicate (length tail) 0%Z ∧ length bmask = length body ∧
  (length prompt ≤ P cfg + R cfg → length prompt + length body ≤ P cfg + R cfg).

Definition honours_limit (partners : Partners) : Prop :=
  ∀ k t sp r rest i, post partners k t sp = Responses (r :: rest) i → (Z.of_nat (length (gr_output_ids r)) ≤ Z.max 0 (max_new_tokens sp))%Z.

Definition episode_inv (cfg : LoopConfig) (prompt : list Z) (st : EpisodeState) : Prop :=
  ep_turn st ≤ c_max_turns (lc_data cfg) ∧
  match ep_phase st with
  | AskModel => ep_turn st < c_max_turns (lc_data cfg) ∧ full cfg prompt (ep_ids st) = false
  | AskEnv _ => ep_turn st < c_max_turns (lc_data cfg) ∧ full cfg prompt (ep_ids st) = false
  | Over MAX_RESPONSE_LENGTH_EXCEEDED => full cfg prompt (ep_ids st) = true
  | Over MAX_TURNS_EXCEEDED => ep_turn st = c_max_turns (lc_data cfg)
  | Over r => r = FINISHED ∨ r = ENV_TIMEOUT
  end ∧
  ∃ body bmask tail, fits cfg prompt st body bmask tail.

Lemma after_env_inv cfg prompt turn done ids mask body bmask tail :
  turn ≤ c_max_turns (lc_data cfg) → fits cfg prompt (mkEpisode turn (after_env cfg prompt turn done ids) ids mask) body bmask tail →
  episode_inv cfg prompt (mkEpisode turn (after_env cfg prompt turn done ids) ids mask).
Proof.
  intros Ht Hf. split_and!; simpl; [done| |by eexists _, _, _]. unfold after_env. destruct (full cfg prompt ids) eqn:E; [done|]. destruct done; [by left|].
  case_bool_decide; simpl; [done|lia].
Qed.

Lemma episode_step_inv cfg codec partners prompt st st' :
  honours_limit partners → episode_step cfg codec partners prompt st st' → episode_inv cfg prompt st → episode_inv cfg prompt st'.
Proof.
  intros Hlim Hstep. destruct Hstep as [k ids mask t sp r rest i Hin Hsp Epost|k act ids mask obs rw done info new Ee Ho|k act ids mask Et];
    intros (Hk & [Hk' Hf] & body & bmask & tail & Hi & Hm & Hl & Hfit); simpl in *.
  - assert (length mask = length ids) as Hlen by (rewrite Hi, Hm, !length_app, length_replicate; lia).
    split_and!; simpl; [done|destruct (full cfg prompt (ids ++ gr_output_ids r)) eqn:E; done|].
    exists (ids ++ gr_output_ids r), (mask ++ replicate (length (gr_output_ids r)) 1%Z), []. unfold fits. simpl. rewrite !app_nil_r, !length_app, length_replicate.
    split_and!; [done|done|lia|]. intros _. specialize (Hlim _ _ _ _ _ _ Epost). rewrite Hsp, length_app in Hlim. unfold full in Hf. apply bool_decide_eq_false in Hf. lia.
  - apply (after_env_inv _ _ _ _ _ _ ids mask new); [lia|]. unfold fits. simpl. split_and!; [done|done|rewrite Hi, Hm, !length_app, length_replicate; lia|].
    intros _. unfold full in Hf. apply bool_decide_eq_false in Hf. lia.
  - split_and!; simpl; [done|by right|]. by exists body, bmask, tail.
Qed.

Lemma episode_reach_inv cfg codec partners prompt st :
  honours_limit partners → rtc (episode_step cfg codec partners prompt) (episode_start cfg prompt) st → episode_inv cfg prompt st.
Proof.
  intros Hlim Hr. revert Hr. unfold episode_start. generalize (after_env_inv cfg prompt 0 false [] [] [] [] []). intros H0 Hr.
  assert (episode_inv cfg prompt (mkEpisode 0 (after_env cfg prompt 0 false []) [] [])) as Hi.
  { apply H0; [lia|]. unfold fits. simpl. split_and!; try done. lia. }
  clear H0. induction Hr as [|x y z Hs _ IH]; [done|]. apply IH. by eapply episode_step_inv.
Qed.

(** The context stays in its window.  When the engine never generates more than it
    is asked for, an episode whose prompt fits ends with a response all of which
    fits into the window of prompt and response length together, except for the
    last observation; the response given out is no longer than the response length
    and its mask is as long as it is.  The episode ends for its length only when the
    window is full, and otherwise within the allowed number of turns. *)
Theorem episode_context_bounded (cfg : LoopConfig) template media_of contains_images np_sum codec partners q s :
  cooperative cfg contains_images codec partners q → honours_limit partners →
  ∃ out reason s' body bmask tail, multi_turn_run cfg template media_of contains_images np_sum codec partners q s = Ret (inr (Some [out], reason)) s' ∧
    to_response_ids out = take (R cfg) (body ++ tail) ∧ to_response_mask out = take (R cfg) (bmask ++ replicate (length tail) 0%Z) ∧ length bmask = length body ∧
    (length (to_prompt_ids out) ≤ P cfg + R cfg → length (to_prompt_ids out) + length body ≤ P cfg + R cfg) ∧
    length (to_response_ids out) ≤ R cfg ∧ length (to_response_mask out) = length (to_response_ids out) ∧
    (reason = MAX_RESPONSE_LENGTH_EXCEEDED → P cfg + R cfg ≤ length (to_prompt_ids out) + length (body ++ tail)) ∧
    (reason = FINISHED ∨ reason = ENV_TIMEOUT ∨ reason = MAX_TURNS_EXCEEDED ∨ reason = MAX_RESPONSE_LENGTH_EXCEEDED).
Proof.
  intros Hc Hlim. destruct (multi_turn_run_machine cfg np_sum codec template media_of contains_images partners q s Hc) as (obs & prompt & out & reason & s' & st & _ & _ & E & Hr & Hp & <- & Hids & Hmask).
  destruct (episode_reach_inv _ _ _ _ _ Hlim Hr) as (_ & Hphase & body & bmask & tail & Hi & Hm & Hl & Hfit). rewrite Hp in Hphase. rewrite Hi in Hids. rewrite Hm in Hmask.
  exists out, reason, s', body, bmask, tail. split_and!; try done.
  - rewrite Hids, length_take. lia.
  - rewrite Hids, Hmask, !length_take, !length_app, length_replicate. lia.
  - intros ->. unfold full in Hphase. rewrite Hi in Hphase. by apply bool_decide_eq_true in Hphase.
  - destruct reason; naive_solver.
Qed.

Lemma episode_context_bounded_witness :
  ∃ out reason s', multi_turn_run demo_loop (λ _ _ _ _, inl ValueError) (λ _, (None, None)) (λ _, false) (λ _, fzero) demo_codec demo_partners demo_gen new_session = Ret (inr (Some [out], reason)) s' ∧
    length (to_response_ids out) ≤ 6.
Proof.
  assert (honours_limit demo_partners) as Hlim.
  { intros k t sp r rest i E. injection E as <- _ _. simpl. rewrite length_take. simpl. lia. }
  destruct (episode_context_bounded demo_loop (λ _ _ _ _, inl ValueError) (λ _, (None, None)) (λ _, false) (λ _, fzero) demo_codec demo_partners demo_gen new_session demo_cooperative Hlim)
    as (out & reason & s' & _ & _ & _ & E & _ & _ & _ & _ & Hl & _).
  exists out, reason, s'. split; [exact E|exact Hl].
Defined.
