(* ===== verification/AgentDataTheorems.v ===== *)
(** * Agent data: theorems

    The rows of a trajectory, the returns of its steps and the segments of its
    text. *)

From S2P Require Import Prelude.
From S2P Require Import PyFloat.
From S2P Require Import StalenessBuffer.
From S2P Require Import PyData.
From S2P Require Import AgentData.
From S2P Require Import AgentRun.

#[local] Open Scope nat_scope.

(** ** Rows *)

(** What is appended to a trajectory. *)
Inductive Chunk := FromEnv (ids : list Z) | FromModel (ids : list Z) (logprobs : option (list float)) (experts : option (list Z)).

Definition append (c : Chunk) : Ad unit :=
  match c with FromEnv ids => append_user_tokens ids | FromModel ids lps ex => append_assistant_tokens ids lps ex end.

Definition chunk_ids (c : Chunk) : list Z := match c with FromEnv ids | FromModel ids _ _ => ids end.
Definition chunk_mask (c : Chunk) : list Z := replicate (length (chunk_ids c)) (match c with FromEnv _ => 0%Z | FromModel _ _ _ => 1%Z end).
Definition chunk_logprobs (c : Chunk) : list float :=
  match c with FromEnv ids => replicate (length ids) fzero | FromModel ids lps _ => if bool_decide (ids = []) then [] else default [] lps end.

(** The model reports a log probability for each of its tokens. *)
Definition scored (c : Chunk) : Prop := match c with FromEnv _ => True | FromModel ids lps _ => ∃ l, lps = Some l ∧ length l = length ids end.

(** The first tokens are the model's. *)
Fixpoint model_first (cs : list Chunk) : Prop :=
  match cs with
  | [] => True
  | FromEnv [] :: cs | FromModel [] _ _ :: cs => model_first cs
  | FromEnv _ :: _ => False
  | FromModel _ _ _ :: _ => True
  end.

(** The session holds these rows, after [a] assistant and [u] user turns. *)
Definition rows_are (ids mask : list Z) (lps : list float) (a u : nat) (s : SessionData) : Prop :=
  ∃ t, trajectories s = [t] ∧ tr_response_ids t = ids ∧ tr_response_mask t = mask ∧ tr_response_logprobs t = lps ∧ tr_response_length t = length ids ∧
    tr_assistant_turns t = a ∧ tr_user_turns t = u ∧ response_length s = length ids ∧ assistant_turns s = a ∧ user_turns s = u.

Definition counts (c : Chunk) : nat * nat :=
  if bool_decide (chunk_ids c = []) then (0, 0) else match c with FromEnv _ => (0, 1) | FromModel _ _ _ => (1, 0) end.

Ltac run_append := unfold append, append_user_tokens, append_assistant_tokens, on_last, last_trajectory, mbind, M_bind, mret, M_ret, gets, of_option, modify, id; simpl.

Lemma append_run c ids mask lps a u s :
  rows_are ids mask lps a u s → scored c → lps ≠ [] ∨ model_first [c] →
  ∃ s', append c s = Ret tt s' ∧ rows_are (ids ++ chunk_ids c) (mask ++ chunk_mask c) (lps ++ chunk_logprobs c) (a + (counts c).1) (u + (counts c).2) s'.
Proof.
  intros (t & Et & <- & <- & <- & Hlen & <- & <- & Hr & Ha & Hu) Hsc Hne. destruct s; simpl in *. subst. unfold counts, chunk_mask, chunk_logprobs.
  destruct c as [new|new nl ex]; simpl in *; destruct new as [|x new]; run_append.
  1, 3: rewrite !app_nil_r, !Nat.add_0_r; eexists; split; [done|]; exists t; by split_and!.
  - rewrite (bool_decide_true (0 < length (tr_response_logprobs t))) by (destruct Hne as [Hne|[]]; destruct (tr_response_logprobs t); simpl; [done|lia]).
    eexists. split; [done|]. eexists. split; [done|]. simpl. rewrite !length_app. simpl. rewrite Hlen. split_and!; try done; lia.
  - destruct ex as [[|e ex]|]; run_append; (eexists; split; [done|]); (eexists; split; [done|]); simpl; rewrite !length_app; simpl; rewrite Hlen; split_and!; try done; lia.
Qed.

Lemma logprobs_nil c : chunk_ids c = [] → chunk_logprobs c = [].
Proof. destruct c; simpl; intros ->; [done|]. by rewrite bool_decide_true. Qed.

Lemma append_all_run cs ids mask lps a u s :
  rows_are ids mask lps a u s → Forall scored cs → lps ≠ [] ∨ model_first cs →
  ∃ s', for_each cs append s = Ret tt s' ∧
    rows_are (ids ++ concat (chunk_ids <$> cs)) (mask ++ concat (chunk_mask <$> cs)) (lps ++ concat (chunk_logprobs <$> cs))
      (a + sum_list (fst ∘ counts <$> cs)) (u + sum_list (snd ∘ counts <$> cs)) s'.
Proof.
  revert ids mask lps a u s. induction cs as [|c cs IH]; intros ids mask lps a u s Hh Hsc Hne; simpl.
  { eexists. split; [done|]. by rewrite !app_nil_r, !Nat.add_0_r. }
  inversion Hsc as [|? ? Hc Hcs]; subst. destruct (append_run c _ _ _ _ _ _ Hh Hc) as (s1 & E1 & H1).
  { destruct Hne as [?|Hf]; [by left|]. right. by destruct c as [[|]|[|]]. }
  destruct (IH _ _ _ _ _ _ H1 Hcs) as (s' & E' & H').
  { destruct (chunk_ids c) as [|x l] eqn:Ei.
    - rewrite (logprobs_nil c Ei), app_nil_r. destruct Hne as [?|Hf]; [by left|]. right. by destruct c as [[|]|[|]].
    - destruct Hne as [Hl|Hf]; left; [by destruct lps|]. destruct c as [new|new nl ex]; simpl in Ei; subst; [done|]. destruct Hc as (l' & -> & Hl'). simpl in *.
      destruct l'; [done|]. by destruct lps. }
  exists s'. rewrite (run_bind _ _ _ _ _ E1). split; [done|]. by rewrite <-!app_assoc, <-!Nat.add_assoc in H'.
Qed.

(** The rows of a trajectory are what was appended, in order: the mask is 1 exactly
    on the tokens of the model and 0 on those of the environment, the log
    probabilities line up with the tokens when the model's come first and carry
    them, and session and trajectory agree on the length and on the numbers of
    turns, which count the non-empty ones. *)
Theorem trajectory_rows_exact (cs : list Chunk) (s : SessionData) :
  rows_are [] [] [] 0 0 s → Forall scored cs → model_first cs →
  ∃ s', for_each cs append s = Ret tt s' ∧
    rows_are (concat (chunk_ids <$> cs)) (concat (chunk_mask <$> cs)) (concat (chunk_logprobs <$> cs)) (sum_list (fst ∘ counts <$> cs)) (sum_list (snd ∘ counts <$> cs)) s' ∧
    length (concat (chunk_mask <$> cs)) = length (concat (chunk_ids <$> cs)) ∧ length (concat (chunk_logprobs <$> cs)) = length (concat (chunk_ids <$> cs)).
Proof.
  intros Hh Hsc Hf. destruct (append_all_run cs _ _ _ _ _ s Hh Hsc (or_intror Hf)) as (s' & E & H'). exists s'. split; [done|]. split; [done|]. clear -Hsc. split.
  - induction cs as [|c cs IH]; simpl; [done|]. inversion Hsc; subst. rewrite !length_app. f_equal; [|by apply IH]. unfold chunk_mask. by rewrite length_replicate.
  - induction Hsc as [|c cs Hc _ IH]; simpl; [done|]. rewrite !length_app. f_equal; [|exact IH]. destruct c as [l|l lps ex]; simpl; [by rewrite length_replicate|].
    destruct Hc as (l' & -> & Hl). case_bool_decide; [by subst|done].
Qed.

Lemma trajectory_rows_exact_witness :
  let cs := [FromModel [3; 4]%Z (Some [fone; fone]) None; FromEnv [7%Z]; FromModel [5%Z] (Some [fone]) (Some [9%Z])] in
  rows_are [] [] [] 0 0 (with_trajectories [new_trajectory] new_session) ∧
  ∃ s', for_each cs append (with_trajectories [new_trajectory] new_session) = Ret tt s' ∧ rows_are [3; 4; 7; 5]%Z [1; 1; 0; 1]%Z [fone; fone; fzero; fone] 2 1 s'.
Proof.
  intros cs. assert (rows_are [] [] [] 0 0 (with_trajectories [new_trajectory] new_session)) as Hh by (exists new_trajectory; by split_and!).
  split; [done|]. destruct (trajectory_rows_exact cs (with_trajectories [new_trajectory] new_session) Hh) as (s' & E & H & _); [|done|by exists s'].
  repeat constructor; by eexists.
Defined.

(** When the environment's tokens come first, their places are missing from the log
    probabilities, and each of them is attributed to an earlier token. *)
Theorem env_first_shifts_logprobs :
  ∃ s' t, for_each [FromEnv [7; 8]%Z; FromModel [3; 4]%Z (Some [fone; fone]) None] append (with_trajectories [new_trajectory] new_session) = Ret tt s' ∧
    trajectories s' = [t] ∧ length (tr_response_ids t) = 4 ∧ length (tr_response_logprobs t) = 2.
Proof. eexists _, _. split_and!; vm_compute; reflexivity. Qed.

(** ** Returns *)

(** The reference: discounted sums of what follows, after shaping by differences. *)
Fixpoint discounted (gamma : float) (rs : list float) : float :=
  match rs with [] => fzero | r :: rs => fadd r (fmul gamma (discounted gamma rs)) end.

Fixpoint returns (gamma : float) (rs : list float) : list float :=
  match rs with [] => [] | r :: rs' => discounted gamma rs :: returns gamma rs' end.

Definition shaped (coeff : float) (rs : list float) : list float :=
  match rs with [] => [] | r :: rest => r :: zip_with (λ r prev, fadd r (fmul coeff (fsub r prev))) rest rs end.

Definition adjusted (cfg : DataConfig) (rs : list float) : list float :=
  let rs := if fltb fzero (c_reward_bonus_coeff cfg) then shaped (c_reward_bonus_coeff cfg) rs else rs in
  if fltb fzero (c_gamma cfg) then returns (c_gamma cfg) rs else rs.

Definition raw_reward (np_sum : list float → float) (x : Step) : float :=
  fadd (match tool_reward x with Some l => np_sum l | None => fzero end) (default fzero (model_reward x)).

Definition has_reward (s : SessionData) (i : nat) (r : float) : Prop := ∃ x, heap s !! i = Some x ∧ step_reward x = Some r.
Definition same_but (ixs : list nat) (s s' : SessionData) : Prop := (∀ i, i ∉ ixs → heap s' !! i = heap s !! i) ∧ trajectories s' = trajectories s.

Section returns.
Context (cfg : DataConfig) (np_sum : list float → float).

Lemma same_but_reward ixs s s' i r : same_but ixs s s' → i ∉ ixs → has_reward s i r → has_reward s' i r.
Proof. intros [Hs _] Hi (x & Hx & Hr). exists x. by rewrite Hs. Qed.

Lemma same_but_rewards ixs s s' l rs : same_but ixs s s' → l ## ixs → Forall2 (has_reward s) l rs → Forall2 (has_reward s') l rs.
Proof.
  intros Hs Hd H. induction H as [|i r l rs Hi _ IH]; constructor.
  - eapply same_but_reward; [done| |done]. intros ?. by apply (Hd i); [left|].
  - apply IH. intros j ??. by apply (Hd j); [right|].
Qed.

Lemma same_but_trans i ixs s s1 s' : same_but [i] s s1 → same_but ixs s1 s' → same_but (i :: ixs) s s'.
Proof. intros [H1 T1] [H2 T2]. split; [|congruence]. intros j [Hj Hn]%not_elem_of_cons. rewrite H2 by done. apply H1. by rewrite list_elem_of_singleton. Qed.

Lemma set_reward_run s i x r :
  heap s !! i = Some x → ∃ s', on_step i (with_step_reward (Some r)) s = Ret tt s' ∧ has_reward s' i r ∧ same_but [i] s s' ∧ ∀ j y, j ≠ i → heap s !! j = Some y → heap s' !! j = Some y.
Proof.
  intros Hx. eexists. split; [done|]. unfold has_reward, same_but. simpl. split_and!; [| |done|].
  - exists (with_step_reward (Some r) x). split; [|done]. by rewrite list_lookup_alter_eq, Hx.
  - intros j Hj%not_elem_of_cons. apply list_lookup_alter_ne. naive_solver.
  - intros j y Hj Hy. by rewrite list_lookup_alter_ne.
Qed.

(** The Monte Carlo loop, from the last step to the first. *)
Fixpoint scan (G : float) (rs : list float) : list float :=
  match rs with [] => [] | r :: rs => let G := fadd r (fmul (c_gamma cfg) G) in G :: scan G rs end.

Lemma mc_returns_run l rs G s :
  NoDup l → Forall2 (has_reward s) l rs → ∃ s', mc_returns cfg G l s = Ret tt s' ∧ Forall2 (has_reward s') l (scan G rs) ∧ same_but l s s'.
Proof.
  intros Hd H. revert G s Hd H. revert rs. induction l as [|i l IH]; intros rs G s Hd H; inversion H as [|? r ? rs' (x & Hx & Hr) Hrest]; subst; simpl.
  { eexists. by split_and!. }
  apply NoDup_cons in Hd as [Hi Hd]. mrun. rewrite (run_of_option _ _ x), (run_of_option _ _ r) by done.
  destruct (set_reward_run s i x (fadd r (fmul (c_gamma cfg) G)) Hx) as (s1 & E1 & H1 & Hs1 & _). rewrite (run_bind _ _ _ _ _ E1).
  destruct (IH rs' (fadd r (fmul (c_gamma cfg) G)) s1 Hd) as (s' & E' & H' & Hs').
  { eapply same_but_rewards; [done| |done]. intros j Hj ->%list_elem_of_singleton. done. }
  exists s'. split; [done|]. split; [|by eapply same_but_trans]. constructor; [|done]. by eapply same_but_reward.
Qed.

Lemma scan_snoc G rs r : scan G (rs ++ [r]) = scan G rs ++ [fadd r (fmul (c_gamma cfg) (foldl (λ G r, fadd r (fmul (c_gamma cfg) G)) G rs))].
Proof. revert G. induction rs as [|x rs IH]; intros G; simpl; [done|]. by rewrite IH. Qed.

Lemma scan_reverse rs : reverse (scan fzero (reverse rs)) = returns (c_gamma cfg) rs.
Proof.
  induction rs as [|r rs IH]; [done|]. rewrite reverse_cons, scan_snoc, reverse_snoc, IH. simpl. f_equal. f_equal. f_equal. clear.
  induction rs as [|r rs IH]; [done|]. by rewrite reverse_cons, foldl_snoc, IH.
Qed.

Lemma step_rewards_run l rs s : Forall2 (has_reward s) l rs → step_rewards l s = Ret rs s.
Proof.
  intros H. unfold step_rewards. induction H as [|i r l rs (x & Hx & Hr) _ IH]; simpl; [done|]. mrun.
  rewrite (run_of_option _ _ x) by done. rewrite (run_of_option _ _ r) by done. by rewrite (run_bind _ _ _ _ _ IH).
Qed.

Lemma shape_rewards_run ixs raw prev s :
  NoDup ixs → Forall2 (has_reward s) ixs raw →
  ∃ s', shape_rewards cfg prev raw ixs s = Ret tt s' ∧ same_but ixs s s' ∧
    Forall2 (has_reward s') ixs (zip_with (λ r prev, fadd r (fmul (c_reward_bonus_coeff cfg) (fsub r prev))) raw (prev :: raw)).
Proof.
  intros Hd H. revert prev s Hd H. revert raw. induction ixs as [|i ixs IH]; intros raw prev s Hd H; inversion H as [|? r ? raw' (x & Hx & Hr) Hrest]; subst; simpl.
  { eexists. by split_and!. }
  apply NoDup_cons in Hd as [Hi Hd]. mrun. rewrite (run_of_option _ _ x), (run_of_option _ _ r) by done.
  destruct (set_reward_run s i x (fadd r (fmul (c_reward_bonus_coeff cfg) (fsub r prev))) Hx) as (s1 & E1 & H1 & Hs1 & _). rewrite (run_bind _ _ _ _ _ E1).
  destruct (IH raw' r s1 Hd) as (s' & E' & Hs' & H').
  { eapply same_but_rewards; [done| |done]. intros j Hj ->%list_elem_of_singleton. done. }
  exists s'. split; [done|]. split; [by eapply same_but_trans|]. constructor; [|done]. by eapply same_but_reward.
Qed.

Lemma same_but_weaken ixs ixs' s s' : same_but ixs s s' → ixs ⊆ ixs' → same_but ixs' s s'.
Proof. intros [H1 H2] Hs. split; [|done]. intros i Hi. apply H1. naive_solver. Qed.

Lemma same_but_both ixs s s1 s' : same_but ixs s s1 → same_but ixs s1 s' → same_but ixs s s'.
Proof. intros [H1 T1] [H2 T2]. split; [|congruence]. intros i Hi. by rewrite H2, H1. Qed.

Lemma adjust_run t rs s :
  NoDup (tr_steps t) → Forall2 (has_reward s) (tr_steps t) rs →
  ∃ s', adjust_step_rewards cfg t s = Ret tt s' ∧ Forall2 (has_reward s') (tr_steps t) (adjusted cfg rs) ∧ same_but (tr_steps t) s s'.
Proof.
  intros Hd H. unfold adjust_step_rewards, adjusted. set (c := c_reward_bonus_coeff cfg).
  assert (∃ s1, (if fltb fzero c then raw ← step_rewards (tr_steps t);
     match raw, tr_steps t with r0 :: raw, _ :: ixs => shape_rewards cfg r0 raw ixs | _, _ => mret tt end else mret tt) s = Ret tt s1 ∧
     Forall2 (has_reward s1) (tr_steps t) (if fltb fzero c then shaped c rs else rs) ∧ same_but (tr_steps t) s s1) as (s1 & E1 & H1 & Hs1).
  { destruct (fltb fzero c); [|by eexists]. rewrite (run_bind _ _ _ _ _ (step_rewards_run _ _ _ H)). inversion H as [|i r ixs rs' Hi Hrest Ei Er]; [by eexists|].
    rewrite <-Ei in Hd. apply NoDup_cons in Hd as [Hni Hd]. destruct (shape_rewards_run ixs rs' r s Hd Hrest) as (s1 & E1 & Hs1 & H1).
    exists s1. split; [done|]. split; [|eapply same_but_weaken; [done|intros ? ?; by right]]. constructor; [|done]. by eapply same_but_reward. }
  rewrite (run_bind _ _ _ _ _ E1). destruct (fltb fzero (c_gamma cfg)); [|by eexists].
  apply Forall2_reverse in H1. rewrite <-(reverse_Permutation (tr_steps t)) in Hd. destruct (mc_returns_run _ _ fzero s1 Hd H1) as (s' & E' & H' & Hs').
  exists s'. split; [done|]. apply Forall2_reverse in H'. rewrite reverse_involutive, scan_reverse in H'. split; [done|].
  eapply same_but_both; [done|]. eapply same_but_weaken; [done|]. intros j. by rewrite elem_of_reverse.
Qed.

Lemma compute_step_run i x s :
  heap s !! i = Some x → ∃ s', compute_step_reward np_sum i s = Ret (raw_reward np_sum x) s' ∧ has_reward s' i (raw_reward np_sum x) ∧ same_but [i] s s' ∧
    ∀ j y, j ≠ i → heap s !! j = Some y → heap s' !! j = Some y.
Proof.
  intros Hx. destruct (set_reward_run s i x (raw_reward np_sum x) Hx) as (s1 & E1 & H1). exists s1. split; [|done].
  unfold compute_step_reward. mrun. rewrite (run_of_option _ _ x) by done. by rewrite (run_bind _ _ _ _ _ E1).
Qed.

Lemma compute_all_run ixs xs s :
  NoDup ixs → Forall2 (λ i x, heap s !! i = Some x) ixs xs →
  ∃ s', map_each ixs (compute_step_reward np_sum) s = Ret (raw_reward np_sum <$> xs) s' ∧ Forall2 (has_reward s') ixs (raw_reward np_sum <$> xs) ∧ same_but ixs s s'.
Proof.
  intros Hd H. revert xs s Hd H. induction ixs as [|i ixs IH]; intros xs s Hd H; inversion H as [|? x ? xs' Hx Hrest]; subst; simpl.
  { eexists. by split_and!. }
  apply NoDup_cons in Hd as [Hi Hd]. destruct (compute_step_run i x s Hx) as (s1 & E1 & H1 & Hs1 & Hother). rewrite (run_bind _ _ _ _ _ E1).
  destruct (IH xs' s1 Hd) as (s' & E' & H' & Hs').
  { clear -Hrest Hother Hi. induction Hrest as [|j y l ys Hj _ IH]; constructor; [apply Hother; [|done]; intros ->; apply Hi; by left|]. apply IH. intros ?. apply Hi. by right. }
  rewrite (run_bind _ _ _ _ _ E'). exists s'. split; [done|]. split; [|by eapply same_but_trans]. constructor; [|done]. by eapply same_but_reward.
Qed.
End returns.

(** In step mode the reward of a trajectory is the sum of the raw rewards of its
    steps, tool reward plus model reward, and the rewards left in the steps are
    those of the reference: shaped by the differences of the raw rewards, then the
    discounted returns computed from the first step on, each where its coefficient
    is positive and there is more than one step.  Neither changes the reward of the
    output. *)
Theorem step_rewards_exact (cfg : DataConfig) (np_sum : list float → float) (k : nat) (t : Trajectory) (xs : list Step) (out : TokenOutput) (s : SessionData) :
  trajectories s !! k = Some t → NoDup (tr_steps t) → Forall2 (λ i x, heap s !! i = Some x) (tr_steps t) xs →
  let raw := raw_reward np_sum <$> xs in
  ∃ s', score_steps cfg np_sum (k, out) s = Ret (with_reward_score (np_sum raw) out) s' ∧
    Forall2 (has_reward s') (tr_steps t) (if bool_decide (1 < length xs) then adjusted cfg raw else raw) ∧
    trajectories s' = <[k := with_tr_reward (Some (np_sum raw)) t]> (trajectories s).
Proof.
  intros Ht Hd Hx raw. unfold score_steps. mrun. rewrite (run_of_option _ _ t) by done.
  destruct (compute_all_run np_sum _ _ s Hd Hx) as (s1 & E1 & H1 & Hs1). rewrite (run_bind _ _ _ _ _ E1). mrun. fold raw.
  set (s2 := with_trajectories _ s1). assert (Forall2 (has_reward s2) (tr_steps t) raw) as H2 by exact H1.
  rewrite (Forall2_length _ _ _ Hx). case_bool_decide.
  - destruct (adjust_run cfg t raw s2 Hd H2) as (s' & E' & H' & Hs'). rewrite (run_bind _ _ _ _ _ E'). exists s'. split_and!; [done|done|].
    destruct Hs' as [_ ->]. simpl. by destruct Hs1 as [_ ->].
  - rewrite run_mret. exists s2. split_and!; [done|done|]. simpl. by destruct Hs1 as [_ ->].
Qed.

Lemma step_rewards_exact_witness :
  let step r := mkStep [] [] None "" no_info (Some [r]) None None false in
  let t := with_tr_steps [0; 1] new_trajectory in
  let s := with_trajectories [t] (with_heap [step fone; step (of_Z 3)] new_session) in
  let cfg := mkDataConfig 4 4 4 (of_Z 2) fone ModeStep false in
  let out := output_of cfg s t in
  ∃ s', score_steps cfg (foldr fadd fzero) (0, out) s = Ret (with_reward_score (of_Z 4) out) s' ∧ Forall2 (has_reward s') [0; 1] [of_Z 11; of_Z 5].
Proof.
  intros step t s cfg out. destruct (step_rewards_exact cfg (foldr fadd fzero) 0 t [step fone; step (of_Z 3)] out s) as (s' & E & H & _);
    [done|by apply (bool_decide_eq_true_1 _); vm_compute|by repeat constructor|].
  exists s'. split; [exact E|exact H].
Defined.

(** ** Segments *)

Definition mask_of (r : Role) : bool := match r with Assistant => true | Observation => false end.
Definition segment_rows (l : list (Role * list Z)) : list (Z * bool) := concat ((λ p : Role * list Z, (λ i, (i, mask_of p.1)) <$> p.2) <$> l).

(** Roles of neighbouring segments differ and no segment is empty. *)
Fixpoint alternating (l : list (Role * list Z)) : Prop :=
  match l with
  | [] => True
  | x :: rest => x.2 ≠ [] ∧ match rest with [] => True | y :: _ => x.1 ≠ y.1 end ∧ alternating rest
  end.

Lemma mask_role b : mask_of (role_of b) = b.
Proof. by destruct b. Qed.

Lemma segment_rows_cons r ids l : segment_rows ((r, ids) :: l) = ((λ i, (i, mask_of r)) <$> ids) ++ segment_rows l.
Proof. done. Qed.

Lemma segment_loop_spec rows run b :
  run ≠ [] ∨ (∃ i m rest, rows = (i, m) :: rest ∧ b = bool_decide (m ≠ 0%Z)) ∨ rows = [] →
  segment_rows (segment_loop rows run b) = ((λ i, (i, b)) <$> run) ++ ((λ p, (p.1, bool_decide (p.2 ≠ 0%Z))) <$> rows) ∧
  alternating (segment_loop rows run b) ∧ from_option (λ p, p.1 = role_of b) True (head (segment_loop rows run b)).
Proof.
  revert run b. induction rows as [|[i m] rows IH]; intros run b Hr; simpl.
  - destruct run as [|x run]; simpl; [done|]. unfold segment_rows. simpl. by rewrite mask_role, !app_nil_r.
  - case_bool_decide as Hb.
    + destruct (IH (run ++ [i]) b) as (H1 & H2 & H3); [left; by destruct run|]. rewrite H1, fmap_app, <-app_assoc. simpl. by rewrite Hb.
    + destruct (IH [i] (bool_decide (m ≠ 0%Z))) as (H1 & H2 & H3); [by left|]. rewrite segment_rows_cons, H1, mask_role. split; [done|]. split; [|done].
      split; [|split; [|done]].
      * destruct Hr as [?|[(? & ? & ? & Heq & Hb')|?]]; [done| |done]. injection Heq as <- <- <-. congruence.
      * destruct (segment_loop rows [i] _) as [|y l] eqn:E; [done|]. simpl in H3 |- *. rewrite H3. destruct b, (bool_decide _); simpl; congruence.
Qed.

(** The text of a trajectory is split where the speaker changes, and nowhere else:
    putting the segments together again gives every token with its mask, no segment
    is empty and neighbouring segments have different roles. *)
Theorem segments_round_trip (ids mask : list Z) :
  length mask = length ids →
  segment_rows (segment_by_mask ids mask) = zip ids ((λ m, bool_decide (m ≠ 0%Z)) <$> mask) ∧ alternating (segment_by_mask ids mask).
Proof.
  intros Hl. unfold segment_by_mask. destruct ids as [|i ids]; [done|]. destruct mask as [|m mask]; [done|]. rewrite bool_decide_true by done.
  destruct (segment_loop_spec (zip (i :: ids) (m :: mask)) [] (bool_decide (m ≠ 0%Z))) as (H1 & H2 & _); [right; left; by eexists _, _, _|].
  split; [|done]. rewrite H1. simpl. f_equal. clear. revert mask. induction ids as [|x ids IH]; intros [|y mask]; simpl; try done. by f_equal.
Qed.

Lemma segments_round_trip_witness : segment_by_mask [5; 6; 8; 5]%Z [1; 1; 0; 1]%Z = [(Assistant, [5; 6]%Z); (Observation, [8%Z]); (Assistant, [5%Z])] ∧ alternating (segment_by_mask [5; 6; 8; 5]%Z [1; 1; 0; 1]%Z).
Proof. split; [reflexivity|]. exact (proj2 (segments_round_trip [5; 6; 8; 5]%Z [1; 1; 0; 1]%Z eq_refl)). Defined.
