(* ===== verification/AgentWorker.v ===== *)
(** * Agent-loop worker

    [PSRL_AgentLoopWorker] ([psrl/workers/agent_loop/worker.py]): the queue of
    programs, the attempts at an episode, and what is told to the parameter-server
    manager, the agent-loop manager and the TransferQueue when it has ended.  The
    handlers of the managers are those of [PSManager.v] and [AgentLoopOps.v]; the
    outcome of each attempt is an argument. *)

From S2P Require Import Prelude.
From S2P Require Import PyFloat.
From S2P Require Import StalenessBuffer.
From S2P Require Import StalenessInventory.
From S2P Require Import TransferQueue.
From S2P Require Import RequestStatusTracker.
From S2P Require Import PSManager.
From S2P Require Import PyData.
From S2P Require Import AgentLoop.
From S2P Require Import AgentLoopOps.
From S2P Require Import AgentData.
From S2P Require Import AgentRun.

#[local] Open Scope Z_scope.

(** ** State *)

(** A batch of one request. *)
Record Program := mkProgram {
  pg_uid : Z;
  pg_parent_id : option Z;
  pg_validate : bool;
  pg_version_tag : Z;
}.

(** The queue holds [None] for the signal to stop; [agent_programs] are the programs
    of the tasks that are running. *)
Record AgentLoopWorker := mkAgentWorker {
  pending_program_queue : list (option Program);
  agent_programs : list Program;
  stop_busy_loop_task : bool;
}.

(** What is stored under a key, apart from the fields of the prompt. *)
Record Field := mkField {
  f_prompts : list Z;
  f_responses : list Z;
  f_response_mask : list Z;
  f_loss_mask : list Z;
  f_input_ids : list Z;
  f_seq_len : nat;
  f_prompt_len : nat;
  f_response_len : nat;
  f_uid : Z;
  f_version_tag : Z;
  f_parent_id : option Z;
  f_trajectory_index : nat;
  f_trajectory_num : nat;
  f_terminate_reason : string;
  f_reward_score : option float;
}.

(** The actors, the payloads of the TransferQueue and the manager's result queue. *)
Record Site := mkSite {
  world : World;
  payloads : gmap (string * string) Field;
  result_queue : list (bool * Result);
}.

Definition set_world v s := mkSite v (payloads s) (result_queue s).

Abbreviation Wk := (M Site).

Definition on_world {A} (m : Wld A) : Wk A := zoom world set_world m.

(** ** The queue *)

Definition add_agent_program (batch : option (list Program)) (w : AgentLoopWorker) : AgentLoopWorker :=
  let new := match batch with None => [None] | Some requests => Some <$> requests end in
  mkAgentWorker (pending_program_queue w ++ new) (agent_programs w) (stop_busy_loop_task w).

(** One turn of the busy loop; the task it creates runs beside it. *)
Definition launch_agent_loop (w : AgentLoopWorker) : AgentLoopWorker :=
  if stop_busy_loop_task w then w
  else match pending_program_queue w with
       | [] => w
       | None :: rest => mkAgentWorker rest (agent_programs w) true
       | Some p :: rest => mkAgentWorker rest (agent_programs w ++ [p]) false
       end.

(** ** Attempts *)

Abbreviation Attempt := (Stop + (option (list TokenOutput) * TerminateReason))%type.

Record WorkerConfig := mkWorkerConfig {
  wc_retry_limit : nat;
  wc_raise_on_error : bool;
  wc_overlong_filtering : bool;
}.

Section attempts.
Context (wc : WorkerConfig) (attempt : nat → Attempt).

(** [todo] attempts are left and [n] were made; the result is what the variables of the
    loop hold when it ends, [None] where they are not bound. *)
Fixpoint retry_loop (todo n : nat) (bound : option (option (list TokenOutput) * TerminateReason)) (raised : option exn)
    : nat * option (option (list TokenOutput) * TerminateReason) * option exn :=
  match todo with
  | O => (n, bound, raised)
  | S todo =>
      let raise_on_error := bool_decide (todo = 0%nat) && wc_raise_on_error wc in
      let '(out, reason, raised) :=
        match run_with_termination_handling raise_on_error (attempt n) with
        | inr (out, reason) => (out, reason, raised)
        | inl e => (None, ROLLOUT_ERROR, Some e)
        end in
      if needs_worker_retry reason then retry_loop todo (S n) (Some (out, reason)) raised else (S n, Some (out, reason), raised)
  end.

Definition attempts := retry_loop (wc_retry_limit wc) 0 None None.
End attempts.

(** ** The output of an episode *)

Definition output_key (uid : Z) (n i : nat) : string := if bool_decide (1 < n)%nat then pretty uid +:+ "_" +:+ pretty (Z.of_nat i) else pretty uid.

Definition build_field (wc : WorkerConfig) (p : Program) (reason : TerminateReason) (n i : nat) (out : TokenOutput) : Res (string * Field) :=
  if bool_decide (length (to_response_ids out) = length (to_response_mask out)) then
    let mask := if wc_overlong_filtering wc && (is_budget_truncated reason || is_ungraded reason) then replicate (length (to_response_mask out)) 0 else to_response_mask out in
    let prompt_len := length (to_prompt_ids out) in
    let response_len := length (to_response_ids out) in
    if bool_decide (length mask = response_len) then
      inr (output_key (pg_uid p) n i,
           mkField (to_prompt_ids out) (to_response_ids out) mask mask (to_prompt_ids out ++ to_response_ids out) (prompt_len + response_len) prompt_len response_len
             (pg_uid p) (pg_version_tag p) (pg_parent_id p) i n (reason_value reason) (to_reward_score out))
    else inl AssertionError
  else inl AssertionError.

Definition build_output_fields (wc : WorkerConfig) (p : Program) (reason : TerminateReason) (outs : list TokenOutput) : Res (list (string * Field)) :=
  map_res (λ io, build_field wc p reason (length outs) io.1 io.2) (imap pair outs).

Definition kv_batch_put (part : string) (rows : list (string * Field)) (s : Site) : Site :=
  let w := world s in
  mkSite (set_tq (<[part := foldl (λ q k, <[k := Some "success"]> q) (default ∅ (tq w !! part)) rows.*1]> (tq w)) w)
    (foldl (λ m kf, <[(part, kf.1) := kf.2]> m) (payloads s) rows) (result_queue s).

Section worker.
Context `{SetOrder} (cfg : AgentConfig) (env : Aw → World → World) (wc : WorkerConfig).

(** The output of an episode has the instance that served its last turn; an episode
    without a turn has none. *)
Definition postprocess_output (p : Program) (reason : TerminateReason) (outs : list TokenOutput) : Wk unit :=
  rows ← of_res (build_output_fields wc p reason outs);
  on_world (modify (env AwPut)) ;;
  modify (kv_batch_put (partition_of (pg_validate p)) rows) ;;
  first ← of_option IndexError (head outs);
  modify (λ s, mkSite (world s) (payloads s) (result_queue s ++
    [(pg_validate p, mkResult (pg_uid p) (default (pg_uid p) (pg_parent_id p)) (default INVALID_ROLLOUT_INSTANCE_ID (to_instance first)) (pg_version_tag p) (Z.of_nat (length outs)))])).

Definition report (p : Program) (out : option (list TokenOutput)) (reason : TerminateReason) : Wk unit :=
  let out := if needs_worker_retry reason || is_aborted reason then None else out in
  (if needs_manager_retry reason then
     on_world (notify_group_failed cfg env (default (pg_uid p) (pg_parent_id p)) (pg_uid p) (pg_validate p) (Some (reason_value reason)))
   else mret tt) ;;
  match out with
  | Some outs =>
      ok ← on_world (await_call env AwStatus (on_pm (on_tracker (update_request_status (Many [pg_uid p]) (One RequestStatus.COMPLETED) (One (-1)) (One INVALID_ROLLOUT_INSTANCE_ID) (pg_validate p)))));
      if truth ok then postprocess_output p reason outs else mret tt
  | None =>
      if is_aborted reason then mret tt
      else on_world (await_call env AwAbort (on_pm (abort_requests [pg_uid p] true false)))
  end.

Definition run_agent_loop (registered : bool) (p : Program) (attempt : nat → Attempt) : Wk unit :=
  assert registered ;;
  let '(_, bound, raised) := attempts wc attempt in
  '(out, reason) ← of_option UnboundLocalError bound;
  report p out reason ;;
  match raised with Some e => raise e | None => mret tt end.
End worker.
