(* ===== verification/AgentWorkerTheorems.v ===== *)
(** * Agent-loop worker: theorems

    How often an episode is attempted, and that the slot of a request is never
    lost: its result is delivered, its group is marked as failed, or the
    parameter-server manager has given it up already. *)

From S2P Require Import Prelude.
From S2P Require Import PyFloat.
From S2P Require Import StalenessBuffer.
From S2P Require Import StalenessInventory.
From S2P Require Import TransferQueue.
From S2P Require Import RequestStatusTracker.
From S2P Require Import PSManager.
From S2P Require Import PyData.
From S2P Require Import AgentLoop.
From S2P Require Import AgentLoopOps.
From S2P Require Import AgentLoopTheorems.
From S2P Require Import AgentLoopRuns.
From S2P Require Import AgentData.
From S2P Require Import AgentRun.
From S2P Require Import AgentWorker.

#[local] Open Scope Z_scope.

(** ** Attempts *)

(** A reason is tried again by the worker exactly when the manager must refill. *)
Lemma retry_classes r : needs_worker_retry r = needs_manager_retry r.
Proof. by destruct r. Qed.

Section attempts.
Context (wc : WorkerConfig) (attempt : nat → Attempt).

(** What attempt [i] comes to; only the last of [limit] may raise. *)
Definition handled (i : nat) : Res (option (list TokenOutput) * TerminateReason) :=
  run_with_termination_handling (bool_decide (S i = wc_retry_limit wc) && wc_raise_on_error wc) (attempt i).
Definition reason_of (r : Res (option (list TokenOutput) * TerminateReason)) : TerminateReason := match r with inr (_, reason) => reason | inl _ => ROLLOUT_ERROR end.

Lemma handled_early i : S i ≠ wc_retry_limit wc → ∃ o r, handled i = inr (o, r).
Proof.
  intros Hi. unfold handled. rewrite bool_decide_false by done. simpl. destruct (attempt i) as [[| |e]|[[out|] reason]]; simpl; try by eexists _, _.
  destruct (is_aborted reason), (needs_worker_retry reason), (is_error reason); simpl; by eexists _, _.
Qed.

Lemma retry_loop_spec todo n bound raised :
  (todo + n = wc_retry_limit wc)%nat → (0 < todo)%nat →
  ∃ m, (n < m ≤ wc_retry_limit wc)%nat ∧ (∀ i, (n ≤ i < m - 1)%nat → needs_worker_retry (reason_of (handled i)) = true) ∧
    (m = wc_retry_limit wc ∨ needs_worker_retry (reason_of (handled (m - 1))) = false) ∧
    retry_loop wc attempt todo n bound raised =
      match handled (m - 1) with inl e => (m, Some (None, ROLLOUT_ERROR), Some e) | inr x => (m, Some x, raised) end.
Proof.
  revert n bound raised. induction todo as [|todo IH]; intros n bound raised Hn Hpos; [lia|]. cbn [retry_loop].
  assert (run_with_termination_handling (bool_decide (todo = 0%nat) && wc_raise_on_error wc) (attempt n) = handled n) as ->.
  { unfold handled. f_equal. f_equal. apply bool_decide_ext. lia. }
  assert (S n - 1 = n)%nat as Hs by lia. destruct todo as [|todo].
  { exists (S n). rewrite Hs. split_and!; [lia|lia|intros; lia|left; lia|]. destruct (handled n) as [e|[out reason]]; simpl; [done|]. by destruct (needs_worker_retry reason). }
  destruct (handled_early n) as (out & reason & E); [lia|]. rewrite E. destruct (needs_worker_retry reason) eqn:Er.
  - destruct (IH (S n) (Some (out, reason)) raised) as (m & Hm & Hbefore & Hend & Eq); [lia|lia|]. exists m. split_and!; [lia|lia| |done|done].
    intros i Hi. destruct (decide (i = n)) as [->|]; [by rewrite E|]. apply Hbefore. lia.
  - exists (S n). rewrite Hs, E. split_and!; [lia|lia|intros; lia|by right|done].
Qed.
End attempts.

(** ** The output of an episode *)

Definition row_of (wc : WorkerConfig) (p : Program) (reason : TerminateReason) (n i : nat) (out : TokenOutput) : Field :=
  let mask := if wc_overlong_filtering wc && (is_budget_truncated reason || is_ungraded reason) then replicate (length (to_response_mask out)) 0 else to_response_mask out in
  mkField (to_prompt_ids out) (to_response_ids out) mask mask (to_prompt_ids out ++ to_response_ids out) (length (to_prompt_ids out) + length (to_response_ids out))
    (length (to_prompt_ids out)) (length (to_response_ids out)) (pg_uid p) (pg_version_tag p) (pg_parent_id p) i n (reason_value reason) (to_reward_score out).

Definition masked (out : TokenOutput) : Prop := length (to_response_mask out) = length (to_response_ids out).

Lemma build_rows wc p reason n outs k :
  Forall masked outs →
  map_res (λ io, build_field wc p reason n io.1 io.2) (imap (λ i o, ((k + i)%nat, o)) outs) =
    inr (imap (λ i o, (output_key (pg_uid p) n (k + i), row_of wc p reason n (k + i) o)) outs).
Proof.
  intros Ho. revert k. induction Ho as [|o outs Ho _ IH]; intros k; [done|]. rewrite !imap_cons. cbn [map_res]. unfold build_field at 1. cbn [fst snd].
  rewrite bool_decide_true by done. rewrite bool_decide_true by (by destruct (_ && _); rewrite ?length_replicate).
  assert (imap ((λ i o, ((k + i)%nat, o)) ∘ S) outs = imap (λ i o, ((S k + i)%nat, o)) outs) as -> by (apply imap_ext; intros; simpl; f_equal; lia).
  rewrite IH. do 2 f_equal. apply imap_ext. intros i x _. simpl. by rewrite Nat.add_succ_r.
Qed.

Lemma output_keys uid n : (0 < n)%nat → request_payload_keys uid (Z.of_nat n) = inr (output_key uid n <$> seq 0 n).
Proof.
  intros Hn. unfold request_payload_keys, output_key. rewrite bool_decide_false by lia. case_bool_decide as H1.
  { assert (n = 1%nat) as -> by lia. done. }
  f_equal. unfold zrange, seqZ. rewrite Z.sub_0_r, Nat2Z.id, <-list_fmap_compose. apply list_fmap_ext. intros i x _. simpl. rewrite bool_decide_true by lia. by rewrite Z.add_0_r.
Qed.

(** What a batch put leaves under the keys of an episode. *)
Lemma put_payloads (part : string) (rows : list (string * Field)) (m : gmap (string * string) Field) k v :
  NoDup rows.*1 → (k, v) ∈ rows → foldl (λ m kf, <[(part, kf.1) := kf.2]> m) m rows !! (part, k) = Some v.
Proof.
  induction rows as [|[x y] rows IH] using rev_ind; [by intros _ ?%not_elem_of_nil|]. rewrite foldl_snoc, fmap_app, NoDup_app. intros (Hd & Hx & _).
  intros [Hk|[= -> ->]%list_elem_of_singleton]%elem_of_app; [|apply lookup_insert_eq]. simpl. rewrite lookup_insert_ne; [by apply IH|].
  intros [= ->]. apply (Hx k); [|by apply list_elem_of_singleton]. by apply (list_elem_of_fmap_2 fst _ (k, v)).
Qed.

Lemma put_keys (keys : list string) (q : partition) k : k ∈ keys → foldl (λ q k, <[k := Some "success"]> q) q keys !! k = Some (Some "success").
Proof.
  induction keys as [|x keys IH] using rev_ind; [by intros ?%not_elem_of_nil|]. rewrite foldl_snoc. intros [Hk| ->%list_elem_of_singleton]%elem_of_app; [|by rewrite lookup_insert_eq].
  destruct (decide (x = k)) as [->|]; [by rewrite lookup_insert_eq|]. rewrite lookup_insert_ne by done. by apply IH.
Qed.

Lemma output_key_inj uid n a b : (a < n)%nat → (b < n)%nat → output_key uid n a = output_key uid n b → a = b.
Proof.
  intros Ha Hb. unfold output_key. case_bool_decide; [|lia]. intros Heq. apply underscore_split in Heq as [_ Heq]; [|apply pretty_Z_underscore..].
  apply (inj pretty) in Heq. lia.
Qed.

Section slots.
Context `{SetOrder} (cfg : AgentConfig) (env : Aw → World → World) (wc : WorkerConfig).

(** The outputs of an episode are stored and announced. *)
Definition delivered (p : Program) (reason : TerminateReason) (outs : list TokenOutput) (s s' : Site) : Prop :=
  ∃ keys first, request_payload_keys (pg_uid p) (Z.of_nat (length outs)) = inr keys ∧ head outs = Some first ∧
    result_queue s' = result_queue s ++ [(pg_validate p, mkResult (pg_uid p) (default (pg_uid p) (pg_parent_id p)) (default INVALID_ROLLOUT_INSTANCE_ID (to_instance first)) (pg_version_tag p) (Z.of_nat (length outs)))] ∧
    ∀ i k out, keys !! i = Some k → outs !! i = Some out →
      payloads s' !! (partition_of (pg_validate p), k) = Some (row_of wc p reason (length outs) i out) ∧
      default ∅ (tq (world s') !! partition_of (pg_validate p)) !! k = Some (Some "success").

Lemma postprocess_run p reason outs s :
  outs ≠ [] → Forall masked outs → ∃ s', postprocess_output env wc p reason outs s = Ret tt s' ∧ delivered p reason outs s s'.
Proof.
  intros Hne Ho. unfold postprocess_output, build_output_fields. set (n := length outs).
  assert (0 < n)%nat as Hn by (destruct outs; simpl in *; [done|unfold n; simpl; lia]).
  pose proof (build_rows wc p reason n outs 0 Ho) as E. simpl in E.
  assert (imap pair outs = imap (λ i o, (i, o)) outs) as -> by (by apply imap_ext). rewrite E, (run_of_res _ _ _ _ eq_refl).
  set (rows := imap _ outs).
  assert (rows.*1 = output_key (pg_uid p) n <$> seq 0 n) as Hkeys by (unfold rows; rewrite fmap_imap; exact (imap_seq_0 outs (output_key (pg_uid p) n))).
  destruct (head outs) as [first|] eqn:Eh; [|by destruct outs].
  eexists. split; [unfold on_world, zoom, mbind, M_bind, modify, of_option; simpl; reflexivity|].
  eexists _, first. split; [by apply output_keys|]. split_and!; [done|done|]. fold n. simpl. intros i k out Hk Hout. rewrite list_lookup_fmap in Hk.
  destruct (seq 0 n !! i) as [j|] eqn:Ej; [|done]. apply lookup_seq in Ej as [-> Hi]. injection Hk as <-. simpl. split.
  - apply put_payloads.
    + rewrite Hkeys. apply NoDup_fmap_2_strong; [|apply NoDup_seq]. intros a b Ha%elem_of_seq Hb%elem_of_seq. apply output_key_inj; lia.
    + apply (list_elem_of_lookup_2 _ i). unfold rows. by rewrite list_lookup_imap, Hout.
  - rewrite lookup_insert_eq. simpl. apply put_keys. rewrite Hkeys. apply list_elem_of_fmap. exists i. split; [done|]. apply elem_of_seq. lia.
Qed.

Lemma final_on_world {A} (m : Wld A) s : final (on_world m s) = set_world (final (m (world s))) s.
Proof. unfold on_world, zoom. by destruct (m (world s)). Qed.

(** The slot of a failed episode is given up: its group is marked, nothing is announced. *)
Definition given_up (parent : Z) (s s' : Site) : Prop :=
  is_failed false parent (al (world s')) = true ∧ result_queue s' = result_queue s ∧ payloads s' = payloads s.

Hypothesis env_failed : ∀ k w, failed_train_group_ids (al (env k w)) = failed_train_group_ids (al w).

Lemma abort_keeps_failed x (w : World) :
  failed_train_group_ids (al (final (await_call env AwAbort (on_pm (abort_requests [x] true false)) w))) = failed_train_group_ids (al w).
Proof. pose proof (keeps_await env guarded env_failed AwAbort _ (keeps_on_pm guarded (abort_requests [x] true false))) as Hk. apply Hk. Qed.

Lemma report_failed p out reason s :
  pg_validate p = false → 0 < capacity (failed_train_group_ids (al (world s))) → needs_manager_retry reason = true →
  given_up (default (pg_uid p) (pg_parent_id p)) s (final (report cfg env wc p out reason s)).
Proof.
  intros Hv Hc Hr. unfold report. rewrite retry_classes, Hr, Hv. assert (is_aborted reason = false) as -> by (by destruct reason). cbn [orb].
  set (parent := default _ _). set (m := notify_group_failed _ _ _ _ _ _). pose proof (notify_marks cfg env env_failed parent (pg_uid p) (Some (reason_value reason)) (world s) Hc) as Hm. fold m in Hm.
  unfold mbind, M_bind. pose proof (final_on_world m s) as Hf. destruct (on_world m s) as [[] s1|e s1]; simpl in Hf; subst s1.
  - rewrite final_on_world. split_and!; simpl; [|done|done]. unfold is_failed in *. by rewrite abort_keeps_failed.
  - simpl. by split_and!.
Qed.

Lemma handled_output attempt i o r : handled wc attempt i = inr (o, r) → is_aborted r = false → needs_worker_retry r = false → is_Some o.
Proof.
  unfold handled. set (b := _ && _). destruct (attempt i) as [[| |e]|[[out|] reason]]; simpl.
  - by intros [= <- <-].
  - by intros [= <- <-].
  - destruct b; [done|]. by intros [= <- <-].
  - intros [= <- _] _ _. by eexists.
  - destruct (is_aborted reason) eqn:Ea; [intros [= <- <-]; congruence|]. destruct (needs_worker_retry reason) eqn:Er.
    + destruct (is_error reason && b); [done|]. intros [= <- <-]. congruence.
    + destruct b; [done|]. by intros [= <- <-].
Qed.

Lemma report_result p reason outs s ok w1 :
  is_successful reason = true → await_call env AwStatus (on_pm (on_tracker (update_request_status (Many [pg_uid p]) (One RequestStatus.COMPLETED) (One (-1)) (One INVALID_ROLLOUT_INSTANCE_ID) (pg_validate p)))) (world s) = Ret ok w1 →
  report cfg env wc p (Some outs) reason s = (if truth ok then postprocess_output env wc p reason outs else mret tt) (set_world w1 s).
Proof.
  intros Hs E. unfold report. rewrite retry_classes. unfold needs_manager_retry. rewrite Hs. assert (is_aborted reason = false) as -> by (by destruct reason). simpl.
  rewrite run_mret, (run_bind _ _ s ok (set_world w1 s)); [done|]. unfold on_world, zoom. by rewrite E.
Qed.
End slots.


Section demo.
#[local] Existing Instance elements_order.


(** A request of two trajectories, delivered. *)
Example episode_delivered :
  let out ids := mkTokenOutput [1; 2] ids (replicate (length ids) 1) None None None None (Some fone) (Some 2) (Some ("r", 0)) [] [] in
  let wc := mkWorkerConfig 1 true false in
  let start := on_pm (on_tracker (add_request (Many [6]) (One INVALID_ROLLOUT_INSTANCE_ID) (One 0) (One RequestStatus.RUNNING) (One false))) (demo_world (demo_config 2 None) []) in
  let s := mkSite (final start) ∅ [] in
  let o := run_agent_loop (demo_config 2 None) idle wc true (mkProgram 6 (Some 3) false 0) (λ _, inr (Some [out [5]; out [7; 8]], FINISHED)) s in
  result o = inr tt ∧ result_queue (final o) = [(false, mkResult 6 3 ("r", 0) 0 2)] ∧
  (f_responses <$> payloads (final o) !! ("train", "6_1")) = Some [7; 8].
Proof. vm_compute. by split_and!. Qed.

(** When the reward manager gives a request up, the single-turn loop ends as aborted,
    but the multi-turn loop as finished without an output, which becomes an error
    that is tried again and for which the manager refills the group. *)
Theorem aborted_reward_counts_as_failure :
  let lc := mkLoopConfig (mkDataConfig 4 6 3 fzero fzero ModeTraj false) None (mkSampling fone fone (-1)) (mkSampling fzero fone (-1)) false 0 true false in
  let codec := mkCodec (λ _ _ _ _, inr [1; 2]) [1] (λ _, "text") (λ _, None) JStr in
  let post (_ : TokenInput) (_ : SamplingParams) := Responses [mkGenResponse [5; 6] None None None None] ("r", 0) in
  let partners := mkPartners (inr ([JStr "task"], no_info)) (λ _, post) (λ _ _, EnvOut [] RewardNone true no_info) (λ _, None) None in
  let q := mkGenRequest 7 None false 3 None (Some [JStr "task"]) None (Some [1; 2]) None None None None None in
  let template (_ : bool) (_ : list Json) (_ _ : option (list Json)) := inr [1; 2] : Res (list Z) in
  let run := run_result (multi_turn_run lc template (λ _, (None, None)) (λ _, false) (λ _, fzero) codec partners q new_session) in
  run = inr (None, FINISHED) ∧ run_with_termination_handling false run = inr (None, UNKNOWN) ∧
  needs_worker_retry UNKNOWN = true ∧ needs_manager_retry UNKNOWN = true ∧
  generate_run lc template (λ _, (None, None)) (λ _, false) post None q = inr (None, ABORTED).
Proof. vm_compute. by split_and!. Qed.

(** From the second turn on, a multimodal prompt is sent with the expanded tokens of the
    trajectory although its tokens are still declared as unexpanded. *)
Theorem second_turn_sends_expanded :
  let lc := mkLoopConfig (mkDataConfig 9 9 3 fzero fzero ModeTraj false) None (mkSampling fone fone (-1)) (mkSampling fzero fone (-1)) true 0 true false in
  let template (expand : bool) (_ : list Json) (_ _ : option (list Json)) := inr (if expand then [1; 50; 50; 50] else [1; 50]) : Res (list Z) in
  let tokens q := pre_process_inputs lc template (λ _, (Some [JStr "img"], None)) (λ _, true) q in
  let q := mkGenRequest 7 None false 3 None (Some [JStr "image"]) None (Some [1; 50; 50; 50]) (Some []) None None None None in
  ∃ t1 q1 t2 q2, tokens q = inr (t1, q1) ∧ ti_input_ids t1 = [1; 50] ∧ g_token_mode q1 = Some Unexpanded ∧
    tokens (with_g_ids (Some [1; 50; 50; 50]) (Some [5]) q1) = inr (t2, q2) ∧ ti_input_ids t2 = [1; 50; 50; 50; 5] ∧ g_token_mode q2 = Some Unexpanded.
Proof. eexists _, _, _, _. split_and!; vm_compute; reflexivity. Qed.
End demo.
