(* ===== verification/DataProcessor.v ===== *)
(** * Data processor: batches, ids and sampling

    [DataProcessor] ([psrl/utils/dataset/data_processor.py]) turns the batches of
    the training and validation dataloaders into requests: it merges the batches
    of several datasets, numbers the samples, repeats each of them once per
    rollout, registers the requests with the parameter-server manager and hands
    the batch to the agent-loop manager, either from its background thread or on
    demand when a failed group has to be replaced.

    Tensors, arrays and dataloaders are library objects.  [ColumnOps] lists the
    operations of a column that the code uses, [ColumnLaws] what it relies on;
    [ListColumns] is an implementation in which the model runs.  An [Env] says
    what every iterator of a dataloader yields and what [torch.randperm] draws. *)

From Stdlib Require Import SpecFloat.
From S2P Require Import Prelude.
From S2P Require Import StalenessBuffer.
From S2P Require Import RequestStatusTracker.
From S2P Require Import PyFloat.
From S2P Require Import PyData.

#[local] Open Scope Z_scope.

(** ** Columns *)

(** What [isinstance] and [dtype == object] tell about a value. *)
Inductive Kind := KTensor | KArray | KObjectArray | KOther.

#[export] Instance Kind_eq_dec : EqDecision Kind.
Proof. solve_decision. Defined.

Class ColumnOps := {
  Col : Type;
  Cell : Type;
  kind : Col → Kind;
  (** the entries along the first dimension *)
  rows : Col → list Cell;
  (** [v[:n]], [v[n:]] *)
  take_rows : nat → Col → Col;
  drop_rows : nat → Col → Col;
  (** [repeat_interleave] *)
  repeat_rows : nat → Col → Col;
  (** [torch.cat(values, dim=0)], [np.concatenate(values, axis=0)] *)
  cat_tensors : list Col → Res Col;
  cat_arrays : list Col → Res Col;
  (** [zeros] and an object array of [None], with the dtype and trailing shape of a column *)
  zeros_like : Col → nat → Col;
  nones_like : Col → nat → Col;
}.

(** [like]: same kind, dtype and trailing shape. *)
Class ColumnLaws `{ColumnOps} := {
  like : Col → Col → Prop;
  like_equiv :: Equivalence like;
  like_kind c c' : like c c' → kind c = kind c';
  rows_take n c : rows (take_rows n c) = take n (rows c);
  rows_drop n c : rows (drop_rows n c) = drop n (rows c);
  like_take n c : like c (take_rows n c);
  like_drop n c : like c (drop_rows n c);
  rows_repeat n c : rows (repeat_rows n c) = rows c ≫= replicate n;
  length_zeros c n : length (rows (zeros_like c n)) = n;
  length_nones c n : length (rows (nones_like c n)) = n;
  like_zeros c n : kind c = KTensor ∨ kind c = KArray → like c (zeros_like c n);
  like_nones c n : kind c = KObjectArray → like c (nones_like c n);
  cat_tensors_ok c cs : kind c = KTensor → Forall (like c) cs →
    ∃ r, cat_tensors (c :: cs) = inr r ∧ rows r = concat (rows <$> c :: cs) ∧ like c r;
  cat_arrays_ok c cs : kind c = KArray ∨ kind c = KObjectArray → Forall (like c) cs →
    ∃ r, cat_arrays (c :: cs) = inr r ∧ rows r = concat (rows <$> c :: cs) ∧ like c r;
}.

(** ** Shares of a batch *)

(** [int(x)] of a float. *)
Definition ftrunc (x : float) : Res Z :=
  match x with
  | S754_nan => inl ValueError
  | S754_infinity _ => inl OverflowError
  | S754_zero _ => inr 0
  | S754_finite s m e =>
      let a := if bool_decide (0 ≤ e) then Z.pos m * 2 ^ e else Z.pos m / 2 ^ (- e) in
      inr (if s then - a else a)
  end.

(** [int(total * ratio)] for every dataset. *)
Definition shares (total : Z) (ratios : list float) : Res (list Z) :=
  map_res (λ r, ftrunc (fmul (of_Z total) r)) ratios.

(** The last dataset takes what the others leave. *)
Definition train_batch_sizes (total : Z) (ratios : list float) : Res (list Z) :=
  match shares total ratios with
  | inl e => inl e
  | inr [] => inl IndexError
  | inr sizes =>
      let init := removelast sizes in
      inr (init ++ [total - foldr Z.add 0 init])
  end.

(** How much each dataset is repeated so that all last equally many batches. *)
Definition oversample_ratios (train_batch_size : Z) (ratios : list float) (dataset_sizes : list Z) : Res (list float) :=
  match shares train_batch_size ratios with
  | inl e => inl e
  | inr rough =>
      match map_res (λ '(d, b), if bool_decide (b = 0) then inl ZeroDivisionError else inr (d / b)) (zip dataset_sizes rough) with
      | inl e => inl e
      | inr nums =>
          let most := default 0 (list_max nums) in
          map_res (λ i, match nums !! i with
                        | Some n => inr (if bool_decide (0 < n) then fdiv (of_Z most) (of_Z n) else fone)
                        | None => inl IndexError
                        end) (seq 0 (length dataset_sizes))
      end
  end.

(** ** Configuration *)

Record DataConfig := mkDataConfig {
  d_rollout_n : Z;
  d_alg_rollout_n : Z;
  d_val_rollout_n : Z;
  d_total_epochs : Z;
  d_total_training_steps : Z;
  MAX_TRAIN_ID : Z;
  MAX_VAL_ID : Z;
}.

Definition sys_maxsize : Z := 2 ^ 63 - 1.

(** The ids of [__init__]; [redundant] is the pair of rollout counts of a
    redundant rollout, when it is enabled. *)
Definition id_config (redundant : option (Z * Z)) (n val_n epochs steps : Z) : Res DataConfig :=
  let '(rollout_n, alg) := match redundant with Some p => p | None => (n, n) end in
  if negb (bool_decide (alg ≤ rollout_n)) then inl AssertionError
  else if bool_decide (rollout_n = 0 ∨ val_n = 0) then inl ZeroDivisionError
  else inr (mkDataConfig rollout_n alg val_n epochs steps (sys_maxsize / (2 * rollout_n)) (sys_maxsize / (2 * val_n))).

(** [_validate_data_config]; the arguments are the truth of the settings. *)
Definition validate_data_config (use_multi train_datas train_ratios train_files : bool) : Res unit :=
  if use_multi then
    if negb train_datas then inl ValueError else if negb train_ratios then inl ValueError else inr tt
  else if negb train_files then inl ValueError else inr tt.

(** The end of [_create_dataloader]. *)
Definition total_training_steps (sizes : list Z) (epochs : Z) (configured : option Z) : Res Z :=
  match list_min sizes with
  | None => inl ValueError
  | Some m => inr (match configured with Some c => Z.min (m * epochs) c | None => m * epochs end)
  end.

Section processor.
Context {ops : ColumnOps} {LState : Type}.

Abbreviation BatchDict := (list (string * Col)).

(** What the libraries answer.  [train_epoch i k st]: the batches of the iterator
    that the [k]-th opening of loader [i] gives, [st] being the state loaded into
    the loader before.  [randperm k n]: the [k]-th draw. *)
Record Env := mkEnv {
  train_sizes : list Z;
  train_epoch : nat → nat → option LState → list BatchDict;
  val_sizes : list Z;
  val_dataset_sizes : list Z;
  val_epoch : nat → nat → list BatchDict;
  randperm : nat → nat → list nat;
  state_dict : nat → nat → option (list BatchDict) → LState;
}.

(** [KVBatchMeta] tags as this component writes them. *)
Record DTag := mkDTag { dtag_uid : Z; dtag_running : bool; dtag_parent_id : option Z }.
Record KVPut := mkKVPut { put_keys : list string; put_partition : string; put_tags : list DTag }.

Record TensorDict := mkTD {
  td_cols : BatchDict;
  td_global_steps : list Z;
  td_validate : list bool;
  td_parent_id : option (list Z);
  td_uid : option (list Z);
}.

Inductive BatchResult := AsTensorDict (b : TensorDict) | AsMeta (p : KVPut).

Record DataProcessor := mkDP {
  train_iters : option (list (list BatchDict));
  train_opened : nat;
  train_loaded : list (option LState);
  val_iters : option (list (list BatchDict));
  val_opened : list nat;
  val_dataloader_idx : nat;
  draws : nat;
  global_steps : Z;
  train_sample_idx : Z;
  val_sample_idx : Z;
  retry_buffer : option BatchDict;
  stop_data_process : bool;
  (** the request tracker behind [ps_manager_handle.add_request] *)
  requests : RequestStatusTracker;
  (** the calls of [put_data] on the agent-loop manager and of [kv_batch_put] *)
  dispatched : list (option TensorDict);
  stored : list (KVPut * TensorDict);
  files : list (string * LState);
}.

Definition with_train_iters v opened s := mkDP v opened (train_loaded s) (val_iters s) (val_opened s) (val_dataloader_idx s) (draws s) (global_steps s) (train_sample_idx s) (val_sample_idx s) (retry_buffer s) (stop_data_process s) (requests s) (dispatched s) (stored s) (files s).
Definition with_loaded v s := mkDP (train_iters s) (train_opened s) v (val_iters s) (val_opened s) (val_dataloader_idx s) (draws s) (global_steps s) (train_sample_idx s) (val_sample_idx s) (retry_buffer s) (stop_data_process s) (requests s) (dispatched s) (stored s) (files s).
Definition with_val v opened i s := mkDP (train_iters s) (train_opened s) (train_loaded s) v opened i (draws s) (global_steps s) (train_sample_idx s) (val_sample_idx s) (retry_buffer s) (stop_data_process s) (requests s) (dispatched s) (stored s) (files s).
Definition with_draws v s := mkDP (train_iters s) (train_opened s) (train_loaded s) (val_iters s) (val_opened s) (val_dataloader_idx s) v (global_steps s) (train_sample_idx s) (val_sample_idx s) (retry_buffer s) (stop_data_process s) (requests s) (dispatched s) (stored s) (files s).
Definition with_steps v s := mkDP (train_iters s) (train_opened s) (train_loaded s) (val_iters s) (val_opened s) (val_dataloader_idx s) (draws s) v (train_sample_idx s) (val_sample_idx s) (retry_buffer s) (stop_data_process s) (requests s) (dispatched s) (stored s) (files s).
Definition with_sample_idx tr va s := mkDP (train_iters s) (train_opened s) (train_loaded s) (val_iters s) (val_opened s) (val_dataloader_idx s) (draws s) (global_steps s) tr va (retry_buffer s) (stop_data_process s) (requests s) (dispatched s) (stored s) (files s).
Definition with_retry v s := mkDP (train_iters s) (train_opened s) (train_loaded s) (val_iters s) (val_opened s) (val_dataloader_idx s) (draws s) (global_steps s) (train_sample_idx s) (val_sample_idx s) v (stop_data_process s) (requests s) (dispatched s) (stored s) (files s).
Definition with_stop v s := mkDP (train_iters s) (train_opened s) (train_loaded s) (val_iters s) (val_opened s) (val_dataloader_idx s) (draws s) (global_steps s) (train_sample_idx s) (val_sample_idx s) (retry_buffer s) v (requests s) (dispatched s) (stored s) (files s).
Definition with_requests v s := mkDP (train_iters s) (train_opened s) (train_loaded s) (val_iters s) (val_opened s) (val_dataloader_idx s) (draws s) (global_steps s) (train_sample_idx s) (val_sample_idx s) (retry_buffer s) (stop_data_process s) v (dispatched s) (stored s) (files s).
Definition with_dispatched v s := mkDP (train_iters s) (train_opened s) (train_loaded s) (val_iters s) (val_opened s) (val_dataloader_idx s) (draws s) (global_steps s) (train_sample_idx s) (val_sample_idx s) (retry_buffer s) (stop_data_process s) (requests s) v (stored s) (files s).
Definition with_stored v s := mkDP (train_iters s) (train_opened s) (train_loaded s) (val_iters s) (val_opened s) (val_dataloader_idx s) (draws s) (global_steps s) (train_sample_idx s) (val_sample_idx s) (retry_buffer s) (stop_data_process s) (requests s) (dispatched s) v (files s).
Definition with_files v s := mkDP (train_iters s) (train_opened s) (train_loaded s) (val_iters s) (val_opened s) (val_dataloader_idx s) (draws s) (global_steps s) (train_sample_idx s) (val_sample_idx s) (retry_buffer s) (stop_data_process s) (requests s) (dispatched s) (stored s) v.

Definition new_processor (loaders vals : nat) (reqs : RequestStatusTracker) : DataProcessor :=
  mkDP None 0 (replicate loaders None) None (replicate vals 0%nat) 0 0 0 0 0 None false reqs [] [] [].

Abbreviation Dp := (M DataProcessor).

(** [try: m except StopIteration: h] *)
Definition except_stop {A} (m h : Dp A) : Dp A :=
  λ s, match m s with Raise StopIteration s' => h s' | o => o end.

(** ** Merging the batches of the datasets *)

Definition create_placeholder_like (sample : Col) (batch_size : nat) : Res Col :=
  match kind sample with
  | KTensor | KArray => inr (zeros_like sample batch_size)
  | KObjectArray => inr (nones_like sample batch_size)
  | KOther => inl TypeError
  end.

Definition cat_like (sample : Col) (values : list Col) : Res Col :=
  match kind sample with
  | KTensor => cat_tensors values
  | KArray | KObjectArray => cat_arrays values
  | KOther => inl TypeError
  end.

(** Row count of a batch: the length of its first value. *)
Definition dict_size (e : exn) (b : BatchDict) : Res nat :=
  match b with [] => inl e | (_, c) :: _ => inr (length (rows c)) end.

(** [key_sample] with its insertion order, which is [key_order]. *)
Definition collect_keys (ds : list BatchDict) : BatchDict :=
  foldl (λ acc d, foldl (λ acc kc, if assoc kc.1 acc is Some _ then acc else acc ++ [kc]) acc d) [] ds.

Definition merge_key (segments : list (BatchDict * nat)) (ks : string * Col) : Res (string * Col) :=
  match map_res (λ '(d, n), match assoc ks.1 d with Some c => inr c | None => create_placeholder_like ks.2 n end) segments with
  | inl e => inl e
  | inr values => match cat_like ks.2 values with inl e => inl e | inr c => inr (ks.1, c) end
  end.

Definition merge_segments (shuffled : list BatchDict) : Res BatchDict :=
  match map_res (dict_size StopIteration) shuffled with
  | inl e => inl e
  | inr sizes => map_res (merge_key (zip shuffled sizes)) (collect_keys shuffled)
  end.

Section ops.
Context (env : Env) (cfg : DataConfig).

Definition concat_and_shuffle_batch_dicts (batch_dicts : list BatchDict) : Dp BatchDict :=
  (if bool_decide (batch_dicts = []) then raise ValueError else mret tt) ;;
  (if existsb (λ d, match d with [] => true | _ => false end) batch_dicts then raise ValueError else mret tt) ;;
  s ← gets id;
  let n := length batch_dicts in
  order ← (if bool_decide (1 < n)%nat then modify (with_draws (S (draws s))) ;; mret (randperm env (draws s) n) else mret [0%nat]);
  shuffled ← of_option IndexError (mapM (λ i, batch_dicts !! i) order);
  of_res (merge_segments shuffled).

(** ** Training batches *)

(** [[iter(dl) for dl in self.train_dataloaders]]; a loaded state is used once. *)
Definition open_train : Dp unit :=
  modify (λ s, with_loaded (replicate (length (train_sizes env)) None)
    (with_train_iters (Some ((λ i, train_epoch env i (train_opened s) (mjoin (train_loaded s !! i))) <$> seq 0 (length (train_sizes env))))
      (S (train_opened s)) s)).

(** [[next(it) for it in iters]]: [None] when one of them is exhausted. *)
Definition next_all (its : list (list BatchDict)) : option (list (BatchDict * list BatchDict)) :=
  mapM (λ it, match it with [] => None | b :: it => Some (b, it) end) its.

Definition get_train_next : Dp BatchDict :=
  s ← gets id;
  (if train_iters s is Some _ then mret tt else open_train) ;;
  s ← gets id;
  match next_all (default [] (train_iters s)) with
  | None => open_train ;; raise StopIteration
  | Some nexts =>
      modify (with_train_iters (Some nexts.*2) (train_opened s)) ;;
      concat_and_shuffle_batch_dicts nexts.*1
  end.

(** ** Validation batches *)

Definition open_val : Dp unit :=
  modify (λ s, with_val (Some ((λ i, val_epoch env i (default 0%nat (val_opened s !! i))) <$> seq 0 (length (val_sizes env))))
    (S <$> val_opened s) 0 s).

(** The [while] of [get_val_next]: [None] when the fuel is used up.  With no
    loader the method falls off its end and returns Python's [None]. *)
Fixpoint val_loop (fuel : nat) : Dp (option (option BatchDict)) :=
  match fuel with
  | O => mret None
  | S fuel =>
      s ← gets id;
      let its := default [] (val_iters s) in
      let i := val_dataloader_idx s in
      match its !! i with
      | None => mret (Some None)
      | Some (b :: it) => modify (with_val (Some (<[i := it]> its)) (val_opened s) i) ;; mret (Some (Some b))
      | Some [] =>
          let k := default 0%nat (val_opened s !! i) in
          modify (with_val (Some (<[i := val_epoch env i k]> its)) (<[i := S k]> (val_opened s)) (S i mod length its)) ;;
          val_loop fuel
      end
  end.

Definition get_val_next (fuel : nat) : Dp (option (option BatchDict)) :=
  s ← gets id;
  (if val_iters s is Some _ then mret tt else open_val) ;;
  val_loop fuel.

Definition get_val_data_size : Z := foldr Z.add 0 (val_dataset_sizes env).
Definition get_val_batch_num : Z := foldr Z.add 0 (val_sizes env).

(** ** Sample ids *)

Definition get_val_sample_ids (batch_size : nat) : Dp (list Z) :=
  s ← gets id;
  let start := val_sample_idx s in
  modify (with_sample_idx (train_sample_idx s) (start + Z.of_nat batch_size)) ;;
  mret ((λ i, MAX_TRAIN_ID cfg + (start + Z.of_nat i) mod MAX_VAL_ID cfg) <$> seq 0 batch_size).

Definition get_train_sample_ids (batch_size : nat) : Dp (list Z) :=
  s ← gets id;
  let start := train_sample_idx s in
  modify (with_sample_idx ((start + Z.of_nat batch_size) mod MAX_TRAIN_ID cfg) (val_sample_idx s)) ;;
  mret ((λ i, (start + Z.of_nat i) mod MAX_TRAIN_ID cfg) <$> seq 0 batch_size).

Definition request_ids (n : Z) (sample_ids : list Z) : list Z :=
  sample_ids ≫= λ s, (λ j, s * n + j) <$> zrange 0 n.

(** ** Requests of a batch *)

Definition repeat_each {A} (n : nat) (l : list A) : list A := l ≫= replicate n.

(** The tensor dictionary of a batch, before the children are made. *)
Definition make_td (b : BatchDict) (size : nat) (steps : Z) (validate : bool) (n : Z) (sample_ids : list Z) : TensorDict :=
  mkTD b (replicate size steps) (replicate size validate)
    (if bool_decide (1 < n) then Some sample_ids else None) (if bool_decide (1 < n) then None else Some sample_ids).

(** [repeat_interleave] and the ids of the children. *)
Definition repeat_td (n : nat) (ids : list Z) (b : TensorDict) : TensorDict :=
  mkTD ((λ '(k, c), (k, repeat_rows n c)) <$> td_cols b) (repeat_each n (td_global_steps b)) (repeat_each n (td_validate b))
    (repeat_each n <$> td_parent_id b) (Some ids).

(** [tags[i * rollout_n + j]["parent_id"] = sample_ids[i]] *)
Definition set_parent (tags : list DTag) (i : nat) (p : Z) : Res (list DTag) :=
  match tags !! i with
  | Some t => inr (<[i := mkDTag (dtag_uid t) (dtag_running t) (Some p)]> tags)
  | None => inl IndexError
  end.

Fixpoint set_parents (tags : list DTag) (ips : list (nat * Z)) : Res (list DTag) :=
  match ips with
  | [] => inr tags
  | (i, p) :: ips => match set_parent tags i p with inl e => inl e | inr tags => set_parents tags ips end
  end.

(** The positions and parents of the double loop over [batch_size] and [rollout_n]. *)
Definition parent_slots (n : Z) (sample_ids : list Z) : list (nat * Z) :=
  imap pair (sample_ids ≫= λ p, replicate (Z.to_nat n) p).

Definition controller_batch (is_val group_repeat return_meta : bool) (n : Z) (b : BatchDict) : Dp BatchResult :=
  size ← of_res (dict_size IndexError b);
  sample_ids ← (if is_val then get_val_sample_ids size else get_train_sample_ids size);
  s ← gets id;
  let td := make_td b size (global_steps s) is_val n sample_ids in
  let repeated := group_repeat && bool_decide (1 < n) in
  let ids := if repeated then request_ids n sample_ids else sample_ids in
  let td := if repeated then repeat_td (Z.to_nat n) ids td else td in
  tags ← of_res (let tags := (λ x, mkDTag x repeated None) <$> ids in
                 if bool_decide (1 < n) then set_parents tags (parent_slots n sample_ids) else inr tags);
  if negb return_meta then mret (AsTensorDict td)
  else
    let p := mkKVPut (str_of_Z <$> ids) (if is_val then "val" else "train") tags in
    modify (λ s, with_stored (stored s ++ [(p, td)]) s) ;; mret (AsMeta p).

(** [dataset_type]: training, validation, or anything else. *)
Inductive DatasetType := DTrain | DVal | DOther.

(** The fuel bounds the search for a validation batch; [None]: it is used up.
    Fetching and numbering are two critical sections of [dataloader_lock]: [between]
    is what other threads do between them. *)
Definition get_single_controller_batch (between : DataProcessor → DataProcessor) (fuel : nat) (dataset_type : DatasetType) (group_repeat return_meta : bool)
    : Dp (option BatchResult) :=
  match dataset_type with
  | DTrain => b ← get_train_next; modify between ;; r ← controller_batch false group_repeat return_meta (d_rollout_n cfg) b; mret (Some r)
  | DVal =>
      b ← get_val_next fuel;
      match b with
      | None => mret None
      | Some None => raise AttributeError
      | Some (Some b) => r ← controller_batch true group_repeat return_meta (d_val_rollout_n cfg) b; mret (Some r)
      end
  | DOther => raise ValueError
  end.

(** ** Registration *)

Definition on_requests {A} (m : M RequestStatusTracker A) : Dp A := zoom requests with_requests m.

Definition register (ids : list Z) : Dp unit :=
  on_requests (add_request (Many ids) (One INVALID_ROLLOUT_INSTANCE_ID) (One (-1)) (One RequestStatus.PENDING) (One false)).

(** ** Sampling on demand *)

Definition retry_buffer_size : Dp nat :=
  s ← gets id;
  match retry_buffer s with
  | None => mret 0%nat
  | Some b => of_res (dict_size StopIteration b)
  end.

Definition take_dict (n : nat) (b : BatchDict) : BatchDict := (λ '(k, c), (k, take_rows n c)) <$> b.
Definition drop_dict (n : nat) (b : BatchDict) : BatchDict := (λ '(k, c), (k, drop_rows n c)) <$> b.

(** [_concat_dict_chunks] *)
Definition concat_dict_chunks (chunks : list BatchDict) : Res BatchDict :=
  match chunks with
  | [] => inl IndexError
  | [c] => inr c
  | c :: _ =>
      map_res (λ '(k, _),
        match map_res (λ d, match assoc k d with Some v => inr v | None => inl KeyError end) chunks with
        | inl e => inl e
        | inr [] => inl IndexError
        | inr ((v :: _) as values) => match cat_like v values with inl e => inl e | inr r => inr (k, r) end
        end) c
  end.

(** What one turn of the sampling loop does: leave the loop, go on after an
    exhausted epoch, or take rows from the buffer; with the new [rollover_used]. *)
Inductive Turn := TBreak | TRollover | TTaken (chunk : BatchDict) (n : nat) (rollover_used : bool).

Definition sample_turn (remaining : nat) (rollover_used : bool) : Dp Turn :=
  size ← retry_buffer_size;
  fetched ← (if bool_decide (size = 0%nat)
             then except_stop (b ← get_train_next; modify (with_retry (Some b)) ;; mret (Some false)) (mret None)
             else mret (Some rollover_used));
  match fetched with
  | None => mret (if rollover_used then TBreak else TRollover)
  | Some rollover_used =>
      leftover ← retry_buffer_size;
      s ← gets id;
      let b := default [] (retry_buffer s) in
      let n := Nat.min remaining leftover in
      modify (with_retry (if bool_decide (n < leftover)%nat then Some (drop_dict n b) else None)) ;;
      mret (TTaken (take_dict n b) n rollover_used)
  end.

(** The loop: the chunks and how many prompts are missing; [None] without fuel. *)
Fixpoint sample_loop (fuel : nat) (chunks : list BatchDict) (remaining : nat) (rollover_used : bool)
    : Dp (option (list BatchDict * nat)) :=
  match fuel with
  | O => mret None
  | S fuel =>
      if bool_decide (remaining = 0%nat) then mret (Some (chunks, 0%nat))
      else
        turn ← sample_turn remaining rollover_used;
        match turn with
        | TBreak => mret (Some (chunks, remaining))
        | TRollover => sample_loop fuel chunks remaining true
        | TTaken chunk n rollover_used => sample_loop fuel (chunks ++ [chunk]) (remaining - n) rollover_used
        end
  end.

(** Two turns per prompt and two at the end of the data are enough. *)
Definition sample_fuel (n : nat) : nat := 2 * n + 3.

Definition sample_train_prompts (n_prompts : Z) : Dp (option TensorDict) :=
  assert (bool_decide (0 < n_prompts)) ;;
  let n := d_rollout_n cfg in
  sampled ← sample_loop (sample_fuel (Z.to_nat n_prompts)) [] (Z.to_nat n_prompts) false;
  match sampled with
  | None => raise RuntimeError
  | Some ([], _) => mret None
  | Some (chunks, remaining) =>
      let actual := (Z.to_nat n_prompts - remaining)%nat in
      batch_dict ← of_res (concat_dict_chunks chunks);
      sample_ids ← get_train_sample_ids actual;
      s ← gets id;
      let td := make_td batch_dict actual (global_steps s) false n sample_ids in
      let ids := if bool_decide (1 < n) then request_ids n sample_ids else sample_ids in
      let td := if bool_decide (1 < n) then repeat_td (Z.to_nat n) ids td else td in
      register ids ;;
      mret (Some td)
  end.

(** ** The background thread

    The other methods of the actor run in the main thread beside [_process_data]:
    refills, validation, checkpoints, a stop request.  [beside] is what they do while
    the thread is at a point: at the head of its loop, between the fetch of a batch
    and its numbering, between its numbering and its registration, and between the
    end of an epoch and its handler. *)
Inductive ThreadPoint := LoopTop | AfterFetch | AfterNumbering | AtStop.

Definition put_data (b : option TensorDict) : Dp unit := modify (λ s, with_dispatched (dispatched s ++ [b]) s).

Definition dispatch_batch (td : TensorDict) : Dp unit :=
  ids ← of_option KeyError (td_uid td);
  register ids ;;
  put_data (Some td) ;;
  modify (λ s, with_steps (global_steps s + 1) s) ;;
  s ← gets id;
  if bool_decide (d_total_training_steps cfg ≤ global_steps s) then modify (with_stop true) else mret tt.

(** The handler of [StopIteration].  An exception it raises ends the thread. *)
Definition handle_stop : Dp unit :=
  s ← gets id;
  m ← of_option ValueError (list_min (train_sizes env));
  (if bool_decide (m = 0) then raise ZeroDivisionError else mret tt) ;;
  if bool_decide (d_total_epochs cfg ≤ global_steps s / m) then modify (with_stop true) else open_train.

(** The body of the [try] statement. *)
Definition process_batch (beside : ThreadPoint → DataProcessor → DataProcessor) : Dp unit :=
  r ← get_single_controller_batch (beside AfterFetch) 0 DTrain true false;
  match r with
  | Some (AsTensorDict td) => modify (beside AfterNumbering) ;; dispatch_batch td
  | _ => raise AttributeError
  end.

(** One turn of the loop; other exceptions are logged. *)
Definition process_turn (beside : ThreadPoint → DataProcessor → DataProcessor) : Dp unit := λ s,
  match process_batch beside s with
  | Raise StopIteration s' => handle_stop (beside AtStop s')
  | Raise _ s' => Ret tt s'
  | o => o
  end.

Fixpoint process_loop (beside : nat → ThreadPoint → DataProcessor → DataProcessor) (fuel : nat) : Dp bool :=
  match fuel with
  | O => mret false
  | S fuel =>
      modify (beside fuel LoopTop) ;;
      s ← gets id;
      if stop_data_process s then mret true else process_turn (beside fuel) ;; process_loop beside fuel
  end.

(** [_process_data]: [false] when the fuel is used up. *)
Definition process_data (beside : nat → ThreadPoint → DataProcessor → DataProcessor) (fuel : nat) : Dp bool :=
  open_train ;;
  finished ← process_loop beside fuel;
  (if finished : bool then put_data None else mret tt) ;; mret finished.

(** ** Saving and loading the dataloaders *)

(** A single path stands for one copy per loader. *)
Definition loader_paths (paths : string + list string) : list string :=
  match paths with inl p => replicate (length (train_sizes env)) p | inr ps => ps end.

Definition save_train_dataloader (paths : string + list string) : Dp unit :=
  assert (bool_decide (length (loader_paths paths) = length (train_sizes env))) ;;
  for_each (zip (seq 0 (length (train_sizes env))) (loader_paths paths)) (λ '(i, p),
    modify (λ s, with_files (dict_set p (state_dict env i (train_opened s) (train_iters s ≫= λ its, its !! i)) (files s)) s)).

(** A missing file is reported as [KeyError]. *)
Definition load_train_dataloader (paths : string + list string) : Dp unit :=
  assert (bool_decide (length (loader_paths paths) = length (train_sizes env))) ;;
  steps_per_epoch ← of_option ValueError (list_min (train_sizes env));
  s ← gets id;
  if bool_decide (0 < steps_per_epoch) && bool_decide (global_steps s mod steps_per_epoch = 0) then mret tt
  else
    for_each (zip (seq 0 (length (train_sizes env))) (loader_paths paths)) (λ '(i, p),
      s ← gets id;
      st ← of_option KeyError (assoc p (files s));
      modify (λ s, with_loaded (<[i := Some st]> (train_loaded s)) s)).
End ops.
End processor.
