(* ===== verification/DataMerge.v ===== *)
(** * Data processor: merging and sampling

    The merge of one batch per dataset keeps every row of every dataset, in one
    aligned segment per dataset, and fills the columns a dataset lacks; a batch
    fetched from well-formed loaders is well formed.  On top of that, sampling on
    demand is shown to cut the stream of prompts without loss: what it returns
    and what it leaves in its buffer are exactly what was buffered and fetched.
    The loop always ends, and it returns fewer prompts than asked only when the
    loaders are exhausted twice in a row. *)

From S2P Require Import Prelude.
From S2P Require Import StalenessBuffer.
From S2P Require Import RequestStatusTracker.
From S2P Require Import PyFloat.
From S2P Require Import PyData.
From S2P Require Import DataProcessor.

#[local] Open Scope nat_scope.

Section merge.
Context {ops : ColumnOps} {laws : ColumnLaws}.
Abbreviation BatchDict := (list (string * Col)).

(** The number of rows of a batch and the rows of one of its columns. *)
Definition dsize (b : BatchDict) : nat := match b with [] => 0 | (_, c) :: _ => length (rows c) end.
Definition col (k : string) (b : BatchDict) : list Cell := match assoc k b with Some c => rows c | None => [] end.

(** A batch with the columns that [shape] describes, all of the same positive length. *)
Record shaped (shape : string → option Col) (b : BatchDict) : Prop := {
  sh_keys : NoDup b.*1;
  sh_like k : option_Forall2 like (assoc k b) (shape k);
  sh_rows k c : assoc k b = Some c → length (rows c) = dsize b;
  sh_pos : 0 < dsize b;
}.

(** Shapes of several datasets that agree on their common columns. *)
Definition agree (shapes : list (string → option Col)) : Prop :=
  ∀ f g k c c', f ∈ shapes → g ∈ shapes → f k = Some c → g k = Some c' → like c c' ∧ kind c ≠ KOther.

(** The columns of the merged batch. *)
Definition joint (shapes : list (string → option Col)) (k : string) : option Col := head (omap (λ f, f k) shapes).

(** What a dataset contributes to a column of the merge. *)
Definition segment (k : string) (sample : Col) (d : BatchDict) : list Cell :=
  match assoc k d with
  | Some c => rows c
  | None => match create_placeholder_like sample (dsize d) with inr c => rows c | inl _ => [] end
  end.

Lemma map_res_ok {A B} (f : A → Res B) (g : A → B) l : (∀ x, x ∈ l → f x = inr (g x)) → map_res f l = inr (g <$> l).
Proof.
  induction l as [|x l IH]; intros Hf; [done|]. cbn [map_res]. rewrite Hf by (apply elem_of_cons; by left).
  rewrite IH; [done|]. intros y Hy. apply Hf, elem_of_cons. by right.
Qed.

Lemma dict_size_ok e shape b : shaped shape b → dict_size e b = inr (dsize b).
Proof. intros [_ _ _ Hp]. destruct b as [|[k c] b]; simpl in *; [lia|done]. Qed.

Lemma placeholder_ok c n : kind c ≠ KOther → ∃ p, create_placeholder_like c n = inr p ∧ like c p ∧ length (rows p) = n.
Proof.
  intros Hk. unfold create_placeholder_like. destruct (kind c) eqn:E; [..|done];
    eexists; (split; [done|]); (split; [|apply length_zeros || apply length_nones]).
  - apply like_zeros. auto.
  - apply like_zeros. auto.
  - by apply like_nones.
Qed.

Lemma cat_like_ok s c cs : kind s ≠ KOther → like s c → Forall (like c) cs →
  ∃ r, cat_like s (c :: cs) = inr r ∧ rows r = concat (rows <$> c :: cs) ∧ like c r.
Proof.
  intros Hk Hs Hcs. pose proof (like_kind _ _ Hs) as E. unfold cat_like.
  destruct (kind s) eqn:Ek; [apply cat_tensors_ok|apply cat_arrays_ok|apply cat_arrays_ok|]; auto. done.
Qed.

(** *** The keys of the merge *)

Definition add_key (acc : BatchDict) (kc : string * Col) : BatchDict :=
  if assoc kc.1 acc is Some _ then acc else acc ++ [kc].

Lemma assoc_app k (d d' : BatchDict) : assoc k (d ++ d') = match assoc k d with Some c => Some c | None => assoc k d' end.
Proof. induction d as [|[k0 c0] d IH]; simpl; [done|]. by case_decide. Qed.

Lemma assoc_None k (d : BatchDict) : assoc k d = None ↔ k ∉ d.*1.
Proof.
  induction d as [|[k0 c0] d IH]; simpl; [split; [intros _; apply not_elem_of_nil|done]|].
  rewrite not_elem_of_cons. case_decide; subst; naive_solver.
Qed.

Lemma add_key_NoDup acc kc : NoDup acc.*1 → NoDup (add_key acc kc).*1.
Proof.
  intros Ha. unfold add_key. destruct (assoc kc.1 acc) eqn:E; [done|]. rewrite fmap_app. apply NoDup_app.
  split_and!; [done| |apply NoDup_singleton]. intros k Hk ->%list_elem_of_singleton. by apply assoc_None in E.
Qed.

Lemma assoc_add_key k acc kc :
  assoc k (add_key acc kc) = match assoc k acc with Some c => Some c | None => if decide (kc.1 = k) then Some kc.2 else None end.
Proof.
  destruct kc as [k0 c0]. unfold add_key. simpl. destruct (assoc k0 acc) as [c|] eqn:E.
  - destruct (assoc k acc) eqn:E'; [done|]. rewrite decide_False; [done|]. intros ->. congruence.
  - rewrite assoc_app. by destruct (assoc k acc).
Qed.

Lemma collect_dict d acc k : NoDup acc.*1 →
  NoDup (foldl add_key acc d).*1 ∧ assoc k (foldl add_key acc d) = match assoc k acc with Some c => Some c | None => assoc k d end.
Proof.
  revert acc. induction d as [|[k0 c0] d IH]; intros acc Ha; simpl; [split; [done|by destruct (assoc k acc)]|].
  destruct (IH (add_key acc (k0, c0))) as [Hn ->]; [by apply add_key_NoDup|]. split; [done|].
  rewrite assoc_add_key. simpl. destruct (assoc k acc); [done|]. by case_decide.
Qed.

Lemma collect_keys_ok ds : NoDup (collect_keys ds).*1 ∧ ∀ k, assoc k (collect_keys ds) = head (omap (assoc k) ds).
Proof.
  unfold collect_keys. change (λ (acc : BatchDict) d, foldl _ acc d) with (λ (acc : BatchDict) d, foldl add_key acc d).
  assert (∀ acc, NoDup acc.*1 → NoDup (foldl (λ (acc : BatchDict) d, foldl add_key acc d) acc ds).*1 ∧
    ∀ k, assoc k (foldl (λ (acc : BatchDict) d, foldl add_key acc d) acc ds) = match assoc k acc with Some c => Some c | None => head (omap (assoc k) ds) end) as H.
  { induction ds as [|d ds IH]; intros acc Ha; simpl; [split; [done|intros k; by destruct (assoc k acc)]|].
    destruct (IH (foldl add_key acc d)) as [Hn Hk]; [by apply (collect_dict _ _ ""%string)|]. split; [done|]. intros k. rewrite Hk.
    destruct (collect_dict d acc k Ha) as [_ ->]. destruct (assoc k acc); [done|]. by destruct (assoc k d). }
  destruct (H [] (NoDup_nil_2)) as [Hn Hk]. split; [done|]. intros k. by rewrite Hk.
Qed.

(** *** One column of the merge *)

Lemma shaped_kind shapes ds k c : agree shapes → Forall2 shaped shapes ds → c ∈ omap (assoc k) ds →
  kind c ≠ KOther ∧ ∀ f c', f ∈ shapes → f k = Some c' → like c c'.
Proof.
  intros Hag Hall Hc. apply list_elem_of_omap in Hc as (d & Hd & Ha). apply list_elem_of_lookup in Hd as [i Hi].
  destruct (Forall2_lookup_r _ _ _ _ _ Hall Hi) as (f & Hf & Hsh). pose proof (sh_like _ _ Hsh k) as Hl. rewrite Ha in Hl.
  inversion Hl as [? c0 Hcc E1 E2|]; subst. symmetry in E2. apply list_elem_of_lookup_2 in Hf.
  destruct (Hag f f k c0 c0 Hf Hf E2 E2) as [_ Hk]. split; [by rewrite (like_kind _ _ Hcc)|].
  intros g c' Hg E. etrans; [exact Hcc|]. by apply (Hag f g k c0 c').
Qed.

Lemma segment_ok shapes k s ds f d : agree shapes → Forall2 shaped shapes ds → s ∈ omap (assoc k) ds →
  f ∈ shapes → shaped f d →
  ∃ v, (match assoc k d with Some c => inr c | None => create_placeholder_like s (dsize d) end) = inr v ∧
       like s v ∧ rows v = segment k s d ∧ length (segment k s d) = dsize d.
Proof.
  intros Hag Hall Hs Hf Hd. destruct (shaped_kind _ _ _ _ Hag Hall Hs) as [Hk Hlike]. unfold segment.
  destruct (assoc k d) as [c|] eqn:E.
  - exists c. pose proof (sh_like _ _ Hd k) as Hl. rewrite E in Hl. inversion Hl as [? c0 Hcc E1 E2|]; subst.
    split_and!; [done| |done|by apply (sh_rows _ _ Hd k)]. etrans; [by apply (Hlike f c0)|by symmetry].
  - destruct (placeholder_ok s (dsize d) Hk) as (p & -> & Hl & Hlen). by exists p.
Qed.

Lemma shaped_in shapes ds : Forall2 shaped shapes ds → Forall (λ d, ∃ f, f ∈ shapes ∧ shaped f d) ds.
Proof.
  intros Hall. apply Forall_lookup. intros i d Hi. destruct (Forall2_lookup_r _ _ _ _ _ Hall Hi) as (f & Hf & Hd).
  exists f. split; [by eapply list_elem_of_lookup_2|done].
Qed.

(** The values of a column, one per dataset, are alike and have the segments' rows. *)
Lemma column_values shapes k s ds : agree shapes → Forall2 shaped shapes ds → s ∈ omap (assoc k) ds →
  ∃ vs, map_res (λ '(d, n), match assoc k d with Some c => inr c | None => create_placeholder_like s n end)
      (zip ds (dsize <$> ds)) = inr vs ∧ Forall (like s) vs ∧ concat (rows <$> vs) = ds ≫= segment k s ∧
      length (ds ≫= segment k s) = sum_list (dsize <$> ds) ∧ length vs = length ds.
Proof.
  intros Hag Hall Hs. pose proof (shaped_in _ _ Hall) as Hin.
  assert (∀ d, (∃ f, f ∈ shapes ∧ shaped f d) → ∃ v, (match assoc k d with Some c => inr c | None => create_placeholder_like s (dsize d) end) = inr v ∧
       like s v ∧ rows v = segment k s d ∧ length (segment k s d) = dsize d) as Hd by (intros d (f & Hf & Hd); by eapply segment_ok).
  clear Hs Hall. induction Hin as [|d ds' Hf _ IH]; [by exists []|].
  destruct (Hd d Hf) as (v & Ev & Hlv & Hrv & Hlen). destruct IH as (vs & Evs & Hls & Hrs & Hl & Hn).
  exists (v :: vs). rewrite !fmap_cons, !bind_cons. cbn [zip zip_with map_res]. rewrite Ev, Evs.
  split_and!; [done|by constructor|by cbn; rewrite Hrv, Hrs|by rewrite length_app, Hl, Hlen|by cbn; rewrite Hn].
Qed.

Lemma merge_key_ok shapes k s ds : agree shapes → Forall2 shaped shapes ds → s ∈ omap (assoc k) ds →
  ∃ r, merge_key (zip ds (dsize <$> ds)) (k, s) = inr (k, r) ∧ like s r ∧
       rows r = ds ≫= segment k s ∧ length (rows r) = sum_list (dsize <$> ds).
Proof.
  intros Hag Hall Hs. destruct (column_values shapes k s ds) as (vs & E & Hl & Hcat & Hlen & Hn); auto.
  unfold merge_key. cbn [fst snd]. rewrite E. destruct (shaped_kind _ _ _ _ Hag Hall Hs) as [Hk _].
  destruct vs as [|v vs]; [symmetry in Hn; apply nil_length_inv in Hn; subst; by apply not_elem_of_nil in Hs|].
  apply Forall_cons in Hl as [Hv Hvs]. destruct (cat_like_ok s v vs) as (r & -> & Hrows & Hlr); [done..| |].
  { eapply Forall_impl; [done|]. intros w Hw. etrans; [by symmetry|done]. }
  exists r. split_and!; [done|by etrans|by rewrite Hrows, Hcat|by rewrite Hrows, Hcat].
Qed.

(** *** The merge of one batch per dataset *)

Lemma head_omap_elem {A B} (f : A → option B) l x : head (omap f l) = Some x → x ∈ omap f l.
Proof. destruct (omap f l); simpl; intros [= ->]. apply elem_of_cons. by left. Qed.

(** A comprehension over the items of a dictionary that keeps the keys. *)
Lemma map_res_dict (f : string * Col → Res (string * Col)) (P : string → Col → Col → Prop) (d : BatchDict) :
  (∀ k s, (k, s) ∈ d → ∃ r, f (k, s) = inr (k, r) ∧ P k s r) →
  ∃ r, map_res f d = inr r ∧ r.*1 = d.*1 ∧
    ∀ k, match assoc k d, assoc k r with Some s, Some c => P k s c | None, None => True | _, _ => False end.
Proof.
  induction d as [|[k0 s0] d IH]; intros Hf; [by exists []|].
  destruct (Hf k0 s0) as (r0 & E & HP); [apply elem_of_cons; by left|].
  destruct IH as (r & Er & Hk & Hr); [intros k s Hin; apply Hf, elem_of_cons; by right|].
  exists ((k0, r0) :: r). cbn [map_res]. rewrite E, Er, !fmap_cons, Hk. split_and!; [done..|].
  intros k. cbn [assoc]. by case_decide; subst; [|apply Hr].
Qed.

Lemma shaped_sizes e shapes ds : Forall2 shaped shapes ds → map_res (dict_size e) ds = inr (dsize <$> ds).
Proof.
  intros Hall. apply map_res_ok. intros d Hd. destruct (proj1 (Forall_forall _ _) (shaped_in _ _ Hall) d Hd) as (f & _ & Hf).
  by eapply dict_size_ok.
Qed.

(** The merge of one batch per dataset succeeds, and each of its columns is the
    concatenation of one segment per dataset, all columns equally long. *)
Theorem merge_segments_exact shapes ds : agree shapes → Forall2 shaped shapes ds →
  ∃ r, merge_segments ds = inr r ∧ NoDup r.*1 ∧
    ∀ k, match head (omap (assoc k) ds), assoc k r with
         | Some s, Some c => like s c ∧ rows c = ds ≫= segment k s ∧ length (rows c) = sum_list (dsize <$> ds)
         | None, None => True
         | _, _ => False
         end.
Proof.
  intros Hag Hall. unfold merge_segments. destruct (collect_keys_ok ds) as [Hnd Hk]. rewrite (shaped_sizes _ shapes) by done.
  destruct (map_res_dict (merge_key (zip ds (dsize <$> ds)))
    (λ k s c, like s c ∧ rows c = ds ≫= segment k s ∧ length (rows c) = sum_list (dsize <$> ds)) (collect_keys ds)) as (r & -> & Hr & HP).
  { intros k s Hin. apply (merge_key_ok shapes); auto. apply head_omap_elem. rewrite <-Hk. by apply assoc_elem. }
  exists r. rewrite Hr. split_and!; [done..|]. intros k. rewrite <-Hk. apply HP.
Qed.

(** The merged batch has the joint shape of the datasets, in whatever order they come. *)
Lemma joint_like shapes ds k : agree shapes → Forall2 shaped shapes ds →
  option_Forall2 like (head (omap (assoc k) ds)) (joint shapes k).
Proof.
  intros Hag Hall. unfold joint. induction Hall as [|f d shapes ds Hd Hall IH]; [constructor|]. cbn.
  destruct (sh_like _ _ Hd k) as [c c' Hcc|]; [by constructor|].
  apply IH. intros g h k' x y Hg Hh. apply Hag; apply elem_of_cons; by right.
Qed.

Lemma joint_perm shapes shapes' k : agree shapes → shapes ≡ₚ shapes' → option_Forall2 like (joint shapes k) (joint shapes' k).
Proof.
  intros Hag Hp. unfold joint.
  destruct (omap (λ f, f k) shapes) as [|c l] eqn:E, (omap (λ f, f k) shapes') as [|c' l'] eqn:E'; cbn; [constructor|..].
  - assert (c' ∈ omap (λ f : string → option Col, f k) shapes) as H; [|rewrite E in H; by apply not_elem_of_nil in H].
    rewrite Hp, E'. apply elem_of_cons. by left.
  - assert (c ∈ omap (λ f : string → option Col, f k) shapes') as H; [|rewrite E' in H; by apply not_elem_of_nil in H].
    rewrite <-Hp, E. apply elem_of_cons. by left.
  - constructor. assert (c ∈ omap (λ f : string → option Col, f k) shapes) as (f & Hf & Ef)%list_elem_of_omap by (rewrite E; apply elem_of_cons; by left).
    assert (c' ∈ omap (λ f : string → option Col, f k) shapes) as (g & Hg & Eg)%list_elem_of_omap by (rewrite Hp, E'; apply elem_of_cons; by left).
    by apply (Hag f g k).
Qed.

Lemma option_Forall2_trans_like (a b c : option Col) : option_Forall2 like a b → option_Forall2 like b c → option_Forall2 like a c.
Proof. intros [x y Hxy|] Hbc; inversion Hbc; subst; constructor. by etrans. Qed.

Lemma option_Forall2_sym_like (a b : option Col) : option_Forall2 like a b → option_Forall2 like b a.
Proof. intros [x y Hxy|]; constructor. by symmetry. Qed.

Lemma shaped_like f g b : (∀ k, option_Forall2 like (f k) (g k)) → shaped f b → shaped g b.
Proof. intros Hfg [H1 H2 H3 H4]. split; auto. intros k. eapply option_Forall2_trans_like; [apply H2|apply Hfg]. Qed.

Lemma merge_shaped shapes ds : agree shapes → ds ≠ [] → Forall2 shaped shapes ds →
  ∃ r, merge_segments ds = inr r ∧ shaped (joint shapes) r ∧ dsize r = sum_list (dsize <$> ds).
Proof.
  intros Hag Hne Hall. destruct (merge_segments_exact shapes ds Hag Hall) as (r & E & Hnd & Hk). exists r. split; [done|].
  assert (∀ k c, assoc k r = Some c → length (rows c) = sum_list (dsize <$> ds)) as Hlen.
  { intros k c Hc. specialize (Hk k). rewrite Hc in Hk. destruct (head (omap (assoc k) ds)); [by destruct Hk as (_ & _ & ?)|done]. }
  assert (dsize r = sum_list (dsize <$> ds) ∧ 0 < sum_list (dsize <$> ds)) as [Hs Hpos].
  { destruct Hall as [|f d fs ds' Hd Hall]; [done|]. pose proof (sh_pos _ _ Hd) as Hp. split; [|cbn; lia].
    destruct d as [|[k0 c0] d]; [simpl in Hp; lia|]. specialize (Hk k0). cbn [omap list_omap assoc] in Hk. rewrite decide_True in Hk by done.
    cbn [head] in Hk. destruct r as [|[k1 c1] r]; [done|]. cbn [dsize]. apply (Hlen k1). cbn. by rewrite decide_True. }
  split; [|done]. split; [done| | |lia].
  - intros k. eapply option_Forall2_trans_like; [|by apply (joint_like shapes ds)]. specialize (Hk k).
    destruct (head (omap (assoc k) ds)), (assoc k r); try done; constructor. symmetry. apply Hk.
  - intros k c Hc. rewrite Hs. by eapply Hlen.
Qed.
End merge.

(** ** Fetching *)

Section fetch.
Context {ops : ColumnOps} {laws : ColumnLaws} {LState : Type} (env : Env (LState := LState)).
Abbreviation BatchDict := (list (string * Col)).
Abbreviation DataProcessor := (DataProcessor (LState := LState)).
Implicit Types (s : DataProcessor) (b : BatchDict).

(** What the code relies on: there is a dataset, the batches of each have a
    common shape, the datasets agree on shared columns, and [randperm] draws
    permutations. *)
Class EnvLaws (shapes : list (string → option Col)) : Prop := {
  el_some : shapes ≠ [];
  el_length : length shapes = length (train_sizes env);
  el_agree : agree shapes;
  el_batch i f k st b : shapes !! i = Some f → b ∈ train_epoch env i k st → shaped f b;
  el_randperm k n : randperm env k n ≡ₚ seq 0 n;
}.

Context (shapes : list (string → option Col)) `{!EnvLaws shapes}.

Definition iters_ok s : Prop :=
  ∀ its, train_iters s = Some its → Forall2 (λ f it, Forall (shaped f) it) shapes its.

(** *** Merging in a random order *)

Lemma mapM_lookup_perm {A} (l : list A) (order : list nat) : order ≡ₚ seq 0 (length l) →
  ∃ l', mapM (λ i, l !! i) order = Some l' ∧ Forall2 (λ i x, l !! i = Some x) order l' ∧ l' ≡ₚ l.
Proof.
  intros Hp. assert (∃ l', mapM (λ i, l !! i) order = Some l') as [l' E].
  { apply mapM_is_Some_2, Forall_forall. intros i Hi. apply lookup_lt_is_Some. rewrite Hp in Hi. apply elem_of_seq in Hi. lia. }
  exists l'. split; [done|]. apply mapM_Some in E. split; [done|].
  assert (l' = omap (λ i, l !! i) order) as ->.
  { clear Hp. induction E as [|i x order l' Hi _ IH]; [done|]. cbn. by rewrite Hi, IH. }
  rewrite Hp. clear. induction l as [|x l IH] using rev_ind; [done|]. rewrite length_app, seq_app, omap_app. cbn.
  rewrite lookup_app_r, Nat.sub_diag by lia. cbn. apply Permutation_app_tail. rewrite <-IH at 2.
  apply reflexive_eq, list_omap_ext, Forall_Forall2_diag, Forall_forall. intros i Hi%elem_of_seq.
  by rewrite lookup_app_l by lia.
Qed.

Lemma agree_perm shapes' : shapes' ≡ₚ shapes → agree shapes'.
Proof. intros Hp f g k c c' Hf Hg. apply el_agree; by rewrite <-Hp. Qed.

Lemma shuffled_shaped ds ds' : Forall2 shaped shapes ds → ds' ≡ₚ ds →
  ∃ shapes', shapes' ≡ₚ shapes ∧ Forall2 shaped shapes' ds'.
Proof.
  intros Hall Hp. apply Forall2_flip in Hall. symmetry in Hp.
  destruct (Permutation_Forall2 Hp Hall) as (shapes' & Hs & H'). exists shapes'. split; [by symmetry|by apply Forall2_flip].
Qed.

Lemma no_empty_dict ds : Forall2 shaped shapes ds → existsb (λ d : BatchDict, match d with [] => true | _ => false end) ds = false.
Proof.
  intros Hall. apply not_true_iff_false. rewrite existsb_exists. intros (d & Hd & E).
  apply list_elem_of_In in Hd. destruct (proj1 (Forall_forall _ _) (shaped_in _ _ Hall) d Hd) as (f & _ & Hf).
  pose proof (sh_pos _ _ Hf). by destruct d; [simpl in *; lia|].
Qed.

(** The merge of well-formed batches succeeds, changes nothing but the random
    generator, and is the merge of the batches in some order. *)
Lemma concat_shuffle_ok ds s : Forall2 shaped shapes ds →
  ∃ ds' r n, ds' ≡ₚ ds ∧ merge_segments ds' = inr r ∧ concat_and_shuffle_batch_dicts env ds s = Ret r (with_draws n s) ∧
    shaped (joint shapes) r ∧ dsize r = sum_list (dsize <$> ds).
Proof.
  intros Hall. assert (ds ≠ []) as Hne by (intros ->; inversion Hall; subst; by apply el_some).
  assert (∃ order n, order ≡ₚ seq 0 (length ds) ∧
    (if bool_decide (1 < length ds) then modify (with_draws (S (draws s))) ;; mret (randperm env (draws s) (length ds)) else mret [0]) s = Ret order (with_draws n s)) as (order & n & Hp & E).
  { case_bool_decide; [by eexists _, _; split; [apply el_randperm|]|]. exists [0], (draws s). split; [|by destruct s].
    destruct ds as [|? [|]]; simpl in *; [done..|lia]. }
  destruct (mapM_lookup_perm ds order Hp) as (ds' & Em & _ & Hds).
  destruct (shuffled_shaped ds ds' Hall Hds) as (shapes' & Hsh & Hall').
  destruct (merge_shaped shapes' ds') as (r & Er & Hr & Hn); [by apply agree_perm|by intros ->; apply Permutation_nil in Hds|done|].
  exists ds', r, n. split_and!; [done..| | |by rewrite Hn, Hds].
  - unfold concat_and_shuffle_batch_dicts. rewrite (bool_decide_eq_false_2 (ds = [])) by done. rewrite no_empty_dict by done. mrun.
    rewrite (run_bind _ _ _ _ _ E). rewrite (run_of_option _ _ ds') by done. by rewrite Er.
  - eapply shaped_like; [|done]. intros k. apply joint_perm; [by apply agree_perm|done].
Qed.

(** *** The next batch *)

(** Fetching touches the iterators, the loaded states and the random generator only. *)
Definition fetched_from s s' : Prop :=
  ∃ its o ld dr, s' = with_draws dr (with_loaded ld (with_train_iters its o s)).

#[export] Instance fetched_from_preorder : PreOrder fetched_from.
Proof.
  split; [intros s; exists (train_iters s), (train_opened s), (train_loaded s), (draws s); by destruct s|].
  intros s1 s2 s3 (its & o & ld & dr & ->) (its' & o' & ld' & dr' & ->). by exists its', o', ld', dr'.
Qed.

(** The iterators that opening the loaders gives. *)
Definition fresh_iters s : list (list BatchDict) :=
  (λ i, train_epoch env i (train_opened s) (mjoin (train_loaded s !! i))) <$> seq 0 (length (train_sizes env)).

Definition reopened s : DataProcessor :=
  with_loaded (replicate (length (train_sizes env)) None) (with_train_iters (Some (fresh_iters s)) (S (train_opened s)) s).

Lemma open_train_run s : open_train env s = Ret tt (reopened s).
Proof. done. Qed.

Lemma reopened_from s : fetched_from s (reopened s).
Proof. by exists (Some (fresh_iters s)), (S (train_opened s)), (replicate (length (train_sizes env)) None), (draws s). Qed.

Lemma reopened_ok s : iters_ok (reopened s).
Proof.
  intros its [= <-]. apply Forall2_same_length_lookup. unfold fresh_iters. rewrite length_fmap, length_seq. split; [apply el_length|].
  intros i f it Hf. rewrite list_lookup_fmap. intros (j & Hj & ->)%fmap_Some.
  apply lookup_seq in Hj as [-> _]. apply Forall_forall. intros b. by apply el_batch.
Qed.

(** The state in which [next] is called on the iterators, and those iterators. *)
Definition started s : DataProcessor := match train_iters s with Some _ => s | None => reopened s end.
Definition live s : list (list BatchDict) := default (fresh_iters s) (train_iters s).

Lemma started_iters s : train_iters (started s) = Some (live s).
Proof. unfold started, live. by destruct (train_iters s) eqn:E. Qed.

Lemma started_from s : fetched_from s (started s).
Proof. unfold started. destruct (train_iters s); [done|apply reopened_from]. Qed.

Lemma started_ok s : iters_ok s → iters_ok (started s).
Proof. intros Hs. unfold started. destruct (train_iters s); [done|apply reopened_ok]. Qed.

Lemma next_all_some its : Forall (.≠ []) its → ∃ nexts, next_all its = Some nexts ∧ its = (λ '(b, it), b :: it) <$> nexts.
Proof.
  induction 1 as [|it its Hit _ (nexts & E & ->)]; [by exists []|]. destruct it as [|b it]; [done|].
  exists ((b, it) :: nexts). unfold next_all in *. cbn [mapM]. by rewrite E.
Qed.

Lemma next_all_none its : ¬ Forall (.≠ []) its → next_all its = None.
Proof.
  intros Hn. destruct (next_all its) as [nexts|] eqn:E; [|done]. destruct Hn. apply mapM_Some in E. clear -E.
  induction E as [|it [b it'] its nexts Hn _ IH]; constructor; [|done]. by destruct it.
Qed.

Lemma get_train_next_start s : get_train_next env s =
  match next_all (live s) with
  | None => (open_train env ;; raise StopIteration) (started s)
  | Some nexts => (modify (with_train_iters (Some nexts.*2) (train_opened (started s))) ;; concat_and_shuffle_batch_dicts env nexts.*1) (started s)
  end.
Proof.
  pose proof (started_iters s) as Ei. unfold get_train_next. mrun.
  destruct (train_iters s) as [its|] eqn:E.
  - mrun. unfold live, started. rewrite E. cbn [from_option default id]. by destruct (next_all its).
  - rewrite (run_bind _ _ _ _ _ (open_train_run s)). mrun. unfold live, started. rewrite E. change (default [] (train_iters (reopened s))) with (fresh_iters s).
    change (default (fresh_iters s) None) with (fresh_iters s). by destruct (next_all (fresh_iters s)).
Qed.

(** When every iterator has a batch they all advance and the batches are merged;
    otherwise all are opened again and [StopIteration] is raised. *)
Lemma get_train_next_batch s nexts : iters_ok s → live s = (λ '(b, it), b :: it) <$> nexts →
  ∃ r dr ds', get_train_next env s = Ret r (with_draws dr (with_train_iters (Some nexts.*2) (train_opened (started s)) (started s))) ∧
    ds' ≡ₚ nexts.*1 ∧ merge_segments ds' = inr r ∧ shaped (joint shapes) r ∧ Forall2 (λ f it, Forall (shaped f) it) shapes nexts.*2.
Proof.
  intros Hok El. rewrite get_train_next_start, El.
  assert (next_all ((λ '(b, it), b :: it) <$> nexts) = Some nexts) as ->.
  { clear. unfold next_all. induction nexts as [|[b it] nexts IH]; [done|]. cbn [fmap list_fmap mapM]. change (list_fmap _ _ ?f nexts) with (f <$> nexts). by rewrite IH. }
  pose proof (started_ok s Hok _ (started_iters s)) as Hl. rewrite El in Hl.
  assert (Forall2 shaped shapes nexts.*1 ∧ Forall2 (λ f it, Forall (shaped f) it) shapes nexts.*2) as [H1 H2].
  { clear -Hl. revert Hl. generalize shapes. induction nexts as [|[b it] nexts IH]; intros fs Hl; [by inversion Hl; subst|].
    rewrite fmap_cons in Hl. inversion Hl as [|f ? fs' ? Hf Hfs]; subst. apply Forall_cons in Hf as [Hb Hit].
    destruct (IH _ Hfs). rewrite !fmap_cons. split; by constructor. }
  destruct (concat_shuffle_ok nexts.*1 (with_train_iters (Some nexts.*2) (train_opened (started s)) (started s)) H1) as (ds' & r & dr & Hp & Em & E & Hr & _).
  exists r, dr, ds'. split_and!; [by mrun|done..].
Qed.

Lemma get_train_next_stop s : ¬ Forall (.≠ []) (live s) → get_train_next env s = Raise StopIteration (reopened (started s)).
Proof. intros Hn. by rewrite get_train_next_start, next_all_none. Qed.

Lemma get_train_next_ok s : iters_ok s →
  (∃ b s', get_train_next env s = Ret b s' ∧ shaped (joint shapes) b ∧ iters_ok s' ∧ fetched_from s s') ∨
  (∃ s', get_train_next env s = Raise StopIteration s' ∧ iters_ok s' ∧ fetched_from s s').
Proof.
  intros Hs. destruct (decide (Forall (.≠ []) (live s))) as [Hl|Hl].
  - left. destruct (next_all_some _ Hl) as (nexts & _ & El).
    destruct (get_train_next_batch s nexts Hs El) as (r & dr & _ & E & _ & _ & Hr & Hits).
    eexists _, _. split_and!; [done..|by intros its [= <-]|]. etrans; [apply started_from|].
    by exists (Some nexts.*2), (train_opened (started s)), (train_loaded (started s)), dr.
  - right. eexists. split_and!; [by apply get_train_next_stop|apply reopened_ok|]. etrans; [apply started_from|apply reopened_from].
Qed.
End fetch.
