(* ===== verification/DataIds.v ===== *)
(** * Data processor: sample and request ids

    Sample ids are handed out consecutively and wrap round; a sample's requests
    are numbered [sample * rollout_n + j], from which the request tracker recovers
    the sample and the index.  The theorems bound the ids, show that a batch
    never contains one twice, that the tracker files every request under its
    sample, and when training and validation ids are disjoint. *)

From S2P Require Import Prelude.
From S2P Require Import StalenessBuffer.
From S2P Require Import RequestStatusTracker.
From S2P Require Import PyFloat.
From S2P Require Import PyData.
From S2P Require Import DataProcessor.

#[local] Open Scope Z_scope.

(** ** Consecutive ids *)

Definition train_ids (cfg : DataConfig) (start : Z) (size : nat) : list Z :=
  (λ i, (start + Z.of_nat i) mod MAX_TRAIN_ID cfg) <$> seq 0 size.

Definition val_ids (cfg : DataConfig) (start : Z) (size : nat) : list Z :=
  (λ i, MAX_TRAIN_ID cfg + (start + Z.of_nat i) mod MAX_VAL_ID cfg) <$> seq 0 size.

(** The requests of the samples, for training and for validation. *)
Definition train_requests (cfg : DataConfig) (start : Z) (size : nat) : list Z := request_ids (d_rollout_n cfg) (train_ids cfg start size).
Definition val_requests (cfg : DataConfig) (start : Z) (size : nat) : list Z := request_ids (d_val_rollout_n cfg) (val_ids cfg start size).

Lemma mod_window_inj (m a b : Z) : 0 < m → - m < a - b < m → a mod m = b mod m → a = b.
Proof. intros Hm Hd E. pose proof (Z.div_mod a m). pose proof (Z.div_mod b m). assert (a / m = b / m) by nia. nia. Qed.

Lemma NoDup_mod_window (c m start : Z) (size : nat) : 0 < m → Z.of_nat size ≤ m →
  NoDup ((λ i : nat, c + (start + Z.of_nat i) mod m) <$> seq 0 size).
Proof.
  intros Hm Hs. apply NoDup_fmap_2_strong; [|apply NoDup_seq]. intros i j Hi%elem_of_seq Hj%elem_of_seq E.
  apply Nat2Z.inj. enough (start + Z.of_nat i = start + Z.of_nat j) by lia. apply (mod_window_inj m); [done|lia|lia].
Qed.

Lemma train_ids_NoDup cfg start size : 0 < MAX_TRAIN_ID cfg → Z.of_nat size ≤ MAX_TRAIN_ID cfg → NoDup (train_ids cfg start size).
Proof. intros Hm Hs. exact (NoDup_mod_window 0 _ start size Hm Hs). Qed.

Lemma elem_of_train_ids cfg start size p : 0 < MAX_TRAIN_ID cfg → p ∈ train_ids cfg start size → 0 ≤ p < MAX_TRAIN_ID cfg.
Proof. intros Hm (i & -> & _)%list_elem_of_fmap. by apply Z.mod_pos_bound. Qed.

Lemma elem_of_val_ids cfg start size p : 0 < MAX_VAL_ID cfg → p ∈ val_ids cfg start size →
  MAX_TRAIN_ID cfg ≤ p < MAX_TRAIN_ID cfg + MAX_VAL_ID cfg.
Proof. intros Hm (i & -> & _)%list_elem_of_fmap. pose proof (Z.mod_pos_bound (start + Z.of_nat i) (MAX_VAL_ID cfg)). lia. Qed.

Lemma elem_of_request_ids n ids x : x ∈ request_ids n ids ↔ ∃ p j, p ∈ ids ∧ 0 ≤ j < n ∧ x = p * n + j.
Proof.
  unfold request_ids. rewrite list_elem_of_bind. split.
  - intros (p & (j & -> & Hj%elem_of_zrange)%list_elem_of_fmap & Hp). by exists p, j.
  - intros (p & j & Hp & Hj & ->). exists p. split; [|done]. apply list_elem_of_fmap. exists j. by rewrite elem_of_zrange.
Qed.

(** The sample and the index of a request. *)
Lemma request_parent n p j : 0 ≤ j < n → (p * n + j) / n = p ∧ (p * n + j) mod n = j.
Proof. intros Hj. rewrite Z.add_comm. rewrite Z.div_add, Z.mod_add by lia. rewrite Z.div_small, Z.mod_small by lia. done. Qed.

Lemma request_ids_NoDup n ids : NoDup ids → NoDup (request_ids n ids).
Proof.
  induction 1 as [|p ids Hp _ IH]; [constructor|]. unfold request_ids. rewrite bind_cons. apply NoDup_app. split_and!; [| |done].
  - apply NoDup_fmap_2; [intros j j' E; lia|]. apply NoDup_seqZ.
  - intros x (j & -> & Hj%elem_of_zrange)%list_elem_of_fmap Hx. apply elem_of_request_ids in Hx as (p' & j' & Hp' & Hj' & E).
    destruct Hp. destruct (request_parent n p j Hj) as [<- _]. rewrite E. by destruct (request_parent n p' j' Hj') as [-> _].
Qed.

Lemma request_ids_length n ids : 0 ≤ n → length (request_ids n ids) = (length ids * Z.to_nat n)%nat.
Proof.
  intros Hn. induction ids as [|p ids IH]; [done|]. unfold request_ids in *. rewrite bind_cons, length_app, IH, length_fmap.
  unfold zrange. rewrite length_seqZ. rewrite Z.sub_0_r. simpl. lia.
Qed.

(** ** The ranges of ids *)

Section ranges.
Context (redundant : option (Z * Z)) (n val_n epochs steps : Z) (cfg : DataConfig).
Context (Hcfg : id_config redundant n val_n epochs steps = inr cfg).
Context (Hn : 0 < d_rollout_n cfg) (Hv : 0 < d_val_rollout_n cfg).

Lemma id_config_max : MAX_TRAIN_ID cfg = sys_maxsize / (2 * d_rollout_n cfg) ∧ MAX_VAL_ID cfg = sys_maxsize / (2 * d_val_rollout_n cfg).
Proof.
  unfold id_config in Hcfg. destruct redundant as [[r alg]|]; cbn in Hcfg;
    destruct (bool_decide _); cbn in Hcfg; try discriminate; destruct (bool_decide _); simplify_eq; done.
Qed.

Lemma max_train_bound : 2 * d_rollout_n cfg * MAX_TRAIN_ID cfg ≤ sys_maxsize.
Proof. destruct id_config_max as [-> _]. apply Z.mul_div_le. lia. Qed.

Lemma max_val_bound : 2 * d_val_rollout_n cfg * MAX_VAL_ID cfg ≤ sys_maxsize.
Proof. destruct id_config_max as [_ ->]. apply Z.mul_div_le. lia. Qed.

(** Training requests stay in the lower half of the machine's integers. *)
Theorem train_request_bounds start size x : 0 < MAX_TRAIN_ID cfg → x ∈ train_requests cfg start size → 0 ≤ x ∧ 2 * x < sys_maxsize.
Proof.
  intros Hm (p & j & Hp & Hj & ->)%elem_of_request_ids. apply elem_of_train_ids in Hp; [|done]. pose proof max_train_bound. nia.
Qed.

(** With as many validation as training rollouts, validation requests are above
    all training requests and below [sys.maxsize]. *)
Theorem val_request_bounds start size x : d_val_rollout_n cfg = d_rollout_n cfg → 0 < MAX_VAL_ID cfg → x ∈ val_requests cfg start size →
  d_rollout_n cfg * MAX_TRAIN_ID cfg ≤ x < sys_maxsize.
Proof.
  intros Heq Hm (p & j & Hp & Hj & ->)%elem_of_request_ids. apply elem_of_val_ids in Hp; [|done].
  pose proof max_train_bound. pose proof max_val_bound. rewrite Heq in *. nia.
Qed.

Theorem request_ids_disjoint start size start' size' : d_val_rollout_n cfg = d_rollout_n cfg → 0 < MAX_TRAIN_ID cfg → 0 < MAX_VAL_ID cfg →
  train_requests cfg start size ## val_requests cfg start' size'.
Proof.
  intros Heq Hm Hm' x (p & j & Hp & Hj & ->)%elem_of_request_ids Hx. apply (val_request_bounds start' size') in Hx; [|done..].
  apply elem_of_train_ids in Hp; [|done]. nia.
Qed.
End ranges.

(** With other numbers of validation rollouts neither holds: the first validation
    request of a run with 1 training and 4 validation rollouts is above
    [sys.maxsize], and with 4 and 1 it is the id of a training request. *)
Theorem val_ids_overflow :
  (∃ cfg, id_config None 1 4 1 1 = inr cfg ∧ head (val_requests cfg 0 1) = Some (4 * (sys_maxsize / 2)) ∧ sys_maxsize < 4 * (sys_maxsize / 2)) ∧
  (∃ cfg x, id_config None 4 1 1 1 = inr cfg ∧ x ∈ val_requests cfg 0 1 ∧ x ∈ train_requests cfg (MAX_TRAIN_ID cfg / 4) 1).
Proof.
  split; [eexists; split_and!; [reflexivity|vm_compute; reflexivity|vm_compute; reflexivity]|].
  eexists _, _. split_and!; [reflexivity|..]; [vm_compute; left|].
  apply elem_of_request_ids. eexists _, 3. split; [apply list_elem_of_fmap; exists 0%nat; split; [reflexivity|vm_compute; left]|].
  split; [vm_compute; split; [discriminate|reflexivity]|vm_compute; reflexivity].
Qed.

(** ** Registration *)

(** The entry of a training request. *)
Definition request_entry (n x : Z) : RequestInfo := mkRequestInfo INVALID_ROLLOUT_INSTANCE_ID (x / n) (x mod n) (-1) 1 false.

Lemma add_requests_run ids t :
  ∃ t', add_request (Many ids) (One INVALID_ROLLOUT_INSTANCE_ID) (One (-1)) (One RequestStatus.PENDING) (One false) t = Ret tt t' ∧
    trk_rollout_n t' = trk_rollout_n t ∧
    (∀ x, request_infos t' !! x = if decide (x ∈ ids) then Some (request_entry (trk_rollout_n t) x) else request_infos t !! x) ∧
    (∀ x, request_id_to_status t' !! x = if decide (x ∈ ids) then Some RequestStatus.PENDING else request_id_to_status t !! x).
Proof.
  unfold add_request, spread. rewrite bool_decide_eq_true_2 by (rewrite !length_replicate; done). mrun.
  revert t. induction ids as [|y ids IH]; intros t.
  { exists t. split_and!; [done..| |]; intros x; rewrite decide_False by apply not_elem_of_nil; done. }
  cbn [length replicate zip zip_with for_each]. mrun.
  destruct (IH (add_one y INVALID_ROLLOUT_INSTANCE_ID (-1) RequestStatus.PENDING false t)) as (t' & E & Hn & Hi & Hs).
  exists t'. split_and!; [exact E|by rewrite Hn| |]; intros x; rewrite ?Hi, ?Hs; cbn; rewrite lookup_insert; (destruct (decide (x ∈ ids)) as [Hx|Hx];
    [by rewrite decide_True by (apply elem_of_cons; by right)|]); destruct (decide (y = x)) as [->|];
    [by rewrite decide_True by (apply elem_of_cons; by left)|by rewrite decide_False by (rewrite elem_of_cons; naive_solver)
    |by rewrite decide_True by (apply elem_of_cons; by left)|by rewrite decide_False by (rewrite elem_of_cons; naive_solver)].
Qed.

(** The children of samples are filed under their sample, as running nowhere. *)
Lemma children_filed n ids p j : 0 ≤ j < n → p ∈ ids → request_entry n (p * n + j) = mkRequestInfo INVALID_ROLLOUT_INSTANCE_ID p j (-1) 1 false ∧
  p * n + j ∈ request_ids n ids.
Proof.
  intros Hj Hp. unfold request_entry. destruct (request_parent n p j Hj) as [-> ->]. split; [done|].
  apply elem_of_request_ids. by exists p, j.
Qed.

(** ** Consecutive batches *)

(** Ids asked for in two goes are the ids asked for at once. *)
Lemma train_ids_app cfg start a b :
  train_ids cfg start (a + b) = train_ids cfg start a ++ train_ids cfg ((start + Z.of_nat a) mod MAX_TRAIN_ID cfg) b.
Proof.
  unfold train_ids. rewrite seq_app, fmap_app. f_equal.
  replace (seq (0 + a) b) with (Nat.add a <$> seq 0 b) by (rewrite fmap_add_seq; f_equal; lia). rewrite <-list_fmap_compose.
  apply list_fmap_ext. intros ? j _. cbn. rewrite Zplus_mod_idemp_l. f_equal. lia.
Qed.

Lemma train_requests_app cfg start a b :
  train_requests cfg start (a + b) = train_requests cfg start a ++ train_requests cfg ((start + Z.of_nat a) mod MAX_TRAIN_ID cfg) b.
Proof. unfold train_requests. rewrite train_ids_app. apply bind_app. Qed.

(** ** Tags *)

(** The loop that writes the parents fills every tag, with its own sample. *)
Lemma set_parents_run pre tags ps : length ps = length tags →
  set_parents (pre ++ tags) (imap (λ i p, (length pre + i, p)%nat) ps)
  = inr (pre ++ zip_with (λ t p, mkDTag (dtag_uid t) (dtag_running t) (Some p)) tags ps).
Proof.
  revert pre tags. induction ps as [|p ps IH]; intros pre [|t tags] Hl; try done. cbn [imap zip_with]. cbn [set_parents].
  rewrite Nat.add_0_r. unfold set_parent. rewrite list_lookup_middle by done. rewrite insert_app_r_alt, Nat.sub_diag by lia. cbn [insert list_insert].
  set (t' := mkDTag (dtag_uid t) (dtag_running t) (Some p)). rewrite (cons_middle t' pre tags), (cons_middle t' pre (zip_with _ _ _)), !app_assoc.
  rewrite <-IH by (cbn in Hl; lia). f_equal. apply imap_ext. intros i q _. cbn. f_equal. rewrite length_app. cbn. lia.
Qed.

Lemma set_parents_all tags ps : length ps = length tags →
  set_parents tags (imap pair ps) = inr (zip_with (λ t p, mkDTag (dtag_uid t) (dtag_running t) (Some p)) tags ps).
Proof. intros Hl. exact (set_parents_run [] tags ps Hl). Qed.

Lemma parent_slots_length n ids : 0 ≤ n → length (ids ≫= λ p, replicate (Z.to_nat n) p) = length (request_ids n ids).
Proof.
  intros Hn. rewrite request_ids_length by done. induction ids as [|p ids IH]; [done|]. rewrite bind_cons, length_app, IH, length_replicate. simpl. lia.
Qed.
