(* ===== verification/DataSampling.v ===== *)
(** * Data processor: sampling on demand

    [sample_train_prompts] replaces the prompts of failed groups.  It keeps what a
    fetched batch leaves over for the next call.  The theorems show that the rows
    it returns and the rows it keeps are together exactly the rows it had and
    fetched, in order; that the loop ends; that it returns as many prompts as
    asked unless the loaders give nothing through a whole epoch; and that the
    requests it registers are the children of consecutive sample ids. *)

From S2P Require Import Prelude.
From S2P Require Import StalenessBuffer.
From S2P Require Import RequestStatusTracker.
From S2P Require Import PyFloat.
From S2P Require Import PyData.
From S2P Require Import DataProcessor.
From S2P Require Import DataMerge.
From S2P Require Import DataIds.

#[local] Open Scope nat_scope.

(** ** Slices of a batch *)

Section slices.
Context {ops : ColumnOps} {laws : ColumnLaws}.
Abbreviation BatchDict := (list (string * Col)).
Implicit Types (b : BatchDict) (f : string → option Col).

Lemma assoc_map_dict (g : Col → Col) k b : assoc k ((λ '(k, c), (k, g c)) <$> b) = g <$> assoc k b.
Proof. induction b as [|[k0 c0] b IH]; [done|]. rewrite fmap_cons. cbn [assoc]. by case_decide. Qed.

Lemma keys_map_dict (g : Col → Col) b : ((λ '(k, c), (k, g c)) <$> b).*1 = b.*1.
Proof. rewrite <-list_fmap_compose. apply list_fmap_ext. by intros i [k c] _. Qed.

Lemma map_dict_shaped (g : Col → Col) (m : nat → nat) f b :
  (∀ c, like c (g c)) → (∀ c, length (rows (g c)) = m (length (rows c))) → 0 < m (dsize b) →
  shaped f b → shaped f ((λ '(k, c), (k, g c)) <$> b) ∧ dsize ((λ '(k, c), (k, g c)) <$> b) = m (dsize b).
Proof.
  intros Hg Hm Hpos [Hk Hl Hr Hp]. assert (dsize ((λ '(k, c), (k, g c)) <$> b) = m (dsize b)) as Hd.
  { destruct b as [|[k c] b]; [simpl in *; lia|]. cbn. apply Hm. }
  split; [|done]. split; [by rewrite keys_map_dict| | |lia].
  - intros k. rewrite assoc_map_dict. specialize (Hl k). destruct (assoc k b) as [c|]; [|done].
    inversion Hl; subst. constructor. etrans; [symmetry; apply Hg|done].
  - intros k c. rewrite assoc_map_dict. intros (c0 & E & ->)%fmap_Some. by rewrite Hm, (Hr k), Hd.
Qed.

Lemma take_dict_shaped n f b : 0 < n ≤ dsize b → shaped f b → shaped f (take_dict n b) ∧ dsize (take_dict n b) = n.
Proof.
  intros Hn Hb. destruct (map_dict_shaped (take_rows n) (λ l, n `min` l) f b) as [H1 H2]; [apply like_take| | |done|].
  - intros c. by rewrite rows_take, length_take.
  - lia.
  - split; [done|]. unfold take_dict. rewrite H2. lia.
Qed.

Lemma drop_dict_shaped n f b : n < dsize b → shaped f b → shaped f (drop_dict n b).
Proof.
  intros Hn Hb. apply (map_dict_shaped (drop_rows n) (λ l, l - n)); [apply like_drop| |lia|done].
  intros c. by rewrite rows_drop, length_drop.
Qed.

Lemma col_take n k b : col k (take_dict n b) = take n (col k b).
Proof. unfold col, take_dict. rewrite assoc_map_dict. destruct (assoc k b); cbn; [apply rows_take|by rewrite take_nil]. Qed.

Lemma col_drop n k b : col k (drop_dict n b) = drop n (col k b).
Proof. unfold col, drop_dict. rewrite assoc_map_dict. destruct (assoc k b); cbn; [apply rows_drop|by rewrite drop_nil]. Qed.

Lemma col_length f k b : shaped f b → f k ≠ None → length (col k b) = dsize b.
Proof.
  intros Hb Hk. unfold col. pose proof (sh_like _ _ Hb k) as Hl. destruct (assoc k b) eqn:E; [by apply (sh_rows _ _ Hb k)|].
  by inversion Hl as [|E2]; subst.
Qed.

(** ** Joining the chunks *)

Lemma assoc_chunks f k chunks : Forall (shaped f) chunks → is_Some (f k) →
  ∃ vs, map_res (λ d : BatchDict, match assoc k d with Some v => inr v | None => inl KeyError end) chunks = inr vs ∧
    Forall (λ v, option_Forall2 like (Some v) (f k)) vs ∧ concat (rows <$> vs) = chunks ≫= col k ∧ length vs = length chunks.
Proof.
  intros Hall [c Hc]. induction Hall as [|d chunks Hd _ (vs & E & Hl & Hr & Hn)]; [by exists []|].
  pose proof (sh_like _ _ Hd k) as Hlk. destruct (assoc k d) as [v|] eqn:Ek; [|rewrite Hc in Hlk; inversion Hlk].
  assert (col k d = rows v) as Ecol by (unfold col; by rewrite Ek).
  exists (v :: vs). cbn [map_res]. rewrite Ek, E, bind_cons, fmap_cons, Ecol. cbn. rewrite Hr, Hn. by split_and!; [|constructor|..].
Qed.

Lemma concat_chunks_ok f chunks : (∀ k c, f k = Some c → kind c ≠ KOther) → chunks ≠ [] → Forall (shaped f) chunks →
  ∃ r, concat_dict_chunks chunks = inr r ∧ NoDup r.*1 ∧ (∀ k, option_Forall2 like (assoc k r) (f k)) ∧ ∀ k, col k r = chunks ≫= col k.
Proof.
  intros Hk Hne Hall. destruct chunks as [|c [|c2 cs]]; [done| |].
  { pose proof (Forall_inv Hall) as Hc. exists c. split_and!; [done|apply Hc..|]. intros k. rewrite bind_cons. by rewrite app_nil_r. }
  pose proof (Forall_inv Hall) as Hc. unfold concat_dict_chunks.
  match goal with |- context [map_res ?g c] => set (join := g) end.
  destruct (map_res_dict join (λ k _ r, option_Forall2 like (Some r) (f k) ∧ rows r = (c :: c2 :: cs) ≫= col k) c) as (r & -> & Hkeys & Hr).
  { intros k v Hin. pose proof (sh_like _ _ Hc k) as Hl. rewrite (assoc_elem k v) in Hl; [|apply Hc|done].
    inversion Hl as [? c0 Hcc E1 E2|]; subst. symmetry in E2. unfold join.
    destruct (assoc_chunks f k (c :: c2 :: cs) Hall) as (vs & -> & Hvs & Hrows & Hn); [by eexists|].
    destruct vs as [|w vs]; [done|]. apply Forall_cons in Hvs as [Hw Hvs]. rewrite E2 in Hw, Hvs. inversion Hw as [? ? Hw' |]; subst.
    destruct (cat_like_ok w w vs) as (r & -> & Hr & Hlr); [by rewrite (like_kind _ _ Hw'); apply (Hk k)|done| |].
    { eapply Forall_impl; [done|]. intros x Hx. inversion Hx; subst. etrans; [done|by symmetry]. }
    exists r. rewrite Hr, <-Hrows. split_and!; [done| |done]. constructor. etrans; [by symmetry|done]. }
  exists r. rewrite Hkeys. split_and!; [done|apply Hc|..]; intros k; specialize (Hr k); pose proof (sh_like _ _ Hc k) as Hl.
  - destruct (assoc k c), (assoc k r); try done. by destruct Hr.
  - destruct (assoc k c) eqn:E, (assoc k r) eqn:E'; try done; unfold col at 1; rewrite E'; [by destruct Hr|].
    assert (f k = None) as Ef by (inversion Hl; congruence).
    clear -Hall Ef. revert Hall. generalize (c :: c2 :: cs). induction 1 as [|d ds Hd _ IH]; [done|].
    rewrite bind_cons, <-IH, app_nil_r. unfold col. pose proof (sh_like _ _ Hd k) as Hk. rewrite Ef in Hk. by inversion Hk.
Qed.
End slices.

(** ** The sampling loop *)

Section sampling.
Context {ops : ColumnOps} {laws : ColumnLaws} {LState : Type} (env : Env (LState := LState)) (cfg : DataConfig).
Context (shapes : list (string → option Col)) `{!EnvLaws env shapes}.
Abbreviation BatchDict := (list (string * Col)).
Abbreviation DataProcessor := (DataProcessor (LState := LState)).
Implicit Types (s : DataProcessor) (b : BatchDict).

(** The fetches of a computation, in order: a batch, or the end of an epoch. *)
Inductive pulls : DataProcessor → list (option BatchDict) → DataProcessor → Prop :=
  | pulls_done s : pulls s [] s
  | pulls_batch s b s1 evs s' : get_train_next env s = Ret b s1 → pulls s1 evs s' → pulls s (Some b :: evs) s'
  | pulls_epoch s s1 evs s' : get_train_next env s = Raise StopIteration s1 → pulls s1 evs s' → pulls s (None :: evs) s'
  | pulls_retry s r evs s' : pulls (with_retry r s) evs s' → pulls s evs s'.

Lemma pulls_app s evs s1 evs' s' : pulls s evs s1 → pulls s1 evs' s' → pulls s (evs ++ evs') s'.
Proof. induction 1; intros Hp; [done|by eapply pulls_batch; eauto|by eapply pulls_epoch; eauto|by eapply pulls_retry; eauto]. Qed.

Definition buffered s : BatchDict := default [] (retry_buffer s).
Definition buffer_ok s : Prop := ∀ b, retry_buffer s = Some b → shaped (joint shapes) b.

(** The rows of column [k] that were fetched. *)
Definition fetched_rows (k : string) (evs : list (option BatchDict)) : list Cell := omap id evs ≫= col k.

(** Sampling touches the buffer and what fetching touches. *)
Definition sampled_from s s' : Prop := ∃ r, fetched_from (with_retry r s) s'.

#[export] Instance sampled_from_preorder : PreOrder sampled_from.
Proof.
  split; [intros s; exists (retry_buffer s); by destruct s|].
  intros s1 s2 s3 [r (its & o & ld & dr & ->)] [r' (its' & o' & ld' & dr' & ->)]. exists r'. by exists its', o', ld', dr'.
Qed.

Lemma sampled_fetch s s' r : fetched_from s s' → sampled_from s (with_retry r s').
Proof. intros (its & o & ld & dr & ->). exists r. by exists its, o, ld, dr. Qed.

Lemma fetched_sampled s s' : fetched_from s s' → sampled_from s s'.
Proof. intros (its & o & ld & dr & ->). exists (retry_buffer s). exists its, o, ld, dr. by destruct s. Qed.

(** A turn takes rows off the front of the stream. *)
Record taken (remaining : nat) s s' chunk n evs : Prop := {
  tk_n : 0 < n ≤ remaining;
  tk_chunk : shaped (joint shapes) chunk;
  tk_size : dsize chunk = n;
  tk_pulls : pulls s evs s';
  tk_rows k : col k (buffered s) ++ fetched_rows k evs = col k chunk ++ col k (buffered s');
  tk_iters : iters_ok shapes s';
  tk_buffer : buffer_ok s';
  tk_frame : sampled_from s s';
}.

Lemma retry_size_run s : buffer_ok s → retry_buffer_size s = Ret (dsize (buffered s)) s.
Proof.
  intros Hb. unfold retry_buffer_size. mrun. unfold buffered. destruct (retry_buffer s) as [b|] eqn:E; [|done].
  cbn [from_option]. unfold of_res. by rewrite (dict_size_ok _ (joint shapes)) by auto.
Qed.

(** Taking from a filled buffer. *)
Lemma take_run remaining s b ro : 0 < remaining → iters_ok shapes s → retry_buffer s = Some b → shaped (joint shapes) b →
  ∃ s' chunk n, (leftover ← retry_buffer_size;
      s ← gets id;
      let b := default [] (retry_buffer s) in
      let n := Nat.min remaining leftover in
      modify (with_retry (if bool_decide (n < leftover) then Some (drop_dict n b) else None)) ;;
      mret (TTaken (take_dict n b) n ro)) s = Ret (TTaken chunk n ro) s' ∧ taken remaining s s' chunk n [].
Proof.
  intros Hr Hi E Hb. assert (buffer_ok s) as Hok by (intros b' Hb'; by simplify_eq).
  rewrite (run_bind _ _ _ _ _ (retry_size_run s Hok)). mrun. unfold buffered. rewrite E. cbn [from_option].
  pose proof (sh_pos _ _ Hb) as Hp. set (n := remaining `min` dsize b).
  assert (0 < n ≤ dsize b ∧ n ≤ remaining) as [Hnb Hnr] by (unfold n; lia).
  destruct (take_dict_shaped n (joint shapes) b) as [Hc Hn]; [done..|].
  exists (with_retry (if bool_decide (n < dsize b) then Some (drop_dict n b) else None) s), (take_dict n b), n. split; [done|].
  split; [lia|done|done|by eapply pulls_retry, pulls_done| |done| |].
  - intros k. unfold buffered at 1. rewrite E. cbn [from_option]. change (fetched_rows k []) with (@nil Cell). rewrite app_nil_r, col_take.
    unfold buffered. cbn [with_retry retry_buffer]. case_bool_decide as Hlt.
    + change (col k b = take n (col k b) ++ col k (drop_dict n b)). by rewrite col_drop, take_drop.
    + change (col k b = take n (col k b) ++ []). rewrite app_nil_r, take_ge; [done|]. unfold col. destruct (assoc k b) eqn:Ek; [|simpl; lia].
      rewrite (sh_rows _ _ Hb k) by done. lia.
  - intros b'. cbn [with_retry retry_buffer]. case_bool_decide as Hlt; [|done]. intros [= <-]. by apply drop_dict_shaped.
  - by apply sampled_fetch.
Qed.

(** What a turn of the loop can do. *)
Lemma sample_turn_ok remaining (ro : bool) s : 0 < remaining → iters_ok shapes s → buffer_ok s →
  (∃ chunk n ro' evs s', sample_turn env remaining ro s = Ret (TTaken chunk n ro') s' ∧
     taken remaining s s' chunk n evs ∧ (ro' = false ∨ ro' = ro ∧ evs = [])) ∨
  (∃ s', sample_turn env remaining ro s = Ret (if ro then TBreak else TRollover) s' ∧ get_train_next env s = Raise StopIteration s' ∧
         dsize (buffered s) = 0 ∧ iters_ok shapes s' ∧ fetched_from s s').
Proof.
  intros Hr Hi Hb. unfold sample_turn. rewrite (run_bind _ _ _ _ _ (retry_size_run s Hb)).
  case_bool_decide as Hsz.
  - destruct (get_train_next_ok env shapes s Hi) as [(b & s1 & E & Hs & Hi1 & Hf)|(s1 & E & Hi1 & Hf)]; [left|right].
    + rewrite (run_bind _ _ s (Some false) (with_retry (Some b) s1)); [|unfold except_stop; by rewrite (run_bind _ _ _ _ _ E)].
      destruct (take_run remaining (with_retry (Some b) s1) b false) as (s' & chunk & n & E' & Ht); [done..|].
      exists chunk, n, false, [Some b], s'. split; [exact E'|]. split; [|by left]. destruct Ht as [Hn Hc Hsize Hp Hrows Hits Hbuf Hfr].
      split; [done..|by eapply pulls_batch, pulls_retry| |done|done|].
      * intros k. specialize (Hrows k). unfold buffered at 1 in Hrows. cbn [with_retry retry_buffer from_option] in Hrows.
        change (fetched_rows k []) with (@nil Cell) in Hrows. rewrite app_nil_r in Hrows. rewrite <-Hrows.
        change (fetched_rows k [Some b]) with (col k b ++ []). rewrite app_nil_r.
        unfold buffered in Hsz |- *. destruct (retry_buffer s) as [b0|] eqn:E0; [|done]. pose proof (sh_pos _ _ (Hb b0 E0)). cbn in Hsz. lia.
      * etrans; [by apply (sampled_fetch s s1 (Some b))|done].
    + rewrite (run_bind _ _ s None s1); [|unfold except_stop; by rewrite (run_bind_raise _ _ _ _ _ E)].
      exists s1. by split_and!.
  - left. rewrite (run_bind _ _ s (Some ro) s) by done. destruct (retry_buffer s) as [b|] eqn:E0; [|unfold buffered in Hsz; by rewrite E0 in Hsz].
    destruct (take_run remaining s b ro) as (s' & chunk & n & E' & Ht); [done..|by apply Hb|]. exists chunk, n, ro, [], s'. split_and!; [done..|by right].
Qed.

(** The loop ends within its fuel; the chunks and the buffer it leaves are the
    rows it found and fetched, and it stops short only after two ends of an
    epoch in a row. *)
Lemma sample_loop_ok fuel chunks remaining (ro : bool) s : 2 * remaining + (if ro then 1 else 2) ≤ fuel → iters_ok shapes s → buffer_ok s →
  ∃ new rem evs s', sample_loop env fuel chunks remaining ro s = Ret (Some (chunks ++ new, rem)) s' ∧
    pulls s evs s' ∧ (∀ k, col k (buffered s) ++ fetched_rows k evs = (new ≫= col k) ++ col k (buffered s')) ∧
    Forall (shaped (joint shapes)) new ∧ sum_list (dsize <$> new) + rem = remaining ∧
    (rem = 0 ∨ ∃ evs0, (if ro then [@None BatchDict] else []) ++ evs = evs0 ++ [None; None]) ∧
    iters_ok shapes s' ∧ buffer_ok s' ∧ sampled_from s s'.
Proof.
  revert chunks remaining ro s. induction fuel as [|fuel IH]; intros chunks remaining ro s Hfuel Hi Hb; [destruct ro; lia|].
  cbn [sample_loop]. case_bool_decide as Hz.
  { subst. exists [], 0, [], s. rewrite app_nil_r. split_and!; [done|constructor| |done|done|by left|done..].
    intros k. apply app_nil_r. }
  destruct (sample_turn_ok remaining ro s) as [(chunk & n & ro' & evs & s1 & E & Ht & Hro)|(s1 & E & Eg & Hsz & Hi1 & Hf)]; [lia|done..| |].
  - rewrite (run_bind _ _ _ _ _ E). destruct Ht as [Hn Hc Hsize Hp Hrows Hits Hbuf Hfr].
    destruct (IH (chunks ++ [chunk]) (remaining - n) ro' s1) as (new & rem & evs' & s' & E' & Hp' & Hrows' & Hnew & Hsum & Hend & Hi' & Hb' & Hf'); [destruct ro, ro'; lia|done..|].
    exists (chunk :: new), rem, (evs ++ evs'), s'. rewrite <-app_assoc in E'.
    split_and!; [done|by eapply pulls_app| |by constructor|cbn; lia| |done|done|by etrans].
    + intros k. unfold fetched_rows. rewrite omap_app, bind_app, app_assoc. fold (fetched_rows k evs) (fetched_rows k evs').
      rewrite Hrows, <-!app_assoc, Hrows', bind_cons. by rewrite app_assoc.
    + destruct Hend as [->|(evs0 & Hend)]; [by left|right]. destruct Hro as [->|[-> ->]]; [|by exists evs0].
      exists ((if ro then [None] else []) ++ evs ++ evs0). cbn in Hend. rewrite Hend. by rewrite <-!app_assoc.
  - rewrite (run_bind _ _ _ _ _ E).
    assert (buffer_ok s1 ∧ ∀ k, col k (buffered s1) = col k (buffered s)) as [Hb1 Hsame] by (destruct Hf as (its & o & ld & dr & ->); by split).
    destruct ro.
    + exists [], remaining, [None], s1. rewrite app_nil_r. split_and!; [done|by eapply pulls_epoch, pulls_done| |done|done|right; by exists []|done|done|].
      * intros k. by rewrite app_nil_r, Hsame.
      * by apply fetched_sampled.
    + destruct (IH chunks remaining true s1) as (new & rem & evs & s' & E' & Hp' & Hrows' & Hnew & Hsum & Hend & Hi' & Hb' & Hf'); [lia|done..|].
      exists new, rem, (None :: evs), s'. split_and!; [done|by eapply pulls_epoch| |done..|by etrans; [apply fetched_sampled|]].
      intros k. specialize (Hrows' k). by rewrite Hsame in Hrows'.
Qed.
(** ** The requests made of the rows *)

Lemma joint_kind k c : joint shapes k = Some c → kind c ≠ KOther.
Proof.
  intros (f & Hf & E)%head_omap_elem%list_elem_of_omap. by apply (el_agree env f f k c c).
Qed.

Lemma request_ids_one ids : request_ids 1 ids = ids.
Proof.
  induction ids as [|p ids IH]; [done|]. unfold request_ids in *. rewrite bind_cons, IH. change (zrange 0 1) with [0%Z]. rewrite fmap_cons. cbn [fmap list_fmap app]. f_equal. lia.
Qed.

Lemma repeat_each_one {A} (l : list A) : repeat_each 1 l = l.
Proof. induction l as [|x l IH]; [done|]. unfold repeat_each in *. rewrite bind_cons, IH. done. Qed.

Lemma col_repeat n k b : col k ((λ '(k, c), (k, repeat_rows n c)) <$> b) = repeat_each n (col k b).
Proof. unfold col. rewrite assoc_map_dict. destruct (assoc k b); cbn; [apply rows_repeat|done]. Qed.

(** The batch made of [size] sampled rows. *)
Definition sampled_td (b : BatchDict) (size : nat) (steps : Z) (ids : list Z) : TensorDict :=
  let n := d_rollout_n cfg in
  let td := make_td b size steps false n ids in
  if bool_decide (1 < n)%Z then repeat_td (Z.to_nat n) (request_ids n ids) td else td.

Lemma sampled_td_ok b size steps ids : (1 ≤ d_rollout_n cfg)%Z →
  td_uid (sampled_td b size steps ids) = Some (request_ids (d_rollout_n cfg) ids) ∧
  (∀ k, col k (td_cols (sampled_td b size steps ids)) = repeat_each (Z.to_nat (d_rollout_n cfg)) (col k b)) ∧
  ((1 < d_rollout_n cfg)%Z → td_parent_id (sampled_td b size steps ids) = Some (repeat_each (Z.to_nat (d_rollout_n cfg)) ids)).
Proof.
  intros Hn. unfold sampled_td. case_bool_decide as H1.
  - split_and!; [done|intros k; apply col_repeat|]. intros _. cbn. by rewrite bool_decide_eq_true_2.
  - assert (d_rollout_n cfg = 1%Z) as -> by lia. rewrite request_ids_one. split_and!; [done| |lia].
    intros k. by rewrite repeat_each_one.
Qed.

(** The end of [sample_train_prompts]: numbering and registration. *)
Lemma finish_sample_run s b m steps : global_steps s = steps →
  ∃ t', (sample_ids ← get_train_sample_ids cfg m;
    s ← gets id;
    let td := make_td b m (global_steps s) false (d_rollout_n cfg) sample_ids in
    let ids := if bool_decide (1 < d_rollout_n cfg)%Z then request_ids (d_rollout_n cfg) sample_ids else sample_ids in
    let td := if bool_decide (1 < d_rollout_n cfg)%Z then repeat_td (Z.to_nat (d_rollout_n cfg)) ids td else td in
    register ids ;; mret (Some td)) s =
  Ret (Some (sampled_td b m steps (train_ids cfg (train_sample_idx s) m)))
    (with_requests t' (with_sample_idx ((train_sample_idx s + Z.of_nat m) mod MAX_TRAIN_ID cfg) (val_sample_idx s) s)) ∧
  ∀ x, (1 ≤ d_rollout_n cfg)%Z → x ∈ train_requests cfg (train_sample_idx s) m →
    request_infos t' !! x = Some (request_entry (trk_rollout_n (requests s)) x).
Proof.
  intros <-. unfold get_train_sample_ids, sampled_td. mrun. fold (train_ids cfg (train_sample_idx s) m).
  set (ids := train_ids cfg (train_sample_idx s) m).
  set (regs := if bool_decide (1 < d_rollout_n cfg)%Z then request_ids (d_rollout_n cfg) ids else ids).
  destruct (add_requests_run regs (requests s)) as (t' & E & _ & Hi & _). exists t'. split.
  - unfold register, on_requests, zoom. unfold mbind, M_bind. cbn [with_sample_idx requests global_steps]. rewrite E. by case_bool_decide.
  - intros x Hn Hx. rewrite Hi. rewrite decide_True; [done|]. unfold regs, train_requests in *. fold ids in Hx. case_bool_decide; [done|].
    assert (d_rollout_n cfg = 1%Z) as E1 by lia. by rewrite E1, request_ids_one in Hx.
Qed.

(** What a call of [sample_train_prompts] gives: [evs] are its fetches, all of them,
    [taken_rows k] the rows of column [k] that it hands out, [m] their number. *)
Record sampled (n : Z) s evs s' (m : nat) (taken_rows : string → list Cell) (res : option TensorDict) : Prop := {
  sm_fetches : ∃ s1 t idx, pulls s evs s1 ∧ s' = with_requests t (with_sample_idx idx (val_sample_idx s1) s1);
  sm_stream k : col k (buffered s) ++ fetched_rows k evs = taken_rows k ++ col k (buffered s');
  sm_rows k : is_Some (joint shapes k) → length (taken_rows k) = m;
  sm_count : m = Z.to_nat n ∨ m < Z.to_nat n ∧ ∃ evs0, evs = evs0 ++ [None; None];
  sm_none : res = None ↔ m = 0;
  sm_ids td : res = Some td → td_uid td = Some (train_requests cfg (train_sample_idx s) m);
  sm_cols td k : res = Some td → col k (td_cols td) = repeat_each (Z.to_nat (d_rollout_n cfg)) (taken_rows k);
  sm_filed p j : p ∈ train_ids cfg (train_sample_idx s) m → (0 ≤ j < d_rollout_n cfg)%Z →
    request_infos (requests s') !! (p * d_rollout_n cfg + j)%Z = Some (mkRequestInfo INVALID_ROLLOUT_INSTANCE_ID p j (-1) 1 false);
  sm_next : m ≠ 0 → train_sample_idx s' = ((train_sample_idx s + Z.of_nat m) mod MAX_TRAIN_ID cfg)%Z;
}.

(** C25: [sample_train_prompts], asked for at least one prompt, with at least one
    rollout per prompt and well-formed loaders and leftover, always returns.  The rows it hands
    out and the rows it keeps buffered are, in order, those it had buffered and
    those of all its fetches, which alone move the loaders; it hands out as many prompts as asked unless the loaders
    ended twice in a row; the requests are the children of consecutive samples,
    and each is filed under its sample. *)
Theorem sample_prompts_exact s n : (0 < n)%Z → (1 ≤ d_rollout_n cfg)%Z → trk_rollout_n (requests s) = d_rollout_n cfg →
  iters_ok shapes s → buffer_ok s →
  ∃ res s' evs m taken_rows, sample_train_prompts env cfg n s = Ret res s' ∧ sampled n s evs s' m taken_rows res ∧
    iters_ok shapes s' ∧ buffer_ok s'.
Proof.
  intros Hn Hr Ht Hi Hb. unfold sample_train_prompts. rewrite run_assert_decide by done.
  destruct (sample_loop_ok (sample_fuel (Z.to_nat n)) [] (Z.to_nat n) false s) as (new & rem & evs & s1 & E & Hp & Hrows & Hnew & Hsum & Hend & Hi1 & Hb1 & Hf);
    [unfold sample_fuel; lia|done..|].
  rewrite (run_bind _ _ _ _ _ E). cbn [app] in *. set (m := sum_list (dsize <$> new)) in *.
  assert (m = Z.to_nat n ∨ m < Z.to_nat n ∧ ∃ evs0, evs = evs0 ++ [None; None]) as Hcount.
  { destruct Hend as [->|Hend]; [left; lia|]. destruct (decide (rem = 0)); [left; lia|right; split; [lia|done]]. }
  assert (∀ k, is_Some (joint shapes k) → length (new ≫= col k) = m) as Hlen.
  { intros k Hk. unfold m. clear -Hnew Hk. induction Hnew as [|d new Hd _ IH]; [done|]. rewrite bind_cons, length_app, IH.
    cbn. f_equal. apply (col_length (joint shapes)); [done|]. destruct Hk as [c ->]. done. }
  destruct new as [|d new].
  { exists None, s1, evs, 0, (λ k, []). split_and!; [done| |done|done]. split; try done.
    { exists s1, (requests s1), (train_sample_idx s1). split; [done|by destruct s1]. }
    intros p j Hp'. unfold train_ids in Hp'. by apply not_elem_of_nil in Hp'. }
  assert (0 < m) as Hm by (unfold m; pose proof (sh_pos _ _ (Forall_inv Hnew)); cbn; lia).
  destruct (concat_chunks_ok (joint shapes) (d :: new) joint_kind) as (r & Er & _ & _ & Hcol); [done..|].
  rewrite (run_of_res _ r) by done. replace (Z.to_nat n - rem) with m by lia.
  destruct (finish_sample_run s1 r m (global_steps s1) eq_refl) as (t' & Efin & Hfiled).
  assert (train_sample_idx s1 = train_sample_idx s ∧ requests s1 = requests s) as [Eidx Ereq] by (destruct Hf as (? & ? & ? & ? & ? & ->); done).
  rewrite Eidx, Ereq, Ht in *. destruct (sampled_td_ok r m (global_steps s1) (train_ids cfg (train_sample_idx s) m) Hr) as (Hu & Hc & _).
  eexists _, _, evs, m, (λ k, (d :: new) ≫= col k). split_and!; [exact Efin| |done|done].
  split; [by eexists s1, t', _|done..| | | | |done].
  - split; [done|lia].
  - by intros td [= <-].
  - intros td k [= <-]. by rewrite Hc, Hcol.
  - intros p j Hpj Hj. cbn [with_requests requests]. destruct (children_filed (d_rollout_n cfg) _ p j Hj Hpj) as [<- Hin]. by apply Hfiled.
Qed.
End sampling.
