(* ===== verification/DataThread.v ===== *)
(** * Data processor: the background thread among the other methods

    [_process_data] runs in a thread of its own; refills, validation, checkpoints and
    a stop request run beside it and share the loaders, the sample numbers and the
    stop flag with it.  Whatever they do, the thread keeps its books: it dispatches
    no more batches than configured, every dispatched batch has the next free sample
    numbers, and the ones it skips are those a refill has taken. *)

From S2P Require Import Prelude.
From S2P Require Import StalenessBuffer.
From S2P Require Import RequestStatusTracker.
From S2P Require Import PyFloat.
From S2P Require Import PyData.
From S2P Require Import DataProcessor.
From S2P Require Import DataMerge.
From S2P Require Import DataIds.
From S2P Require Import DataSampling.

#[local] Open Scope nat_scope.

Section thread.
Context {ops : ColumnOps} {LState : Type} (env : Env (LState := LState)) (cfg : DataConfig).
Abbreviation DataProcessor := (DataProcessor (LState := LState)).
Implicit Types (s : DataProcessor).
Abbreviation T := (d_total_training_steps cfg).

(** ** What the other methods do

    A refill is three steps, its two critical sections and the registration. *)
Inductive other_step : DataProcessor → DataProcessor → Prop :=
  | os_sampling fuel chunks n rollover s : other_step s (final (sample_loop env fuel chunks n rollover s))
  | os_numbering n s : other_step s (final (get_train_sample_ids cfg n s))
  | os_register ids s : other_step s (final (register ids s))
  | os_validation between fuel group_repeat return_meta s :
      other_step s (final (get_single_controller_batch env cfg between fuel DVal group_repeat return_meta s))
  | os_save paths s : other_step s (final (save_train_dataloader env paths s))
  | os_load paths s : other_step s (final (load_train_dataloader env paths s))
  | os_stop s : other_step s (with_stop true s).

Lemma numbering_run n s : get_train_sample_ids cfg n s =
  Ret (train_ids cfg (train_sample_idx s) n) (with_sample_idx ((train_sample_idx s + Z.of_nat n) mod MAX_TRAIN_ID cfg)%Z (val_sample_idx s) s).
Proof. done. Qed.

(** A whole refill is made of such steps. *)
Lemma refill_others n s : rtc other_step s (final (sample_train_prompts env cfg n s)).
Proof.
  unfold sample_train_prompts. destruct (bool_decide (0 < n)%Z); [|apply rtc_refl]. rewrite (run_bind _ _ s tt s) by done.
  eapply rtc_l; [apply (os_sampling (sample_fuel (Z.to_nat n)) [] (Z.to_nat n) false)|].
  destruct (sample_loop _ _ _ _ _ s) as [r s1|e s1] eqn:E; [rewrite (run_bind _ _ _ _ _ E)|rewrite (run_bind_raise _ _ _ _ _ E); apply rtc_refl].
  cbn [final]. destruct r as [[[|c cs] rem]|]; [apply rtc_refl| |apply rtc_refl].
  destruct (concat_dict_chunks (c :: cs)) as [e|r]; [apply rtc_refl|]. rewrite (run_bind _ _ s1 r s1) by done.
  eapply rtc_l; [apply (os_numbering (Z.to_nat n - rem))|]. rewrite (run_bind _ _ _ _ _ (numbering_run _ s1)). mrun. rewrite numbering_run. cbn [final].
  set (regs := if bool_decide (1 < d_rollout_n cfg)%Z then request_ids _ _ else _). set (s2 := with_sample_idx _ _ s1).
  apply rtc_once. pose proof (os_register regs s2) as H. unfold mbind, M_bind. by destruct (register regs s2).
Qed.

(** ** What they leave alone *)

Definition books s : list (option TensorDict) * Z * bool := (dispatched s, global_steps s, stop_data_process s).
Definition numbered s : list (option TensorDict) * Z * bool * Z := (books s, train_sample_idx s).

Lemma keeps_except_stop {A X} (f : DataProcessor → X) (m h : M DataProcessor A) : keeps f m → keeps f h → keeps f (except_stop m h).
Proof.
  intros Hm Hh s. unfold except_stop. specialize (Hm s). destruct (m s) as [a s'|[] s']; try done. by rewrite (Hh s').
Qed.

Lemma open_keeps : keeps numbered (open_train env).
Proof. unfold open_train. keeps_tac. Qed.
Hint Resolve open_keeps : psrl.

Lemma merge_keeps bs : keeps numbered (concat_and_shuffle_batch_dicts env bs).
Proof. unfold concat_and_shuffle_batch_dicts. keeps_tac. Qed.
Hint Resolve merge_keeps : psrl.

Lemma fetch_keeps : keeps numbered (get_train_next env).
Proof. unfold get_train_next. keeps_tac. Qed.
Hint Resolve fetch_keeps : psrl.

Lemma turn_keeps n rollover : keeps numbered (sample_turn env n rollover).
Proof.
  unfold sample_turn, retry_buffer_size. apply keeps_bind; [keeps_tac|]. intros size. apply keeps_bind; [|keeps_tac].
  case_bool_decide; [|apply keeps_ret]. apply keeps_except_stop; keeps_tac.
Qed.

Lemma sampling_keeps fuel chunks n rollover : keeps numbered (sample_loop env fuel chunks n rollover).
Proof.
  revert chunks n rollover. induction fuel as [|fuel IH]; intros chunks n rollover; cbn [sample_loop]; [apply keeps_ret|].
  case_bool_decide; [apply keeps_ret|]. apply keeps_bind; [apply turn_keeps|]. intros []; auto with psrl.
Qed.

Lemma register_keeps ids : keeps numbered (register ids).
Proof. unfold register, on_requests. by apply keeps_zoom_outside. Qed.

Lemma val_loop_keeps fuel : keeps numbered (val_loop env fuel).
Proof. induction fuel as [|fuel IH]; cbn [val_loop]; keeps_tac. Qed.
Hint Resolve val_loop_keeps : psrl.

Lemma validation_keeps between fuel gr meta : keeps numbered (get_single_controller_batch env cfg between fuel DVal gr meta).
Proof.
  cbn [get_single_controller_batch]. apply keeps_bind; [unfold get_val_next, open_val; keeps_tac|]. intros [[b|]|]; [|keeps_tac..].
  apply keeps_bind; [|keeps_tac]. unfold controller_batch, get_val_sample_ids. keeps_tac.
Qed.

Lemma save_keeps paths : keeps numbered (save_train_dataloader env paths).
Proof. unfold save_train_dataloader. keeps_tac. Qed.

Lemma load_keeps paths : keeps numbered (load_train_dataloader env paths).
Proof. unfold load_train_dataloader. keeps_tac. Qed.

(** ** The books

    [N] samples have been numbered so far, by the thread and by refills. *)
Definition uids_of (l : list (option TensorDict)) : list Z :=
  l ≫= λ o, match o with Some td => default [] (td_uid td) | None => [] end.

Lemma uids_of_app l l' : uids_of (l ++ l') = uids_of l ++ uids_of l'.
Proof. apply bind_app. Qed.

Lemma train_requests_grow a b : a ≤ b → train_requests cfg 0 a `sublist_of` train_requests cfg 0 b.
Proof. intros H. replace b with (a + (b - a)) by lia. rewrite train_requests_app. by apply sublist_inserts_r. Qed.

Record ledger (N : nat) s : Prop := {
  lg_length : global_steps s = Z.of_nat (length (dispatched s));
  lg_some : Forall is_Some (dispatched s);
  lg_uids : uids_of (dispatched s) `sublist_of` train_requests cfg 0 N;
  lg_next : train_sample_idx s = (Z.of_nat N mod MAX_TRAIN_ID cfg)%Z;
  lg_bound : (global_steps s ≤ T)%Z ∧ (global_steps s = T → stop_data_process s = true);
}.

Lemma ledger_keeps N s s' : numbered s' = numbered s → ledger N s → ledger N s'.
Proof. unfold numbered, books. intros [= E1 E2 E3 E4] [H1 H2 H3 H4 H5]. split; congruence. Qed.

Lemma ledger_numbers N m s : ledger N s →
  ledger (N + m) (with_sample_idx ((train_sample_idx s + Z.of_nat m) mod MAX_TRAIN_ID cfg)%Z (val_sample_idx s) s).
Proof.
  intros [H1 H2 H3 H4 H5]. split; cbn; [done..| | |done].
  - etrans; [done|]. apply train_requests_grow. lia.
  - rewrite H4, Zplus_mod_idemp_l. f_equal. lia.
Qed.

(** The samples numbered in between are the refills'. *)
Lemma ledger_other s s' N : other_step s s' → ledger N s →
  ∃ N', N ≤ N' ∧ ledger N' s' ∧ dispatched s' = dispatched s ∧ global_steps s' = global_steps s.
Proof.
  intros Hstep Hl. assert (numbered s' = numbered s → ∃ N', N ≤ N' ∧ ledger N' s' ∧ dispatched s' = dispatched s ∧ global_steps s' = global_steps s) as Hsame.
  { intros E. exists N. split_and!; [lia|by apply (ledger_keeps N s)|..]; by injection E. }
  destruct Hstep; [apply Hsame, sampling_keeps|exists (N + n); split_and!; [lia|by apply ledger_numbers|done..]|apply Hsame, register_keeps
    |apply Hsame, validation_keeps|apply Hsame, save_keeps|apply Hsame, load_keeps|].
  exists N. split_and!; [lia| |done..]. destruct Hl as [H1 H2 H3 H4 [H5 _]]. by split.
Qed.

Lemma ledger_others s s' N : rtc other_step s s' → ledger N s →
  ∃ N', N ≤ N' ∧ ledger N' s' ∧ dispatched s' = dispatched s ∧ global_steps s' = global_steps s.
Proof.
  intros Hr. revert N. induction Hr as [s|s1 s2 s3 Hstep _ IH]; intros N Hl; [by exists N|].
  destruct (ledger_other s1 s2 N Hstep Hl) as (N2 & ? & H2 & <- & <-). destruct (IH N2 H2) as (N3 & ? & H3 & -> & ->). exists N3. split_and!; [lia|done..].
Qed.

(** ** A turn of the thread *)

(** Numbering a batch. *)
Lemma controller_numbers b s size : (1 ≤ d_rollout_n cfg)%Z → dict_size IndexError b = inr size →
  ∃ td, controller_batch cfg false true false (d_rollout_n cfg) b s =
    Ret (AsTensorDict td) (with_sample_idx ((train_sample_idx s + Z.of_nat size) mod MAX_TRAIN_ID cfg)%Z (val_sample_idx s) s) ∧
    td_uid td = Some (train_requests cfg (train_sample_idx s) size).
Proof.
  intros Hn Hb. unfold controller_batch. rewrite (run_of_res _ size) by done.
  unfold get_train_sample_ids. mrun. fold (train_ids cfg (train_sample_idx s) size). cbn [andb negb].
  destruct (decide (1 < d_rollout_n cfg)%Z) as [H1|H1].
  - rewrite bool_decide_eq_true_2 by done. eexists. erewrite run_of_res; [done|].
    unfold parent_slots. apply set_parents_all. rewrite length_fmap. apply parent_slots_length. lia.
  - rewrite bool_decide_eq_false_2 by done. eexists. erewrite run_of_res by done. split; [done|]. cbn. rewrite bool_decide_eq_false_2 by done.
    unfold train_requests. assert (d_rollout_n cfg = 1%Z) as -> by lia. by rewrite request_ids_one.
Qed.

(** Dispatching it. *)
Lemma dispatch_run td ids s : td_uid td = Some ids →
  ∃ t', dispatch_batch cfg td s =
    Ret tt ((if bool_decide (T ≤ global_steps s + 1)%Z then with_stop true else id)
       (with_steps (global_steps s + 1) (with_dispatched (dispatched s ++ [Some td]) (with_requests t' s)))).
Proof.
  intros E. unfold dispatch_batch. rewrite (run_of_option _ _ ids) by done.
  destruct (add_requests_run ids (requests s)) as (t' & Et & _). exists t'.
  rewrite (run_bind _ _ s tt (with_requests t' s)) by (unfold register, on_requests, zoom; by rewrite Et). unfold put_data. mrun.
  cbn [with_steps with_dispatched with_requests global_steps dispatched]. by case_bool_decide.
Qed.

Context (beside : nat → ThreadPoint → DataProcessor → DataProcessor) (Hbeside : ∀ i p s, rtc other_step s (beside i p s)).
Context (Hn : (1 ≤ d_rollout_n cfg)%Z).

Lemma handle_stop_books i N s : ledger N s → ∃ N', ledger N' (final (handle_stop env cfg (beside i AtStop s))).
Proof.
  intros Hl. destruct (ledger_others _ _ N (Hbeside i AtStop s) Hl) as (N' & _ & Hl' & _). exists N'.
  unfold handle_stop. set (s2 := beside i AtStop s) in *. mrun. destruct (list_min (train_sizes env)) as [m|]; [|done]. rewrite (run_of_option _ _ m) by done.
  destruct (bool_decide (m = 0%Z)); [exact Hl'|]. rewrite (run_bind _ _ s2 tt s2) by done.
  case_bool_decide; [|eapply ledger_keeps; [|done]; apply open_keeps].
  destruct Hl' as [H1 H2 H3 H4 [H5 _]]. by split.
Qed.

(** A batch that was numbered while [N] samples had been, and is dispatched later. *)
Lemma dispatch_books td N size N' s : ledger N' s → N + size ≤ N' → (global_steps s < T)%Z →
  uids_of (dispatched s) `sublist_of` train_requests cfg 0 N → td_uid td = Some (train_requests cfg (Z.of_nat N mod MAX_TRAIN_ID cfg) size) →
  ∃ s', dispatch_batch cfg td s = Ret tt s' ∧ ledger N' s'.
Proof.
  intros [H1 H2 _ H4 [H5 H6]] HN Hlt Hu Htd. destruct (dispatch_run td _ s Htd) as (t' & ->). eexists. split; [done|].
  assert (uids_of (dispatched s ++ [Some td]) `sublist_of` train_requests cfg 0 N') as Huids.
  { etrans; [|by apply (train_requests_grow (N + size))]. rewrite uids_of_app, train_requests_app. apply sublist_app; [done|].
    unfold uids_of. rewrite bind_cons, app_nil_r, Htd. done. }
  case_bool_decide; split; cbn; rewrite ?length_app; cbn; try done; try lia; apply Forall_app; by split; [|repeat constructor].
Qed.

(** The [try] statement: the outcome and the books. *)
Lemma process_batch_books i N s : ledger N s → (global_steps s < T)%Z → ∃ N', ledger N' (final (process_batch env cfg (beside i) s)).
Proof.
  intros Hl Hlt. unfold process_batch, get_single_controller_batch. rewrite !run_assoc. pose proof (fetch_keeps s) as Hf.
  destruct (get_train_next env s) as [b s1|e s1] eqn:Eg; cbn [final] in Hf.
  2: { rewrite (run_bind_raise _ _ _ _ _ Eg). exists N. by apply (ledger_keeps N s). }
  rewrite (run_bind _ _ _ _ _ Eg). mrun.
  destruct (ledger_others _ _ N (Hbeside i AfterFetch s1)) as (N1 & HN1 & Hl1 & Ed1 & Es1); [by apply (ledger_keeps N s)|].
  assert (global_steps s1 = global_steps s) as E1 by (by injection Hf). set (s2 := beside i AfterFetch s1) in *.
  destruct (dict_size IndexError b) as [e|size] eqn:Eb.
  { exists N1. unfold controller_batch. by rewrite Eb. }
  destruct (controller_numbers b s2 size Hn Eb) as (td & Ec & Htd). rewrite (lg_next _ _ Hl1) in Htd. rewrite (run_bind _ _ _ _ _ Ec). mrun.
  pose proof (ledger_numbers N1 size s2 Hl1) as Hl3. set (s3 := with_sample_idx _ _ s2) in *.
  destruct (ledger_others _ _ _ (Hbeside i AfterNumbering s3) Hl3) as (N4 & HN4 & Hl4 & Ed4 & Es4).
  destruct (dispatch_books td N1 size N4 (beside i AfterNumbering s3)) as (s' & -> & Hs'); [done..| | |done|].
  - rewrite Es4. change (global_steps s3) with (global_steps s2). lia.
  - rewrite Ed4. apply (lg_uids _ _ Hl1).
  - by exists N4.
Qed.

Lemma process_turn_books i N s : ledger N s → (global_steps s < T)%Z → ∃ N', ledger N' (final (process_turn env cfg (beside i) s)).
Proof.
  intros Hl Hlt. destruct (process_batch_books i N s Hl Hlt) as (N' & Hl'). unfold process_turn.
  destruct (process_batch env cfg (beside i) s) as [[] s'|[] s']; cbn [final] in Hl'; try by exists N'. by apply (handle_stop_books i N').
Qed.

Lemma process_loop_books fuel N s s' : ledger N s → process_loop env cfg beside fuel s = Ret true s' →
  ∃ N', ledger N' s' ∧ stop_data_process s' = true.
Proof.
  revert N s. induction fuel as [|fuel IH]; intros N s Hl; [done|]. cbn [process_loop]. mrun.
  destruct (ledger_others _ _ N (Hbeside fuel LoopTop s) Hl) as (N1 & _ & Hl1 & _). set (s1 := beside fuel LoopTop s) in *.
  destruct (stop_data_process s1) eqn:Estop; [intros [= <-]; by exists N1|].
  destruct (process_turn_books fuel N1 s1 Hl1) as (N2 & Hl2).
  { destruct (lg_bound _ _ Hl1) as [Hle Heq]. destruct (decide (global_steps s1 = T)) as [E|]; [|lia]. specialize (Heq E). congruence. }
  unfold mbind, M_bind. destruct (process_turn env cfg (beside fuel) s1) as [u s2|]; [|done]. by apply (IH N2 s2).
Qed.

(** The thread among the other methods, when it ends. *)
Lemma process_data_books vals reqs fuel s' : (1 ≤ T)%Z →
  process_data env cfg beside fuel (new_processor (length (train_sizes env)) vals reqs) = Ret true s' →
  ∃ tds N, dispatched s' = (Some <$> tds) ++ [None] ∧ global_steps s' = Z.of_nat (length tds) ∧ length tds ≤ Z.to_nat T ∧
    stop_data_process s' = true ∧ (tds ≫= λ td, default [] (td_uid td)) `sublist_of` train_requests cfg 0 N ∧
    train_sample_idx s' = (Z.of_nat N mod MAX_TRAIN_ID cfg)%Z.
Proof.
  intros HT. unfold process_data. rewrite (run_bind _ _ _ _ _ (open_train_run env _)). unfold mbind at 1, M_bind at 1.
  destruct (process_loop env cfg beside fuel (reopened env _)) as [[] s1|] eqn:E; [|done..]. intros [= <-].
  destruct (process_loop_books fuel 0 (reopened env (new_processor (length (train_sizes env)) vals reqs)) s1) as (N & [H1 H2 H3 H4 [H5 _]] & Hstop).
  { split; cbn; [done..|]. split; lia. } { exact E. }
  assert (∃ tds, dispatched s1 = Some <$> tds) as [tds Hd].
  { clear -H2. induction H2 as [|? l [td ->] _ [tds ->]]; [by exists []|]. by exists (td :: tds). }
  exists tds, N. rewrite Hd, length_fmap in H1. split_and!; [cbn; by rewrite Hd|done|lia|done| |done].
  rewrite Hd in H3. etrans; [|done]. clear. unfold uids_of. induction tds as [|td tds IH]; [done|]. by rewrite fmap_cons, !bind_cons; apply sublist_app.
Qed.
End thread.
