(* ===== verification/DataRuns.v ===== *)
(** * Data processor: validation passes and the background thread

    Calling [get_val_next] as often as there are validation batches is one pass
    over the loaders in order, and the next call starts the next pass.  The
    background thread, alone, dispatches exactly [total_training_steps] batches,
    whose requests are the children of consecutive samples, and then the shutdown
    signal. *)

From S2P Require Import Prelude.
From S2P Require Import StalenessBuffer.
From S2P Require Import RequestStatusTracker.
From S2P Require Import PyFloat.
From S2P Require Import PyData.
From S2P Require Import DataProcessor.
From S2P Require Import DataMerge.
From S2P Require Import DataIds.
From S2P Require Import DataSampling.
From S2P Require Import DataThread.

#[local] Open Scope nat_scope.

(** ** Validation *)

Section validation.
Context {ops : ColumnOps} {LState : Type} (env : Env (LState := LState)).
Abbreviation BatchDict := (list (string * Col)).
Abbreviation DataProcessor := (DataProcessor (LState := LState)).
Implicit Types (s : DataProcessor).

Abbreviation nv := (length (val_sizes env)).

(** There is a validation loader and none is empty. *)
Class ValLaws : Prop := {
  vl_some : 0 < nv;
  vl_batch i k : i < nv → Z.of_nat (length (val_epoch env i k)) = default 0%Z (val_sizes env !! i);
  vl_pos i k : i < nv → val_epoch env i k ≠ [];
}.
Context `{!ValLaws}.

(** The state in pass [p] with iterator [it] left of loader [i]: the loaders
    before it have been opened for the next pass already. *)
Definition val_at (p i : nat) (it : list BatchDict) s : DataProcessor :=
  with_val (Some (imap (λ j _, if decide (j < i) then val_epoch env j (S p) else if decide (j = i) then it else val_epoch env j p) (val_sizes env)))
    (imap (λ j _, if decide (j < i) then S (S p) else S p) (val_sizes env)) i s.

(** One turn of the loop on any state. *)
Lemma val_loop_take s fuel its i b it : val_iters s = Some its → val_dataloader_idx s = i → its !! i = Some (b :: it) →
  val_loop env (S fuel) s = Ret (Some (Some b)) (with_val (Some (<[i := it]> its)) (val_opened s) i s).
Proof. intros Hi Hd E. cbn [val_loop]. mrun. rewrite Hi, Hd. cbn [from_option id]. by rewrite E. Qed.

Lemma val_loop_skip s fuel its i : val_iters s = Some its → val_dataloader_idx s = i → its !! i = Some [] →
  val_loop env (S fuel) s = val_loop env fuel
    (with_val (Some (<[i := val_epoch env i (default 0 (val_opened s !! i))]> its)) (<[i := S (default 0 (val_opened s !! i))]> (val_opened s))
      (S i mod length its) s).
Proof. intros Hi Hd E. cbn [val_loop]. mrun. rewrite Hi, Hd. cbn [from_option id]. by rewrite E. Qed.

Lemma get_val_next_open s fuel its : val_iters s = Some its → get_val_next env fuel s = val_loop env fuel s.
Proof. intros E. unfold get_val_next. mrun. rewrite E. by mrun. Qed.

Definition iters_at p i it : list (list BatchDict) :=
  imap (λ j _, if decide (j < i) then val_epoch env j (S p) else if decide (j = i) then it else val_epoch env j p) (val_sizes env).
Definition opened_at p i : list nat := imap (λ j (_ : Z), if decide (j < i) then S (S p) else S p) (val_sizes env).

Lemma iters_at_lookup p i it : i < nv → iters_at p i it !! i = Some it.
Proof.
  intros Hi. unfold iters_at. rewrite list_lookup_imap. destruct (lookup_lt_is_Some_2 _ _ Hi) as [z ->]. cbn.
  rewrite decide_False by lia. by rewrite decide_True.
Qed.

Lemma opened_at_lookup p i : i < nv → opened_at p i !! i = Some (S p).
Proof.
  intros Hi. unfold opened_at. rewrite list_lookup_imap. destruct (lookup_lt_is_Some_2 _ _ Hi) as [z ->]. cbn. by rewrite decide_False by lia.
Qed.

Lemma insert_imap {A} (f : nat → Z → A) (l : list Z) i x : <[i := x]> (imap f l) = imap (λ j z, if decide (j = i) then x else f j z) l.
Proof.
  apply list_eq. intros j. rewrite list_lookup_insert, length_imap, !list_lookup_imap.
  destruct (l !! j) as [z|] eqn:Ej; cbn.
  - apply lookup_lt_Some in Ej. by repeat case_decide; try lia; subst.
  - apply lookup_ge_None in Ej. rewrite decide_False; [done|]. lia.
Qed.

(** Taking a batch of the current loader. *)
Lemma val_take p i b it s fuel : i < nv → get_val_next env (S fuel) (val_at p i (b :: it) s) = Ret (Some (Some b)) (val_at p i it s).
Proof.
  intros Hi. rewrite (get_val_next_open _ _ (iters_at p i (b :: it))) by done.
  rewrite (val_loop_take _ _ (iters_at p i (b :: it)) i b it); [|done|done|by apply iters_at_lookup].
  unfold val_at, iters_at, with_val. cbn. f_equal. f_equal. f_equal. rewrite insert_imap. apply imap_ext. intros j z _. cbn. repeat case_decide; done || lia.
Qed.

(** Moving on when it is exhausted: to the next loader, or to the next pass. *)
Definition next_pos (p i : nat) : nat * nat := if decide (S i = nv) then (S p, 0) else (p, S i).

Lemma next_pos_lt p i : i < nv → (next_pos p i).2 < nv.
Proof. intros Hi. unfold next_pos. case_decide; cbn; lia. Qed.

Lemma skip_state p i s : i < nv →
  with_val (Some (<[i := val_epoch env i (S p)]> (iters_at p i []))) (<[i := S (S p)]> (opened_at p i)) (S i mod length (iters_at p i [])) (val_at p i [] s)
  = let q := next_pos p i in val_at q.1 q.2 (val_epoch env q.2 q.1) s.
Proof.
  intros Hi. unfold val_at, iters_at, opened_at, next_pos, with_val. rewrite length_imap, !insert_imap.
  assert (S i mod nv = if decide (S i = nv) then 0 else S i) as ->
    by (case_decide as E; [rewrite E; apply Nat.Div0.mod_same|apply Nat.mod_small; lia]).
  case_decide; cbn [fst snd]; f_equal; try apply (f_equal Some); apply imap_ext; intros j z Hj%lookup_lt_Some; cbn; repeat case_decide; subst; done || lia.
Qed.

Lemma val_move p i s fuel : i < nv → 2 ≤ fuel →
  get_val_next env fuel (val_at p i [] s) = let q := next_pos p i in get_val_next env fuel (val_at q.1 q.2 (val_epoch env q.2 q.1) s).
Proof.
  intros Hi Hf. destruct fuel as [|[|fuel]]; [lia..|]. cbn zeta. pose proof (next_pos_lt p i Hi) as Hq.
  rewrite (get_val_next_open _ _ (iters_at p i [])) by done.
  rewrite (val_loop_skip _ _ (iters_at p i []) i); [|done|done|by apply iters_at_lookup].
  change (val_opened (val_at p i [] s)) with (opened_at p i). rewrite opened_at_lookup by lia. cbn [from_option id].
  rewrite skip_state by done. cbn zeta. destruct (next_pos p i) as [p' i']; cbn [fst snd] in *.
  destruct (val_epoch env i' p') as [|b it] eqn:E; [by apply vl_pos in E|]. rewrite val_take by lia.
  by erewrite <-get_val_next_open, val_take.
Qed.

(** *** Sequences of calls *)

Fixpoint val_calls (fuel m : nat) : M DataProcessor (list (option (option BatchDict))) :=
  match m with
  | O => mret []
  | S m => b ← get_val_next env fuel; bs ← val_calls fuel m; mret (b :: bs)
  end.

Lemma val_calls_add fuel m k s bs s1 bs' s' : val_calls fuel m s = Ret bs s1 → val_calls fuel k s1 = Ret bs' s' →
  val_calls fuel (m + k) s = Ret (bs ++ bs') s'.
Proof.
  revert s bs. induction m as [|m IH]; intros s bs; [by intros [= <- <-]|]. cbn [val_calls Nat.add]. unfold mbind, M_bind.
  destruct (get_val_next env fuel s) as [b s2|]; [|done]. destruct (val_calls fuel m s2) as [bs2 s3|] eqn:E; [|done].
  intros [= <- <-] E'. by rewrite (IH _ _ E E').
Qed.

Definition given (l : list BatchDict) : list (option (option BatchDict)) := (λ b, Some (Some b)) <$> l.

Lemma val_calls_loader p i it s fuel : i < nv → 1 ≤ fuel → val_calls fuel (length it) (val_at p i it s) = Ret (given it) (val_at p i [] s).
Proof.
  intros Hi Hf. destruct fuel as [|fuel]; [lia|]. induction it as [|b it IH]; [done|]. cbn [length val_calls].
  rewrite (run_bind _ _ _ _ _ (val_take p i b it s fuel Hi)). by rewrite (run_bind _ _ _ _ _ IH).
Qed.

(** Calls that begin at the next position when the current loader is exhausted. *)
Lemma val_calls_move p i s fuel m : i < nv → 2 ≤ fuel → 0 < m →
  val_calls fuel m (val_at p i [] s) = let q := next_pos p i in val_calls fuel m (val_at q.1 q.2 (val_epoch env q.2 q.1) s).
Proof. intros Hi Hf Hm. destruct m as [|m]; [lia|]. cbn [val_calls]. unfold mbind, M_bind. by rewrite val_move. Qed.

(** The batches of one pass from loader [i] on. *)
Definition pass_from (p i : nat) : list BatchDict := seq i (nv - i) ≫= λ j, val_epoch env j p.

Lemma val_calls_pass p d i s fuel : i + S d = nv → 2 ≤ fuel →
  val_calls fuel (length (pass_from p i)) (val_at p i (val_epoch env i p) s) = Ret (given (pass_from p i)) (val_at p (nv - 1) [] s).
Proof.
  revert i. induction d as [|d IH]; intros i Hi Hf; unfold pass_from.
  - replace (nv - i) with 1 by lia. cbn [seq]. rewrite bind_cons, app_nil_r. replace (nv - 1) with i by lia. apply val_calls_loader; lia.
  - replace (nv - i) with (S (nv - S i)) by lia. cbn [seq]. rewrite bind_cons, length_app. fold (pass_from p (S i)).
    unfold given. rewrite fmap_app. eapply val_calls_add; [apply val_calls_loader; lia|].
    rewrite val_calls_move; [|lia|done|].
    + unfold next_pos. rewrite decide_False by lia. cbn [fst snd]. apply IH; [lia|done].
    + unfold pass_from. replace (nv - S i) with (S (nv - S (S i))) by lia. cbn [seq]. rewrite bind_cons, length_app.
      destruct (val_epoch env (S i) p) eqn:E; [apply vl_pos in E; [done|lia]|cbn; lia].
Qed.

Definition pass (p : nat) : list BatchDict := pass_from p 0.

Lemma pass_pos p : 0 < length (pass p).
Proof.
  unfold pass, pass_from. pose proof vl_some. destruct nv as [|n] eqn:E; [lia|]. cbn [Nat.sub seq]. rewrite bind_cons, length_app.
  destruct (val_epoch env 0 p) eqn:Ev; [apply vl_pos in Ev; [done|lia]|cbn; lia].
Qed.

Lemma pass_length p : Z.of_nat (length (pass p)) = get_val_batch_num env.
Proof.
  unfold pass, pass_from, get_val_batch_num. rewrite Nat.sub_0_r.
  assert (∀ l i, (∀ j z, l !! j = Some z → Z.of_nat (length (val_epoch env (i + j) p)) = z) →
    Z.of_nat (length (seq i (length l) ≫= λ j, val_epoch env j p)) = foldr Z.add 0%Z l) as Hsum.
  { induction l as [|z l IH]; intros i Hl; [done|]. cbn [length seq foldr]. rewrite bind_cons, length_app, Nat2Z.inj_add.
    f_equal; [rewrite <-(Hl 0 z eq_refl); by rewrite Nat.add_0_r|]. apply IH. intros j z' Hj. rewrite Nat.add_succ_comm. by apply Hl. }
  apply Hsum. intros j z Hj. cbn. rewrite vl_batch by (by eapply lookup_lt_Some). by rewrite Hj.
Qed.

Lemma open_val_run s : val_opened s = replicate nv 0 → open_val env s = Ret tt (val_at 0 0 (val_epoch env 0 0) s).
Proof.
  intros Ho. unfold open_val, modify, val_at, with_val. rewrite Ho. f_equal. f_equal; [f_equal|]; apply list_eq; intros j.
  - rewrite list_lookup_fmap, list_lookup_imap. destruct (val_sizes env !! j) as [z|] eqn:Ej.
    + apply lookup_lt_Some in Ej. rewrite lookup_seq_lt by done. cbn. rewrite lookup_replicate_2 by done. cbn. repeat case_decide; subst; done || lia.
    + apply lookup_ge_None in Ej. by rewrite lookup_seq_ge.
  - rewrite list_lookup_fmap, list_lookup_imap. destruct (val_sizes env !! j) as [z|] eqn:Ej.
    + apply lookup_lt_Some in Ej. by rewrite lookup_replicate_2.
    + apply lookup_ge_None in Ej. by rewrite lookup_ge_None_2 by (by rewrite length_replicate).
Qed.

(** Passes over the validation data: [P] times [get_val_batch_num] calls from a
    new processor return the batches of all loaders, in order, pass after pass;
    no call raises [StopIteration]. *)
Theorem val_passes_exact s P fuel : val_iters s = None → val_opened s = replicate nv 0 → 2 ≤ fuel →
  result (val_calls fuel (P * Z.to_nat (get_val_batch_num env)) s) = inr (given (seq 0 P ≫= pass)).
Proof.
  intros Hi Ho Hf. destruct P as [|P]; [done|].
  assert (∀ P p, val_calls fuel (length (seq p (S P) ≫= pass)) (val_at p 0 (val_epoch env 0 p) s)
    = Ret (given (seq p (S P) ≫= pass)) (val_at (p + P) (nv - 1) [] s)) as Hrun.
  { pose proof vl_some as Hnv. clear P. induction P as [|P IH]; intros p.
    - cbn [seq]. rewrite bind_cons, app_nil_r, Nat.add_0_r. apply (val_calls_pass p (nv - 1)); [lia|done].
    - change (seq p (S (S P))) with (p :: seq (S p) (S P)). rewrite bind_cons, length_app. unfold given. rewrite fmap_app.
      eapply val_calls_add; [apply (val_calls_pass p (nv - 1)); [lia|done]|]. rewrite val_calls_move; [|lia|done|].
      + unfold next_pos. rewrite decide_True by lia. cbn [fst snd]. rewrite <-Nat.add_succ_comm. apply IH.
      + cbn [seq]. rewrite bind_cons, length_app. pose proof (pass_pos (S p)). lia. }
  assert (S P * Z.to_nat (get_val_batch_num env) = length (seq 0 (S P) ≫= pass)) as ->.
  { generalize 0 (S P). intros p n. revert p. induction n as [|n IH]; intros p; [done|]. cbn [seq Nat.mul]. rewrite bind_cons, length_app, <-IH.
    f_equal. rewrite <-(pass_length p). lia. }
  specialize (Hrun P 0). destruct (length (seq 0 (S P) ≫= pass)) as [|m] eqn:El.
  { exfalso. cbn [seq] in El. rewrite bind_cons, length_app in El. pose proof (pass_pos 0). lia. }
  assert (get_val_next env fuel s = get_val_next env fuel (val_at 0 0 (val_epoch env 0 0) s)) as E.
  { unfold get_val_next. mrun. rewrite Hi. change (val_iters (val_at 0 0 (val_epoch env 0 0) s)) with (Some (iters_at 0 0 (val_epoch env 0 0))).
    mrun. rewrite (run_bind _ _ s tt (val_at 0 0 (val_epoch env 0 0) s)); [done|by apply open_val_run]. }
  cbn [val_calls] in Hrun |- *. unfold mbind, M_bind in Hrun |- *. by rewrite E, Hrun.
Qed.
End validation.

(** ** The background thread *)

Section thread.
Context {ops : ColumnOps} {laws : ColumnLaws} {LState : Type} (env : Env (LState := LState)) (cfg : DataConfig).
Context (shapes : list (string → option Col)) `{!EnvLaws env shapes}.
Abbreviation BatchDict := (list (string * Col)).
Abbreviation DataProcessor := (DataProcessor (LState := LState)).
Implicit Types (s : DataProcessor).
Abbreviation nt := (length (train_sizes env)).

(** A loader that starts anew yields as many batches as its length says; the
    shortest one has [m] batches. *)
Class SizeLaws (m : nat) : Prop := {
  sl_size i k z : train_sizes env !! i = Some z → Z.of_nat (length (train_epoch env i k None)) = z;
  sl_min : list_min (train_sizes env) = Some (Z.of_nat m);
  sl_pos : 0 < m;
}.
Context (m : nat) `{!SizeLaws m}.

(** [r] batches of the epoch have been taken. *)
Record at_epoch (r : nat) s : Prop := {
  ae_iters : ∃ its, train_iters s = Some its ∧ length its = nt ∧
    ∀ i it z, its !! i = Some it → train_sizes env !! i = Some z → Z.of_nat (length it + r) = z;
  ae_loaded : train_loaded s = replicate nt None;
  ae_ok : iters_ok shapes s;
  ae_le : r ≤ m;
}.

Lemma reopened_at s : train_loaded s = replicate nt None → at_epoch 0 (reopened env s).
Proof.
  intros Hl. split; [|done|by eapply reopened_ok|lia]. exists (fresh_iters env s). split; [done|].
  unfold fresh_iters. rewrite length_fmap, length_seq. split; [done|]. intros i it z Hi Hz. rewrite list_lookup_fmap in Hi.
  apply fmap_Some in Hi as (j & [-> Hj]%lookup_seq & ->). rewrite Hl, lookup_replicate_2 by done. rewrite Nat.add_0_r. by apply sl_size.
Qed.

Lemma at_epoch_live r s : at_epoch r s → started env s = s ∧ train_iters s = Some (live env s).
Proof. intros [(its & E & _) _ _ _]. unfold started, live. by rewrite E. Qed.

Lemma min_size i z : train_sizes env !! i = Some z → (Z.of_nat m ≤ z)%Z.
Proof. intros Hz. apply (list_min_Some (train_sizes env) (Z.of_nat m)); [apply sl_min|by eapply list_elem_of_lookup_2]. Qed.

Lemma fetch_batch r s : at_epoch r s → r < m →
  ∃ b s', get_train_next env s = Ret b s' ∧ shaped (joint shapes) b ∧ at_epoch (S r) s' ∧ fetched_from s s'.
Proof.
  intros Hs Hr. destruct (at_epoch_live r s Hs) as [Est Eit]. destruct Hs as [(its & E & Hlen & Hits) Hld Hok _].
  rewrite E in Eit. injection Eit as Eit. assert (Forall (.≠ []) (live env s)) as Hl.
  { rewrite <-Eit. apply Forall_lookup. intros i it Hi ->. destruct (lookup_lt_is_Some_2 (train_sizes env) i) as [z Hz].
    { rewrite <-Hlen. by eapply lookup_lt_Some. } pose proof (Hits i [] z Hi Hz). pose proof (min_size i z Hz). cbn in *. lia. }
  destruct (next_all_some _ Hl) as (nexts & _ & El).
  destruct (get_train_next_batch env shapes s nexts Hok El) as (b & dr & _ & Eg & _ & _ & Hb & Hi'). rewrite Est in Eg.
  eexists b, _. split_and!; [exact Eg|done| |by exists (Some nexts.*2), (train_opened s), (train_loaded s), dr].
  split; [|done|by intros its' [= <-]|lia]. exists nexts.*2. split; [done|].
  rewrite <-Eit in El. rewrite El, !length_fmap in Hlen. rewrite length_fmap. split; [done|]. intros i it z Hi Hz.
  rewrite list_lookup_fmap in Hi. apply fmap_Some in Hi as ([b' it'] & Hi & ->).
  rewrite <-(Hits i (b' :: it') z); [cbn; lia| |done]. by rewrite El, list_lookup_fmap, Hi.
Qed.

Lemma fetch_stop s : at_epoch m s → get_train_next env s = Raise StopIteration (reopened env s).
Proof.
  intros Hs. destruct (at_epoch_live m s Hs) as [Est Eit]. destruct Hs as [(its & E & Hlen & Hits) Hld Hok _].
  rewrite <-Est at 2. apply get_train_next_stop. rewrite E in Eit. injection Eit as <-. intros Hl.
  pose proof sl_min as (Hin & _)%list_min_Some. apply list_elem_of_lookup in Hin as [i Hi].
  destruct (lookup_lt_is_Some_2 its i) as [it Hit]; [rewrite Hlen; by eapply lookup_lt_Some|].
  pose proof (Hits i it _ Hit Hi). eapply Forall_lookup_1 in Hl; [|exact Hit]. destruct it; [done|cbn in *; lia].
Qed.

(** *** One batch *)

(** The invariant of the thread after [k] batches with [n] samples. *)
Record thread_ok (e r k n : nat) s : Prop := {
  th_epoch : at_epoch r s;
  th_steps : global_steps s = Z.of_nat k;
  th_count : k = e * m + r;
  th_length : length (dispatched s) = k;
  th_some : Forall is_Some (dispatched s);
  th_uids : uids_of (dispatched s) = train_requests cfg 0 n;
  th_next : train_sample_idx s = (Z.of_nat n mod MAX_TRAIN_ID cfg)%Z;
}.

Context (Hn : (1 ≤ d_rollout_n cfg)%Z) (Hmax : (0 < MAX_TRAIN_ID cfg)%Z).
Abbreviation T := (d_total_training_steps cfg).

(** Nothing runs beside the thread. *)
Definition alone (i : nat) (p : ThreadPoint) s : DataProcessor := s.

Lemma process_batch_run e r k n s : thread_ok e r k n s → r < m → stop_data_process s = false →
  ∃ n' s', process_turn env cfg (alone 0) s = Ret tt s' ∧ thread_ok e (S r) (S k) n' s' ∧ stop_data_process s' = bool_decide (T ≤ Z.of_nat (S k))%Z ∧ n < n'.
Proof.
  intros [He Hst Hk Hlen Hsome Hu Hnx] Hr Hstop. destruct (fetch_batch r s He Hr) as (b & s1 & Eg & Hb & He1 & Hf).
  assert (train_sample_idx s1 = train_sample_idx s ∧ global_steps s1 = global_steps s ∧ dispatched s1 = dispatched s ∧ stop_data_process s1 = false)
    as (E1 & E2 & E3 & E4) by (destruct Hf as (? & ? & ? & ? & ->); done).
  destruct (controller_numbers cfg b s1 (dsize b) Hn) as (td & Ec & Htd); [by eapply dict_size_ok|]. set (s2 := with_sample_idx _ _ s1) in Ec.
  assert (∃ s', process_batch env cfg (alone 0) s = Ret tt s' ∧ at_epoch (S r) s' ∧ global_steps s' = (global_steps s + 1)%Z ∧
    dispatched s' = dispatched s ++ [Some td] ∧ train_sample_idx s' = train_sample_idx s2 ∧
    stop_data_process s' = bool_decide (T ≤ global_steps s + 1)%Z) as (s' & Ep & He' & Hs' & Hd' & Hx' & Hstop').
  { unfold process_batch, get_single_controller_batch. rewrite !run_assoc, (run_bind _ _ _ _ _ Eg). mrun. change (alone 0 AfterFetch s1) with s1. rewrite (run_bind _ _ _ _ _ Ec). mrun.
    change (alone 0 AfterNumbering s2) with s2. destruct (dispatch_run cfg td _ s2 Htd) as (t' & ->).
    cbn [with_sample_idx s2 global_steps dispatched]. rewrite E2, E3.
    case_bool_decide; eexists; (split; [done|]); split_and!; try done; (split; [apply He1..]). }
  exists (n + dsize b), s'. split_and!; [unfold process_turn; by rewrite Ep| |rewrite Hstop', Hst; apply bool_decide_ext; lia|pose proof (sh_pos _ _ Hb); lia].
  split; [done|lia|lia|rewrite Hd', length_app; cbn; lia|rewrite Hd'; apply Forall_app; by split; [|repeat constructor]| |].
  - rewrite Hd'. unfold uids_of. rewrite bind_app. fold (uids_of (dispatched s)). rewrite Hu. rewrite bind_cons, app_nil_r. rewrite Htd. cbn [from_option id].
    rewrite train_requests_app, E1, Hnx. f_equal.
  - rewrite Hx'. cbn. rewrite E1, Hnx, Zplus_mod_idemp_l. f_equal. lia.
Qed.
(** The end of an epoch that is not the last one. *)
Lemma process_stop_run e k n s : thread_ok e m k n s → (Z.of_nat k < T)%Z → (T ≤ Z.of_nat m * d_total_epochs cfg)%Z →
  stop_data_process s = false →
  ∃ s', process_turn env cfg (alone 0) s = Ret tt s' ∧ thread_ok (S e) 0 k n s' ∧ stop_data_process s' = false.
Proof.
  intros [He Hst Hk Hlen Hsome Hu Hnx] Hkt Ht Hstop. pose proof sl_pos as Hm. exists (reopened env (reopened env s)).
  assert (process_batch env cfg (alone 0) s = Raise StopIteration (reopened env s)) as Ep.
  { unfold process_batch, get_single_controller_batch. rewrite !run_assoc. by rewrite (run_bind_raise _ _ _ _ _ (fetch_stop s He)). }
  split_and!; [|split; try done; [by apply reopened_at|lia]|done]. unfold process_turn. rewrite Ep. change (alone 0 AtStop (reopened env s)) with (reopened env s). unfold handle_stop. mrun.
  rewrite (run_of_option _ _ (Z.of_nat m)) by apply sl_min. rewrite (bool_decide_eq_false_2 (Z.of_nat m = 0%Z)) by lia. mrun.
  change (global_steps (reopened env s)) with (global_steps s). rewrite Hst, bool_decide_eq_false_2; [done|].
  assert (Z.of_nat k / Z.of_nat m = Z.of_nat (S e))%Z as -> by (rewrite Hk; symmetry; apply Z.div_unique_exact; lia). nia.
Qed.

Lemma process_loop_run fuel e r k n s : thread_ok e r k n s → (Z.of_nat k < T)%Z → (T ≤ Z.of_nat m * d_total_epochs cfg)%Z →
  stop_data_process s = false → 2 * (Z.to_nat T - k) + (if decide (r = m) then 2 else 1) ≤ fuel →
  ∃ e' r' n' s', process_loop env cfg alone fuel s = Ret true s' ∧ thread_ok e' r' (Z.to_nat T) n' s'.
Proof.
  revert e r k n s. induction fuel as [|fuel IH]; intros e r k n s Hs Hk Ht Hstop Hfuel; [case_decide; lia|].
  cbn [process_loop]. mrun. change (alone fuel LoopTop s) with s. change (alone fuel) with (alone 0). rewrite Hstop. destruct (decide (r = m)) as [->|Hr].
  - destruct (process_stop_run e k n s Hs Hk Ht Hstop) as (s1 & E & Hs1 & Hstop1). rewrite (run_bind _ _ _ _ _ E).
    apply (IH (S e) 0 k n s1 Hs1 Hk Ht Hstop1). pose proof sl_pos. rewrite decide_False by lia. lia.
  - assert (r < m) as Hlt by (destruct Hs as [[] _ _ _ _ _ _]; lia).
    destruct (process_batch_run e r k n s Hs Hlt Hstop) as (n1 & s1 & E & Hs1 & Hstop1 & _). rewrite (run_bind _ _ _ _ _ E).
    case_bool_decide as Hend.
    + destruct fuel as [|fuel]; [lia|]. cbn [process_loop]. mrun. change (alone fuel LoopTop s1) with s1. rewrite Hstop1. exists e, (S r), n1, s1. split; [done|].
      by replace (Z.to_nat T) with (S k) by lia.
    + apply (IH e (S r) (S k) n1 s1 Hs1); [lia|done|done|]. case_decide; lia.
Qed.

(** Alone, the thread of a new processor ends. *)
Lemma process_data_alone vals reqs fuel : (1 ≤ T ≤ Z.of_nat m * d_total_epochs cfg)%Z → 2 * Z.to_nat T + 1 ≤ fuel →
  ∃ tds n s', process_data env cfg alone fuel (new_processor nt vals reqs) = Ret true s' ∧
    dispatched s' = (Some <$> tds) ++ [None] ∧ length tds = Z.to_nat T ∧ global_steps s' = T ∧
    (tds ≫= λ td, default [] (td_uid td)) = train_requests cfg 0 n.
Proof.
  intros HT Hfuel. unfold process_data. rewrite (run_bind _ _ _ _ _ (open_train_run env _)).
  destruct (process_loop_run fuel 0 0 0 0 (reopened env (new_processor nt vals reqs))) as (e & r & n & s' & E & [He Hst Hk Hlen Hsome Hu Hnx]).
  - split; try done. by apply reopened_at.
  - lia.
  - lia.
  - done.
  - pose proof sl_pos. rewrite decide_False by lia. lia.
  - rewrite (run_bind _ _ _ _ _ E). assert (∃ tds, dispatched s' = Some <$> tds) as [tds Hd].
    { clear -Hsome. induction Hsome as [|? l [td ->] _ [tds ->]]; [by exists []|]. by exists (td :: tds). }
    exists tds, n, (with_dispatched (dispatched s' ++ [None]) s'). split_and!; [done|cbn; by rewrite Hd|by rewrite <-Hlen, Hd, length_fmap|cbn; lia|].
    rewrite <-Hu, Hd. clear. unfold uids_of. induction tds as [|td tds IH]; [done|]. by rewrite fmap_cons, !bind_cons, IH.
Qed.

(** C30: The background thread [_process_data] of a new processor, with at least one
    batch per epoch and a step count within the epochs.  With nothing beside it, it
    ends, having dispatched exactly [total_training_steps] batches and then the
    shutdown signal, and the requests of the batches are, in order, the children of
    the samples [0, 1, 2, ...].  Beside refills, validation, checkpoints and stop
    requests, interleaved in any way between its critical sections, a thread that
    ends has dispatched at most that many batches, one per counted step, and the
    shutdown signal once, last; the requests of its batches are then a subsequence
    of those of the samples [0, 1, 2, ...], the rest being numbered by the refills.
    (The rows of its batches are not pinned there: refills draw from the same
    loaders, and may even see a batch that is dispatched again.) *)
Theorem process_data_exact vals reqs fuel : (1 ≤ T ≤ Z.of_nat m * d_total_epochs cfg)%Z → 2 * Z.to_nat T + 1 ≤ fuel →
  (∃ tds n s', process_data env cfg alone fuel (new_processor nt vals reqs) = Ret true s' ∧
    dispatched s' = (Some <$> tds) ++ [None] ∧ length tds = Z.to_nat T ∧ global_steps s' = T ∧
    (tds ≫= λ td, default [] (td_uid td)) = train_requests cfg 0 n) ∧
  ∀ beside fuel' s', (∀ i p s, rtc (other_step env cfg) s (beside i p s)) →
    process_data env cfg beside fuel' (new_processor nt vals reqs) = Ret true s' →
    ∃ tds n, dispatched s' = (Some <$> tds) ++ [None] ∧ global_steps s' = Z.of_nat (length tds) ∧ length tds ≤ Z.to_nat T ∧
      stop_data_process s' = true ∧ (tds ≫= λ td, default [] (td_uid td)) `sublist_of` train_requests cfg 0 n ∧
      train_sample_idx s' = (Z.of_nat n mod MAX_TRAIN_ID cfg)%Z.
Proof.
  intros HT Hfuel. split; [by apply process_data_alone|]. intros beside fuel' s' Hb. apply (process_data_books env cfg beside Hb Hn). lia.
Qed.
End thread.
