(* ===== verification/DataChecks.v ===== *)
(** * Data processor: checkpoints, tags and concrete runs

    The dataloader checkpoint round trip, what resuming really does, the tags of a
    batch that is not repeated, the shares of a batch, and runs on columns made
    of lists, which also show that the hypotheses of the other files can hold. *)

From Stdlib Require Import SpecFloat.
From S2P Require Import Prelude.
From S2P Require Import StalenessBuffer.
From S2P Require Import RequestStatusTracker.
From S2P Require Import PyFloat.
From S2P Require Import PyData.
From S2P Require Import DataProcessor.
From S2P Require Import DataMerge.
From S2P Require Import DataIds.
From S2P Require Import DataSampling.
From S2P Require Import DataThread.
From S2P Require Import DataRuns.

#[local] Open Scope nat_scope.

(** ** Shares of a batch *)

Lemma foldr_add_acc (l : list Z) x : foldr Z.add x l = (foldr Z.add 0%Z l + x)%Z.
Proof. induction l as [|y l IH]; cbn; lia. Qed.

(** The batch sizes of the datasets add up to the batch size. *)
Theorem train_batch_sizes_sum total ratios sizes : train_batch_sizes total ratios = inr sizes →
  foldr Z.add 0%Z sizes = total ∧ length sizes = length ratios.
Proof.
  unfold train_batch_sizes. destruct (shares total ratios) as [|l] eqn:E; [done|].
  assert (length l = length ratios) as Hl by (symmetry; eapply Forall2_length, map_res_Forall2, E).
  destruct (decide (l = [])) as [->|Hne]; [done|]. intros H.
  assert (sizes = removelast l ++ [total - foldr Z.add 0 (removelast l)])%Z as -> by (destruct l; [done|by injection H as <-]).
  destruct (exists_last Hne) as (l' & z & ->). rewrite removelast_last. rewrite <-Hl, foldr_app, !length_app. cbn.
  rewrite foldr_add_acc. split; [lia|done].
Qed.

(** A dataset whose share of the batch rounds to nothing stops the start-up. *)
Example small_share_raises :
  oversample_ratios 10 [ratio 19 20; ratio 1 20] [1000%Z; 50%Z] = inl ZeroDivisionError.
Proof. vm_compute. reflexivity. Qed.

(** ** Tags of a batch that is not repeated *)

Lemma set_parents_short tags k ps : length tags < k + length ps → k ≤ length tags →
  set_parents tags (imap (λ i p, (k + i, p)) ps) = inl IndexError.
Proof.
  revert tags k. induction ps as [|p ps IH]; intros tags k Hl Hk; [cbn in Hl; lia|]. cbn [imap]. cbn [set_parents].
  rewrite Nat.add_0_r. unfold set_parent. destruct (tags !! k) as [t|] eqn:E; [|done]. apply lookup_lt_Some in E.
  rewrite <-(IH (<[k := mkDTag (dtag_uid t) (dtag_running t) (Some p)]> tags) (S k)); rewrite ?length_insert; [|cbn in Hl; lia|lia].
  f_equal. apply imap_ext. intros i q _. cbn. f_equal. lia.
Qed.

Section facts.
Context {ops : ColumnOps} {LState : Type} (env : Env (LState := LState)) (cfg : DataConfig).
Abbreviation BatchDict := (list (string * Col)).
Abbreviation DataProcessor := (DataProcessor (LState := LState)).
Implicit Types (s : DataProcessor).
Abbreviation nt := (length (train_sizes env)).

(** With more than one rollout, asking for a batch without the repetition raises:
    the loop that writes the parents runs over the children, which have no tags. *)
Theorem unrepeated_batch_raises b s return_meta size : (1 < d_rollout_n cfg)%Z → dict_size IndexError b = inr size → 0 < size →
  result (controller_batch cfg false false return_meta (d_rollout_n cfg) b s) = inl IndexError.
Proof.
  intros Hn Hb Hs. unfold controller_batch. rewrite (run_of_res _ size) by done. unfold get_train_sample_ids. mrun. cbn [andb].
  rewrite (bool_decide_eq_true_2 (1 < d_rollout_n cfg)%Z) by done.
  match goal with |- context [of_res ?r] => assert (r = inl IndexError) as -> end; [|done].
  unfold parent_slots. apply (set_parents_short _ 0); [|lia]. rewrite parent_slots_length, request_ids_length, !length_fmap, length_seq by lia. nia.
Qed.

(** ** Checkpoints of the dataloaders *)

(** The state of loader [i] as it is saved. *)
Definition loader_state s (i : nat) : LState := state_dict env i (train_opened s) (train_iters s ≫= λ its, its !! i).

(** The files after saving the loaders [k, k + 1, ...] under [paths]. *)
Definition save_files s (k : nat) (paths : list string) (fs : list (string * LState)) : list (string * LState) :=
  foldl (λ fs ip, dict_set ip.2 (loader_state s ip.1) fs) fs (zip (seq k (length paths)) paths).

Lemma save_run paths s : length (loader_paths env paths) = nt →
  save_train_dataloader env paths s = Ret tt (with_files (save_files s 0 (loader_paths env paths) (files s)) s).
Proof.
  intros Hl. unfold save_train_dataloader, save_files. rewrite run_assert_decide by done. rewrite Hl.
  generalize (zip (seq 0 nt) (loader_paths env paths)). intros l.
  assert (∀ fs, for_each l (λ '(i, p), modify (λ s, with_files (dict_set p (state_dict env i (train_opened s) (train_iters s ≫= λ its, its !! i)) (files s)) s)) (with_files fs s)
    = Ret tt (with_files (foldl (λ fs ip, dict_set ip.2 (loader_state s ip.1) fs) fs l) s)) as H.
  { induction l as [|[i p] l IH]; intros fs; [done|]. cbn [for_each foldl fst snd]. mrun. apply IH. }
  specialize (H (files s)). by replace (with_files (files s) s) with s in H by (by destruct s).
Qed.

Lemma save_files_out s p k ps fs : p ∉ ps → assoc p (save_files s k ps fs) = assoc p fs.
Proof.
  revert k fs. unfold save_files. induction ps as [|q ps IH]; intros k fs Hp; [done|]. apply not_elem_of_cons in Hp as [Hne Hp].
  cbn [length seq zip zip_with foldl fst snd]. rewrite IH by done. rewrite assoc_dict_set. by rewrite decide_False by congruence.
Qed.

Lemma save_files_lookup s p k ps fs j : NoDup ps → ps !! j = Some p → assoc p (save_files s k ps fs) = Some (loader_state s (k + j)).
Proof.
  revert k fs j. induction ps as [|q ps IH]; intros k fs j Hnd Hj; [done|]. apply NoDup_cons in Hnd as [Hq Hnd].
  change (save_files s k (q :: ps) fs) with (save_files s (S k) ps (dict_set q (loader_state s k) fs)). destruct j as [|j]; cbn in Hj.
  - injection Hj as ->. rewrite Nat.add_0_r, save_files_out by done. rewrite assoc_dict_set. by rewrite decide_True.
  - rewrite <-Nat.add_succ_comm. by apply IH.
Qed.

(** Several loaders saved under one path leave the state of the last one. *)
Lemma save_files_shared s p n k fs : assoc p (save_files s k (replicate (S n) p) fs) = Some (loader_state s (k + n)).
Proof.
  revert k fs. induction n as [|n IH]; intros k fs.
  - unfold save_files. cbn. rewrite assoc_dict_set, decide_True by done. by rewrite Nat.add_0_r.
  - change (save_files s k (replicate (S (S n)) p) fs) with (save_files s (S k) (replicate (S n) p) (dict_set p (loader_state s k) fs)).
    by rewrite IH, Nat.add_succ_comm.
Qed.

Lemma load_loop_run s s2 ps pre rest : length rest = length ps →
  (∀ j p, ps !! j = Some p → assoc p (files s2) = Some (loader_state s (length pre + j))) →
  for_each (zip (seq (length pre) (length ps)) ps) (λ '(i, p),
      s ← gets id;
      st ← of_option KeyError (assoc p (files s));
      modify (λ s, with_loaded (<[i := Some st]> (train_loaded s)) s)) (with_loaded (pre ++ rest) s2)
  = Ret tt (with_loaded (pre ++ ((λ i, Some (loader_state s i)) <$> seq (length pre) (length ps))) s2).
Proof.
  revert pre rest. induction ps as [|p ps IH]; intros pre rest Hl Hf; [by destruct rest|]. destruct rest as [|x rest]; [done|].
  cbn [length seq zip zip_with for_each]. mrun. rewrite (run_of_option _ _ (loader_state s (length pre)));
    [|change (files (with_loaded (pre ++ x :: rest) s2)) with (files s2); rewrite (Hf 0 p eq_refl); do 2 f_equal; lia].
  mrun. cbn [with_loaded train_loaded]. rewrite insert_app_r_alt, Nat.sub_diag by lia. cbn [insert list_insert].
  rewrite (cons_middle (Some (loader_state s (length pre))) pre rest), app_assoc.
  specialize (IH (pre ++ [Some (loader_state s (length pre))]) rest). rewrite length_app, Nat.add_1_r in IH.
  etrans; [apply IH; [by injection Hl|]|by rewrite <-app_assoc]. intros j q Hj. rewrite (Hf (S j) q Hj). do 2 f_equal. lia.
Qed.

(** What is saved under paths of their own is what a load away from an epoch
    boundary gives back, loader by loader. *)
Theorem dataloader_round_trip paths s s2 steps : NoDup paths → length paths = nt → length (train_loaded s2) = nt →
  list_min (train_sizes env) = Some steps → (0 < steps → global_steps s2 mod steps ≠ 0)%Z →
  files s2 = files (final (save_train_dataloader env (inr paths) s)) →
  load_train_dataloader env (inr paths) s2 = Ret tt (with_loaded ((λ i, Some (loader_state s i)) <$> seq 0 nt) s2).
Proof.
  intros Hnd Hl Hld Hmin Hb Hf. unfold load_train_dataloader. rewrite run_assert_decide by done. rewrite (run_of_option _ _ steps) by done. mrun.
  assert (bool_decide (0 < steps)%Z && bool_decide (global_steps s2 mod steps = 0)%Z = false) as ->.
  { apply andb_false_iff. destruct (decide (0 < steps)%Z); [right|left]; apply bool_decide_eq_false_2; auto. }
  rewrite (save_run (inr paths)) in Hf by done. cbn [final with_files files loader_paths] in Hf. cbn [loader_paths].
  replace s2 with (with_loaded ([] ++ train_loaded s2) s2) at 1 by (by destruct s2). rewrite <-Hl.
  apply (load_loop_run s s2 paths [] (train_loaded s2)); [by rewrite Hld|]. intros j p Hj. rewrite Hf. by apply save_files_lookup.
Qed.

(** A processor that has not stepped yet, as the one of a resumed run, is at an
    "epoch boundary": loading restores nothing, whatever was saved. *)
Theorem resume_restores_nothing paths s steps : length (loader_paths env paths) = nt → list_min (train_sizes env) = Some steps → (0 < steps)%Z →
  global_steps s = 0%Z → load_train_dataloader env paths s = Ret tt s.
Proof.
  intros Hl Hmin Hpos Hs. unfold load_train_dataloader. rewrite run_assert_decide by done. rewrite (run_of_option _ _ steps) by done. mrun.
  rewrite Hs, Z.mod_0_l by lia. by rewrite bool_decide_eq_true_2.
Qed.

(** With one path for all loaders, as the trainer passes it, only the last
    loader's state is saved. *)
Theorem shared_path_keeps_last p s n : nt = S n →
  assoc p (files (final (save_train_dataloader env (inl p) s))) = Some (loader_state s n).
Proof.
  intros Hn. rewrite (save_run (inl p)) by (cbn; by rewrite length_replicate). cbn [final with_files files loader_paths]. rewrite Hn.
  apply (save_files_shared s p n 0).
Qed.
End facts.

(** ** Columns made of lists *)

Record ListCol := mkListCol { lc_kind : Kind; lc_shape : list Z; lc_rows : list (option Z) }.

Definition same_columns (e : exn) (k : list Kind) (cs : list ListCol) : Res ListCol :=
  match cs with
  | [] => inl e
  | c :: cs' =>
      if bool_decide (lc_kind c ∈ k) && forallb (λ c', bool_decide (lc_kind c' = lc_kind c ∧ lc_shape c' = lc_shape c)) cs'
      then inr (mkListCol (lc_kind c) (lc_shape c) (concat (lc_rows <$> cs))) else inl e
  end.

#[export] Instance list_columns : ColumnOps := {|
  Col := ListCol;
  Cell := option Z;
  kind := lc_kind;
  rows := lc_rows;
  take_rows n c := mkListCol (lc_kind c) (lc_shape c) (take n (lc_rows c));
  drop_rows n c := mkListCol (lc_kind c) (lc_shape c) (drop n (lc_rows c));
  repeat_rows n c := mkListCol (lc_kind c) (lc_shape c) (lc_rows c ≫= replicate n);
  cat_tensors := same_columns RuntimeError [KTensor];
  cat_arrays := same_columns ValueError [KArray; KObjectArray];
  zeros_like c n := mkListCol (lc_kind c) (lc_shape c) (replicate n (Some 0%Z));
  nones_like c n := mkListCol (lc_kind c) (lc_shape c) (replicate n None);
|}.

Definition list_like (c c' : ListCol) : Prop := lc_kind c = lc_kind c' ∧ lc_shape c = lc_shape c'.

Lemma same_columns_ok e k c cs : lc_kind c ∈ k → Forall (list_like c) cs →
  ∃ r, same_columns e k (c :: cs) = inr r ∧ lc_rows r = concat (lc_rows <$> c :: cs) ∧ list_like c r.
Proof.
  intros Hk Hcs. unfold same_columns. rewrite bool_decide_eq_true_2 by done. cbn [andb].
  assert (forallb (λ c', bool_decide (lc_kind c' = lc_kind c ∧ lc_shape c' = lc_shape c)) cs = true) as ->; [|by eexists].
  apply forallb_forall. intros c' Hc'%list_elem_of_In. apply bool_decide_eq_true_2.
  rewrite Forall_forall in Hcs. destruct (Hcs c' Hc') as [-> ->]. done.
Qed.

#[export] Instance list_columns_laws : ColumnLaws.
Proof.
  refine {| like := list_like : Col → Col → Prop |}; try done.
  - split; [by intros c|by intros c c' [? ?]; split|]. intros a b c [? ?] [? ?]. split; congruence.
  - by intros c c' [? ?].
  - intros c n. cbn. apply length_replicate.
  - intros c n. cbn. apply length_replicate.
  - intros c cs Hk Hcs. apply same_columns_ok; [|done]. cbn in Hk. rewrite Hk. apply list_elem_of_singleton. done.
  - intros c cs Hk Hcs. apply same_columns_ok; [|done]. cbn in Hk. destruct Hk as [->| ->]; [apply elem_of_cons; by left|].
    apply elem_of_cons. right. by apply list_elem_of_singleton.
Defined.

(** ** A run *)

(** Two datasets, of two and of three batches an epoch; the second has a column
    more.  The rows are numbered by dataset, epoch and batch. *)
Definition ids_col (l : list Z) : ListCol := mkListCol KTensor [4%Z] (Some <$> l).
Definition text_col (l : list Z) : ListCol := mkListCol KObjectArray [] (Some <$> l).

Definition demo_batch (i k b : nat) : list (string * ListCol) :=
  let base := (Z.of_nat i * 1000 + Z.of_nat k * 100 + Z.of_nat b * 10)%Z in
  match i with
  | O => [("input_ids", ids_col [base; base + 1])]%Z
  | S _ => [("input_ids", ids_col [base]); ("tools", text_col [base])]
  end.

Definition demo_epoch (i k : nat) (st : option Z) : list (list (string * ListCol)) :=
  demo_batch i k <$> seq 0 (2 + i).

(** One dataset for validation with two batches, one with one. *)
Definition demo_val (i k : nat) : list (list (string * ListCol)) := demo_batch i k <$> seq 0 (2 - i).

Definition demo_env : Env (LState := Z) := mkEnv [2%Z; 3%Z] demo_epoch [2%Z; 1%Z] [4%Z; 1%Z] demo_val (λ k n, if bool_decide (k mod 2 = 0) then seq 0 n else reverse (seq 0 n)) (λ i k _, Z.of_nat (10 * i + k)).

Definition demo_shapes : list (string → option ListCol) :=
  [λ k, assoc k [("input_ids", ids_col [])]; λ k, assoc k [("input_ids", ids_col []); ("tools", text_col [])]].

Definition demo_cfg : DataConfig := mkDataConfig 2 2 2 2 4 (sys_maxsize / 4) (sys_maxsize / 4).

Definition demo_dp : DataProcessor (LState := Z) := new_processor 2 2 (new_tracker 2 2 1).

Lemma demo_batch_shaped i k b f : demo_shapes !! i = Some f → shaped f (demo_batch i k b).
Proof.
  intros Hf. destruct i as [|[|i]]; cbn in Hf; simplify_eq; split; cbn; try lia.
  - apply NoDup_singleton.
  - intros k'. case_decide; constructor. done.
  - intros k' c. case_decide; [|done]. by intros [= <-].
  - apply NoDup_cons. split; [by intros ?%list_elem_of_singleton|apply NoDup_singleton].
  - intros k'. case_decide; [by constructor|]. case_decide; by constructor.
  - intros k' c. case_decide; [by intros [= <-]|]. case_decide; [by intros [= <-]|done].
Qed.

#[export] Instance demo_env_laws : EnvLaws demo_env demo_shapes.
Proof.
  split; [done|done| | |].
  - intros f g k c c' [->| ->%list_elem_of_singleton]%elem_of_cons [->| ->%list_elem_of_singleton]%elem_of_cons;
      cbn; repeat case_decide; intros; by simplify_eq.
  - intros i f k st b Hf (j & -> & _)%list_elem_of_fmap. by apply demo_batch_shaped.
  - intros k n. cbn. case_bool_decide; [done|]. apply reverse_Permutation.
Qed.

#[export] Instance demo_size_laws : SizeLaws demo_env 2.
Proof.
  split; [|done|lia]. intros i k z. destruct i as [|[|i]]; cbn; [by intros [= <-]..|done].
Qed.

#[export] Instance demo_val_laws : ValLaws demo_env.
Proof.
  split; [cbn; lia|..]; intros [|[|i]] k; cbn; try lia; done.
Qed.

Lemma sample_prompts_exact_witness :
  ∃ td s' evs m taken_rows, sample_train_prompts demo_env demo_cfg 5 demo_dp = Ret (Some td) s' ∧
    sampled demo_env demo_cfg demo_shapes 5 demo_dp evs s' m taken_rows (Some td) ∧ td_uid td = Some [0; 1; 2; 3; 4; 5; 6; 7; 8; 9]%Z ∧
    col "input_ids" (buffered s') = [Some 11%Z].
Proof.
  destruct (sample_prompts_exact demo_env demo_cfg demo_shapes demo_dp 5) as (res & s' & evs & m & tk & E & Hs & _ & _);
    [lia|cbn; lia|reflexivity|by intros its|by intros b|].
  pose proof (f_equal result E) as Er. pose proof (f_equal final E) as Ef. cbn [result final] in Er, Ef.
  vm_compute in Er. destruct res as [td|]; [|discriminate Er]. exists td, s', evs, m, tk. split; [exact E|]. split; [exact Hs|].
  injection Er as <-. split; [reflexivity|]. rewrite <-Ef. vm_compute. reflexivity.
Defined.

Lemma process_data_exact_witness :
  ∃ tds n s', process_data demo_env demo_cfg alone 9 (new_processor 2 2 (new_tracker 2 2 1)) = Ret true s' ∧
    dispatched s' = (Some <$> tds) ++ [None] ∧ length tds = 4 ∧ (tds ≫= λ td, default [] (td_uid td)) = train_requests demo_cfg 0 n.
Proof.
  destruct (process_data_exact demo_env demo_cfg demo_shapes 2 ltac:(cbn; lia) 2 (new_tracker 2 2 1) 9) as ((tds & n & s' & E & Hd & Hl & _ & Hu) & _);
    [cbn; lia|cbn; lia|]. exists tds, n, s'. split_and!; [exact E|exact Hd|exact Hl|exact Hu].
Defined.

(** A refill of three prompts while the thread waits at the head of its second turn
    takes the sample numbers that would have been next. *)
Definition refill_beside (i : nat) (p : ThreadPoint) (s : DataProcessor) : DataProcessor :=
  match i, p with 7, LoopTop => final (sample_train_prompts demo_env demo_cfg 3 s) | _, _ => s end.

Example thread_beside_refill :
  let run := process_data demo_env demo_cfg refill_beside 9 (new_processor 2 2 (new_tracker 2 2 1)) in
  result run = inr true ∧ length (dispatched (final run)) = 5 ∧
  (td_uid <$> omap id (take 2 (dispatched (final run)))) = [Some (train_requests demo_cfg 0 3); Some (train_requests demo_cfg 6 3)].
Proof. vm_compute. split_and!; reflexivity. Qed.

Lemma val_passes_exact_witness :
  result (val_calls demo_env 2 (2 * 3) demo_dp) = inr (given [demo_batch 0 0 0; demo_batch 0 0 1; demo_batch 1 0 0; demo_batch 0 1 0; demo_batch 0 1 1; demo_batch 1 1 0]).
Proof. exact (val_passes_exact demo_env demo_dp 2 2 eq_refl eq_refl (le_n 2)). Defined.

Lemma dataloader_round_trip_witness :
  load_train_dataloader demo_env (inr ["a"; "b"]) (with_steps 3 (with_files [("a", 0%Z); ("b", 10%Z)] demo_dp))
  = Ret tt (with_loaded [Some 0%Z; Some 10%Z] (with_steps 3 (with_files [("a", 0%Z); ("b", 10%Z)] demo_dp))).
Proof.
  apply (dataloader_round_trip demo_env ["a"; "b"] demo_dp _ 2);
    [apply (bool_decide_unpack _); vm_compute; exact I|reflexivity|reflexivity|reflexivity|intros _; discriminate|reflexivity].
Defined.

Lemma request_ids_disjoint_witness : train_requests demo_cfg 0 3 ## val_requests demo_cfg 0 3.
Proof. apply (request_ids_disjoint None 2 2 2 4 demo_cfg); [reflexivity|cbn; lia|cbn; lia|reflexivity|vm_compute; reflexivity|vm_compute; reflexivity]. Defined.

(** ** The second reset *)

(** Loaders without shuffling: every epoch is the same. *)
Definition seq_env : Env (LState := Z) :=
  mkEnv [2%Z; 3%Z] (λ i _ st, demo_epoch i 0 st) [2%Z; 1%Z] [4%Z; 1%Z] demo_val (λ k n, seq 0 n) (λ i k _, Z.of_nat (10 * i + k)).

(** The thread meets the end of the epoch; [_get_train_next] has opened the next
    one already.  Before the thread handles the exception, a refill takes the
    first batch of that epoch.  The handler opens the loaders once more, so the
    thread dispatches the same prompts again. *)
Example second_reset_replays :
  let fetch := get_train_next seq_env in
  let s1 := with_steps 2 (final ((fetch ;; fetch) demo_dp)) in
  let s2 := final (fetch s1) in
  let refill := sample_train_prompts seq_env demo_cfg 3 s2 in
  let s3 := final (handle_stop seq_env demo_cfg (final refill)) in
  result (fetch s1) = inl StopIteration ∧
  match result refill, result (fetch s3) with
  | inr (Some td), inr b => col "input_ids" (td_cols td) = repeat_each 2 (col "input_ids" b)
  | _, _ => False
  end.
Proof. vm_compute. split; reflexivity. Qed.
