(* ===== verification/Locks.v ===== *)
(** * Locks and the contexts that use them

    [psrl/utils/ray/lock_context.py] has two locks that are injected into actors
    and the context managers with which clients in other processes hold them.
    The polling locks, among them the push/pull lock of the parameter-server
    manager, are put behind one interface, [PollLock]; the clients, which poll
    until the lock is granted and release it when they leave, are shown to
    exclude each other for every lock that satisfies its laws.  The waiting lock
    hands itself to the longest waiting client. *)

From S2P Require Import Prelude.
From S2P Require Import StalenessBuffer.
From S2P Require Import StalenessInventory.
From S2P Require Import TransferQueue.
From S2P Require Import RequestStatusTracker.
From S2P Require Import PSManager.

#[local] Open Scope nat_scope.

(** ** The interface of a lock that is polled *)

(** [K]: the ways in which the lock can be held. *)
Class PollLock (L K : Type) := {
  try_lock : K → M L bool;
  unlock : K → M L unit;
  compat : K → K → bool;
}.

(** [holds l hs]: the state [l] of the lock when [hs] are its holders. *)
Class PollLockLaws (L K : Type) `{PollLock L K} := {
  holds : L → list K → Prop;
  holds_perm l hs hs' : hs ≡ₚ hs' → holds l hs → holds l hs';
  compat_sym k k' : compat k k' = compat k' k;
  try_lock_law k l hs : holds l hs →
    ∃ l', try_lock k l = Ret (forallb (compat k) hs) l' ∧ holds l' (if forallb (compat k) hs then k :: hs else hs);
  unlock_law k l hs : holds l (k :: hs) → ∃ l', unlock k l = Ret tt l' ∧ holds l' hs;
}.

(** ** Clients *)

(** Where a client of the lock is: outside, polling in [__enter__], or between
    [__enter__] and [__exit__]; [Failed] when the release raised. *)
Inductive Client (K : Type) := Outside | Polling (k : K) | Inside (k : K) | Failed (e : exn).
Arguments Outside {K}.
Arguments Polling {K} k.
Arguments Inside {K} k.
Arguments Failed {K} e.

(** One poll of [__enter__], and [__exit__]. *)
Definition poll {L K} `{PollLock L K} (k : K) (l : L) : Client K * L :=
  match try_lock k l with
  | Ret true l' => (Inside k, l')
  | Ret false l' => (Polling k, l')
  | Raise e l' => (Failed e, l')
  end.

Definition leave {L K} `{PollLock L K} (k : K) (l : L) : Client K * L :=
  match unlock k l with Ret _ l' => (Outside, l') | Raise e l' => (Failed e, l') end.

Section clients.
Context {L K : Type} `{PollLockLaws L K}.

(** The clients interleave their steps on one lock. *)
Inductive client_step : L * list (Client K) → L * list (Client K) → Prop :=
  | step_enter l cs i k : cs !! i = Some Outside → client_step (l, cs) (l, <[i := Polling k]> cs)
  | step_poll l cs i k : cs !! i = Some (Polling k) → client_step (l, cs) ((poll k l).2, <[i := (poll k l).1]> cs)
  | step_leave l cs i k : cs !! i = Some (Inside k) → client_step (l, cs) ((leave k l).2, <[i := (leave k l).1]> cs).

Definition held (c : Client K) : option K := match c with Inside k => Some k | _ => None end.

Record system_ok (sys : L * list (Client K)) : Prop := {
  so_holds : holds sys.1 (omap held sys.2);
  so_compat i j k k' : i ≠ j → sys.2 !! i = Some (Inside k) → sys.2 !! j = Some (Inside k') → compat k k' = true;
  so_failed e : Failed e ∉ sys.2;
}.

(** Replacing a client changes the holders by what it held. *)
Lemma omap_held_insert cs i c c' : cs !! i = Some c →
  ∃ hs, omap held cs ≡ₚ option_list (held c) ++ hs ∧ omap held (<[i := c']> cs) ≡ₚ option_list (held c') ++ hs.
Proof.
  intros Hi. assert (∃ l1 l2, cs = l1 ++ c :: l2 ∧ length l1 = i) as (l1 & l2 & -> & <-).
  { exists (take i cs), (drop (S i) cs). split; [by rewrite take_drop_middle|]. apply length_take_le. apply lookup_lt_Some in Hi. lia. }
  exists (omap held (l1 ++ l2)). rewrite insert_app_r_alt, Nat.sub_diag by lia. cbn [insert list_insert].
  rewrite !omap_app. cbn. split; [destruct (held c)|destruct (held c')]; cbn; by rewrite ?Permutation_middle.
Qed.

Lemma insert_failed (cs : list (Client K)) (i : nat) (c : Client K) : (∀ e, Failed e ∉ cs) → (∀ e, c ≠ Failed e) → ∀ e, Failed e ∉ <[i := c]> cs.
Proof.
  intros Hcs Hc e (j & Hj)%list_elem_of_lookup. apply list_lookup_insert_Some in Hj as [(-> & E & _)|(_ & Hj)]; [by eapply Hc|].
  by eapply Hcs, list_elem_of_lookup_2.
Qed.

Lemma insert_not_inside (cs : list (Client K)) (i : nat) (c : Client K) : held c = None →
  (∀ a b k k', a ≠ b → cs !! a = Some (Inside k) → cs !! b = Some (Inside k') → compat k k' = true) →
  ∀ a b k k', a ≠ b → <[i := c]> cs !! a = Some (Inside k) → <[i := c]> cs !! b = Some (Inside k') → compat k k' = true.
Proof.
  intros Hc Hcs a b k k' Hab Ha Hb. apply list_lookup_insert_Some in Ha as [(-> & -> & _)|(_ & Ha)]; [done|].
  apply list_lookup_insert_Some in Hb as [(-> & -> & _)|(_ & Hb)]; [done|]. by apply (Hcs a b).
Qed.

Lemma client_step_ok sys sys' : system_ok sys → client_step sys sys' → system_ok sys'.
Proof.
  intros [Hh Hc Hf] Hstep. destruct Hstep as [l cs i k Hi|l cs i k Hi|l cs i k Hi]; cbn [fst snd] in *.
  - destruct (omap_held_insert cs i Outside (Polling k) Hi) as (hs & E1 & E2). split; cbn [fst snd].
    + eapply holds_perm; [|exact Hh]. by rewrite E1, E2.
    + by apply insert_not_inside.
    + by apply insert_failed.
  - destruct (try_lock_law k l _ Hh) as (l' & E & Hh'). unfold poll. rewrite E.
    destruct (forallb (compat k) (omap held cs)) eqn:Eall; cbn [fst snd].
    + destruct (omap_held_insert cs i (Polling k) (Inside k) Hi) as (hs & E1 & E2). split; cbn [fst snd]; [| |by apply insert_failed].
      * eapply holds_perm; [|exact Hh']. rewrite E2. cbn. by rewrite E1.
      * rewrite forallb_forall in Eall.
        assert (∀ b k', cs !! b = Some (Inside k') → compat k k' = true) as Hall.
        { intros b k' Hb. apply Eall, list_elem_of_In, list_elem_of_omap. exists (Inside k'). split; [by eapply list_elem_of_lookup_2|done]. }
        intros a b k1 k2 Hab Ha Hb. apply list_lookup_insert_Some in Ha as [(-> & [= <-] & _)|(_ & Ha)];
          apply list_lookup_insert_Some in Hb as [(-> & [= <-] & _)|(_ & Hb)]; [done|by apply (Hall b)|rewrite compat_sym; by apply (Hall a)|by apply (Hc a b)].
    + destruct (omap_held_insert cs i (Polling k) (Polling k) Hi) as (hs & E1 & E2). split; cbn [fst snd].
      * eapply holds_perm; [|exact Hh']. by rewrite E1, E2.
      * by apply insert_not_inside.
      * by apply insert_failed.
  - destruct (omap_held_insert cs i (Inside k) Outside Hi) as (hs & E1 & E2). cbn in E1, E2.
    destruct (unlock_law k l hs) as (l' & E & Hh'); [by eapply holds_perm|]. unfold leave. rewrite E. cbn [fst snd]. split; cbn [fst snd].
    + by eapply holds_perm.
    + by apply insert_not_inside.
    + by apply insert_failed.
Qed.

Lemma clients_ok sys sys' : system_ok sys → rtc client_step sys sys' → system_ok sys'.
Proof. intros Hs Hr. induction Hr; [done|]. eauto using client_step_ok. Qed.

Lemma system_start l n : holds l [] → system_ok (l, replicate n Outside).
Proof.
  intros Hl. split; cbn [fst snd].
  - assert (omap held (replicate n (Outside (K := K))) = []) as ->; [|done]. induction n; cbn; auto.
  - intros i j k k' _ (Hi & _)%lookup_replicate. done.
  - intros e (i & (Hi & _)%lookup_replicate)%list_elem_of_lookup. done.
Qed.

(** Clients of any lock that satisfies the laws: those inside are compatible, no
    release raises, and a client that polls while nobody incompatible is inside
    gets in. *)
Lemma contexts_exclusive l n sys : holds l [] → rtc client_step (l, replicate n Outside) sys →
  (∀ i j k k', i ≠ j → sys.2 !! i = Some (Inside k) → sys.2 !! j = Some (Inside k') → compat k k' = true) ∧
  (∀ e, Failed e ∉ sys.2) ∧
  (∀ i k, sys.2 !! i = Some (Polling k) → (∀ j k', sys.2 !! j = Some (Inside k') → compat k k' = true) → (poll k sys.1).1 = Inside k).
Proof.
  intros Hl Hr. pose proof (clients_ok _ _ (system_start l n Hl) Hr) as [Hh Hc Hf]. split_and!; [done..|].
  intros i k Hi Hfree. destruct (try_lock_law k _ _ Hh) as (l' & E & _). unfold poll. rewrite E.
  assert (forallb (compat k) (omap held sys.2) = true) as ->; [|done]. apply forallb_forall. intros k' Hk'%list_elem_of_In.
  apply list_elem_of_omap in Hk' as (c & (j & Hj)%list_elem_of_lookup & Ec). destruct c; try done. injection Ec as <-. by apply (Hfree j).
Qed.
End clients.

(** ** The busy-polling lock *)

(** [add_busy_polling_lock]: the attribute [_locked]. *)
Definition busy_acquire : M bool bool :=
  locked ← gets id; if locked : bool then mret false else modify (λ _, true) ;; mret true.

Definition busy_release : M bool unit :=
  locked ← gets id; assert locked ;; modify (λ _, false).

#[export] Instance busy_lock : PollLock bool unit := {| try_lock _ := busy_acquire; unlock _ := busy_release; compat _ _ := false |}.

#[export] Instance busy_lock_laws : PollLockLaws bool unit.
Proof.
  refine {| holds l hs := l = bool_decide (hs ≠ []) ∧ length hs ≤ 1 |}.
  - intros l hs hs' Hp [-> Hl]. split; [|by rewrite <-Hp]. apply bool_decide_ext. split; intros Hne ->; by apply Hne, Permutation_nil.
  - done.
  - intros [] l hs [-> Hl]. destruct hs as [|[] hs]; eexists; (split; [done|]); cbn; split; done || (cbn in Hl; lia).
  - intros [] l hs [-> Hl]. cbn in Hl. destruct hs; [|cbn in Hl; lia]. eexists. split; [done|]. cbn. split; [done|lia].
Defined.

(** ** The push and pull contexts *)

Inductive Side := Push | Pull.

#[export] Instance Side_eq_dec : EqDecision Side.
Proof. solve_decision. Defined.

#[export] Instance push_pull_lock : PollLock PSManager Side := {|
  try_lock k := match k with Push => try_acquire_exclusive_push_lock | Pull => try_acquire_shared_pull_lock end;
  unlock k := match k with Push => release_exclusive_push_lock | Pull => release_shared_pull_lock end;
  compat k k' := match k, k' with Pull, Pull => true | _, _ => false end;
|}.

(** A push is inside alone; the pulls are counted. *)
Definition push_pull_holds (m : PSManager) (hs : list Side) : Prop :=
  (exclusive_push_locked m = true ∧ hs = [Push] ∧ shared_pull_count m = 0%Z) ∨
  (exclusive_push_locked m = false ∧ Forall (.= Pull) hs ∧ shared_pull_count m = Z.of_nat (length hs)).

#[export] Instance push_pull_laws : PollLockLaws PSManager Side.
Proof.
  refine {| holds := push_pull_holds |}.
  - intros m hs hs' Hp [(H1 & -> & H3)|(H1 & H2 & H3)]; [left|right]; split_and!; try done.
    + symmetry in Hp. by apply Permutation_singleton_r in Hp.
    + by rewrite <-Hp.
    + by rewrite <-Hp.
  - by intros [] [].
  - intros k m hs Hm. cbn [try_lock compat push_pull_lock]. unfold try_acquire_exclusive_push_lock, try_acquire_shared_pull_lock.
    destruct Hm as [(H1 & -> & H3)|(H1 & H2 & H3)].
    + destruct k; mrun; rewrite H1; eexists; (split; [done|]); left; done.
    + destruct k; mrun; rewrite H1; cbn [orb].
      * destruct H2 as [|h hs -> H2]; [rewrite bool_decide_eq_false_2 by (cbn in H3; lia)|rewrite bool_decide_eq_true_2 by (cbn in H3; lia)];
          eexists; (split; [done|]); cbn; [by left|]. right. split_and!; [done|by constructor|done].
      * assert (forallb (λ k', match k' with Push => false | Pull => true end) hs = true) as ->.
        { apply forallb_forall. intros h Hh%list_elem_of_In. rewrite Forall_forall in H2. by rewrite (H2 h Hh). }
        eexists. split; [done|]. right. split_and!; [done|by constructor|]. cbn. lia.
  - intros k m hs Hm. cbn [unlock push_pull_lock]. unfold release_exclusive_push_lock, release_shared_pull_lock.
    destruct Hm as [(H1 & [= -> ->] & H3)|(H1 & H2 & H3)].
    + mrun. rewrite H1. eexists. split; [done|]. right. by split_and!.
    + apply Forall_cons in H2 as [-> H2]. mrun. rewrite bool_decide_eq_true_2 by (cbn in H3; lia).
      eexists. split; [done|]. right. split_and!; [done..|]. cbn in *. lia.
Defined.

(** C9: Model pushes and pulls through their contexts.  However clients enter, poll
    and leave, a client that pushes is alone between [__enter__] and [__exit__];
    no release raises; a push gets in when nobody is inside, a pull when no push
    is. *)
Theorem push_contexts_exclusive (m0 : PSManager) (n : nat) (m : PSManager) (cs : list (Client Side)) :
  exclusive_push_locked m0 = false → shared_pull_count m0 = 0%Z →
  rtc client_step (m0, replicate n Outside) (m, cs) →
  (∀ i j k, cs !! i = Some (Inside Push) → cs !! j = Some (Inside k) → i = j) ∧
  (∀ e, Failed e ∉ cs) ∧
  (∀ i k, cs !! i = Some (Polling k) → (∀ j k', cs !! j = Some (Inside k') → k = Pull ∧ k' = Pull) → (poll k m).1 = Inside k).
Proof.
  intros Hl Hp Hr. assert (holds m0 []) as H0 by (right; split_and!; [done|constructor|done]).
  destruct (contexts_exclusive m0 n _ H0 Hr) as (Hc & Hf & Hg). cbn [fst snd] in *. split_and!; [|done|].
  - intros i j k Hi Hj. destruct (decide (i = j)) as [|Hij]; [done|]. by pose proof (Hc i j Push k Hij Hi Hj).
  - intros i k Hi Hfree. apply (Hg i k Hi). intros j k' Hj. by destruct (Hfree j k' Hj) as [-> ->].
Qed.

(** ** The waiting lock *)

(** [add_lock]: a future per waiting client; [futures] has its state. *)
Inductive FutureState := Pending | Done | Cancelled.

Record WaitLock := mkWaitLock { locked : bool; waiters : list nat; futures : list FutureState }.

Definition new_wait_lock : WaitLock := mkWaitLock false [] [].

(** [acquire]: [None] when it returns at once, else the future it awaits. *)
Definition wait_acquire : M WaitLock (option nat) :=
  l ← gets id;
  if negb (locked l) then modify (λ l, mkWaitLock true (waiters l) (futures l)) ;; mret None
  else
    let fut := length (futures l) in
    modify (λ l, mkWaitLock (locked l) (waiters l ++ [fut]) (futures l ++ [Pending])) ;; mret (Some fut).

(** [release]: [set_result] of a future that is done or cancelled raises. *)
Definition wait_release : M WaitLock unit :=
  l ← gets id;
  match waiters l with
  | fut :: rest =>
      modify (λ l, mkWaitLock (locked l) rest (futures l)) ;;
      (match futures l !! fut with
       | Some Pending => modify (λ l, mkWaitLock (locked l) (waiters l) (<[fut := Done]> (futures l)))
       | _ => raise InvalidStateError
       end)
  | [] => modify (λ l, mkWaitLock false (waiters l) (futures l))
  end.

(** Clients by the number of their [acquire] call.  [arrived]: those calls, in
    order, with the future awaited; [granted]: the calls that got the lock, in
    order; [inside]: those that have not released it. *)
Record WaitSystem := mkWaitSystem {
  ws_lock : WaitLock;
  arrived : list (option nat);
  granted : list nat;
  inside : list nat;
}.

Definition wait_start : WaitSystem := mkWaitSystem new_wait_lock [] [] [].

(** The call that awaits future [fut]. *)
Definition caller (arrivals : list (option nat)) (fut : nat) : option nat := find_first (.= Some fut) arrivals.

(** The call that a release lets in. *)
Definition woken (l : WaitLock) (arrivals : list (option nat)) : list nat := option_list (head (waiters l) ≫= caller arrivals).

Inductive wait_step : WaitSystem → WaitSystem → Prop :=
  | wait_arrive l ar gr ins r l' : wait_acquire l = Ret r l' →
      let got := if r is Some _ then [] else [length ar] in
      wait_step (mkWaitSystem l ar gr ins) (mkWaitSystem l' (ar ++ [r]) (gr ++ got) (ins ++ got))
  | wait_leave l ar gr ins1 c ins2 l' : wait_release l = Ret tt l' →
      wait_step (mkWaitSystem l ar gr (ins1 ++ c :: ins2)) (mkWaitSystem l' ar (gr ++ woken l ar) (ins1 ++ ins2 ++ woken l ar)).

(** Locked exactly while a client is inside; the granted calls are the first to
    have arrived, the others wait in order on pending futures of their own. *)
Record wait_ok (w : WaitSystem) : Prop := {
  wo_inside : if locked (ws_lock w) then ∃ c, inside w = [c] else inside w = [] ∧ waiters (ws_lock w) = [];
  wo_granted : granted w = seq 0 (length (granted w));
  wo_count : length (granted w) + length (waiters (ws_lock w)) = length (arrived w);
  wo_waiting i fut : waiters (ws_lock w) !! i = Some fut → arrived w !! (length (granted w) + i) = Some (Some fut);
  wo_pending fut : fut ∈ waiters (ws_lock w) → futures (ws_lock w) !! fut = Some Pending;
  wo_fresh i fut : arrived w !! i = Some (Some fut) → fut < length (futures (ws_lock w));
  wo_inj i j fut : arrived w !! i = Some (Some fut) → arrived w !! j = Some (Some fut) → i = j;
}.

Lemma caller_unique w i fut : wait_ok w → arrived w !! i = Some (Some fut) → caller (arrived w) fut = Some i.
Proof.
  intros Hw Hi. unfold caller. destruct (find_first (.= Some fut) (arrived w)) as [j|] eqn:E.
  - apply find_first_Some in E as [(x & Hj & ->) _]. f_equal. by apply (wo_inj w Hw j i fut).
  - by eapply find_first_None in E; [|exact Hi].
Qed.

(** The waiters have different futures. *)
Lemma waiters_NoDup w : wait_ok w → NoDup (waiters (ws_lock w)).
Proof.
  intros Hw. apply NoDup_alt. intros i j fut Hi Hj. pose proof (wo_inj w Hw _ _ fut (wo_waiting w Hw i fut Hi) (wo_waiting w Hw j fut Hj)). lia.
Qed.

Lemma lookup_snoc_cases {A} (l : list A) x i y : (l ++ [x]) !! i = Some y → l !! i = Some y ∨ i = length l ∧ y = x.
Proof.
  intros [Hi|[Hge Hi]]%lookup_app_Some; [by left|]. apply list_lookup_singleton_Some in Hi as [Hi ->]. right. split; [lia|done].
Qed.

(** A call that finds the lock free. *)
Lemma arrive_free_ok l ar gr ins : wait_ok (mkWaitSystem l ar gr ins) → locked l = false →
  wait_ok (mkWaitSystem (mkWaitLock true (waiters l) (futures l)) (ar ++ [None]) (gr ++ [length ar]) (ins ++ [length ar])).
Proof.
  intros [Hin Hg Hc Hw Hp Hf Hinj] Hl. cbn in *. rewrite Hl in Hin. destruct Hin as [-> Ew]. rewrite Ew in *. cbn in Hc. rewrite Nat.add_0_r in Hc.
  split; cbn.
  - by exists (length ar).
  - rewrite length_app. cbn. rewrite Nat.add_1_r, seq_S. cbn. by rewrite <-Hg, Hc.
  - rewrite !length_app. cbn. lia.
  - done.
  - by intros fut ?%not_elem_of_nil.
  - intros i fut [Hi|[_ [=]]]%lookup_snoc_cases. by apply (Hf i).
  - intros i j fut [Hi|[_ [=]]]%lookup_snoc_cases [Hj|[_ [=]]]%lookup_snoc_cases. by apply (Hinj i j fut).
Qed.

(** A call that has to wait. *)
Lemma arrive_wait_ok l ar gr ins : wait_ok (mkWaitSystem l ar gr ins) → locked l = true →
  let fut := length (futures l) in
  wait_ok (mkWaitSystem (mkWaitLock true (waiters l ++ [fut]) (futures l ++ [Pending])) (ar ++ [Some fut]) gr ins).
Proof.
  intros [Hin Hg Hc Hw Hp Hf Hinj] Hl. cbn in *. rewrite Hl in Hin.
  split; cbn; [done|done|rewrite !length_app; cbn; lia|..].
  - intros i fut [Hi|[-> ->]]%lookup_snoc_cases; [by apply lookup_app_l_Some, Hw|]. rewrite Hc. by apply list_lookup_middle.
  - intros fut [Hi| ->%list_elem_of_singleton]%elem_of_app; [by apply lookup_app_l_Some, Hp|]. by apply list_lookup_middle.
  - intros i fut [Hi%Hf|[_ [= ->]]]%lookup_snoc_cases; rewrite length_app; cbn; lia.
  - intros i j fut [Hi|[-> [= ->]]]%lookup_snoc_cases [Hj|[-> E]]%lookup_snoc_cases;
      [by apply (Hinj i j fut)| | |done].
    + injection E as ->. apply Hf in Hi. lia.
    + apply Hf in Hj. lia.
Qed.

(** A release with a waiter hands the lock to the first one. *)
Lemma leave_waiter_ok l ar gr ins fut rest : wait_ok (mkWaitSystem l ar gr ins) → waiters l = fut :: rest → locked l = true →
  wait_ok (mkWaitSystem (mkWaitLock true rest (<[fut := Done]> (futures l))) ar (gr ++ [length gr]) [length gr]).
Proof.
  intros Hok Ew Hl. pose proof (waiters_NoDup _ Hok) as Hnd. destruct Hok as [Hin Hg Hc Hw Hp Hf Hinj]. cbn in *. rewrite Ew in *.
  apply NoDup_cons in Hnd as [Hfut Hnd]. split; cbn.
  - by exists (length gr).
  - rewrite length_app. cbn. rewrite Nat.add_1_r, seq_S. cbn. by rewrite <-Hg.
  - rewrite length_app. cbn in *. lia.
  - intros i f Hi. rewrite length_app. cbn. rewrite <-Nat.add_assoc. by apply (Hw (S i)).
  - intros f Hin'. rewrite list_lookup_insert_ne by (by intros ->). apply Hp, elem_of_cons. by right.
  - intros i f Hi. rewrite length_insert. by apply (Hf i).
  - done.
Qed.

(** A release without one frees it. *)
Lemma leave_free_ok l ar gr ins : wait_ok (mkWaitSystem l ar gr ins) → waiters l = [] →
  wait_ok (mkWaitSystem (mkWaitLock false [] (futures l)) ar gr []).
Proof.
  intros [Hin Hg Hc Hw Hp Hf Hinj] Ew. cbn in *. rewrite Ew in *. by split; cbn.
Qed.

Lemma release_run l ar gr ins fut rest : wait_ok (mkWaitSystem l ar gr ins) → waiters l = fut :: rest →
  wait_release l = Ret tt (mkWaitLock (locked l) rest (<[fut := Done]> (futures l))) ∧ woken l ar = [length gr].
Proof.
  intros Hok Ew. split.
  - unfold wait_release. mrun. rewrite Ew. mrun. pose proof (wo_pending _ Hok fut) as Hp. cbn in Hp. rewrite Ew in Hp.
    rewrite Hp by (apply elem_of_cons; by left). done.
  - pose proof (wo_waiting _ Hok 0 fut) as Hw. cbn [ws_lock arrived granted] in Hw. rewrite Ew, Nat.add_0_r in Hw.
    assert (caller ar fut = Some (length gr)) as Hcall by (apply (caller_unique _ (length gr) fut Hok); by apply Hw).
    unfold woken. rewrite Ew. change (option_list (caller ar fut) = [length gr]). by rewrite Hcall.
Qed.

Lemma wait_step_ok w w' : wait_ok w → wait_step w w' → wait_ok w'.
Proof.
  intros Hok Hstep. destruct Hstep as [l ar gr ins r l' E got|l ar gr ins1 c ins2 l' E].
  - unfold wait_acquire in E. unfold mbind, M_bind, gets, id, modify, mret, M_ret in E.
    destruct (locked l) eqn:El; cbn in E; injection E as <- <-; unfold got; rewrite ?app_nil_r.
    + rewrite El. by apply arrive_wait_ok.
    + by apply arrive_free_ok.
  - assert (locked l = true ∧ ins1 = [] ∧ ins2 = []) as (El & -> & ->).
    { pose proof (wo_inside _ Hok) as Hin. cbn in Hin. destruct (locked l); [|by destruct Hin as [[]%app_eq_nil _]].
      destruct Hin as [c' Hin]. destruct ins1 as [|x ins1]; [by injection Hin as _ ->|]. by destruct ins1. }
    destruct (waiters l) as [|fut rest] eqn:Ew.
    + unfold wait_release, mbind, M_bind, gets, id, modify in E. rewrite Ew in E. injection E as <-. unfold woken. rewrite Ew. cbn.
      rewrite app_nil_r. by eapply leave_free_ok.
    + destruct (release_run _ _ _ _ _ _ Hok Ew) as [E' ->]. rewrite E in E'. injection E' as ->. rewrite El. cbn. by eapply leave_waiter_ok.
Qed.

(** In every run of clients that release what they hold, at most one client is
    inside, the calls get the lock in the order in which they were made, and a
    release by the client inside does not raise. *)
Theorem wait_lock_fifo w : rtc wait_step wait_start w →
  length (inside w) ≤ 1 ∧ granted w = seq 0 (length (granted w)) ∧
  (inside w = [] → length (granted w) = length (arrived w)) ∧
  (inside w ≠ [] → ∃ l', wait_release (ws_lock w) = Ret tt l').
Proof.
  intros Hr. assert (wait_ok w) as Hok.
  { assert (wait_ok wait_start) as H0 by (split; cbn; try done; intros f ?%not_elem_of_nil; done).
    clear -Hr H0. induction Hr as [|w1 w2 w3 Hs _ IH]; [done|]. eauto using wait_step_ok. }
  destruct w as [l ar gr ins]. pose proof (wo_inside _ Hok) as Hin. pose proof (wo_count _ Hok) as Hc. cbn in *. split_and!.
  - destruct (locked l); [destruct Hin as [c ->]; cbn; lia|]. destruct Hin as [-> _]. cbn. lia.
  - apply (wo_granted _ Hok).
  - intros ->. destruct (locked l); [by destruct Hin|]. destruct Hin as [_ Hw]. rewrite Hw in Hc. cbn in Hc. lia.
  - intros _. destruct (waiters l) as [|fut rest] eqn:Ew; [|by destruct (release_run _ _ _ _ _ _ Hok Ew) as [-> _]; eexists].
    eexists. unfold wait_release. mrun. by rewrite Ew.
Qed.

(** A waiting call whose future was cancelled wedges the lock: the release
    raises after taking the future out of the queue, and the lock stays locked
    with nobody inside. *)
Definition cancel_future (fut : nat) : M WaitLock unit := modify (λ l, mkWaitLock (locked l) (waiters l) (<[fut := Cancelled]> (futures l))).

Example cancelled_waiter_wedges :
  let l := final ((wait_acquire ;; wait_acquire ;; cancel_future 0) new_wait_lock) in
  result (wait_release l) = inl InvalidStateError ∧ locked (final (wait_release l)) = true ∧ waiters (final (wait_release l)) = [] ∧
  result (wait_acquire (final (wait_release l))) = inr (Some 1).
Proof. compute_run. Qed.

(** ** Runs *)

Definition lock_demo : PSManager := new_manager 2 2 1 2 2 1 "cpu".

(** Two pulls inside together, and a push that polls in vain. *)
Lemma push_contexts_exclusive_witness :
  ∃ m, rtc client_step (lock_demo, replicate 3 Outside) (m, [Inside Pull; Inside Pull; Polling Push]) ∧ ∀ e, Failed e ∉ [Inside Pull; Inside Pull; Polling Push].
Proof.
  assert (∃ m, rtc client_step (lock_demo, replicate 3 Outside) (m, [Inside Pull; Inside Pull; Polling Push])) as [m Hr].
  { eexists. eapply rtc_l; [apply (step_enter _ _ 0 Pull); reflexivity|]. eapply rtc_l; [apply (step_poll _ _ 0 Pull); reflexivity|].
    eapply rtc_l; [apply (step_enter _ _ 1 Pull); reflexivity|]. eapply rtc_l; [apply (step_poll _ _ 1 Pull); reflexivity|].
    eapply rtc_l; [apply (step_enter _ _ 2 Push); reflexivity|]. eapply rtc_l; [apply (step_poll _ _ 2 Push); reflexivity|]. apply rtc_refl. }
  exists m. split; [exact Hr|]. destruct (push_contexts_exclusive lock_demo 3 m _ eq_refl eq_refl Hr) as (_ & Hf & _). exact Hf.
Defined.

Lemma wait_lock_fifo_witness :
  ∃ w, rtc wait_step wait_start w ∧ granted w = [0; 1] ∧ length (arrived w) = 3 ∧ granted w = seq 0 (length (granted w)).
Proof.
  eexists (mkWaitSystem (mkWaitLock true [1] [Done; Pending]) [None; Some 0; Some 1] [0; 1] [1]).
  assert (rtc wait_step wait_start (mkWaitSystem (mkWaitLock true [1] [Done; Pending]) [None; Some 0; Some 1] [0; 1] [1])) as Hr.
  { eapply rtc_l; [exact (wait_arrive new_wait_lock [] [] [] None (mkWaitLock true [] []) eq_refl)|].
    eapply rtc_l; [exact (wait_arrive (mkWaitLock true [] []) [None] [0] [0] (Some 0) (mkWaitLock true [0] [Pending]) eq_refl)|].
    eapply rtc_l; [exact (wait_arrive (mkWaitLock true [0] [Pending]) [None; Some 0] [0] [0] (Some 1) (mkWaitLock true [0; 1] [Pending; Pending]) eq_refl)|].
    apply rtc_once.
    exact (wait_leave (mkWaitLock true [0; 1] [Pending; Pending]) [None; Some 0; Some 1] [0] [] 0 [] (mkWaitLock true [1] [Done; Pending]) eq_refl). }
  split; [exact Hr|]. split; [reflexivity|]. split; [reflexivity|]. destruct (wait_lock_fifo _ Hr) as (_ & Hg & _). exact Hg.
Defined.
