(* ===== verification/EnvShell.v ===== *)
(** * Sandbox shells: command framing and observations

    [psrl/workers/env_worker/shell.py]: a command is written to a persistent shell
    followed by an [echo] of a sentinel with its exit status; the output is cut at
    the sentinel, and long observations are shortened to their head and tail.
    [psrl/workers/env_worker/sandbox.py]: the [docker run] arguments of a sandbox.

    Strings are the characters Python sees after decoding.  The regular
    expression of the sentinel is a lazy match without line breaks. *)

From Stdlib Require Import Ascii.
From stdpp Require Import pretty.
From S2P Require Import Prelude.
From S2P Require Import PyFloat.
From S2P Require Import PyData.

#[local] Open Scope string_scope.
#[local] Open Scope Z_scope.

(** ** Strings *)

Fixpoint strip_prefix (p s : string) : option string :=
  match p, s with
  | EmptyString, _ => Some s
  | String a p, String b s => if decide (a = b) then strip_prefix p s else None
  | String _ _, EmptyString => None
  end.

(** [p in s] *)
Fixpoint contains (p s : string) : bool :=
  match strip_prefix p s with
  | Some _ => true
  | None => match s with EmptyString => false | String _ s => contains p s end
  end.

Definition newline : ascii := "010"%char.
Definition nl : string := String newline EmptyString.

(** [s.endswith(nl)] *)
Fixpoint ends_with_newline (s : string) : bool :=
  match s with
  | EmptyString => false
  | String c EmptyString => bool_decide (c = newline)
  | String _ s => ends_with_newline s
  end.

(** [s[:n]] and [s[-n:]] for [0 < n] *)
Definition str_head (n : nat) (s : string) : string := String.substring 0 n s.
Definition str_tail (n : nat) (s : string) : string := String.substring (String.length s - n) n s.

(** ** Framing *)

Definition MARKER_START : string := "///PROCESS-DONE:".
Definition MARKER_END : string := ":PROCESS-DONE///".
Definition dquote : string := String "034"%char EmptyString.

Definition wrap_command (command : string) : string :=
  (if ends_with_newline command then command else command ++ nl) ++
  "EXITSTATUS=" ++ dquote ++ "$?" ++ dquote ++ "; sleep 0.01; echo " ++ MARKER_START ++ "$EXITSTATUS" ++ MARKER_END ++ nl.

(** [(.+?)END]: the shortest non-empty run without line break before [END];
    the group and what follows the match. *)
Fixpoint lazy_group (s : string) : option (string * string) :=
  match s with
  | EmptyString => None
  | String c s =>
      if decide (c = newline) then None
      else
        match strip_prefix MARKER_END s with
        | Some after => Some (String c EmptyString, after)
        | None => match lazy_group s with Some (g, after) => Some (String c g, after) | None => None end
        end
  end.

(** [_SENTINEL_REGEX.search]: what precedes the leftmost match, its group, and
    what follows it. *)
Fixpoint sentinel_search (s : string) : option (string * string * string) :=
  match strip_prefix MARKER_START s ≫= lazy_group with
  | Some (g, after) => Some (EmptyString, g, after)
  | None =>
      match s with
      | EmptyString => None
      | String c s => match sentinel_search s with Some (before, g, after) => Some (String c before, g, after) | None => None end
      end
  end.

(** The body and the exit code, which is [None] when it is not an integer. *)
Definition parse_sentinel (buffer : string) : option (string * option Z) :=
  match sentinel_search buffer with
  | Some (before, status, after) => Some (before ++ after, py_int status)
  | None => None
  end.

(** ** Observations *)

Definition truncation_notice (omitted : Z) : string := nl ++ "... " ++ str_of_Z omitted ++ " characters omitted ..." ++ nl.

Definition slen (s : string) : Z := Z.of_nat (String.length s).

Definition truncate_observation (text : string) (max_chars : Z) : string :=
  if bool_decide (max_chars ≤ 0 ∨ slen text ≤ max_chars * 2) then text
  else
    let per_side := (max_chars * 2 - slen (truncation_notice (slen text))) / 2 in
    let per_side := if bool_decide (per_side ≤ 0) then 0 else per_side in
    let notice := truncation_notice (slen text - per_side * 2) in
    let n := Z.to_nat per_side in
    (if bool_decide (0 < per_side) then str_head n text else EmptyString) ++ notice ++
    (if bool_decide (0 < per_side) then str_tail n text else EmptyString).

(** ** Containers *)

Record SandboxSpec := mkSpec {
  image : string;
  cpus : option string;
  memory : option string;
  gpus : Z;
  mounts : list (string * string * string);
  env : list (string * string);
  network : string;
  labels : list (string * string);
  startup_timeout_s : Z;
  idle_timeout_s : Z;
}.

Record ExecResult := mkExec { stdout : string; exit_code : option Z; timed_out : bool; duration_s : Z }.

Definition NVIDIA_CONTROL_DEVICES : list string := ["/dev/nvidiactl"; "/dev/nvidia-uvm"; "/dev/nvidia-uvm-tools"].
Definition DEFAULT_DRIVER_LIB_GLOBS : list string := ["/usr/lib64/libnvidia-ml.so.1"; "/usr/lib64/libcuda.so.1"].
Definition DEFAULT_NVIDIA_SMI_PATH : string := "/usr/bin/nvidia-smi".

(** Lexicographic order on strings, and [sorted] of distinct strings. *)
Fixpoint str_leb (a b : string) : bool :=
  match a, b with
  | EmptyString, _ => true
  | String _ _, EmptyString => false
  | String x a, String y b =>
      if decide (x = y) then str_leb a b else bool_decide (N_of_ascii x < N_of_ascii y)%N
  end.

Fixpoint insert_str (x : string) (l : list string) : list string :=
  match l with [] => [x] | y :: l' => if str_leb x y then x :: l else y :: insert_str x l' end.
Definition sort_str (l : list string) : list string := foldr insert_str [] l.

Section argv.
(** [os.path.exists] *)
Context (exists_path : string → bool).

Definition bind_mount (p : string) : list string := ["-v"; p ++ ":" ++ p ++ ":ro"].

Definition build_gpu_argv (indices : list Z) (driver_libs : list string) (smi : string) : list string :=
  if bool_decide (indices = []) then []
  else
    (indices ≫= λ i, ["--device"; "/dev/nvidia" ++ str_of_Z i]) ++
    (NVIDIA_CONTROL_DEVICES ≫= λ d, if exists_path d then ["--device"; d] else []) ++
    (driver_libs ≫= λ p, if exists_path p then bind_mount p else []) ++
    (if exists_path smi then bind_mount smi else []).

(** [key=value] of the sorted keys. *)
Definition sorted_items (flag : string) (d : list (string * string)) : list string :=
  sort_str d.*1 ≫= λ k, [flag; k ++ "=" ++ default EmptyString (assoc k d)].

Definition build_docker_run_argv (spec : SandboxSpec) (container_name : string) (indices : list Z)
    (driver_libs : list string) (smi : string) : Res (list string) :=
  if bool_decide (Z.of_nat (length indices) ≠ gpus spec) then inl ValueError
  else inr (
    ["docker"; "run"; "-i"; "--rm"; "--name"; container_name] ++
    (if bool_decide (network spec = EmptyString) then [] else ["--network"; network spec]) ++
    (match cpus spec with Some c => [("--cpus=" ++ c)%string] | None => [] end) ++
    (match memory spec with Some m => [("--memory=" ++ m)%string] | None => [] end) ++
    (mounts spec ≫= λ '(host, container, mode), ["-v"; (host ++ ":" ++ container ++ ":" ++ mode)%string]) ++
    sorted_items "-e" (env spec) ++
    sorted_items "--label" (labels spec) ++
    build_gpu_argv indices driver_libs smi ++
    [image spec; "/bin/bash"; "-l"])%list.
End argv.

(** ** The sentinel round trip *)

Lemma strip_prefix_app p s : strip_prefix p (p ++ s) = Some s.
Proof. induction p as [|c p IH]; [done|]. simpl. by rewrite decide_True. Qed.

Lemma append_assoc (a b c : string) : (a ++ b) ++ c = a ++ b ++ c.
Proof. induction a as [|x a IH]; [done|]. exact (f_equal (String x) IH). Qed.

Lemma append_nil_r (a : string) : a ++ EmptyString = a.
Proof. induction a as [|x a IH]; [done|]. exact (f_equal (String x) IH). Qed.

(** A marker does not start in the middle of the string before it. *)
Lemma marker_not_across u s : u ≠ EmptyString → contains MARKER_START u = false → strip_prefix MARKER_START (u ++ MARKER_START ++ s) = None.
Proof.
  intros Hu Hc. unfold MARKER_START in *. destruct u as [|c u]; [done|]; clear Hu.
  do 15 (simpl; case_decide; [subst|done]; destruct u as [|? u]; [vm_compute; reflexivity|]).
  simpl; case_decide; [subst|done]. vm_compute in Hc. done.
Qed.

(** A status that the lazy group takes whole. *)
Fixpoint plain (s : string) : bool :=
  match s with EmptyString => true | String c s => negb (bool_decide (c = newline ∨ c = ":"%char)) && plain s end.

Lemma strip_end_plain c s : c ≠ ":"%char → strip_prefix MARKER_END (String c s) = None.
Proof. intros Hc. unfold MARKER_END. simpl. by rewrite decide_False by congruence. Qed.

Lemma lazy_group_plain status after : status ≠ EmptyString → plain status = true →
  lazy_group (status ++ MARKER_END ++ after) = Some (status, after).
Proof.
  induction status as [|c s IH]; intros Hne Hp; [done|]. simpl in Hp. apply andb_true_iff in Hp as [Hc Hp].
  apply negb_true_iff, bool_decide_eq_false in Hc. change (String c s ++ MARKER_END ++ after) with (String c (s ++ MARKER_END ++ after)).
  cbn [lazy_group]. rewrite decide_False by naive_solver. destruct s as [|c' s].
  - change (EmptyString ++ MARKER_END ++ after) with (MARKER_END ++ after). by rewrite strip_prefix_app.
  - simpl in Hp. apply andb_true_iff in Hp as [Hc' Hp]. apply negb_true_iff, bool_decide_eq_false in Hc'.
    change (String c' s ++ MARKER_END ++ after) with (String c' (s ++ MARKER_END ++ after)) in *.
    rewrite strip_end_plain by naive_solver. rewrite IH; [done|done|]. simpl. apply andb_true_iff. split; [|done].
    by apply negb_true_iff, bool_decide_eq_false.
Qed.

Lemma sentinel_search_unfold s : sentinel_search s =
  match strip_prefix MARKER_START s ≫= lazy_group with
  | Some (g, after) => Some (EmptyString, g, after)
  | None => match s with
            | EmptyString => None
            | String c s => match sentinel_search s with Some (before, g, after) => Some (String c before, g, after) | None => None end
            end
  end.
Proof. by destruct s. Qed.

Lemma contains_tail p c s : contains p (String c s) = false → contains p s = false.
Proof. simpl. by destruct (strip_prefix p (String c s)). Qed.

Lemma sentinel_search_found body status after : contains MARKER_START body = false → status ≠ EmptyString → plain status = true →
  sentinel_search (body ++ MARKER_START ++ status ++ MARKER_END ++ after) = Some (body, status, after).
Proof.
  intros Hb Hne Hp. induction body as [|c body IH].
  - change (EmptyString ++ ?s) with s. rewrite sentinel_search_unfold, strip_prefix_app. cbn [mbind option_bind]. by rewrite lazy_group_plain.
  - rewrite sentinel_search_unfold. rewrite marker_not_across by done. cbn [mbind option_bind].
    change (String c body ++ ?s) with (String c (body ++ s)). cbv iota. by rewrite IH by (by eapply contains_tail).
Qed.

Lemma exit_status_plain n : 0 ≤ n < 256 → str_of_Z n ≠ EmptyString ∧ plain (str_of_Z n) = true.
Proof.
  intros Hn. assert (∀ k : nat, (k < 256)%nat → bool_decide (str_of_Z (Z.of_nat k) ≠ EmptyString) && plain (str_of_Z (Z.of_nat k)) = true) as H.
  { intros k Hk. assert (Forall (λ k : nat, bool_decide (str_of_Z (Z.of_nat k) ≠ EmptyString) && plain (str_of_Z (Z.of_nat k)) = true) (seq 0 256)) as Hall.
    { apply (bool_decide_unpack _). vm_compute. exact I. }
    rewrite Forall_forall in Hall. apply Hall, elem_of_seq. lia. }
  specialize (H (Z.to_nat n)). rewrite Z2Nat.id in H by lia. apply andb_true_iff in H as [H1 H2]; [|lia]. by apply bool_decide_eq_true in H1.
Qed.

(** What a shell prints for a wrapped command, the output of the command and then
    the sentinel with its exit status, is parsed back into output and status,
    whatever follows, as long as the output itself has no marker. *)
Theorem sentinel_round_trip body status after : contains MARKER_START body = false → 0 ≤ status < 256 →
  parse_sentinel (body ++ MARKER_START ++ str_of_Z status ++ MARKER_END ++ after) = Some (body ++ after, Some status).
Proof.
  intros Hb Hs. destruct (exit_status_plain status Hs) as [H1 H2]. unfold parse_sentinel.
  rewrite sentinel_search_found by done. by rewrite py_int_str.
Qed.

Lemma sentinel_round_trip_witness :
  parse_sentinel ("ok" ++ nl ++ MARKER_START ++ "7" ++ MARKER_END ++ nl) = Some ("ok" ++ nl ++ nl, Some 7).
Proof. exact (sentinel_round_trip ("ok" ++ nl) 7 nl eq_refl ltac:(lia)). Defined.

(** ** Bounds of an observation *)

Lemma length_append a b : String.length (a ++ b) = (String.length a + String.length b)%nat.
Proof. induction a as [|c a IH]; [done|]. simpl. by rewrite IH. Qed.

Lemma length_substring n s k : (String.length (String.substring k n s) ≤ n)%nat.
Proof.
  revert k n. induction s as [|c s IH]; intros k n; [destruct k, n; simpl; lia|].
  destruct k as [|k]; simpl; [destruct n; simpl; [lia|]; specialize (IH 0%nat n); lia|apply IH].
Qed.

Lemma length_pretty_go (x : N) s : (0 < x)%N → (1 + String.length s ≤ String.length (pretty_N_go x s))%nat.
Proof.
  revert s. induction (N.lt_wf_0 x) as [x _ IH]; intros s Hx. rewrite pretty_N_go_step by done.
  destruct (decide (x < 10)%N) as [H|H].
  - rewrite N.div_small by done. rewrite pretty_N_go_0. simpl. lia.
  - etrans; [|apply IH; [apply N.div_lt; lia|]]; [simpl; lia|]. pose proof (N.div_str_pos x 10). lia.
Qed.

(** The number of digits grows with the number. *)
Lemma length_pretty_mono (x y : N) s t : String.length s = String.length t → (0 < x ≤ y)%N →
  (String.length (pretty_N_go x s) ≤ String.length (pretty_N_go y t))%nat.
Proof.
  revert y s t. induction (N.lt_wf_0 x) as [x _ IH]; intros y s t Hl Hxy. rewrite (pretty_N_go_step x), (pretty_N_go_step y) by lia.
  destruct (decide (x < 10)%N) as [H|H].
  - rewrite (N.div_small x) by done. rewrite pretty_N_go_0. destruct (decide (y < 10)%N) as [H'|H'].
    + rewrite (N.div_small y), pretty_N_go_0 by done. simpl. lia.
    + pose proof (length_pretty_go (y / 10) (String (pretty_N_char (y mod 10)) t)). pose proof (N.div_str_pos y 10). simpl in *. lia.
  - apply IH; [apply N.div_lt; lia|simpl; lia|]. pose proof (N.div_str_pos x 10). pose proof (N.Div0.div_le_mono x y 10). lia.
Qed.

Lemma length_str_mono a b : 0 ≤ a ≤ b → (String.length (str_of_Z a) ≤ String.length (str_of_Z b))%nat.
Proof.
  intros Hab. assert (∀ x, str_of_Z (Z.pos x) = pretty_N_go (N.pos x) EmptyString) as E
    by (intros x; unfold str_of_Z, pretty, pretty_Z, pretty_positive, pretty, pretty_N; by rewrite decide_False by done).
  destruct a as [|a|a], b as [|b|b]; try lia; rewrite ?E.
  - pose proof (length_pretty_go (N.pos b) EmptyString). change (String.length (str_of_Z 0)) with 1%nat. simpl in *. lia.
  - apply length_pretty_mono; [done|lia].
Qed.

Lemma notice_mono a b : 0 ≤ a ≤ b → slen (truncation_notice a) ≤ slen (truncation_notice b).
Proof. intros H%length_str_mono. unfold slen, truncation_notice. rewrite !length_append. lia. Qed.

(** An observation has at most twice [max_chars] characters, provided the notice
    itself fits; it is shortened only when it is longer. *)
Theorem truncate_bound text max_chars : 0 < max_chars → slen (truncation_notice (slen text)) ≤ max_chars * 2 →
  slen (truncate_observation text max_chars) ≤ max_chars * 2 ∧
  (slen text ≤ max_chars * 2 → truncate_observation text max_chars = text).
Proof.
  intros Hm Hn. unfold truncate_observation. case_bool_decide as H; [split; [destruct H; lia|done]|]. split; [|tauto].
  set (notice := slen (truncation_notice (slen text))) in *. set (per := (max_chars * 2 - notice) / 2).
  assert (0 ≤ per ∧ 2 * per ≤ max_chars * 2 - notice) as [Hp Hp2].
  { unfold per. pose proof (Z.mul_div_le (max_chars * 2 - notice) 2). pose proof (Z.div_pos (max_chars * 2 - notice) 2). lia. }
  assert (slen (truncation_notice (slen text - per * 2)) ≤ notice) as Hle.
  { apply notice_mono. assert (0 ≤ notice) by (unfold notice, slen; lia). clearbody notice per. lia. }
  clearbody notice per. destruct (decide (per ≤ 0)) as [H0|H0].
  - rewrite (bool_decide_eq_true_2 (per ≤ 0)) by done. rewrite bool_decide_eq_false_2 by lia. assert (per = 0) as E by lia. rewrite E in *.
    unfold slen in *. rewrite !length_append. simpl in *. lia.
  - rewrite (bool_decide_eq_false_2 (per ≤ 0)) by done. rewrite bool_decide_eq_true_2 by lia. unfold slen in *. rewrite !length_append.
    pose proof (length_substring (Z.to_nat per) text 0). pose proof (length_substring (Z.to_nat per) text (String.length text - Z.to_nat per)).
    unfold str_head, str_tail. lia.
Qed.

Lemma truncate_bound_witness : slen (truncate_observation "0123456789012345678901234567890123456789012345678901234567890123456789" 20) ≤ 40.
Proof. apply (truncate_bound "0123456789012345678901234567890123456789012345678901234567890123456789" 20); [lia|vm_compute; discriminate]. Defined.

(** With a smaller budget the notice alone exceeds it. *)
Example small_budget_exceeded : slen (truncate_observation "0123456789" 3) = 31.
Proof. vm_compute. reflexivity. Qed.
