(* ===== verification/EnvWorker.v ===== *)
(** * Environment workers

    [psrl/workers/env_worker/worker.py]: an [EnvWorker] owns the containers of its
    node, hands out its GPUs and runs commands in the persistent shell of each
    sandbox; [psrl/workers/env_worker/manager.py]: where the workers are placed.

    Several calls are in progress at once in the worker's event loop.  A command
    in progress is an [ExecTask]; it holds a reference to its [ContainerShell],
    which lives in a heap because two commands, or a command and
    [destroy_sandbox], can use one shell.  Each iteration of [read_until] is one
    step with the chunk that [os.read] returned (decoded, empty when nothing was
    there) and the clock reading it takes; the clock readings are integers of
    some unit.  Whether [Popen] or a write to the pipe raises is an argument. *)

From Stdlib Require Import Ascii.
From S2P Require Import Prelude.
From S2P Require Import PyFloat.
From S2P Require Import PyData.
From S2P Require Import EnvCoordinator.
From S2P Require Import EnvShell.

#[local] Open Scope string_scope.
#[local] Open Scope Z_scope.

(** ** State *)

Record ContainerShell := mkShell { container_name : string; shell_buffer : string; shell_closed : bool }.

Definition with_shell_buffer b (s : ContainerShell) := mkShell (container_name s) b (shell_closed s).

(** What waits for a command: the caller of [exec], the readiness probe of
    [create_sandbox], or [write_file]. *)
Inductive ExecCaller :=
  | ForCaller
  | ForProbe
  | ForWrite.

Record ExecTask := mkTask {
  t_sandbox : string;
  t_shell : nat;
  t_caller : ExecCaller;
  t_started : Z;
  t_deadline : Z;
  t_silence : Z;
  t_last_output : Z;
}.

Definition with_last_output v (t : ExecTask) :=
  mkTask (t_sandbox t) (t_shell t) (t_caller t) (t_started t) (t_deadline t) (t_silence t) v.

Record EnvWorker := mkEnvWorker {
  available_gpu_indices : list Z;
  max_observation_chars : Z;
  idle_sandbox_timeout_s : Z;
  shells : list (string * nat);
  container_names : list (string * string);
  sandbox_gpus : list (string * list Z);
  last_used_at : list (string * Z);
  busy_gpu_indices : gset Z;
  shell_heap : list ContainerShell;
  exec_tasks : list ExecTask;
}.

Definition with_shells v (w : EnvWorker) := mkEnvWorker (available_gpu_indices w) (max_observation_chars w) (idle_sandbox_timeout_s w)
  v (container_names w) (sandbox_gpus w) (last_used_at w) (busy_gpu_indices w) (shell_heap w) (exec_tasks w).
Definition with_container_names v (w : EnvWorker) := mkEnvWorker (available_gpu_indices w) (max_observation_chars w) (idle_sandbox_timeout_s w)
  (shells w) v (sandbox_gpus w) (last_used_at w) (busy_gpu_indices w) (shell_heap w) (exec_tasks w).
Definition with_sandbox_gpus v (w : EnvWorker) := mkEnvWorker (available_gpu_indices w) (max_observation_chars w) (idle_sandbox_timeout_s w)
  (shells w) (container_names w) v (last_used_at w) (busy_gpu_indices w) (shell_heap w) (exec_tasks w).
Definition with_last_used v (w : EnvWorker) := mkEnvWorker (available_gpu_indices w) (max_observation_chars w) (idle_sandbox_timeout_s w)
  (shells w) (container_names w) (sandbox_gpus w) v (busy_gpu_indices w) (shell_heap w) (exec_tasks w).
Definition with_busy v (w : EnvWorker) := mkEnvWorker (available_gpu_indices w) (max_observation_chars w) (idle_sandbox_timeout_s w)
  (shells w) (container_names w) (sandbox_gpus w) (last_used_at w) v (shell_heap w) (exec_tasks w).
Definition with_heap v (w : EnvWorker) := mkEnvWorker (available_gpu_indices w) (max_observation_chars w) (idle_sandbox_timeout_s w)
  (shells w) (container_names w) (sandbox_gpus w) (last_used_at w) (busy_gpu_indices w) v (exec_tasks w).
Definition with_tasks v (w : EnvWorker) := mkEnvWorker (available_gpu_indices w) (max_observation_chars w) (idle_sandbox_timeout_s w)
  (shells w) (container_names w) (sandbox_gpus w) (last_used_at w) (busy_gpu_indices w) (shell_heap w) v.

Abbreviation Wk A := (M EnvWorker A).

(** ** Construction *)

(** [s.split(",")] *)
Fixpoint split_comma_go (cur s : string) : list string :=
  match s with
  | EmptyString => [cur]
  | String c s => if decide (c = ","%char) then cur :: split_comma_go EmptyString s else split_comma_go (cur ++ String c EmptyString) s
  end.
Definition split_comma (s : string) : list string := split_comma_go EmptyString s.

(** The GPUs that [CUDA_VISIBLE_DEVICES] names; [int] raises on other tokens. *)
Definition parse_visible (visible : string) : Res (list Z) :=
  if all_space visible then inr []
  else map_res (λ part, match py_int part with Some n => inr n | None => inl ValueError end)
         (filter (λ part, all_space part = false) (split_comma visible)).

Definition new_worker (max_chars idle : Z) (visible : string) : Res EnvWorker :=
  match parse_visible visible with
  | inr gpus => inr (mkEnvWorker gpus max_chars idle [] [] [] [] ∅ [] [])
  | inl e => inl e
  end.

(** ** Operations *)

(** [l[:n]] *)
Definition py_take {A} (n : Z) (l : list A) : list A :=
  if bool_decide (0 ≤ n) then take (Z.to_nat n) l else take (length l - Z.to_nat (- n)) l.

Definition free_gpus (w : EnvWorker) : list Z := filter (λ i, i ∉ busy_gpu_indices w) (available_gpu_indices w).

Definition allocate_gpu_indices (count : Z) : Wk (list Z) :=
  if bool_decide (count = 0) then mret []
  else
    free ← gets free_gpus;
    if bool_decide (Z.of_nat (length free) < count) then raise RuntimeError
    else
      let chosen := py_take count free in
      modify (λ w, with_busy (busy_gpu_indices w ∪ list_to_set chosen) w) ;;
      mret chosen.

Definition SANDBOX_LABEL_KEY : string := "psrl.env_sandbox_id".
Definition ACTOR_LABEL_KEY : string := "psrl.actor_id".

Definition build_labels (actor_id : string) (spec : SandboxSpec) (sandbox_id : string) : list (string * string) :=
  let labels := dict_set SANDBOX_LABEL_KEY sandbox_id (labels spec) in
  if bool_decide (actor_id = EmptyString) then labels else dict_set ACTOR_LABEL_KEY actor_id labels.

Definition labelled (actor_id : string) (spec : SandboxSpec) (sandbox_id : string) : SandboxSpec :=
  mkSpec (image spec) (cpus spec) (memory spec) (gpus spec) (mounts spec) (env spec) (network spec)
    (build_labels actor_id spec sandbox_id) (startup_timeout_s spec) (idle_timeout_s spec).

(** [drain]: the buffer and everything that can be read right now are dropped. *)
Definition drain (available : string) (s : ContainerShell) : ContainerShell * string :=
  (with_shell_buffer EmptyString s, shell_buffer s ++ available).

Definition update_heap (r : nat) (f : ContainerShell → ContainerShell) (w : EnvWorker) : EnvWorker :=
  with_heap (alter f r (shell_heap w)) w.

(** [exec] up to its first wait.  [available] is what the drain reads,
    [write_error] the exception of the write, if any. *)
Definition exec_begin (caller : ExecCaller) (sandbox_id command : string) (timeout_s : Z) (no_output_timeout_s : option Z)
    (available : string) (write_error : option exn) (now : Z) : Wk unit :=
  r ← gets (λ w, assoc sandbox_id (shells w));
  match r with
  | None => raise KeyError
  | Some r =>
      modify (update_heap r (λ s, (drain available s).1)) ;;
      match write_error with
      | Some e => raise e
      | None =>
          let silence := default timeout_s no_output_timeout_s in
          modify (λ w, with_tasks (exec_tasks w ++ [mkTask sandbox_id r caller now (now + timeout_s) silence now]) w)
      end
  end.

(** One iteration of the loop of [read_until]: the buffer after it, and whether
    the loop ends or goes on with a new time of the last output. *)
Definition read_step (buffer chunk : string) (now deadline silence last_output : Z) : string * option Z :=
  if bool_decide (chunk = EmptyString) then
    (buffer, if bool_decide (deadline ≤ now) then None else if bool_decide (silence ≤ now - last_output) then None else Some last_output)
  else
    (buffer ++ chunk, if bool_decide (is_Some (parse_sentinel (buffer ++ chunk))) then None else Some now).

(** The loop of [read_until] over the chunks and clock readings of its iterations;
    the buffer with the last clock reading, or [None] when they are used up and
    it still reads. *)
Fixpoint read_until (buffer : string) (polls : list (string * Z)) (deadline silence last_output : Z) : option (string * Z) :=
  match polls with
  | [] => None
  | (chunk, now) :: polls =>
      match read_step buffer chunk now deadline silence last_output with
      | (buffer, None) => Some (buffer, now)
      | (buffer, Some last) => read_until buffer polls deadline silence last
      end
  end.

Definition destroy_sandbox (sandbox_id : string) : Wk unit :=
  shell ← gets (λ w, assoc sandbox_id (shells w));
  modify (λ w, with_shells (dict_pop sandbox_id (shells w)) w) ;;
  modify (λ w, with_container_names (dict_pop sandbox_id (container_names w)) w) ;;
  indices ← gets (λ w, default [] (assoc sandbox_id (sandbox_gpus w)));
  modify (λ w, with_sandbox_gpus (dict_pop sandbox_id (sandbox_gpus w)) w) ;;
  modify (λ w, with_busy (busy_gpu_indices w ∖ list_to_set indices) w) ;;
  modify (λ w, with_last_used (dict_pop sandbox_id (last_used_at w)) w) ;;
  match shell with
  | Some r => modify (update_heap r (λ s, mkShell (container_name s) (shell_buffer s) true))
  | None => mret tt
  end.

(** What [exec] returns once the loop has ended with [buffer]. *)
Definition exec_end (t : ExecTask) (buffer : string) (now : Z) : Wk ExecResult :=
  modify (λ w, with_last_used (dict_set (t_sandbox t) now (last_used_at w)) w) ;;
  limit ← gets max_observation_chars;
  mret match parse_sentinel buffer with
       | None => mkExec (truncate_observation buffer limit) None true (now - t_started t)
       | Some (body, code) => mkExec (truncate_observation body limit) code false (now - t_started t)
       end.

(** [create_sandbox] and [write_file] after their command. *)
Definition resume (t : ExecTask) (r : ExecResult) : Wk ExecResult :=
  match t_caller t with
  | ForCaller => mret r
  | ForProbe =>
      if timed_out r || negb (contains "ready" (stdout r)) then destroy_sandbox (t_sandbox t) ;; raise RuntimeError
      else mret r
  | ForWrite =>
      if timed_out r || negb (bool_decide (exit_code r = Some 0 ∨ exit_code r = None)) then raise RuntimeError else mret r
  end.

(** One iteration of the command [i]: [None] when it goes on. *)
Definition exec_poll (i : nat) (chunk : string) (now : Z) : Wk (option ExecResult) :=
  w ← gets id;
  match exec_tasks w !! i with
  | None => mret None
  | Some t =>
      match shell_heap w !! t_shell t with
      | None => mret None
      | Some s =>
          let (buffer, next) := read_step (shell_buffer s) chunk now (t_deadline t) (t_silence t) (t_last_output t) in
          match next with
          | Some last =>
              modify (update_heap (t_shell t) (with_shell_buffer buffer)) ;;
              modify (λ w, with_tasks (<[i := with_last_output last t]> (exec_tasks w)) w) ;;
              mret None
          | None =>
              modify (update_heap (t_shell t) (with_shell_buffer EmptyString)) ;;
              modify (λ w, with_tasks (delete i (exec_tasks w)) w) ;;
              r ← exec_end t buffer now;
              r ← resume t r;
              mret (Some r)
          end
      end
  end.

(** A command followed through the given iterations. *)
Fixpoint exec_polls (i : nat) (polls : list (string * Z)) : Wk (option ExecResult) :=
  match polls with
  | [] => mret None
  | (chunk, now) :: polls =>
      r ← exec_poll i chunk now;
      match r with Some r => mret (Some r) | None => exec_polls i polls end
  end.

Section worker.
Context (exists_path : string → bool).

(** [create_sandbox] up to the first wait of its readiness probe.  [popen_error]
    is the exception of starting the container, if any. *)
Definition create_sandbox (actor_id sandbox_id : string) (spec : SandboxSpec) (popen_error : option exn)
    (available : string) (write_error : option exn) (now : Z) : Wk unit :=
  let container := "psrl-env-" ++ sandbox_id in
  indices ← allocate_gpu_indices (gpus spec);
  _argv ← of_res (build_docker_run_argv exists_path (labelled actor_id spec sandbox_id) container indices
                    DEFAULT_DRIVER_LIB_GLOBS DEFAULT_NVIDIA_SMI_PATH);
  match popen_error with
  | Some e => modify (λ w, with_busy (busy_gpu_indices w ∖ list_to_set indices) w) ;; raise e
  | None =>
      r ← gets (λ w, length (shell_heap w));
      modify (λ w, with_heap (shell_heap w ++ [mkShell container EmptyString false]) w) ;;
      modify (λ w, with_shells (dict_set sandbox_id r (shells w)) w) ;;
      modify (λ w, with_container_names (dict_set sandbox_id container (container_names w)) w) ;;
      modify (λ w, with_sandbox_gpus (dict_set sandbox_id indices (sandbox_gpus w)) w) ;;
      modify (λ w, with_last_used (dict_set sandbox_id now (last_used_at w)) w) ;;
      exec_begin ForProbe sandbox_id "echo ready" (startup_timeout_s spec) None available write_error now
  end.
End worker.

(** [read_file]: the exit code and the output of [docker exec ... cat]. *)
Definition read_file (sandbox_id : string) (run : string → Z * string) : Wk string :=
  c ← gets (λ w, assoc sandbox_id (container_names w));
  match c with
  | None => raise KeyError
  | Some c => let (code, out) := run c in if bool_decide (code = 0) then mret out else raise RuntimeError
  end.

(** ** [shlex.quote] and [base64.b64encode] *)

(** ASCII [\w] or one of [@%+=:,./-] *)
Definition is_safe (c : ascii) : bool :=
  let n := N_of_ascii c in
  bool_decide (48 ≤ n ∧ n ≤ 57 ∨ 65 ≤ n ∧ n ≤ 90 ∨ 97 ≤ n ∧ n ≤ 122 ∨ n = 95)%N ||
  bool_decide (c ∈ ["@"%char; "%"%char; "+"%char; "="%char; ":"%char; ","%char; "."%char; "/"%char; "-"%char]).

Fixpoint all_safe (s : string) : bool :=
  match s with EmptyString => true | String c s => is_safe c && all_safe s end.

Definition squote : ascii := "'"%char.
Definition quote_escape : string := String squote (dquote ++ String squote (dquote ++ String squote EmptyString)).

Fixpoint escape_quotes (s : string) : string :=
  match s with
  | EmptyString => EmptyString
  | String c s => if decide (c = squote) then quote_escape ++ escape_quotes s else String c (escape_quotes s)
  end.

Definition shlex_quote (s : string) : string :=
  if bool_decide (s = EmptyString) then "''"
  else if all_safe s then s
  else String squote (escape_quotes s ++ String squote EmptyString).

Definition b64_char (n : Z) : ascii :=
  if bool_decide (n < 26) then ascii_of_N (Z.to_N (65 + n))
  else if bool_decide (n < 52) then ascii_of_N (Z.to_N (97 + (n - 26)))
  else if bool_decide (n < 62) then ascii_of_N (Z.to_N (48 + (n - 52)))
  else if bool_decide (n = 62) then "+"%char else "/"%char.

(** Three bytes at a time, padded with [=]. *)
Fixpoint b64encode (data : list Z) : string :=
  match data with
  | a :: b :: c :: rest =>
      String (b64_char (Z.shiftr a 2)) (String (b64_char (Z.lor (Z.shiftl (Z.land a 3) 4) (Z.shiftr b 4)))
        (String (b64_char (Z.lor (Z.shiftl (Z.land b 15) 2) (Z.shiftr c 6))) (String (b64_char (Z.land c 63)) (b64encode rest))))
  | [a; b] =>
      String (b64_char (Z.shiftr a 2)) (String (b64_char (Z.lor (Z.shiftl (Z.land a 3) 4) (Z.shiftr b 4)))
        (String (b64_char (Z.shiftl (Z.land b 15) 2)) "="))
  | [a] => String (b64_char (Z.shiftr a 2)) (String (b64_char (Z.shiftl (Z.land a 3) 4)) "==")
  | [] => EmptyString
  end.

Definition write_command (path : string) (data : list Z) : string :=
  "printf %s " ++ shlex_quote (b64encode data) ++ " | base64 -d > " ++ shlex_quote path.

(** [write_file] up to the first wait of its command. *)
Definition write_file (sandbox_id path : string) (data : list Z) (available : string) (write_error : option exn) (now : Z) : Wk unit :=
  exec_begin ForWrite sandbox_id (write_command path data) 120 None available write_error now.

(** ** Idle sandboxes *)

Definition idle (now : Z) (w : EnvWorker) : list string :=
  (filter (λ p, idle_sandbox_timeout_s w < now - p.2) (last_used_at w)).*1.

Definition reap_idle_sandboxes (now : Z) : Wk (list string) :=
  stale ← gets (idle now);
  for_each stale destroy_sandbox ;;
  mret stale.

Definition live_sandbox_count (w : EnvWorker) : nat := length (shells w).

(** ** Placement *)

Record PlacementConfig := mkPlacement { placement : string; dedicated_node_ips : option (list string) }.

Definition resolve_placement_node_ips (config : PlacementConfig) (alive : list string) : Res (list string) :=
  if bool_decide (placement config = "colocated") then inr alive
  else if bool_decide (placement config = "dedicated") then
    let dedicated := default [] (dedicated_node_ips config) in
    if bool_decide (dedicated = []) then inl ValueError
    else if bool_decide (filter (λ ip, ip ∉ alive) dedicated = []) then inr dedicated
    else inl ValueError
  else inl ValueError.

(** The worker ids and nodes in the order of creation. *)
Definition planned_workers (target_ips : list string) (workers_per_node : nat) : list (Z * string) :=
  imap (λ i ip, (Z.of_nat i, ip)) (target_ips ≫= λ ip, replicate workers_per_node ip).

(** The constructor of [EnvWorkerManager]: each worker is started and registered
    with the coordinator; [handle_of] is the actor handle that Ray returns. *)
Definition manager_init (config : PlacementConfig) (routing : string) (counter : nat) (alive : list string)
    (cpu_slots gpu_slots : Z) (workers_per_node : nat) (handle_of : Z → N) : Res (EnvWorkerCoordinator * list (Z * string)) :=
  match resolve_placement_node_ips config alive with
  | inl e => inl e
  | inr ips =>
      let ws := planned_workers ips workers_per_node in
      let c := final (for_each ws (λ '(wid, ip), register_worker (handle_of wid) wid cpu_slots gpu_slots ip) (new_coordinator routing counter)) in
      inr (c, ws)
  end.
