(* ===== verification/EnvWorkerTheorems.v ===== *)
(** * Environment workers: GPU accounting, commands and quoting

    The theorems about [EnvWorker.v]: the GPUs of a worker are exactly those of its
    registered sandboxes in every interleaving; what a command returns for the
    chunks the shell delivers; [shlex.quote] against a reference word evaluator;
    and the placement of the workers. *)

From Stdlib Require Import Ascii.
From S2P Require Import Prelude.
From S2P Require Import PyFloat.
From S2P Require Import PyData.
From S2P Require Import EnvCoordinator.
From S2P Require Import EnvShell.
From S2P Require Import EnvWorker.

#[local] Open Scope string_scope.
#[local] Open Scope Z_scope.

(** An invariant of the state passes through a sequence, whether it raises or not. *)
Lemma final_bind {S A B} (I : S → Prop) (m : M S A) (k : A → M S B) s :
  I (final (m s)) → (∀ a s', I s' → I (final (k a s'))) → I (final ((m ≫= k) s)).
Proof. intros Hm Hk. unfold mbind, M_bind. destruct (m s); [by apply Hk|done]. Qed.

(** ** The registered sandboxes and their GPUs *)

Definition Accounts : Type := list Z * list string * list string * list (string * list Z) * gset Z.

Definition accounts (w : EnvWorker) : Accounts :=
  (available_gpu_indices w, (shells w).*1, (container_names w).*1, sandbox_gpus w, busy_gpu_indices w).

Record accounts_ok (a : Accounts) : Prop := {
  acc_keys : let '(_, sh, cn, g, _) := a in NoDup sh ∧ cn = sh ∧ g.*1 = sh;
  acc_busy i : let '(_, _, _, g, busy) := a in i ∈ busy ↔ ∃ sid l, (sid, l) ∈ g ∧ i ∈ l;
  acc_disjoint sid sid' l l' i : let '(_, _, _, g, _) := a in (sid, l) ∈ g → (sid', l') ∈ g → i ∈ l → i ∈ l' → sid = sid';
  acc_available sid l i : let '(av, _, _, g, _) := a in (sid, l) ∈ g → i ∈ l → i ∈ av;
}.

(** References to shells stay within the heap. *)
Definition refs_ok (w : EnvWorker) : Prop :=
  (∀ sid r, (sid, r) ∈ shells w → (r < length (shell_heap w))%nat) ∧
  (∀ t, t ∈ exec_tasks w → (t_shell t < length (shell_heap w))%nat).

Definition worker_ok (w : EnvWorker) : Prop := accounts_ok (accounts w) ∧ refs_ok w.

Section steps.
Context (exists_path : string → bool).

(** The steps of the worker's event loop, failed calls included.  A new sandbox
    id is a fresh [uuid4], and a specification asks for [0] or more GPUs. *)
Inductive worker_step : EnvWorker → EnvWorker → Prop :=
  | step_create w actor sid spec popen available we now :
      sid ∉ (shells w).*1 → 0 ≤ gpus spec →
      worker_step w (final (create_sandbox exists_path actor sid spec popen available we now w))
  | step_exec w sid cmd timeout quiet available we now :
      worker_step w (final (exec_begin ForCaller sid cmd timeout quiet available we now w))
  | step_write w sid path data available we now :
      worker_step w (final (write_file sid path data available we now w))
  | step_poll w i chunk now : worker_step w (final (exec_poll i chunk now w))
  | step_destroy w sid : worker_step w (final (destroy_sandbox sid w))
  | step_reap w now : worker_step w (final (reap_idle_sandboxes now w)).

(** ** Each operation *)

Lemma assoc_absent {V} (k : string) (d : list (string * V)) : k ∉ d.*1 → assoc k d = None.
Proof. induction d as [|[k0 v0] d IH]; [done|]. cbn. intros [Hne Hk]%not_elem_of_cons. rewrite decide_False by done. by apply IH. Qed.

Lemma exec_begin_accounts caller sid cmd timeout quiet available we now :
  keeps accounts (exec_begin caller sid cmd timeout quiet available we now).
Proof.
  unfold exec_begin. apply keeps_bind; [apply keeps_gets|]. intros [r|]; [|apply keeps_raise].
  apply keeps_bind; [by apply keeps_modify|]. intros []. destruct we; [apply keeps_raise|by apply keeps_modify].
Qed.

Lemma exec_begin_refs caller sid cmd timeout quiet available we now w :
  refs_ok w → refs_ok (final (exec_begin caller sid cmd timeout quiet available we now w)).
Proof.
  intros [Hs Ht]. unfold exec_begin. rewrite run_gets. destruct (assoc sid (shells w)) as [r|] eqn:E; [|by split].
  rewrite run_modify. assert (r < length (shell_heap w))%nat by (by eapply Hs, elem_of_assoc).
  destruct we; split; cbn; rewrite ?length_alter; try done.
  intros t [?| ->%list_elem_of_singleton]%elem_of_app; [by apply Ht|done].
Qed.

Lemma shell_begin_ok caller sid cmd timeout quiet available we now w :
  worker_ok w → worker_ok (final (exec_begin caller sid cmd timeout quiet available we now w)).
Proof. intros [Ha Hr]. split; [by rewrite exec_begin_accounts|by apply exec_begin_refs]. Qed.

Lemma dict_pop_keys {V V'} k (d : list (string * V)) (d' : list (string * V')) :
  d.*1 = d'.*1 → (dict_pop k d).*1 = (dict_pop k d').*1.
Proof.
  revert d'. induction d as [|[k0 v0] d IH]; intros [|[k1 v1] d'] E; try done. injection E as -> E.
  cbn [dict_pop]. case_decide; [done|]. cbn. f_equal. by apply IH.
Qed.

Lemma dict_pop_absent {V} k (d : list (string * V)) : k ∉ d.*1 → dict_pop k d = d.
Proof.
  induction d as [|[k0 v0] d IH]; [done|]. cbn. intros [Hne Hk]%not_elem_of_cons. rewrite decide_False by done. by rewrite IH.
Qed.

Lemma elem_of_dict_pop_iff {V} (k k' : string) (v : V) d : NoDup d.*1 → (k', v) ∈ dict_pop k d ↔ k' ≠ k ∧ (k', v) ∈ d.
Proof.
  intros Hd. rewrite <- !(assoc_iff k') by (done || by apply dict_pop_NoDup). rewrite assoc_dict_pop by done.
  case_decide; naive_solver.
Qed.

Lemma destroy_final sid w : ∃ h,
  final (destroy_sandbox sid w) =
  mkEnvWorker (available_gpu_indices w) (max_observation_chars w) (idle_sandbox_timeout_s w) (dict_pop sid (shells w))
    (dict_pop sid (container_names w)) (dict_pop sid (sandbox_gpus w)) (dict_pop sid (last_used_at w))
    (busy_gpu_indices w ∖ list_to_set (default [] (assoc sid (sandbox_gpus w)))) h (exec_tasks w)
  ∧ length h = length (shell_heap w) ∧ result (destroy_sandbox sid w) = inr tt.
Proof.
  unfold destroy_sandbox. rewrite run_gets, !run_modify, run_gets, !run_modify.
  destruct (assoc sid (shells w)); eexists; (split; [reflexivity|]); cbn; by rewrite ?length_alter.
Qed.

Lemma destroy_ok sid w : worker_ok w → worker_ok (final (destroy_sandbox sid w)).
Proof.
  intros [[Hk Hb Hd Ha] [Hs Ht]]. destruct (destroy_final sid w) as (h & -> & Hh & _). cbn in *. destruct Hk as (Hnd & Hcn & Hg).
  split; [|split; cbn; rewrite Hh; [intros ?? ?%elem_of_dict_pop; by eapply Hs|done]].
  assert (NoDup (sandbox_gpus w).*1) as Hg' by (by rewrite Hg). split; cbn.
  - split_and!; [by apply dict_pop_NoDup| |]; apply dict_pop_keys; congruence.
  - intros i. rewrite elem_of_difference, elem_of_list_to_set, Hb. split.
    + intros [(sid' & l & Hin & Hi) Hni]. exists sid', l. split; [|done]. apply elem_of_dict_pop_iff; [done|]. split; [|done].
      intros ->. apply Hni. by rewrite (assoc_elem sid l) by done.
    + intros (sid' & l & [Hne Hin]%elem_of_dict_pop_iff & Hi); [|done]. split; [naive_solver|].
      intros Hx. destruct (assoc sid (sandbox_gpus w)) as [l'|] eqn:E; cbn in Hx; [|by apply not_elem_of_nil in Hx].
      apply Hne. eapply (Hd sid' sid); [done|by apply elem_of_assoc|done|done].
  - intros sid1 sid2 l l' i [_ H1]%elem_of_dict_pop_iff [_ H2]%elem_of_dict_pop_iff; [|done|done]. by apply Hd.
  - intros sid1 l i [_ H1]%elem_of_dict_pop_iff; [|done]. by apply (Ha sid1).
Qed.

Lemma destroy_all_ok l w : worker_ok w → worker_ok (final (for_each l destroy_sandbox w)).
Proof.
  revert w. induction l as [|sid l IH]; intros w Hw; [done|]. cbn [for_each].
  apply final_bind; [by apply destroy_ok|intros []; apply IH].
Qed.

Lemma allocate_run count w : 0 ≤ count → worker_ok w →
  (count ≤ Z.of_nat (length (free_gpus w)) ∧ ∃ l, allocate_gpu_indices count w = Ret l (with_busy (busy_gpu_indices w ∪ list_to_set l) w)
     ∧ l = take (Z.to_nat count) (free_gpus w) ∧ Z.of_nat (length l) = count) ∨
  (Z.of_nat (length (free_gpus w)) < count ∧ allocate_gpu_indices count w = Raise RuntimeError w).
Proof.
  intros Hc _. unfold allocate_gpu_indices. case_bool_decide as H0.
  - left. split; [lia|]. exists []. subst. split_and!; [|done|done]. unfold mret, M_ret. f_equal. destruct w. unfold with_busy; cbn. f_equal. set_solver.
  - rewrite run_gets. case_bool_decide as H; [right; split; [done|reflexivity]|]. left. split; [lia|].
    unfold py_take. rewrite bool_decide_eq_true_2 by done. rewrite run_modify. eexists. split; [reflexivity|]. split; [done|].
    rewrite length_take. lia.
Qed.

Lemma allocated_free w n i : i ∈ take n (free_gpus w) → i ∈ available_gpu_indices w ∧ i ∉ busy_gpu_indices w.
Proof.
  intros (k & Hk)%list_elem_of_lookup. apply lookup_take_Some in Hk as [Hk _]. apply list_elem_of_lookup_2 in Hk.
  unfold free_gpus in Hk. apply list_elem_of_filter in Hk. tauto.
Qed.

(** A step that keeps the accounts, the shells and the size of the heap, and
    adds no task. *)
Lemma same_ok w w' : worker_ok w → accounts w' = accounts w → shells w' = shells w → length (shell_heap w') = length (shell_heap w) →
  (∀ t, t ∈ exec_tasks w' → ∃ t', t' ∈ exec_tasks w ∧ t_shell t = t_shell t') → worker_ok w'.
Proof.
  intros [Ha [Hs Ht]] E Es El Et. split; [by rewrite E|]. split; rewrite ?Es, ?El; [done|].
  intros t (t' & Ht' & ->)%Et. by apply Ht.
Qed.

Lemma resume_ok t r w : worker_ok w → worker_ok (final (resume t r w)).
Proof.
  intros Hw. unfold resume. destruct (t_caller t); [done| |by case_match].
  case_match; [|done]. apply final_bind; [by apply destroy_ok|done].
Qed.

Lemma exec_poll_ok i chunk now w : worker_ok w → worker_ok (final (exec_poll i chunk now w)).
Proof.
  intros Hw. unfold exec_poll. rewrite run_gets. destruct (exec_tasks (id w) !! i) as [t|] eqn:Et; [|done]. cbn [id] in *.
  destruct (shell_heap w !! t_shell t) as [s|] eqn:Es; [|done].
  destruct (read_step _ _ _ _ _ _) as [buffer [last|]].
  - rewrite run_modify, run_modify. apply (same_ok w); try done; cbn; [by rewrite length_alter|].
    intros t' [? Hl]%list_elem_of_lookup. apply list_lookup_insert_Some in Hl as [(-> & <- & ?)|[? Hl]].
    + exists t. split; [by eapply list_elem_of_lookup_2|done].
    + exists t'. split; [by eapply list_elem_of_lookup_2|done].
  - rewrite run_modify, run_modify. unfold exec_end. rewrite run_assoc, run_modify, run_assoc, run_gets, run_mret.
    apply final_bind; [|done]. apply resume_ok, (same_ok w); try done; cbn; [by rewrite length_alter|].
    intros t' [k Hl]%list_elem_of_lookup. exists t'. split; [|done].
    rewrite list_lookup_delete in Hl. case_decide; by eapply list_elem_of_lookup_2.
Qed.

Lemma create_ok actor sid spec popen available we now w : worker_ok w → sid ∉ (shells w).*1 → 0 ≤ gpus spec →
  worker_ok (final (create_sandbox exists_path actor sid spec popen available we now w)).
Proof.
  intros Hw Hsid Hg. unfold create_sandbox. destruct (allocate_run (gpus spec) w Hg Hw) as [(_ & l & E & Hl & Hlen)|[_ E]].
  2: { by rewrite (run_bind_raise _ _ _ _ _ E). }
  rewrite (run_bind _ _ _ _ _ E). unfold build_docker_run_argv. cbn [gpus labelled]. rewrite bool_decide_eq_false_2 by lia.
  erewrite run_of_res by reflexivity. destruct Hw as [[Hk Hb Hd Ha] [Hs Ht]]. cbn in Hk, Hb, Hd, Ha. destruct Hk as (Hnd & Hcn & Hgk).
  assert (∀ i, i ∈ l → i ∈ available_gpu_indices w ∧ i ∉ busy_gpu_indices w) as Hfree by (intros i; rewrite Hl; apply allocated_free).
  destruct popen as [e|].
  - rewrite run_modify. split; [|by split]. split; cbn; try done.
    intros i. rewrite <- Hb, elem_of_difference, elem_of_union, elem_of_list_to_set. naive_solver.
  - rewrite run_gets, !run_modify. apply shell_begin_ok.
    assert (∀ V (d : list (string * V)) v, d.*1 = (shells w).*1 → dict_set sid v d = (d ++ [(sid, v)])%list) as Hset.
    { intros V d v Ed. apply dict_set_new, assoc_absent. by rewrite Ed. }
    split; [split|split]; cbn; rewrite ?Hset by congruence; rewrite ?fmap_app, ?length_app; cbn.
    + split_and!; [|congruence|congruence]. apply NoDup_app. split_and!; [done| |apply NoDup_singleton].
      intros x Hx ->%list_elem_of_singleton. done.
    + intros i. rewrite elem_of_union, elem_of_list_to_set, Hb. setoid_rewrite elem_of_app. setoid_rewrite list_elem_of_singleton. naive_solver.
    + intros sid1 sid2 l1 l2 i. rewrite !elem_of_app, !list_elem_of_singleton.
      intros [H1|[= -> ->]] [H2|[= -> ->]] Hi1 Hi2; [by eapply Hd| | |done]; exfalso; eapply Hfree; [done| |done|]; apply Hb; eauto.
    + intros sid1 l1 i. rewrite elem_of_app, list_elem_of_singleton. intros [H1|[= -> ->]] Hi; [by eapply Ha|by apply Hfree].
    + intros sid1 r. rewrite elem_of_app, list_elem_of_singleton. intros [H1%Hs|[= -> ->]]; lia.
    + intros t H1%Ht. lia.
Qed.

Lemma sandbox_step_ok w w' : worker_ok w → worker_step w w' → worker_ok w'.
Proof.
  intros Hw Hst. destruct Hst; [by apply create_ok|by apply shell_begin_ok|by apply shell_begin_ok|by apply exec_poll_ok|by apply destroy_ok|].
  unfold reap_idle_sandboxes. rewrite run_gets. apply final_bind; [by apply destroy_all_ok|done].
Qed.

Lemma new_worker_ok max_chars idle visible w : new_worker max_chars idle visible = inr w → worker_ok w.
Proof.
  unfold new_worker. destruct (parse_visible visible); [done|]. intros [= <-]. split; [split|split]; cbn.
  - by split_and!; [constructor|..].
  - intros i. split; [intros Hi%not_elem_of_empty; done|intros (?&?&H&_)]. by apply not_elem_of_nil in H.
  - intros ????? H. by apply not_elem_of_nil in H.
  - intros ??? H. by apply not_elem_of_nil in H.
  - intros ?? H. by apply not_elem_of_nil in H.
  - intros ? H. by apply not_elem_of_nil in H.
Qed.

End steps.

Lemma reachable_worker_ok exists_path max_chars idle visible w0 w :
  new_worker max_chars idle visible = inr w0 → rtc (worker_step exists_path) w0 w → worker_ok w.
Proof. intros H0%new_worker_ok. induction 1; [done|]. eauto using sandbox_step_ok. Qed.

(** C28: in every interleaving of the worker's calls, failed ones included, a GPU is
    marked busy exactly when a registered sandbox holds it, no two sandboxes hold
    the same GPU, all of them are among the worker's own, and none is left busy
    when no sandbox is registered. *)
Theorem gpus_accounted exists_path max_chars idle visible w0 w :
  new_worker max_chars idle visible = inr w0 → rtc (worker_step exists_path) w0 w →
  (∀ i, i ∈ busy_gpu_indices w ↔ ∃ sid l, assoc sid (sandbox_gpus w) = Some l ∧ i ∈ l) ∧
  (∀ sid sid' l l' i, assoc sid (sandbox_gpus w) = Some l → assoc sid' (sandbox_gpus w) = Some l' → i ∈ l → i ∈ l' → sid = sid') ∧
  (∀ sid l i, assoc sid (sandbox_gpus w) = Some l → i ∈ l → i ∈ available_gpu_indices w) ∧
  (shells w = [] → busy_gpu_indices w = ∅).
Proof.
  intros H0 Hr. destruct (reachable_worker_ok _ _ _ _ _ _ H0 Hr) as [[Hk Hb Hd Ha] _]. cbn in *. destruct Hk as (Hnd & _ & Hg).
  assert (NoDup (sandbox_gpus w).*1) as Hg' by (by rewrite Hg). split_and!.
  - intros i. rewrite Hb. split; intros (sid & l & H & Hi); exists sid, l; (split; [|done]); by apply assoc_iff.
  - intros sid sid' l l' i H1%elem_of_assoc H2%elem_of_assoc. eauto.
  - intros sid l i H1%elem_of_assoc. eauto.
  - intros E. rewrite E in Hg. apply fmap_nil_inv in Hg. apply set_eq. intros i. rewrite Hb, Hg. split; [|set_solver].
    intros (? & ? & H & _). by apply not_elem_of_nil in H.
Qed.

Definition demo_spec (g : Z) : SandboxSpec := mkSpec "img" None None g [] [] "host" [] 300 7200.

Definition demo_worker : EnvWorker := mkEnvWorker [4; 5; 6] 0 7200 [] [] [] [] ∅ [] [].

Definition demo_created : EnvWorker :=
  final (create_sandbox (λ _, true) "actor" "s-1" (demo_spec 2) None "" None 10 demo_worker).

Lemma gpus_accounted_witness : 4 ∈ busy_gpu_indices demo_created ∧ sandbox_gpus demo_created = [("s-1", [4; 5])].
Proof.
  split; [|vm_compute; reflexivity].
  apply (gpus_accounted (λ _, true) 0 7200 " 4,5,6" demo_worker demo_created); [vm_compute; reflexivity| |].
  - apply rtc_once. apply step_create; [vm_compute; intros H; inversion H|cbn; lia].
  - exists "s-1", [4; 5]. split; [vm_compute; reflexivity|apply elem_of_cons; by left].
Defined.

(** ** Reading a command's output *)

Lemma strip_prefix_extend p s t u : strip_prefix p s = Some u → strip_prefix p (s ++ t) = Some (u ++ t).
Proof.
  revert s. induction p as [|a p IH]; intros s; [by intros [= ->]|]. destruct s as [|b s]; [done|]. simpl.
  case_decide; [|done]. apply IH.
Qed.

Lemma lazy_group_extend s t : is_Some (lazy_group s) → is_Some (lazy_group (s ++ t)).
Proof.
  induction s as [|c s IH]; intros [x Hx]; [done|]. change (String c s ++ t) with (String c (s ++ t)). cbn [lazy_group] in *.
  case_decide; [done|]. destruct (strip_prefix MARKER_END s) as [u|] eqn:E; [by erewrite strip_prefix_extend by done|].
  destruct (strip_prefix MARKER_END (s ++ t)); [done|].
  destruct (lazy_group s) as [[g a]|] eqn:Eg; [|done]. destruct IH as [[g' a'] ->]; done.
Qed.

(** A sentinel that has arrived stays found when more output follows. *)
Lemma sentinel_extend s t : is_Some (sentinel_search s) → is_Some (sentinel_search (s ++ t)).
Proof.
  induction s as [|c s IH]; [by intros [x Hx]|]. rewrite (sentinel_search_unfold (String c s)), (sentinel_search_unfold (String c s ++ t)).
  intros Hx. destruct (strip_prefix MARKER_START (String c s) ≫= lazy_group) as [[g a]|] eqn:E.
  - apply bind_Some in E as (u & Hu & Hg). rewrite (strip_prefix_extend _ _ t _ Hu). cbn [mbind option_bind].
    destruct (lazy_group_extend u t) as [[g' a'] ->]; [by rewrite Hg|done].
  - destruct (strip_prefix MARKER_START (String c s ++ t) ≫= lazy_group) as [[g a]|]; [done|]. change (String c s ++ t) with (String c (s ++ t)). cbv iota.
    destruct (sentinel_search s) as [[[b g] a]|]; [|by destruct Hx]. destruct IH as [[[b' g'] a'] ->]; done.
Qed.

Lemma parse_sentinel_is_Some s : is_Some (parse_sentinel s) ↔ is_Some (sentinel_search s).
Proof.
  unfold parse_sentinel. destruct (sentinel_search s) as [[[b g] a]|]; split; intros [x Hx]; try done; by eexists.
Qed.

Definition concat_chunks (polls : list (string * Z)) : string := foldr (λ p s, p.1 ++ s) EmptyString polls.

(** Output without a sentinel keeps the loop reading, whatever the clock says. *)
Lemma read_until_output polls more buffer deadline silence last :
  Forall (λ p, p.1 ≠ EmptyString) polls → parse_sentinel (buffer ++ concat_chunks polls) = None →
  ∃ last', read_until buffer (polls ++ more) deadline silence last = read_until (buffer ++ concat_chunks polls) more deadline silence last'.
Proof.
  revert buffer last. induction polls as [|[c t] polls IH]; intros buffer last Hc Hp.
  - exists last. cbn. by rewrite append_nil_r.
  - apply Forall_cons in Hc as [Hc Hcs]. cbn [concat_chunks foldr fst] in *. change (foldr _ _ polls) with (concat_chunks polls) in *.
    rewrite <- append_assoc in Hp. destruct (IH (buffer ++ c) t Hcs Hp) as [last' E]. exists last'.
    cbn [app read_until]. unfold read_step. rewrite bool_decide_eq_false_2 by done. rewrite bool_decide_eq_false_2.
    + by rewrite E, append_assoc.
    + rewrite parse_sentinel_is_Some. intros H%(sentinel_extend _ (concat_chunks polls)). apply parse_sentinel_is_Some in H as [? H].
      rewrite H in Hp. done.
Qed.

(** A command that no other step disturbs reads what [read_until] reads, and then
    finishes in a state with the same accounts. *)
Lemma exec_polls_read i polls w t s : exec_tasks w !! i = Some t → shell_heap w !! t_shell t = Some s →
  match read_until (shell_buffer s) polls (t_deadline t) (t_silence t) (t_last_output t) with
  | None => ∃ w', exec_polls i polls w = Ret None w'
  | Some (buffer, now) => ∃ w', accounts w' = accounts w ∧ max_observation_chars w' = max_observation_chars w ∧
      exec_polls i polls w = (r ← exec_end t buffer now; r ← resume t r; mret (Some r)) w'
  end.
Proof.
  revert w t s. induction polls as [|[c now] polls IH]; intros w t s Et Es; [by exists w|].
  cbn [read_until exec_polls]. unfold exec_poll. rewrite run_assoc, run_gets. cbn [id]. rewrite Et, Es.
  destruct (read_step _ _ _ _ _ _) as [buffer [last|]].
  - rewrite run_assoc, run_modify, run_assoc, run_modify, run_mret.
    set (w' := with_tasks _ _). specialize (IH w' (with_last_output last t) (with_shell_buffer buffer s)).
    destruct (read_until buffer polls _ _ _) as [[b n]|] eqn:E; cbn in IH; rewrite E in IH;
      (destruct IH as [w1 IH]; [by rewrite list_lookup_insert_eq by (by eapply lookup_lt_Some)|by rewrite list_lookup_alter_eq, Es|];
       exists w1; exact IH).
  - rewrite run_assoc, run_modify, run_assoc, run_modify. set (w' := with_tasks _ _). exists w'. split_and!; [done|done|].
    unfold mbind, M_bind. destruct (exec_end t buffer now w'); [|done]. by destruct (resume t a s0).
Qed.

Lemma shell_begin_run caller sid cmd timeout quiet available now w r :
  assoc sid (shells w) = Some r →
  exec_begin caller sid cmd timeout quiet available None now w =
  Ret tt (with_tasks (exec_tasks w ++ [mkTask sid r caller now (now + timeout) (default timeout quiet) now])
           (update_heap r (λ s, (drain available s).1) w)).
Proof. intros E. unfold exec_begin. rewrite run_gets, E. by rewrite run_modify. Qed.

(** A command from its start through the given iterations. *)
Definition exec_through (caller : ExecCaller) (sid cmd : string) (timeout : Z) (quiet : option Z) (available : string) (now : Z)
    (polls : list (string * Z)) : Wk (option ExecResult) :=
  i ← gets (λ w, length (exec_tasks w));
  exec_begin caller sid cmd timeout quiet available None now ;;
  exec_polls i polls.

Lemma exec_through_read caller sid cmd timeout quiet available now polls w r s :
  assoc sid (shells w) = Some r → shell_heap w !! r = Some s →
  match read_until EmptyString polls (now + timeout) (default timeout quiet) now with
  | None => ∃ w', exec_through caller sid cmd timeout quiet available now polls w = Ret None w'
  | Some (buffer, t) => ∃ task w', accounts w' = accounts w ∧ max_observation_chars w' = max_observation_chars w ∧
      t_sandbox task = sid ∧ t_caller task = caller ∧ t_started task = now ∧
      exec_through caller sid cmd timeout quiet available now polls w = (r ← exec_end task buffer t; r ← resume task r; mret (Some r)) w'
  end.
Proof.
  intros Er Es. unfold exec_through. rewrite run_gets. rewrite (run_bind _ _ _ _ _ (shell_begin_run _ _ _ _ _ _ _ _ _ Er)).
  set (w0 := with_tasks _ _). set (task := mkTask sid r caller now (now + timeout) (default timeout quiet) now).
  pose proof (exec_polls_read (length (exec_tasks w)) polls w0 task (with_shell_buffer EmptyString s)) as H.
  cbn [shell_buffer with_shell_buffer t_deadline t_silence t_last_output task] in H.
  destruct (read_until _ _ _ _ _) as [[b n]|]; cycle 1.
  { apply H; unfold w0; cbn; [by rewrite lookup_app_r, Nat.sub_diag by done|by rewrite list_lookup_alter_eq, Es]. }
  destruct H as (w' & Ha & Hm & E); [unfold w0; cbn; by rewrite lookup_app_r, Nat.sub_diag by done|
    unfold w0; cbn; by rewrite list_lookup_alter_eq, Es|]. by exists task, w'.
Qed.

Lemma exec_through_result sid cmd timeout quiet available now polls w r s buffer t :
  assoc sid (shells w) = Some r → shell_heap w !! r = Some s →
  read_until EmptyString polls (now + timeout) (default timeout quiet) now = Some (buffer, t) →
  result (exec_through ForCaller sid cmd timeout quiet available now polls w) = inr (Some
    match parse_sentinel buffer with
    | None => mkExec (truncate_observation buffer (max_observation_chars w)) None true (t - now)
    | Some (body, code) => mkExec (truncate_observation body (max_observation_chars w)) code false (t - now)
    end).
Proof.
  intros Er Es E. pose proof (exec_through_read ForCaller sid cmd timeout quiet available now polls w r s Er Es) as H.
  rewrite E in H. destruct H as (task & w' & _ & Hm & _ & Hc & Hst & ->). unfold exec_end, resume. rewrite run_assoc, run_modify.
  rewrite run_assoc, run_gets, run_mret, Hc. cbn. rewrite Hm, Hst. by destruct (parse_sentinel buffer) as [[??]|].
Qed.

(** A command whose output arrives in any division into chunks returns that
    output with the sentinel cut out, and the exit status. *)
Theorem exec_returns_status sid cmd timeout quiet available now polls c t w r s body status after :
  assoc sid (shells w) = Some r → shell_heap w !! r = Some s →
  Forall (λ p, p.1 ≠ EmptyString) polls → c ≠ EmptyString → parse_sentinel (concat_chunks polls) = None →
  concat_chunks polls ++ c = body ++ MARKER_START ++ str_of_Z status ++ MARKER_END ++ after →
  contains MARKER_START body = false → 0 ≤ status < 256 →
  result (exec_through ForCaller sid cmd timeout quiet available now (polls ++ [(c, t)])%list w) =
  inr (Some (mkExec (truncate_observation (body ++ after) (max_observation_chars w)) (Some status) false (t - now))).
Proof.
  intros Er Es Hp Hc Hn Hcat Hb Hst. destruct (exit_status_plain status Hst) as [H1 H2].
  assert (parse_sentinel (concat_chunks polls ++ c) = Some (body ++ after, Some status)) as Hparse.
  { unfold parse_sentinel. by rewrite Hcat, sentinel_search_found, py_int_str by done. }
  erewrite exec_through_result; [|done|done|].
  2: { destruct (read_until_output polls [(c, t)] EmptyString (now + timeout) (default timeout quiet) now Hp Hn) as [last ->].
       change (EmptyString ++ ?x) with x. cbn [read_until]. unfold read_step. rewrite bool_decide_eq_false_2 by done.
       rewrite bool_decide_eq_true_2 by (rewrite Hparse; eauto). reflexivity. }
  by rewrite Hparse.
Qed.

Lemma exec_returns_status_witness :
  result (exec_through ForCaller "s-1" "ls" 60 None "" 20 [("a.txt", 21); (nl ++ "///PROCESS-", 22); ("DONE:0:PROCESS-DONE///" ++ nl, 23)]
    demo_created) = inr (Some (mkExec ("a.txt" ++ nl ++ nl) (Some 0) false 3)).
Proof.
  apply (exec_returns_status "s-1" "ls" 60 None "" 20 [("a.txt", 21); (nl ++ "///PROCESS-", 22)] ("DONE:0:PROCESS-DONE///" ++ nl) 23
    demo_created 0 (mkShell "psrl-env-s-1" EmptyString false) ("a.txt" ++ nl) 0 nl); try (vm_compute; reflexivity); try done; try lia.
  repeat constructor; done.
Defined.

(** The timeouts of a command are looked at only when a read returns nothing: a
    command that keeps printing is never cut off, however late it is, while the
    first silent read past the deadline ends it. *)
Theorem timeout_needs_silence polls t buffer deadline silence last :
  Forall (λ p, p.1 ≠ EmptyString) polls → parse_sentinel (buffer ++ concat_chunks polls) = None →
  read_until buffer polls deadline silence last = None ∧
  (deadline ≤ t → read_until buffer (polls ++ [(EmptyString, t)])%list deadline silence last = Some (buffer ++ concat_chunks polls, t)).
Proof.
  intros Hp Hn. split.
  - destruct (read_until_output polls [] buffer deadline silence last Hp Hn) as [last' E]. by rewrite app_nil_r in E.
  - intros Ht. destruct (read_until_output polls [(EmptyString, t)] buffer deadline silence last Hp Hn) as [last' ->].
    cbn [read_until]. unfold read_step. rewrite bool_decide_eq_true_2 by done. by rewrite bool_decide_eq_true_2.
Qed.

Lemma timeout_needs_silence_witness : read_until "" [("y", 100); ("y", 200); ("y", 300)] 10 5 0 = None.
Proof. apply (timeout_needs_silence [("y", 100); ("y", 200); ("y", 300)] 0 "" 10 5 0); [repeat constructor; done|vm_compute; reflexivity]. Defined.

(** The sentinel of a command that was given up arrives while the next command is
    read and is taken for its exit status: the drain only drops what is there. *)
Example stale_status :
  result ((exec_through ForCaller "s-1" "make" 60 None "" 20 [("", 80)] ;;
           exec_through ForCaller "s-1" "ls" 60 None "" 81 [(MARKER_START ++ "2" ++ MARKER_END ++ nl, 82)]) demo_created) =
  inr (Some (mkExec nl (Some 2) false 1)).
Proof. vm_compute. reflexivity. Qed.

(** The probe's write fails: the caller gets the exception and no sandbox id, while
    the sandbox stays registered with its GPUs. *)
Example probe_write_leaks :
  let o := create_sandbox (λ _, true) "" "s-1" (demo_spec 2) None "" (Some OSError) 10 demo_worker in
  result o = inl OSError ∧ sandbox_gpus (final o) = [("s-1", [4; 5])] ∧ bool_decide (4 ∈ busy_gpu_indices (final o)) = true.
Proof. vm_compute. split_and!; reflexivity. Qed.

(** A command that ends after its sandbox was destroyed registers a last use of it. *)
Example last_used_after_destroy :
  last_used_at (final ((exec_begin ForCaller "s-1" "ls" 60 None "" None 20 ;; destroy_sandbox "s-1" ;; exec_poll 1 "" 80) demo_created)) = [("s-1", 80)].
Proof. vm_compute. reflexivity. Qed.

(** ** Starting a sandbox *)

(** Starting a sandbox either fails for lack of GPUs or with the container and
    leaves the accounts as they were, or registers it with exactly the GPUs asked
    for, the first ones that were free. *)
Theorem create_sandbox_exact exists_path actor sid spec popen available we now w :
  worker_ok w → sid ∉ (shells w).*1 → 0 ≤ gpus spec →
  let o := create_sandbox exists_path actor sid spec popen available we now w in
  if bool_decide (Z.of_nat (length (free_gpus w)) < gpus spec) then o = Raise RuntimeError w
  else match popen with
       | Some e => result o = inl e ∧ accounts (final o) = accounts w
       | None =>
           let l := take (Z.to_nat (gpus spec)) (free_gpus w) in
           result o = match we with None => inr tt | Some e => inl e end ∧ Z.of_nat (length l) = gpus spec ∧
           assoc sid (sandbox_gpus (final o)) = Some l ∧ busy_gpu_indices (final o) = busy_gpu_indices w ∪ list_to_set l ∧
           is_Some (assoc sid (shells (final o))) ∧ assoc sid (container_names (final o)) = Some ("psrl-env-" ++ sid)
       end.
Proof.
  intros Hw Hsid Hg o. subst o. unfold create_sandbox.
  destruct (allocate_run (gpus spec) w Hg Hw) as [(Hfree & l & E & Hl & Hlen)|[Hlt E]].
  2: { rewrite bool_decide_eq_true_2 by done. by rewrite (run_bind_raise _ _ _ _ _ E). }
  rewrite bool_decide_eq_false_2 by lia. rewrite !(run_bind _ _ _ _ _ E). unfold build_docker_run_argv. cbn [gpus labelled].
  rewrite bool_decide_eq_false_2 by lia. erewrite run_of_res by reflexivity. destruct popen as [e|].
  - rewrite run_modify. split; [done|]. unfold accounts. cbn. do 2 f_equal. apply set_eq. intros i.
    rewrite elem_of_difference, elem_of_union, elem_of_list_to_set. split; [tauto|]. intros Hi. split; [by left|].
    rewrite Hl. intros [_ Hn]%allocated_free. done.
  - rewrite run_gets, !run_modify. rewrite <- Hl.
    set (w' := with_last_used _ _).
    pose proof (exec_begin_accounts ForProbe sid "echo ready" (startup_timeout_s spec) None available we now w') as Ha.
    unfold exec_begin. rewrite run_gets.
    assert (assoc sid (shells w') = Some (length (shell_heap w))) as Er by (unfold w'; cbn; rewrite assoc_dict_set; by rewrite decide_True).
    rewrite Er, run_modify. destruct we as [e|]; cbn; rewrite ?assoc_dict_set, ?decide_True by done; split_and!; eauto.
Qed.

Lemma create_sandbox_exact_witness : assoc "s-2" (sandbox_gpus (final
  (create_sandbox (λ _, true) "" "s-2" (demo_spec 1) None "" None 11 demo_created))) = Some [6].
Proof.
  apply (create_sandbox_exact (λ _, true) "" "s-2" (demo_spec 1) None "" None 11 demo_created); [|vm_compute; set_solver|cbn; lia].
  apply (sandbox_step_ok (λ _, true) demo_worker); [by apply (new_worker_ok 0 7200 " 4,5,6"); vm_compute|].
  apply step_create; [vm_compute; intros H; inversion H|cbn; lia].
Defined.

(** When the readiness probe times out or does not answer, the caller gets a
    [RuntimeError], the sandbox is no longer registered and its GPUs are free. *)
Theorem probe_failure_cleans_up sid timeout quiet available now polls w r s buffer t cmd :
  worker_ok w → assoc sid (shells w) = Some r → shell_heap w !! r = Some s →
  read_until EmptyString polls (now + timeout) (default timeout quiet) now = Some (buffer, t) →
  match parse_sentinel buffer with
  | None => True
  | Some (body, _) => contains "ready" (truncate_observation body (max_observation_chars w)) = false
  end →
  let o := exec_through ForProbe sid cmd timeout quiet available now polls w in
  result o = inl RuntimeError ∧ assoc sid (shells (final o)) = None ∧ assoc sid (sandbox_gpus (final o)) = None ∧
  ∀ i, i ∈ default [] (assoc sid (sandbox_gpus w)) → i ∉ busy_gpu_indices (final o).
Proof.
  intros [[Hk _ _ _] _] Er Es E Hbad o. subst o. cbn in Hk. destruct Hk as (Hnd & _ & Hg).
  pose proof (exec_through_read ForProbe sid cmd timeout quiet available now polls w r s Er Es) as H.
  rewrite E in H. destruct H as (task & w' & Ha & Hm & Hsid & Hc & _ & ->). injection Ha as _ Hsh _ Hsg _.
  unfold exec_end, resume. rewrite run_assoc, run_modify, run_assoc, run_gets, run_mret, Hc, Hsid. cbn [max_observation_chars with_last_used].
  rewrite Hm. set (w1 := with_last_used _ w'). match goal with |- context [if ?b then _ else _] => assert (b = true) as -> end.
  { destruct (parse_sentinel buffer) as [[body code]|]; cbn; [by rewrite Hbad|done]. }
  destruct (destroy_final sid w1) as (h & Ed & _ & Er1). rewrite run_assoc.
  apply outcome_eta in Er1. rewrite (run_bind _ _ _ _ _ Er1). rewrite Ed. unfold raise, mbind, M_bind. cbn. split; [done|].
  rewrite !assoc_dict_pop by (by rewrite ?Hsg, ?Hg, ?Hsh). rewrite !decide_True by done. rewrite Hsg. split_and!; [done|done|].
  intros i Hi. rewrite elem_of_difference, elem_of_list_to_set. tauto.
Qed.

Lemma probe_failure_cleans_up_witness :
  result (exec_through ForProbe "s-1" "echo ready" 300 None "" 20 [("bash: not found", 21); ("", 320)] demo_created) = inl RuntimeError.
Proof.
  apply (probe_failure_cleans_up "s-1" 300 None "" 20 [("bash: not found", 21); ("", 320)] demo_created 0 (mkShell "psrl-env-s-1" EmptyString false)
    "bash: not found" 320); [|vm_compute; reflexivity|vm_compute; reflexivity|vm_compute; reflexivity|vm_compute; exact I].
  apply (sandbox_step_ok (λ _, true) demo_worker); [by apply (new_worker_ok 0 7200 " 4,5,6"); vm_compute|].
  apply step_create; [vm_compute; intros H; inversion H|cbn; lia].
Defined.

(** ** Quoting *)

Inductive quoting := Unquoted | InSingle | InDouble.

(** The value of one shell word made of plain characters and quoted parts; [None]
    when a character would be special to the shell. *)
Fixpoint sh_word (q : quoting) (s : string) : option string :=
  match s with
  | EmptyString => match q with Unquoted => Some EmptyString | _ => None end
  | String c s =>
      match q with
      | Unquoted =>
          if decide (c = squote) then sh_word InSingle s
          else if decide (c = "034"%char) then sh_word InDouble s
          else if is_safe c then String c <$> sh_word Unquoted s else None
      | InSingle => if decide (c = squote) then sh_word Unquoted s else String c <$> sh_word InSingle s
      | InDouble =>
          if decide (c = "034"%char) then sh_word Unquoted s
          else if bool_decide (c ∈ ["$"%char; "`"%char; "\"%char; "!"%char]) then None
          else String c <$> sh_word InDouble s
      end
  end.

Lemma sh_word_safe s : all_safe s = true → sh_word Unquoted s = Some s.
Proof.
  induction s as [|c s IH]; [done|]. cbn [all_safe sh_word]. intros [Hc Hs]%andb_true_iff.
  rewrite decide_False by (intros ->; vm_compute in Hc; done). rewrite decide_False by (intros ->; vm_compute in Hc; done).
  by rewrite Hc, (IH Hs).
Qed.

Lemma sh_word_escaped s : sh_word InSingle (escape_quotes s ++ String squote EmptyString) = Some s.
Proof.
  induction s as [|c s IH]; [done|]. cbn [escape_quotes]. destruct (decide (c = squote)) as [->|Hne].
  - rewrite append_assoc. change (quote_escape ++ ?x) with
      (String squote (String "034" (String squote (String "034" (String squote x))))).
    cbn [sh_word]. by rewrite IH.
  - change (String c ?x ++ ?y) with (String c (x ++ y)). cbn [sh_word]. rewrite decide_False by done. by rewrite IH.
Qed.

(** The shell reads a quoted string back as that string, one word with nothing
    expanded, whatever characters it has. *)
Theorem shlex_quote_word s : sh_word Unquoted (shlex_quote s) = Some s.
Proof.
  unfold shlex_quote. case_bool_decide as H; [by subst|]. destruct (all_safe s) eqn:E; [by apply sh_word_safe|].
  cbn [sh_word]. rewrite decide_True by done. apply sh_word_escaped.
Qed.

Example write_command_example : write_command "/a b" [104; 105; 33] = "printf %s aGkh | base64 -d > '/a b'".
Proof. vm_compute. reflexivity. Qed.

(** ** Placement *)

Lemma planned_ids ips n : (planned_workers ips n).*1 = seqZ 0 (Z.of_nat (length ips * n)).
Proof.
  unfold planned_workers. apply list_eq. intros i. rewrite list_lookup_fmap, list_lookup_imap.
  set (l := ips ≫= λ ip, replicate n ip). assert (length l = length ips * n)%nat as Hl.
  { unfold l. clear. induction ips as [|ip ips IH]; [done|]. cbn [mbind list_bind]. rewrite length_app, length_replicate.
    change (length (list_bind _ _ _ ips)) with (length (ips ≫= λ ip, replicate n ip)). rewrite IH. simpl. lia. }
  destruct (decide (i < length l)%nat) as [Hi|Hi].
  - destruct (lookup_lt_is_Some_2 l i Hi) as [x ->]. cbn. symmetry. rewrite lookup_seqZ. lia.
  - rewrite lookup_ge_None_2 by lia. cbn. symmetry. apply lookup_seqZ_ge. lia.
Qed.

Lemma register_all_ok (cpu gpu : Z) (handle_of : Z → N) ws c : env_ok c [] → 0 ≤ cpu → 0 ≤ gpu →
  NoDup ws.*1 → (∀ wid, wid ∈ ws.*1 → wid ∉ (slots c).*1) →
  let c' := final (for_each ws (λ '(wid, ip), register_worker (handle_of wid) wid cpu gpu ip) c) in
  env_ok c' [] ∧ (slots c').*1 = ((slots c).*1 ++ ws.*1)%list.
Proof.
  intros Hok Hc Hg. revert c Hok. induction ws as [|[wid ip] ws IH]; intros c Hok Hnd Hfresh; [by rewrite app_nil_r|].
  cbn [fmap list_fmap fst] in Hnd. apply NoDup_cons in Hnd as [Hwid Hnd]. cbn [for_each].
  assert (wid ∉ (slots c).*1) as Hnew by (apply Hfresh, elem_of_cons; by left).
  assert (slot_get wid (slots c) = None) as Hget.
  { destruct (slot_get wid (slots c)) as [s|] eqn:E; [|done]. apply slot_get_elem in E; [|apply Hok].
    destruct Hnew. apply list_elem_of_fmap. by exists (wid, s). }
  set (c1 := with_slots (slot_set wid (mkSlot wid (handle_of wid) cpu gpu ip 0 0) (slots c)) c).
  assert (∀ k : unit → M EnvWorkerCoordinator unit, (register_worker (handle_of wid) wid cpu gpu ip ≫= k) c = k tt c1) as Hrun by done.
  cbv beta iota zeta. rewrite Hrun.
  assert ((slots c1).*1 = (slots c).*1 ++ [wid])%list as Hk by (unfold c1; cbn; rewrite slot_set_keys; by rewrite bool_decide_eq_false_2).
  destruct (IH c1) as [H1 H2]; [by apply register_ok|done| |].
  - intros w Hw. rewrite Hk. rewrite not_elem_of_app, list_elem_of_singleton. split; [apply Hfresh, elem_of_cons; by right|].
    intros ->. done.
  - split; [exact H1|]. rewrite H2, Hk. cbn. by rewrite <- app_assoc.
Qed.

(** The pool starts with one registered slot per planned worker, ids counted
    from zero, no capacity used, on nodes that are alive. *)
Theorem manager_init_registers config routing counter alive cpu gpu n handle_of c ws :
  0 ≤ cpu → 0 ≤ gpu → routing ∈ ["least_loaded"; "round_robin"; "random"] →
  manager_init config routing counter alive cpu gpu n handle_of = inr (c, ws) →
  env_ok c [] ∧ (slots c).*1 = ws.*1 ∧ ws.*1 = seqZ 0 (Z.of_nat (length ws)) ∧ ∀ wid ip, (wid, ip) ∈ ws → ip ∈ alive.
Proof.
  intros Hc Hg Hr. unfold manager_init. destruct (resolve_placement_node_ips config alive) as [e|ips] eqn:E; [done|]. intros [= <- <-].
  pose proof (planned_ids ips n) as Hids. assert (length (planned_workers ips n) = (length ips * n)%nat) as Hlen.
  { rewrite <- (length_fmap fst), Hids, length_seqZ. lia. }
  destruct (register_all_ok cpu gpu handle_of (planned_workers ips n) (new_coordinator routing counter)) as [H1 H2]; try done.
  { split; cbn; try done; [constructor|]. intros w g H. by apply not_elem_of_nil in H. }
  { rewrite Hids. apply NoDup_seqZ. }
  { intros wid _ H. by apply not_elem_of_nil in H. }
  split_and!; [done|exact H2|by rewrite Hids, Hlen|].
  intros wid ip. unfold planned_workers. intros (i & x & [= -> ->] & Hx%list_elem_of_lookup_2)%elem_of_lookup_imap.
  apply list_elem_of_bind in Hx as (ip' & [-> _]%elem_of_replicate & Hin).
  revert E. unfold resolve_placement_node_ips. repeat case_bool_decide; try done; intros [= <-]; [done|].
  destruct (decide (ip' ∈ alive)) as [|Hn]; [done|]. exfalso.
  assert (ip' ∈ filter (λ ip, ip ∉ alive) (default [] (dedicated_node_ips config))) as Hf by (by apply list_elem_of_filter).
  match goal with H : filter _ _ = [] |- _ => rewrite H in Hf end. by apply not_elem_of_nil in Hf.
Qed.

Lemma manager_init_registers_witness : ∃ c ws,
  manager_init (mkPlacement "dedicated" (Some ["b"])) "random" 0 ["a"; "b"] 2 1 2 Z.to_N = inr (c, ws) ∧ (slots c).*1 = ws.*1.
Proof.
  do 2 eexists. split; [vm_compute; reflexivity|].
  eapply (manager_init_registers (mkPlacement "dedicated" (Some ["b"])) "random" 0 ["a"; "b"] 2 1 2 Z.to_N); [lia|lia|set_solver|reflexivity].
Defined.
