(* ===== verification/TrainerKeys.v ===== *)
(** * Trainer: sample keys, sessions and the replay buffer

    The parts of [psrl/trainer/ppo] that work on sample keys.  A key is
    [<uid>_<index>] for the trajectory [index] of a session; [ReplayBuffer]
    ([ray_trainer.py]) caches the tags of the keys and waits for them, and
    [compute_advantage_for_multi_trajectories] ([utils.py]) scores the last
    trajectory of each session and gives the score to all its trajectories. *)

From Stdlib Require Import Ascii.
From S2P Require Import Prelude.
From S2P Require Import PyFloat.
From S2P Require Import PyData.
From S2P Require Import EnvShell.

#[local] Open Scope string_scope.
#[local] Open Scope Z_scope.

(** [key.rsplit("_", 1)] when it has two parts. *)
Fixpoint rsplit_underscore (s : string) : option (string * string) :=
  match s with
  | EmptyString => None
  | String c s =>
      match rsplit_underscore s with
      | Some (a, b) => Some (String c a, b)
      | None => if decide (c = "_"%char) then Some (EmptyString, s) else None
      end
  end.

(** ** The replay buffer *)

Definition Tags : Type := gmap string string.

Definition ReplayBuffer : Type := gmap string (gmap string Tags).

Definition partition_of (p : string) (b : ReplayBuffer) : gmap string Tags := default ∅ (b !! p).

(** [add]: the tags of each key are updated. *)
Definition add_items (p : string) (items : list (string * Tags)) (b : ReplayBuffer) : ReplayBuffer :=
  <[p := foldl (λ part '(k, tags), <[k := tags ∪ default ∅ (part !! k)]> part) (partition_of p b) items]> b.

Definition remove_key (k : string) (part : gmap string Tags) : gmap string Tags :=
  let part := match rsplit_underscore k with Some (origin, _) => delete origin part | None => part end in
  delete k part.

Definition remove (keys : list string) (p : string) (b : ReplayBuffer) : ReplayBuffer :=
  <[p := foldl (λ part k, remove_key k part) (partition_of p b) keys]> b.

(** The counters of one round of [sample]: successful, running, unknown, missing. *)
Definition status_of (tags : Tags) : string := default "running" (tags !! "status").

Record counts := mkCounts { n_success : Z; n_running : Z; n_unknown : Z; missing_keys : list string }.

Definition count_key (part : gmap string Tags) (c : counts) (k : string) : counts :=
  match part !! k with
  | None => mkCounts (n_success c) (n_running c) (n_unknown c) (missing_keys c ++ [k])
  | Some tags =>
      if bool_decide (status_of tags = "running") then mkCounts (n_success c) (n_running c + 1) (n_unknown c) (missing_keys c)
      else if bool_decide (status_of tags = "success") then mkCounts (n_success c + 1) (n_running c) (n_unknown c) (missing_keys c)
      else mkCounts (n_success c) (n_running c) (n_unknown c + 1) (missing_keys c)
  end.

Definition count_keys (part : gmap string Tags) (keys : list string) : counts :=
  foldl (count_key part) (mkCounts 0 0 0 []) keys.

Definition should_wait (c : counts) : bool := bool_decide (missing_keys c ≠ []) || bool_decide (0 < n_running c).

(** [sample]: each round sleeps, during which the polling thread may add items.
    [None] when the rounds are used up and it still waits. *)
Fixpoint sample (keys : list string) (p : string) (rounds : list (list (string * list (string * Tags)))) (b : ReplayBuffer) : option ReplayBuffer :=
  match rounds with
  | [] => None
  | polled :: rounds =>
      let b := foldl (λ b '(p, items), add_items p items b) b polled in
      if should_wait (count_keys (partition_of p b) keys) then sample keys p rounds b else Some b
  end.

(** ** Sessions *)

(** The session of a key and its trajectory index; a padding key, and a key
    without [_], is a session of its own. *)
Definition session_of (pads : bool) (key : string) : Res (string * option Z) :=
  let fields := if pads && bool_decide (is_Some (strip_prefix "pad_" key)) then None else rsplit_underscore key in
  match fields with
  | Some (uid, index) => match py_int index with Some n => inr (uid, Some n) | None => inl ValueError end
  | None => inr (key, None)
  end.

Abbreviation Sessions := (list (string * (Z * nat))).

(** One row of the loop over the keys. *)
Definition session_row (sessions : Sessions) (i : nat) (s : string * option Z) : Sessions :=
  match s with
  | (uid, Some index) =>
      match assoc uid sessions with
      | Some (best, _) => if bool_decide (best < index) then dict_set uid (index, i) sessions else sessions
      | None => dict_set uid (index, i) sessions
      end
  | (key, None) => dict_set key (0, i) sessions
  end.

Fixpoint final_sessions (pads : bool) (i : nat) (keys : list string) (sessions : Sessions) : Res Sessions :=
  match keys with
  | [] => inr sessions
  | key :: keys =>
      match session_of pads key with
      | inl e => inl e
      | inr s => final_sessions pads (S i) keys (session_row sessions i s)
      end
  end.

(** The position of a key in a dictionary. *)
Fixpoint position {V} (k : string) (d : list (string * V)) : option nat :=
  match d with [] => None | (k', _) :: d => if decide (k' = k) then Some 0%nat else S <$> position k d end.

(** The rows of the final trajectories, and for each row the place of its
    session among them. *)
Definition final_rows (keys : list string) : Res (list nat * list nat) :=
  match final_sessions true 0 keys [] with
  | inl e => inl e
  | inr sessions =>
      match map_res (λ key, match session_of true key with
                            | inl e => inl e
                            | inr (s, _) => match position s sessions with Some n => inr n | None => inl KeyError end
                            end) keys with
      | inl e => inl e
      | inr local => inr ((λ x : string * (Z * nat), x.2.2) <$> sessions, local)
      end
  end.

(** [mask.argmax()] of a row: the first position of the greatest entry. *)
Fixpoint argmax (l : list Z) : nat :=
  match l with
  | [] => 0
  | x :: l => if forallb (λ y, y <=? x) l then 0 else S (argmax l)
  end.

Section advantage.
Context {F : Type}.
(** The advantages and returns that the library's estimators give for the selected
    rows: GAE (with the reweighting it may be configured for), GRPO over the groups of
    one [parent_id], and the others by name; whether the batch has its [parent_id]s;
    and the product of a score and a mask entry. *)
Context (gae grpo : list nat → Res (list (list F) * list (list F))) (other : string → list nat → Res (list (list F) * list (list F))).
Context (has_parent_id : bool).
Context (scale : F → Z → F).

Definition PSRL_compute_advantage (adv_estimator : string) (rows : list nat) : Res (list (list F) * list (list F)) :=
  if bool_decide (adv_estimator = "gae") then gae rows
  else if bool_decide (adv_estimator = "grpo") then (if has_parent_id then grpo rows else inl AssertionError)
  else other adv_estimator rows.

Definition score_row (masks : list (list Z)) (final : nat) (advantages : list F) : Res F :=
  match masks !! final ≫= λ m, advantages !! argmax m with Some x => inr x | None => inl IndexError end.

(** The advantages and the returns of the rows. *)
Definition compute_advantage_for_multi_trajectories (adv_estimator : string) (keys : list string) (masks : list (list Z)) :
    Res (list (list F) * list (list F)) :=
  if bool_decide (adv_estimator ≠ "grpo") then PSRL_compute_advantage adv_estimator (seq 0 (length masks))
  else
    match final_rows keys with
    | inl e => inl e
    | inr (finals, local) =>
        match PSRL_compute_advantage adv_estimator finals with
        | inl e => inl e
        | inr (advantages, _) =>
            match map_res (λ '(r, a), score_row masks r a) (zip finals advantages) with
            | inl e => inl e
            | inr scores =>
                match map_res (λ '(n, m), match scores !! n with Some x => inr (scale x <$> m) | None => inl IndexError end) (zip local masks) with
                | inl e => inl e
                | inr rows => inr (rows, rows)
                end
            end
        end
    end.
End advantage.

(** [_validate]: the rows of the final trajectories in the order of the batch. *)
Definition validation_rows (keys : list string) : Res (list (string * nat)) :=
  match final_sessions false 0 keys [] with
  | inl e => inl e
  | inr sessions => inr (sort_by (λ x, Z.of_nat x.2) ((λ x : string * (Z * nat), (x.1, x.2.2)) <$> sessions))
  end.

(** ** The final trajectory of each session *)

Fixpoint fold_rows (i : nat) (ps : list (string * option Z)) (ss : Sessions) : Sessions :=
  match ps with [] => ss | p :: ps => fold_rows (S i) ps (session_row ss i p) end.

Lemma final_sessions_fold pads i keys ss out : final_sessions pads i keys ss = inr out →
  ∃ ps, map_res (session_of pads) keys = inr ps ∧ out = fold_rows i ps ss.
Proof.
  revert i ss. induction keys as [|k keys IH]; intros i ss; cbn [final_sessions map_res]; [intros [= <-]; by exists []|].
  destruct (session_of pads k) as [e|p]; [done|]. intros (ps & -> & ->)%IH. by exists (p :: ps).
Qed.

(** A session without an index is a single row. *)
Definition apart (ps : list (string * option Z)) : Prop :=
  ∀ i j s o, ps !! i = Some (s, None) → ps !! j = Some (s, o) → i = j.

(** Row [r] has the greatest index of session [s], and is the first such row. *)
Definition is_final (ps : list (string * option Z)) (s : string) (idx : Z) (r : nat) : Prop :=
  ∃ o, ps !! r = Some (s, o) ∧ default 0 o = idx ∧
    ∀ j o', ps !! j = Some (s, o') → default 0 o' ≤ idx ∧ (default 0 o' = idx → (r ≤ j)%nat).

Definition sessions_ok (seen : list (string * option Z)) (ss : Sessions) : Prop :=
  NoDup ss.*1 ∧ (∀ s, is_Some (assoc s ss) ↔ s ∈ seen.*1) ∧ ∀ s idx r, assoc s ss = Some (idx, r) → is_final seen s idx r.

Lemma is_final_app seen s idx r s' o' : is_final seen s idx r → (s' = s → default 0 o' ≤ idx) → is_final (seen ++ [(s', o')]) s idx r.
Proof.
  intros (o & Hr & Ho & Hall) Hs. exists o. split; [by apply lookup_app_l_Some|]. split; [done|].
  intros j o1 [Hj|[Hlen Hj]]%lookup_app_Some; [by apply Hall|]. apply list_lookup_singleton_Some in Hj as [Hj [= -> ->]].
  split; [by apply Hs|]. intros _. apply lookup_lt_Some in Hr. lia.
Qed.

Lemma is_final_last seen s o : (∀ j o', seen !! j = Some (s, o') → default 0 o' < default 0 o) →
  is_final (seen ++ [(s, o)]) s (default 0 o) (length seen).
Proof.
  intros Hs. exists o. split; [by rewrite lookup_app_r, Nat.sub_diag by done|]. split; [done|].
  intros j o1 [Hj|[Hlen Hj]]%lookup_app_Some; [apply Hs in Hj; split; lia|]. apply list_lookup_singleton_Some in Hj as [Hj [= ->]]. lia.
Qed.

Lemma session_row_set seen ss s o : sessions_ok seen ss → (∀ j o', seen !! j = Some (s, o') → default 0 o' < default 0 o) →
  sessions_ok (seen ++ [(s, o)]) (dict_set s (default 0 o, length seen) ss).
Proof.
  intros (Hnd & Hk & Hf) Hs. split; [by apply dict_set_NoDup|]. split.
  - intros s'. rewrite assoc_dict_set, fmap_app, elem_of_app, <- Hk. cbn. rewrite list_elem_of_singleton.
    case_decide; [subst; naive_solver|]. naive_solver.
  - intros s' idx r. rewrite assoc_dict_set. case_decide; [intros [= <- <-]; subst; by apply is_final_last|].
    intros Ha%Hf. by apply is_final_app.
Qed.

Lemma sessions_none seen ss s : sessions_ok seen ss → assoc s ss = None → ∀ j o, seen !! j = Some (s, o) → False.
Proof.
  intros (_ & Hk & _) E j o Hj. assert (s ∈ seen.*1) as [x Hx]%Hk; [|congruence].
  apply list_elem_of_fmap. exists (s, o). split; [done|]. by eapply list_elem_of_lookup_2.
Qed.

Lemma session_row_ok seen ss p : sessions_ok seen ss → apart (seen ++ [p]) → sessions_ok (seen ++ [p]) (session_row ss (length seen) p).
Proof.
  intros Hok Hap. destruct p as [s [idx|]]; cbn [session_row].
  - destruct (assoc s ss) as [[best r]|] eqn:E.
    + pose proof Hok as (Hnd & Hk & Hf). destruct (Hf _ _ _ E) as (o & Hr & Ho & Hall).
      case_bool_decide as Hb.
      * apply (session_row_set seen ss s (Some idx)); [done|]. intros j o' Hj. destruct (Hall j o' Hj). cbn. lia.
      * split; [done|]. split.
        -- intros s'. rewrite fmap_app, elem_of_app, Hk. cbn. rewrite list_elem_of_singleton. split; [by left|].
           intros [?| ->]; [done|]. apply Hk. by rewrite E.
        -- intros s' i' r' E'. pose proof (Hf _ _ _ E'). apply is_final_app; [done|]. intros <-. rewrite E in E'. injection E' as <- <-. cbn. lia.
    + apply (session_row_set seen ss s (Some idx)); [done|]. intros j o' Hj. by destruct (sessions_none _ _ _ Hok E j o').
  - apply (session_row_set seen ss s None); [done|]. intros j o' Hj. exfalso.
    assert (length seen = j) as Hl; [|apply lookup_lt_Some in Hj; lia].
    eapply (Hap _ _ s o'); [by rewrite lookup_app_r, Nat.sub_diag by done|by apply lookup_app_l_Some].
Qed.

Lemma fold_rows_ok ps seen ss : sessions_ok seen ss → apart (seen ++ ps) → sessions_ok (seen ++ ps) (fold_rows (length seen) ps ss).
Proof.
  revert seen ss. induction ps as [|p ps IH]; intros seen ss Hok Hap; [by rewrite app_nil_r|].
  cbn [fold_rows]. specialize (IH (seen ++ [p])%list (session_row ss (length seen) p)). rewrite <- app_assoc, length_app, Nat.add_1_r in IH.
  apply IH; [|done]. apply session_row_ok; [done|]. intros i j s o Hi Hj. eapply Hap.
  - change (p :: ps) with ([p] ++ ps)%list. rewrite app_assoc. by apply lookup_app_l_Some.
  - change (p :: ps) with ([p] ++ ps)%list. rewrite app_assoc. by apply lookup_app_l_Some.
Qed.

Lemma sessions_final pads keys ss : final_sessions pads 0 keys [] = inr ss →
  ∃ ps, map_res (session_of pads) keys = inr ps ∧ (apart ps → sessions_ok ps ss).
Proof.
  intros (ps & E & ->)%final_sessions_fold. exists ps. split; [done|]. intros Hap. apply (fold_rows_ok ps [] []); [|done].
  split; [constructor|]. split; [|done]. intros s. split; [by intros [? ?]|intros H; by apply not_elem_of_nil in H].
Qed.

Lemma position_lookup {V} k (d : list (string * V)) n : position k d = Some n → ∃ v, d !! n = Some (k, v).
Proof.
  revert n. induction d as [|[k0 v0] d IH]; intros n; [done|]. cbn. case_decide; [intros [= <-]; subst; by exists v0|].
  intros (m & Hm & ->)%fmap_Some. by apply IH.
Qed.

(** Every row refers to the row with the greatest index of its own session. *)
Lemma final_rows_spec keys finals local : final_rows keys = inr (finals, local) →
  ∃ ps, map_res (session_of true) keys = inr ps ∧ length local = length keys ∧ (apart ps →
    NoDup finals ∧ ∀ i s o, ps !! i = Some (s, o) → ∃ n r idx, local !! i = Some n ∧ finals !! n = Some r ∧ is_final ps s idx r).
Proof.
  unfold final_rows. destruct (final_sessions true 0 keys []) as [e|ss] eqn:E; [done|].
  destruct (map_res _ keys) as [e|loc] eqn:El; [done|]. intros [= <- <-].
  destruct (sessions_final _ _ _ E) as (ps & Hps & Hok). exists ps. pose proof (map_res_Forall2 _ _ _ El) as Hl.
  pose proof (map_res_Forall2 _ _ _ Hps) as Hp. split; [done|]. split; [by eapply eq_sym, Forall2_length|].
  intros Hap. destruct (Hok Hap) as (Hnd & Hk & Hf). split.
  - assert (∀ (l : Sessions), NoDup l.*1 → (∀ x, x ∈ l → x ∈ ss) → NoDup ((λ x : string * (Z * nat), x.2.2) <$> l)) as H; [|by apply H].
    intros l. induction l as [|[s [idx r]] l IH]; intros Hl1 Hin; [constructor|]. cbn in *. apply NoDup_cons in Hl1 as [Hs Hl1].
    constructor; [|apply IH; [done|intros; apply Hin, elem_of_cons; by right]].
    intros ([s' [idx' r']] & Er & Hx)%list_elem_of_fmap. cbn in Er. subst r'.
    assert (assoc s ss = Some (idx, r)) as (? & H1 & _)%Hf by (apply assoc_elem; [done|apply Hin, elem_of_cons; by left]).
    assert (assoc s' ss = Some (idx', r)) as (? & H2 & _)%Hf by (apply assoc_elem; [done|apply Hin, elem_of_cons; by right]).
    apply Hs, list_elem_of_fmap. exists (s', (idx', r)). split; [cbn; congruence|done].
  - intros i s o Hi. destruct (Forall2_lookup_r _ _ _ _ _ Hp Hi) as (k & Hk' & Hso).
    destruct (Forall2_lookup_l _ _ _ _ _ Hl Hk') as (n & Hn & Hpos). rewrite Hso in Hpos.
    destruct (position s ss) as [m|] eqn:Em; [|done]. injection Hpos as <-. destruct (position_lookup _ _ _ Em) as ([idx r] & Hm).
    exists m, r, idx. split; [done|]. split; [by rewrite list_lookup_fmap, Hm|]. apply Hf, assoc_elem; [done|by eapply list_elem_of_lookup_2].
Qed.

Lemma session_row_keys ss i p s : is_Some (assoc s (session_row ss i p)) ↔ is_Some (assoc s ss) ∨ s = p.1.
Proof.
  assert (∀ (k : string) v, is_Some (assoc s (dict_set k v ss)) ↔ is_Some (assoc s ss) ∨ s = k) as H.
  { intros k v. rewrite assoc_dict_set. case_decide; [subst; split; [by right|by eexists]|]. naive_solver. }
  destruct p as [uid [idx|]]; cbn [session_row fst]; [|apply H].
  destruct (assoc uid ss) as [[best r]|] eqn:E; [case_bool_decide|]; [apply H| |apply H].
  split; [by left|]. intros [?| ->]; [done|]. by rewrite E.
Qed.

Lemma fold_rows_keys i ps ss s : is_Some (assoc s (fold_rows i ps ss)) ↔ is_Some (assoc s ss) ∨ s ∈ ps.*1.
Proof.
  revert i ss. induction ps as [|p ps IH]; intros i ss; cbn [fold_rows fmap list_fmap].
  - split; [by left|intros [?|H]; [done|by apply not_elem_of_nil in H]].
  - rewrite IH, session_row_keys, elem_of_cons. tauto.
Qed.

Lemma position_is_Some {V} k (d : list (string * V)) : is_Some (assoc k d) → is_Some (position k d).
Proof. induction d as [|[k0 v0] d IH]; [by intros [??]|]. cbn. case_decide; [by eexists|]. intros [n ->]%IH. by eexists. Qed.

(** The final rows are found for every batch whose keys can be read. *)
Lemma final_rows_total keys ps : map_res (session_of true) keys = inr ps → ∃ r, final_rows keys = inr r.
Proof.
  intros Hps. unfold final_rows. assert (final_sessions true 0 keys [] = inr (fold_rows 0 ps [])) as ->.
  { assert (∀ i ss, final_sessions true i keys ss = inr (fold_rows i ps ss)) as H; [|apply H].
    revert ps Hps. induction keys as [|k keys IH]; cbn [map_res]; intros ps; [by intros [= <-]|].
    cbn [final_sessions]. destruct (session_of true k); [done|]. destruct (map_res (session_of true) keys); [done|].
    intros [= <-] i ss. cbn [fold_rows]. by apply IH. }
  destruct (map_res_total (λ key, match session_of true key with
                            | inl e => inl e
                            | inr (s, _) => match position s (fold_rows 0 ps []) with Some n => inr n | None => inl KeyError end
                            end) (λ _ _, True) keys) as (l & -> & _); [|eauto].
  intros k (i & Hi)%list_elem_of_lookup. apply map_res_Forall2 in Hps. destruct (Forall2_lookup_l _ _ _ _ _ Hps Hi) as ([s o] & Hs & ->).
  destruct (position_is_Some s (fold_rows 0 ps [])) as [n ->]; [|by exists n].
  apply fold_rows_keys. right. apply list_elem_of_fmap. exists (s, o). split; [done|by eapply list_elem_of_lookup_2].
Qed.

(** C38: With the GRPO estimator, and keys in which a session without a trajectory
    index is a single row, every trajectory gets the score of the last trajectory of
    its own session, at the positions of its own mask, as its advantage and as its
    return: the estimator sees one row per session, the one with the greatest index.
    With any other estimator the whole batch is handed to it unchanged. *)
Theorem advantage_of_final_trajectory {F} gae grpo other has_parent (scale : F → Z → F) adv keys masks ps out :
  (∀ l a, grpo l = inr a → length a.1 = length l) → length masks = length keys →
  map_res (session_of true) keys = inr ps → apart ps →
  compute_advantage_for_multi_trajectories gae grpo other has_parent scale adv keys masks = inr out →
  if bool_decide (adv = "grpo") then
    out.2 = out.1 ∧ length out.1 = length keys ∧ ∃ finals advantages returns, NoDup finals ∧ has_parent = true ∧ grpo finals = inr (advantages, returns) ∧
    ∀ i s o m, ps !! i = Some (s, o) → masks !! i = Some m → ∃ n r idx x,
      finals !! n = Some r ∧ is_final ps s idx r ∧
      (m' ← masks !! r; a ← advantages !! n; a !! argmax m') = Some x ∧ out.1 !! i = Some (scale x <$> m)
  else inr out = (if bool_decide (adv = "gae") then gae (seq 0 (length keys)) else other adv (seq 0 (length keys))).
Proof.
  intros Hest Hlen Hps Hap. unfold compute_advantage_for_multi_trajectories, PSRL_compute_advantage.
  destruct (decide (adv = "grpo")) as [->|Hadv].
  2: { rewrite (bool_decide_eq_true_2 (adv ≠ "grpo")), (bool_decide_eq_false_2 (adv = "grpo")), Hlen by done. by intros ->. }
  rewrite (bool_decide_eq_false_2 ("grpo" ≠ "grpo")) by tauto. rewrite !(bool_decide_eq_true_2 ("grpo" = "grpo")) by done.
  rewrite (bool_decide_eq_false_2 ("grpo" = "gae")) by done.
  destruct (final_rows keys) as [e|[finals local]] eqn:Ef; [done|]. destruct has_parent; [|done].
  destruct (grpo finals) as [e|[advantages returns]] eqn:Eg; [done|]. specialize (Hest _ _ Eg). cbn in Hest.
  destruct (map_res _ (zip finals advantages)) as [e|scores] eqn:Es; [done|].
  destruct (map_res _ (zip local masks)) as [e|rows] eqn:Ha; [done|]. intros [= <-]. cbn [fst snd].
  destruct (final_rows_spec _ _ _ Ef) as (ps' & Hps' & Hloc & Hspec). rewrite Hps in Hps'. injection Hps' as <-.
  destruct (Hspec Hap) as [Hnd Hrows]. apply map_res_Forall2 in Es, Ha. split; [done|]. split.
  { apply Forall2_length in Ha. rewrite length_zip in Ha. lia. }
  exists finals, advantages, returns. split; [done|]. split; [done|]. split; [done|].
  intros i s o m Hi Hm. destruct (Hrows i s o Hi) as (n & r & idx & Hn & Hr & Hfin).
  assert (zip local masks !! i = Some (n, m)) as Hz by (apply lookup_zip_with_Some; eauto 6).
  destruct (Forall2_lookup_l _ _ _ _ _ Ha Hz) as (adv & Hadv & Hx). cbn in Hx.
  destruct (scores !! n) as [x|] eqn:Ex; [|done]. injection Hx as <-.
  destruct (Forall2_lookup_r _ _ _ _ _ Es Ex) as ([r' a] & Hz' & Hscore).
  apply lookup_zip_with_Some in Hz' as (r1 & a1 & [= -> ->] & Hr' & Hest'). rewrite Hr in Hr'. injection Hr' as <-.
  exists n, r, idx, x. split_and!; [done|done| |done]. unfold score_row in Hscore. rewrite Hest'.
  destruct (masks !! r) as [m'|]; [|done]. cbn in *. destruct (a1 !! argmax m'); [|done]. by injection Hscore as ->.
Qed.

Definition demo_keys : list string := ["7_0"; "7_1"; "8_0"; "pad_7_c0ffee"].

Definition demo_grpo (l : list nat) : Res (list (list Z) * list (list Z)) :=
  let a := (λ r, [Z.of_nat r * 10; 5]) <$> l in inr (a, a).
Definition demo_advantage (adv : string) : Res (list (list Z) * list (list Z)) :=
  compute_advantage_for_multi_trajectories (λ _, inl NotImplementedError) demo_grpo (λ _ l, inr ([], [])) true Z.mul adv
    demo_keys [[1; 1]; [1; 0]; [0; 1]; [0; 0]].

Lemma advantage_of_final_trajectory_witness :
  ∃ out, demo_advantage "grpo" = inr out ∧ out.2 = out.1 ∧ out.1 = [[10; 10]; [10; 0]; [0; 5]; [0; 0]].
Proof.
  eexists. split; [vm_compute; reflexivity|].
  destruct (advantage_of_final_trajectory (λ _, inl NotImplementedError) demo_grpo (λ _ l, inr ([], [])) true Z.mul "grpo" demo_keys [[1; 1]; [1; 0]; [0; 1]; [0; 0]]
    [("7", Some 0); ("7", Some 1); ("8", Some 0); ("pad_7_c0ffee", None)] ([[10; 10]; [10; 0]; [0; 5]; [0; 0]], [[10; 10]; [10; 0]; [0; 5]; [0; 0]])) as [H _];
    [intros l a [= <-]; cbn [fst]; by rewrite length_fmap|reflexivity|vm_compute; reflexivity| |vm_compute; reflexivity|split; [exact H|reflexivity]].
  intros i j s o Hi Hj. do 4 (destruct i as [|i]; [cbn in Hi; try discriminate|]); [|discriminate Hi].
  cbn in Hi. injection Hi as <-. do 4 (destruct j as [|j]; [cbn in Hj; first [discriminate|reflexivity]|]). discriminate Hj.
Defined.

(** Other estimators see the whole batch. *)
Example delegated_unchanged : demo_advantage "reinforce_plus_plus" = inr ([], []) ∧ demo_advantage "gae" = inl NotImplementedError.
Proof. split; vm_compute; reflexivity. Qed.

(** ** The replay buffer waits for its keys *)

Definition ready (p : string) (keys : list string) (b : ReplayBuffer) : Prop :=
  ∀ k, k ∈ keys → ∃ tags, partition_of p b !! k = Some tags ∧ status_of tags ≠ "running".

Lemma count_keys_wait part keys c :
  let c' := foldl (count_key part) c keys in
  (missing_keys c' = [] ↔ missing_keys c = [] ∧ ∀ k, k ∈ keys → is_Some (part !! k)) ∧
  n_running c ≤ n_running c' ∧
  (n_running c' = n_running c ↔ ∀ k tags, k ∈ keys → part !! k = Some tags → status_of tags ≠ "running").
Proof.
  revert c. induction keys as [|k keys IH]; intros c; cbn [foldl].
  - assert (∀ k : string, k ∉ []) as Hn by (intros k; apply not_elem_of_nil). split_and!; [|done|]; naive_solver.
  - destruct (IH (count_key part c k)) as (H1 & H2 & H3). setoid_rewrite elem_of_cons. rewrite H1. unfold count_key in *.
    destruct (part !! k) as [tags|] eqn:E; [case_bool_decide as Hr; [|case_bool_decide]|]; cbn in *.
    + split_and!; [naive_solver|lia|]. split; [lia|]. intros H. by destruct (H k tags (or_introl eq_refl) E).
    + rewrite H3. split_and!; [naive_solver|lia|naive_solver].
    + rewrite H3. split_and!; [naive_solver|lia|naive_solver].
    + rewrite H3. split_and!; [|lia|naive_solver]. split; [intros [Hx _]; by destruct (missing_keys c)|].
      intros [_ H]. destruct (H k) as [? ?]; [by left|congruence].
Qed.

Lemma should_wait_ready p keys b : should_wait (count_keys (partition_of p b) keys) = false ↔ ready p keys b.
Proof.
  unfold should_wait, count_keys, ready. destruct (count_keys_wait (partition_of p b) keys (mkCounts 0 0 0 [])) as (H1 & H2 & H3).
  rewrite orb_false_iff, !bool_decide_eq_false. cbn in *. split.
  - intros [Hm Hr] k Hk. assert (missing_keys (foldl (count_key (partition_of p b)) (mkCounts 0 0 0 []) keys) = []) as Hm'
      by (destruct (missing_keys _); [done|by destruct Hm]). apply H1 in Hm' as [_ Hm']. destruct (Hm' k Hk) as [tags Ht].
    exists tags. split; [done|]. apply H3 with k; [lia|done|done].
  - intros H. split.
    + intros Hm. apply Hm, H1. split; [done|]. intros k (? & ? & _)%H. eauto.
    + assert (n_running (foldl (count_key (partition_of p b)) (mkCounts 0 0 0 []) keys) = 0); [|lia].
      apply H3. intros k tags Hk Ht. destruct (H k Hk) as (? & ? & ?). congruence.
Qed.

Definition replay (rounds : list (list (string * list (string * Tags)))) (b : ReplayBuffer) : ReplayBuffer :=
  foldl (λ b polled, foldl (λ b '(p, items), add_items p items b) b polled) b rounds.

(** The wait for a batch ends in the first round after which every key is
    known with a status other than running, and in no earlier one. *)
Theorem sample_exact keys p rounds b b' :
  sample keys p rounds b = Some b' ↔
  ∃ pre r post, rounds = (pre ++ r :: post)%list ∧ b' = replay (pre ++ [r])%list b ∧ ready p keys b' ∧
    ∀ k, (0 < k ≤ length pre)%nat → ¬ ready p keys (replay (take k pre) b).
Proof.
  revert b. induction rounds as [|polled rounds IH]; intros b; cbn [sample].
  { split; [done|]. intros (pre & r & post & E & _). by destruct pre. }
  set (b1 := foldl _ b polled). destruct (should_wait _) eqn:Ew.
  - assert (¬ ready p keys b1) as Hn by (rewrite <- should_wait_ready; by rewrite Ew). rewrite IH. split.
    + intros (pre & r & post & -> & -> & Hr & Hk). exists (polled :: pre), r, post. split_and!; [done|done|done|].
      intros [|k] Hk'; [lia|]. destruct k as [|k]; [done|]. apply (Hk (S k)). cbn in Hk'. lia.
    + intros ([|polled' pre] & r & post & [= <- ->] & -> & Hr & Hk); [done|]. exists pre, r, post. split_and!; [done|done|done|].
      intros k Hk'. apply (Hk (S k)). cbn. lia.
  - apply should_wait_ready in Ew. split.
    + intros [= <-]. exists [], polled, rounds. split_and!; [done|done|done|]. cbn. lia.
    + intros ([|polled' pre] & r & post & [= <- ->] & -> & Hr & Hk); [done|]. exfalso. apply (Hk 1%nat); [cbn; lia|done].
Qed.

(** A key that was removed is back when the polling thread adds a listing it read
    before the removal. *)
Example removed_key_returns :
  let listing := [("7_0", {["status" := "success"]} : Tags)] in
  ready "train" ["7_0"] (add_items "train" listing (remove ["7_0"] "train" (add_items "train" listing ∅))).
Proof. apply should_wait_ready. vm_compute. reflexivity. Qed.
