(* ===== verification/WorkerNames.v ===== *)
(** * Worker names

    [psrl/utils/common/worker_naming.py] and [nixl_names.py]: the names under which
    the storage, rollout, validation and training workers register with the NIXL
    meta server.  The names of different workers are different. *)

From Stdlib Require Import Ascii.
From stdpp Require Import pretty.
From S2P Require Import Prelude.
From S2P Require Import PyFloat.
From S2P Require Import PyData.

#[local] Open Scope string_scope.
#[local] Open Scope Z_scope.

Definition NIXL_META_SERVER_NAME : string := "NIXLMetaServer".
Definition NIXL_GEN_CLIENT_PREFIX : string := "NIXLGenClient".
Definition NIXL_TRAIN_CLIENT_PREFIX : string := "NIXLTrainClient".
Definition NIXL_PS_CLIENT_PREFIX : string := "NIXLPSClient".

Inductive WorkerRole := Rollout | Actor | Validate.

#[export] Instance WorkerRole_eq_dec : EqDecision WorkerRole.
Proof. solve_decision. Defined.

Record WorkerKey := mkWorkerKey { role : WorkerRole; instance_id : Z; rank : Z }.

#[export] Instance WorkerKey_eq_dec : EqDecision WorkerKey.
Proof. solve_decision. Defined.

(** The constructor with its check. *)
Definition make_key (r : WorkerRole) (i k : Z) : Res WorkerKey :=
  if bool_decide (r = Actor ∧ i ≠ 0) then inl AssertionError else inr (mkWorkerKey r i k).

Definition role_name (r : WorkerRole) : string :=
  match r with Rollout => "rollout" | Actor => "actor" | Validate => "validate" end.

Definition to_trainer_name (k : WorkerKey) : string :=
  role_name (role k) ++ "_I" ++ str_of_Z (instance_id k) ++ "_R" ++ str_of_Z (rank k).

Definition gen_client_name (instance rank : Z) : string :=
  NIXL_GEN_CLIENT_PREFIX ++ "_I" ++ str_of_Z instance ++ "_R" ++ str_of_Z rank.
Definition train_client_name (rank : Z) : string := NIXL_TRAIN_CLIENT_PREFIX ++ "_" ++ str_of_Z rank.

Definition to_nixl_client_name (n_rollout_instances : Z) (k : WorkerKey) : string :=
  match role k with
  | Rollout => NIXL_GEN_CLIENT_PREFIX ++ "_I" ++ str_of_Z (instance_id k) ++ "_R" ++ str_of_Z (rank k)
  | Validate => NIXL_GEN_CLIENT_PREFIX ++ "_I" ++ str_of_Z (n_rollout_instances + instance_id k) ++ "_R" ++ str_of_Z (rank k)
  | Actor => NIXL_TRAIN_CLIENT_PREFIX ++ "_" ++ str_of_Z (rank k)
  end.

Definition ps_agent_name (rank : Z) : string := NIXL_PS_CLIENT_PREFIX ++ "_" ++ str_of_Z rank.
Definition ps_client_push_name (rank : Z) : string := NIXL_PS_CLIENT_PREFIX ++ "_" ++ str_of_Z rank ++ "_for_push".
Definition ps_client_pull_name (rank : Z) : string := NIXL_PS_CLIENT_PREFIX ++ "_" ++ str_of_Z rank ++ "_for_pull".

(** ** Names determine workers *)

Fixpoint lacks (c : ascii) (s : string) : bool :=
  match s with EmptyString => true | String d s => negb (bool_decide (d = c)) && lacks c s end.

Definition numeral_chars : list ascii := ["-"; "0"; "1"; "2"; "3"; "4"; "5"; "6"; "7"; "8"; "9"]%char.

Section lacks.
Context (c : ascii) (Hc : bool_decide (c ∈ numeral_chars) = false).

Lemma lacks_char d : d ∈ numeral_chars → negb (bool_decide (d = c)) = true.
Proof. intros Hd. apply negb_true_iff, bool_decide_eq_false. intros ->. by eapply bool_decide_eq_false. Qed.

Lemma lacks_pretty (x : N) s : lacks c s = true → lacks c (pretty_N_go x s) = true.
Proof.
  revert s. induction (N.lt_wf_0 x) as [x _ IH]; intros s Hs. destruct (decide (0 < x)%N) as [Hx|Hx].
  - rewrite pretty_N_go_step by done. apply IH; [by apply N.div_lt|]. cbn [lacks]. rewrite Hs, andb_true_r.
    apply lacks_char. clear Hc. unfold pretty_N_char. repeat case_match; apply (bool_decide_unpack _); vm_compute; exact I.
  - assert (x = 0%N) as -> by lia. by rewrite pretty_N_go_0.
Qed.

Lemma lacks_str n : lacks c (str_of_Z n) = true.
Proof.
  assert (lacks c "0" = true) as H0.
  { cbn [lacks]. rewrite lacks_char; [done|]. apply (bool_decide_unpack _). vm_compute. exact I. }
  assert (∀ x : N, lacks c (pretty x) = true) as H.
  { intros x. unfold pretty, pretty_N. destruct (decide (x = 0)%N); [done|]. by apply lacks_pretty. }
  unfold str_of_Z, pretty, pretty_Z. destruct n as [|p|p]; [done|apply (H (N.pos p))|].
  change (lacks c (String "-" (pretty (N.pos p))) = true). cbn [lacks]. rewrite H, lacks_char; [done|].
  apply (bool_decide_unpack _). vm_compute. exact I.
Qed.
End lacks.

Lemma split_underscore u v s t : lacks "_" u = true → lacks "_" v = true →
  u ++ String "_" s = v ++ String "_" t → u = v ∧ s = t.
Proof.
  revert v. induction u as [|c u IH]; intros [|d v] Hu Hv E.
  - change (String "_" s = String "_" t) in E. by injection E.
  - change (String "_" s = String d (v ++ String "_" t)) in E. injection E as <- _. discriminate Hv.
  - change (String c (u ++ String "_" s) = String "_" t) in E. injection E as -> _. discriminate Hu.
  - change (String c (u ++ String "_" s) = String d (v ++ String "_" t)) in E. injection E as -> E.
    cbn [lacks] in *. apply andb_true_iff in Hu as [_ Hu], Hv as [_ Hv]. destruct (IH v Hu Hv E) as [-> ->]. done.
Qed.

Lemma str_of_Z_inj a b : str_of_Z a = str_of_Z b → a = b.
Proof. intros E. pose proof (py_int_str a) as Ha. rewrite E, py_int_str in Ha. by injection Ha. Qed.

Lemma prefix_inj p s t : p ++ s = p ++ t → s = t.
Proof. induction p as [|c p IH]; [done|]. intros E. apply IH. change (String c (p ++ s) = String c (p ++ t)) in E. by injection E. Qed.

Lemma gen_name_inj i r i' r' : gen_client_name i r = gen_client_name i' r' → i = i' ∧ r = r'.
Proof.
  intros E. apply prefix_inj in E. apply (prefix_inj "_I") in E.
  apply (split_underscore _ _ (String "R" (str_of_Z r)) (String "R" (str_of_Z r'))) in E as [H1%str_of_Z_inj E]; [|by apply lacks_str..].
  injection E as H2%str_of_Z_inj. done.
Qed.

(** The workers of a deployment: instances and ranks are counted from zero, rollout
    instances below their number, and all actors are of instance zero. *)
Definition deployed (n_rollout : Z) (k : WorkerKey) : Prop :=
  0 ≤ instance_id k ∧ 0 ≤ rank k ∧ (role k = Rollout → instance_id k < n_rollout) ∧ (role k = Actor → instance_id k = 0).

(** Two workers of a deployment never share a name on the meta server: the
    validation workers are numbered after the rollout workers. *)
Theorem client_names_unique n_rollout k k' : deployed n_rollout k → deployed n_rollout k' →
  to_nixl_client_name n_rollout k = to_nixl_client_name n_rollout k' → k = k'.
Proof.
  destruct k as [r i n], k' as [r' i' n']. unfold deployed, to_nixl_client_name; cbn [role instance_id rank].
  intros (Hi & Hn & Hr & Ha) (Hi' & Hn' & Hr' & Ha') E.
  destruct r, r'; try (specialize (Hr eq_refl)); try (specialize (Hr' eq_refl)); try (specialize (Ha eq_refl)); try (specialize (Ha' eq_refl));
    try discriminate E.
  - apply (gen_name_inj i n i' n') in E as [-> ->]. done.
  - apply (gen_name_inj i n (n_rollout + i') n') in E as [? _]. lia.
  - apply prefix_inj, (prefix_inj "_") in E. apply str_of_Z_inj in E. by subst.
  - apply (gen_name_inj (n_rollout + i) n i' n') in E as [? _]. lia.
  - apply (gen_name_inj (n_rollout + i) n (n_rollout + i') n') in E as [? ->]. assert (i = i') as -> by lia. done.
Qed.

Lemma client_names_unique_witness : to_nixl_client_name 2 (mkWorkerKey Validate 0 1) ≠ to_nixl_client_name 2 (mkWorkerKey Rollout 1 1).
Proof.
  intros E. assert (mkWorkerKey Validate 0 1 = mkWorkerKey Rollout 1 1) as H; [|discriminate H].
  apply (client_names_unique 2); [| |exact E]; unfold deployed; cbn; (split; [lia|split; [lia|split; [intros; (lia || discriminate)|intros; (lia || discriminate)]]]).
Defined.

(** Without the number of rollout instances the names collide. *)
Example default_offset_collides : to_nixl_client_name 0 (mkWorkerKey Validate 0 1) = to_nixl_client_name 0 (mkWorkerKey Rollout 0 1).
Proof. reflexivity. Qed.
