(* ===== verification/TrainerBatch.v ===== *)
(** * Trainer: batch sizes, chunks and balancing

    How the trainer ([psrl/trainer/ppo/ray_trainer.py], [psrl/utils/config.py]) sizes
    its batches: the multiple a global batch is padded to, the chunk size of
    fine-grained overlap, the order that balances the data-parallel ranks, and
    the round-robin plan of an information broadcast.

    The partitioning of work loads and the padding of a batch are functions of
    the training library and are arguments here. *)

From Stdlib Require Import Ascii.
From S2P Require Import Prelude.
From S2P Require Import PyFloat.
From S2P Require Import PyData.
From S2P Require Import BatchSchedule.

#[local] Open Scope string_scope.
#[local] Open Scope list_scope.
#[local] Open Scope Z_scope.

(** ** The multiple of a global batch *)

Record SizeConfig := mkSizes {
  critic_mini_batch : option Z;
  actor_mini_batch : Z;
  train_rollout_n : Z;
  size_critic_warmup : Z;
}.

(** [_get_required_batch_multiple]; [math.lcm] is never negative. *)
Definition required_batch_multiple (individually : bool) (c : SizeConfig) (global_steps dp_size : Z) : Z :=
  if individually then dp_size
  else
    let m := match critic_mini_batch c with Some s => Z.lcm dp_size (s * train_rollout_n c) | None => dp_size end in
    if bool_decide (size_critic_warmup c ≤ global_steps) then Z.lcm m (actor_mini_batch c * train_rollout_n c) else m.

(** ** The chunk size of fine-grained overlap *)

Record ChunkConfig := mkChunk {
  fine_grain_overlap : option (string * Z);
  gen_rollout_n : Z;
  train_batch_size : Z;
  chunk_mini_batch : Z;
  use_dynamic_bsz : bool;
  micro_batch_per_gpu : option Z;
}.

(** The granularity and the number of samples of a chunk before the checks. *)
Definition raw_chunk (c : ChunkConfig) (granularity : string) (multiplier dp_size : Z) : Res (string * Z) :=
  let mini := chunk_mini_batch c * gen_rollout_n c in
  if bool_decide (granularity = "micro_batch") then
    if use_dynamic_bsz c then inl ValueError
    else match micro_batch_per_gpu c with
         | None => inl ValueError
         | Some micro =>
             let chunk := micro * dp_size * multiplier in
             inr (if bool_decide (mini < chunk) then ("mini_batch", mini) else ("micro_batch", chunk))
         end
  else if bool_decide (granularity = "mini_batch") then inr ("mini_batch", mini * multiplier)
  else inl ValueError.

Definition resolve_fine_grain_chunk_size (c : ChunkConfig) (dp_size : Z) : Res (string * Z) :=
  let granularity := default "none" (fst <$> fine_grain_overlap c) in
  let multiplier := default 1 (snd <$> fine_grain_overlap c) in
  if bool_decide (multiplier < 1) then inl ValueError
  else if bool_decide (granularity = "none") then inr ("none", train_batch_size c)
  else
    match raw_chunk c granularity multiplier dp_size with
    | inl e => inl e
    | inr (granularity, chunk) =>
        let full := train_batch_size c * gen_rollout_n c in
        let '(granularity, chunk) := if bool_decide (full < chunk) then ("none", full) else (granularity, chunk) in
        if bool_decide (gen_rollout_n c = 0) then inl ZeroDivisionError
        else if bool_decide (chunk mod gen_rollout_n c ≠ 0) then inl ValueError
        else
          let groups := chunk / gen_rollout_n c in
          if bool_decide (dp_size = 0) then inl ZeroDivisionError
          else if bool_decide (groups mod dp_size ≠ 0) then inl ValueError
          else inr (granularity, groups)
    end.

(** ** Balancing *)

(** [l[::2]] and [l[1::2]] *)
Fixpoint evens {A} (l : list A) : list A :=
  match l with [] => [] | [x] => [x] | x :: _ :: l => x :: evens l end.
Definition odds {A} (l : list A) : list A := match l with [] => [] | _ :: l => evens l end.

(** Smaller entries at both ends. *)
Definition zigzag {A} (l : list A) : list A := evens l ++ reverse (odds l).

(** [sort(key=lambda x: (workload[x], x))]: by index, then stably by work load. *)
Definition sort_partition (workload : list Z) (part : list nat) : list nat :=
  sort_by (λ x, default 0 (workload !! x)) (sort_by Z.of_nat part).

Section balance.
(** [get_seqlen_balanced_partitions] with equal sizes. *)
Context (balanced : list Z → nat → list (list nat)).

(** [global_partition_lst[j].extend(...)] for one mini-batch. *)
Fixpoint extend_parts (base : nat) (parts rearranged : list (list nat)) : list (list nat) :=
  match parts, rearranged with
  | p :: parts, r :: rearranged => (p ++ ((λ x, (x + base)%nat) <$> r)) :: extend_parts base parts rearranged
  | parts, _ => parts
  end.

Definition partitions (keep_minibatch : option nat) (workload : list Z) (dp_size : nat) : list (list nat) :=
  match keep_minibatch with
  | None => balanced workload dp_size
  | Some size =>
      foldl (λ parts i, extend_parts (size * i) parts (balanced (take size (drop (i * size) workload)) dp_size))
        (replicate dp_size []) (seq 0 (length workload / size))
  end.

(** [_balance_batch] without prefix grouping: the order of the samples. *)
Definition balance_order (keep_minibatch : option nat) (workload : list Z) (dp_size : nat) : list nat :=
  concat ((λ part, zigzag (sort_partition workload part)) <$> partitions keep_minibatch workload dp_size).
End balance.

(** ** Broadcast plans of the trainer *)

(** [_make_broadcast_plan]: destinations are dealt to the sources in turn. *)
Fixpoint deal (srcs : list string) (i : nat) (dsts : list string) (plan : list (string * list string)) : Res (list (string * list string)) :=
  match dsts with
  | [] => inr plan
  | d :: dsts =>
      match srcs !! (i mod length srcs)%nat with
      | None => inl ZeroDivisionError
      | Some s => deal srcs (S i) dsts (dict_set s (default [] (assoc s plan) ++ [d]) plan)
      end
  end.

Definition make_broadcast_plan (srcs dsts : list string) : Res (list (string * list string)) :=
  deal srcs 0 dsts (foldl (λ plan s, dict_set s [] plan) [] srcs).

(** ** The order is a permutation *)

Lemma evens_cons {A} (l : list A) x : evens (x :: l) ++ evens l ≡ₚ x :: l.
Proof.
  revert x. induction l as [|y l IH]; intros x; [done|]. change (evens (x :: y :: l)) with (x :: evens l).
  cbn [app]. constructor. rewrite (Permutation_app_comm (evens l)). apply IH.
Qed.

Lemma zigzag_perm {A} (l : list A) : zigzag l ≡ₚ l.
Proof. unfold zigzag. rewrite reverse_Permutation. destruct l as [|x l]; [done|]. apply evens_cons. Qed.

Lemma sort_partition_perm workload part : sort_partition workload part ≡ₚ part.
Proof. unfold sort_partition. by rewrite !sort_by_perm. Qed.

Lemma concat_fmap_perm {A} (f : list A → list A) (ls : list (list A)) : (∀ l, f l ≡ₚ l) → concat (f <$> ls) ≡ₚ concat ls.
Proof. intros Hf. induction ls as [|l ls IH]; [done|]. cbn. by rewrite Hf, IH. Qed.

Lemma extend_parts_length base parts r : length (extend_parts base parts r) = length parts.
Proof. revert r. induction parts as [|p parts IH]; intros [|x r]; try done. cbn. by rewrite IH. Qed.

Lemma extend_parts_perm base parts r : length parts = length r →
  concat (extend_parts base parts r) ≡ₚ concat parts ++ ((λ x, (x + base)%nat) <$> concat r).
Proof.
  revert r. induction parts as [|p parts IH]; intros [|x r] Hl; try done. cbn [extend_parts concat]. injection Hl as Hl.
  rewrite IH, fmap_app by done. solve_Permutation.
Qed.

Section balanced.
Context (balanced : list Z → nat → list (list nat)).
(** The partitioner returns [k] parts of equal size that together are the
    positions of the list, when [k] divides its length. *)
Hypothesis balanced_parts : ∀ w k, (0 < k)%nat → (length w mod k = 0)%nat →
  length (balanced w k) = k ∧ concat (balanced w k) ≡ₚ seq 0 (length w) ∧ Forall (λ p, length p = (length w / k)%nat) (balanced w k).

Lemma fold_parts_perm w k size (n : nat) : (0 < k)%nat → (0 < size)%nat → (size mod k = 0)%nat → (size * n ≤ length w)%nat →
  let parts := foldl (λ parts i, extend_parts (size * i) parts (balanced (take size (drop (i * size) w)) k)) (replicate k []) (seq 0 n) in
  length parts = k ∧ concat parts ≡ₚ seq 0 (size * n).
Proof.
  intros Hk Hs Hm. induction n as [|n IH]; intros Hn.
  - cbn. rewrite length_replicate, Nat.mul_0_r. split; [done|]. clear. induction k; done.
  - rewrite seq_S, foldl_app. cbn [foldl Nat.add]. destruct IH as [Hl Hp]; [lia|].
    set (parts := foldl _ _ (seq 0 n)) in *. set (w' := take size (drop (n * size) w)).
    assert (length w' = size) as Hw' by (unfold w'; rewrite length_take, length_drop; lia).
    destruct (balanced_parts w' k) as (Hlb & Hpb & _); [done|by rewrite Hw'|]. rewrite extend_parts_length. split; [done|].
    rewrite extend_parts_perm by (by rewrite Hlb). cbn. rewrite Hp, Hpb, Hw', Nat.mul_succ_r, seq_app.
    apply Permutation_app_head. cbn [Nat.add]. rewrite <- (Nat.add_0_r (size * n)), <- fmap_add_seq.
    erewrite list_fmap_ext; [done|]. intros i x _. cbn. lia.
Qed.

(** The balanced order is a permutation of the samples, so every sample is
    dispatched exactly once, and every rank gets the same number of them; with
    mini-batches kept together, the samples after the last whole mini-batch are
    left out. *)
Theorem balance_order_permutes w k keep : (0 < k)%nat →
  match keep with None => (length w mod k = 0)%nat | Some size => (0 < size)%nat ∧ (size mod k = 0)%nat end →
  balance_order balanced keep w k ≡ₚ seq 0 (match keep with None => length w | Some size => size * (length w / size) end) ∧
  (keep = None → Forall (λ part, length part = (length w / k)%nat) ((λ part, zigzag (sort_partition w part)) <$> partitions balanced keep w k)).
Proof.
  intros Hk Hkeep. unfold balance_order. split.
  - rewrite concat_fmap_perm by (intros l; by rewrite zigzag_perm, sort_partition_perm). destruct keep as [size|]; cbn [partitions].
    + destruct Hkeep as [Hs Hm]. apply fold_parts_perm; [done|done|done|]. apply Nat.Div0.mul_div_le.
    + by apply balanced_parts.
  - intros ->. cbn [partitions]. apply Forall_fmap. destruct (balanced_parts w k Hk Hkeep) as (_ & _ & H).
    eapply Forall_impl; [exact H|]. intros p Hp. cbn. by rewrite zigzag_perm, sort_partition_perm.
Qed.
End balanced.

(** Runs of equal length. *)
Definition runs (w : list Z) (k : nat) : list (list nat) := (λ j, seq (j * (length w / k)) (length w / k)) <$> seq 0 k.

Lemma runs_parts w k : (0 < k)%nat → (length w mod k = 0)%nat →
  length (runs w k) = k ∧ concat (runs w k) ≡ₚ seq 0 (length w) ∧ Forall (λ p, length p = (length w / k)%nat) (runs w k).
Proof.
  intros Hk Hm. unfold runs. set (q := (length w / k)%nat). assert (length w = k * q)%nat as Hlen.
  { pose proof (Nat.div_mod_eq (length w) k). fold q in H. lia. }
  clearbody q. rewrite Hlen. clear Hlen.
  rewrite length_fmap, length_seq. split; [done|]. split.
  - clear. induction k as [|k IH]; [done|]. rewrite seq_S, fmap_app, concat_app, IH. cbn. rewrite app_nil_r, (Nat.add_comm q), seq_app. done.
  - apply Forall_fmap, Forall_forall. intros j _. cbn. by rewrite length_seq.
Qed.

Lemma balance_order_permutes_witness : balance_order runs None [5; 9; 2; 7] 2 ≡ₚ [0; 1; 2; 3]%nat.
Proof. apply (balance_order_permutes runs runs_parts [5; 9; 2; 7] 2 None); [lia|reflexivity]. Defined.

(** The multiple is the least one that the ranks and the mini-batches of every
    update of the step divide. *)
Theorem batch_multiple_least c global_steps dp_size n :
  let m := required_batch_multiple false c global_steps dp_size in
  (m | n) ↔ (dp_size | n) ∧ (∀ s, critic_mini_batch c = Some s → (s * train_rollout_n c | n)) ∧
            (size_critic_warmup c ≤ global_steps → (actor_mini_batch c * train_rollout_n c | n)).
Proof.
  assert (∀ a b, (Z.lcm a b | n) ↔ (a | n) ∧ (b | n)) as Hl.
  { intros a b. split; [|intros [? ?]; by apply Z.lcm_least]. intros H. split; (etrans; [|exact H]); [apply Z.divide_lcm_l|apply Z.divide_lcm_r]. }
  unfold required_batch_multiple. destruct (critic_mini_batch c) as [s|]; case_bool_decide; rewrite ?Hl; naive_solver.
Qed.

(** A resolved chunk is a whole number of prompt groups, no more than the batch
    has; a chunk below the full batch is dealt evenly to the ranks, and a
    mini-batch chunk is a whole number of mini-batches. *)
Theorem chunk_size_sound c dp_size g groups :
  0 < gen_rollout_n c → 0 < train_batch_size c →
  resolve_fine_grain_chunk_size c dp_size = inr (g, groups) →
  groups ≤ train_batch_size c ∧ (g ≠ "none" → (dp_size | groups)) ∧ (g = "mini_batch" → (chunk_mini_batch c | groups)) ∧
  (g = "none" → groups = train_batch_size c).
Proof.
  intros Hr Ht. unfold resolve_fine_grain_chunk_size. case_bool_decide; [done|]. case_bool_decide; [intros [= <- <-]; naive_solver|].
  destruct (raw_chunk _ _ _ _) as [|[g0 chunk]] eqn:Eraw; [done|].
  set (full := train_batch_size c * gen_rollout_n c). rewrite (bool_decide_eq_false_2 (gen_rollout_n c = 0)) by lia.
  destruct (decide (full < chunk)) as [Efull|Efull]; [rewrite (bool_decide_eq_true_2 (full < chunk)) by done|rewrite (bool_decide_eq_false_2 (full < chunk)) by done];
    (case_bool_decide as Hmod; [done|]); (case_bool_decide; [done|]); (case_bool_decide as Hdp; [done|]); intros [= <- <-].
  - unfold full in *. rewrite Z.div_mul in * by lia. split_and!; [lia|done|done|done].
  - apply Z.mod_divide in Hmod as [q ->]; [|lia].
    rewrite Z.div_mul in * by lia. apply Z.mod_divide in Hdp; [|lia].
    assert (g0 = "micro_batch" ∨ g0 = "mini_batch" ∧ (chunk_mini_batch c * gen_rollout_n c | q * gen_rollout_n c)) as Hg.
    { revert Eraw. unfold raw_chunk. repeat case_bool_decide; try done.
      - destruct (use_dynamic_bsz c); [done|]. destruct (micro_batch_per_gpu c) as [m|]; [|done]. case_bool_decide; intros [= <- E]; [right|by left].
        split; [done|]. rewrite E. exists 1. lia.
      - intros [= <- E]. right. split; [done|]. rewrite <- E. eexists. apply Z.mul_comm. }
    assert (g0 = "mini_batch" → (chunk_mini_batch c | q)) as Hm.
    { intros ->. destruct Hg as [?|[_ Hd]]; [done|]. apply Z.mul_divide_cancel_r in Hd; [done|lia]. }
    split_and!; [unfold full in *; nia|done|done|]. intros ->. by destruct Hg as [?|[? _]].
Qed.

Lemma chunk_size_sound_witness : resolve_fine_grain_chunk_size (mkChunk (Some ("mini_batch", 2)) 4 64 8 false None) 4 = inr ("mini_batch", 16) ∧ (8 | 16).
Proof.
  split; [vm_compute; reflexivity|].
  apply (chunk_size_sound (mkChunk (Some ("mini_batch", 2)) 4 64 8 false None) 4 "mini_batch" 16); [cbn; lia|cbn; lia|vm_compute; reflexivity|reflexivity].
Defined.

(** The destinations of a plan for one source are all of them, in order; the
    trainer always deals from the meta server alone. *)
Lemma deal_single s i dsts l : deal [s] i dsts [(s, l)] = inr [(s, l ++ dsts)].
Proof.
  revert i l. induction dsts as [|d dsts IH]; intros i l; [by rewrite app_nil_r|]. cbn [deal]. cbn [length]. rewrite Nat.mod_1_r.
  cbn [lookup list_lookup]. cbn [dict_set assoc]. rewrite !decide_True by done. cbn [default from_option id]. rewrite IH, <- app_assoc. done.
Qed.

Lemma broadcast_plan_single s dsts : make_broadcast_plan [s] dsts = inr [(s, dsts)].
Proof. unfold make_broadcast_plan. cbn [foldl dict_set]. apply deal_single. Qed.
