(* ===== verification/Trainer.v ===== *)
(** * The PPO trainer

    [psrl/trainer/ppo/ray_trainer.py] and [strategies/]: the driver of a training
    run.  It resumes from a checkpoint, switches the colocated GPUs between
    rollout and training, and in each step acquires a batch, computes log
    probabilities, values, rewards and advantages, dispatches the optimizer
    updates, checkpoints, validates, and releases the batch.

    The driver works through remote calls, so its state carries the log of the
    calls it has made; [fails] says which call raises.  What the calls answer
    (batches, chunks, gateway rejections) and the helpers of the training and
    queue libraries are arguments. *)

From Stdlib Require Import Ascii.
From S2P Require Import Prelude.
From S2P Require Import PyFloat.
From S2P Require Import PyData.
From S2P Require Import BatchSchedule.
From S2P Require Import EnvShell.
From S2P Require Import WorkerNames.
From S2P Require Import TrainerBatch.

#[local] Open Scope string_scope.
#[local] Open Scope list_scope.
#[local] Open Scope Z_scope.

(** ** Data *)

Inductive info_value :=
  | VBool (b : bool)
  | VInt (z : Z)
  | VOther.

#[export] Instance info_value_eq_dec : EqDecision info_value.
Proof. solve_decision. Defined.

(** A [KVBatchMeta]: keys, tags, partition and extra information. *)
Record Batch := mkBatch {
  b_keys : list string;
  b_tags : list Tag;
  b_partition : string;
  b_extra : list (string * info_value);
}.

Definition with_extra v (b : Batch) := mkBatch (b_keys b) (b_tags b) (b_partition b) v.

(** [extra_info.update(d)] *)
Definition update_extra (d : list (string * info_value)) (b : Batch) : Batch :=
  with_extra (foldl (λ e '(k, v), dict_set k v e) (b_extra b) d) b.
Definition pop_extra (k : string) (b : Batch) : Batch := with_extra (dict_pop k (b_extra b)) b.

Definition of_extra (v : extra_value) : info_value := match v with IntValue z => VInt z | DataloaderKwargs _ => VOther end.

(** The remote calls of the driver. *)
Inductive call :=
  | ActorSleep | ActorWakeUp | ActorSendInfo | ActorPull | ActorPush | ActorLoad (path : string) | CriticLoad (path : string)
  | ActorFinalize (blocking : bool) | ActorSave (path : string) (step : Z) | CriticSave (path : string) (step : Z)
  | SaveDataloader (path : string) | LoadDataloader (path : string) | WriteLatest (path : string) (step : Z)
  | ValidateWakeUp (i : nat) | ValidateSendInfo (i : nat) | ValidatePause (i : nat) | ValidateSleep (i : nat)
  | PsWaitInfos (n : Z) | PsInitVersion (v : Z) | PsBroadcast (dst updated : list string) | WaitInfos (who : string)
  | SyncWithPs (ids : list (string * Z)) | Gateway (action : string) (ids : list string)
  | WaitBatch (buffer_id : Z) | WaitChunk (buffer_id : Z) (chunk : nat) | SampleReplay (keys : list string) (p : string)
  | OldLogProb (keys : list string) | ReuseLogProb (keys : list string) | RefLogProb (keys : list string) | ActorRefLogProb (keys : list string) | Values (keys : list string)
  | WaitReward (keys : list string) | NormalizeReward (keys : list string) | Advantage (keys : list string)
  | UpdateActor (b : Batch) | UpdateCritic (b : Batch)
  | ClearPayload (keys : list string) (p : string) | ReplayRemove (keys : list string) (p : string)
  | GenerateValidation | WaitValidation (n : nat) | DumpRollout (keys : list string)
  | SetInitialVersion (v : Z) | SetChunkSize (n : Z) | Start (component : string) | Stop (component : string) | Kill (component : string)
  | ComputeMetrics (step : Z) | LogMetrics (step : Z).

Record UpdateConfig := mkUpdate { ppo_mini_batch_size : Z; ppo_epochs : Z; update_shuffle : bool; data_loader_seed : Z }.

Record TrainerConfig := mkTrainerConfig {
  colocate : bool;
  nixl_mode : bool;
  val_before_train : bool;
  val_only : bool;
  use_critic : bool;
  use_reference_policy : bool;
  ref_in_actor : bool;
  bypass_mode : bool;
  actor_async_calls : bool;
  balance_batch : bool;
  launch_reward_fn_async : bool;
  critic_warmup : Z;
  save_freq : Z;
  test_freq : Z;
  rollout_data_dir : bool;
  async_save : bool;
  default_local_dir : string;
  has_hdfs_dir : bool;
  resume_mode : string;
  resume_from_path : option string;
  batch_agg_mode : string;
  actor_update : UpdateConfig;
  critic_update : UpdateConfig;
  rollout_n : Z;
  train_n : Z;
  alg_rollout_n : Z;
  total_training_steps : Z;
  validate_tp : list nat;
  rollout_tp : list nat;
  actor_world_size : nat;
  ps_world_size : nat;
  validate_dp_size : nat;
  val_batch_num : nat;
  actor_dp : Z;
  critic_dp : Z;
  has_elastic_executor : bool;
  has_env_workers : bool;
}.

Record Trainer := mkTrainer {
  global_steps : Z;
  is_rollout_mode_in_actor : bool;
  actor_resume_loaded : bool;
  deferred_actor_ckpt_path : option string;
  validate_base_ids : list string;
  calls : list call;
}.

Definition with_global_steps v (t : Trainer) := mkTrainer v (is_rollout_mode_in_actor t) (actor_resume_loaded t) (deferred_actor_ckpt_path t) (validate_base_ids t) (calls t).
Definition with_rollout_mode v (t : Trainer) := mkTrainer (global_steps t) v (actor_resume_loaded t) (deferred_actor_ckpt_path t) (validate_base_ids t) (calls t).
Definition with_resume_loaded v (t : Trainer) := mkTrainer (global_steps t) (is_rollout_mode_in_actor t) v (deferred_actor_ckpt_path t) (validate_base_ids t) (calls t).
Definition with_deferred v (t : Trainer) := mkTrainer (global_steps t) (is_rollout_mode_in_actor t) (actor_resume_loaded t) v (validate_base_ids t) (calls t).
Definition with_base_ids v (t : Trainer) := mkTrainer (global_steps t) (is_rollout_mode_in_actor t) (actor_resume_loaded t) (deferred_actor_ckpt_path t) v (calls t).
Definition with_calls v (t : Trainer) := mkTrainer (global_steps t) (is_rollout_mode_in_actor t) (actor_resume_loaded t) (deferred_actor_ckpt_path t) (validate_base_ids t) v.

Definition new_trainer (c : TrainerConfig) (base_ids : list string) : Trainer :=
  mkTrainer 0 (colocate c && val_before_train c) false None base_ids [].

Abbreviation Tr A := (M Trainer A).

(** ** Paths *)

Definition starts_with_slash (s : string) : bool := match s with String "/" _ => true | _ => false end.
Fixpoint ends_with_slash (s : string) : bool :=
  match s with EmptyString => false | String c EmptyString => bool_decide (c = "/"%char) | String _ s => ends_with_slash s end.

(** [os.path.join] of two paths *)
Definition path_join (a b : string) : string :=
  if starts_with_slash b then b
  else if bool_decide (a = EmptyString) || ends_with_slash a then (a ++ b)%string
  else (a ++ "/" ++ b)%string.

(** [s.split(sep)[-1]] for a separator that does not overlap itself *)
Fixpoint after_last (sep s : string) : option string :=
  match s with
  | EmptyString => None
  | String _ s' => match after_last sep s' with Some r => Some r | None => strip_prefix sep s end
  end.
Definition split_last (sep s : string) : string := default s (after_last sep s).

(** [s.split("/")[0]] *)
Fixpoint before_slash (s : string) : string :=
  match s with
  | EmptyString => EmptyString
  | String c s => if decide (c = "/"%char) then EmptyString else String c (before_slash s)
  end.

(** ** The surroundings of the driver

    The configuration, the file system and the library's search for the newest
    checkpoint; which call raises, given the calls before it; the base worker ids
    that the gateway rejects; the answers of the agent-loop manager; the library
    functions on batches (selection by keys, concatenation, padding to a
    multiple, reordering), the work loads of a batch and their partitioning, and
    [random.shuffle]; whether the machine is about to be reclaimed in a step. *)
Class TrainerEnv := {
  cfg : TrainerConfig;
  cwd : string;
  find_latest_ckpt_path : string → option string;
  path_exists : string → bool;
  fails : list call → call → option exn;
  rejects : list call → list string → list string;
  batch_of : Z → Batch;
  chunk_of : Z → nat → Batch * bool;
  validation_batch : nat → Batch;
  select_keys : Batch → list string → Batch;
  concat_batches : list Batch → Batch;
  upsample : Batch → Z → Batch;
  reorder : Batch → list nat → Batch;
  workload : Batch → list Z;
  balanced : list Z → nat → list (list nat);
  shuffled : Z → list Z → list Z;
  esi_close : Z → bool;
}.

Section trainer.
Context {E : TrainerEnv}.

Definition do_call (c : call) : Tr unit := λ t,
  let t' := with_calls (calls t ++ [c]) t in
  match fails (calls t) c with Some e => Raise e t' | None => Ret tt t' end.

(** [try: m finally: f] *)
Definition try_finally {A} (m : Tr A) (f : Tr unit) : Tr A := λ t,
  match m t with
  | Ret a t' => match f t' with Ret _ t' => Ret a t' | Raise e t' => Raise e t' end
  | Raise e t' => match f t' with Ret _ t' => Raise e t' | Raise e' t' => Raise e' t' end
  end.

(** ** Switching the colocated GPUs *)

Definition gateway_control (action : string) (ids : list string) : Tr unit :=
  t ← gets id;
  do_call (Gateway action ids) ;;
  let rejected := rejects (calls t) ids in
  modify (λ t, with_base_ids (filter (λ i, i ∉ rejected) (validate_base_ids t)) t).

Definition rollout_names : list string :=
  imap (λ i tp, (λ r, to_nixl_client_name 0 (mkWorkerKey Rollout (Z.of_nat i) r)) <$> zrange 0 (Z.of_nat tp)) (rollout_tp cfg) ≫= id.
Definition validate_names : list string :=
  imap (λ i tp, (λ r, to_nixl_client_name (Z.of_nat (length (rollout_tp cfg))) (mkWorkerKey Validate (Z.of_nat i) r)) <$> zrange 0 (Z.of_nat tp))
    (validate_tp cfg) ≫= id.
Definition actor_names : list string := train_client_name <$> zrange 0 (Z.of_nat (actor_world_size cfg)).
Definition ps_names : list string := ps_agent_name <$> zrange 0 (Z.of_nat (ps_world_size cfg)).

Definition broadcast_updated_client_infos (updated : list string) : Tr unit :=
  plan ← of_res (make_broadcast_plan [NIXL_META_SERVER_NAME] (ps_names ++ rollout_names ++ validate_names ++ actor_names));
  for_each plan (λ '(src, dst),
    if bool_decide (src = NIXL_META_SERVER_NAME) then do_call (PsBroadcast dst updated) else raise NotImplementedError) ;;
  do_call (WaitInfos "ps") ;; do_call (WaitInfos "rollout") ;; do_call (WaitInfos "validate") ;; do_call (WaitInfos "actor").

(** The loop variable [tp_size] is that of the last instance. *)
Definition switch_to_rollout_mode : Tr unit :=
  mode ← gets is_rollout_mode_in_actor;
  if negb (colocate cfg) || mode then mret tt
  else
    let n := length (validate_tp cfg) in
    do_call ActorSleep ;;
    for_each (seq 0 n) (λ i, do_call (ValidateWakeUp i)) ;;
    for_each (seq 0 n) (λ i, do_call (ValidateSendInfo i)) ;;
    tp_size ← of_option UnboundLocalError (last (validate_tp cfg));
    do_call (PsWaitInfos (Z.of_nat (n * tp_size))) ;;
    broadcast_updated_client_infos validate_names ;;
    ids ← gets validate_base_ids;
    do_call (SyncWithPs (ids ≫= λ b, (λ i, (b, i)) <$> zrange 0 (Z.of_nat (validate_dp_size cfg)))) ;;
    gateway_control "resume" ids ;;
    modify (with_rollout_mode true).

Definition switch_to_trainer_mode : Tr unit :=
  mode ← gets is_rollout_mode_in_actor;
  if negb (colocate cfg) || negb mode then mret tt
  else
    let n := length (validate_tp cfg) in
    ids ← gets validate_base_ids;
    gateway_control "pause" ids ;;
    for_each (seq 0 n) (λ i, do_call (ValidatePause i)) ;;
    for_each (seq 0 n) (λ i, do_call (ValidateSleep i)) ;;
    do_call ActorWakeUp ;;
    do_call ActorSendInfo ;;
    do_call (PsWaitInfos (Z.of_nat (actor_world_size cfg))) ;;
    broadcast_updated_client_infos actor_names ;;
    do_call ActorPull ;;
    deferred ← gets deferred_actor_ckpt_path;
    (match deferred with
     | Some p => do_call (ActorLoad p) ;; modify (with_deferred None)
     | None => mret tt
     end) ;;
    ids ← gets validate_base_ids;
    (if bool_decide (ids = []) then mret tt else gateway_control "pause" ids) ;;
    modify (with_rollout_mode false).

(** ** Checkpoints *)

Definition step_folder (step : Z) : string := path_join (default_local_dir cfg) ("global_step_" ++ str_of_Z step)%string.

Definition save_checkpoint : Tr unit :=
  step ← gets global_steps;
  let folder := step_folder step in
  do_call (ActorSave (path_join folder "actor") step) ;;
  (if use_critic cfg then do_call (CriticSave (path_join folder "critic") step) else mret tt) ;;
  do_call (SaveDataloader (path_join folder "data.pt")) ;;
  if async_save cfg then mret tt
  else do_call (WriteLatest (path_join (default_local_dir cfg) "latest_checkpointed_iteration.txt") step).

Definition absolute (p : string) : string := if starts_with_slash p then p else path_join cwd p.

(** The folder that both readers of a checkpoint resolve; [None] to start from
    scratch.  A mode other than the three known ones keeps the newest folder, and
    raises [missing] when there is none. *)
Definition resume_folder (missing : exn) : Res (option string) :=
  if bool_decide (resume_mode cfg = "disable") then inr None
  else if has_hdfs_dir cfg then inl NotImplementedError
  else
    let latest := find_latest_ckpt_path (absolute (default_local_dir cfg)) in
    if bool_decide (resume_mode cfg = "auto") then inr latest
    else if bool_decide (resume_mode cfg = "resume_path") then
      match resume_from_path cfg with
      | None => inl AssertionError
      | Some p => if contains "global_step_" p then inr (Some (absolute p)) else inl AssertionError
      end
    else match latest with Some p => inr (Some p) | None => inl missing end.

Definition resolve_resume_checkpoint_paths : Res (option (string * string)) :=
  match resume_folder TypeError with
  | inl e => inl e
  | inr None => inr None
  | inr (Some f) => inr (Some (path_join f "actor", path_join f "critic"))
  end.

Definition py_int_res (s : string) : Res Z := match py_int s with Some n => inr n | None => inl ValueError end.

Definition resume_load_and_push_to_ps : Tr unit :=
  if negb (nixl_mode cfg) then mret tt
  else
    paths ← of_res resolve_resume_checkpoint_paths;
    match paths with
    | None => raise AssertionError
    | Some (actor_path, _) =>
        version ← of_res (py_int_res (before_slash (split_last "global_step_" actor_path)));
        asleep ← gets is_rollout_mode_in_actor;
        (if (asleep : bool) then do_call ActorWakeUp else mret tt) ;;
        do_call (ActorLoad actor_path) ;;
        do_call (PsInitVersion (version - 1)) ;;
        do_call ActorPush ;;
        (if (asleep : bool) then do_call ActorSleep else mret tt) ;;
        modify (with_resume_loaded true)
    end.

Definition load_checkpoint : Tr unit :=
  folder ← of_res (resume_folder AttributeError);
  match folder with
  | None => mret tt
  | Some f =>
      step ← of_res (py_int_res (split_last "global_step_" f));
      modify (with_global_steps step) ;;
      t ← gets id;
      (if actor_resume_loaded t then mret tt
       else if nixl_mode cfg && is_rollout_mode_in_actor t then modify (with_deferred (Some (path_join f "actor")))
       else do_call (ActorLoad (path_join f "actor"))) ;;
      (if use_critic cfg then do_call (CriticLoad (path_join f "critic")) else mret tt) ;;
      if path_exists (path_join f "data.pt") then do_call (LoadDataloader (path_join f "data.pt")) else mret tt
  end.

(** ** Scheduled updates *)

(** The batch of one dispatch and its padding keys. *)
Definition prepare_scheduled_batch (b : Batch) (step : BatchScheduleStep) (dp : Z) : Res (Batch * list string) :=
  match sample_indices step with
  | None => inr (b, [])
  | Some indices =>
      match resolve_sample_keys (b_keys b) (Z.of_nat <$> indices) with
      | inl e => inl e
      | inr keys =>
          let s := select_keys b keys in
          let padded := upsample s dp in
          inr (padded, drop (length (b_keys s)) (b_keys padded))
      end
  end.

(** The information a dispatch carries. *)
Definition dispatch_info (base : list (string * info_value)) (step : BatchScheduleStep) (finalize is_final push : bool) (b : Batch) : Batch :=
  let b := update_extra base b in
  let b := update_extra (prod_map id of_extra <$> worker_extra_info step) b in
  let b := update_extra [("advance_lr_scheduler", VBool (finalize && is_final))] b in
  if push then update_extra [("push_model", VBool (finalize && is_final))] b else b.

Definition release_padding (keys : list string) (p : string) : Tr unit :=
  if bool_decide (keys = []) then mret tt else do_call (ClearPayload keys p) ;; do_call (ReplayRemove keys p).

(** The loop over the schedule.  A step without indices dispatches the batch
    itself, whose extra information it changes; a step with indices dispatches a
    new batch. *)
Fixpoint run_steps (dp : Z) (base : list (string * info_value)) (finalize push : bool) (update : Batch → call) (b : Batch)
    (steps : list BatchScheduleStep) : Tr Batch :=
  match steps with
  | [] => mret b
  | step :: steps =>
      prepared ← of_res (prepare_scheduled_batch b step dp);
      let '(scheduled, padding) := prepared in
      let dispatched := dispatch_info base step finalize (bool_decide (steps = [])) push scheduled in
      try_finally (do_call (update dispatched)) (release_padding padding (b_partition dispatched)) ;;
      run_steps dp base finalize push update (match sample_indices step with Some _ => b | None => dispatched end) steps
  end.

Definition run_scheduled_update (b : Batch) (u : UpdateConfig) (dp : Z) (base : list (string * info_value)) (update : Batch → call)
    (finalize push : bool) : Tr Batch :=
  strategy ← of_res (get_batch_schedule_strategy shuffled (batch_agg_mode cfg));
  let entries := strategy_entries_per_update strategy (ppo_mini_batch_size u) (rollout_n cfg) (alg_rollout_n cfg) in
  schedule ← of_res (build_batch_schedule shuffled (b_tags b) (batch_agg_mode cfg) entries (ppo_epochs u) (update_shuffle u) (data_loader_seed u));
  run_steps dp base finalize push update b (steps schedule).

Definition actor_info : list (string * info_value) :=
  [("calculate_entropy", VOther); ("multi_turn", VOther); ("distillation_use_topk", VOther); ("compute_loss", VBool true)].

Definition update_actor (finalize : bool) (b : Batch) : Tr Batch :=
  run_scheduled_update b (actor_update cfg) (actor_dp cfg) actor_info UpdateActor finalize true.
Definition update_critic (finalize : bool) (b : Batch) : Tr Batch :=
  run_scheduled_update b (critic_update cfg) (critic_dp cfg) [] UpdateCritic finalize false.

(** ** Validation *)

Definition validation_round (n : nat) : Tr unit :=
  do_call GenerateValidation ;;
  do_call (WaitValidation n) ;;
  let b := validation_batch n in
  do_call (SampleReplay (b_keys b) (b_partition b)) ;;
  if bool_decide (b_keys b = []) then mret tt
  else
    (if launch_reward_fn_async cfg then do_call (WaitReward (b_keys b)) else mret tt) ;;
    do_call (ClearPayload (b_keys b) (b_partition b)) ;;
    do_call (ReplayRemove (b_keys b) (b_partition b)).

Definition validate : Tr unit :=
  switch_to_rollout_mode ;;
  for_each (seq 0 (val_batch_num cfg)) validation_round ;;
  switch_to_trainer_mode.

(** ** Steps *)

Definition actor_updates (t : Trainer) : bool := bool_decide (critic_warmup cfg ≤ global_steps t).
Definition is_last_step (t : Trainer) : bool := bool_decide (global_steps t = total_training_steps cfg).

Definition py_divides (freq n : Z) : bool := bool_decide (n mod freq = 0).

Definition run_ckpt_and_validate (b : Batch) (actor_updated : bool) : Tr unit :=
  t ← gets id;
  (if actor_updated && bool_decide (0 < save_freq cfg) &&
      (is_last_step t || py_divides (save_freq cfg) (global_steps t) || esi_close (global_steps t))
   then save_checkpoint else mret tt) ;;
  (if rollout_data_dir cfg then do_call (DumpRollout (b_keys b)) else mret tt) ;;
  if bool_decide (0 < test_freq cfg) && (is_last_step t || py_divides (test_freq cfg) (global_steps t)) then validate else mret tt.

(** [_compute_old_log_prob]: the bypass mode copies the rollout's log
    probabilities, otherwise the actor computes them. *)
Definition compute_old_log_prob (b : Batch) : Tr Batch :=
  if bypass_mode cfg then do_call (ReuseLogProb (b_keys b)) ;; mret b
  else
    let b := update_extra [("calculate_entropy", VBool true); ("compute_loss", VBool false); ("calculate_sum_pi_squared", VOther); ("temperature", VOther)] b in
    do_call (OldLogProb (b_keys b)) ;; mret b.

(** [_compute_ref_log_prob]: a LoRA actor without its adapter is the reference
    policy; otherwise a worker group of its own. *)
Definition compute_ref_log_prob (b : Batch) : Tr Batch :=
  let b := update_extra ([("calculate_entropy", VBool false); ("compute_loss", VBool false); ("temperature", VOther)] ++
    if ref_in_actor cfg then [("no_lora_adapter", VBool true)] else []) b in
  (if ref_in_actor cfg then do_call (ActorRefLogProb (b_keys b)) else do_call (RefLogProb (b_keys b))) ;; mret b.

(** The stages of a sample: log probabilities, values and rewards. *)
Definition per_sample_stages (b : Batch) : Tr Batch :=
  step ← gets global_steps;
  let b := update_extra [("temperature", VOther); ("global_steps", VInt step)] b in
  b ← compute_old_log_prob b;
  b ← (if use_reference_policy cfg then compute_ref_log_prob b else mret b);
  (if use_critic cfg then do_call (Values (b_keys b)) else mret tt) ;;
  (if launch_reward_fn_async cfg then do_call (WaitReward (b_keys b)) else do_call (NormalizeReward (b_keys b))) ;;
  mret b.

(** [_balance_batch], when configured. *)
Definition balance (b : Batch) : Tr Batch :=
  if balance_batch cfg then
    strategy ← of_res (get_batch_schedule_strategy shuffled (batch_agg_mode cfg));
    step ← gets global_steps;
    let sizes := mkSizes (if use_critic cfg then Some (ppo_mini_batch_size (critic_update cfg)) else None)
                   (ppo_mini_batch_size (actor_update cfg)) (train_n cfg) (critic_warmup cfg) in
    let b := upsample b (required_batch_multiple (dispatch_steps_individually strategy) sizes step (actor_dp cfg)) in
    mret (reorder b (balance_order balanced None (workload b) (Z.to_nat (actor_dp cfg))))
  else mret b.

(** Advantages and updates of a batch. *)
Definition update_stages (finalize : bool) (b : Batch) : Tr Batch :=
  do_call (Advantage (b_keys b)) ;;
  b ← (if use_critic cfg then update_critic finalize b else mret b);
  updates ← gets actor_updates;
  if (updates : bool) then update_actor finalize b else mret b.

Definition full_batch_step (buffer_id : Z) : Tr Batch :=
  do_call (WaitBatch buffer_id) ;;
  let b := batch_of buffer_id in
  do_call (SampleReplay (b_keys b) (b_partition b)) ;;
  switch_to_trainer_mode ;;
  b ← balance b;
  b ← per_sample_stages b;
  b ← update_stages true b;
  updates ← gets actor_updates;
  run_ckpt_and_validate b updates ;;
  mret b.

(** The chunks of a fine-grained step; [fuel] bounds their number. *)
Fixpoint chunk_loop (fuel : nat) (pre_step : bool) (buffer_id : Z) (chunk : nat) (done : list Batch) : Tr (option (list Batch)) :=
  match fuel with
  | O => mret None
  | S fuel =>
      do_call (WaitChunk buffer_id chunk) ;;
      let '(b, is_last) := chunk_of buffer_id chunk in
      do_call (SampleReplay (b_keys b) (b_partition b)) ;;
      b ← balance b;
      b ← per_sample_stages b;
      b ← (if pre_step then
             b ← update_stages is_last b;
             updates ← gets actor_updates;
             mret (if (updates : bool) then pop_extra "push_model" (pop_extra "advance_lr_scheduler" b) else b)
           else mret b);
      if is_last then mret (Some (done ++ [b])) else chunk_loop fuel pre_step buffer_id (S chunk) (done ++ [b])
  end.

Definition fine_grain_step (fuel : nat) (scope granularity : string) (buffer_id : Z) : Tr (option Batch) :=
  switch_to_trainer_mode ;;
  chunks ← chunk_loop fuel (bool_decide (scope = "pre_step" ∧ granularity = "mini_batch")) buffer_id 0 [];
  match chunks with
  | None => mret None
  | Some chunks =>
      let b := concat_batches chunks in
      b ← (if bool_decide (scope = "recompute") then update_stages true b else mret b);
      updates ← gets actor_updates;
      run_ckpt_and_validate b updates ;;
      mret (Some b)
  end.

(** The constructor of the fine-grained strategy checks its scope and announces
    the chunk size. *)
Definition new_fine_grain (chunk_cfg : ChunkConfig) (scope : string) : Tr (string * Z) :=
  r ← of_res (resolve_fine_grain_chunk_size chunk_cfg (actor_dp cfg));
  let '(granularity, groups) := r in
  (if bool_decide (scope = "pre_step" ∧ granularity ≠ "mini_batch") then raise ValueError else mret tt) ;;
  do_call (SetChunkSize groups) ;;
  mret (granularity, groups).

(** [build_step_strategy]: [None] is the full-batch strategy. *)
Definition build_step_strategy (chunk_cfg : ChunkConfig) (scope : string) : Tr (option (string * string)) :=
  if bool_decide (default "none" (fst <$> fine_grain_overlap chunk_cfg) = "none") then mret None
  else r ← new_fine_grain chunk_cfg scope; mret (Some (scope, r.1)).

Definition run_step (fuel : nat) (strategy : option (string * string)) (buffer_id : Z) : Tr (option Batch) :=
  match strategy with
  | None => b ← full_batch_step buffer_id; mret (Some b)
  | Some (scope, granularity) => fine_grain_step fuel scope granularity buffer_id
  end.

(** ** The training loop *)

(** One iteration of [fit]; the answer says whether it was the last. *)
Definition fit_iteration (fuel : nat) (strategy : option (string * string)) : Tr (option bool) :=
  (if actor_async_calls cfg then do_call (ActorFinalize false) else mret tt) ;;
  t ← gets id;
  b ← run_step fuel strategy (global_steps t - 1);
  match b with
  | None => mret None
  | Some b =>
      do_call (ComputeMetrics (global_steps t)) ;;
      do_call (ClearPayload (b_keys b) (b_partition b)) ;;
      do_call (ReplayRemove (b_keys b) (b_partition b)) ;;
      do_call (LogMetrics (global_steps t)) ;;
      modify (λ t, with_global_steps (global_steps t + 1) t) ;;
      (if is_last_step t && actor_async_calls cfg then do_call (ActorFinalize true) else mret tt) ;;
      mret (Some (is_last_step t))
  end.

Fixpoint fit_loop (chunk_fuel fuel : nat) (strategy : option (string * string)) : Tr bool :=
  match fuel with
  | O => mret false
  | S fuel =>
      r ← fit_iteration chunk_fuel strategy;
      match r with
      | None => mret false
      | Some true => mret true
      | Some false => fit_loop chunk_fuel fuel strategy
      end
  end.

(** A component that does not stop is killed; an error of killing the agent-loop
    manager is only logged, unless stopping it had timed out. *)
Definition stop_component (c : string) : Tr unit := λ t,
  match do_call (Stop c) t with
  | Ret _ t => Ret tt t
  | Raise e t =>
      match do_call (Kill c) t with
      | Ret _ t => Ret tt t
      | Raise e' t => if bool_decide (c = "agent_loop_manager" ∧ e ≠ TimeoutError) then Ret tt t else Raise e' t
      end
  end.

Definition stop_all : Tr unit :=
  for_each ["data_processor"; "agent_loop_manager"; "rollout_coordinator"; "reward_manager"] stop_component ;;
  (if has_elastic_executor cfg then do_call (Stop "elastic_executor") else mret tt) ;;
  (if has_env_workers cfg then do_call (Stop "env_worker_manager") else mret tt) ;;
  do_call (Stop "ps_manager").

(** [fit]: [false] when the given fuel did not suffice. *)
Definition fit (chunk_cfg : ChunkConfig) (scope : string) (chunk_fuel fuel : nat) : Tr bool :=
  modify (with_global_steps 0) ;;
  load_checkpoint ;;
  start ← gets global_steps;
  if bool_decide (total_training_steps cfg ≤ start) then mret true
  else
    (if bool_decide (0 < start) then do_call (SetInitialVersion start) else mret tt) ;;
    for_each ["rollout_coordinator"; "agent_loop_manager"; "reward_manager"] (λ c, do_call (Start c)) ;;
    (if val_before_train cfg then validate else mret tt) ;;
    if val_before_train cfg && val_only cfg then mret true
    else
      do_call (Start "data_processor") ;;
      modify (λ t, with_global_steps (global_steps t + 1) t) ;;
      strategy ← build_step_strategy chunk_cfg scope;
      finished ← fit_loop chunk_fuel fuel strategy;
      if (finished : bool) then stop_all ;; mret true else mret false.
End trainer.
