(* ===== verification/TrainerTheorems.v ===== *)
(** * Theorems about the PPO trainer

    [Trainer.v] driven through its calls: the colocated actor only works while it is
    awake, the model is pushed exactly once per training step and by its last
    dispatch, the loop ends after the configured number of steps and takes the
    buffers in order, and a checkpoint is resumed at the step it was saved at.

    A triple [spec P m Q X] says what holds after [m] returns ([Q]) and after it
    raises ([X]). *)

From Stdlib Require Import Ascii.
From S2P Require Import Prelude.
From S2P Require Import PyFloat.
From S2P Require Import PyData.
From S2P Require Import BatchSchedule.
From S2P Require Import EnvShell.
From S2P Require Import WorkerNames.
From S2P Require Import TrainerBatch.
From S2P Require Import Trainer.

#[local] Open Scope string_scope.
#[local] Open Scope list_scope.
#[local] Open Scope Z_scope.

(** ** Triples *)

Definition spec {A} (P : Trainer → Prop) (m : Tr A) (Q : A → Trainer → Prop) (X : Trainer → Prop) : Prop :=
  ∀ t, P t → match m t with Ret a t' => Q a t' | Raise _ t' => X t' end.

Section spec.
Context (X : Trainer → Prop).

Lemma spec_bind {A B} P (m : Tr A) (k : A → Tr B) R Q : spec P m R X → (∀ a, spec (R a) (k a) Q X) → spec P (m ≫= k) Q X.
Proof. intros Hm Hk t Ht. specialize (Hm t Ht). unfold mbind, M_bind. destruct (m t); [by apply Hk|done]. Qed.

Lemma spec_conseq {A} (P P' : Trainer → Prop) (m : Tr A) (Q Q' : A → Trainer → Prop) :
  spec P' m Q' X → (∀ t, P t → P' t) → (∀ a t, Q' a t → Q a t) → spec P m Q X.
Proof. intros Hm HP HQ t Ht. specialize (Hm t (HP t Ht)). destruct (m t); auto. Qed.

Lemma spec_frame {A} P (m : Tr A) Q (φ : Prop) : spec P m Q X → spec (λ t, P t ∧ φ) m (λ a t, Q a t ∧ φ) X.
Proof. intros Hm t [Ht Hφ]. specialize (Hm t Ht). by destruct (m t). Qed.

(** The state read by [gets] can be fixed. *)
Lemma spec_gets {A B} P (f : Trainer → A) (k : A → Tr B) Q : (∀ a, spec (λ t, P t ∧ f t = a) (k a) Q X) → spec P (gets f ≫= k) Q X.
Proof. intros Hk t Ht. rewrite run_gets. by apply Hk. Qed.

Lemma spec_of_res {A B} P (r : Res A) (k : A → Tr B) Q :
  (∀ t, P t → X t) → (∀ a, r = inr a → spec P (k a) Q X) → spec P (of_res r ≫= k) Q X.
Proof. intros HX Hk t Ht. destruct r as [e|a]; [by apply HX|]. by apply Hk. Qed.

Lemma spec_of_option {A B} P e (r : option A) (k : A → Tr B) Q :
  (∀ t, P t → X t) → (∀ a, r = Some a → spec P (k a) Q X) → spec P (of_option e r ≫= k) Q X.
Proof. intros HX Hk t Ht. destruct r as [a|]; [by apply Hk|by apply HX]. Qed.
End spec.

(** ** Operations that keep an invariant *)

Section keep.
Context {E : TrainerEnv} (I X : Trainer → Prop) (ok : call → Prop).
Context (HX : ∀ t, I t → X t).
Context (Hcall : ∀ t c, ok c → I t → I (with_calls (calls t ++ [c]) t)).

Abbreviation keep m := (spec I m (λ _, I) X).

Lemma keep_ret {A} (a : A) : keep (mret a).
Proof. by intros t Ht. Qed.
Lemma keep_raise {A} e : keep (raise e : Tr A).
Proof. intros t Ht. by apply HX. Qed.
Lemma keep_call c : ok c → keep (do_call c).
Proof. intros Hc t Ht. unfold do_call. destruct (fails _ _); [apply HX|]; by apply Hcall. Qed.
Lemma keep_bind {A B} (m : Tr A) (k : A → Tr B) : keep m → (∀ a, keep (k a)) → keep (m ≫= k).
Proof. intros Hm Hk. by eapply spec_bind. Qed.
Lemma keep_gets {A B} (f : Trainer → A) (k : A → Tr B) : (∀ a, keep (k a)) → keep (gets f ≫= k).
Proof. intros Hk t Ht. rewrite run_gets. by apply Hk. Qed.
Lemma keep_of_res {A} (r : Res A) : keep (of_res r).
Proof. intros t Ht. destruct r; [by apply HX|done]. Qed.
Lemma keep_of_option {A} e (r : option A) : keep (of_option e r).
Proof. intros t Ht. destruct r; [done|by apply HX]. Qed.
Lemma keep_for_each {A} (l : list A) body : (∀ x, keep (body x)) → keep (for_each l body).
Proof. intros Hb. induction l as [|x l IH]; [apply keep_ret|]. apply keep_bind; [apply Hb|intros []; apply IH]. Qed.
Lemma keep_try {A} (m : Tr A) f : spec I m (λ _, I) I → keep f → keep (try_finally m f).
Proof.
  intros Hm Hf t Ht. specialize (Hm t Ht). unfold try_finally. destruct (m t) as [a t'|e t']; specialize (Hf t' Hm); destruct (f t'); auto.
Qed.
End keep.

(** Structural proof that an operation keeps an invariant: the goals left are the
    calls and modifications. *)
Ltac keep_step :=
  lazymatch goal with
  | |- spec _ (mret _) _ _ => apply keep_ret
  | |- spec _ (raise _) _ _ => apply keep_raise
  | |- spec _ (gets _ ≫= _) _ _ => apply keep_gets; intros ?
  | |- spec _ (_ ≫= _) _ _ => apply keep_bind; [|intros ?]
  | |- spec _ (of_res _) _ _ => apply keep_of_res
  | |- spec _ (of_option _ _) _ _ => apply keep_of_option
  | |- spec _ (for_each _ _) _ _ => apply keep_for_each; intros ?
  | |- spec _ (if ?b then _ else _) _ _ => destruct b
  | |- spec _ (match ?x with _ => _ end) _ _ => destruct x
  | |- spec _ (let _ := _ in _) _ _ => cbv zeta
  end.
Ltac keep := repeat keep_step.

(** ** The colocated actor only works while it is awake *)

Inductive effect := Neutral | Work | FallAsleep | WakeUp.

(** What a call does to the actor's workers, or needs of them. *)
Definition effect_of (c : call) : effect :=
  match c with
  | ActorSleep => FallAsleep
  | ActorWakeUp => WakeUp
  | ActorSendInfo | ActorPull | ActorPush | ActorLoad _ | ActorSave _ _ | ActorFinalize _ | OldLogProb _ | ActorRefLogProb _ | UpdateActor _ => Work
  | _ => Neutral
  end.

(** Whether the actor is awake after a log, and whether all its work was done awake. *)
Definition scan (s : bool * bool) (c : call) : bool * bool :=
  match effect_of c with
  | Neutral => s
  | Work => (s.1, s.2 && s.1)
  | FallAsleep => (false, s.2)
  | WakeUp => (true, s.2)
  end.

Definition status (awake : bool) (log : list call) : bool * bool := foldl scan (awake, true) log.

Section awake.
Context {E : TrainerEnv} (initially : bool).

Definition worked_awake (t : Trainer) : Prop := (status initially (calls t)).2 = true.
Definition at_mode (awake mode : bool) (t : Trainer) : Prop := status initially (calls t) = (awake, true) ∧ is_rollout_mode_in_actor t = mode.

(** Between operations the actor sleeps exactly in rollout mode, which is a
    colocated trainer's. *)
Definition settled (mode : bool) (t : Trainer) : Prop := at_mode (negb mode) mode t ∧ (colocate cfg = false → mode = false).
Definition consistent (t : Trainer) : Prop := ∃ mode, settled mode t.

Lemma at_mode_worked a m t : at_mode a m t → worked_awake t.
Proof. intros [H _]. unfold worked_awake. by rewrite H. Qed.

Lemma status_call log c : status initially (log ++ [c]) = scan (status initially log) c.
Proof. unfold status. by rewrite foldl_app. Qed.

Lemma call_neutral t a m c : effect_of c = Neutral → at_mode a m t → at_mode a m (with_calls (calls t ++ [c]) t).
Proof. intros Hc [H1 H2]. split; [|done]. cbn [calls with_calls]. rewrite status_call, H1. unfold scan. by rewrite Hc. Qed.

Lemma call_awake t m c : effect_of c = Neutral ∨ effect_of c = Work → at_mode true m t → at_mode true m (with_calls (calls t ++ [c]) t).
Proof. intros [Hc|Hc] [H1 H2]; (split; [|done]); cbn [calls with_calls]; rewrite status_call, H1; unfold scan; by rewrite Hc. Qed.

Lemma call_switch c (a a' m : bool) : effect_of c = (if a' then WakeUp else FallAsleep) → spec (at_mode a m) (do_call c) (λ _, at_mode a' m) worked_awake.
Proof.
  intros Hc t [H1 H2]. unfold do_call. assert (at_mode a' m (with_calls (calls t ++ [c]) t)) as H.
  { split; [|done]. cbn [calls with_calls]. rewrite status_call, H1. unfold scan. rewrite Hc. by destruct a'. }
  destruct (fails _ _); [by eapply at_mode_worked|done].
Qed.

(** Neutral operations. *)
Lemma neutral_call a m c : effect_of c = Neutral → spec (at_mode a m) (do_call c) (λ _, at_mode a m) worked_awake.
Proof. intros Hc. apply (keep_call _ _ (λ c, effect_of c = Neutral)); [intros t; apply at_mode_worked|intros; by apply call_neutral|done]. Qed.

Lemma awake_call m c : effect_of c = Neutral ∨ effect_of c = Work → spec (at_mode true m) (do_call c) (λ _, at_mode true m) worked_awake.
Proof.
  intros Hc. apply (keep_call _ _ (λ c, effect_of c = Neutral ∨ effect_of c = Work)); [intros t; apply at_mode_worked|intros; by apply call_awake|done].
Qed.

Lemma modify_at a m f : (∀ t, calls (f t) = calls t ∧ is_rollout_mode_in_actor (f t) = is_rollout_mode_in_actor t) →
  spec (at_mode a m) (modify f) (λ _, at_mode a m) worked_awake.
Proof. intros Hf t [H1 H2]. cbn. destruct (Hf t) as [E1 E2]. split; congruence. Qed.
End awake.

Ltac at_step := first [apply awake_call; (left; reflexivity) || (right; reflexivity) | apply neutral_call; reflexivity | apply modify_at; by intros |
  keep_step | (intros ?; apply at_mode_worked)].
Ltac at_keep := repeat at_step.

Section awake_operations.
Context {E : TrainerEnv} (initially : bool).
Abbreviation at_ := (at_mode initially).
Abbreviation triple P m Q := (spec P m Q (worked_awake initially)).

Lemma gateway_at a m action ids : triple (at_ a m) (gateway_control action ids) (λ _, at_ a m).
Proof. unfold gateway_control. at_keep. Qed.

Lemma broadcast_at a m names : triple (at_ a m) (broadcast_updated_client_infos names) (λ _, at_ a m).
Proof. unfold broadcast_updated_client_infos. at_keep. Qed.

Lemma consistent_worked t : consistent initially t → worked_awake initially t.
Proof. intros (m & H & _). by eapply at_mode_worked. Qed.

Lemma set_mode a m : triple (at_ a m) (modify (with_rollout_mode (negb a))) (λ _, at_ a (negb a)).
Proof. intros t [H1 H2]. by split. Qed.

Ltac neutral := repeat first [apply gateway_at|apply broadcast_at|at_step].

Lemma consistent_mode mode t : consistent initially t → is_rollout_mode_in_actor t = mode → at_ (negb mode) mode t.
Proof. intros (m & H & _) E1. destruct H as [H1 H2]. assert (m = mode) as -> by congruence. by split. Qed.

(** An operation followed by others, from one mode to another. *)
Lemma seq_at {A B} a m a' m' (o : Tr A) (k : A → Tr B) Q :
  triple (at_ a m) o (λ _, at_ a' m') → (∀ x, triple (at_ a' m') (k x) Q) → triple (at_ a m) (o ≫= k) Q.
Proof. intros Ho Hk. by eapply spec_bind. Qed.

Lemma seq_gets {A B} a m (f : Trainer → A) (k : A → Tr B) Q : (∀ x, triple (at_ a m) (k x) Q) → triple (at_ a m) (gets f ≫= k) Q.
Proof. intros Hk t Ht. rewrite run_gets. by apply Hk. Qed.

Ltac go := first [apply seq_gets; intros ?|eapply seq_at; [neutral; done|intros ?]].

Lemma to_rollout : triple (consistent initially) switch_to_rollout_mode (λ _, consistent initially).
Proof.
  apply spec_gets. intros mode. destruct (negb (colocate cfg) || mode) eqn:Eb; [by intros t [? _]|].
  apply orb_false_iff in Eb as [Ec ->]. apply negb_false_iff in Ec.
  eapply (spec_conseq _ _ (at_ true false) _ _ (λ _, at_ false true)); [|intros t [H1 H2]; by apply (consistent_mode false)|intros _ t Ht; exists true; split; [done|by rewrite Ec]].
  eapply seq_at; [by apply (call_switch initially _ true false false)|intros _]. cbv zeta. repeat go. apply (set_mode false).
Qed.

Lemma to_trainer : triple (consistent initially) switch_to_trainer_mode (λ _, at_ true false).
Proof.
  apply spec_gets. intros mode. destruct (negb (colocate cfg) || negb mode) eqn:Eb.
  - intros t [(m & H & Hc) Hm]. destruct H as [H1 H2]. assert (m = mode) as -> by congruence.
    assert (mode = false) as ->; [|by split]. apply orb_true_iff in Eb as [Ec|Em]; [apply Hc; by destruct (colocate cfg)|by destruct mode].
  - apply orb_false_iff in Eb as [Ec Em]. apply negb_false_iff in Em as ->.
    eapply (spec_conseq _ _ (at_ false true) _ _ (λ _, at_ true false)); [|intros t [H1 H2]; by apply (consistent_mode true)|done].
    cbv zeta. repeat go. eapply seq_at; [by apply (call_switch initially _ false true true)|intros _]. repeat go. apply (set_mode true).
Qed.

Lemma at_consistent t : at_ true false t → consistent initially t.
Proof. intros H. by exists false. Qed.

Lemma validate_at : triple (consistent initially) validate (λ _, at_ true false).
Proof.
  eapply (spec_bind _ _ _ _ (λ _, consistent initially)); [apply to_rollout|intros _].
  eapply (spec_bind _ _ _ _ (λ _, consistent initially)); [|intros _; apply to_trainer].
  apply keep_for_each. intros n t (m & H & Hc).
  assert (triple (at_ (negb m) m) (validation_round n) (λ _, at_ (negb m) m)) as Hr by (unfold validation_round; at_keep).
  specialize (Hr t H). destruct (validation_round n t); [by exists m|done].
Qed.

(** In trainer mode everything may run. *)
Lemma updates_at finalize b : triple (at_ true false) (update_stages finalize b) (λ _, at_ true false).
Proof.
  assert (∀ u dp base upd push b, (∀ b, effect_of (upd b) = Neutral ∨ effect_of (upd b) = Work) →
    triple (at_ true false) (run_scheduled_update b u dp base upd finalize push) (λ _, at_ true false)) as Hrun.
  { intros u dp base upd push b0 Hu. unfold run_scheduled_update. apply keep_bind; [at_keep|intros strategy]. cbv zeta. apply keep_bind; [at_keep|intros schedule].
    generalize (steps schedule). intros l. revert b0. induction l as [|step l IH]; intros b0; [apply keep_ret|]. cbn [run_steps].
    apply keep_bind; [at_keep|intros [scheduled padding]]. apply keep_bind; [|intros _; apply IH].
    apply keep_try; [intros t; apply at_mode_worked| |unfold release_padding; at_keep].
    intros t Ht. unfold do_call. pose proof (call_awake initially t false (upd (dispatch_info base step finalize (bool_decide (l = [])) push scheduled)) (Hu _) Ht).
    by destruct (fails _ _). }
  unfold update_stages. keep_step; [at_keep|]. keep_step; [destruct (use_critic cfg); [apply Hrun; by left|at_keep]|].
  apply keep_gets. intros []; [apply Hrun; by right|apply keep_ret].
Qed.

Lemma ckpt_at b u : triple (at_ true false) (run_ckpt_and_validate b u) (λ _, at_ true false).
Proof.
  unfold run_ckpt_and_validate, save_checkpoint. keep_step. keep_step; [at_keep|]. keep_step; [at_keep|].
  destruct (_ && _); [|apply keep_ret]. eapply spec_conseq; [apply validate_at|apply at_consistent|done].
Qed.

Lemma balance_at a m b : triple (at_ a m) (balance b) (λ _, at_ a m).
Proof. unfold balance. at_keep. Qed.

Lemma stages_at b : triple (at_ true false) (per_sample_stages b) (λ _, at_ true false).
Proof. unfold per_sample_stages, compute_old_log_prob, compute_ref_log_prob. at_keep. Qed.

Ltac awake_go := first [apply balance_at|apply stages_at|apply updates_at|apply ckpt_at|at_step].

Lemma neutral_consistent {A} (o : Tr A) : (∀ a m, triple (at_ a m) o (λ _, at_ a m)) → triple (consistent initially) o (λ _, consistent initially).
Proof. intros Ho t (m & H & Hc). specialize (Ho _ _ t H). destruct (o t); [by exists m|done]. Qed.

Lemma full_batch_at b : triple (consistent initially) (full_batch_step b) (λ _, at_ true false).
Proof.
  unfold full_batch_step. eapply (spec_bind _ _ _ _ (λ _, consistent initially)); [apply neutral_consistent; intros; at_keep|intros _]. cbv zeta.
  eapply (spec_bind _ _ _ _ (λ _, consistent initially)); [apply neutral_consistent; intros; at_keep|intros _].
  eapply (spec_bind _ _ _ _ (λ _, at_ true false)); [apply to_trainer|intros _]. repeat awake_go.
Qed.

Lemma chunk_loop_at fuel pre b c l : triple (at_ true false) (chunk_loop fuel pre b c l) (λ _, at_ true false).
Proof.
  revert c l. induction fuel as [|fuel IH]; intros c l; [apply keep_ret|]. cbn [chunk_loop].
  apply keep_bind; [at_keep|intros _]. destruct (chunk_of b c) as [batch is_last].
  do 3 (apply keep_bind; [repeat awake_go|intros ?]). apply keep_bind; [destruct pre; repeat awake_go|intros ?].
  destruct is_last; [apply keep_ret|apply IH].
Qed.

Lemma fine_grain_at fuel scope g b : triple (consistent initially) (fine_grain_step fuel scope g b) (λ _, at_ true false).
Proof.
  unfold fine_grain_step. eapply (spec_bind _ _ _ _ (λ _, at_ true false)); [apply to_trainer|intros _].
  apply keep_bind; [apply chunk_loop_at|]. intros [chunks|]; [|apply keep_ret]. repeat awake_go.
Qed.

Lemma run_step_at fuel strategy b : triple (at_ true false) (run_step fuel strategy b) (λ _, at_ true false).
Proof.
  eapply spec_conseq with (P' := consistent initially); [|apply at_consistent|intros ? ? Ht; exact Ht].
  unfold run_step. destruct strategy as [[scope g]|]; [apply fine_grain_at|].
  eapply (spec_bind _ _ _ _ (λ _, at_ true false)); [apply full_batch_at|intros ?; apply keep_ret].
Qed.

Lemma fit_loop_at cf fuel strategy : triple (at_ true false) (fit_loop cf fuel strategy) (λ _, at_ true false).
Proof.
  induction fuel as [|fuel IH]; [apply keep_ret|]. cbn [fit_loop]. apply keep_bind.
  - unfold fit_iteration. apply keep_bind; [at_keep|intros _]. apply keep_gets. intros t0. apply keep_bind; [apply run_step_at|]. intros [b|]; at_keep.
  - intros [[]|]; [apply keep_ret|apply IH|apply keep_ret].
Qed.

Abbreviation settled_ := (settled initially).

Lemma settled_worked m t : settled_ m t → worked_awake initially t.
Proof. intros [H _]. by eapply at_mode_worked. Qed.

Lemma neutral_settled {A} m (o : Tr A) : (∀ a m, triple (at_ a m) o (λ _, at_ a m)) → triple (settled_ m) o (λ _, settled_ m).
Proof. intros Ho t [H Hc]. specialize (Ho _ _ t H). by destruct (o t). Qed.

(** A colocated actor needs the direct transfer mode, as the start-up checks. *)
Context (colocate_nixl : colocate cfg = true → nixl_mode cfg = true).

Lemma load_checkpoint_at m : triple (settled_ m) load_checkpoint (λ _, settled_ m).
Proof.
  unfold load_checkpoint. apply keep_bind; [apply keep_of_res, settled_worked|]. intros [f|]; [|apply keep_ret].
  apply keep_bind; [apply keep_of_res, settled_worked|intros step]. apply keep_bind; [apply neutral_settled; intros; at_keep|intros _].
  apply spec_gets. intros t0. eapply (spec_bind _ _ _ _ (λ _, settled_ m)); [|intros _; apply neutral_settled; intros a m'; at_keep].
  destruct (actor_resume_loaded t0); [by intros t [? _]|].
  destruct (nixl_mode cfg && is_rollout_mode_in_actor t0) eqn:Ed; [by intros t [[[H1 H2] Hc] _]|].
  intros t [[H Hc] Ht]. cbn in Ht. subst t0. pose proof H as [_ Hm].
  assert (m = false) as ->.
  { destruct m; [|done]. rewrite Hm, andb_true_r in Ed. destruct (colocate cfg) eqn:Ec; [|by apply Hc]. by rewrite colocate_nixl in Ed. }
  pose proof (awake_call initially false (ActorLoad (path_join f "actor")) (or_intror eq_refl) t H) as Hload.
  by destruct (do_call _ t).
Qed.

Lemma resume_push_at m : triple (settled_ m) resume_load_and_push_to_ps (λ _, settled_ m).
Proof.
  unfold resume_load_and_push_to_ps. destruct (negb (nixl_mode cfg)); [apply keep_ret|].
  apply keep_bind; [apply keep_of_res, settled_worked|]. intros [[path ?]|]; [|apply keep_raise, settled_worked].
  apply keep_bind; [apply keep_of_res, settled_worked|intros version].
  apply (spec_frame _ (at_ (negb m) m) _ (λ _, at_ (negb m) m)). apply spec_gets. intros asleep t [H Ha]. pose proof H as [_ Hm].
  assert (asleep = m) as -> by congruence. clear Ha Hm. revert t H. destruct m.
  - eapply seq_at; [by apply (call_switch initially _ false true true)|intros _]. do 3 (eapply (seq_at true true true true); [at_keep|intros _]).
    eapply seq_at; [by apply (call_switch initially _ true false true)|intros _]. at_keep.
  - eapply (seq_at true false true false); [at_keep|intros _]. do 4 (eapply (seq_at true false true false); [at_keep|intros _]). at_keep.
Qed.

(** [fit] validates first when it starts in rollout mode. *)
Lemma fit_at m chunk_cfg scope cf fuel : (val_before_train cfg = false → m = false) →
  spec (settled_ m) (fit chunk_cfg scope cf fuel) (λ _, worked_awake initially) (worked_awake initially).
Proof.
  intros Hval. assert (∀ m c, effect_of c = Neutral → triple (settled_ m) (do_call c) (λ _, settled_ m)) as Hn.
  { intros m' c Hc. apply neutral_settled. intros a m0. by apply neutral_call. }
  assert (∀ m f, (∀ t, calls (f t) = calls t ∧ is_rollout_mode_in_actor (f t) = is_rollout_mode_in_actor t) →
    triple (settled_ m) (modify f) (λ _, settled_ m)) as Hm.
  { intros m' f Hf. apply neutral_settled. intros a m0. by apply modify_at. }
  unfold fit. eapply (spec_bind _ _ _ _ (λ _, settled_ m)); [by apply Hm|intros _]. eapply (spec_bind _ _ _ _ (λ _, settled_ m)); [apply load_checkpoint_at|intros _].
  eapply spec_gets. intros start. eapply spec_conseq with (P' := settled_ m); [|by intros t [? _]|intros ? ? Ht; exact Ht].
  case_bool_decide; [intros t; apply settled_worked|]. eapply (spec_bind _ _ _ _ (λ _, settled_ m)); [case_bool_decide; [by apply Hn|apply keep_ret]|intros _].
  eapply (spec_bind _ _ _ _ (λ _, settled_ m)); [apply keep_for_each; intros; by apply Hn|intros _].
  eapply (spec_bind _ _ _ _ (λ _, at_ true false)).
  { destruct (val_before_train cfg); [|intros t [Ht _]; rewrite Hval in Ht by done; exact Ht].
    eapply spec_conseq; [apply validate_at|intros t Ht; by exists m|intros ? ? Ht; exact Ht]. }
  intros _. destruct (_ && _); [intros t; apply at_mode_worked|].
  eapply (spec_bind _ _ _ _ (λ _, at_ true false)); [at_keep|intros _]. eapply (spec_bind _ _ _ _ (λ _, at_ true false)); [at_keep|intros _].
  eapply (spec_bind _ _ _ _ (λ _, at_ true false)); [unfold build_step_strategy, new_fine_grain; at_keep|intros strategy].
  eapply (spec_bind _ _ _ _ (λ _, at_ true false)); [apply fit_loop_at|intros finished].
  eapply (spec_conseq _ _ (at_ true false) _ _ (λ _, at_ true false)); [|intros t Ht; exact Ht|intros ? t; apply at_mode_worked].
  destruct finished; [|apply keep_ret]. apply keep_bind; [|intros _; apply keep_ret].
  unfold stop_all. apply keep_bind; [|intros _; at_keep]. apply keep_for_each. intros c t Ht.
  unfold stop_component. pose proof (neutral_call initially true false (Stop c) eq_refl t Ht) as H1.
  unfold do_call in *. destruct (fails (calls t) (Stop c)); [|done].
  pose proof (call_neutral initially t true false (Stop c) eq_refl Ht) as H2. set (t1 := with_calls _ t) in *.
  pose proof (call_neutral initially t1 true false (Kill c) eq_refl H2) as H3. destruct (fails (calls t1) (Kill c)); [|done].
  case_bool_decide; [done|]. by eapply at_mode_worked.
Qed.
End awake_operations.

(** C36: Through the resume of a checkpoint at start-up and the whole training loop,
    validation rounds included, whatever call fails, the colocated actor computes
    log probabilities (the reference policy's too, when the actor stands in for it),
    updates, loads, saves, pulls, pushes and finalizes pending calls only while it is
    awake: after a wake-up that no sleep followed, or never put to sleep.  (Profiling
    calls are left out.) *)
Theorem actor_works_awake {E : TrainerEnv} chunk_cfg scope cf fuel base_ids resume :
  (colocate cfg = true → nixl_mode cfg = true) →
  let t0 := new_trainer cfg base_ids in
  let o := ((if resume : bool then resume_load_and_push_to_ps else mret tt) ;; fit chunk_cfg scope cf fuel) t0 in
  worked_awake (negb (is_rollout_mode_in_actor t0)) (final o).
Proof.
  intros Hn t0 o. set (init := negb (is_rollout_mode_in_actor t0)). set (m := is_rollout_mode_in_actor t0).
  assert (spec (settled init m) ((if resume : bool then resume_load_and_push_to_ps else mret tt) ;; fit chunk_cfg scope cf fuel)
    (λ _, worked_awake init) (worked_awake init)) as H.
  { eapply (spec_bind _ _ _ _ (λ _, settled init m)); [destruct resume; [by apply resume_push_at|apply keep_ret]|intros _; apply fit_at; [done|]].
    intros Hv. unfold m, t0, new_trainer. cbn. by rewrite Hv, andb_false_r. }
  assert (settled init m t0) as H0.
  { split; [by split|]. intros Hc. unfold m, t0, new_trainer. cbn. by rewrite Hc. }
  specialize (H t0 H0). fold o in H. by destruct o.
Qed.

(** ** What a step adds to the log *)

(** Calls other than the actor's updates and pushes, and the waits for batches. *)
Definition is_quiet (c : call) : bool :=
  match c with UpdateActor _ | ActorPush | WaitBatch _ | WaitChunk _ _ => false | _ => true end.

Section views.
Context {E : TrainerEnv} {Y : Type} (view : call → option Y) (gs : Z).

(** The step number and the view of the log. *)
Definition viewed (F : list Y) (t : Trainer) : Prop := global_steps t = gs ∧ omap view (calls t) = F.
Abbreviation triple P m Q := (spec P m Q (λ _, True)).

Lemma view_app F t c : viewed F t → viewed (F ++ omap view [c]) (with_calls (calls t ++ [c]) t).
Proof. intros [H1 H2]. split; [done|]. cbn [calls with_calls]. by rewrite omap_app, H2. Qed.

Lemma view_call F t c : view c = None → viewed F t → viewed F (with_calls (calls t ++ [c]) t).
Proof. intros Hc Ht%(view_app F t c). cbn [omap list_omap] in Ht. by rewrite Hc, app_nil_r in Ht. Qed.

Lemma quiet_call F c : view c = None → triple (viewed F) (do_call c) (λ _, viewed F).
Proof. intros Hc. apply (keep_call _ _ (λ c, view c = None)); [done|intros; by apply view_call|done]. Qed.

Lemma seen_call F c : triple (viewed F) (do_call c) (λ _, viewed (F ++ omap view [c])).
Proof. intros t Ht%(view_app F t c). unfold do_call. by destruct (fails _ _). Qed.

Lemma quiet_modify F f : (∀ t, calls (f t) = calls t ∧ global_steps (f t) = global_steps t) → triple (viewed F) (modify f) (λ _, viewed F).
Proof. intros Hf t [H1 H2]. cbn. destruct (Hf t) as [E1 E2]. split; congruence. Qed.

Context (Hq : ∀ c, is_quiet c = true → view c = None).

Ltac quiet_step := first [apply quiet_call, Hq; reflexivity|apply quiet_modify; by intros|keep_step|done].
Ltac quiet := repeat quiet_step.

Lemma gateway_quiet F action ids : triple (viewed F) (gateway_control action ids) (λ _, viewed F).
Proof. unfold gateway_control. quiet. Qed.
Lemma broadcast_quiet F names : triple (viewed F) (broadcast_updated_client_infos names) (λ _, viewed F).
Proof. unfold broadcast_updated_client_infos. quiet. Qed.

Ltac quiet' := repeat first [apply gateway_quiet|apply broadcast_quiet|quiet_step].

Lemma to_trainer_quiet F : triple (viewed F) switch_to_trainer_mode (λ _, viewed F).
Proof. unfold switch_to_trainer_mode. quiet'. Qed.
Lemma to_rollout_quiet F : triple (viewed F) switch_to_rollout_mode (λ _, viewed F).
Proof. unfold switch_to_rollout_mode. quiet'. Qed.
Lemma validate_quiet F : triple (viewed F) validate (λ _, viewed F).
Proof.
  unfold validate. apply keep_bind; [apply to_rollout_quiet|intros _]. apply keep_bind; [|intros _; apply to_trainer_quiet].
  apply keep_for_each. intros n. unfold validation_round. quiet.
Qed.
Lemma ckpt_quiet F b u : triple (viewed F) (run_ckpt_and_validate b u) (λ _, viewed F).
Proof. unfold run_ckpt_and_validate, save_checkpoint. repeat first [apply validate_quiet|quiet_step]. Qed.
Lemma stages_quiet F b : triple (viewed F) (per_sample_stages b) (λ _, viewed F).
Proof. unfold per_sample_stages, compute_old_log_prob, compute_ref_log_prob. quiet. Qed.
Lemma balance_quiet F b : triple (viewed F) (balance b) (λ _, viewed F).
Proof. unfold balance. quiet. Qed.
Lemma release_quiet F keys p : triple (viewed F) (release_padding keys p) (λ _, viewed F).
Proof. unfold release_padding. quiet. Qed.

(** An update whose calls are not seen. *)
Lemma update_quiet F u dp base upd finalize push b : (∀ b, view (upd b) = None) →
  triple (viewed F) (run_scheduled_update b u dp base upd finalize push) (λ _, viewed F).
Proof.
  intros Hu. unfold run_scheduled_update. apply spec_of_res; [done|intros strategy _]. cbv zeta. apply spec_of_res; [done|intros sched _].
  generalize (steps sched). intros l. revert b. induction l as [|step l IH]; intros b; [apply keep_ret|]. cbn [run_steps].
  apply spec_of_res; [done|intros [scheduled padding] _]. apply keep_bind; [|intros _; apply IH].
  apply keep_try; [done| |apply release_quiet].
  intros t Ht. unfold do_call. pose proof (view_call F t (upd (dispatch_info base step finalize (bool_decide (l = [])) push scheduled)) (Hu _) Ht).
  by destruct (fails _ _).
Qed.
End views.

(** ** The model is pushed once per step *)

(** What changes or publishes the actor's weights: an update, which may push the
    model when it is done, or a push of its own. *)
Inductive actor_change := Updated (push : bool) | PushedAlone.

Definition actor_change_of (c : call) : option actor_change :=
  match c with
  | UpdateActor b => Some (Updated (bool_decide (assoc "push_model" (b_extra b) = Some (VBool true))))
  | ActorPush => Some PushedAlone
  | _ => None
  end.
Definition pushes (log : list call) : list actor_change := omap actor_change_of log.

Lemma pushes_quiet c : is_quiet c = true → actor_change_of c = None.
Proof. by destruct c. Qed.
#[local] Hint Resolve pushes_quiet : core.

Section pushes.
Context {E : TrainerEnv} (gs : Z).

Abbreviation pushed := (viewed actor_change_of gs).
Abbreviation triple P m Q := (spec P m Q (λ _, True)).

Ltac quiet_step := first [apply quiet_call; reflexivity|apply quiet_modify; by intros|keep_step|done].
Ltac quiet := repeat quiet_step.

(** What one dispatch carries. *)
Lemma dispatch_push base step finalize is_final b :
  assoc "push_model" (b_extra (dispatch_info base step finalize is_final true b)) = Some (VBool (finalize && is_final)).
Proof. unfold dispatch_info. cbn [update_extra with_extra b_extra foldl]. by rewrite assoc_dict_set, decide_True. Qed.

Lemma update_push F base step finalize is_final b padding p :
  triple (pushed F) (try_finally (do_call (UpdateActor (dispatch_info base step finalize is_final true b))) (release_padding padding p))
    (λ _, pushed (F ++ [Updated (finalize && is_final)])).
Proof.
  intros t [H1 H2]. unfold try_finally, do_call at 1. set (d := dispatch_info _ _ _ _ _ _). set (t1 := with_calls _ t).
  assert (pushed (F ++ [Updated (finalize && is_final)]) t1) as Ht1.
  { pose proof (view_app actor_change_of gs F t (UpdateActor d) (conj H1 H2)) as Ht. cbn [omap list_omap actor_change_of] in Ht.
    assert (bool_decide (assoc "push_model" (b_extra d) = Some (VBool true)) = finalize && is_final) as Hd.
    { unfold d. rewrite dispatch_push. by destruct (finalize && is_final). }
    by rewrite Hd in Ht. }
  destruct (fails _ _); [by destruct (release_padding padding p t1)|].
  pose proof (release_quiet actor_change_of gs pushes_quiet (F ++ [Updated (finalize && is_final)]) padding p) as Hr.
  specialize (Hr t1 Ht1). by destruct (release_padding padding p t1).
Qed.

Lemma run_steps_pushes F dp base finalize b step steps :
  triple (pushed F) (run_steps dp base finalize true UpdateActor b (step :: steps))
    (λ _, pushed (F ++ replicate (length steps) (Updated false) ++ [Updated finalize])).
Proof.
  revert F b step. induction steps as [|step' steps IH]; intros F b step; cbn [run_steps];
    (apply spec_of_res; [done|intros [scheduled padding] _]).
  - eapply spec_bind; [apply update_push|intros ? t Ht]. cbn. by rewrite andb_true_r in Ht.
  - eapply spec_bind; [apply update_push|intros ?]. rewrite bool_decide_eq_false_2, andb_false_r by done.
    eapply spec_conseq; [apply IH|intros t Ht; exact Ht|]. intros ? t Ht. by rewrite <- app_assoc in Ht.
Qed.

(** The dispatches of one update: all but the last leave the model alone. *)
Definition one_push (F : list actor_change) (finalize : bool) (t : Trainer) : Prop :=
  ∃ n, pushed (F ++ replicate n (Updated false) ++ [Updated finalize]) t.

Lemma update_actor_pushes F finalize b : triple (pushed F) (update_actor finalize b) (λ _, one_push F finalize).
Proof.
  unfold update_actor, run_scheduled_update. apply spec_of_res; [done|intros strategy _]. cbv zeta. apply spec_of_res; [done|intros sched Hs].
  apply build_batch_schedule_nonempty in Hs. destruct (steps sched) as [|step l]; [done|].
  eapply spec_conseq; [apply run_steps_pushes|intros t Ht; exact Ht|]. intros ? t Ht. exists (length l); exact Ht.
Qed.

Lemma update_critic_quiet F finalize b : triple (pushed F) (update_critic finalize b) (λ _, pushed F).
Proof. apply update_quiet; [apply pushes_quiet|done]. Qed.

(** The actor is updated from the end of the critic's warm-up on. *)
Definition step_pushes (F : list actor_change) (finalize : bool) (t : Trainer) : Prop :=
  if bool_decide (critic_warmup cfg ≤ gs) then one_push F finalize t else pushed F t.

Lemma update_stages_pushes F finalize b : triple (pushed F) (update_stages finalize b) (λ _, step_pushes F finalize).
Proof.
  unfold update_stages. apply (spec_bind _ _ _ _ (λ _, pushed F)); [quiet|intros _].
  apply (spec_bind _ _ _ _ (λ _, pushed F)); [destruct (use_critic cfg); [apply update_critic_quiet|quiet]|intros b'].
  intros t Ht. rewrite run_gets. unfold actor_updates, step_pushes. rewrite (proj1 Ht).
  case_bool_decide; [by apply update_actor_pushes|done].
Qed.

Lemma step_pushes_keep {A} F finalize (m : Tr A) : (∀ F, triple (pushed F) m (λ _, pushed F)) → triple (step_pushes F finalize) m (λ _, step_pushes F finalize).
Proof.
  intros Hm t Ht. unfold step_pushes, one_push in *. destruct (bool_decide _); [|by apply Hm]. destruct Ht as [n Ht].
  specialize (Hm _ t Ht). destruct (m t); [by exists n|done].
Qed.

Lemma full_batch_pushes F b : triple (pushed F) (full_batch_step b) (λ _, step_pushes F true).
Proof.
  unfold full_batch_step. apply (spec_bind _ _ _ _ (λ _, pushed F)); [quiet|intros _]. cbv zeta.
  apply (spec_bind _ _ _ _ (λ _, pushed F)); [quiet|intros _].
  apply (spec_bind _ _ _ _ (λ _, pushed F)); [apply (to_trainer_quiet _ _ pushes_quiet)|intros _].
  apply (spec_bind _ _ _ _ (λ _, pushed F)); [apply balance_quiet|intros ?].
  apply (spec_bind _ _ _ _ (λ _, pushed F)); [apply (stages_quiet _ _ pushes_quiet)|intros ?].
  apply (spec_bind _ _ _ _ (λ _, step_pushes F true)); [apply update_stages_pushes|intros ?].
  apply step_pushes_keep. intros F'. apply keep_gets. intros ?. apply keep_bind; [apply (ckpt_quiet _ _ pushes_quiet)|intros _; apply keep_ret].
Qed.

Lemma chunk_loop_quiet F fuel b c l : triple (pushed F) (chunk_loop fuel false b c l) (λ _, pushed F).
Proof.
  revert c l. induction fuel as [|fuel IH]; intros c l; [apply keep_ret|]. cbn [chunk_loop].
  apply keep_bind; [quiet|intros _]. destruct (chunk_of b c) as [batch is_last].
  apply keep_bind; [quiet|intros _]. apply keep_bind; [apply balance_quiet|intros ?]. apply keep_bind; [apply (stages_quiet _ _ pushes_quiet)|intros ?].
  apply keep_bind; [quiet|intros ?]. destruct is_last; [apply keep_ret|apply IH].
Qed.

Lemma chunk_loop_pushes F fuel b c l :
  triple (pushed F) (chunk_loop fuel true b c l) (λ r t, match r with Some _ => step_pushes F true t | None => True end).
Proof.
  revert F c l. induction fuel as [|fuel IH]; intros F c l; [by intros t _|]. cbn [chunk_loop].
  apply (spec_bind _ _ _ _ (λ _, pushed F)); [quiet|intros _]. destruct (chunk_of b c) as [batch is_last].
  apply (spec_bind _ _ _ _ (λ _, pushed F)); [quiet|intros _].
  apply (spec_bind _ _ _ _ (λ _, pushed F)); [apply balance_quiet|intros ?].
  apply (spec_bind _ _ _ _ (λ _, pushed F)); [apply (stages_quiet _ _ pushes_quiet)|intros ?].
  apply (spec_bind _ _ _ _ (λ _, step_pushes F is_last)).
  { apply (spec_bind _ _ _ _ (λ _, step_pushes F is_last)); [apply update_stages_pushes|intros ?].
    apply step_pushes_keep. intros F'. apply keep_gets. intros ?. apply keep_ret. }
  intros b'. destruct is_last; [by intros t Ht|].
  intros t Ht. unfold step_pushes in Ht. destruct (bool_decide (critic_warmup cfg ≤ gs)) eqn:Ew; [|by apply (IH F)].
  destruct Ht as [n Ht]. specialize (IH _ (S c) (l ++ [b']) t Ht). destruct (chunk_loop _ _ _ _ _ t) as [[r|] t'|]; [|done|done].
  unfold step_pushes in *. rewrite Ew in *. destruct IH as [n' IH]. exists (n + S n')%nat.
  rewrite replicate_add. cbn [replicate]. rewrite <- !app_assoc in *. exact IH.
Qed.

(** The scopes that train. *)
Definition known_scope (strategy : option (string * string)) : Prop :=
  match strategy with None => True | Some (scope, g) => scope = "recompute" ∨ scope = "pre_step" ∧ g = "mini_batch" end.

Lemma run_step_pushes F fuel strategy b : known_scope strategy →
  triple (pushed F) (run_step fuel strategy b) (λ r t, match r with Some _ => step_pushes F true t | None => True end).
Proof.
  destruct strategy as [[scope g]|]; intros Hk; cbn [run_step known_scope] in *.
  - unfold fine_grain_step. apply (spec_bind _ _ _ _ (λ _, pushed F)); [apply (to_trainer_quiet _ _ pushes_quiet)|intros _]. destruct Hk as [->|[-> ->]].
    + rewrite (bool_decide_eq_false_2 ("recompute" = "pre_step" ∧ g = "mini_batch")) by (intros [H1 _]; discriminate H1).
      apply (spec_bind _ _ _ _ (λ _, pushed F)); [apply chunk_loop_quiet|].
      intros [chunks|]; [|by intros t _]. cbv zeta. rewrite bool_decide_eq_true_2 by done.
      apply (spec_bind _ _ _ _ (λ _, step_pushes F true)); [apply update_stages_pushes|intros b'].
      eapply (spec_conseq _ _ _ _ _ (λ _, step_pushes F true)); [|intros t Ht; exact Ht|by intros [?|] t Ht].
      apply step_pushes_keep. intros F'. apply keep_gets. intros ?. apply keep_bind; [apply (ckpt_quiet _ _ pushes_quiet)|intros _; apply keep_ret].
    + rewrite (bool_decide_eq_true_2 ("pre_step" = "pre_step" ∧ "mini_batch" = "mini_batch")) by done. eapply spec_bind; [apply chunk_loop_pushes|]. intros [chunks|]; [|by intros t _].
      cbv zeta. rewrite bool_decide_eq_false_2 by done.
      eapply (spec_conseq _ _ _ _ _ (λ _, step_pushes F true)); [|intros t Ht; exact Ht|by intros [?|] t Ht].
      apply step_pushes_keep. intros F'. apply keep_bind; [apply keep_ret|intros ?]. apply keep_gets. intros ?.
      apply keep_bind; [apply (ckpt_quiet _ _ pushes_quiet)|intros _; apply keep_ret].
  - eapply (spec_bind _ _ _ _ (λ _, step_pushes F true)); [apply full_batch_pushes|]. by intros ? t Ht.
Qed.

Lemma run_step_unknown F fuel scope g b : scope ≠ "recompute" → scope ≠ "pre_step" →
  triple (pushed F) (run_step fuel (Some (scope, g)) b) (λ _, pushed F).
Proof.
  intros H1 H2. cbn [run_step]. unfold fine_grain_step. rewrite (bool_decide_eq_false_2 (scope = "pre_step" ∧ g = "mini_batch")) by (intros [H3 _]; by apply H2).
  apply keep_bind; [apply (to_trainer_quiet _ _ pushes_quiet)|intros _]. apply keep_bind; [apply chunk_loop_quiet|]. intros [chunks|]; [|apply keep_ret].
  cbv zeta. rewrite bool_decide_eq_false_2 by done. apply keep_bind; [apply keep_ret|intros ?]. apply keep_gets. intros ?.
  apply keep_bind; [apply (ckpt_quiet _ _ pushes_quiet)|intros _; apply keep_ret].
Qed.
End pushes.

(** C26: In a training step of one of the three strategies (the full batch, and
    fine-grained overlap with scope [recompute], or [pre_step] on mini batches) that
    returns, past the critic's warm-up, the actor is updated, and the model is pushed
    exactly once, with the last of the updates: no earlier update of the step pushes,
    and nothing else does, whether the batch is trained as a whole or chunk by chunk.
    A step of the warm-up neither updates the actor nor pushes. *)
Theorem model_pushed_once {E : TrainerEnv} fuel strategy buffer_id t b t' :
  known_scope strategy → run_step fuel strategy buffer_id t = Ret (Some b) t' →
  global_steps t' = global_steps t ∧
  if bool_decide (critic_warmup cfg ≤ global_steps t)
  then ∃ n, pushes (calls t') = pushes (calls t) ++ replicate n (Updated false) ++ [Updated true]
  else pushes (calls t') = pushes (calls t).
Proof.
  intros Hk Hr. pose proof (run_step_pushes (global_steps t) (pushes (calls t)) fuel strategy buffer_id Hk t (conj eq_refl eq_refl)) as H.
  rewrite Hr in H. unfold step_pushes, one_push, viewed in H. case_bool_decide; [|done]. destruct H as (n & H1 & H2). split; [done|]. by exists n.
Qed.

(** An overlap scope that is neither of the two documented ones passes the
    start-up checks and then never updates the actor. *)
Theorem unknown_scope_never_trains {E : TrainerEnv} fuel scope g buffer_id t :
  scope ≠ "recompute" → scope ≠ "pre_step" →
  match run_step fuel (Some (scope, g)) buffer_id t with Ret _ t' => pushes (calls t') = pushes (calls t) | Raise _ _ => True end.
Proof.
  intros H1 H2. pose proof (run_step_unknown (global_steps t) (pushes (calls t)) fuel scope g buffer_id H1 H2 t (conj eq_refl eq_refl)) as H.
  destruct (run_step _ _ _ t); [by destruct H|done].
Qed.

(** ** The loop takes the buffers in order and ends *)

Definition buffer_of (c : call) : option Z :=
  match c with WaitBatch b | WaitChunk b O => Some b | _ => None end.
Definition buffers (log : list call) : list Z := omap buffer_of log.

Lemma buffers_quiet c : is_quiet c = true → buffer_of c = None.
Proof. by destruct c. Qed.

Section loop.
Context {E : TrainerEnv}.
Abbreviation at_step gs := (viewed buffer_of gs).
Abbreviation triple P m Q := (spec P m Q (λ _, True)).

Ltac quiet_step := first [apply quiet_call; reflexivity|apply quiet_modify; by intros|keep_step|done].
Ltac quiet := repeat quiet_step.

Lemma updates_unseen gs F finalize b : triple (at_step gs F) (update_stages finalize b) (λ _, at_step gs F).
Proof.
  unfold update_stages. apply keep_bind; [quiet|intros _].
  apply keep_bind; [destruct (use_critic cfg); [apply update_quiet; [apply buffers_quiet|done]|quiet]|intros ?].
  apply keep_gets. intros []; [apply update_quiet; [apply buffers_quiet|done]|apply keep_ret].
Qed.

Ltac step := first [apply updates_unseen|apply balance_quiet|apply (stages_quiet _ _ buffers_quiet)|apply (ckpt_quiet _ _ buffers_quiet)|
  apply (to_trainer_quiet _ _ buffers_quiet)|quiet_step].

Lemma seen_buffer gs F c b : buffer_of c = Some b → triple (at_step gs F) (do_call c) (λ _, at_step gs (F ++ [b])).
Proof. intros Hc t Ht. pose proof (seen_call buffer_of gs F c t Ht) as H. cbn [omap list_omap] in H. by rewrite Hc in H. Qed.

Lemma full_batch_buffer gs F b : triple (at_step gs F) (full_batch_step b) (λ _, at_step gs (F ++ [b])).
Proof. unfold full_batch_step. apply (spec_bind _ _ _ _ (λ _, at_step gs (F ++ [b]))); [by apply seen_buffer|intros _]. repeat step. Qed.

Lemma chunks_unseen gs F fuel pre b c l : triple (at_step gs F) (chunk_loop fuel pre b (S c) l) (λ _, at_step gs F).
Proof.
  revert c l. induction fuel as [|fuel IH]; intros c l; [apply keep_ret|]. cbn [chunk_loop].
  apply keep_bind; [quiet|intros _]. destruct (chunk_of b (S c)) as [batch is_last].
  do 4 (apply keep_bind; [repeat step|intros ?]). destruct is_last; [apply keep_ret|apply IH].
Qed.

(** The chunks of a buffer end within the fuel. *)
Definition chunks_end (fuel : nat) (b : Z) (c : nat) : Prop := ∃ k, (c ≤ k < c + fuel)%nat ∧ (chunk_of b k).2 = true.

Lemma spec_any {A} P (m : Tr A) : triple P m (λ _ _, True).
Proof. intros t _. by destruct (m t). Qed.

(** What is answered does not depend on what a step before it leaves. *)
Lemma answer_bind {A B} P (m : Tr A) (k : A → Tr (option B)) :
  (∀ a, triple (λ _, True) (k a) (λ r _, is_Some r)) → triple P (m ≫= k) (λ r _, is_Some r).
Proof. intros Hk. eapply spec_bind; [apply spec_any|done]. Qed.

Lemma chunk_loop_ends fuel pre b c l : chunks_end fuel b c → triple (λ _, True) (chunk_loop fuel pre b c l) (λ r _, is_Some r).
Proof.
  revert c l. induction fuel as [|fuel IH]; intros c l (k & Hk & Hend); [lia|]. cbn [chunk_loop].
  apply answer_bind. intros _. destruct (chunk_of b c) as [batch is_last] eqn:Ec. do 4 (apply answer_bind; intros ?).
  destruct is_last; [intros t _; by eexists|]. apply IH. exists k. split; [|done].
  destruct (decide (k = c)) as [->|]; [by rewrite Ec in Hend|lia].
Qed.

(** A strategy finishes its steps. *)
Definition finishes (cf : nat) (strategy : option (string * string)) : Prop :=
  match strategy with None => True | Some _ => ∀ b, chunks_end cf b 0 end.

Lemma run_step_answers cf strategy b : finishes cf strategy → triple (λ _, True) (run_step cf strategy b) (λ r _, is_Some r).
Proof.
  intros Hf. destruct strategy as [[scope g]|]; cbn [run_step finishes] in *; [|apply answer_bind; intros ? t _; by eexists].
  unfold fine_grain_step. apply answer_bind. intros _. eapply spec_bind; [by apply chunk_loop_ends|].
  intros [chunks|]; [|intros t [? H]; done]. cbv zeta. eapply spec_conseq with (P' := λ _, True); [|done|intros r t H; exact H].
  do 3 (apply answer_bind; intros ?). intros t _. by eexists.
Qed.

Lemma run_step_buffer gs F cf strategy b : finishes cf strategy →
  triple (at_step gs F) (run_step cf strategy b) (λ _, at_step gs (F ++ [b])).
Proof.
  intros Hf. destruct strategy as [[scope g]|]; cbn [run_step finishes] in *.
  - unfold fine_grain_step. apply (spec_bind _ _ _ _ (λ _, at_step gs F)); [apply (to_trainer_quiet _ _ buffers_quiet)|intros _].
    apply (spec_bind _ _ _ _ (λ _, at_step gs (F ++ [b]))).
    + destruct cf as [|cf]; [destruct (Hf b) as (k & ? & _); lia|]. cbn [chunk_loop].
      apply (spec_bind _ _ _ _ (λ _, at_step gs (F ++ [b]))); [by apply seen_buffer|intros _]. destruct (chunk_of b 0) as [batch is_last].
      do 4 (apply keep_bind; [repeat step|intros ?]). destruct is_last; [apply keep_ret|apply chunks_unseen].
    + intros [chunks|]; [|apply keep_ret]. repeat step.
  - eapply spec_bind; [apply full_batch_buffer|intros ?]. apply keep_ret.
Qed.

Lemma fit_iteration_buffer gs F cf strategy : finishes cf strategy →
  triple (at_step gs F) (fit_iteration cf strategy)
    (λ r t, r = Some (bool_decide (gs = total_training_steps cfg)) ∧ at_step (gs + 1) (F ++ [gs - 1]) t).
Proof.
  intros Hf. unfold fit_iteration. apply (spec_bind _ _ _ _ (λ _, at_step gs F)); [quiet|intros _]. apply spec_gets. intros t0. cbn [id].
  intros t [Ht <-]. pose proof (run_step_buffer gs F cf strategy (gs - 1) Hf t Ht) as H1. pose proof (run_step_answers cf strategy (gs - 1) Hf t I) as H2.
  pose proof Ht as [Hgs _]. rewrite Hgs. unfold mbind at 1, M_bind. destruct (run_step cf strategy (gs - 1) t) as [r t1|]; [|done].
  destruct r as [b|]; [|by destruct H2].
  enough (triple (at_step gs (F ++ [gs - 1])) (do_call (ComputeMetrics gs) ;; do_call (ClearPayload (b_keys b) (b_partition b)) ;;
      do_call (ReplayRemove (b_keys b) (b_partition b)) ;; do_call (LogMetrics gs) ;;
      modify (λ t, with_global_steps (global_steps t + 1) t) ;;
      (if is_last_step t && actor_async_calls cfg then do_call (ActorFinalize true) else mret tt) ;; mret (Some (is_last_step t)))
    (λ r t, r = Some (bool_decide (gs = total_training_steps cfg)) ∧ at_step (gs + 1) (F ++ [gs - 1]) t)) as H.
  { specialize (H t1 H1). exact H. }
  do 4 (apply (spec_bind _ _ _ _ (λ _, at_step gs (F ++ [gs - 1]))); [quiet|intros _]).
  apply (spec_bind _ _ _ _ (λ _, at_step (gs + 1) (F ++ [gs - 1]))); [intros t2 [H3 H4]; split; [cbn; lia|done]|intros _].
  apply (spec_bind _ _ _ _ (λ _, at_step (gs + 1) (F ++ [gs - 1]))); [quiet|intros _].
  intros t2 Ht2. split; [unfold is_last_step; by rewrite Hgs|done].
Qed.

Lemma fit_loop_buffers cf strategy fuel gs F : finishes cf strategy → gs ≤ total_training_steps cfg →
  (Z.to_nat (total_training_steps cfg - gs) < fuel)%nat →
  triple (at_step gs F) (fit_loop cf fuel strategy)
    (λ r t, r = true ∧ at_step (total_training_steps cfg + 1) (F ++ zrange (gs - 1) (total_training_steps cfg)) t).
Proof.
  intros Hf. revert gs F. induction fuel as [|fuel IH]; intros gs F Hgs Hfuel; [lia|]. cbn [fit_loop].
  eapply spec_bind; [by apply fit_iteration_buffer|]. intros r t [-> Ht]. case_bool_decide as Hlast.
  - cbn. split; [done|]. rewrite <- Hlast in *. unfold zrange. replace (gs - (gs - 1)) with 1 by lia. exact Ht.
  - specialize (IH (gs + 1) (F ++ [gs - 1]) ltac:(lia) ltac:(lia) t Ht).
    assert (zrange (gs - 1) (total_training_steps cfg) = (gs - 1) :: zrange (gs + 1 - 1) (total_training_steps cfg)) as ->.
    { unfold zrange. rewrite seqZ_cons by lia. f_equal. f_equal; lia. }
    rewrite <- app_assoc in IH. exact IH.
Qed.
End loop.

(** C34: From step [s + 1], after [s] finished steps of this run or of the one it
    resumes, and provided every call of the driver returns or raises and, with
    fine-grained overlap, every buffer has a last chunk within the chunk fuel: the
    training loop ends within one iteration per remaining step.  Unless a call raises,
    it returns after the last step, having waited for the buffers [s] to [total - 1],
    once each and in order.  (The buffers are numbered by the absolute step: a resumed
    run does not start with buffer zero, contrary to the comment in [fit].) *)
Theorem fit_loop_terminates {E : TrainerEnv} chunk_fuel fuel strategy t :
  finishes chunk_fuel strategy → global_steps t ≤ total_training_steps cfg →
  (Z.to_nat (total_training_steps cfg - global_steps t) < fuel)%nat →
  match fit_loop chunk_fuel fuel strategy t with
  | Ret r t' => r = true ∧ global_steps t' = total_training_steps cfg + 1 ∧
      buffers (calls t') = buffers (calls t) ++ zrange (global_steps t - 1) (total_training_steps cfg)
  | Raise _ _ => True
  end.
Proof. intros Hf Hgs Hfuel. exact (fit_loop_buffers chunk_fuel strategy fuel (global_steps t) (buffers (calls t)) Hf Hgs Hfuel t (conj eq_refl eq_refl)). Qed.
