(* ===== verification/TrainerChecks.v ===== *)
(** * Trainer: resuming checkpoints, and runs of the model

    The step a checkpoint is saved at is the step a run resumes at; a complete run
    of a small configuration, on which the theorems of [TrainerTheorems.v] are
    instantiated; and the cases where the trainer and its comments disagree. *)

From Stdlib Require Import Ascii.
From S2P Require Import Prelude.
From S2P Require Import PyFloat.
From S2P Require Import PyData.
From S2P Require Import BatchSchedule.
From S2P Require Import EnvShell.
From S2P Require Import WorkerNames.
From S2P Require Import TrainerBatch.
From S2P Require Import Trainer.
From S2P Require Import TrainerTheorems.

#[local] Open Scope string_scope.
#[local] Open Scope list_scope.
#[local] Open Scope Z_scope.

(** ** Paths of checkpoints *)

Lemma after_last_app sep p s r : after_last sep s = Some r → after_last sep (p ++ s)%string = Some r.
Proof.
  intros Hs. induction p as [|c p IH]; [done|]. change (String c p ++ s)%string with (String c (p ++ s)%string). cbn [after_last]. by rewrite IH.
Qed.

Lemma after_last_none s : lacks "g" s = true → after_last "global_step_" s = None.
Proof.
  induction s as [|c s IH]; [done|]. cbn [lacks after_last]. intros [Hc Hs]%andb_true_iff. rewrite IH by done.
  apply negb_true_iff, bool_decide_eq_false in Hc. cbn [strip_prefix]. by rewrite decide_False by congruence.
Qed.

Lemma lacks_app c s t : lacks c (s ++ t)%string = lacks c s && lacks c t.
Proof. induction s as [|d s IH]; [done|]. change (String d s ++ t)%string with (String d (s ++ t)%string). cbn [lacks]. by rewrite IH, andb_assoc. Qed.

Lemma after_last_step p s : lacks "g" s = true → after_last "global_step_" (p ++ "global_step_" ++ s)%string = Some s.
Proof.
  intros Hs. apply after_last_app. change ("global_step_" ++ s)%string with (String "g" ("lobal_step_" ++ s)%string). cbn [after_last].
  rewrite after_last_none by (by rewrite lacks_app, Hs). change (String "g" ("lobal_step_" ++ s)%string) with ("global_step_" ++ s)%string.
  apply strip_prefix_app.
Qed.

(** A folder named after a step. *)
Lemma step_path_prefix d n : ∃ p, path_join d ("global_step_" ++ str_of_Z n)%string = (p ++ "global_step_" ++ str_of_Z n)%string.
Proof.
  unfold path_join. change (starts_with_slash ("global_step_" ++ str_of_Z n)%string) with false. cbv iota.
  destruct (bool_decide (d = EmptyString) || ends_with_slash d); [by exists d|]. exists (d ++ "/")%string. by rewrite append_assoc.
Qed.

Lemma split_step p n : split_last "global_step_" (p ++ "global_step_" ++ str_of_Z n)%string = str_of_Z n.
Proof. unfold split_last. rewrite after_last_step; [done|]. by apply lacks_str. Qed.

Lemma ends_lacks s : lacks "/" s = true → ends_with_slash s = false.
Proof.
  induction s as [|c s IH]; [done|]. cbn [lacks]. intros [Hc Hs]%andb_true_iff. apply negb_true_iff, bool_decide_eq_false in Hc.
  cbn [ends_with_slash]. destruct s; [by apply bool_decide_eq_false|by apply IH].
Qed.

Lemma ends_app p s : s ≠ EmptyString → ends_with_slash (p ++ s)%string = ends_with_slash s.
Proof.
  intros Hs. induction p as [|c p IH]; [done|]. change (String c p ++ s)%string with (String c (p ++ s)%string). cbn [ends_with_slash].
  destruct (p ++ s)%string eqn:E; [|done]. destruct p; [cbn in E; by destruct s|discriminate E].
Qed.

Lemma before_slash_lacks s t : lacks "/" s = true → before_slash (s ++ "/" ++ t)%string = s.
Proof.
  induction s as [|c s IH]; [done|]. cbn [lacks]. intros [Hc Hs]%andb_true_iff. apply negb_true_iff, bool_decide_eq_false in Hc.
  change (String c s ++ "/" ++ t)%string with (String c (s ++ "/" ++ t)%string). cbn [before_slash]. rewrite decide_False by done. by rewrite IH.
Qed.

Lemma join_actor p n : path_join (p ++ "global_step_" ++ str_of_Z n)%string "actor" = (p ++ "global_step_" ++ str_of_Z n ++ "/actor")%string.
Proof.
  unfold path_join. change (starts_with_slash "actor") with false. cbv iota.
  rewrite ends_app by done. rewrite ends_lacks by (by rewrite lacks_app, lacks_str). rewrite bool_decide_eq_false_2.
  - cbn [orb]. rewrite !append_assoc. done.
  - by destruct p.
Qed.

Lemma spec_final {A} P (m : Tr A) (Q : Trainer → Prop) t : spec P m (λ _, Q) Q → P t → Q (final (m t)).
Proof. intros Hm Ht. specialize (Hm t Ht). by destruct (m t). Qed.

(** A path below a directory, seen from the root. *)
Lemma absolute_join `{E : TrainerEnv} d x : starts_with_slash x = false → absolute (path_join d x) = path_join (absolute d) x.
Proof.
  intros Hx. assert (starts_with_slash (path_join d x) = starts_with_slash d) as Hs.
  { unfold path_join. rewrite Hx. destruct d as [|c d]; [done|]. by destruct (_ || _). }
  unfold absolute. rewrite Hs. destruct (starts_with_slash d) eqn:Ed; [done|].
  unfold path_join at 1. rewrite Hs. unfold path_join. rewrite Hx, Ed.
  destruct (decide (d = EmptyString)) as [->|Hd].
  - cbn [ends_with_slash]. rewrite (bool_decide_eq_true_2 (EmptyString = EmptyString)) by done. cbn [orb].
    destruct (bool_decide (cwd = EmptyString) || ends_with_slash cwd) eqn:Ec; [by rewrite append_nil_r, Ec|].
    rewrite append_nil_r, ends_app by done. change (ends_with_slash "/") with true. rewrite orb_true_r, append_assoc. done.
  - rewrite (bool_decide_eq_false_2 (d = EmptyString)) by done. cbn [orb]. assert (∀ p, (p ++ d)%string ≠ EmptyString) as Hne by (intros []; [done|discriminate]).
    destruct (bool_decide (cwd = EmptyString) || ends_with_slash cwd); [|rewrite <- (append_assoc cwd "/" d)];
      rewrite (bool_decide_eq_false_2 (_ = EmptyString)) by apply Hne; cbn [orb]; rewrite ends_app by done; destruct (ends_with_slash d); by rewrite !append_assoc.
Qed.

(** ** The newest checkpoint

    [find_latest_ckpt_path] of the library reads the step from the tracker file of a
    directory and answers the folder of that step, if there is one: here after the
    calls of [log], which wrote the tracker and saved below the folder. *)
Section latest.
Context {E : TrainerEnv}.

Definition tracked (d : string) (c : call) : option Z :=
  match c with
  | WriteLatest p n => if bool_decide (absolute p = path_join d "latest_checkpointed_iteration.txt") then Some n else None
  | _ => None
  end.

Definition saved_below (folder : string) (c : call) : bool :=
  match c with
  | ActorSave p _ | CriticSave p _ | SaveDataloader p => bool_decide (is_Some (strip_prefix (folder ++ "/")%string (absolute p)))
  | _ => false
  end.

Definition latest_saved (log : list call) (d : string) : option string :=
  n ← last (omap (tracked d) log);
  let folder := path_join d ("global_step_" ++ str_of_Z n)%string in
  if existsb (saved_below folder) log then Some folder else None.
End latest.

Section resume.
Context {E : TrainerEnv}.

Lemma load_checkpoint_step f n t : resume_folder AttributeError = inr (Some f) → py_int (split_last "global_step_" f) = Some n →
  global_steps (final (load_checkpoint t)) = n.
Proof.
  intros Hf Hn. unfold load_checkpoint. rewrite (run_of_res _ _ _ _ Hf). unfold py_int_res. rewrite Hn. rewrite (run_of_res _ n) by done.
  rewrite run_modify, run_gets. cbn [id].
  assert (spec (λ t, global_steps t = n) ((if actor_resume_loaded (with_global_steps n t) then mret tt
       else if nixl_mode cfg && is_rollout_mode_in_actor (with_global_steps n t) then modify (with_deferred (Some (path_join f "actor")))
       else do_call (ActorLoad (path_join f "actor"))) ;;
    (if use_critic cfg then do_call (CriticLoad (path_join f "critic")) else mret tt) ;;
    if path_exists (path_join f "data.pt") then do_call (LoadDataloader (path_join f "data.pt")) else mret tt)
    (λ _ t, global_steps t = n) (λ t, global_steps t = n)) as H.
  { assert (∀ c, spec (λ t, global_steps t = n) (do_call c) (λ _ t, global_steps t = n) (λ t, global_steps t = n)) as Hc
      by (intros c t0 Ht; unfold do_call; by destruct (fails _ _)).
    repeat first [apply Hc|keep_step|by intros t0 Ht]. }
  exact (spec_final (λ t, global_steps t = n) _ (λ t, global_steps t = n) (with_global_steps n t) H eq_refl).
Qed.

(** The calls of a checkpoint at step [n], and the paths they name. *)
Definition actor_dir (n : Z) : string := path_join (step_folder n) "actor".
Definition critic_dir (n : Z) : string := path_join (step_folder n) "critic".
Definition data_file (n : Z) : string := path_join (step_folder n) "data.pt".

Lemma call_run c t : fails (calls t) c = None → do_call c t = Ret tt (with_calls (calls t ++ [c]) t).
Proof. intros Hf. unfold do_call. by rewrite Hf. Qed.

Lemma call_ret c t t' : do_call c t = Ret tt t' → t' = with_calls (calls t ++ [c]) t.
Proof. unfold do_call. by destruct (fails _ _); intros [= <-]. Qed.

Lemma bind_ret {B} (m : Tr unit) (k : unit → Tr B) t b t' : (m ≫= k) t = Ret b t' → ∃ t1, m t = Ret tt t1 ∧ k tt t1 = Ret b t'.
Proof. unfold mbind, M_bind. destruct (m t) as [[] t1|]; [|done]. by exists t1. Qed.

Lemma save_checkpoint_calls run r1 : async_save cfg = false → save_checkpoint run = Ret tt r1 →
  let n := global_steps run in
  calls r1 = calls run ++ [ActorSave (actor_dir n) n] ++ (if use_critic cfg then [CriticSave (critic_dir n) n] else []) ++
    [SaveDataloader (data_file n); WriteLatest (path_join (default_local_dir cfg) "latest_checkpointed_iteration.txt") n].
Proof.
  intros Ha. unfold save_checkpoint. rewrite run_gets. cbv zeta. rewrite Ha. fold (actor_dir (global_steps run)) (critic_dir (global_steps run)) (data_file (global_steps run)).
  intros (t1 & ->%call_ret & H)%bind_ret. apply bind_ret in H as (t2 & E2 & H). apply bind_ret in H as (t3 & ->%call_ret & ->%call_ret).
  assert (calls t2 = calls run ++ [ActorSave (actor_dir (global_steps run)) (global_steps run)] ++
    (if use_critic cfg then [CriticSave (critic_dir (global_steps run)) (global_steps run)] else [])) as Ec.
  { destruct (use_critic cfg); [apply call_ret in E2 as ->; cbn; by rewrite <- app_assoc|]. by injection E2 as <-. }
  cbn. rewrite Ec. by rewrite <- !app_assoc.
Qed.

(** It is found again. *)
Lemma latest_found run r1 : async_save cfg = false → save_checkpoint run = Ret tt r1 →
  latest_saved (calls r1) (absolute (default_local_dir cfg)) = Some (absolute (step_folder (global_steps run))).
Proof.
  intros Ha Hs. rewrite (save_checkpoint_calls run r1 Ha Hs). set (n := global_steps run). unfold latest_saved.
  assert (last (omap (tracked (absolute (default_local_dir cfg))) (calls run ++ [ActorSave (actor_dir n) n] ++ (if use_critic cfg then [CriticSave (critic_dir n) n] else []) ++
    [SaveDataloader (data_file n); WriteLatest (path_join (default_local_dir cfg) "latest_checkpointed_iteration.txt") n])) = Some n) as ->.
  { rewrite !app_assoc, omap_app. cbn [omap list_omap tracked]. rewrite absolute_join by done. rewrite bool_decide_eq_true_2 by done. apply last_snoc. }
  cbn [mbind option_bind]. cbv zeta. rewrite <- absolute_join by done. fold (step_folder n).
  assert (existsb (saved_below (absolute (step_folder n))) [ActorSave (actor_dir n) n] = true) as Hx.
  { cbn [existsb saved_below]. rewrite orb_false_r. apply bool_decide_eq_true. unfold actor_dir. rewrite absolute_join by done.
    unfold step_folder. rewrite absolute_join by done. destruct (step_path_prefix (absolute (default_local_dir cfg)) n) as [p ->]. rewrite join_actor.
    exists "actor". rewrite !append_assoc.
    replace (p ++ "global_step_" ++ str_of_Z n ++ "/actor")%string with ((p ++ "global_step_" ++ str_of_Z n ++ "/") ++ "actor")%string by (by rewrite !append_assoc).
    apply strip_prefix_app. }
  rewrite existsb_app, existsb_app, Hx. cbn [orb]. by rewrite orb_true_r.
Qed.

End resume.

(** ** A small run *)

Definition demo_config : TrainerConfig := {|
  colocate := true; nixl_mode := true; val_before_train := true; val_only := false; use_critic := true;
  use_reference_policy := false; ref_in_actor := false; bypass_mode := false; actor_async_calls := true; balance_batch := false; launch_reward_fn_async := false; critic_warmup := 0; save_freq := 2; test_freq := 1;
  rollout_data_dir := false; async_save := false; default_local_dir := "/ckpt"; has_hdfs_dir := false;
  resume_mode := "auto"; resume_from_path := None; batch_agg_mode := TRAJECTORY_AGG_MODE;
  actor_update := mkUpdate 1 1 false 0; critic_update := mkUpdate 1 1 false 0; rollout_n := 1; train_n := 1; alg_rollout_n := 1;
  total_training_steps := 2; validate_tp := [1; 1]%nat; rollout_tp := [1]%nat; actor_world_size := 2; ps_world_size := 1;
  validate_dp_size := 1; val_batch_num := 1; actor_dp := 1; critic_dp := 1; has_elastic_executor := false; has_env_workers := false |}.

Definition with_warmup (n : Z) (c : TrainerConfig) : TrainerConfig := {|
  colocate := colocate c; nixl_mode := nixl_mode c; val_before_train := val_before_train c; val_only := val_only c; use_critic := use_critic c;
  use_reference_policy := use_reference_policy c; ref_in_actor := ref_in_actor c; bypass_mode := bypass_mode c; actor_async_calls := actor_async_calls c; balance_batch := balance_batch c; launch_reward_fn_async := launch_reward_fn_async c;
  critic_warmup := n; save_freq := save_freq c; test_freq := test_freq c; rollout_data_dir := rollout_data_dir c; async_save := async_save c;
  default_local_dir := default_local_dir c; has_hdfs_dir := has_hdfs_dir c; resume_mode := resume_mode c; resume_from_path := resume_from_path c;
  batch_agg_mode := batch_agg_mode c; actor_update := actor_update c; critic_update := critic_update c; rollout_n := rollout_n c; train_n := train_n c;
  alg_rollout_n := alg_rollout_n c; total_training_steps := total_training_steps c; validate_tp := validate_tp c; rollout_tp := rollout_tp c;
  actor_world_size := actor_world_size c; ps_world_size := ps_world_size c; validate_dp_size := validate_dp_size c; val_batch_num := val_batch_num c;
  actor_dp := actor_dp c; critic_dp := critic_dp c; has_elastic_executor := has_elastic_executor c; has_env_workers := has_env_workers c |}.

Definition demo_batch (b : Z) : Batch :=
  mkBatch [str_of_Z b ++ "_0"; str_of_Z b ++ "_1"]%string [mkTag false (Some b); mkTag false (Some b)] "train" [].

Definition demo_env (c : TrainerConfig) (latest : option string) : TrainerEnv := {|
  cfg := c; cwd := "/work"; find_latest_ckpt_path := λ _, latest; path_exists := λ _, true; fails := λ _ _, None; rejects := λ _ _, [];
  batch_of := demo_batch; chunk_of := λ b k, (demo_batch b, bool_decide (k = 1)%nat); validation_batch := λ n, demo_batch (100 + Z.of_nat n);
  select_keys := λ b keys, mkBatch keys [] (b_partition b) []; concat_batches := λ bs, mkBatch (bs ≫= b_keys) (bs ≫= b_tags) "train" [];
  upsample := λ b _, b; reorder := λ b _, b; workload := λ _, []; balanced := λ _ _, []; shuffled := λ _ l, l; esi_close := λ _, false |}.

Definition no_chunks : ChunkConfig := mkChunk None 1 2 1 false None.

Definition demo_run (latest : option string) : outcome Trainer bool :=
  @fit (demo_env demo_config latest) no_chunks "recompute" 3 3 (new_trainer demo_config ["v0"; "v1"]).

(** A run from scratch: two steps, each with one push. *)
Example demo_run_ends : result (demo_run None) = inr true ∧ buffers (calls (final (demo_run None))) = [0; 1] ∧
  pushes (calls (final (demo_run None))) = [Updated true; Updated true].
Proof. split_and!; vm_compute; reflexivity. Qed.

(** A run resumed after the first step starts with buffer one, not zero. *)
Example resumed_buffer_not_zero : result (demo_run (Some "/ckpt/global_step_1")) = inr true ∧
  buffers (calls (final (demo_run (Some "/ckpt/global_step_1")))) = [1].
Proof. split; vm_compute; reflexivity. Qed.

Lemma actor_works_awake_witness : let E := demo_env demo_config (Some "/ckpt/global_step_1") in
  let t0 := new_trainer cfg ["v0"; "v1"] in
  worked_awake (negb (is_rollout_mode_in_actor t0))
    (final (((if true : bool then resume_load_and_push_to_ps else mret tt) ;; fit no_chunks "recompute" 3 3) t0)).
Proof. intros E. exact (actor_works_awake no_chunks "recompute" 3 3 ["v0"; "v1"] true (λ _, eq_refl)). Defined.

Definition demo_step (c : TrainerConfig) (strategy : option (string * string)) : outcome Trainer (option Batch) :=
  @run_step (demo_env c None) 3 strategy 0 (with_global_steps 1 (new_trainer c ["v0"; "v1"])).

Lemma model_pushed_once_witness : ∃ n, pushes (calls (final (demo_step demo_config (Some ("pre_step", "mini_batch"))))) = replicate n (Updated false) ++ [Updated true].
Proof.
  pose proof (@model_pushed_once (demo_env demo_config None) 3 (Some ("pre_step", "mini_batch")) 0 (with_global_steps 1 (new_trainer demo_config ["v0"; "v1"]))
    (match demo_step demo_config (Some ("pre_step", "mini_batch")) with Ret (Some b) _ => b | _ => demo_batch 0 end)
    (final (demo_step demo_config (Some ("pre_step", "mini_batch"))))) as H.
  assert (bool_decide (@critic_warmup demo_config ≤ 1) = true) as Hw by reflexivity.
  destruct H as [_ H]; [right; split; reflexivity|vm_compute; reflexivity|]. exact H.
Defined.

Lemma fit_loop_terminates_witness : let E := demo_env demo_config None in
  match fit_loop 2 1 (Some ("recompute", "mini_batch")) (with_global_steps 2 (new_trainer demo_config ["v0"; "v1"])) with
  | Ret r t' => r = true ∧ global_steps t' = total_training_steps cfg + 1 ∧ buffers (calls t') = [] ++ zrange (2 - 1) (total_training_steps cfg)
  | Raise _ _ => True
  end.
Proof.
  intros E. apply (fit_loop_terminates 2 1 (Some ("recompute", "mini_batch")) (with_global_steps 2 (new_trainer demo_config ["v0"; "v1"])));
    [|vm_compute; discriminate|vm_compute; lia].
  intros b. exists 1%nat. split; [lia|reflexivity].
Defined.

(** Step two is saved, and the next run resumes it with the actor asleep. *)
Definition demo_saved : Trainer := final (@save_checkpoint (demo_env demo_config None) (with_global_steps 2 (new_trainer demo_config []))).
Definition demo_resume_env : TrainerEnv := demo_env demo_config (@latest_saved (demo_env demo_config None) (calls demo_saved) "/ckpt").


(** ** Where the trainer and its comments disagree *)

Definition with_resume_path (p : string) (c : TrainerConfig) : TrainerConfig := {|
  colocate := colocate c; nixl_mode := nixl_mode c; val_before_train := val_before_train c; val_only := val_only c; use_critic := use_critic c;
  use_reference_policy := use_reference_policy c; ref_in_actor := ref_in_actor c; bypass_mode := bypass_mode c; actor_async_calls := actor_async_calls c; balance_batch := balance_batch c; launch_reward_fn_async := launch_reward_fn_async c;
  critic_warmup := critic_warmup c; save_freq := save_freq c; test_freq := test_freq c; rollout_data_dir := rollout_data_dir c; async_save := async_save c;
  default_local_dir := default_local_dir c; has_hdfs_dir := has_hdfs_dir c; resume_mode := "resume_path"; resume_from_path := Some p;
  batch_agg_mode := batch_agg_mode c; actor_update := actor_update c; critic_update := critic_update c; rollout_n := rollout_n c; train_n := train_n c;
  alg_rollout_n := alg_rollout_n c; total_training_steps := total_training_steps c; validate_tp := validate_tp c; rollout_tp := rollout_tp c;
  actor_world_size := actor_world_size c; ps_world_size := ps_world_size c; validate_dp_size := validate_dp_size c; val_batch_num := val_batch_num c;
  actor_dp := actor_dp c; critic_dp := critic_dp c; has_elastic_executor := has_elastic_executor c; has_env_workers := has_env_workers c |}.

(** A resume path with a trailing slash: start-up loads and pushes the checkpoint
    under version five, then the training loop cannot read the step. *)
Example trailing_slash_resume :
  let c := with_resume_path "/ckpt/global_step_5/" demo_config in let E := demo_env c None in
  let o := resume_load_and_push_to_ps (new_trainer c []) in
  result o = inr tt ∧ calls (final o) = [ActorWakeUp; ActorLoad "/ckpt/global_step_5/actor"; PsInitVersion 4; ActorPush; ActorSleep] ∧
  result (load_checkpoint (final o)) = inl ValueError.
Proof. cbv zeta. split_and!; vm_compute; reflexivity. Qed.

(** During the critic's warm-up the chunks of a step reach the concatenation with
    different values of the dispatch controls, which the actor's updates remove. *)
Definition chunk_controls (warmup : Z) : Res (option (list (option info_value))) :=
  let E := demo_env (with_warmup warmup demo_config) None in
  match chunk_loop 3 true 0 0 [] (with_global_steps 1 (new_trainer demo_config [])) with
  | Ret chunks _ => inr (option_map (map (λ b, assoc "advance_lr_scheduler" (b_extra b))) chunks)
  | Raise e _ => inl e
  end.

Example warmup_chunks_differ :
  chunk_controls 0 = inr (Some [None; None]) ∧ chunk_controls 5 = inr (Some [Some (VBool false); Some (VBool true)]).
Proof. split; vm_compute; reflexivity. Qed.

Lemma unknown_scope_never_trains_witness : let E := demo_env demo_config None in
  match run_step 3 (Some ("full_step", "mini_batch")) 0 (with_global_steps 1 (new_trainer demo_config [])) with
  | Ret _ t' => pushes (calls t') = [] | Raise _ _ => True end.
Proof. intros E. apply (unknown_scope_never_trains 3 "full_step" "mini_batch" 0 (with_global_steps 1 (new_trainer demo_config []))); discriminate. Defined.

Example unknown_scope_returns : let E := demo_env demo_config None in
  match run_step 3 (Some ("full_step", "mini_batch")) 0 (with_global_steps 1 (new_trainer demo_config [])) with
  | Ret (Some _) t' => pushes (calls t') = [] | _ => False end.
Proof. cbv zeta. vm_compute. reflexivity. Qed.
