(* ===== verification/Tensors.v ===== *)
(** * Tensors

    The interface of the tensor library that the converters call: slicing,
    selecting, reshaping, concatenating.  An operation may raise; what it returns
    when its arguments are in range is stated by the laws, element by element.
    [Views] is an instance, on which the converters run. *)

From S2P Require Import Prelude.
From S2P Require Import Sharding.

#[local] Open Scope list_scope.
#[local] Open Scope Z_scope.

(** ** Indices *)

(** [idx] addresses an element of a tensor of shape [s]. *)
Definition valid (s idx : list Z) : Prop := Forall2 (λ n i, 0 ≤ i < n) s idx.

(** The position of an element in row-major order. *)
Fixpoint ravel (s idx : list Z) : Z :=
  match s, idx with
  | _ :: s, i :: idx => i * product s + ravel s idx
  | _, _ => 0
  end.

Fixpoint unravel (s : list Z) (k : Z) : list Z :=
  match s with
  | [] => []
  | _ :: s => k / product s :: unravel s (k mod product s)
  end.

(** ** The interface *)

Class TensorOps := {
  tensor : Type;
  elt : Type;
  shape : tensor → list Z;
  elem : tensor → list Z → elt;
  narrow : nat → Z → Z → tensor → Res tensor;
  select : Z → tensor → Res tensor;
  reshape : list Z → tensor → Res tensor;
  transpose : nat → nat → tensor → Res tensor;
  cat : nat → list tensor → Res tensor;
  index_select : nat → list Z → tensor → Res tensor;
}.

(** [shape[d]]; a missing dimension raises. *)
Definition dim_size `{TensorOps} (d : nat) (t : tensor) : Res Z :=
  match shape t !! d with Some n => inr n | None => inl IndexError end.

Definition ndim `{TensorOps} (t : tensor) : nat := length (shape t).

(** [u] is [t] restricted along [d] to [len] positions from [start]. *)
Record is_narrow `{TensorOps} (d : nat) (start len : Z) (t u : tensor) : Prop := {
  narrow_dim : ∃ n, shape t !! d = Some n ∧ 0 ≤ start ∧ 0 ≤ len ∧ start + len ≤ n;
  narrow_shape : shape u = <[d := len]> (shape t);
  narrow_elem : ∀ idx, valid (shape u) idx → elem u idx = elem t (alter (Z.add start) d idx);
}.

(** [u] has the elements of [t] in the same row-major order. *)
Record is_reshape `{TensorOps} (s : list Z) (t u : tensor) : Prop := {
  reshape_shape : shape u = s;
  reshape_elem : ∀ idx idx', valid (shape u) idx → valid (shape t) idx' →
    ravel (shape u) idx = ravel (shape t) idx' → elem u idx = elem t idx';
}.

(** Two tensors with the same elements. *)
Definition same `{TensorOps} (t u : tensor) : Prop :=
  shape t = shape u ∧ ∀ idx, valid (shape t) idx → elem t idx = elem u idx.

(** The element of a concatenation along [d] at [idx]. *)
Fixpoint cat_elem `{TensorOps} (d : nat) (ts : list tensor) (idx : list Z) : option elt :=
  match ts with
  | [] => None
  | t :: ts =>
      match shape t !! d, idx !! d with
      | Some n, Some i => if bool_decide (i < n) then Some (elem t idx) else cat_elem d ts (alter (λ i, i - n) d idx)
      | _, _ => None
      end
  end.

Definition sum_Z (l : list Z) : Z := foldr Z.add 0 l.

(** The shapes agree outside [d]. *)
Definition cat_compatible `{TensorOps} (d : nat) (ts : list tensor) : Prop :=
  ∃ s, (d < length s)%nat ∧ Forall (λ t, <[d := 0]> (shape t) = <[d := 0]> s ∧ length (shape t) = length s) ts.

Class TensorLaws `{TensorOps} := {
  elem_shape t : Forall (Z.le 0) (shape t);
  narrow_law d start len t n : shape t !! d = Some n → 0 ≤ start → 0 ≤ len → start + len ≤ n →
    ∃ u, narrow d start len t = inr u ∧ is_narrow d start len t u;
  select_law i t n s : shape t = n :: s → 0 ≤ i < n →
    ∃ u, select i t = inr u ∧ shape u = s ∧ ∀ idx, valid s idx → elem u idx = elem t (i :: idx);
  reshape_law s t : Forall (Z.le 0) s → product s = product (shape t) → ∃ u, reshape s t = inr u ∧ is_reshape s t u;
  (** A single [-1] stands for the size that keeps the number of elements. *)
  reshape_infer s s' n t : Forall (Z.lt 0) s → Forall (Z.lt 0) s' → product (shape t) = product (s ++ n :: s') →
    reshape (s ++ (-1) :: s') t = reshape (s ++ n :: s') t;
  cat_law d t ts : cat_compatible d (t :: ts) →
    ∃ u, cat d (t :: ts) = inr u ∧
      shape u = <[d := sum_Z (omap (λ t, shape t !! d) (t :: ts))]> (shape t) ∧
      ∀ idx, valid (shape u) idx → cat_elem d (t :: ts) idx = Some (elem u idx);
  cat_raises d t ts : ¬ cat_compatible d (t :: ts) → ∃ e, cat d (t :: ts) = inl e;
  transpose_law t a b s : shape t = a :: b :: s →
    ∃ u, transpose 0 1 t = inr u ∧ shape u = b :: a :: s ∧
      ∀ i j idx, valid (shape u) (j :: i :: idx) → elem u (j :: i :: idx) = elem t (i :: j :: idx);
  transpose_inner_law t n a b s : shape t = n :: a :: b :: s →
    ∃ u, transpose 1 2 t = inr u ∧ shape u = n :: b :: a :: s ∧
      ∀ k i j idx, valid (shape u) (k :: j :: i :: idx) → elem u (k :: j :: i :: idx) = elem t (k :: i :: j :: idx);
}.

(** ** Indices: lemmas *)

Lemma product_cons n s : product (n :: s) = n * product s.
Proof.
  unfold product. assert (∀ l a b, foldl Z.mul (a * b) l = a * foldl Z.mul b l) as H.
  { induction l as [|x l IH]; intros a b; [done|]. cbn. by rewrite <- IH, Z.mul_assoc. }
  cbn. rewrite <- (Z.mul_1_r n) at 2. rewrite <- H. f_equal. lia.
Qed.

Lemma product_nonneg s : Forall (Z.le 0) s → 0 ≤ product s.
Proof. induction 1 as [|n s Hn Hs IH]; [done|]. rewrite product_cons. lia. Qed.

Lemma valid_length s idx : valid s idx → length idx = length s.
Proof. intros H. symmetry. by eapply Forall2_length. Qed.

Lemma valid_cons n s i idx : valid (n :: s) (i :: idx) ↔ 0 ≤ i < n ∧ valid s idx.
Proof. unfold valid. split; [intros H; by inversion H|intros []; by constructor]. Qed.

Lemma ravel_bounds s idx : valid s idx → 0 ≤ ravel s idx < product s.
Proof.
  induction 1 as [|n i s idx Hi H IH]; [done|]. rewrite product_cons. cbn. nia.
Qed.

Lemma ravel_inj s idx idx' : valid s idx → valid s idx' → ravel s idx = ravel s idx' → idx = idx'.
Proof.
  intros H. revert idx'. induction H as [|n i s idx Hi H IH]; intros idx' H' E; [by inversion H'|].
  inversion H' as [|? i' ? idx0 Hi' H0]; subst. cbn in E.
  pose proof (ravel_bounds _ _ H) as B. pose proof (ravel_bounds _ _ H0) as B'.
  assert (i = i') as -> by nia. f_equal. apply IH; [done|lia].
Qed.

Lemma unravel_valid s k : Forall (Z.le 0) s → 0 ≤ k < product s → valid s (unravel s k).
Proof.
  intros Hs. revert k. induction Hs as [|n s Hn Hs IH]; intros k Hk; [by constructor|].
  rewrite product_cons in Hk. pose proof (product_nonneg s Hs). assert (0 < product s) by nia. cbn. apply valid_cons. split.
  - split; [by apply Z.div_pos; lia|]. apply Z.div_lt_upper_bound; lia.
  - apply IH. by apply Z.mod_pos_bound.
Qed.

Lemma ravel_unravel s k : Forall (Z.le 0) s → 0 ≤ k < product s → ravel s (unravel s k) = k.
Proof.
  intros Hs. revert k. induction Hs as [|n s Hn Hs IH]; intros k Hk; [cbn in *; lia|].
  rewrite product_cons in Hk. pose proof (product_nonneg s Hs). assert (0 < product s) by nia. cbn.
  rewrite IH by by apply Z.mod_pos_bound. pose proof (Z.div_mod k (product s)). lia.
Qed.

(** Merging the first two dimensions. *)
Lemma ravel_merge a b s i j idx : ravel (a :: b :: s) (i :: j :: idx) = ravel (a * b :: s) (i * b + j :: idx).
Proof. cbn [ravel]. rewrite product_cons. lia. Qed.

Lemma valid_merge a b s i j idx : valid (a :: b :: s) (i :: j :: idx) → valid (a * b :: s) (i * b + j :: idx).
Proof. rewrite !valid_cons. intros (Hi & Hj & H). split; [nia|done]. Qed.

(** Shifting one coordinate of an index of a slice. *)
Lemma valid_alter d k l l' s idx : (d < length s)%nat → 0 ≤ k → k + l ≤ l' → valid (<[d := l]> s) idx →
  valid (<[d := l']> s) (alter (Z.add k) d idx).
Proof.
  unfold valid. intros Hd Hk Hl Hi. apply Forall2_lookup. intros j. rewrite Forall2_lookup in Hi. specialize (Hi j).
  destruct (decide (d = j)) as [->|Hne].
  - rewrite list_lookup_alter_eq. rewrite !list_lookup_insert_eq in * by done. inversion Hi as [? i Hb Ei|]. cbn. constructor. lia.
  - rewrite list_lookup_alter_ne by done. by rewrite !list_lookup_insert_ne in * by done.
Qed.

Lemma valid_shift d k l n s idx : s !! d = Some n → 0 ≤ k → k + l ≤ n → valid (<[d := l]> s) idx → valid s (alter (Z.add k) d idx).
Proof.
  intros Hn Hk Hl Hi. rewrite <- (list_insert_id s d n) by done. eapply valid_alter; [by eapply lookup_lt_Some|done|done|exact Hi].
Qed.

Lemma alter_add a b d (idx : list Z) : alter (Z.add a) d (alter (Z.add b) d idx) = alter (Z.add (a + b)) d idx.
Proof. rewrite list_alter_alter_eq. apply list_alter_ext; [|done]. intros x _. cbn. lia. Qed.

(** ** Views: lemmas *)

Section views.
Context `{TensorOps}.

Lemma same_refl t : same t t.
Proof. by split. Qed.
Lemma same_sym t u : same t u → same u t.
Proof. intros [Hs He]. split; [done|]. intros idx Hi. symmetry. apply He. by rewrite Hs. Qed.
Lemma same_trans t u v : same t u → same u v → same t v.
Proof. intros [Hs He] [Hs' He']. split; [congruence|]. intros idx Hi. rewrite He by done. apply He'. by rewrite <- Hs. Qed.

#[export] Instance same_equivalence : Equivalence same.
Proof. split; [exact same_refl|exact same_sym|exact same_trans]. Qed.

Lemma narrow_unique d start len t u v : is_narrow d start len t u → is_narrow d start len t v → same u v.
Proof. intros [_ Hs He] [_ Hs' He']. split; [congruence|]. intros idx Hi. rewrite He, He'; [done|congruence|done]. Qed.

Lemma is_narrow_same d start len t t' u u' :
  same t t' → same u u' → is_narrow d start len t u → is_narrow d start len t' u'.
Proof.
  intros [Hts Hte] [Hus Hue] [(n & Hn & H0 & H1 & H2) Hs He]. split.
  - exists n. by rewrite <- Hts.
  - by rewrite <- Hus, <- Hts.
  - intros idx Hi. rewrite <- Hue by by rewrite Hus. rewrite He by by rewrite Hus. apply Hte.
    rewrite <- Hus, Hs in Hi. by eapply valid_shift.
Qed.

Lemma narrow_trans d s l s' l' t u v : is_narrow d s l t u → is_narrow d s' l' u v → is_narrow d (s + s') l' t v.
Proof.
  intros [(n & Hn & H0 & H1 & H2) Hs He] [(n' & Hn' & H0' & H1' & H2') Hs' He'].
  rewrite Hs in Hn'. rewrite list_lookup_insert_eq in Hn' by by eapply lookup_lt_Some. injection Hn' as <-. split.
  - exists n. split_and!; [done|lia|done|lia].
  - by rewrite Hs', Hs, list_insert_insert_eq.
  - intros idx Hi. rewrite He' by done. rewrite He; [f_equal; apply alter_add|]. rewrite Hs.
    eapply valid_alter; [by eapply lookup_lt_Some|done|exact H2'|]. by rewrite Hs', Hs, list_insert_insert_eq in Hi.
Qed.

(** A slice of a slice, along the first dimension. *)
Lemma sub_narrow d s l t u s' l' v : is_narrow d s l t u → is_narrow d s' l' t v → s ≤ s' → s' + l' ≤ s + l → 0 ≤ s' →
  is_narrow d (s' - s) l' u v.
Proof.
  intros [(n & Hn & H0 & H1 & H2) Hs He] [(n' & Hn' & H0' & H1' & H2') Hs' He'] Hle Hle' Hp. simplify_eq. split.
  - exists l. rewrite Hs, list_lookup_insert_eq by by eapply lookup_lt_Some. split_and!; [done|lia|done|lia].
  - by rewrite Hs', Hs, list_insert_insert_eq.
  - intros idx Hi. rewrite He' by done. rewrite He; [rewrite alter_add; by replace (s + (s' - s)) with s' by lia|]. rewrite Hs.
    eapply valid_alter; [by eapply lookup_lt_Some|lia|..|by rewrite <- Hs']. lia.
Qed.
End views.

(** ** Concatenation: lemmas *)

Section concatenation.
Context `{TensorOps}.

Definition compatible_with (d : nat) (s : list Z) (t : tensor) : Prop := <[d := 0]> (shape t) = <[d := 0]> s ∧ length (shape t) = length s.

Lemma cat_compatible_head d t ts :
  cat_compatible d (t :: ts) ↔ (d < length (shape t))%nat ∧ Forall (compatible_with d (shape t)) ts.
Proof.
  unfold compatible_with. split.
  - intros (s & Hd & Hs). apply Forall_cons in Hs as [[Ht Hl] Hs]. split; [lia|].
    eapply Forall_impl; [exact Hs|]. intros u [Hu Hl']. cbn. split; congruence.
  - intros [Hd Hs]. exists (shape t). split; [done|]. by constructor.
Qed.

Lemma cat_elem_total d s ts idx :
  (d < length s)%nat → Forall (compatible_with d s) ts → Forall (λ t, Forall (Z.le 0) (shape t)) ts →
  valid (<[d := sum_Z (omap (λ t, shape t !! d) ts)]> s) idx → is_Some (cat_elem d ts idx).
Proof.
  intros Hd. revert idx. induction ts as [|t ts IH]; intros idx Hc Hn Hv.
  { exfalso. unfold valid in Hv. rewrite Forall2_lookup in Hv. specialize (Hv d). rewrite list_lookup_insert_eq in Hv by done.
    inversion Hv as [? i Hb|]. simpl in Hb. lia. }
  apply Forall_cons in Hc as [[Hc Hl] Hcs], Hn as [Hn Hns]. cbn [cat_elem].
  destruct (lookup_lt_is_Some_2 (shape t) d) as [n En]; [lia|]. rewrite En.
  pose proof (valid_length _ _ Hv) as Hlen. rewrite length_insert in Hlen.
  destruct (lookup_lt_is_Some_2 idx d) as [i Ei]; [lia|]. rewrite Ei. case_bool_decide as Hi; [by eexists|].
  apply IH; [done|done|]. unfold valid in *. apply Forall2_lookup. intros k. rewrite Forall2_lookup in Hv. specialize (Hv k).
  destruct (decide (d = k)) as [->|Hne].
  - rewrite list_lookup_alter_eq, Ei. rewrite list_lookup_insert_eq in * by done. rewrite Ei in Hv. inversion Hv as [? ? Hb|]; subst.
    simpl in *. rewrite En in Hb. simpl in Hb. constructor. unfold omap. lia.
  - rewrite list_lookup_alter_ne by done. by rewrite !list_lookup_insert_ne in * by done.
Qed.
End concatenation.

(** ** Parts of a concatenation *)

Section parts.
Context `{TensorLaws}.

Definition sizes_at (d : nat) (ts : list tensor) : list Z := omap (λ t, shape t !! d) ts.

Lemma sizes_at_cons d t ts n : shape t !! d = Some n → sizes_at d (t :: ts) = n :: sizes_at d ts.
Proof. intros E. unfold sizes_at. simpl. by rewrite E. Qed.

Lemma size_nonneg d t n : shape t !! d = Some n → 0 ≤ n.
Proof. intros E. pose proof (elem_shape t) as Hs. rewrite Forall_lookup in Hs. exact (Hs d n E). Qed.

Lemma sum_sizes_nonneg d ts : 0 ≤ sum_Z (sizes_at d ts).
Proof.
  induction ts as [|t ts IH]; [done|]. unfold sizes_at in *. simpl. destruct (shape t !! d) as [n|] eqn:E; [|done].
  simpl. pose proof (size_nonneg d t n E). unfold omap in IH. lia.
Qed.

Lemma cat_elem_at d j ts p n idx :
  Forall (λ t, (d < length (shape t))%nat) ts → ts !! j = Some p → shape p !! d = Some n → valid (shape p) idx →
  cat_elem d ts (alter (Z.add (sum_Z (sizes_at d (take j ts)))) d idx) = Some (elem p idx).
Proof.
  intros Hd Hj Hn Hv. pose proof (valid_length _ _ Hv) as Hlen. revert j Hj. induction Hd as [|t ts Ht Hts IH]; intros j Hj; [done|].
  destruct (lookup_lt_is_Some_2 (shape t) d Ht) as [m Em].
  assert (is_Some (idx !! d)) as [i Ei] by (apply lookup_lt_is_Some_2; rewrite Hlen; by eapply lookup_lt_Some).
  assert (0 ≤ i < n) as Hi. { unfold valid in Hv. rewrite Forall2_lookup in Hv. specialize (Hv d). rewrite Hn, Ei in Hv. by inversion Hv. }
  cbn [cat_elem]. rewrite Em, list_lookup_alter_eq, Ei. cbn [fmap option_fmap option_map]. destruct j as [|j]; cbn in Hj.
  - injection Hj as ->. assert (m = n) as -> by congruence. cbn [take]. change (sum_Z (sizes_at d [])) with 0.
    rewrite bool_decide_eq_true_2 by lia. do 2 f_equal. rewrite <- (list_alter_id (λ x, x) idx d) at 2 by done.
    apply list_alter_ext; [|done]. intros x _. lia.
  - cbn [take]. rewrite (sizes_at_cons d t _ m) by done. cbn [sum_Z foldr]. fold (sum_Z (sizes_at d (take j ts))).
    pose proof (sum_sizes_nonneg d (take j ts)). rewrite bool_decide_eq_false_2 by lia.
    rewrite list_alter_alter_eq. rewrite <- (IH j Hj). f_equal. apply list_alter_ext; [|done]. intros x _. cbn. lia.
Qed.

Lemma sum_sizes_take d j ts p n : ts !! j = Some p → shape p !! d = Some n →
  sum_Z (sizes_at d (take j ts)) + n ≤ sum_Z (sizes_at d ts).
Proof.
  revert j. induction ts as [|t ts IH]; intros j Hj Hn; [done|]. destruct j as [|j]; cbn in Hj.
  - injection Hj as ->. cbn [take]. change (sum_Z (sizes_at d [])) with 0. rewrite (sizes_at_cons d p ts n) by done. cbn [sum_Z foldr].
    fold (sum_Z (sizes_at d ts)). pose proof (sum_sizes_nonneg d ts). lia.
  - cbn [take]. specialize (IH j Hj Hn). destruct (shape t !! d) as [m|] eqn:Em.
    + rewrite !(sizes_at_cons d t _ m) by done. cbn [sum_Z foldr]. fold (sum_Z (sizes_at d (take j ts))) (sum_Z (sizes_at d ts)). lia.
    + unfold sizes_at in *. simpl. rewrite Em. unfold omap in IH. exact IH.
Qed.

(** Every part of a concatenation is a slice of it. *)
Lemma cat_part d t ts u j p n : cat_compatible d (t :: ts) → cat d (t :: ts) = inr u → (t :: ts) !! j = Some p → shape p !! d = Some n →
  is_narrow d (sum_Z (sizes_at d (take j (t :: ts)))) n u p.
Proof.
  intros Hc Eu Hj Hn. destruct (cat_law d t ts Hc) as (u' & Eu' & Hs & He). rewrite Eu in Eu'. injection Eu' as <-.
  apply cat_compatible_head in Hc as [Hd Hts]. pose proof (sum_sizes_take d j (t :: ts) p n Hj Hn) as Hle.
  assert (compatible_with d (shape t) p) as [Hp Hl].
  { destruct j as [|j]; cbn in Hj; [injection Hj as ->; by split|]. rewrite Forall_lookup in Hts. by eapply Hts. }
  pose proof (sum_sizes_nonneg d (take j (t :: ts))). pose proof (size_nonneg d p n Hn).
  assert (shape p = <[d := n]> (shape u)) as Es.
  { rewrite Hs, list_insert_insert_eq, <- (list_insert_id (shape p) d n) by done.
    rewrite <- (list_insert_insert_eq (shape p) d n 0), Hp, list_insert_insert_eq. done. }
  split.
  - exists (sum_Z (sizes_at d (t :: ts))). rewrite Hs, list_lookup_insert_eq by done. split_and!; [done|lia..].
  - done.
  - intros idx Hv. assert (valid (shape u) (alter (Z.add (sum_Z (sizes_at d (take j (t :: ts))))) d idx)) as Hv'.
    { eapply (valid_shift d _ n (sum_Z (sizes_at d (t :: ts)))); [by rewrite Hs, list_lookup_insert_eq|done|lia|by rewrite <- Es]. }
    specialize (He _ Hv'). rewrite (cat_elem_at d j (t :: ts) p n idx) in He; [by injection He|..|done|done|done].
    constructor; [done|]. eapply Forall_impl; [exact Hts|]. intros x [_ Hx]. cbn. lia.
Qed.
End parts.

(** ** An instance: shapes with a reading function *)

Module Views.
Record view := mkView { v_shape : list Z; v_elem : list Z → Z }.

Definition dims (v : view) : list Z := Z.max 0 <$> v_shape v.

Definition swap (i j : nat) (l : list Z) : list Z :=
  match l !! i, l !! j with Some x, Some y => <[i := y]> (<[j := x]> l) | _, _ => l end.

(** The size that [-1] stands for. *)
Fixpoint infer (n : Z) (s : list Z) : list Z :=
  match s with
  | [] => []
  | x :: s => if bool_decide (x = -1) then n / product s :: s else x :: infer (n / x) s
  end.

Definition view_narrow (d : nat) (start len : Z) (v : view) : Res view :=
  match dims v !! d with
  | Some n =>
      if bool_decide (0 ≤ start ∧ 0 ≤ len ∧ start + len ≤ n)
      then inr (mkView (<[d := len]> (dims v)) (λ idx, v_elem v (alter (Z.add start) d idx)))
      else inl RuntimeError
  | None => inl IndexError
  end.

Definition view_select (i : Z) (v : view) : Res view :=
  match dims v with
  | n :: s => if bool_decide (0 ≤ i < n) then inr (mkView s (λ idx, v_elem v (i :: idx))) else inl IndexError
  | [] => inl IndexError
  end.

Definition view_reshape (s : list Z) (v : view) : Res view :=
  let s := infer (product (dims v)) s in
  if bool_decide (Forall (Z.le 0) s ∧ product s = product (dims v))
  then inr (mkView s (λ idx, v_elem v (unravel (dims v) (ravel s idx)))) else inl RuntimeError.

Definition view_transpose (i j : nat) (v : view) : Res view :=
  inr (mkView (swap i j (dims v)) (λ idx, v_elem v (swap i j idx))).

Fixpoint view_cat_elem (d : nat) (vs : list view) (idx : list Z) : Z :=
  match vs with
  | [] => 0
  | v :: vs =>
      match dims v !! d, idx !! d with
      | Some n, Some i => if bool_decide (i < n) then v_elem v idx else view_cat_elem d vs (alter (λ i, i - n) d idx)
      | _, _ => 0
      end
  end.

Definition view_cat (d : nat) (vs : list view) : Res view :=
  match vs with
  | [] => inl RuntimeError
  | v :: rest =>
      if bool_decide ((d < length (dims v))%nat ∧ Forall (λ u, <[d := 0]> (dims u) = <[d := 0]> (dims v) ∧ length (dims u) = length (dims v)) rest)
      then inr (mkView (<[d := sum_Z (omap (λ u, dims u !! d) vs)]> (dims v)) (view_cat_elem d vs)) else inl RuntimeError
  end.

Definition view_index_select (d : nat) (indices : list Z) (v : view) : Res view :=
  match dims v !! d with
  | Some n =>
      if bool_decide (Forall (λ i, 0 ≤ i < n) indices)
      then inr (mkView (<[d := Z.of_nat (length indices)]> (dims v)) (λ idx, v_elem v (alter (λ i, default 0 (indices !! Z.to_nat i)) d idx)))
      else inl IndexError
  | None => inl IndexError
  end.

#[export] Instance views : TensorOps := {|
  tensor := view; elt := Z; shape := dims; elem := v_elem;
  narrow := view_narrow; select := view_select; reshape := view_reshape; transpose := view_transpose;
  cat := view_cat; index_select := view_index_select |}.

Lemma dims_nonneg v : Forall (Z.le 0) (dims v).
Proof. apply Forall_fmap, Forall_true. intros x. cbn. lia. Qed.

Lemma dims_id s f : Forall (Z.le 0) s → dims (mkView s f) = s.
Proof. intros Hs. unfold dims. cbn. induction Hs as [|n s Hn Hs IH]; [done|]. cbn. f_equal; [lia|exact IH]. Qed.

Lemma insert_nonneg d n s : 0 ≤ n → Forall (Z.le 0) s → Forall (Z.le 0) (<[d := n]> s).
Proof. intros Hn Hs. by apply Forall_insert. Qed.

Lemma infer_id n s : Forall (Z.le 0) s → infer n s = s.
Proof.
  intros Hs. revert n. induction Hs as [|x s Hx Hs IH]; intros n; [done|]. cbn [infer]. rewrite bool_decide_eq_false_2 by lia. by rewrite IH.
Qed.

Lemma product_pos s : Forall (Z.lt 0) s → 0 < product s.
Proof. induction 1 as [|n s Hn Hs IH]; [done|]. rewrite product_cons. lia. Qed.

Lemma product_app s s' : product (s ++ s') = product s * product s'.
Proof. induction s as [|n s IH]; [cbn [app]; change (product []) with 1; lia|]. cbn [app]. rewrite !product_cons, IH. lia. Qed.

Lemma infer_at s s' n m : Forall (Z.lt 0) s → Forall (Z.lt 0) s' → m = product (s ++ n :: s') → infer m (s ++ (-1) :: s') = s ++ n :: s'.
Proof.
  intros Hs Hs' ->. pose proof (product_pos _ Hs') as P'. induction Hs as [|x s Hx Hs IH]; cbn [app infer].
  - rewrite bool_decide_eq_true_2 by done. rewrite product_cons. by rewrite Z.div_mul by lia.
  - rewrite bool_decide_eq_false_2 by lia. f_equal. rewrite product_cons, Z.mul_comm, Z.div_mul by lia. exact IH.
Qed.

Lemma view_cat_elem_spec d vs idx x : cat_elem d vs idx = Some x → view_cat_elem d vs idx = x.
Proof.
  revert idx. induction vs as [|v vs IH]; intros idx; [done|]. cbn [cat_elem view_cat_elem]. change (shape v) with (dims v).
  destruct (dims v !! d), (idx !! d); try done. case_bool_decide; [by intros [= <-]|apply IH].
Qed.

Lemma cat_sizes_nonneg d (vs : list view) : 0 ≤ sum_Z (omap (λ u, dims u !! d) vs).
Proof.
  unfold omap in *. induction vs as [|v vs IH]; [done|]. simpl. pose proof (dims_nonneg v) as Hn. destruct (dims v !! d) as [n|] eqn:E; [|done].
  simpl. rewrite Forall_lookup in Hn. specialize (Hn d n E). cbn in Hn. lia.
Qed.

#[export] Instance views_laws : TensorLaws.
Proof.
  split; cbn [tensor shape elem elt narrow select reshape transpose cat views].
  - exact dims_nonneg.
  - intros d start len t n Hn H0 H1 H2. unfold view_narrow. rewrite Hn, bool_decide_eq_true_2 by done. eexists. split; [done|].
    split; cbn [shape elem views]; [by exists n|by rewrite dims_id by (apply insert_nonneg; [done|apply dims_nonneg])|done].
  - intros i t n s Hs Hi. unfold view_select. rewrite Hs, bool_decide_eq_true_2 by done. eexists. split; [done|]. split; [|done].
    apply (dims_id s). pose proof (dims_nonneg t) as Hd. rewrite Hs in Hd. by inversion Hd.
  - intros s t Hs Hp. unfold view_reshape. rewrite infer_id by done. rewrite bool_decide_eq_true_2 by done. eexists. split; [done|].
    split; cbn [shape elem views]; [by rewrite dims_id|]. intros idx idx' Hv Hv' E. cbn. rewrite dims_id in * by done. f_equal.
    rewrite E. apply (ravel_inj (dims t)); [apply unravel_valid; [apply dims_nonneg|by apply ravel_bounds]|done|].
    apply ravel_unravel; [apply dims_nonneg|by apply ravel_bounds].
  - intros s s' n t Hs Hs' Hp. unfold view_reshape. rewrite (infer_at s s' n) by done.
    rewrite (infer_id _ (s ++ n :: s')); [done|]. pose proof (product_pos _ Hs). pose proof (product_pos _ Hs').
    assert (0 ≤ n) as Hn. { pose proof (product_nonneg _ (dims_nonneg t)) as Hd. rewrite Hp, product_app, product_cons in Hd. nia. }
    apply Forall_app. split; [eapply Forall_impl; [exact Hs|]; cbn; lia|]. constructor; [done|]. eapply Forall_impl; [exact Hs'|]. cbn. lia.
  - intros d t ts Hc. pose proof (proj1 (cat_compatible_head (H := views) d t ts) Hc) as [Hd Hs]. unfold view_cat. rewrite bool_decide_eq_true_2 by done. eexists. split; [done|].
    assert (Forall (Z.le 0) (<[d := sum_Z (omap (λ u, dims u !! d) (t :: ts))]> (dims t))) as Hn.
    { apply insert_nonneg; [apply cat_sizes_nonneg|apply dims_nonneg]. }
    split; [by apply dims_id|]. intros idx Hv. rewrite dims_id in Hv by done.
    destruct (cat_elem_total (H := views) d (dims t) (t :: ts) idx) as [x Ex]; [done|..|exact Hv|].
    + constructor; [by split|done].
    + apply Forall_true. intros. apply dims_nonneg.
    + rewrite Ex. f_equal. symmetry. by apply view_cat_elem_spec.
  - intros d t ts Hc. unfold view_cat. rewrite bool_decide_eq_false_2 by (intros H; apply Hc; by apply (cat_compatible_head (H := views))). by eexists.
  - intros t a b s Hs. eexists. split; [done|]. unfold swap. rewrite Hs. cbn. split; [|done].
    apply (dims_id (b :: a :: s) (λ _, 0)). pose proof (dims_nonneg t) as Hd. rewrite Hs in Hd. inversion_clear Hd as [|? ? ? Hd']. inversion_clear Hd'. by repeat constructor.
  - intros t n a b s Hs. eexists. split; [done|]. unfold swap. rewrite Hs. cbn. split; [|done].
    apply (dims_id (n :: b :: a :: s) (λ _, 0)). pose proof (dims_nonneg t) as Hd. rewrite Hs in Hd.
    inversion_clear Hd as [|? ? ? Hd']. inversion_clear Hd' as [|? ? ? Hd'']. inversion_clear Hd''. by repeat constructor.
Qed.
End Views.
