(* ===== verification/PyStr.v ===== *)
(** * Strings

    The string methods that names of parameters are processed with. *)

From S2P Require Import Prelude.
From S2P Require Import PyData.
From S2P Require Import EnvShell.

#[local] Open Scope list_scope.
#[local] Open Scope string_scope.

(** [s.startswith(p)] *)
Definition starts_with (p s : string) : bool := bool_decide (is_Some (strip_prefix p s)).

(** [s[: -len(suf)]] when [s.endswith(suf)]. *)
Definition strip_suffix (suf s : string) : option string :=
  let n := (String.length s - String.length suf)%nat in
  if bool_decide ((String.length suf ≤ String.length s)%nat ∧ String.substring n (String.length suf) s = suf)
  then Some (String.substring 0 n s) else None.

Definition ends_with (suf s : string) : bool := bool_decide (is_Some (strip_suffix suf s)).

(** [s.replace(old, new)] for a non-empty [old], from left to right.  The fuel is
    the length of [s]. *)
Fixpoint replace_fuel (fuel : nat) (old new s : string) : string :=
  match fuel with
  | O => s
  | S fuel =>
      match strip_prefix old s with
      | Some rest => new ++ replace_fuel fuel old new rest
      | None => match s with EmptyString => EmptyString | String c s => String c (replace_fuel fuel old new s) end
      end
  end.

Definition str_replace (old new s : string) : string := replace_fuel (String.length s) old new s.

(** [s.replace(old, new, 1)] *)
Fixpoint replace_first (old new s : string) : string :=
  match strip_prefix old s with
  | Some rest => new ++ rest
  | None => match s with EmptyString => EmptyString | String c s => String c (replace_first old new s) end
  end.

(** [s.split(c)] *)
Fixpoint split_on_go (c : Ascii.ascii) (acc s : string) : list string :=
  match s with
  | EmptyString => [acc]
  | String x s => if decide (x = c) then acc :: split_on_go c EmptyString s else split_on_go c (acc ++ String x EmptyString) s
  end.

Definition split_on (c : Ascii.ascii) (s : string) : list string := split_on_go c EmptyString s.

(** ** Lemmas *)

Lemma strip_prefix_Some p s r : strip_prefix p s = Some r ↔ s = p ++ r.
Proof.
  split; [|intros ->; apply strip_prefix_app]. revert s. induction p as [|c p IH]; intros s; [by intros [= ->]|].
  destruct s as [|x s]; [done|]. cbn. case_decide as H; [|done]. subst. intros E%IH. by rewrite E.
Qed.

Lemma starts_with_true p s : starts_with p s = true ↔ ∃ r, s = p ++ r.
Proof.
  unfold starts_with. rewrite bool_decide_eq_true. split.
  - intros [r Hr]. exists r. by apply strip_prefix_Some.
  - intros [r ->]. rewrite strip_prefix_app. by eexists.
Qed.

Lemma substring_full s : String.substring 0 (String.length s) s = s.
Proof. induction s as [|c s IH]; [done|]. exact (f_equal (String c) IH). Qed.

Lemma substring_prefix a b : String.substring 0 (String.length a) (a ++ b) = a.
Proof. induction a as [|c a IH]; [by destruct b|]. exact (f_equal (String c) IH). Qed.

Lemma substring_skip a b : String.substring (String.length a) (String.length b) (a ++ b) = b.
Proof. induction a as [|c a IH]; [apply substring_full|]. exact IH. Qed.

Lemma substring_split n s : (n ≤ String.length s)%nat →
  s = String.substring 0 n s ++ String.substring n (String.length s - n) s.
Proof.
  revert n. induction s as [|c s IH]; intros n Hn; [by destruct n|]. destruct n as [|n]; [symmetry; exact (substring_full (String c s))|].
  cbn in Hn. apply (f_equal (String c)). apply IH. lia.
Qed.

Lemma strip_suffix_app p suf : strip_suffix suf (p ++ suf) = Some p.
Proof.
  unfold strip_suffix. rewrite length_append. replace (String.length p + String.length suf - String.length suf)%nat with (String.length p) by lia.
  rewrite bool_decide_eq_true_2 by (split; [lia|apply substring_skip]). by rewrite substring_prefix.
Qed.

Lemma strip_suffix_Some suf s p : strip_suffix suf s = Some p ↔ s = p ++ suf.
Proof.
  split; [|intros ->; apply strip_suffix_app]. unfold strip_suffix. case_bool_decide as H; [|done]. destruct H as [Hl Hs]. intros [= <-].
  etrans; [apply (substring_split (String.length s - String.length suf)); lia|].
  replace (String.length s - (String.length s - String.length suf))%nat with (String.length suf) by lia. by rewrite Hs.
Qed.

Lemma ends_with_true suf s : ends_with suf s = true ↔ ∃ p, s = p ++ suf.
Proof.
  unfold ends_with. rewrite bool_decide_eq_true. split.
  - intros [p Hp]. exists p. by apply strip_suffix_Some.
  - intros [p ->]. rewrite strip_suffix_app. by eexists.
Qed.
