(* ===== verification/ModelSlices.v ===== *)
(** * Slices of fused parameters

    psrl/utils/converter/model_mappings.py: the metadata of a model, the layout of
    query and key/value heads under tensor parallelism, the functions that cut a
    fused parameter into the parameters of the checkpoint, and the registry of
    parameter mappings.  The parameters returned share storage with the fused one;
    that they also carry its attributes is left out. *)

From S2P Require Import Prelude.
From S2P Require Import PyData.
From S2P Require Import EnvShell.
From S2P Require Import PyStr.
From S2P Require Import Sharding.
From S2P Require Import Tensors.

#[local] Open Scope string_scope.
#[local] Open Scope list_scope.
#[local] Open Scope Z_scope.

(** ** Results *)

#[export] Instance res_ret : MRet (sum exn) := λ A, inr.
#[export] Instance res_bind : MBind (sum exn) := λ A B k r, match r with inl e => inl e | inr a => k a end.

Definition ensure (b : bool) (e : exn) : Res unit := if b then inr tt else inl e.
Definition pdiv (a b : Z) : Res Z := if bool_decide (b = 0) then inl ZeroDivisionError else inr (a / b).
Definition pmod (a b : Z) : Res Z := if bool_decide (b = 0) then inl ZeroDivisionError else inr (a mod b).

(** [assert a % b == 0] *)
Definition assert_divides (b a : Z) : Res unit := r ← pmod a b; ensure (bool_decide (r = 0)) AssertionError.

Lemma bind_inr {A B} (m : Res A) (k : A → Res B) b : (m ≫= k) = inr b → ∃ a, m = inr a ∧ k a = inr b.
Proof. destruct m as [e|a]; [done|]. intros Hk. by exists a. Qed.

Lemma ensure_inr b e u : ensure b e = inr u → b = true.
Proof. by destruct b. Qed.

Lemma ensure_bind {A} (P : Prop) `{Decision P} e (k : unit → Res A) : P → (ensure (bool_decide P) e ≫= k) = k tt.
Proof. intros HP. by rewrite bool_decide_eq_true_2. Qed.

(** Taking apart a run that returned. *)
Ltac res_inv :=
  repeat match goal with
  | H : (_ ≫= _) = inr _ |- _ => let x := fresh "x" in let E := fresh "E" in apply bind_inr in H as (x & E & H)
  | H : ensure (bool_decide _) _ = inr _ |- _ => apply ensure_inr, bool_decide_eq_true in H
  | H : ensure _ _ = inr _ |- _ => apply ensure_inr in H
  | H : mret _ = inr _ |- _ => injection H as H
  | x : unit |- _ => destruct x
  end.

(** ** Names *)

Definition QKV_WEIGHT_SUFFIXES : list string :=
  ["q_proj.weight"; "k_proj.weight"; "v_proj.weight"; "q_proj.bias"; "k_proj.bias"; "v_proj.bias"].
Definition Q_WEIGHT_SUFFIXES : list string := ["q_proj.weight"; "q_proj.bias"].

Definition is_qkv_weight (name : string) : bool := existsb (λ s, ends_with s name) QKV_WEIGHT_SUFFIXES.
Definition is_q_weight (name : string) : bool := existsb (λ s, ends_with s name) Q_WEIGHT_SUFFIXES.

Fixpoint first_prefix (suffixes : list string) (name : string) : option string :=
  match suffixes with
  | [] => None
  | suf :: suffixes =>
      match strip_suffix suf name with
      | Some p => if ends_with ".mlp.experts" p then Some p else first_prefix suffixes name
      | None => first_prefix suffixes name
      end
  end.

Definition get_fused_moe_expert_prefix (name projection : string) : option string :=
  first_prefix [("." ++ projection ++ ".weight")%string; ("." ++ projection)%string] name.

(** [name.contains(a) and name.contains(b)] for the fused visual parameters. *)
Definition is_visual_qkv (name : string) : bool := contains "visual.blocks" name && contains "qkv" name.

(** ** Head layout *)

Record QKVTPLayout := mkLayout {
  tp_size : Z;
  num_heads_local : Z;
  num_kv_heads_local : Z;
  num_kv_head_replicas : Z;
}.

Definition num_kv_shards (l : QKVTPLayout) : Z := tp_size l / num_kv_head_replicas l.

Definition get_kv_shard_rank (l : QKVTPLayout) (tp_rank : Z) : Res Z :=
  _ ← ensure (bool_decide (0 ≤ tp_rank < tp_size l)) AssertionError; pdiv tp_rank (num_kv_head_replicas l).

Definition get_qkv_tp_layout (num_heads num_kv_heads tp_size : Z) : Res QKVTPLayout :=
  _ ← ensure (bool_decide (0 < tp_size)) AssertionError;
  _ ← ensure (bool_decide (0 < num_kv_heads)) AssertionError;
  _ ← assert_divides tp_size num_heads;
  if bool_decide (tp_size ≤ num_kv_heads) then
    _ ← assert_divides tp_size num_kv_heads;
    mret (mkLayout tp_size (num_heads / tp_size) (num_kv_heads / tp_size) 1)
  else
    _ ← assert_divides num_kv_heads tp_size;
    mret (mkLayout tp_size (num_heads / tp_size) 1 (tp_size / num_kv_heads)).

Definition make_visual_qkv_tp_sharding (tp_size tp_rank : Z) : Res NIXLSharding :=
  _ ← ensure (bool_decide (1 ≤ tp_size)) AssertionError;
  _ ← ensure (bool_decide (0 ≤ tp_rank < tp_size)) AssertionError;
  new_sharding [(0, 3 * tp_size)] [[tp_rank]; [tp_size + tp_rank]; [2 * tp_size + tp_rank]].

(** ** Slices *)

Section slices.
Context `{TensorOps}.

(** The slices of [t] along [d] given by offsets and sizes. *)
Definition narrow_all (d : nat) (spans : list (Z * Z)) (t : tensor) : Res (list tensor) :=
  map_res (λ '(offset, size), narrow d offset size t) spans.

(** The spans of consecutive pieces. *)
Fixpoint spans (offset : Z) (sizes : list Z) : list (Z * Z) :=
  match sizes with [] => [] | n :: sizes => (offset, n) :: spans (offset + n) sizes end.

(** [assert t.shape[d] == n] *)
Definition assert_dim (d : nat) (n : Z) (t : tensor) : Res unit :=
  m ← dim_size d t; ensure (bool_decide (m = n)) AssertionError.

Definition slice_gate_up_proj (output_sizes : list Z) (tp_size : Z) (d : nat) (t : tensor) : Res (list tensor) :=
  _ ← ensure (bool_decide (length output_sizes = 2%nat)) AssertionError;
  rs ← map_res (λ n, pmod n tp_size) output_sizes;
  _ ← ensure (forallb (λ r, bool_decide (r = 0)) rs) AssertionError;
  sizes ← map_res (λ n, pdiv n tp_size) output_sizes;
  _ ← assert_dim d (sum_Z sizes) t;
  narrow_all d (spans 0 sizes) t.

Definition slice_qkv_proj (num_heads num_kv_heads head_size tp_size : Z) (d : nat) (t : tensor) : Res (list tensor) :=
  layout ← get_qkv_tp_layout num_heads num_kv_heads tp_size;
  let q_len := num_heads_local layout * head_size in
  let k_len := num_kv_heads_local layout * head_size in
  _ ← assert_dim d (q_len + k_len + k_len) t;
  narrow_all d [(0, q_len); (q_len, k_len); (q_len + k_len, k_len)] t.

Definition slice_attn_conv1d (num_k_heads num_v_heads k_head_size v_head_size tp_size : Z) (d : nat) (t : tensor) : Res (list tensor) :=
  k_dim ← pdiv (num_k_heads * k_head_size) tp_size;
  v_dim ← pdiv (num_v_heads * v_head_size) tp_size;
  _ ← assert_dim d (k_dim * 2 + v_dim) t;
  narrow_all d [(0, k_dim); (k_dim, k_dim); (k_dim * 2, v_dim)] t.

Definition slice_fused_moe_w13_weight (t : tensor) : Res (list tensor) :=
  n ← dim_size 0 t;
  m ← dim_size 1 t;
  let shard_size := m / 2 in
  pairs ← map_res (λ i, expert ← select i t; narrow_all 0 [(0, shard_size); (shard_size, shard_size)] expert) (zrange 0 n);
  mret (concat pairs).

Definition slice_fused_moe_w2_weight (t : tensor) : Res (list tensor) :=
  n ← dim_size 0 t; map_res (λ i, select i t) (zrange 0 n).

(** [assert size % tp_size == 0] for every projection, then their local slices. *)
Definition slice_projections (sizes : list Z) (tp_size : Z) (d : nat) (t : tensor) : Res (list tensor) :=
  _ ← ensure (bool_decide (1 ≤ tp_size)) AssertionError;
  _ ← ensure (forallb (λ n, bool_decide (n mod tp_size = 0)) sizes) AssertionError;
  let locals := (λ n, n / tp_size) <$> sizes in
  _ ← assert_dim d (sum_Z locals) t;
  narrow_all d (spans 0 locals) t.

Definition slice_in_proj_qkvz (key_dim value_dim tp_size : Z) (d : nat) (t : tensor) : Res (list tensor) :=
  slice_projections [2 * key_dim + value_dim; value_dim] tp_size d t.

Definition slice_in_proj_ba (num_v_heads tp_size : Z) (d : nat) (t : tensor) : Res (list tensor) :=
  slice_projections [num_v_heads; num_v_heads] tp_size d t.

Definition slice_qwen3_5_in_proj (key_dim value_dim num_v_heads tp_size : Z) (d : nat) (t : tensor) : Res (list tensor) :=
  slice_projections [2 * key_dim + value_dim; value_dim; num_v_heads; num_v_heads] tp_size d t.

Definition slice_qwen3_5_in_proj_qkv (key_dim value_dim tp_size : Z) (d : nat) (t : tensor) : Res (list tensor) :=
  sizes ← map_res (λ n, pdiv n tp_size) [key_dim; key_dim; value_dim];
  _ ← assert_dim d (sum_Z sizes) t;
  narrow_all d (spans 0 sizes) t.

(** Megatron keeps the heads of a group together.  [view] is a reshape here: only
    the sliced dimension is split. *)
Definition slice_qkv_proj_megatron (num_heads num_kv_heads head_size tp_size : Z) (attn_output_gate : bool) (d : nat) (t : tensor)
    : Res (list tensor) :=
  let num_split_heads := Z.gcd num_heads num_kv_heads in
  _ ← assert_divides tp_size num_split_heads;
  q_len ← pdiv (head_size * num_heads) num_split_heads;
  k_len ← pdiv (head_size * num_kv_heads) num_split_heads;
  let groups := num_split_heads / tp_size in
  fused ← reshape [groups; q_len + k_len + k_len; -1] t;
  _ ← assert_dim d (q_len + k_len + k_len) fused;
  pieces ← narrow_all d [(0, q_len); (q_len, k_len); (q_len + k_len, k_len)] fused;
  match pieces with
  | q :: kv =>
      if attn_output_gate then
        q ← reshape [groups; 2; num_heads / num_split_heads / 2; head_size; -1] q;
        q ← transpose 1 2 q;
        mret (q :: kv)
      else mret (q :: kv)
  | [] => mret []
  end.

Definition reshape_qkv_to_3d (num_heads_local num_kv_heads_local : Z) (t : tensor) : Res tensor :=
  let num_groups_local := Z.gcd num_heads_local num_kv_heads_local in
  rows ← dim_size 0 t;
  hidden ← (if bool_decide (ndim t = 2%nat) then dim_size 1 t else mret 1);
  _ ← assert_divides num_groups_local rows;
  reshape [num_groups_local; rows / num_groups_local; hidden] t.

Definition reshape_q_to_5d (num_heads_local head_size : Z) (t : tensor) : Res tensor :=
  match shape t with
  | [groups; rows; hidden] =>
      per_group ← pdiv num_heads_local groups;
      _ ← ensure (bool_decide (rows = per_group * head_size)) AssertionError;
      reshape [groups; per_group / 2; 2; head_size; hidden] t
  | _ => inl ValueError
  end.

Definition reshape_visual_block_qkv (vision_head_size : option Z) (t : tensor) : Res tensor :=
  rows ← dim_size 0 t;
  _ ← ensure (bool_decide (rows mod 3 = 0)) AssertionError;
  match vision_head_size with
  | None => inl ValueError
  | Some n =>
      match shape t with
      | _ :: m :: rest =>
          if bool_decide (m = n) then mret t
          else _ ← assert_divides n rows; reshape (rows / n :: n :: m :: rest) t
      | _ => _ ← assert_divides n rows; reshape [rows / n; n; 1] t
      end
  end.
End slices.

(** ** Metadata of a model *)

(** Attributes of configuration objects and entries of configuration
    dictionaries. *)
Inductive cval :=
  | CNone
  | CInt (n : Z)
  | CBool (b : bool)
  | CObj (attrs : list (string * cval)).

Abbreviation Attrs := (list (string * cval)).

Definition get_attr (name : string) (o : Attrs) : Res cval := match assoc name o with Some v => inr v | None => inl AttributeError end.
Definition get_attr_or (name : string) (default : cval) (o : Attrs) : cval := match assoc name o with Some v => v | None => default end.

(** A value as an operand of integer arithmetic. *)
Definition cint (v : cval) : Res Z :=
  match v with CInt n => inr n | CBool b => inr (Z.b2z b) | _ => inl TypeError end.
Definition ctrue (v : cval) : bool :=
  match v with CNone => false | CInt n => negb (bool_decide (n = 0)) | CBool b => b | CObj _ => true end.
Definition is_int (v : cval) : option Z := match v with CInt n => Some n | _ => None end.
Definition not_none (v : cval) : bool := match v with CNone => false | _ => true end.

(** The entries for multi-head latent attention. *)
Definition mla_dims (o : Attrs) : option (Z * Z * Z) :=
  match is_int (get_attr_or "qk_nope_head_dim" CNone o), is_int (get_attr_or "qk_rope_head_dim" CNone o),
        is_int (get_attr_or "kv_lora_rank" CNone o) with
  | Some nope, Some rope, Some rank => if bool_decide (0 < nope + rope) then Some (nope, rope, rank) else None
  | _, _, _ => None
  end.

Definition mla_info (o : Attrs) : Attrs :=
  match mla_dims o with
  | Some (nope, rope, rank) =>
      [("qk_nope_head_dim", CInt nope); ("qk_rope_head_dim", CInt rope); ("qk_head_dim", CInt (nope + rope));
       ("v_head_dim", get_attr_or "v_head_dim" CNone o); ("kv_lora_rank", CInt rank); ("q_lora_rank", get_attr_or "q_lora_rank" CNone o)]
  | None => []
  end.

Definition optional_entry (name : string) (v : cval) : Attrs := if not_none v then [(name, v)] else [].

Definition moe_info (o : Attrs) : Res Attrs :=
  let experts := match get_attr_or "num_experts" CNone o with CNone => get_attr_or "n_routed_experts" CNone o | v => v end in
  let moe := get_attr_or "moe_intermediate_size" CNone o in
  let shared := get_attr_or "n_shared_experts" CNone o in
  let explicit := get_attr_or "shared_expert_intermediate_size" CNone o in
  derived ← (if not_none explicit then mret (optional_entry "shared_expert_intermediate_size" explicit)
             else if not_none moe && not_none shared then
               a ← cint moe; b ← cint shared; mret [("shared_expert_intermediate_size", CInt (a * b))]
             else mret []);
  mret (optional_entry "num_experts" experts ++ optional_entry "moe_intermediate_size" moe ++ optional_entry "n_shared_experts" shared ++ derived).

Definition linear_info (o : Attrs) : Res Attrs :=
  let kh := get_attr_or "linear_num_key_heads" CNone o in
  let kd := get_attr_or "linear_key_head_dim" CNone o in
  let vh := get_attr_or "linear_num_value_heads" CNone o in
  let vd := get_attr_or "linear_value_head_dim" CNone o in
  if forallb not_none [kh; kd; vh; vd] then
    a ← cint kh; b ← cint kd; c ← cint vh; d ← cint vd;
    mret [("linear_num_key_heads", kh); ("linear_key_head_dim", kd); ("linear_num_value_heads", vh); ("linear_value_head_dim", vd);
          ("linear_key_dim", CInt (a * b)); ("linear_value_dim", CInt (c * d))]
  else mret [].

Definition vision_info (cfg : Attrs) : Res Attrs :=
  match get_attr_or "vision_config" CNone cfg with
  | CNone => mret []
  | CObj v =>
      let heads := get_attr_or "num_heads" CNone v in
      let head_dim := get_attr_or "head_dim" CNone v in
      size ← match head_dim, is_int heads, is_int (get_attr_or "hidden_size" CNone v) with
             | CNone, Some h, Some s => n ← pdiv s h; mret (CInt n)
             | _, _, _ => mret head_dim
             end;
      mret (match is_int heads with
            | Some h => [("vision_num_heads", CInt h); ("vision_num_kv_heads", get_attr_or "num_key_value_heads" (CInt h) v)]
            | None => []
            end ++ match is_int size with Some n => [("vision_head_size", CInt n)] | None => [] end)
  | _ => mret []
  end.

Definition get_model_info (cfg : Attrs) : Res Attrs :=
  let text := match get_attr_or "text_config" CNone cfg with CObj o => o | _ => cfg end in
  heads ← get_attr "num_attention_heads" text;
  hidden ← get_attr "hidden_size" text;
  let kv_heads := get_attr_or "num_key_value_heads" heads text in
  let gate := get_attr_or "attn_output_gate" (CBool false) text in
  heads ← (if ctrue gate then n ← cint heads; mret (CInt (n * 2)) else mret heads);
  head_size ← match get_attr_or "head_dim" CNone text, mla_dims text with
              | CNone, Some (nope, rope, _) => mret (CInt (nope + rope))
              | CNone, None => h ← cint hidden; n ← cint heads; s ← pdiv h n; mret (CInt s)
              | v, _ => mret v
              end;
  moe ← moe_info text;
  linear ← linear_info text;
  vision ← vision_info cfg;
  mret ([("num_heads", heads); ("num_kv_heads", kv_heads); ("head_size", head_size);
         ("intermediate_size", get_attr_or "intermediate_size" CNone text); ("attn_output_gate", gate);
         ("uses_mla_attention", CBool (bool_decide (is_Some (mla_dims text))))] ++ mla_info text ++ moe ++ linear ++ vision).

Definition get_external_fp32_param_patterns : list string := ["A_log"].

(** ** Registry of parameter mappings *)

Section registry.
(** Model classes or their names, and mapping classes. *)
Context {C P : Type} `{EqDecision C} `{EqDecision P}.

Record ModelRegistry := mkRegistry { mappings : list (C * P); reverse_mappings : list (P * list C) }.

Definition new_registry : ModelRegistry := mkRegistry [] [].

Definition register (classes : list C) (mapping : P) (r : ModelRegistry) : ModelRegistry :=
  mkRegistry (foldl (λ d c, dict_set c mapping d) (mappings r) classes)
             (dict_set mapping (default [] (assoc mapping (reverse_mappings r)) ++ classes) (reverse_mappings r)).

Definition create_mapping (c : C) (r : ModelRegistry) : Res P :=
  match assoc c (mappings r) with Some p => inr p | None => inl ValueError end.

Definition get_supported_models (r : ModelRegistry) : list C := (mappings r).*1.

Definition unregister_mapping (mapping : P) (r : ModelRegistry) : ModelRegistry :=
  match assoc mapping (reverse_mappings r) with
  | Some classes =>
      mkRegistry (foldl (λ d c, dict_pop c d) (mappings r) classes) (dict_pop mapping (reverse_mappings r))
  | None => r
  end.
End registry.
Arguments ModelRegistry : clear implicits.
