(* ===== verification/ShardSplit.v ===== *)
(** * Splitting sharded parameters

    psrl/utils/converter/fsdp_converter.py and hf_converter.py: the functions that
    split a local shard of a fused parameter into the parameters of the checkpoint
    and describe which shards of each the rank owns, and the conversion of a whole
    state dict. *)

From S2P Require Import Prelude.
From S2P Require Import PyData.
From S2P Require Import EnvShell.
From S2P Require Import PyStr.
From S2P Require Import Sharding.
From S2P Require Import Tensors.
From S2P Require Import ModelSlices.

#[local] Open Scope string_scope.
#[local] Open Scope list_scope.
#[local] Open Scope Z_scope.

Section split.
Context `{TensorOps}.

Abbreviation StateDict := (list (string * tensor)).
Abbreviation ShardDict := (list (string * NIXLSharding)).

(** [zip] stops at the shorter list, as Python's does. *)
Definition one_shard_of (s : NIXLSharding) : Res (Z * Z * Z) :=
  match shard_mesh s, shard_indices s with
  | [(d, n)], [idx] => match idx with r :: _ => inr (d, n, r) | [] => inl IndexError end
  | _, _ => inl ValueError
  end.

(** ** FSDP: one fused dimension *)

(** All of every component is on this rank, cut along the first dimension. *)
Fixpoint split_whole (s : NIXLSharding) (t : tensor) (offset : Z) (parts : list (string * Z)) (out : StateDict * ShardDict)
    : Res (StateDict * ShardDict) :=
  match parts with
  | [] => mret out
  | (name, size) :: parts =>
      piece ← narrow 0 offset size t;
      sharding ← new_sharding (shard_mesh s) (shard_indices s);
      split_whole s t (offset + size) parts (dict_set name piece out.1, dict_set name sharding out.2)
  end.

(** The overlap of rows [lo .. hi) of the fused tensor with one component. *)
Definition split_component (t : tensor) (local_size lo hi start : Z) (name : string) (size : Z) (out : StateDict * ShardDict)
    : Res (StateDict * ShardDict) :=
  let overlap_start := Z.max lo start in
  let overlap_end := Z.min hi (start + size) in
  if bool_decide (overlap_start < overlap_end) then
    let shard_unit := Z.gcd (Z.gcd local_size start) size in
    let overlap_size := overlap_end - overlap_start in
    count ← pdiv size shard_unit;
    first ← pdiv (overlap_start - start) shard_unit;
    past ← pdiv (overlap_end - start) shard_unit;
    r ← pmod overlap_size shard_unit;
    _ ← ensure (bool_decide (r = 0)) ValueError;
    piece ← narrow 0 (overlap_start - lo) overlap_size t;
    sharding ← new_sharding [(0, count)] ((λ i, [i]) <$> zrange first past);
    mret (dict_set name piece out.1, dict_set name sharding out.2)
  else mret out.

Fixpoint split_rows (t : tensor) (local_size lo hi start : Z) (parts : list (string * Z)) (out : StateDict * ShardDict)
    : Res (StateDict * ShardDict) :=
  match parts with
  | [] => mret out
  | (name, size) :: parts =>
      out ← split_component t local_size lo hi start name size out;
      split_rows t local_size lo hi (start + size) parts out
  end.

Definition split_dim0_fused_fsdp_param (t : tensor) (s : NIXLSharding) (names : list string) (sizes : list Z) : Res (StateDict * ShardDict) :=
  _ ← ensure (bool_decide (length names = length sizes)) ValueError;
  _ ← ensure (negb (bool_decide (sizes = [])) && forallb (λ n, bool_decide (0 < n)) sizes) ValueError;
  shard ← one_shard_of s;
  let '(shard_dim, shard_count, shard_rank) := shard in
  _ ← ensure (bool_decide (0 ≤ shard_rank < shard_count)) ValueError;
  let total := sum_Z sizes in
  local_size ← dim_size 0 t;
  if bool_decide (shard_dim ≠ 0) then
    _ ← ensure (bool_decide (local_size = total)) ValueError;
    split_whole s t 0 (zip names sizes) ([], [])
  else
    _ ← ensure (bool_decide (local_size * shard_count = total)) ValueError;
    let lo := shard_rank * local_size in
    split_rows t local_size lo (lo + local_size) 0 (zip names sizes) ([], []).

(** ** FSDP: fused experts *)

Definition expert_name (prefix : string) (i : Z) (projection : string) : string :=
  (prefix ++ "." ++ str_of_Z i ++ "." ++ projection ++ ".weight")%string.

(** [a, b = t.chunk(2, dim=0)]: the first chunk takes the odd row, and a single row
    makes a single chunk. *)
Definition chunk2 (t : tensor) : Res (tensor * tensor) :=
  n ← dim_size 0 t;
  let c := (n + 1) / 2 in
  _ ← ensure (bool_decide (1 < n)) ValueError;
  a ← narrow 0 0 c t;
  b ← narrow 0 c (n - c) t;
  mret (a, b).

(** The parameters of one expert, held whole. *)
Definition whole_expert (prefix : string) (gate_up : bool) (intermediate : option Z) (i : Z) (expert : tensor) : Res StateDict :=
  if gate_up then
    n ← dim_size 0 expert;
    _ ← ensure (bool_decide (Some n = Z.mul 2 <$> intermediate)) ValueError;
    gu ← chunk2 expert;
    mret [(expert_name prefix i "gate_proj", gu.1); (expert_name prefix i "up_proj", gu.2)]
  else
    n ← dim_size 1 expert;
    _ ← ensure (match intermediate with Some m => bool_decide (n = m) | None => true end) ValueError;
    mret [(expert_name prefix i "down_proj", expert)].

Definition whole_experts (prefix : string) (gate_up : bool) (intermediate : option Z) (first : Z) (t : tensor) : Res (StateDict * ShardDict) :=
  n ← dim_size 0 t;
  rows ← map_res (λ i, expert ← select i t; whole_expert prefix gate_up intermediate (first + i) expert) (zrange 0 n);
  let rows := concat rows in
  mret (foldl (λ d '(k, v), dict_set k v d) [] rows, foldl (λ d '(k, _), dict_set k default_sharding d) [] rows).

(** The parameters of one expert whose projections are sharded. *)
Definition sharded_expert (prefix : string) (gate_up : bool) (intermediate : option Z) (count rank i : Z) (expert : tensor)
    (out : StateDict * ShardDict) : Res (StateDict * ShardDict) :=
  sharding ← new_sharding [(0, count)] [[rank]];
  if gate_up then
    let m := default 0 intermediate in
    split ← split_dim0_fused_fsdp_param expert sharding [expert_name prefix i "gate_proj"; expert_name prefix i "up_proj"] [m; m];
    mret (foldl (λ d '(k, v), dict_set k v d) out.1 split.1, foldl (λ d '(k, v), dict_set k v d) out.2 split.2)
  else
    n ← dim_size 1 expert;
    _ ← ensure (match intermediate with Some m => bool_decide (n = m) | None => true end) ValueError;
    let name := expert_name prefix i "down_proj" in
    mret (dict_set name expert out.1, dict_set name sharding out.2).

Fixpoint sharded_experts (prefix : string) (gate_up : bool) (intermediate : option Z) (count rank : Z) (t : tensor) (ids : list Z)
    (out : StateDict * ShardDict) : Res (StateDict * ShardDict) :=
  match ids with
  | [] => mret out
  | i :: ids =>
      expert ← select i t;
      out ← sharded_expert prefix gate_up intermediate count rank i expert out;
      sharded_experts prefix gate_up intermediate count rank t ids out
  end.

(** [info.get(name)] as a positive integer. *)
Definition info_int (name : string) (info : Attrs) : option Z := is_int (get_attr_or name CNone info).

Definition split_fused_moe_fsdp_param (info : Attrs) (name : string) (t : tensor) (s : NIXLSharding) : Res (option (StateDict * ShardDict)) :=
  let gate_up_prefix := get_fused_moe_expert_prefix name "gate_up_proj" in
  let down_prefix := get_fused_moe_expert_prefix name "down_proj" in
  match gate_up_prefix, down_prefix with
  | None, None => mret None
  | _, _ =>
      let gate_up := bool_decide (is_Some gate_up_prefix) in
      let prefix := default "" (match gate_up_prefix with Some p => Some p | None => down_prefix end) in
      match info_int "num_experts" info with
      | None => inl ValueError
      | Some num_experts =>
          _ ← ensure (bool_decide (0 < num_experts)) ValueError;
          _ ← ensure (bool_decide (ndim t = 3%nat)) ValueError;
          shard ← one_shard_of s;
          let '(shard_dim, count, rank) := shard in
          _ ← ensure (bool_decide (0 ≤ rank < count)) ValueError;
          let intermediate := info_int "moe_intermediate_size" info in
          _ ← ensure (negb gate_up || match intermediate with Some m => bool_decide (0 < m) | None => false end) ValueError;
          n ← dim_size 0 t;
          if bool_decide (shard_dim = 0) then
            _ ← ensure (bool_decide (n * count = num_experts)) ValueError;
            out ← whole_experts prefix gate_up intermediate (rank * n) t;
            mret (Some out)
          else if bool_decide (shard_dim = 1) then
            _ ← ensure (bool_decide (n = num_experts)) ValueError;
            out ← sharded_experts prefix gate_up intermediate count rank t (zrange 0 num_experts) ([], []);
            mret (Some out)
          else inl ValueError
      end
  end.

(** ** HF: row shards of three components *)

(** [model_info[name]] as an integer. *)
Definition info_at (name : string) (info : Attrs) : Res Z :=
  match assoc name info with Some v => cint v | None => inl KeyError end.

Definition split_output (t : tensor) (shard_size lo hi start : Z) (rows : Z) : Res (tensor * NIXLSharding) :=
  let overlap_start := Z.max lo start in
  let overlap_end := Z.min hi (start + rows) in
  if bool_decide (overlap_end ≤ overlap_start) then
    piece ← narrow 0 0 0 t; mret (piece, empty_sharding)
  else
    _ ← assert_divides shard_size rows;
    let canonical_rows := rows / shard_size in
    let relative_start := overlap_start - start in
    let overlap_rows := overlap_end - overlap_start in
    _ ← assert_divides canonical_rows relative_start;
    _ ← assert_divides canonical_rows overlap_rows;
    let first := relative_start / canonical_rows in
    piece ← narrow 0 (overlap_start - lo) overlap_rows t;
    sharding ← new_sharding [(0, shard_size)] ((λ i, [i]) <$> zrange first (first + overlap_rows / canonical_rows));
    mret (piece, sharding).

Fixpoint split_outputs (t : tensor) (shard_size lo hi start : Z) (specs : list (string * Z)) (out : list (string * (tensor * NIXLSharding)))
    : Res (list (string * (tensor * NIXLSharding))) :=
  match specs with
  | [] => mret out
  | (name, rows) :: specs =>
      r ← split_output t shard_size lo hi start rows;
      split_outputs t shard_size lo hi (start + rows) specs (dict_set name r out)
  end.

Definition split_dim0_fsdp_shard (t : tensor) (shard_size shard_rank : Z) (specs : list (string * Z))
    : Res (list (string * (tensor * NIXLSharding))) :=
  let global_rows := sum_Z specs.*2 in
  _ ← assert_divides shard_size global_rows;
  let local_rows := global_rows / shard_size in
  n ← dim_size 0 t;
  _ ← ensure (bool_decide (n = local_rows)) AssertionError;
  let lo := shard_rank * local_rows in
  split_outputs t shard_size lo (lo + local_rows) 0 specs [].

(** ** HF: checkpoint tensors *)

Definition with_suffixes (name : string) : list string := [(name ++ "_q")%string; (name ++ "_k")%string; (name ++ "_v")%string].

(** The separate parameters of the fused experts of a checkpoint. *)
Definition fused_experts (prefix : string) (gate_up : bool) (info : Attrs) (t : tensor) : Res StateDict :=
  num_experts ← info_at "num_experts" info;
  _ ← ensure (bool_decide (ndim t = 3%nat ∧ shape t !! 0%nat = Some num_experts)) ValueError;
  n ← dim_size (if gate_up then 1 else 2) t;
  _ ← ensure (match info_int "moe_intermediate_size" info with
              | Some m => bool_decide (n = if gate_up then 2 * m else m)
              | None => true
              end) ValueError;
  rows ← map_res (λ i, expert ← select i t;
                       if gate_up then gu ← chunk2 expert; mret [(expert_name prefix i "gate_proj", gu.1); (expert_name prefix i "up_proj", gu.2)]
                       else mret [(expert_name prefix i "down_proj", expert)]) (zrange 0 num_experts);
  mret (foldl (λ d '(k, v), dict_set k v d) [] (concat rows)).

Definition maybe_convert_to_smaller_parts (info : Attrs) (name : string) (t : tensor) : Res StateDict :=
  if contains "linear_attn.conv1d.weight" name then
    kh ← info_at "linear_num_key_heads" info;
    vh ← info_at "linear_num_value_heads" info;
    kd ← info_at "linear_key_head_dim" info;
    vd ← info_at "linear_value_head_dim" info;
    parts ← slice_attn_conv1d kh vh kd vd 1 0 t;
    mret (zip (with_suffixes name) parts)
  else if contains "linear_attn.in_proj_qkv.weight" name then
    key_dim ← info_at "linear_key_dim" info;
    value_dim ← info_at "linear_value_dim" info;
    parts ← slice_qwen3_5_in_proj_qkv key_dim value_dim 1 0 t;
    mret (zip (with_suffixes name) parts)
  else
    t ← (if is_visual_qkv name then reshape_visual_block_qkv (info_int "vision_head_size" info) t else mret t);
    match get_fused_moe_expert_prefix name "gate_up_proj", get_fused_moe_expert_prefix name "down_proj" with
    | Some prefix, _ => fused_experts prefix true info t
    | None, Some prefix => fused_experts prefix false info t
    | None, None => mret [(name, t)]
    end.

Definition convert_hf_local_shard (info : Attrs) (name : string) (t : tensor) (s : NIXLSharding) : Res (list (string * (tensor * NIXLSharding))) :=
  mesh ← match shard_mesh s with row :: _ => mret row | [] => inl StopIteration end;
  rank ← match shard_indices s with (r :: _) :: _ => mret r | _ => inl IndexError end;
  let '(shard_dim, shard_size) := (mesh : Z * Z) in
  let flat := bool_decide (shard_dim = 0) && bool_decide (1 < shard_size) in
  if flat && contains "linear_attn.in_proj_qkv.weight" name then
    key_dim ← info_at "linear_key_dim" info;
    value_dim ← info_at "linear_value_dim" info;
    split_dim0_fsdp_shard t shard_size rank (zip (with_suffixes name) [key_dim; key_dim; value_dim])
  else if flat && contains "linear_attn.conv1d.weight" name then
    kh ← info_at "linear_num_key_heads" info;
    kd ← info_at "linear_key_head_dim" info;
    vh ← info_at "linear_num_value_heads" info;
    vd ← info_at "linear_value_head_dim" info;
    split_dim0_fsdp_shard t shard_size rank (zip (with_suffixes name) [kh * kd; kh * kd; vh * vd])
  else if is_visual_qkv name then
    sharding ← (if bool_decide (shard_dim = 0) then
                  (if bool_decide (1 < shard_size) then mret s else make_visual_qkv_tp_sharding 1 0)
                else if bool_decide (shard_dim = 1) then new_sharding [(2, shard_size)] (shard_indices s)
                else inl ValueError);
    t ← reshape_visual_block_qkv (info_int "vision_head_size" info) t;
    mret [(name, (t, sharding))]
  else
    parts ← maybe_convert_to_smaller_parts info name t;
    mret ((λ '(k, v), (k, (v, s))) <$> parts).
End split.
