(* ===== verification/ShardSplitTheorems.v ===== *)
(** * Splitting sharded parameters: theorems

    What a rank of an evenly sharded fused parameter is told it owns of each
    component is what it holds, and the ranks own every shard of every component
    exactly once.  The layouts of query, key and value heads are covered without
    overlap. *)

From S2P Require Import Prelude.
From S2P Require Import PyData.
From S2P Require Import Sharding.
From S2P Require Import Tensors.
From S2P Require Import ModelSlices.
From S2P Require Import ShardSplit.

#[local] Open Scope string_scope.
#[local] Open Scope list_scope.
#[local] Open Scope Z_scope.

(** ** Ranges *)

Lemma length_zrange a b : length (zrange a b) = Z.to_nat (b - a).
Proof. unfold zrange. apply length_seqZ. Qed.

Lemma lookup_zrange a b j : Z.of_nat j < b - a → zrange a b !! j = Some (a + Z.of_nat j).
Proof. intros Hj. unfold zrange. apply lookup_seqZ. lia. Qed.

Lemma zrange_app a m b : a ≤ m ≤ b → zrange a b = zrange a m ++ zrange m b.
Proof. intros Hm. unfold zrange. replace (b - a) with ((m - a) + (b - m)) by lia. rewrite seqZ_app by lia. do 2 f_equal. lia. Qed.

Lemma zrange_empty a b : b ≤ a → zrange a b = [].
Proof. intros H. unfold zrange. by rewrite seqZ_nil by lia. Qed.

Lemma filter_zrange (P : Z → Prop) `{∀ x, Decision (P x)} lo hi b : lo ≤ hi → 0 ≤ b → (∀ k, 0 ≤ k < b → P k ↔ lo ≤ k < hi) →
  filter P (zrange 0 b) = zrange (Z.max 0 lo) (Z.min b hi).
Proof.
  intros Hle Hb HP. set (m1 := Z.min b (Z.max 0 lo)). set (m2 := Z.max m1 (Z.min b hi)).
  rewrite (zrange_app 0 m1 b), (zrange_app m1 m2 b), !filter_app by (unfold m1, m2; lia).
  rewrite (filter_none P (zrange 0 m1)), (filter_all P (zrange m1 m2)), (filter_none P (zrange m2 b)).
  - rewrite app_nil_r. cbn [app]. destruct (decide (Z.max 0 lo < Z.min b hi)).
    + f_equal; unfold m1, m2; lia.
    + rewrite !zrange_empty by (unfold m1, m2; lia). done.
  - intros k Hk%elem_of_zrange Hp. apply HP in Hp; unfold m1, m2 in *; lia.
  - intros k Hk%elem_of_zrange. apply HP; unfold m1, m2 in *; lia.
  - intros k Hk%elem_of_zrange Hp. apply HP in Hp; unfold m1, m2 in *; lia.
Qed.

(** ** A range of shards is a valid descriptor *)

Definition singles (l : list Z) : list Shard := (λ i, [i]) <$> l.

Lemma increasing_singles a n : increasing (singles (seqZ a (Z.of_nat n))) = true.
Proof.
  revert a. induction n as [|n IH]; intros a; [done|]. rewrite seqZ_cons by lia.
  replace (Z.pred (Z.of_nat (S n))) with (Z.of_nat n) by lia. specialize (IH (Z.succ a)). destruct n as [|n]; [done|].
  rewrite seqZ_cons in * by lia. unfold singles in *. cbn [fmap list_fmap increasing] in *. rewrite IH.
  cbn [shard_ltb]. rewrite bool_decide_eq_false_2 by lia. by rewrite bool_decide_eq_true_2 by lia.
Qed.

Lemma new_range_sharding n a b : a < b →
  new_sharding [(0, n)] (singles (zrange a b)) = inr (mkSharding [(0, n)] [(0, b - a)] (singles (zrange a b))).
Proof.
  intros Hab. unfold new_sharding, validate_local_shard_mesh. set (l := singles (zrange a b)).
  assert (length l = Z.to_nat (b - a)) as Hl by (unfold l, singles; by rewrite length_fmap, length_zrange).
  destruct l as [|first rest] eqn:El; [cbn in Hl; lia|]. rewrite <- El in *.
  assert (length first = 1%nat) as Hf.
  { assert (first ∈ l) as Hin by (rewrite El; left). unfold l, singles in Hin. by apply list_elem_of_fmap in Hin as (? & -> & _). }
  assert (forallb (λ t : Shard, bool_decide (length t = length first)) l = true) as ->.
  { apply forallb_forall. intros t Ht. apply bool_decide_eq_true. rewrite Hf. apply list_elem_of_In in Ht.
    unfold l, singles in Ht. by apply list_elem_of_fmap in Ht as (? & -> & _). }
  assert (increasing l = true) as Hi. { unfold l, zrange. rewrite <- (Z2Nat.id (b - a)) by lia. apply increasing_singles. }
  cbn [negb]. rewrite Hi. cbn [negb]. rewrite Hf.
  assert (dim_sizes 1 l = [b - a]) as ->.
  { unfold dim_sizes. cbn [seq fmap list_fmap]. f_equal.
    assert (omap (λ t : Shard, t !! 0%nat) l = zrange a b) as ->.
    { unfold l, singles. clear. induction (zrange a b) as [|x xs IH]; [done|]. simpl. f_equal. exact IH. }
    rewrite size_list_to_set by apply NoDup_seqZ. rewrite length_zrange. lia. }
  rewrite bool_decide_eq_false_2; [done|]. intros E. apply E. rewrite Hl. unfold product. cbn. lia.
Qed.

Section split.
Context `{TensorLaws}.

(** The [j]-th shard of [piece] is shard [idxs !! j] of the component of [G] that
    starts at row [start], in shards of [u] rows. *)
Definition holds_shards (u start : Z) (G piece : tensor) (idxs : list Z) : Prop :=
  ∀ j k, idxs !! j = Some k →
    ∃ p q, narrow 0 (Z.of_nat j * u) u piece = inr p ∧ narrow 0 (start + k * u) u G = inr q ∧ same p q.

Lemma holds_range u start G piece a b off n total : shape G !! 0%nat = Some total → 0 < u → 0 ≤ off → off + n ≤ total →
  is_narrow 0 off n G piece → start + a * u = off → n = (b - a) * u → holds_shards u start G piece (zrange a b).
Proof.
  intros HG Hu Hoff Htot Hp Ha Hn j k Hk.
  assert (Z.of_nat j < b - a) as Hj. { apply lookup_lt_Some in Hk. rewrite length_zrange in Hk. lia. }
  rewrite lookup_zrange in Hk by done. injection Hk as <-.
  destruct (narrow_law 0 (Z.of_nat j * u) u piece n) as (p & Ep & Np); [|nia|nia|nia|].
  { destruct Hp as [_ -> _]. apply list_lookup_insert_eq. by eapply lookup_lt_Some. }
  destruct (narrow_law 0 (start + (a + Z.of_nat j) * u) u G total) as (q & Eq & Nq); [done|nia|nia|nia|].
  exists p, q. split_and!; [done|done|]. eapply narrow_unique; [|exact Nq].
  replace (start + (a + Z.of_nat j) * u) with (off + Z.of_nat j * u) by nia. by eapply narrow_trans.
Qed.

(** The shards of the component that lie in rows [lo .. lo + L). *)
Definition owned (L lo start size : Z) : list Z :=
  let u := Z.gcd (Z.gcd L start) size in filter (λ k, lo ≤ start + k * u < lo + L) (zrange 0 (size / u)).

Lemma component_units L lo start size : 0 < size → (L | lo) →
  let u := Z.gcd (Z.gcd L start) size in
  0 < u ∧ ∃ l a s c, L = u * l ∧ lo = u * a ∧ start = u * s ∧ size = u * c.
Proof.
  intros Hs Hlo u. assert (0 < u) as Hu.
  { pose proof (Z.gcd_nonneg (Z.gcd L start) size). assert (u ≠ 0); [|unfold u in *; lia].
    intros E%Z.gcd_eq_0. lia. }
  assert (u | L) as [l Hl] by (etrans; [apply Z.gcd_divide_l|apply Z.gcd_divide_l]).
  assert (u | start) as [s Hst] by (etrans; [apply Z.gcd_divide_l|apply Z.gcd_divide_r]).
  assert (u | size) as [c Hc] by apply Z.gcd_divide_r.
  assert (u | lo) as [a Ha] by (etrans; [by exists l|done]).
  split; [done|]. exists l, a, s, c. split_and!; lia.
Qed.

Lemma mul_max u a b : 0 < u → Z.max (u * a) (u * b) = u * Z.max a b.
Proof. intros. destruct (Z.max_spec a b) as [[? ->]|[? ->]]; nia. Qed.

Lemma mul_min u a b : 0 < u → Z.min (u * a) (u * b) = u * Z.min a b.
Proof. intros. destruct (Z.min_spec a b) as [[? ->]|[? ->]]; nia. Qed.

Lemma split_component_spec G t L lo start name size out total :
  shape G !! 0%nat = Some total → 0 < L → 0 < size → 0 ≤ start → start + size ≤ total → 0 ≤ lo → (L | lo) → is_narrow 0 lo L G t →
  let u := Z.gcd (Z.gcd L start) size in
  let idxs := owned L lo start size in
  if bool_decide (idxs = []) then split_component t L lo (lo + L) start name size out = inr out
  else ∃ piece loc,
    split_component t L lo (lo + L) start name size out =
      inr (dict_set name piece out.1, dict_set name (mkSharding [(0, size / u)] loc (singles idxs)) out.2) ∧
    holds_shards u start G piece idxs.
Proof.
  intros HG HL Hsize Hstart Htot Hlo Hdiv Ht u idxs. destruct (component_units L lo start size Hsize Hdiv) as (Hu & l & a & s & c & E1 & E2 & E3 & E4).
  fold u in Hu, E1, E2, E3, E4. assert (size / u = c) as Hc by (rewrite E4, Z.mul_comm; apply Z.div_mul; lia).
  assert (idxs = zrange (Z.max 0 (a - s)) (Z.min c (a + l - s))) as Ei.
  { unfold idxs, owned. fold u. rewrite Hc. apply filter_zrange; [nia|nia|]. intros k Hk. nia. }
  unfold split_component. fold u. rewrite Hc.
  replace (Z.max lo start) with (u * Z.max a s) by (rewrite <- mul_max; [f_equal; lia|done]).
  replace (Z.min (lo + L) (start + size)) with (u * Z.min (a + l) (s + c)) by (rewrite <- mul_min; [f_equal; lia|done]).
  set (os := Z.max a s). set (oe := Z.min (a + l) (s + c)).
  destruct (decide (os < oe)) as [Ho|Ho].
  2: { rewrite (bool_decide_eq_false_2 (u * os < u * oe)) by nia. rewrite bool_decide_eq_true_2; [done|].
       rewrite Ei. apply zrange_empty. unfold os, oe in Ho. lia. }
  rewrite (bool_decide_eq_true_2 (u * os < u * oe)) by nia.
  assert (idxs = zrange (os - s) (oe - s)) as Ei' by (rewrite Ei; f_equal; unfold os, oe; lia).
  rewrite bool_decide_eq_false_2. 2: { rewrite Ei'. intros E. apply (f_equal length) in E. rewrite length_zrange in E. cbn in E. lia. }
  unfold pdiv, pmod. rewrite !(bool_decide_eq_false_2 (u = 0)) by lia. unfold mbind, res_bind, mret, res_ret.
  replace (u * os - start) with ((os - s) * u) by lia. replace (u * oe - start) with ((oe - s) * u) by lia.
  replace (u * oe - u * os) with ((oe - os) * u) by lia. rewrite !Z.div_mul by lia. rewrite Z.mod_mul by lia.
  rewrite (bool_decide_eq_true_2 (0 = 0)) by done. cbn [ensure].
  assert (shape t !! 0%nat = Some L) as Hst. { destruct Ht as [_ -> _]. apply list_lookup_insert_eq. by eapply lookup_lt_Some. }
  destruct (narrow_law 0 (u * os - lo) ((oe - os) * u) t L) as (piece & -> & Np); [done|unfold os, oe in *; nia..|].
  change ((λ i : Z, [i]) <$> zrange (os - s) (oe - s)) with (singles (zrange (os - s) (oe - s))). rewrite new_range_sharding by lia.
  exists piece, [(0, oe - s - (os - s))]. split; [by rewrite E4, (Z.mul_comm u c), Z.div_mul, Ei' by lia|]. rewrite Ei'.
  eapply (holds_range u start G piece _ _ (u * os) ((oe - os) * u) total); [done|done|unfold os; nia|unfold os, oe; nia| |lia|lia].
  replace (u * os) with (lo + (u * os - lo)) by lia. by eapply narrow_trans.
Qed.
End split.

Section split_theorems.
Context `{TensorLaws}.

(** What a rank holding rows [lo .. lo + L) of [G] is told about the component at
    [start]: nothing when it has no shard of it, and otherwise the mesh, the owned
    shards and a piece that holds them. *)
Definition described (out : list (string * tensor) * list (string * NIXLSharding)) (L lo start : Z) (name : string) (size : Z) (G : tensor) : Prop :=
  let u := Z.gcd (Z.gcd L start) size in
  if bool_decide (owned L lo start size = []) then assoc name out.1 = None ∧ assoc name out.2 = None
  else ∃ piece s, assoc name out.1 = Some piece ∧ assoc name out.2 = Some s ∧ shard_mesh s = [(0, size / u)] ∧
    shard_indices s = singles (owned L lo start size) ∧ holds_shards u start G piece (owned L lo start size).

Lemma described_ext out out' L lo start name size G : assoc name out'.1 = assoc name out.1 → assoc name out'.2 = assoc name out.2 →
  described out L lo start name size G → described out' L lo start name size G.
Proof. unfold described. intros -> ->. done. Qed.

Lemma split_rows_spec G t L lo total parts start out :
  shape G !! 0%nat = Some total → 0 < L → 0 ≤ lo → (L | lo) → is_narrow 0 lo L G t →
  Forall (Z.lt 0) parts.*2 → NoDup parts.*1 → 0 ≤ start → start + sum_Z parts.*2 ≤ total →
  (∀ name, name ∈ parts.*1 → assoc name out.1 = None ∧ assoc name out.2 = None) →
  ∃ out', split_rows t L lo (lo + L) start parts out = inr out' ∧
    (∀ name, name ∉ parts.*1 → assoc name out'.1 = assoc name out.1 ∧ assoc name out'.2 = assoc name out.2) ∧
    ∀ i name size, parts !! i = Some (name, size) → described out' L lo (start + sum_Z (take i parts.*2)) name size G.
Proof.
  intros HG HL Hlo Hdiv Ht. revert start out. induction parts as [|[name size] parts IH]; intros start out Hpos Hnd Hst Htot Hfresh.
  { exists out. split_and!; [done|done|]. intros i ? ? Hi. by rewrite lookup_nil in Hi. }
  cbn [fmap list_fmap fst snd] in *. apply Forall_cons in Hpos as [Hsz Hpos]. apply NoDup_cons in Hnd as [Hni Hnd]. cbn [sum_Z foldr] in Htot.
  assert (0 ≤ sum_Z parts.*2) as Hsum. { clear -Hpos. induction Hpos as [|x l Hx Hl IHl]; cbn [sum_Z foldr] in *; [lia|]. unfold sum_Z in *. lia. }
  fold (sum_Z parts.*2) in Htot.
  destruct (Hfresh name) as [F1 F2]; [by left|].
  assert (∃ out1, split_component t L lo (lo + L) start name size out = inr out1 ∧ described out1 L lo start name size G ∧
    ∀ n, n ≠ name → assoc n out1.1 = assoc n out.1 ∧ assoc n out1.2 = assoc n out.2) as (out1 & E1 & D1 & O1).
  { pose proof (split_component_spec G t L lo start name size out total HG HL Hsz Hst ltac:(lia) Hlo Hdiv Ht) as HC. cbv zeta in HC.
    unfold described. case_bool_decide as Eo.
    - exists out. by split_and!.
    - destruct HC as (piece & loc & -> & Hh). eexists. split; [done|]. cbn [fst snd]. split.
      + exists piece, (mkSharding [(0, size / Z.gcd (Z.gcd L start) size)] loc (singles (owned L lo start size))).
        by rewrite !assoc_dict_set, !decide_True.
      + intros n Hn. by rewrite !assoc_dict_set, !decide_False. }
  destruct (IH (start + size) out1) as (out' & E' & O' & D'); [done|done|lia|lia| |].
  { intros n Hn. assert (n ≠ name) as Hne by (intros ->; by apply Hni). destruct (O1 n Hne) as [-> ->]. apply Hfresh. by right. }
  exists out'. split_and!.
  - cbn [split_rows]. rewrite E1. exact E'.
  - intros n Hn. rewrite not_elem_of_cons in Hn. destruct Hn as [Hne Hn]. destruct (O' n Hn) as [-> ->]. by apply O1.
  - intros [|i] n sz Hi; cbn in Hi.
    + injection Hi as <- <-. cbn [take sum_Z foldr]. rewrite Z.add_0_r. destruct (O' name Hni) as [Ea Eb]. by eapply described_ext.
    + cbn [take sum_Z foldr fmap list_fmap fst snd]. fold (sum_Z (take i parts.*2)). rewrite Z.add_assoc. by apply D'.
Qed.

(** C17: A rank of an evenly sharded fused parameter never fails to split it, and
    for every component it is given exactly the shards that lie in its rows: shard
    [k] of a component belongs to the one rank whose rows contain it, and the
    piece it is described by holds it. *)
Theorem fsdp_split_exact G t ws loc rank L names sizes :
  length names = length sizes → sizes ≠ [] → Forall (Z.lt 0) sizes → NoDup names →
  shape G !! 0%nat = Some (sum_Z sizes) → L * ws = sum_Z sizes → 0 ≤ rank < ws → is_narrow 0 (rank * L) L G t →
  ∃ out, split_dim0_fused_fsdp_param t (mkSharding [(0, ws)] loc [[rank]]) names sizes = inr out ∧
    ∀ i name size, names !! i = Some name → sizes !! i = Some size →
      let start := sum_Z (take i sizes) in
      let u := Z.gcd (Z.gcd L start) size in
      0 < u ∧ described out L (rank * L) start name size G ∧
      ∀ k, k ∈ owned L (rank * L) start size ↔ 0 ≤ k < size / u ∧ (start + k * u) / L = rank.
Proof.
  intros Hlen Hne Hpos Hnd HG Hws Hr Ht.
  assert (0 < sum_Z sizes) as Hsum.
  { destruct Hpos as [|x l Hx Hl]; [done|]. cbn [sum_Z foldr]. assert (0 ≤ sum_Z l); [|unfold sum_Z in *; lia].
    clear -Hl. induction Hl as [|y l Hy Hl IHl]; cbn [sum_Z foldr] in *; [lia|]. unfold sum_Z in *. lia. }
  assert (0 < L) as HL by nia.
  assert ((zip names sizes).*1 = names ∧ (zip names sizes).*2 = sizes) as [Z1 Z2] by (split; [apply fst_zip|apply snd_zip]; lia).
  destruct (split_rows_spec G t L (rank * L) (sum_Z sizes) (zip names sizes) 0 ([], [])) as (out & Eo & _ & Hd);
    rewrite ?Z1, ?Z2; try done; try lia; [by exists rank|].
  exists out. split.
  - unfold split_dim0_fused_fsdp_param. rewrite (bool_decide_eq_true_2 (length names = length sizes)) by done.
    rewrite (bool_decide_eq_false_2 (sizes = [])) by done.
    assert (forallb (λ n, bool_decide (0 < n)) sizes = true) as ->.
    { apply forallb_forall. intros x Hx. apply bool_decide_eq_true. rewrite Forall_forall in Hpos. by apply Hpos, list_elem_of_In. }
    unfold one_shard_of. cbn [shard_mesh shard_indices ensure mbind res_bind negb andb].
    rewrite (bool_decide_eq_true_2 (0 ≤ rank < ws)) by done. cbn [ensure mbind res_bind]. unfold dim_size.
    destruct Ht as [_ Hs _]. rewrite Hs, list_lookup_insert_eq by by eapply lookup_lt_Some. cbn [mbind res_bind].
    rewrite (bool_decide_eq_false_2 (0 ≠ 0)) by lia. rewrite (bool_decide_eq_true_2 (L * ws = sum_Z sizes)) by done. exact Eo.
  - intros i name size Hn Hs start u.
    assert (zip names sizes !! i = Some (name, size)) as Hz by (by apply lookup_zip_Some).
    specialize (Hd i name size Hz). rewrite Z2 in Hd.
    assert (0 < size) as Hsz by (rewrite Forall_lookup in Hpos; by eapply Hpos).
    destruct (component_units L (rank * L) start size Hsz) as (Hu & _); [by exists rank|].
    split_and!; [done|exact Hd|]. intros k. unfold owned. fold u. rewrite list_elem_of_filter, elem_of_zrange.
    assert ((start + k * u) / L = rank ↔ rank * L ≤ start + k * u < rank * L + L); [|tauto]. split.
    + intros <-. pose proof (Z.mul_div_le (start + k * u) L). pose proof (Z.mul_succ_div_gt (start + k * u) L). lia.
    + intros Hk. symmetry. apply (Z.div_unique (start + k * u) L rank (start + k * u - rank * L)); lia.
Qed.
End split_theorems.

(** ** Heads under tensor parallelism *)

Lemma assert_divides_inr b a : assert_divides b a = inr tt → b ≠ 0 ∧ a = b * (a / b).
Proof.
  unfold assert_divides, pmod. case_bool_decide as Hb; cbn; [done|]. case_bool_decide as Hr; [|done]. intros _. split; [done|].
  pose proof (Z.div_mod a b Hb). lia.
Qed.

(** The layout of heads covers them: every rank has its share of the query heads,
    and every shard of the key and value heads is owned by the same number of
    consecutive ranks. *)
Theorem qkv_layout_covers num_heads num_kv_heads tp l : get_qkv_tp_layout num_heads num_kv_heads tp = inr l →
  num_heads_local l * tp = num_heads ∧ num_kv_shards l * num_kv_heads_local l = num_kv_heads ∧
  0 < num_kv_head_replicas l ∧ num_kv_shards l * num_kv_head_replicas l = tp ∧
  ∀ r, 0 ≤ r < tp → ∃ s, get_kv_shard_rank l r = inr s ∧ 0 ≤ s < num_kv_shards l ∧
    num_kv_head_replicas l * s ≤ r < num_kv_head_replicas l * (s + 1).
Proof.
  unfold get_qkv_tp_layout. intros E. apply bind_inr in E as (? & Ht%ensure_inr%bool_decide_eq_true & E).
  apply bind_inr in E as (? & Hk%ensure_inr%bool_decide_eq_true & E). apply bind_inr in E as ([] & [_ Eh]%assert_divides_inr & E). revert E.
  assert (∀ (l : QKVTPLayout), tp_size l = tp → 0 < num_kv_head_replicas l → num_kv_shards l * num_kv_head_replicas l = tp →
    ∀ r, 0 ≤ r < tp → ∃ s, get_kv_shard_rank l r = inr s ∧ 0 ≤ s < num_kv_shards l ∧
      num_kv_head_replicas l * s ≤ r < num_kv_head_replicas l * (s + 1)) as Hshard.
  { intros l' E1 Hp E2 r Hr. exists (r / num_kv_head_replicas l'). unfold get_kv_shard_rank. rewrite E1, bool_decide_eq_true_2 by done.
    cbn [ensure mbind res_bind]. unfold pdiv. rewrite bool_decide_eq_false_2 by lia. split; [done|].
    pose proof (Z.mul_div_le r _ Hp). pose proof (Z.mul_succ_div_gt r _ Hp). split; [|lia].
    split; [apply Z.div_pos; lia|apply Z.div_lt_upper_bound; lia]. }
  case_bool_decide as Hle.
  - intros E. apply bind_inr in E as ([] & [_ Ek]%assert_divides_inr & [= <-]).
    assert (num_kv_shards (mkLayout tp (num_heads / tp) (num_kv_heads / tp) 1) = tp) as Es by (unfold num_kv_shards; cbn; apply Z.div_1_r).
    rewrite Es. cbn [num_heads_local num_kv_heads_local num_kv_head_replicas]. split_and!; [lia|lia|lia|lia|].
    intros r Hr. pose proof (Hshard (mkLayout tp (num_heads / tp) (num_kv_heads / tp) 1) eq_refl eq_refl ltac:(rewrite Es; cbn; lia) r Hr) as HS.
    rewrite Es in HS. exact HS.
  - intros E. apply bind_inr in E as ([] & [_ Ek]%assert_divides_inr & [= <-]).
    assert (0 < tp / num_kv_heads) as Hr by (apply Z.div_str_pos; lia).
    assert (tp / (tp / num_kv_heads) = num_kv_heads) as Es by (rewrite Ek at 1; apply Z.div_mul; lia).
    set (l := mkLayout tp (num_heads / tp) 1 (tp / num_kv_heads)) in *.
    assert (num_kv_shards l = num_kv_heads) as El by exact Es. rewrite El. split_and!; [cbn; lia|cbn; lia|done|cbn; lia|].
    intros r Hr'. pose proof (Hshard l eq_refl Hr ltac:(rewrite El; cbn; lia) r Hr') as HS. rewrite El in HS. exact HS.
Qed.

Lemma qkv_layout_covers_witness : num_kv_shards (mkLayout 8 2 1 4) * 1 = 2.
Proof. destruct (qkv_layout_covers 16 2 8 (mkLayout 8 2 1 4) eq_refl) as (_ & H & _). exact H. Defined.

Lemma visual_sharding_run tp r : 1 ≤ tp → 0 ≤ r < tp →
  ∃ loc, make_visual_qkv_tp_sharding tp r = inr (mkSharding [(0, 3 * tp)] loc [[r]; [tp + r]; [2 * tp + r]]).
Proof.
  intros Ht Hr. unfold make_visual_qkv_tp_sharding. rewrite !bool_decide_eq_true_2 by lia. cbn [ensure mbind res_bind].
  unfold new_sharding, validate_local_shard_mesh. cbn [length forallb increasing shard_ltb andb negb].
  rewrite !(bool_decide_eq_true_2 (1%nat = 1%nat)) by done. cbn [andb negb].
  rewrite (bool_decide_eq_false_2 (r = tp + r)), (bool_decide_eq_false_2 (tp + r = 2 * tp + r)) by lia.
  rewrite (bool_decide_eq_true_2 (r < tp + r)), (bool_decide_eq_true_2 (tp + r < 2 * tp + r)) by lia. cbn [andb negb].
  assert (dim_sizes 1 [[r]; [tp + r]; [2 * tp + r]] = [3]) as ->.
  { unfold dim_sizes. cbn [seq fmap list_fmap]. f_equal. change (omap _ _) with [r; tp + r; 2 * tp + r].
    rewrite size_list_to_set; [done|]. repeat constructor; rewrite ?not_elem_of_cons; split_and?; try lia; apply not_elem_of_nil. }
  rewrite bool_decide_eq_false_2 by (intros E; apply E; done). by eexists.
Qed.

Section visual.
Context `{TensorLaws}.

(** Under tensor parallelism a rank holds its heads of the query, key and value
    parts of a visual parameter, one after the other; the descriptor numbers them
    as that tensor's shards, and the ranks together own every shard once. *)
Theorem visual_sharding_exact G t tp hl r parts :
  1 ≤ tp → 0 ≤ r < tp → 0 < hl → shape G !! 0%nat = Some (3 * (tp * hl)) →
  map_res (λ c, narrow 0 (c * (tp * hl) + r * hl) hl G) [0; 1; 2] = inr parts → cat 0 parts = inr t →
  ∃ s, make_visual_qkv_tp_sharding tp r = inr s ∧ shard_mesh s = [(0, 3 * tp)] ∧
    (∃ idxs, shard_indices s = singles idxs ∧ holds_shards hl 0 G t idxs) ∧
    ∀ k, 0 ≤ k < 3 * tp → [k] ∈ shard_indices s ↔ k mod tp = r.
Proof.
  intros Ht Hr Hh HG Hparts Hcat. destruct (visual_sharding_run tp r Ht Hr) as [loc ->]. eexists. split; [done|]. split; [done|]. split.
  - exists [r; tp + r; 2 * tp + r]. split; [done|].
    assert (∀ c, 0 ≤ c ≤ 2 → ∃ p, narrow 0 (c * (tp * hl) + r * hl) hl G = inr p ∧ is_narrow 0 (c * (tp * hl) + r * hl) hl G p) as Hn.
    { intros c Hc. eapply narrow_law; [done|nia|lia|nia]. }
    destruct (Hn 0 ltac:(lia)) as (p0 & E0 & N0), (Hn 1 ltac:(lia)) as (p1 & E1 & N1), (Hn 2 ltac:(lia)) as (p2 & E2 & N2).
    cbn [map_res] in Hparts. rewrite E0, E1, E2 in Hparts. injection Hparts as <-.
    assert (∀ c p, is_narrow 0 c hl G p → shape p !! 0%nat = Some hl) as Hs.
    { intros c p [_ -> _]. apply list_lookup_insert_eq. by eapply lookup_lt_Some. }
    assert (cat_compatible 0 [p0; p1; p2]) as Hc.
    { assert (∀ c p, is_narrow 0 c hl G p → shape p = <[0%nat := hl]> (shape G)) as Hsh by (by intros c p [_ -> _]).
      apply cat_compatible_head. split; [eapply lookup_lt_Some; by eapply Hs|].
      rewrite !Forall_cons, Forall_nil. unfold compatible_with. by rewrite (Hsh _ _ N0), (Hsh _ _ N1), (Hsh _ _ N2). }
    assert (∀ j c p, [p0; p1; p2] !! j = Some p → is_narrow 0 (c * (tp * hl) + r * hl) hl G p → c = Z.of_nat j →
      ∃ p' q, narrow 0 (Z.of_nat j * hl) hl t = inr p' ∧ narrow 0 (0 + (c * tp + r) * hl) hl G = inr q ∧ same p' q) as Hpart.
    { intros j c p Hj Np ->. pose proof (cat_part 0 p0 [p1; p2] t j p hl Hc Hcat Hj (Hs _ _ Np)) as Nt.
      assert (sum_Z (sizes_at 0 (take j [p0; p1; p2])) = Z.of_nat j * hl) as Eo.
      { assert (j < 3)%nat by (apply lookup_lt_Some in Hj; done).
        destruct j as [|[|[|]]]; [..|lia]; cbn [take]; rewrite ?(sizes_at_cons 0 p0 _ hl), ?(sizes_at_cons 0 p1 _ hl) by (by eapply Hs);
          change (sizes_at 0 []) with (@nil Z); cbn [sum_Z foldr]; lia. }
      rewrite Eo in Nt. pose proof Nt as [(n & Hn' & ? & ? & ?) _ _].
      destruct (narrow_law 0 (Z.of_nat j * hl) hl t n) as (p' & Ep & Np'); [done|lia..|].
      destruct (narrow_dim _ _ _ _ _ Np) as (m & Hm & ? & ? & ?).
      destruct (narrow_law 0 (0 + (Z.of_nat j * tp + r) * hl) hl G m) as (q & Eq & Nq); [done|nia..|].
      exists p', q. split_and!; [done|done|]. transitivity p; [exact (narrow_unique _ _ _ _ _ _ Np' Nt)|].
      replace (0 + (Z.of_nat j * tp + r) * hl) with (Z.of_nat j * (tp * hl) + r * hl) in Nq by lia. exact (narrow_unique _ _ _ _ _ _ Np Nq). }
    intros j k Hk. destruct j as [|[|[|]]]; cbn in Hk; simplify_eq.
    + by apply (Hpart 0%nat 0 p0).
    + replace (tp + r) with (1 * tp + r) by lia. by apply (Hpart 1%nat 1 p1).
    + by apply (Hpart 2%nat 2 p2).
  - intros k Hk. cbn [shard_indices]. rewrite !elem_of_cons, elem_of_nil. split.
    + intros [[= ->]|[[= ->]|[[= ->]|[]]]].
      * by apply Z.mod_small.
      * replace (tp + r) with (r + 1 * tp) by lia. by rewrite Z.mod_add, Z.mod_small by lia.
      * replace (2 * tp + r) with (r + 2 * tp) by lia. by rewrite Z.mod_add, Z.mod_small by lia.
    + intros Hm. pose proof (Z.div_mod k tp ltac:(lia)) as E. assert (0 ≤ k / tp < 3) as Hq by (split; [apply Z.div_pos; lia|apply Z.div_lt_upper_bound; lia]).
      assert (k / tp = 0 ∨ k / tp = 1 ∨ k / tp = 2) as [Eq|[Eq|Eq]] by lia; rewrite Eq in E; [left|right; left|do 2 right; left]; f_equal; lia.
Qed.
End visual.

(** ** The HF split *)

Section hf_split.
Context `{TensorLaws}.

(** The canonical shards of a component that lie in rows [lo .. lo + L), when every
    component is cut into as many shards as there are ranks. *)
Definition hf_owned (ws L lo start rows : Z) : list Z := filter (λ k, lo ≤ start + k * (rows / ws) < lo + L) (zrange 0 ws).

Definition hf_described (r : tensor * NIXLSharding) (ws L lo start rows : Z) (G : tensor) : Prop :=
  shard_indices r.2 = singles (hf_owned ws L lo start rows) ∧
  (shard_indices r.2 ≠ [] → shard_mesh r.2 = [(0, ws)]) ∧
  holds_shards (rows / ws) start G r.1 (hf_owned ws L lo start rows).

Lemma split_output_spec G t ws L lo start rows r total :
  shape G !! 0%nat = Some total → 0 < ws → 0 < L → 0 < rows → 0 ≤ start → start + rows ≤ total → 0 ≤ lo → is_narrow 0 lo L G t →
  split_output t ws lo (lo + L) start rows = inr r → Z.max lo start < Z.min (lo + L) (start + rows) ∨ (ws | rows) → hf_described r ws L lo start rows G.
Proof.
  intros HG Hws HL Hr Hst Htot Hlo Ht E Hcase. unfold split_output in E. case_bool_decide as Ho.
  - destruct Hcase as [Hcase|Hdiv]; [lia|]. apply bind_inr in E as (p & Ep & [= <-]). unfold hf_described. cbn [fst snd shard_indices empty_sharding].
    assert (hf_owned ws L lo start rows = []) as Eo.
    { apply filter_none. intros k Hk%elem_of_zrange. destruct Hdiv as [c Hc]. rewrite Hc, Z.div_mul by lia. nia. }
    rewrite Eo. split_and!; [done|done|]. intros j k Hk. by rewrite lookup_nil in Hk.
  - apply bind_inr in E as ([] & [_ Er]%assert_divides_inr & E). set (u := rows / ws) in *.
    apply bind_inr in E as ([] & [Hu Ea]%assert_divides_inr & E). apply bind_inr in E as ([] & [_ Eb]%assert_divides_inr & E).
    set (os := Z.max lo start) in *. set (oe := Z.min (lo + L) (start + rows)) in *.
    set (a := (os - start) / u) in *. set (n := (oe - os) / u) in *. assert (0 < u) by nia.
    apply bind_inr in E as (p & Ep & E). apply bind_inr in E as (s & Es & [= <-]).
    assert (0 < n) by nia. change ((λ i : Z, [i]) <$> zrange a (a + n)) with (singles (zrange a (a + n))) in Es.
    rewrite new_range_sharding in Es by lia. injection Es as <-.
    assert (hf_owned ws L lo start rows = zrange a (a + n)) as Eo.
    { unfold hf_owned. fold u. rewrite (filter_zrange _ a (if bool_decide (oe = start + rows) then ws else a + n)).
      - case_bool_decide; unfold os, oe in *; f_equal; nia.
      - case_bool_decide; unfold os, oe in *; nia.
      - lia.
      - intros k Hk. case_bool_decide; unfold os, oe in *; split; nia. }
    unfold hf_described. cbn [fst snd shard_indices shard_mesh]. rewrite Eo. split_and!; [done|done|].
    assert (shape t !! 0%nat = Some L) as Hs. { destruct Ht as [_ -> _]. apply list_lookup_insert_eq. by eapply lookup_lt_Some. }
    destruct (narrow_law 0 (os - lo) (oe - os) t L) as (p' & Ep' & Np); [done|unfold os, oe in *; lia..|].
    rewrite Ep in Ep'. injection Ep' as <-.
    eapply (holds_range u start G p a (a + n) os (oe - os) total); [done|done|unfold os; lia|unfold os, oe; lia| |nia|nia].
    pose proof (narrow_trans _ _ _ _ _ _ _ _ Ht Np) as Nt. by replace (lo + (os - lo)) with os in Nt by lia.
Qed.

(** What the split of a row shard returns is exact: every component comes with
    the shards of it that lie in the rank's rows, in as many shards as there are
    ranks.  A component that misses the rank's rows comes empty. *)
Theorem hf_split_exact G t ws rank specs out :
  Forall (λ row : string * Z, 0 < row.2 ∧ (ws | row.2)) specs → NoDup specs.*1 → 0 < ws → 0 ≤ rank < ws →
  shape G !! 0%nat = Some (sum_Z specs.*2) → let L := sum_Z specs.*2 / ws in is_narrow 0 (rank * L) L G t →
  split_dim0_fsdp_shard t ws rank specs = inr out →
  ∀ i name rows, specs !! i = Some (name, rows) →
    ∃ r, assoc name out = Some r ∧ hf_described r ws L (rank * L) (sum_Z (take i specs.*2)) rows G.
Proof.
  intros Hpos Hnd Hws Hr HG L Ht E. unfold split_dim0_fsdp_shard in E.
  apply bind_inr in E as ([] & [_ Etot]%assert_divides_inr & E). apply bind_inr in E as (n & _ & E). apply bind_inr in E as ([] & _ & E).
  fold L in Etot, E. set (total := sum_Z specs.*2) in *.
  assert (∀ l : list (string * Z), Forall (λ row : string * Z, 0 < row.2 ∧ (ws | row.2)) l → 0 ≤ sum_Z l.*2) as Hnn.
  { induction 1 as [|row l [Hx _] Hl IHl]; cbn [fmap list_fmap sum_Z foldr] in *; [lia|]. unfold sum_Z in *. lia. }
  intros i name rows Hi.
  assert (0 < L) as HL.
  { assert (0 < total) as Hp; [|nia]. unfold total. destruct Hpos as [|row l [Hx _] Hl]; [done|]. specialize (Hnn l Hl).
    cbn [fmap list_fmap sum_Z foldr]. unfold sum_Z in *. lia. }
  clearbody L. assert (0 ≤ rank * L) as Hlo by nia. set (lo := rank * L) in *. clearbody lo.
  assert (∀ specs start acc, Forall (λ row : string * Z, 0 < row.2 ∧ (ws | row.2)) specs → NoDup specs.*1 → 0 ≤ start →
    start + sum_Z specs.*2 ≤ total → split_outputs t ws lo (lo + L) start specs acc = inr out →
    (∀ n, n ∉ specs.*1 → assoc n out = assoc n acc) ∧
    ∀ i name rows, specs !! i = Some (name, rows) →
      ∃ r, assoc name out = Some r ∧ hf_described r ws L lo (start + sum_Z (take i specs.*2)) rows G) as Hgen.
  { clear i name rows Hi Hpos Hnd E. intros sp. induction sp as [|[name rows] sp IH]; intros start acc Hpos Hnd Hst Htot E.
    { injection E as <-. split; [done|]. intros i ? ? Hi. by rewrite lookup_nil in Hi. }
    apply Forall_cons in Hpos as [[Hrow Hdiv] Hpos]. cbn [fmap list_fmap fst snd] in *. apply NoDup_cons in Hnd as [Hni Hnd].
    cbn [sum_Z foldr] in Htot. fold (sum_Z sp.*2) in Htot. pose proof (Hnn sp Hpos).
    cbn [split_outputs] in E. apply bind_inr in E as (r & Er & E).
    destruct (IH (start + rows) (dict_set name r acc) Hpos Hnd ltac:(lia) ltac:(lia) E) as [Ho Hd]. split.
    - intros m Hm. rewrite not_elem_of_cons in Hm. destruct Hm as [Hne Hm]. rewrite Ho by done. by rewrite assoc_dict_set, decide_False.
    - intros [|i] nm rw Hi; cbn in Hi.
      + injection Hi as <- <-. exists r. rewrite Ho by done. rewrite assoc_dict_set, decide_True by done. split; [done|].
        cbn [take sum_Z foldr]. rewrite Z.add_0_r. eapply split_output_spec; [done|done|done|done|done| |done|done|done|by right]. lia.
      + cbn [take sum_Z foldr fmap list_fmap fst snd]. fold (sum_Z (take i sp.*2)). rewrite Z.add_assoc. by apply Hd. }
  destruct (Hgen specs 0 [] Hpos Hnd ltac:(lia) ltac:(lia) E) as [_ Hd]. exact (Hd i name rows Hi).
Qed.
End hf_split.

(** ** Concrete shards *)

Import Views.

Definition demo_rows (n : Z) : @tensor views := Views.mkView [n] (λ idx, default 0 (head idx)).
Definition demo_slice (start len n : Z) : @tensor views := Views.mkView [len] (λ idx, Views.v_elem (demo_rows n) (alter (Z.add start) 0%nat idx)).

Lemma demo_slice_narrow start len n : 0 ≤ start → 0 ≤ len → start + len ≤ n → is_narrow 0 start len (demo_rows n) (demo_slice start len n).
Proof.
  intros H1 H2 H3. split.
  - exists n. split_and!; [|done..]. cbn. f_equal. lia.
  - cbn. f_equal. lia.
  - done.
Qed.

Lemma fsdp_split_exact_witness : ∃ out,
  split_dim0_fused_fsdp_param (demo_slice 2 2 6) (mkSharding [(0, 3)] [(0, 1)] [[1]]) ["q"; "v"] [2; 4] = inr out ∧
  described  out 2 2 2 "v" 4 (demo_rows 6).
Proof.
  destruct (fsdp_split_exact  (demo_rows 6) (demo_slice 2 2 6) 3 [(0, 1)] 1 2 ["q"; "v"] [2; 4]) as (out & E & Hd);
    [done|done|repeat constructor|repeat constructor; set_solver|done|done|lia|by apply demo_slice_narrow|].
  exists out. split; [exact E|]. exact (proj1 (proj2 (Hd 1%nat "v" 4 eq_refl eq_refl))).
Defined.

(** The first of three ranks holds all of "q" and the first of five shards of "v". *)
Example fsdp_split_run : match split_dim0_fused_fsdp_param (demo_slice 0 4 12) (mkSharding [(0, 3)] [(0, 1)] [[0]]) ["q"; "v"] [2; 10] with
  | inr out => inr ((λ s, (shard_mesh s, shard_indices s)) ∘ snd <$> out.2) | inl e => inl e end =
  inr [([(0, 1)], [[0]]); ([(0, 5)], [[0]])].
Proof. vm_compute. reflexivity. Qed.

Lemma visual_sharding_exact_witness : ∃ s, make_visual_qkv_tp_sharding 2 1 = inr s ∧ ([3] ∈ shard_indices s ↔ 3 mod 2 = 1).
Proof.
  destruct (visual_sharding_exact  (demo_rows 12)
    (match cat  0 [demo_slice 2 2 12; demo_slice 6 2 12; demo_slice 10 2 12] with inr t => t | inl _ => demo_rows 0 end)
    2 2 1 [demo_slice 2 2 12; demo_slice 6 2 12; demo_slice 10 2 12]) as (s & E & _ & _ & Hs);
    [lia|lia|lia|reflexivity|reflexivity|reflexivity|].
  exists s. split; [exact E|]. apply Hs. lia.
Defined.

Lemma hf_split_exact_witness : ∃ r : @tensor views * NIXLSharding,
  hf_described  r 2 4 4 4 4 (demo_rows 8).
Proof.
  destruct (split_dim0_fsdp_shard (demo_slice 4 4 8) 2 1 [("q", 2); ("k", 2); ("v", 4)]) as [e|out] eqn:E; [discriminate E|].
  destruct (hf_split_exact  (demo_rows 8) (demo_slice 4 4 8) 2 1 [("q", 2); ("k", 2); ("v", 4)] out) with (i := 2%nat) (name := "v") (rows := 4) as (r & _ & Hr);
    [repeat constructor; cbn; (lia || (by exists 1) || (by exists 2))|repeat constructor; set_solver|lia|lia|done|by apply (demo_slice_narrow 4 4 8)|exact E|done|].
  exists r. exact Hr.
Defined.

Definition result_ok {A} (r : Res A) : bool := match r with inr _ => true | inl _ => false end.

(** Where the FSDP split succeeds the HF split may raise: it cuts every component
    into as many shards as there are ranks. *)
Example hf_split_raises :
  result_ok (split_dim0_fused_fsdp_param (demo_slice 0 3 12) (mkSharding [(0, 4)] [(0, 1)] [[0]]) ["q"; "k"; "v"] [2; 2; 8]) = true ∧
  result_ok (split_dim0_fsdp_shard (demo_slice 0 3 12) 4 0 [("q", 2); ("k", 2); ("v", 8)]) = false.
Proof. split; vm_compute; reflexivity. Qed.
