(* ===== verification/QkvLayout.v ===== *)
(** * The layout of query, key and value weights

    psrl/utils/converter/base_converter.py: how a local query, key or value weight
    is reshaped so that every side of a transfer registers the same tensor, and
    which blocks of it the rank then owns; param_sync.py: keeping tensors that are
    not views of a train parameter in step with it. *)

From S2P Require Import Prelude.
From S2P Require Import PyData.
From S2P Require Import EnvShell.
From S2P Require Import PyStr.
From S2P Require Import Sharding.
From S2P Require Import Tensors.
From S2P Require Import ModelSlices.
From S2P Require Import ShardSplit.
From S2P Require Import ShardSplitTheorems.

#[local] Open Scope string_scope.
#[local] Open Scope list_scope.
#[local] Open Scope Z_scope.

Section reshape.
Context `{TensorOps}.

(** The sizes of a local weight: rows, and the hidden size that a bias lacks. *)
Definition rows_and_hidden (t : tensor) : Res (Z * Z) :=
  rows ← dim_size 0 t; hidden ← (if bool_decide (ndim t = 2%nat) then dim_size 1 t else mret 1); mret (rows, hidden).

Definition maybe_reshape_qkv_to_3d (info : Attrs) (name : string) (t : tensor) (s : NIXLSharding) : Res (tensor * NIXLSharding) :=
  match get_attr_or "num_heads" CNone info with
  | CNone => mret (t, s)
  | heads =>
      if negb (is_qkv_weight name) || negb (bool_decide (ndim t = 1%nat ∨ ndim t = 2%nat)) then mret (t, s)
      else if ctrue (get_attr_or "uses_mla_attention" CNone info) && is_q_weight name then mret (t, s)
      else
        num_heads ← cint heads;
        num_kv_heads ← info_at "num_kv_heads" info;
        head_size ← info_at "head_size" info;
        let groups := Z.gcd num_heads num_kv_heads in
        mesh ← match shard_mesh s with row :: _ => mret row | [] => inl StopIteration end;
        rank ← match shard_indices s with (r :: _) :: _ => mret r | _ => inl IndexError end;
        let '(shard_dim, ws) := (mesh : Z * Z) in
        size ← rows_and_hidden t;
        let '(rows, hidden) := (size : Z * Z) in
        let gated := ctrue (get_attr_or "attn_output_gate" (CBool false) info) && is_q_weight name in
        heads_local ← (if bool_decide (shard_dim = 0) then pdiv num_heads ws else mret num_heads);
        kv_heads_local ← (if bool_decide (shard_dim = 0) then pdiv num_kv_heads ws else mret num_kv_heads);
        if bool_decide (shard_dim = 1) then
          u ← reshape_qkv_to_3d heads_local kv_heads_local t;
          s' ← new_sharding [(2, ws)] [[rank]];
          if gated then
            u ← reshape_q_to_5d heads_local head_size u; s' ← new_sharding [(4, ws)] [[rank]]; mret (u, s')
          else mret (u, s')
        else if bool_decide (ws ≤ groups) then
          u ← reshape_qkv_to_3d heads_local kv_heads_local t;
          if gated then u ← reshape_q_to_5d heads_local head_size u; mret (u, s) else mret (u, s)
        else
          _ ← assert_divides groups ws;
          let steps := ws / groups in
          u ← (if gated then
                 _ ← assert_divides (2 * head_size) rows;
                 reshape [1; rows / (2 * head_size); 2; head_size; hidden] t
               else reshape [1; rows; hidden] t);
          s' ← new_sharding [(0, groups); (1, steps)] [[rank / steps; rank mod steps]];
          mret (u, s')
  end.
End reshape.

(** ** Blocks *)

Section blocks.
Context `{TensorLaws}.

(** An index of the block at [coords] of a tensor cut by [mesh], as an index of the
    tensor. *)
Definition block_shift (u : tensor) (mesh : Mesh) (coords : list Z) (idx : list Z) : list Z :=
  foldl (λ idx '((d, _), k), alter (Z.add (k * default 0 (shape u !! Z.to_nat d))) (Z.to_nat d) idx) idx (zip mesh coords).

(** [u] is the block at [coords] of [C], cut by [mesh] into equal blocks. *)
Definition is_block (mesh : Mesh) (coords : list Z) (C u : tensor) : Prop :=
  shape C = foldl (λ sh '(d, c), alter (Z.mul c) (Z.to_nat d) sh) (shape u) mesh ∧
  ∀ idx, valid (shape u) idx → elem u idx = elem C (block_shift u mesh coords idx).

Lemma ravel_shift off n s i idx : ravel (n :: s) (off + i :: idx) = off * product s + ravel (n :: s) (i :: idx).
Proof. cbn [ravel]. lia. Qed.

Lemma product_single n : product [n] = n.
Proof. rewrite product_cons. change (product []) with 1. lia. Qed.

(** A slice of rows, reshaped, is read from the reshaped whole. *)
Lemma contiguous_elem G t C u off l R rest su sC idx jdx :
  shape G = R :: rest → is_narrow 0 off l G t → is_reshape su t u → is_reshape sC G C →
  valid su idx → valid sC jdx → product su = product (shape t) → ravel sC jdx = off * product rest + ravel su idx → elem u idx = elem C jdx.
Proof.
  intros HG Nt [Hu Eu] [HC EC] Hi Hj Hp Hr. destruct Nt as [(n & Hn & H1 & H2 & H3) Hs He].
  rewrite HG in Hn. injection Hn as <-. rewrite HG in Hs. cbn in Hs.
  pose proof (ravel_bounds su idx Hi) as Hb. pose proof (elem_shape t) as Hnn.
  set (idx' := unravel (shape t) (ravel su idx)).
  assert (valid (shape t) idx') as Hv by (apply unravel_valid; [done|lia]).
  assert (ravel (shape t) idx' = ravel su idx) as Er by (apply ravel_unravel; [done|lia]).
  rewrite (Eu idx idx') by (rewrite ?Hu; done). rewrite He by done.
  assert (is_Some (idx' !! 0%nat)) as [i0 Hi0]. { apply lookup_lt_is_Some_2. rewrite (valid_length _ _ Hv), Hs. cbn. lia. }
  destruct idx' as [|i tl] eqn:Ei; [done|]. cbn [alter list_alter]. symmetry.
  assert (valid (R :: rest) (off + i :: tl)) as Hv'.
  { rewrite Hs in Hv. apply valid_cons in Hv as [Hv1 Hv2]. apply valid_cons. split; [lia|done]. }
  apply EC; [by rewrite HC|by rewrite HG|]. rewrite HC, Hr, HG, ravel_shift. rewrite Hs in Er. cbn [ravel] in *. lia.
Qed.
End blocks.

Section qkv.
Context `{TensorLaws}.

(** The metadata and the name of a weight that is reshaped without a gate. *)
Record plain_qkv (info : Attrs) (name : string) (num_heads num_kv_heads head_size : Z) : Prop := {
  pq_heads : assoc "num_heads" info = Some (CInt num_heads);
  pq_kv : assoc "num_kv_heads" info = Some (CInt num_kv_heads);
  pq_size : assoc "head_size" info = Some (CInt head_size);
  pq_name : is_qkv_weight name = true;
  pq_gate : ctrue (get_attr_or "attn_output_gate" (CBool false) info) && is_q_weight name = false;
  pq_mla : ctrue (get_attr_or "uses_mla_attention" CNone info) && is_q_weight name = false;
}.

Lemma size_of t rows rest : shape t = rows :: rest → (length rest ≤ 1)%nat → rows_and_hidden t = inr (rows, product rest).
Proof.
  intros Hs Hl. unfold rows_and_hidden, dim_size, ndim. rewrite Hs. cbn [lookup list_lookup mbind res_bind].
  destruct rest as [|h [|]]; cbn [length] in *; [..|lia].
  - rewrite bool_decide_eq_false_2 by done. done.
  - rewrite bool_decide_eq_true_2 by done. by rewrite product_single.
Qed.

Lemma reshape_3d_run a b t rows rest u : shape t = rows :: rest → (length rest ≤ 1)%nat → Z.gcd a b ≠ 0 → (Z.gcd a b | rows) →
  reshape [Z.gcd a b; rows / Z.gcd a b; product rest] t = inr u → reshape_qkv_to_3d a b t = inr u.
Proof.
  intros Hs Hl Hg [q Hq] Hu. pose proof (size_of t rows rest Hs Hl) as E. unfold rows_and_hidden in E. unfold reshape_qkv_to_3d.
  apply bind_inr in E as (r & Er & E). apply bind_inr in E as (h & Eh & [= -> ->]). rewrite Er. cbn [mbind res_bind]. rewrite Eh. cbn [mbind res_bind].
  unfold assert_divides, pmod. rewrite bool_decide_eq_false_2 by done. cbn [mbind res_bind].
  rewrite Hq, Z.mod_mul by done. rewrite bool_decide_eq_true_2 by done. cbn [ensure mbind res_bind]. rewrite <- Hq. exact Hu.
Qed.

Lemma plain_run info name a b hs t rows rest d ws r loc : plain_qkv info name a b hs → shape t = rows :: rest → (length rest ≤ 1)%nat → ws ≠ 0 →
  maybe_reshape_qkv_to_3d info name t (mkSharding [(d, ws)] loc [[r]]) =
  let groups := Z.gcd a b in
  if bool_decide (d = 1) then u ← reshape_qkv_to_3d (if bool_decide (d = 0) then a / ws else a) (if bool_decide (d = 0) then b / ws else b) t;
    s' ← new_sharding [(2, ws)] [[r]]; mret (u, s')
  else if bool_decide (ws ≤ groups) then
    u ← reshape_qkv_to_3d (if bool_decide (d = 0) then a / ws else a) (if bool_decide (d = 0) then b / ws else b) t;
    mret (u, mkSharding [(d, ws)] loc [[r]])
  else _ ← assert_divides groups ws; u ← reshape [1; rows; product rest] t;
    s' ← new_sharding [(0, groups); (1, ws / groups)] [[r / (ws / groups); r mod (ws / groups)]]; mret (u, s').
Proof.
  intros [H1 H2 H3 H4 H5 H6] Hs Hl Hws. unfold maybe_reshape_qkv_to_3d, get_attr_or at 1. rewrite H1, H4. cbn [negb orb].
  rewrite (bool_decide_eq_true_2 (ndim t = 1%nat ∨ ndim t = 2%nat)) by (unfold ndim; rewrite Hs; destruct rest as [|? [|]]; cbn in *; [by left|by right|lia]).
  cbn [negb]. rewrite H6. cbn [cint mbind res_bind]. unfold info_at. rewrite H2, H3. cbn [cint mbind res_bind shard_mesh shard_indices].
  rewrite (size_of t rows rest Hs Hl). cbn [mret res_ret mbind res_bind]. rewrite H5. unfold pdiv. rewrite !(bool_decide_eq_false_2 (ws = 0)) by done.
  destruct (bool_decide (d = 0)); done.
Qed.
End qkv.

Lemma new_single_sharding mesh idx : ∃ loc, new_sharding mesh [idx] = inr (mkSharding mesh loc [idx]).
Proof.
  unfold new_sharding, validate_local_shard_mesh. cbn [forallb increasing]. rewrite (bool_decide_eq_true_2 (length idx = length idx)) by done.
  cbn [andb negb]. assert (dim_sizes (length idx) [idx] = replicate (length idx) 1) as ->.
  { unfold dim_sizes. apply list_eq_same_length with (n := length idx); [by rewrite length_replicate|by rewrite length_fmap, length_seq|].
    intros i x y Hi Hx Hy. rewrite list_lookup_fmap, lookup_seq_lt in Hx by done. cbn in Hx. injection Hx as <-.
    rewrite lookup_replicate_2 in Hy by done. injection Hy as <-. destruct (lookup_lt_is_Some_2 idx i Hi) as [z ->].
    cbn. rewrite right_id_L by apply _. by rewrite size_singleton. }
  rewrite bool_decide_eq_false_2; [by eexists|]. intros E. apply E. cbn.
  assert (∀ n, product (replicate n 1) = 1) as ->; [|done]. induction n as [|n IH]; [done|]. cbn [replicate]. rewrite product_cons. lia.
Qed.

Section blocks_exact.
Context `{TensorLaws}.

Lemma valid2 a b i j : valid [a; b] [i; j] ↔ 0 ≤ i < a ∧ 0 ≤ j < b.
Proof. rewrite !valid_cons. unfold valid. split; [tauto|]. intros [Hi Hj]. split; [exact Hi|]. split; [exact Hj|constructor]. Qed.

Lemma valid3 a b c i j k : valid [a; b; c] [i; j; k] ↔ 0 ≤ i < a ∧ 0 ≤ j < b ∧ 0 ≤ k < c.
Proof. rewrite valid_cons, valid2. done. Qed.

Lemma valid3_inv a b c idx : valid [a; b; c] idx → ∃ i j k, idx = [i; j; k] ∧ 0 ≤ i < a ∧ 0 ≤ j < b ∧ 0 ≤ k < c.
Proof.
  intros Hv. pose proof (valid_length _ _ Hv) as Hl. destruct idx as [|i [|j [|k [|]]]]; try done. exists i, j, k. split; [done|]. by apply valid3.
Qed.

Lemma block_index u d c k idx x : shape u !! Z.to_nat d = Some x →
  block_shift u [(d, c)] [k] idx = alter (Z.add (k * x)) (Z.to_nat d) idx.
Proof. intros E. unfold block_shift. cbn. by rewrite E. Qed.

(** Rows that are a whole number of head groups. *)
Lemma coarse_block G t C u g q ws rank rest : shape G = g * ws * q :: rest → 0 < g → 0 < ws → 0 < q →
  is_narrow 0 (rank * (g * q)) (g * q) G t → 0 ≤ rank < ws →
  is_reshape [g; q; product rest] t u → is_reshape [g * ws; q; product rest] G C → is_block [(0, ws)] [rank] C u.
Proof.
  intros HG Hg Hws Hq Nt Hr Ru RC. assert (shape t = g * q :: rest) as Ht by (destruct Nt as [_ -> _]; by rewrite HG).
  split.
  - destruct Ru as [-> _], RC as [-> _]. change (foldl _ _ _) with [ws * g; q; product rest]. by rewrite Z.mul_comm.
  - intros idx Hv. rewrite (block_index u 0 ws rank idx g) by (by destruct Ru as [-> _]).
    rewrite (reshape_shape _ _ _ Ru) in Hv. apply valid3_inv in Hv as (i & j & k & -> & Hi & Hj & Hk).
    change (alter (Z.add (rank * g)) (Z.to_nat 0) [i; j; k]) with [rank * g + i; j; k].
    eapply contiguous_elem; [exact HG|exact Nt|exact Ru|exact RC|by apply valid3| | |].
    + apply valid3. split_and!; nia.
    + rewrite Ht, !product_cons. change (product []) with 1. lia.
    + cbn [ravel]. rewrite !product_cons. change (product []) with 1. nia.
Qed.

(** Rows that are a part of one head group. *)
Lemma fine_block G t C u groups steps l rank rest : shape G = groups * (steps * l) :: rest → 0 < groups → 0 < steps → 0 < l →
  is_narrow 0 (rank * l) l G t → 0 ≤ rank < groups * steps →
  is_reshape [1; l; product rest] t u → is_reshape [groups; steps * l; product rest] G C →
  is_block [(0, groups); (1, steps)] [rank / steps; rank mod steps] C u.
Proof.
  intros HG Hg Hs Hl Nt Hr Ru RC. assert (shape t = l :: rest) as Ht by (destruct Nt as [_ -> _]; by rewrite HG).
  pose proof (Z.div_mod rank steps ltac:(lia)) as Ed. pose proof (Z.mod_pos_bound rank steps Hs) as Hm.
  assert (0 ≤ rank / steps < groups) as Hd by (split; [apply Z.div_pos; lia|apply Z.div_lt_upper_bound; lia]).
  split.
  - destruct Ru as [-> _], RC as [-> _]. change (foldl _ _ _) with [groups * 1; steps * l; product rest]. by rewrite Z.mul_1_r.
  - intros idx Hv. unfold block_shift. rewrite (reshape_shape _ _ _ Ru) in *. apply valid3_inv in Hv as (i & j & k & -> & Hi & Hj & Hk).
    change (foldl _ _ _) with [rank / steps * 1 + i; rank mod steps * l + j; k].
    eapply contiguous_elem; [exact HG|exact Nt|exact Ru|exact RC|by apply valid3| | |].
    + apply valid3. split_and!; nia.
    + rewrite Ht, !product_cons. change (product []) with 1. lia.
    + cbn [ravel]. rewrite !product_cons. change (product []) with 1.
      assert (i = 0) as -> by lia. set (x := rank / steps) in *. set (m := rank mod steps) in *. rewrite Ed. ring.
Qed.

(** Columns of every head. *)
Lemma column_block G t C u groups q l ws rank : shape G = [groups * q; ws * l] → 0 < groups → 0 < q → 0 < l →
  is_narrow 1 (rank * l) l G t → 0 ≤ rank < ws →
  is_reshape [groups; q; l] t u → is_reshape [groups; q; ws * l] G C → is_block [(2, ws)] [rank] C u.
Proof.
  intros HG Hg Hq Hl Nt Hr Ru RC. assert (shape t = [groups * q; l]) as Ht by (destruct Nt as [_ -> _]; by rewrite HG).
  split.
  - destruct Ru as [-> _], RC as [-> _]. done.
  - intros idx Hv. rewrite (block_index u 2 ws rank idx l) by (by destruct Ru as [-> _]).
    rewrite (reshape_shape _ _ _ Ru) in Hv. apply valid3_inv in Hv as (i & j & k & -> & Hi & Hj & Hk).
    change (alter (Z.add (rank * l)) (Z.to_nat 2) [i; j; k]) with [i; j; rank * l + k].
    assert (valid (shape t) [i * q + j; k]) as Vt by (rewrite Ht; apply valid2; split; nia).
    rewrite (reshape_elem _ _ _ Ru [i; j; k] [i * q + j; k]); [..|exact Vt|]; rewrite ?(reshape_shape _ _ _ Ru), ?Ht;
      [|by apply valid3|cbn [ravel]; rewrite !product_cons; change (product []) with 1; lia].
    rewrite (narrow_elem _ _ _ _ _ Nt) by done. change (alter _ _ _) with [i * q + j; rank * l + k]. symmetry.
    apply (reshape_elem _ _ _ RC); rewrite ?(reshape_shape _ _ _ RC), ?HG.
    + apply valid3. split_and!; nia.
    + apply valid2. split; nia.
    + cbn [ravel]. rewrite !product_cons. change (product []) with 1. lia.
Qed.
End blocks_exact.

Section layout.
Context `{TensorLaws}.

(** What the reshape of the shard at [rank] of [G] returns: the block of the whole
    weight, by groups of heads, that the new sharding describes; [groups] groups of
    [q] rows. *)
Definition exact_block (groups q rank : Z) (G : tensor) (rest : list Z) (r : Res (tensor * NIXLSharding)) : Prop :=
  ∃ u s' coords, r = inr (u, s') ∧ shard_indices s' = [coords] ∧ (length (shard_mesh s') = length coords ∧ coords ≠ []) ∧ ravel (shard_mesh s').*2 coords = rank ∧
    (∃ C, is_reshape [groups; q; product rest] G C) ∧
    ∀ C, is_reshape [groups; q; product rest] G C → is_block (shard_mesh s') coords C u.

(** The same of the tensor and the sharding returned. *)
Definition block_of (groups q rank : Z) (G : tensor) (rest : list Z) (u : tensor) (s' : NIXLSharding) : Prop :=
  ∃ coords, shard_indices s' = [coords] ∧ (length (shard_mesh s') = length coords ∧ coords ≠ []) ∧ ravel (shard_mesh s').*2 coords = rank ∧
    (∃ C, is_reshape [groups; q; product rest] G C) ∧
    ∀ C, is_reshape [groups; q; product rest] G C → is_block (shard_mesh s') coords C u.

Lemma exact_block_inv groups q rank G rest r : exact_block groups q rank G rest r → ∃ u s', r = inr (u, s') ∧ block_of groups q rank G rest u s'.
Proof. intros (u & s' & coords & E & Hb). exists u, s'. split; [done|]. by exists coords. Qed.

Lemma reshape_run s t rows rest : shape t = rows :: rest → Forall (Z.le 0) s → product s = rows * product rest →
  ∃ u, reshape s t = inr u ∧ is_reshape s t u.
Proof. intros Ht Hs Hp. apply reshape_law; [done|]. by rewrite Hp, Ht, product_cons. Qed.

Lemma rest_nonneg t rows rest : shape t = rows :: rest → 0 ≤ product rest.
Proof. intros Ht. pose proof (elem_shape t) as Hn. rewrite Ht in Hn. inversion Hn. by apply product_nonneg. Qed.

Lemma product3 a b c : product [a; b; c] = a * b * c.
Proof. rewrite !product_cons. change (product []) with 1. lia. Qed.

Lemma nonneg3 a b c : 0 ≤ a → 0 ≤ b → 0 ≤ c → Forall (Z.le 0) [a; b; c].
Proof. intros. by repeat (constructor; [done|]). Qed.

Lemma whole_exists G groups q rest : shape G = groups * q :: rest → 0 < groups → 0 < q → ∃ C, is_reshape [groups; q; product rest] G C.
Proof.
  intros HG Hg Hq. pose proof (rest_nonneg _ _ _ HG).
  destruct (reshape_run [groups; q; product rest] G (groups * q) rest HG) as (C & _ & HC); [apply nonneg3; lia|by rewrite product3|by exists C].
Qed.

Section cases.
Variables (info : Attrs) (name : string) (heads kv hs : Z).
Hypothesis plain : plain_qkv info name heads kv hs.
Let groups := Z.gcd heads kv.
Hypothesis groups_pos : 0 < groups.
Variables (G t : tensor) (q l ws rank : Z) (rest : list Z).
Hypotheses (HG : shape G = groups * q :: rest) (Hq : 0 < q) (Hl : 0 < l) (Hws : 0 < ws) (Hr : 0 ≤ rank < ws) (Hrest : (length rest ≤ 1)%nat).

Lemma coarse_case loc : (ws | groups) → ws * l = groups * q → is_narrow 0 (rank * l) l G t →
  exact_block groups q rank G rest (maybe_reshape_qkv_to_3d info name t (mkSharding [(0, ws)] loc [[rank]])).
Proof.
  intros [g Eg] El Nt. assert (0 < g) as Hg by nia. assert (ws ≤ groups) as Hle by (clear - Eg Hg Hws; nia).
  assert (l = g * q) as -> by nia.
  assert (shape t = g * q :: rest) as Ht by (destruct Nt as [_ -> _]; by rewrite HG).
  assert (Z.gcd (heads / ws) (kv / ws) = g) as Egcd.
  { rewrite Z.gcd_div_factor; [|done|..]; [fold groups; rewrite Eg; apply Z.div_mul; lia|..];
      (etransitivity; [exists g; exact Eg|]); [apply Z.gcd_divide_l|apply Z.gcd_divide_r]. }
  pose proof (rest_nonneg _ _ _ Ht). destruct (reshape_run [g; q; product rest] t (g * q) rest Ht) as (u & Eu & Ru);
    [apply nonneg3; lia|by rewrite product3|].
  exists u, (mkSharding [(0, ws)] loc [[rank]]), [rank].
  rewrite (plain_run info name heads kv hs t (g * q) rest) by (done || lia). fold groups. cbn zeta.
  rewrite (bool_decide_eq_false_2 (0 = 1)), (bool_decide_eq_true_2 (ws ≤ groups)), (bool_decide_eq_true_2 (0 = 0)) by done.
  rewrite (reshape_3d_run _ _ t (g * q) rest u Ht Hrest); rewrite ?Egcd; [|lia|by exists q; lia|].
  - split; [done|]. split; [done|]. split; [done|]. split; [cbn; lia|]. split; [by apply whole_exists|]. intros C RC. cbn [shard_mesh].
    eapply coarse_block; [|exact Hg|exact Hws|exact Hq|exact Nt|exact Hr|exact Ru|]; rewrite <- Eg; done.
  - rewrite (Z.mul_comm g q), Z.div_mul by lia. done.
Qed.

Lemma fine_case loc : (groups | ws) → ¬ ws ≤ groups → ws * l = groups * q → is_narrow 0 (rank * l) l G t →
  exact_block groups q rank G rest (maybe_reshape_qkv_to_3d info name t (mkSharding [(0, ws)] loc [[rank]])).
Proof.
  intros [steps Es] Hgt El Nt. assert (0 < steps) as Hs by nia. assert (q = steps * l) as Eq by nia.
  assert (shape t = l :: rest) as Ht by (destruct Nt as [_ -> _]; by rewrite HG).
  pose proof (rest_nonneg _ _ _ Ht). destruct (reshape_run [1; l; product rest] t l rest Ht) as (u & Eu & Ru);
    [apply nonneg3; lia|by rewrite product3; lia|].
  destruct (new_single_sharding [(0, groups); (1, steps)] [rank / steps; rank mod steps]) as [loc' Es'].
  eexists u, _, _. rewrite (plain_run info name heads kv hs t l rest) by (done || lia). fold groups. cbn zeta.
  rewrite (bool_decide_eq_false_2 (0 = 1)), (bool_decide_eq_false_2 (ws ≤ groups)) by done.
  unfold assert_divides, pmod. rewrite (bool_decide_eq_false_2 (groups = 0)) by lia. cbn [mbind res_bind].
  rewrite Es, Z.mod_mul, Z.div_mul, (bool_decide_eq_true_2 (0 = 0)) by (done || lia). cbn [ensure mbind res_bind].
  rewrite Eu. cbn [mbind res_bind]. rewrite Es'. cbn [mbind res_bind mret res_ret].
  split; [done|]. split; [done|]. cbn [shard_mesh]. split; [done|]. split; [|split; [by apply whole_exists|]].
  - pose proof (Z.div_mod rank steps ltac:(lia)) as Ed. cbn [fmap list_fmap snd ravel]. rewrite product_single.
    change (product []) with 1. lia.
  - intros C RC. eapply fine_block; [|exact groups_pos|exact Hs|exact Hl|exact Nt| |exact Ru|]; [rewrite <- Eq; done|lia|by rewrite <- Eq].
Qed.

Lemma column_case loc : rest = [ws * l] → is_narrow 1 (rank * l) l G t →
  exact_block groups q rank G rest (maybe_reshape_qkv_to_3d info name t (mkSharding [(1, ws)] loc [[rank]])).
Proof.
  intros Er Nt. rewrite Er in *. assert (shape t = [groups * q; l]) as Ht by (destruct Nt as [_ -> _]; by rewrite HG).
  destruct (reshape_run [groups; q; product [l]] t (groups * q) [l] Ht) as (u & Eu & Ru);
    [rewrite product_single; apply nonneg3; lia|by rewrite product3, product_single|].
  destruct (new_single_sharding [(2, ws)] [rank]) as [loc' Es'].
  eexists u, _, _. rewrite (plain_run info name heads kv hs t (groups * q) [l]) by (done || lia). cbn zeta.
  rewrite (bool_decide_eq_true_2 (1 = 1)), (bool_decide_eq_false_2 (1 = 0)) by done.
  rewrite (reshape_3d_run heads kv t (groups * q) [l] u Ht Hrest); fold groups; [|lia|by exists q; lia|].
  - cbn [mbind res_bind]. rewrite Es'. cbn [mbind res_bind mret res_ret]. split; [done|]. split; [done|]. cbn [shard_mesh].
    split; [done|]. split; [cbn; lia|]. split; [by apply whole_exists|]. rewrite product_single in *. intros C RC.
    eapply column_block; [exact HG|exact groups_pos|exact Hq|exact Hl|exact Nt|exact Hr|exact Ru|exact RC].
  - rewrite (Z.mul_comm groups q), Z.div_mul by lia. done.
Qed.
End cases.

(** A row or column shard of a query, key or value weight is reshaped into the
    block of the whole weight, arranged by groups of heads, that the returned
    sharding describes: a rank with several groups, with a part of one group, or
    with a range of hidden columns registers exactly its own elements of the one
    tensor every side agrees on, and ranks own different blocks. *)
Theorem qkv_block info name heads kv hs G t q l d ws rank rest loc :
  plain_qkv info name heads kv hs → 0 < Z.gcd heads kv → shape G = Z.gcd heads kv * q :: rest → (length rest ≤ 1)%nat →
  0 < q → 0 < l → 0 < ws → 0 ≤ rank < ws →
  d = 0 ∧ ((ws | Z.gcd heads kv) ∨ (Z.gcd heads kv | ws)) ∨ d = 1 →
  shape G !! Z.to_nat d = Some (ws * l) → is_narrow (Z.to_nat d) (rank * l) l G t →
  exact_block (Z.gcd heads kv) q rank G rest (maybe_reshape_qkv_to_3d info name t (mkSharding [(d, ws)] loc [[rank]])).
Proof.
  intros Hp Hg HG Hrest Hq Hl Hws Hr [[-> Hdiv]| ->] Hd Nt; rewrite HG in Hd.
  - injection Hd as Hd. symmetry in Hd. destruct (decide (ws ≤ Z.gcd heads kv)) as [Hle|Hle].
    + refine (coarse_case info name heads kv hs Hp Hg G t q l ws rank rest HG Hq Hl Hws Hr Hrest loc _ Hd Nt).
      destruct Hdiv as [?|Hdiv]; [done|]. apply Z.divide_pos_le in Hdiv as ?; [|done]. exists 1. lia.
    + refine (fine_case info name heads kv hs Hp Hg G t q l ws rank rest HG Hq Hl Hws Hr Hrest loc _ Hle Hd Nt).
      destruct Hdiv as [Hdiv|?]; [|done]. by apply Z.divide_pos_le in Hdiv.
  - destruct rest as [|h [|]]; [done| |cbn in Hrest; lia]. injection Hd as ->.
    exact (column_case info name heads kv hs Hp Hg G t q l ws rank _ HG Hq Hl Hws Hr Hrest loc eq_refl Nt).
Qed.
End layout.

(** ** Runs *)

Import Views.

Module Demo.

(** A grouped-query attention of eight heads over four key-value heads. *)
Definition info : Attrs :=
  [("num_heads", CInt 8); ("num_kv_heads", CInt 4); ("head_size", CInt 2); ("attn_output_gate", CBool false); ("uses_mla_attention", CBool false)].

Definition q_name : string := "model.layers.0.self_attn.q_proj.weight".

(** The global query weight, sixteen rows of three; the shard of [l] rows at [rank]. *)
Definition global : @tensor views := mkView [16; 3] (λ idx, ravel [16; 3] idx).
Definition shard (rank l : Z) : @tensor views := mkView [l; 3] (λ idx, ravel [16; 3] (alter (Z.add (rank * l)) 0%nat idx)).

(** Eight ranks over four groups: a rank owns half of a group. *)
Example fine_run : match maybe_reshape_qkv_to_3d info q_name (shard 5 2) (mkSharding [(0, 8)] [(0, 1)] [[5]]) with
  | inr (u, s') => shape u = [1; 2; 3] ∧ shard_mesh s' = [(0, 4); (1, 2)] ∧ shard_indices s' = [[2; 1]] ∧ elem u [0; 1; 2] = 35
  | inl _ => False end.
Proof. vm_compute. done. Qed.

Lemma info_plain : plain_qkv info q_name 8 4 2.
Proof. by split. Qed.

Lemma shard_narrow rank l : 0 ≤ rank → 0 ≤ l → rank * l + l ≤ 16 → is_narrow 0 (rank * l) l global (shard rank l).
Proof.
  intros Hr Hl Hb. split.
  - exists 16. split_and!; [done|nia|done|done].
  - cbn. unfold dims. cbn. by rewrite Z.max_r.
  - done.
Qed.
End Demo.

Lemma qkv_block_run : plain_qkv Demo.info Demo.q_name 8 4 2 ∧
  exact_block 4 4 5 Demo.global [3] (maybe_reshape_qkv_to_3d Demo.info Demo.q_name (Demo.shard 5 2) (mkSharding [(0, 8)] [(0, 1)] [[5]])).
Proof.
  split; [exact Demo.info_plain|].
  apply (qkv_block Demo.info Demo.q_name 8 4 2 Demo.global (Demo.shard 5 2) 4 2 0 8 5 [3] [(0, 1)]);
    [exact Demo.info_plain|reflexivity|reflexivity|cbn; lia|lia|lia|lia|lia| |reflexivity|].
  - left. split; [reflexivity|]. right. exists 2. reflexivity.
  - apply (Demo.shard_narrow 5 2); lia.
Defined.

(** When the ranks do not divide the groups of heads, the coarse case reshapes
    anyway: four ranks over six heads give blocks of a tensor that is not the whole
    weight arranged by groups, and nothing is raised. *)
Example uneven_heads : match maybe_reshape_qkv_to_3d (H := Views.views) [("num_heads", CInt 6); ("num_kv_heads", CInt 6); ("head_size", CInt 2)]
    Demo.q_name (Views.mkView [3; 5] (λ _, 0)) (mkSharding [(0, 4)] [(0, 1)] [[1]]) with
  | inr (u, s') => @shape Views.views u = [1; 3; 5] ∧ shard_mesh s' = [(0, 4)] ∧ [4 * 1; 3; 5] ≠ [6; 2; 5]
  | inl _ => False end.
Proof. vm_compute. done. Qed.
