(* ===== verification/WeightLayout.v ===== *)
(** * Weight layout plans

    patch/vllm/vllm_plugin/vllm_patches/weight_layout.py: the rules that map the
    parameters of a model to checkpoint parameters, the transforms they name, name
    maps, the synchronisation policy, plans with plans mounted under module
    prefixes, their flattening and the lookup of the rules of a parameter, and the
    builder that models declare their layout with.

    A callable held by a transform is an element of [Code]; regular expressions are
    an interface. *)

From Stdlib Require Import Ascii.
From S2P Require Import Prelude.
From S2P Require Import PyData.
From S2P Require Import EnvShell.
From S2P Require Import PyStr.

#[local] Open Scope list_scope.
#[local] Open Scope string_scope.

(** [re.sub(pattern, repl, s)] and [re.fullmatch(pattern, s)]. *)
Class Regex := { re_sub : string → string → string → string; re_fullmatch : string → string → bool }.

(** ** Data *)

Inductive MatchMode := SUFFIX | PREFIX | EXACT | REGEX.
#[export] Instance match_mode_eq_dec : EqDecision MatchMode.
Proof. solve_decision. Defined.

Inductive ShardId := ShardInt (n : Z) | ShardStr (s : string) | ShardTuple (l : list Z).

(** An entry of the expert parameter mapping of a model: packed suffix, checkpoint
    name, expert and part. *)
Abbreviation ExpertEntry := (string * string * Z * string)%type.

Section data.
Context {Code : Type}.

(** Values of metadata and of module attributes. *)
Inductive mval :=
  | VNone
  | VInt (n : Z)
  | VBool (b : bool)
  | VStr (s : string)
  | VInts (l : list Z)
  | VExperts (l : list ExpertEntry)
  | VCode (c : Code).

Abbreviation Meta := (list (string * mval)).

Inductive WeightTransform := mkTransform {
  kind : string;
  pieces : list WeightPiece;
  axis : Z;
  metadata : Meta;
}
with WeightPiece := mkPiece {
  hf_name : string;
  shard_id : option ShardId;
  offset : option Z;
  plength : option Z;
  ptransform : option WeightTransform;
}.

(** A module of the model: its attributes and the names of its classes. *)
Record NnModule := mkModule { m_attrs : Meta; m_types : list string }.

Definition meta_get (key : string) (m : Meta) (d : mval) : mval := default d (assoc key m).

(** [getattr(module, attr, default)] *)
Definition get_module_attr (module : option NnModule) (attr : string) (d : mval) : mval :=
  match module with Some m => meta_get attr (m_attrs m) d | None => d end.

(** [int(v)]; no string stands for a number. *)
Definition mint (v : mval) : Res Z :=
  match v with VInt n => inr n | VBool b => inr (Z.b2z b) | VStr _ => inl ValueError | _ => inl TypeError end.

Definition mtrue (v : mval) : bool :=
  match v with
  | VNone => false | VInt n => negb (bool_decide (n = 0%Z)) | VBool b => b | VStr s => negb (bool_decide (s = ""))
  | VInts l => negb (bool_decide (l = [])) | VExperts l => negb (bool_decide (length l = O)) | VCode _ => true
  end.

Definition is_none (v : mval) : bool := match v with VNone => true | _ => false end.
End data.

Arguments mval : clear implicits.
Arguments WeightTransform : clear implicits.
Arguments WeightPiece : clear implicits.
Arguments NnModule : clear implicits.
Abbreviation Meta Code := (list (string * mval Code)).

(** A piece that only names its output. *)
Definition named_piece {Code} (hf : string) : WeightPiece Code := mkPiece hf None None None None.
Definition sized_piece {Code} (p : string * option Z) : WeightPiece Code := mkPiece p.1 None None p.2 None.
Definition shard_piece {Code} (hf s : string) : WeightPiece Code := mkPiece hf (Some (ShardStr s)) None None None.

(** ** Transforms *)

Module Transform.
Section transforms.
Context {Code : Type}.
Abbreviation T := (WeightTransform Code).

Definition simple (k hf : string) (m : Meta Code) : T := mkTransform k [named_piece hf] 0 m.

Definition identity (hf : option string) : T := mkTransform "identity" (match hf with Some n => [named_piece n] | None => [] end) 0 [].

Definition qkv (q k v heads_attr kv_heads_attr head_size_attr : string) : T :=
  mkTransform "qkv" [shard_piece q "q"; shard_piece k "k"; shard_piece v "v"] 0
    [("num_heads_attr", VStr heads_attr); ("num_kv_heads_attr", VStr kv_heads_attr); ("head_size_attr", VStr head_size_attr)].

Definition merged_column (ps : list (string * option Z)) (axis : Z) : T := mkTransform "merged_column" (sized_piece <$> ps) axis [].
Definition split (ps : list (string * option Z)) (axis : Z) : T := mkTransform "split" (sized_piece <$> ps) axis [].

Definition fused_moe (w13 w2 gate up down : string) (num_experts : Z) (num_experts_attr : string) (ep_aware : bool) : T :=
  mkTransform "fused_moe" [] 0
    [("w13_name", VStr w13); ("w2_name", VStr w2); ("gate_name", VStr gate); ("up_name", VStr up); ("down_name", VStr down);
     ("num_experts", VInt num_experts); ("num_experts_attr", VStr num_experts_attr); ("ep_aware", VBool ep_aware)].

Definition fused_moe_from_mapping (l : list ExpertEntry) : T := mkTransform "fused_moe" [] 0 [("expert_mapping", VExperts l)].

Definition expert_matrix (hf : string) (num_experts : Z) (transpose_w2 : bool) : T :=
  simple "expert_matrix" hf [("num_experts", VInt num_experts); ("transpose_w2", VBool transpose_w2)].

Definition transpose (hf : string) (d0 d1 : Z) : T := simple "transpose" hf [("dims", VInts [d0; d1])].

(** The new shape: sizes, or an expression. *)
Definition reshape (hf : string) (shape_expr : list Z + string) : T :=
  simple "reshape" hf [("shape_expr", match shape_expr with inl l => VInts l | inr s => VStr s end)].

Definition permute_qk_rotary (hf : string) (head_dim : option Z) (head_dim_attr : string) : T :=
  simple "permute_qk_rotary" hf
    [("head_dim", match head_dim with Some n => VInt n | None => VNone end); ("head_dim_attr", VStr head_dim_attr)].

Definition scalar_extract (hf : string) (index : Z) : T := simple "scalar_extract" hf [("index", VInt index)].

Definition opt_str (s : option string) : mval Code := match s with Some n => VStr n | None => VNone end.

Definition index_select (hf : string) (indices : option (list Z)) (index_attr : option string) (dim : Z) : T :=
  simple "index_select" hf
    [("indices", match indices with Some (i :: l) => VInts (i :: l) | _ => VNone end); ("index_attr", opt_str index_attr); ("dim", VInt dim)].

Definition alias (hf : string) : T := simple "alias" hf [].

Definition derive (hf : string) (fn : option Code) (fn_name : option string) : T :=
  simple "derive" hf [("fn", match fn with Some c => VCode c | None => VNone end); ("fn_name", opt_str fn_name)].

Definition qkv_interleaved (hf heads_attr kv_heads_attr head_dim_attr : string) : T :=
  simple "qkv_interleaved" hf
    [("num_heads_attr", VStr heads_attr); ("num_kv_heads_attr", VStr kv_heads_attr); ("head_dim_attr", VStr head_dim_attr)].

Definition custom (instance : Code) : T := mkTransform "custom" [] 0 [("transform_instance", VCode instance)].
End transforms.
End Transform.

(** ** Name maps *)

Inductive MapMode := MPrefix | MSubstr | MSuffix | MRegex.

Record NameMapper := mkMapper { map_pairs : list (string * string); map_mode : MapMode }.

Section names.
Context `{Regex}.

Definition apply_pair (mode : MapMode) (src dst name : string) : option string :=
  match mode with
  | MPrefix => match strip_prefix src name with Some rest => Some (dst ++ rest) | None => None end
  | MSubstr => if contains src name then Some (replace_first src dst name) else None
  | MSuffix =>
      (** [name[:-0]] is empty. *)
      if bool_decide (src = "") then Some dst
      else match strip_suffix src name with Some base => Some (base ++ dst) | None => None end
  | MRegex => let r := re_sub src dst name in if bool_decide (r = name) then None else Some r
  end.

Fixpoint apply_pairs (mode : MapMode) (l : list (string * string)) (name : string) : option string :=
  match l with
  | [] => None
  | (src, dst) :: l => match apply_pair mode src dst name with Some r => Some r | None => apply_pairs mode l name end
  end.

Definition apply (m : NameMapper) (name : string) : option string := apply_pairs (map_mode m) (map_pairs m) name.
Definition apply_or_identity (m : NameMapper) (name : string) : string := default name (apply m name).

Inductive Mapper := ByMapper (m : NameMapper) | ByDict (d : list (string * string)).

Record ReversibleNameMap := mkNameMap { vllm_to_hf : option Mapper; hf_to_vllm : option Mapper }.

Definition mapper_get (m : option Mapper) (name : string) : option string :=
  match m with
  | None => None
  | Some (ByMapper m) => apply m name
  | Some (ByDict d) => assoc name d
  end.

Definition to_hf (m : ReversibleNameMap) (name : string) : option string := mapper_get (vllm_to_hf m) name.
Definition to_hf_or_identity (m : ReversibleNameMap) (name : string) : string := default name (to_hf m name).
Definition to_vllm (m : ReversibleNameMap) (name : string) : option string := mapper_get (hf_to_vllm m) name.
Definition is_reversible (m : ReversibleNameMap) : bool := bool_decide (is_Some (vllm_to_hf m)) && bool_decide (is_Some (hf_to_vllm m)).

Definition swap_pair (p : string * string) : string * string := (p.2, p.1).

Definition from_prefix_pairs (pairs : list (string * string)) (mode : MapMode) : ReversibleNameMap :=
  mkNameMap (Some (ByMapper (mkMapper pairs mode))) (Some (ByMapper (mkMapper (swap_pair <$> pairs) mode))).

Definition from_exact_pairs (pairs : list (string * string)) : ReversibleNameMap :=
  mkNameMap (Some (ByDict pairs)) (Some (ByDict (foldl (λ d '(k, v), dict_set v k d) [] pairs))).
End names.

(** ** Synchronisation policy *)

Record WeightSyncPolicy := mkPolicy {
  include_prefixes : list string;
  exclude_prefixes : list string;
  exclude_substrs : list string;
}.

Definition default_policy : WeightSyncPolicy := mkPolicy [] [] [].

Definition should_include (p : WeightSyncPolicy) (name : string) : bool :=
  if existsb (λ x, starts_with x name) (exclude_prefixes p) then false
  else if existsb (λ x, contains x name) (exclude_substrs p) then false
  else match include_prefixes p with [] => true | l => existsb (λ x, starts_with x name) l end.

Definition merge (p q : WeightSyncPolicy) : WeightSyncPolicy :=
  mkPolicy (include_prefixes p ++ include_prefixes q) (exclude_prefixes p ++ exclude_prefixes q) (exclude_substrs p ++ exclude_substrs q).

(** ** Rules *)

Section rules.
Context `{Regex} {Code : Type}.

Record WeightLayoutRule := mkRule {
  vllm_pattern : string;
  hf_patterns : list string;
  transform : WeightTransform Code;
  match_mode : MatchMode;
  module_types : list string;
  rule_metadata : Meta Code;
}.

Definition pattern_matches (mode : MatchMode) (pattern name : string) : bool :=
  match mode with
  | EXACT => bool_decide (name = pattern)
  | SUFFIX => ends_with pattern name
  | PREFIX => starts_with pattern name
  | REGEX => re_fullmatch pattern name
  end.

Definition type_matches (types : list string) (module : option (NnModule Code)) : bool :=
  match types, module with
  | [], _ | _, None => true
  | _, Some m => existsb (λ t, bool_decide (t ∈ types)) (m_types m)
  end.

Definition matches (r : WeightLayoutRule) (name : string) (module : option (NnModule Code)) : bool :=
  pattern_matches (match_mode r) (vllm_pattern r) name && type_matches (module_types r) module.

(** ** Plans *)

Record WeightLayoutMount (P : Type) := mkMount { m_prefix : string; m_plan : P; m_name_map : option ReversibleNameMap }.

Inductive WeightLayoutPlan := mkPlan {
  rules : list WeightLayoutRule;
  mounts : list (WeightLayoutMount WeightLayoutPlan);
  name_map : option ReversibleNameMap;
  sync : WeightSyncPolicy;
}.

Record FlattenedRule := mkFlat { f_prefix : string; f_rule : WeightLayoutRule }.

Record ResolvedWeightLayoutPlan := mkResolved {
  r_rules : list FlattenedRule;
  r_name_map : option ReversibleNameMap;
  r_sync : WeightSyncPolicy;
}.

Definition empty_plan : WeightLayoutPlan := mkPlan [] [] None default_policy.

(** [s.rstrip(.)] *)
Fixpoint rstrip_dots (s : string) : string :=
  match s with
  | EmptyString => EmptyString
  | String c s =>
      match rstrip_dots s with
      | EmptyString => if decide (c = "."%char) then EmptyString else String c EmptyString
      | t => String c t
      end
  end.

Definition remount (prefix : string) (f : FlattenedRule) : FlattenedRule :=
  mkFlat (if bool_decide (f_prefix f = "") then prefix else rstrip_dots (prefix ++ "." ++ f_prefix f)) (f_rule f).

(** Mounted plans contribute their rules and their policy; the name map of a mount
    and that of a mounted plan are not read. *)
Fixpoint flatten (p : WeightLayoutPlan) : ResolvedWeightLayoutPlan :=
  match p with
  | mkPlan rules mounts name_map sync =>
      let step acc m :=
        match m with
        | mkMount _ prefix plan _ =>
            let r := flatten plan in ((acc.1 ++ (remount prefix <$> r_rules r))%list, merge acc.2 (r_sync r))
        end in
      let out := foldl step (mkFlat "" <$> rules, sync) mounts in
      mkResolved out.1 name_map out.2
  end.

Definition should_exclude (r : ResolvedWeightLayoutPlan) (name : string) : bool := negb (should_include (r_sync r) name).

(** The index built when a flattened plan is created: rules by prefix. *)
Definition index_rule (d : list (string * list FlattenedRule)) (f : FlattenedRule) : list (string * list FlattenedRule) :=
  dict_set (f_prefix f) (default [] (assoc (f_prefix f) d) ++ [f])%list d.

Definition prefix_index (r : ResolvedWeightLayoutPlan) : list (string * list FlattenedRule) := foldl index_rule [] (r_rules r).

(** [s[n:]] *)
Definition str_drop (n : nat) (s : string) : string := String.substring n (String.length s - n) s.

Definition rules_at (index : list (string * list FlattenedRule)) (prefix name : string) (module : option (NnModule Code)) : list FlattenedRule :=
  List.filter (λ f, matches (f_rule f) name module) (default [] (assoc prefix index)).

(** The rules under each prefix of the name that ends before a dot. *)
Fixpoint candidate_rules (index : list (string * list FlattenedRule)) (name : string) (module : option (NnModule Code))
    (candidate : string) (parts : list string) : list FlattenedRule :=
  match parts with
  | [] | [_] => []
  | part :: parts =>
      let candidate := if bool_decide (candidate = "") then part else candidate ++ "." ++ part in
      (rules_at index candidate (str_drop (String.length candidate + 1) name) module ++ candidate_rules index name module candidate parts)%list
  end.

Definition matches_rules (r : ResolvedWeightLayoutPlan) (name : string) (module : option (NnModule Code)) : list FlattenedRule :=
  let index := prefix_index r in
  (rules_at index "" name module ++ candidate_rules index name module "" (split_on "."%char name))%list.

(** ** Builder *)

(** A module of the model that declares the layout, as [named_modules] lists it:
    whether it is the model itself, has a bias, and the layout it declares. *)
Record NamedModule := mkNamed {
  n_name : string;
  n_types : list string;
  n_is_model : bool;
  n_bias : bool;
  n_layout : option WeightLayoutPlan;
}.

Record WeightLayoutBuilder := mkBuilder {
  b_model : option (list NamedModule);
  b_rules : list WeightLayoutRule;
  b_mounts : list (WeightLayoutMount WeightLayoutPlan);
  b_name_map : option ReversibleNameMap;
  b_include : list string;
  b_exclude : list string;
  b_substrs : list string;
}.

Definition new_builder (model : option (list NamedModule)) : WeightLayoutBuilder := mkBuilder model [] [] None [] [] [].

Definition set_rules (f : list WeightLayoutRule → list WeightLayoutRule) (b : WeightLayoutBuilder) : WeightLayoutBuilder :=
  mkBuilder (b_model b) (f (b_rules b)) (b_mounts b) (b_name_map b) (b_include b) (b_exclude b) (b_substrs b).

Definition module_has_bias (b : WeightLayoutBuilder) (suffix : string) : bool :=
  match b_model b with
  | None => true
  | Some modules => existsb (λ m, (bool_decide (n_name m = suffix) || ends_with ("." ++ suffix) (n_name m)) && n_bias m) modules
  end.

Definition b_set_name_map (m : ReversibleNameMap) (b : WeightLayoutBuilder) : WeightLayoutBuilder :=
  mkBuilder (b_model b) (b_rules b) (b_mounts b) (Some m) (b_include b) (b_exclude b) (b_substrs b).
Definition include_all (b : WeightLayoutBuilder) : WeightLayoutBuilder :=
  mkBuilder (b_model b) (b_rules b) (b_mounts b) (b_name_map b) [] (b_exclude b) (b_substrs b).
Definition include_prefix (p : string) (b : WeightLayoutBuilder) : WeightLayoutBuilder :=
  mkBuilder (b_model b) (b_rules b) (b_mounts b) (b_name_map b) (b_include b ++ [p]) (b_exclude b) (b_substrs b).
Definition exclude_prefix (p : string) (b : WeightLayoutBuilder) : WeightLayoutBuilder :=
  mkBuilder (b_model b) (b_rules b) (b_mounts b) (b_name_map b) (b_include b) (b_exclude b ++ [p]) (b_substrs b).
Definition exclude_substr (s : string) (b : WeightLayoutBuilder) : WeightLayoutBuilder :=
  mkBuilder (b_model b) (b_rules b) (b_mounts b) (b_name_map b) (b_include b) (b_exclude b) (b_substrs b ++ [s]).

Definition add_rule (vllm : string) (hf : list string) (t : WeightTransform Code) (mode : MatchMode) (types : list string) (b : WeightLayoutBuilder)
    : WeightLayoutBuilder :=
  set_rules (λ l, (l ++ [mkRule vllm hf t mode types []])%list) b.

Definition b_identity (vllm : string) (hf : option string) (mode : MatchMode) : WeightLayoutBuilder → WeightLayoutBuilder :=
  add_rule vllm [default vllm hf] (Transform.identity hf) mode [].

(** The weight and, when a module has one, the bias. *)
Definition weight_and_bias (vllm : string) (add : string → WeightLayoutBuilder → WeightLayoutBuilder) (b : WeightLayoutBuilder) : WeightLayoutBuilder :=
  let b := add "weight" b in if module_has_bias b vllm then add "bias" b else b.

Definition b_qkv (vllm q k v : string) (mode : MatchMode) (heads_attr kv_heads_attr head_size_attr : string) : WeightLayoutBuilder → WeightLayoutBuilder :=
  weight_and_bias vllm (λ sub,
    let name n := n ++ "." ++ sub in
    add_rule (name vllm) [name q; name k; name v] (Transform.qkv (name q) (name k) (name v) heads_attr kv_heads_attr head_size_attr) mode []).

Definition b_merged (vllm : string) (ps : list (string * option Z)) (axis : Z) (mode : MatchMode) : WeightLayoutBuilder → WeightLayoutBuilder :=
  weight_and_bias vllm (λ sub,
    let sub_pieces := (λ p : string * option Z, (p.1 ++ "." ++ sub, p.2)) <$> ps in
    add_rule (vllm ++ "." ++ sub) sub_pieces.*1 (Transform.merged_column sub_pieces axis) mode []).

Definition b_fused_moe (w13 w2 gate up down : string) (num_experts : Z) (num_experts_attr : string) (ep_aware : bool) (mode : MatchMode)
    (b : WeightLayoutBuilder) : WeightLayoutBuilder :=
  let t := Transform.fused_moe w13 w2 gate up down num_experts num_experts_attr ep_aware in
  add_rule w2 [down] t mode [] (add_rule w13 [gate; up] t mode [] b).

Definition b_fused_moe_from_mapping (mapping : list ExpertEntry) (mode : MatchMode) (b : WeightLayoutBuilder) : WeightLayoutBuilder :=
  let t := Transform.fused_moe_from_mapping mapping in
  let seen := foldl (λ d '(((packed, hf), _), _), dict_set packed (default [] (assoc packed d) ++ [hf])%list d) [] mapping in
  foldl (λ b '(packed, hfs), add_rule packed hfs t mode [] b) b seen.

Definition b_split_param (vllm : string) (ps : list (string * option Z)) (axis : Z) (mode : MatchMode) : WeightLayoutBuilder → WeightLayoutBuilder :=
  add_rule vllm ps.*1 (Transform.split ps axis) mode [].

Definition b_transpose (vllm hf : string) (d0 d1 : Z) (mode : MatchMode) : WeightLayoutBuilder → WeightLayoutBuilder :=
  add_rule vllm [hf] (Transform.transpose hf d0 d1) mode [].
Definition b_reshape (vllm hf : string) (shape_expr : list Z + string) (mode : MatchMode) : WeightLayoutBuilder → WeightLayoutBuilder :=
  add_rule vllm [hf] (Transform.reshape hf shape_expr) mode [].
Definition b_permute_qk_rotary (patterns : list string) (head_dim : option Z) (head_dim_attr : string) (mode : MatchMode)
    (b : WeightLayoutBuilder) : WeightLayoutBuilder :=
  foldl (λ b p, add_rule p [p] (Transform.permute_qk_rotary p head_dim head_dim_attr) mode [] b) b patterns.
Definition b_scalar_extract (vllm hf : string) (index : Z) (mode : MatchMode) : WeightLayoutBuilder → WeightLayoutBuilder :=
  add_rule vllm [hf] (Transform.scalar_extract hf index) mode [].
Definition b_index_select (vllm hf : string) (indices : option (list Z)) (index_attr : option string) (dim : Z) (mode : MatchMode)
    : WeightLayoutBuilder → WeightLayoutBuilder :=
  add_rule vllm [hf] (Transform.index_select hf indices index_attr dim) mode [].
Definition b_alias (vllm hf : string) (mode : MatchMode) : WeightLayoutBuilder → WeightLayoutBuilder := add_rule vllm [hf] (Transform.alias hf) mode [].
Definition b_derive (vllm hf : string) (fn : option Code) (fn_name : option string) (mode : MatchMode) : WeightLayoutBuilder → WeightLayoutBuilder :=
  add_rule vllm [hf] (Transform.derive hf fn fn_name) mode [].

Definition b_custom (r : WeightLayoutRule) (instance : Code) : WeightLayoutBuilder → WeightLayoutBuilder :=
  set_rules (λ l, (l ++ [mkRule (vllm_pattern r) (hf_patterns r)
    (mkTransform "custom" (pieces (transform r)) 0 (dict_set "transform_instance" (VCode instance) (metadata (transform r))))
    (match_mode r) (module_types r) (rule_metadata r)])%list).

Definition mount_plan (prefix : string) (plan : WeightLayoutPlan) (m : option ReversibleNameMap) (b : WeightLayoutBuilder) : WeightLayoutBuilder :=
  mkBuilder (b_model b) (b_rules b) (b_mounts b ++ [mkMount _ prefix plan m]) (b_name_map b) (b_include b) (b_exclude b) (b_substrs b).

Definition mount_module (prefix : string) (layout : option WeightLayoutPlan) (m : option ReversibleNameMap) : WeightLayoutBuilder → WeightLayoutBuilder :=
  mount_plan prefix (default empty_plan layout) m.

Definition extend (plan : WeightLayoutPlan) (b : WeightLayoutBuilder) : WeightLayoutBuilder :=
  mkBuilder (b_model b) (b_rules b ++ rules plan) (b_mounts b ++ mounts plan)
    (match b_name_map b with Some m => Some m | None => name_map plan end)
    (b_include b) (b_exclude b ++ exclude_prefixes (sync plan)) (b_substrs b ++ exclude_substrs (sync plan)).

Definition build (b : WeightLayoutBuilder) : WeightLayoutPlan :=
  mkPlan (b_rules b) (b_mounts b) (b_name_map b) (mkPolicy (b_include b) (b_exclude b) (b_substrs b)).

(** ** Inferred layouts *)

(** An exact rule for the weight and, if the module has one, the bias. *)
Definition add_exact (m : NamedModule) (names : string → list string) (t : list string → WeightTransform Code) (b : WeightLayoutBuilder) : WeightLayoutBuilder :=
  let add sub b := add_rule (n_name m ++ "." ++ sub) (names sub) (t (names sub)) EXACT [] b in
  let b := add "weight" b in if n_bias m then add "bias" b else b.

Definition qkv_of (names : list string) : WeightTransform Code :=
  match names with
  | [q; k; v] => Transform.qkv q k v "num_heads" "num_kv_heads" "head_size"
  | _ => Transform.identity None
  end.

Definition auto_module (packed : list (string * list string)) (b : WeightLayoutBuilder) (m : NamedModule) : WeightLayoutBuilder :=
  match n_layout m with
  | Some plan => mount_module (n_name m) (Some plan) None b
  | None =>
      if bool_decide ("QKVParallelLinear" ∈ n_types m) then
        add_exact m (λ sub, (λ p, n_name m ++ p ++ sub) <$> [".q_proj."; ".k_proj."; ".v_proj."]) qkv_of b
      else if bool_decide ("MergedColumnParallelLinear" ∈ n_types m) then
        match assoc (n_name m) packed with
        | Some spec => add_exact m (λ sub, (λ n, n ++ "." ++ sub) <$> spec) (λ ns, Transform.merged_column ((λ n, (n, None)) <$> ns) 0) b
        | None => b
        end
      else b
  end.

(** Modules are visited once, the model itself never. *)
Fixpoint auto_modules (packed : list (string * list string)) (seen : list string) (modules : list NamedModule) (b : WeightLayoutBuilder) : WeightLayoutBuilder :=
  match modules with
  | [] => b
  | m :: modules =>
      if bool_decide (n_name m ∈ seen) || n_is_model m then auto_modules packed seen modules b
      else auto_modules packed (n_name m :: seen) modules (auto_module packed b m)
  end.

Definition build_auto_weight_layout (modules : list NamedModule) (m : option ReversibleNameMap) (packed : list (string * list string)) : WeightLayoutPlan :=
  let b := new_builder (Some modules) in
  let b := match m with Some m => b_set_name_map m b | None => b end in
  build (auto_modules packed [] modules b).
End rules.

Arguments WeightLayoutRule : clear implicits.
Arguments WeightLayoutPlan : clear implicits.
Arguments FlattenedRule : clear implicits.
Arguments ResolvedWeightLayoutPlan : clear implicits.
Arguments NamedModule : clear implicits.
Arguments WeightLayoutBuilder : clear implicits.
