(* ===== verification/WeightLayoutTheorems.v ===== *)
(** * Weight layout plans: theorems

    The rules a flattened plan finds for a parameter are those that the nested
    plans apply to it; name maps and their reversal; the merge of policies. *)

From Stdlib Require Import Ascii.
From S2P Require Import Prelude.
From S2P Require Import PyData.
From S2P Require Import EnvShell.
From S2P Require Import PyStr.
From S2P Require Import WeightLayout.

#[local] Open Scope string_scope.
#[local] Open Scope list_scope.

(** ** Strings *)

Lemma append_inj_l (a b c : string) : (a ++ b = a ++ c → b = c)%string.
Proof. induction a as [|x a IH]; [done|]. intros [= E]. auto. Qed.

Lemma strip_prefix_chain a b s : strip_prefix (a ++ b)%string s = strip_prefix a s ≫= strip_prefix b.
Proof. revert s. induction a as [|x a IH]; intros s; [done|]. destruct s as [|y s]; [done|].
  change (String x a ++ b)%string with (String x (a ++ b)). cbn. by case_decide.
Qed.

Lemma split_on_go_app c acc a b : split_on_go c acc (a ++ String c b) = split_on_go c acc a ++ split_on_go c "" b.
Proof.
  revert acc. induction a as [|x a IH]; intros acc.
  { change ("" ++ String c b)%string with (String c b). cbn. by rewrite decide_True. }
  change (String x a ++ String c b)%string with (String x (a ++ String c b)). cbn. case_decide; [|apply IH].
  cbn. f_equal. apply IH.
Qed.

Lemma split_on_app c a b : split_on c (a ++ String c b) = split_on c a ++ split_on c b.
Proof. apply split_on_go_app. Qed.

Fixpoint join (c : ascii) (l : list string) : string :=
  match l with
  | [] => ""
  | [s] => s
  | s :: l => (s ++ String c (join c l))%string
  end.

Lemma join_cons c s l : l ≠ [] → join c (s :: l) = (s ++ String c (join c l))%string.
Proof. by destruct l. Qed.

Lemma join_app c l l' : l ≠ [] → l' ≠ [] → join c (l ++ l') = (join c l ++ String c (join c l'))%string.
Proof.
  intros Hl Hl'. induction l as [|s l IH]; [done|]. destruct l as [|s' l]; [cbn [app]; by rewrite join_cons|].
  cbn [app] in *. rewrite !(join_cons c s) by done. rewrite IH by done. by rewrite append_assoc.
Qed.

Lemma split_on_go_ne c acc s : split_on_go c acc s ≠ [].
Proof. revert acc. induction s as [|x s IH]; intros acc; cbn; [done|]. case_decide; [done|apply IH]. Qed.

Lemma join_split_go c acc s : join c (split_on_go c acc s) = (acc ++ s)%string.
Proof.
  revert acc. induction s as [|x s IH]; intros acc; cbn; [by rewrite append_nil_r|]. case_decide as H; subst.
  - rewrite join_cons by apply split_on_go_ne. by rewrite IH.
  - by rewrite IH, append_assoc.
Qed.

Lemma join_split c s : join c (split_on c s) = s.
Proof. apply join_split_go. Qed.

Lemma split_on_go_head c acc s : ∃ t l, split_on_go c acc s = (acc ++ t)%string :: l ∧ starts_with t s = true.
Proof.
  revert acc. induction s as [|x s IH]; intros acc; cbn.
  - exists "", []. by rewrite append_nil_r.
  - case_decide; [by exists "", (split_on_go c "" s); rewrite append_nil_r|].
    destruct (IH (acc ++ String x "")%string) as (t & l & -> & Ht). exists (String x t), l. rewrite append_assoc. split; [done|].
    apply starts_with_true in Ht as [r ->]. apply starts_with_true. by exists r.
Qed.

Lemma drop_after (c : ascii) a b : str_drop (String.length a + 1) (a ++ String c b) = b.
Proof.
  unfold str_drop. rewrite length_append. cbn [String.length].
  replace (String.length a + S (String.length b) - (String.length a + 1))%nat with (String.length b) by lia.
  induction a as [|x a IH]; [apply substring_full|]. exact IH.
Qed.

(** ** Filters *)

Lemma filter_disjoint {A} (p q : A → bool) l : (∀ x, p x = true → q x = true → False) →
  List.filter p l ++ List.filter q l ≡ₚ List.filter (λ x, p x || q x) l.
Proof.
  intros Hd. induction l as [|x l IH]; [done|]. cbn. specialize (Hd x). destruct (p x), (q x); cbn; [tauto|by rewrite IH|..|done].
  by rewrite <- IH, Permutation_middle.
Qed.

Lemma filter_at_most_one {A X} (p : X → A → bool) (cs : list X) l :
  (∀ i j x y a, cs !! i = Some x → cs !! j = Some y → p x a = true → p y a = true → i = j) →
  flat_map (λ x, List.filter (p x) l) cs ≡ₚ List.filter (λ a, existsb (λ x, p x a) cs) l.
Proof.
  induction cs as [|x cs IH]; intros Hd; cbn [flat_map existsb].
  - induction l as [|a l IHl]; done.
  - rewrite IH by (intros i j y z a Hi Hj Hy Hz; assert (S i = S j) as [= ->] by (by eapply Hd); done).
    rewrite filter_disjoint; [done|]. intros a Ha (y & Hy & Hya)%existsb_exists.
    apply list_elem_of_In, list_elem_of_lookup_1 in Hy as [j Hj]. by specialize (Hd O (S j) x y a eq_refl Hj Ha Hya).
Qed.

Lemma filter_filter {A} (p q : A → bool) l : List.filter p (List.filter q l) = List.filter (λ x, q x && p x) l.
Proof. induction l as [|x l IH]; [done|]. cbn. destruct (q x); cbn; [|done]. destruct (p x); by rewrite IH. Qed.

(** ** Looking rules up *)

Section lookup.
Context `{Regex} {Code : Type}.
Implicit Types (f : FlattenedRule Code) (name rel : string) (m : option (NnModule Code)).

(** A flattened rule applies to a name: the rule matches the name relative to the
    prefix of the rule. *)
Definition applies name m f : bool :=
  if bool_decide (f_prefix f = "") then matches (f_rule f) name m
  else match strip_prefix (f_prefix f ++ ".") name with Some rel => matches (f_rule f) rel m | None => false end.

Lemma index_at (l : list (FlattenedRule Code)) d p :
  default [] (assoc p (foldl index_rule d l)) = default [] (assoc p d) ++ List.filter (λ f, bool_decide (f_prefix f = p)) l.
Proof.
  revert d. induction l as [|f l IH]; intros d; cbn [foldl List.filter]; [by rewrite app_nil_r|].
  rewrite IH. unfold index_rule. rewrite assoc_dict_set. case_decide as E.
  - subst. rewrite bool_decide_eq_true_2 by done. cbn. by rewrite <- app_assoc.
  - by rewrite bool_decide_eq_false_2.
Qed.

Lemma rules_at_filter r p name m :
  rules_at (prefix_index r) p name m = List.filter (λ f, bool_decide (f_prefix f = p) && matches (f_rule f) name m) (r_rules r).
Proof. unfold rules_at, prefix_index. rewrite index_at. cbn [assoc default]. cbn. by rewrite filter_filter. Qed.

(** The prefixes of a name that end before a dot, with what follows. *)
Fixpoint cuts (candidate : string) (parts : list string) : list (string * string) :=
  match parts with
  | [] | [_] => []
  | part :: parts =>
      let candidate := if bool_decide (candidate = "") then part else (candidate ++ "." ++ part)%string in
      (candidate, join "." parts) :: cuts candidate parts
  end.

Definition extended candidate part : string := if bool_decide (candidate = "") then part else (candidate ++ "." ++ part)%string.

Lemma cuts_cons candidate part parts : parts ≠ [] →
  cuts candidate (part :: parts) = (extended candidate part, join "." parts) :: cuts (extended candidate part) parts.
Proof. by destruct parts. Qed.

Lemma extended_ne candidate part : (candidate = "" → part ≠ "") → extended candidate part ≠ "".
Proof. unfold extended. case_bool_decide; [by auto|]. intros _ E. by destruct candidate. Qed.

Lemma extended_join candidate part parts : parts ≠ [] →
  (extended candidate part ++ String "." (join "." parts))%string = extended candidate (join "." (part :: parts)).
Proof.
  intros Hp. rewrite join_cons by done. unfold extended. case_bool_decide; [done|]. by rewrite !append_assoc.
Qed.

Lemma candidates_at index name m candidate parts : (candidate = "" → head parts ≠ Some "") → name = extended candidate (join "." parts) →
  candidate_rules (Code := Code) index name m candidate parts = flat_map (λ x, rules_at index x.1 x.2 m) (cuts candidate parts).
Proof.
  revert candidate. induction parts as [|part parts IH]; intros candidate Hh Hn; [done|]. destruct parts as [|p parts]; [done|].
  rewrite cuts_cons by done. cbn [flat_map fst snd]. cbn [candidate_rules]. fold (extended candidate part).
  rewrite <- extended_join in Hn by done. rewrite Hn at 1. rewrite drop_after. f_equal. apply IH.
  - intros E. exfalso. eapply extended_ne; [|exact E]. intros ->. cbn in Hh. specialize (Hh eq_refl). congruence.
  - rewrite Hn. unfold extended at 2. rewrite bool_decide_eq_false_2; [done|]. apply extended_ne. intros ->. cbn in Hh.
    specialize (Hh eq_refl). congruence.
Qed.
Lemma extended_extended candidate part parts : parts ≠ [] → extended candidate part ≠ "" →
  extended (extended candidate part) (join "." parts) = extended candidate (join "." (part :: parts)).
Proof. intros Hp He. unfold extended at 1. rewrite bool_decide_eq_false_2 by done. exact (extended_join candidate part parts Hp). Qed.

(** No part can make the candidate empty. *)
Definition starts_ok candidate (parts : list string) : Prop := candidate = "" → head parts ≠ Some "".

Lemma starts_ok_ne candidate part parts : starts_ok candidate (part :: parts) → extended candidate part ≠ "".
Proof. intros Hs. apply extended_ne. intros ->. specialize (Hs eq_refl). cbn in Hs. congruence. Qed.

Lemma starts_ok_next candidate part parts l : starts_ok candidate (part :: parts) → starts_ok (extended candidate part) l.
Proof. intros Hs E. by apply starts_ok_ne in Hs. Qed.

Lemma cuts_sound candidate parts c rel : starts_ok candidate parts → (c, rel) ∈ cuts candidate parts →
  c ≠ "" ∧ extended candidate (join "." parts) = (c ++ String "." rel)%string ∧ (String.length candidate < String.length c)%nat.
Proof.
  revert candidate. induction parts as [|part parts IH]; intros candidate Hs Hin; [by apply elem_of_nil in Hin|].
  destruct parts as [|p parts]; [by apply elem_of_nil in Hin|]. rewrite cuts_cons in Hin by done.
  pose proof (starts_ok_ne _ _ _ Hs) as Hne.
  assert (String.length candidate < String.length (extended candidate part))%nat as Hlt.
  { unfold extended in *. case_bool_decide; [subst; by destruct part; cbn; [|lia]|]. rewrite !length_append. cbn. lia. }
  apply elem_of_cons in Hin as [[= -> ->]|Hin].
  - split; [done|]. split; [by rewrite <- extended_join|exact Hlt].
  - apply IH in Hin as (Hc & E & Hl); [|by eapply starts_ok_next]. split; [done|]. rewrite <- E. split; [by rewrite extended_extended|lia].
Qed.

Lemma cuts_complete candidate l l' : starts_ok candidate l → l ≠ [] → l' ≠ [] →
  (extended candidate (join "." l), join "." l') ∈ cuts candidate (l ++ l').
Proof.
  revert candidate. induction l as [|part l IH]; intros candidate Hs Hl Hl'; [done|]. cbn [app]. rewrite cuts_cons by (by destruct l, l').
  destruct l as [|p l]; [left|]. right. rewrite <- extended_extended by (done || by eapply starts_ok_ne).
  apply IH; [by eapply starts_ok_next|done..].
Qed.

Lemma cuts_distinct candidate parts : starts_ok candidate parts → NoDup (cuts candidate parts).*1.
Proof.
  revert candidate. induction parts as [|part parts IH]; intros candidate Hs; [constructor|].
  destruct parts as [|p parts]; [constructor|]. rewrite cuts_cons by done. constructor; [|apply IH; by eapply starts_ok_next].
  intros ([c rel] & E & Hin)%list_elem_of_fmap. apply cuts_sound in Hin as (_ & _ & Hl); [|by eapply starts_ok_next]. cbn in E. subst. lia.
Qed.

(** A name has a leading dot when its first part is empty. *)
Lemma split_starts name : starts_with "." name = false → name ≠ "" → starts_ok "" (split_on "." name).
Proof.
  intros Hn Hne _. destruct name as [|x name]; [done|]. unfold split_on.
  change (split_on_go "." "" (String x name)) with
    (if decide (x = "."%char) then "" :: split_on_go "." "" name else split_on_go "." (String x "") name).
  case_decide as E; [subst; by unfold starts_with in Hn|].
  destruct (split_on_go_head "." (String x "") name) as (t & l & -> & _). done.
Qed.

Lemma cuts_iff name c rel : starts_with "." name = false → name ≠ "" → c ≠ "" →
  (c, rel) ∈ cuts "" (split_on "." name) ↔ name = (c ++ String "." rel)%string.
Proof.
  intros Hn Hne Hc. pose proof (split_starts name Hn Hne) as Hs. split.
  - intros Hin. apply cuts_sound in Hin as (_ & E & _); [|done]. rewrite <- E. unfold extended. cbn. by rewrite join_split.
  - intros ->. rewrite split_on_app in *. pose proof (split_on_go_ne "." "" c). pose proof (split_on_go_ne "." "" rel).
    assert (starts_ok "" (split_on "." c)) as Hs'.
    { intros E. specialize (Hs E). unfold split_on in *. by destruct (split_on_go "." "" c). }
    pose proof (cuts_complete "" (split_on "." c) (split_on "." rel) Hs' ltac:(done) ltac:(done)) as Hin.
    unfold extended in Hin. cbn in Hin. by rewrite !join_split in Hin.
Qed.

Lemma existsb_cuts name m f : starts_with "." name = false → name ≠ "" → f_prefix f ≠ "" →
  existsb (λ x, bool_decide (f_prefix f = x.1) && matches (f_rule f) x.2 m) (cuts "" (split_on "." name)) = applies name m f.
Proof.
  intros Hn Hne Hp. unfold applies. rewrite bool_decide_eq_false_2 by done. apply eq_bool_prop_intro. rewrite !Is_true_true, existsb_exists.
  assert (∀ rel, strip_prefix (f_prefix f ++ ".") name = Some rel ↔ (f_prefix f, rel) ∈ cuts "" (split_on "." name)) as Hcut.
  { intros rel. rewrite cuts_iff, strip_prefix_Some by done. by rewrite append_assoc. }
  split.
  - intros ([c rel] & Hin%list_elem_of_In & [E%bool_decide_eq_true Hm]%andb_true_iff). cbn in *. subst.
    apply Hcut in Hin. by rewrite Hin.
  - intros Hm. destruct (strip_prefix _ name) as [rel|] eqn:E; [|done]. exists (f_prefix f, rel). split.
    + by apply list_elem_of_In, Hcut.
    + apply andb_true_iff. split; [by apply bool_decide_eq_true_2|done].
Qed.

(** The rules found for a name are the rules that apply to it. *)
Lemma matches_applies r name m : starts_with "." name = false → name ≠ "" →
  matches_rules r name m ≡ₚ List.filter (applies name m) (r_rules r).
Proof.
  intros Hn Hne. pose proof (split_starts name Hn Hne) as Hs. unfold matches_rules.
  rewrite (candidates_at _ name m "" (split_on "." name)) by (try done; unfold extended; cbn; by rewrite join_split).
  rewrite rules_at_filter.
  rewrite (flat_map_ext _ (λ x, List.filter (λ f, bool_decide (f_prefix f = x.1) && matches (f_rule f) x.2 m) (r_rules r))) by (intros; apply rules_at_filter).
  rewrite filter_at_most_one.
  - rewrite filter_disjoint.
    + apply reflexive_eq, List.filter_ext. intros f. destruct (decide (f_prefix f = "")) as [E|E].
      * unfold applies at 1. rewrite !bool_decide_eq_true_2 by done. cbn [andb]. destruct (matches _ name m); [done|]. cbn [orb].
        apply not_true_is_false. intros ([c rel] & Hin & [E' _]%andb_true_iff)%existsb_exists.
        apply bool_decide_eq_true in E'. cbn in E'. apply list_elem_of_In, cuts_sound in Hin as [Hc _]; [|done]. congruence.
      * rewrite (existsb_cuts name m f Hn Hne E). by rewrite bool_decide_eq_false_2.
    + intros f [E%bool_decide_eq_true _]%andb_true_iff ([c rel] & Hin & [E' _]%andb_true_iff)%existsb_exists.
      apply bool_decide_eq_true in E'. cbn in E'. apply list_elem_of_In, cuts_sound in Hin as [Hc _]; [|done]. congruence.
  - intros i j [c rel] [c' rel'] f Hi Hj [E _]%andb_true_iff [E' _]%andb_true_iff. apply bool_decide_eq_true in E, E'. cbn in *. subst.
    eapply NoDup_lookup; [apply (cuts_distinct "" (split_on "." name) Hs)|by rewrite list_lookup_fmap, Hi|by rewrite list_lookup_fmap, Hj].
Qed.
End lookup.

(** ** Flattening *)

Section flatten.
Context `{Regex} {Code : Type}.

Fixpoint plan_induction (P : WeightLayoutPlan Code → Prop)
    (step : ∀ rules mounts nm sync, Forall (λ m, P (m_plan _ m)) mounts → P (mkPlan rules mounts nm sync)) (p : WeightLayoutPlan Code) : P p :=
  match p with
  | mkPlan rules mounts nm sync =>
      step rules mounts nm sync
        ((fix go mounts : Forall (λ m, P (m_plan _ m)) mounts :=
          match mounts with
          | [] => List.Forall_nil _
          | mkMount _ prefix plan m :: mounts => @List.Forall_cons _ (λ m, P (m_plan _ m)) (mkMount _ prefix plan m) mounts (plan_induction P step plan) (go mounts)
          end) mounts)
  end.

(** The rules that a nested plan applies to a name: its own rules, and those that
    a mounted plan applies to the name relative to the prefix of the mount. *)
Fixpoint applicable (p : WeightLayoutPlan Code) (name : string) (m : option (NnModule Code)) : list (WeightLayoutRule Code) :=
  match p with
  | mkPlan rules mounts _ _ =>
      List.filter (λ r, matches r name m) rules ++
      flat_map (λ mount,
        match mount with
        | mkMount _ prefix plan _ =>
            match strip_prefix (prefix ++ ".")%string name with Some rel => applicable plan rel m | None => [] end
        end) mounts
  end.

(** Prefixes of mounts are not empty and do not end with a dot. *)
Definition good_prefix (p : string) : bool := bool_decide (p ≠ "" ∧ rstrip_dots p = p).

Fixpoint well_mounted (p : WeightLayoutPlan Code) : bool :=
  match p with
  | mkPlan _ mounts _ _ => forallb (λ mount, match mount with mkMount _ prefix plan _ => good_prefix prefix && well_mounted plan end) mounts
  end.

Lemma flatten_rules rules mounts nm sync :
  r_rules (flatten (mkPlan (Code := Code) rules mounts nm sync)) =
  (mkFlat "" <$> rules) ++ flat_map (λ mount, remount (m_prefix _ mount) <$> r_rules (flatten (m_plan _ mount))) mounts.
Proof.
  cbn [flatten r_rules]. generalize (mkFlat "" <$> rules : list (FlattenedRule Code)) as acc. revert sync.
  induction mounts as [|[prefix plan m] mounts IH]; intros sync acc; cbn [foldl flat_map]; [cbn; by rewrite app_nil_r|].
  rewrite IH. cbn [fst m_prefix m_plan]. by rewrite app_assoc.
Qed.

Lemma rstrip_app a b : rstrip_dots b ≠ "" → rstrip_dots (a ++ b) = (a ++ rstrip_dots b)%string.
Proof.
  intros Hb. induction a as [|x a IH]; [done|]. change (String x a ++ b)%string with (String x (a ++ b)). cbn [rstrip_dots]. rewrite IH.
  destruct (a ++ rstrip_dots b)%string eqn:E; [|by rewrite <- E]. by destruct a.
Qed.

Lemma remount_good prefix f : good_prefix (f_prefix f) = true →
  f_prefix (remount (Code := Code) prefix f) = (prefix ++ "." ++ f_prefix f)%string.
Proof.
  intros [Hne Hs]%bool_decide_eq_true. unfold remount. rewrite bool_decide_eq_false_2 by done. cbn [f_prefix].
  change ("." ++ f_prefix f)%string with (String "." (f_prefix f)).
  rewrite rstrip_app; cbn; rewrite Hs; by destruct (f_prefix f).
Qed.

Definition good_rule (f : FlattenedRule Code) : Prop := f_prefix f = "" ∨ good_prefix (f_prefix f) = true.

Lemma remount_prefix prefix f : good_prefix prefix = true → good_rule f → good_prefix (f_prefix (remount prefix f)) = true.
Proof.
  intros Hp [E|Hf].
  - unfold remount. by rewrite bool_decide_eq_true_2.
  - rewrite remount_good by done. apply bool_decide_eq_true in Hp as [Hne _], Hf as [Hne' Hs]. apply bool_decide_eq_true_2.
    split; [by destruct prefix|]. change ("." ++ f_prefix f)%string with (String "." (f_prefix f)).
    rewrite rstrip_app; cbn; rewrite Hs; by destruct (f_prefix f).
Qed.

Lemma flatten_good p : well_mounted p = true → Forall good_rule (r_rules (flatten p)).
Proof.
  induction p as [rules mounts nm sync IH] using plan_induction. intros Hw. rewrite flatten_rules. apply Forall_app. split.
  - apply Forall_fmap, Forall_true. by left.
  - cbn [well_mounted] in Hw. apply Forall_flat_map. rewrite forallb_forall in Hw. rewrite Forall_forall in *.
    intros [prefix plan m] Hin. specialize (IH _ Hin). specialize (Hw _ (proj1 (list_elem_of_In _ _) Hin)). cbn in *.
    apply andb_true_iff in Hw as [Hp Hw]. apply Forall_fmap. eapply Forall_impl; [exact (IH Hw)|]. intros f Hf. right. by apply remount_prefix.
Qed.

Lemma applies_remount prefix name m f : good_prefix prefix = true → good_rule f →
  applies name m (remount prefix f) = match strip_prefix (prefix ++ ".")%string name with Some rel => applies rel m f | None => false end.
Proof.
  intros Hp Hf. unfold applies at 1. pose proof (remount_prefix prefix f Hp Hf) as [Hne _]%bool_decide_eq_true.
  rewrite bool_decide_eq_false_2 by done. destruct Hf as [E|Hf].
  - unfold remount. rewrite bool_decide_eq_true_2 by done. cbn [f_prefix f_rule]. destruct (strip_prefix _ name) as [rel|]; [|done].
    unfold applies. by rewrite bool_decide_eq_true_2.
  - rewrite remount_good by done. apply bool_decide_eq_true in Hf as [Hne' _].
    assert (((prefix ++ "." ++ f_prefix f) ++ ".")%string = ((prefix ++ ".") ++ f_prefix f ++ ".")%string) as -> by (by rewrite !append_assoc).
    rewrite strip_prefix_chain. destruct (strip_prefix (prefix ++ ".")%string name) as [rel|]; [|done]. cbn [mbind option_bind].
    unfold applies. rewrite bool_decide_eq_false_2 by done. unfold remount. by case_bool_decide.
Qed.

Lemma filter_fmap_none {A B} (g : A → B) (q : B → bool) l : Forall (λ a, q (g a) = false) l → List.filter q (g <$> l) = [].
Proof. induction 1 as [|a l Ha Hl IH]; [done|]. cbn. by rewrite Ha. Qed.

Lemma flatten_applies p name m : well_mounted p = true →
  f_rule <$> List.filter (applies name m) (r_rules (flatten p)) = applicable p name m.
Proof.
  revert name. induction p as [rules mounts nm sync IH] using plan_induction. intros name Hw. rewrite flatten_rules. cbn [applicable].
  rewrite List.filter_app, fmap_app. f_equal.
  - clear. induction rules as [|r rules IH]; [done|]. cbn. change (applies name m (mkFlat "" r)) with (matches r name m).
    destruct (matches r name m); cbn; by rewrite <- IH.
  - cbn [well_mounted] in Hw. revert Hw. induction IH as [|[prefix plan nm'] mounts IHm IHms IH]; intros Hw; [done|].
    cbn [forallb flat_map m_prefix m_plan] in *. apply andb_true_iff in Hw as [[Hp Hw]%andb_true_iff Hws].
    rewrite List.filter_app, fmap_app, (IH Hws). f_equal. pose proof (flatten_good plan Hw) as Hg. clear IH.
    destruct (strip_prefix (prefix ++ ".")%string name) as [rel|] eqn:E.
    + rewrite <- (IHm rel Hw). clear -Hg Hp E. induction Hg as [|f l Hf Hg IH]; [done|]. cbn.
      rewrite (applies_remount prefix name m f Hp Hf), E. destruct (applies rel m f); cbn; by rewrite <- IH.
    + rewrite filter_fmap_none; [done|]. eapply Forall_impl; [exact Hg|]. intros f Hf. cbn. by rewrite (applies_remount prefix name m f Hp Hf), E.
Qed.

(** C27: The rules that the flattened plan finds for a parameter, through the index
    of prefixes, are the rules that the nested plans apply to it: those of a plan to
    the name, those of a mounted plan to the name relative to the prefix of its
    mount, each as often as it applies. *)
Theorem flatten_equivalent (p : WeightLayoutPlan Code) name m : well_mounted p = true → name ≠ "" → starts_with "." name = false →
  f_rule <$> matches_rules (flatten p) name m ≡ₚ applicable p name m.
Proof.
  intros Hw Hne Hn. rewrite (matches_applies (flatten p) name m Hn Hne). by rewrite flatten_applies.
Qed.
End flatten.

(** ** Name maps *)

Section names.
Context `{Regex}.

Lemma apply_pairs_Some mode l name r : apply_pairs mode l name = Some r → ∃ src dst, (src, dst) ∈ l ∧ apply_pair mode src dst name = Some r.
Proof.
  induction l as [|[s d] l IH]; [done|]. cbn [apply_pairs]. destruct (apply_pair mode s d name) as [r'|] eqn:E.
  - intros [= ->]. exists s, d. split; [by left|done].
  - intros (src & dst & Hin & Ha)%IH. exists src, dst. split; [by right|done].
Qed.

Lemma apply_pairs_unique mode l name src dst r : (src, dst) ∈ l → apply_pair mode src dst name = Some r →
  (∀ s d r', (s, d) ∈ l → apply_pair mode s d name = Some r' → r' = r) → apply_pairs mode l name = Some r.
Proof.
  intros Hin Ha Hu. destruct (apply_pairs mode l name) as [r'|] eqn:E.
  - apply apply_pairs_Some in E as (s & d & Hin' & Ha'). by rewrite (Hu s d r' Hin' Ha').
  - exfalso. clear Hu. induction l as [|[s d] l IH]; [by apply elem_of_nil in Hin|]. cbn [apply_pairs] in E.
    destruct (apply_pair mode s d name) eqn:E'; [done|]. apply elem_of_cons in Hin as [[= -> ->]|Hin]; [congruence|by apply IH].
Qed.

Lemma prefix_pair src dst name r : apply_pair MPrefix src dst name = Some r ↔ ∃ rest, name = (src ++ rest)%string ∧ r = (dst ++ rest)%string.
Proof.
  unfold apply_pair. split.
  - destruct (strip_prefix src name) as [rest|] eqn:E; [|done]. intros [= <-]. exists rest. split; [by apply strip_prefix_Some|done].
  - intros (rest & -> & ->). by rewrite strip_prefix_app.
Qed.

Lemma common_extension a b r r' : (a ++ r = b ++ r')%string → starts_with a b = true ∨ starts_with b a = true.
Proof.
  revert b. induction a as [|x a IH]; intros b E; [left; apply starts_with_true; by exists b|].
  destruct b as [|y b]; [right; apply starts_with_true; by exists (String x a)|]. injection E as -> E.
  destruct (IH b E) as [[t Ht]%starts_with_true|[t Ht]%starts_with_true]; [left|right]; apply starts_with_true; exists t; by rewrite Ht.
Qed.

(** The first components are those of one pair, or neither is a prefix of the other. *)
Definition unambiguous (l : list (string * string)) : Prop :=
  ∀ s d s' d', (s, d) ∈ l → (s', d') ∈ l → starts_with d d' = true → s = s' ∧ d = d'.

(** A name map built from prefix pairs, in prefix mode, undoes itself: a name
    that it maps to the checkpoint is the name that it maps back, when no
    checkpoint prefix is a prefix of another. *)
Theorem prefix_map_roundtrip pairs name h : unambiguous pairs → to_hf (from_prefix_pairs pairs MPrefix) name = Some h →
  to_vllm (from_prefix_pairs pairs MPrefix) h = Some name.
Proof.
  intros Hu (src & dst & Hin & Ha)%apply_pairs_Some. apply prefix_pair in Ha as (rest & -> & ->). cbn.
  apply (apply_pairs_unique MPrefix _ _ dst src).
  - apply list_elem_of_fmap. by exists (src, dst).
  - apply prefix_pair. by exists rest.
  - intros d s r' ([s' d'] & [= -> ->] & Hin')%list_elem_of_fmap (rest' & E & ->)%prefix_pair.
    assert (s' = src ∧ d' = dst) as [-> ->].
    { destruct (common_extension _ _ _ _ E) as [Hs|Hs]; [|by apply (Hu s' d' src dst)].
      destruct (Hu src dst s' d' Hin Hin' Hs) as [-> ->]. done. }
    apply append_inj_l in E. by subst.
Qed.

Lemma reverse_assoc (pairs d : list (string * string)) k v : NoDup pairs.*2 → (k, v) ∈ pairs →
  assoc v (foldl (λ d '(k, v), dict_set v k d) d pairs) = Some k.
Proof.
  revert d. induction pairs as [|[k' v'] pairs IH]; intros d Hn Hin; [by apply elem_of_nil in Hin|]. cbn [foldl].
  apply NoDup_cons in Hn as [Hv Hn]. apply elem_of_cons in Hin as [[= -> ->]|Hin]; [|by apply IH].
  assert (∀ d, assoc v' d = Some k' → assoc v' (foldl (λ d '(k, v), dict_set v k d) d pairs) = Some k') as Hk.
  { clear -Hv. induction pairs as [|[k v] pairs IH]; intros d Hd; [done|]. cbn [foldl]. cbn in Hv. apply not_elem_of_cons in Hv as [Hne Hv].
    apply IH; [done|]. rewrite assoc_dict_set. by rewrite decide_False. }
  apply Hk. rewrite assoc_dict_set. by rewrite decide_True.
Qed.

(** A name map built from exact pairs with distinct checkpoint names maps a
    checkpoint name back to the name it came from. *)
Lemma exact_map_roundtrip pairs name h : NoDup pairs.*2 → to_hf (from_exact_pairs pairs) name = Some h →
  to_vllm (from_exact_pairs pairs) h = Some name.
Proof. intros Hn Hh. cbn in *. apply reverse_assoc; [done|]. by apply elem_of_assoc. Qed.
End names.

(** ** Policies *)

Definition excludes (p : WeightSyncPolicy) (name : string) : bool :=
  existsb (λ x, starts_with x name) (exclude_prefixes p) || existsb (λ x, contains x name) (exclude_substrs p).
Definition includes (p : WeightSyncPolicy) (name : string) : bool := existsb (λ x, starts_with x name) (include_prefixes p).
Definition unrestricted (p : WeightSyncPolicy) : bool := bool_decide (include_prefixes p = []).

Lemma should_include_spec p name : should_include p name = negb (excludes p name) && (unrestricted p || includes p name).
Proof.
  unfold should_include, excludes, unrestricted, includes. destruct (existsb _ (exclude_prefixes p)), (existsb _ (exclude_substrs p)); try done.
  cbn. destruct (include_prefixes p); [done|]. by rewrite bool_decide_eq_false_2.
Qed.

Lemma excludes_merge p q name : excludes (merge p q) name = excludes p name || excludes q name.
Proof. unfold excludes, merge. cbn. rewrite !existsb_app. by repeat destruct (existsb _ _). Qed.

(** Merged policies exclude what either excludes; they include what either
    includes, unless neither restricts the names. *)
Lemma merge_spec p q name : should_include (merge p q) name =
  negb (excludes p name) && negb (excludes q name) && ((unrestricted p && unrestricted q) || (includes p name || includes q name)).
Proof.
  rewrite should_include_spec, excludes_merge, negb_orb. f_equal. unfold unrestricted, includes, merge. cbn [include_prefixes].
  rewrite existsb_app. f_equal. destruct (include_prefixes p), (include_prefixes q); done.
Qed.

(** A policy applied to the flattened plan excludes what any mounted policy
    excludes. *)
Lemma flatten_excludes `{Regex} {Code} rules mounts nm sync name (m : WeightLayoutMount (WeightLayoutPlan Code)) :
  m ∈ mounts → excludes (r_sync (flatten (m_plan _ m))) name = true →
  should_exclude (flatten (mkPlan rules mounts nm sync)) name = true.
Proof.
  intros Hin He. unfold should_exclude. cbn [flatten r_sync]. rewrite should_include_spec.
  assert (∀ ms acc, (m ∈ ms ∨ excludes acc.2 name = true) →
    excludes (foldl (λ acc mount, match mount with mkMount _ prefix plan _ =>
      let r := flatten plan in ((acc.1 ++ (remount (Code := Code) prefix <$> r_rules r))%list, merge acc.2 (r_sync r)) end) acc ms).2 name = true) as Hx.
  { induction ms as [|[prefix plan nm'] ms IH]; intros acc [Hm|Ha]; [by apply elem_of_nil in Hm|done|..]; cbn [foldl]; apply IH.
    - apply elem_of_cons in Hm as [->|Hm]; [|by left]. right. cbn. rewrite excludes_merge. cbn in He. by rewrite He, orb_true_r.
    - right. cbn. by rewrite excludes_merge, Ha. }
  by rewrite Hx by by left.
Qed.

(** ** Runs *)

Module Demo.
(** Patterns without special characters. *)
Definition literal : Regex := {| re_sub := str_replace; re_fullmatch := λ p s, bool_decide (p = s) |}.
#[export] Existing Instance literal.

Definition rule (pattern hf : string) : WeightLayoutRule () := mkRule pattern [hf] (Transform.identity (Some hf)) SUFFIX [] [].
Definition inner : WeightLayoutPlan () := mkPlan [rule "qkv_proj.weight" "q_proj.weight"] [] None (mkPolicy [] ["mtp."] []).
Definition outer : WeightLayoutPlan () :=
  mkPlan [rule "norm.weight" "norm.weight"] [mkMount _ "language_model" inner None; mkMount _ "visual" inner None] None default_policy.
Definition model : WeightLayoutPlan () := mkPlan [] [mkMount _ "model" outer None] None default_policy.
Definition name : string := "model.visual.blocks.0.qkv_proj.weight".

Example lookup_run : matches_rules (flatten model) name None = [mkFlat "model.visual" (rule "qkv_proj.weight" "q_proj.weight")].
Proof. vm_compute. done. Qed.
End Demo.

Lemma flatten_equivalent_witness : well_mounted Demo.model = true ∧
  f_rule <$> matches_rules (H := Demo.literal) (flatten Demo.model) Demo.name None ≡ₚ applicable (H := Demo.literal) Demo.model Demo.name None.
Proof.
  split; [vm_compute; reflexivity|]. apply (@flatten_equivalent Demo.literal () Demo.model Demo.name None); [vm_compute; reflexivity|discriminate|vm_compute; reflexivity].
Defined.

Definition layer_pairs : list (string * string) := [("language_model.layers.", "language_model.model.layers."); ("visual.", "model.visual.")].

Lemma prefix_map_roundtrip_witness : unambiguous layer_pairs ∧
  to_vllm (H := Demo.literal) (from_prefix_pairs layer_pairs MPrefix) "language_model.model.layers.0.norm" = Some "language_model.layers.0.norm".
Proof.
  assert (unambiguous layer_pairs) as Hu.
  { intros s d s' d' Hin Hin'. unfold layer_pairs in *. set_unfold in Hin. set_unfold in Hin'. intros Hs.
    destruct Hin as [[= -> ->]|[[= -> ->]|[]]], Hin' as [[= -> ->]|[[= -> ->]|[]]]; first [by split|vm_compute in Hs; discriminate]. }
  split; [exact Hu|].
  apply (@prefix_map_roundtrip Demo.literal layer_pairs); [exact Hu|vm_compute; reflexivity].
Defined.

(** In the default mode, which replaces the first occurrence, a reversible map is
    not undone. *)
Example substring_map_not_reversible : let m := from_prefix_pairs [("layers.", "model.layers.")] MSubstr in
  to_hf (H := Demo.literal) m "model.layers.layers.0" = Some "model.model.layers.layers.0" ∧
  let m' := from_prefix_pairs [("a.", "b.")] MSubstr in
  (to_hf (H := Demo.literal) m' "b.a.w" ≫= to_vllm (H := Demo.literal) m') = Some "a.b.w".
Proof. vm_compute. done. Qed.

(** Neither the name map of a mount nor the one of the mounted plan reaches the
    flattened plan. *)
Example mounted_maps_unread (m : ReversibleNameMap) :
  let plan nm := mkPlan (Code := ()) [Demo.rule "w" "w"] [] nm default_policy in
  flatten (mkPlan [] [mkMount _ "sub" (plan (Some m)) (Some m)] None default_policy) =
  flatten (mkPlan [] [mkMount _ "sub" (plan None) None] None default_policy).
Proof. done. Qed.

(** A prefix that a mounted plan includes restricts the whole model, and is not
    taken relative to the mount. *)
Example mounted_includes : let inner := mkPlan (Code := ()) [] [] None (mkPolicy ["layers."] [] []) in
  let plan := flatten (mkPlan [] [mkMount _ "language_model" inner None] None default_policy) in
  should_exclude plan "visual.blocks.0.w" = true ∧ should_exclude plan "language_model.layers.0.w" = true.
Proof. vm_compute. done. Qed.

(** The builder extended with a plan loses the prefixes that the plan includes. *)
Example extend_drops_includes : let plan := build (Code := ()) (include_prefix "layers." (new_builder None)) in
  should_include (sync plan) "visual.w" = false ∧ should_include (sync (build (extend plan (new_builder None)))) "visual.w" = true.
Proof. vm_compute. done. Qed.

(** The modules inside a module that declares its own layout get rules too: the
    parameter is converted twice. *)
Example auto_visits_mounted : let layer := mkNamed (Code := ()) in
  let plan := build_auto_weight_layout
    [layer "" [] true false None; layer "sub" [] false false (Some (mkPlan [Demo.rule "qkv_proj.weight" "q_proj.weight"] [] None default_policy));
     layer "sub.qkv_proj" ["QKVParallelLinear"] false false None] None [] in
  length (matches_rules (H := Demo.literal) (flatten plan) "sub.qkv_proj.weight" None) = 2%nat.
Proof. vm_compute. done. Qed.
