(* ===== verification/WeightTransforms.v ===== *)
(** * Executing weight layout plans

    psrl/utils/converter/weight_layout_transforms.py: the transforms of a weight
    layout, executed on a tensor.  psrl/utils/converter/weight_layout_plan.py: the
    conversion of a parameter by the rules of a flattened plan.

    The fragments that a generator yields are a list; an exception leaves the whole
    conversion. *)

From Stdlib Require Import Ascii.
From stdpp Require Import pretty.
From S2P Require Import Prelude.
From S2P Require Import PyData.
From S2P Require Import EnvShell.
From S2P Require Import PyStr.
From S2P Require Import Sharding.
From S2P Require Import Tensors.
From S2P Require Import ModelSlices.
From S2P Require Import WeightLayout.

#[local] Open Scope string_scope.
#[local] Open Scope list_scope.
#[local] Open Scope Z_scope.

(** What is called of code outside the repository: the functions that derive a
    tensor, custom transforms (if they have the method), the expressions of
    shapes, and the name recorded on a parameter. *)
Class Callables `{TensorOps} (Code : Type) := {
  call_derive : Code → tensor → option (NnModule Code) → Res (tensor + list (string * tensor));
  call_vllm_to_hf : Code → option (string → tensor → option (NnModule Code) → Z → Res (list (string * tensor)));
  eval_shape : string → tensor → option (NnModule Code) → Res (list Z);
  recorded_name : tensor → option string;
}.

Section executor.
Context `{Callables Code}.
Abbreviation Transform := (WeightTransform Code).
Abbreviation Module_ := (option (NnModule Code)).

Record TransformFragment := mkFragment {
  fr_name : option string;
  fr_param : tensor;
  fr_shard_id : option ShardId;
  fr_sharding : option NIXLSharding;
}.

Definition fragment (name : string) (t : tensor) : TransformFragment := mkFragment (Some name) t None None.

(** ** Tensors *)

(** A dimension that may be counted from the end. *)
Definition py_dim (axis : Z) (t : tensor) : Res nat :=
  let n := Z.of_nat (ndim t) in
  let d := if bool_decide (axis < 0) then axis + n else axis in
  if bool_decide (0 ≤ d < n) then inr (Z.to_nat d) else inl IndexError.

(** [t[i]] *)
Definition py_select (i : Z) (t : tensor) : Res tensor := n ← dim_size 0 t; select (if bool_decide (i < 0) then i + n else i) t.

(** [t[lo:hi]] *)
Definition slice_rows (lo hi : Z) (t : tensor) : Res tensor :=
  n ← dim_size 0 t;
  let clamp x := Z.min n (Z.max 0 (if bool_decide (x < 0) then x + n else x)) in
  narrow 0 (clamp lo) (Z.max 0 (clamp hi - clamp lo)) t.

(** [torch.stack(ts, dim=1)] *)
Definition unsqueeze1 (t : tensor) : Res tensor :=
  match shape t with n :: rest => reshape (n :: 1 :: rest) t | [] => inl IndexError end.
Definition stack1 (ts : list tensor) : Res tensor := us ← map_res unsqueeze1 ts; cat 1 us.

(** ** Metadata *)

Definition meta_of (t : Transform) (key : string) : mval Code := meta_get key (metadata t) VNone.
Definition str_of (t : Transform) (key d : string) : string := match meta_get key (metadata t) (VStr d) with VStr s => s | _ => d end.

(** An entry of the metadata, or the attribute of the module. *)
Definition meta_or_attr (t : Transform) (key attr : string) (module : Module_) : mval Code :=
  let v := meta_of t key in if is_none v then get_module_attr module attr VNone else v.

Definition first_name (t : Transform) : Res string := match pieces t with p :: _ => inr (hf_name p) | [] => inl ValueError end.

Definition get_ep_size (module : Module_) : Res Z := mint (get_module_attr module "ep_size" (VInt 1)).

(** ** Transforms *)

Definition transform_identity (t : Transform) (param : tensor) : Res (list TransformFragment) :=
  mret [mkFragment (match pieces t with p :: _ => Some (hf_name p) | [] => None end) param None None].

Definition qkv_sizes (t : Transform) (param : tensor) (module : Module_) : Res (Z * Z) :=
  let heads := get_module_attr module (str_of t "num_heads_attr" "num_heads") VNone in
  let kv_heads := get_module_attr module (str_of t "num_kv_heads_attr" "num_kv_heads") VNone in
  let head_size := get_module_attr module (str_of t "head_size_attr" "head_size") VNone in
  if negb (is_none heads) && negb (is_none kv_heads) && negb (is_none head_size) then
    a ← mint heads; b ← mint kv_heads; s ← mint head_size; mret (a * s, b * s)
  else
    total ← dim_size 0 param;
    _ ← ensure (bool_decide (total mod 3 = 0)) ValueError;
    mret (total / 3, total / 3).

Definition transform_qkv (t : Transform) (param : tensor) (module : Module_) : Res (list TransformFragment) :=
  match pieces t with
  | pq :: pk :: pv :: _ =>
      sizes ← qkv_sizes t param module;
      let '(q_size, k_size) := (sizes : Z * Z) in
      d ← py_dim (axis t) param;
      n ← dim_size d param;
      _ ← ensure (bool_decide (n = q_size + k_size + k_size)) ValueError;
      q ← narrow d 0 q_size param;
      k ← narrow d q_size k_size param;
      v ← narrow d (q_size + k_size) k_size param;
      mret [mkFragment (Some (hf_name pq)) q (Some (ShardStr "q")) None; mkFragment (Some (hf_name pk)) k (Some (ShardStr "k")) None;
            mkFragment (Some (hf_name pv)) v (Some (ShardStr "v")) None]
  | _ => inl ValueError
  end.

Definition resolve_lengths (ps : list (WeightPiece Code)) (total : Z) : Res (list Z) :=
  let explicit := plength <$> ps in
  let n_none := Z.of_nat (length (List.filter (λ x : option Z, bool_decide (x = None)) explicit)) in
  if bool_decide (n_none = 0) then mret (default 0 <$> explicit)
  else
    let remaining := total - sum_Z (default 0 <$> explicit) in
    _ ← ensure (bool_decide (0 ≤ remaining)) ValueError;
    _ ← ensure (bool_decide (remaining mod n_none = 0)) ValueError;
    mret (default (remaining / n_none) <$> explicit).

Definition transform_merged_column (t : Transform) (param : tensor) : Res (list TransformFragment) :=
  match pieces t with
  | [] => inl ValueError
  | ps =>
      d ← py_dim (axis t) param;
      total ← dim_size d param;
      lengths ← resolve_lengths ps total;
      slices ← narrow_all d (spans 0 lengths) param;
      mret (zip_with (λ p s, fragment (hf_name p) s) ps slices)
  end.

Definition transform_qkv_interleaved (t : Transform) (param : tensor) (module : Module_) : Res (list TransformFragment) :=
  name ← first_name t;
  let heads := get_module_attr module (str_of t "num_heads_attr" "num_heads") VNone in
  let kv_heads := get_module_attr module (str_of t "num_kv_heads_attr" "num_kv_heads") heads in
  let head_dim := get_module_attr module (str_of t "head_dim_attr" "head_dim") VNone in
  _ ← ensure (negb (is_none heads) && negb (is_none head_dim)) ValueError;
  num_heads ← mint heads;
  num_kv_heads ← (if is_none kv_heads then mret num_heads else mint kv_heads);
  head_dim ← mint head_dim;
  let q_size := num_heads * head_dim in
  let k_size := num_kv_heads * head_dim in
  match shape param with
  | [] => inl IndexError
  | rows :: rest =>
      q_all ← slice_rows 0 q_size param;
      k_all ← slice_rows q_size (q_size + k_size) param;
      v_all ← slice_rows (q_size + k_size) rows param;
      q_heads ← reshape (num_heads :: head_dim :: rest) q_all;
      k_heads ← reshape (num_kv_heads :: head_dim :: rest) k_all;
      v_heads ← reshape (num_kv_heads :: head_dim :: rest) v_all;
      if bool_decide (num_kv_heads ≠ num_heads) then mret [fragment name param]
      else
        stacked ← stack1 [q_heads; k_heads; v_heads];
        result ← reshape (q_size + k_size + k_size :: rest) stacked;
        mret [fragment name result]
  end.

(** The two halves of an expert. *)
Definition halves (i : Z) (param : tensor) : Res (tensor * tensor) :=
  expert ← py_select i param;
  n ← dim_size 0 expert;
  gate ← narrow 0 0 (n / 2) expert;
  up ← narrow 0 (n / 2) (n / 2) expert;
  mret (gate, up).

(** [template.format(i=i)], for templates with no other field. *)
Definition format_i (template : string) (i : Z) : string := str_replace "{i}" (pretty i) template.

(** The number of local experts and the first of them. *)
Definition local_experts (ep_rank num_experts ep_size : Z) : Z * Z := (num_experts / ep_size, ep_rank * (num_experts / ep_size)).

Definition fused_moe_from_expert_mapping (ep_rank : Z) (entries : list ExpertEntry) (param : tensor) (module : Module_) (full_name : string)
    : Res (list TransformFragment) :=
  ep_size ← get_ep_size module;
  let ids := (λ e : ExpertEntry, e.1.2) <$> entries in
  let '(num_local, start) := local_experts ep_rank (Z.of_nat (length (remove_dups ids))) ep_size in
  let is_local i := if bool_decide (1 < ep_size) then bool_decide (start ≤ i < start + num_local) else bool_decide (i ∈ ids) in
  let first := if bool_decide (1 < ep_size) then start else 0 in
  frags ← map_res (λ '(((packed, hf), expert_id), shard_id),
    if negb (ends_with packed full_name) || negb (is_local expert_id) then mret []
    else
      let local_i := expert_id - first in
      if bool_decide (shard_id = "w1") then h ← halves local_i param; mret [fragment hf h.1]
      else if bool_decide (shard_id = "w3") then h ← halves local_i param; mret [fragment hf h.2]
      else if bool_decide (shard_id = "w2") then w ← py_select local_i param; mret [fragment hf w]
      else inl ValueError) entries;
  mret (concat frags).

Definition transform_fused_moe (ep_rank : Z) (t : Transform) (param : tensor) (module : Module_) (full_name : option string)
    : Res (list TransformFragment) :=
  match full_name, assoc "expert_mapping" (metadata t) with
  | None, _ => inl ValueError
  | Some name, Some (VExperts entries) => fused_moe_from_expert_mapping ep_rank entries param module name
  | Some _, Some _ => inl TypeError
  | Some name, None =>
      let num_experts := meta_or_attr t "num_experts" (str_of t "num_experts_attr" "num_experts") module in
      _ ← ensure (negb (is_none num_experts)) ValueError;
      num_experts ← mint num_experts;
      ep_size ← get_ep_size module;
      rows ← dim_size 0 param;
      let '(num_local, start) :=
        if mtrue (meta_get "ep_aware" (metadata t) (VBool true)) && bool_decide (1 < ep_size)
        then local_experts ep_rank num_experts ep_size else (rows, 0) in
      if ends_with (str_of t "w13_name" "w13_weight") name then
        frags ← map_res (λ i, h ← halves i param;
          mret [fragment (format_i (str_of t "gate_name" "") (start + i)) h.1; fragment (format_i (str_of t "up_name" "") (start + i)) h.2])
          (zrange 0 num_local);
        mret (concat frags)
      else if ends_with (str_of t "w2_name" "w2_weight") name then
        map_res (λ i, w ← py_select i param; mret (fragment (format_i (str_of t "down_name" "") (start + i)) w)) (zrange 0 num_local)
      else inl ValueError
  end.

Definition transform_expert_matrix (t : Transform) (param : tensor) (module : Module_) : Res (list TransformFragment) :=
  name ← first_name t;
  let num_experts := meta_or_attr t "num_experts" (str_of t "num_experts_attr" "num_experts") module in
  _ ← ensure (negb (is_none num_experts)) ValueError;
  num_experts ← mint num_experts;
  match shape param with
  | [] => inl IndexError
  | rows :: rest =>
      remaining ← pdiv rows num_experts;
      reshaped ← reshape (num_experts :: remaining :: rest) param;
      result ← (if mtrue (meta_get "transpose_w2" (metadata t) (VBool false)) then
                  let n := ndim reshaped in transpose (n - 2) (n - 1) reshaped
                else mret reshaped);
      mret [fragment name result]
  end.

Definition transform_transpose (t : Transform) (param : tensor) : Res (list TransformFragment) :=
  name ← first_name t;
  match meta_get "dims" (metadata t) (VInts [0; 1]) with
  | VInts (d0 :: d1 :: _) => a ← py_dim d0 param; b ← py_dim d1 param; u ← transpose a b param; mret [fragment name u]
  | VInts _ => inl ValueError
  | _ => inl TypeError
  end.

Definition transform_reshape (t : Transform) (param : tensor) (module : Module_) : Res (list TransformFragment) :=
  name ← first_name t;
  new_shape ← match meta_of t "shape_expr" with
              | VNone => inl ValueError
              | VInts l => mret l
              | VStr s => match eval_shape s param module with inl _ => inl ValueError | inr l => inr l end
              | VInt n => mret [n]
              | _ => inl TypeError
              end;
  u ← reshape new_shape param;
  mret [fragment name u].

Definition transform_permute_qk_rotary (t : Transform) (param : tensor) (module : Module_) : Res (list TransformFragment) :=
  name ← first_name t;
  let head_dim := meta_or_attr t "head_dim" (str_of t "head_dim_attr" "head_dim") module in
  _ ← ensure (negb (is_none head_dim)) ValueError;
  head_dim ← mint head_dim;
  match shape param with
  | [] => inl IndexError
  | rows :: rest =>
      n_heads ← pdiv rows head_dim;
      reshaped ← reshape (n_heads :: 2 :: head_dim / 2 :: rest) param;
      permuted ← transpose 1 2 reshaped;
      result ← reshape (rows :: rest) permuted;
      mret [fragment name result]
  end.

Definition transform_scalar_extract (t : Transform) (param : tensor) : Res (list TransformFragment) :=
  name ← first_name t;
  index ← mint (meta_get "index" (metadata t) (VInt 0));
  u ← py_select index param;
  mret [fragment name u].

Definition transform_index_select (t : Transform) (param : tensor) (module : Module_) : Res (list TransformFragment) :=
  name ← first_name t;
  dim ← mint (meta_get "dim" (metadata t) (VInt 0));
  let indices := match meta_of t "indices", meta_of t "index_attr" with
                 | VNone, VStr attr => get_module_attr module attr VNone
                 | v, _ => v
                 end in
  match indices with
  | VNone => inl ValueError
  | VInts l => d ← py_dim dim param; u ← index_select d l param; mret [fragment name u]
  | _ => inl TypeError
  end.

Definition transform_alias (t : Transform) (param : tensor) : Res (list TransformFragment) := name ← first_name t; mret [fragment name param].

Definition transform_derive (t : Transform) (param : tensor) (module : Module_) : Res (list TransformFragment) :=
  name ← first_name t;
  let fn := match meta_of t "fn", meta_of t "fn_name" with
            | VNone, VStr attr => get_module_attr module attr VNone
            | v, _ => v
            end in
  match fn with
  | VNone => inl ValueError
  | VCode f =>
      match call_derive f param module with
      | inl _ => inl ValueError
      | inr (inr l) => mret ((λ '(n, u), fragment n u) <$> l)
      | inr (inl u) => mret [fragment name u]
      end
  | _ => inl ValueError
  end.

Definition transform_custom (tp_rank : Z) (t : Transform) (param : tensor) (module : Module_) : Res (list TransformFragment) :=
  match meta_of t "transform_instance" with
  | VCode c =>
      match call_vllm_to_hf c with
      | None => inl ValueError
      | Some f =>
          let full_name := match pieces t with p :: _ => hf_name p | [] => default "unknown" (recorded_name param) end in
          match f full_name param module tp_rank with
          | inl e => inl e
          | inr l => inr ((λ '(n, u), fragment n u) <$> l)
          end
      end
  | _ => inl ValueError
  end.

Definition execute_transform (tp_rank ep_rank : Z) (t : Transform) (param : tensor) (module : Module_) (full_name : option string)
    : Res (list TransformFragment) :=
  let k := kind t in
  if String.eqb k "identity" then transform_identity t param
  else if String.eqb k "qkv" then transform_qkv t param module
  else if String.eqb k "merged_column" || String.eqb k "split" then transform_merged_column t param
  else if String.eqb k "qkv_interleaved" then transform_qkv_interleaved t param module
  else if String.eqb k "fused_moe" then transform_fused_moe ep_rank t param module full_name
  else if String.eqb k "expert_matrix" then transform_expert_matrix t param module
  else if String.eqb k "transpose" then transform_transpose t param
  else if String.eqb k "reshape" then transform_reshape t param module
  else if String.eqb k "permute_qk_rotary" then transform_permute_qk_rotary t param module
  else if String.eqb k "scalar_extract" then transform_scalar_extract t param
  else if String.eqb k "index_select" then transform_index_select t param module
  else if String.eqb k "alias" then transform_alias t param
  else if String.eqb k "derive" then transform_derive t param module
  else if String.eqb k "custom" then transform_custom tp_rank t param module
  else inl ValueError.

(** ** Plans *)

Context `{Regex}.

Record ConvertedWeight := mkConverted { cw_name : string; cw_param : tensor; cw_sharding : option NIXLSharding }.

Definition global_name (plan : ResolvedWeightLayoutPlan Code) (name : string) : string :=
  match r_name_map plan with Some m => to_hf_or_identity m name | None => name end.

(** What precedes the suffix that a rule matches; [name[:-0]] is empty. *)
Definition name_base (r : WeightLayoutRule Code) (full_name : string) : option string :=
  if bool_decide (match_mode r = SUFFIX) then
    if bool_decide (vllm_pattern r = "") then Some "" else strip_suffix (vllm_pattern r) full_name
  else None.

Definition fragment_name (r : WeightLayoutRule Code) (full_name : string) (f : TransformFragment) : string :=
  match fr_name f with
  | None => full_name
  | Some n => match name_base r full_name with Some base => (base ++ n)%string | None => n end
  end.

Definition apply_rule (plan : ResolvedWeightLayoutPlan Code) (tp_rank ep_rank : Z) (full_name : string) (param : tensor) (module : Module_)
    (f : FlattenedRule Code) : Res (list ConvertedWeight) :=
  match execute_transform tp_rank ep_rank (WeightLayout.transform (f_rule f)) param module (Some full_name) with
  | inl e => inl e
  | inr frags =>
      let convert (fr : TransformFragment) := mkConverted (global_name plan (fragment_name (f_rule f) full_name fr)) (fr_param fr) (fr_sharding fr) in
      inr (convert <$> frags)
  end.

Definition execute (plan : ResolvedWeightLayoutPlan Code) (tp_rank ep_rank : Z) (name : string) (param : tensor) (module : Module_)
    : Res (list ConvertedWeight) :=
  if should_exclude plan name then mret []
  else
    match matches_rules plan name module with
    | [] => mret [mkConverted (global_name plan name) param None]
    | matching => l ← map_res (apply_rule plan tp_rank ep_rank name param module) matching; mret (List.concat l)
    end.
End executor.

Arguments TransformFragment {_}.
Arguments ConvertedWeight {_}.
