(* ===== verification/WeightTransformsTheorems.v ===== *)
(** * Executing weight layout plans: theorems

    A merged weight is cut into consecutive slices that cover it; the rotary
    permutation undoes the one applied when weights are loaded; the ranks of an
    expert-parallel group export every expert once. *)

From stdpp Require Import pretty.
From S2P Require Import Prelude.
From S2P Require Import PyData.
From S2P Require Import EnvShell.
From S2P Require Import PyStr.
From S2P Require Import Sharding.
From S2P Require Import Tensors.
From S2P Require Import ModelSlices.
From S2P Require Import WeightLayout.
From S2P Require Import WeightTransforms.

#[local] Open Scope string_scope.
#[local] Open Scope list_scope.
#[local] Open Scope Z_scope.

(** ** Permutations of rows *)

Section rotary.
Context `{TensorLaws}.

(** Rows in groups of [a] by [b] become rows in groups of [b] by [a]. *)
Definition swaps_rows (n a b : Z) (t u : tensor) : Prop :=
  shape u = shape t ∧
  ∀ h i j idx, 0 ≤ h < n → 0 ≤ i < a → 0 ≤ j < b → valid (shape t) ((h * a + i) * b + j :: idx) →
    elem u ((h * b + j) * a + i :: idx) = elem t ((h * a + i) * b + j :: idx).

Lemma ravel4 n a b rest h i j idx :
  ravel (n :: a :: b :: rest) (h :: i :: j :: idx) = ravel (n * (a * b) :: rest) ((h * a + i) * b + j :: idx).
Proof. cbn [ravel]. rewrite !product_cons. ring. Qed.

Lemma row_bound n a b h i j : 0 ≤ h < n → 0 ≤ i < a → 0 ≤ j < b → 0 ≤ (h * a + i) * b + j < n * (a * b).
Proof. intros Hh Hi Hj. assert (0 ≤ h * a + i < n * a) by nia. nia. Qed.

Lemma product_regroup n a b rest : product (n :: a :: b :: rest) = product (n * (a * b) :: rest).
Proof. rewrite !product_cons. ring. Qed.

Lemma swap_run n a b rest t : shape t = n * (a * b) :: rest → 0 ≤ n → 0 < a → 0 < b →
  ∃ u, (r ← reshape (n :: a :: b :: rest) t; p ← transpose 1 2 r; reshape (n * (a * b) :: rest) p) = inr u ∧ swaps_rows n a b t u.
Proof.
  intros Ht Hn Ha Hb. pose proof (elem_shape t) as Hnn. rewrite Ht in Hnn. inversion_clear Hnn as [|? ? _ Hrest].
  destruct (reshape_law (n :: a :: b :: rest) t) as (r & Er & Hr & Er').
  { repeat (constructor; [lia|]). done. } { by rewrite Ht, product_regroup. }
  destruct (transpose_inner_law r n a b rest Hr) as (p & Ep & Hp & Ep').
  destruct (reshape_law (n * (a * b) :: rest) p) as (u & Eu & Hu & Eu').
  { constructor; [nia|done]. } { rewrite Hp, product_regroup. by rewrite (Z.mul_comm b a). }
  exists u. rewrite Er. cbn [mbind res_bind]. rewrite Ep. cbn [mbind res_bind]. split; [done|]. split; [congruence|].
  intros h i j idx Hh Hi Hj Hv. rewrite Ht in Hv. apply valid_cons in Hv as [_ Hidx].
  pose proof (row_bound n a b h i j Hh Hi Hj). pose proof (row_bound n b a h j i Hh Hj Hi) as Hb'.
  rewrite (Eu' _ (h :: j :: i :: idx)).
  - rewrite Ep' by (rewrite Hp; by repeat (apply valid_cons; split)). apply Er'; rewrite ?Hr, ?Ht.
    + by repeat (apply valid_cons; split).
    + by apply valid_cons.
    + by rewrite ravel4.
  - rewrite Hu. apply valid_cons. split; [lia|done].
  - rewrite Hp. by repeat (apply valid_cons; split).
  - rewrite Hu, Hp, ravel4. by rewrite (Z.mul_comm b a).
Qed.

Lemma swap_swap n a b t u v : 0 < a → 0 < b → (∃ rest, shape t = n * (a * b) :: rest) →
  swaps_rows n a b t u → swaps_rows n b a u v → same t v.
Proof.
  intros Ha Hb [rest Ht] [Hu Eu] [Hv Ev]. split; [congruence|]. intros idx Hi.
  rewrite Ht in Hi. destruct idx as [|r idx]; [by inversion Hi|]. apply valid_cons in Hi as [Hr Hidx].
  set (j := r mod b). set (i := r / b mod a). set (h := r / b / a).
  pose proof (Z.mod_pos_bound r b Hb) as Hj. pose proof (Z.mod_pos_bound (r / b) a Ha) as Hi. pose proof (Z.div_mod r b ltac:(lia)) as E1.
  pose proof (Z.div_mod (r / b) a ltac:(lia)) as E2.
  assert (r = (h * a + i) * b + j) as E by (unfold h, i, j; rewrite (Z.mul_comm _ a), <- E2; lia).
  assert (0 ≤ h < n) as Hh.
  { unfold h. split; [apply Z.div_pos; [apply Z.div_pos; lia|lia]|]. apply Z.div_lt_upper_bound; [lia|]. apply Z.div_lt_upper_bound; [lia|]. nia. }
  fold i in Hi. fold j in Hj. rewrite E, <- Eu by (done || by rewrite Ht, <- E; apply valid_cons).
  symmetry. apply Ev; [done..|]. rewrite Hu, Ht. apply valid_cons. split; [|done].
  pose proof (row_bound n b a h j i Hh Hj Hi). lia.
Qed.
End rotary.

Section exports.
Context `{TensorLaws} `{!Callables Code}.
Implicit Types (tr : WeightTransform Code) (module : option (NnModule Code)).

(** What the transform undoes: the loader of the training library, which is not part
    of the repository, permutes the rows of a query or key weight as the docstring of
    [_transform_permute_qk_rotary] says: [view(heads, head_dim // 2, 2, hidden)] with the
    middle axes transposed. *)
Definition load_rotary (head_dim : Z) (t : tensor) : Res tensor :=
  match shape t with
  | rows :: rest =>
      r ← reshape (rows / head_dim :: head_dim / 2 :: 2 :: rest) t;
      p ← transpose 1 2 r;
      reshape (rows :: rest) p
  | [] => inl IndexError
  end.

(** C35: The rotary permutation of the export undoes the one of the load: a query or
    key weight with an even head size, permuted when it was loaded, is exported as
    the weight of the checkpoint. *)
Theorem rotary_roundtrip tr module p ps half n rest t :
  pieces tr = p :: ps → meta_or_attr tr "head_dim" (str_of tr "head_dim_attr" "head_dim") module = VInt (2 * half) →
  shape t = n * (2 * half) :: rest → 0 ≤ n → 0 < half →
  ∃ u v, load_rotary (2 * half) t = inr u ∧ transform_permute_qk_rotary tr u module = inr [fragment (hf_name p) v] ∧ same t v.
Proof.
  intros Hp Hd Ht Hn Hh.
  destruct (swap_run n half 2 rest t) as (u & Eu & Su); [by rewrite (Z.mul_comm half)|lia..|].
  assert (shape u = n * (2 * half) :: rest) as Hu by (destruct Su as [-> _]; done).
  destruct (swap_run n 2 half rest u) as (v & Ev & Sv); [done|lia..|]. exists u, v. split; [|split].
  - unfold load_rotary. rewrite Ht, Z.div_mul, (Z.mul_comm 2), Z.div_mul by lia. exact Eu.
  - unfold transform_permute_qk_rotary, first_name. rewrite Hp. cbn [mbind res_bind]. rewrite Hd. cbn [is_none negb ensure mint mbind res_bind].
    rewrite Hu. unfold pdiv. rewrite bool_decide_eq_false_2 by lia. cbn [mbind res_bind]. rewrite Z.div_mul by lia.
    rewrite (Z.mul_comm 2 half), Z.div_mul by lia. rewrite (Z.mul_comm 2 half) in Ev.
    apply bind_inr in Ev as (r & -> & Ev). cbn [mbind res_bind]. apply bind_inr in Ev as (q & -> & Ev). cbn [mbind res_bind]. by rewrite Ev.
  - eapply (swap_swap n half 2); [lia|lia| |exact Su|exact Sv]. exists rest. by rewrite (Z.mul_comm half).
Qed.

(** ** Consecutive slices *)

(** The parts [us] of [t] along [d] are consecutive, from [off], with these lengths. *)
Definition consecutive (d : nat) (off : Z) (lengths : list Z) (t : tensor) (us : list tensor) : Prop :=
  Forall2 (λ span u, is_narrow d span.1 span.2 t u) (spans off lengths) us.

Lemma narrow_all_run d off lengths t total : shape t !! d = Some total → 0 ≤ off → Forall (Z.le 0) lengths → off + sum_Z lengths ≤ total →
  ∃ us, narrow_all d (spans off lengths) t = inr us ∧ consecutive d off lengths t us.
Proof.
  intros Ht. revert off. induction lengths as [|l lengths IH]; intros off Ho Hl Hs; [exists []; by split; [|constructor]|].
  apply Forall_cons in Hl as [Hl Hls]. cbn in Hs. fold (sum_Z lengths) in Hs.
  assert (0 ≤ sum_Z lengths) as Hsum by (clear -Hls; induction Hls as [|x xs Hx _ IHx]; [done|]; change (0 ≤ x + sum_Z xs); lia).
  destruct (narrow_law d off l t total Ht) as (u & Eu & Nu); [lia..|].
  destruct (IH (off + l)) as (us & Eus & Hus); [lia|done|lia|]. exists (u :: us). unfold narrow_all in *. cbn [spans map_res].
  rewrite Eu, Eus. split; [done|]. by constructor.
Qed.

Definition unsized (ps : list (WeightPiece Code)) : list (WeightPiece Code) := List.filter (λ p, bool_decide (plength p = None)) ps.

Lemma count_unsized ps : length (List.filter (λ x : option Z, bool_decide (x = None)) (plength <$> ps)) = length (unsized ps).
Proof. unfold unsized. induction ps as [|p ps IH]; [done|]. cbn. case_bool_decide; cbn; congruence. Qed.

(** The sum of the lengths when the others get [n]. *)
Lemma sum_lengths n ps : sum_Z (default n <$> (plength <$> ps)) = sum_Z (default 0 <$> (plength <$> ps)) + n * Z.of_nat (length (unsized ps)).
Proof.
  unfold unsized. induction ps as [|p ps IH]; [cbn; lia|]. cbn [fmap list_fmap sum_Z foldr List.filter].
  fold (sum_Z (default n <$> (plength <$> ps))) (sum_Z (default 0 <$> (plength <$> ps))). rewrite IH.
  destruct (plength p); cbn; lia.
Qed.

Definition sizes_ok (ps : list (WeightPiece Code)) : Prop := Forall (λ p, from_option (Z.le 0) True (plength p)) ps.

Lemma lengths_nonneg n ps : 0 ≤ n → sizes_ok ps → Forall (Z.le 0) (default n <$> (plength <$> ps)).
Proof. intros Hn Hs. do 2 apply Forall_fmap. eapply Forall_impl; [exact Hs|]. intros p. cbn. by destruct (plength p). Qed.

Lemma resolve_total ps total lengths : unsized ps ≠ [] → sizes_ok ps → resolve_lengths ps total = inr lengths →
  Forall (Z.le 0) lengths ∧ sum_Z lengths = total ∧
  Forall2 (λ p l, from_option (eq l) True (plength p)) ps lengths.
Proof.
  intros Hu Hs. unfold resolve_lengths. rewrite count_unsized.
  set (n := Z.of_nat (length (unsized ps))). assert (0 < n) by (unfold n; destruct (unsized ps); [done|cbn; lia]).
  rewrite bool_decide_eq_false_2 by lia. set (r := total - _). intros E. res_inv. subst lengths.
  assert (0 ≤ r / n) by (apply Z.div_pos; lia). pose proof (Z.div_mod r n ltac:(lia)).
  split; [by apply lengths_nonneg|]. split.
  - rewrite sum_lengths. fold n. unfold r in *. lia.
  - generalize (r / n). clear. intros x. induction ps as [|p ps IH]; [constructor|]. cbn. constructor; [by destruct (plength p)|exact IH].
Qed.

(** A merged weight with pieces of no given length is cut along its axis into
    one slice per piece, consecutive from its start and covering it, each piece of
    a given length with that length; when the lengths leave a remainder that is
    negative or not shared equally, the transform raises. *)
Theorem merged_column_exact tr t d total :
  unsized (pieces tr) ≠ [] → sizes_ok (pieces tr) → py_dim (axis tr) t = inr d → shape t !! d = Some total →
  let remaining := total - sum_Z (default 0 <$> (plength <$> pieces tr)) in
  if bool_decide (0 ≤ remaining ∧ remaining mod Z.of_nat (length (unsized (pieces tr))) = 0)
  then ∃ lengths us, transform_merged_column tr t = inr (zip_with (λ p u, fragment (hf_name p) u) (pieces tr) us) ∧
    consecutive d 0 lengths t us ∧ sum_Z lengths = total ∧ Forall2 (λ p l, from_option (eq l) True (plength p)) (pieces tr) lengths
  else transform_merged_column tr t = inl ValueError.
Proof.
  intros Hu Hs Hd Ht. cbv zeta. unfold transform_merged_column. destruct (pieces tr) as [|p ps] eqn:Ep; [done|]. rewrite <- Ep in *.
  set (remaining := total - _).
  rewrite Hd. cbn [mbind res_bind]. unfold dim_size. rewrite Ht. cbn [mbind res_bind].
  assert (Z.of_nat (length (unsized (pieces tr))) ≠ 0) as Hn by (destruct (unsized (pieces tr)); [done|cbn; lia]).
  case_bool_decide as Hr.
  - assert (∃ lengths, resolve_lengths (pieces tr) total = inr lengths) as [lengths El].
    { destruct Hr as [Hr1 Hr2]. unfold resolve_lengths. cbv zeta. rewrite count_unsized, (bool_decide_eq_false_2 _ Hn). fold remaining.
      rewrite (bool_decide_eq_true_2 _ Hr1), (bool_decide_eq_true_2 _ Hr2). by eexists. }
    destruct (resolve_total _ _ _ Hu Hs El) as (Hl & Hsum & Hf).
    destruct (narrow_all_run d 0 lengths t total Ht) as (us & Eus & Hus); [lia|done|lia|].
    exists lengths, us. rewrite El. cbn [mbind res_bind]. rewrite Eus. done.
  - assert (resolve_lengths (pieces tr) total = inl ValueError) as ->; [|done].
    unfold resolve_lengths. cbv zeta. rewrite count_unsized, (bool_decide_eq_false_2 _ Hn). fold remaining.
    destruct (decide (0 ≤ remaining)) as [H0'|H0'].
    + rewrite (bool_decide_eq_true_2 _ H0'). cbn [ensure mbind res_bind]. by rewrite bool_decide_eq_false_2 by tauto.
    + by rewrite (bool_decide_eq_false_2 _ H0').
Qed.

(** ** Experts *)

Lemma zrange_blocks (k : Z) (n : nat) : 0 ≤ k →
  flat_map (λ r, (Z.add (r * k)) <$> zrange 0 k) (zrange 0 (Z.of_nat n)) = zrange 0 (Z.of_nat n * k).
Proof.
  intros Hk. unfold zrange. rewrite !Z.sub_0_r. induction n as [|n IH]; [done|].
  rewrite Nat2Z.inj_succ. rewrite <- Z.add_1_r, seqZ_app by lia. rewrite flat_map_app, IH, Z.add_0_l.
  assert (seqZ (Z.of_nat n) 1 = [Z.of_nat n]) as -> by (rewrite seqZ_cons by lia; done). cbn [flat_map]. rewrite app_nil_r.
  rewrite Z.mul_add_distr_r, Z.mul_1_l, seqZ_app by nia. f_equal. rewrite fmap_add_seqZ. by rewrite Z.add_0_r, Z.add_0_l.
Qed.

(** The names of the fragments of an expert. *)
Definition frag_names (frags : list TransformFragment) : list (option string) := fr_name <$> frags.

Definition moe (w13 w2 gate up down : string) (num_experts : Z) : WeightTransform Code :=
  Transform.fused_moe w13 w2 gate up down num_experts "num_experts" true.

Lemma fused_moe_run w13 w2 gate up down num_experts ep_rank t module name ep_size rest :
  get_ep_size module = inr ep_size → 1 < ep_size → shape t = num_experts / ep_size :: rest →
  ends_with w13 name = false → ends_with w2 name = true →
  let k := num_experts / ep_size in
  ∃ frags, transform_fused_moe ep_rank (moe w13 w2 gate up down num_experts) t module (Some name) = inr frags ∧
    frag_names frags = (λ i, Some (format_i down i)) <$> (Z.add (ep_rank * k) <$> zrange 0 k) ∧
    Forall2 (λ i f, select i t = inr (fr_param f)) (zrange 0 k) frags.
Proof.
  intros He Hep Ht H13 H2 k.
  destruct (map_res_total (λ i, w ← py_select i t; mret (fragment (format_i down (ep_rank * k + i)) w))
    (λ i f, select i t = inr (fr_param f) ∧ fr_name f = Some (format_i down (ep_rank * k + i))) (zrange 0 k)) as (frags & Ef & Hf).
  { intros i Hi%elem_of_zrange. destruct (select_law i t k rest Ht Hi) as (u & Eu & _).
    exists (fragment (format_i down (ep_rank * k + i)) u). unfold py_select, dim_size. rewrite Ht. cbn [lookup list_lookup mbind res_bind].
    rewrite bool_decide_eq_false_2 by lia. rewrite Eu. done. }
  exists frags. split; [|split].
  - set (tr := moe w13 w2 gate up down num_experts). unfold transform_fused_moe.
    assert (assoc "expert_mapping" (metadata tr) = None) as -> by reflexivity.
    assert (∀ attr, meta_or_attr tr "num_experts" attr module = VInt num_experts) as -> by reflexivity.
    assert (mtrue (meta_get "ep_aware" (metadata tr) (VBool true)) = true) as -> by reflexivity.
    assert (str_of tr "w13_name" "w13_weight" = w13 ∧ str_of tr "w2_name" "w2_weight" = w2 ∧ str_of tr "down_name" "" = down) as (-> & -> & ->) by done.
    cbn [is_none negb ensure mint mbind res_bind]. rewrite He. cbn [mbind res_bind]. unfold dim_size at 1. rewrite Ht. cbn [lookup list_lookup mbind res_bind].
    rewrite (bool_decide_eq_true_2 _ Hep). cbn [andb]. unfold local_experts. rewrite H13, H2. exact Ef.
  - rewrite <- list_fmap_compose. unfold frag_names. clear -Hf. induction Hf as [|i f l frags [_ Hn] Hf IH]; [done|]. cbn. by rewrite Hn, IH.
  - eapply Forall2_impl; [exact Hf|]. by intros i f [].
Qed.

(** The ranks of an expert-parallel group export the down projections of all
    experts, each once and in order, when the number of ranks divides the number of
    experts: rank [r] exports its row [i] as expert [r * (experts / ranks) + i]. *)
Theorem moe_export_covers w13 w2 gate up down num_experts ep_size (ts : Z → tensor) rests module name :
  get_ep_size module = inr ep_size → 1 < ep_size → 0 ≤ num_experts → (ep_size | num_experts) →
  (∀ r, 0 ≤ r < ep_size → shape (ts r) = num_experts / ep_size :: rests r) →
  ends_with w13 name = false → ends_with w2 name = true →
  ∃ frags : Z → list TransformFragment,
    (∀ r, 0 ≤ r < ep_size → transform_fused_moe r (moe w13 w2 gate up down num_experts) (ts r) module (Some name) = inr (frags r) ∧
      Forall2 (λ i f, select i (ts r) = inr (fr_param f)) (zrange 0 (num_experts / ep_size)) (frags r)) ∧
    flat_map (λ r, frag_names (frags r)) (zrange 0 ep_size) = (λ i, Some (format_i down i)) <$> zrange 0 num_experts.
Proof.
  intros He Hep Hn [k Hk] Ht H13 H2. assert (num_experts / ep_size = k) as Ek by (subst; apply Z.div_mul; lia).
  set (run r := transform_fused_moe r (moe w13 w2 gate up down num_experts) (ts r) module (Some name)).
  exists (λ r, match run r with inr frags => frags | inl _ => [] end).
  assert (∀ r, 0 ≤ r < ep_size → ∃ frags, run r = inr frags ∧
    frag_names frags = (λ i, Some (format_i down i)) <$> (Z.add (r * k) <$> zrange 0 k) ∧
    Forall2 (λ i f, select i (ts r) = inr (fr_param f)) (zrange 0 k) frags) as Hrun.
  { intros r Hr. pose proof (fused_moe_run w13 w2 gate up down num_experts r (ts r) module name ep_size (rests r) He Hep (Ht r Hr) H13 H2) as Hx.
    by rewrite Ek in Hx. }
  rewrite Ek. split.
  - intros r Hr. destruct (Hrun r Hr) as (frags & E & _ & Hf). rewrite E. by split.
  - assert (∀ l, (∀ r, r ∈ l → 0 ≤ r < ep_size) →
      flat_map (λ r, frag_names (match run r with inr frags => frags | inl _ => [] end)) l =
      (λ i, Some (format_i down i)) <$> flat_map (λ r, Z.add (r * k) <$> zrange 0 k) l) as Hl.
    { induction l as [|r l IH]; intros Hb; [done|]. cbn [flat_map]. destruct (Hrun r) as (frags & -> & Hnames & _); [apply Hb; left|].
      rewrite Hnames, fmap_app. f_equal. apply IH. intros r' Hr'. apply Hb. by right. }
    rewrite Hl by (intros r Hr%elem_of_zrange; lia). f_equal. rewrite <- (Z2Nat.id ep_size) by lia. rewrite zrange_blocks by nia.
    f_equal. lia.
Qed.
End exports.

(** ** Runs *)

Import Views.

Module Demo.
#[export] Instance callables : Callables (H := views) () :=
  {| call_derive := λ _ t _, inr (inl t); call_vllm_to_hf := λ _, None; eval_shape := λ _ _ _, inl ValueError; recorded_name := λ _, None |}.

Definition attn : option (NnModule ()) := Some (mkModule [("head_dim", VInt 4)] ["QKVParallelLinear"]).
Definition moe_module : option (NnModule ()) := Some (mkModule [("ep_size", VInt 2)] ["FusedMoE"]).

(** No pattern is a regular expression here. *)
Definition no_regex : Regex := {| re_sub := λ _ _ s, s; re_fullmatch := String.eqb |}.
#[export] Existing Instance no_regex.

(** Two heads of size four. *)
Definition q_weight : @tensor views := mkView [8; 3] (λ idx, ravel [8; 3] idx).
Definition rotary : WeightTransform () := Transform.permute_qk_rotary "q_proj.weight" None "head_dim".

(** What a run exports. *)
Definition seen (r : Res (list (@TransformFragment views))) (at_ : list Z) : list (option string * list Z * Z) :=
  match r with inr fr => (λ f, (fr_name f, shape (fr_param f), elem (fr_param f) at_)) <$> fr | inl _ => [] end.

Example rotary_run : match load_rotary 4 q_weight with
  | inr u => seen (transform_permute_qk_rotary rotary u attn) [6; 1] = [(Some "q_proj.weight", [8; 3], 19)]
  | inl _ => False end.
Proof. vm_compute. done. Qed.

Definition gate_up : WeightTransform () := Transform.merged_column [("gate_proj.weight", None); ("up_proj.weight", None)] 0.
Definition experts (r : Z) : @tensor views := mkView [2; 5; 7] (λ idx, ravel [4; 5; 7] (alter (Z.add (r * 2)) 0%nat idx)).

Example experts_run : seen (transform_fused_moe 1 (moe "w13_weight" "w2_weight" "experts.{i}.gate_proj.weight"
    "experts.{i}.up_proj.weight" "experts.{i}.down_proj.weight" 4) (experts 1) moe_module (Some "mlp.experts.w2_weight")) [0; 0] =
  [(Some "experts.2.down_proj.weight", [5; 7], 70); (Some "experts.3.down_proj.weight", [5; 7], 105)].
Proof. vm_compute. done. Qed.
End Demo.

Lemma rotary_roundtrip_witness : ∃ u v, load_rotary 4 Demo.q_weight = inr u ∧
  transform_permute_qk_rotary Demo.rotary u Demo.attn = inr [fragment "q_proj.weight" v] ∧ same Demo.q_weight v.
Proof.
  apply (rotary_roundtrip Demo.rotary Demo.attn (named_piece "q_proj.weight") [] 2 2 [3] Demo.q_weight); [reflexivity|reflexivity|reflexivity|lia|lia].
Defined.

Lemma merged_column_exact_witness : ∃ lengths us,
  transform_merged_column Demo.gate_up Demo.q_weight = inr (zip_with (λ p u, fragment (hf_name p) u) (pieces Demo.gate_up) us) ∧
  consecutive 0 0 lengths Demo.q_weight us ∧ sum_Z lengths = 8 ∧ Forall2 (λ p l, from_option (eq l) True (plength p)) (pieces Demo.gate_up) lengths.
Proof.
  assert (sizes_ok (pieces Demo.gate_up)) as Hs by (repeat constructor).
  exact (merged_column_exact Demo.gate_up Demo.q_weight 0%nat 8 ltac:(discriminate) Hs eq_refl eq_refl).
Defined.

Lemma moe_export_covers_witness :
  let tr := moe "w13_weight" "w2_weight" "g.{i}" "u.{i}" "experts.{i}.down_proj.weight" 4 in
  ∃ frags : Z → list TransformFragment,
    (∀ r, 0 ≤ r < 2 → transform_fused_moe r tr (Demo.experts r) Demo.moe_module (Some "mlp.experts.w2_weight") = inr (frags r) ∧
      Forall2 (λ i f, select i (Demo.experts r) = inr (fr_param f)) (zrange 0 (4 / 2)) (frags r)) ∧
    flat_map (λ r, frag_names (frags r)) (zrange 0 2) = (λ i, Some (format_i "experts.{i}.down_proj.weight" i)) <$> zrange 0 4.
Proof.
  apply (moe_export_covers "w13_weight" "w2_weight" "g.{i}" "u.{i}" "experts.{i}.down_proj.weight" 4 2 Demo.experts (λ _, [5; 7]));
    [reflexivity|lia|lia|exists 2; reflexivity|reflexivity|vm_compute; reflexivity|vm_compute; reflexivity].
Defined.

(** When the ranks do not divide the experts, the last experts are not exported. *)
Example experts_lost : let tr := moe "w13_weight" "w2_weight" "g.{i}" "u.{i}" "d.{i}" 5 in
  let t := mkView [3; 2; 2] (λ _, 0) in
  (λ r, match transform_fused_moe r tr t Demo.moe_module (Some "w2_weight") with inr fr => frag_names fr | inl _ => [] end) <$> [0; 1] =
  [[Some "d.0"; Some "d.1"]; [Some "d.2"; Some "d.3"]].
Proof. vm_compute. done. Qed.

(** Given lengths that sum to less than the axis leave its end out. *)
Example short_lengths : let tr := Transform.merged_column (Code := ()) [("a", Some 2); ("b", Some 3)] 0 in
  Demo.seen (transform_merged_column tr Demo.q_weight) [0; 0] = [(Some "a", [2; 3], 0); (Some "b", [3; 3], 6)].
Proof. vm_compute. done. Qed.

(** A rule of a mounted plan that matches an exact name exports a name without the
    prefix of the mount; the same rule matching a suffix keeps it. *)
Example exact_rule_loses_prefix :
  let r mode := mkRule (Code := ()) "head.weight" ["lm_head.weight"] (Transform.identity (Some "lm_head.weight")) mode [] [] in
  let plan mode := flatten (mkPlan [] [mkMount _ "language_model" (mkPlan [r mode] [] None default_policy) None] None default_policy) in
  let run mode := match execute (H0 := Demo.callables) (H1 := Demo.no_regex) (plan mode) 0 0 "language_model.head.weight" Demo.q_weight None with
                  | inr l => List.map cw_name l | inl _ => [] end in
  run EXACT = ["lm_head.weight"] ∧ run SUFFIX = ["language_model.lm_head.weight"].
Proof. vm_compute. done. Qed.

(** A suffix rule with an empty pattern replaces every name. *)
Example empty_suffix : let r := mkRule (Code := ()) "" ["w"] (Transform.identity (Some "w")) SUFFIX [] [] in
  fragment_name r "model.layers.0.weight" (fragment "w" Demo.q_weight) = "w".
Proof. done. Qed.
