(* ===== verification/VllmConverter.v ===== *)
(** * Converting vLLM models

    psrl/utils/converter/vllm_converter.py: the parameters of a vLLM model,
    converted to checkpoint parameters with the sharding of each, by the mapping of
    its model class or by the layout that the model declares.
    psrl/utils/converter/modeling: the mappings of the model classes.

    Dictionaries are lists of pairs in insertion order.  An exception leaves the
    whole conversion. *)

From stdpp Require Import pretty.
From S2P Require Import Prelude.
From S2P Require Import PyData.
From S2P Require Import EnvShell.
From S2P Require Import PyStr.
From S2P Require Import Sharding.
From S2P Require Import Tensors.
From S2P Require Import ModelSlices.
From S2P Require Import ShardSplit.
From S2P Require Import QkvLayout.
From S2P Require Import WeightLayout.
From S2P Require Import WeightTransforms.

#[local] Open Scope string_scope.
#[local] Open Scope list_scope.
#[local] Open Scope Z_scope.

(** ** Parameter mappings *)

Inductive MappingType :=
  | DIRECT | QKV_SPLIT | GATE_UP_PROJ_SPLIT | IN_PROJ_QKVZ_SPLIT | IN_PROJ_BA_SPLIT | FUSED_MOE_W13_SPLIT | FUSED_MOE_W2_SPLIT.
#[export] Instance mapping_type_eq_dec : EqDecision MappingType.
Proof. solve_decision. Defined.

(** vLLM name, checkpoint name, kind and part. *)
Abbreviation Mapping := (string * string * MappingType * Z)%type.

Definition qkv_mappings : list Mapping :=
  [("qkv_proj", "q_proj", QKV_SPLIT, 0); ("qkv_proj", "k_proj", QKV_SPLIT, 1); ("qkv_proj", "v_proj", QKV_SPLIT, 2)].
Definition gate_up_mappings : list Mapping :=
  [("gate_up_proj", "gate_proj", GATE_UP_PROJ_SPLIT, 0); ("gate_up_proj", "up_proj", GATE_UP_PROJ_SPLIT, 1)].

(** The entries of one expert, named by the three projections. *)
Definition expert_mappings (gate up down : string) (num_experts : Z) : list Mapping :=
  flat_map (λ i, [("w13_weight", (pretty i ++ "." ++ gate ++ ".weight")%string, FUSED_MOE_W13_SPLIT, 2 * i);
                  ("w13_weight", (pretty i ++ "." ++ up ++ ".weight")%string, FUSED_MOE_W13_SPLIT, 2 * i + 1);
                  ("w2_weight", (pretty i ++ "." ++ down ++ ".weight")%string, FUSED_MOE_W2_SPLIT, i)]) (zrange 0 num_experts).

(** Qwen2, Qwen3, Llama, Mistral, Phi and Gemma. *)
Definition dense_mappings : list Mapping := qkv_mappings ++ gate_up_mappings.
(** Qwen2Moe, Qwen3Moe, and OLMoE with 64 experts. *)
Definition moe_mappings (num_experts : Z) : list Mapping := dense_mappings ++ expert_mappings "gate_proj" "up_proj" "down_proj" num_experts.
Definition olmoe_mappings : list Mapping := moe_mappings 64.
Definition mixtral_mappings (num_local_experts : Z) : list Mapping := qkv_mappings ++ expert_mappings "w1" "w3" "w2" num_local_experts.

Record ParamMappingEntry := mkEntry { mapping_type : MappingType; entry_mappings : list (string * Z); is_full_path : bool }.
Abbreviation FusedMappings := (list (string * ParamMappingEntry)).

Definition add_mapping (m : string * Z) (e : ParamMappingEntry) : ParamMappingEntry :=
  mkEntry (mapping_type e) (entry_mappings e ++ [m]) (is_full_path e).

Fixpoint from_mappings (l : list Mapping) (d : FusedMappings) : Res FusedMappings :=
  match l with
  | [] => inr d
  | (((vllm_name, hf), ty), shard_id) :: l =>
      match assoc vllm_name d with
      | None => from_mappings l (dict_set vllm_name (mkEntry ty [(hf, shard_id)] false) d)
      | Some e =>
          if bool_decide (ty ≠ DIRECT ∧ ty = mapping_type e)
          then from_mappings l (dict_set vllm_name (add_mapping (hf, shard_id) e) d) else inl AssertionError
      end
  end.

Definition build_from_parameter_mapping (l : list Mapping) : Res FusedMappings := from_mappings l [].

(** A part of a stacked parameter: a letter of query, key and value, or a number. *)
Definition int_shard_id (s : Z + string) : Res Z :=
  match s with
  | inl n => inr n
  | inr s => match assoc s [("q", 0); ("k", 1); ("v", 2)] with Some n => inr n | None => inl KeyError end
  end.

Definition stack_param (full_path : bool) (d : FusedMappings) (p : string * string * (Z + string)) : Res FusedMappings :=
  let '((packed, hf), shard_id) := p in
  let ty := if full_path then GATE_UP_PROJ_SPLIT else match shard_id with inr _ => QKV_SPLIT | inl _ => GATE_UP_PROJ_SPLIT end in
  n ← int_shard_id shard_id;
  mret (dict_set packed (add_mapping (hf, n) (default (mkEntry ty [] full_path) (assoc packed d))) d).

Definition fold_res {A B} (f : A → B → Res A) (a : A) (l : list B) : Res A := foldl (λ r b, match r with inl e => inl e | inr a => f a b end) (inr a) l.

Definition group {V} (d : list (string * list V)) (k : string) (v : V) : list (string * list V) := dict_set k (default [] (assoc k d) ++ [v]) d.

Definition build_fused_mappings (stacked extra : list (string * string * (Z + string))) (expert_params : list ExpertEntry) : Res FusedMappings :=
  d ← fold_res (stack_param false) [] stacked;
  d ← fold_res (stack_param true) d extra;
  let step acc e :=
    let '(((packed, hf), expert_id), shard_id) := (e : ExpertEntry) in
    if bool_decide (shard_id = "w1") then (group acc.1 packed (hf, expert_id * 2), acc.2)
    else if bool_decide (shard_id = "w3") then (group acc.1 packed (hf, expert_id * 2 + 1), acc.2)
    else (acc.1, group acc.2 packed (hf, expert_id)) in
  let '(w13, w2) := foldl step ([], []) expert_params in
  let put ty d p := dict_set (fst p) (mkEntry ty (snd p) false) d in
  mret (foldl (put FUSED_MOE_W2_SPLIT) (foldl (put FUSED_MOE_W13_SPLIT) d w13) w2).

(** ** Parameters *)

Section converter.
Context `{Callables Code}.
Abbreviation Module_ := (NnModule Code).
Abbreviation Params := (list (string * tensor)).

(** [try: ... except Exception: raise ValueError] *)
Definition or_value_error {A} (r : Res A) : Res A := match r with inl _ => inl ValueError | inr a => inr a end.

Definition attr_or (m : Module_) (name : string) (d : Z) : Res Z := mint (meta_get name (m_attrs m) (VInt d)).
Definition isinstance (m : Module_) (types : list string) : bool := existsb (λ t, bool_decide (t ∈ types)) (m_types m).

(** The slices that the parts of an entry name. *)
Definition pick (new_name : string → string) (sliced : list tensor) (l : list (string * Z)) : Res Params :=
  fold_res (λ out '(hf, shard_id),
    _ ← ensure (bool_decide (shard_id < Z.of_nat (length sliced))) AssertionError;
    match sliced !! Z.to_nat shard_id with Some t => mret (dict_set (new_name hf) t out) | None => inl IndexError end) [] l.

(** The local parts of a fused expert weight, of [per] slices per expert; the rank
    in the tensor-parallel group stands for the one in the expert-parallel group. *)
Definition pick_experts (tp_rank per : Z) (new_name : string → string) (module : Module_) (info : Attrs) (sliced : list tensor)
    (l : list (string * Z)) : Res Params :=
  ep_size ← attr_or module "ep_size" 1;
  let ep_rank := if bool_decide (1 < ep_size) then tp_rank else 0 in
  num_experts ← info_at "num_experts" info;
  per_rank ← pdiv num_experts ep_size;
  let start := ep_rank * per_rank in
  fold_res (λ out '(hf, shard_id),
    if bool_decide (start * per ≤ shard_id < (start + per_rank) * per) then
      let i := shard_id - start * per in
      _ ← ensure (bool_decide (i < Z.of_nat (length sliced))) AssertionError;
      match sliced !! Z.to_nat i with Some t => mret (dict_set (new_name hf) t out) | None => inl IndexError end
    else mret out) [] l.

(** [self.model_info.get(name)] as an integer that must be there. *)
Definition required (name : string) (info : Attrs) : Res Z :=
  match get_attr_or name CNone info with CNone => inl ValueError | v => cint v end.

Definition convert_entry (tp_rank : Z) (full_name vllm_name : string) (e : ParamMappingEntry) (param : tensor) (module : Module_)
    (model_info self_info : Attrs) : Res Params :=
  tp ← attr_or module "tp_size" 1;
  let replaced hf := str_replace vllm_name hf full_name in
  let new_name hf := if is_full_path e then hf else replaced hf in
  match mapping_type e with
  | DIRECT =>
      match entry_mappings e with
      | [(hf, _)] => mret [(new_name hf, param)]
      | _ => inl AssertionError
      end
  | QKV_SPLIT =>
      sliced ← or_value_error (
        heads ← info_at "num_heads" model_info; kv_heads ← info_at "num_kv_heads" model_info; head_size ← info_at "head_size" model_info;
        slice_qkv_proj heads kv_heads head_size tp 0 param);
      pick new_name sliced (entry_mappings e)
  | GATE_UP_PROJ_SPLIT =>
      size ← match assoc "intermediate_size" model_info with
             | None => inl KeyError
             | Some CNone => match assoc "moe_intermediate_size" self_info with None => inl KeyError | Some v => inr v end
             | Some v => inr v
             end;
      _ ← ensure (not_none size) AssertionError;
      sliced ← or_value_error (n ← cint size; slice_gate_up_proj [n; n] tp 0 param);
      pick new_name sliced (entry_mappings e)
  | IN_PROJ_QKVZ_SPLIT =>
      key_dim ← required "linear_key_dim" self_info;
      value_dim ← required "linear_value_dim" self_info;
      sliced ← or_value_error (slice_in_proj_qkvz key_dim value_dim tp 0 param);
      fold_res (λ out '(hf, shard_id),
        _ ← ensure (bool_decide (shard_id < Z.of_nat (length sliced))) AssertionError;
        match sliced !! Z.to_nat shard_id with
        | None => inl IndexError
        | Some t =>
            if bool_decide (shard_id = 0) then
              parts ← slice_qwen3_5_in_proj_qkv key_dim value_dim tp 0 t;
              mret (foldl (λ d p, dict_set p.1 p.2 d) out (zip (with_suffixes (replaced hf)) parts))
            else mret (dict_set (replaced hf) t out)
        end) [] (entry_mappings e)
  | IN_PROJ_BA_SPLIT =>
      heads ← required "linear_num_value_heads" self_info;
      sliced ← or_value_error (slice_in_proj_ba heads tp 0 param);
      pick replaced sliced (entry_mappings e)
  | FUSED_MOE_W13_SPLIT =>
      sliced ← or_value_error (slice_fused_moe_w13_weight param);
      pick_experts tp_rank 2 new_name module model_info sliced (entry_mappings e)
  | FUSED_MOE_W2_SPLIT =>
      sliced ← or_value_error (slice_fused_moe_w2_weight param);
      pick_experts tp_rank 1 new_name module model_info sliced (entry_mappings e)
  end.

(** A parameter that no entry matches. *)
Definition convert_unmapped (full_name : string) (param : tensor) (module : Module_) (self_info : Attrs) : Res Params :=
  if contains "linear_attn.conv1d.weight" full_name then
    tp ← attr_or module "tp_size" 1;
    kh ← info_at "linear_num_key_heads" self_info;
    vh ← info_at "linear_num_value_heads" self_info;
    kd ← info_at "linear_key_head_dim" self_info;
    vd ← info_at "linear_value_head_dim" self_info;
    parts ← slice_attn_conv1d kh vh kd vd tp 0 param;
    mret (zip (with_suffixes full_name) parts)
  else if is_visual_qkv full_name then
    u ← reshape_visual_block_qkv (info_int "vision_head_size" self_info) param; mret [(full_name, u)]
  else mret [(full_name, param)].

(** The first entry that matches decides. *)
Fixpoint convert_parameter (tp_rank : Z) (full_name : string) (param : tensor) (module : Module_) (fused : FusedMappings)
    (model_info self_info : Attrs) : Res Params :=
  match fused with
  | [] => convert_unmapped full_name param module self_info
  | (vllm_name, e) :: fused =>
      if (if is_full_path e then bool_decide (full_name = vllm_name) else contains vllm_name full_name)
      then convert_entry tp_rank full_name vllm_name e param module model_info self_info
      else convert_parameter tp_rank full_name param module fused model_info self_info
  end.

(** ** Shardings *)

Definition KV_SUFFIXES : list string := ["k_proj.weight"; "v_proj.weight"; "k_proj.bias"; "v_proj.bias"].

Definition adjust_kv_sharding (tp_rank : Z) (name : string) (s : NIXLSharding) (module : Module_) (info : Attrs) : Res NIXLSharding :=
  if negb (isinstance module ["QKVParallelLinear"]) || negb (existsb (λ x, ends_with x name) KV_SUFFIXES) then mret s
  else
    tp ← attr_or module "tp_size" 1;
    match get_attr_or "num_heads" CNone info, get_attr_or "num_kv_heads" CNone info with
    | CNone, _ | _, CNone => mret s
    | heads, kv_heads =>
        if bool_decide (tp ≤ 1) then mret s
        else
          heads ← cint heads; kv_heads ← cint kv_heads;
          layout ← get_qkv_tp_layout heads kv_heads tp;
          if bool_decide (num_kv_head_replicas layout = 1) then mret s
          else
            mesh ← match shard_mesh s with row :: _ => mret row | [] => inl StopIteration end;
            r ← get_kv_shard_rank layout tp_rank;
            new_sharding [(mesh.1, num_kv_shards layout)] [[r]]
    end.

(** The sharded dimension of a parameter of a module, or none for a replicated one;
    a class counts as its subclasses do. *)
Definition shard_dim_of (module : Module_) (param_name : string) : Res (option Z) :=
  if isinstance module ["ColumnParallelLinear"; "MergedColumnParallelLinear"; "QKVParallelLinear"; "VocabParallelEmbedding"] then inr (Some 0)
  else if isinstance module ["RowParallelLinear"] then inr (if bool_decide (param_name = "bias") then None else Some 1)
  else if isinstance module ["FusedMoE"] then
    if contains "w13" param_name then inr (Some 0) else if contains "w2" param_name then inr (Some 1) else inl AssertionError
  else if isinstance module ["ReplicatedLinear"] then inr None
  else if isinstance module ["QwenGatedDeltaNetAttention"] then inr (Some 0)
  else inl ValueError.

Definition get_sharding_for_param (tp_rank : Z) (module : Module_) (param_name : string) : Res NIXLSharding :=
  tp ← attr_or module "tp_size" 1;
  if bool_decide (1 < tp) then
    _ ← ensure (bool_decide (tp_rank < tp)) AssertionError;
    d ← shard_dim_of module param_name;
    match d with
    | Some d => new_sharding [(d, tp)] [[tp_rank]]
    | None => new_sharding [(0, 1)] [[0]]
    end
  else new_sharding [(0, tp)] [[0]].

(** ** Models *)

Record Converted := mkConv { conv_state : Params; conv_sharding : list (string * NIXLSharding) }.
Definition put (name : string) (t : tensor) (s : NIXLSharding) (c : Converted) : Converted :=
  mkConv (dict_set name t (conv_state c)) (dict_set name s (conv_sharding c)).

(** A module as the model lists it: parameters with whether each is a placeholder
    of another pipeline stage, and buffers. *)
Record ModelModule := mkModelModule {
  mm_prefix : string;
  mm_module : Module_;
  mm_params : list (string * tensor * bool);
  mm_buffers : list (string * option tensor);
}.

Definition qualified (prefix name : string) : string := if bool_decide (prefix = "") then name else (prefix ++ "." ++ name)%string.

(** The fragments of a parameter; the sharding of a visual parameter stays in force
    for those that follow. *)
Definition export_fragment (tp_rank : Z) (module : Module_) (model_info self_info : Attrs) (acc : Converted * NIXLSharding) (p : string * tensor)
    : Res (Converted * NIXLSharding) :=
  let '(name, t) := p in
  s ← (if is_visual_qkv name then tp ← attr_or module "tp_size" 1; make_visual_qkv_tp_sharding tp tp_rank else mret acc.2);
  adjusted ← adjust_kv_sharding tp_rank name s module model_info;
  out ← maybe_reshape_qkv_to_3d self_info name t adjusted;
  mret (put name out.1 out.2 acc.1, s).

Definition export_param (tp_rank : Z) (fused : FusedMappings) (model_info self_info : Attrs) (prefix : string) (module : Module_)
    (c : Converted) (p : string * tensor * bool) : Res Converted :=
  let full_name := qualified prefix p.1.1 in
  new ← convert_parameter tp_rank full_name p.1.2 module fused model_info self_info;
  s ← get_sharding_for_param tp_rank module p.1.1;
  acc ← fold_res (export_fragment tp_rank module model_info self_info) (c, s) new;
  mret acc.1.

(** The prefixes of multimodal models are those of the checkpoint. *)
Definition checkpoint_prefix (p : string) : string :=
  let p := if starts_with "visual" p then ("model." ++ p)%string else p in
  let p := if starts_with "language_model.model" p then ("model.language_model." ++ str_drop 21 p)%string else p in
  if starts_with "language_model.lm_head" p then "lm_head" else p.

(** The head is shared with the embedding in some models, and not listed then. *)
Definition export_head_param (tp_rank : Z) (fused : FusedMappings) (model_info self_info : Attrs) (module : Module_)
    (c : Converted) (p : string * tensor * bool) : Res Converted :=
  new ← convert_parameter tp_rank (qualified "lm_head" p.1.1) p.1.2 module fused model_info self_info;
  s ← get_sharding_for_param tp_rank module p.1.1;
  fold_res (λ c q, out ← maybe_reshape_qkv_to_3d self_info q.1 q.2 s; mret (put q.1 out.1 out.2 c)) c new.

Definition convert_with_mapping (tp_rank : Z) (mapping : list Mapping) (model_info self_info : Attrs) (modules : list ModelModule)
    (lm_head : option ModelModule) : Res Converted :=
  fused ← build_from_parameter_mapping mapping;
  c ← fold_res (λ c m, fold_res (export_param tp_rank fused model_info self_info (checkpoint_prefix (mm_prefix m)) (mm_module m)) c (mm_params m))
    (mkConv [] []) modules;
  match lm_head with
  | Some head =>
      if bool_decide ("lm_head" ∈ (λ m, checkpoint_prefix (mm_prefix m)) <$> modules) then mret c
      else fold_res (export_head_param tp_rank fused model_info self_info (mm_module head)) c (mm_params head)
  | None => mret c
  end.

Context `{Regex}.

Definition export_converted (tp_rank : Z) (module : Module_) (param_name : string) (info : Attrs) (c : Converted) (w : ConvertedWeight)
    : Res Converted :=
  s ← match cw_sharding w with Some s => mret s | None => get_sharding_for_param tp_rank module param_name end;
  visual ← (if is_visual_qkv (cw_name w) then
              u ← reshape_visual_block_qkv (info_int "vision_head_size" info) (cw_param w);
              tp ← attr_or module "tp_size" 1;
              s ← make_visual_qkv_tp_sharding tp tp_rank;
              mret (u, s)
            else mret (cw_param w, s));
  let '(u, s) := (visual : tensor * NIXLSharding) in
  s ← adjust_kv_sharding tp_rank (cw_name w) s module info;
  out ← maybe_reshape_qkv_to_3d info (cw_name w) u s;
  mret (put (cw_name w) out.1 out.2 c).

Definition export_buffer (info : Attrs) (c : Converted) (w : ConvertedWeight) : Res Converted :=
  s ← match cw_sharding w with Some s => mret s | None => new_sharding [(0, 1)] [[0]] end;
  out ← maybe_reshape_qkv_to_3d info (cw_name w) (cw_param w) s;
  mret (put (cw_name w) out.1 out.2 c).

(** Parameters, then the buffers that a rule names, module by module. *)
Definition convert_module_with_plan (plan : ResolvedWeightLayoutPlan Code) (tp_rank ep_rank : Z) (info : Attrs) (c : Converted) (m : ModelModule)
    : Res Converted :=
  c ← fold_res (λ c '((name, t), missing),
    if (missing : bool) then mret c
    else
      l ← execute plan tp_rank ep_rank (qualified (mm_prefix m) name) t (Some (mm_module m));
      fold_res (export_converted tp_rank (mm_module m) name info) c l) c (mm_params m);
  fold_res (λ c '(name, b),
    match b with
    | None => mret c
    | Some t =>
        let full_name := qualified (mm_prefix m) name in
        match matches_rules plan full_name (Some (mm_module m)) with
        | [] => mret c
        | _ => l ← execute plan tp_rank ep_rank full_name t (Some (mm_module m)); fold_res (export_buffer info) c l
        end
    end) c (mm_buffers m).

Definition convert_with_weight_layout_plan (plan : WeightLayoutPlan Code) (tp_rank ep_rank : Z) (info : Attrs) (modules : list ModelModule)
    : Res Converted :=
  fold_res (convert_module_with_plan (flatten plan) tp_rank ep_rank info) (mkConv [] []) modules.

(** A model that declares a layout is converted by it; another needs the mapping of
    its class. *)
Definition convert_state_and_sharding_dict (layout : option (WeightLayoutPlan Code)) (mapping : option (list Mapping)) (tp_rank ep_rank : Z)
    (model_info self_info : Attrs) (modules : list ModelModule) (lm_head : option ModelModule) : Res Converted :=
  match layout, mapping with
  | Some plan, _ => convert_with_weight_layout_plan plan tp_rank ep_rank self_info modules
  | None, Some l => convert_with_mapping tp_rank l model_info self_info modules lm_head
  | None, None => inl ValueError
  end.
End converter.
