(* ===== verification/VllmTheorems.v ===== *)
(** * Converting vLLM models: theorems

    The fused query, key and value weight of a rank is exported as the rank's
    blocks of the query, key and value weights of the checkpoint, also when ranks
    share key and value heads; the sharding of a parameter is in range. *)

From S2P Require Import Prelude.
From S2P Require Import PyData.
From S2P Require Import EnvShell.
From S2P Require Import PyStr.
From S2P Require Import Sharding.
From S2P Require Import Tensors.
From S2P Require Import ModelSlices.
From S2P Require Import ShardSplit.
From S2P Require Import ShardSplitTheorems.
From S2P Require Import QkvLayout.
From S2P Require Import WeightLayout.
From S2P Require Import WeightTransforms.
From S2P Require Import VllmConverter.

#[local] Open Scope string_scope.
#[local] Open Scope list_scope.
#[local] Open Scope Z_scope.

(** ** Slices of a concatenation *)

Section slices.
Context `{TensorLaws}.

Lemma cat_narrow ts t i p n off u : cat_compatible 0 ts → cat 0 ts = inr t → ts !! i = Some p → shape p !! 0%nat = Some n →
  off = sum_Z (sizes_at 0 (take i ts)) → narrow 0 off n t = inr u → same p u.
Proof.
  intros Hc Ht Hi Hn -> Hu. destruct ts as [|t0 ts]; [done|]. pose proof (cat_part 0 t0 ts t i p n Hc Ht Hi Hn) as Np.
  destruct (narrow_dim _ _ _ _ _ Np) as (m & Hm & H1 & H2 & H3).
  destruct (narrow_law 0 _ n t m Hm H1 H2 H3) as (u' & Eu & Nu). rewrite Hu in Eu. injection Eu as <-.
  exact (narrow_unique _ _ _ _ _ _ Np Nu).
Qed.

(** Three parts with equal columns, cut apart again. *)
Lemma cat3_slices q k v t ql kl rest :
  shape q = ql :: rest → shape k = kl :: rest → shape v = kl :: rest → cat 0 [q; k; v] = inr t →
  ∃ q' k' v', shape t !! 0%nat = Some (ql + kl + kl) ∧
    narrow_all 0 [(0, ql); (ql, kl); (ql + kl, kl)] t = inr [q'; k'; v'] ∧ same q q' ∧ same k k' ∧ same v v'.
Proof.
  intros Hq Hk Hv Ht. assert (cat_compatible 0 [q; k; v]) as Hc.
  { exists (shape q). rewrite Hq. split; [cbn; lia|]. repeat (apply Forall_cons; split; [rewrite ?Hq, ?Hk, ?Hv; done|]). constructor. }
  assert (sizes_at 0 [q; k; v] = [ql; kl; kl]) as Hsz.
  { erewrite !sizes_at_cons by (rewrite ?Hq, ?Hk, ?Hv; done). done. }
  assert (shape t !! 0%nat = Some (ql + kl + kl)) as Hn.
  { destruct (cat_law 0 q [k; v] Hc) as (t' & Et & Hs & _). rewrite Ht in Et. injection Et as <-. rewrite Hs.
    rewrite list_lookup_insert_eq by (rewrite Hq; cbn; lia). f_equal. change (sum_Z (sizes_at 0 [q; k; v]) = ql + kl + kl). rewrite Hsz. cbn. lia. }
  pose proof (size_nonneg 0 q ql ltac:(by rewrite Hq)). pose proof (size_nonneg 0 k kl ltac:(by rewrite Hk)).
  destruct (narrow_law 0 0 ql t _ Hn) as (q' & Eq & _); [lia..|]. destruct (narrow_law 0 ql kl t _ Hn) as (k' & Ek & _); [lia..|].
  destruct (narrow_law 0 (ql + kl) kl t _ Hn) as (v' & Ev & _); [lia..|]. exists q', k', v'. split; [done|].
  split; [unfold narrow_all; cbn; by rewrite Eq, Ek, Ev|].
  split_and!; [eapply (cat_narrow _ t 0%nat q ql 0)|eapply (cat_narrow _ t 1%nat k kl ql)|eapply (cat_narrow _ t 2%nat v kl (ql + kl))];
    try done; rewrite ?Hq, ?Hk, ?Hv; try done; cbn [take]; erewrite !sizes_at_cons by (rewrite ?Hq, ?Hk, ?Hv; done); cbn; lia.
Qed.
End slices.

(** ** Shardings *)

Section shardings.
Context `{Callables Code}.
Implicit Types module : NnModule Code.

Lemma isinstance_self module c types : c ∈ m_types module → c ∈ types → isinstance module types = true.
Proof.
  intros Hm Ht. unfold isinstance. apply existsb_exists. exists c. split; [by apply list_elem_of_In|]. by apply bool_decide_eq_true_2.
Qed.

Definition in_mesh (s : NIXLSharding) : Prop :=
  Forall (λ idx, Forall2 (λ row i, 0 ≤ i < row.2) (shard_mesh s) idx) (shard_indices s).

Lemma single_in_mesh d n i s : new_sharding [(d, n)] [[i]] = inr s → 0 ≤ i < n → in_mesh s.
Proof.
  intros E Hi. destruct (new_single_sharding [(d, n)] [i]) as [loc El]. rewrite El in E. injection E as <-.
  apply Forall_singleton. cbn. constructor; [exact Hi|constructor].
Qed.

(** The sharding of a parameter names shards of its mesh: one shard, that of the
    rank along the dimension that the class of the module is partitioned in, or the
    only one of a replicated parameter. *)
Theorem sharding_in_mesh tp_rank module param_name s tp :
  attr_or module "tp_size" 1 = inr tp → 0 < tp → 0 ≤ tp_rank → get_sharding_for_param tp_rank module param_name = inr s →
  in_mesh s ∧ ∃ d n i, shard_mesh s = [(d, n)] ∧ shard_indices s = [[i]] ∧
    (n = tp ∧ i = (if bool_decide (1 < tp) then tp_rank else 0) ∨
     n = 1 ∧ i = 0 ∧ shard_dim_of module param_name = inr None).
Proof.
  intros Htp Hpos Hr E. unfold get_sharding_for_param in E. rewrite Htp in E. cbn [mbind res_bind] in E.
  assert (∀ d n i s, new_sharding [(d, n)] [[i]] = inr s → 0 ≤ i < n →
    in_mesh s ∧ ∃ d n' i', shard_mesh s = [(d, n')] ∧ shard_indices s = [[i']] ∧ n' = n ∧ i' = i) as Hs.
  { intros d n i s' Es Hi. split; [by eapply single_in_mesh|]. destruct (new_single_sharding [(d, n)] [i]) as [loc El].
    rewrite El in Es. injection Es as <-. by exists d, n, i. }
  case_bool_decide as Ht.
  - res_inv. destruct x0 as [d|].
    + destruct (Hs _ _ _ _ E) as (Hm & d' & n & i & Em & Ei & -> & ->); [lia|]. split; [done|]. exists d', tp, tp_rank. eauto.
    + destruct (Hs _ _ _ _ E) as (Hm & d' & n & i & Em & Ei & -> & ->); [lia|]. split; [done|]. exists d', 1, 0. eauto 6.
  - destruct (Hs _ _ _ _ E) as (Hm & d' & n & i & Em & Ei & -> & ->); [lia|]. split; [done|]. exists d', tp, 0. eauto.
Qed.

Section qkv_module.
Variables (module : NnModule Code) (info : Attrs) (heads kv hs tp rank : Z) (l : QKVTPLayout).
Hypothesis tp_attr : attr_or module "tp_size" 1 = inr tp.
Hypothesis qkv_class : "QKVParallelLinear" ∈ m_types module.
Hypotheses (info_heads : assoc "num_heads" info = Some (CInt heads)) (info_kv : assoc "num_kv_heads" info = Some (CInt kv)).
Hypothesis layout : get_qkv_tp_layout heads kv tp = inr l.
Hypothesis rank_ok : 0 ≤ rank < tp.

Lemma qkv_sharding_run param_name : ∃ loc, get_sharding_for_param rank module param_name = inr (mkSharding [(0, tp)] loc [[rank]]).
Proof.
  unfold get_sharding_for_param. rewrite tp_attr. cbn [mbind res_bind].
  destruct (new_single_sharding [(0, tp)] [rank]) as [loc Eloc]. exists loc. case_bool_decide.
  - rewrite bool_decide_eq_true_2 by lia. cbn [ensure mbind res_bind]. unfold shard_dim_of.
    rewrite (isinstance_self module "QKVParallelLinear") by (done || set_solver). done.
  - assert (rank = 0) as -> by lia. done.
Qed.

Lemma adjust_other_run name s : existsb (λ x, ends_with x name) KV_SUFFIXES = false → adjust_kv_sharding rank name s module info = inr s.
Proof. intros Hn. unfold adjust_kv_sharding. rewrite Hn. by rewrite orb_true_r. Qed.

Lemma adjust_kv_run name loc0 : existsb (λ x, ends_with x name) KV_SUFFIXES = true → ∃ loc,
  adjust_kv_sharding rank name (mkSharding [(0, tp)] loc0 [[rank]]) module info =
  inr (mkSharding [(0, num_kv_shards l)] loc [[rank / num_kv_head_replicas l]]).
Proof.
  intros Hn. unfold adjust_kv_sharding. rewrite Hn, (isinstance_self module "QKVParallelLinear") by (done || set_solver). cbn [negb orb].
  rewrite tp_attr. cbn [mbind res_bind]. unfold get_attr_or. rewrite info_heads, info_kv.
  destruct (qkv_layout_covers heads kv tp l layout) as (_ & _ & Hp & Hs & Hranks). destruct (Hranks rank rank_ok) as (r & Er & Hr & Hb).
  assert (rank / num_kv_head_replicas l = r) as Ed by (symmetry; apply (Z.div_unique_pos _ _ _ (rank - num_kv_head_replicas l * r)); lia).
  case_bool_decide as Ht.
  - exists loc0. assert (tp = 1) as Etp by lia. assert (num_kv_head_replicas l = 1) as Ep by nia. rewrite Ep in *. rewrite Z.div_1_r.
    do 3 f_equal. f_equal. lia.
  - cbn [cint mbind res_bind]. rewrite layout. cbn [mbind res_bind]. case_bool_decide as Ep.
    + exists loc0. rewrite Ep, Z.div_1_r. rewrite Ep in Hs. by replace (num_kv_shards l) with tp by lia.
    + cbn [shard_mesh mbind res_bind mret res_ret fst]. rewrite Er. cbn [mbind res_bind]. rewrite Ed. apply new_single_sharding.
Qed.

(** The ranks of the group and the shards of the key and value heads are a divisor
    or a multiple of the number of groups. *)
Lemma layout_divides : 0 < heads → 0 < Z.gcd heads kv ∧ ((tp | Z.gcd heads kv) ∨ (Z.gcd heads kv | tp)) ∧
  (num_kv_shards l | Z.gcd heads kv) ∧ 0 < num_kv_shards l.
Proof.
  intros Hh. revert layout. unfold get_qkv_tp_layout. intros E.
  apply bind_inr in E as (? & Ht%ensure_inr%bool_decide_eq_true & E). apply bind_inr in E as (? & Hk%ensure_inr%bool_decide_eq_true & E).
  apply bind_inr in E as ([] & [_ Eh]%assert_divides_inr & E). assert (tp | heads) as Dh by (exists (heads / tp); lia).
  assert (0 < Z.gcd heads kv) as Hg. { pose proof (Z.gcd_nonneg heads kv). destruct (Z.eq_dec (Z.gcd heads kv) 0) as [Hz|]; [apply Z.gcd_eq_0_l in Hz; lia|lia]. }
  split; [done|]. case_bool_decide as Hle; apply bind_inr in E as ([] & [_ Ek]%assert_divides_inr & [= <-]).
  - assert (tp | Z.gcd heads kv) as D by (apply Z.gcd_greatest; [done|exists (kv / tp); lia]).
    unfold num_kv_shards. cbn. rewrite Z.div_1_r. eauto.
  - assert (kv | tp) as Dk by (exists (tp / kv); lia). assert (Z.gcd heads kv = kv) as Eg.
    { rewrite Z.gcd_comm. apply Z.divide_gcd_iff; [lia|]. by transitivity tp. }
    assert (0 < tp / kv) by (apply Z.div_str_pos; lia).
    assert (tp / (tp / kv) = kv) as Es by (rewrite Ek at 1; apply Z.div_mul; lia).
    unfold num_kv_shards. cbn. rewrite Eg, Es. split; [by right|]. split; [done|lia].
Qed.
End qkv_module.
End shardings.

(** ** Fused query, key and value weights *)

Section exported.
Context `{TensorLaws} {Code : Type}.

(** The module of a fused weight, its place in the group and the metadata. *)
Record qkv_module (module : NnModule Code) (info : Attrs) (heads kv hs tp rank : Z) (l : QKVTPLayout) : Prop := {
  qm_tp : attr_or module "tp_size" 1 = inr tp;
  qm_class : "QKVParallelLinear" ∈ m_types module;
  qm_layout : get_qkv_tp_layout heads kv tp = inr l;
  qm_rank : 0 ≤ rank < tp;
  qm_heads : 0 < heads;
  qm_size : 0 < hs;
}.

(** The names of the three parts of a fused weight. *)
Record qkv_names (info : Attrs) (heads kv hs : Z) (full_name nq nk nv : string) : Prop := {
  qn_full : contains "qkv_proj" full_name = true;
  qn_q : str_replace "qkv_proj" "q_proj" full_name = nq;
  qn_k : str_replace "qkv_proj" "k_proj" full_name = nk;
  qn_v : str_replace "qkv_proj" "v_proj" full_name = nv;
  qn_plain : Forall (λ n, plain_qkv info n heads kv hs ∧ is_visual_qkv n = false) [nq; nk; nv];
  qn_query : existsb (λ x, ends_with x nq) KV_SUFFIXES = false;
  qn_kv : Forall (λ n, existsb (λ x, ends_with x n) KV_SUFFIXES = true) [nk; nv];
  qn_distinct : nk ≠ nv;
}.

Definition qkv_entry : ParamMappingEntry := mkEntry QKV_SPLIT [("q_proj", 0); ("k_proj", 1); ("v_proj", 2)] false.

(** The rows of a rank's part of [size] heads, and the part of the checkpoint it is. *)
Definition is_part (shard size hs total : Z) (rest : list Z) (G t : tensor) : Prop :=
  shape G = total * hs :: rest ∧ is_narrow 0 (shard * (size * hs)) (size * hs) G t.

Lemma part_shape shard size hs total rest G t : is_part shard size hs total rest G t → shape t = size * hs :: rest.
Proof. intros [HG [_ -> _]]. by rewrite HG. Qed.

Lemma part_same shard size hs total rest G t t' : is_part shard size hs total rest G t → same t t' → is_part shard size hs total rest G t'.
Proof. intros [HG Ht] Hs. split; [done|]. by eapply is_narrow_same; [apply same_refl|exact Hs|]. Qed.

(** A part, reshaped with a sharding by rows. *)
Lemma part_block info name heads kv hs n shard ws size loc rest G t :
  plain_qkv info name heads kv hs → 0 < Z.gcd heads kv → (Z.gcd heads kv | n) → 0 < n → 0 < hs → ws * size = n → 0 < ws →
  (ws | Z.gcd heads kv) ∨ (Z.gcd heads kv | ws) → 0 ≤ shard < ws → (length rest ≤ 1)%nat → is_part shard size hs n rest G t →
  ∃ u s, maybe_reshape_qkv_to_3d info name t (mkSharding [(0, ws)] loc [[shard]]) = inr (u, s) ∧
    block_of (Z.gcd heads kv) (n / Z.gcd heads kv * hs) shard G rest u s.
Proof.
  intros Hp Hg [q Hq] Hn Hhs Hws Hpos Hd Hr Hrest [HG Ht]. apply exact_block_inv.
  assert (n / Z.gcd heads kv = q) as -> by (subst; apply Z.div_mul; lia). assert (0 < q) by nia. assert (0 < size) by nia.
  apply (qkv_block info name heads kv hs G t (q * hs) (size * hs) 0 ws shard rest loc); try done; [|nia|nia|by left|].
  - rewrite HG. f_equal. rewrite Hq. ring.
  - rewrite HG. change (Some (n * hs) = Some (ws * (size * hs))). rewrite <- Hws. f_equal. ring.
Qed.

(** Cutting the fused weight. *)
Lemma convert_qkv_run module info heads kv hs tp rank l full_name nq nk nv fused t q k v :
  qkv_module module info heads kv hs tp rank l → qkv_names info heads kv hs full_name nq nk nv →
  shape t !! 0%nat = Some (num_heads_local l * hs + num_kv_heads_local l * hs + num_kv_heads_local l * hs) →
  narrow_all 0 [(0, num_heads_local l * hs); (num_heads_local l * hs, num_kv_heads_local l * hs);
                (num_heads_local l * hs + num_kv_heads_local l * hs, num_kv_heads_local l * hs)] t = inr [q; k; v] →
  convert_parameter rank full_name t module (("qkv_proj", qkv_entry) :: fused) info info = inr [(nq, q); (nk, k); (nv, v)].
Proof.
  intros [Htp Hclass Hl Hr Hh Hhs] [Hfull Eq Ek Ev Hplain Hq Hkv Hne] Hn Eparts. cbn [convert_parameter]. cbn [is_full_path qkv_entry].
  rewrite Hfull. unfold convert_entry. rewrite Htp. cbn [mbind res_bind mapping_type qkv_entry entry_mappings is_full_path].
  apply Forall_cons in Hplain as [[[H1 H2 H3 _ _ _] _] _]. unfold info_at. rewrite H1, H2, H3. cbn [cint mbind res_bind].
  unfold slice_qkv_proj. rewrite Hl. cbn [mbind res_bind]. unfold assert_dim, dim_size. rewrite Hn. cbn [mbind res_bind].
  rewrite bool_decide_eq_true_2 by done. cbn [ensure mbind res_bind]. rewrite Eparts. cbn [or_value_error mbind res_bind].
  unfold pick, fold_res. cbn [foldl length]. rewrite !bool_decide_eq_true_2 by lia. cbn [ensure mbind res_bind].
  change (Z.to_nat 0) with 0%nat. change (Z.to_nat 1) with 1%nat. change (Z.to_nat 2) with 2%nat. cbn [lookup list_lookup mret res_ret].
  rewrite Eq, Ek, Ev. apply Forall_cons in Hkv as [Hk Hkv]. apply Forall_cons in Hkv as [Hv _]. cbn [dict_set].
  assert (nq ≠ nk) by (intros ->; congruence). assert (nq ≠ nv) by (intros ->; congruence).
  rewrite decide_False by done. cbn [dict_set]. rewrite !decide_False by done. done.
Qed.

(** C31: The fused query, key and value weight of a rank, exported: the query part is
    the rank's block of the query weight of the checkpoint, the key and value parts
    are the blocks of the shard of key and value heads that the rank shares with
    the ranks next to it, each with the sharding that describes it; blocks are of
    the weight arranged by groups of heads. *)
Theorem vllm_qkv_exact module info heads kv hs tp rank l prefix pname missing fused nq nk nv rest Gq Gk Gv q k v t c :
  qkv_module module info heads kv hs tp rank l → qkv_names info heads kv hs (qualified prefix pname) nq nk nv → (length rest ≤ 1)%nat →
  is_part rank (num_heads_local l) hs heads rest Gq q →
  is_part (rank / num_kv_head_replicas l) (num_kv_heads_local l) hs kv rest Gk k →
  is_part (rank / num_kv_head_replicas l) (num_kv_heads_local l) hs kv rest Gv v →
  cat 0 [q; k; v] = inr t →
  ∃ uq sq uk sk uv sv,
    export_param rank (("qkv_proj", qkv_entry) :: fused) info info prefix module c (pname, t, missing) =
      inr (put nv uv sv (put nk uk sk (put nq uq sq c))) ∧
    let groups := Z.gcd heads kv in
    block_of groups (heads / groups * hs) rank Gq rest uq sq ∧
    block_of groups (kv / groups * hs) (rank / num_kv_head_replicas l) Gk rest uk sk ∧
    block_of groups (kv / groups * hs) (rank / num_kv_head_replicas l) Gv rest uv sv.
Proof.
  intros Hmod Hnames Hrest Pq Pk Pv Ht. pose proof Hmod as [Htp Hclass Hl Hr Hh Hhs]. pose proof Hnames as [Hfull Eq Ek Ev Hplain Hq Hkv Hne].
  apply Forall_cons in Hplain as [[Plq Vq] Hplain]. apply Forall_cons in Hplain as [[Plk Vk] Hplain]. apply Forall_cons in Hplain as [[Plv Vv] _].
  apply Forall_cons in Hkv as [Hk Hkv]. apply Forall_cons in Hkv as [Hv _].
  destruct (cat3_slices q k v t (num_heads_local l * hs) (num_kv_heads_local l * hs) rest) as (q' & k' & v' & Hn & Eparts & Sq & Sk & Sv);
    [by eapply part_shape|by eapply part_shape|by eapply part_shape|done|].
  apply (fun P => part_same _ _ _ _ _ _ _ _ P Sq) in Pq. apply (fun P => part_same _ _ _ _ _ _ _ _ P Sk) in Pk.
  apply (fun P => part_same _ _ _ _ _ _ _ _ P Sv) in Pv.
  destruct (layout_divides heads kv tp l Hl Hh) as (Hg & Hd & Hdk & Hsk).
  destruct (qkv_layout_covers heads kv tp l Hl) as (Elq & Elk & Hrep & Erep & Hranks).
  destruct (Hranks rank Hr) as (sr & Esr & Hsr & Hb).
  assert (rank / num_kv_head_replicas l = sr) as Ed by (symmetry; apply (Z.div_unique_pos _ _ _ (rank - num_kv_head_replicas l * sr)); lia).
  rewrite Ed in *. assert (0 < kv) as Hkvpos.
  { unfold get_qkv_tp_layout in Hl. apply bind_inr in Hl as (? & _ & Hl). by apply bind_inr in Hl as (? & ?%ensure_inr%bool_decide_eq_true & _). }
  destruct (qkv_sharding_run module info heads kv tp rank l Htp Hclass (pq_heads _ _ _ _ _ Plk) (pq_kv _ _ _ _ _ Plk) Hl Hr pname) as [loc Eloc].
  destruct (adjust_kv_run module info heads kv tp rank l Htp Hclass (pq_heads _ _ _ _ _ Plk) (pq_kv _ _ _ _ _ Plk) Hl Hr nk loc Hk) as [lock Elock].
  destruct (adjust_kv_run module info heads kv tp rank l Htp Hclass (pq_heads _ _ _ _ _ Plk) (pq_kv _ _ _ _ _ Plk) Hl Hr nv loc Hv) as [locv Elocv].
  rewrite Ed in Elock, Elocv.
  destruct (part_block info nq heads kv hs heads rank tp (num_heads_local l) loc rest Gq q') as (uq & sq & Euq & Bq);
    try done; [apply Z.gcd_divide_l|lia|lia|].
  destruct (part_block info nk heads kv hs kv sr (num_kv_shards l) (num_kv_heads_local l) lock rest Gk k') as (uk & sk & Euk & Bk);
    try done; [apply Z.gcd_divide_r|by left|].
  destruct (part_block info nv heads kv hs kv sr (num_kv_shards l) (num_kv_heads_local l) locv rest Gv v') as (uv & sv & Euv & Bv);
    try done; [apply Z.gcd_divide_r|by left|].
  exists uq, sq, uk, sk, uv, sv. split; [|done]. unfold export_param. cbn [fst snd].
  rewrite (convert_qkv_run module info heads kv hs tp rank l _ nq nk nv fused t q' k' v'); [|done..].
  cbn [mbind res_bind]. rewrite Eloc. cbn [mbind res_bind].
  unfold fold_res. cbn [foldl]. unfold export_fragment. rewrite Vq, Vk, Vv. cbn [mret res_ret mbind res_bind fst snd].
  rewrite (adjust_other_run module info rank nq) by done. cbn [mbind res_bind]. rewrite Euq. cbn [mbind res_bind fst snd mret res_ret].
  rewrite Elock. cbn [mbind res_bind]. rewrite Euk. cbn [mbind res_bind fst snd mret res_ret].
  rewrite Elocv. cbn [mbind res_bind]. rewrite Euv. done.
Qed.
End exported.

(** ** Runs *)

Import Views.

Module Demo.
Definition info : Attrs := [("num_heads", CInt 8); ("num_kv_heads", CInt 2); ("head_size", CInt 2); ("intermediate_size", CInt 6)].
Definition attn : NnModule () := mkModule [("tp_size", VInt 4)] ["QKVParallelLinear"; "ColumnParallelLinear"].
Definition layout : QKVTPLayout := mkLayout 4 2 1 2.

(** The weights of the checkpoint, with elements numbered from [base]. *)
Definition weight (rows base : Z) : @tensor views := mkView [rows; 3] (λ idx, base + ravel [rows; 3] idx).
Definition part (rows base start : Z) : @tensor views := mkView [rows; 3] (λ idx, base + ravel [rows; 3] (alter (Z.add start) 0%nat idx)).
(** The parts of rank three of four. *)
Definition q := part 4 0 12.
Definition k := part 2 1000 2.
Definition v := part 2 2000 2.
Definition fused_weight : @tensor views := match cat 0 [q; k; v] with inr t => t | inl _ => q end.
Definition prefix : string := "model.layers.0.self_attn.qkv_proj".
Definition name (p : string) : string := "model.layers.0.self_attn." ++ p ++ ".weight".

Lemma part_is shard size total base : 0 ≤ shard → 0 ≤ size → shard * (size * 2) + size * 2 ≤ total * 2 →
  is_part shard size 2 total [3] (weight (total * 2) base) (part (size * 2) base (shard * (size * 2))).
Proof.
  intros Hs Hz Hb. split; [cbn; unfold dims; cbn; by rewrite Z.max_r by lia|]. split.
  - exists (total * 2). cbn. unfold dims. cbn. rewrite Z.max_r by lia. split_and!; [done|lia..].
  - cbn. unfold dims. cbn. by rewrite !Z.max_r by lia.
  - done.
Qed.

Lemma names_ok : qkv_names info 8 2 2 (qualified prefix "weight") (name "q_proj") (name "k_proj") (name "v_proj").
Proof.
  split; try (vm_compute; reflexivity).
  - repeat constructor.
  - repeat constructor.
  - discriminate.
Qed.

Lemma module_ok : qkv_module attn info 8 2 2 4 3 layout.
Proof. split; [reflexivity|left|reflexivity|lia|lia|lia]. Qed.

(** The mapping of the dense models starts with the fused weight. *)
Example dense_fused : build_from_parameter_mapping dense_mappings =
  inr [("qkv_proj", qkv_entry); ("gate_up_proj", mkEntry GATE_UP_PROJ_SPLIT [("gate_proj", 0); ("up_proj", 1)] false)].
Proof. done. Qed.

Example export_run : match export_param 3 [("qkv_proj", qkv_entry)] info info prefix attn (mkConv [] []) ("weight", fused_weight, false) with
  | inr c => (λ p, (p.1, @shape views p.2, @elem views p.2 [0; 1; 2])) <$> conv_state c =
               [(name "q_proj", [1; 4; 3], 41); (name "k_proj", [1; 2; 3], 1011); (name "v_proj", [1; 2; 3], 2011)] ∧
             (λ p, (shard_mesh p.2, shard_indices p.2)) <$> conv_sharding c =
               [([(0, 2); (1, 2)], [[1; 1]]); ([(0, 2)], [[1]]); ([(0, 2)], [[1]])]
  | inl _ => False end.
Proof. vm_compute. done. Qed.
End Demo.

Lemma vllm_qkv_exact_witness : ∃ uq sq uk sk uv sv,
  export_param 3 [("qkv_proj", qkv_entry)] Demo.info Demo.info Demo.prefix Demo.attn (mkConv [] []) ("weight", Demo.fused_weight, false) =
    inr (put (Demo.name "v_proj") uv sv (put (Demo.name "k_proj") uk sk (put (Demo.name "q_proj") uq sq (mkConv [] [])))) ∧
  block_of 2 8 3 (Demo.weight 16 0) [3] uq sq ∧ block_of 2 2 1 (Demo.weight 4 1000) [3] uk sk ∧ block_of 2 2 1 (Demo.weight 4 2000) [3] uv sv.
Proof.
  apply (vllm_qkv_exact Demo.attn Demo.info 8 2 2 4 3 Demo.layout Demo.prefix "weight" false [] (Demo.name "q_proj") (Demo.name "k_proj") (Demo.name "v_proj")
    [3] (Demo.weight 16 0) (Demo.weight 4 1000) (Demo.weight 4 2000) Demo.q Demo.k Demo.v Demo.fused_weight (mkConv [] []));
    [exact Demo.module_ok|exact Demo.names_ok|cbn; lia| | | |reflexivity].
  - apply (Demo.part_is 3 2 8 0); lia.
  - apply (Demo.part_is 1 1 2 1000); lia.
  - apply (Demo.part_is 1 1 2 2000); lia.
Defined.

Lemma sharding_in_mesh_witness : ∃ s, get_sharding_for_param 3 Demo.attn "weight" = inr s ∧ in_mesh s.
Proof.
  eexists. split; [vm_compute; reflexivity|]. eapply (sharding_in_mesh 3 Demo.attn "weight" _ 4); [reflexivity|lia|lia|vm_compute; reflexivity].
Defined.

(** The head counts of a model with a gate are doubled in the metadata: without a
    head size of its own, the head size is half of the true one. *)
Example gated_head_size : let cfg := [("num_attention_heads", CInt 4); ("hidden_size", CInt 64); ("attn_output_gate", CBool true)] in
  match get_model_info cfg with inr info => assoc "head_size" info = Some (CInt 8) ∧ assoc "num_heads" info = Some (CInt 8) | inl _ => False end.
Proof. vm_compute. done. Qed.
