(* ===== verification/HfConverters.v ===== *)
(** * Converting training and storage models

    psrl/utils/converter/fsdp_converter.py and hf_converter.py: the parameters of an
    FSDP model and of the whole model that the storage workers hold, converted to
    the same checkpoint parameters, with the sharding of each. *)

From S2P Require Import Prelude.
From S2P Require Import PyData.
From S2P Require Import EnvShell.
From S2P Require Import PyStr.
From S2P Require Import Sharding.
From S2P Require Import Tensors.
From S2P Require Import ModelSlices.
From S2P Require Import ShardSplit.
From S2P Require Import QkvLayout.
From S2P Require Import VllmConverter.

#[local] Open Scope string_scope.
#[local] Open Scope list_scope.
#[local] Open Scope Z_scope.

(** How a tensor is placed along a dimension of the device mesh. *)
Inductive Placement := PShard (d : Z) | PReplicate | PPartial.
#[export] Instance placement_eq_dec : EqDecision Placement.
Proof. solve_decision. Defined.

Section converters.
Context `{TensorOps}.
Abbreviation Updates := (list (string * tensor) * list (string * NIXLSharding))%type.

(** A distributed tensor on this rank: placements, sizes of the device mesh, global
    rank, coordinates in the mesh and local part. *)
Record DTensor := mkDTensor {
  placements : list Placement;
  mesh_sizes : list Z;
  global_rank : Z;
  mesh_coords : list Z;
  to_local : tensor;
}.

(** ** FSDP *)

Definition shard_dim (p : Placement) : Res Z :=
  if bool_decide (p = PShard 0) then inr 0 else if bool_decide (p = PShard 1) then inr 1 else inl ValueError.

Definition fsdp_sharding (t : DTensor) : Res NIXLSharding :=
  match placements t with
  | [p] =>
      match mesh_sizes t with
      | [n] => d ← shard_dim p; new_sharding [(d, n)] [[global_rank t]]
      | _ => inl AssertionError
      end
  | [p; p'] =>
      if bool_decide (p = PReplicate) then
        match mesh_sizes t, mesh_coords t with
        | [_; n], [_; r] => d ← shard_dim p'; new_sharding [(d, n)] [[r]]
        | _, _ => inl AssertionError
        end
      else inl AssertionError
  | _ => inl AssertionError
  end.

(** The tensors and the shardings that a parameter adds. *)
Definition updates_of (l : list (string * (tensor * NIXLSharding))) : Updates := ((λ e, (e.1, e.2.1)) <$> l, (λ e, (e.1, e.2.2)) <$> l).

Definition fsdp_param (info : Attrs) (p : string * DTensor) : Res Updates :=
  s ← fsdp_sharding p.2;
  split ← split_fused_moe_fsdp_param info p.1 (to_local p.2) s;
  match split with
  | Some u => mret u
  | None =>
      out ← maybe_reshape_qkv_to_3d info p.1 (to_local p.2) s;
      entries ← convert_hf_local_shard info p.1 out.1 out.2;
      mret (updates_of entries)
  end.

(** ** The whole model *)

Definition hf_param (info : Attrs) (p : string * tensor) : Res Updates :=
  out ← maybe_reshape_qkv_to_3d info p.1 p.2 default_sharding;
  entries ← convert_hf_local_shard info p.1 out.1 out.2;
  mret (updates_of entries).

(** ** State dictionaries *)

Definition update {V} (d l : list (string * V)) : list (string * V) := foldl (λ d e, dict_set e.1 e.2 d) d l.

Definition convert_params {P} (convert : P → Res Updates) (l : list P) : Res Converted :=
  fold_res (λ c p, u ← convert p; mret (mkConv (update (conv_state c) u.1) (update (conv_sharding c) u.2))) (mkConv [] []) l.

Definition convert_fsdp (info : Attrs) (l : list (string * DTensor)) : Res Converted := convert_params (fsdp_param info) l.
Definition convert_hf (info : Attrs) (l : list (string * tensor)) : Res Converted := convert_params (hf_param info) l.

(** The version of FSDP is checked first. *)
Definition convert_fsdp_inplace (info : Attrs) (fsdp_version : Z) (l : list (string * DTensor)) : Res Converted :=
  _ ← ensure (bool_decide (fsdp_version = 2)) AssertionError; convert_fsdp info l.
End converters.

(** ** The train side and the storage agree *)

Section agreement.
Context `{TensorLaws}.

(** Names of attention projections that no other conversion takes. *)
Record attention_name (name : string) : Prop := {
  an_linear : contains "linear_attn.in_proj_qkv.weight" name = false ∧ contains "linear_attn.conv1d.weight" name = false;
  an_visual : is_visual_qkv name = false;
  an_expert : get_fused_moe_expert_prefix name "gate_up_proj" = None ∧ get_fused_moe_expert_prefix name "down_proj" = None;
}.

Lemma attention_shard_run info name t d n r s : attention_name name → shard_mesh s !! 0%nat = Some (d, n) → (∃ idx, shard_indices s !! 0%nat = Some (r :: idx)) →
  convert_hf_local_shard info name t s = inr [(name, (t, s))].
Proof.
  intros [[H1 H2] Hv [He Hd]] Hm [idx Hi]. unfold convert_hf_local_shard. destruct (shard_mesh s) as [|row mesh]; [done|]. injection Hm as ->.
  destruct (shard_indices s) as [|i is_]; [done|]. injection Hi as ->. cbn [mret res_ret mbind res_bind].
  rewrite H1, H2, !andb_false_r, Hv. unfold maybe_convert_to_smaller_parts. rewrite H2, H1, Hv. cbn [mret res_ret mbind res_bind].
  by rewrite He, Hd.
Qed.

Lemma alter_one (idx : list Z) : alter (Z.mul 1) 0%nat idx = idx.
Proof. destruct idx as [|i idx]; [done|]. cbn. by rewrite Z.mul_1_l. Qed.

(** The only block of a mesh of one is the tensor. *)
Lemma block_one C u : is_block [(0, 1)] [0] C u → same C u.
Proof.
  intros [Hs He]. cbn in Hs. rewrite alter_one in Hs. split; [done|]. intros idx Hv. rewrite Hs in Hv. rewrite He by done. f_equal.
  unfold block_shift. cbn. by destruct idx.
Qed.

Lemma is_reshape_same s G C u : same C u → is_reshape s G C → is_reshape s G u.
Proof.
  intros [Hs He] [HC EC]. split; [congruence|]. intros idx idx' Hv Hv' Hr. rewrite <- He by by rewrite Hs. apply EC; [by rewrite Hs|done|by rewrite Hs].
Qed.

(** A distributed tensor cut in [n] along [d], of which this rank has the shard
    [r]: by FSDP alone, or with replicas of the groups that cut it. *)
Definition cut (d n r : Z) (t : DTensor) : Prop :=
  placements t = [PShard d] ∧ mesh_sizes t = [n] ∧ global_rank t = r ∨
  placements t = [PReplicate; PShard d] ∧ ∃ k c, mesh_sizes t = [k; n] ∧ mesh_coords t = [c; r].

Lemma cut_sharding d n r t : d = 0 ∨ d = 1 → cut d n r t → ∃ loc, fsdp_sharding t = inr (mkSharding [(d, n)] loc [[r]]).
Proof.
  intros Hd Hc. destruct (new_single_sharding [(d, n)] [r]) as [loc El]. exists loc. unfold fsdp_sharding.
  assert (shard_dim (PShard d) = inr d) as Es by (destruct Hd as [-> | ->]; done).
  destruct Hc as [(-> & -> & ->)|(-> & k & c & -> & ->)]; [|rewrite bool_decide_eq_true_2 by done]; rewrite Es; exact El.
Qed.

Lemma not_expert_run info name t s : attention_name name → split_fused_moe_fsdp_param info name t s = inr None.
Proof. intros [_ _ [He Hd]]. unfold split_fused_moe_fsdp_param. by rewrite He, Hd. Qed.

(** Storage reshapes the whole weight, and keeps it whole. *)
Lemma hf_param_run info name heads kv hs G q rest : plain_qkv info name heads kv hs → attention_name name →
  0 < Z.gcd heads kv → shape G = Z.gcd heads kv * q :: rest → (length rest ≤ 1)%nat → 0 < q →
  ∃ u, hf_param info (name, G) = inr ([(name, u)], [(name, default_sharding)]) ∧ is_reshape [Z.gcd heads kv; q; product rest] G u.
Proof.
  intros Hp Ha Hg HG Hrest Hq.
  assert (is_narrow 0 (0 * (Z.gcd heads kv * q)) (Z.gcd heads kv * q) G G) as Nt.
  { split.
    - exists (Z.gcd heads kv * q). rewrite HG. split_and!; [done|lia|lia|lia].
    - by rewrite HG.
    - intros idx _. f_equal. destruct idx as [|i idx]; done. }
  destruct (qkv_block info name heads kv hs G G q (Z.gcd heads kv * q) 0 1 0 rest [(0, 1)]) as (u & s' & coords & E & Hi & _ & _ & [C HC] & Hb);
    [done|done|done|done|done|lia|lia|lia| | |exact Nt|].
  { left. split; [done|]. left. apply Z.divide_1_l. } { rewrite HG. change (Some (Z.gcd heads kv * q) = Some (1 * (Z.gcd heads kv * q))). by rewrite Z.mul_1_l. }
  pose proof E as E'. rewrite (plain_run info name heads kv hs G (Z.gcd heads kv * q) rest 0 1 0 [(0, 1)] Hp HG Hrest ltac:(lia)) in E'.
  cbn zeta in E'. rewrite (bool_decide_eq_false_2 (0 = 1)), (bool_decide_eq_true_2 (1 ≤ Z.gcd heads kv)) in E' by lia.
  apply bind_inr in E' as (u' & _ & [= -> <-]). cbn [shard_mesh shard_indices] in *. injection Hi as <-.
  exists u. unfold hf_param. cbn [fst snd]. change default_sharding with (mkSharding [(0, 1)] [(0, 1)] [[0]]). rewrite E. cbn [mbind res_bind fst snd].
  erewrite attention_shard_run; [|done|reflexivity|by exists []]. split; [done|].
  eapply is_reshape_same; [apply block_one, Hb, HC|exact HC].
Qed.

(** C24: A query, key or value weight (a query weight without MLA or attention gate)
    whose rows divide into the groups of heads and which FSDP or HSDP cuts evenly, by
    columns or by rows with the ranks dividing the groups or the groups the ranks, as
    storage and as a rank of the train side register it: storage registers the whole weight under the trivial sharding, arranged by
    groups of heads, that is with shape (gcd of query and key-value heads, rows per
    group, columns) and the elements in row-major order; a rank registers exactly the
    block of that same tensor that its own sharding names, and the coordinates it
    names number the rank, so that different ranks register different blocks. *)
Theorem train_storage_agree info name heads kv hs G q l d ws rank rest (t : DTensor) :
  plain_qkv info name heads kv hs → attention_name name → 0 < Z.gcd heads kv → shape G = Z.gcd heads kv * q :: rest → (length rest ≤ 1)%nat →
  0 < q → 0 < l → 0 < ws → 0 ≤ rank < ws → d = 0 ∧ ((ws | Z.gcd heads kv) ∨ (Z.gcd heads kv | ws)) ∨ d = 1 →
  shape G !! Z.to_nat d = Some (ws * l) → cut d ws rank t → is_narrow (Z.to_nat d) (rank * l) l G (to_local t) →
  ∃ whole part s coords, hf_param info (name, G) = inr ([(name, whole)], [(name, default_sharding)]) ∧
    is_reshape [Z.gcd heads kv; q; product rest] G whole ∧
    fsdp_param info (name, t) = inr ([(name, part)], [(name, s)]) ∧
    shard_indices s = [coords] ∧ ravel (shard_mesh s).*2 coords = rank ∧ is_block (shard_mesh s) coords whole part.
Proof.
  intros Hp Ha Hg HG Hrest Hq Hl Hws Hr Hd Hn Hc Nt. destruct (hf_param_run info name heads kv hs G q rest Hp Ha Hg HG Hrest Hq) as (whole & Ew & Rw).
  destruct (cut_sharding d ws rank t ltac:(tauto) Hc) as [loc Es].
  destruct (qkv_block info name heads kv hs G (to_local t) q l d ws rank rest loc Hp Hg HG Hrest Hq Hl Hws Hr Hd Hn Nt) as (u & s & coords & E & Hi & [Hlen Hne] & Hv & _ & Hb).
  exists whole, u, s, coords. split; [done|]. split; [done|]. split; [|split; [done|split; [done|by apply Hb]]].
  unfold fsdp_param. cbn [fst snd]. rewrite Es. cbn [mbind res_bind]. rewrite not_expert_run by done. cbn [mbind res_bind]. rewrite E. cbn [mbind res_bind fst snd].
  destruct coords as [|r coords]; [done|]. destruct (shard_mesh s) as [|[d' n'] mesh] eqn:Em; [done|].
  rewrite (attention_shard_run info name u d' n' r s); [done|done|by rewrite Em|exists coords; by rewrite Hi].
Qed.
End agreement.

(** ** Runs *)

Lemma train_storage_agree_witness :
  let t := mkDTensor (H := Views.views) [PReplicate; PShard 0] [2; 8] 13 [1; 5] (QkvLayout.Demo.shard 5 2) in
  ∃ whole part s coords, hf_param QkvLayout.Demo.info (QkvLayout.Demo.q_name, QkvLayout.Demo.global) =
      inr ([(QkvLayout.Demo.q_name, whole)], [(QkvLayout.Demo.q_name, default_sharding)]) ∧
    is_reshape [4; 4; 3] QkvLayout.Demo.global whole ∧
    fsdp_param QkvLayout.Demo.info (QkvLayout.Demo.q_name, t) = inr ([(QkvLayout.Demo.q_name, part)], [(QkvLayout.Demo.q_name, s)]) ∧
    shard_indices s = [coords] ∧ ravel (shard_mesh s).*2 coords = 5 ∧ is_block (shard_mesh s) coords whole part.
Proof.
  apply (@train_storage_agree Views.views Views.views_laws QkvLayout.Demo.info QkvLayout.Demo.q_name 8 4 2 QkvLayout.Demo.global 4 2 0 8 5 [3]
    (mkDTensor (H := Views.views) [PReplicate; PShard 0] [2; 8] 13 [1; 5] (QkvLayout.Demo.shard 5 2)));
    [exact QkvLayout.Demo.info_plain| |reflexivity|reflexivity|cbn; lia|lia|lia|lia|lia| |reflexivity| |apply (QkvLayout.Demo.shard_narrow 5 2); lia].
  - split; [split|..]; [vm_compute; reflexivity..|split; vm_compute; reflexivity].
  - left. split; [reflexivity|]. right. exists 2. reflexivity.
  - right. split; [reflexivity|]. exists 2, 1. split; reflexivity.
Defined.

(** A one-dimensional device mesh that does not start at rank zero: the shard is
    numbered by the global rank, outside the mesh, and nothing is raised. *)
Example global_rank_outside_mesh :
  match fsdp_sharding (mkDTensor (H := Views.views) [PShard 0] [4] 6 [2] (QkvLayout.Demo.shard 0 2)) with
  | inr s => shard_mesh s = [(0, 4)] ∧ shard_indices s = [[6]]
  | inl _ => False end.
Proof. vm_compute. done. Qed.
